(* ===== verification/_CoqProject ===== *)
-Q . S2P
Prelude.v
Text.v
Float.v
Order.v
Types.v
PostRoll.v
Preroll.v
RecordingHealth.v
FrameCache.v
MotionGate.v
CrowdPolicy.v
ParamSets.v
Users.v
Lockout.v
AuditLog.v
Sessions.v
Login.v
UsersAdmin.v
Oidc.v
RequireRole.v
Backoff.v
Alert.v
Sinks.v
Outbox.v
Policy.v
Dispatcher.v
Zones.v
Rules.v
Tracker.v
ByteTrack.v
FramePath.v
ReplayCache.v
ActorToken.v
RpcDispatch.v
ClipStore.v
AlertClips.v
Schema.v
Watermark.v
Reclaim.v
Retention.v
Throttle.v
ColdStore.v
ColdReplicator.v
Stats.v
Cameras.v
Ingesters.v
Reconciler.v
MotionEvents.v
Nms.v
Detectors.v
Backends.v
Worker.v
Tiles.v
StaticObject.v
Annotator.v
Sightings.v
ClipLoop.v
BurnBoxes.v
Supervisor.v
LiveTap.v
LivePump.v
Recorder.v
AlertBuilds.v
ColdReadCache.v
ClipServe.v
AdminAudit.v
SinkConfigs.v
CanonicalJson.v
Fleet.v
FleetHash.v
