(* ===== verification/Prelude.v ===== *)
(** * Nexus Edge AI Core: a verification library

    The program is an edge appliance for cameras, a set of Rust crates under [src/crates]. A
    reconciler ([nexus-engine]) keeps a supervisor running per camera. The supervisor's frame loop
    ([nexus-pipeline]) gates the frames, has objects detected in them ([nexus-inference]), tracks and
    annotates the objects ([nexus-tracker]), turns them into alerts by rules ([nexus-rules]) and keeps
    clips of the footage; alerts are recorded with a delivery row per sink ([nexus-store]) and
    delivered by a dispatcher ([nexus-sinks]) under a delivery policy; clips are kept, evicted and
    copied to cold storage; operators log in to an HTTP API ([nexus-engine/src/auth]), and a cloud
    service reaches the appliance through a tunnel ([nexus-cloud-client]).
    The library models the parts of this chain that decide something, each in a file of its own:

<<
    shared          Prelude, Text, Float, Order, Types, Alert
    cameras         Cameras, Ingesters, Reconciler
    pipeline        PostRoll, Preroll, RecordingHealth, FrameCache, MotionGate,
                    CrowdPolicy, ParamSets, Stats, LiveTap
    recording       LivePump, Recorder, AlertBuilds
    inference       Nms, Detectors, Backends, Worker, Tiles
    tracking        Zones, Tracker, ByteTrack, MotionEvents, StaticObject, Annotator, Sightings
    rules           Rules
    frame loop      FramePath, ClipLoop, BurnBoxes, Supervisor
    authentication  Users, Lockout, AuditLog, Sessions, Login, UsersAdmin, Oidc, RequireRole
    delivery        Backoff, Sinks, Outbox, Policy, Dispatcher
    cloud tunnel    ReplayCache, ActorToken, RpcDispatch
    storage         ClipStore, AlertClips, Schema, Watermark, Reclaim, Retention
    cold storage    Throttle, ColdStore, ColdReplicator, ColdReadCache, ClipServe
    administration  AdminAudit, SinkConfigs, CanonicalJson, Fleet, FleetHash
>>

    ** How code becomes definitions

    A definition is named after the function, method or type it translates, in a file named after
    the source module. Integers are [Z], with the wrap-around or saturation of their width written
    out ([usat_add], [sat_sub], [mod 2 ^ 32]); instants and durations are nanoseconds; [f32] and
    [f64] are the Standard Library's executable IEEE floats (file [Float]). Maps are [gmap],
    except where order matters, where they are lists. A fallible function returns an [option] or a
    [result]; a handler over the store is a program of the state-and-error monad [SE], whose state
    is what has been written when it fails. A lock held for a whole method makes the method one
    step, and concurrent use is a sequence of such steps: class [Machine] gives a component's
    operations as one step function, [mrun] runs a sequence, and the invariants of runs are proved
    through [iter_preserves] and its kin. Class [WireEnum] is the interface of the enumerations
    with a text form and states their round trip once. Class [DeliveryPolicy] is the trait of the
    same name: the dispatcher is proved against it, and the cascade, the cloud wrapper and the
    allow-all policy are its instances. Class [ColdBackend] is the trait of a cold backend and
    [ColdBackendLaws] its contract: the replicator is proved against it, and the LAN backend keeps
    it. Classes [ClipRecorder] and [ClipRecorderLaws] are the registration half of the recorder: the
    reconciler is proved against them, and the GStreamer recorder keeps them. Classes [TrackerOps]
    and [TrackerLaws] are what the frame loop relies on in a tracker, and ByteTrack keeps them. A
    detector is a record of programs over a world that holds the devices. Class [Comparator] (file [Order]) states what a comparison
    function owes to the stable [sort_by]; the orders in which ByteTrack assigns are its instances.

    Recursion is structural, on the list of objects, rules, rows, tracks, bytes or operations the
    code walks, with these exceptions. The stack of JSON values of [ActorToken.only_camera] has fuel,
    the number of nodes of the body, and [only_camera_spec] proves that this is enough;
    [Retention.sweep_outbox] has one turn per five hundred settled deliveries and one more, and
    [outbox_sweep_ends_exact] proves that it stops by itself; the chunks of
    [ColdStore.lan_get_range_stream] are counted, and [stream_is_the_range] proves that they cover
    the range; [Worker.serve] has one turn per byte of its input and one more, and [main_exits] proves
    that the worker's loop ends within them; [Reclaim.reclaim_batch] has the 64 steps of the code. What the code takes from outside is a parameter or an
    argument: clocks, random draws and file-system answers are arguments; Argon2, SHA-256, the
    JWT library, the identity provider, the CEL compiler and interpreter, time zones, the
    JSON and MessagePack codecs, the digits of a float, [hypot], [atan2], the models behind a detector, the walking order of a hash map and what a sink answers to [deliver] are section variables, instantiated by concrete
    functions in the witnesses.

    ** The parts

    - [Cameras], [Ingesters], [Reconciler] ([cameras.rs], [gst_clip_recorder.rs], [reconciler.rs]): the
      rows, the recorder's sessions and the pass that brings the running tasks to what the rows say.
      There is one supervisor per camera; a pass on which nothing ends runs what the rows ask for;
      no session to a camera outlives its registration.
    - [PostRoll] ([post_roll.rs]): the deferred close of a clip. A clip closes at the first quiet
      frame that is [grace] or more after motion ended, and motion within the grace keeps it open.
    - [Preroll] ([preroll.rs]): the ring of recent samples kept in groups that start at a key frame.
      The invariant [ring_wf] (groups start at a key frame, the byte counter is the sum of the
      payloads) holds on every run; [push] refines "append, then drop whole groups from the
      front"; the retained duration is bounded; a snapshot can be spliced in front of a recording.
    - [RecordingHealth] ([recording_health.rs]): revisioned recording attempts over shared status
      maps. A stale success does not hide a newer failure, and a removed camera reports nothing.
    - [FrameCache] ([cache.rs], [static_clear.rs]): the latest frame and objects of a camera, by
      session. Writers of a superseded session are dropped; objects shown are of the session shown.
    - [MotionGate] ([gate.rs]): which frames reach the detector. The rate of passed frames is
      bounded from above and from below, whatever the pixels.
    - [CrowdPolicy] ([skip_policy.rs], [crowd_hysteresis.rs]): the detector runs at least once in
      every N frames; a downscale is held for the clear window.
    - [ParamSets] ([param_sets.rs]): splitting of access units into NAL units, recognition and change
      detection of parameter sets, and their injection in front of a bare key frame.
    - [LiveTap] ([preroll_ingester.rs]): what happens to a sample between the parser, the ring and the
      live broadcast. The samples of one epoch are given one content per parameter set.
    - [LivePump] ([gst_clip_recorder.rs], [run_live_pump]): the media of a clip, from the pre-roll through
      the gate to the live samples. What the muxer is given can be muxed, and while it takes its
      buffers nothing of the stream is lost. Three [Example]s show what the code lets slip.
    - [Recorder] ([gst_clip_recorder.rs], [recorder.rs]): opening and closing of clips over the clip tables,
      the files and the health registry. Every call of the database in a close may fail, and so may the
      removal of a file. The row of a closed clip says what was recorded, or is gone, or stays open
      because its last write failed; a camera is called healthy only when its file was verified; open
      clips do not touch each other; a shutdown leaves a row open only where the write that closes it
      failed.
    - [AlertBuilds] ([gst_clip_recorder.rs], [arm_alert_clip], [run_alert_clip_builder]): the clips made for
      alerts. At most four are in the making and no slot is lost; an alert is given a clip that is
      being built, or its camera is reported; a build that ends settles its row.
    - [Stats] ([stats.rs]): the registries of frame statistics, decode health and the analysis stream.
    - [Nms] ([nms.rs], [caps.rs]): suppression, which keeps exactly what greedy suppression by
      confidence keeps (file [Order] has it once for all), naive or bucketed, and the two caps.
    - [Detectors] ([detectors.rs], [ensemble.rs], [health.rs]): the wrappers of a detector, the ensemble,
      which answers for the members that work, and the registry of what did not load.
    - [Backends] ([backends.rs], [pool.rs]): a slot on a thread of its own as a step system in which a
      device hangs or panics, and the pool as one in which concurrent calls look at slots under a
      shared cursor. A slot is given up only on its record; a pool whose slots hang is left for the
      fallback, however its calls interleave. [pick_can_miss] shows a call that finds no slot although
      one is ready.
    - [Worker] ([worker_proto.rs], the worker binary): framing, the worker's loop, which is its detector,
      and the parent's side, whose callers get the answers to their own questions.
    - [Tiles] ([tile.rs], [tile_executor.rs]): the crop of a tile is the window of the picture; the cascade
      only adds detections.
    - [Zones] ([cameras.rs], [zone_filter.rs]): zones, the even-odd test and the two zone filters.
    - [Tracker] ([nexus-tracker/src/lib.rs]): the naive tracker. Every detection is one object;
      [newborn_taken_twice] shows two objects of one frame that share an id.
    - [ByteTrack] ([bytetrack.rs]): prediction, the overlap passes with their grid, the motion pass,
      ageing, births, retirement and emission. The tracks on a frame hold its confident
      detections, each exactly once; an id is one object for ever; the first pass is a stable
      matching; tracks that are not seen again are dropped. The matches of a frame are an explicit
      list, and [assoc_ok] says how the four vectors of the code relate to it.
    - [MotionEvents] ([motion.rs]): the events of a track are a birth, samples a period apart, a death.
    - [StaticObject] ([static_object.rs]): the filter that hides parked vehicles. A vehicle that stays
      is hidden after the configured time; the registry on disk holds the anchors of memory, up to
      the times of last sight, which only memory has: [a_long_parked_car_is_forgotten] shows what a
      restart makes of that.
    - [Annotator] ([annotator.rs]): the attributes of motion, dwell, zones, groups and proximity.
    - [Sightings] ([entity_sighting.rs], [entity.rs]): when a track's picture is sent on, and the table of
      local ids that carries it over a restart.
    - [ClipLoop] ([supervisor.rs]): when a clip is opened, rotated, retried and closed, and what is
      linked to it. A clip that is wanted and did not open is tried again.
    - [BurnBoxes] ([alert_clip.rs]): boxes, pre-roll and stride of an alert clip.
    - [FramePath], [Supervisor] ([supervisor.rs]): the zone filters, and the whole turn of [run_camera]
      over the parts above. A recorded alert shows a detection of its own frame outside the
      exclusion zones; a parked car is silent; live motion is recorded; every alert has a clip that
      stays open after it; the clips are bracketed by open and close and each has one frame
      size; seen through its recorder calls the loop is [ClipLoop].
    - [Rules] ([nexus-rules]): gates, zones, debounce, cooldown and static episodes around a CEL
      predicate. Alerts of a rule on a camera are a cooldown apart; an alert is evidence of an
      object seen on that frame; a parked object alerts once per episode.
    - [Users], [Sessions], [AuditLog] ([nexus-store]): the tables with their constraints and every
      operation. An active admin always remains; token hashes stay unique; the chain of a
      revoked session can only stay revoked.
    - [Lockout], [Login] ([auth/lockout.rs], [auth/login.rs], [auth/passwords.rs]): the handlers whole. A login succeeds
      only for an enabled, unlocked account with the right password; guessing locks the account;
      a replayed refresh token kills its chain, unless the write that kills it fails; a killed chain
      stays killed; a new password ends the user's sessions. Each statement of the store may fail on its own. [Login.interleaved_refreshes_both_succeed] shows the race that is left.
    - [UsersAdmin] ([auth/users_admin.rs]): a deleted user cannot come back.
    - [Oidc] ([auth/oidc_login.rs], [auth/oidc_role_map.rs]): an OIDC session is opened only for a pending
      state of this server, used once and not expired, with the token the provider vouches for
      and the role the first listed claim maps to; URL encoding is inverted by decoding.
    - [RequireRole] ([auth/require_role.rs]): a request passes only with a token that verifies and a
      role that suffices.
    - [Sinks], [Outbox], [Backoff] ([nexus-sinks/src/lib.rs], [nexus-store/src/outbox.rs],
      [nexus-sinks/src/backoff.rs]): sink configuration, the delivery ledger and the retry schedule.
      An event is recorded with all its rows or not at all; the schedule is a capped doubling.
    - [Policy] ([policy.rs], [cloud_alert_sink.rs], [entitlements.rs]): an alert is delivered exactly when the
      entitlement, the global switch, the rule's override and the schedule allow it.
    - [Dispatcher] ([dispatcher.rs]): one row ([process_row]) and the drain ([tick_start], interleaved
      [group_step]s, [tick_end]) with reloads, new alerts and pruning in between. Sent, dead and
      suppressed rows are final; [deliver] is called at most [MAX_ATTEMPTS] times for a row; a row
      whose clip is settled leaves [pending]; a snapshot is deleted only when no row needs it.
    - [ReplayCache], [ActorToken], [RpcDispatch] ([nexus-cloud-client]): the replay and response caches,
      the verifier of actor tokens with its action table, and the dispatcher of remote calls. The
      handler runs only for a call its token or the anonymous-read rule allows, at most once for a
      token id and request id while the key is cached; a retry gets the first answer.
    - [ClipStore], [AlertClips] ([nexus-store/src/motion.rs], [alert_clip.rs]): the clip tables with
      their constraints and every query of them.
    - [Schema] (the migrations, [lib.rs], [outbox.rs]): these tables with their events, deliveries and cameras as one
      database whose constraints refuse a write that breaks them. The references hold on every run, and
      a closed list says which writes are ever refused; no other statement of the code is.
    - [Watermark], [Reclaim] ([storage_safety.rs], [alert_clip_evict.rs]): the free-space controller
      and the reclaim ladder over a disk. Live clips and replicated footage are spared, a file is
      removed only when its row allows it, the cameras take turns.
    - [Retention] ([retention.rs], [audit_retention.rs], the sweepers): old clips, settled deliveries,
      orphan files. Known and young files stay; the sweep of the outbox ends with what it should.
    - [Throttle], [ColdStore] ([nexus-storage]): the token bucket, the registry of backends and the LAN
      backend over a file system that may fail at every call. A torn upload is never taken for a
      copy; what was put reads back, streamed or at once.
    - [ColdReplicator] ([cold_replicator.rs]): the upload loop. A clip is marked as replicated only
      when the backend holds it; an unacknowledged clip stays to be announced; a clip that keeps
      failing is given up.
    - [ColdReadCache] ([cold_read_cache.rs]): the jobs that bring evicted clips back, turn by turn, beside
      the watermark and the clip tables. At most four run; what a finished job publishes has the
      hash of its row and lies in the clips directory; [early_pressure_is_missed] shows pressure that is not heard.
    - [ClipServe] ([api/clips.rs]): playback. What is sent is a window of the clip's file, resolved to a path
      under the clips directory; range headers read back.
    - [AdminAudit], [SinkConfigs] ([auth/admin_audit.rs], [sinks.rs], [api.rs]): alert sinks, their secrets and
      their administration. A secret that is stored leaves neither in an answer nor in the audit log;
      an edit that does not touch the redacted secret keeps it.
    - [CanonicalJson], [Fleet], [FleetHash] ([fleet_apply.rs], [fleet_hash.rs], [fleet.rs]): the settings the
      cloud pushes, statement by statement among the writes of other requests, and their digests. A
      merge spares what is local; equal canonical texts mean equal values; an apply that succeeds
      shows no drift.

    ** What is not modelled

    Capture, encoding, WebRTC and the HTTP plumbing are I/O, and the models run in ONNX Runtime. Pure
    decisions the library does not cover yet: the network and update plans, the choice of model per
    camera, sealed tokens, the outbox of the tunnel. In the
    modelled files, database I/O errors are modelled where the caller distinguishes them (the dispatcher, the login
    handlers, the recorder, the cold jobs, reclaim, the alert builds, the administration) and not otherwise; a panicking sink task, the tokio timers
    and the two listing queries of the audit log are left out. Text operations fold case and trim
    white space in ASCII only (see [Text]). *)

From stdpp Require Export base tactics numbers strings option gmap sorting list.

#[global] Set Default Goal Selector "!".
Open Scope Z_scope.

(** Facts that automation may use in every component. *)
Create HintDb nexus.

(** ** Machine-width integers and durations *)

Definition umax (w : Z) : Z := 2 ^ w - 1.

(** [usat_add w] is Rust's [saturating_add] at width [w]. *)
Definition usat_add (w a b : Z) : Z := Z.min (a + b) (umax w).

Definition usat_mul (w a b : Z) : Z := Z.min (a * b) (umax w).

(** [sat_sub] is [saturating_sub] on unsigned integers and durations, and
    [Instant::saturating_duration_since]. *)
Definition sat_sub (a b : Z) : Z := Z.max 0 (a - b).

Definition ns_per_sec : Z := 1000000000.
Definition ns_per_ms : Z := 1000000.

Definition secs (s : Z) : Z := s * ns_per_sec.
Definition millis (m : Z) : Z := m * ns_per_ms.
Definition as_millis (d : Z) : Z := d / ns_per_ms.

Lemma mod_succ c n : 0 < n -> (c + 1) mod n <> 0 -> (c + 1) mod n = c mod n + 1.
Proof.
  intros Hn Hz. pose proof (Z.mod_pos_bound c n Hn). pose proof (Z.div_mod c n ltac:(lia)).
  destruct (Z.eq_dec (c mod n + 1) n) as [E|].
  - exfalso. apply Hz. symmetry. apply (Z.mod_unique _ _ (c / n + 1)); lia.
  - symmetry. apply (Z.mod_unique _ _ (c / n)); lia.
Qed.

(** ** State machines driven by a sequence of calls *)

Class Machine (Op St Out : Type) := mstep : Op -> St -> St * Out.

Section machine.
Context `{Machine Op St Out}.

Fixpoint mrun (ops : list Op) (s : St) : St * list Out :=
  match ops with
  | [] => (s, [])
  | o :: ops' =>
      let '(s1, out) := mstep o s in
      let '(s2, outs) := mrun ops' s1 in
      (s2, out :: outs)
  end.

Lemma mrun_cons o ops s :
  mrun (o :: ops) s =
  ((mrun ops (mstep o s).1).1, (mstep o s).2 :: (mrun ops (mstep o s).1).2).
Proof. simpl. destruct (mstep o s) as [s1 out]; simpl. by destruct (mrun ops s1). Qed.

Lemma mrun_app ops1 ops2 s :
  mrun (ops1 ++ ops2) s =
  ((mrun ops2 (mrun ops1 s).1).1, (mrun ops1 s).2 ++ (mrun ops2 (mrun ops1 s).1).2).
Proof.
  revert s. induction ops1 as [|o ops1 IH]; intros s.
  - simpl. by destruct (mrun ops2 s).
  - rewrite <- app_comm_cons, !mrun_cons, IH. done.
Qed.

Lemma mrun_length ops s : length (mrun ops s).2 = length ops.
Proof. revert s. induction ops as [|o ops IH]; intros s; [done|]. rewrite mrun_cons. simpl. by rewrite IH. Qed.

(** An invariant of the single steps that a run takes holds at its end. *)
Lemma mrun_invariant (ok : Op -> Prop) (I : St -> Prop) ops s :
  (forall o s, ok o -> I s -> I (mstep o s).1) ->
  Forall ok ops -> I s -> I (mrun ops s).1.
Proof.
  intros Hstep Hops. revert s. induction Hops as [|o ops Ho Hops IH]; intros s HI; [done|].
  rewrite mrun_cons. simpl. apply IH, Hstep; done.
Qed.
End machine.

(** ** Lists *)

Lemma Forall_repeat {A} (P : A -> Prop) x n : P x -> Forall P (repeat x n).
Proof. intros. induction n; simpl; eauto. Qed.

Lemma length_bind_const {A B} (f : A -> list B) l k :
  (forall x, length (f x) = k) -> length (l ≫= f) = (length l * k)%nat.
Proof. intros H. induction l as [|x l IH]; [done|]. by rewrite bind_cons, length_app, H, IH. Qed.

Definition zlength {A} (l : list A) : Z := Z.of_nat (length l).

(** Consecutive elements are at least [gap] apart; [prev] precedes the list. *)
Fixpoint spaced (gap : Z) (prev : option Z) (ts : list Z) : Prop :=
  match ts with
  | [] => True
  | t :: ts' => match prev with Some p => p + gap <= t | None => True end /\ spaced gap (Some t) ts'
  end.

(** The element that precedes what follows [ts], when [prev] precedes [ts]. *)
Definition last_or {A} (prev : option A) (ts : list A) : option A :=
  match last ts with Some t => Some t | None => prev end.

Lemma last_or_app {A} (prev : option A) a b : last_or prev (a ++ b) = last_or (last_or prev a) b.
Proof. unfold last_or. rewrite last_app. by destruct (last b). Qed.

Lemma spaced_app gap prev a b : spaced gap prev (a ++ b) <-> spaced gap prev a /\ spaced gap (last_or prev a) b.
Proof.
  revert prev. induction a as [|t a IH]; intros prev; simpl; [tauto|].
  rewrite IH. unfold last_or. rewrite last_cons. destruct (last a); tauto.
Qed.

(** Iteration of a map in increasing key order ([BTreeMap]). *)
Definition key_le {A} (x y : Z * A) : Prop := x.1 <= y.1.

#[export] Instance key_le_dec {A} : RelDecision (@key_le A).
Proof. intros x y. unfold key_le. apply _. Defined.

Definition sorted_entries {A} (m : gmap Z A) : list (Z * A) :=
  merge_sort key_le (map_to_list m).

Lemma elem_of_sorted_entries {A} (m : gmap Z A) k v :
  (k, v) ∈ sorted_entries m <-> m !! k = Some v.
Proof. unfold sorted_entries. by rewrite merge_sort_Permutation, elem_of_map_to_list. Qed.

(** ** Fallible code *)

Inductive result (A E : Type) : Type :=
| Ok (a : A)
| Err (e : E).
Arguments Ok {A E} a.
Arguments Err {A E} e.

Declare Scope nexus_scope.
Delimit Scope nexus_scope with nexus.
Open Scope nexus_scope.

(** [let? x := c in k] is [let x = c?; k]. *)
Notation "'let?' x ':=' c 'in' k" :=
  (match c with Ok x => k | Err e => Err e end)
  (at level 10, x pattern, c at level 100, k at level 200) : nexus_scope.

(** [try? c in k] is [c?; k]. *)
Notation "'try?' c 'in' k" :=
  (match c with Ok _ => k | Err e => Err e end)
  (at level 10, c at level 100, k at level 200) : nexus_scope.

(** A loop that stops at the first error. *)
Fixpoint try_for {A E} (f : A -> result unit E) (l : list A) : result unit E :=
  match l with
  | [] => Ok tt
  | x :: l' => try? f x in try_for f l'
  end.

Lemma try_for_ok {A E} (f : A -> result unit E) l :
  try_for f l = Ok tt <-> Forall (fun x => f x = Ok tt) l.
Proof.
  induction l as [|x l IH]; simpl; [by split|].
  rewrite Forall_cons, <- IH. destruct (f x) as [[]|]; naive_solver.
Qed.

(** ** Enumerations with a wire form *)

(** A type whose values travel as strings: [wire_str] is its [as_str] or [Display], and
    [wire_parse] its [FromStr] or [TryFrom<&str>]. The law: the parser accepts exactly the
    printed forms. *)
Class WireEnum (A : Type) := {
  wire_str : A -> string;
  wire_parse : string -> option A;
  wire_exact : forall s a, wire_parse s = Some a <-> s = wire_str a;
}.

Lemma wire_roundtrip `{WireEnum A} (a : A) : wire_parse (wire_str a) = Some a.
Proof. by apply wire_exact. Qed.

Lemma wire_str_inj `{WireEnum A} (a b : A) : wire_str a = wire_str b -> a = b.
Proof. intros Hs. pose proof (wire_roundtrip a) as Ha. rewrite Hs, wire_roundtrip in Ha. congruence. Qed.

(** A string match with one arm per printed form. *)
Definition str_eqb (a b : string) : bool := bool_decide (a = b).

Fixpoint match_str {A} (arms : list (string * A)) (s : string) : option A :=
  match arms with
  | [] => None
  | (p, a) :: arms' => if str_eqb s p then Some a else match_str arms' s
  end.

Ltac solve_wire_exact parse :=
  intros s a; unfold parse, match_str, str_eqb; split;
  [ repeat case_bool_decide; intros; simplify_eq; reflexivity
  | intros ->; destruct a; reflexivity ].

(** ** Code that mutates a store and can fail

    [SE S E A] runs on a store [S] and returns a value or an error; an error keeps the writes
    made before it, as a handler's [?] does. The do-notation is stdpp's. *)
Definition SE (S E A : Type) : Type := S -> result A E * S.

#[export] Instance se_ret S E : MRet (SE S E) := fun A a s => (Ok a, s).
#[export] Instance se_bind S E : MBind (SE S E) :=
  fun A B f m s => match m s with (Ok a, s') => f a s' | (Err e, s') => (Err e, s') end.

Definition throw {S E A} (e : E) : SE S E A := fun s => (Err e, s).
Definition gets {S E A} (f : S -> A) : SE S E A := fun s => (Ok (f s), s).
Definition modify {S E} (f : S -> S) : SE S E unit := fun s => (Ok tt, f s).

(** A call into a part of the store, with the error mapped ([map_err] and [From]). *)
Definition part {S S1 E E1 A} (get : S -> S1) (put : S1 -> S -> S) (err : E1 -> E)
    (m : SE S1 E1 A) : SE S E A :=
  fun s => match m (get s) with
           | (Ok a, s1) => (Ok a, put s1 s)
           | (Err e, s1) => (Err (err e), put s1 s)
           end.

(** A call whose error is logged and dropped. *)
Definition ignore_err {S E A} (m : SE S E A) : SE S E unit := fun s => (Ok tt, (m s).2).

(** [let Some(x) = c else { e }] *)
Definition get_some {S E A} (o : option A) (e : SE S E A) : SE S E A :=
  match o with Some a => mret a | None => e end.

Definition guard_err {S E} (b : bool) (e : E) : SE S E unit :=
  if b then mret tt else throw e.

Fixpoint iter_m {S E A} (f : A -> SE S E unit) (l : list A) : SE S E unit :=
  match l with
  | [] => mret tt
  | x :: l' => f x ;; iter_m f l'
  end.

Definition is_some {A} (o : option A) : bool := match o with Some _ => true | None => false end.

(** What a call does to any store, whatever it returns. *)
Definition preserves {S E A} (I : S -> Prop) (m : SE S E A) : Prop := forall s, I s -> I (m s).2.

Lemma preserves_ret {S E A} (I : S -> Prop) (a : A) : preserves (E:=E) I (mret a).
Proof. by intros s. Qed.

Lemma preserves_throw {S E A} (I : S -> Prop) (e : E) : preserves (A:=A) I (throw e).
Proof. by intros s. Qed.

Lemma preserves_gets {S E A} (I : S -> Prop) (f : S -> A) : preserves (E:=E) I (gets f).
Proof. by intros s. Qed.

Lemma preserves_modify {S E} (I : S -> Prop) f :
  (forall s, I s -> I (f s)) -> preserves (E:=E) I (modify f).
Proof. intros H s. apply H. Qed.

Lemma preserves_bind {S E A B} (I : S -> Prop) (m : SE S E A) (f : A -> SE S E B) :
  preserves I m -> (forall a, preserves I (f a)) -> preserves I (m ≫= f).
Proof.
  intros Hm Hf s Hs. unfold mbind, se_bind. specialize (Hm s Hs).
  destruct (m s) as [[a|e] s']; simpl in *; [by apply Hf|done].
Qed.

Lemma preserves_ignore {S E A} (I : S -> Prop) (m : SE S E A) : preserves I m -> preserves I (ignore_err m).
Proof. intros Hm s Hs. by apply Hm. Qed.

Lemma preserves_some {S E A} (I : S -> Prop) (o : option A) (e : SE S E A) :
  preserves I e -> preserves I (get_some o e).
Proof. destruct o; [intros _; apply preserves_ret|done]. Qed.

Lemma preserves_guard {S E} (I : S -> Prop) b (e : E) : preserves I (guard_err b e).
Proof. destruct b; [apply preserves_ret|apply preserves_throw]. Qed.

Lemma preserves_iter {S E A} (I : S -> Prop) (f : A -> SE S E unit) l :
  (forall x, preserves I (f x)) -> preserves I (iter_m f l).
Proof.
  intros Hf. induction l as [|x l IH]; [apply preserves_ret|].
  apply preserves_bind; [apply Hf|done].
Qed.

Lemma preserves_part {S S1 E E1 A} (I : S -> Prop) (J : S1 -> Prop) get put (err : E1 -> E) (m : SE S1 E1 A) :
  (forall s, I s -> J (get s)) -> (forall s s1, I s -> J s1 -> I (put s1 s)) ->
  preserves J m -> preserves I (part get put err m).
Proof.
  intros Hg Hp Hm s Hs. unfold part. specialize (Hm (get s) (Hg s Hs)).
  destruct (m (get s)) as [[a|e] s1]; simpl in *; by apply Hp.
Qed.

#[export] Hint Resolve preserves_ret preserves_throw preserves_gets preserves_bind preserves_ignore
  preserves_some preserves_guard preserves_iter : nexus.

(** The outcome of a run, and how it goes through a sequence. *)
Definition yields {S E A} (P : result A E -> S -> Prop) (m : SE S E A) (s : S) : Prop := P (m s).1 (m s).2.

Lemma yields_bind {S E A B} (P : result B E -> S -> Prop) (m : SE S E A) (f : A -> SE S E B) s :
  match m s with (Ok a, s') => yields P (f a) s' | (Err e, s') => P (Err e) s' end -> yields P (m ≫= f) s.
Proof. unfold yields, mbind, se_bind. by destruct (m s) as [[a|e] s']. Qed.

Lemma yields_guard {S E A} (P : result A E -> S -> Prop) b e (f : unit -> SE S E A) s :
  (b = true -> yields P (f tt) s) -> (b = false -> P (Err e) s) -> yields P (guard_err b e ≫= f) s.
Proof. intros H1 H2. apply yields_bind. unfold guard_err. destruct b; [by apply H1|by apply H2]. Qed.

Lemma yields_assoc {S E A B C} (P : result C E -> S -> Prop) (m : SE S E A) (f : A -> SE S E B) (g : B -> SE S E C) s :
  yields P (m ≫= fun x => f x ≫= g) s -> yields P ((m ≫= f) ≫= g) s.
Proof. unfold yields, mbind, se_bind. by destruct (m s) as [[a|e] s']. Qed.

Lemma yields_mono {S E A} (P Q : result A E -> S -> Prop) (m : SE S E A) s :
  yields P m s -> (forall r s', P r s' -> Q r s') -> yields Q m s.
Proof. intros H HQ. by apply HQ. Qed.

(** A call is a call with nothing after it. *)
Lemma yields_eta {S E A} (P : result A E -> S -> Prop) (m : SE S E A) s : yields P (m ≫= mret) s -> yields P m s.
Proof. unfold yields, mbind, se_bind. by destruct (m s) as [[a|e] s']. Qed.
