(* ===== verification/Text.v ===== *)
(** The string operations of Rust's standard library that the program uses, on strings of bytes.
    Case folding and white space are those of ASCII, which is what user names, header values
    and identifiers hold. *)
From stdpp Require Import pretty.
From S2P Require Import Prelude.
From Stdlib Require Import Ascii String.
Open Scope Z_scope.
Open Scope list_scope.

Definition code (c : ascii) : Z := Z.of_N (N_of_ascii c).
Definition between (a b : Z) (c : ascii) : bool := (a <=? code c) && (code c <=? b).

Definition is_upper (c : ascii) : bool := between 65 90 c.
Definition is_lower (c : ascii) : bool := between 97 122 c.
Definition is_digit (c : ascii) : bool := between 48 57 c.
Definition is_ascii_alphanumeric (c : ascii) : bool := is_upper c || is_lower c || is_digit c.
Definition is_whitespace (c : ascii) : bool := between 9 13 c || (code c =? 32).
Definition is_control (c : ascii) : bool := (code c <? 32) || (code c =? 127).

Definition lower_ascii (c : ascii) : ascii :=
  if is_upper c then ascii_of_N (N_of_ascii c + 32) else c.

Abbreviation chars := list_ascii_of_string.
Abbreviation of_chars := string_of_list_ascii.

Definition to_lowercase (s : string) : string := of_chars (map lower_ascii (chars s)).

Fixpoint drop_space (l : list ascii) : list ascii :=
  match l with
  | c :: l' => if is_whitespace c then drop_space l' else l
  | [] => []
  end.

Definition trim_chars (l : list ascii) : list ascii := rev (drop_space (rev (drop_space l))).
Definition trim (s : string) : string := of_chars (trim_chars (chars s)).

(** [s.chars().count()] of UTF-8 text: the bytes that do not continue a character. *)
Definition chars_count (s : string) : Z :=
  zlength (filter (fun c => negb (Z.land (code c) 192 =? 128) = true) (chars s)).

Definition blen (s : string) : Z := zlength (chars s).

Fixpoint prefixb (p l : list ascii) : bool :=
  match p, l with
  | [], _ => true
  | c :: p', d :: l' => bool_decide (c = d) && prefixb p' l'
  | _ :: _, [] => false
  end.

Definition starts_with (s p : string) : bool := prefixb (chars p) (chars s).

Fixpoint infixb (p l : list ascii) : bool :=
  prefixb p l || match l with [] => false | _ :: l' => infixb p l' end.

Definition contains (s p : string) : bool := infixb (chars p) (chars s).

(** [s.split(sep)]: at least one piece. *)
Fixpoint split_chars (sep : ascii) (l : list ascii) : list (list ascii) :=
  match l with
  | [] => [[]]
  | c :: l' =>
      let r := split_chars sep l' in
      if bool_decide (c = sep) then [] :: r
      else match r with p :: ps => (c :: p) :: ps | [] => [[c]] end
  end.

Definition split (sep : ascii) (s : string) : list string := map of_chars (split_chars sep (chars s)).

(** [s.split_once(sep)] *)
Fixpoint split_once_chars (sep : ascii) (l : list ascii) : option (list ascii * list ascii) :=
  match l with
  | [] => None
  | c :: l' =>
      if bool_decide (c = sep) then Some ([], l')
      else '(a, b) ← split_once_chars sep l'; Some (c :: a, b)
  end.

Definition split_once (sep : ascii) (s : string) : option (string * string) :=
  '(a, b) ← split_once_chars sep (chars s); Some (of_chars a, of_chars b).

Definition eq_ignore_ascii_case (a b : string) : bool := str_eqb (to_lowercase a) (to_lowercase b).

Fixpoint join (sep : string) (l : list string) : string :=
  match l with
  | [] => ""
  | [s] => s
  | s :: l' => s +:+ sep +:+ join sep l'
  end.

Definition upper_ascii (c : ascii) : ascii :=
  if is_lower c then ascii_of_N (N_of_ascii c - 32) else c.

Definition to_uppercase (s : string) : string := of_chars (map upper_ascii (chars s)).

(** [s.strip_prefix(p)] *)
Fixpoint strip_chars (p l : list ascii) : option (list ascii) :=
  match p, l with
  | [], _ => Some l
  | c :: p', d :: l' => if bool_decide (c = d) then strip_chars p' l' else None
  | _ :: _, [] => None
  end.

Definition strip_prefix (p s : string) : option string := of_chars <$> strip_chars (chars p) (chars s).
Definition strip_suffix (p s : string) : option string :=
  (fun l => of_chars (rev l)) <$> strip_chars (rev (chars p)) (rev (chars s)).

(** [s.trim_start_matches(c)] *)
Fixpoint trim_start_chars (c : ascii) (l : list ascii) : list ascii :=
  match l with
  | d :: l' => if bool_decide (d = c) then trim_start_chars c l' else l
  | [] => []
  end.

Definition trim_start_matches (c : ascii) (s : string) : string := of_chars (trim_start_chars c (chars s)).

Fixpoint parse_digits (acc : Z) (l : list ascii) : option Z :=
  match l with
  | [] => Some acc
  | c :: l' => if is_digit c then parse_digits (10 * acc + (code c - 48)) l' else None
  end.

(** [s.parse::<u64>()] *)
Definition parse_u64 (s : string) : option Z :=
  match chars s with
  | [] => None
  | c :: l =>
      match (if bool_decide (c = "+"%char) then l else c :: l) with
      | [] => None
      | l => n ← parse_digits 0 l; if n <? 2 ^ 64 then Some n else None
      end
  end.

(** ** Lemmas *)

Lemma chars_app a b : chars (a +:+ b) = chars a ++ chars b.
Proof. induction a as [|c a IH]; [done|]. simpl. by f_equal. Qed.

Lemma chars_of_chars l : chars (of_chars l) = l.
Proof. apply list_ascii_of_string_of_list_ascii. Qed.

Lemma of_chars_chars s : of_chars (chars s) = s.
Proof. apply string_of_list_ascii_of_string. Qed.

Lemma chars_inj a b : chars a = chars b -> a = b.
Proof. intros H. by rewrite <- (of_chars_chars a), H, of_chars_chars. Qed.

Lemma contains_char s c : contains s (String c EmptyString) = true <-> c ∈ chars s.
Proof.
  unfold contains. induction s as [|x s IH]; simpl; [set_solver|].
  rewrite orb_true_iff, andb_true_r, bool_decide_eq_true, IH. set_solver.
Qed.

Lemma split_once_spec sep s a b :
  split_once sep s = Some (a, b) <-> s = a +:+ String sep b /\ sep ∉ chars a.
Proof.
  unfold split_once.
  assert (forall l x y, split_once_chars sep l = Some (x, y) <-> l = x ++ sep :: y /\ sep ∉ x) as H.
  { induction l as [|c l IH]; intros x y; simpl.
    - split; [done|]. intros [Hl _]. by destruct x.
    - case_bool_decide as Hc.
      + subst. split; [intros [= <- <-]; split; [done|set_solver]|].
        intros [Hl Hx]. destruct x as [|d x]; simplify_eq/=; [done|set_solver].
      + destruct (split_once_chars sep l) as [[a' b']|] eqn:E; simpl.
        * destruct (IH a' b') as [[-> Ha] _]; [done|]. split.
          { intros [= <- <-]. split; [done|set_solver]. }
          intros [Hl Hx]. destruct x as [|d x]; simplify_eq/=.
          assert (Some (a', b') = Some (x, y)) by (apply IH; split; [done|set_solver]). by simplify_eq.
        * split; [done|]. intros [Hl Hx]. destruct x as [|d x]; simplify_eq/=.
          assert (None = Some (x, y)) by (apply IH; split; [done|set_solver]). done. }
  destruct (split_once_chars sep (chars s)) as [[x y]|] eqn:E; simpl.
  - pose proof (proj1 (H _ _ _) E) as [Hs Hx]. split.
    + intros [= <- <-]. split; [|by rewrite chars_of_chars].
      apply chars_inj. rewrite Hs, chars_app, chars_of_chars. simpl. by rewrite chars_of_chars.
    + intros [-> Ha]. rewrite chars_app in E. simpl in E.
      rewrite (proj2 (H _ _ _) (conj eq_refl Ha)) in E. simplify_eq. by rewrite !of_chars_chars.
  - split; [done|]. intros [-> Ha]. rewrite chars_app in E. simpl in E.
    by rewrite (proj2 (H _ _ _) (conj eq_refl Ha)) in E.
Qed.

(** ** Numbers round trip *)

Lemma parse_digits_app a l1 l2 : parse_digits a (l1 ++ l2) = parse_digits a l1 ≫= fun b => parse_digits b l2.
Proof. revert a. induction l1 as [|c l1 IH]; intros a; [done|]. simpl. by destruct (is_digit c). Qed.

Lemma digit_char m : (m < 10)%N -> is_digit (pretty_N_char m) = true /\ code (pretty_N_char m) = 48 + Z.of_N m.
Proof.
  intros Hm. rewrite <- (N2Nat.id m) in *. set (n := N.to_nat m) in *. clearbody n.
  do 10 (destruct n as [|n]; [by vm_compute|]). lia.
Qed.

(** The digits of [x], in front of a rest. *)
Lemma pretty_go_digits x s : exists ds, chars (pretty_N_go x s) = ds ++ chars s /\ parse_digits 0 ds = Some (Z.of_N x) /\
  Forall (fun c => is_digit c = true) ds /\ (x <> 0%N -> ds <> []).
Proof.
  revert s. induction (N.lt_wf_0 x) as [x _ IH]. intros s.
  destruct (decide (x = 0)%N) as [->|Hx]; [exists []; by rewrite pretty_N_go_0|].
  rewrite pretty_N_go_step by lia. assert (x `div` 10 < x)%N as Hlt by (apply N.div_lt; lia).
  destruct (IH (x `div` 10)%N Hlt (String (pretty_N_char (x `mod` 10)) s)) as (ds & E & Hp & Hd & _).
  pose proof (N.mod_lt x 10 ltac:(done)) as Hm. pose proof (N.div_mod x 10 ltac:(done)) as Hdm.
  set (c := pretty_N_char (x `mod` 10)) in *.
  assert (is_digit c = true /\ code c = 48 + Z.of_N (x `mod` 10)) as [Hc1 Hc2].
  { by apply digit_char. }
  exists (ds ++ [c]). split_and!.
  - rewrite E. simpl. by rewrite <- app_assoc.
  - rewrite parse_digits_app, Hp. simpl. rewrite Hc1. f_equal. rewrite Hc2. lia.
  - apply Forall_app. split; [done|by repeat constructor].
  - intros _ Hn. by destruct ds.
Qed.

Lemma pretty_digits z : 0 <= z -> exists ds, chars (pretty z) = ds /\ parse_digits 0 ds = Some z /\ Forall (fun c => is_digit c = true) ds /\ ds <> [].
Proof.
  intros Hz. destruct z as [|p|p]; [exists ["0"%char]; by repeat constructor| |lia].
  change (pretty (Z.pos p)) with (pretty_N_go (N.pos p) ""). destruct (pretty_go_digits (N.pos p) "") as (ds & E & Hp & Hd & Hn).
  exists ds. rewrite E. simpl. rewrite app_nil_r. split_and!; [done|exact Hp|done|by apply Hn].
Qed.

Lemma parse_pretty z : 0 <= z < 2 ^ 64 -> parse_u64 (pretty z) = Some z.
Proof.
  intros Hz. destruct (pretty_digits z ltac:(lia)) as (ds & E & Hp & Hd & Hn). unfold parse_u64. rewrite E.
  destruct ds as [|c ds]; [done|]. apply Forall_cons in Hd as [Hc _].
  rewrite bool_decide_false by (intros ->; by vm_compute in Hc). rewrite Hp. simpl. by rewrite (proj2 (Z.ltb_lt _ _)) by lia.
Qed.

(** The digits of an integer start with a digit or a sign. *)
Lemma pretty_int z : exists ds, chars (pretty z) = (if z <? 0 then ["-"%char] else []) ++ ds /\ Forall (fun c => is_digit c = true) ds /\ ds <> [].
Proof.
  destruct (Z.ltb_spec z 0).
  - destruct z as [|p|p]; [lia..|]. change (pretty (Z.neg p)) with ("-" +:+ pretty (N.pos p)).
    destruct (pretty_digits (Z.pos p) ltac:(lia)) as (ds & E & _ & Hd & Hn). exists ds. change (pretty (Z.pos p)) with (pretty (N.pos p)) in E.
    by rewrite chars_app, E.
  - destruct (pretty_digits z) as (ds & E & _ & Hd & Hn); [lia|]. by exists ds.
Qed.
