(* ===== verification/Float.v ===== *)
(** IEEE 754 arithmetic for the code's [f32] and [f64], executable and free of axioms: the
    Standard Library's [SpecFloat], at 24 and 53 bits of precision. *)
From S2P Require Import Prelude.
From Stdlib Require Export Floats.SpecFloat.

Definition f32 : Set := spec_float.
Definition f64 : Set := spec_float.

(** A literal, by the mantissa and exponent its decimal form rounds to. *)
Definition flit (m : positive) (e : Z) : spec_float := S754_finite false m e.
Definition fzero : spec_float := S754_zero false.

Definition f32_of_Z (z : Z) : f32 := binary_normalize 24 128 z 0 false.
Definition f64_of_Z (z : Z) : f64 := binary_normalize 53 1024 z 0 false.

Definition f32_add : f32 -> f32 -> f32 := SFadd 24 128.
Definition f32_sub : f32 -> f32 -> f32 := SFsub 24 128.
Definition f32_mul : f32 -> f32 -> f32 := SFmul 24 128.
Definition f32_div : f32 -> f32 -> f32 := SFdiv 24 128.
Definition f64_add : f64 -> f64 -> f64 := SFadd 53 1024.
Definition f64_sub : f64 -> f64 -> f64 := SFsub 53 1024.
Definition f64_mul : f64 -> f64 -> f64 := SFmul 53 1024.
Definition f64_div : f64 -> f64 -> f64 := SFdiv 53 1024.

(** [floor() as i32]: saturating, NaN is 0. *)
Definition floor_i32 (x : spec_float) : Z :=
  match x with
  | S754_nan | S754_zero _ => 0
  | S754_infinity s => if s then - 2 ^ 31 else 2 ^ 31 - 1
  | S754_finite s m e =>
      let v := if s then Zneg m else Zpos m in
      Z.max (- 2 ^ 31) (Z.min (2 ^ 31 - 1) (if 0 <=? e then v * 2 ^ e else v / 2 ^ (- e)))
  end.

(** [Duration::as_secs_f64] *)
Definition as_secs_f64 (d : Z) : f64 :=
  f64_add (f64_of_Z (d / ns_per_sec)) (f64_div (f64_of_Z (d mod ns_per_sec)) (f64_of_Z ns_per_sec)).

(** [Duration::as_secs_f32] *)
Definition as_secs_f32 (d : Z) : f32 :=
  f32_add (f32_of_Z (d / ns_per_sec)) (f32_div (f32_of_Z (d mod ns_per_sec)) (f32_of_Z ns_per_sec)).

(** [as f64] of an [f32]: exact. *)
Definition f32_to_f64 (x : f32) : f64 :=
  match x with
  | S754_finite s m e => binary_normalize 53 1024 (if s then Zneg m else Zpos m) e s
  | other => other
  end.

Definition flt (x y : spec_float) : bool := SFltb x y.
Definition fle (x y : spec_float) : bool := SFleb x y.
Definition fge (x y : spec_float) : bool := SFleb y x.
Definition fgt (x y : spec_float) : bool := SFltb y x.

Definition is_nan (x : spec_float) : bool :=
  match x with S754_nan => true | _ => false end.

(** Rust's [max] and [min]: a NaN operand is ignored. *)
Definition fmax (x y : spec_float) : spec_float :=
  if is_nan x then y else if is_nan y then x else if SFltb x y then y else x.
Definition fmin (x y : spec_float) : spec_float :=
  if is_nan x then y else if is_nan y then x else if SFltb y x then y else x.

(** [clamp] *)
Definition fclamp (lo hi x : spec_float) : spec_float :=
  if SFltb x lo then lo else if SFltb hi x then hi else x.

Definition is_finite (x : spec_float) : bool :=
  match x with S754_zero _ | S754_finite _ _ _ => true | _ => false end.

Lemma fmax_cases x y : fmax x y = x \/ fmax x y = y.
Proof. unfold fmax. repeat case_match; auto. Qed.
