(* ===== verification/Order.v ===== *)
(** Comparison functions as Rust's [Ordering] has them: [cmp], [then], reversal and the stable
    [sort_by], with the laws a comparator needs for the sort to be a sort. *)
From S2P Require Import Prelude Float.

(** ** Comparators *)

(** [a.then(b)] *)
Definition cthen (c1 c2 : comparison) : comparison :=
  match c1 with Eq => c2 | other => other end.

(** A comparator that is a total preorder. *)
Class Comparator {A} (cmp : A -> A -> comparison) : Prop := {
  cmp_opp : forall a b, cmp b a = CompOpp (cmp a b);
  cmp_eq : forall a b c, cmp a b = Eq -> cmp a c = cmp b c;
  cmp_lt : forall a b c, cmp a b = Lt -> cmp b c = Lt -> cmp a c = Lt;
}.

#[export] Instance Z_comparator : Comparator Z.compare.
Proof.
  split.
  - intros a b. apply Z.compare_antisym.
  - by intros a b c ->%Z.compare_eq.
  - intros a b c. rewrite !Z.compare_lt_iff. lia.
Qed.

#[export] Instance nat_comparator : Comparator Nat.compare.
Proof.
  split.
  - intros a b. apply Nat.compare_antisym.
  - by intros a b c ->%Nat.compare_eq.
  - intros a b c. rewrite !Nat.compare_lt_iff. lia.
Qed.

Lemma on_comparator {A B} (f : B -> A) cmp `{!Comparator cmp} : Comparator (fun a b => cmp (f a) (f b)).
Proof. split; intros *; [apply cmp_opp|apply cmp_eq|apply cmp_lt]. Qed.

Lemma flip_comparator {A} (cmp : A -> A -> comparison) `{!Comparator cmp} : Comparator (fun a b => cmp b a).
Proof.
  split.
  - intros a b. apply cmp_opp.
  - intros a b c H. rewrite (cmp_opp (cmp:=cmp) a c), (cmp_opp (cmp:=cmp) b c). f_equal. apply cmp_eq. by rewrite (cmp_opp (cmp:=cmp) b a), H.
  - intros a b c H1 H2. by eapply cmp_lt.
Qed.

Lemma then_comparator {A} (c1 c2 : A -> A -> comparison) `{!Comparator c1, !Comparator c2} :
  Comparator (fun a b => cthen (c1 a b) (c2 a b)).
Proof.
  split.
  - intros a b. rewrite (cmp_opp (cmp:=c1) a b), (cmp_opp (cmp:=c2) a b). by destruct (c1 a b).
  - intros a b c. destruct (c1 a b) eqn:E1; [|done..]. simpl. intros E2. by rewrite (cmp_eq (cmp:=c1) a b c E1), (cmp_eq (cmp:=c2) a b c E2).
  - intros a b c. destruct (c1 a b) eqn:E1; [| |done]; simpl; intros H1.
    + rewrite (cmp_eq (cmp:=c1) a b c E1). destruct (c1 b c); [|done..]. simpl. by apply cmp_lt.
    + destruct (c1 b c) eqn:E2; [| |done]; simpl; intros H2.
      * assert (c1 a c = Lt) as ->; [|done]. rewrite (cmp_opp (cmp:=c1) c a).
        rewrite <- (cmp_eq (cmp:=c1) b c a E2), (cmp_opp (cmp:=c1) a b), E1. done.
      * by rewrite (cmp_lt (cmp:=c1) a b c E1 E2).
Qed.

Section comparator.
Context {A : Type} (cmp : A -> A -> comparison) `{!Comparator cmp}.

(** [a] may stand before [b]. *)
Definition not_after (a b : A) : Prop := cmp a b <> Gt.

#[export] Instance not_after_dec : RelDecision not_after.
Proof. intros a b. unfold not_after. destruct (cmp a b); [left; done|left; done|right; auto]. Defined.

Lemma not_after_trans a b c : not_after a b -> not_after b c -> not_after a c.
Proof.
  unfold not_after. intros H1 H2. destruct (cmp a b) eqn:E1; [by rewrite (cmp_eq (cmp:=cmp) a b c E1)| |done].
  destruct (cmp b c) eqn:E2; [|by rewrite (cmp_lt (cmp:=cmp) a b c E1 E2)|done].
  rewrite (cmp_opp (cmp:=cmp) c a), <- (cmp_eq (cmp:=cmp) b c a E2), (cmp_opp (cmp:=cmp) a b), E1. done.
Qed.

Lemma not_after_total a b : not_after a b \/ not_after b a.
Proof. unfold not_after. rewrite (cmp_opp (cmp:=cmp) a b). destruct (cmp a b); auto. Qed.

(** ** The stable sort *)

Fixpoint insert_sorted (x : A) (l : list A) : list A :=
  match l with
  | [] => [x]
  | y :: rest => match cmp x y with Gt => y :: insert_sorted x rest | _ => x :: l end
  end.

Definition sort_by (l : list A) : list A := foldr insert_sorted [] l.

Lemma insert_sorted_permutation x l : insert_sorted x l ≡ₚ x :: l.
Proof. induction l as [|y l IH]; simpl; [done|]. destruct (cmp x y); [done..|]. rewrite IH. apply Permutation_swap. Qed.

Lemma sort_by_permutation l : sort_by l ≡ₚ l.
Proof. induction l as [|x l IH]; simpl; [done|]. by rewrite insert_sorted_permutation, IH. Qed.

Lemma insert_sorted_sorted x l : StronglySorted not_after l -> StronglySorted not_after (insert_sorted x l).
Proof.
  induction 1 as [|y l Hs IH Hy]; simpl; [repeat constructor|].
  assert (cmp x y <> Gt -> StronglySorted not_after (x :: y :: l)) as Hfront.
  { intros Hxy. constructor; [by constructor|]. constructor; [done|].
    eapply Forall_impl; [exact Hy|]. intros z Hz. by eapply not_after_trans. }
  destruct (cmp x y) eqn:E; [by apply Hfront..|].
  constructor; [done|]. rewrite insert_sorted_permutation. constructor; [|done].
  unfold not_after. by rewrite (cmp_opp (cmp:=cmp) x y), E.
Qed.

(** The sort is stable: elements none of which comes after another keep their order. *)
Lemma filter_sort_by (P : A -> Prop) `{!forall x, Decision (P x)} l :
  (forall x y, P x -> P y -> cmp x y <> Gt) -> filter P (sort_by l) = filter P l.
Proof.
  intros HP. assert (forall x l, filter P (insert_sorted x l) = filter P (x :: l)) as Hi.
  { intros x l'. induction l' as [|y l' IH]; simpl; [done|]. destruct (cmp x y) eqn:E; [done..|].
    rewrite !filter_cons, IH, filter_cons. repeat case_decide; try done. exfalso. by apply (HP x y). }
  induction l as [|x l IH]; simpl; [done|]. by rewrite Hi, !filter_cons, IH.
Qed.

Lemma sort_by_sorted l : StronglySorted not_after (sort_by l).
Proof. induction l; simpl; [constructor|by apply insert_sorted_sorted]. Qed.
End comparator.

(** Comparisons that agree on a list sort it alike. *)
Lemma sort_by_ext {A} (c1 c2 : A -> A -> comparison) l :
  (forall x y, x ∈ l -> y ∈ l -> c1 x y = c2 x y) -> sort_by c1 l = sort_by c2 l.
Proof.
  assert (forall x k, (forall y, y ∈ k -> c1 x y = c2 x y) -> insert_sorted c1 x k = insert_sorted c2 x k) as Hi.
  { intros x k. induction k as [|y k IH]; intros H; simpl; [done|]. rewrite (H y) by constructor.
    rewrite IH by (intros z Hz; apply H; by constructor). done. }
  induction l as [|x l IH]; intros H; simpl; [done|].
  rewrite IH by (intros y z Hy Hz; apply H; by constructor).
  apply Hi. intros y Hy. apply H; [constructor|]. constructor. by rewrite sort_by_permutation in Hy.
Qed.

(** Sorting commutes with a map that keeps the comparison. *)
Lemma sort_by_fmap {A B} (f : A -> B) (cmp : B -> B -> comparison) l : f <$> sort_by (fun x y => cmp (f x) (f y)) l = sort_by cmp (f <$> l).
Proof.
  assert (forall x k, f <$> insert_sorted (fun x y => cmp (f x) (f y)) x k = insert_sorted cmp (f x) (f <$> k)) as Hi.
  { intros x k. induction k as [|y k IH]; [done|]. rewrite fmap_cons. cbn [insert_sorted].
    destruct (cmp (f x) (f y)); [done..|]. by rewrite fmap_cons, IH. }
  unfold sort_by in *. induction l as [|x l IH]; [done|]. rewrite fmap_cons. cbn [foldr]. by rewrite Hi, IH.
Qed.

(** Elements that compare as equal only when they are equal are sorted alike from any order. *)
Lemma sort_by_unique {A} (cmp : A -> A -> comparison) `{!Comparator cmp} l1 l2 :
  (forall x y, x ∈ l1 -> y ∈ l1 -> cmp x y = Eq -> x = y) -> l1 ≡ₚ l2 -> sort_by cmp l1 = sort_by cmp l2.
Proof.
  intros Heq Hp. apply (StronglySorted_unique_strong (not_after cmp)).
  - intros x y Hx Hy. rewrite sort_by_permutation in Hx, Hy. rewrite <- Hp in Hy. unfold not_after. intros H1 H2. apply Heq; [done..|].
    rewrite (cmp_opp (cmp:=cmp) x y) in H2. by destruct (cmp x y).
  - by apply sort_by_sorted.
  - by apply sort_by_sorted.
  - by rewrite !sort_by_permutation.
Qed.

(** ** Texts *)

(** The order of texts is that of their bytes. *)
Lemma string_compare_cons a s b t : String.compare (String a s) (String b t) = cthen (Ascii.compare a b) (String.compare s t).
Proof. simpl. by destruct (Ascii.compare a b). Qed.

#[export] Instance ascii_comparator : Comparator Ascii.compare.
Proof.
  split; unfold Ascii.compare.
  - intros a b. apply N.compare_antisym.
  - intros a b c H%N.compare_eq. by rewrite H.
  - intros a b c. rewrite !N.compare_lt_iff. lia.
Qed.

#[export] Instance string_comparator : Comparator String.compare.
Proof.
  split.
  - intros a b. apply String.compare_antisym.
  - intros a b c H%String.compare_eq_iff. by rewrite H.
  - intros a. induction a as [|x a IH]; intros [|y b] [|z c]; try done. rewrite !string_compare_cons.
    destruct (Ascii.compare x y) eqn:E1; [| |done]; simpl.
    + apply Ascii.compare_eq_iff in E1 as ->. destruct (Ascii.compare y z); [|done..]. simpl. apply IH.
    + intros _. destruct (Ascii.compare y z) eqn:E2; [| |done]; simpl.
      * apply Ascii.compare_eq_iff in E2 as ->. by rewrite E1.
      * by rewrite (cmp_lt (cmp:=Ascii.compare) x y z E1 E2).
Qed.

(** ** Floats *)

(** The IEEE total order: negative values by decreasing magnitude, [-0] before [+0], NaN (which
    [SpecFloat] has once, without a sign) last. *)
Definition rank (x : spec_float) : Z * Z * Z :=
  match x with
  | S754_infinity true => (-3, 0, 0)
  | S754_finite true m e => (-2, - e, Zneg m)
  | S754_zero true => (-1, 0, 0)
  | S754_zero false => (0, 0, 0)
  | S754_finite false m e => (1, e, Zpos m)
  | S754_infinity false => (2, 0, 0)
  | S754_nan => (3, 0, 0)
  end.

Definition total_cmp (x y : spec_float) : comparison :=
  let a := rank x in
  let b := rank y in
  cthen (cthen (Z.compare a.1.1 b.1.1) (Z.compare a.1.2 b.1.2)) (Z.compare a.2 b.2).

#[export] Instance total_comparator : Comparator total_cmp.
Proof.
  pose proof (on_comparator (fun a => (rank a).1.1) Z.compare) as H1.
  pose proof (on_comparator (fun a => (rank a).1.2) Z.compare) as H2.
  pose proof (on_comparator (fun a => (rank a).2) Z.compare) as H3.
  exact (then_comparator _ _ (Comparator0 := then_comparator _ _) (Comparator1 := H3)).
Qed.

(** IEEE comparison does not tell the zeros apart. *)
Definition one_zero (x : spec_float) : spec_float :=
  match x with S754_zero _ => S754_zero false | other => other end.

Lemma SFcompare_total x y :
  is_nan x = false -> is_nan y = false -> SFcompare x y = Some (total_cmp (one_zero x) (one_zero y)).
Proof.
  unfold total_cmp. destruct x as [?|[]| |[] m e], y as [?|[]| |[] m' e']; try done; intros _ _; simpl.
  - rewrite Z.compare_opp, (Z.compare_antisym e e'). destruct (e ?= e'); [|done..]. simpl.
    change (Pos.compare_cont Eq m m') with (m ?= m')%positive. by destruct (m ?= m')%positive.
  - destruct (e ?= e'); [|done..]. simpl.
    change (Pos.compare_cont Eq m m') with (m ?= m')%positive. by destruct (m ?= m')%positive.
Qed.

Lemma fle_not_after x y :
  is_nan x = false -> is_nan y = false ->
  fle x y = true <-> not_after total_cmp (one_zero x) (one_zero y).
Proof.
  intros Hx Hy. unfold fle, SFleb, not_after. rewrite SFcompare_total by done. by destruct (total_cmp _ _).
Qed.

Lemma fle_not_nan x y : fle x y = true -> is_nan x = false /\ is_nan y = false.
Proof. by destruct x as [?|[]| |[]], y as [?|[]| |[]]. Qed.

Lemma fle_trans x y z : fle x y = true -> fle y z = true -> fle x z = true.
Proof.
  intros H1 H2. destruct (fle_not_nan x y H1) as [Hx Hy]. destruct (fle_not_nan y z H2) as [_ Hz].
  rewrite fle_not_after in H1, H2 |- * by done. by eapply not_after_trans; [apply _|..].
Qed.

Lemma fle_not_flt x y : fle x y = true -> flt y x = false.
Proof.
  intros H. destruct (fle_not_nan x y H) as [Hx Hy]. apply fle_not_after in H; [|done..].
  unfold flt, SFltb. rewrite SFcompare_total, cmp_opp by done. unfold not_after in H. by destruct (total_cmp _ _).
Qed.

(** A positive float is its own representative. *)
Lemma positive_one_zero x : fgt x fzero = true -> is_nan x = false /\ one_zero x = x.
Proof. by destruct x as [?|[]| |[]]. Qed.

Lemma flt_not_fle x y : is_nan x = false -> is_nan y = false -> flt x y = negb (fle y x).
Proof.
  intros Hx Hy. unfold flt, fle, SFltb, SFleb. rewrite !SFcompare_total by done.
  rewrite (cmp_opp (cmp:=total_cmp) (one_zero x) (one_zero y)). by destruct (total_cmp _ _).
Qed.

Lemma flt_fle x y : flt x y = true -> fle x y = true.
Proof. unfold flt, fle, SFltb, SFleb. by destruct (SFcompare x y) as [[]|]. Qed.

(** ** Greedy suppression

    An element stays unless one that stayed before it suppresses it. *)
Section Suppress.
Context {A : Type} (sup : A -> A -> bool).

Definition suppress_step (kept : list A) (d : A) : list A :=
  if existsb (fun k => sup k d) kept then kept else kept ++ [d].

Definition suppress (l : list A) : list A := foldl suppress_step [] l.

Lemma suppress_snoc l d : suppress (l ++ [d]) = suppress_step (suppress l) d.
Proof. unfold suppress. by rewrite foldl_app. Qed.

(** What stays: a part of the input in its order, of which no element suppresses a later one, and
    one of which suppresses, from before, whatever does not stay. *)
Lemma suppress_sublist l : suppress l `sublist_of` l.
Proof.
  induction l as [|d l IH] using rev_ind; [done|]. rewrite suppress_snoc. unfold suppress_step. destruct (existsb _ _).
  - by apply sublist_inserts_r.
  - by apply sublist_app.
Qed.

Lemma suppress_independent l i j a b :
  suppress l !! i = Some a -> suppress l !! j = Some b -> (i < j)%nat -> sup a b = false.
Proof.
  revert i j. induction l as [|d l IH] using rev_ind; intros i j; [done|]. rewrite suppress_snoc. unfold suppress_step.
  destruct (existsb _ _) eqn:E; [apply IH|]. intros Hi Hj Hij.
  apply lookup_app_Some in Hj as [Hj|[Hj Hd]].
  - apply IH with i j; [|done..]. by rewrite lookup_app_l in Hi by (apply lookup_lt_Some in Hj; lia).
  - apply list_lookup_singleton_Some in Hd as [Hd <-]. rewrite lookup_app_l in Hi by lia.
    destruct (sup a d) eqn:Eo; [|done]. rewrite <- E. symmetry. apply existsb_exists.
    exists a. by apply list_elem_of_lookup_2, list_elem_of_In in Hi.
Qed.

Lemma suppress_step_keeps kept d k : k ∈ kept -> k ∈ suppress_step kept d.
Proof. intros Hk. unfold suppress_step. destruct (existsb _ _); [done|]. apply elem_of_app. by left. Qed.

Lemma suppress_covers l i d :
  l !! i = Some d -> d ∈ suppress l \/ exists k j, l !! j = Some k /\ (j < i)%nat /\ k ∈ suppress l /\ sup k d = true.
Proof.
  revert i. induction l as [|e l IH] using rev_ind; intros i; [done|]. rewrite suppress_snoc. intros Hi.
  apply lookup_app_Some in Hi as [Hi|[Hi He]].
  - destruct (IH i Hi) as [Hd|(k & j & Hj & Hji & Hk & Ho)]; [left; by apply suppress_step_keeps|].
    right. exists k, j. split; [by apply lookup_app_l_Some|]. split_and!; [done|by apply suppress_step_keeps|done].
  - apply list_lookup_singleton_Some in He as [He <-]. unfold suppress_step. destruct (existsb _ _) eqn:E.
    + right. apply existsb_exists in E as (k & Hk & Ho). apply list_elem_of_In in Hk.
      pose proof (elem_of_submseteq _ _ _ Hk (sublist_submseteq _ _ (suppress_sublist l))) as [j Hj]%list_elem_of_lookup_1.
      exists k, j. split; [by apply lookup_app_l_Some|]. apply lookup_lt_Some in Hj. auto with lia.
    + left. apply elem_of_app. right. by apply list_elem_of_singleton.
Qed.
End Suppress.
