(* ===== verification/Types.v ===== *)
(** The shared wire types of [nexus-types/src/lib.rs]: frames, boxes, roles, codecs and the
    weekly delivery schedule. *)
From S2P Require Import Prelude.
From S2P Require Import Float.

(** ** Boxes *)

Record BBox := mkBBox { x1 : f32; y1 : f32; x2 : f32; y2 : f32 }.

Definition width (b : BBox) : f32 := fmax (f32_sub (x2 b) (x1 b)) fzero.
Definition height (b : BBox) : f32 := fmax (f32_sub (y2 b) (y1 b)) fzero.
Definition area (b : BBox) : f32 := f32_mul (width b) (height b).

Definition f32_half : f32 := flit 8388608 (-24).

Definition center (b : BBox) : f32 * f32 :=
  (f32_mul (f32_add (x1 b) (x2 b)) f32_half, f32_mul (f32_add (y1 b) (y2 b)) f32_half).

Definition iou (self other : BBox) : f32 :=
  let ix1 := fmax (x1 self) (x1 other) in
  let iy1 := fmax (y1 self) (y1 other) in
  let ix2 := fmin (x2 self) (x2 other) in
  let iy2 := fmin (y2 self) (y2 other) in
  let iw := fmax (f32_sub ix2 ix1) fzero in
  let ih := fmax (f32_sub iy2 iy1) fzero in
  let inter := f32_mul iw ih in
  let union := f32_sub (f32_add (area self) (area other)) inter in
  if fle union fzero then fzero else f32_div inter union.

(** ** Frames *)

Inductive PixelFormat := Rgb24 | Bgr24 | Nv12 | I420.

(** Bytes are integers in [0, 255]. *)
Record Frame := mkFrame {
  frame_camera_id : Z;
  frame_id : Z;
  captured_at : Z;
  captured_mono : Z;
  frame_width : Z;
  frame_height : Z;
  format : PixelFormat;
  frame_data : list Z;
  trace_id : string;
}.

Definition stride (f : Frame) : Z :=
  match format f with
  | Rgb24 | Bgr24 => frame_width f * 3
  | Nv12 | I420 => frame_width f
  end.

(** [as_chunks::<3>().0] swapped in place, over a zeroed buffer of the same length. *)
Fixpoint swap_pixels (l : list Z) : list Z :=
  match l with
  | b :: g :: r :: l' => r :: g :: b :: swap_pixels l'
  | tail => map (fun _ => 0) tail
  end.

Definition rgb24 (f : Frame) : result (list Z) PixelFormat :=
  match format f with
  | Rgb24 => Ok (frame_data f)
  | Bgr24 => Ok (swap_pixels (frame_data f))
  | other => Err other
  end.

(** ** Roles *)

Inductive Role := Admin | Operator | Viewer.

#[export] Instance Role_eq_dec : EqDecision Role.
Proof. solve_decision. Defined.

Definition role_as_str (r : Role) : string :=
  match r with Admin => "admin" | Operator => "operator" | Viewer => "viewer" end.

Definition role_level (r : Role) : Z :=
  match r with Admin => 100 | Operator => 50 | Viewer => 10 end.

Definition satisfies (self required : Role) : bool := role_level required <=? role_level self.

Definition role_all : list Role := [Viewer; Operator; Admin].

Definition role_from_str : string -> option Role :=
  match_str [("admin", Admin); ("operator", Operator); ("viewer", Viewer)].

#[export] Instance Role_wire : WireEnum Role.
Proof. refine {| wire_str := role_as_str; wire_parse := role_from_str |}. solve_wire_exact role_from_str. Defined.

(** ** Codecs and transports *)

Inductive CodecKind := H264 | H264Plus | H265 | H265Plus.

Definition codec_base (c : CodecKind) : string :=
  match c with H264 | H264Plus => "h264" | H265 | H265Plus => "h265" end.

Definition codec_all : list CodecKind := [H264; H264Plus; H265; H265Plus].

Definition codec_display (c : CodecKind) : string :=
  match c with
  | H264 => "h264" | H264Plus => "h264_plus" | H265 => "h265" | H265Plus => "h265_plus"
  end.

Definition codec_from_str : string -> option CodecKind :=
  match_str [("h264", H264); ("h264_plus", H264Plus); ("h265", H265); ("h265_plus", H265Plus)].

#[export] Instance CodecKind_wire : WireEnum CodecKind.
Proof. refine {| wire_str := codec_display; wire_parse := codec_from_str |}. solve_wire_exact codec_from_str. Defined.

Inductive HdTransport := Sfu | Moq.

Definition hd_all : list HdTransport := [Sfu; Moq].

Definition cap_tag (t : HdTransport) : string :=
  match t with Sfu => "hd_sfu" | Moq => "hd_moq" end.

Definition hd_display (t : HdTransport) : string :=
  match t with Sfu => "sfu" | Moq => "moq" end.

Definition hd_from_str : string -> option HdTransport := match_str [("sfu", Sfu); ("moq", Moq)].

#[export] Instance HdTransport_wire : WireEnum HdTransport.
Proof. refine {| wire_str := hd_display; wire_parse := hd_from_str |}. solve_wire_exact hd_from_str. Defined.

(** ** The delivery schedule *)

Record DeliverySchedule := mkSchedule { grid : list (list bool) }.

Definition SLOTS_PER_DAY : nat := 48.
Definition DAYS : nat := 7.

Definition schedule_always : DeliverySchedule := mkSchedule (repeat (repeat true SLOTS_PER_DAY) DAYS).
Definition schedule_never : DeliverySchedule := mkSchedule (repeat (repeat false SLOTS_PER_DAY) DAYS).

(** [validate]: [None] is [Ok(())]; an error names the offending row, or the outer length. *)
Inductive ScheduleError := OuterLength (got : nat) | RowLength (row got : nat).

Fixpoint validate_rows (i : nat) (rows : list (list bool)) : option ScheduleError :=
  match rows with
  | [] => None
  | row :: rows' =>
      if bool_decide (length row = SLOTS_PER_DAY) then validate_rows (S i) rows'
      else Some (RowLength i (length row))
  end.

Definition validate (s : DeliverySchedule) : option ScheduleError :=
  if bool_decide (length (grid s) = DAYS) then validate_rows 0 (grid s)
  else Some (OuterLength (length (grid s))).

Definition is_allowed (s : DeliverySchedule) (day_from_monday slot : nat) : bool :=
  match grid s !! day_from_monday with
  | Some row => default false (row !! slot)
  | None => false
  end.

Record DeliverySettings := mkSettings {
  enabled : bool;
  schedule : option DeliverySchedule;
  timezone : string;
  attach_alert_clip : bool;
  updated_at : Z;
}.

Record RuleDeliveryPolicy := mkRulePolicy {
  rule_enabled : bool;
  rule_schedule : option DeliverySchedule;
}.

Definition rule_policy_default : RuleDeliveryPolicy := mkRulePolicy true None.

(** ** Facts *)

Lemma satisfies_refl r : satisfies r r = true.
Proof. by destruct r. Qed.

Lemma satisfies_trans a b c : satisfies a b = true -> satisfies b c = true -> satisfies a c = true.
Proof. by destruct a, b, c. Qed.

Lemma swap_pixels_length l : length (swap_pixels l) = length l.
Proof.
  revert l. fix IH 1. intros [|b [|g [|r l]]]; [done..|]. simpl. by rewrite IH.
Qed.

Lemma validate_rows_ok i rows :
  validate_rows i rows = None <-> Forall (fun row => length row = SLOTS_PER_DAY) rows.
Proof.
  revert i. induction rows as [|row rows IH]; intros i; simpl; [by split|].
  rewrite Forall_cons. case_bool_decide; [rewrite IH|]; naive_solver.
Qed.

Lemma validate_ok s :
  validate s = None <-> length (grid s) = DAYS /\ Forall (fun row => length row = SLOTS_PER_DAY) (grid s).
Proof. unfold validate. case_bool_decide; [rewrite validate_rows_ok|]; naive_solver. Qed.

(** On a valid schedule every weekday and half-hour slot is decided by the grid. *)
Lemma is_allowed_valid s day slot :
  validate s = None -> (day < DAYS)%nat -> (slot < SLOTS_PER_DAY)%nat ->
  exists row b, grid s !! day = Some row /\ row !! slot = Some b /\ is_allowed s day slot = b.
Proof.
  intros [Hd Hrows]%validate_ok Hday Hslot. unfold is_allowed.
  destruct (lookup_lt_is_Some_2 (grid s) day) as [row Hrow]; [lia|]. rewrite Hrow.
  pose proof (Forall_lookup_1 _ _ _ _ Hrows Hrow) as Hlen. simpl in Hlen.
  destruct (lookup_lt_is_Some_2 row slot) as [b Hb]; [lia|]. rewrite Hb. by exists row, b.
Qed.
