(* ===== verification/PostRoll.v ===== *)
(** The deferred clip close of [nexus-pipeline/src/post_roll.rs]. *)
From S2P Require Import Prelude.

Inductive PostRollAction := KeepOpen | CloseNow.

#[export] Instance PostRollAction_eq_dec : EqDecision PostRollAction.
Proof. solve_decision. Defined.

Record PostRoll := mkPostRoll { grace : Z; pending_close_at : option Z }.

Definition new (grace_secs : Z) : PostRoll :=
  {| grace := secs grace_secs; pending_close_at := None |}.

Definition set_pending (p : PostRoll) (c : option Z) : PostRoll :=
  {| grace := grace p; pending_close_at := c |}.

Definition tick (p : PostRoll) (now : Z) (has_live_motion : bool) : PostRoll * PostRollAction :=
  if has_live_motion then (set_pending p None, KeepOpen)
  else if grace p =? 0 then (p, CloseNow)
  else match pending_close_at p with
       | None => (set_pending p (Some (now + grace p)), KeepOpen)
       | Some close_at =>
           if close_at <=? now then (set_pending p None, CloseNow) else (p, KeepOpen)
       end.

Definition reset (p : PostRoll) : PostRoll := set_pending p None.

Definition is_pending (p : PostRoll) : bool := bool_decide (is_Some (pending_close_at p)).

(** One frame as the supervisor feeds it: its capture stamp and whether a track is live. *)
Record FrameTick := mkFrameTick { ft_now : Z; ft_live : bool }.

#[export] Instance postroll_machine : Machine FrameTick PostRoll PostRollAction :=
  fun f p => tick p (ft_now f) (ft_live f).

(** ** What a run of frames does *)

Definition quiet (t : Z) : FrameTick := mkFrameTick t false.

(** A machine state is settled when its pending close, if any, lies in the window of the
    quiet run that armed it. *)
Lemma tick_grace p f : grace (mstep f p).1 = grace p.
Proof.
  unfold mstep, postroll_machine, tick. destruct (ft_live f); [done|].
  destruct (grace p =? 0); [done|]. destruct (pending_close_at p); [|done].
  by destruct (_ <=? _).
Qed.

Lemma quiet_pending_run p c ts :
  pending_close_at p = Some c -> grace p <> 0 ->
  Forall (fun t => t < c) ts ->
  mrun (map quiet ts) p = (p, repeat KeepOpen (length ts)).
Proof.
  intros Hp Hg. induction 1 as [|t ts Ht Hts IH]; [done|].
  simpl map. rewrite mrun_cons.
  assert (mstep (quiet t) p = (p, KeepOpen)) as ->.
  { unfold mstep, postroll_machine, tick, quiet; simpl.
    destruct (grace p =? 0) eqn:E; [lia|]. rewrite Hp.
    destruct (c <=? t) eqn:E2; [lia|done]. }
  simpl. by rewrite IH.
Qed.

(** Once the tracker goes quiet the clip stays open for the whole grace window, is
    closed by the first frame stamped at or after its end, and nothing stays pending. *)
Lemma close_exactly_at_grace p t0 ts t :
  grace p <> 0 -> pending_close_at p = None ->
  Forall (fun t' => t' < t0 + grace p) ts -> t0 + grace p <= t ->
  mrun (quiet t0 :: map quiet ts ++ [quiet t]) p =
    (p, KeepOpen :: repeat KeepOpen (length ts) ++ [CloseNow]).
Proof.
  intros Hg Hp Hts Ht. rewrite mrun_cons.
  set (p1 := set_pending p (Some (t0 + grace p))).
  assert (mstep (quiet t0) p = (p1, KeepOpen)) as ->.
  { unfold mstep, postroll_machine, tick, quiet; simpl.
    destruct (grace p =? 0) eqn:E; [lia|]. by rewrite Hp. }
  rewrite mrun_app, (quiet_pending_run _ (t0 + grace p)); [|done..].
  rewrite mrun_cons. simpl.
  unfold mstep, postroll_machine, tick, quiet; simpl.
  destruct (grace p =? 0) eqn:E; [lia|].
  destruct (t0 + grace p <=? t) eqn:E2; [|lia].
  destruct p as [g pc]; simpl in *; subst. done.
Qed.

Lemma close_exactly_at_grace_witness :
  mrun (quiet 0 :: map quiet [secs 3; secs 9] ++ [quiet (secs 10)]) (new 10) =
    (new 10, KeepOpen :: repeat KeepOpen 2 ++ [CloseNow]).
Proof.
  apply (close_exactly_at_grace (new 10) 0 [secs 3; secs 9] (secs 10)).
  - by vm_compute.
  - done.
  - repeat constructor.
  - by vm_compute.
Defined.

(** Every quiet run of [fs] is shorter than [g]: measured from its first frame, which is at
    [since] when the run started before [fs]. *)
Fixpoint quiet_runs_below (g : Z) (since : option Z) (fs : list FrameTick) : Prop :=
  match fs with
  | [] => True
  | f :: fs' =>
      if ft_live f then quiet_runs_below g None fs'
      else match since with
           | None => quiet_runs_below g (Some (ft_now f)) fs'
           | Some t0 => ft_now f < t0 + g /\ quiet_runs_below g (Some t0) fs'
           end
  end.

Lemma no_close_from p since fs :
  grace p <> 0 ->
  pending_close_at p = (fun t0 => t0 + grace p) <$> since ->
  quiet_runs_below (grace p) since fs ->
  Forall (eq KeepOpen) (mrun fs p).2.
Proof.
  revert p since. induction fs as [|[t live] fs IH]; intros p since Hg Hp Hq; [constructor|].
  rewrite mrun_cons. simpl in Hq |- *.
  pose proof (tick_grace p (mkFrameTick t live)) as Hgr.
  revert Hgr. unfold mstep, postroll_machine, tick; simpl.
  destruct live; simpl; intros Hgr.
  { constructor; [done|]. by apply (IH _ None). }
  revert Hgr. destruct (grace p =? 0) eqn:E; [lia|]. rewrite Hp.
  destruct since as [t0|]; simpl.
  - destruct Hq as [Hlt Hq]. destruct (_ <=? t) eqn:E2; [lia|]; simpl.
    intros _. constructor; [done|]. by apply (IH _ (Some t0)).
  - intros _. constructor; [done|]. by apply (IH _ (Some t)).
Qed.

(** Motion that returns inside the window cancels the close: a clip whose quiet runs are
    all shorter than the grace window is never closed, so bursts of motion that are less
    than [post_roll_secs] apart stay in one clip. *)
Lemma motion_within_grace_never_closes grace_secs fs :
  0 < grace_secs -> quiet_runs_below (secs grace_secs) None fs ->
  Forall (eq KeepOpen) (mrun fs (new grace_secs)).2.
Proof.
  intros Hg Hq. apply (no_close_from _ None); [|done..].
  unfold new, secs, ns_per_sec; simpl. lia.
Qed.

Definition two_bursts : list FrameTick :=
  [mkFrameTick 0 true; quiet (secs 1); quiet (secs 9); mkFrameTick (secs 10) true;
   quiet (secs 11); quiet (secs 20)].

Lemma motion_within_grace_never_closes_witness :
  Forall (eq KeepOpen) (mrun two_bursts (new 10)).2.
Proof.
  apply (motion_within_grace_never_closes 10 two_bursts); [lia|].
  vm_compute. repeat split.
Defined.

(** A disabled post-roll closes on every quiet frame. *)
Lemma disabled_closes_at_once t : (tick (new 0) t false).2 = CloseNow.
Proof. done. Qed.
