(* ===== verification/Preroll.v ===== *)
(** The pre-roll ring buffer of [nexus-pipeline/src/preroll.rs]: a GOP-aligned window of
    H.264 samples, trimmed by duration and, as a backstop, by payload bytes. *)
From S2P Require Import Prelude.

Definition MIN_DISCONTINUITY : Z := secs 2.
Definition MAX_RING_BYTES : Z := 64 * 1024 * 1024.

Record NalSample := mkSample {
  pts : option Z;
  dts : option Z;
  is_keyframe : bool;
  data : list Z;
  sample_epoch : Z;
}.

(** A GOP is the list of its samples, keyframe first. *)
Record Gop := mkGop { samples : list NalSample }.

Definition gop_new (keyframe : NalSample) : Gop := {| samples := [keyframe] |}.

Definition first_pts (g : Gop) : option Z := head (omap pts (samples g)).

Definition gop_bytes (g : Gop) : Z := foldr Z.add 0 (map (fun s => zlength (data s)) (samples g)).

Record NalRingBuffer := mkRing {
  gops : list Gop;
  max_duration : Z;
  newest_pts : option Z;
  epoch : Z;
  bytes : Z;
  max_bytes : Z;
  byte_cap_trip : bool;
  byte_capped : bool;
}.

Definition new (max_duration : Z) : NalRingBuffer :=
  {| gops := []; max_duration := max_duration; newest_pts := None; epoch := 0; bytes := 0;
     max_bytes := MAX_RING_BYTES; byte_cap_trip := false; byte_capped := false |}.

Definition set_gops (r : NalRingBuffer) (gs : list Gop) (b : Z) : NalRingBuffer :=
  mkRing gs (max_duration r) (newest_pts r) (epoch r) b (max_bytes r)
    (byte_cap_trip r) (byte_capped r).

Definition set_newest (r : NalRingBuffer) (n : option Z) : NalRingBuffer :=
  mkRing (gops r) (max_duration r) n (epoch r) (bytes r) (max_bytes r)
    (byte_cap_trip r) (byte_capped r).

Definition set_byte_flags (r : NalRingBuffer) (trip capped : bool) : NalRingBuffer :=
  mkRing (gops r) (max_duration r) (newest_pts r) (epoch r) (bytes r) (max_bytes r) trip capped.

Definition take_byte_cap_trip (r : NalRingBuffer) : NalRingBuffer * bool :=
  (set_byte_flags r false (byte_capped r), byte_cap_trip r).

Definition begin_epoch (r : NalRingBuffer) : NalRingBuffer :=
  {| gops := []; max_duration := max_duration r; newest_pts := None; epoch := epoch r + 1;
     bytes := 0; max_bytes := max_bytes r; byte_cap_trip := false; byte_capped := false |}.

Definition sample_count (r : NalRingBuffer) : nat := sum_list (map (fun g => length (samples g)) (gops r)).

Definition gop_count (r : NalRingBuffer) : nat := length (gops r).

Definition oldest_pts (r : NalRingBuffer) : option Z := head (gops r) ≫= first_pts.

Definition buffered_duration (r : NalRingBuffer) : Z :=
  match oldest_pts r, newest_pts r with
  | Some old, Some new => if old <=? new then new - old else 0
  | _, _ => 0
  end.

Definition pop_front_gop (r : NalRingBuffer) : NalRingBuffer :=
  match gops r with
  | g :: gs => set_gops r gs (bytes r - gop_bytes g)
  | [] => r
  end.

(** The [while] loop of [trim], on the GOPs and their byte count: at most one turn per GOP. *)
Fixpoint trim_loop (newest maxd : Z) (gs : list Gop) (b : Z) : list Gop * Z :=
  match gs with
  | g1 :: (g2 :: _) as rest =>
      match first_pts g1 with
      | None => (gs, b)
      | Some first =>
          match first_pts g2 with
          | None => (gs, b)
          | Some second =>
              if maxd <? sat_sub newest second then trim_loop newest maxd rest (b - gop_bytes g1)
              else if maxd <? sat_sub newest first then (rest, b - gop_bytes g1)
              else (gs, b)
          end
      end
  | _ => (gs, b)
  end.

Definition trim (r : NalRingBuffer) : NalRingBuffer :=
  match newest_pts r with
  | None => r
  | Some newest =>
      let '(gs, b) := trim_loop newest (max_duration r) (gops r) (bytes r) in set_gops r gs b
  end.

(** The [while] loop of [trim_bytes]; the boolean is its local [trimmed]. *)
Fixpoint trim_bytes_loop (max_bytes : Z) (gs : list Gop) (b : Z) (trimmed : bool)
  : list Gop * Z * bool :=
  match gs with
  | g1 :: (_ :: _) as rest =>
      if max_bytes <? b then trim_bytes_loop max_bytes rest (b - gop_bytes g1) true
      else (gs, b, trimmed)
  | _ => (gs, b, trimmed)
  end.

Definition trim_bytes (r : NalRingBuffer) : NalRingBuffer :=
  let '(gs, b, trimmed) := trim_bytes_loop (max_bytes r) (gops r) (bytes r) false in
  let r := set_gops r gs b in
  if trimmed then set_byte_flags r (byte_cap_trip r || negb (byte_capped r)) true
  else if bytes r <=? max_bytes r / 2 then set_byte_flags r (byte_cap_trip r) false
  else r.

(** [gops.back_mut()] and the push onto it. *)
Fixpoint push_back_gop (gs : list Gop) (s : NalSample) : list Gop :=
  match gs with
  | [] => []
  | [g] => [mkGop (samples g ++ [s])]
  | g :: gs' => g :: push_back_gop gs' s
  end.

Definition is_discontinuity (r : NalRingBuffer) (s : NalSample) : bool :=
  match pts s, newest_pts r with
  | Some p, Some newest => Z.max (max_duration r) MIN_DISCONTINUITY <? sat_sub newest p
  | _, _ => false
  end.

Definition stamp (e : Z) (s : NalSample) : NalSample :=
  mkSample (pts s) (dts s) (is_keyframe s) (data s) e.

Definition advance_newest (newest p : option Z) : option Z :=
  match p with
  | Some p => Some (match newest with None => p | Some n => Z.max n p end)
  | None => newest
  end.

Definition push (r : NalRingBuffer) (sample : NalSample) : NalRingBuffer * NalSample :=
  let r := if is_discontinuity r sample then begin_epoch r else r in
  let sample := stamp (epoch r) sample in
  let r := set_newest r (advance_newest (newest_pts r) (pts sample)) in
  let r :=
    if is_keyframe sample then
      let r := trim r in
      set_gops r (gops r ++ [gop_new sample]) (bytes r + zlength (data sample))
    else match gops r with
         | [] => r
         | _ => set_gops r (push_back_gop (gops r) sample) (bytes r + zlength (data sample))
         end in
  (trim_bytes (trim r), sample).

Definition snapshot (r : NalRingBuffer) : list NalSample := gops r ≫= samples.

(** The calls an ingester makes on a ring, in the order it makes them. *)
Inductive RingOp :=
| Push (s : NalSample)
| BeginEpoch
| TakeByteCapTrip.

Definition apply_op (o : RingOp) (r : NalRingBuffer) : NalRingBuffer :=
  match o with
  | Push s => (push r s).1
  | BeginEpoch => begin_epoch r
  | TakeByteCapTrip => (take_byte_cap_trip r).1
  end.

#[export] Instance ring_machine : Machine RingOp NalRingBuffer unit :=
  fun o r => (apply_op o r, tt).

(** ** Well-formed rings *)

Definition newest_bounds (n : option Z) (s : NalSample) : Prop :=
  forall p, pts s = Some p -> exists m, n = Some m /\ p <= m.

(** A GOP starts on its only keyframe; its samples carry epoch [e] and none is newer than [n]. *)
Record gop_wf (e : Z) (n : option Z) (g : Gop) : Prop := {
  gop_head : exists k tl, samples g = k :: tl /\ is_keyframe k = true
                          /\ Forall (fun s => is_keyframe s = false) tl;
  gop_epoch : Forall (fun s => sample_epoch s = e) (samples g);
  gop_newest : Forall (newest_bounds n) (samples g);
}.

Definition gops_bytes (gs : list Gop) : Z := foldr Z.add 0 (map gop_bytes gs).

Record ring_wf (r : NalRingBuffer) : Prop := {
  wf_gops : Forall (gop_wf (epoch r) (newest_pts r)) (gops r);
  wf_bytes : bytes r = gops_bytes (gops r);
  wf_cap : bytes r <= max_bytes r \/ (length (gops r) <= 1)%nat;
}.

Lemma gops_bytes_app gs1 gs2 : gops_bytes (gs1 ++ gs2) = gops_bytes gs1 + gops_bytes gs2.
Proof. unfold gops_bytes. induction gs1; simpl; lia. Qed.

Lemma gop_bytes_snoc g s : gop_bytes (mkGop (samples g ++ [s])) = gop_bytes g + zlength (data s).
Proof. unfold gop_bytes; simpl. induction (samples g); simpl; lia. Qed.

(** [gs'] with byte count [b'] is what is left of [gs] and [b] after dropping GOPs off the
    front, the last one excepted. *)
Definition drops_front (gs gs' : list Gop) (b b' : Z) : Prop :=
  exists dropped, gs = dropped ++ gs' /\ b' = b - gops_bytes dropped /\ (gs' = [] -> gs = []).

Lemma drops_front_refl gs b : drops_front gs gs b b.
Proof. exists []. split_and!; [done|unfold gops_bytes; simpl; lia|done]. Qed.

Lemma drops_front_cons g gs gs' b b' :
  gs <> [] -> drops_front gs gs' (b - gop_bytes g) b' -> drops_front (g :: gs) gs' b b'.
Proof.
  intros Hne (dropped & -> & -> & Hnil). exists (g :: dropped).
  split_and!; [done|unfold gops_bytes; simpl; lia|]. intros Hg. by apply Hnil in Hg.
Qed.

Lemma drops_front_trans gs1 gs2 gs3 b1 b2 b3 :
  drops_front gs1 gs2 b1 b2 -> drops_front gs2 gs3 b2 b3 -> drops_front gs1 gs3 b1 b3.
Proof.
  intros (d1 & -> & -> & H1) (d2 & -> & -> & H2). exists (d1 ++ d2).
  split_and!; [by rewrite app_assoc|rewrite gops_bytes_app; lia|].
  intros Hn. apply H1. by apply H2.
Qed.

#[export] Hint Resolve drops_front_refl drops_front_cons : nexus.

Lemma trim_loop_eq newest maxd g1 g2 gs b :
  trim_loop newest maxd (g1 :: g2 :: gs) b =
    match first_pts g1, first_pts g2 with
    | Some first, Some second =>
        if maxd <? sat_sub newest second then trim_loop newest maxd (g2 :: gs) (b - gop_bytes g1)
        else if maxd <? sat_sub newest first then (g2 :: gs, b - gop_bytes g1)
        else (g1 :: g2 :: gs, b)
    | _, _ => (g1 :: g2 :: gs, b)
    end.
Proof. simpl. by destruct (first_pts g1), (first_pts g2). Qed.

Lemma trim_loop_drops newest maxd gs b :
  drops_front gs (trim_loop newest maxd gs b).1 b (trim_loop newest maxd gs b).2.
Proof.
  revert b. induction gs as [|g1 [|g2 gs] IH]; intros b; [auto with nexus..|].
  rewrite trim_loop_eq. destruct (first_pts g1); [|auto with nexus].
  destruct (first_pts g2); [|auto with nexus].
  destruct (maxd <? _); [apply drops_front_cons, IH; done|].
  destruct (maxd <? _); auto with nexus.
Qed.

Lemma trim_bytes_loop_drops m gs b t :
  drops_front gs (trim_bytes_loop m gs b t).1.1 b (trim_bytes_loop m gs b t).1.2.
Proof.
  revert b t. induction gs as [|g1 [|g2 gs] IH]; intros b t; [auto with nexus..|].
  cbn. destruct (m <? b); [apply drops_front_cons, IH; done|auto with nexus].
Qed.

(** What [trim] leaves is within the window, or is a single GOP, or has a GOP without PTS. *)
Lemma trim_loop_window newest maxd gs b gs' b' :
  trim_loop newest maxd gs b = (gs', b') ->
  (length gs' <= 1)%nat \/ Exists (fun g => first_pts g = None) gs'
  \/ (exists p, head gs' ≫= first_pts = Some p /\ sat_sub newest p <= maxd).
Proof.
  revert b. induction gs as [|g1 [|g2 gs] IH]; intros b.
  - intros [= <- <-]. left; simpl; lia.
  - intros [= <- <-]. left; simpl; lia.
  - rewrite trim_loop_eq. destruct (first_pts g1) as [p1|] eqn:E1; [|intros [= <- <-]; right; left; by constructor].
    destruct (first_pts g2) as [p2|] eqn:E2; [|intros [= <- <-]; right; left; by repeat constructor].
    destruct (maxd <? sat_sub newest p2) eqn:L2; [apply IH|].
    destruct (maxd <? sat_sub newest p1) eqn:L1; intros [= <- <-]; right; right; simpl.
    + exists p2. split; [done|lia].
    + exists p1. split; [done|lia].
Qed.

Lemma trim_bytes_loop_cap m gs b t :
  let res := trim_bytes_loop m gs b t in res.1.2 <= m \/ (length res.1.1 <= 1)%nat.
Proof.
  revert b t. induction gs as [|g1 [|g2 gs] IH]; intros b t; cbn; [right; lia..|].
  destruct (m <? b) eqn:E; [apply IH|left; simpl; lia].
Qed.

Lemma drops_front_wf e n gs gs' b b' :
  drops_front gs gs' b b' -> Forall (gop_wf e n) gs -> b = gops_bytes gs ->
  Forall (gop_wf e n) gs' /\ b' = gops_bytes gs'.
Proof.
  intros (d & -> & -> & _) Hgs ->. apply Forall_app in Hgs as [_ Hgs].
  split; [done|]. rewrite gops_bytes_app. lia.
Qed.

(** The same relation between two rings: only the front of the ring differs. *)
Record ring_drops (r r' : NalRingBuffer) : Prop := {
  rd_gops : drops_front (gops r) (gops r') (bytes r) (bytes r');
  rd_epoch : epoch r' = epoch r;
  rd_newest : newest_pts r' = newest_pts r;
  rd_max : max_duration r' = max_duration r;
  rd_maxb : max_bytes r' = max_bytes r;
}.

Lemma ring_drops_trans r1 r2 r3 : ring_drops r1 r2 -> ring_drops r2 r3 -> ring_drops r1 r3.
Proof. intros [] []. split; [by eapply drops_front_trans|congruence..]. Qed.

Lemma trim_drops r : ring_drops r (trim r).
Proof.
  unfold trim. destruct (newest_pts r) as [n|] eqn:En; [|split; auto with nexus].
  pose proof (trim_loop_drops n (max_duration r) (gops r) (bytes r)).
  destruct (trim_loop _ _ _ _); split; done.
Qed.

Lemma trim_bytes_drops r : ring_drops r (trim_bytes r).
Proof.
  unfold trim_bytes. pose proof (trim_bytes_loop_drops (max_bytes r) (gops r) (bytes r) false) as H.
  destruct (trim_bytes_loop _ _ _ _) as [[gs b] []]; [split; done|].
  simpl. destruct (b <=? max_bytes r / 2); split; done.
Qed.

Lemma trim_bytes_cap r :
  bytes (trim_bytes r) <= max_bytes (trim_bytes r) \/ (length (gops (trim_bytes r)) <= 1)%nat.
Proof.
  unfold trim_bytes. pose proof (trim_bytes_loop_cap (max_bytes r) (gops r) (bytes r) false) as H.
  destruct (trim_bytes_loop _ _ _ _) as [[gs b] []]; [done|].
  simpl in *. destruct (b <=? max_bytes r / 2); done.
Qed.

(** ** Pushing *)

(** A sample joins the stream: a keyframe opens a GOP, a delta joins the last one, and a
    delta with no keyframe ahead of it has no place. *)
Definition append_sample (gs : list Gop) (s : NalSample) : list Gop :=
  if is_keyframe s then gs ++ [gop_new s] else push_back_gop gs s.

(** The ring a sample is pushed onto: a PTS step back empties it first. *)
Definition push_base (r : NalRingBuffer) (s : NalSample) : NalRingBuffer :=
  if is_discontinuity r s then begin_epoch r else r.

Lemma push_back_gop_snoc gs g s : push_back_gop (gs ++ [g]) s = gs ++ [mkGop (samples g ++ [s])].
Proof. induction gs as [|g' [|g'' gs] IH]; simpl in *; congruence. Qed.

Lemma push_back_gop_bytes gs s :
  gs <> [] -> gops_bytes (push_back_gop gs s) = gops_bytes gs + zlength (data s).
Proof.
  intros Hne. destruct (exists_last Hne) as (gs' & g & ->).
  rewrite push_back_gop_snoc, !gops_bytes_app. unfold gops_bytes; simpl.
  rewrite gop_bytes_snoc. lia.
Qed.

Lemma newest_bounds_mono n s p : newest_bounds n s -> newest_bounds (advance_newest n p) s.
Proof.
  intros H q Hq. destruct (H q Hq) as (m & -> & Hm). destruct p; simpl; eexists; (split; [done|lia]).
Qed.

Lemma gop_wf_mono e n p g : gop_wf e n g -> gop_wf e (advance_newest n p) g.
Proof.
  intros [? ? H]. split; [done..|]. eapply List.Forall_impl; [|exact H]. intros. by apply newest_bounds_mono.
Qed.

Lemma stamped_bounds n e s : newest_bounds (advance_newest n (pts s)) (stamp e s).
Proof. intros p Hp. simpl in Hp. rewrite Hp. simpl. destruct n; eexists; (split; [done|lia]). Qed.

Lemma gop_new_wf n e s : is_keyframe s = true -> gop_wf e (advance_newest n (pts s)) (gop_new (stamp e s)).
Proof.
  intros Hk. split; simpl.
  - exists (stamp e s), []. by repeat constructor.
  - by repeat constructor.
  - repeat constructor. apply stamped_bounds.
Qed.

Lemma gop_snoc_wf n e s g :
  is_keyframe s = false -> gop_wf e n g ->
  gop_wf e (advance_newest n (pts s)) (mkGop (samples g ++ [stamp e s])).
Proof.
  intros Hk Hg. apply (gop_wf_mono _ _ (pts s)) in Hg as [(k & tl & Hs & Hkf & Htl) He Hn].
  split; simpl.
  - exists k, (tl ++ [stamp e s]). rewrite Hs. split_and!; [done..|].
    apply Forall_app; split; [done|by repeat constructor].
  - apply Forall_app; split; [done|by repeat constructor].
  - apply Forall_app; split; [done|]. repeat constructor. apply stamped_bounds.
Qed.

Lemma append_sample_wf e n gs s :
  Forall (gop_wf e n) gs ->
  Forall (gop_wf e (advance_newest n (pts s))) (append_sample gs (stamp e s)).
Proof.
  intros Hgs. unfold append_sample; simpl.
  assert (Forall (gop_wf e (advance_newest n (pts s))) gs) as Hgs'.
  { eapply List.Forall_impl; [|exact Hgs]. intros. by apply gop_wf_mono. }
  destruct (is_keyframe s) eqn:Hk.
  { apply Forall_app; split; [done|]. by apply Forall_singleton, gop_new_wf. }
  destruct (decide (gs = [])) as [->|Hne]; [constructor|].
  destruct (exists_last Hne) as (gs' & g & ->). rewrite push_back_gop_snoc.
  apply Forall_app in Hgs as [_ Hg], Hgs' as [Hgs' _]. apply Forall_inv in Hg.
  apply Forall_app; split; [done|]. by apply Forall_singleton, gop_snoc_wf.
Qed.

(** The ring right after the sample went in, before [push]'s closing trims. *)
Lemma push_unfold r s :
  let r0 := push_base r s in
  exists r1, (push r s).1 = trim_bytes (trim r1)
    /\ newest_pts r1 = advance_newest (newest_pts r0) (pts s)
    /\ epoch r1 = epoch r0 /\ max_duration r1 = max_duration r /\ max_bytes r1 = max_bytes r
    /\ drops_front (append_sample (gops r0) (stamp (epoch r0) s)) (gops r1)
         (bytes r0 + gops_bytes (append_sample (gops r0) (stamp (epoch r0) s)) - gops_bytes (gops r0))
         (bytes r1).
Proof.
  intros r0. unfold push. fold (push_base r s). fold r0.
  assert (max_duration r0 = max_duration r /\ max_bytes r0 = max_bytes r) as [Hmd Hmb].
  { unfold r0, push_base. by destruct (is_discontinuity r s). }
  set (rn := set_newest r0 _). cbn [is_keyframe stamp]. unfold append_sample; cbn [is_keyframe stamp].
  destruct (is_keyframe s).
  - eexists; split; [done|]. destruct (trim_drops rn) as [(d & Hd & Hb & Hn) He Hnew Hm Hmx].
    simpl in *. split_and!; [done|congruence..|].
    exists d. rewrite Hd, app_assoc. split_and!; [done| |by destruct (gops (trim rn))].
    rewrite !gops_bytes_app. unfold gop_new, gops_bytes at 3, gop_bytes; simpl. lia.
  - change (gops rn) with (gops r0). destruct (gops r0) as [|g gs] eqn:Eg.
    + exists rn. split_and!; [done..|]. change (gops rn) with (gops r0). rewrite Eg.
      cbn [push_back_gop]. rewrite Z.add_simpl_r. apply drops_front_refl.
    + eexists; split; [done|]. split_and!; [done..|].
      rewrite push_back_gop_bytes by done. cbn [gops bytes set_gops data stamp].
      rewrite Z.add_assoc, (Z.add_comm (bytes r0)), <- Z.add_assoc, Z.add_simpl_l.
      apply drops_front_refl.
Qed.

Lemma push_base_wf r s : ring_wf r -> ring_wf (push_base r s).
Proof.
  intros Hwf. unfold push_base. destruct (is_discontinuity r s); [|done].
  split; simpl; [constructor|done|right; lia].
Qed.

Lemma push_wf r s : ring_wf r -> ring_wf (push r s).1.
Proof.
  intros Hwf. pose proof (push_base_wf r s Hwf) as [Hg Hb _].
  destruct (push_unfold r s) as (r1 & -> & Hn & He & _ & _ & Hd).
  pose proof (ring_drops_trans _ _ _ (trim_drops r1) (trim_bytes_drops (trim r1))) as [Hd2 He2 Hn2 _ _].
  pose proof (drops_front_trans _ _ _ _ _ _ Hd Hd2) as Hd3.
  eapply drops_front_wf in Hd3 as [Hg3 Hb3]; [|by apply append_sample_wf|lia].
  split; [by rewrite He2, Hn2, He, Hn|done|apply trim_bytes_cap].
Qed.

Lemma ring_new_wf d : ring_wf (new d).
Proof. split; simpl; [constructor|done|right; lia]. Qed.

Lemma apply_op_wf o r : ring_wf r -> ring_wf (apply_op o r).
Proof.
  intros Hwf. destruct o; simpl; [by apply push_wf| |].
  - split; simpl; [constructor|done|right; lia].
  - by destruct Hwf.
Qed.

Lemma run_wf ops r : ring_wf r -> ring_wf (mrun ops r).1.
Proof.
  apply (mrun_invariant (fun _ => True) ring_wf); [|by apply Forall_true].
  intros. by apply apply_op_wf.
Qed.

Lemma reachable_wf ops d : ring_wf (mrun ops (new d)).1.
Proof. apply run_wf, ring_new_wf. Qed.

(** Whatever sequence of pushes, epoch changes and trip reads a ring goes through, it stays
    well formed: every GOP leads with its only keyframe, all held samples carry the current
    epoch, the byte counter is exactly the payload held, and the payload is under its cap
    unless a single GOP is left. *)
Lemma ring_stays_wf ops r : ring_wf r -> ring_wf (mrun ops r).1.
Proof. apply run_wf. Qed.

(** A well-formed ring's snapshot is empty or starts on a keyframe, and is of one epoch. *)
Lemma snapshot_wf r : ring_wf r ->
  match snapshot r with
  | [] => gops r = []
  | k :: _ => is_keyframe k = true
  end /\ Forall (fun s => sample_epoch s = epoch r) (snapshot r).
Proof.
  intros [Hg _ _]. unfold snapshot. split.
  - destruct Hg as [|g gs [(k & tl & Hs & Hk & _) _ _] _]; [done|]. simpl. by rewrite Hs.
  - induction Hg as [|g gs [] _ IH]; [constructor|]. simpl. by apply Forall_app.
Qed.

(** Whatever an ingester pushed, a snapshot can be spliced into a clip: it is empty or
    starts on a keyframe, and all of it belongs to one epoch. *)
Lemma snapshot_spliceable ops d :
  let r := (mrun ops (new d)).1 in
  match snapshot r with
  | [] => gops r = []
  | k :: _ => is_keyframe k = true
  end /\ Forall (fun s => sample_epoch s = epoch r) (snapshot r).
Proof. apply snapshot_wf, reachable_wf. Qed.

(** What a push leaves held. *)
Lemma push_held r s :
  let r0 := push_base r s in
  let held := append_sample (gops r0) (stamp (epoch r0) s) in
  exists dropped, held = dropped ++ gops (push r s).1
    /\ last (gops (push r s).1) = last held /\ epoch (push r s).1 = epoch r0.
Proof.
  intros r0 held. destruct (push_unfold r s) as (r1 & -> & _ & He & _ & _ & Hd).
  pose proof (ring_drops_trans _ _ _ (trim_drops r1) (trim_bytes_drops (trim r1))) as [Hd2 He2 _ _ _].
  destruct (drops_front_trans _ _ _ _ _ _ Hd Hd2) as (dropped & Hh & _ & Hn).
  fold r0 in Hh, Hn. fold held in Hh, Hn. exists dropped. split_and!; [done| |by rewrite He2, He].
  destruct (gops (trim_bytes (trim r1))) as [|g gs] eqn:E; [by rewrite Hn|].
  rewrite Hh, last_app_cons. done.
Qed.

Lemma append_sample_suffix gs s : (append_sample gs s ≫= samples) `suffix_of` (gs ≫= samples) ++ [s].
Proof.
  unfold append_sample. destruct (is_keyframe s); [by rewrite bind_app|].
  destruct gs as [|gs g _] using rev_ind; [apply suffix_nil|].
  rewrite push_back_gop_snoc, !bind_app. simpl. by rewrite !app_nil_r, (assoc_L (++)).
Qed.

(** The ring holds a tail of what it held and the new sample. *)
Lemma push_suffix r s :
  snapshot (push r s).1 `suffix_of` snapshot (push_base r s) ++ [stamp (epoch (push_base r s)) s].
Proof.
  destruct (push_held r s) as (dropped & Hh & _). etransitivity; [|apply append_sample_suffix].
  unfold snapshot. rewrite Hh, bind_app. by apply suffix_app_r.
Qed.

(** The ring refines "the newest GOPs of the stream": a push appends the stamped sample
    to the held GOPs (to an emptied ring when the PTS stepped back) and then drops whole GOPs
    off the front, never the newest one; a delta frame that finds no keyframe is dropped. *)
Lemma push_drops_only_whole_old_gops r s :
  let r0 := push_base r s in
  let held := append_sample (gops r0) (stamp (epoch r0) s) in
  exists dropped, held = dropped ++ gops (push r s).1
    /\ last (gops (push r s).1) = last held /\ epoch (push r s).1 = epoch r0.
Proof. apply push_held. Qed.

Lemma trim_bytes_noop r : bytes r <= max_bytes r -> gops (trim_bytes r) = gops r.
Proof.
  intros Hb. unfold trim_bytes.
  assert (trim_bytes_loop (max_bytes r) (gops r) (bytes r) false = (gops r, bytes r, false)) as ->.
  { destruct (gops r) as [|g1 [|g2 gs]]; [done..|]. simpl.
    destruct (max_bytes r <? bytes r) eqn:E; [lia|done]. }
  simpl. by destruct (_ <=? _).
Qed.

Lemma gops_bytes_nonneg gs : 0 <= gops_bytes gs.
Proof.
  unfold gops_bytes. induction gs as [|g gs IH]; simpl; [done|].
  assert (0 <= gop_bytes g); [|lia]. unfold gop_bytes, zlength. induction (samples g); simpl; lia.
Qed.

Lemma append_sample_bytes gs s : gops_bytes (append_sample gs s) <= gops_bytes gs + zlength (data s).
Proof.
  unfold append_sample. destruct (is_keyframe s).
  - rewrite gops_bytes_app. unfold gop_new, gops_bytes at 2, gop_bytes; simpl. lia.
  - destruct (decide (gs = [])) as [->|]; [unfold zlength; simpl; lia|].
    by rewrite push_back_gop_bytes.
Qed.

(** The duration bound: while the payload is under its cap, a push leaves a ring whose
    span from the oldest to the newest PTS is at most [max_duration], or a single GOP, or a
    ring with a GOP that carries no PTS at all. *)
Lemma push_bounds_duration r s :
  ring_wf r -> 0 <= max_duration r -> bytes r + zlength (data s) <= max_bytes r ->
  let r' := (push r s).1 in
  buffered_duration r' <= max_duration r' \/ (length (gops r') <= 1)%nat
  \/ Exists (fun g => first_pts g = None) (gops r').
Proof.
  intros Hwf Hmd Hcap. cbv zeta. pose proof (wf_bytes _ (push_base_wf r s Hwf)) as Hb0.
  destruct (push_unfold r s) as (r1 & -> & _ & _ & Hm & Hmb & Hd).
  pose proof (trim_drops r1) as [(dr & _ & Hbt & _) _ _ Hmt Hmbt].
  pose proof (trim_bytes_drops (trim r1)) as [_ _ Hn2 Hm2 _].
  destruct Hd as (d & _ & Hb & _).
  pose proof (append_sample_bytes (gops (push_base r s)) (stamp (epoch (push_base r s)) s)).
  pose proof (gops_bytes_nonneg d). pose proof (gops_bytes_nonneg dr).
  assert (bytes (push_base r s) <= bytes r) as Hbase.
  { unfold push_base. destruct (is_discontinuity r s); simpl; [|lia].
    rewrite (wf_bytes _ Hwf). apply gops_bytes_nonneg. }
  cbn [data stamp] in *.
  assert (gops (trim_bytes (trim r1)) = gops (trim r1)) as Hg by (apply trim_bytes_noop; lia).
  unfold buffered_duration, oldest_pts. rewrite Hg, Hn2, Hm2.
  unfold trim in *. destruct (newest_pts r1) as [n|] eqn:En.
  - destruct (trim_loop n _ _ _) as [gs' b'] eqn:Et.
    apply trim_loop_window in Et as [?|[?|(p & Hp & Hw)]]; simpl in *; [tauto..|left].
    rewrite Hp, En. unfold sat_sub in Hw. destruct (p <=? n); lia.
  - left. rewrite En. destruct (head _ ≫= _); lia.
Qed.

(** A two-second window over a camera with a keyframe a second, eight bytes each. *)
Definition demo_sample (k : bool) (sec : Z) : NalSample :=
  mkSample (Some (secs sec)) None k [0; 0; 0; 1; 101; 1; 2; 3] 0.

Definition demo_ring : NalRingBuffer :=
  (mrun [Push (demo_sample true 0); Push (demo_sample true 1); Push (demo_sample true 2)]
     (new (secs 2))).1.

Lemma ring_stays_wf_witness :
  ring_wf (mrun [Push (demo_sample true 3); Push (demo_sample false 4)] demo_ring).1.
Proof. apply ring_stays_wf. apply reachable_wf. Defined.

Lemma push_bounds_duration_witness :
  let r' := (push demo_ring (demo_sample true 3)).1 in
  gop_count r' = 3%nat /\
  (buffered_duration r' <= max_duration r' \/ (length (gops r') <= 1)%nat
   \/ Exists (fun g => first_pts g = None) (gops r')).
Proof.
  split; [done|].
  apply (push_bounds_duration demo_ring (demo_sample true 3)); [apply reachable_wf|by vm_compute..].
Defined.
