(* ===== verification/RecordingHealth.v ===== *)
(** The recording-health registry of [nexus-pipeline/src/recording_health.rs]. A camera's
    status map is a shared object ([Arc<Mutex<..>>]): the registry and every outstanding
    attempt point at it, so the model keeps a store of status maps indexed by location. *)
From S2P Require Import Prelude.

Inductive RecordingKind := Motion | Alert | Codec.

#[export] Instance RecordingKind_eq_dec : EqDecision RecordingKind.
Proof. solve_decision. Defined.

#[export] Instance RecordingKind_countable : Countable RecordingKind.
Proof.
  refine {|
    encode k := match k with Motion => 1 | Alert => 2 | Codec => 3 end%positive;
    decode p := match p with 1 => Some Motion | 2 => Some Alert | 3 => Some Codec | _ => None end%positive
  |}.
  by intros [].
Defined.

(** The order of the derived [Ord], which is the iteration order of the status map. *)
Definition all_kinds : list RecordingKind := [Motion; Alert; Codec].

Record Status := mkStatus { revision : Z; reason : option string }.

Definition status_default : Status := {| revision := 0; reason := None |}.

Abbreviation CameraStatus := (gmap RecordingKind Status).

Abbreviation Loc := nat.

Record Registry := mkRegistry {
  cameras : gmap Z Loc;
  heap : gmap Loc CameraStatus;
  next_loc : Loc;
}.

Definition empty_registry : Registry := {| cameras := ∅; heap := ∅; next_loc := 0%nat |}.

Record RecordingAttempt := mkAttempt {
  camera : Loc;
  kind : RecordingKind;
  attempt_revision : Z;
}.

Record RecordingDegradation := mkDegradation {
  camera_id : Z;
  deg_kind : RecordingKind;
  deg_reason : string;
}.

(** [camera.entry(kind).or_default()] *)
Definition entry_or_default (c : CameraStatus) (k : RecordingKind) : Status :=
  default status_default (c !! k).

Definition status_at (r : Registry) (l : Loc) : CameraStatus := default ∅ (heap r !! l).

Definition set_status (r : Registry) (l : Loc) (k : RecordingKind) (s : Status) : Registry :=
  mkRegistry (cameras r) (<[l := <[k := s]> (status_at r l)]> (heap r)) (next_loc r).

(** [cameras.entry(camera_id).or_default().clone()]: the shared map, allocated on first use. *)
Definition camera_entry (r : Registry) (cam : Z) : Registry * Loc :=
  match cameras r !! cam with
  | Some l => (r, l)
  | None =>
      let l := next_loc r in
      (mkRegistry (<[cam := l]> (cameras r)) (<[l := ∅]> (heap r)) (S l), l)
  end.

Definition begin (r : Registry) (cam : Z) (k : RecordingKind) : Registry * RecordingAttempt :=
  let '(r, l) := camera_entry r cam in
  let s := entry_or_default (status_at r l) k in
  (set_status r l k s, mkAttempt l k (revision s)).

Definition remove (r : Registry) (cam : Z) : Registry :=
  mkRegistry (delete cam (cameras r)) (heap r) (next_loc r).

Definition fail (r : Registry) (a : RecordingAttempt) (why : string) : Registry :=
  let s := entry_or_default (status_at r (camera a)) (kind a) in
  set_status r (camera a) (kind a) (mkStatus (usat_add 64 (revision s) 1) (Some why)).

Definition succeed (r : Registry) (a : RecordingAttempt) : Registry :=
  let s := entry_or_default (status_at r (camera a)) (kind a) in
  set_status r (camera a) (kind a)
    (if revision s =? attempt_revision a then mkStatus (revision s) None else s).

Record RecordingFailureGuard := mkGuard {
  guard_attempt : RecordingAttempt;
  guard_reason : string;
  completed : bool;
}.

Definition guard (a : RecordingAttempt) (why : string) : RecordingFailureGuard :=
  mkGuard a why false.

Definition drop_guard (r : Registry) (g : RecordingFailureGuard) : Registry :=
  if completed g then r else fail r (guard_attempt g) (guard_reason g).

(** [complete] consumes the guard, which is then dropped. *)
Definition complete (r : Registry) (g : RecordingFailureGuard) : Registry :=
  drop_guard r (mkGuard (guard_attempt g) (guard_reason g) true).

Definition camera_degradations (cam : Z) (c : CameraStatus) : list RecordingDegradation :=
  omap (fun k => c !! k ≫= fun s => mkDegradation cam k <$> reason s) all_kinds.

Definition degradations (r : Registry) : list RecordingDegradation :=
  sorted_entries (cameras r) ≫= fun '(cam, l) => camera_degradations cam (status_at r l).

Inductive HealthOp :=
| Begin (cam : Z) (k : RecordingKind)
| Remove (cam : Z)
| Fail (a : RecordingAttempt) (why : string)
| Succeed (a : RecordingAttempt).

Definition health_step (o : HealthOp) (r : Registry) : Registry :=
  match o with
  | Begin cam k => (begin r cam k).1
  | Remove cam => remove r cam
  | Fail a why => fail r a why
  | Succeed a => succeed r a
  end.

#[export] Instance health_machine : Machine HealthOp Registry unit :=
  fun o r => (health_step o r, tt).

(** ** What the registry reports *)

(** The reported reason of one kind of recording on one camera. *)
Definition reported (r : Registry) (cam : Z) (k : RecordingKind) : option string :=
  l ← cameras r !! cam; s ← status_at r l !! k; reason s.

Lemma elem_of_degradations r d :
  d ∈ degradations r <-> reported r (camera_id d) (deg_kind d) = Some (deg_reason d).
Proof.
  unfold degradations, reported. rewrite list_elem_of_bind. split.
  - intros ([cam l] & Hd & Hin%elem_of_sorted_entries).
    unfold camera_degradations in Hd. apply list_elem_of_omap in Hd as (k & _ & Hk).
    destruct (status_at r l !! k) as [s|] eqn:Es; simpl in Hk; [|done].
    destruct (reason s) as [w|] eqn:Ew; simpl in Hk; [|done]. injection Hk as <-.
    simpl. rewrite Hin. simpl. rewrite Es. simpl. done.
  - destruct d as [cam k w]; simpl. intros H.
    destruct (cameras r !! cam) as [l|] eqn:El; simpl in H; [|done].
    exists (cam, l). rewrite elem_of_sorted_entries. split; [|done].
    apply list_elem_of_omap. exists k. split; [destruct k; set_solver|].
    destruct (status_at r l !! k) as [s|]; simpl in *; [|done]. by rewrite H.
Qed.

Lemma status_at_set r l k s l' :
  status_at (set_status r l k s) l' =
  if decide (l = l') then <[k := s]> (status_at r l) else status_at r l'.
Proof.
  unfold status_at at 1. unfold set_status; simpl.
  destruct (decide (l = l')) as [->|]; by simplify_map_eq.
Qed.

(** Attempts and failures never touch the camera map. *)
Definition attempt_op (o : HealthOp) : Prop :=
  match o with Fail _ _ | Succeed _ => True | _ => False end.

(** The revision of one slot never decreases, and [Fail] increases it below saturation. *)
Definition slot_revision (r : Registry) (l : Loc) (k : RecordingKind) : Z :=
  revision (entry_or_default (status_at r l) k).

Lemma slot_set r l k s l' k' :
  entry_or_default (status_at (set_status r l k s) l') k' =
  if decide (l = l' /\ k = k') then s else entry_or_default (status_at r l') k'.
Proof.
  rewrite status_at_set. unfold entry_or_default.
  destruct (decide (l = l' /\ k = k')) as [[-> ->]|Hne].
  - rewrite decide_True by done. by simplify_map_eq.
  - destruct (decide (l = l')) as [->|]; [|done]. rewrite lookup_insert_ne; naive_solver.
Qed.

Lemma succeed_slot r a l k :
  entry_or_default (status_at (succeed r a) l) k =
  let s := entry_or_default (status_at r l) k in
  if decide (camera a = l /\ kind a = k /\ revision s = attempt_revision a)
  then mkStatus (revision s) None else s.
Proof.
  unfold succeed. rewrite slot_set. simpl.
  destruct (decide (camera a = l /\ kind a = k)) as [[-> ->]|].
  - destruct (Z.eqb_spec (revision (entry_or_default (status_at r l) k))
      (attempt_revision a)) as [E|E].
    + by rewrite decide_True.
    + rewrite decide_False; [done|naive_solver].
  - rewrite decide_False; [done|naive_solver].
Qed.

Lemma fail_slot r a why l k :
  entry_or_default (status_at (fail r a why) l) k =
  let s := entry_or_default (status_at r l) k in
  if decide (camera a = l /\ kind a = k) then mkStatus (usat_add 64 (revision s) 1) (Some why) else s.
Proof.
  unfold fail. rewrite slot_set. simpl. by destruct (decide _) as [[-> ->]|].
Qed.

(** ** A success cannot hide a later failure *)

(** Location [l] keeps a failure of kind [k] newer than revision [v]. *)
Definition fails_past (l : Loc) (k : RecordingKind) (v : Z) (r : Registry) : Prop :=
  let s := entry_or_default (status_at r l) k in v < revision s /\ is_Some (reason s).

(** No attempt among [ops] was begun at a revision past [v] on slot [(l, k)]. *)
Definition begun_by (l : Loc) (k : RecordingKind) (v : Z) (o : HealthOp) : Prop :=
  match o with
  | Fail _ _ => True
  | Succeed a => camera a = l -> kind a = k -> attempt_revision a <= v
  | Begin _ _ | Remove _ => False
  end.

Lemma fails_past_step l k v o r :
  v < umax 64 -> begun_by l k v o -> fails_past l k v r -> fails_past l k v (health_step o r).
Proof.
  intros Hv Ho [Hr Hs]. unfold fails_past. destruct o as [| |a why|a]; simpl; [done..| |].
  - rewrite fail_slot. simpl. destruct (decide _); [|done]. simpl.
    unfold usat_add. split; [|done]. lia.
  - rewrite succeed_slot. simpl. destruct (decide _) as [(Hl & Hk & He)|]; [|done].
    specialize (Ho Hl Hk). lia.
Qed.

(** Footage refused after a build started stays visible: once an attempt fails, no
    success of an attempt begun at the same or an earlier revision, in whatever order the
    outstanding attempts finish, clears the camera's degradation. *)
Lemma old_success_cannot_hide_new_failure r a why ops cam :
  cameras r !! cam = Some (camera a) ->
  0 <= slot_revision r (camera a) (kind a) < umax 64 ->
  Forall (begun_by (camera a) (kind a) (slot_revision r (camera a) (kind a))) ops ->
  exists why', mkDegradation cam (kind a) why' ∈ degradations (mrun (Fail a why :: ops) r).1.
Proof.
  intros Hcam Hrev Hops. set (v := slot_revision r (camera a) (kind a)) in *.
  rewrite mrun_cons. simpl fst.
  assert (fails_past (camera a) (kind a) v (mrun ops (fail r a why)).1) as [_ [w Hw]].
  { apply (mrun_invariant (begun_by (camera a) (kind a) v)); [|done|].
    - intros o s Ho Hs. apply fails_past_step; [lia|done..].
    - unfold fails_past. rewrite fail_slot. simpl. rewrite decide_True by done. simpl.
      unfold usat_add. fold (slot_revision r (camera a) (kind a)). fold v.
      split; [unfold umax in *; lia|done]. }
  assert (cameras (mrun ops (fail r a why)).1 = cameras r) as Hc.
  { apply (mrun_invariant (begun_by (camera a) (kind a) v) (fun r' => cameras r' = cameras r));
      [|done|done]. intros [] ? ? <-; done. }
  exists w. apply elem_of_degradations. simpl. unfold reported. rewrite Hc, Hcam. simpl.
  unfold entry_or_default in Hw. by destruct (status_at _ _ !! kind a).
Qed.

(** ** A removed camera stays removed *)

(** Every operation of [ops] is an attempt finishing or another camera's. *)
Definition not_begin (cam : Z) (o : HealthOp) : Prop :=
  match o with Begin c _ => c <> cam | _ => True end.

(** A late job cannot revive a removed camera: after [remove cam], whatever attempts
    finish and whatever other cameras do, nothing is reported for [cam] until it is begun
    again. *)
Lemma removed_camera_stays_removed r cam ops :
  Forall (not_begin cam) ops ->
  Forall (fun d => camera_id d <> cam) (degradations (mrun (Remove cam :: ops) r).1).
Proof.
  intros Hops. rewrite mrun_cons. simpl fst.
  assert (cameras (mrun ops (remove r cam)).1 !! cam = None) as Hnone.
  { apply (mrun_invariant (not_begin cam) (fun r' => cameras r' !! cam = None)); [|done|].
    - intros [c k|c|a w|a] s Ho Hs; simpl in *; [|by rewrite lookup_delete_None; right|done..].
      unfold begin, camera_entry. destruct (cameras s !! c); simpl; [done|].
      by rewrite lookup_insert_ne.
    - simpl. apply lookup_delete_eq. }
  apply Forall_forall. intros d Hd%elem_of_degradations Heq. unfold reported in Hd.
  rewrite Heq, Hnone in Hd. done.
Qed.

(** ** Recovery, and guards *)

(** A success of the newest attempt recovers the camera. *)
Lemma fresh_success_recovers r cam k :
  reported (succeed (begin r cam k).1 (begin r cam k).2) cam k = None.
Proof.
  unfold begin. destruct (camera_entry r cam) as [r1 l] eqn:E. simpl.
  set (s := entry_or_default (status_at r1 l) k).
  set (r2 := set_status r1 l k s). set (a := mkAttempt l k (revision s)).
  assert (reason (entry_or_default (status_at (succeed r2 a) l) k) = None) as Hn.
  { assert (entry_or_default (status_at r2 l) k = s) as Hs.
    { unfold r2. by rewrite slot_set, decide_True. }
    rewrite succeed_slot. simpl. rewrite Hs. by rewrite decide_True. }
  unfold reported. destruct (cameras (succeed r2 a) !! cam) as [l'|] eqn:El; [|done]. simpl.
  assert (l' = l) as ->.
  { revert El. unfold r2. simpl. unfold camera_entry in E.
    destruct (cameras r !! cam) eqn:Ec; injection E as <- <-; simpl; intros Hl; [congruence|].
    rewrite lookup_insert_eq in Hl. congruence. }
  unfold entry_or_default in Hn. by destruct (status_at _ _ !! k).
Qed.

(** A guard that is dropped without [complete] reports its reason. *)
Lemma dropped_guard_fails r a why :
  drop_guard r (guard a why) = fail r a why /\ complete r (guard a why) = r.
Proof. done. Qed.

(** Two builds overlap; the second is refused while the first still runs. *)
Definition overlap : Registry * RecordingAttempt := begin empty_registry 7 Motion.

Lemma old_success_cannot_hide_new_failure_witness :
  exists why', mkDegradation 7 Motion why' ∈
    degradations (mrun [Fail overlap.2 "disk full"; Succeed overlap.2] overlap.1).1.
Proof.
  apply (old_success_cannot_hide_new_failure overlap.1 overlap.2 "disk full" [Succeed overlap.2] 7).
  - reflexivity.
  - by vm_compute.
  - repeat constructor. vm_compute. intros. discriminate.
Defined.

Lemma removed_camera_stays_removed_witness :
  Forall (fun d => camera_id d <> 7)
    (degradations (mrun [Remove 7; Fail overlap.2 "late job"] overlap.1).1).
Proof. apply (removed_camera_stays_removed overlap.1 7 [Fail overlap.2 "late job"]). by repeat constructor. Defined.
