(* ===== verification/FrameCache.v ===== *)
(** Two per-camera side channels of [nexus-pipeline]: the latest-frame cache of
    [src/cache.rs] and the operator-clear counters of [src/static_clear.rs]. A cache slot is
    created once and never leaves the map, and every method holds its lock for the whole
    read-check-write, so one call is one atomic step on the map. *)
From S2P Require Import Prelude.

Section latest_frame_cache.
Context {Frame Obj : Type}.

Record LatestEntry := mkEntry {
  frame : Frame;
  objects : list Obj;
  objects_frame_id : option Z;
}.

Record Slot := mkSlot { entry : option LatestEntry; epoch : Z }.

Definition slot_default : Slot := {| entry := None; epoch := 0 |}.

Abbreviation Cache := (gmap Z Slot).

(** [slot_or_insert]: an unseen camera gets an empty slot. *)
Definition slot_or_insert (c : Cache) (cam : Z) : Slot := default slot_default (c !! cam).

Definition begin_session (c : Cache) (cam : Z) : Cache * Z :=
  let g := slot_or_insert c cam in
  let e := (fun en => mkEntry (frame en) [] None) <$> entry g in
  (<[cam := mkSlot e (epoch g + 1)]> c, epoch g + 1).

Definition put_frame (c : Cache) (cam ep : Z) (f : Frame) : Cache :=
  let g := slot_or_insert c cam in
  if negb (epoch g =? ep) then <[cam := g]> c
  else
    let e := match entry g with
             | Some en => mkEntry f (objects en) (objects_frame_id en)
             | None => mkEntry f [] None
             end in
    <[cam := mkSlot (Some e) (epoch g)]> c.

Definition put_objects (c : Cache) (cam ep frame_id : Z) (objs : list Obj) : Cache :=
  match c !! cam with
  | None => c
  | Some g =>
      if negb (epoch g =? ep) then c
      else match entry g with
           | Some en => <[cam := mkSlot (Some (mkEntry (frame en) objs (Some frame_id))) (epoch g)]> c
           | None => c
           end
  end.

Definition get (c : Cache) (cam : Z) : option LatestEntry := c !! cam ≫= entry.

Definition clear (c : Cache) (cam : Z) : Cache :=
  let g := slot_or_insert c cam in <[cam := mkSlot None (epoch g + 1)]> c.

Definition cameras (c : Cache) : list Z :=
  map fst (filter (fun ks => is_Some (entry ks.2)) (map_to_list c)).

Inductive CacheOp :=
| BeginSession (cam : Z)
| PutFrame (cam ep : Z) (f : Frame)
| PutObjects (cam ep frame_id : Z) (objs : list Obj)
| Clear (cam : Z).

Definition cache_step (o : CacheOp) (c : Cache) : Cache :=
  match o with
  | BeginSession cam => (begin_session c cam).1
  | PutFrame cam ep f => put_frame c cam ep f
  | PutObjects cam ep fid objs => put_objects c cam ep fid objs
  | Clear cam => clear c cam
  end.

#[export] Instance cache_machine : Machine CacheOp Cache unit := fun o c => (cache_step o c, tt).

(** The epoch a writer must hold for its writes to land. *)
Definition current_epoch (c : Cache) (cam : Z) : Z := epoch (slot_or_insert c cam).

Lemma slot_insert c cam g cam' :
  slot_or_insert (<[cam := g]> c) cam' = if decide (cam = cam') then g else slot_or_insert c cam'.
Proof. unfold slot_or_insert. rewrite lookup_insert. by destruct (decide _). Qed.

Lemma get_slot c cam : get c cam = entry (slot_or_insert c cam).
Proof. unfold get, slot_or_insert. by destruct (c !! cam). Qed.

(** A write that does not carry the camera's current epoch. *)
Definition stale_for (cam ep0 : Z) (o : CacheOp) : Prop :=
  match o with
  | BeginSession cam' | Clear cam' => cam' <> cam
  | PutFrame cam' ep _ | PutObjects cam' ep _ _ => cam' = cam -> ep < ep0
  end.

Lemma stale_step cam ep0 o c :
  current_epoch c cam = ep0 -> stale_for cam ep0 o ->
  slot_or_insert (cache_step o c) cam = slot_or_insert c cam.
Proof.
  intros He Ho. unfold current_epoch in He.
  destruct o as [cam'|cam' ep f|cam' ep fid objs|cam']; simpl in *.
  - by rewrite slot_insert, decide_False.
  - unfold put_frame. destruct (negb _) eqn:E.
    + rewrite slot_insert. by destruct (decide _) as [->|].
    + rewrite slot_insert. destruct (decide _) as [->|]; [|done].
      specialize (Ho eq_refl). destruct (Z.eqb_spec (epoch (slot_or_insert c cam)) ep); [lia|done].
  - unfold put_objects. destruct (c !! cam') as [g|] eqn:Eg; [|done].
    destruct (negb _) eqn:E; [done|]. destruct (entry g); [|done].
    rewrite slot_insert. destruct (decide _) as [->|]; [|done]. specialize (Ho eq_refl).
    unfold slot_or_insert in He. rewrite Eg in He. simpl in He.
    destruct (Z.eqb_spec (epoch g) ep); [lia|done].
  - unfold clear. by rewrite slot_insert, decide_False.
Qed.

(** A writer superseded by a new session or a clear cannot touch the camera: whatever
    stale writes drain, in any order and interleaved with other cameras, the cached entry is
    what the session change left. *)
Lemma superseded_writers_are_dropped c cam ops (retire : CacheOp) :
  retire = BeginSession cam \/ retire = Clear cam ->
  Forall (stale_for cam (current_epoch c cam + 1)) ops ->
  get (mrun (retire :: ops) c).1 cam = get (cache_step retire c) cam.
Proof.
  intros Hr Hops. rewrite mrun_cons. simpl fst. set (c1 := cache_step retire c).
  assert (current_epoch c1 cam = current_epoch c cam + 1) as He.
  { unfold c1, current_epoch. destruct Hr as [-> | ->]; simpl.
    - by rewrite slot_insert, decide_True.
    - unfold clear. by rewrite slot_insert, decide_True. }
  rewrite !get_slot. f_equal.
  apply (mrun_invariant (stale_for cam (current_epoch c cam + 1))
           (fun c' => slot_or_insert c' cam = slot_or_insert c1 cam)); [|done..].
  intros o c' Ho Hc'. simpl. rewrite <- Hc'. apply (stale_step _ (current_epoch c cam + 1)); [|done].
  unfold current_epoch at 1. by rewrite Hc'.
Qed.

(** ** Frames and objects *)

(** Objects paired with a frame id were published in the camera's current session. *)
Definition pairs_current (cam : Z) (published : list (Z * list Obj)) (c : Cache) : Prop :=
  forall en, get c cam = Some en ->
  match objects_frame_id en with
  | Some fid => (fid, objects en) ∈ published
  | None => objects en = []
  end.

(** The results [ops] publishes for [cam] since its last session change. *)
Definition published_step (cam : Z) (acc : list (Z * list Obj)) (o : CacheOp) : list (Z * list Obj) :=
  match o with
  | BeginSession cam' | Clear cam' => if decide (cam' = cam) then [] else acc
  | PutObjects cam' _ fid objs => if decide (cam' = cam) then (fid, objs) :: acc else acc
  | PutFrame _ _ _ => acc
  end.

Lemma pairs_step cam acc o c :
  pairs_current cam acc c -> pairs_current cam (published_step cam acc o) (cache_step o c).
Proof.
  intros H en. rewrite get_slot. specialize (H : forall en, _). setoid_rewrite get_slot in H.
  destruct o as [cam'|cam' ep f|cam' ep fid objs|cam']; simpl.
  - rewrite slot_insert. destruct (decide _) as [->|]; [|apply H]. simpl.
    destruct (entry _); simpl; intros [= <-]; done.
  - unfold put_frame. destruct (negb _); rewrite slot_insert.
    { destruct (decide _) as [->|]; apply H. }
    destruct (decide _) as [->|]; [|apply H]. simpl. intros [= <-].
    destruct (entry (slot_or_insert c cam)) as [en0|] eqn:E; simpl; [|done]. by apply H.
  - unfold put_objects, slot_or_insert at 1. destruct (c !! cam') as [g|] eqn:Eg.
    2:{ destruct (decide (cam' = cam)) as [->|]; [by rewrite Eg|apply H]. }
    assert (forall en, entry (slot_or_insert c cam) = Some en ->
      match objects_frame_id en with
      | Some fid' => (fid', objects en) ∈ (if decide (cam' = cam) then (fid, objs) :: acc else acc)
      | None => objects en = []
      end) as Hold.
    { intros en0 He. specialize (H en0 He). destruct (objects_frame_id en0); [|done].
      destruct (decide _); [by right|done]. }
    destruct (negb _); [apply Hold|]. destruct (entry g) as [en0|] eqn:E; [|apply Hold].
    change (default slot_default ?m) with (default slot_default m).
    fold (slot_or_insert (<[cam' := mkSlot (Some (mkEntry (frame en0) objs (Some fid))) (epoch g)]> c) cam).
    rewrite slot_insert. destruct (decide (cam' = cam)) as [->|]; [|apply H].
    simpl. intros [= <-]. simpl. by left.
  - unfold clear. rewrite slot_insert. destruct (decide _) as [->|]; [done|apply H].
Qed.

(** Objects are never paired with a frame of another session: from an empty cache, the
    objects a reader sees are either empty and unpaired, or exactly a result published for
    this camera, under that frame id, since its last [begin_session] or [clear]. *)
Lemma objects_belong_to_session ops cam en :
  get (mrun ops ∅).1 cam = Some en ->
  match objects_frame_id en with
  | Some fid => (fid, objects en) ∈ foldl (published_step cam) [] ops
  | None => objects en = []
  end.
Proof.
  assert (forall acc c, pairs_current cam acc c ->
    pairs_current cam (foldl (published_step cam) acc ops) (mrun ops c).1) as Hrun.
  { induction ops as [|o ops IH]; intros acc c H; [done|]. rewrite mrun_cons. simpl.
    apply IH, pairs_step, H. }
  apply Hrun. intros en0. unfold get. by rewrite lookup_empty.
Qed.

(** Inference results never rewind the cached frame. *)
Lemma put_objects_keeps_frame c cam ep fid objs cam' :
  frame <$> get (put_objects c cam ep fid objs) cam' = frame <$> get c cam'.
Proof.
  unfold put_objects. destruct (c !! cam) as [g|] eqn:Eg; [|done].
  destruct (negb _); [done|]. destruct (entry g) as [en|] eqn:Ee; [|done].
  unfold get. destruct (decide (cam = cam')) as [->|].
  - rewrite lookup_insert_eq, Eg. simpl. by rewrite Ee.
  - by rewrite lookup_insert_ne.
Qed.
End latest_frame_cache.

Arguments LatestEntry : clear implicits.
Arguments Slot : clear implicits.
Arguments CacheOp : clear implicits.

(** A stopped camera's inference drains after the clear. *)
Lemma superseded_writers_are_dropped_witness :
  get (mrun [Clear 1; PutFrame 1 1 10; PutObjects 1 1 10 [true]]
    (mrun [BeginSession 1; PutFrame 1 1 9] (∅ : gmap Z (Slot Z bool))).1).1 1 = None.
Proof.
  rewrite (superseded_writers_are_dropped
    (mrun [BeginSession 1; PutFrame 1 1 9] (∅ : gmap Z (Slot Z bool))).1 1
    [PutFrame 1 1 10; PutObjects 1 1 10 [true]] (Clear 1)).
  - reflexivity.
  - by right.
  - repeat constructor; vm_compute; intros; done.
Defined.

Lemma objects_belong_to_session_witness :
  (9, [true]) ∈ foldl (published_step 1) []
    [BeginSession 1; PutFrame 1 1 9; PutObjects 1 1 9 [true]].
Proof.
  apply (objects_belong_to_session (Frame := Z) (Obj := bool)
    [BeginSession 1; PutFrame 1 1 9; PutObjects 1 1 9 [true]] 1 (mkEntry 9 [true] (Some 9))).
  reflexivity.
Defined.

(** ** The operator-clear counters *)

Abbreviation ClearRegistry := (gmap Z Z).

Definition request_clear (r : ClearRegistry) (cam : Z) : ClearRegistry * Z :=
  let v := default 0 (r !! cam) in (<[cam := (v + 1) mod 2 ^ 64]> r, (v + 1) mod 2 ^ 64).

Definition current (r : ClearRegistry) (cam : Z) : Z := default 0 (r !! cam).

(** A supervisor that snapshotted the counter sees a request as a change, and sees requests
    for other cameras as none. *)
Lemma request_is_seen r cam cam' :
  0 <= current r cam < 2 ^ 64 ->
  current (request_clear r cam).1 cam <> current r cam /\
  (cam' <> cam -> current (request_clear r cam).1 cam' = current r cam').
Proof.
  unfold current, request_clear. simpl. intros Hr. split.
  - rewrite lookup_insert_eq. simpl.
    destruct (Z.eq_dec (default 0 (r !! cam) + 1) (2 ^ 64)) as [E|];
      [rewrite E, Z.mod_same; lia|].
    rewrite Z.mod_small; lia.
  - intros. by rewrite lookup_insert_ne.
Qed.
