(* ===== verification/MotionGate.v ===== *)
(** The low-bitrate motion gate of [nexus-pipeline/src/gate.rs]: the two rate bounds and
    the pixel test between them. *)
From S2P Require Import Prelude.
From S2P Require Import Float.
From S2P Require Import Types.

Definition BASELINE_GAP_MS : Z := 500.
Definition MOTION_GAP_MS : Z := 125.
Definition DELTA_THRESHOLD : Z := 16.

(** [0.005_f32] *)
Definition PIXEL_PCT_THRESHOLD : f32 := flit 10737418 (-31).

Record MotionGate := mkGate {
  prev_y : option (list Z);
  baseline_gap_ms : Z;
  motion_gap_ms : Z;
  last_pass : option Z;
}.

Definition gate_new : MotionGate :=
  {| prev_y := None; baseline_gap_ms := BASELINE_GAP_MS; motion_gap_ms := MOTION_GAP_MS;
     last_pass := None |}.

(** [data.get(i)] *)
Definition byte_at (data : list Z) (i : Z) : option Z := data !! Z.to_nat i.

Definition sample_coord (i limit : Z) : Z := Z.min (i * 8) (sat_sub limit 1).

Definition luma (r g b : Z) : Z := (r * 30 + g * 59 + b * 11) / 100.

Definition sample_y (f : Frame) (sy sx : Z) : Z :=
  match format f with
  | Nv12 | I420 => default 0 (byte_at (frame_data f) (sy * stride f + sx))
  | Rgb24 | Bgr24 =>
      let off := sy * stride f + sx * 3 in
      match byte_at (frame_data f) off, byte_at (frame_data f) (off + 1),
            byte_at (frame_data f) (off + 2) with
      | Some r, Some g, Some b => luma r g b mod 2 ^ 8
      | _, _, _ => 0
      end
  end.

Definition down_dim (d : Z) : Z := Z.max (d / 8) 1.

Definition downsample_y (f : Frame) : list Z :=
  seqZ 0 (down_dim (frame_height f)) ≫= fun j =>
    map (fun i => sample_y f (sample_coord j (frame_height f)) (sample_coord i (frame_width f)))
        (seqZ 0 (down_dim (frame_width f))).

Definition changed_count (prev y : list Z) : Z :=
  zlength (filter (fun ab => DELTA_THRESHOLD < Z.abs (ab.1 - ab.2)) (zip prev y)).

Definition has_motion (prev y : list Z) : bool :=
  if negb (bool_decide (length prev = length y)) then true
  else fge (f32_div (f32_of_Z (changed_count prev y)) (f32_of_Z (zlength y))) PIXEL_PCT_THRESHOLD.

Definition record_pass (g : MotionGate) (f : Frame) (now : Z) : MotionGate :=
  mkGate (Some (downsample_y f)) (baseline_gap_ms g) (motion_gap_ms g) (Some now).

(** The gap of a gate that never passed a frame is [i64::MAX]. *)
Definition gap_since (g : MotionGate) (now : Z) : Z :=
  match last_pass g with
  | Some prev => as_millis (sat_sub now prev)
  | None => umax 63
  end.

Definition allow (g : MotionGate) (f : Frame) : MotionGate * bool :=
  let now := captured_mono f in
  let gap_ms := gap_since g now in
  if gap_ms <? motion_gap_ms g then (g, false)
  else if baseline_gap_ms g <=? gap_ms then (record_pass g f now, true)
  else
    let y := downsample_y f in
    let moved := match prev_y g with None => true | Some p => has_motion p y end in
    if moved then (mkGate (Some y) (baseline_gap_ms g) (motion_gap_ms g) (Some now), true)
    else (g, false).

#[export] Instance gate_machine : Machine Frame MotionGate bool := fun f g => allow g f.

(** The stamps of the frames a run passes. *)
Definition pass_times (fs : list Frame) (outs : list bool) : list Z :=
  omap (fun fb : Frame * bool => if fb.2 then Some (captured_mono fb.1) else None) (zip fs outs).

(** ** Sampling *)

Lemma downsample_length f :
  zlength (downsample_y f) = down_dim (frame_height f) * down_dim (frame_width f).
Proof.
  unfold downsample_y, zlength.
  rewrite (length_bind_const _ _ (Z.to_nat (down_dim (frame_width f)))).
  - rewrite length_seqZ. unfold down_dim. lia.
  - intros j. by rewrite length_map, length_seqZ.
Qed.

(** The luma of three bytes is a byte, so the code's [as u8] truncates nothing. *)
Lemma luma_byte r g b :
  0 <= r < 256 -> 0 <= g < 256 -> 0 <= b < 256 -> 0 <= luma r g b < 256.
Proof.
  intros. unfold luma. split; [apply Z.div_pos; lia|apply Z.div_lt_upper_bound; lia].
Qed.

(** A frame equal to the last passed one is not motion, whatever its size. *)
Lemma changed_count_same y : changed_count y y = 0.
Proof.
  unfold changed_count. induction y as [|a y IH]; [done|]. simpl.
  rewrite filter_cons_False; [done|]. simpl. unfold DELTA_THRESHOLD. lia.
Qed.

(** ** The two rate bounds *)

Definition bounds (g : MotionGate) : Z * Z := (motion_gap_ms g, baseline_gap_ms g).

Lemma as_millis_ge d m : m <= as_millis d -> millis m <= d.
Proof.
  unfold as_millis, millis, ns_per_ms. intros H.
  pose proof (Z.mul_div_le d 1000000 ltac:(lia)). lia.
Qed.

Lemma as_millis_lt d m : as_millis d < m -> d < millis m.
Proof.
  unfold as_millis, millis, ns_per_ms. intros H.
  pose proof (Z.mul_succ_div_gt d 1000000 ltac:(lia)). lia.
Qed.

Lemma allow_pass g f :
  (allow g f).2 = true ->
  bounds (allow g f).1 = bounds g /\ last_pass (allow g f).1 = Some (captured_mono f)
  /\ motion_gap_ms g <= gap_since g (captured_mono f).
Proof.
  unfold allow. destruct (_ <? _) eqn:E1; [done|].
  destruct (_ <=? _); [intros _; split_and!; [done..|lia]|].
  destruct (match prev_y g with None => _ | Some _ => _ end); [|done].
  intros _; split_and!; [done..|lia].
Qed.

Lemma allow_drop g f : (allow g f).2 = false -> (allow g f).1 = g.
Proof. unfold allow. by repeat case_match. Qed.

Lemma pass_times_spaced fs g :
  0 < motion_gap_ms g ->
  spaced (millis (motion_gap_ms g)) (last_pass g) (pass_times fs (mrun fs g).2).
Proof.
  revert g. induction fs as [|f fs IH]; intros g Hg; [done|]. rewrite mrun_cons.
  change (mstep f g) with (allow g f). unfold pass_times. simpl.
  destruct (allow g f).2 eqn:E; simpl.
  - destruct (allow_pass g f E) as ([= Hm Hb] & Hl & Hgap). split.
    + unfold gap_since in Hgap. destruct (last_pass g) as [p|]; [|done].
      apply as_millis_ge in Hgap. unfold sat_sub in Hgap. unfold millis, ns_per_ms in *. lia.
    + rewrite <- Hl, <- Hm. apply IH. lia.
  - rewrite (allow_drop _ _ E). by apply IH.
Qed.

(** In numbers: [n] passes span at least [n - 1] gaps. *)
Lemma spaced_count gap ts t0 :
  spaced gap (Some t0) ts -> t0 + gap * zlength ts <= default t0 (last ts).
Proof.
  revert t0. induction ts as [|t ts IH]; intros t0; [unfold zlength; simpl; lia|].
  intros [Ht Hs]. specialize (IH _ Hs). destruct ts as [|t' ts]; [unfold zlength in *; simpl in *; lia|].
  change (last (t :: t' :: ts)) with (last (t' :: ts)). unfold zlength in *. simpl length in *.
  destruct (last (t' :: ts)) eqn:El; [simpl in *; lia|]. by apply last_None in El.
Qed.

Lemma floor_holds fs f :
  let g := (mrun (fs ++ [f]) gate_new).1 in
  exists p, last_pass g = Some p /\ captured_mono f - p < millis 500.
Proof.
  assert (bounds (mrun fs gate_new).1 = (125, 500)) as Hb.
  { apply (mrun_invariant (fun _ => True) (fun g => bounds g = (125, 500)));
      [|by apply Forall_true|done].
    intros f' g _ Hg. change (mstep f' g) with (allow g f').
    destruct (allow g f').2 eqn:E; [by destruct (allow_pass _ _ E) as [-> _]|by rewrite allow_drop]. }
  intros g. unfold g. rewrite mrun_app. cbn [fst]. generalize dependent (mrun fs gate_new).1.
  intros g0 [= Hm Hbl]. rewrite mrun_cons. change (mstep f g0) with (allow g0 f). simpl.
  unfold allow. rewrite Hm, Hbl. destruct (gap_since g0 (captured_mono f) <? 125) eqn:E1.
  { simpl. unfold gap_since in E1. destruct (last_pass g0) as [p|] eqn:El; [|done].
    exists p. split; [done|]. assert (as_millis (sat_sub (captured_mono f) p) < 500) as H by lia.
    apply as_millis_lt in H. unfold sat_sub in H. lia. }
  destruct (500 <=? gap_since g0 (captured_mono f)) eqn:E2.
  { simpl. eexists; split; [done|]. unfold millis, ns_per_ms. lia. }
  destruct (match prev_y g0 with None => _ | Some _ => _ end); simpl.
  { eexists; split; [done|]. unfold millis, ns_per_ms. lia. }
  unfold gap_since in E2. destruct (last_pass g0) as [p|] eqn:El; [|done].
  exists p. split; [done|]. assert (as_millis (sat_sub (captured_mono f) p) < 500) as H by lia.
  apply as_millis_lt in H. unfold sat_sub in H. lia.
Qed.

(** The rate of inference on one camera is bounded both ways, whatever the frames hold: two
    frames the gate passes are at least 125 ms apart, so at most 8 a second, and after any frame
    has been offered the last one passed is less than 500 ms older than it, so a static scene
    still gets 2 a second. *)
Lemma gate_rate_bounded fs f :
  spaced (millis 125) None (pass_times fs (mrun fs gate_new).2) /\
  let g := (mrun (fs ++ [f]) gate_new).1 in
  exists p, last_pass g = Some p /\ captured_mono f - p < millis 500.
Proof. split; [by apply (pass_times_spaced fs gate_new)|apply floor_holds]. Qed.
