(* ===== verification/CrowdPolicy.v ===== *)
(** The two crowd policies of [nexus-pipeline]: the detector skip of [src/skip_policy.rs]
    and the downscale hysteresis of [src/crowd_hysteresis.rs]. *)
From S2P Require Import Prelude.
From S2P Require Import Float.

(** [0.1_f64], and [1.0 - EMA_ALPHA] as the code computes it. *)
Definition EMA_ALPHA : f64 := flit 7205759403792794 (-56).
Definition f64_one : f64 := f64_of_Z 1.

Definition ema_step (ema : f64) (tracked_len : Z) : f64 :=
  f64_add (f64_mul EMA_ALPHA (f64_of_Z tracked_len)) (f64_mul (f64_sub f64_one EMA_ALPHA) ema).

(** ** The detector skip *)

Module Skip.
Record DetectorSkipPolicy := mkSkip {
  enabled : bool;
  crowded_threshold : f64;
  skip_every_n_frames : Z;
  ema : f64;
  frame_counter : Z;
}.

Definition new (crowded_threshold skip_every_n_frames : option Z) : DetectorSkipPolicy :=
  let '(en, t, n) :=
    match crowded_threshold, skip_every_n_frames with
    | Some t, Some n => if 2 <=? n then (true, f64_of_Z t, n) else (false, fzero, 1)
    | _, _ => (false, fzero, 1)
    end in
  {| enabled := en; crowded_threshold := t; skip_every_n_frames := n; ema := fzero;
     frame_counter := 0 |}.

Definition set_counter (p : DetectorSkipPolicy) (c : Z) : DetectorSkipPolicy :=
  mkSkip (enabled p) (crowded_threshold p) (skip_every_n_frames p) (ema p) c.

Definition should_skip (p : DetectorSkipPolicy) : DetectorSkipPolicy * bool :=
  if negb (enabled p) then (p, false)
  else
    let p := set_counter p ((frame_counter p + 1) mod 2 ^ 32) in
    if flt (ema p) (crowded_threshold p) then (p, false)
    else (p, negb (frame_counter p mod skip_every_n_frames p =? 0)).

Definition observe (p : DetectorSkipPolicy) (tracked_len : Z) : DetectorSkipPolicy :=
  if negb (enabled p) then p
  else mkSkip (enabled p) (crowded_threshold p) (skip_every_n_frames p)
         (ema_step (ema p) tracked_len) (frame_counter p).

(** One gate-allowed frame: the decision, then the tracker's count. *)
Definition frame_step (tracked_len : Z) (p : DetectorSkipPolicy) : DetectorSkipPolicy * bool :=
  let '(p, skip) := should_skip p in (observe p tracked_len, skip).

#[export] Instance skip_machine : Machine Z DetectorSkipPolicy bool := frame_step.

Lemma frame_step_eq n p :
  enabled p = true ->
  frame_step n p =
    (mkSkip true (crowded_threshold p) (skip_every_n_frames p) (ema_step (ema p) n)
       ((frame_counter p + 1) mod 2 ^ 32),
     negb (flt (ema p) (crowded_threshold p)) &&
     negb ((frame_counter p + 1) mod 2 ^ 32 mod skip_every_n_frames p =? 0)).
Proof.
  intros He. destruct p as [en th every e c]; simpl in *; subst en.
  unfold frame_step, should_skip, observe; simpl. by destruct (flt e th).
Qed.

(** Skipping is bounded: of any [n] consecutive frames on an enabled policy at least
    one runs the detector, however the tracked count evolves, as long as the 32-bit frame
    counter does not wrap inside the window. *)
Lemma detector_runs_every_n p lens :
  enabled p = true -> 0 < skip_every_n_frames p -> 0 <= frame_counter p ->
  zlength lens = skip_every_n_frames p -> frame_counter p + zlength lens < 2 ^ 32 ->
  false ∈ (mrun lens p).2.
Proof.
  intros He Hn Hc Hlen Hw.
  remember (skip_every_n_frames p) as n eqn:Hpn.
  assert (forall lens p, enabled p = true -> skip_every_n_frames p = n -> 0 <= frame_counter p ->
    frame_counter p + zlength lens < 2 ^ 32 -> n - frame_counter p mod n <= zlength lens ->
    false ∈ (mrun lens p).2) as Hgen.
  { clear -Hn. induction lens as [|l lens IH]; intros p He Hpn Hc Hw Hl.
    - pose proof (Z.mod_pos_bound (frame_counter p) n Hn). unfold zlength in Hl. simpl in Hl. lia.
    - rewrite mrun_cons. change (mstep l p) with (frame_step l p). rewrite frame_step_eq by done.
      rewrite Hpn. unfold zlength in *. simpl length in *. simpl.
      rewrite (Z.mod_small (frame_counter p + 1)) by lia.
      destruct (Z.eqb_spec ((frame_counter p + 1) mod n) 0) as [E|E].
      { rewrite andb_false_r. left. }
      right. apply IH; simpl; [done|done|lia|lia|].
      rewrite (mod_succ _ n) by done. lia. }
  apply Hgen; try done. pose proof (Z.mod_pos_bound (frame_counter p) n Hn). lia.
Qed.

(** A disabled policy never skips, and enabling takes both knobs. *)
Lemma disabled_never_skips p lens :
  enabled p = false -> (mrun lens p).1 = p /\ Forall (eq false) (mrun lens p).2.
Proof.
  intros He. induction lens as [|l lens [IH1 IH2]]; [done|]. rewrite mrun_cons.
  assert (mstep l p = (p, false)) as ->.
  { unfold mstep, skip_machine, frame_step, should_skip, observe. by rewrite He; simpl; rewrite He. }
  simpl. auto.
Qed.

Lemma new_enabled t n : enabled (new t n) = true <-> is_Some t /\ exists m, n = Some m /\ 2 <= m.
Proof.
  unfold new. destruct t as [t|], n as [n|]; simpl; try (split; [done|naive_solver]).
  destruct (Z.leb_spec 2 n); simpl; split; naive_solver eauto with lia.
Qed.

Lemma detector_runs_every_n_witness :
  false ∈ (mrun [40; 40; 40] (new (Some 0) (Some 3))).2.
Proof. apply (detector_runs_every_n (new (Some 0) (Some 3)) [40; 40; 40]); by vm_compute. Defined.
End Skip.

(** ** The downscale hysteresis *)

Module Hysteresis.
Record CrowdHysteresis := mkHyst {
  enabled : bool;
  crowded_threshold : f64;
  sustained_up : Z;
  sustained_down : Z;
  ema : f64;
  crowded_since : option Z;
  clear_since : option Z;
  downscaled : bool;
}.

Definition new (crowded_threshold sustained_up_secs sustained_down_secs : option Z)
  : CrowdHysteresis :=
  let '(en, t, up, down) :=
    match crowded_threshold, sustained_up_secs with
    | Some t, Some s_up =>
        (true, f64_of_Z t, secs s_up,
         match sustained_down_secs with Some s => secs s | None => secs s_up end)
    | _, _ => (false, fzero, 0, 0)
    end in
  {| enabled := en; crowded_threshold := t; sustained_up := up; sustained_down := down;
     ema := fzero; crowded_since := None; clear_since := None; downscaled := false |}.

Definition update (h : CrowdHysteresis) (e : f64) (crowded clear : option Z) (d : bool)
  : CrowdHysteresis :=
  mkHyst (enabled h) (crowded_threshold h) (sustained_up h) (sustained_down h) e crowded clear d.

Definition observe (h : CrowdHysteresis) (tracked_len now : Z) : CrowdHysteresis * bool :=
  if negb (enabled h) then (h, false)
  else
    let e := ema_step (ema h) tracked_len in
    let h' :=
      if fge e (crowded_threshold h) then
        let since := default now (crowded_since h) in
        update h e (Some since) None
          (if negb (downscaled h) && (sustained_up h <=? sat_sub now since) then true else downscaled h)
      else
        let since := default now (clear_since h) in
        update h e None (Some since)
          (if downscaled h && (sustained_down h <=? sat_sub now since) then false else downscaled h) in
    (h', downscaled h').

Record Obs := mkObs { obs_len : Z; obs_now : Z }.

#[export] Instance hyst_machine : Machine Obs CrowdHysteresis bool :=
  fun o h => observe h (obs_len o) (obs_now o).

(** The state remembers where the current run of crowded (or clear) observations began. *)
Record hyst_wf (now : Z) (h : CrowdHysteresis) : Prop := {
  hw_one : crowded_since h = None \/ clear_since h = None;
  hw_crowded : forall t, crowded_since h = Some t -> t <= now;
  hw_clear : forall t, clear_since h = Some t -> t <= now;
}.

(** Stamps do not go back: [Frame::captured_mono]. *)
Fixpoint nondecreasing (prev : Z) (os : list Obs) : Prop :=
  match os with
  | [] => True
  | o :: os' => prev <= obs_now o /\ nondecreasing (obs_now o) os'
  end.

Lemma observe_keeps h n t :
  enabled (observe h n t).1 = enabled h /\ sustained_up (observe h n t).1 = sustained_up h
  /\ sustained_down (observe h n t).1 = sustained_down h.
Proof. unfold observe. destruct (enabled h) eqn:E; simpl; [by destruct (fge _ _); simpl; rewrite E|done]. Qed.

Lemma observe_wf h n prev t : prev <= t -> hyst_wf prev h -> hyst_wf t (observe h n t).1.
Proof.
  intros Hle [H1 H2 H3]. unfold observe. destruct (negb (enabled h)); simpl.
  { split; [done|..]; intros ? Ht; [specialize (H2 _ Ht)|specialize (H3 _ Ht)]; lia. }
  destruct (fge _ _); split; simpl; try (by auto); intros s [= <-].
  - destruct (crowded_since h) as [c|]; simpl; [specialize (H2 _ eq_refl)|]; lia.
  - destruct (clear_since h) as [c|]; simpl; [specialize (H3 _ eq_refl)|]; lia.
Qed.

(** From an observation that leaves the state downscaled, or a clear run begun at [t0] or
    later, the state stays downscaled until the clear run is [sustained_down] old. *)
Lemma stays_downscaled os h t0 prev :
  enabled h = true -> downscaled h = true -> t0 <= prev -> hyst_wf prev h ->
  (forall c, clear_since h = Some c -> t0 <= c) ->
  nondecreasing prev os -> Forall (fun o => obs_now o < t0 + sustained_down h) os ->
  Forall (eq true) (mrun os h).2.
Proof.
  revert h prev. induction os as [|[n t] os IH]; intros h prev He Hd Ht0 Hwf Hc Hmono Hwin; [constructor|].
  destruct Hmono as [Hle Hmono]. simpl in Hle, Hmono. apply Forall_cons in Hwin as [Hw Hwin].
  simpl in Hw. rewrite mrun_cons. change (mstep (mkObs n t) h) with (observe h n t).
  destruct (observe_keeps h n t) as (Hk1 & _ & Hk3).
  assert (downscaled (observe h n t).1 = true) as Hd'.
  { unfold observe. rewrite He. simpl. rewrite Hd. destruct (fge _ _); simpl; [done|].
    destruct (sustained_down h <=? _) eqn:E; [|done]. exfalso. unfold sat_sub in E.
    destruct (clear_since h) as [c|]; simpl in E; [specialize (Hc _ eq_refl)|]; lia. }
  simpl. constructor.
  { assert ((observe h n t).2 = downscaled (observe h n t).1) as ->; [|by rewrite Hd'].
    unfold observe. by rewrite He. }
  apply (IH _ t); [by rewrite Hk1|done|lia|by apply (observe_wf _ _ prev)| |done|by rewrite Hk3].
  intros c. unfold observe. rewrite He. simpl. destruct (fge _ _); simpl; [done|].
  intros [= <-]. destruct (clear_since h) as [c|]; simpl; [by apply Hc|lia].
Qed.

(** No flapping: once the policy has flipped to the downscaled detector it keeps it for
    at least the clear window, whatever the counts do in between. *)
Lemma downscale_holds_for_clear_window h prev n t os :
  enabled h = true -> hyst_wf prev h -> prev <= t -> downscaled h = false ->
  (observe h n t).2 = true -> nondecreasing t os ->
  Forall (fun o => obs_now o < t + sustained_down h) os ->
  Forall (eq true) (mrun os (observe h n t).1).2.
Proof.
  intros He Hwf Hle Hup Hflip Hmono Hwin. destruct (observe_keeps h n t) as (Hk1 & _ & Hk3).
  apply (stays_downscaled os _ t t); [by rewrite Hk1| |lia|by apply (observe_wf _ _ prev)| |done|by rewrite Hk3].
  - revert Hflip. unfold observe. by rewrite He.
  - revert Hflip. unfold observe. rewrite He. simpl. rewrite Hup. simpl.
    by destruct (fge _ _).
Qed.

Definition crowd : CrowdHysteresis := new (Some 0) (Some 0) (Some 300).

Lemma downscale_holds_for_clear_window_witness :
  Forall (eq true) (mrun [mkObs 0 (secs 1); mkObs 0 (secs 299)] (observe crowd 40 0).1).2.
Proof.
  apply (downscale_holds_for_clear_window crowd 0 40 0);
    [done| |lia|done|by vm_compute| |by repeat constructor].
  - split; [by left|done..].
  - vm_compute. repeat split; discriminate.
Defined.

(** A disabled policy never downscales. *)
Lemma disabled_never_downscales h n t : enabled h = false -> observe h n t = (h, false).
Proof. unfold observe. by intros ->. Qed.
End Hysteresis.
