(* ===== verification/ParamSets.v ===== *)
(** Parameter-set re-injection, [nexus-pipeline/src/param_sets.rs]: the Annex-B splitter, the
    id parsers, the per-epoch change detection and the injection itself. Bytes are integers
    in [0, 255]; offsets into an access unit are [nat]. *)
From S2P Require Import Prelude.

(** ** Bit reader *)

Record BitReader := mkReader { rd_data : list Z; rd_pos : nat }.

Definition bit (r : BitReader) : option (Z * BitReader) :=
  match rd_data r !! (rd_pos r / 8)%nat with
  | None => None
  | Some b =>
      Some (Z.land (Z.shiftr b (7 - Z.of_nat (rd_pos r mod 8))) 1, mkReader (rd_data r) (S (rd_pos r)))
  end.

Fixpoint bits_from (n : nat) (v : Z) (r : BitReader) : option (Z * BitReader) :=
  match n with
  | O => Some (v, r)
  | S n' =>
      match bit r with
      | None => None
      | Some (b, r) => bits_from n' (Z.lor (Z.shiftl v 1) b) r
      end
  end.

Definition bits (n : nat) (r : BitReader) : option (Z * BitReader) := bits_from n 0 r.

Definition skip (n : nat) (r : BitReader) : option BitReader :=
  let pos := (rd_pos r + n)%nat in
  if bool_decide (pos <= length (rd_data r) * 8)%nat then Some (mkReader (rd_data r) pos) else None.

(** The loop of [ue]: [left] zero bits may still come before the read fails. *)
Fixpoint ue_zeros (left zeros : nat) (r : BitReader) : option (nat * BitReader) :=
  match bit r with
  | None => None
  | Some (b, r) =>
      if b =? 0 then match left with O => None | S left' => ue_zeros left' (S zeros) r end
      else Some (zeros, r)
  end.

Definition ue (max_zeros : nat) (r : BitReader) : option Z :=
  match ue_zeros max_zeros 0 r with
  | None => None
  | Some (zeros, r) =>
      match bits zeros r with
      | None => None
      | Some (v, _) => Some (Z.shiftl 1 (Z.of_nat zeros) - 1 + v)
      end
  end.

(** ** Parameter-set ids *)

Definition h264_sps_id (nal : list Z) : option Z :=
  if bool_decide (4 <= length nal)%nat then ue 5 (mkReader (drop 4 nal) 0) else None.

Definition h265_vps_id (nal : list Z) : option Z := (fun b => Z.shiftr b 4) <$> nal !! 2%nat.

Fixpoint unescape (zeros : nat) (l : list Z) : list Z :=
  match l with
  | [] => []
  | b :: l' =>
      if (2 <=? Z.of_nat zeros) && (b =? 3) then unescape 0 l'
      else b :: unescape (if b =? 0 then S zeros else 0) l'
  end.

Fixpoint read_flags (m : nat) (r : BitReader) : option (list (bool * bool) * BitReader) :=
  match m with
  | O => Some ([], r)
  | S m' =>
      match bit r with
      | None => None
      | Some (p, r) =>
          match bit r with
          | None => None
          | Some (l, r) =>
              match read_flags m' r with
              | None => None
              | Some (fl, r) => Some ((p =? 1, l =? 1) :: fl, r)
              end
          end
      end
  end.

Fixpoint skip_sub_layers (flags : list (bool * bool)) (r : BitReader) : option BitReader :=
  match flags with
  | [] => Some r
  | (profile, level) :: fl =>
      match skip ((if profile then 88 else 0) + (if level then 8 else 0)) r with
      | None => None
      | Some r => skip_sub_layers fl r
      end
  end.

Definition h265_sps_id (nal : list Z) : option Z :=
  if negb (bool_decide (2 <= length nal)%nat) then None
  else
    '(m, r) ← bits 3 (mkReader (unescape 0 (drop 2 nal)) 4);
    r ← skip (1 + 96) r;
    '(flags, r) ← read_flags (Z.to_nat m) r;
    r ← (if 0 <? m then skip (2 * (8 - Z.to_nat m)) r else Some r);
    r ← skip_sub_layers flags r;
    ue 4 r.

(** ** Annex-B splitting *)

(** The start codes of [l], which begins at offset [i] right after byte [prev]: the offset of
    the code (with a fourth zero when there is one) and of the payload behind it. *)
Fixpoint scan (prev : option Z) (i : nat) (l : list Z) : list (nat * nat) :=
  match l with
  | a :: ((b :: (c :: l3)) as l1) =>
      if (a =? 0) && (b =? 0) && (c =? 1) then
        let sc := if bool_decide (prev = Some 0) then (i - 1)%nat else i in
        (sc, (i + 3)%nat) :: scan (Some c) (i + 3) l3
      else scan (Some a) (S i) l1
  | _ => []
  end.

Fixpoint bounds (len : nat) (starts : list (nat * nat)) : list (nat * nat * nat) :=
  match starts with
  | [] => []
  | (sc, start) :: rest =>
      let e := match rest with (next, _) :: _ => next | [] => len end in
      if bool_decide (start < e)%nat then (sc, start, e) :: bounds len rest else bounds len rest
  end.

Definition split_nals (data : list Z) : list (nat * nat * nat) :=
  bounds (length data) (scan None 0 data).

Definition nal_at (au : list Z) (start e : nat) : list Z := take (e - start) (drop start au).

(** ** The cache *)

Abbreviation IdMap := (list (Z * list Z)).

Record ParamSetCache := mkCache {
  hevc : bool;
  vps : option (list Z);
  sps : option (list Z);
  pps : option (list Z);
  sps_changed : bool;
  sps_by_id : IdMap;
  vps_by_id : IdMap;
  au_sps_by_id : IdMap;
  au_vps_by_id : IdMap;
}.

Definition new (hevc : bool) : ParamSetCache := mkCache hevc None None None false [] [] [] [].

Inductive NalKind := Aud | Vps | Sps | Pps | Idr | Other.

#[export] Instance NalKind_eq_dec : EqDecision NalKind.
Proof. solve_decision. Defined.

Definition nal_kind (hevc : bool) (header : Z) : NalKind :=
  if hevc then
    let t := Z.land (Z.shiftr header 1) 0x3f in
    if t =? 35 then Aud else if t =? 32 then Vps else if t =? 33 then Sps else if t =? 34 then Pps
    else if (16 <=? t) && (t <=? 21) then Idr else Other
  else
    let t := Z.land header 0x1f in
    if t =? 9 then Aud else if t =? 7 then Sps else if t =? 8 then Pps
    else if t =? 5 then Idr else Other.

(** [rposition(|&b| b != 0)] plus one, and the prefix it cuts. *)
Fixpoint trim_trailing_zeros (nal : list Z) : list Z :=
  match nal with
  | [] => []
  | b :: nal' =>
      match trim_trailing_zeros nal' with
      | [] => if b =? 0 then [] else [b]
      | t => b :: t
      end
  end.

Fixpoint note_trimmed (seen : IdMap) (id : Z) (bytes : list Z) (first : bool) : IdMap * bool :=
  match seen with
  | [] => ([(id, bytes)], negb first)
  | (i, prev) :: seen' =>
      if i =? id then
        if bool_decide (prev = bytes) then (seen, false) else ((i, bytes) :: seen', negb first)
      else let '(s, ch) := note_trimmed seen' id bytes first in ((i, prev) :: s, ch)
  end.

Definition note_by_id (seen : IdMap) (id : Z) (nal : list Z) (first : bool) : IdMap * bool :=
  note_trimmed seen id (trim_trailing_zeros nal) first.

Definition set_vps_maps (c : ParamSetCache) (seen in_au : IdMap) : ParamSetCache :=
  mkCache (hevc c) (vps c) (sps c) (pps c) (sps_changed c) (sps_by_id c) seen (au_sps_by_id c) in_au.

Definition set_sps_maps (c : ParamSetCache) (seen in_au : IdMap) : ParamSetCache :=
  mkCache (hevc c) (vps c) (sps c) (pps c) (sps_changed c) seen (vps_by_id c) in_au (au_vps_by_id c).

Definition param_id (hevc : bool) (kind : NalKind) (nal : list Z) : Z :=
  default 0 match kind with
            | Vps => h265_vps_id nal
            | _ => if hevc then h265_sps_id nal else h264_sps_id nal
            end.

Definition note (c : ParamSetCache) (kind : NalKind) (nal : list Z) (first : bool)
  : ParamSetCache * bool :=
  match kind with
  | Vps =>
      let id := param_id (hevc c) Vps nal in
      let in_au := (note_by_id (au_vps_by_id c) id nal true).1 in
      let '(seen, ch) := note_by_id (vps_by_id c) id nal first in
      (set_vps_maps c seen in_au, ch)
  | Sps =>
      let id := param_id (hevc c) Sps nal in
      let in_au := (note_by_id (au_sps_by_id c) id nal true).1 in
      let '(seen, ch) := note_by_id (sps_by_id c) id nal first in
      (set_sps_maps c seen in_au, ch)
  | _ => (c, false)
  end.

Definition begin_epoch (c : ParamSetCache) : ParamSetCache :=
  mkCache (hevc c) (vps c) (sps c) (pps c) (sps_changed c) (au_sps_by_id c) (au_vps_by_id c)
    (au_sps_by_id c) (au_vps_by_id c).

Definition set_slot (c : ParamSetCache) (kind : NalKind) (nal : list Z) : ParamSetCache :=
  let '(v, s, p) :=
    match kind with
    | Vps => (Some nal, sps c, pps c)
    | Sps => (vps c, Some nal, pps c)
    | Pps => (vps c, sps c, Some nal)
    | _ => (vps c, sps c, pps c)
    end in
  mkCache (hevc c) v s p (sps_changed c) (sps_by_id c) (vps_by_id c) (au_sps_by_id c) (au_vps_by_id c).

Definition set_changed (c : ParamSetCache) (ch : bool) : ParamSetCache :=
  mkCache (hevc c) (vps c) (sps c) (pps c) ch (sps_by_id c) (vps_by_id c)
    (au_sps_by_id c) (au_vps_by_id c).

(** The start of [process]: the change flag and this access unit's maps are reset. *)
Definition reset_au (c : ParamSetCache) : ParamSetCache :=
  mkCache (hevc c) (vps c) (sps c) (pps c) false (sps_by_id c) (vps_by_id c) [] [].

Record AuFlags := mkFlags { has_params : bool; has_idr : bool }.

(** One turn of the loop over the NAL units. *)
Definition note_nal (first_vps first_sps : bool) (st : ParamSetCache * AuFlags) (nal : list Z)
  : ParamSetCache * AuFlags :=
  let '(c, fl) := st in
  let kind := nal_kind (hevc c) (default 0 (head nal)) in
  let store first :=
    let '(c1, ch) := note (set_slot c kind nal) kind nal first in
    (set_changed c1 (sps_changed c1 || ch), mkFlags true (has_idr fl)) in
  match kind with
  | Vps => store first_vps
  | Sps => store first_sps
  | Pps => store false
  | Idr => (c, mkFlags (has_params fl) true)
  | _ => (c, fl)
  end.

Definition au_nals (au : list Z) : list (list Z) :=
  map (fun '(_, start, e) => nal_at au start e) (split_nals au).

Definition start_code : list Z := [0; 0; 0; 1].

Definition insert_at (hevc : bool) (au : list Z) : nat :=
  match split_nals au with
  | (_, start, _) :: rest =>
      if bool_decide (nal_kind hevc (default 0 (au !! start)) = Aud) then
        match rest with (sc, _, _) :: _ => sc | [] => length au end
      else 0%nat
  | [] => 0%nat
  end.

Definition is_empty {A} (l : list A) : bool := match l with [] => true | _ => false end.

(** The parameter sets [process] injects, in stream order. *)
Definition injected (c : ParamSetCache) : option (list (list Z)) :=
  s ← sps c; p ← pps c;
  if hevc c then (v ← vps c; Some [v; s; p]) else Some [s; p].

(** The muxer is given the injected VPS and SPS as if the access unit carried them. *)
Definition note_injected (c : ParamSetCache) : ParamSetCache :=
  let c := match hevc c, vps c with true, Some v => (note c Vps v true).1 | _, _ => c end in
  match sps c with Some s => (note c Sps s true).1 | None => c end.

Definition process (c : ParamSetCache) (au : list Z) : ParamSetCache * option (list Z) :=
  let c := reset_au c in
  let first_vps := is_empty (vps_by_id c) in
  let first_sps := is_empty (sps_by_id c) in
  let '(c, fl) := foldl (note_nal first_vps first_sps) (c, mkFlags false false) (au_nals au) in
  let c := if sps_changed c then begin_epoch c else c in
  if has_params fl || negb (has_idr fl) then (c, None)
  else match injected c with
       | None => (c, None)
       | Some sets =>
           let at_ := insert_at (hevc c) au in
           (note_injected c,
            Some (take at_ au ++ (sets ≫= fun ps => start_code ++ ps) ++ drop at_ au))
       end.

(** ** The splitter stays inside the access unit *)

(** Start codes of a buffer of length [hi], from offset [lo] on, in order and disjoint. *)
Fixpoint starts_ok (lo hi : nat) (starts : list (nat * nat)) : Prop :=
  match starts with
  | [] => True
  | (sc, st) :: rest => (lo <= sc < st)%nat /\ (st <= hi)%nat /\ starts_ok st hi rest
  end.

Lemma starts_ok_weaken lo lo' hi starts :
  (lo <= lo')%nat -> starts_ok lo' hi starts -> starts_ok lo hi starts.
Proof. destruct starts as [|[sc st] rest]; simpl; [done|]. intros ? (? & ? & ?). split_and!; [lia..|done]. Qed.

Lemma scan_ok prev i l :
  (prev = Some 0 -> (0 < i)%nat) ->
  starts_ok (if bool_decide (prev = Some 0) then i - 1 else i) (i + length l) (scan prev i l).
Proof.
  remember (length l) as n eqn:Hn. revert prev i l Hn.
  induction (lt_wf n) as [n _ IH]. intros prev i l -> Hi.
  destruct l as [|a [|b [|c l3]]]; [done..|].
  cbn [scan]. destruct ((a =? 0) && (b =? 0) && (c =? 1)) eqn:E.
  - assert (c = 1) as -> by lia. cbn [starts_ok]. split_and!.
    + case_bool_decide; lia.
    + case_bool_decide; lia.
    + simpl. lia.
    + replace (i + length (a :: b :: 1%Z :: l3))%nat with (i + 3 + length l3)%nat by (simpl; lia).
      exact (IH (length l3) ltac:(simpl; lia) (Some 1) (i + 3)%nat l3 eq_refl ltac:(lia)).
  - specialize (IH (length (b :: c :: l3)) ltac:(simpl; lia) (Some a) (S i) (b :: c :: l3) eq_refl ltac:(lia)).
    replace (S i + length (b :: c :: l3))%nat with (i + length (a :: b :: c :: l3))%nat in IH by (simpl; lia).
    eapply starts_ok_weaken; [|exact IH]. repeat case_bool_decide; lia.
Qed.

Lemma bounds_ok lo hi starts sc st e :
  starts_ok lo hi starts -> (sc, st, e) ∈ bounds hi starts -> (lo <= sc < st)%nat /\ (st < e <= hi)%nat.
Proof.
  revert lo. induction starts as [|[sc0 st0] rest IH]; intros lo; simpl; [by intros _ ?%elem_of_nil|].
  intros (Hl & Hh & Hok) Hin.
  assert (forall x, x ∈ bounds hi rest -> x = (sc, st, e) -> (lo <= sc < st)%nat /\ (st < e <= hi)%nat) as Hrest.
  { intros x Hx ->. destruct (IH _ Hok Hx). lia. }
  case_bool_decide as Hlt; [|by eapply Hrest].
  apply elem_of_cons in Hin as [[= -> -> ->]|Hin]; [|by eapply Hrest].
  destruct rest as [|[next st1] rest]; simpl in *; [lia|]. destruct Hok as ([? ?] & ? & _). lia.
Qed.

(** The splitter never reads out of bounds: every NAL unit it reports lies inside the
    access unit, behind its start code, and is not empty, so [au[start..end]] and [nal[0]]
    cannot panic. *)
Lemma split_nals_in_bounds au sc st e :
  (sc, st, e) ∈ split_nals au ->
  (sc < st)%nat /\ (st < e)%nat /\ (e <= length au)%nat /\
  exists b tl, nal_at au st e = b :: tl /\ au !! st = Some b.
Proof.
  intros Hin. pose proof (scan_ok None 0 au ltac:(done)) as Hok. simpl in Hok.
  destruct (bounds_ok _ _ _ _ _ _ Hok Hin) as [? ?]. split_and!; [lia..|].
  destruct (lookup_lt_is_Some_2 au st) as [b Hb]; [lia|].
  exists b, (take (e - st - 1) (drop (S st) au)). split; [|done]. unfold nal_at.
  rewrite (drop_S _ b st Hb). by destruct (e - st)%nat eqn:E; [lia|]; simpl; rewrite Nat.sub_0_r.
Qed.

(** ** When parameter sets are injected *)

Definition is_param (h : bool) (nal : list Z) : bool :=
  match nal_kind h (default 0 (head nal)) with Vps | Sps | Pps => true | _ => false end.

Definition is_idr (h : bool) (nal : list Z) : bool :=
  bool_decide (nal_kind h (default 0 (head nal)) = Idr).

Lemma note_hevc c k nal f c' ch : note c k nal f = (c', ch) -> hevc c' = hevc c.
Proof. destruct k; simpl; try (by intros [= <- _]); destruct (note_by_id _ _ _ f); by intros [= <- _]. Qed.

Lemma note_nal_hevc fv fs st nal : hevc (note_nal fv fs st nal).1 = hevc st.1.
Proof.
  destruct st as [c fl]. cbn [note_nal fst].
  destruct (nal_kind _ _) eqn:Ek; try done;
    destruct (note _ _ _ _) eqn:En; apply note_hevc in En; exact En.
Qed.

Lemma fold_flags fv fs nals c fl :
  (foldl (note_nal fv fs) (c, fl) nals).2 =
  mkFlags (has_params fl || existsb (is_param (hevc c)) nals)
          (has_idr fl || existsb (is_idr (hevc c)) nals).
Proof.
  revert c fl. induction nals as [|nal nals IH]; intros c fl; cbn [foldl existsb].
  { rewrite !orb_false_r. by destruct fl. }
  pose proof (note_nal_hevc fv fs (c, fl) nal) as Hh.
  assert ((note_nal fv fs (c, fl) nal).2 =
    mkFlags (has_params fl || is_param (hevc c) nal) (has_idr fl || is_idr (hevc c) nal)) as Hf.
  { unfold note_nal, is_param, is_idr. destruct fl as [[] []];
    cbn [fst has_params has_idr]; destruct (nal_kind _ _); cbn [orb andb bool_decide];
    repeat destruct (note _ _ _ _); done. }
  destruct (note_nal fv fs (c, fl) nal) as [c' fl']. cbn [fst snd] in *. rewrite IH, Hh, Hf. simpl.
  by rewrite !orb_assoc.
Qed.

Lemma fold_no_params fv fs nals c fl :
  existsb (is_param (hevc c)) nals = false -> (foldl (note_nal fv fs) (c, fl) nals).1 = c.
Proof.
  revert fl. induction nals as [|nal nals IH]; intros fl; [done|].
  intros [Hn Hns]%orb_false_iff. cbn [foldl].
  assert (exists fl', note_nal fv fs (c, fl) nal = (c, fl')) as [fl' E].
  { unfold note_nal, is_param in *. destruct (nal_kind _ _); try done; by eexists. }
  rewrite E. by apply IH.
Qed.

Definition carries_params (h : bool) (au : list Z) : bool := existsb (is_param h) (au_nals au).
Definition carries_idr (h : bool) (au : list Z) : bool := existsb (is_idr h) (au_nals au).

Definition inject (h : bool) (au : list Z) (sets : list (list Z)) : list Z :=
  take (insert_at h au) au ++ (sets ≫= fun ps => start_code ++ ps) ++ drop (insert_at h au) au.

(** What [process] does to an access unit: one that already carries any parameter set,
    or no IDR, passes through untouched; an IDR with none gets exactly the cached sets, each
    behind a start code, ahead of its first non-delimiter NAL, and every byte of the unit is
    kept; with an incomplete cache it passes through. *)
Lemma process_injects c au :
  (process c au).2 =
    if carries_params (hevc c) au || negb (carries_idr (hevc c) au) then None
    else inject (hevc c) au <$> injected c.
Proof.
  unfold process. set (c0 := reset_au c).
  destruct (foldl _ (c0, _) (au_nals au)) as [c1 fl] eqn:Ef.
  pose proof (fold_flags (is_empty (vps_by_id c0)) (is_empty (sps_by_id c0)) (au_nals au) c0
    (mkFlags false false)) as Hfl. rewrite Ef in Hfl. simpl in Hfl. subst fl. simpl.
  fold (carries_params (hevc c) au). fold (carries_idr (hevc c) au).
  destruct (carries_params (hevc c) au) eqn:Hp; [done|]. simpl.
  destruct (carries_idr (hevc c) au) eqn:Hi; [|done]. simpl.
  pose proof (fold_no_params (is_empty (vps_by_id c0)) (is_empty (sps_by_id c0)) (au_nals au) c0
    (mkFlags false false) Hp) as Hc. rewrite Ef in Hc. simpl in Hc. subst c1. simpl.
  change (injected c0) with (injected c). by destruct (injected c).
Qed.

(** ** Change detection *)

Fixpoint seen_at (m : IdMap) (id : Z) : option (list Z) :=
  match m with
  | [] => None
  | (i, b) :: m' => if i =? id then Some b else seen_at m' id
  end.

Lemma note_trimmed_at m id b f id' :
  seen_at (note_trimmed m id b f).1 id' = if id =? id' then Some b else seen_at m id'.
Proof.
  induction m as [|[i p] m IH]; simpl; [done|].
  destruct (Z.eqb_spec i id) as [->|Hne].
  - case_bool_decide; subst; simpl; by destruct (id =? id').
  - destruct (note_trimmed m id b f) as [s ch]. simpl in *. rewrite IH.
    destruct (Z.eqb_spec i id'), (Z.eqb_spec id id'); congruence.
Qed.

Lemma note_trimmed_same m id b f :
  seen_at m id = Some b -> note_trimmed m id b f = (m, false).
Proof.
  induction m as [|[i p] m IH]; simpl; [done|].
  destruct (i =? id); [intros [= ->]; by case_bool_decide|]. intros H. by rewrite IH.
Qed.

(** The maps that hold sets of a kind: this epoch's and this access unit's. *)
Definition epoch_map (c : ParamSetCache) (k : NalKind) : IdMap :=
  match k with Vps => vps_by_id c | _ => sps_by_id c end.
Definition au_map (c : ParamSetCache) (k : NalKind) : IdMap :=
  match k with Vps => au_vps_by_id c | _ => au_sps_by_id c end.

Definition kind_of (h : bool) (nal : list Z) : NalKind := nal_kind h (default 0 (head nal)).

(** [m] holds [nal] under its id, when [nal] is a VPS or an SPS. *)
Definition held (h : bool) (m : NalKind -> IdMap) (nal : list Z) : Prop :=
  forall k, kind_of h nal = k -> k = Vps \/ k = Sps ->
    seen_at (m k) (param_id h k nal) = Some (trim_trailing_zeros nal).

(** Two VPSs or two SPSs of one id in the unit are the same bytes, padding apart. *)
Definition consistent (h : bool) (nals : list (list Z)) : Prop :=
  forall n1 n2, n1 ∈ nals -> n2 ∈ nals -> kind_of h n1 = Vps \/ kind_of h n1 = Sps -> kind_of h n1 = kind_of h n2 ->
    param_id h (kind_of h n1) n1 = param_id h (kind_of h n2) n2 ->
    trim_trailing_zeros n1 = trim_trailing_zeros n2.

Lemma note_maps c k nal f k' :
  k = Vps \/ k = Sps -> k' = Vps \/ k' = Sps ->
  let id := param_id (hevc c) k nal in
  let put (m : NalKind -> IdMap) id' :=
    if bool_decide (k = k') && (id =? id') then Some (trim_trailing_zeros nal) else seen_at (m k') id' in
  forall id', seen_at (epoch_map (note c k nal f).1 k') id' = put (epoch_map c) id' /\
              seen_at (au_map (note c k nal f).1 k') id' = put (au_map c) id'.
Proof.
  intros Hk Hk' id put id'. subst put. cbn beta zeta.
  assert (forall m f, seen_at (note_by_id m id nal f).1 id' =
    if id =? id' then Some (trim_trailing_zeros nal) else seen_at m id') as Hat.
  { intros m g. apply note_trimmed_at. }
  destruct Hk as [-> | ->], Hk' as [-> | ->]; simpl note;
    pose proof (Hat (vps_by_id c) f); pose proof (Hat (sps_by_id c) f);
    repeat match goal with |- context [note_by_id ?m ?i ?n f] =>
      destruct (note_by_id m i n f) eqn:? end; subst id; simpl in *;
    repeat match goal with H : note_by_id _ _ _ _ = _ |- _ => rewrite H in * end;
    simpl in *; rewrite ?Hat; done.
Qed.

Definition both_held (c : ParamSetCache) (nal : list Z) : Prop :=
  held (hevc c) (epoch_map c) nal /\ held (hevc c) (au_map c) nal.

Lemma note_nal_unfold fv fs c fl nal :
  kind_of (hevc c) nal = Vps \/ kind_of (hevc c) nal = Sps ->
  exists f, let k := kind_of (hevc c) nal in
    epoch_map (note_nal fv fs (c, fl) nal).1 = epoch_map (note (set_slot c k nal) k nal f).1 /\
    au_map (note_nal fv fs (c, fl) nal).1 = au_map (note (set_slot c k nal) k nal f).1.
Proof.
  unfold kind_of, note_nal. intros [E|E]; rewrite E; [exists fv|exists fs];
    destruct (note _ _ _ _); done.
Qed.

Lemma note_nal_other fv fs c fl nal :
  ~ (kind_of (hevc c) nal = Vps \/ kind_of (hevc c) nal = Sps) ->
  epoch_map (note_nal fv fs (c, fl) nal).1 = epoch_map c /\
  au_map (note_nal fv fs (c, fl) nal).1 = au_map c.
Proof.
  unfold kind_of, note_nal. intros Hk.
  destruct (nal_kind _ _) eqn:E; simpl; [done|exfalso; auto..|done|done|done].
Qed.

Lemma note_nal_held fv fs c fl nal n :
  (n = nal \/ both_held c n /\
    (kind_of (hevc c) nal = Vps \/ kind_of (hevc c) nal = Sps -> kind_of (hevc c) n = kind_of (hevc c) nal ->
     param_id (hevc c) (kind_of (hevc c) n) n = param_id (hevc c) (kind_of (hevc c) nal) nal ->
     trim_trailing_zeros n = trim_trailing_zeros nal)) ->
  both_held (note_nal fv fs (c, fl) nal).1 n.
Proof.
  intros Hn. unfold both_held. rewrite note_nal_hevc. cbn [fst].
  assert (Hdec : Decision (kind_of (hevc c) nal = Vps \/ kind_of (hevc c) nal = Sps)) by apply _.
  destruct Hdec as [Hk|Hk].
  - destruct (note_nal_unfold fv fs c fl nal Hk) as (f & -> & ->).
    set (k := kind_of (hevc c) nal) in *. set (c' := set_slot c k nal).
    assert (hevc c' = hevc c /\ epoch_map c' = epoch_map c /\ au_map c' = au_map c) as (Eh & Ee & Ea)
      by (subst c'; by destruct Hk as [-> | ->]).
    split; intros k' Ek Hk'; destruct (note_maps c' k nal f k' Hk Hk' (param_id (hevc c) k' n)) as [E1 E2];
      [rewrite E1, Ee|rewrite E2, Ea]; rewrite Eh; clear E1 E2.
    all: destruct Hn as [-> |([H1 H2] & Hsame)];
      [rewrite bool_decide_true, <- Ek, Z.eqb_refl by (by rewrite <- Ek); done|].
    all: case_bool_decide as Hkk; simpl; [|by (apply H1 || apply H2)].
    all: destruct (Z.eqb_spec (param_id (hevc c) k nal) (param_id (hevc c) k' n)) as [Eq|];
      [|by (apply H1 || apply H2)].
    all: f_equal; symmetry; apply Hsame; [done|congruence|]; rewrite Ek, <- Hkk in *; congruence.
  - destruct (note_nal_other fv fs c fl nal Hk) as [-> ->].
    destruct Hn as [-> |[? _]]; [|done].
    split; intros k' Ek Hk'; exfalso; apply Hk; rewrite Ek; done.
Qed.

Lemma fold_held fv fs nals seen c fl :
  consistent (hevc c) (seen ++ nals) -> Forall (both_held c) seen ->
  Forall (both_held (foldl (note_nal fv fs) (c, fl) nals).1) (seen ++ nals).
Proof.
  revert seen c fl. induction nals as [|nal nals IH]; intros seen c fl Hc Hs; cbn [foldl].
  { by rewrite app_nil_r. }
  destruct (note_nal fv fs (c, fl) nal) as [c' fl'] eqn:E.
  pose proof (note_nal_hevc fv fs (c, fl) nal) as Hh. rewrite E in Hh. cbn [fst] in Hh.
  replace (seen ++ nal :: nals) with ((seen ++ [nal]) ++ nals) in * by (by rewrite <- app_assoc).
  apply IH; [by rewrite Hh|]. apply Forall_app. split; [|apply Forall_singleton].
  - rewrite Forall_forall in Hs |- *. intros n Hn.
    pose proof (note_nal_held fv fs c fl nal n) as Hh'. rewrite E in Hh'. apply Hh'. right.
    split; [by apply Hs|]. intros Hk Ek ?. rewrite <- Ek in Hk. apply Hc; [set_solver..|done|done|done].
  - pose proof (note_nal_held fv fs c fl nal nal) as Hh'. rewrite E in Hh'. apply Hh'. by left.
Qed.

Lemma note_nal_no_change fv fs c fl nal :
  held (hevc c) (epoch_map c) nal ->
  let c' := (note_nal fv fs (c, fl) nal).1 in
  hevc c' = hevc c /\ sps_changed c' = sps_changed c /\
  sps_by_id c' = sps_by_id c /\ vps_by_id c' = vps_by_id c.
Proof.
  intros Hh. specialize (Hh _ eq_refl). unfold kind_of in Hh. unfold note_nal.
  destruct (nal_kind _ _) eqn:E; try (split_and!; done);
    simpl; unfold note_by_id; [rewrite (note_trimmed_same (vps_by_id c))|rewrite (note_trimmed_same (sps_by_id c))|];
    simpl; rewrite ?orb_false_r; try (split_and!; done); apply Hh; auto.
Qed.

Lemma fold_no_change fv fs nals c fl :
  Forall (held (hevc c) (epoch_map c)) nals ->
  sps_changed (foldl (note_nal fv fs) (c, fl) nals).1 = sps_changed c.
Proof.
  revert c fl. induction nals as [|nal nals IH]; intros c fl; cbn [foldl]; [done|].
  intros [Hn Hns]%Forall_cons.
  destruct (note_nal_no_change fv fs c fl nal Hn) as (Eh & Es & E1 & E2).
  destruct (note_nal fv fs (c, fl) nal) as [c' fl']. cbn [fst] in *. rewrite IH; [done|].
  eapply Forall_impl; [exact Hns|]. intros n Hh k Hk Hkk. rewrite Eh in Hk |- *.
  specialize (Hh k Hk Hkk). destruct Hkk as [-> | ->]; simpl in *; congruence.
Qed.

Lemma process_changed c au :
  let fl := mkFlags false false in
  sps_changed (process c au).1 =
  sps_changed (foldl (note_nal (is_empty (vps_by_id c)) (is_empty (sps_by_id c)))
                (reset_au c, fl) (au_nals au)).1.
Proof.
  unfold process. simpl. destruct (foldl _ _ _) as [c1 fl]. cbn [fst].
  assert (sps_changed (if sps_changed c1 then begin_epoch c1 else c1) = sps_changed c1) as E
    by (destruct (sps_changed c1) eqn:?; done).
  destruct (_ || _); [done|]. destruct (injected _); [|done]. cbn [fst]. rewrite <- E.
  set (c2 := if sps_changed c1 then _ else _). unfold note_injected.
  assert (forall d k n f, sps_changed (note d k n f).1 = sps_changed d) as Hn.
  { intros d k n f. destruct k; simpl; try done; by destruct (note_by_id _ _ _ f). }
  destruct (hevc c2), (vps c2); simpl; repeat case_match; by rewrite ?Hn.
Qed.

Lemma no_params_held h m nals :
  existsb (is_param h) nals = false -> Forall (held h m) nals.
Proof.
  intros Hp. apply Forall_forall. intros n Hn k Hk Hkk. exfalso.
  assert (is_param h n = true) as Ht.
  { unfold is_param. unfold kind_of in Hk. rewrite Hk. by destruct Hkk as [-> | ->]. }
  assert (existsb (is_param h) nals = true); [|congruence].
  apply existsb_exists. exists n. by rewrite <- list_elem_of_In.
Qed.

Lemma fold_hevc fv fs nals st : hevc (foldl (note_nal fv fs) st nals).1 = hevc st.1.
Proof.
  revert st. induction nals as [|nal nals IH]; intros st; cbn [foldl]; [done|].
  by rewrite IH, note_nal_hevc.
Qed.

Lemma process_held c au :
  carries_params (hevc c) au = true -> consistent (hevc c) (au_nals au) ->
  hevc (process c au).1 = hevc c /\
  Forall (held (hevc c) (epoch_map (process c au).1)) (au_nals au).
Proof.
  intros Hp Hc. unfold process. set (c0 := reset_au c).
  set (fv := is_empty (vps_by_id c0)). set (fs := is_empty (sps_by_id c0)).
  pose proof (fold_held fv fs (au_nals au) [] c0 (mkFlags false false) Hc (Forall_nil_2 _)) as Hh.
  pose proof (fold_flags fv fs (au_nals au) c0 (mkFlags false false)) as Hfl.
  pose proof (fold_hevc fv fs (au_nals au) (c0, mkFlags false false)) as He.
  destruct (foldl _ _ _) as [c1 fl]. cbn [fst snd] in *. subst fl. cbn [has_params].
  change (existsb (is_param (hevc c0)) (au_nals au)) with (carries_params (hevc c) au). rewrite Hp.
  cbn [orb fst]. split; [by destruct (sps_changed c1)|].
  eapply Forall_impl; [exact Hh|]. intros n [H1 H2]. rewrite He in H1, H2.
  change (hevc (c0, _).1) with (hevc c) in H1, H2.
  destruct (sps_changed c1); [|exact H1]. intros k Hk Hkk. specialize (H2 k Hk Hkk).
  by destruct Hkk as [-> | ->].
Qed.

(** A repeated parameter set is not a stream change: when an access unit gives each set id
    one content, processing it and then processing it again reports no change the second time,
    whatever the cache held before. *)
Lemma repeat_is_no_change c au :
  consistent (hevc c) (au_nals au) ->
  sps_changed (process (process c au).1 au).1 = false.
Proof.
  intros Hc. rewrite process_changed. destruct (carries_params (hevc c) au) eqn:Hp.
  - destruct (process_held c au Hp Hc) as [He Hh]. rewrite fold_no_change; [done|].
    change (hevc (reset_au (process c au).1)) with (hevc (process c au).1). rewrite He. exact Hh.
  - assert (hevc (process c au).1 = hevc c) as He.
    { unfold process. pose proof (fold_hevc (is_empty (vps_by_id (reset_au c)))
        (is_empty (sps_by_id (reset_au c))) (au_nals au) (reset_au c, mkFlags false false)) as He.
      destruct (foldl _ _ _) as [c1 fl]. cbn [fst] in He.
      assert (hevc (if sps_changed c1 then begin_epoch c1 else c1) = hevc c) as E
        by (by destruct (sps_changed c1)).
      destruct (_ || _); [exact E|]. destruct (injected _); [|exact E]. cbn [fst]. rewrite <- E.
      unfold note_injected. set (c2 := if sps_changed c1 then _ else _).
      assert (forall d k n f, hevc (note d k n f).1 = hevc d) as Hn.
      { intros d k n f. destruct (note d k n f) eqn:En. by apply note_hevc in En. }
      destruct (hevc c2) eqn:?, (vps c2); repeat case_match; rewrite ?Hn; congruence. }
    rewrite fold_no_change; [done|]. change (hevc (reset_au ?x)) with (hevc x). rewrite He.
    by apply no_params_held.
Qed.

(** ** What a muxer has been given *)

(** The sets (and other units) that [au] is passed on with: its own units, or the injected sets. *)
Definition given (c : ParamSetCache) (au : list Z) : list (list Z) :=
  match (process c au).2 with Some _ => default [] (injected c) | None => au_nals au end.

Definition slot (c : ParamSetCache) (k : NalKind) : option (list Z) :=
  match k with Vps => vps c | Sps => sps c | Pps => pps c | _ => None end.

(** The slots hold sets of their kind, and neither map holds another set under a slot's id. *)
Definition slots_ok (c : ParamSetCache) : Prop :=
  forall m k set, m = epoch_map \/ m = au_map -> slot c k = Some set -> kind_of (hevc c) set = k /\
    (k = Vps \/ k = Sps -> forall b, seen_at (m c k) (param_id (hevc c) k set) = Some b -> b = trim_trailing_zeros set).

(** Every set [c]'s epoch has been given is still held by [c']. *)
Definition extends (c c' : ParamSetCache) : Prop :=
  hevc c' = hevc c /\ forall k id b, k = Vps \/ k = Sps -> seen_at (epoch_map c k) id = Some b -> seen_at (epoch_map c' k) id = Some b.

Lemma extends_held c c' nal : extends c c' -> held (hevc c) (epoch_map c) nal -> held (hevc c') (epoch_map c') nal.
Proof. intros [Eh He] Hh k Hk Hkk. rewrite Eh in *. by apply He, Hh. Qed.

Lemma extends_trans c c1 c2 : extends c c1 -> extends c1 c2 -> extends c c2.
Proof. intros [E1 H1] [E2 H2]. split; [congruence|]. eauto. Qed.

Lemma set_slot_slot c k nal k' :
  k = Vps \/ k = Sps \/ k = Pps -> slot (set_slot c k nal) k' = if bool_decide (k = k') then Some nal else slot c k'.
Proof. intros [-> |[-> | ->]]; by destruct k'. Qed.

Lemma note_slot c k nal f k' : slot (note c k nal f).1 k' = slot c k'.
Proof. destruct k; simpl; try done; destruct (note_by_id _ _ _ _); by destruct k'. Qed.

Lemma note_hevc1 c k nal f : hevc (note c k nal f).1 = hevc c.
Proof. destruct (note c k nal f) eqn:E. by apply note_hevc in E. Qed.

(** What either map holds after a set was stored in [c'], a cache with the maps of [c], and noted. *)
Lemma map_put c c' k nal f m k' id' :
  k = Vps \/ k = Sps -> k' = Vps \/ k' = Sps -> m = epoch_map \/ m = au_map ->
  hevc c' = hevc c -> epoch_map c' = epoch_map c -> au_map c' = au_map c ->
  seen_at (m (note c' k nal f).1 k') id' =
  if bool_decide (k = k') && (param_id (hevc c) k nal =? id') then Some (trim_trailing_zeros nal) else seen_at (m c k') id'.
Proof.
  intros Hk Hk' Hm Eh Ee Ea. destruct (note_maps c' k nal f k' Hk Hk' id') as [E1 E2]. rewrite Eh, ?Ee, ?Ea in *.
  by destruct Hm as [-> | ->].
Qed.

(** Storing a set in its slot and noting it. *)
Lemma stored_ok c k nal f : k = kind_of (hevc c) nal -> k = Vps \/ k = Sps -> slots_ok c -> slots_ok (note (set_slot c k nal) k nal f).1.
Proof.
  intros Ek Hk Hc m k' set Hm Hset. rewrite note_slot, set_slot_slot in Hset by tauto.
  assert (hevc (set_slot c k nal) = hevc c /\ epoch_map (set_slot c k nal) = epoch_map c /\ au_map (set_slot c k nal) = au_map c)
    as (Eh & Ee & Ea) by (by destruct Hk as [-> | ->]).
  rewrite note_hevc1, Eh. split; [|intros Hk' b; rewrite (map_put c) by done]; case_bool_decide as Hkk.
  - by injection Hset as <-; subst.
  - by apply (Hc m).
  - injection Hset as <-. subst k'. simpl. rewrite Z.eqb_refl. by intros [= <-].
  - by apply (Hc m).
Qed.

(** Noting what a slot holds. *)
Lemma slot_noted c k nal f : k = Vps \/ k = Sps -> slot c k = Some nal -> slots_ok c ->
  slots_ok (note c k nal f).1 /\ extends c (note c k nal f).1 /\ both_held (note c k nal f).1 nal.
Proof.
  intros Hk Hs Hc. destruct (Hc epoch_map k nal (or_introl eq_refl) Hs) as [Ek Hb]. split_and!.
  - intros m k' set Hm Hset. rewrite note_slot in Hset. rewrite note_hevc1. split; [by apply (Hc m)|].
    intros Hk' b. rewrite (map_put c) by done. case_bool_decide as Hkk; [subst k'|by apply (Hc m)].
    rewrite Hs in Hset. injection Hset as <-. simpl. rewrite Z.eqb_refl. by intros [= <-].
  - split; [apply note_hevc1|]. intros k' id b Hk' Hseen. rewrite (map_put c) by auto.
    case_bool_decide as Hkk; [subst k'|done]. simpl. destruct (Z.eqb_spec (param_id (hevc c) k nal) id) as [<-|]; [|done].
    f_equal. symmetry. by apply Hb.
  - split; intros k' Hk1 Hk'; rewrite note_hevc1 in Hk1 |- *; rewrite (map_put c) by auto;
      (assert (k = k') as <- by congruence); by rewrite bool_decide_true, Z.eqb_refl.
Qed.

Lemma note_trimmed_kept m id b id' b' :
  (note_trimmed m id b false).2 = false -> seen_at m id' = Some b' -> seen_at (note_trimmed m id b false).1 id' = Some b'.
Proof.
  induction m as [|[i p] m IH]; simpl; [done|]. destruct (Z.eqb_spec i id) as [->|Hne].
  - case_bool_decide; [done|]. done.
  - destruct (note_trimmed m id b false) as [s ch]. simpl in *. destruct (i =? id'); [done|]. apply IH.
Qed.

(** One turn of the loop that reports no change loses no set of a kind the epoch had. *)
Lemma note_nal_kept fv fs c fl nal k id b :
  let st := note_nal fv fs (c, fl) nal in
  sps_changed st.1 = false -> k = Vps /\ fv = false \/ k = Sps /\ fs = false ->
  seen_at (epoch_map c k) id = Some b -> seen_at (epoch_map st.1 k) id = Some b.
Proof.
  cbn zeta. unfold note_nal. destruct (nal_kind (hevc c) (default 0 (head nal))) eqn:E; try done.
  - simpl. pose proof (note_trimmed_kept (vps_by_id c) (param_id (hevc c) Vps nal) (trim_trailing_zeros nal) id b) as H.
    unfold note_by_id. destruct (note_trimmed (vps_by_id c) _ _ fv) as [s ch] eqn:En. simpl. intros [_ ->]%orb_false_iff [[-> ->]|[-> _]]; [|done].
    rewrite En in H. by apply H.
  - simpl. pose proof (note_trimmed_kept (sps_by_id c) (param_id (hevc c) Sps nal) (trim_trailing_zeros nal) id b) as H.
    unfold note_by_id. destruct (note_trimmed (sps_by_id c) _ _ fs) as [s ch] eqn:En. simpl. intros [_ ->]%orb_false_iff [[-> _]|[-> ->]]; [done|].
    rewrite En in H. by apply H.
Qed.

Lemma note_nal_changed fv fs st nal : sps_changed st.1 = true -> sps_changed (note_nal fv fs st nal).1 = true.
Proof.
  destruct st as [c fl]. unfold note_nal. cbn [fst]. intros Hc. destruct (nal_kind _ _) eqn:E; try done; simpl;
    repeat destruct (note_by_id _ _ _ _); simpl; rewrite ?orb_true_iff; tauto.
Qed.

Lemma fold_changed fv fs nals st : sps_changed st.1 = true -> sps_changed (foldl (note_nal fv fs) st nals).1 = true.
Proof. revert st. induction nals as [|nal nals IH]; intros st H; [done|]. simpl. by apply IH, note_nal_changed. Qed.

Lemma fold_kept fv fs nals c fl k id b :
  let st := foldl (note_nal fv fs) (c, fl) nals in
  sps_changed st.1 = false -> k = Vps /\ fv = false \/ k = Sps /\ fs = false ->
  seen_at (epoch_map c k) id = Some b -> seen_at (epoch_map st.1 k) id = Some b.
Proof.
  cbn zeta. revert c fl. induction nals as [|nal nals IH]; intros c fl; [done|]. cbn [foldl]. intros Hch Hk Hs.
  pose proof (note_nal_kept fv fs c fl nal k id b) as Hn. destruct (note_nal fv fs (c, fl) nal) as [c1 fl1] eqn:E.
  apply IH; [done..|]. apply Hn; [|done|done]. apply not_true_iff_false. intros Ht.
  rewrite (fold_changed fv fs nals (c1, fl1) Ht) in Hch. done.
Qed.

Lemma note_nal_ok fv fs st nal : slots_ok st.1 -> slots_ok (note_nal fv fs st nal).1.
Proof.
  destruct st as [c fl]. cbn [fst]. intros Hc.
  assert (forall c' ch, slots_ok c' -> slots_ok (set_changed c' ch)) as Hset by (intros c' ch H m k set Hm Hs; destruct (H m k set Hm) as [? ?]; [by destruct k|]; by destruct Hm as [-> | ->]).
  unfold note_nal. destruct (nal_kind (hevc c) (default 0 (head nal))) eqn:E; try done.
  - pose proof (stored_ok c Vps nal fv ltac:(by unfold kind_of) ltac:(by left) Hc). destruct (note _ _ _ _). by apply Hset.
  - pose proof (stored_ok c Sps nal fs ltac:(by unfold kind_of) ltac:(by right) Hc). destruct (note _ _ _ _). by apply Hset.
  - simpl. apply Hset. intros m k set Hm Hs. destruct k; try done;
      [destruct (Hc m Vps set Hm Hs)|destruct (Hc m Sps set Hm Hs)|injection Hs as <-];
      (split; [done|]); [destruct Hm as [-> | ->]; done..|by intros [|]].
Qed.

Lemma fold_ok fv fs nals st : slots_ok st.1 -> slots_ok (foldl (note_nal fv fs) st nals).1.
Proof. revert st. induction nals as [|nal nals IH]; intros st H; [done|]. simpl. by apply IH, note_nal_ok. Qed.

Lemma begin_epoch_ok c : slots_ok c -> slots_ok (begin_epoch c).
Proof.
  intros Hc m k set Hm Hs. destruct (Hc au_map k set (or_intror eq_refl)) as [Ek Hb]; [by destruct k|]. split; [done|].
  intros Hk. specialize (Hb Hk). by destruct Hm as [-> | ->], Hk as [-> | ->].
Qed.

Lemma begin_epoch_held c nal : both_held c nal -> both_held (begin_epoch c) nal.
Proof. intros [_ H]. split; intros k Hk Hkk; specialize (H k Hk Hkk); by destruct Hkk as [-> | ->]. Qed.

(** Noting the injected sets. *)
Lemma note_injected_given c sets : slots_ok c -> injected c = Some sets ->
  hevc (note_injected c) = hevc c /\ slots_ok (note_injected c) /\ extends c (note_injected c) /\ Forall (both_held (note_injected c)) sets.
Proof.
  intros Hc Hi. unfold injected in Hi. destruct (sps c) as [s|] eqn:Es; [|done]. simpl in Hi. destruct (pps c) as [p|] eqn:Ep; [|done]. simpl in Hi.
  assert (forall c', hevc c' = hevc c -> both_held c' p) as Hp.
  { intros c' Eh. destruct (Hc epoch_map Pps p (or_introl eq_refl) Ep) as [Ek _]. split; intros k Hk; rewrite Eh in Hk; intros [-> | ->]; congruence. }
  unfold note_injected. destruct (hevc c) eqn:Eh; [destruct (vps c) as [v|] eqn:Ev; [|done]|]; injection Hi as <-.
  - cbn beta zeta iota. destruct (slot_noted c Vps v true ltac:(by left) Ev Hc) as (H1 & H2 & H3).
    set (c1 := (note c Vps v true).1) in *.
    assert (slot c1 Sps = Some s) as Es1 by (by unfold c1; rewrite note_slot).
    assert (sps c1 = Some s) as -> by exact Es1. destruct (slot_noted c1 Sps s true ltac:(by right) Es1 H1) as (H4 & H5 & H6).
    assert (hevc (note c1 Sps s true).1 = hevc c) as Eh2 by (rewrite note_hevc1; apply note_hevc1).
    split_and!; [congruence|done|by eapply extends_trans|]. constructor; [|constructor; [done|constructor; [apply Hp; congruence|constructor]]].
    destruct (Hc epoch_map Vps v (or_introl eq_refl) Ev) as [Ekv _]. destruct H3 as [H3a H3b]. unfold c1 in H3a, H3b. rewrite note_hevc1 in H3a, H3b.
    split; intros k Hk Hk'; rewrite Eh2 in Hk |- *; (assert (k = Vps) as -> by congruence);
      rewrite (map_put c1) by auto; simpl; [apply (H3a Vps)|apply (H3b Vps)]; auto.
  - cbn beta zeta iota. rewrite Es.
    destruct (slot_noted c Sps s true ltac:(by right) Es Hc) as (H4 & H5 & H6).
    split_and!; [rewrite note_hevc1; congruence|done..|]. constructor; [done|constructor; [apply Hp; by rewrite note_hevc1|constructor]].
Qed.

(** What [process] leaves: the sets of the unit are held, by the epoch and by the unit, and when
    it reports no change every set of the epoch still is. *)
Lemma process_given c au :
  let c' := (process c au).1 in
  consistent (hevc c) (au_nals au) -> slots_ok c ->
  hevc c' = hevc c /\ slots_ok c' /\ Forall (both_held c') (given c au) /\ (sps_changed c' = false -> extends c c').
Proof.
  cbn zeta. intros Hcons Hc. unfold given. rewrite process_injects, process_changed. unfold process. set (c0 := reset_au c).
  set (fv := is_empty (vps_by_id c0)). set (fs := is_empty (sps_by_id c0)).
  assert (slots_ok c0) as Hc0.
  { intros m k set Hm Hs. destruct (Hc epoch_map k set (or_introl eq_refl)) as [Ek Hb]; [by destruct k|]. split; [done|].
    intros Hk b. destruct Hm as [-> | ->]; [apply Hb, Hk|]. by destruct Hk as [-> | ->]. }
  pose proof (fold_ok fv fs (au_nals au) (c0, mkFlags false false) Hc0) as Hok.
  pose proof (fold_held fv fs (au_nals au) [] c0 (mkFlags false false) Hcons (Forall_nil_2 _)) as Hheld.
  pose proof (fold_flags fv fs (au_nals au) c0 (mkFlags false false)) as Hfl.
  pose proof (fold_hevc fv fs (au_nals au) (c0, mkFlags false false)) as He.
  pose proof (fold_kept fv fs (au_nals au) c0 (mkFlags false false)) as Hkept.
  pose proof (fold_no_params fv fs (au_nals au) c0 (mkFlags false false)) as Hno.
  change (vps_by_id c) with (vps_by_id c0). change (sps_by_id c) with (sps_by_id c0). fold fv fs.
  destruct (foldl (note_nal fv fs) _ _) as [c1 fl]. cbn [fst snd app] in *. subst fl. cbn [has_params has_idr orb].
  change (existsb (is_param (hevc c0)) (au_nals au)) with (carries_params (hevc c) au) in *.
  change (existsb (is_idr (hevc c0)) (au_nals au)) with (carries_idr (hevc c) au).
  change (hevc c0) with (hevc c) in He.
  assert (sps_changed c1 = false -> extends c c1) as Hext.
  { intros Hch. split; [done|]. intros k id b Hk Hs. apply Hkept; [done| |by destruct Hk as [-> | ->]].
    destruct Hk as [-> | ->]; [left|right]; (split; [done|]); unfold fv, fs, c0; simpl in *; [by destruct (vps_by_id c)|by destruct (sps_by_id c)]. }
  set (c2 := if sps_changed c1 then begin_epoch c1 else c1).
  assert (hevc c2 = hevc c /\ slots_ok c2 /\ Forall (both_held c2) (au_nals au) /\ (sps_changed c1 = false -> extends c c2)) as (E2 & Hok2 & Hheld2 & Hext2).
  { unfold c2. destruct (sps_changed c1); [|done]. split_and!; [done|by apply begin_epoch_ok| |done].
    eapply Forall_impl; [exact Hheld|]. apply begin_epoch_held. }
  destruct (carries_params (hevc c) au) eqn:Hp; [done|]. destruct (carries_idr (hevc c) au) eqn:Hi; [|done]. simpl.
  specialize (Hno eq_refl). subst c1. assert (c2 = c0) as -> by done. change (injected c0) with (injected c).
  destruct (injected c) as [sets|] eqn:Ei; [|done]. simpl.
  destruct (note_injected_given c0 sets Hc0 Ei) as (H1 & H2 & [_ H3] & H4). split_and!; [done..|]. intros _. split; [done|].
  intros k id b Hk Hs. apply H3; [done|]. by destruct Hk as [-> | ->].
Qed.

(** A keyframe with an SPS, a PPS and an IDR slice, and the same without the sets. *)
Definition au_with_sets : list Z :=
  [0; 0; 0; 1; 0x67; 66; 0; 30; 0x80; 0; 0; 1; 0x68; 0x80; 0; 0; 1; 0x65; 9].
Definition au_bare : list Z := [0; 0; 0; 1; 0x65; 9].

Lemma split_nals_in_bounds_witness :
  (9%nat, 12%nat, 14%nat) ∈ split_nals au_with_sets /\
  exists b tl, nal_at au_with_sets 12 14 = b :: tl.
Proof.
  assert ((9%nat, 12%nat, 14%nat) ∈ split_nals au_with_sets) as H by (apply list_elem_of_In; vm_compute; tauto).
  split; [exact H|]. destruct (split_nals_in_bounds _ _ _ _ H) as (_ & _ & _ & b & tl & E & _).
  by exists b, tl.
Defined.

Lemma repeat_is_no_change_witness :
  sps_changed (process (process (new false) au_with_sets).1 au_with_sets).1 = false.
Proof.
  apply (repeat_is_no_change (new false) au_with_sets).
  intros n1 n2 H1 H2. apply list_elem_of_In in H1, H2. vm_compute in H1, H2.
  destruct H1 as [<-|[<-|[<-|[]]]], H2 as [<-|[<-|[<-|[]]]]; vm_compute; congruence.
Defined.

Example bare_keyframe_gets_sets :
  (process (process (new false) au_with_sets).1 au_bare).2 =
  Some ([0; 0; 0; 1; 0x67; 66; 0; 30; 0x80] ++ [0; 0; 0; 1; 0x68; 0x80] ++ au_bare).
Proof. vm_compute. reflexivity. Qed.
