(* ===== verification/Users.v ===== *)
(** The [users] table, [nexus-store/src/users.rs] on migration [0010_local_users.sql]: the
    account rows, every operation of the store on them, and the last-admin protection. A
    timestamp is a number of nanoseconds; the clock that SQLite or the store reads is an
    argument [now]. SQLite answers every query (an I/O error has no branch here). *)
From stdpp Require Import pretty.
From S2P Require Import Prelude Text Order Types.

(** ** Rows *)

Record User := mkUser {
  username : string;
  role : Role;
  password_hash : option string;
  oidc_subject : option string;
  force_password_reset : bool;
  disabled : bool;
  failed_login_count : Z;
  locked_until : option Z;
  last_login_at : option Z;
  last_failed_login_at : option Z;
  created_at : Z;
  updated_at : Z;
  deleted_at : option Z;
}.

Definition has_oidc (u : User) : bool := is_some (oidc_subject u).
Definition has_password (u : User) : bool := is_some (password_hash u).
Definition is_deleted (u : User) : bool := is_some (deleted_at u).

Record NewUser := mkNewUser {
  nu_username : string;
  nu_role : Role;
  nu_password_hash : option string;
  nu_oidc_subject_hash : option string;
  nu_force_password_reset : bool;
}.

Inductive UsersError :=
| UStore
| UsernameTaken
| OidcSubjectTaken
| UserNotFound
| NoAuthMethod
| LastAdmin.

(** The table and its [AUTOINCREMENT] counter. *)
Record UsersTable := mkUsers { rows : gmap Z User; seq : Z }.

Definition UsersM (A : Type) : Type := SE UsersTable UsersError A.

Definition put_row (id : Z) (u : User) (t : UsersTable) : UsersTable :=
  mkUsers (<[id := u]> (rows t)) (seq t).

(** The row [id] after [f], when it is there: [UPDATE ... WHERE id = ?]. *)
Definition update_row (id : Z) (f : User -> User) (t : UsersTable) : UsersTable :=
  match rows t !! id with Some u => put_row id (f u) t | None => t end.

(** ** Queries *)

(** SQLite's [COLLATE NOCASE]: the ASCII letters fold. *)
Definition nocase_eqb (a b : string) : bool :=
  bool_decide (to_lowercase a = to_lowercase b).

(** The rows that satisfy [P], by id. *)
Definition select (P : Z -> User -> bool) (t : UsersTable) : list (Z * User) :=
  filter (fun e => P e.1 e.2 = true) (sorted_entries (rows t)).

Definition get_user_by_username (name : string) (t : UsersTable) : option (Z * User) :=
  head (select (fun _ u => nocase_eqb (username u) name && negb (is_deleted u)) t).

Definition get_user_by_id (id : Z) (t : UsersTable) : option User := rows t !! id.

Definition get_user_by_oidc_subject (h : string) (t : UsersTable) : option (Z * User) :=
  head (select (fun _ u => bool_decide (oidc_subject u = Some h) && negb (is_deleted u)) t).

(** [ORDER BY deleted_at IS NOT NULL, username COLLATE NOCASE] *)
Definition by_name (a b : Z * User) : comparison :=
  cthen (Z.compare (Z.b2z (is_deleted a.2)) (Z.b2z (is_deleted b.2)))
    (String.compare (to_lowercase (username a.2)) (to_lowercase (username b.2))).

Definition list_users (include_deleted : bool) (t : UsersTable) : list (Z * User) :=
  sort_by by_name (select (fun _ u => include_deleted || negb (is_deleted u)) t).

Definition get_password_hash_for_login (name : string) (t : UsersTable) : option (Z * string) :=
  '(id, u) ← head (select (fun _ u =>
      nocase_eqb (username u) name && negb (is_deleted u) && has_password u) t);
  h ← password_hash u;
  Some (id, h).

Definition count_users (t : UsersTable) : Z := Z.of_nat (size (rows t)).

Definition active_admin (u : User) : bool :=
  bool_decide (role u = Admin) && negb (is_deleted u) && negb (disabled u).

Definition admins (t : UsersTable) : gmap Z User :=
  filter (fun e => active_admin e.2 = true) (rows t).

Definition count_active_admins (t : UsersTable) : Z := Z.of_nat (size (admins t)).

(** ** Mutations *)

(** The two UNIQUE indexes, which cover deleted rows too; [self] is the row an UPDATE writes. *)
Definition username_clash (self : option Z) (name : string) (t : UsersTable) : bool :=
  bool_decide (select (fun i u => negb (bool_decide (Some i = self)) && nocase_eqb (username u) name) t <> []).

Definition subject_clash (self : option Z) (h : string) (t : UsersTable) : bool :=
  bool_decide (select (fun i u => negb (bool_decide (Some i = self)) && bool_decide (oidc_subject u = Some h)) t <> []).

Definition create_user (now : Z) (new : NewUser) : UsersM Z := fun t =>
  if negb (is_some (nu_password_hash new)) && negb (is_some (nu_oidc_subject_hash new))
  then (Err NoAuthMethod, t)
  else if username_clash None (nu_username new) t
          || match nu_oidc_subject_hash new with Some h => subject_clash None h t | None => false end
  then
    let subject_taken :=
      match nu_oidc_subject_hash new with
      | Some h => is_some (get_user_by_oidc_subject h t)
      | None => false
      end in
    (Err (if subject_taken then OidcSubjectTaken else UsernameTaken), t)
  else
    let id := seq t + 1 in
    let u := mkUser (nu_username new) (nu_role new) (nu_password_hash new)
               (nu_oidc_subject_hash new) (nu_force_password_reset new)
               false 0 None None None now now None in
    (Ok id, mkUsers (<[id := u]> (rows t)) id).

Definition read_user_for_update (id : Z) : UsersM User := fun t =>
  match rows t !! id with
  | Some u => if is_deleted u then (Err UserNotFound, t) else (Ok u, t)
  | None => (Err UserNotFound, t)
  end.

Definition set_role (r : Role) (now : Z) (u : User) : User :=
  mkUser (username u) r (password_hash u) (oidc_subject u) (force_password_reset u) (disabled u)
    (failed_login_count u) (locked_until u) (last_login_at u) (last_failed_login_at u)
    (created_at u) now (deleted_at u).

Definition update_user_role (now : Z) (id : Z) (new_role : Role) : UsersM unit :=
  current ← read_user_for_update id;
  n ← gets count_active_admins;
  guard_err (negb (bool_decide (role current = Admin) && negb (bool_decide (new_role = Admin)) && (n <=? 1)))
    LastAdmin;;
  modify (update_row id (set_role new_role now)).

Definition set_disabled (d : bool) (now : Z) (u : User) : User :=
  mkUser (username u) (role u) (password_hash u) (oidc_subject u) (force_password_reset u) d
    (failed_login_count u) (locked_until u) (last_login_at u) (last_failed_login_at u)
    (created_at u) now (deleted_at u).

Definition set_user_disabled (now : Z) (id : Z) (d : bool) : UsersM unit :=
  current ← read_user_for_update id;
  n ← gets count_active_admins;
  guard_err (negb (d && negb (disabled current) && bool_decide (role current = Admin) && (n <=? 1)))
    LastAdmin;;
  modify (update_row id (set_disabled d now)).

Definition set_password (h : string) (force : bool) (now : Z) (u : User) : User :=
  mkUser (username u) (role u) (Some h) (oidc_subject u) force (disabled u)
    (failed_login_count u) (locked_until u) (last_login_at u) (last_failed_login_at u)
    (created_at u) now (deleted_at u).

(** [rows_affected() == 0] of an UPDATE that skips deleted rows. *)
Definition live_row (id : Z) (t : UsersTable) : bool :=
  match rows t !! id with Some u => negb (is_deleted u) | None => false end.

Definition update_user_password (now : Z) (id : Z) (h : string) (force : bool) : UsersM unit := fun t =>
  if live_row id t then (Ok tt, update_row id (set_password h force now) t)
  else (Err UserNotFound, t).

Definition set_oidc (h : string) (now : Z) (u : User) : User :=
  mkUser (username u) (role u) (password_hash u) (Some h) (force_password_reset u) (disabled u)
    (failed_login_count u) (locked_until u) (last_login_at u) (last_failed_login_at u)
    (created_at u) now (deleted_at u).

Definition set_user_oidc_subject (now : Z) (id : Z) (h : string) : UsersM unit := fun t =>
  if negb (live_row id t) then (Err UserNotFound, t)
  else if subject_clash (Some id) h t then (Err OidcSubjectTaken, t)
  else (Ok tt, update_row id (set_oidc h now) t).

Definition set_login (count : Z) (until last failed : option Z) (now : Z) (u : User) : User :=
  mkUser (username u) (role u) (password_hash u) (oidc_subject u) (force_password_reset u)
    (disabled u) count until last failed (created_at u) now (deleted_at u).

Definition record_login_success (now : Z) (id : Z) : UsersM unit :=
  modify (update_row id (fun u => set_login 0 None (Some now) (last_failed_login_at u) now u)).

Definition record_login_failure (now : Z) (id : Z) (new_count : Z) (lock_until : option Z) : UsersM unit :=
  modify (update_row id (fun u => set_login new_count lock_until (last_login_at u) (Some now) now u)).

Definition clear_lockout (now : Z) (id : Z) : UsersM unit := fun t =>
  match rows t !! id with
  | Some u => (Ok tt, put_row id (set_login 0 None (last_login_at u) (last_failed_login_at u) now u) t)
  | None => (Err UserNotFound, t)
  end.

Definition tombstone (name : string) (now : Z) (u : User) : User :=
  mkUser name (role u) (password_hash u) (oidc_subject u) (force_password_reset u) true
    (failed_login_count u) (locked_until u) (last_login_at u) (last_failed_login_at u)
    (created_at u) now (Some now).

Section soft_delete.
(** The timestamp of a tombstone's name, printed by [chrono]. *)
Context (fmt_ts : Z -> string).

Definition tombstone_name (id now : Z) : string := pretty id +:+ ":deleted-" +:+ fmt_ts now.

Definition soft_delete_user (now : Z) (id : Z) : UsersM unit :=
  current ← read_user_for_update id;
  n ← gets count_active_admins;
  guard_err (negb (bool_decide (role current = Admin) && (n <=? 1))) LastAdmin;;
  clash ← gets (username_clash (Some id) (tombstone_name id now));
  guard_err (negb clash) UStore;;
  modify (update_row id (tombstone (tombstone_name id now) now)).

(** ** The operations as one type, for sequences of them *)

Inductive UserOp :=
| Create (new : NewUser)
| UpdateRole (id : Z) (r : Role)
| SetDisabled (id : Z) (d : bool)
| UpdatePassword (id : Z) (h : string) (force : bool)
| LinkOidc (id : Z) (h : string)
| LoginSuccess (id : Z)
| LoginFailure (id : Z) (count : Z) (until : option Z)
| Unlock (id : Z)
| SoftDelete (id : Z).

Definition unit_op {A} (m : UsersM A) : UsersM unit := m ;; mret tt.

Definition run_op (now : Z) (o : UserOp) : UsersM unit :=
  match o with
  | Create new => unit_op (create_user now new)
  | UpdateRole id r => update_user_role now id r
  | SetDisabled id d => set_user_disabled now id d
  | UpdatePassword id h f => update_user_password now id h f
  | LinkOidc id h => set_user_oidc_subject now id h
  | LoginSuccess id => record_login_success now id
  | LoginFailure id c u => record_login_failure now id c u
  | Unlock id => clear_lockout now id
  | SoftDelete id => soft_delete_user now id
  end.

#[export] Instance users_machine : Machine (Z * UserOp) UsersTable (result unit UsersError) :=
  fun o t => let '(r, t') := run_op o.1 o.2 t in (t', r).
End soft_delete.

(** ** Last-admin protection *)

Lemma admins_put id u t :
  count_active_admins t - 1 <= count_active_admins (put_row id u t) /\
  (active_admin u = true \/ admins t !! id = None ->
   count_active_admins t <= count_active_admins (put_row id u t)).
Proof.
  unfold count_active_admins. set (m' := admins (put_row id u t)).
  assert (delete id (admins t) ⊆ m') as Hsub.
  { apply map_subseteq_spec. intros i x Hi. apply lookup_delete_Some in Hi as [Hne Hi].
    apply map_lookup_filter_Some in Hi as [Hi Ha]. apply map_lookup_filter_Some. simpl.
    by rewrite lookup_insert_ne. }
  pose proof (map_subseteq_size _ _ Hsub) as Hle. pose proof (map_size_delete id (admins t)) as Hd.
  destruct (admins t !! id) eqn:E; rewrite ?E in Hd; unfold Datatypes.id in Hd; [|split; [|intros _]; lia].
  split; [lia|]. intros [Ha|]; [|done].
  assert (m' = <[id := u]> (admins t)) as -> by (by apply map_filter_insert_True).
  rewrite map_size_insert, E. unfold Datatypes.id. lia.
Qed.

Lemma admins_lookup id t u :
  rows t !! id = Some u -> active_admin u = false -> admins t !! id = None.
Proof.
  intros Hu Ha. apply map_lookup_filter_None. right. intros v Hv. simpl. congruence.
Qed.

(** Rewriting a row in a way that keeps its role, its flag and its tombstone. *)
Lemma update_row_keeps id f t :
  (forall u, active_admin (f u) = active_admin u) ->
  count_active_admins t <= count_active_admins (update_row id f t).
Proof.
  intros Hf. unfold update_row. destruct (rows t !! id) as [u|] eqn:E; [|lia].
  apply admins_put. rewrite Hf. destruct (active_admin u) eqn:Ha; [by left|].
  right. by eapply admins_lookup.
Qed.

(** The ids in use are below the counter, and there is an active admin. *)
Definition ids_below (t : UsersTable) : Prop := forall id u, rows t !! id = Some u -> id <= seq t.
Definition administered (t : UsersTable) : Prop := ids_below t /\ 1 <= count_active_admins t.

Lemma ids_below_update id f t : ids_below t -> ids_below (update_row id f t).
Proof.
  intros Ht. unfold update_row. destruct (rows t !! id) eqn:E; [|done].
  intros i v. simpl. rewrite lookup_insert. case_decide; intros; simplify_eq; eauto.
Qed.

Lemma administered_update id f t :
  (forall u, active_admin (f u) = active_admin u) ->
  administered t -> administered (update_row id f t).
Proof.
  intros Hf [Hi Ht]. split; [by apply ids_below_update|]. pose proof (update_row_keeps id f t Hf). lia.
Qed.

(** A guarded write: it may take one admin away when two or more are left. *)
Lemma administered_write id f t u :
  rows t !! id = Some u ->
  2 <= count_active_admins t \/ (active_admin u = true -> active_admin (f u) = true) ->
  administered t -> administered (update_row id f t).
Proof.
  intros Hu Hc [Hi Ht]. split; [by apply ids_below_update|]. unfold update_row. rewrite Hu.
  destruct (admins_put id (f u) t) as [H1 H2]. destruct Hc as [|Ha]; [lia|].
  enough (count_active_admins t <= count_active_admins (put_row id (f u) t)) by lia. apply H2.
  destruct (active_admin u) eqn:E; [left; auto|right]. by eapply admins_lookup.
Qed.

Lemma read_for_update_ok id t u t' :
  read_user_for_update id t = (Ok u, t') -> t' = t /\ rows t !! id = Some u /\ deleted_at u = None.
Proof.
  unfold read_user_for_update, is_deleted. destruct (rows t !! id) as [v|]; [|done].
  destruct (deleted_at v) eqn:E; simpl; [done|]. by intros [= <- <-].
Qed.

(** The shape the three guarded mutations share. *)
Lemma guarded_administered id (g : User -> Z -> bool) (f : User -> User)
    (extra : UsersM unit) :
  (forall t, (extra t).2 = t) ->
  (forall t u, rows t !! id = Some u -> deleted_at u = None -> g u (count_active_admins t) = true ->
     2 <= count_active_admins t \/ (active_admin u = true -> active_admin (f u) = true)) ->
  preserves administered
    (current ← read_user_for_update id; n ← gets count_active_admins;
     guard_err (g current n) LastAdmin;; extra;; modify (update_row id f) : UsersM unit).
Proof.
  intros Hx Hg t Ht. unfold mbind, se_bind.
  destruct (read_user_for_update id t) as [[u|e] t'] eqn:E; simpl.
  - apply read_for_update_ok in E as (-> & Hu & Hd). unfold guard_err.
    destruct (g u (count_active_admins t)) eqn:Eg; simpl; [|done].
    specialize (Hx t). destruct (extra t) as [[]  t1]; simpl in *; subst; [|done].
    by eapply administered_write; eauto.
  - unfold read_user_for_update in E. by repeat case_match; simplify_eq.
Qed.

Lemma update_role_administered now id r : preserves administered (update_user_role now id r).
Proof.
  pose proof (guarded_administered id
    (fun u n => negb (bool_decide (role u = Admin) && negb (bool_decide (r = Admin)) && (n <=? 1)))
    (set_role r now) (mret tt)) as H. intros t Ht. refine (H _ _ t Ht); [done|]. clear.
  intros t u _ _. unfold active_admin. simpl. destruct (role u), r; simpl; try lia; auto.
Qed.

Lemma set_disabled_administered now id d : preserves administered (set_user_disabled now id d).
Proof.
  pose proof (guarded_administered id
    (fun u n => negb (d && negb (disabled u) && bool_decide (role u = Admin) && (n <=? 1)))
    (set_disabled d now) (mret tt)) as H. intros t Ht. refine (H _ _ t Ht); [done|]. clear.
  intros t u _ _. unfold active_admin, is_deleted. simpl.
  destruct d, (disabled u), (role u), (deleted_at u); simpl; try lia; auto.
Qed.

Lemma soft_delete_administered fmt_ts now id : preserves administered (soft_delete_user fmt_ts now id).
Proof.
  pose proof (guarded_administered id
    (fun u n => negb (bool_decide (role u = Admin) && (n <=? 1)))
    (tombstone (tombstone_name fmt_ts id now) now)
    (clash ← gets (username_clash (Some id) (tombstone_name fmt_ts id now));
     guard_err (negb clash) UStore)) as H.
  intros t Ht. refine (eq_ind _ administered (H _ _ t Ht) _ _).
  - intros t'. unfold mbind, se_bind, gets, guard_err. by destruct (username_clash _ _ _).
  - clear. intros t u _ _. unfold active_admin. simpl. destruct (role u); simpl; try lia; auto.
  - clear. unfold soft_delete_user, mbind, se_bind.
    destruct (read_user_for_update id t) as [[u|e] t']; simpl; [|done].
    destruct (guard_err _ _ t') as [[[]|e] t'']; simpl; [|done].
    by destruct (guard_err _ _ t'') as [[[]|e] t'''].
Qed.

Lemma create_administered now new : preserves administered (create_user now new).
Proof.
  intros t [Hi Ht]. unfold create_user. case_match; [done|]. case_match; [done|]. split; simpl.
  - intros id u. simpl. rewrite lookup_insert. case_decide; intros; simplify_eq; [lia|].
    specialize (Hi id u ltac:(done)). lia.
  - set (u := mkUser _ _ _ _ _ _ _ _ _ _ _ _ _). destruct (admins_put (seq t + 1) u t) as [_ H2].
    unfold count_active_admins in *. simpl in H2. etrans; [exact Ht|]. apply H2. right.
    apply map_lookup_filter_None. left. destruct (rows t !! (seq t + 1)) eqn:E; [|done].
    apply Hi in E. lia.
Qed.

Lemma run_op_administered fmt_ts now o : preserves administered (run_op fmt_ts now o).
Proof.
  destruct o; simpl.
  - apply preserves_bind; [apply create_administered|intros; apply preserves_ret].
  - apply update_role_administered.
  - apply set_disabled_administered.
  - intros t Ht. unfold update_user_password. case_match; [|done]. by apply administered_update.
  - intros t Ht. unfold set_user_oidc_subject. repeat case_match; [done..|]. by apply administered_update.
  - apply preserves_modify. intros. by apply administered_update.
  - apply preserves_modify. intros. by apply administered_update.
  - intros t Ht. unfold clear_lockout. case_match eqn:E; [|done].
    pose proof (administered_update id
      (fun u => set_login 0 None (last_login_at u) (last_failed_login_at u) now u) t) as H.
    unfold update_row in H. rewrite E in H. by apply H.
  - apply soft_delete_administered.
Qed.

(** C1. Last-admin protection: a table with an active admin keeps one, whatever sequence of store
    operations (creations, role changes, disables, deletions, password and lockout writes) runs
    on it and whatever they return. *)
Theorem an_admin_always_remains fmt_ts ops t :
  administered t -> administered (mrun (H := users_machine fmt_ts) ops t).1.
Proof.
  apply (mrun_invariant (H := users_machine fmt_ts) (fun _ => True)); [|by apply Forall_true].
  intros [now o] s _ Hs. pose proof (run_op_administered fmt_ts now o s Hs) as H.
  unfold mstep, users_machine. simpl. by destruct (run_op fmt_ts now o s).
Qed.

(** ** The schema's constraints *)

Lemma elem_of_select P t id u : (id, u) ∈ select P t <-> rows t !! id = Some u /\ P id u = true.
Proof. unfold select. rewrite list_elem_of_filter, elem_of_sorted_entries. naive_solver. Qed.

Lemma select_nil P t : select P t = [] <-> forall id u, rows t !! id = Some u -> P id u = false.
Proof.
  split.
  - intros Hn id u Hu. destruct (P id u) eqn:E; [|done].
    assert ((id, u) ∈ select P t) as Hin by (by apply elem_of_select). rewrite Hn in Hin.
    by apply elem_of_nil in Hin.
  - intros H. destruct (select P t) as [|[id u] l] eqn:E; [done|].
    assert ((id, u) ∈ select P t) as Hin by (rewrite E; left). apply elem_of_select in Hin as [Hu Hp].
    by rewrite (H id u Hu) in Hp.
Qed.

Lemma no_username_clash self name t :
  username_clash self name t = false ->
  forall i u, rows t !! i = Some u -> Some i <> self -> nocase_eqb (username u) name = false.
Proof.
  unfold username_clash. rewrite bool_decide_eq_false. intros Hn i u Hu Hi.
  assert (select (fun i u => negb (bool_decide (Some i = self)) && nocase_eqb (username u) name) t = []) as Hs
    by (destruct (select _ _); [done|exfalso; auto]).
  rewrite select_nil in Hs. specialize (Hs i u Hu). rewrite bool_decide_false in Hs by done. exact Hs.
Qed.

Lemma no_subject_clash self h t :
  subject_clash self h t = false ->
  forall i u, rows t !! i = Some u -> Some i <> self -> oidc_subject u <> Some h.
Proof.
  unfold subject_clash. rewrite bool_decide_eq_false. intros Hn i u Hu Hi.
  assert (select (fun i u => negb (bool_decide (Some i = self)) && bool_decide (oidc_subject u = Some h)) t = []) as Hs
    by (destruct (select _ _); [done|exfalso; auto]).
  rewrite select_nil in Hs. specialize (Hs i u Hu). rewrite bool_decide_false in Hs by done.
  by apply bool_decide_eq_false in Hs.
Qed.

Record schema_ok (t : UsersTable) : Prop := {
  ids_ok : ids_below t;
  names_unique : forall i j u v, rows t !! i = Some u -> rows t !! j = Some v -> i <> j ->
    nocase_eqb (username u) (username v) = false;
  subjects_unique : forall i j u v h, rows t !! i = Some u -> rows t !! j = Some v -> i <> j ->
    oidc_subject u = Some h -> oidc_subject v <> Some h;
  can_authenticate : forall i u, rows t !! i = Some u -> has_password u || has_oidc u = true;
}.

Lemma nocase_sym a b : nocase_eqb a b = nocase_eqb b a.
Proof. unfold nocase_eqb. apply bool_decide_ext. split; congruence. Qed.

(** Writing one row keeps the constraints when the new row does not clash with the others. *)
Lemma schema_put id u t n :
  schema_ok t -> id <= n -> seq t <= n ->
  (forall i v, rows t !! i = Some v -> i <> id -> nocase_eqb (username v) (username u) = false) ->
  (forall i v h, rows t !! i = Some v -> i <> id -> oidc_subject u = Some h -> oidc_subject v <> Some h) ->
  has_password u || has_oidc u = true ->
  schema_ok (mkUsers (<[id := u]> (rows t)) n).
Proof.
  intros [Hi Hn Hs Ha] Hid Hseq Hn' Hs' Ha'. split; simpl.
  - intros i v. simpl. rewrite lookup_insert. case_decide; intros; simplify_eq; [done|].
    specialize (Hi i v ltac:(done)). lia.
  - intros i j v w. rewrite !lookup_insert. do 2 case_decide; intros; simplify_eq; eauto.
    rewrite nocase_sym. eauto.
  - intros i j v w h. rewrite !lookup_insert. do 2 case_decide; intros; simplify_eq; eauto.
    intros ?. by eapply Hs'.
  - intros i v. rewrite lookup_insert. case_decide; intros; simplify_eq; eauto.
Qed.

(** Rewriting a row in a way that keeps its name, its subject and an auth method. *)
Lemma schema_update id f t :
  (forall u, username (f u) = username u) ->
  (forall u, oidc_subject (f u) = oidc_subject u) ->
  (forall u, has_password u = true -> has_password (f u) = true) ->
  schema_ok t -> schema_ok (update_row id f t).
Proof.
  intros Hu Hs Hp Hok. unfold update_row, put_row. destruct (rows t !! id) as [u|] eqn:E; [|done].
  pose proof Hok as [Hi Hn Hs' Ha]. apply schema_put; [done|by apply Hi in E|lia|..].
  - intros i v Hv Hne. rewrite Hu. eauto.
  - intros i v h Hv Hne. rewrite Hs. intros Hh. eapply Hs'; [exact E|exact Hv|congruence|done].
  - specialize (Ha id u E). unfold has_oidc in *. rewrite Hs.
    destruct (has_password u) eqn:Hpu; [by rewrite Hp|]. simpl in Ha. rewrite Ha. apply orb_true_r.
Qed.

Lemma schema_guarded id (g : User -> Z -> bool) (f : User -> User) :
  (forall t, schema_ok t -> schema_ok (update_row id f t)) ->
  preserves schema_ok
    (current ← read_user_for_update id; n ← gets count_active_admins;
     guard_err (g current n) LastAdmin;; modify (update_row id f) : UsersM unit).
Proof.
  intros Hf. repeat (apply preserves_bind; [|intros]).
  - intros t Ht. unfold read_user_for_update. by repeat case_match.
  - apply preserves_gets.
  - apply preserves_guard.
  - by apply preserves_modify.
Qed.

Lemma create_schema now new : preserves schema_ok (create_user now new).
Proof.
  intros t Hok. unfold create_user. destruct (negb _ && negb _) eqn:Em; [done|].
  destruct (username_clash None (nu_username new) t) eqn:Eu; [done|]. simpl.
  destruct (match nu_oidc_subject_hash new with Some _ => _ | None => _ end) eqn:Es; [done|]. simpl.
  apply schema_put; [done|lia|lia|..].
  - intros i v Hv _. by apply (no_username_clash None (nu_username new) t Eu i v).
  - intros i v h Hv _. simpl. intros Hh. rewrite Hh in Es.
    by apply (no_subject_clash None h t Es i v).
  - unfold has_password, has_oidc. simpl. destruct (nu_password_hash new), (nu_oidc_subject_hash new); done.
Qed.

Lemma soft_delete_schema fmt_ts now id : preserves schema_ok (soft_delete_user fmt_ts now id).
Proof.
  intros t Hok. unfold soft_delete_user, mbind, se_bind, gets, guard_err, modify, throw, mret, se_ret.
  destruct (read_user_for_update id t) as [[u|e] t'] eqn:Er;
    [|unfold read_user_for_update in Er; by repeat case_match; simplify_eq].
  apply read_for_update_ok in Er as (-> & Hu & _). destruct (negb (_ && _)); [|done].
  destruct (username_clash _ _ t) eqn:Ec; [done|]. simpl. unfold update_row, put_row. rewrite Hu.
  pose proof Hok as [Hi Hn Hs Ha]. apply schema_put; [done|by apply Hi in Hu|lia|..].
  - intros i v Hv Hne. apply (no_username_clash _ _ _ Ec i v Hv). congruence.
  - intros i v h Hv Hne. simpl. intros Hh. eapply Hs; [exact Hu|exact Hv|congruence|done].
  - by apply (Ha id u).
Qed.

Lemma link_schema now id h : preserves schema_ok (set_user_oidc_subject now id h).
Proof.
  intros t Hok. unfold set_user_oidc_subject, live_row.
  destruct (rows t !! id) as [u|] eqn:Hu; [|done]. simpl. destruct (negb (negb _)); [done|].
  destruct (subject_clash _ _ t) eqn:Ec; [done|]. simpl. unfold update_row, put_row. rewrite Hu.
  pose proof Hok as [Hi Hn Hs Ha]. apply schema_put; [done|by apply Hi in Hu|lia|..].
  - intros i v Hv Hne. simpl. by eapply Hn.
  - intros i v h' Hv Hne. simpl. intros [= <-]. apply (no_subject_clash _ _ _ Ec i v Hv). congruence.
  - unfold has_oidc. simpl. apply orb_true_r.
Qed.

Lemma run_op_schema fmt_ts now o : preserves schema_ok (run_op fmt_ts now o).
Proof.
  destruct o; simpl.
  - apply preserves_bind; [apply create_schema|intros; apply preserves_ret].
  - apply (schema_guarded id (fun u n => negb (bool_decide (role u = Admin) && negb (bool_decide (r = Admin)) && (n <=? 1)))).
    intros. by apply schema_update.
  - apply (schema_guarded id (fun u n => negb (d && negb (disabled u) && bool_decide (role u = Admin) && (n <=? 1)))).
    intros. by apply schema_update.
  - intros t Ht. unfold update_user_password. case_match; [|done]. by apply schema_update.
  - apply link_schema.
  - apply preserves_modify. intros. by apply schema_update.
  - apply preserves_modify. intros. by apply schema_update.
  - intros t Ht. unfold clear_lockout. case_match eqn:E; [|done].
    pose proof (schema_update id
      (fun u => set_login 0 None (last_login_at u) (last_failed_login_at u) now u) t) as H.
    unfold update_row in H. rewrite E in H. by apply H.
  - apply soft_delete_schema.
Qed.

(** The [users] table keeps the constraints of its migration under every sequence of store
    operations: user names are unique up to ASCII case over all rows, deleted ones included,
    OIDC subjects are unique, and every row has a password or an OIDC subject. *)
Lemma users_schema_invariant fmt_ts ops t :
  schema_ok t -> schema_ok (mrun (H := users_machine fmt_ts) ops t).1.
Proof.
  apply (mrun_invariant (H := users_machine fmt_ts) (fun _ => True)); [|by apply Forall_true].
  intros [now o] s _ Hs. pose proof (run_op_schema fmt_ts now o s Hs) as H.
  unfold mstep, users_machine. simpl. by destruct (run_op fmt_ts now o s).
Qed.

(** With unique names a lookup finds the row it is meant to. *)
Lemma lookup_by_username t id u name (P : User -> bool) :
  schema_ok t -> rows t !! id = Some u -> nocase_eqb (username u) name = true -> P u = true ->
  head (select (fun _ u => nocase_eqb (username u) name && P u) t) = Some (id, u).
Proof.
  intros Hok Hu Hn Hp.
  assert ((id, u) ∈ select (fun _ u => nocase_eqb (username u) name && P u) t) as Hin
    by (apply elem_of_select; by rewrite Hn, Hp).
  destruct (select _ t) as [|[i v] l] eqn:E; [by apply elem_of_nil in Hin|]. simpl.
  assert ((i, v) ∈ select (fun _ u => nocase_eqb (username u) name && P u) t) as Hv by (rewrite E; left).
  apply elem_of_select in Hv as [Hv [Hvn _]%andb_true_iff].
  destruct (decide (i = id)) as [->|Hne]; [by simplify_eq|]. exfalso.
  pose proof (names_unique t Hok i id v u Hv Hu Hne) as Hd.
  unfold nocase_eqb in *. rewrite bool_decide_eq_true in Hn, Hvn. rewrite bool_decide_eq_false in Hd. congruence.
Qed.

Lemma lookup_user t id u name :
  schema_ok t -> rows t !! id = Some u -> nocase_eqb (username u) name = true -> deleted_at u = None ->
  get_user_by_username name t = Some (id, u).
Proof.
  intros Hok Hu Hn Hd. apply (lookup_by_username t id u name (fun u => negb (is_deleted u))); [done..|].
  unfold is_deleted. by rewrite Hd.
Qed.

Lemma lookup_password t id u name h :
  schema_ok t -> rows t !! id = Some u -> nocase_eqb (username u) name = true -> deleted_at u = None ->
  password_hash u = Some h ->
  get_password_hash_for_login name t = Some (id, h).
Proof.
  intros Hok Hu Hn Hd Hh. unfold get_password_hash_for_login.
  pose proof (lookup_by_username t id u name (fun u => negb (is_deleted u) && has_password u) Hok Hu Hn) as Hl.
  unfold is_deleted, has_password in Hl. rewrite Hd, Hh in Hl. specialize (Hl eq_refl).
  replace (select _ t) with (select (fun _ u => nocase_eqb (username u) name && (negb (is_deleted u) && has_password u)) t).
  - unfold is_deleted, has_password. rewrite Hl. simpl. by rewrite Hh.
  - unfold select. apply list_filter_iff. intros e. by rewrite andb_assoc.
Qed.

(** ** Witnesses: one admin, who cannot be removed until a second one exists *)

Definition demo_user (name : string) (r : Role) : User :=
  mkUser name r (Some "phc") None false false 0 None None None 0 0 None.

Definition one_admin : UsersTable := mkUsers {[ 1 := demo_user "alice" Admin ]} 1.

Definition remove_alice : list (Z * UserOp) :=
  [(10, SoftDelete 1); (11, Create (mkNewUser "Bob" Admin (Some "phc") None true)); (12, SetDisabled 1 true)].

Lemma one_row_lookup {i u} : ({[ 1 := demo_user "alice" Admin ]} : gmap Z User) !! i = Some u ->
  i = 1 /\ u = demo_user "alice" Admin.
Proof. intros H. apply lookup_singleton_Some in H as [<- <-]. done. Qed.

Lemma an_admin_always_remains_witness :
  (mrun (H := users_machine (fun _ => "t")) remove_alice one_admin).2 = [Err LastAdmin; Ok tt; Ok tt] /\
  administered (mrun (H := users_machine (fun _ => "t")) remove_alice one_admin).1.
Proof.
  split; [vm_compute; reflexivity|].
  apply (an_admin_always_remains (fun _ => "t") remove_alice one_admin).
  split; [|vm_compute; discriminate]. intros i u H. destruct (one_row_lookup H) as [-> _]. done.
Defined.

Lemma users_schema_invariant_witness :
  schema_ok (mrun (H := users_machine (fun _ => "t")) remove_alice one_admin).1.
Proof.
  apply (users_schema_invariant (fun _ => "t") remove_alice one_admin). split.
  - intros i u H. destruct (one_row_lookup H) as [-> _]. done.
  - intros i j u v Hi Hj Hne. destruct (one_row_lookup Hi), (one_row_lookup Hj). congruence.
  - intros i j u v h Hi Hj Hne. destruct (one_row_lookup Hi), (one_row_lookup Hj). congruence.
  - intros i u H. by destruct (one_row_lookup H) as [_ ->].
Defined.
