(* ===== verification/Lockout.v ===== *)
(** The login lockout, [nexus-engine/src/auth/lockout.rs], on the policy knobs of
    [nexus-config/src/runtime_auth.rs]. Instants and durations are nanoseconds; the knobs are
    [u32] seconds, the counter an [i64]. *)
From S2P Require Import Prelude Types Users.

Record LockoutConfig := mkLockout {
  max_attempts : Z;
  window_secs : Z;
  lockout_secs : Z;
}.

Definition default_config : LockoutConfig := mkLockout 5 900 900.

Inductive LockState := Unlocked | Locked (until : Z).

Record FailureOutcome := mkOutcome {
  new_count : Z;
  lock_until : option Z;
  lockout_tripped : bool;
}.

Definition i64_max : Z := umax 63.

Definition evaluate (now : Z) (u : User) : LockState :=
  match locked_until u with
  | Some t => if now <? t then Locked t else Unlocked
  | None => Unlocked
  end.

Definition evaluate_failure (now : Z) (u : User) (cfg : LockoutConfig) : FailureOutcome :=
  let window_open :=
    match last_failed_login_at u with
    | Some t => now - t <=? secs (window_secs cfg)
    | None => false
    end in
  let n := if window_open then Z.min (failed_login_count u + 1) i64_max else 1 in
  let trips := max_attempts cfg <=? n in
  mkOutcome n (if trips then Some (now + secs (lockout_secs cfg)) else None) trips.

Definition is_locked (now : Z) (u : User) : bool :=
  match evaluate now u with Locked _ => true | Unlocked => false end.

(** A failed attempt as the login handler records it: the outcome of [evaluate_failure] written
    by [record_login_failure]. *)
Definition fail_at (cfg : LockoutConfig) (u : User) (now : Z) : User :=
  let o := evaluate_failure now u cfg in
  set_login (new_count o) (lock_until o) (last_login_at u) (Some now) now u.

(** ** Properties *)

(** No failure is still inside the window at [t]. *)
Definition window_closed (cfg : LockoutConfig) (t : Z) (u : User) : Prop :=
  match last_failed_login_at u with
  | Some t0 => secs (window_secs cfg) < t - t0
  | None => True
  end.

(** Each attempt comes at most a window after the one before. *)
Fixpoint within_window (cfg : LockoutConfig) (prev : Z) (ts : list Z) : Prop :=
  match ts with
  | [] => True
  | t :: ts' => t - prev <= secs (window_secs cfg) /\ within_window cfg t ts'
  end.

Lemma fail_at_fresh cfg u t :
  window_closed cfg t u ->
  failed_login_count (fail_at cfg u t) = 1 /\ last_failed_login_at (fail_at cfg u t) = Some t.
Proof.
  unfold window_closed, fail_at, evaluate_failure. destruct (last_failed_login_at u) as [t0|]; simpl; [|done].
  intros H. by rewrite (proj2 (Z.leb_gt _ _)).
Qed.

Lemma run_counts cfg prev ts u :
  last_failed_login_at u = Some prev -> failed_login_count u <= i64_max -> within_window cfg prev ts ->
  let u' := foldl (fail_at cfg) u ts in
  failed_login_count u' = Z.min (failed_login_count u + zlength ts) i64_max /\
  (ts <> [] -> locked_until u' =
     if max_attempts cfg <=? failed_login_count u'
     then Some (List.last ts 0 + secs (lockout_secs cfg)) else None).
Proof.
  unfold zlength. revert prev u. induction ts as [|t ts IH]; intros prev u Hp Hc Hw; simpl.
  { split; [lia|done]. }
  destruct Hw as [Ht Hw].
  assert (failed_login_count (fail_at cfg u t) = Z.min (failed_login_count u + 1) i64_max) as Hn.
  { unfold fail_at, evaluate_failure. rewrite Hp. simpl. by rewrite (proj2 (Z.leb_le _ _)). }
  destruct (IH t (fail_at cfg u t) eq_refl ltac:(lia) Hw) as [H1 H2]. split; [rewrite H1; lia|].
  intros _. destruct ts as [|t' ts]; [|by apply H2].
  simpl. unfold fail_at. simpl. unfold evaluate_failure. rewrite Hp. simpl. done.
Qed.

Lemma lockout_run cfg u t ts :
  window_closed cfg t u -> within_window cfg t ts -> 0 <= max_attempts cfg <= umax 32 ->
  let u' := foldl (fail_at cfg) u (t :: ts) in
  let k := 1 + zlength ts in
  failed_login_count u' = Z.min k i64_max /\
  locked_until u' =
    (if max_attempts cfg <=? k then Some (List.last (t :: ts) 0 + secs (lockout_secs cfg)) else None) /\
  forall now, is_locked now u' = true <->
    max_attempts cfg <= k /\ now < List.last (t :: ts) 0 + secs (lockout_secs cfg).
Proof.
  intros Hc Hw Hm u' k. destruct (fail_at_fresh cfg u t Hc) as [H1 Hl].
  assert (i64_max = 9223372036854775807 /\ umax 32 = 4294967295) as [Em Eu] by done.
  destruct (run_counts cfg t ts (fail_at cfg u t) Hl ltac:(lia) Hw) as [Hn Hu]. rewrite H1 in Hn.
  change (foldl (fail_at cfg) (fail_at cfg u t) ts) with u' in *. fold k in Hn.
  assert (locked_until u' = if max_attempts cfg <=? k then Some (List.last (t :: ts) 0 + secs (lockout_secs cfg)) else None) as Hlock.
  { destruct ts as [|t' ts].
    - subst u'. change k with 1. cbn [foldl]. unfold fail_at, evaluate_failure. unfold window_closed in Hc.
      destruct (last_failed_login_at u) as [t0|]; [|done].
      destruct (Z.leb_spec (t - t0) (secs (window_secs cfg))); [lia|done].
    - rewrite Hu by done. rewrite Hn. change (List.last (t :: t' :: ts) 0) with (List.last (t' :: ts) 0).
      destruct (Z.leb_spec (max_attempts cfg) k), (Z.leb_spec (max_attempts cfg) (Z.min k i64_max));
        [done|lia|lia|done]. }
  split_and!; [done|done|]. intros now. unfold is_locked, evaluate. rewrite Hlock.
  destruct (Z.leb_spec (max_attempts cfg) k); [|split; [done|lia]].
  destruct (Z.ltb_spec now (List.last (t :: ts) 0 + secs (lockout_secs cfg))); split; (done || lia).
Qed.

(** The lockout counts a run of failures exactly: starting with the window closed, after [k]
    failures each at most a window apart, the counter is [k] and the account is locked, until
    a lockout after the last failure, iff [k] reached [max_attempts]; a failure that comes
    after the window closed starts over at one. *)
Lemma lockout_counts_a_run cfg u t ts :
  window_closed cfg t u -> within_window cfg t ts -> 0 <= max_attempts cfg <= umax 32 ->
  let u' := foldl (fail_at cfg) u (t :: ts) in
  let k := 1 + zlength ts in
  failed_login_count u' = Z.min k i64_max /\
  locked_until u' =
    (if max_attempts cfg <=? k then Some (List.last (t :: ts) 0 + secs (lockout_secs cfg)) else None) /\
  forall now, is_locked now u' = true <->
    max_attempts cfg <= k /\ now < List.last (t :: ts) 0 + secs (lockout_secs cfg).
Proof. apply lockout_run. Qed.

Lemma within_window_snoc cfg prev ts t :
  within_window cfg prev (ts ++ [t]) -> within_window cfg prev ts.
Proof. revert prev. induction ts as [|a ts IH]; intros prev; simpl; [done|]. intros [? ?]; split; eauto. Qed.

Lemma fail_at_identity cfg u ts :
  let u' := foldl (fail_at cfg) u ts in
  Users.username u' = Users.username u /\ disabled u' = disabled u /\ deleted_at u' = deleted_at u /\
  password_hash u' = password_hash u /\ oidc_subject u' = oidc_subject u /\ role u' = role u.
Proof. revert u. induction ts as [|t ts IH]; intros u; [done|]. apply (IH (fail_at cfg u t)). Qed.

Lemma lockout_counts_a_run_witness :
  let u' := foldl (fail_at default_config) (demo_user "alice" Viewer)
              (secs 100 :: [secs 101; secs 102; secs 103; secs 104]) in
  is_locked (secs 1000) u' = true /\ is_locked (secs 1004) u' = false.
Proof.
  destruct (lockout_counts_a_run default_config (demo_user "alice" Viewer) (secs 100)
    [secs 101; secs 102; secs 103; secs 104]) as (_ & _ & H).
  - done.
  - repeat split; vm_compute; discriminate.
  - vm_compute. split; discriminate.
  - split.
    + apply H. vm_compute. split; [discriminate|reflexivity].
    + vm_compute. reflexivity.
Defined.
