(* ===== verification/AuditLog.v ===== *)
(** The audit log, [nexus-store/src/audit.rs]: actor kinds and outcomes with their wire forms, the
    entries the handlers write, and the append-only table. The [before]/[after] JSON documents
    and the request's address and user agent are opaque strings. *)
From S2P Require Import Prelude.

Inductive AuditActorKind := LocalUser | OidcUser | DevToken | System.

Definition kind_as_str (k : AuditActorKind) : string :=
  match k with
  | LocalUser => "local_user" | OidcUser => "oidc_user"
  | DevToken => "dev_token" | System => "system"
  end.

Definition kind_try_from : string -> option AuditActorKind :=
  match_str [("local_user", LocalUser); ("oidc_user", OidcUser); ("dev_token", DevToken); ("system", System)].

#[export] Instance kind_wire : WireEnum AuditActorKind.
Proof. refine {| wire_str := kind_as_str; wire_parse := kind_try_from |}. solve_wire_exact kind_try_from. Defined.

Inductive AuditOutcome := Success | Failure | Denied.

Definition outcome_as_str (o : AuditOutcome) : string :=
  match o with Success => "success" | Failure => "failure" | Denied => "denied" end.

Definition outcome_try_from : string -> option AuditOutcome :=
  match_str [("success", Success); ("failure", Failure); ("denied", Denied)].

#[export] Instance outcome_wire : WireEnum AuditOutcome.
Proof. refine {| wire_str := outcome_as_str; wire_parse := outcome_try_from |}. solve_wire_exact outcome_try_from. Defined.

Record NewAuditEntry := mkEntry {
  actor_kind : option AuditActorKind;
  actor_id : option string;
  actor_label : string;
  action : string;
  resource_kind : option string;
  resource_id : option string;
  before_json : option string;
  after_json : option string;
  outcome : AuditOutcome;
  ip : option string;
  user_agent : option string;
}.

(** The client's address and user agent, with which most entries are completed. *)
Record Client := mkClient { c_ip : string; c_ua : option string }.

Definition default_entry (label act : string) : NewAuditEntry :=
  mkEntry None None label act None None None None Success None None.

Definition login_success (kind : AuditActorKind) (id : option string) (label : string) (c : Client) : NewAuditEntry :=
  mkEntry (Some kind) id label "login.success" None None None None Success (Some (c_ip c)) (c_ua c).

Definition login_failure (label : string) (c : Client) : NewAuditEntry :=
  mkEntry (Some LocalUser) None label "login.failure" None None None None Failure (Some (c_ip c)) (c_ua c).

(** A stored row; its columns hold the wire strings. *)
Record AuditRow := mkRow {
  r_actor_kind : string;
  r_outcome : string;
  r_entry : NewAuditEntry;
  r_created_at : Z;
}.

(** The table, oldest first; [AUTOINCREMENT] ids are the positions. *)
Abbreviation AuditLog := (list AuditRow).

Definition record_audit_event (now : Z) (e : NewAuditEntry) (log : AuditLog) : AuditLog :=
  log ++ [mkRow (kind_as_str (default System (actor_kind e))) (outcome_as_str (outcome e)) e now].

Definition decode_audit_row (r : AuditRow) : option (AuditActorKind * AuditOutcome * NewAuditEntry) :=
  k ← kind_try_from (r_actor_kind r);
  o ← outcome_try_from (r_outcome r);
  Some (k, o, r_entry r).

Definition delete_audit_older_than (cutoff : Z) (log : AuditLog) : AuditLog * Z :=
  (filter (fun r => cutoff <= r_created_at r) log,
   Z.of_nat (length (filter (fun r => r_created_at r < cutoff) log))).

(** The rows of an action. *)
Definition rows_of (act : string) (log : AuditLog) : list AuditRow :=
  filter (fun r => action (r_entry r) = act) log.

(** Every row the store writes decodes again, to the entry it was given with the defaulted
    actor kind, and a sweep deletes exactly the rows older than its cutoff and reports how many. *)
Lemma audit_rows_decode now e log cutoff :
  List.last (decode_audit_row <$> record_audit_event now e log) None =
    Some (default System (actor_kind e), outcome e, e) /\
  let '(kept, n) := delete_audit_older_than cutoff log in
  (forall r, r ∈ kept <-> r ∈ log /\ cutoff <= r_created_at r) /\
  n + zlength kept = zlength log.
Proof.
  split.
  - unfold record_audit_event. rewrite fmap_app. cbn [fmap list_fmap]. rewrite List.last_last.
    unfold decode_audit_row. cbn [r_actor_kind r_outcome r_entry].
    assert (forall k, kind_try_from (kind_as_str k) = Some k) as -> by (intros k; exact (wire_roundtrip k)).
    assert (forall o, outcome_try_from (outcome_as_str o) = Some o) as -> by (intros o; exact (wire_roundtrip o)).
    done.
  - unfold delete_audit_older_than. split.
    + intros r. rewrite list_elem_of_filter. tauto.
    + unfold zlength. induction log as [|r log IH]; [done|]. rewrite !filter_cons.
      do 2 case_decide; simpl; lia.
Qed.
