(* ===== verification/Sessions.v ===== *)
(** Refresh tokens, [nexus-store/src/sessions.rs] on migrations [0011_auth_refresh_tokens.sql] and
    [0019_auth_refresh_idle.sql]. An instant is a number of nanoseconds (SQLite holds it as
    RFC 3339 text); the token hash is an opaque string. *)
From S2P Require Import Prelude.

Record RefreshToken := mkToken {
  token_hash : string;
  user_id : Z;
  chain_id : string;
  parent_id : option Z;
  expires_at : Z;
  rotated_at : option Z;
  revoked_at : option Z;
  user_agent : option string;
  ip : option string;
  created_at : Z;
  last_active_at : option Z;
  idle_revoked_at : option Z;
}.

Record NewRefreshToken := mkNewToken {
  nt_token_hash : string;
  nt_user_id : Z;
  nt_chain_id : string;
  nt_parent_id : option Z;
  nt_expires_at : Z;
  nt_user_agent : option string;
  nt_ip : option string;
}.

Inductive SessionsError := SStore | TokenHashCollision | TokenNotFound (id : Z).

Record TokenTable := mkTokens { tokens : gmap Z RefreshToken; tseq : Z }.

Definition SessionsM (A : Type) : Type := SE TokenTable SessionsError A.

Definition is_live_at (r : RefreshToken) (now : Z) : bool :=
  negb (is_some (rotated_at r)) && negb (is_some (revoked_at r)) &&
  negb (is_some (idle_revoked_at r)) && (now <? expires_at r).

Definition effective_last_active_at (r : RefreshToken) : Z :=
  default (created_at r) (last_active_at r).

Definition with_marks (rot rev act idle : option Z) (r : RefreshToken) : RefreshToken :=
  mkToken (token_hash r) (user_id r) (chain_id r) (parent_id r) (expires_at r) rot rev
    (user_agent r) (ip r) (created_at r) act idle.

Definition set_rotated (at_ : Z) (r : RefreshToken) : RefreshToken :=
  with_marks (Some at_) (revoked_at r) (last_active_at r) (idle_revoked_at r) r.
Definition set_revoked (at_ : Z) (r : RefreshToken) : RefreshToken :=
  with_marks (rotated_at r) (Some at_) (last_active_at r) (idle_revoked_at r) r.
Definition set_active (at_ : Z) (r : RefreshToken) : RefreshToken :=
  with_marks (rotated_at r) (revoked_at r) (Some at_) (idle_revoked_at r) r.
Definition set_idle_revoked (at_ : Z) (r : RefreshToken) : RefreshToken :=
  with_marks (rotated_at r) (revoked_at r) (last_active_at r) (Some at_) r.

(** [UPDATE ... SET f WHERE P], with [rows_affected]. *)
Definition update_where (P : RefreshToken -> bool) (f : RefreshToken -> RefreshToken)
    (t : TokenTable) : TokenTable :=
  mkTokens ((fun r => if P r then f r else r) <$> tokens t) (tseq t).

Definition affected (P : RefreshToken -> bool) (t : TokenTable) : Z :=
  Z.of_nat (size (filter (fun e => P e.2 = true) (tokens t))).

Definition rows_where (P : RefreshToken -> bool) (t : TokenTable) : list (Z * RefreshToken) :=
  filter (fun e => P e.2 = true) (sorted_entries (tokens t)).

Definition in_chain (c : string) (r : RefreshToken) : bool := bool_decide (chain_id r = c).

(** ** Operations *)

Definition insert_refresh_token (now : Z) (n : NewRefreshToken) : SessionsM (Z * RefreshToken) := fun t =>
  if bool_decide (rows_where (fun r => bool_decide (token_hash r = nt_token_hash n)) t <> [])
  then (Err TokenHashCollision, t)
  else
    let id := tseq t + 1 in
    let r := mkToken (nt_token_hash n) (nt_user_id n) (nt_chain_id n) (nt_parent_id n)
               (nt_expires_at n) None None (nt_user_agent n) (nt_ip n) now (Some now) None in
    (Ok (id, r), mkTokens (<[id := r]> (tokens t)) id).

Definition get_refresh_token_by_hash (h : string) (t : TokenTable) : option (Z * RefreshToken) :=
  head (rows_where (fun r => bool_decide (token_hash r = h)) t).

Definition mark_refresh_token_rotated (at_ : Z) (id : Z) : SessionsM unit := fun t =>
  match tokens t !! id with
  | Some r => (Ok tt, mkTokens (<[id := set_rotated at_ r]> (tokens t)) (tseq t))
  | None => (Err (TokenNotFound id), t)
  end.

Definition revoke_chain (at_ : Z) (c : string) : SessionsM Z := fun t =>
  let P r := in_chain c r && negb (is_some (revoked_at r)) in
  (Ok (affected P t), update_where P (set_revoked at_) t).

Definition revoke_refresh_token (at_ : Z) (id : Z) : SessionsM unit := fun t =>
  match tokens t !! id with
  | Some r => (Ok tt, mkTokens (<[id := set_revoked at_ r]> (tokens t)) (tseq t))
  | None => (Err (TokenNotFound id), t)
  end.

Definition newest_first (x y : Z * RefreshToken) : Prop := created_at y.2 <= created_at x.2.

#[export] Instance newest_first_dec : RelDecision newest_first.
Proof. intros x y. unfold newest_first. apply _. Defined.

Definition list_active_refresh_tokens_for_user (uid now : Z) (t : TokenTable) : list (Z * RefreshToken) :=
  merge_sort newest_first
    (rows_where (fun r => (user_id r =? uid) && negb (is_some (rotated_at r)) &&
                          negb (is_some (revoked_at r)) && (now <? expires_at r)) t).

Definition delete_expired_refresh_tokens (now : Z) : SessionsM Z := fun t =>
  let P r := (expires_at r <=? now) && (is_some (rotated_at r) || is_some (revoked_at r)) in
  (Ok (affected P t), mkTokens (filter (fun e => P e.2 = false) (tokens t)) (tseq t)).

Definition bump_refresh_chain_active_at (at_ : Z) (c : string) : SessionsM Z := fun t =>
  let P r := in_chain c r && negb (is_some (revoked_at r)) && negb (is_some (idle_revoked_at r)) &&
             match last_active_at r with None => true | Some a => a <? at_ end in
  (Ok (affected P t), update_where P (set_active at_) t).

Definition idle_revoke_chain (at_ : Z) (c : string) : SessionsM Z := fun t =>
  let P r := in_chain c r && negb (is_some (idle_revoked_at r)) && negb (is_some (revoked_at r)) in
  (Ok (affected P t), update_where P (set_idle_revoked at_) t).

(** [SELECT MAX(COALESCE(last_active_at, created_at))] over the rows not killed. *)
Definition unkilled (r : RefreshToken) : bool :=
  negb (is_some (revoked_at r)) && negb (is_some (idle_revoked_at r)).

Fixpoint max_opt (l : list Z) : option Z :=
  match l with
  | [] => None
  | a :: l' => Some (match max_opt l' with Some m => Z.max a m | None => a end)
  end.

Definition max_chain_last_active_at (c : string) (t : TokenTable) : option Z :=
  max_opt (map (fun e => effective_last_active_at e.2)
             (rows_where (fun r => in_chain c r && unkilled r) t)).

(** ** A killed chain *)

(** Every row of the chain was revoked, by hand, by replay or by idleness. *)
Definition killed (c : string) (t : TokenTable) : Prop :=
  forall id r, tokens t !! id = Some r -> chain_id r = c -> unkilled r = false.

Lemma elem_of_rows_where P t id r : (id, r) ∈ rows_where P t <-> tokens t !! id = Some r /\ P r = true.
Proof. unfold rows_where. rewrite list_elem_of_filter, elem_of_sorted_entries. naive_solver. Qed.

Lemma rows_where_nil P t : rows_where P t = [] <-> forall id r, tokens t !! id = Some r -> P r = false.
Proof.
  split.
  - intros Hn id r Hr. destruct (P r) eqn:E; [|done].
    assert ((id, r) ∈ rows_where P t) as Hin by (by apply elem_of_rows_where). rewrite Hn in Hin.
    by apply elem_of_nil in Hin.
  - intros H. destruct (rows_where P t) as [|[id r] l] eqn:E; [done|].
    assert ((id, r) ∈ rows_where P t) as Hin by (rewrite E; left). apply elem_of_rows_where in Hin as [Hu Hp].
    by rewrite (H id r Hu) in Hp.
Qed.

Lemma get_by_hash h t id r :
  get_refresh_token_by_hash h t = Some (id, r) -> tokens t !! id = Some r /\ token_hash r = h.
Proof.
  unfold get_refresh_token_by_hash. intros Hh.
  assert ((id, r) ∈ rows_where (fun r => bool_decide (token_hash r = h)) t) as Hin.
  { destruct (rows_where _ t); simplify_eq/=; left. }
  apply elem_of_rows_where in Hin as [? ?%bool_decide_eq_true]. done.
Qed.

(** A row-wise update that keeps the chain and never clears a kill. *)
Lemma update_where_killed c P f t :
  (forall r, chain_id (f r) = chain_id r) -> (forall r, unkilled r = false -> unkilled (f r) = false) ->
  killed c t -> killed c (update_where P f t).
Proof.
  intros Hc Hf Hk id r. unfold update_where. simpl. rewrite lookup_fmap.
  destruct (tokens t !! id) as [r0|] eqn:E; simpl; [|done]. intros [= <-].
  destruct (P r0); [rewrite Hc; intros Hr; apply Hf|intros Hr]; by apply (Hk id).
Qed.

Lemma put_killed c id r r0 t :
  tokens t !! id = Some r0 -> chain_id r = chain_id r0 -> (unkilled r0 = false -> unkilled r = false) ->
  killed c t -> killed c (mkTokens (<[id := r]> (tokens t)) (tseq t)).
Proof.
  intros H0 Hc Hu Hk i r'. simpl. rewrite lookup_insert. case_decide; intros; simplify_eq; [|by eapply Hk].
  apply Hu. by apply (Hk i).
Qed.

Lemma set_idle_unkilled at_ r : unkilled (set_idle_revoked at_ r) = false.
Proof. unfold unkilled. simpl. apply andb_false_r. Qed.

Lemma set_revoked_unkilled at_ r : unkilled (set_revoked at_ r) = false.
Proof. done. Qed.

Lemma revoke_chain_kills at_ c t : killed c (revoke_chain at_ c t).2.
Proof.
  intros id r. simpl. rewrite lookup_fmap. destruct (tokens t !! id) as [r0|]; simpl; [|done].
  unfold in_chain. intros [= <-]. case_bool_decide as Hc; simpl; [|done].
  destruct (revoked_at r0) eqn:E; simpl; [intros _; unfold unkilled; by rewrite E|done].
Qed.

Lemma idle_revoke_kills at_ c t : killed c (idle_revoke_chain at_ c t).2.
Proof.
  intros id r. simpl. rewrite lookup_fmap. destruct (tokens t !! id) as [r0|]; simpl; [|done].
  unfold in_chain. intros [= <-]. case_bool_decide as Hc; simpl; [|done].
  destruct (idle_revoked_at r0) eqn:E1, (revoked_at r0) eqn:E2; simpl; intros _; unfold unkilled;
    simpl; rewrite ?E1, ?E2; done.
Qed.

Lemma killed_not_live c t id r now :
  killed c t -> tokens t !! id = Some r -> chain_id r = c -> is_live_at r now = false.
Proof.
  intros Hk Hr Hc. specialize (Hk id r Hr Hc). unfold is_live_at. unfold unkilled in Hk.
  destruct (rotated_at r), (revoked_at r), (idle_revoked_at r); done.
Qed.

Lemma killed_max c t : killed c t -> max_chain_last_active_at c t = None.
Proof.
  intros Hk. unfold max_chain_last_active_at. replace (rows_where _ t) with (@nil (Z * RefreshToken)); [done|].
  symmetry. apply rows_where_nil. intros id r Hr. unfold in_chain. case_bool_decide; [|done].
  by apply (Hk id).
Qed.

(** The operations other than an insertion keep a chain killed. *)
Lemma revoke_chain_killed c at_ c' : preserves (killed c) (revoke_chain at_ c').
Proof. intros t. by apply update_where_killed. Qed.
Lemma idle_revoke_killed c at_ c' : preserves (killed c) (idle_revoke_chain at_ c').
Proof. intros t. apply update_where_killed; [done|]. intros r _. apply set_idle_unkilled. Qed.
Lemma bump_killed c at_ c' : preserves (killed c) (bump_refresh_chain_active_at at_ c').
Proof. intros t. by apply update_where_killed. Qed.
Lemma rotate_killed c at_ id : preserves (killed c) (mark_refresh_token_rotated at_ id).
Proof. intros t Hk. unfold mark_refresh_token_rotated. case_match eqn:E; [|done]. by eapply put_killed. Qed.
Lemma revoke_one_killed c at_ id : preserves (killed c) (revoke_refresh_token at_ id).
Proof. intros t Hk. unfold revoke_refresh_token. case_match eqn:E; [|done]. by eapply put_killed. Qed.
Lemma sweep_killed c now : preserves (killed c) (delete_expired_refresh_tokens now).
Proof.
  intros t Hk id r. simpl. intros [Hr _]%map_lookup_filter_Some. by apply (Hk id).
Qed.
Lemma insert_killed c now n : nt_chain_id n <> c -> preserves (killed c) (insert_refresh_token now n).
Proof.
  intros Hn t Hk. unfold insert_refresh_token. case_bool_decide; [done|]. intros id r. simpl.
  rewrite lookup_insert. case_decide; intros; simplify_eq; by eapply Hk.
Qed.

#[export] Hint Resolve revoke_chain_killed idle_revoke_killed bump_killed rotate_killed
  revoke_one_killed sweep_killed insert_killed : nexus.

(** ** A spent token *)

(** A row with the hash is of the chain, and was rotated or revoked. *)
Definition spent (h c : string) (t : TokenTable) : Prop :=
  forall id r, tokens t !! id = Some r -> token_hash r = h ->
    chain_id r = c /\ is_some (rotated_at r) || is_some (revoked_at r) = true.

Lemma update_where_spent h c P f t :
  (forall r, token_hash (f r) = token_hash r /\ chain_id (f r) = chain_id r) ->
  (forall r, is_some (rotated_at r) || is_some (revoked_at r) = true -> is_some (rotated_at (f r)) || is_some (revoked_at (f r)) = true) ->
  spent h c t -> spent h c (update_where P f t).
Proof.
  intros Hc Hf Hk id r. unfold update_where. simpl. rewrite lookup_fmap.
  destruct (tokens t !! id) as [r0|] eqn:E; simpl; [|done]. intros [= <-].
  destruct (Hc r0) as [Hh Hci]. destruct (P r0); [rewrite Hh, Hci; intros Hr; split; [|apply Hf]|intros Hr]; by apply (Hk id).
Qed.

Lemma put_spent h c id r r0 t :
  tokens t !! id = Some r0 -> token_hash r = token_hash r0 -> chain_id r = chain_id r0 -> is_some (rotated_at r) || is_some (revoked_at r) = true ->
  spent h c t -> spent h c (mkTokens (<[id := r]> (tokens t)) (tseq t)).
Proof.
  intros H0 Hh Hc Hu Hk i r'. simpl. rewrite lookup_insert. case_decide; intros; simplify_eq; [|by eapply Hk].
  split; [|done]. rewrite Hc. apply (Hk i r0); [done|congruence].
Qed.

Lemma revoke_chain_spent h c at_ c' : preserves (spent h c) (revoke_chain at_ c').
Proof. intros t. apply update_where_spent; [done|]. intros r _. simpl. apply orb_true_r. Qed.
Lemma idle_revoke_spent h c at_ c' : preserves (spent h c) (idle_revoke_chain at_ c').
Proof. intros t. by apply update_where_spent. Qed.
Lemma bump_spent h c at_ c' : preserves (spent h c) (bump_refresh_chain_active_at at_ c').
Proof. intros t. by apply update_where_spent. Qed.
Lemma rotate_spent h c at_ id : preserves (spent h c) (mark_refresh_token_rotated at_ id).
Proof. intros t Hk. unfold mark_refresh_token_rotated. case_match eqn:E; [|done]. by eapply put_spent. Qed.
Lemma revoke_one_spent h c at_ id : preserves (spent h c) (revoke_refresh_token at_ id).
Proof. intros t Hk. unfold revoke_refresh_token. case_match eqn:E; [|done]. eapply put_spent; [done..| |done]. simpl. apply orb_true_r. Qed.
Lemma sweep_spent h c now : preserves (spent h c) (delete_expired_refresh_tokens now).
Proof. intros t Hk id r. simpl. intros [Hr _]%map_lookup_filter_Some. by apply (Hk id). Qed.
Lemma insert_spent h c now n : nt_token_hash n <> h -> preserves (spent h c) (insert_refresh_token now n).
Proof.
  intros Hn t Hk. unfold insert_refresh_token. case_bool_decide; [done|]. intros id r. simpl.
  rewrite lookup_insert. case_decide; intros; simplify_eq; by eapply Hk.
Qed.

#[export] Hint Resolve revoke_chain_spent idle_revoke_spent bump_spent rotate_spent
  revoke_one_spent sweep_spent insert_spent : nexus.

(** ** Hashes are unique *)

Record tokens_ok (t : TokenTable) : Prop := {
  tids_ok : forall id r, tokens t !! id = Some r -> id <= tseq t;
  hashes_unique : forall i j r q, tokens t !! i = Some r -> tokens t !! j = Some q ->
    token_hash r = token_hash q -> i = j;
}.

Lemma get_by_hash_unique t id r :
  tokens_ok t -> tokens t !! id = Some r ->
  get_refresh_token_by_hash (token_hash r) t = Some (id, r).
Proof.
  intros [_ Hu] Hr. destruct (get_refresh_token_by_hash (token_hash r) t) as [[i q]|] eqn:E.
  - apply get_by_hash in E as [Hq He]. assert (i = id) as -> by eauto. simplify_eq. done.
  - exfalso. assert ((id, r) ∈ rows_where (fun q => bool_decide (token_hash q = token_hash r)) t) as Hin
      by (apply elem_of_rows_where; split; [done|by apply bool_decide_eq_true]).
    unfold get_refresh_token_by_hash in E. destruct (rows_where _ t); [by apply elem_of_nil in Hin|done].
Qed.

Lemma insert_ok now n t p t' :
  tokens_ok t -> insert_refresh_token now n t = (Ok p, t') ->
  tokens_ok t' /\ t' = mkTokens (<[p.1 := p.2]> (tokens t)) p.1 /\ tokens t !! p.1 = None /\
  p.2 = mkToken (nt_token_hash n) (nt_user_id n) (nt_chain_id n) (nt_parent_id n)
          (nt_expires_at n) None None (nt_user_agent n) (nt_ip n) now (Some now) None.
Proof.
  intros [Hi Hu]. unfold insert_refresh_token. case_bool_decide as Hc; [done|]. intros [= <- <-]. simpl.
  assert (forall i r, tokens t !! i = Some r -> token_hash r <> nt_token_hash n) as Hnew.
  { intros i r Hr Heq. rewrite rows_where_nil in Hc.
    specialize (Hc i r Hr). by apply bool_decide_eq_false in Hc. }
  assert (tokens t !! (tseq t + 1) = None) as Hn.
  { destruct (tokens t !! (tseq t + 1)) eqn:E; [|done]. apply Hi in E. lia. }
  split_and!; [|done..]. split; simpl.
  - intros id r. rewrite lookup_insert. case_decide; intros; simplify_eq; [lia|].
    specialize (Hi id r ltac:(done)). lia.
  - intros i j r q. rewrite !lookup_insert. do 2 case_decide; intros; simplify_eq/=; eauto.
    + exfalso. eapply Hnew; [|symmetry]; done.
    + exfalso. by eapply Hnew.
Qed.

Lemma put_tokens_ok id r r0 t :
  tokens_ok t -> tokens t !! id = Some r0 -> token_hash r = token_hash r0 ->
  tokens_ok (mkTokens (<[id := r]> (tokens t)) (tseq t)).
Proof.
  intros [Hi Hu] H0 Hh. split; simpl.
  - intros i q. rewrite lookup_insert. case_decide; intros; simplify_eq; eauto.
  - intros i j q p. rewrite !lookup_insert. do 2 case_decide; intros; simplify_eq/=; eauto.
    + eapply Hu; eauto. congruence.
    + eapply Hu; eauto. congruence.
Qed.
