(* ===== verification/Login.v ===== *)
(** Local login and sessions, [nexus-engine/src/auth/login.rs] with the password policy of
    [passwords.rs] and the token claims of [sessions.rs]: the five handlers as programs over the
    store, each with its clock readings and random draws as arguments. An instant is a number
    of nanoseconds. What the handlers take from other crates (argon2, SHA-256, the JWT encoder)
    are the section's parameters; a failed random draw or encoding is a [None]. *)
From Stdlib Require Import Ascii.
From stdpp Require Import pretty.
From S2P Require Import Prelude Text Types AuditLog Users Lockout Sessions.

(** ** Constants *)

Definition minutes (m : Z) : Z := secs (60 * m).
Definition ACCESS_TOKEN_TTL : Z := minutes 15.
Definition REFRESH_TOKEN_TTL : Z := secs (30 * 86400).
Definition IDLE_TIMEOUT : Z := minutes 20.
Definition SESSION_COOKIE_NAME : string := "__Host-nexus_session".
Definition BOOTSTRAP_USERNAME : string := "admin".
Definition MIN_PASSWORD_LEN : Z := 12.

(** ** Data *)

Inductive PasswordPolicyError := TooShort | Common.
Inductive PasswordError := Argon2 | Policy (p : PasswordPolicyError).

Inductive AuthApiError :=
| InvalidCredentials
| PasswordPolicy (p : PasswordPolicyError)
| AuthNotConfigured
| FirstRunAlreadyComplete
| FirstRunModeDisallowed
| PasswordHash
| SessionInternal
| StoreFailed
| UsersFailed (e : UsersError)
| IdleExpired (idle_seconds : Z).

(** [into_response]: the status and the [error] code of the body. *)
Definition into_response (e : AuthApiError) : Z * string :=
  match e with
  | InvalidCredentials => (401, "invalid_credentials")
  | PasswordPolicy _ => (400, "password_policy")
  | AuthNotConfigured => (503, "auth_not_configured")
  | FirstRunAlreadyComplete => (409, "first_run_already_complete")
  | FirstRunModeDisallowed => (403, "first_run_mode_disallowed")
  | IdleExpired n => (401, "session idle: " +:+ pretty n +:+ "s since last activity")
  | PasswordHash | SessionInternal | StoreFailed | UsersFailed _ => (500, "internal")
  end.

Definition from_password_error (e : PasswordError) : AuthApiError :=
  match e with Argon2 => PasswordHash | Policy p => PasswordPolicy p end.

Definition from_sessions_error (e : SessionsError) : AuthApiError :=
  match e with SStore => StoreFailed | _ => SessionInternal end.

Record AccessClaims := mkClaims {
  sub : string;
  claim_role : Role;
  iat : Z;
  exp : Z;
  jti : string;
  claim_chain : option string;
}.

Record SessionUser := mkSessionUser {
  su_id : Z;
  su_username : string;
  su_role : Role;
  su_force_password_reset : bool;
}.

Record TokenResponse := mkResponse {
  access_token : string;
  refresh_token : string;
  expires_in : Z;
  refresh_expires_in : Z;
  user : SessionUser;
  set_cookie : string;
}.

Inductive AuthMode := ModeLocal | ModeOidc | ModeHybrid.
Definition allows_local (m : AuthMode) : bool :=
  match m with ModeLocal | ModeHybrid => true | ModeOidc => false end.
Definition allows_oidc (m : AuthMode) : bool :=
  match m with ModeOidc | ModeHybrid => true | ModeLocal => false end.

(** The part of [LoginState] that is not the store. *)
Record LoginConfig := mkLoginConfig {
  admin_secret : option string;
  lockout : LockoutConfig;
  auth_mode : AuthMode;
}.

(** The three tables the handlers write. *)
Record Db := mkDb { d_users : UsersTable; d_tokens : TokenTable; d_audit : AuditLog }.

Definition H (A : Type) : Type := SE Db AuthApiError A.

Definition on_users {A} (m : UsersM A) : H A :=
  part d_users (fun u d => mkDb u (d_tokens d) (d_audit d)) UsersFailed m.
Definition on_tokens {A} (m : SessionsM A) : H A :=
  part d_tokens (fun t d => mkDb (d_users d) t (d_audit d)) from_sessions_error m.
Definition audit (now : Z) (e : NewAuditEntry) : H unit :=
  modify (fun d => mkDb (d_users d) (d_tokens d) (record_audit_event now e (d_audit d))).

(** The calls a request makes of the store. *)
Inductive StoreCall :=
| CFindUser | CFindHash | CLoginFailure | CLoginSuccess | CCountUsers | CCreateUser | CUpdatePassword
| CFindToken | CPeak | CInsertToken | CRotate | CListTokens
| CIdleRevoke (chain : string) | CRevokeChain (chain : string)
| CAudit (action : string).

(** What a request draws: the clocks of the handler and of the store, the id of a new chain and
    of a new access token, the random refresh secret, and which of its store calls succeed. *)
Record Draw := mkDraw {
  now : Z;
  db_now : Z;
  fresh_chain : string;
  fresh_jti : string;
  fresh_secret : option string;
  store_up : StoreCall -> bool;
}.

(** A call of the store; its failure ends the request. *)
Definition call {A} (dr : Draw) (k : StoreCall) (m : H A) : H A := if store_up dr k then m else throw StoreFailed.

(** Every call of the store succeeds. *)
Definition healthy (dr : Draw) : Prop := forall k, store_up dr k = true.

(** A call whose failure is only logged. *)
Definition logged {A} (dr : Draw) (k : StoreCall) (m : H A) : H unit := ignore_err (call dr k m).

Definition build_session_cookie (token : string) (ttl : Z) : string :=
  SESSION_COOKIE_NAME +:+ "=" +:+ token +:+ "; Max-Age=" +:+
  pretty (Z.max 0 (Z.quot ttl ns_per_sec)) +:+ "; Path=/; HttpOnly; Secure; SameSite=Lax".

Definition build_clear_session_cookie : string :=
  SESSION_COOKIE_NAME +:+ "=; Max-Age=0; Path=/; HttpOnly; Secure; SameSite=Lax".

(** [X-Forwarded-For]'s first hop, when there is one, else the peer. *)
Definition extract_client_ip (xff : option string) (peer : string) : string :=
  match xff with
  | Some v =>
      match head (split ","%char v) with
      | Some first => if str_eqb (trim first) "" then peer else trim first
      | None => peer
      end
  | None => peer
  end.

Definition record_action_audit (dr : Draw) (uid : Z) (name act : string) (o : AuditOutcome) (c : Client) : H unit :=
  logged dr (CAudit act) (audit (db_now dr)
    (mkEntry (Some LocalUser) (Some (pretty uid)) name act None None None None o (Some (c_ip c)) (c_ua c))).

Definition record_lockout_audit (dr : Draw) (uid : Z) (name : string) : H unit :=
  logged dr (CAudit "lockout.tripped") (audit (db_now dr)
    (mkEntry (Some LocalUser) (Some (pretty uid)) name "lockout.tripped" None None None None Success None None)).

Definition record_login_failure_audit (dr : Draw) (name : string) (c : Client) : H unit :=
  logged dr (CAudit "login.failure") (audit (db_now dr) (login_failure name c)).

Definition record_login_success_audit (dr : Draw) (uid : Z) (name : string) (c : Client) : H unit :=
  logged dr (CAudit "login.success") (audit (db_now dr) (login_success LocalUser (Some (pretty uid)) name c)).

Section handlers.
(** [argon2]'s check and hash, the denylist of [common_passwords.txt], SHA-256 in hex and
    the HS256 encoder. *)
Context (verify : string -> string -> bool) (argon2 : string -> option string).
Context (common_passwords : list string) (sha256_hex : string -> string).
Context (jwt : AccessClaims -> string -> option string).

Definition is_common_password (plain : string) : bool :=
  bool_decide (to_lowercase plain ∈ common_passwords).

Definition check_password_policy (plain : string) : result unit PasswordPolicyError :=
  if chars_count plain <? MIN_PASSWORD_LEN then Err TooShort
  else if is_common_password plain then Err Common
  else Ok tt.

Definition hash_password (plain : string) : result string PasswordError :=
  match check_password_policy plain with
  | Err p => Err (Policy p)
  | Ok _ => match argon2 plain with Some h => Ok h | None => Err Argon2 end
  end.

Definition hashed (plain : string) : H string :=
  match hash_password plain with Ok h => mret h | Err e => throw (from_password_error e) end.

Definition issue_access_token (uid : Z) (r : Role) (secret : string) (t ttl : Z) (id : string)
    (chain : option string) : option string :=
  jwt (mkClaims (pretty uid) r (t / ns_per_sec) ((t + ttl) / ns_per_sec) id chain) secret.

Definition make_token_response (access refresh : string) (u : SessionUser) : TokenResponse :=
  mkResponse access refresh (Z.quot ACCESS_TOKEN_TTL ns_per_sec)
    (Z.quot REFRESH_TOKEN_TTL ns_per_sec) u (build_session_cookie access ACCESS_TOKEN_TTL).

Definition mint_refresh_row (uid : Z) (chain : string) (parent : option Z) (dr : Draw) (c : Client)
    : H (string * Z) :=
  secret ← get_some (fresh_secret dr) (throw SessionInternal);
  row ← call dr CInsertToken (on_tokens (insert_refresh_token (db_now dr)
    (mkNewToken (sha256_hex secret) uid chain parent (now dr + REFRESH_TOKEN_TTL) (c_ua c) (Some (c_ip c)))));
  mret (secret, row.1).

(** ** [post_login] *)

Definition reject_login (dr : Draw) (name : string) (c : Client) {A} : H A :=
  record_login_failure_audit dr name c ;; throw InvalidCredentials.

Definition post_login (cfg : LoginConfig) (dr : Draw) (c : Client) (name password : string)
    : H TokenResponse :=
  secret ← get_some (admin_secret cfg) (throw AuthNotConfigured);
  let username := to_lowercase (trim name) in
  found ← call dr CFindUser (gets (fun d => get_user_by_username username (d_users d)));
  '(_, u) ← get_some found (reject_login dr username c);
  if disabled u || is_deleted u then reject_login dr username c
  else if is_locked (now dr) u then reject_login dr username c
  else
    creds ← call dr CFindHash (gets (fun d => get_password_hash_for_login username (d_users d)));
    '(id, phc) ← get_some creds (reject_login dr username c);
    if negb (verify password phc) then
      let o := evaluate_failure (now dr) u (lockout cfg) in
      call dr CLoginFailure (on_users (record_login_failure (db_now dr) id (new_count o) (lock_until o))) ;;
      (if lockout_tripped o then record_lockout_audit dr id username else mret tt) ;;
      reject_login dr username c
    else
      call dr CLoginSuccess (on_users (record_login_success (db_now dr) id)) ;;
      record_login_success_audit dr id username c ;;
      access ← get_some (issue_access_token id (role u) secret (now dr) ACCESS_TOKEN_TTL (fresh_jti dr)
                           (Some (fresh_chain dr))) (throw SessionInternal);
      '(refresh, _) ← mint_refresh_row id (fresh_chain dr) None dr c;
      mret (make_token_response access refresh
              (mkSessionUser id (Users.username u) (role u) (force_password_reset u))).

(** ** [post_refresh], in the part that decides and the part that writes *)

Definition refresh_check (cfg : LoginConfig) (dr : Draw) (presented : string)
    : H (string * (Z * RefreshToken) * User) :=
  secret ← get_some (admin_secret cfg) (throw AuthNotConfigured);
  found ← call dr CFindToken (gets (fun d => get_refresh_token_by_hash (sha256_hex presented) (d_tokens d)));
  '(rid, row) ← get_some found (throw InvalidCredentials);
  let revoke := logged dr (CRevokeChain (chain_id row)) (on_tokens (revoke_chain (now dr) (chain_id row))) in
  peak ← call dr CPeak (gets (fun d => max_chain_last_active_at (chain_id row) (d_tokens d)));
  match peak with
  | Some p =>
      let idle := now dr - p in
      if IDLE_TIMEOUT <? idle then
        logged dr (CIdleRevoke (chain_id row)) (on_tokens (idle_revoke_chain (now dr) (chain_id row))) ;;
        throw (IdleExpired (Z.quot idle ns_per_sec))
      else mret tt
  | None => mret tt
  end ;;
  if is_some (rotated_at row) || is_some (revoked_at row) then revoke ;; throw InvalidCredentials
  else if negb (is_live_at row (now dr)) then throw InvalidCredentials
  else
    found ← call dr CFindUser (gets (fun d => get_user_by_id (user_id row) (d_users d)));
    u ← get_some found (revoke ;; throw InvalidCredentials);
    if disabled u || is_deleted u then revoke ;; throw InvalidCredentials
    else mret (secret, (rid, row), u).

Definition refresh_commit (dr : Draw) (c : Client) (x : string * (Z * RefreshToken) * User)
    : H TokenResponse :=
  let '(secret, (rid, row), u) := x in
  let uid := user_id row in
  access ← get_some (issue_access_token uid (role u) secret (now dr) ACCESS_TOKEN_TTL (fresh_jti dr)
                       (Some (chain_id row))) (throw SessionInternal);
  '(refresh, _) ← mint_refresh_row uid (chain_id row) (Some rid) dr c;
  logged dr CRotate (on_tokens (mark_refresh_token_rotated (now dr) rid)) ;;
  record_action_audit dr uid (Users.username u) "session.refresh" Success c ;;
  mret (make_token_response access refresh
          (mkSessionUser uid (Users.username u) (role u) (force_password_reset u))).

Definition post_refresh (cfg : LoginConfig) (dr : Draw) (c : Client) (presented : string) : H TokenResponse :=
  x ← refresh_check cfg dr presented; refresh_commit dr c x.

(** ** The other handlers *)

(** Always 204 with a cleared cookie. *)
Definition post_logout (dr : Draw) (refresh : option string) : H string :=
  match refresh with
  | Some s =>
      ignore_err (
        found ← call dr CFindToken (gets (fun d => get_refresh_token_by_hash (sha256_hex s) (d_tokens d)));
        match found with
        | Some (_, row) => logged dr (CRevokeChain (chain_id row)) (on_tokens (revoke_chain (now dr) (chain_id row)))
        | None => mret tt
        end)
  | None => mret tt
  end ;;
  mret build_clear_session_cookie.

(** Every live session of the user, revoked by chain. *)
Definition revoke_all (dr : Draw) (uid : Z) : H unit :=
  live ← call dr CListTokens (gets (fun d => list_active_refresh_tokens_for_user uid (now dr) (d_tokens d)));
  iter_m (fun e => logged dr (CRevokeChain (chain_id e.2)) (on_tokens (revoke_chain (now dr) (chain_id e.2)))) live.

(** [is_legacy] and [ctx_user_id] are the fields of the [SessionContext] read here. *)
Definition post_change_password (dr : Draw) (c : Client) (is_legacy : bool) (ctx_user_id : Z)
    (old_password new_password : string) : H unit :=
  if is_legacy || (ctx_user_id =? 0) then throw InvalidCredentials
  else
    found ← call dr CFindUser (gets (fun d => get_user_by_id ctx_user_id (d_users d)));
    u ← get_some found (throw InvalidCredentials);
    creds ← call dr CFindHash (gets (fun d => get_password_hash_for_login (Users.username u) (d_users d)));
    '(id, phc) ← get_some creds (throw InvalidCredentials);
    if negb (verify old_password phc) then
      record_action_audit dr id (Users.username u) "password.change" Failure c ;;
      throw InvalidCredentials
    else
      h ← hashed new_password;
      call dr CUpdatePassword (on_users (update_user_password (db_now dr) id h false)) ;;
      revoke_all dr id ;;
      record_action_audit dr id (Users.username u) "password.change" Success c.

Definition first_run_username (name : option string) : string :=
  to_lowercase (match name with
                | Some s => if str_eqb (trim s) "" then BOOTSTRAP_USERNAME else trim s
                | None => BOOTSTRAP_USERNAME
                end).

Definition post_first_run_setup (cfg : LoginConfig) (dr : Draw) (c : Client)
    (name : option string) (password : string) : H TokenResponse :=
  guard_err (allows_local (auth_mode cfg)) FirstRunModeDisallowed ;;
  secret ← get_some (admin_secret cfg) (throw AuthNotConfigured);
  n ← call dr CCountUsers (gets (fun d => count_users (d_users d)));
  guard_err (negb (0 <? n)) FirstRunAlreadyComplete ;;
  let username := first_run_username name in
  h ← hashed password;
  uid ← call dr CCreateUser (part d_users (fun u d => mkDb u (d_tokens d) (d_audit d))
          (fun e => match e with UsernameTaken => FirstRunAlreadyComplete | e => UsersFailed e end)
          (create_user (db_now dr) (mkNewUser username Admin (Some h) None false)));
  record_action_audit dr uid username "setup.first_run" Success c ;;
  call dr CLoginSuccess (on_users (record_login_success (db_now dr) uid)) ;;
  record_login_success_audit dr uid username c ;;
  access ← get_some (issue_access_token uid Admin secret (now dr) ACCESS_TOKEN_TTL (fresh_jti dr)
                       (Some (fresh_chain dr))) (throw SessionInternal);
  '(refresh, _) ← mint_refresh_row uid (fresh_chain dr) None dr c;
  mret (make_token_response access refresh (mkSessionUser uid username Admin false)).
End handlers.

(** ** Sequences of requests *)

(** A request, or one of the background writes on the token table: the coalesced idle bump, the
    retention sweep and an administrator's revocation of one row. *)
Inductive AuthOp :=
| Login (dr : Draw) (c : Client) (name password : string)
| Refresh (dr : Draw) (c : Client) (presented : string)
| Logout (dr : Draw) (presented : option string)
| ChangePassword (dr : Draw) (c : Client) (is_legacy : bool) (uid : Z) (old new : string)
| FirstRun (dr : Draw) (c : Client) (name : option string) (password : string)
| OnUsers (op : Z * UserOp)
| Bump (t : Z) (chain : string)
| Sweep (t : Z)
| RevokeOne (t : Z) (id : Z).

Section auth_run.
Context (verify : string -> string -> bool) (argon2 : string -> option string).
Context (common_passwords : list string) (sha256_hex : string -> string).
Context (jwt : AccessClaims -> string -> option string) (fmt_ts : Z -> string).
Context (cfg : LoginConfig).

Definition auth_op (o : AuthOp) : H unit :=
  match o with
  | Login dr c n p => post_login verify sha256_hex jwt cfg dr c n p ;; mret tt
  | Refresh dr c s => post_refresh sha256_hex jwt cfg dr c s ;; mret tt
  | Logout dr s => post_logout sha256_hex dr s ;; mret tt
  | ChangePassword dr c l uid o n => post_change_password verify argon2 common_passwords dr c l uid o n
  | FirstRun dr c n p => post_first_run_setup argon2 common_passwords sha256_hex jwt cfg dr c n p ;; mret tt
  | OnUsers op => on_users (run_op fmt_ts op.1 op.2)
  | Bump t chain => on_tokens (bump_refresh_chain_active_at t chain) ;; mret tt
  | Sweep t => on_tokens (delete_expired_refresh_tokens t) ;; mret tt
  | RevokeOne t id => on_tokens (revoke_refresh_token t id)
  end.

#[export] Instance auth_machine : Machine AuthOp Db (result unit AuthApiError) :=
  fun o d => let '(r, d') := auth_op o d in (d', r).
End auth_run.

(** ** Running handlers *)

(** A property of the token table that every write but an insertion keeps. *)
Class TokenInv (J : TokenTable -> Prop) : Prop := {
  j_revoke_chain : forall at_ c, preserves J (revoke_chain at_ c);
  j_idle_revoke : forall at_ c, preserves J (idle_revoke_chain at_ c);
  j_bump : forall at_ c, preserves J (bump_refresh_chain_active_at at_ c);
  j_rotate : forall at_ id, preserves J (mark_refresh_token_rotated at_ id);
  j_revoke_one : forall at_ id, preserves J (revoke_refresh_token at_ id);
  j_sweep : forall t, preserves J (delete_expired_refresh_tokens t);
}.

#[export] Instance killed_inv c : TokenInv (killed c).
Proof. split; auto with nexus. Qed.

#[export] Instance spent_inv h c : TokenInv (spent h c).
Proof. split; auto with nexus. Qed.

Definition on_table (J : TokenTable -> Prop) (d : Db) : Prop := J (d_tokens d).
Abbreviation chain_killed c := (on_table (killed c)).

(** Splits a handler along its binds and branches and closes the steps the hints know. *)
Ltac step_preserves :=
  repeat first
    [ solve [auto with nexus]
    | match goal with
      | |- preserves _ (get_some _ _) => apply preserves_some
      | |- preserves _ (ignore_err _) => apply preserves_ignore
      | |- preserves _ (iter_m _ _) => apply preserves_iter; intros ?
      end
    | apply preserves_bind; [|intros ?] ];
  repeat match goal with
         | |- preserves _ (match ?x with _ => _ end) => destruct x
         | |- preserves _ (let '_ := ?x in _) => destruct x
         end;
  auto with nexus.

Ltac solve_preserves := repeat (progress (step_preserves; simpl)).

Section keeps.
Context (verify : string -> string -> bool) (argon2 : string -> option string).
Context (common_passwords : list string) (sha256_hex : string -> string).
Context (jwt : AccessClaims -> string -> option string).
Context (J : TokenTable -> Prop) `{!TokenInv J}.

Local Abbreviation kept := (preserves (on_table J)).
Local Abbreviation login := (post_login verify sha256_hex jwt).
Local Abbreviation refresh := (post_refresh sha256_hex jwt).
Local Abbreviation mint := (mint_refresh_row sha256_hex).
Local Abbreviation change_password := (post_change_password verify argon2 common_passwords).
Local Abbreviation first_run := (post_first_run_setup argon2 common_passwords sha256_hex jwt).

Lemma users_kept {A} (m : UsersM A) : kept (on_users m).
Proof. by apply (preserves_part _ (fun _ => True)). Qed.

Lemma tokens_kept {A} (m : SessionsM A) : preserves J m -> kept (on_tokens m).
Proof. intros Hm. by apply (preserves_part _ J). Qed.

Lemma audit_kept t e : kept (audit t e).
Proof. by apply preserves_modify. Qed.

Lemma call_kept {A} dr k (m : H A) : kept m -> kept (call dr k m).
Proof. intros Hm d Hd. unfold call. destruct (store_up dr k); [by apply Hm|done]. Qed.

Lemma logged_kept {A} dr k (m : H A) : kept m -> kept (logged dr k m).
Proof. intros Hm. by apply preserves_ignore, call_kept. Qed.

Hint Resolve users_kept tokens_kept audit_kept call_kept logged_kept j_revoke_chain j_idle_revoke j_bump j_rotate j_revoke_one j_sweep : nexus.

Lemma lockout_audit_kept dr uid name : kept (record_lockout_audit dr uid name).
Proof. unfold record_lockout_audit. auto with nexus. Qed.

Lemma action_audit_kept dr uid name act o cl : kept (record_action_audit dr uid name act o cl).
Proof. unfold record_action_audit. auto with nexus. Qed.

Lemma success_audit_kept dr uid name cl : kept (record_login_success_audit dr uid name cl).
Proof. unfold record_login_success_audit. auto with nexus. Qed.

Lemma failure_audit_kept dr name cl : kept (record_login_failure_audit dr name cl).
Proof. unfold record_login_failure_audit. auto with nexus. Qed.
Hint Resolve failure_audit_kept : nexus.

Lemma reject_kept {A} dr name cl : kept (reject_login dr name cl (A:=A)).
Proof. unfold reject_login. solve_preserves. Qed.

Hint Resolve lockout_audit_kept action_audit_kept success_audit_kept reject_kept : nexus.

(** The rows a request may insert keep the property. *)
Definition row_kept (chain : string) (dr : Draw) : Prop :=
  forall s uid parent c, fresh_secret dr = Some s ->
    preserves J (insert_refresh_token (db_now dr) (mkNewToken (sha256_hex s) uid chain parent (now dr + REFRESH_TOKEN_TTL) (c_ua c) (Some (c_ip c)))).

Lemma mint_kept uid chain parent dr cl : row_kept chain dr -> kept (mint uid chain parent dr cl).
Proof.
  intros Hr. unfold mint_refresh_row. destruct (fresh_secret dr) as [s|] eqn:E; [|by intros d].
  change (kept (row ← call dr CInsertToken (on_tokens (insert_refresh_token (db_now dr)
    (mkNewToken (sha256_hex s) uid chain parent (now dr + REFRESH_TOKEN_TTL) (c_ua cl) (Some (c_ip cl))))); mret (s, row.1))).
  apply preserves_bind; [|solve_preserves]. by apply call_kept, tokens_kept, Hr.
Qed.
Hint Resolve mint_kept : nexus.

Lemma login_kept cfg dr cl name password : row_kept (fresh_chain dr) dr -> kept (login cfg dr cl name password).
Proof. intros Hc. unfold post_login. solve_preserves. Qed.

Lemma refresh_check_ok cfg dr s d x d' :
  refresh_check sha256_hex cfg dr s d = (Ok x, d') ->
  exists secret rid row u, x = (secret, (rid, row), u) /\ d' = d /\
    get_refresh_token_by_hash (sha256_hex s) (d_tokens d) = Some (rid, row) /\
    is_live_at row (now dr) = true.
Proof.
  unfold refresh_check, logged, ignore_err, call, mbind, se_bind, gets, get_some, throw, mret, se_ret.
  intros Hx. repeat (case_match; simplify_eq/=); try done; eauto 10.
  all: match goal with E : negb ?b = false |- _ => apply negb_false_iff in E; eauto 10 end.
Qed.

Lemma check_kept cfg dr s : kept (refresh_check sha256_hex cfg dr s).
Proof. unfold refresh_check. solve_preserves. Qed.

(** A row is inserted only for a token that is live. *)
Lemma refresh_kept cfg dr cl s :
  (forall t rid row, J t -> get_refresh_token_by_hash (sha256_hex s) t = Some (rid, row) -> is_live_at row (now dr) = true -> row_kept (chain_id row) dr) ->
  kept (refresh cfg dr cl s).
Proof.
  intros Hrow d Hk. unfold post_refresh, mbind, se_bind. pose proof (check_kept cfg dr s d Hk) as Hk1.
  destruct (refresh_check sha256_hex cfg dr s d) as [[x|e] d1] eqn:E; [|exact Hk1].
  apply refresh_check_ok in E as (secret & rid & row & u & -> & -> & Hg & Hl). specialize (Hrow _ _ _ Hk Hg Hl).
  clear Hk1 Hg Hl. revert d Hk. unfold refresh_commit. solve_preserves.
Qed.

Lemma logout_kept dr s : kept (post_logout sha256_hex dr s).
Proof. unfold post_logout. solve_preserves. Qed.

Lemma revoke_all_kept dr uid : kept (revoke_all dr uid).
Proof. unfold revoke_all. solve_preserves. Qed.
Hint Resolve revoke_all_kept : nexus.

Lemma hashed_kept plain : kept (hashed argon2 common_passwords plain).
Proof. unfold hashed. solve_preserves. Qed.
Hint Resolve hashed_kept : nexus.

Lemma change_password_kept dr cl leg uid old new : kept (change_password dr cl leg uid old new).
Proof. unfold post_change_password. solve_preserves. Qed.

Lemma first_run_kept cfg dr cl name password : row_kept (fresh_chain dr) dr -> kept (first_run cfg dr cl name password).
Proof. intros Hc. unfold post_first_run_setup. solve_preserves. all: apply call_kept; by apply (preserves_part _ (fun _ => True)). Qed.

(** What a step of a run may insert. *)
Definition op_kept (o : AuthOp) : Prop :=
  match o with
  | Login dr _ _ _ | FirstRun dr _ _ _ => row_kept (fresh_chain dr) dr
  | Refresh dr _ s => forall t rid row, J t -> get_refresh_token_by_hash (sha256_hex s) t = Some (rid, row) ->
      is_live_at row (now dr) = true -> row_kept (chain_id row) dr
  | _ => True
  end.

Lemma auth_op_kept fmt_ts cfg o : op_kept o -> kept (auth_op verify argon2 common_passwords sha256_hex jwt fmt_ts cfg o).
Proof.
  destruct o; simpl; intros Ho; try (apply preserves_bind; [|intros; apply preserves_ret]); auto with nexus.
  - by apply login_kept.
  - by apply refresh_kept.
  - apply logout_kept.
  - apply change_password_kept.
  - by apply first_run_kept.
Qed.

Lemma auth_run_kept fmt_ts cfg ops d : Forall op_kept ops -> on_table J d ->
  on_table J (mrun (H := auth_machine verify argon2 common_passwords sha256_hex jwt fmt_ts cfg) ops d).1.
Proof.
  intros Ho. revert Ho. apply mrun_invariant. intros o s Hs Hks. unfold mstep, auth_machine.
  pose proof (auth_op_kept fmt_ts cfg o Hs s Hks) as H. by destruct (auth_op _ _ _ _ _ _ _ _ _).
Qed.
End keeps.

Section killing.
Context (sha256_hex : string -> string) (jwt : AccessClaims -> string -> option string).

(** The request does not draw [c] as the id of a new chain. *)
Definition draws_other (c : string) (o : AuthOp) : Prop :=
  match o with
  | Login dr _ _ _ | FirstRun dr _ _ _ => fresh_chain dr <> c
  | _ => True
  end.

Lemma draws_other_kept c o : draws_other c o -> op_kept sha256_hex (killed c) o.
Proof.
  destruct o; simpl; try done.
  - intros Hc ? ? ? ? _. auto with nexus.
  - intros _ t rid row Hk Hg Hl ? ? ? ? _. apply insert_killed. simpl. intros Hc.
    apply get_by_hash in Hg as [Hr _]. by rewrite (killed_not_live c t rid row _ Hk Hr Hc) in Hl.
  - intros Hc ? ? ? ? _. auto with nexus.
Qed.

(** The request does not draw the secret [s] again. *)
Definition draws_anew (s : string) (o : AuthOp) : Prop :=
  match o with
  | Login dr _ _ _ | FirstRun dr _ _ _ | Refresh dr _ _ => forall x, fresh_secret dr = Some x -> sha256_hex x <> sha256_hex s
  | _ => True
  end.

Lemma draws_anew_kept s c o : draws_anew s o -> op_kept sha256_hex (spent (sha256_hex s) c) o.
Proof.
  destruct o; simpl; try done; intros Hs.
  - intros x ? ? ? Hx. by apply insert_spent, Hs.
  - intros t rid row _ _ _ x ? ? ? Hx. by apply insert_spent, Hs.
  - intros x ? ? ? Hx. by apply insert_spent, Hs.
Qed.

(** A token of a killed chain is refused. *)
Lemma killed_refused c cfg dr cl s d rid row :
  chain_killed c d -> get_refresh_token_by_hash (sha256_hex s) (d_tokens d) = Some (rid, row) ->
  chain_id row = c -> exists e, (post_refresh sha256_hex jwt cfg dr cl s d).1 = Err e.
Proof.
  intros Hk Hg Hc. unfold post_refresh, mbind, se_bind.
  destruct (refresh_check sha256_hex cfg dr s d) as [[x|e] d1] eqn:E; [|by exists e].
  apply refresh_check_ok in E as (secret & rid' & row' & u & -> & -> & Hg' & Hl).
  exfalso. simplify_eq. apply get_by_hash in Hg as [Hr _].
  by rewrite (killed_not_live _ (d_tokens d) rid row (now dr) Hk Hr eq_refl) in Hl.
Qed.
End killing.

Section replay.
Context (sha256_hex : string -> string) (jwt : AccessClaims -> string -> option string).

(** What a refresh that completes leaves, when the presented row could be marked: that row rotated, a
    child row beside it, and every other row as it was. *)
Lemma refresh_commit_ok dr cl secret rid row u d r d' :
  tokens_ok (d_tokens d) -> tokens (d_tokens d) !! rid = Some row -> store_up dr CRotate = true ->
  refresh_commit sha256_hex jwt dr cl (secret, (rid, row), u) d = (Ok r, d') ->
  tokens_ok (d_tokens d') /\
  tokens (d_tokens d') !! rid = Some (set_rotated (now dr) row) /\
  exists nid nrow, nid <> rid /\ tokens (d_tokens d) !! nid = None /\ tokens (d_tokens d') !! nid = Some nrow /\
    chain_id nrow = chain_id row /\ parent_id nrow = Some rid /\ user_id nrow = user_id row /\
    token_hash nrow = sha256_hex (refresh_token r) /\
    rotated_at nrow = None /\ unkilled nrow = true /\ expires_at nrow = now dr + REFRESH_TOKEN_TTL /\
    forall id, id <> rid -> id <> nid -> tokens (d_tokens d') !! id = tokens (d_tokens d) !! id.
Proof.
  intros Hok Hrow Hup. unfold refresh_commit, mint_refresh_row, mbind, se_bind, get_some, throw, mret, se_ret.
  destruct (issue_access_token _ _ _ _ _ _ _ _) as [access|]; [|done].
  destruct (fresh_secret dr) as [sec|]; [|done]. unfold call at 1. destruct (store_up dr CInsertToken); [|done]. unfold on_tokens, part.
  destruct (insert_refresh_token _ _ (d_tokens d)) as [[[nid nrow]|e] t1] eqn:Ei; [|done].
  apply insert_ok in Ei as (Hok1 & -> & Hn & Enew); [|done]. simpl in *.
  assert (nid <> rid) as Hne by congruence.
  unfold record_action_audit, logged, ignore_err, call, audit, modify, mark_refresh_token_rotated. rewrite Hup. simpl. rewrite lookup_insert_ne, Hrow by done.
  intros E. assert (d_tokens d' = mkTokens (<[rid := set_rotated (now dr) row]> (<[nid := nrow]> (tokens (d_tokens d)))) nid /\
    refresh_token r = sec) as [-> ->].
  { destruct (store_up dr (CAudit _)); simpl in E; by injection E as <- <-. }
  clear E.
  split_and!.
  - pose proof (put_tokens_ok rid (set_rotated (now dr) row) row _ Hok1) as Hput. simpl in Hput.
    apply Hput; [by rewrite lookup_insert_ne|done].
  - apply lookup_insert_eq.
  - exists nid, nrow. simpl. rewrite lookup_insert_ne, lookup_insert_eq by done. subst nrow. split_and!; try done.
    intros id H1 H2. by rewrite !lookup_insert_ne.
Qed.

(** A token whose row is rotated or revoked is refused, and takes its chain with it when the store can
    write that. *)
Lemma spent_refused cfg dr cl s c d : spent (sha256_hex s) c (d_tokens d) -> is_some (admin_secret cfg) = true ->
  exists e, (post_refresh sha256_hex jwt cfg dr cl s d).1 = Err e /\
    (is_some (get_refresh_token_by_hash (sha256_hex s) (d_tokens d)) = true -> healthy dr ->
      chain_killed c (post_refresh sha256_hex jwt cfg dr cl s d).2).
Proof.
  intros Hsp Hs. unfold post_refresh, refresh_check, logged, ignore_err, call, mbind, se_bind, get_some, gets, throw, mret, se_ret.
  destruct (admin_secret cfg) as [secret|]; [|done].
  destruct (store_up dr CFindToken) eqn:E1; [|eexists; split; [done|]; intros _ Hup; by rewrite Hup in E1].
  destruct (get_refresh_token_by_hash _ _) as [[rid row]|] eqn:Hg; [|by eexists].
  apply get_by_hash in Hg as [Hr Hh]. destruct (Hsp rid row Hr Hh) as [<- Hd]. rewrite Hd.
  destruct (store_up dr CPeak) eqn:E2; [|eexists; split; [done|]; intros _ Hup; by rewrite Hup in E2].
  destruct (max_chain_last_active_at _ _) as [p|]; [destruct (IDLE_TIMEOUT <? now dr - p)|]; simpl.
  all: eexists; split; [done|]; intros _ Hup; rewrite Hup.
  - apply idle_revoke_kills.
  - apply revoke_chain_kills.
  - apply revoke_chain_kills.
Qed.
End replay.

(** C2. A refresh token is single-use. A refresh that succeeds and marks its row leaves that row rotated, a
    live child row of the same chain, and every other row as it was. After it, whatever logins,
    refreshes, logouts, password changes, user edits and background writes are completed one after another,
    and whichever of their store calls fail, presenting the same token again fails, as long as no
    request draws the same secret again; and when the store calls of that request succeed and the
    row was not swept yet, every token of the chain is dead after it, the new one included. (Two refreshes
    whose store calls interleave, and a refresh whose row cannot be marked, are outside: see
    [interleaved_refreshes_both_succeed] and [unmarked_token_works_again].) *)
Theorem replayed_token_kills_chain verify argon2 common sha256_hex jwt fmt_ts cfg dr cl s d r d1 :
  tokens_ok (d_tokens d) -> store_up dr CRotate = true ->
  post_refresh sha256_hex jwt cfg dr cl s d = (Ok r, d1) ->
  exists rid row nid nrow,
    get_refresh_token_by_hash (sha256_hex s) (d_tokens d) = Some (rid, row) /\
    is_live_at row (now dr) = true /\
    tokens (d_tokens d1) !! rid = Some (set_rotated (now dr) row) /\
    tokens (d_tokens d) !! nid = None /\ tokens (d_tokens d1) !! nid = Some nrow /\ chain_id nrow = chain_id row /\
    parent_id nrow = Some rid /\ token_hash nrow = sha256_hex (refresh_token r) /\
    is_live_at nrow (now dr) = true /\
    (forall id, id <> rid -> id <> nid -> tokens (d_tokens d1) !! id = tokens (d_tokens d) !! id) /\
    forall ops dr2 cl2, Forall (draws_anew sha256_hex s) ops ->
      let d2 := (mrun (H := auth_machine verify argon2 common sha256_hex jwt fmt_ts cfg) ops d1).1 in
      exists e, (post_refresh sha256_hex jwt cfg dr2 cl2 s d2).1 = Err e /\
        (is_some (get_refresh_token_by_hash (sha256_hex s) (d_tokens d2)) = true -> healthy dr2 ->
          chain_killed (chain_id row) (post_refresh sha256_hex jwt cfg dr2 cl2 s d2).2).
Proof.
  intros Hok Hup. unfold post_refresh at 1, mbind, se_bind.
  destruct (refresh_check sha256_hex cfg dr s d) as [[x|e] d0] eqn:E; [|done].
  assert (is_some (admin_secret cfg) = true) as Hs.
  { revert E. unfold refresh_check, mbind, se_bind, get_some, throw. by destruct (admin_secret cfg). }
  apply refresh_check_ok in E as (secret & rid & row & u & -> & -> & Hg & Hl). intros Hc.
  destruct (get_by_hash _ _ _ _ Hg) as [Hrow Hh].
  apply refresh_commit_ok in Hc as (Hok1 & Hrot & nid & nrow & Hne & Hnew & Hnrow & Hch & Hp & _ & Hhash & Hr & Hu & Hx & Hrest); [|done..].
  exists rid, row, nid, nrow. split_and!; try done.
  - unfold is_live_at. unfold unkilled in Hu. rewrite Hr, Hx.
    destruct (revoked_at nrow), (idle_revoked_at nrow); try done. simpl. apply Z.ltb_lt.
    assert (REFRESH_TOKEN_TTL = 2592000000000000) by done. lia.
  - intros ops dr2 cl2 Hops. apply spent_refused; [|done]. apply (auth_run_kept _ _ _ _ _ (spent (sha256_hex s) (chain_id row))).
    + eapply Forall_impl; [exact Hops|]. intros o. apply draws_anew_kept.
    + intros i q Hq Hqh. assert (i = rid) as ->.
      { apply (hashes_unique _ Hok1 i rid q (set_rotated (now dr) row)); [done..|]. simpl. congruence. }
      rewrite Hrot in Hq. by injection Hq as <-.
Qed.

(** A revoked session stays revoked: once every row of a chain is revoked (by logout, replay,
    idleness or an administrator), no sequence of requests and background writes makes it
    usable again, whatever they return, as long as no new session draws the same chain id;
    presenting any token of the chain afterwards fails. *)
Lemma killed_chain_stays_killed verify argon2 common sha256_hex jwt fmt_ts cfg c ops d :
  chain_killed c d -> Forall (draws_other c) ops ->
  let d' := (mrun (H := auth_machine verify argon2 common sha256_hex jwt fmt_ts cfg) ops d).1 in
  chain_killed c d' /\
  forall dr cl s rid row, get_refresh_token_by_hash (sha256_hex s) (d_tokens d') = Some (rid, row) ->
    chain_id row = c -> exists e, (post_refresh sha256_hex jwt cfg dr cl s d').1 = Err e.
Proof.
  intros Hk Ho d'. assert (chain_killed c d') as Hk'.
  { apply auth_run_kept; [apply _| |done]. eapply Forall_impl; [exact Ho|]. intros o. apply draws_other_kept. }
  split; [done|]. intros. by eapply killed_refused.
Qed.

(** ** Login *)

Section login.
Context (verify : string -> string -> bool) (sha256_hex : string -> string).
Context (jwt : AccessClaims -> string -> option string) (cfg : LoginConfig).

Local Abbreviation login := (post_login verify sha256_hex jwt cfg).

(** The account [name] stands for: row [id], with a password and neither deleted nor disabled. *)
Record account (name : string) (id : Z) (phc : string) (u : User) (d : Db) : Prop := {
  acc_schema : schema_ok (d_users d);
  acc_row : rows (d_users d) !! id = Some u;
  acc_name : nocase_eqb (Users.username u) (to_lowercase (trim name)) = true;
  acc_live : deleted_at u = None;
  acc_enabled : disabled u = false;
  acc_hash : password_hash u = Some phc;
}.

(** A locked account is refused before its password is looked at. *)
Lemma locked_refused dr c name password id phc u d :
  account name id phc u d -> is_some (admin_secret cfg) = true -> healthy dr -> is_locked (now dr) u = true ->
  login dr c name password d =
  (Err InvalidCredentials,
   mkDb (d_users d) (d_tokens d)
     (record_audit_event (db_now dr) (login_failure (to_lowercase (trim name)) c) (d_audit d))).
Proof.
  intros [Hs Hr Hn Hd He Hh] Hsec Hup Hl. unfold post_login, reject_login, record_login_failure_audit, logged, call. rewrite !Hup.
  unfold mbind, se_bind, get_some, gets, mret, se_ret.
  destruct (admin_secret cfg); [|done]. rewrite (lookup_user _ id u) by done.
  unfold is_deleted. by rewrite Hd, He, Hl.
Qed.

(** A wrong password on an unlocked account: refused, and the failure is recorded. *)
Lemma wrong_password dr c name password id phc u d :
  account name id phc u d -> is_some (admin_secret cfg) = true -> is_locked (now dr) u = false ->
  verify password phc = false -> db_now dr = now dr -> healthy dr ->
  let d' := (login dr c name password d).2 in
  (login dr c name password d).1 = Err InvalidCredentials /\
  d_tokens d' = d_tokens d /\ account name id phc (fail_at (lockout cfg) u (now dr)) d'.
Proof.
  intros [Hs Hr Hn Hd He Hh] Hsec Hl Hv Hclock Hup.
  unfold post_login, reject_login, record_login_failure_audit, record_lockout_audit, logged, call. rewrite !Hup.
  unfold mbind, se_bind, get_some, gets, mret, se_ret.
  destruct (admin_secret cfg); [|done]. rewrite (lookup_user _ id u) by done.
  unfold is_deleted. rewrite Hd, He, Hl. simpl. rewrite (lookup_password _ id u _ phc) by done.
  rewrite Hv. simpl. unfold record_login_failure, modify, update_row. simpl. rewrite Hr, Hclock.
  set (u' := set_login _ _ _ _ _ u). change u' with (fail_at (lockout cfg) u (now dr)). simpl.
  assert (forall a, account name id phc (fail_at (lockout cfg) u (now dr))
    (mkDb (put_row id (fail_at (lockout cfg) u (now dr)) (d_users d)) (d_tokens d) a)) as Hacc.
  { intros a. split; simpl; try done; [|by rewrite lookup_insert_eq].
    pose proof (schema_update id (fun v => fail_at (lockout cfg) v (now dr)) (d_users d)) as Hset.
    unfold update_row in Hset. rewrite Hr in Hset. by apply Hset. }
  destruct (max_attempts (lockout cfg) <=? _); simpl; split_and!; try done; apply Hacc.
Qed.

Record Attempt := mkAttempt { a_draw : Draw; a_client : Client; a_password : string }.

Definition attempt (name : string) (d : Db) (a : Attempt) : Db :=
  (login (a_draw a) (a_client a) name (a_password a) d).2.

Definition times (l : list Attempt) : list Z := map (fun a => now (a_draw a)) l.

(** An attempt with a wrong password, on a host whose store answers and reads the handler's clock. *)
Definition wrong (phc : string) (a : Attempt) : Prop :=
  verify (a_password a) phc = false /\ db_now (a_draw a) = now (a_draw a) /\ healthy (a_draw a).

Lemma run_of_wrong_passwords name id phc u d a l :
  account name id phc u d -> is_some (admin_secret cfg) = true ->
  is_locked (now (a_draw a)) u = false -> window_closed (lockout cfg) (now (a_draw a)) u ->
  Forall (wrong phc) (a :: l) -> within_window (lockout cfg) (now (a_draw a)) (times l) ->
  0 <= max_attempts (lockout cfg) <= umax 32 -> zlength (a :: l) <= max_attempts (lockout cfg) ->
  let d' := foldl (attempt name) d (a :: l) in
  d_tokens d' = d_tokens d /\
  account name id phc (foldl (fail_at (lockout cfg)) u (times (a :: l))) d'.
Proof.
  intros Hacc Hsec Hl Hwin. revert l. induction l as [|b l IH] using rev_ind; intros Hw Hwin' Hm Hlen.
  - apply Forall_cons in Hw as [(Hv & Hc & Hup) _]. simpl.
    by destruct (wrong_password (a_draw a) (a_client a) name (a_password a) id phc u d) as (_ & ? & ?).
  - rewrite app_comm_cons in *. apply Forall_app in Hw as [Hw Hb]. apply Forall_singleton in Hb as (Hv & Hc & Hup).
    unfold times in Hwin', IH |- *. rewrite map_app in Hwin'.
    pose proof (within_window_snoc _ _ _ _ Hwin') as Hwin2.
    unfold zlength in Hlen, IH. rewrite length_app in Hlen. simpl in Hlen.
    destruct IH as [Ht Ha]; [done..|simpl; lia|].
    rewrite !foldl_app, map_app, foldl_app. cbn [map foldl]. set (d1 := foldl _ d _) in *.
    set (u1 := foldl _ u _) in *.
    destruct (wrong_password (a_draw b) (a_client b) name (a_password b) id phc u1 d1) as (_ & Ht' & Ha');
      [done..| |done|done|done|split; [by rewrite <- Ht|done]].
    destruct (lockout_run (lockout cfg) u (now (a_draw a)) (times l) Hwin Hwin2 Hm) as (_ & Hlock & _).
    subst u1. unfold is_locked, evaluate, times in *. cbn [map foldl] in *. rewrite Hlock.
    destruct (Z.leb_spec (max_attempts (lockout cfg)) (1 + zlength (map (fun a => now (a_draw a)) l))) as [Hle|];
      [|done]. exfalso. unfold zlength in Hle. rewrite length_map in Hle. lia.
Qed.
End login.

(** Password guessing locks the account: [max_attempts] wrong passwords, each within a window
    of the one before, on an account whose window was closed, are all refused, and until the
    lockout is over every further login is refused whatever its password (the right one
    included) and opens no session. *)
Lemma guessing_locks_account verify sha256_hex jwt cfg name id phc u d a l dr c password :
  account name id phc u d -> is_some (admin_secret cfg) = true ->
  is_locked (now (a_draw a)) u = false -> window_closed (lockout cfg) (now (a_draw a)) u ->
  Forall (wrong verify phc) (a :: l) -> within_window (lockout cfg) (now (a_draw a)) (times l) ->
  zlength (a :: l) = max_attempts (lockout cfg) /\ max_attempts (lockout cfg) <= umax 32 ->
  now dr < List.last (times (a :: l)) 0 + secs (lockout_secs (lockout cfg)) -> healthy dr ->
  let d' := foldl (attempt verify sha256_hex jwt cfg name) d (a :: l) in
  d_tokens d' = d_tokens d /\
  (post_login verify sha256_hex jwt cfg dr c name password d').1 = Err InvalidCredentials /\
  d_tokens (post_login verify sha256_hex jwt cfg dr c name password d').2 = d_tokens d.
Proof.
  intros Hacc Hsec Hl Hwin Hw Hwin' [Hlen Hm] Hnow Hup d'.
  assert (0 <= zlength (a :: l)) by (unfold zlength; lia).
  destruct (run_of_wrong_passwords verify sha256_hex jwt cfg name id phc u d a l) as [Ht Ha]; [done..|lia|lia|].
  fold d' in Ht, Ha. split; [done|].
  destruct (lockout_run (lockout cfg) u (now (a_draw a)) (times l) Hwin Hwin' ltac:(lia)) as (_ & _ & Hlock).
  specialize (Hlock (now dr)). rewrite (locked_refused _ _ _ _ _ _ _ _ _ _ _ _ Ha Hsec); [by rewrite <- Ht|done|].
  apply Hlock. split; [|done]. unfold zlength, times in *. rewrite length_map. simpl in Hlen. lia.
Qed.

(** On a table that keeps its constraints, a name has one live row. *)
Lemma name_has_one_row t i j u v name : schema_ok t -> rows t !! i = Some u -> rows t !! j = Some v ->
  nocase_eqb (Users.username u) name = true -> nocase_eqb (Users.username v) name = true -> i = j.
Proof.
  intros Hok Hu Hv Hun Hvn. destruct (decide (i = j)) as [|Hne]; [done|]. exfalso.
  pose proof (names_unique t Hok i j u v Hu Hv Hne) as Hd. unfold nocase_eqb in *.
  apply bool_decide_eq_true in Hun, Hvn. apply bool_decide_eq_false in Hd. congruence.
Qed.

Lemma found_user name t i u : get_user_by_username name t = Some (i, u) ->
  rows t !! i = Some u /\ nocase_eqb (Users.username u) name = true /\ is_deleted u = false.
Proof.
  unfold get_user_by_username. intros H. match type of H with head (select ?P t) = _ => assert ((i, u) ∈ select P t) as Hin
    by (destruct (select P t); simplify_eq/=; left) end.
  apply elem_of_select in Hin as [Hr [Hn Hd%negb_true_iff]%andb_true_iff]. done.
Qed.

Lemma found_password name t i h : get_password_hash_for_login name t = Some (i, h) ->
  exists u, rows t !! i = Some u /\ nocase_eqb (Users.username u) name = true /\ password_hash u = Some h.
Proof.
  unfold get_password_hash_for_login. destruct (head (select _ t)) as [[j v]|] eqn:E; [|done]. simpl.
  destruct (password_hash v) eqn:Eh; [|done]. intros [= <- <-].
  match type of E with head (select ?P t) = _ => assert ((j, v) ∈ select P t) as Hin by (destruct (select P t); simplify_eq/=; left) end.
  apply elem_of_select in Hin as [Hr [[Hn _]%andb_true_iff _]%andb_true_iff]. by exists v.
Qed.

(** C28. A session is opened only for the right password of one account: the row of the name given (up to
    case and surrounding blanks) is neither deleted, disabled nor locked, the password verifies
    against the hash of that same row, the session has its id, its role and the one new refresh token,
    and the row's failure count and lock are cleared. No other row of the users changes. *)
Theorem login_opens_only_for_right_password verify sha256_hex jwt cfg dr c name password d r d' :
  schema_ok (d_users d) ->
  post_login verify sha256_hex jwt cfg dr c name password d = (Ok r, d') ->
  exists id u phc,
    rows (d_users d) !! id = Some u /\ nocase_eqb (Users.username u) (to_lowercase (trim name)) = true /\
    disabled u = false /\ deleted_at u = None /\ is_locked (now dr) u = false /\
    password_hash u = Some phc /\ verify password phc = true /\
    su_id (user r) = id /\ su_role (user r) = role u /\
    (exists v, rows (d_users d') !! id = Some v /\ failed_login_count v = 0 /\ locked_until v = None) /\
    (forall i, i <> id -> rows (d_users d') !! i = rows (d_users d) !! i) /\
    exists n row, tokens (d_tokens d') = <[n := row]> (tokens (d_tokens d)) /\
      user_id row = id /\ token_hash row = sha256_hex (refresh_token r).
Proof.
  intros Hok. unfold post_login, reject_login, record_login_failure_audit, record_login_success_audit, logged, call, mbind, se_bind, get_some, gets, mret, se_ret, throw.
  destruct (admin_secret cfg); [|done]. destruct (store_up dr CFindUser); [|done].
  destruct (get_user_by_username _ _) as [[i u]|] eqn:Eu; [|done]. apply found_user in Eu as (Hu & Hn & _).
  destruct (disabled u || is_deleted u) eqn:Ed; [done|]. destruct (is_locked (now dr) u) eqn:El; [done|].
  destruct (store_up dr CFindHash); [|done].
  destruct (get_password_hash_for_login _ _) as [[id phc]|] eqn:Ep; [|done]. apply found_password in Ep as (v & Hv & Hvn & Hh).
  assert (id = i) as -> by (by eapply name_has_one_row). assert (v = u) as -> by congruence.
  destruct (verify password phc) eqn:Ev; simpl; [|by repeat case_match].
  apply orb_false_iff in Ed as [Hdis Hdel]. unfold is_deleted in Hdel.
  destruct (store_up dr CLoginSuccess); [|done]. simpl.
  destruct (issue_access_token _ _ _ _ _ _ _ _) as [access|]; [|done]. unfold mint_refresh_row, call.
  unfold mbind, se_bind, get_some, mret, se_ret, throw. destruct (fresh_secret dr) as [sec|]; [|done].
  destruct (store_up dr CInsertToken); [|done]. unfold on_tokens, part, insert_refresh_token. simpl.
  match goal with |- context [d_tokens (?x _).2] => set (d1 := (x _).2) end.
  assert (d_tokens d1 = d_tokens d /\ d_users d1 = update_row i (fun u => set_login 0 None (Some (db_now dr)) (last_failed_login_at u) (db_now dr) u) (d_users d))
    as [-> ->] by (subst d1; by destruct (store_up dr (CAudit _))).
  case_bool_decide; [done|]. intros [= <- <-]. exists i, u, phc. unfold update_row. rewrite Hu. simpl.
  split_and!; try done.
  - by destruct (deleted_at u).
  - eexists. split; [apply lookup_insert_eq|done].
  - intros j Hj. by rewrite lookup_insert_ne.
  - by do 2 eexists.
Qed.

(** ** Witnesses *)

(** A host whose passwords are stored in the clear, whose hash and encoder are the identity. *)
Definition demo_verify (plain phc : string) : bool := str_eqb plain phc.
Definition demo_sha (s : string) : string := s.
Definition demo_jwt (c : AccessClaims) (_ : string) : option string := Some (jti c).

Definition demo_cfg : LoginConfig := mkLoginConfig (Some "key") default_config ModeLocal.
Definition demo_draw (t : Z) (tag : string) : Draw := mkDraw (secs t) (secs t) ("c" +:+ tag) ("j" +:+ tag) (Some ("s" +:+ tag)) (fun _ => true).
Definition demo_client : Client := mkClient "10.0.0.9" None.
Definition demo_db : Db := mkDb one_admin (mkTokens ∅ 0) [].

Lemma demo_schema : schema_ok one_admin.
Proof.
  split.
  - intros i u Hi. destruct (one_row_lookup Hi) as [-> _]. done.
  - intros i j u v Hi Hj Hne. destruct (one_row_lookup Hi), (one_row_lookup Hj). congruence.
  - intros i j u v h Hi Hj Hne. destruct (one_row_lookup Hi), (one_row_lookup Hj). congruence.
  - intros i u Hi. by destruct (one_row_lookup Hi) as [_ ->].
Qed.

Lemma demo_account : account " Alice" 1 "phc" (demo_user "alice" Admin) demo_db.
Proof. split; [apply demo_schema|vm_compute; reflexivity..]. Qed.

Definition guess (t : Z) : Attempt := mkAttempt (demo_draw t "x") demo_client "letmein".

Lemma guessing_locks_account_witness :
  let d' := foldl (attempt demo_verify demo_sha demo_jwt demo_cfg " Alice") demo_db
              [guess 1; guess 2; guess 3; guess 4; guess 5] in
  (post_login demo_verify demo_sha demo_jwt demo_cfg (demo_draw 900 "y") demo_client "alice" "phc" demo_db).1
    <> Err InvalidCredentials /\
  (post_login demo_verify demo_sha demo_jwt demo_cfg (demo_draw 900 "y") demo_client " Alice" "phc" d').1
    = Err InvalidCredentials.
Proof.
  split; [vm_compute; discriminate|].
  refine (proj1 (proj2 (guessing_locks_account demo_verify demo_sha demo_jwt demo_cfg " Alice" 1 "phc"
    (demo_user "alice" Admin) demo_db (guess 1) [guess 2; guess 3; guess 4; guess 5]
    (demo_draw 900 "y") demo_client "phc" demo_account _ _ _ _ _ _ _ _))).
  - vm_compute. reflexivity.
  - vm_compute. reflexivity.
  - vm_compute. exact I.
  - repeat constructor.
  - repeat split; vm_compute; discriminate.
  - split; vm_compute; [reflexivity|discriminate].
  - vm_compute. reflexivity.
  - done.
Defined.

Lemma login_opens_only_for_right_password_witness :
  exists id u phc, rows (d_users demo_db) !! id = Some u /\ password_hash u = Some phc /\ demo_verify "phc" phc = true.
Proof.
  destruct (post_login demo_verify demo_sha demo_jwt demo_cfg (demo_draw 1 "y") demo_client "Alice " "phc" demo_db)
    as [[r|e] d'] eqn:E; [|vm_compute in E; discriminate].
  destruct (login_opens_only_for_right_password _ _ _ _ _ _ _ _ demo_db _ _ demo_schema E) as (id & u & phc & Hu & _ & _ & _ & _ & Hh & Hv & _).
  by exists id, u, phc.
Defined.

(** ** Changing a password ends the user's sessions *)

(** What revocations leave of a table: the same rows, some of them revoked. *)
Definition only_revoked (t0 t1 : TokenTable) : Prop :=
  forall id r', tokens t1 !! id = Some r' ->
    exists r, tokens t0 !! id = Some r /\ user_id r' = user_id r /\ chain_id r' = chain_id r /\
      forall at_, is_live_at r' at_ = true -> is_live_at r at_ = true.

Lemma only_revoked_refl t : only_revoked t t.
Proof. intros id r Hr. by exists r. Qed.

Lemma only_revoked_trans t0 t1 t2 : only_revoked t0 t1 -> only_revoked t1 t2 -> only_revoked t0 t2.
Proof.
  intros H1 H2 id r Hr. destruct (H2 id r Hr) as (r1 & Hr1 & Hu1 & Hc1 & Hl1).
  destruct (H1 id r1 Hr1) as (r0 & Hr0 & Hu0 & Hc0 & Hl0). exists r0. split_and!; [done|congruence..|eauto].
Qed.

Lemma revoke_chain_only at_ c t : only_revoked t (revoke_chain at_ c t).2.
Proof.
  intros id r'. simpl. rewrite lookup_fmap. destruct (tokens t !! id) as [r|]; simpl; [|done].
  intros [= <-]. exists r. destruct (_ && _); [|done]. split_and!; try done.
  intros at1. unfold is_live_at. simpl. by rewrite andb_false_r.
Qed.

Lemma iter_revoke dr l d : healthy dr ->
  exists d', iter_m (fun e : Z * RefreshToken => logged dr (CRevokeChain (chain_id e.2)) (on_tokens (revoke_chain (now dr) (chain_id e.2)))) l d
             = (Ok tt, d') /\
    d_users d' = d_users d /\ only_revoked (d_tokens d) (d_tokens d') /\
    forall e, e ∈ l -> chain_killed (chain_id e.2) d'.
Proof.
  intros Hup. revert d. induction l as [|e l IH]; intros d.
  { exists d. split_and!; [done..|apply only_revoked_refl|]. by intros ? ?%elem_of_nil. }
  cbn [iter_m]. unfold mbind, se_bind.
  set (d1 := mkDb (d_users d) (revoke_chain (now dr) (chain_id e.2) (d_tokens d)).2 (d_audit d)).
  assert (logged dr (CRevokeChain (chain_id e.2)) (on_tokens (revoke_chain (now dr) (chain_id e.2))) d = (Ok tt, d1)) as ->
    by (unfold logged, call; by rewrite Hup).
  destruct (IH d1) as (d' & E & Hu & Hr & Hk). rewrite E. exists d'. split_and!; [done..| |].
  { eapply only_revoked_trans; [apply revoke_chain_only|exact Hr]. }
  intros x [->|Hx]%elem_of_cons; [|by apply Hk].
  assert (preserves (chain_killed (chain_id e.2))
    (iter_m (fun e : Z * RefreshToken => logged dr (CRevokeChain (chain_id e.2)) (on_tokens (revoke_chain (now dr) (chain_id e.2)))) l)) as HP.
  { apply preserves_iter. intros y. apply logged_kept, tokens_kept, revoke_chain_killed. }
  specialize (HP d1 (revoke_chain_kills (now dr) (chain_id e.2) (d_tokens d))). by rewrite E in HP.
Qed.

Lemma live_listed uid now_ t id r :
  tokens t !! id = Some r -> user_id r = uid -> is_live_at r now_ = true ->
  (id, r) ∈ list_active_refresh_tokens_for_user uid now_ t.
Proof.
  intros Hr Hu Hl. unfold list_active_refresh_tokens_for_user. rewrite merge_sort_Permutation.
  apply elem_of_rows_where. split; [done|]. subst uid. rewrite Z.eqb_refl.
  unfold is_live_at in Hl. destruct (rotated_at r), (revoked_at r), (idle_revoked_at r); done.
Qed.

(** After [revoke_all] no token of the user is live, now or later. *)
Lemma revoke_all_ends dr uid d : healthy dr ->
  exists d', revoke_all dr uid d = (Ok tt, d') /\ d_users d' = d_users d /\
    forall id r at_, tokens (d_tokens d') !! id = Some r -> user_id r = uid -> now dr <= at_ ->
      is_live_at r at_ = false.
Proof.
  intros Hup. unfold revoke_all, call, mbind, se_bind, gets. rewrite Hup.
  destruct (iter_revoke dr (list_active_refresh_tokens_for_user uid (now dr) (d_tokens d)) d Hup) as (d' & -> & Hu & Hr & Hk).
  exists d'. split_and!; [done..|]. intros id r at_ Hid Huid Hat. apply not_true_is_false. intros Hl.
  destruct (Hr id r Hid) as (r0 & Hr0 & Hu0 & Hc0 & Hl0).
  assert (is_live_at r0 (now dr) = true) as Hlive.
  { specialize (Hl0 at_ Hl). revert Hl0. unfold is_live_at. rewrite !andb_true_iff, !Z.ltb_lt.
    intros [? ?]. split; [done|lia]. }
  assert ((id, r0) ∈ list_active_refresh_tokens_for_user uid (now dr) (d_tokens d)) as Hin
    by (apply live_listed; [done|congruence|done]).
  specialize (Hk _ Hin). by rewrite (killed_not_live _ _ id r at_ Hk Hid Hc0) in Hl.
Qed.

Lemma password_lookup_id t name uid u id h :
  schema_ok t -> rows t !! uid = Some u -> name = Users.username u ->
  get_password_hash_for_login name t = Some (id, h) -> id = uid.
Proof.
  intros Hok Hu -> (v & Hv & Hn & _)%found_password. eapply name_has_one_row; [done..|]. by apply bool_decide_eq_true.
Qed.

(** Changing a password ends every session, when the store answers: it succeeds only with the old password right and
    the new one within the policy, and afterwards no refresh token of the user that existed is
    usable, at that time or later. *)
Lemma password_change_ends_sessions verify argon2 common dr c leg uid old new d d' :
  schema_ok (d_users d) -> healthy dr ->
  post_change_password verify argon2 common dr c leg uid old new d = (Ok tt, d') ->
  (exists phc, verify old phc = true /\ check_password_policy common new = Ok tt /\
     exists u', rows (d_users d') !! uid = Some u' /\ password_hash u' = argon2 new /\
       Users.force_password_reset u' = false) /\
  forall id r at_, tokens (d_tokens d') !! id = Some r -> user_id r = uid -> now dr <= at_ ->
    is_live_at r at_ = false.
Proof.
  intros Hok Hup. unfold post_change_password, record_action_audit, logged, call, mbind, se_bind, get_some, gets, mret, se_ret, throw.
  rewrite !Hup. destruct (leg || _); [done|]. destruct (get_user_by_id uid (d_users d)) as [u|] eqn:Eu; [|done].
  destruct (get_password_hash_for_login _ _) as [[id phc]|] eqn:Ep; [|done].
  assert (id = uid) as -> by (by eapply password_lookup_id).
  destruct (verify old phc) eqn:Ev; simpl; [|done]. unfold hashed, hash_password.
  destruct (check_password_policy common new) as [[]|p] eqn:Ec; [|done].
  destruct (argon2 new) as [h|] eqn:Eh; simpl; [|done].
  unfold on_users, part, update_user_password. simpl. destruct (live_row uid (d_users d)) eqn:El; [|done].
  set (d1 := mkDb _ _ _). destruct (revoke_all_ends dr uid d1 Hup) as (d2 & -> & Hu2 & Hend).
  intros [= <-]. simpl. split; [|exact Hend]. exists phc. split_and!; [done..|].
  rewrite Hu2. unfold d1, update_row. simpl. unfold get_user_by_id in Eu. rewrite Eu. simpl.
  rewrite lookup_insert_eq. by eexists.
Qed.

(** The store of a host where alice logged in at t = 1 and holds the token "s1" of chain "c1". *)
Definition logged_in : Db :=
  (post_login demo_verify demo_sha demo_jwt demo_cfg (demo_draw 1 "1") demo_client "alice" "phc" demo_db).2.

Lemma logged_in_row i r : tokens (d_tokens logged_in) !! i = Some r -> i = 1 /\ chain_id r = "c1".
Proof.
  intros Hr. assert ((i, r) ∈ map_to_list (tokens (d_tokens logged_in))) as Hin by (by apply elem_of_map_to_list).
  vm_compute in Hin. apply list_elem_of_singleton in Hin. by simplify_eq.
Qed.

Lemma logged_in_ok : tokens_ok (d_tokens logged_in).
Proof.
  split.
  - intros i r Hr. apply logged_in_row in Hr as [-> _]. vm_compute. discriminate.
  - intros i j r q Hr Hq _. apply logged_in_row in Hr as [-> _], Hq as [-> _]. done.
Qed.

Lemma replayed_token_kills_chain_witness :
  exists d1 r, post_refresh demo_sha demo_jwt demo_cfg (demo_draw 60 "2") demo_client "s1" logged_in = (Ok r, d1) /\
    let d2 := (mrun (H := auth_machine demo_verify (fun p => Some p) [] demo_sha demo_jwt pretty demo_cfg)
      [Refresh (demo_draw 61 "3") demo_client "s2"] d1).1 in
    exists e, (post_refresh demo_sha demo_jwt demo_cfg (demo_draw 62 "4") demo_client "s1" d2).1 = Err e.
Proof.
  destruct (post_refresh demo_sha demo_jwt demo_cfg (demo_draw 60 "2") demo_client "s1" logged_in) as [[r|e] d1] eqn:E;
    [|vm_compute in E; discriminate].
  exists d1, r. split; [done|].
  destruct (replayed_token_kills_chain demo_verify (fun p => Some p) [] demo_sha demo_jwt pretty demo_cfg (demo_draw 60 "2") demo_client "s1" logged_in r d1 logged_in_ok eq_refl E)
    as (rid & row & nid & nrow & _ & _ & _ & _ & _ & _ & _ & _ & _ & _ & Hr).
  destruct (Hr [Refresh (demo_draw 61 "3") demo_client "s2"] (demo_draw 62 "4") demo_client) as (e & He & _); [|by exists e].
  constructor; [|done]. intros x [= <-]. vm_compute. discriminate.
Defined.

(** A refresh whose row cannot be marked leaves the token usable. *)
Example unmarked_token_works_again :
  let dr := mkDraw (secs 60) (secs 60) "c2" "j2" (Some "s2"%string) (fun k => match k with CRotate => false | _ => true end) in
  exists d1 r, post_refresh demo_sha demo_jwt demo_cfg dr demo_client "s1" logged_in = (Ok r, d1) /\
    exists r2, (post_refresh demo_sha demo_jwt demo_cfg (demo_draw 61 "3") demo_client "s1" d1).1 = Ok r2.
Proof. do 2 eexists. split; [vm_compute; reflexivity|]. eexists. vm_compute. reflexivity. Qed.

Definition logged_out : Db := (post_logout demo_sha (demo_draw 30 "o") (Some "s1") logged_in).2.

Lemma killed_chain_stays_killed_witness :
  let ops := [Login (demo_draw 40 "9") demo_client "alice" "phc"; Refresh (demo_draw 41 "8") demo_client "s1";
              Bump (secs 42) "c1"] in
  chain_killed "c1" (mrun (H := auth_machine demo_verify (fun p => Some p) [] demo_sha demo_jwt pretty demo_cfg)
    ops logged_out).1.
Proof.
  refine (proj1 (killed_chain_stays_killed demo_verify (fun p => Some p) [] demo_sha demo_jwt pretty demo_cfg "c1"
    _ logged_out _ _)).
  - intros i r Hr _. assert ((i, r) ∈ map_to_list (tokens (d_tokens logged_out))) as Hin by (by apply elem_of_map_to_list).
    vm_compute in Hin. apply list_elem_of_singleton in Hin. injection Hin as -> ->. reflexivity.
  - repeat constructor; vm_compute; discriminate.
Defined.

Lemma password_change_ends_sessions_witness :
  exists d', post_change_password demo_verify (fun p => Some p) [] (demo_draw 50 "p") demo_client false 1
      "phc" "correct horse battery" logged_in = (Ok tt, d') /\
    exists r, tokens (d_tokens d') !! 1 = Some r /\ is_live_at r (secs 50) = false.
Proof.
  destruct (post_change_password demo_verify (fun p => Some p) [] (demo_draw 50 "p") demo_client false 1
      "phc" "correct horse battery" logged_in) as [[[]|e] d'] eqn:E; [|vm_compute in E; discriminate].
  exists d'. split; [done|].
  destruct (tokens (d_tokens d') !! 1) as [r|] eqn:Er.
  - exists r. split; [done|].
    refine (proj2 (password_change_ends_sessions demo_verify (fun p => Some p) [] (demo_draw 50 "p") demo_client
      false 1 "phc" "correct horse battery" logged_in d' _ ltac:(done) E) 1 r (secs 50) Er _ _).
    + apply (schema_update 1 (fun u => set_login 0 None (Some (secs 1)) (last_failed_login_at u) (secs 1) u));
        [done..|apply demo_schema].
    + assert (match tokens (d_tokens d') !! 1 with Some q => user_id q | None => 1 end = 1) as Hu
        by (assert (d' = (post_change_password demo_verify (fun p => Some p) [] (demo_draw 50 "p") demo_client
              false 1 "phc" "correct horse battery" logged_in).2) as -> by (by rewrite E); vm_compute; reflexivity).
      by rewrite Er in Hu.
    + vm_compute. discriminate.
  - exfalso. assert (d' = (post_change_password demo_verify (fun p => Some p) [] (demo_draw 50 "p") demo_client
      false 1 "phc" "correct horse battery" logged_in).2) as -> by (by rewrite E).
    vm_compute in Er. discriminate.
Defined.

(** Two refreshes of one token whose reads interleave: both pass the check on the same store, both
    write, and two live tokens of one chain are left. The handler takes no lock and opens no
    transaction between its read and its write. *)
Theorem interleaved_refreshes_both_succeed :
  exists x y r1 r2 d1 d2,
    refresh_check demo_sha demo_cfg (demo_draw 60 "2") "s1" logged_in = (Ok x, logged_in) /\
    refresh_check demo_sha demo_cfg (demo_draw 60 "3") "s1" logged_in = (Ok y, logged_in) /\
    refresh_commit demo_sha demo_jwt (demo_draw 60 "2") demo_client x logged_in = (Ok r1, d1) /\
    refresh_commit demo_sha demo_jwt (demo_draw 60 "3") demo_client y d1 = (Ok r2, d2) /\
    is_some ('(_, r) ← get_refresh_token_by_hash (refresh_token r1) (d_tokens d2);
             if is_live_at r (secs 60) then Some tt else None) = true /\
    is_some ('(_, r) ← get_refresh_token_by_hash (refresh_token r2) (d_tokens d2);
             if is_live_at r (secs 60) then Some tt else None) = true.
Proof. do 6 eexists. split_and!; vm_compute; reflexivity. Qed.
