(* ===== verification/UsersAdmin.v ===== *)
(** User administration, [nexus-engine/src/auth/users_admin.rs]: the handlers behind the admin
    role, on the same three tables as the login handlers, and the gate on user names. The JSON
    of an audit row's [before] and [after] is printed by [serde_json], a parameter. *)
From Stdlib Require Import Ascii.
From stdpp Require Import pretty.
From S2P Require Import Prelude Text Types AuditLog Users Lockout Sessions Login.

Inductive UsersAdminError :=
| ANotFound
| ALastAdmin
| AUsernameTaken
| APasswordPolicy (p : PasswordPolicyError)
| AInvalidUsername
| APasswordHash
| AStore
| AUsers (e : UsersError).

Definition from_users_error (e : UsersError) : UsersAdminError :=
  match e with
  | UStore => AStore
  | UserNotFound => ANotFound
  | LastAdmin => ALastAdmin
  | UsernameTaken => AUsernameTaken
  | other => AUsers other
  end.

Definition from_password (e : PasswordError) : UsersAdminError :=
  match e with Argon2 => APasswordHash | Policy p => APasswordPolicy p end.

Definition admin_response (e : UsersAdminError) : Z * string :=
  match e with
  | ANotFound => (404, "not_found")
  | ALastAdmin => (409, "last_admin")
  | AUsernameTaken => (409, "username_taken")
  | AInvalidUsername => (400, "invalid_username")
  | APasswordPolicy _ => (400, "password_policy")
  | APasswordHash | AStore | AUsers _ => (500, "internal")
  end.

Definition USERNAME_MIN : Z := 1.
Definition USERNAME_MAX : Z := 64.

Definition validate_username (s : string) : result unit UsersAdminError :=
  let trimmed := trim s in
  if (blen trimmed <? USERNAME_MIN) || (USERNAME_MAX <? blen trimmed) then Err AInvalidUsername
  else if existsb (fun c => is_control c || bool_decide (c = ":"%char) || is_whitespace c) (chars trimmed)
  then Err AInvalidUsername
  else Ok tt.

(** The administrator's [SessionContext], as far as the audit row shows it. *)
Record Actor := mkActor { ac_user_id : Z; ac_legacy : bool; ac_jti : string }.

Definition AH (A : Type) : Type := SE Db UsersAdminError A.

Definition a_users {A} (m : UsersM A) : AH A :=
  part d_users (fun u d => mkDb u (d_tokens d) (d_audit d)) from_users_error m.

Definition lift_h {A} (m : H A) : AH A := part (fun d => d) (fun d _ => d) (fun _ => AStore) m.

Section handlers.
Context (argon2 : string -> option string) (common_passwords : list string).
Context (view_json : Z -> User -> string) (fmt_ts : Z -> string).

Definition a_hashed (plain : string) : AH string :=
  match hash_password argon2 common_passwords plain with
  | Ok h => mret h
  | Err e => throw (from_password e)
  end.

Definition record_user_audit (t : Z) (a : Actor) (act : string) (target : Z) (before after : option User)
    (o : AuditOutcome) (c : Client) : AH unit :=
  let label := if ac_legacy a then "system:legacy-admin:" +:+ ac_jti a else "user:" +:+ pretty (ac_user_id a) in
  modify (fun d => mkDb (d_users d) (d_tokens d) (record_audit_event t
    (mkEntry (Some LocalUser) (Some (pretty (ac_user_id a))) label act (Some "user") (Some (pretty target))
       (view_json target <$> before) (view_json target <$> after) o (Some (c_ip c)) (c_ua c)) (d_audit d))).

Definition fetch (id : Z) : AH User :=
  found ← gets (fun d => get_user_by_id id (d_users d));
  get_some found (throw ANotFound).

(** [get_user_by_id] and the tombstone check that opens every mutation. *)
Definition fetch_live (id : Z) : AH User :=
  before ← fetch id;
  guard_err (negb (is_deleted before)) ANotFound ;;
  mret before.

(** [otp] is the draw of [generate_one_time_password]; the result is the new id, its row and the
    password generated, if it was. *)
Definition create_user (dr : Draw) (a : Actor) (c : Client) (otp : option string)
    (name : string) (r : Role) (password : option string) : AH (Z * User * option string) :=
  match validate_username name with Ok _ => mret tt | Err e => throw e end ;;
  '(shown, plain) ←
    match password with
    | Some p => if str_eqb p "" then (p ← get_some otp (throw APasswordHash); mret (Some p, p)) else mret (None, p)
    | None => p ← get_some otp (throw APasswordHash); mret (Some p, p)
    end;
  phc ← a_hashed plain;
  id ← a_users (Users.create_user (db_now dr) (mkNewUser (trim name) r (Some phc) None true));
  u ← fetch id;
  record_user_audit (db_now dr) a "user.create" id None (Some u) Success c ;;
  mret (id, u, shown).

Definition update_user (dr : Draw) (a : Actor) (c : Client) (id : Z) (r : option Role) (dis : option bool)
    : AH User :=
  before ← fetch_live id;
  match r with
  | Some nr => if bool_decide (nr = role before) then mret tt else a_users (update_user_role (db_now dr) id nr)
  | None => mret tt
  end ;;
  match dis with
  | Some nd => if bool_decide (nd = disabled before) then mret tt else a_users (set_user_disabled (db_now dr) id nd)
  | None => mret tt
  end ;;
  after ← fetch id;
  record_user_audit (db_now dr) a "user.update" id (Some before) (Some after) Success c ;;
  mret after.

Definition reset_password (dr : Draw) (a : Actor) (c : Client) (otp : option string) (id : Z) : AH string :=
  before ← fetch_live id;
  p ← get_some otp (throw APasswordHash);
  phc ← a_hashed p;
  a_users (update_user_password (db_now dr) id phc true) ;;
  lift_h (revoke_all dr id) ;;
  after ← fetch id;
  record_user_audit (db_now dr) a "user.reset_password" id (Some before) (Some after) Success c ;;
  mret p.

Definition unlock_user (dr : Draw) (a : Actor) (c : Client) (id : Z) : AH unit :=
  before ← fetch_live id;
  a_users (clear_lockout (db_now dr) id) ;;
  after ← fetch id;
  record_user_audit (db_now dr) a "user.unlock" id (Some before) (Some after) Success c.

Definition delete_user (dr : Draw) (a : Actor) (c : Client) (id : Z) : AH unit :=
  before ← fetch_live id;
  a_users (soft_delete_user fmt_ts (db_now dr) id) ;;
  lift_h (revoke_all dr id) ;;
  after ← gets (fun d => get_user_by_id id (d_users d));
  record_user_audit (db_now dr) a "user.delete" id (Some before) after Success c.

(** ** Properties *)

(** A user name that passed the gate is never the name of a tombstone, up to case. *)
Lemma valid_name_no_colon s : validate_username s = Ok tt -> ":"%char ∉ chars (trim s).
Proof.
  unfold validate_username. case_match; [done|]. destruct (existsb _ _) eqn:E; [done|]. intros _ Hin.
  assert (existsb (fun c => is_control c || bool_decide (c = ":"%char) || is_whitespace c) (chars (trim s)) = true);
    [|congruence].
  apply existsb_exists. exists ":"%char. split; [by apply list_elem_of_In|done].
Qed.

(** The effect of a deletion that returned: what was asked, and a row that says so. *)
Lemma delete_effect dr a c id d d' :
  healthy dr -> delete_user dr a c id d = (Ok tt, d') ->
  exists before after, rows (d_users d) !! id = Some before /\ deleted_at before = None /\
    rows (d_users d') !! id = Some after /\
    after = tombstone (tombstone_name fmt_ts id (db_now dr)) (db_now dr) before /\
    (forall i, i <> id -> rows (d_users d') !! i = rows (d_users d) !! i) /\
    (forall i r at_, tokens (d_tokens d') !! i = Some r -> user_id r = id -> now dr <= at_ ->
       is_live_at r at_ = false).
Proof.
  intros Hup. unfold delete_user, fetch_live, fetch, mbind, se_bind, get_some, gets, mret, se_ret, throw, guard_err.
  destruct (get_user_by_id id (d_users d)) as [before|] eqn:Eb; [|done]. unfold get_user_by_id in Eb.
  destruct (is_deleted before) eqn:Ed; [done|]. simpl.
  assert (deleted_at before = None) as Hdel by (unfold is_deleted in Ed; by destruct (deleted_at before)).
  unfold a_users, part, soft_delete_user, mbind, se_bind, gets, guard_err, modify, throw, mret, se_ret.
  unfold read_user_for_update. rewrite Eb, Ed. destruct (negb (_ && _)); [|done].
  destruct (username_clash _ _ _); [done|]. simpl. unfold lift_h, part. set (d1 := mkDb _ _ _).
  destruct (revoke_all_ends dr id d1 Hup) as (d2 & -> & Hu & Hend). intros [= <-]. simpl.
  assert (rows (d_users d2) = <[id := tombstone (tombstone_name fmt_ts id (db_now dr)) (db_now dr) before]> (rows (d_users d))) as Hrows.
  { rewrite Hu. subst d1. simpl. unfold update_row. by rewrite Eb. }
  exists before, (tombstone (tombstone_name fmt_ts id (db_now dr)) (db_now dr) before).
  rewrite Hrows. split_and!; [done|done|by rewrite lookup_insert_eq|done| |exact Hend].
  intros i Hi. by rewrite lookup_insert_ne.
Qed.
End handlers.

Lemma no_such_user t name :
  (forall i u, rows t !! i = Some u -> deleted_at u = None -> nocase_eqb (Users.username u) name = false) ->
  get_user_by_username name t = None.
Proof.
  intros Hn. unfold get_user_by_username.
  match goal with |- head (select ?P t) = _ => assert (select P t = []) as -> end; [|done].
  apply select_nil. intros i u Hu. unfold is_deleted. destruct (deleted_at u) eqn:E; [apply andb_false_r|].
  by rewrite (Hn i u Hu E).
Qed.

(** Deleting a user is final: when the handler returns and its store calls succeeded, the row is a disabled tombstone, every
    other row is as it was, no refresh token of the user is usable at that time or later, and
    logging in under the old name is refused with any password. *)
Lemma deleted_user_cannot_return fmt_ts view_json verify sha256_hex jwt cfg dr a c id d d' :
  schema_ok (d_users d) -> healthy dr ->
  delete_user view_json fmt_ts dr a c id d = (Ok tt, d') ->
  exists before, rows (d_users d) !! id = Some before /\
    (exists after, rows (d_users d') !! id = Some after /\ disabled after = true /\ is_deleted after = true) /\
    (forall i, i <> id -> rows (d_users d') !! i = rows (d_users d) !! i) /\
    (forall i r t, tokens (d_tokens d') !! i = Some r -> user_id r = id -> now dr <= t -> is_live_at r t = false) /\
    forall dr2 c2 name password, nocase_eqb (Users.username before) (to_lowercase (trim name)) = true ->
      is_some (admin_secret cfg) = true -> healthy dr2 ->
      (post_login verify sha256_hex jwt cfg dr2 c2 name password d').1 = Err InvalidCredentials.
Proof.
  intros Hok Hup Hd. apply delete_effect in Hd as (before & after & Hb & Hbd & Ha & -> & Hother & Hend); [|done].
  exists before. split_and!; [done|by eexists|done|done|]. intros dr2 c2 name password Hname Hsec Hup2.
  unfold post_login, reject_login, record_login_failure_audit, logged, call. rewrite !Hup2. unfold mbind, se_bind, get_some, gets, mret, se_ret.
  destruct (admin_secret cfg); [|done]. rewrite no_such_user; [done|].
  intros i u Hi Hdel. destruct (decide (i = id)) as [->|Hne]; [by simplify_eq|].
  rewrite Hother in Hi by done.
  pose proof (names_unique _ Hok i id u before Hi Hb Hne) as Hn.
  unfold nocase_eqb in *. rewrite bool_decide_eq_true in Hname. rewrite bool_decide_eq_false in Hn |- *.
  congruence.
Qed.

(** alice, and bob whom she created at t = 5. *)
Definition two_users : Db :=
  mkDb (Users.create_user 5 (mkNewUser "Bob" Viewer (Some "pw") None true) one_admin).2 (mkTokens ∅ 0) [].

Lemma two_users_schema : schema_ok (d_users two_users).
Proof. apply create_schema, demo_schema. Qed.

Lemma deleted_user_cannot_return_witness :
  exists d', delete_user (fun _ _ => "") (fun _ => "t") (demo_draw 70 "d") (mkActor 1 false "j") demo_client 2
      two_users = (Ok tt, d') /\
    (post_login demo_verify demo_sha demo_jwt demo_cfg (demo_draw 71 "e") demo_client "bob" "pw" d').1
      = Err InvalidCredentials.
Proof.
  destruct (delete_user (fun _ _ => "") (fun _ => "t") (demo_draw 70 "d") (mkActor 1 false "j") demo_client 2
      two_users) as [[[]|e] d'] eqn:E; [|vm_compute in E; discriminate].
  exists d'. split; [done|].
  destruct (deleted_user_cannot_return (fun _ => "t") (fun _ _ => "") demo_verify demo_sha demo_jwt demo_cfg (demo_draw 70 "d") _ _ _ _ _
    two_users_schema ltac:(done) E) as (before & Hb & _ & _ & _ & Hl).
  apply Hl; [|done|done]. vm_compute in Hb. injection Hb as <-. vm_compute. reflexivity.
Defined.
