(* ===== verification/Oidc.v ===== *)
(** OIDC login, [nexus-engine/src/auth/oidc_login.rs] with the role mapping of
    [oidc_role_map.rs]: the pending-login registry, the redirect and URL helpers, the
    provisioning of users and the callback handler. The identity provider (its token endpoint
    and the verification of its ID tokens), SHA-256 and the JWT encoder are parameters. *)
From Stdlib Require Import Ascii.
From S2P Require Import Prelude Text Types AuditLog Users Lockout Sessions Login.

(** ** Claims and role mapping *)

(** [serde_json::Value], in the shapes the code tells apart. *)
Inductive Value := VString (s : string) | VArray (items : list Value) | VOther.

Record IdTokenClaims := mkIdClaims {
  iss : string;
  sub : string;
  extra : gmap string Value;
}.

Record OidcRoleMap := mkRoleMap {
  rm_admin : list string;
  rm_operator : list string;
  rm_viewer : list string;
}.

Record OidcConfig := mkOidcConfig {
  audience : string;
  client_id : option string;
  scopes : list string;
  role_claims : list string;
  role_map : OidcRoleMap;
  deny_unmapped : bool;
  redirect_uri : option string;
}.

Definition as_str (v : Value) : option string := match v with VString s => Some s | _ => None end.

(** The value list of a claim, [None] when its shape is not accepted. *)
Definition accepted (v : Value) : option (list string) :=
  match v with
  | VString s => Some [s]
  | VArray items =>
      if negb (forallb (fun i => is_some (as_str i)) items) || match items with [] => true | _ => false end
      then None
      else Some (omap as_str items)
  | VOther => None
  end.

Fixpoint resolve_first_claim (claims : IdTokenClaims) (paths : list string) : list string :=
  match paths with
  | [] => []
  | path :: rest =>
      match extra claims !! path with
      | None => resolve_first_claim claims rest
      | Some v => match accepted v with
                  | Some vs => vs
                  | None => resolve_first_claim claims rest
                  end
      end
  end.

Definition has_match (allow : list string) (values : gset string) : bool :=
  existsb (fun a => bool_decide (a ∈ values)) allow.

Definition map_role (claims : IdTokenClaims) (cfg : OidcConfig) : option Role :=
  let values : gset string := list_to_set (resolve_first_claim claims (role_claims cfg)) in
  if has_match (rm_admin (role_map cfg)) values then Some Admin
  else if has_match (rm_operator (role_map cfg)) values then Some Operator
  else if has_match (rm_viewer (role_map cfg)) values then Some Viewer
  else if deny_unmapped cfg then None
  else Some Viewer.

(** ** Pending logins *)

Definition PENDING_TTL : Z := secs 600.

Record PendingLogin := mkPending {
  pkce_verifier : string;
  nonce : string;
  redirect_to : string;
  created_at : Z;
}.

Abbreviation PendingMap := (gmap string PendingLogin).

Definition is_expired (p : PendingLogin) (now : Z) : bool := PENDING_TTL <? now - created_at p.

Definition insert_pending (state : string) (p : PendingLogin) (m : PendingMap) : PendingMap :=
  <[state := p]> (filter (fun e => is_expired e.2 (created_at p) = false) m).

Definition take_pending (state : string) (now : Z) (m : PendingMap) : option PendingLogin * PendingMap :=
  match m !! state with
  | None => (None, m)
  | Some p => (if is_expired p now then None else Some p, delete state m)
  end.

Inductive PendingOp := InsertPending (state : string) (p : PendingLogin) | TakePending (state : string) (now : Z).

#[export] Instance pending_machine : Machine PendingOp PendingMap (option PendingLogin) :=
  fun o m => match o with
             | InsertPending s p => (insert_pending s p m, None)
             | TakePending s t => let '(r, m') := take_pending s t m in (m', r)
             end.

(** ** Redirects and URLs *)

Definition is_safe_redirect (path : string) : bool :=
  starts_with path "/" && negb (starts_with path "//") && negb (contains path "://").

Definition sanitise_redirect_to (input : option string) : string :=
  match input with
  | Some p => if is_safe_redirect p then p else "/"
  | None => "/"
  end.

Definition hex_upper (d : Z) : ascii :=
  ascii_of_N (Z.to_N (if d <? 10 then 48 + d else 55 + d)).

Definition percent (c : ascii) : list ascii :=
  ["%"%char; hex_upper (Z.shiftr (code c) 4); hex_upper (Z.land (code c) 15)].

Definition unreserved (c : ascii) : bool :=
  is_ascii_alphanumeric c || bool_decide (c ∈ ["-"%char; "_"%char; "."%char; "~"%char]).

Definition url_encode_chars (l : list ascii) : list ascii :=
  l ≫= fun c => if unreserved c then [c] else percent c.

Definition url_encode (s : string) : string := of_chars (url_encode_chars (chars s)).

Definition oidc_redirect_uri (cfg : OidcConfig) : string :=
  default "/api/v1/auth/oidc/callback" (redirect_uri cfg).

Definition oidc_client_id (cfg : OidcConfig) : string := default (audience cfg) (client_id cfg).

Definition build_authorization_url (endpoint : string) (cfg : OidcConfig) (state nonce challenge : string) : string :=
  let params :=
    [("response_type", "code"); ("client_id", oidc_client_id cfg); ("redirect_uri", oidc_redirect_uri cfg);
     ("scope", join " " (scopes cfg)); ("state", state); ("nonce", nonce);
     ("code_challenge", challenge); ("code_challenge_method", "S256")] in
  let qs := join "&" (map (fun '(k, v) => k +:+ "=" +:+ url_encode v) params) in
  endpoint +:+ (if contains endpoint "?" then "&" else "?") +:+ qs.

Definition redirect_with_oidc_error (base err : string) : string :=
  let sep := if contains base "?" then "&" else "?" in
  let enc := chars err ≫= fun c =>
    if is_ascii_alphanumeric c || bool_decide (c = "-"%char) || bool_decide (c = "_"%char) then [c] else percent c in
  base +:+ sep +:+ "oidc_error=" +:+ of_chars enc.

(** The value of [name] in a Cookie header. *)
Definition extract_cookie (raw : option string) (name : string) : option string :=
  raw ← raw;
  head (omap (fun part =>
          '(k, v) ← split_once "="%char (trim part);
          if str_eqb k name then Some v else None) (split ";"%char raw)).

(** ** Provisioning *)

Definition hex_lower_digit (d : Z) : ascii := ascii_of_N (Z.to_N (if d <? 10 then 48 + d else 87 + d)).

Definition hex_lower (bytes : list Z) : string :=
  of_chars (bytes ≫= fun b => [hex_lower_digit (Z.shiftr b 4); hex_lower_digit (Z.land b 15)]).

Definition normalise_username (s : string) : string :=
  let cleaned := filter (fun c => is_ascii_alphanumeric c || bool_decide (c ∈ ["-"%char; "_"%char; "."%char]) = true)
                   (chars (to_lowercase (trim s))) in
  match cleaned with [] => "oidc-user" | _ => of_chars cleaned end.

Definition derive_username_hint (claims : IdTokenClaims) : string :=
  match extra claims !! "preferred_username" with
  | Some (VString s) => normalise_username s
  | _ =>
      match extra claims !! "email" with
      | Some (VString e) => normalise_username (default e (head (split "@"%char e)))
      | _ => normalise_username (sub claims)
      end
  end.

Inductive OidcLoginError :=
| BadRequest (tag : string)
| UnmappedRole
| NotEligible
| IdpTokenEndpoint
| IdpInvalidToken
| OAuthNotConfigured
| Internal.

Definition oidc_response (e : OidcLoginError) : Z * string :=
  match e with
  | BadRequest _ => (400, "bad_request")
  | UnmappedRole => (403, "unmapped_role")
  | NotEligible => (403, "oidc_user_not_eligible")
  | IdpTokenEndpoint => (502, "idp_token_endpoint")
  | IdpInvalidToken => (502, "idp_invalid_token")
  | OAuthNotConfigured => (503, "auth_not_configured")
  | Internal => (500, "internal_error")
  end.

(** The engine's tables and the registry. *)
Record OidcState := mkOidc { o_db : Db; o_pending : PendingMap }.

Definition OH (A : Type) : Type := SE OidcState OidcLoginError A.

Definition o_users {A} (m : UsersM A) : SE OidcState UsersError A :=
  part (fun s => d_users (o_db s))
    (fun u s => mkOidc (mkDb u (d_tokens (o_db s)) (d_audit (o_db s))) (o_pending s)) (fun e => e) m.

Definition o_tokens {A} (m : SessionsM A) : OH A :=
  part (fun s => d_tokens (o_db s))
    (fun t s => mkOidc (mkDb (d_users (o_db s)) t (d_audit (o_db s))) (o_pending s)) (fun _ => Internal) m.

(** A store error, as [From<StoreError>] maps it. *)
Definition to_oidc {A} (m : SE OidcState UsersError A) : OH A :=
  part (fun s => s) (fun s _ => s) (fun _ => Internal) m.

Definition new_oidc_user (name hash : string) (r : Role) : NewUser := mkNewUser name r None (Some hash) false.

Definition lookup_or_create_oidc_user (db_now : Z) (claims : IdTokenClaims) (r : Role) (hash : string)
    : OH (Z * User) := fun s =>
  match get_user_by_oidc_subject hash (d_users (o_db s)) with
  | Some found => (Ok found, s)
  | None =>
      let hint := derive_username_hint claims in
      let '(res, s) := o_users (create_user db_now (new_oidc_user hint hash r)) s in
      let '(name, s) :=
        match res with
        | Ok _ => (Ok hint, s)
        | Err UsernameTaken =>
            let alt := hint +:+ "-oidc-" +:+ of_chars (take 6 (chars hash)) in
            match o_users (create_user db_now (new_oidc_user alt hash r)) s with
            | (Ok _, s) => (Ok alt, s)
            | (Err _, s) => (Err Internal, s)
            end
        | Err _ => (Err Internal, s)
        end in
      match name with
      | Err e => (Err e, s)
      | Ok name =>
          match get_user_by_username name (d_users (o_db s)) with
          | Some found => (Ok found, s)
          | None => (Err Internal, s)
          end
      end
  end.

Record CallbackQuery := mkQuery { q_code : option string; q_state : option string; q_error : option string }.

Inductive CallbackResponse :=
| ErrorRedirect (location : string)
| LoggedIn (location : string) (tokens : TokenResponse).

Section handlers.
(** The provider: the ID token of a code and a PKCE verifier, and the claims of an ID token that
    verifies at an instant. *)
Context (exchange_code : string -> string -> option string).
Context (verify_id_token : string -> Z -> option IdTokenClaims).
Context (sha256 : string -> list Z) (sha256_hex : string -> string) (b64url : list Z -> string).
Context (jwt : AccessClaims -> string -> option string).
Context (cfg : OidcConfig) (admin_secret : option string).

Definition hash_oidc_subject (iss sub : string) : string :=
  hex_lower (sha256 (iss +:+ String (ascii_of_N 0) sub)).

Definition pkce_challenge_s256 (verifier : string) : string := b64url (sha256 verifier).

(** [verifier], [state] and [nonce] are the three random draws. *)
Definition post_start (now : Z) (endpoint verifier state nonce : string) (redirect : option string) : OH (string * string) :=
  let url := build_authorization_url endpoint cfg state nonce (pkce_challenge_s256 verifier) in
  modify (fun s => mkOidc (o_db s)
    (insert_pending state (mkPending verifier nonce (sanitise_redirect_to redirect) now) (o_pending s))) ;;
  mret (url, state).

Definition pop_pending (state : string) (t : Z) : OH (option PendingLogin) := fun s =>
  let '(p, m) := take_pending state t (o_pending s) in (Ok p, mkOidc (o_db s) m).

Definition get_callback (dr : Draw) (c : Client) (cookie : option string) (q : CallbackQuery) : OH CallbackResponse :=
  match q_error q with
  | Some err => mret (ErrorRedirect (redirect_with_oidc_error "/" err))
  | None =>
      code ← get_some (q_code q) (throw (BadRequest "missing_code"));
      state ← get_some (q_state q) (throw (BadRequest "missing_state"));
      guard_err match extract_cookie cookie "__Host-nexus_oidc_state" with
                | Some v => str_eqb v state
                | None => true
                end (BadRequest "state_mismatch") ;;
      popped ← pop_pending state (now dr);
      pending ← get_some popped (throw (BadRequest "unknown_state"));
      id_token ← get_some (exchange_code code (pkce_verifier pending)) (throw IdpTokenEndpoint);
      claims ← get_some (verify_id_token id_token (now dr)) (throw IdpInvalidToken);
      guard_err match extra claims !! "nonce" with
                | Some (VString n) => str_eqb n (nonce pending)
                | _ => false
                end IdpInvalidToken ;;
      r ← get_some (map_role claims cfg) (throw UnmappedRole);
      '(uid, u) ← lookup_or_create_oidc_user (db_now dr) claims r (hash_oidc_subject (iss claims) (sub claims));
      guard_err (negb (disabled u || is_deleted u)) NotEligible ;;
      secret ← get_some admin_secret (throw OAuthNotConfigured);
      access ← get_some (issue_access_token jwt uid (role u) secret (now dr) ACCESS_TOKEN_TTL (fresh_jti dr)
                           (Some (fresh_chain dr))) (throw Internal);
      refresh ← get_some (fresh_secret dr) (throw Internal);
      row ← o_tokens (insert_refresh_token (db_now dr)
        (mkNewToken (sha256_hex refresh) uid (fresh_chain dr) None (now dr + REFRESH_TOKEN_TTL) (c_ua c) (Some (c_ip c))));
      to_oidc (o_users (record_login_success (db_now dr) uid)) ;;
      mret (LoggedIn (redirect_to pending)
              (make_token_response access refresh (mkSessionUser uid (Users.username u) (role u) false)))
  end.
End handlers.

(** ** Role mapping *)

Lemma has_match_spec allow l : has_match allow (list_to_set l) = true <-> exists a, a ∈ allow /\ a ∈ l.
Proof.
  unfold has_match. rewrite existsb_exists. split; intros (a & Ha & Hl); exists a.
  - apply bool_decide_eq_true in Hl. split; [by apply list_elem_of_In|set_solver].
  - split; [by apply list_elem_of_In|]. apply bool_decide_eq_true. set_solver.
Qed.

(** A claim that is missing or has a shape that is not accepted. *)
Definition unresolved (claims : IdTokenClaims) (path : string) : Prop :=
  match extra claims !! path with Some v => accepted v = None | None => True end.

Lemma resolve_skip claims pre p post v vs :
  Forall (unresolved claims) pre -> extra claims !! p = Some v -> accepted v = Some vs ->
  resolve_first_claim claims (pre ++ p :: post) = vs.
Proof.
  intros Hpre Hp Hv. induction Hpre as [|q pre Hq _ IH]; simpl; [by rewrite Hp, Hv|].
  unfold unresolved in Hq. destruct (extra claims !! q) as [w|]; [by rewrite Hq|done].
Qed.

Definition matched (claims : IdTokenClaims) (cfg : OidcConfig) (allow : list string) : Prop :=
  exists a, a ∈ allow /\ a ∈ resolve_first_claim claims (role_claims cfg).

(** The role a token maps to: the highest one whose list shares a value with the first claim,
    in the configured order, that has an accepted shape; claims after it are never looked at,
    so they cannot raise the role; with no match it is [Viewer], or a refusal under
    [deny_unmapped]. *)
Lemma map_role_first_claim_wins claims cfg pre p post v vs :
  role_claims cfg = pre ++ p :: post -> Forall (unresolved claims) pre ->
  extra claims !! p = Some v -> accepted v = Some vs ->
  let hit allow := exists a, a ∈ allow /\ a ∈ vs in
  (map_role claims cfg = Some Admin <-> hit (rm_admin (role_map cfg))) /\
  (map_role claims cfg = Some Operator <->
     hit (rm_operator (role_map cfg)) /\ ~ hit (rm_admin (role_map cfg))) /\
  (map_role claims cfg = None <-> deny_unmapped cfg = true /\
     ~ hit (rm_admin (role_map cfg)) /\ ~ hit (rm_operator (role_map cfg)) /\ ~ hit (rm_viewer (role_map cfg))).
Proof.
  intros Hcfg Hpre Hp Hv hit. unfold map_role. rewrite Hcfg, (resolve_skip _ _ _ _ _ _ Hpre Hp Hv).
  assert (forall allow, hit allow <-> has_match allow (list_to_set vs) = true) as Hh
    by (intros; symmetry; apply has_match_spec).
  rewrite !Hh. repeat case_match; naive_solver.
Qed.

Definition demo_oidc : OidcConfig :=
  mkOidcConfig "aud" None ["openid"] ["groups"; "roles"] (mkRoleMap ["admins"] ["guards"] []) true None.

Lemma map_role_first_claim_wins_witness :
  map_role (mkIdClaims "i" "s" (<["groups" := VArray [VString "guards"]]> {["roles" := VString "admins"]})) demo_oidc
  = Some Operator.
Proof.
  eapply (map_role_first_claim_wins _ demo_oidc [] "groups" ["roles"]).
  - reflexivity.
  - constructor.
  - vm_compute. reflexivity.
  - vm_compute. reflexivity.
  - split.
    + exists "guards". split; apply list_elem_of_In; simpl; auto.
    + intros (a & Ha & Hb). apply list_elem_of_singleton in Ha, Hb. congruence.
Defined.

(** ** Pending logins *)

Lemma filter_none (m : PendingMap) s t :
  m !! s = None -> filter (fun e => is_expired e.2 t = false) m !! s = None.
Proof. intros Hm. apply map_lookup_filter_None. by left. Qed.

Definition not_reissued (state : string) (o : PendingOp) : Prop :=
  match o with InsertPending s _ => s <> state | TakePending _ _ => True end.

Lemma stays_gone state o (m : PendingMap) :
  not_reissued state o -> m !! state = None -> (mstep o m).1 !! state = None.
Proof.
  destruct o as [s p|s t]; unfold mstep, pending_machine; simpl; intros Ho Hm.
  - unfold insert_pending. rewrite lookup_insert_ne by done. by apply filter_none.
  - unfold take_pending. destruct (m !! s); simpl; [|done].
    destruct (decide (s = state)) as [->|Hne]; [by rewrite lookup_delete_eq|by rewrite lookup_delete_ne].
Qed.

(** A login state is single-use and short-lived: a take that succeeds finds the very login
    inserted under it, at most ten minutes old, and no later take of the same state succeeds,
    whatever logins start and end in between, unless the state is issued again. *)
Lemma pending_state_is_single_use state now m p m' :
  take_pending state now m = (Some p, m') ->
  m !! state = Some p /\ now - created_at p <= PENDING_TTL /\
  forall ops t, Forall (not_reissued state) ops -> (take_pending state t (mrun ops m').1).1 = None.
Proof.
  unfold take_pending at 1. destruct (m !! state) as [q|] eqn:E; [|done].
  destruct (is_expired q now) eqn:Ex; [done|]. intros [= <- <-]. split_and!; [done| |].
  { unfold is_expired in Ex. by apply Z.ltb_ge in Ex. }
  intros ops t Hops. assert ((mrun ops (delete state m)).1 !! state = None) as Hn.
  { apply (mrun_invariant (not_reissued state) (fun m => m !! state = None)); [|done|by rewrite lookup_delete_eq].
    intros. by apply stays_gone. }
  unfold take_pending. by rewrite Hn.
Qed.

Lemma pending_state_is_single_use_witness :
  let p := mkPending "v" "n" "/" 0 in
  let m := insert_pending "s" p ∅ in
  (take_pending "s" (secs 600) m).1 = Some p /\
  (take_pending "s" (secs 602) (mrun [InsertPending "t" p; TakePending "s" (secs 601)] (delete "s" m)).1).1 = None.
Proof.
  split; [vm_compute; reflexivity|].
  refine (proj2 (proj2 (pending_state_is_single_use "s" (secs 600) (insert_pending "s" (mkPending "v" "n" "/" 0) ∅)
    (mkPending "v" "n" "/" 0) _ _)) _ _ _).
  - vm_compute. reflexivity.
  - repeat constructor; discriminate.
Defined.

(** ** URLs *)

Definition hex_value (c : ascii) : Z :=
  if is_digit c then code c - 48 else code c - 55.

(** The decoding of RFC 3986, as a server reads a query value. *)
Fixpoint percent_decode (l : list ascii) : list ascii :=
  match l with
  | c :: ((a :: b :: rest) as l') =>
      if bool_decide (c = "%"%char)
      then ascii_of_N (Z.to_N (16 * hex_value a + hex_value b)) :: percent_decode rest
      else c :: percent_decode l'
  | c :: l' => c :: percent_decode l'
  | [] => []
  end.

(** Facts about single characters are checked on all 256 of them. *)
Definition all_chars : list ascii := map (fun n => ascii_of_N (N.of_nat n)) (List.seq 0 256).

Lemma all_chars_all c : c ∈ all_chars.
Proof.
  apply list_elem_of_fmap. exists (N.to_nat (N_of_ascii c)). split.
  - by rewrite N2Nat.id, ascii_N_embedding.
  - apply elem_of_seq. pose proof (N_ascii_bounded c). lia.
Qed.

Lemma check_chars (P : ascii -> bool) : forallb P all_chars = true -> forall c, P c = true.
Proof. intros H c. rewrite forallb_forall in H. apply H. apply list_elem_of_In, all_chars_all. Qed.

Lemma percent_value c :
  16 * hex_value (hex_upper (Z.shiftr (code c) 4)) + hex_value (hex_upper (Z.land (code c) 15)) = code c.
Proof.
  revert c. assert (forall c, (16 * hex_value (hex_upper (Z.shiftr (code c) 4)) +
    hex_value (hex_upper (Z.land (code c) 15)) =? code c) = true) as H by (apply check_chars; vm_compute; reflexivity).
  intros c. by apply Z.eqb_eq.
Qed.

Lemma code_ascii c : ascii_of_N (Z.to_N (code c)) = c.
Proof. unfold code. by rewrite N2Z.id, ascii_N_embedding. Qed.

Lemma unreserved_not_percent c : unreserved c = true -> c <> "%"%char.
Proof. intros Hu ->. vm_compute in Hu. done. Qed.

Lemma decode_unreserved c l : c <> "%"%char -> percent_decode (c :: l) = c :: percent_decode l.
Proof. intros Hc. destruct l as [|a [|b l]]; [done..|]. simpl. by rewrite bool_decide_false. Qed.

Lemma decode_percent c l : percent_decode (percent c ++ l) = c :: percent_decode l.
Proof. cbn [percent app percent_decode]. rewrite bool_decide_true by done. by rewrite percent_value, code_ascii. Qed.

(** The characters that structure a query: none of them survives the encoding. *)
Definition delimiters : list ascii :=
  ["&"%char; "="%char; "?"%char; "#"%char; "/"%char; " "%char; "+"%char; ";"%char; "034"%char; "010"%char; "013"%char].

Lemma encoded_safe c d : d ∈ (if unreserved c then [c] else percent c) -> d ∉ delimiters.
Proof.
  assert (forall c, forallb (fun d => negb (bool_decide (d ∈ delimiters)))
    (if unreserved c then [c] else percent c) = true) as H by (apply check_chars; vm_compute; reflexivity).
  specialize (H c). rewrite forallb_forall in H. intros Hd. apply list_elem_of_In in Hd.
  specialize (H d Hd). by apply negb_true_iff, bool_decide_eq_false in H.
Qed.

(** URL encoding loses nothing and injects nothing: decoding gives the string back, and no
    character that structures a query occurs in the result, so a value cannot add a parameter
    to the authorization URL. *)
Lemma url_encode_roundtrip s :
  percent_decode (chars (url_encode s)) = chars s /\
  forall d, d ∈ chars (url_encode s) -> d ∉ delimiters.
Proof.
  unfold url_encode. rewrite chars_of_chars. unfold url_encode_chars. induction (chars s) as [|c l [IH1 IH2]].
  { split; [done|]. by intros d ?%elem_of_nil. }
  rewrite bind_cons. split.
  - destruct (unreserved c) eqn:Hc.
    + cbn [app]. rewrite decode_unreserved by (by apply unreserved_not_percent). by rewrite IH1.
    + by rewrite decode_percent, IH1.
  - intros d [Hd|Hd]%elem_of_app; [by eapply encoded_safe|by apply IH2].
Qed.

(** ** The callback *)

Definition pending_is (m : PendingMap) (s : OidcState) : Prop := o_pending s = m.

Lemma o_users_pending {A} m (x : UsersM A) : preserves (pending_is m) (o_users x).
Proof. by apply (preserves_part _ (fun _ => True)). Qed.

Lemma o_tokens_pending {A} m (x : SessionsM A) : preserves (pending_is m) (o_tokens x).
Proof. by apply (preserves_part _ (fun _ => True)). Qed.

Lemma provision_pending m t claims r h : preserves (pending_is m) (lookup_or_create_oidc_user t claims r h).
Proof.
  intros s Hs. unfold lookup_or_create_oidc_user. destruct (get_user_by_oidc_subject _ _); [done|].
  pose proof (o_users_pending m (create_user t (new_oidc_user (derive_username_hint claims) h r)) s Hs) as H1.
  destruct (o_users _ s) as [[id|e] s1]; simpl in H1.
  - by destruct (get_user_by_username _ _).
  - destruct e; try exact H1.
    match goal with |- context [o_users ?x s1] => pose proof (o_users_pending m x s1 H1) as H2;
      destruct (o_users x s1) as [[id|e] s2] end; simpl in H2; [|exact H2].
    by destruct (get_user_by_username _ _).
Qed.

Lemma sanitise_safe input : is_safe_redirect (sanitise_redirect_to input) = true.
Proof. unfold sanitise_redirect_to. destruct input as [p|]; [destruct (is_safe_redirect p) eqn:E|]; done. Qed.

(** Every pending login has a safe redirect target, which [post_start] maintains. *)
Definition pending_safe (s : OidcState) : Prop :=
  forall st p, o_pending s !! st = Some p -> is_safe_redirect (redirect_to p) = true.

Lemma post_start_safe sha b64 cfg t ep v st n red :
  preserves pending_safe (post_start sha b64 cfg t ep v st n red).
Proof.
  intros s Hs st' p. simpl. unfold insert_pending. rewrite lookup_insert. case_decide.
  - intros [= <-]. apply sanitise_safe.
  - intros [Hp _]%map_lookup_filter_Some. by eapply Hs.
Qed.

(** A completed OIDC login was asked for and authorised: its state named a pending login at
    most ten minutes old, which is gone afterwards; the ID token carried that login's nonce and
    mapped to a role; the browser is sent to the safe path stored when the login started, for
    a user that is neither disabled nor deleted. *)
Lemma oidc_login_was_authorised exch vrf sha sha_hex jwt cfg sec dr c cookie q s loc tok s' :
  pending_safe s ->
  get_callback exch vrf sha sha_hex jwt cfg sec dr c cookie q s = (Ok (LoggedIn loc tok), s') ->
  exists state p claims r u,
    q_state q = Some state /\ o_pending s !! state = Some p /\ now dr - created_at p <= PENDING_TTL /\
    o_pending s' !! state = None /\
    extra claims !! "nonce" = Some (VString (nonce p)) /\ map_role claims cfg = Some r /\
    loc = redirect_to p /\ is_safe_redirect loc = true /\
    su_role (user tok) = role u /\ disabled u = false /\ is_deleted u = false.
Proof.
  intros Hsafe. unfold get_callback, pop_pending, take_pending, mbind, se_bind, get_some, guard_err, throw, mret, se_ret.
  destruct (q_error q); [done|]. destruct (q_code q) as [code|]; [|done].
  destruct (q_state q) as [state|]; [|done]. destruct (match extract_cookie _ _ with Some _ => _ | None => _ end); [|done].
  destruct (o_pending s !! state) as [p|] eqn:Hp; [|done].
  destruct (is_expired p (now dr)) eqn:Hx; [done|]. simpl.
  destruct (exch _ _) as [id_token|]; [|done]. destruct (vrf _ _) as [claims|]; [|done].
  destruct (match extra claims !! _ with Some _ => _ | None => _ end) eqn:Hn; [|done].
  destruct (map_role claims cfg) as [r|] eqn:Hr; [|done].
  set (s1 := mkOidc (o_db s) (delete state (o_pending s))).
  match goal with |- context [lookup_or_create_oidc_user ?t ?cl ?ro ?h s1] =>
    pose proof (provision_pending (delete state (o_pending s)) t cl ro h s1 eq_refl) as Hs2;
    destruct (lookup_or_create_oidc_user t cl ro h s1) as [[[uid u]|e] s2] end; [|done].
  destruct (disabled u || is_deleted u) eqn:Hd; [done|]. simpl. apply orb_false_iff in Hd as [Hdis Hdel].
  destruct sec as [sec|]; [|done]. destruct (issue_access_token _ _ _ _ _ _ _ _) as [acc|]; [|done].
  destruct (fresh_secret dr) as [ref|]; [|done].
  match goal with |- context [o_tokens ?m s2] => pose proof (o_tokens_pending (delete state (o_pending s)) m s2 Hs2) as Hs3;
    destruct (o_tokens m s2) as [[row|e] s3] end; [|done].
  intros [= <- <- <-]. exists state, p, claims, r, u. split_and!; try done.
  - unfold is_expired in Hx. by apply Z.ltb_ge in Hx.
  - unfold pending_is in Hs3. simpl in Hs3 |- *. rewrite Hs3. apply lookup_delete_eq.
  - destruct (extra claims !! "nonce") as [[n| |]|]; try done. unfold str_eqb in Hn.
    apply bool_decide_eq_true in Hn. by subst.
  - by eapply Hsafe.
Qed.

Definition demo_claims : IdTokenClaims :=
  mkIdClaims "https://idp" "42" (<["groups" := VString "guards"]> {["nonce" := VString "n"]}).

Definition demo_exchange (code verifier : string) : option string :=
  if str_eqb code "good" && str_eqb verifier "v" then Some "token" else None.

Definition demo_idp (t : string) (_ : Z) : option IdTokenClaims :=
  if str_eqb t "token" then Some demo_claims else None.

(** A toy digest: six bytes of the subject's length. *)
Definition demo_sha256 (s : string) : list Z := repeat (blen s mod 256) 6.

Definition demo_start : OidcState :=
  mkOidc demo_db (insert_pending "st" (mkPending "v" "n" "/#/events" 0) ∅).

Definition demo_callback (s : OidcState) : result CallbackResponse OidcLoginError * OidcState :=
  get_callback demo_exchange demo_idp demo_sha256 demo_sha demo_jwt demo_oidc (Some "key") (demo_draw 60 "o")
    demo_client (Some "x=1; __Host-nexus_oidc_state=st") (mkQuery (Some "good") (Some "st") None) s.

Lemma oidc_login_was_authorised_witness :
  exists tok s', demo_callback demo_start = (Ok (LoggedIn "/#/events" tok), s') /\ su_role (user tok) = Operator.
Proof.
  destruct (demo_callback demo_start) as [[[loc|loc tok]|e] s'] eqn:E; [vm_compute in E; discriminate| |vm_compute in E; discriminate].
  assert (pending_safe demo_start) as Hsafe.
  { intros st p Hp. unfold demo_start in Hp. simpl in Hp. unfold insert_pending in Hp. rewrite lookup_insert in Hp.
    case_decide; [by simplify_eq|]. apply map_lookup_filter_Some in Hp as [Hp _]. by rewrite lookup_empty in Hp. }
  destruct (oidc_login_was_authorised demo_exchange demo_idp demo_sha256 demo_sha demo_jwt demo_oidc (Some "key")
    (demo_draw 60 "o") demo_client (Some "x=1; __Host-nexus_oidc_state=st") (mkQuery (Some "good") (Some "st") None)
    demo_start loc tok s' Hsafe E) as (st & p & cl & r & u & Hst & Hp & _ & _ & _ & _ & Hloc & _).
  exists tok, s'. simpl in Hst. injection Hst as <-. vm_compute in Hp. injection Hp as <-. simpl in Hloc. subst loc.
  split; [done|]. vm_compute in E. injection E as <- _. reflexivity.
Defined.

(** A deleted OIDC user who comes back: the provisioning does not find the tombstone, fails twice
    on its UNIQUE subject and answers 500, not the 403 [oidc_user_not_eligible] that the module
    documents for deleted users. *)
Theorem deleted_oidc_user_gets_500 :
  let s1 := (demo_callback demo_start).2 in
  let u2 := (soft_delete_user (fun _ => "t") (secs 90) 2 (d_users (o_db s1))).2 in
  let s2 := mkOidc (mkDb u2 (d_tokens (o_db s1)) []) (o_pending demo_start) in
  (soft_delete_user (fun _ => "t") (secs 90) 2 (d_users (o_db s1))).1 = Ok tt /\
  (demo_callback s2).1 = Err Internal /\ oidc_response Internal = (500, "internal_error").
Proof. vm_compute. auto. Qed.

(** A path that browsers read as [//evil.example] passes the redirect check. *)
Theorem backslash_redirect_accepted : is_safe_redirect "/\evil.example" = true.
Proof. reflexivity. Qed.
