(* ===== verification/RequireRole.v ===== *)
(** The request extractor, [nexus-engine/src/auth/require_role.rs]: from a bearer token to the
    caller's identity and role. The JWT library's decoding (signature and algorithm) is a
    parameter that returns the claims of a token that verifies under a key. *)
From Stdlib Require Import Ascii.
From stdpp Require Import pretty.
From S2P Require Import Prelude Text Types.

Record SessionContext := mkContext {
  user_id : Z;
  role : Role;
  jti : string;
  is_legacy_admin : bool;
  chain_id : option string;
}.

Inductive SessionRejection :=
| Missing
| Invalid
| InsufficientRole (have need : Role).

Definition rejection_status (r : SessionRejection) : Z * string :=
  match r with
  | Missing | Invalid => (401, "authentication required")
  | InsufficientRole _ _ => (403, "insufficient role")
  end.

Definition ctx_satisfies (c : SessionContext) (required : Role) : bool := satisfies (role c) required.

Definition require (c : SessionContext) (required : Role) : result unit SessionRejection :=
  if ctx_satisfies c required then Ok tt else Err (InsufficientRole (role c) required).

(** Both token shapes: a legacy token has no role. *)
Record EitherClaims := mkEither {
  e_sub : option string;
  e_role : option Role;
  e_exp : Z;
  e_jti : option string;
  e_chain_id : option string;
}.

(** [i64::from_str]: a sign, digits, and no overflow. *)
Definition in_i64 (z : Z) : option Z := if (- 2 ^ 63 <=? z) && (z <? 2 ^ 63) then Some z else None.

Definition parse_i64 (s : string) : option Z :=
  match chars s with
  | [] => None
  | c :: l =>
      let neg := bool_decide (c = "-"%char) in
      let l := if neg || bool_decide (c = "+"%char) then l else c :: l in
      match l with
      | [] => None
      | _ => n ← parse_digits 0 l; in_i64 (if neg then - n else n)
      end
  end.

Section extractor.
Context (decode : string -> string -> option EitherClaims).

(** [now] is the clock in whole seconds. *)
Definition decode_to_context (token key : string) (now : Z) : result SessionContext SessionRejection :=
  match decode token key with
  | None => Err Invalid
  | Some cl =>
      if e_exp cl <=? now then Err Invalid
      else
        let '(r, is_legacy) := match e_role cl with Some r => (r, false) | None => (Admin, true) end in
        let uid := default 0 (s ← e_sub cl; parse_i64 s) in
        let j := default "legacy"
                   (if is_legacy then match e_sub cl with Some s => Some s | None => e_jti cl end
                    else e_jti cl) in
        Ok (mkContext uid r j is_legacy (e_chain_id cl))
  end.

(** The token of an [Authorization] header. *)
Definition extract_bearer (h : option string) : option string :=
  h ← h;
  '(scheme, token) ← split_once " "%char h;
  if eq_ignore_ascii_case scheme "Bearer" && negb (str_eqb token "") then Some token else None.

Definition dev_context : SessionContext := mkContext 0 Admin "dev-no-secret" true None.

Definition authorise (secret bearer : option string) (now : Z) : result SessionContext SessionRejection :=
  match secret, bearer with
  | None, _ => Ok dev_context
  | Some _, None => Err Missing
  | Some s, Some t => decode_to_context t s now
  end.

(** ** Properties *)

(** With a secret configured, a handler that requires a role runs only for a caller who sent
    a bearer token that verifies under it, has not expired, and carries a role at least as
    high (or no role at all, the legacy administrator); the identity it sees is the token's. *)
Lemma authorised_caller_has_the_role secret header now need c :
  (let? ctx := authorise (Some secret) (extract_bearer header) now in
   try? require ctx need in Ok ctx) = Ok c ->
  exists token cl, extract_bearer header = Some token /\ decode token secret = Some cl /\ now < e_exp cl /\
    satisfies (default Admin (e_role cl)) need = true /\
    role c = default Admin (e_role cl) /\ is_legacy_admin c = negb (is_some (e_role cl)) /\
    user_id c = default 0 (s ← e_sub cl; parse_i64 s).
Proof.
  unfold authorise. destruct (extract_bearer header) as [token|]; [|done]. unfold decode_to_context.
  destruct (decode token secret) as [cl|] eqn:Ed; [|done].
  destruct (Z.leb_spec (e_exp cl) now); [done|]. unfold require, ctx_satisfies.
  destruct (e_role cl) as [r|] eqn:Er; simpl.
  - destruct (satisfies r need) eqn:Es; [|done]. intros [= <-]. exists token, cl. by rewrite Er.
  - destruct (satisfies Admin need) eqn:Es; [|done]. intros [= <-]. exists token, cl. by rewrite Er.
Qed.
End extractor.

(** A decoder of one token. *)
Definition demo_decode (token key : string) : option EitherClaims :=
  if str_eqb token "tok" && str_eqb key "k" then Some (mkEither (Some "7") (Some Operator) 100 (Some "j") None) else None.

Lemma authorised_caller_has_the_role_witness :
  exists c, (let? ctx := authorise demo_decode (Some "k") (extract_bearer (Some "bearer tok")) 99 in
     try? require ctx Viewer in Ok ctx) = Ok c /\ user_id c = 7 /\ role c = Operator.
Proof.
  destruct (let? ctx := authorise demo_decode (Some "k") (extract_bearer (Some "bearer tok")) 99 in
     try? require ctx Viewer in Ok ctx) as [c|e] eqn:E; [|vm_compute in E; discriminate].
  exists c. split; [done|].
  destruct (authorised_caller_has_the_role demo_decode "k" (Some "bearer tok") 99 Viewer c E)
    as (t & cl & Ht & Hd & _ & _ & Hr & _ & Hu).
  vm_compute in Ht. injection Ht as <-. vm_compute in Hd. injection Hd as <-. split; [exact Hu|exact Hr].
Defined.
