(* ===== verification/Backoff.v ===== *)
(** Exponential backoff, [nexus-sinks/src/backoff.rs]. Durations are nanoseconds; the attempt
    counts are [u32], the delays are computed in [u64] milliseconds. *)
From S2P Require Import Prelude.

Definition BASE : Z := millis 500.
Definition CAP : Z := secs 60.
Definition MAX_ATTEMPTS : Z := 8.

Definition backoff_for_with (attempts base cap max_attempts : Z) : option Z :=
  if max_attempts <=? attempts then None
  else
    let exp := sat_sub attempts 1 in
    let base_ms := as_millis base mod 2 ^ 64 in
    let shift := Z.min exp 63 in
    let raw_ms := usat_mul 64 base_ms (Z.shiftl 1 shift) in
    Some (Z.min (millis raw_ms) cap).

Definition backoff_for (attempts : Z) : option Z := backoff_for_with attempts BASE CAP MAX_ATTEMPTS.

(** The wait of the design table: [base * 2^(attempts-1)], capped. *)
Definition backoff_spec (attempts base cap : Z) : Z := Z.min (base * 2 ^ Z.max 0 (attempts - 1)) cap.

Lemma saturated_is_capped base_ms exp cap :
  0 <= base_ms -> 0 <= exp -> cap <= millis (2 ^ 63) ->
  Z.min (millis (usat_mul 64 base_ms (Z.shiftl 1 (Z.min exp 63)))) cap =
  Z.min (millis base_ms * 2 ^ exp) cap.
Proof.
  intros Hb He Hc. rewrite Z.shiftl_1_l. unfold usat_mul, millis in *.
  assert (ns_per_ms = 1000000) as En by done. assert (umax 64 = 18446744073709551615) as Eu by done.
  assert (2 ^ 63 = 9223372036854775808) as E63 by done.
  rewrite En, Eu, E63 in *. destruct (Z.eq_dec base_ms 0) as [->|Hpos]; [by rewrite !Z.mul_0_l|].
  destruct (Z.le_gt_cases exp 63) as [Hle|Hgt].
  - rewrite (Z.min_l exp 63) by lia. pose proof (Z.pow_pos_nonneg 2 exp ltac:(lia) He). nia.
  - rewrite (Z.min_r exp 63), E63 by lia.
    assert (2 ^ 63 <= 2 ^ exp) as Hpow by (apply Z.pow_le_mono_r; lia). rewrite E63 in Hpow. nia.
Qed.

(** The backoff computes the design table: a retry is due exactly when fewer than
    [max_attempts] deliveries were made, after [base * 2^(attempts-1)] capped at [cap], whatever
    the attempt count (no overflow); for the default schedule the delays double from half a
    second, never decrease, and stay under the cap. *)
Lemma backoff_is_capped_doubling :
  (forall attempts base cap max_attempts,
     0 <= attempts -> 0 <= base -> base mod ns_per_ms = 0 -> as_millis base < 2 ^ 64 -> cap <= millis (2 ^ 63) ->
     backoff_for_with attempts base cap max_attempts =
       if max_attempts <=? attempts then None else Some (backoff_spec attempts base cap)) /\
  map backoff_for [0; 1; 2; 3; 4; 5; 6; 7; 8] =
    [Some (millis 500); Some (millis 500); Some (secs 1); Some (secs 2); Some (secs 4); Some (secs 8);
     Some (secs 16); Some (secs 32); None].
Proof.
  split; [|vm_compute; reflexivity].
  intros attempts base cap mx Ha Hb Hm Hs Hc. unfold backoff_for_with. destruct (mx <=? attempts); [done|].
  f_equal. assert (0 <= as_millis base) by (apply Z.div_pos; [lia|done]).
  rewrite (Z.mod_small (as_millis base)) by lia.
  rewrite saturated_is_capped by (unfold sat_sub; lia). unfold backoff_spec, sat_sub. f_equal. f_equal.
  unfold millis, as_millis. pose proof (Z.div_mod base ns_per_ms ltac:(done)). lia.
Qed.

Lemma backoff_defined attempts : is_Some (backoff_for attempts) <-> attempts < MAX_ATTEMPTS.
Proof.
  unfold backoff_for, backoff_for_with. destruct (Z.leb_spec MAX_ATTEMPTS attempts); split;
    intros; try lia; try (by eexists). by destruct H0.
Qed.

Lemma backoff_positive attempts d : 0 <= attempts -> backoff_for attempts = Some d -> 0 < d <= CAP.
Proof.
  unfold backoff_for, backoff_for_with. intros Ha. case_match; [done|]. intros [= <-].
  change (as_millis BASE mod 2 ^ 64) with 500. assert (CAP = 60000000000) as -> by done.
  unfold millis, usat_mul. assert (ns_per_ms = 1000000) as -> by done.
  assert (umax 64 = 18446744073709551615) as -> by done. rewrite Z.shiftl_1_l.
  pose proof (Z.pow_pos_nonneg 2 (Z.min (sat_sub attempts 1) 63) ltac:(lia) ltac:(unfold sat_sub; lia)). lia.
Qed.
