(* ===== verification/Alert.v ===== *)
(** JSON values ([serde_json::Value]) and the records of [nexus-types/src/lib.rs] that carry them:
    detections, tracked objects and the alert, [AlertEvent]. *)
From S2P Require Import Prelude Float Types.

(** ** JSON *)

(** A number is an integer of [i64] or [u64], or a finite [f64]. *)
Inductive JsonValue :=
| JNull
| JBool (b : bool)
| JInt (z : Z)
| JFloat (f : f64)
| JString (s : string)
| JArray (items : list JsonValue)
| JObject (fields : list (string * JsonValue)).

Definition as_bool (v : JsonValue) : option bool := match v with JBool b => Some b | _ => None end.

Definition as_i64 (z : Z) : option Z := if (- 2 ^ 63 <=? z) && (z <? 2 ^ 63) then Some z else None.

Definition as_u64 (v : JsonValue) : option Z :=
  match v with JInt z => if (0 <=? z) && (z <? 2 ^ 64) then Some z else None | _ => None end.

(** [Number::from_f64]: there is no JSON number for a NaN or an infinity. *)
Definition from_f64 (f : f64) : JsonValue := if is_finite f then JFloat f else JNull.

(** ** Detections and tracked objects *)

Record Detection := mkDetection {
  d_label : string;
  d_confidence : f32;
  d_bbox : BBox;
  d_attributes : gmap string JsonValue;
}.

Record TrackedObject := mkObject {
  o_track_id : Z;
  o_label : string;
  confidence : f32;
  o_bbox : BBox;
  detection_bbox : option BBox;
  age_frames : Z;
  age_ms : Z;
  attributes : gmap string JsonValue;
}.

(** ** The alert *)

Inductive Severity := Low | Medium | High | Critical.

Record Artifacts := mkArtifacts {
  snapshot : option string;
  clip : option string;
  cloud_receipt : option string;
}.

Record AlertEvent := mkEvent {
  event_id : string;
  camera_id : Z;
  rule_id : string;
  track_id : option Z;
  label : string;
  severity : Severity;
  bbox : option BBox;
  frame_id : Z;
  captured_at : Z;
  trace_id : string;
  frame_w : Z;
  frame_h : Z;
  artifacts : Artifacts;
  context : gmap string JsonValue;
}.

(** [event.artifacts.clip = Some(path)] *)
Definition with_clip (path : string) (e : AlertEvent) : AlertEvent :=
  mkEvent (event_id e) (camera_id e) (rule_id e) (track_id e) (label e) (severity e) (bbox e)
    (frame_id e) (captured_at e) (trace_id e) (frame_w e) (frame_h e)
    (mkArtifacts (snapshot (artifacts e)) (Some path) (cloud_receipt (artifacts e))) (context e).
