(* ===== verification/Sinks.v ===== *)
(** The alert sinks, [nexus-sinks/src/lib.rs].

    A sink id is the string ["kind:name"]. The registry holds the sinks built from the
    configuration and the reserved ones of the engine; [merge_sink_configs] computes the
    configuration from the file and the database. What a sink does with an alert is not part of
    this file: the dispatcher takes the answer of [deliver] as an input. *)
From Stdlib Require Import Ascii.
From S2P Require Import Prelude Text.

(** ** Sink ids *)

Definition SinkId : Type := string.

Definition colon : ascii := ":"%char.

Definition is_empty_str (s : string) : bool := str_eqb s "".

Definition new (kind name : string) : option SinkId :=
  if is_empty_str kind || is_empty_str name || contains kind ":" || contains name ":" then None
  else Some (kind +:+ ":" +:+ name).

Definition parse (raw : string) : option SinkId :=
  match split_once colon raw with
  | Some (kind, name) => new kind name
  | None => None
  end.

Definition id_kind (id : SinkId) : string := default "" (head (split colon id)).
Definition id_name (id : SinkId) : string :=
  match split_once colon id with Some (_, n) => n | None => "" end.

(** ** Errors of a delivery *)

Inductive SinkError := Transient (msg : string) | Permanent (msg : string).

Definition is_transient (e : SinkError) : bool := match e with Transient _ => true | Permanent _ => false end.

(** ** The registry *)

(** The parts of [AlertSink] the dispatcher reads: its id and whether it attaches the clip. *)
Record AlertSink := mkSink { sink_id : SinkId; wants_clip : bool }.

Record SinkRegistry := mkSinkRegistry {
  inner : gmap SinkId AlertSink;
  reserved : gmap SinkId AlertSink;
}.

Definition empty_registry : SinkRegistry := mkSinkRegistry ∅ ∅.

(** [collect] into a [HashMap]: of two sinks with one id the later stays. *)
Definition sink_map (sinks : list AlertSink) : gmap SinkId AlertSink :=
  foldl (fun m s => <[sink_id s := s]> m) ∅ sinks.

Definition replace (sinks : list AlertSink) (r : SinkRegistry) : SinkRegistry * nat :=
  let map := sink_map sinks in (mkSinkRegistry map (reserved r), size map).

Definition insert_reserved (s : AlertSink) (r : SinkRegistry) : SinkRegistry :=
  mkSinkRegistry (inner r) (<[sink_id s := s]> (reserved r)).

Definition get (r : SinkRegistry) (id : SinkId) : option AlertSink :=
  match reserved r !! id with
  | Some s => Some s
  | None => inner r !! id
  end.

(** [ids] and [reserved_ids], as sets: the order of a [HashMap]'s keys is unspecified. *)
Definition ids (r : SinkRegistry) : gset SinkId := dom (inner r).
Definition reserved_ids (r : SinkRegistry) : gset SinkId := dom (reserved r).
Definition len (r : SinkRegistry) : nat := size (inner r).

(** ** The configuration

    [Body] is the rest of a kind's configuration struct, which the merge never looks at;
    [from_json] is serde's decoder. *)
Section configs.
Context {Body : Type}.

Inductive SinkConfig :=
| Webhook (name : string) (body : Body)
| SureView (name : string) (body : Body)
| SureViewEmail (name : string) (body : Body)
| Email (name : string) (body : Body).

Definition cfg_kind (c : SinkConfig) : string :=
  match c with
  | Webhook _ _ => "webhook"
  | SureView _ _ => "sureview"
  | SureViewEmail _ _ => "sureview_email"
  | Email _ _ => "email"
  end.

Definition cfg_name (c : SinkConfig) : string :=
  match c with Webhook n _ | SureView n _ | SureViewEmail n _ | Email n _ => n end.

Definition cfg_id (c : SinkConfig) : string := cfg_kind c +:+ ":" +:+ cfg_name c.

Context (from_json : string -> result SinkConfig string).

(** The list being built and the position of each id in it. *)
Record Merge := mkMerge { out : list SinkConfig; index : gmap string nat }.

Definition append_config (m : Merge) (c : SinkConfig) : Merge :=
  mkMerge (out m ++ [c]) (<[cfg_id c := length (out m)]> (index m)).

Definition merge_db (m : Merge) (c : SinkConfig) : Merge :=
  match index m !! cfg_id c with
  | Some i => mkMerge (<[i := c]> (out m)) (index m)
  | None => append_config m c
  end.

Fixpoint merge_json (m : Merge) (db_sink_json : list string) : result (list SinkConfig) SinkError :=
  match db_sink_json with
  | [] => Ok (out m)
  | json :: rest =>
      match from_json json with
      | Err e => Err (Permanent ("persisted sink config is not valid JSON: " +:+ e))
      | Ok c => merge_json (merge_db m c) rest
      end
  end.

Definition merge_sink_configs (file_sinks : list SinkConfig) (db_sink_json : list string) :
    result (list SinkConfig) SinkError :=
  merge_json (foldl append_config (mkMerge [] ∅) file_sinks) db_sink_json.
End configs.
Arguments SinkConfig : clear implicits.
Arguments Merge : clear implicits.

(** ** Sink ids: facts *)

Lemma contains_colon s : contains s ":" = true <-> colon ∈ chars s.
Proof. apply contains_char. Qed.

Lemma new_spec kind name id :
  new kind name = Some id <->
  kind <> "" /\ name <> "" /\ colon ∉ chars kind /\ colon ∉ chars name /\ id = kind +:+ ":" +:+ name.
Proof.
  unfold new, is_empty_str, str_eqb. rewrite <- !contains_colon.
  repeat case_bool_decide; simpl; [naive_solver..|].
  destruct (contains kind ":"), (contains name ":"); naive_solver.
Qed.

Lemma parse_spec raw id :
  parse raw = Some id <-> id = raw /\ exists kind name, new kind name = Some raw.
Proof.
  unfold parse. destruct (split_once colon raw) as [[k n]|] eqn:E.
  - apply split_once_spec in E as [-> Hk]. split.
    + intros Hn. pose proof (proj1 (new_spec _ _ _) Hn) as (_ & _ & _ & _ & ->). split; [done|by exists k, n].
    + intros [-> (k' & n' & Hn)]. pose proof (proj1 (new_spec _ _ _) Hn) as (? & ? & Hk' & _ & Heq).
      assert (split_once colon (k +:+ String colon n) = Some (k', n')) as E1 by (by apply split_once_spec).
      assert (split_once colon (k +:+ String colon n) = Some (k, n)) as E2 by (by apply split_once_spec).
      rewrite E2 in E1. by simplify_eq.
  - split; [done|]. intros [-> (k & n & (_ & _ & Hk & _ & ->)%new_spec)].
    assert (split_once colon (k +:+ ":" +:+ n) = Some (k, n)) by (by apply split_once_spec). congruence.
Qed.

(** ** The registry: facts *)

Lemma sink_map_ids sinks id s : sink_map sinks !! id = Some s -> s ∈ sinks /\ sink_id s = id.
Proof.
  unfold sink_map.
  assert (forall l (m : gmap SinkId AlertSink), foldl (fun m s => <[sink_id s:=s]> m) m l !! id = Some s ->
            (s ∈ l /\ sink_id s = id) \/ m !! id = Some s) as H.
  { induction l as [|x l IH]; intros m; simpl; [by right|].
    intros [[? ?]|Hm]%IH; [left; set_solver|].
    destruct (decide (sink_id x = id)) as [<-|Hne].
    - rewrite lookup_insert_eq in Hm. left. simplify_eq. set_solver.
    - rewrite lookup_insert_ne in Hm by done. by right. }
  intros [?|Hm]%H; [done|]. by rewrite lookup_empty in Hm.
Qed.

(** ** The merge: facts *)

Section merge.
Context {Body : Type} (from_json : string -> result (SinkConfig Body) string).
Abbreviation Cfg := (SinkConfig Body).

(** The last configuration of an id in a list. *)
Definition last_with (id : string) (l : list Cfg) : option Cfg :=
  last (filter (fun c => cfg_id c = id) l).

Lemma last_with_snoc id l c :
  last_with id (l ++ [c]) = if decide (cfg_id c = id) then Some c else last_with id l.
Proof.
  unfold last_with. rewrite filter_app, filter_cons, filter_nil.
  case_decide; [by rewrite last_snoc|by rewrite app_nil_r].
Qed.

(** The index finds exactly the entries of the list: no id occurs twice. *)
Definition indexed (m : Merge Body) : Prop :=
  forall id i, index m !! id = Some i <-> (cfg_id <$> out m) !! i = Some id.

Lemma indexed_nodup m : indexed m -> NoDup (cfg_id <$> out m).
Proof. intros Hm. apply NoDup_alt. intros i j id Hi%Hm Hj%Hm. congruence. Qed.

Lemma index_none m id : indexed m -> index m !! id = None <-> id ∉ cfg_id <$> out m.
Proof.
  intros Hm. rewrite list_elem_of_lookup, eq_None_not_Some. unfold is_Some.
  split; intros Hn [i Hi]; apply Hn; exists i; by apply Hm.
Qed.

Lemma append_indexed m c : indexed m -> index m !! cfg_id c = None -> indexed (append_config m c).
Proof.
  intros Hm Hn id i. simpl. rewrite fmap_app. simpl. pose proof (proj1 (index_none m (cfg_id c) Hm) Hn) as Hni.
  rewrite lookup_insert_Some, lookup_app_Some, length_fmap, list_lookup_singleton_Some, (Hm id i). split.
  - intros [[<- <-]|[? ?]]; [right; split; [lia|]; split; [lia|done]|by left].
  - intros [Hi|(Hlen & Hi & <-)]; [right; split; [|done]|left; split; [done|lia]].
    intros <-. apply Hni. by eapply list_elem_of_lookup_2.
Qed.

Lemma merge_db_indexed m c : indexed m -> indexed (merge_db m c).
Proof.
  intros Hm. unfold merge_db. destruct (index m !! cfg_id c) as [i|] eqn:E; [|by apply append_indexed].
  intros id j. simpl. rewrite list_fmap_insert. pose proof (proj1 (Hm _ _) E) as Hi.
  rewrite list_insert_id by done. apply Hm.
Qed.

Lemma elem_of_insert_indexed (m : Merge Body) i c x :
  indexed m -> index m !! cfg_id c = Some i ->
  x ∈ <[i := c]> (out m) <-> x = c \/ (x ∈ out m /\ cfg_id x <> cfg_id c).
Proof.
  intros Hm Hi. pose proof (proj1 (Hm _ _) Hi) as Hold. rewrite list_lookup_fmap in Hold.
  apply fmap_Some in Hold as (old & Hold & Hid). pose proof (lookup_lt_Some _ _ _ Hold) as Hlen.
  rewrite !list_elem_of_lookup. split.
  - intros [j Hj]. destruct (decide (i = j)) as [<-|Hne].
    + rewrite list_lookup_insert_eq in Hj by done. left. congruence.
    + rewrite list_lookup_insert_ne in Hj by done. right. split; [by exists j|]. intros Hx. apply Hne.
      enough (index m !! cfg_id c = Some j) by congruence. apply Hm. by rewrite list_lookup_fmap, Hj, <- Hx.
  - intros [->|[[j Hj] Hx]]; [exists i; by apply list_lookup_insert_eq|]. exists j.
    rewrite list_lookup_insert_ne; [done|]. intros ->. congruence.
Qed.

(** What the merge of [dbs] into [files] holds. *)
Definition winner (files dbs : list Cfg) (c : Cfg) : Prop :=
  last_with (cfg_id c) dbs = Some c \/ (last_with (cfg_id c) dbs = None /\ c ∈ files).

Lemma merge_db_winner files dbs m c :
  indexed m -> (forall x, x ∈ out m <-> winner files dbs x) ->
  forall x, x ∈ out (merge_db m c) <-> winner files (dbs ++ [c]) x.
Proof.
  intros Hm Hw x. unfold winner. rewrite last_with_snoc.
  assert (x ∈ out (merge_db m c) <-> x = c \/ (x ∈ out m /\ cfg_id x <> cfg_id c)) as ->.
  { unfold merge_db. destruct (index m !! cfg_id c) as [i|] eqn:E; [by apply elem_of_insert_indexed|].
    simpl. rewrite elem_of_app, list_elem_of_singleton. apply index_none in E; [|done].
    rewrite list_elem_of_fmap in E. naive_solver. }
  rewrite Hw. unfold winner. case_decide; naive_solver.
Qed.

Lemma files_indexed (files : list Cfg) :
  NoDup (cfg_id <$> files) ->
  indexed (foldl append_config (mkMerge [] ∅) files) /\ out (foldl append_config (mkMerge [] ∅) files) = files.
Proof.
  induction files as [|c files IH] using rev_ind; intros Hnd.
  - simpl. split; [|done]. intros id i. simpl. by rewrite lookup_empty, lookup_nil.
  - rewrite fmap_app in Hnd. apply NoDup_app in Hnd as (Hnd & Hdis & _). destruct (IH Hnd) as [Hi Ho].
    rewrite foldl_snoc. simpl. split; [apply append_indexed; [done|]|by rewrite Ho].
    apply index_none; [done|]. rewrite Ho. intros Hin. apply (Hdis _ Hin). simpl. set_solver.
Qed.

Lemma merge_json_spec files jsons : forall dbs m,
  indexed m -> (forall x, x ∈ out m <-> winner files dbs x) ->
  (exists extra, cfg_id <$> out m = (cfg_id <$> files) ++ extra) ->
  match merge_json from_json m jsons with
  | Ok out =>
      exists new, Forall2 (fun j c => from_json j = Ok c) jsons new /\ NoDup (cfg_id <$> out) /\
        (exists extra, cfg_id <$> out = (cfg_id <$> files) ++ extra) /\
        (forall c, c ∈ out <-> winner files (dbs ++ new) c)
  | Err e =>
      exists json msg, json ∈ jsons /\ from_json json = Err msg /\
        e = Permanent ("persisted sink config is not valid JSON: " +:+ msg)
  end.
Proof.
  induction jsons as [|json jsons IH]; intros dbs m Hm Hw [extra He]; simpl.
  - exists []. rewrite app_nil_r. split; [constructor|]. split; [by apply indexed_nodup|]. split; [by exists extra|done].
  - destruct (from_json json) as [c|msg] eqn:Ej; [|exists json, msg; split; [set_solver|done]].
    specialize (IH (dbs ++ [c]) (merge_db m c) (merge_db_indexed m c Hm) (merge_db_winner _ _ _ _ Hm Hw)).
    assert (exists extra, cfg_id <$> out (merge_db m c) = (cfg_id <$> files) ++ extra) as Hpre.
    { unfold merge_db. destruct (index m !! cfg_id c) as [i|] eqn:E; simpl.
      - exists extra. rewrite list_fmap_insert, list_insert_id; [done|]. by apply Hm.
      - exists (extra ++ [cfg_id c]). by rewrite fmap_app, He, <- app_assoc. }
    specialize (IH Hpre). destruct (merge_json _ _ _).
    + destruct IH as (new & Hf & Hnd & Hx & Hwin). exists (c :: new). split; [by constructor|].
      split; [done|]. split; [done|]. intros x. by rewrite Hwin, <- app_assoc.
    + destruct IH as (j & msg & ? & ? & ->). exists j, msg. split; [set_solver|done].
Qed.

(** The configuration that takes effect: with distinct ids in the file, the merge holds
    exactly one entry per id, the last database entry of that id if there is one and the
    file's otherwise, with the file's ids first and in the file's order; a database entry that
    does not decode makes the whole merge fail with its message. *)
Lemma merge_database_wins files jsons :
  NoDup (cfg_id <$> files) ->
  match merge_sink_configs from_json files jsons with
  | Ok out =>
      exists dbs, Forall2 (fun j c => from_json j = Ok c) jsons dbs /\ NoDup (cfg_id <$> out) /\
        (exists extra, cfg_id <$> out = (cfg_id <$> files) ++ extra) /\
        (forall c, c ∈ out <->
           last_with (cfg_id c) dbs = Some c \/ (last_with (cfg_id c) dbs = None /\ c ∈ files))
  | Err e =>
      exists json msg, json ∈ jsons /\ from_json json = Err msg /\
        e = Permanent ("persisted sink config is not valid JSON: " +:+ msg)
  end.
Proof.
  intros Hnd. destruct (files_indexed files Hnd) as [Hi Ho]. apply (merge_json_spec files jsons []); [done| |].
  - intros x. rewrite Ho. unfold winner.
    assert (last_with (cfg_id x) [] = None) as -> by done. split; [intros ?; by right|by intros [|[]]].
  - exists []. by rewrite Ho, app_nil_r.
Qed.
End merge.

(** A decoder of two entries, and a file that one of them overrides. *)
Definition demo_json (s : string) : result (SinkConfig Z) string :=
  if str_eqb s "a" then Ok (Webhook "primary" 2) else if str_eqb s "b" then Ok (Email "ops" 3) else Err "eof".

Lemma merge_database_wins_witness :
  merge_sink_configs demo_json [Webhook "primary" 1] ["a"; "b"] = Ok [Webhook "primary" 2; Email "ops" 3] /\
  exists dbs, Forall2 (fun j c => demo_json j = Ok c) ["a"; "b"] dbs.
Proof.
  assert (NoDup (cfg_id <$> [Webhook "primary" 1])) as Hnd by apply NoDup_singleton.
  pose proof (merge_database_wins demo_json [Webhook "primary" 1] ["a"; "b"] Hnd) as H.
  assert (merge_sink_configs demo_json [Webhook "primary" 1] ["a"; "b"] =
    Ok [Webhook "primary" 2; Email "ops" 3]) as E by (vm_compute; reflexivity).
  rewrite E in H. destruct H as (dbs & Hf & _). split; [done|by exists dbs].
Defined.

(** Reserved sinks are not touched by a reconfiguration, and shadow a configured one. *)
Lemma reserved_survives sinks r s : get (insert_reserved s (replace sinks r).1) (sink_id s) = Some s.
Proof. unfold get. simpl. by rewrite lookup_insert_eq. Qed.

Lemma get_after_replace sinks r id :
  get (replace sinks r).1 id = match reserved r !! id with Some s => Some s | None => sink_map sinks !! id end.
Proof. done. Qed.
