(* ===== verification/Outbox.v ===== *)
(** The delivery ledger: [nexus-store/src/outbox.rs] and the outbox part of
    [nexus-store/src/lib.rs], over the table of migration [0025].

    Timestamps are nanoseconds since the epoch. [next_attempt_at] and the bounds it is compared
    with are RFC 3339 strings of one shape, whose text order is the order of the instants;
    [created_at] is SQLite's [CURRENT_TIMESTAMP], truncated to the second and with a blank where
    RFC 3339 has a [T], which [outbox_counts_since] compares as text. An [UPDATE] that breaks the
    table's [CHECK] fails and changes nothing. *)
From S2P Require Import Prelude Text Float Types Alert Sinks.

Inductive OutboxStatus := Pending | Sent | Failed | Dead | Suppressed.

#[export] Instance OutboxStatus_eq_dec : EqDecision OutboxStatus.
Proof. solve_decision. Defined.

Definition status_as_str (s : OutboxStatus) : string :=
  match s with
  | Pending => "pending"
  | Sent => "sent"
  | Failed => "failed"
  | Dead => "dead"
  | Suppressed => "suppressed"
  end.

Definition status_try_from : string -> option OutboxStatus :=
  match_str [("pending", Pending); ("sent", Sent); ("failed", Failed); ("dead", Dead); ("suppressed", Suppressed)].

#[export] Instance OutboxStatus_wire : WireEnum OutboxStatus.
Proof. refine {| wire_str := status_as_str; wire_parse := status_try_from |}. solve_wire_exact status_try_from. Defined.

Inductive SuppressionReason :=
| GlobalDisabled
| RuleDisabled
| OffScheduleGlobal
| OffScheduleRule
| EntitlementSuspended.

#[export] Instance SuppressionReason_eq_dec : EqDecision SuppressionReason.
Proof. solve_decision. Defined.

Definition reason_as_str (r : SuppressionReason) : string :=
  match r with
  | GlobalDisabled => "global_disabled"
  | RuleDisabled => "rule_disabled"
  | OffScheduleGlobal => "off_schedule_global"
  | OffScheduleRule => "off_schedule_rule"
  | EntitlementSuspended => "entitlement_suspended"
  end.

Definition reason_try_from : string -> option SuppressionReason :=
  match_str [("global_disabled", GlobalDisabled); ("rule_disabled", RuleDisabled);
             ("off_schedule_global", OffScheduleGlobal); ("off_schedule_rule", OffScheduleRule);
             ("entitlement_suspended", EntitlementSuspended)].

#[export] Instance SuppressionReason_wire : WireEnum SuppressionReason.
Proof. refine {| wire_str := reason_as_str; wire_parse := reason_try_from |}. solve_wire_exact reason_try_from. Defined.

Record OutboxRow := mkRow {
  id : Z;
  row_event : string;
  row_sink : string;
  status : OutboxStatus;
  attempts : Z;
  next_attempt_at : option Z;
  last_error : option string;
  suppression_reason : option SuppressionReason;
  created_at : Z;
  delivered_at : option Z;
}.

Record OutboxSinkCounts := mkCounts {
  c_sink : string;
  c_sent : Z;
  c_failed : Z;
  c_dead : Z;
  c_suppressed : Z;
  c_pending : Z;
}.

(** The [events] table, with its [alerted] column, and the outbox with its
    [AUTOINCREMENT] counter. *)
Record OutboxTable := mkOutbox {
  events : gmap string (AlertEvent * bool);
  rows : gmap Z OutboxRow;
  next_id : Z;
}.

Inductive StoreError := Constraint | Io (msg : string).

Definition OutboxM := SE OutboxTable StoreError.

Definition put_rows (rs : gmap Z OutboxRow) (t : OutboxTable) : OutboxTable := mkOutbox (events t) rs (next_id t).

(** The table's second [CHECK]: a reason exactly when suppressed. *)
Definition row_check (r : OutboxRow) : bool :=
  bool_decide (status r = Suppressed <-> suppression_reason r <> None).

(** ** Writes *)

Definition update_row (k : Z) (f : OutboxRow -> OutboxRow) : OutboxM unit := fun t =>
  match rows t !! k with
  | None => (Ok tt, t)
  | Some r => if row_check (f r) then (Ok tt, put_rows (<[k := f r]> (rows t)) t) else (Err Constraint, t)
  end.

Definition set_sent (now : Z) (r : OutboxRow) : OutboxRow :=
  mkRow (id r) (row_event r) (row_sink r) Sent (attempts r + 1) (next_attempt_at r) None
    (suppression_reason r) (created_at r) (Some now).

Definition set_failed (err : string) (next_at : Z) (r : OutboxRow) : OutboxRow :=
  mkRow (id r) (row_event r) (row_sink r) Pending (attempts r + 1) (Some next_at) (Some err)
    (suppression_reason r) (created_at r) (delivered_at r).

Definition set_waiting (err : string) (next_at : Z) (r : OutboxRow) : OutboxRow :=
  mkRow (id r) (row_event r) (row_sink r) Pending (attempts r) (Some next_at) (Some err)
    (suppression_reason r) (created_at r) (delivered_at r).

Definition set_dead (err : string) (r : OutboxRow) : OutboxRow :=
  mkRow (id r) (row_event r) (row_sink r) Dead (attempts r + 1) None (Some err)
    (suppression_reason r) (created_at r) (delivered_at r).

Definition set_suppressed (reason : SuppressionReason) (r : OutboxRow) : OutboxRow :=
  mkRow (id r) (row_event r) (row_sink r) Suppressed (attempts r) None None
    (Some reason) (created_at r) (delivered_at r).

Definition outbox_mark_sent (k now : Z) : OutboxM unit := update_row k (set_sent now).
Definition outbox_mark_failed (k : Z) (err : string) (next_at : Z) : OutboxM unit :=
  update_row k (set_failed err next_at).
Definition outbox_mark_waiting (k : Z) (err : string) (next_at : Z) : OutboxM unit :=
  update_row k (set_waiting err next_at).
Definition outbox_mark_dead (k : Z) (err : string) : OutboxM unit := update_row k (set_dead err).
Definition outbox_mark_suppressed (k : Z) (reason : SuppressionReason) : OutboxM unit :=
  update_row k (set_suppressed reason).

Definition truncate_second (now : Z) : Z := now / ns_per_sec * ns_per_sec.

Definition fresh_row (k : Z) (ev sink : string) (now : Z) : OutboxRow :=
  mkRow k ev sink Pending 0 None None None (truncate_second now) None.

(** [INSERT INTO alert_sink_outbox], with its [UNIQUE (event_id, sink_id)]. *)
Definition insert_row (ev sink : string) (now : Z) : OutboxM unit := fun t =>
  if bool_decide (map_Forall (fun _ r => row_event r <> ev \/ row_sink r <> sink) (rows t)) then
    (Ok tt, mkOutbox (events t) (<[next_id t := fresh_row (next_id t) ev sink now]> (rows t)) (next_id t + 1))
  else (Err Constraint, t).

(** [INSERT INTO events]: the event id is the primary key. *)
Definition insert_event (e : AlertEvent) (alerted : bool) : OutboxM unit := fun t =>
  match events t !! event_id e with
  | Some _ => (Err Constraint, t)
  | None => (Ok tt, mkOutbox (<[event_id e := (e, alerted)]> (events t)) (rows t) (next_id t))
  end.

(** A transaction: an error rolls back every write in it. *)
Definition in_tx {A} (m : OutboxM A) : OutboxM A := fun t =>
  match m t with
  | (Ok a, t') => (Ok a, t')
  | (Err e, _) => (Err e, t)
  end.

Definition record_event_and_enqueue_classified (e : AlertEvent) (sink_ids : list string)
    (alerted : bool) (now : Z) : OutboxM unit :=
  in_tx (insert_event e alerted ;; iter_m (fun s => insert_row (event_id e) s now) sink_ids).

Definition record_event_and_enqueue (e : AlertEvent) (sink_ids : list string) (now : Z) : OutboxM unit :=
  record_event_and_enqueue_classified e sink_ids true now.

Definition terminal (s : OutboxStatus) : bool :=
  match s with Sent | Suppressed | Dead => true | Pending | Failed => false end.

Definition prunable (cutoff : Z) (t : OutboxTable) (k : Z) : bool :=
  match rows t !! k with
  | Some r => terminal (status r) && (created_at r <? truncate_second cutoff)
  | None => false
  end.

(** [scan] is the order in which SQLite visits the rows: the inner [SELECT] has a [LIMIT] and
    no [ORDER BY]. A negative limit is no limit. *)
Definition prune_outbox_terminal_older_than (scan : list Z) (cutoff limit : Z) (t : OutboxTable) :
    Z * OutboxTable :=
  let found := filter (fun k => prunable cutoff t k = true) (remove_dups scan) in
  let gone := if limit <? 0 then found else take (Z.to_nat limit) found in
  (zlength gone, put_rows (filter (fun '(k, _) => k ∉ gone) (rows t)) t).

(** [event_id REFERENCES events(event_id) ON DELETE CASCADE]: an event that goes takes its
    outbox rows along. *)
Definition delete_event (ev : string) (t : OutboxTable) : OutboxTable :=
  mkOutbox (delete ev (events t)) (filter (fun '(_, r) => row_event r <> ev) (rows t)) (next_id t).

(** ** Reads *)

Definition is_due (now : Z) (r : OutboxRow) : bool :=
  match next_attempt_at r with None => true | Some at_ => at_ <=? now end.

Definition by_id (t : OutboxTable) : list OutboxRow := snd <$> sorted_entries (rows t).

Definition sql_limit {A} (limit : Z) (l : list A) : list A := if limit <? 0 then l else take (Z.to_nat limit) l.

Definition outbox_pending (now limit : Z) (t : OutboxTable) : list OutboxRow :=
  sql_limit limit (filter (fun r => status r = Pending /\ is_due now r = true) (by_id t)).

Definition outbox_queued_count (t : OutboxTable) : Z :=
  zlength (filter (fun r => status r = Pending \/ status r = Failed) (by_id t)).

Definition outbox_for_event (ev : string) (t : OutboxTable) : list OutboxRow :=
  filter (fun r => row_event r = ev) (by_id t).

Definition ns_per_day : Z := secs 86400.

(** [created_at >= ?] between ["YYYY-MM-DD HH:MM:SS"] and ["YYYY-MM-DDTHH:MM:SS+00:00"]: on one
    day the blank sorts before the [T]. *)
Definition created_since (since : Z) (r : OutboxRow) : bool := since / ns_per_day <? created_at r / ns_per_day.

Definition count_status (s : OutboxStatus) (l : list OutboxRow) : Z := zlength (filter (fun r => status r = s) l).

Definition counts_of (sink : string) (l : list OutboxRow) : OutboxSinkCounts :=
  let mine := filter (fun r => row_sink r = sink) l in
  mkCounts sink (count_status Sent mine) (count_status Failed mine) (count_status Dead mine)
    (count_status Suppressed mine) (count_status Pending mine).

(** One entry per sink that has a row; the order of the groups is left open. *)
Definition outbox_counts_since (since : Z) (t : OutboxTable) : list OutboxSinkCounts :=
  let recent := filter (fun r => created_since since r = true) (by_id t) in
  (fun sink => counts_of sink recent) <$> remove_dups (row_sink <$> recent).

Definition get_event (ev : string) (t : OutboxTable) : option AlertEvent := fst <$> events t !! ev.

(** ** The table's invariant *)

Record outbox_wf (t : OutboxTable) : Prop := {
  wf_row : map_Forall (fun k r => id r = k /\ row_check r = true /\ 0 <= attempts r) (rows t);
  wf_next : map_Forall (fun k _ => k < next_id t) (rows t);
  wf_event : map_Forall (fun _ r => is_Some (events t !! row_event r)) (rows t);
}.

Definition empty_outbox : OutboxTable := mkOutbox ∅ ∅ 1.

Lemma empty_outbox_wf : outbox_wf empty_outbox.
Proof. split; apply map_Forall_empty. Qed.

(** What an update keeps of a row. *)
Definition same_alert (f : OutboxRow -> OutboxRow) : Prop :=
  forall r, id (f r) = id r /\ row_event (f r) = row_event r /\ row_sink (f r) = row_sink r /\
            created_at (f r) = created_at r /\ attempts r <= attempts (f r).

Lemma update_row_cases k f t :
  (update_row k f t).2 = t \/
  exists r, rows t !! k = Some r /\ row_check (f r) = true /\ update_row k f t = (Ok tt, put_rows (<[k := f r]> (rows t)) t).
Proof.
  unfold update_row. destruct (rows t !! k) as [r|] eqn:E; [|by left].
  destruct (row_check (f r)) eqn:Ec; [right; by exists r|by left].
Qed.

Lemma update_row_wf k f : same_alert f -> preserves outbox_wf (update_row k f).
Proof.
  intros Hf t [Hr Hn He]. destruct (update_row_cases k f t) as [->|(r & Hk & Hc & ->)]; [done|]. simpl.
  destruct (Hf r) as (Hid & Hev & _ & _ & Ha). destruct (Hr _ _ Hk) as (Hi & _ & H0). split; simpl.
  - apply map_Forall_insert_2; [|done]. split; [congruence|]. split; [done|lia].
  - apply map_Forall_insert_2; [|done]. by apply (Hn _ _ Hk).
  - apply map_Forall_insert_2; [|done]. rewrite Hev. by apply (He _ _ Hk).
Qed.

Lemma set_sent_same now : same_alert (set_sent now).
Proof. intros r. simpl. repeat split; lia. Qed.
Lemma set_failed_same err at_ : same_alert (set_failed err at_).
Proof. intros r. simpl. repeat split; lia. Qed.
Lemma set_waiting_same err at_ : same_alert (set_waiting err at_).
Proof. intros r. simpl. repeat split; lia. Qed.
Lemma set_dead_same err : same_alert (set_dead err).
Proof. intros r. simpl. repeat split; lia. Qed.
Lemma set_suppressed_same reason : same_alert (set_suppressed reason).
Proof. intros r. simpl. repeat split; lia. Qed.

#[export] Hint Resolve update_row_wf set_sent_same set_failed_same set_waiting_same set_dead_same
  set_suppressed_same : nexus.

Lemma elem_of_by_id t r : r ∈ by_id t <-> exists k, rows t !! k = Some r.
Proof.
  unfold by_id. rewrite list_elem_of_fmap. split.
  - intros ([k r'] & -> & Hr%elem_of_sorted_entries). by exists k.
  - intros [k Hk]. exists (k, r). by rewrite elem_of_sorted_entries.
Qed.

Lemma outbox_pending_sound now limit t r :
  r ∈ outbox_pending now limit t -> status r = Pending /\ is_due now r = true /\ exists k, rows t !! k = Some r.
Proof.
  unfold outbox_pending, sql_limit. intros Hin.
  assert (r ∈ filter (fun r => status r = Pending /\ is_due now r = true) (by_id t)) as Hf.
  { case_match; [done|]. apply elem_of_take in Hin as (i & Hi & _). by eapply list_elem_of_lookup_2. }
  apply list_elem_of_filter in Hf as [[? ?] Hf%elem_of_by_id]. done.
Qed.

Lemma outbox_pending_nodup now limit t : outbox_wf t -> NoDup (id <$> outbox_pending now limit t).
Proof.
  intros Hwf. assert (NoDup (id <$> by_id t)) as Hnd.
  { assert (id <$> by_id t = (sorted_entries (rows t)).*1) as ->.
    { unfold by_id. rewrite <- list_fmap_compose. apply list_fmap_ext. intros i [k r] Hi. simpl.
      apply (wf_row _ Hwf). apply elem_of_sorted_entries. by eapply list_elem_of_lookup_2. }
    unfold sorted_entries. rewrite merge_sort_Permutation. apply NoDup_fst_map_to_list. }
  unfold outbox_pending, sql_limit.
  assert (forall P `{!forall x, Decision (P x)} l, NoDup (id <$> l) -> NoDup (id <$> filter P l)) as Hfil.
  { intros P HP l Hl. eapply sublist_NoDup; [exact Hl|]. apply fmap_sublist, sublist_filter. }
  specialize (Hfil (fun r => status r = Pending /\ is_due now r = true) _ _ Hnd).
  case_match; [done|]. apply (sublist_NoDup _ _ Hfil), fmap_sublist, sublist_take.
Qed.

(** What a sweep leaves of the table. *)
Lemma prune_rows scan cutoff limit t k r :
  rows (prune_outbox_terminal_older_than scan cutoff limit t).2 !! k = Some r -> rows t !! k = Some r.
Proof. simpl. by intros [? _]%map_lookup_filter_Some. Qed.

Lemma prune_keeps scan cutoff limit t k r :
  rows t !! k = Some r -> terminal (status r) = false ->
  rows (prune_outbox_terminal_older_than scan cutoff limit t).2 !! k = Some r.
Proof.
  intros Hk Ht. simpl. apply map_lookup_filter_Some. split; [done|]. intros Hin.
  assert (forall l : list Z, k ∈ filter (fun k => prunable cutoff t k = true) l -> False) as H.
  { intros l [Hd _]%list_elem_of_filter. unfold prunable in Hd. by rewrite Hk, Ht in Hd. }
  case_match; [by eapply H|]. apply elem_of_take in Hin as (i & Hi & _). eapply H. by eapply list_elem_of_lookup_2.
Qed.

Lemma prune_wf scan cutoff limit t :
  outbox_wf t -> outbox_wf (prune_outbox_terminal_older_than scan cutoff limit t).2.
Proof. intros [Hr Hn He]. split; simpl; intros k r [Hk _]%map_lookup_filter_Some; eauto. Qed.

Lemma delete_event_wf ev t : outbox_wf t -> outbox_wf (delete_event ev t).
Proof.
  intros [Hr Hn He]. split; simpl; intros k r [Hk Hev]%map_lookup_filter_Some; [eauto..|].
  rewrite lookup_delete_ne by done. eauto.
Qed.

(** ** Enqueueing *)

Definition claimed (ev s : string) (t : OutboxTable) : Prop :=
  exists k r, rows t !! k = Some r /\ row_event r = ev /\ row_sink r = s.

Lemma claimed_or ev s t :
  map_Forall (fun _ r => row_event r <> ev \/ row_sink r <> s) (rows t) \/ claimed ev s t.
Proof.
  destruct (decide (map_Forall (fun _ r => row_event r <> ev \/ row_sink r <> s) (rows t))) as [?|Hn]; [by left|].
  right. apply map_not_Forall in Hn as (k & r & Hk & Hr); [|intros; apply _]. exists k, r.
  destruct (decide (row_event r = ev)), (decide (row_sink r = s)); naive_solver.
Qed.

Lemma insert_row_ok ev s now t : ~ claimed ev s t -> insert_row ev s now t =
  (Ok tt, mkOutbox (events t) (<[next_id t := fresh_row (next_id t) ev s now]> (rows t)) (next_id t + 1)).
Proof.
  intros Hn. unfold insert_row. rewrite bool_decide_true; [done|]. intros k r Hk.
  destruct (decide (row_event r = ev)); [|by left]. right. intros Hs. apply Hn. by exists k, r.
Qed.

Lemma insert_row_err ev s now t : claimed ev s t -> insert_row ev s now t = (Err Constraint, t).
Proof.
  intros (k & r & Hk & He & Hs). unfold insert_row. rewrite bool_decide_false; [done|].
  intros Hall. destruct (Hall _ _ Hk); naive_solver.
Qed.

Lemma claimed_after ev s s' now t :
  map_Forall (fun k _ => k < next_id t) (rows t) ->
  claimed ev s' (insert_row ev s now t).2 <-> claimed ev s' t \/ s = s'.
Proof.
  intros Hn. destruct (bool_decide (map_Forall (fun _ r => row_event r <> ev \/ row_sink r <> s) (rows t))) eqn:E.
  - unfold insert_row. rewrite E. unfold claimed. simpl. split.
    + intros (k & r & Hk & He & Hs). apply lookup_insert_Some in Hk as [[<- <-]|[_ Hk]]; [by right|].
      left. by exists k, r.
    + intros [(k & r & Hk & He & Hs)| ->]; [|eexists _, _; split; [apply lookup_insert_eq|done]].
      exists k, r. rewrite lookup_insert_ne; [done|]. pose proof (Hn _ _ Hk) as Hlt. simpl in Hlt. lia.
  - unfold insert_row. rewrite E. split; [by left|]. intros [?| ->]; [done|].
    apply bool_decide_eq_false in E. by destruct (claimed_or ev s' t).
Qed.

(** The rows an enqueue adds: one per sink, numbered in order. *)
Definition enqueued (ev : string) (sinks : list string) (now first k : Z) : option OutboxRow :=
  if first <=? k then (fun s => fresh_row k ev s now) <$> sinks !! Z.to_nat (k - first) else None.

Lemma enqueue_rows ev now sinks : forall t,
  map_Forall (fun k _ => k < next_id t) (rows t) ->
  match iter_m (fun s => insert_row ev s now) sinks t with
  | (Ok _, t') =>
      NoDup sinks /\ Forall (fun s => ~ claimed ev s t) sinks /\ events t' = events t /\
      next_id t' = next_id t + zlength sinks /\
      forall k, rows t' !! k = match enqueued ev sinks now (next_id t) k with Some r => Some r | None => rows t !! k end
  | (Err _, _) => ~ NoDup sinks \/ Exists (fun s => claimed ev s t) sinks
  end.
Proof.
  induction sinks as [|s sinks IH]; intros t Hn; cbn [iter_m].
  - split; [constructor|]. split; [done|]. split; [done|]. split; [unfold zlength; simpl; lia|].
    intros k. unfold enqueued. rewrite lookup_nil. by destruct (next_id t <=? k).
  - unfold mbind, se_bind.
    destruct (claimed_or ev s t) as [Hf|Hc].
    2:{ rewrite insert_row_err by done. right. by left. }
    assert (~ claimed ev s t) as Hnc. { intros (k & r & Hk & He & Hs). destruct (Hf _ _ Hk); naive_solver. }
    pose proof (fun s' => claimed_after ev s s' now t Hn) as Hafter. rewrite insert_row_ok in * by done.
    set (t1 := mkOutbox _ _ _) in *. simpl in Hafter. specialize (IH t1). simpl in IH.
    assert (map_Forall (fun k _ => k < next_id t + 1) (<[next_id t := fresh_row (next_id t) ev s now]> (rows t))) as Hn1.
    { apply map_Forall_insert_2; [lia|]. intros k r Hk. pose proof (Hn _ _ Hk). simpl in *. lia. }
    specialize (IH Hn1). destruct (iter_m _ sinks t1) as [[[]|e] t'].
    + destruct IH as (Hnd & Hnc' & Hev & Hnext & Hrows). rewrite Forall_forall in Hnc'.
      split; [constructor; [|done]|]. { intros Hin. apply (Hnc' _ Hin), Hafter. by right. }
      split. { constructor; [done|]. apply Forall_forall. intros s' Hin Hc. apply (Hnc' _ Hin), Hafter. by left. }
      split; [done|]. split; [unfold zlength in *; simpl; lia|]. intros k. rewrite Hrows. unfold enqueued.
      destruct (Z.leb_spec (next_id t + 1) k), (Z.leb_spec (next_id t) k); try lia.
      * assert (Z.to_nat (k - next_id t) = S (Z.to_nat (k - (next_id t + 1)))) as -> by lia. simpl.
        destruct (sinks !! _); [done|]. simpl. by rewrite lookup_insert_ne by lia.
      * assert (k = next_id t) as -> by lia. rewrite Z.sub_diag. simpl. by rewrite lookup_insert_eq.
      * by rewrite lookup_insert_ne by lia.
    + destruct IH as [Hd|Hex].
      * left. intros [_ ?]%NoDup_cons. done.
      * apply Exists_exists in Hex as (s' & Hin & Hc%Hafter). destruct Hc as [Hc| ->].
        { right. right. apply Exists_exists. by exists s'. }
        left. by intros [? _]%NoDup_cons.
Qed.

Lemma wf_claimed t ev s : outbox_wf t -> claimed ev s t -> is_Some (events t !! ev).
Proof. intros Hwf (k & r & Hk & <- & _). by apply (wf_event _ Hwf k). Qed.

Lemma enqueue_spec e sinks alerted now t :
  outbox_wf t ->
  match record_event_and_enqueue_classified e sinks alerted now t with
  | (Ok _, t') =>
      events t !! event_id e = None /\ NoDup sinks /\
      events t' = <[event_id e := (e, alerted)]> (events t) /\ next_id t' = next_id t + zlength sinks /\
      (forall k, rows t' !! k =
         match enqueued (event_id e) sinks now (next_id t) k with Some r => Some r | None => rows t !! k end)
  | (Err _, t') => t' = t /\ (is_Some (events t !! event_id e) \/ ~ NoDup sinks)
  end.
Proof.
  intros Hwf. unfold record_event_and_enqueue_classified, in_tx, mbind, se_bind, insert_event.
  destruct (events t !! event_id e) as [old|] eqn:E; [split; [done|left; by exists old]|].
  pose proof (enqueue_rows (event_id e) now sinks (mkOutbox (<[event_id e := (e, alerted)]> (events t)) (rows t) (next_id t))
    (wf_next _ Hwf)) as H. destruct (iter_m _ _ _) as [[[]|x] t'].
  - destruct H as (Hnd & _ & Hev & Hnext & Hrows). by repeat split.
  - split; [done|]. destruct H as [?|Hex]; [by right|]. apply Exists_exists in Hex as (s & _ & Hc).
    assert (claimed (event_id e) s t) as Hc' by done. apply wf_claimed in Hc'; [|done]. rewrite E in Hc'. by destruct Hc'.
Qed.

(** Recording an alert is all or nothing: it succeeds iff the event is new and no sink is
    named twice, and then the event is stored with its classification and each sink has one fresh
    pending row, numbered in order, with every other row as it was; otherwise nothing is
    written. *)
Lemma enqueue_all_or_nothing e sinks alerted now t :
  outbox_wf t ->
  match record_event_and_enqueue_classified e sinks alerted now t with
  | (Ok _, t') =>
      events t !! event_id e = None /\ NoDup sinks /\
      events t' = <[event_id e := (e, alerted)]> (events t) /\ next_id t' = next_id t + zlength sinks /\
      (forall k, rows t' !! k =
         match enqueued (event_id e) sinks now (next_id t) k with Some r => Some r | None => rows t !! k end)
  | (Err _, t') => t' = t /\ (is_Some (events t !! event_id e) \/ ~ NoDup sinks)
  end.
Proof. apply enqueue_spec. Qed.

Definition demo_event (ev rule : string) : AlertEvent :=
  mkEvent ev 1 rule None "person" High None 0 0 "" 0 0 (mkArtifacts None None None) ∅.

Lemma enqueue_all_or_nothing_witness :
  exists t', record_event_and_enqueue_classified (demo_event "e" "r") ["webhook:a"; "cloud:console"] true (secs 5) empty_outbox
    = (Ok tt, t') /\ rows t' !! 2 = Some (fresh_row 2 "e" "cloud:console" (secs 5)).
Proof.
  pose proof (enqueue_all_or_nothing (demo_event "e" "r") ["webhook:a"; "cloud:console"] true (secs 5) empty_outbox
    empty_outbox_wf) as H.
  destruct (record_event_and_enqueue_classified (demo_event "e" "r") ["webhook:a"; "cloud:console"] true (secs 5) empty_outbox)
    as [[[]|x] t'] eqn:E; [|vm_compute in E; discriminate].
  exists t'. split; [done|]. destruct H as (_ & _ & _ & _ & ->). vm_compute. reflexivity.
Defined.

Lemma enqueue_wf e sinks alerted now : preserves outbox_wf (record_event_and_enqueue_classified e sinks alerted now).
Proof.
  intros t Hwf. unfold record_event_and_enqueue_classified, in_tx, mbind, se_bind, insert_event.
  destruct (events t !! event_id e) as [old|] eqn:E; [done|]. set (t1 := mkOutbox _ _ _).
  pose proof (enqueue_rows (event_id e) now sinks t1 (wf_next _ Hwf)) as H.
  destruct (iter_m _ _ _) as [[[]|x] t']; [|done]. simpl in *. destruct H as (Hnd & _ & Hev & Hnext & Hrows).
  assert (forall k r, rows t' !! k = Some r ->
            (next_id t <= k < next_id t + zlength sinks /\ exists s, r = fresh_row k (event_id e) s now) \/
            rows t !! k = Some r) as Hcases.
  { intros k r Hk. rewrite Hrows in Hk. unfold enqueued in Hk. destruct (Z.leb_spec (next_id t) k); [|by right].
    destruct (sinks !! Z.to_nat (k - next_id t)) as [s|] eqn:Es; simpl in Hk; [|by right]. left.
    apply lookup_lt_Some in Es. split; [unfold zlength; lia|]. exists s. by simplify_eq. }
  assert (0 <= zlength sinks) by (unfold zlength; lia).
  split; intros k r Hk; destruct (Hcases k r Hk) as [[Hr [s ->]]|Hold].
  - done.
  - by apply (wf_row _ Hwf).
  - rewrite Hnext. simpl. lia.
  - pose proof (wf_next _ Hwf _ _ Hold) as Hlt. simpl in Hlt. rewrite Hnext. simpl. lia.
  - rewrite Hev. simpl. exists (e, alerted). apply lookup_insert_eq.
  - rewrite Hev. simpl. pose proof (wf_event _ Hwf _ _ Hold) as [x Hx].
    rewrite lookup_insert_ne; [by exists x|]. congruence.
Qed.

(** A row created on the day of [since] is never counted, however recent: a one-hour window holds
    nothing from the current day. *)
Lemma same_day_rows_are_not_counted since r :
  created_at r / ns_per_day = since / ns_per_day -> created_since since r = false.
Proof. unfold created_since. intros ->. apply Z.ltb_irrefl. Qed.

Lemma counted_rows_are_recent since r : created_since since r = true -> since < created_at r.
Proof.
  unfold created_since. intros H%Z.ltb_lt. destruct (Z.lt_ge_cases since (created_at r)); [done|].
  pose proof (Z.div_le_mono (created_at r) since ns_per_day ltac:(done) ltac:(lia)). lia.
Qed.
