(* ===== verification/Policy.v ===== *)
(** The delivery policy: [DeliveryPolicy] and [AllowAllPolicy] of [nexus-sinks/src/dispatcher.rs],
    the cascade of [nexus-sinks/src/policy.rs], and the wrapper for the cloud audit sink of
    [nexus-engine/src/cloud_alert_sink.rs] over the entitlement cache of
    [nexus-cloud-client/src/entitlements.rs].

    The class [DeliveryPolicy] is the trait: the dispatcher is proved against it. Time zones
    ([chrono-tz]) and the decoding of a JWT segment (base64 and serde) are parameters. *)
From Stdlib Require Import Ascii.
From S2P Require Import Prelude Text Float Types Alert Sinks Outbox.

Inductive DeliveryVerdict := Deliver | Suppress (reason : SuppressionReason).

#[export] Instance DeliveryVerdict_eq_dec : EqDecision DeliveryVerdict.
Proof. solve_decision. Defined.

Class DeliveryPolicy (P : Type) := evaluate : P -> OutboxRow -> AlertEvent -> Z -> DeliveryVerdict.

Inductive AllowAllPolicy := AllowAll.

#[export] Instance allow_all : DeliveryPolicy AllowAllPolicy := fun _ _ _ _ => Deliver.

(** ** The cascade *)

(** [local tz now] is the weekday from Monday, the hour and the minute of [now] in [tz]. *)
Record LocalTime := mkLocal { weekday : nat; hour : nat; minute : nat }.

Section cascade.
Context {Tz : Type} (parse_tz : string -> option Tz) (utc : Tz) (local : Tz -> Z -> LocalTime).

Record CachedSettings := mkCached { settings : DeliverySettings; tz : Tz }.

Definition parse_tz_or_warn (name : string) : Tz := default utc (parse_tz name).

Definition from_db (s : DeliverySettings) : CachedSettings := mkCached s (parse_tz_or_warn (timezone s)).

Definition slot_of (t : LocalTime) : nat := hour t * 2 + (if (30 <=? minute t)%nat then 1 else 0).

Definition schedule_allows (s : DeliverySchedule) (z : Tz) (now : Z) : bool :=
  let l := local z now in is_allowed s (weekday l) (slot_of l).

Definition evaluate_cascade (s : DeliverySettings) (z : Tz) (rule_policy : option RuleDeliveryPolicy)
    (now : Z) : DeliveryVerdict :=
  if negb (enabled s) then Suppress GlobalDisabled
  else if match rule_policy with Some p => negb (rule_enabled p) | None => false end then Suppress RuleDisabled
  else
    let '(sched, off_reason) :=
      match rule_policy ≫= rule_schedule with
      | Some rs => (Some rs, OffScheduleRule)
      | None => (schedule s, OffScheduleGlobal)
      end in
    match sched with
    | Some sc => if schedule_allows sc z now then Deliver else Suppress off_reason
    | None => Deliver
    end.

Record CascadingPolicy := mkCascading {
  cached : CachedSettings;
  rule_policies : gmap string RuleDeliveryPolicy;
}.

(** The answers of the store to [delivery_settings_get] and [rule_delivery_policies_all]. *)
Definition hydrate (got : result DeliverySettings string) (rules : result (gmap string RuleDeliveryPolicy) string) :
    result CascadingPolicy SinkError :=
  match got with
  | Err e => Err (Permanent ("hydrate delivery_settings: " +:+ e))
  | Ok s =>
      match rules with
      | Err e => Err (Permanent ("hydrate rule_delivery_policies: " +:+ e))
      | Ok m => Ok (mkCascading (from_db s) m)
      end
  end.

Definition reload_settings (got : result DeliverySettings string) : SE CascadingPolicy SinkError unit := fun p =>
  match got with
  | Err e => (Err (Transient ("reload delivery_settings: " +:+ e)), p)
  | Ok s => (Ok tt, mkCascading (from_db s) (rule_policies p))
  end.

Definition reload_all_rules (got : result (gmap string RuleDeliveryPolicy) string) :
    SE CascadingPolicy SinkError unit := fun p =>
  match got with
  | Err e => (Err (Transient ("reload rule_delivery_policies: " +:+ e)), p)
  | Ok m => (Ok tt, mkCascading (cached p) m)
  end.

Definition cascade_verdict (p : CascadingPolicy) (rule : string) (now : Z) : DeliveryVerdict :=
  evaluate_cascade (settings (cached p)) (tz (cached p)) (rule_policies p !! rule) now.

Definition would_deliver (p : CascadingPolicy) (rule : string) (now : Z) : bool :=
  match cascade_verdict p rule now with Deliver => true | Suppress _ => false end.

#[export] Instance cascading_policy : DeliveryPolicy CascadingPolicy :=
  fun p _ event now => cascade_verdict p (rule_id event) now.
End cascade.
Arguments CachedSettings : clear implicits.
Arguments CascadingPolicy : clear implicits.

(** ** The entitlement cache *)

Record EntitlementClaimsView := mkClaims { plan : option string; max_cameras : option Z }.

Definition EntitlementCache : Type := option string.

Definition store_jwt (jwt : string) (c : EntitlementCache) : option string * EntitlementCache := (c, Some jwt).
Definition current_jwt (c : EntitlementCache) : option string := c.
Definition is_populated (c : EntitlementCache) : bool := is_some c.

Definition dot : ascii := "."%char.

Section entitlements.
(** [URL_SAFE_NO_PAD.decode] followed by [serde_json::from_slice]. *)
Context (decode_payload : string -> option EntitlementClaimsView).

Definition decode_entitlement_claims (jwt : string) : option EntitlementClaimsView :=
  match split dot jwt with
  | [_; payload; signature] =>
      if is_empty_str payload || is_empty_str signature then None else decode_payload payload
  | _ => None
  end.

Definition claims_suspended (c : EntitlementClaimsView) : bool :=
  match plan c with Some p => str_eqb p "suspended" | None => false end ||
  match max_cameras c with Some n => n <=? 0 | None => false end.

Definition is_suspended (c : EntitlementCache) : bool :=
  match current_jwt c with
  | None => false
  | Some jwt => match decode_entitlement_claims jwt with Some cl => claims_suspended cl | None => false end
  end.

(** ** The cloud audit sink *)

Definition CLOUD_SINK_PREFIX : string := "cloud:".

Record CloudAwarePolicy (P : Type) := mkCloudAware { inner_policy : P; entitlements : EntitlementCache }.

#[export] Instance cloud_aware_policy {P} `{DeliveryPolicy P} : DeliveryPolicy (CloudAwarePolicy P) :=
  fun p row event now =>
    if starts_with (row_sink row) CLOUD_SINK_PREFIX then
      if is_suspended (entitlements P p) then Suppress EntitlementSuspended else Deliver
    else evaluate (inner_policy P p) row event now.
End entitlements.
Arguments mkCloudAware {P}.
Arguments inner_policy {P}.
Arguments entitlements {P}.

(** ** Properties *)

Section verdicts.
Context {Tz : Type} (parse_tz : string -> option Tz) (utc : Tz) (local : Tz -> Z -> LocalTime).
Context (decode_payload : string -> option EntitlementClaimsView).

#[local] Existing Instance cascading_policy.
#[local] Existing Instance cloud_aware_policy.

(** The slot of the grid that [now] falls in is set. *)
Definition slot_open (z : Tz) (now : Z) (s : DeliverySchedule) : Prop :=
  exists row, grid s !! weekday (local z now) = Some row /\ row !! slot_of (local z now) = Some true.

Lemma schedule_allows_spec s z now : schedule_allows local s z now = true <-> slot_open z now s.
Proof.
  unfold schedule_allows, is_allowed, slot_open. destruct (grid s !! _) as [row|]; [|naive_solver].
  destruct (row !! _) as [b|] eqn:E; simpl; [|naive_solver]. split; [intros ->; by exists row|].
  intros (row' & [= <-] & Hs). congruence.
Qed.

(** The schedule that governs a rule: its own replaces the global one. *)
Definition effective_schedule (s : DeliverySettings) (rp : option RuleDeliveryPolicy) : option DeliverySchedule :=
  match rp ≫= rule_schedule with Some rs => Some rs | None => schedule s end.

Definition allowed (p : CascadingPolicy Tz) (rule : string) (now : Z) : Prop :=
  enabled (settings (cached p)) = true /\
  (forall rp, rule_policies p !! rule = Some rp -> rule_enabled rp = true) /\
  (forall sc, effective_schedule (settings (cached p)) (rule_policies p !! rule) = Some sc ->
     slot_open (tz (cached p)) now sc).

Lemma cascade_deliver_iff p rule now : cascade_verdict local p rule now = Deliver <-> allowed p rule now.
Proof.
  unfold cascade_verdict, evaluate_cascade, allowed, effective_schedule.
  destruct (enabled _); simpl; [|naive_solver].
  destruct (rule_policies p !! rule) as [[[] sched]|]; simpl; [|naive_solver|].
  - destruct sched as [sc|]; [|destruct (schedule _) as [sc|]]; [| |naive_solver];
      rewrite <- ?(schedule_allows_spec sc); destruct (schedule_allows local sc _ now) eqn:E; rewrite ?schedule_allows_spec in E;
      split; try done; [intros _|intros (_ & _ & Ha)|intros _|intros (_ & _ & Ha)];
      [naive_solver| |naive_solver|]; pose proof (Ha sc eq_refl) as Ho; apply schedule_allows_spec in Ho; congruence.
  - destruct (schedule _) as [sc|]; [|naive_solver]. destruct (schedule_allows local sc _ now) eqn:E.
    + apply schedule_allows_spec in E. naive_solver.
    + split; [done|]. intros (_ & _ & Ha). pose proof (Ha sc eq_refl) as Ho. apply schedule_allows_spec in Ho. congruence.
Qed.

(** An entitlement that arrived, decodes, and says the organisation is suspended. *)
Definition suspended_by (c : EntitlementCache) : Prop :=
  exists jwt cl, c = Some jwt /\ decode_entitlement_claims decode_payload jwt = Some cl /\
    (plan cl = Some "suspended" \/ exists n, max_cameras cl = Some n /\ n <= 0).

Lemma is_suspended_spec c : is_suspended decode_payload c = true <-> suspended_by c.
Proof.
  unfold is_suspended, suspended_by. destruct c as [jwt|]; simpl; [|naive_solver].
  destruct (decode_entitlement_claims _ jwt) as [cl|] eqn:E; [|naive_solver]. unfold claims_suspended.
  rewrite orb_true_iff. unfold str_eqb. split.
  - intros H. exists jwt, cl. split; [done|]. split; [done|]. destruct H as [H|H].
    + left. destruct (plan cl); [|done]. by apply bool_decide_eq_true in H as ->.
    + right. destruct (max_cameras cl) as [n|]; [|done]. exists n. split; [done|]. by apply Z.leb_le.
  - intros (jwt' & cl' & [= <-] & Hd & H). rewrite E in Hd. simplify_eq. destruct H as [->|(n & -> & Hn)].
    + left. by rewrite bool_decide_true.
    + right. by apply Z.leb_le.
Qed.

(** What leaves the box: a row of the cloud audit sink is delivered always, whatever the
    operator's settings, unless an entitlement that arrived and decodes says the organisation
    is suspended (it fails open); any other row is delivered exactly when delivery is enabled,
    its rule is enabled, and the slot of the local half hour is set in the schedule that
    governs the rule, its own or else the global one. The early verdict of [would_deliver] is
    the dispatcher's, and each suppression names a switch that is really off. *)
Lemma delivered_iff_allowed (p : CloudAwarePolicy (CascadingPolicy Tz)) row ev now :
  let op := inner_policy p in
  let verdict := cloud_aware_policy decode_payload (H := cascading_policy local) p row ev now in
  (verdict = Deliver <->
     if starts_with (row_sink row) CLOUD_SINK_PREFIX then ~ suspended_by (entitlements p)
     else allowed op (rule_id ev) now) /\
  (starts_with (row_sink row) CLOUD_SINK_PREFIX = false ->
     (verdict = Deliver <-> would_deliver local op (rule_id ev) now = true)) /\
  match verdict with
  | Deliver => True
  | Suppress EntitlementSuspended => suspended_by (entitlements p)
  | Suppress GlobalDisabled => enabled (settings (cached op)) = false
  | Suppress RuleDisabled => exists rp, rule_policies op !! rule_id ev = Some rp /\ rule_enabled rp = false
  | Suppress OffScheduleRule =>
      exists rp sc, rule_policies op !! rule_id ev = Some rp /\ rule_schedule rp = Some sc /\
        ~ slot_open (tz (cached op)) now sc
  | Suppress OffScheduleGlobal =>
      exists sc, rule_policies op !! rule_id ev ≫= rule_schedule = None /\
        schedule (settings (cached op)) = Some sc /\ ~ slot_open (tz (cached op)) now sc
  end.
Proof.
  simpl. unfold cloud_aware_policy. destruct (starts_with _ _).
  - pose proof (is_suspended_spec (entitlements p)) as Hs.
    destruct (is_suspended _ _); naive_solver.
  - unfold evaluate, cascading_policy. rewrite cascade_deliver_iff. split; [done|]. split.
    + intros _. rewrite <- cascade_deliver_iff. unfold would_deliver. by destruct (cascade_verdict _ _ _ _).
    + unfold cascade_verdict, evaluate_cascade. destruct (enabled _) eqn:Ee; simpl; [|done].
      destruct (rule_policies _ !! _) as [[[] sched]|] eqn:Er; simpl; [| |].
      * destruct sched as [sc|]; [|destruct (schedule _) as [sc|] eqn:Eg; [|done]];
          destruct (schedule_allows local sc _ now) eqn:E; try done;
          (assert (~ slot_open (tz (cached (inner_policy p))) now sc) by (rewrite <- schedule_allows_spec; congruence));
          naive_solver.
      * naive_solver.
      * destruct (schedule _) as [sc|] eqn:Eg; [|done]. destruct (schedule_allows local sc _ now) eqn:E; [done|].
        exists sc. rewrite <- schedule_allows_spec. naive_solver congruence.
Qed.
End verdicts.
