(* ===== verification/Dispatcher.v ===== *)
(** The outbox dispatcher, [nexus-sinks/src/dispatcher.rs].

    [process_row] takes one pending row to its next state; [dispatch] drives it the way [tick]
    does: a batch is fetched, the rows of one sink are processed in order, the sinks interleave,
    a sink that has used up its budget leaves its rows for the next tick, and the next batch is
    fetched when every group is done. Alerts are recorded, swept and evicted in between, and the
    policy and the registry may be another one for every row (hot reload).

    What the dispatcher gets from outside is an input of the row, [RowEnv]: the clock readings,
    the answers of the clip lookups and of the file system, the remote end's answer to [deliver]
    ([None] is the delivery ceiling), and whether the single write succeeds. The effects are a
    log. A panicking sink task, which the join catches, is not modelled. *)
From Stdlib Require Import Ascii.
From stdpp Require Import pretty.
From S2P Require Import Prelude Text Float Types Alert Backoff Sinks Outbox Policy.

(** ** Constants and configuration *)

Definition CLIP_LINK_GRACE_SECS : Z := 10.
Definition ALERT_CLIP_BUILD_GRACE_SECS : Z := 45.
Definition CLIP_WAIT_POLL_SECS : Z := 1.
Definition BATCH_SIZE : Z := 64.
Definition TICK_INTERVAL : Z := secs 1.
Definition DELIVER_TIMEOUT : Z := secs 300.

Record SinkDispatcherConfig := mkDispatcherConfig {
  tick_interval : Z;
  batch_size : Z;
  clips_dir : option string;
  snapshots_dir : option string;
  deliver_timeout : Z;
}.

Definition config_default : SinkDispatcherConfig :=
  mkDispatcherConfig TICK_INTERVAL BATCH_SIZE None None DELIVER_TIMEOUT.

Inductive SinkDeliveryOutcome := FirstFailure | DeadLettered.

#[export] Instance SinkDeliveryOutcome_eq_dec : EqDecision SinkDeliveryOutcome.
Proof. solve_decision. Defined.

(** ** The world of a row *)

(** The columns of the alert clip and of the motion clip that are read. *)
Record AlertClipRow := mkAlertClip { ac_path : string; ac_state : string }.
Record ClipRow := mkClip { ended_at : option Z; hot_path : option string }.

Definition is_ready (c : AlertClipRow) : bool := str_eqb (ac_state c) "ready".

Record RowEnv := mkEnv {
  now : Z;
  now_grace : Z;
  now_write : Z;
  get_event_fails : option string;
  alert_clip_answer : result (option AlertClipRow) string;
  clip_id_answer : result (option Z) string;
  clip_answer : result (option ClipRow) string;
  on_disk : string -> bool;
  deliver_answer : AlertEvent -> option (result unit SinkError);
  write_ok : bool;
  siblings_ok : bool;
  remove_ok : bool;
}.

(** What the dispatcher does to the outside, each with the row it is done for. *)
Inductive Effect :=
| Delivered (k : Z) (sink : SinkId) (e : AlertEvent)
| Reported (k : Z) (sink : SinkId) (o : SinkDeliveryOutcome)
| Reclaimed (path : string).

Record World := mkWorld {
  box : OutboxTable;
  snapshots : gset string;
  log : list Effect;
}.

Definition with_box (b : OutboxTable) (w : World) : World := mkWorld b (snapshots w) (log w).
Definition emit (x : Effect) (w : World) : World := mkWorld (box w) (snapshots w) (log w ++ [x]).

(** An outbox write whose error is logged and dropped. *)
Definition write (env : RowEnv) (m : OutboxM unit) (w : World) : World :=
  if write_ok env then with_box (m (box w)).2 w else w.

(** [Path::join] *)
Definition ends_with_slash (s : string) : bool := bool_decide (last (chars s) = Some "/"%char).

Definition path_join (dir p : string) : string :=
  if starts_with p "/" then p
  else if is_empty_str dir || ends_with_slash dir then dir +:+ p
  else dir +:+ "/" +:+ p.

Definition within_grace (env : RowEnv) (row : OutboxRow) (grace_secs : Z) : bool :=
  let age := now_grace env - created_at row in (0 <=? age) && (age <? secs grace_secs).

Definition within_clip_grace (env : RowEnv) (row : OutboxRow) : bool := within_grace env row CLIP_LINK_GRACE_SECS.
Definition within_alert_clip_grace (env : RowEnv) (row : OutboxRow) : bool :=
  within_grace env row ALERT_CLIP_BUILD_GRACE_SECS.

(** ** The clip of an alert

    [Go e] continues to the delivery of [e]; [fallback] says whether the motion clip is to be
    looked up. *)
Inductive ClipStep := Go (e : AlertEvent) (fallback : bool) | WaitFor (msg : string) | RetryFor (msg : string).

Definition clip_wanted (sink : AlertSink) (e : AlertEvent) : bool :=
  wants_clip sink && negb (is_some (clip (artifacts e))).

Definition alert_clip_step (dir : option string) (sink : AlertSink) (env : RowEnv) (row : OutboxRow)
    (e : AlertEvent) : ClipStep :=
  if clip_wanted sink e then
    match alert_clip_answer env with
    | Ok (Some ac) =>
        if is_ready ac then
          match dir with
          | Some d =>
              let abs := path_join d (ac_path ac) in
              if on_disk env abs then Go (with_clip abs e) false else Go e false
          | None => Go e false
          end
        else if str_eqb (ac_state ac) "failed" then Go e false
        else if within_alert_clip_grace env row then WaitFor "alert clip still building"
        else Go e false
    | Ok None => Go e true
    | Err x => RetryFor ("alert clip lookup: " +:+ x)
    end
  else Go e true.

Definition motion_clip_step (dir : option string) (sink : AlertSink) (env : RowEnv) (row : OutboxRow)
    (e : AlertEvent) (fallback : bool) : ClipStep :=
  if clip_wanted sink e && fallback then
    match clip_id_answer env with
    | Ok (Some clip_id) =>
        match clip_answer env with
        | Ok (Some c) =>
            match ended_at c with
            | None => WaitFor ("clip " +:+ pretty clip_id +:+ " still recording; awaiting post-roll close")
            | Some _ =>
                match dir, hot_path c with
                | Some d, Some rel =>
                    let abs := path_join d rel in
                    if on_disk env abs then Go (with_clip abs e) fallback
                    else if within_clip_grace env row then
                      WaitFor "clip hot file not yet on disk; awaiting recorder flush"
                    else Go e fallback
                | _, _ =>
                    if is_some dir && within_clip_grace env row then
                      WaitFor "clip has no hot path yet; awaiting recorder finalize"
                    else Go e fallback
                end
            end
        | Ok None => Go e fallback
        | Err x => RetryFor ("get_clip error: " +:+ x)
        end
    | Ok None =>
        if within_clip_grace env row then WaitFor "clip link pending; awaiting supervisor clip link"
        else Go e fallback
    | Err x => RetryFor ("clip lookup error: " +:+ x)
    end
  else Go e fallback.

Definition resolve_clip (dir : option string) (sink : AlertSink) (env : RowEnv) (row : OutboxRow)
    (e : AlertEvent) : ClipStep :=
  match alert_clip_step dir sink env row e with
  | Go e' fallback => motion_clip_step dir sink env row e' fallback
  | s => s
  end.

(** ** One row *)

Section rows.
Context {P : Type} `{DeliveryPolicy P}.
(** Rust's [{:?}] of a string. *)
Context (debug : string -> string).
Context (cfg : SinkDispatcherConfig) (has_bus : bool).

Definition publish_outcome (k : Z) (sink : string) (o : SinkDeliveryOutcome) (w : World) : World :=
  if has_bus then match parse sink with Some p => emit (Reported k p o) w | None => w end else w.

Definition reclaim_snapshot_if_drained (env : RowEnv) (ev : string) (w : World) : World :=
  match snapshots_dir cfg with
  | None => w
  | Some dir =>
      if siblings_ok env then
        if existsb (fun r => bool_decide (status r = Pending)) (outbox_for_event ev (box w)) then w
        else
          let path := path_join dir (ev +:+ ".jpg") in
          if remove_ok env && bool_decide (path ∈ snapshots w) then
            emit (Reclaimed path) (mkWorld (box w) (snapshots w ∖ {[path]}) (log w))
          else w
      else w
  end.

Definition mark_dead (env : RowEnv) (row : OutboxRow) (msg : string) (w : World) : World :=
  reclaim_snapshot_if_drained env (row_event row)
    (publish_outcome (id row) (row_sink row) DeadLettered
      (write env (outbox_mark_dead (id row) msg) w)).

(** [row.attempts as u32] wraps. *)
Definition schedule_retry (env : RowEnv) (row : OutboxRow) (msg : string) (w : World) : World :=
  match backoff_for (usat_add 32 (attempts row mod 2 ^ 32) 1) with
  | Some delay => write env (outbox_mark_failed (id row) msg (now_write env + delay)) w
  | None => mark_dead env row ("max retries exceeded (" +:+ msg +:+ ")") w
  end.

Definition schedule_clip_wait (env : RowEnv) (row : OutboxRow) (msg : string) (w : World) : World :=
  write env (outbox_mark_waiting (id row) msg (now_write env + secs CLIP_WAIT_POLL_SECS)) w.

Definition report_first_failure (row : OutboxRow) (w : World) : World :=
  if attempts row =? 0 then publish_outcome (id row) (row_sink row) FirstFailure w else w.

(** [timeout(deliver_timeout, sink.deliver(&event))] *)
Definition bounded_deliver (env : RowEnv) (e : AlertEvent) : result unit SinkError :=
  match deliver_answer env e with
  | Some r => r
  | None => Err (Transient ("deliver() timed out after " +:+ pretty (deliver_timeout cfg / ns_per_sec) +:+ "s"))
  end.

Definition deliver_row (env : RowEnv) (row : OutboxRow) (sid : SinkId) (e : AlertEvent) (w : World) : World :=
  let w := emit (Delivered (id row) sid e) w in
  match bounded_deliver env e with
  | Ok _ => reclaim_snapshot_if_drained env (row_event row) (write env (outbox_mark_sent (id row) (now_write env)) w)
  | Err (Permanent msg) => mark_dead env row ("permanent: " +:+ msg) (report_first_failure row w)
  | Err (Transient msg) => schedule_retry env row ("transient: " +:+ msg) (report_first_failure row w)
  end.

Definition process_row (registry : SinkRegistry) (policy : P) (env : RowEnv) (row : OutboxRow) (w : World) : World :=
  if negb (bool_decide (status row = Pending)) then w
  else
    match get_event_fails env with
    | Some x => schedule_retry env row ("store error: " +:+ x) w
    | None =>
        match get_event (row_event row) (box w) with
        | None => mark_dead env row ("event " +:+ row_event row +:+ " missing (likely clip-evicted)") w
        | Some e =>
            match evaluate policy row e (now env) with
            | Suppress reason =>
                reclaim_snapshot_if_drained env (row_event row)
                  (write env (outbox_mark_suppressed (id row) reason) w)
            | Deliver =>
                match parse (row_sink row) with
                | None => mark_dead env row ("malformed sink_id: " +:+ debug (row_sink row)) w
                | Some sid =>
                    match get registry sid with
                    | None => mark_dead env row ("no sink registered for " +:+ row_sink row) w
                    | Some sink =>
                        match resolve_clip (clips_dir cfg) sink env row e with
                        | WaitFor msg => schedule_clip_wait env row msg w
                        | RetryFor msg => schedule_retry env row msg w
                        | Go e' _ => deliver_row env row sid e' w
                        end
                    end
                end
            end
        end
    end.

(** ** The drain *)

Record DispatcherHealth := mkHealth {
  ticks_completed : Z;
  rows_processed : Z;
  last_batch_rows : Z;
  last_tick_started_ms : Z;
  last_tick_completed_ms : Z;
}.

Definition mark_tick_started (at_ms : Z) (h : DispatcherHealth) : DispatcherHealth :=
  mkHealth (ticks_completed h) (rows_processed h) (last_batch_rows h) at_ms (last_tick_completed_ms h).

Definition mark_tick_completed (fetched processed at_ms : Z) (h : DispatcherHealth) : DispatcherHealth :=
  mkHealth ((ticks_completed h + 1) mod 2 ^ 64) ((rows_processed h + processed) mod 2 ^ 64) fetched
    (last_tick_started_ms h) at_ms.

Definition age_ms (now_ms : Z) (h : DispatcherHealth) : option Z :=
  if last_tick_completed_ms h =? 0 then None else Some (now_ms - last_tick_completed_ms h).

Definition is_live (now_ms stall_after : Z) (h : DispatcherHealth) : bool :=
  match age_ms now_ms h with Some age => age <=? as_millis stall_after | None => false end.

(** [batch] is the rows of the running tick that are not processed yet, in [id] order; the
    queue of a sink is the part of it with its sink id. [fetched] and [processed] count for the
    tick; [running] is false between ticks. *)
Record Dispatch := mkDispatch {
  world : World;
  batch : list OutboxRow;
  fetched : Z;
  processed : Z;
  running : bool;
  health : DispatcherHealth;
}.

Definition on_world (f : World -> World) (d : Dispatch) : Dispatch :=
  mkDispatch (f (world d)) (batch d) (fetched d) (processed d) (running d) (health d).

Definition on_box (f : OutboxTable -> OutboxTable) : Dispatch -> Dispatch :=
  on_world (fun w => with_box (f (box w)) w).

(** The start of a tick; [None] is a failed [outbox_pending], which leaves the liveness clock. *)
Definition tick_start (now_q : option Z) (at_ms : Z) (d : Dispatch) : Dispatch :=
  if running d then d
  else
    let h := mark_tick_started at_ms (health d) in
    match now_q with
    | None => mkDispatch (world d) [] 0 0 false h
    | Some t =>
        let rs := outbox_pending t (batch_size cfg) (box (world d)) in
        mkDispatch (world d) rs (zlength rs) 0 true h
    end.

(** The next row of a sink's group: the rows of one group are strictly sequential. *)
Definition next_row (sink : string) (d : Dispatch) : option OutboxRow :=
  head (filter (fun r => row_sink r = sink) (batch d)).

(** One turn of a group's loop; [over_budget] is the check after the row. *)
Definition group_step (sink : string) (registry : SinkRegistry) (policy : P) (env : RowEnv)
    (over_budget : bool) (d : Dispatch) : Dispatch :=
  match next_row sink d with
  | None => d
  | Some row =>
      let left r := if over_budget then negb (str_eqb (row_sink r) sink) else negb (id r =? id row) in
      let rest := filter (fun r => left r = true) (batch d) in
      mkDispatch (process_row registry policy env row (world d)) rest (fetched d) (processed d + 1) (running d) (health d)
  end.

(** The end of a tick, once every group is joined. *)
Definition tick_end (at_ms : Z) (d : Dispatch) : Dispatch :=
  if running d && bool_decide (batch d = []) then
    mkDispatch (world d) [] 0 0 false (mark_tick_completed (fetched d) (processed d) at_ms (health d))
  else d.

Inductive Step :=
| TickStart (now_q : option Z) (at_ms : Z)
| GroupStep (sink : string) (registry : SinkRegistry) (policy : P) (env : RowEnv) (over_budget : bool)
| TickEnd (at_ms : Z)
| Enqueue (e : AlertEvent) (sinks : list string) (alerted : bool) (at_ : Z)
| Sweep (scan : list Z) (cutoff limit : Z)
| EventGone (ev : string).

Definition dispatch_step (s : Step) (d : Dispatch) : Dispatch :=
  match s with
  | TickStart q at_ms => tick_start q at_ms d
  | GroupStep sink registry policy env over => group_step sink registry policy env over d
  | TickEnd at_ms => tick_end at_ms d
  | Enqueue e sinks alerted at_ => on_box (fun t => (record_event_and_enqueue_classified e sinks alerted at_ t).2) d
  | Sweep scan cutoff limit => on_box (fun t => (prune_outbox_terminal_older_than scan cutoff limit t).2) d
  | EventGone ev => on_box (delete_event ev) d
  end.

#[export] Instance dispatch : Machine Step Dispatch unit := fun s d => (dispatch_step s d, tt).

Definition run (steps : list Step) (d : Dispatch) : Dispatch := (mrun steps d).1.
End rows.

(** ** What a row's processing amounts to *)

Definition is_call (k : Z) (x : Effect) : bool := match x with Delivered k' _ _ => k' =? k | _ => false end.
Definition is_first (k : Z) (x : Effect) : bool :=
  match x with Reported k' _ o => (k' =? k) && bool_decide (o = FirstFailure) | _ => false end.

Definition count (f : Effect -> bool) (l : list Effect) : Z := zlength (filter (fun x => f x = true) l).
Definition calls (k : Z) : list Effect -> Z := count (is_call k).
Definition firsts (k : Z) : list Effect -> Z := count (is_first k).

Lemma count_app f a b : count f (a ++ b) = count f a + count f b.
Proof. unfold count, zlength. rewrite filter_app, length_app. lia. Qed.

Lemma count_cons f x l : count f (x :: l) = (if f x then 1 else 0) + count f l.
Proof. unfold count, zlength. rewrite filter_cons. case_decide as Hx; destruct (f x); simpl; (congruence || lia). Qed.

Lemma count_nil f : count f [] = 0.
Proof. done. Qed.

(** The state machine of a row: what [row] becomes in one processing that makes [n] calls of
    [deliver]. *)
Inductive row_step (row : OutboxRow) : Z -> OutboxRow -> Prop :=
| step_unwritten n : 0 <= n <= 1 -> row_step row n row
| step_suppressed reason : row_step row 0 (set_suppressed reason row)
| step_sent t : row_step row 1 (set_sent t row)
| step_retried n msg t d :
    0 <= n <= 1 -> backoff_for (attempts row + 1) = Some d -> row_step row n (set_failed msg (t + d) row)
| step_dead n msg : 0 <= n <= 1 -> row_step row n (set_dead msg row)
| step_waits msg t : row_step row 0 (set_waiting msg (t + secs CLIP_WAIT_POLL_SECS) row).

Section facts.
Context {P : Type} `{DeliveryPolicy P} (debug : string -> string) (cfg : SinkDispatcherConfig) (has_bus : bool).

Definition publish_fx (k : Z) (sink : string) (o : SinkDeliveryOutcome) : list Effect :=
  if has_bus then match parse sink with Some p => [Reported k p o] | None => [] end else [].

Lemma publish_eq k sink o w :
  publish_outcome has_bus k sink o w = mkWorld (box w) (snapshots w) (log w ++ publish_fx k sink o).
Proof.
  unfold publish_outcome, publish_fx. destruct has_bus; [destruct (parse sink)|]; destruct w; unfold emit; simpl; by rewrite ?app_nil_r.
Qed.

Lemma write_eq env m w :
  write env m w = mkWorld (if write_ok env then (m (box w)).2 else box w) (snapshots w) (log w).
Proof. unfold write. destruct (write_ok env); by destruct w. Qed.

(** The rows of an event that still wait for the snapshot. *)
Definition waiting (ev : string) (t : OutboxTable) : Prop :=
  exists k r, rows t !! k = Some r /\ row_event r = ev /\ status r = Pending.

Definition snapshot_path (dir ev : string) : string := path_join dir (ev +:+ ".jpg").

Lemma reclaim_eq env ev w :
  reclaim_snapshot_if_drained cfg env ev w = w \/
  exists dir, snapshots_dir cfg = Some dir /\ ~ waiting ev (box w) /\
    reclaim_snapshot_if_drained cfg env ev w =
      mkWorld (box w) (snapshots w ∖ {[snapshot_path dir ev]}) (log w ++ [Reclaimed (snapshot_path dir ev)]).
Proof.
  unfold reclaim_snapshot_if_drained. destruct (snapshots_dir cfg) as [dir|]; [|by left].
  destruct (siblings_ok env); [|by left]. destruct (existsb _ _) eqn:E; [by left|].
  destruct (remove_ok env && _); [|by left]. right. exists dir. split; [done|]. split; [|done].
  intros (k & r & Hk & Hev & Hs). apply not_true_iff_false in E. apply E, existsb_exists. exists r.
  split; [|by apply bool_decide_eq_true]. apply list_elem_of_In. unfold outbox_for_event.
  apply list_elem_of_filter. split; [done|]. apply elem_of_by_id. by exists k.
Qed.

(** What one processing of [row] does, seen from outside: its one write is [f], it makes the
    effects [fx] and then perhaps removes the snapshot. *)
Record acts (env : RowEnv) (row : OutboxRow) (f : OutboxRow -> OutboxRow) (fx : list Effect) (w w' : World) : Prop := {
  acts_box : box w' = if write_ok env then (update_row (id row) f (box w)).2 else box w;
  acts_rest :
    (snapshots w' = snapshots w /\ log w' = log w ++ fx) \/
    exists dir, snapshots_dir cfg = Some dir /\ ~ waiting (row_event row) (box w') /\
      snapshots w' = snapshots w ∖ {[snapshot_path dir (row_event row)]} /\
      log w' = log w ++ fx ++ [Reclaimed (snapshot_path dir (row_event row))];
}.

Lemma write_acts env row f fx w :
  acts env row f fx w (write env (update_row (id row) f) (mkWorld (box w) (snapshots w) (log w ++ fx))).
Proof. rewrite write_eq. split; simpl; [done|by left]. Qed.

Lemma reclaim_acts env row f fx w w1 :
  box w1 = (if write_ok env then (update_row (id row) f (box w)).2 else box w) ->
  snapshots w1 = snapshots w -> log w1 = log w ++ fx ->
  acts env row f fx w (reclaim_snapshot_if_drained cfg env (row_event row) w1).
Proof.
  intros Hb Hs Hl. destruct (reclaim_eq env (row_event row) w1) as [->|(dir & Hd & Hw & ->)].
  - split; [done|by left].
  - split; [done|]. right. exists dir. simpl. rewrite Hs, Hl, <- app_assoc. done.
Qed.

Lemma mark_dead_acts env row msg fx w :
  acts env row (set_dead msg) (fx ++ publish_fx (id row) (row_sink row) DeadLettered) w
    (mark_dead cfg has_bus env row msg (mkWorld (box w) (snapshots w) (log w ++ fx))).
Proof.
  unfold mark_dead, outbox_mark_dead. rewrite write_eq, publish_eq. simpl.
  apply reclaim_acts; [done..|]. simpl. by rewrite app_assoc.
Qed.

Lemma retry_acts env row msg fx w :
  0 <= attempts row < 2 ^ 32 - 1 ->
  (exists d, backoff_for (attempts row + 1) = Some d /\
     acts env row (set_failed msg (now_write env + d)) fx w
       (schedule_retry cfg has_bus env row msg (mkWorld (box w) (snapshots w) (log w ++ fx)))) \/
  (backoff_for (attempts row + 1) = None /\
   acts env row (set_dead ("max retries exceeded (" +:+ msg +:+ ")"))
     (fx ++ publish_fx (id row) (row_sink row) DeadLettered) w
     (schedule_retry cfg has_bus env row msg (mkWorld (box w) (snapshots w) (log w ++ fx)))).
Proof.
  intros Ha. unfold schedule_retry, usat_add.
  assert (2 ^ 32 = 4294967296) as E32 by done. assert (umax 32 = 4294967295) as Eu by done.
  rewrite Z.mod_small, Z.min_l by lia. destruct (backoff_for (attempts row + 1)) as [d|].
  - left. exists d. split; [done|]. apply write_acts.
  - right. split; [done|]. apply mark_dead_acts.
Qed.

Definition first_fx (row : OutboxRow) : list Effect :=
  if attempts row =? 0 then publish_fx (id row) (row_sink row) FirstFailure else [].

Lemma report_eq row w :
  report_first_failure has_bus row w = mkWorld (box w) (snapshots w) (log w ++ first_fx row).
Proof.
  unfold report_first_failure, first_fx. destruct (attempts row =? 0); [by rewrite publish_eq|].
  destruct w. simpl. by rewrite app_nil_r.
Qed.

(** Everything that must hold for [e'] to be handed to the sink [sid]: the alert exists, the
    policy lets it out now, the sink is registered, and its clip is settled. *)
Definition cleared (registry : SinkRegistry) (policy : P) (env : RowEnv) (row : OutboxRow) (t : OutboxTable)
    (sid : SinkId) (e' : AlertEvent) : Prop :=
  exists e sink fb, get_event_fails env = None /\ get_event (row_event row) t = Some e /\
    evaluate policy row e (now env) = Deliver /\ parse (row_sink row) = Some sid /\
    get registry sid = Some sink /\ resolve_clip (clips_dir cfg) sink env row e = Go e' fb.

(** A wait is for a clip that a sink wants, and inside a grace window unless the clip is still
    being recorded. *)
Definition may_wait (env : RowEnv) (row : OutboxRow) : Prop :=
  within_alert_clip_grace env row = true \/ within_clip_grace env row = true \/
  exists k c, clip_id_answer env = Ok (Some k) /\ clip_answer env = Ok (Some c) /\ ended_at c = None.

Lemma resolve_clip_waits sink env row e msg :
  resolve_clip (clips_dir cfg) sink env row e = WaitFor msg -> clip_wanted sink e = true /\ may_wait env row.
Proof.
  unfold resolve_clip, alert_clip_step, motion_clip_step, may_wait.
  destruct (clip_wanted sink e) eqn:Ew; simpl; [|by rewrite Ew].
  destruct (alert_clip_answer env) as [[ac|]|]; [|rewrite ?Ew; simpl|done].
  - destruct (is_ready ac).
    { destruct (clips_dir cfg) as [d|]; [destruct (on_disk env _)|]; by rewrite andb_false_r. }
    destruct (str_eqb _ _); [by rewrite andb_false_r|].
    destruct (within_alert_clip_grace env row); [by auto|by rewrite andb_false_r].
  - destruct (clip_id_answer env) as [[k|]|]; [|destruct (within_clip_grace env row); [auto|done]|done].
    destruct (clip_answer env) as [[c|]|]; [|done..].
    destruct (ended_at c) eqn:Ec; [|intros _; split; [done|]; right; right; by exists k, c].
    destruct (clips_dir cfg), (hot_path c); simpl; try case_match; try done;
      destruct (within_clip_grace env row); auto; done.
Qed.

(** How [process_row] leaves a pending row. *)
Inductive handled (registry : SinkRegistry) (policy : P) (env : RowEnv) (row : OutboxRow) (w : World) : World -> Prop :=
| handled_deliver sid e' :
    cleared registry policy env row (box w) sid e' ->
    handled registry policy env row w (deliver_row cfg has_bus env row sid e' w)
| handled_suppress e reason :
    get_event_fails env = None -> get_event (row_event row) (box w) = Some e ->
    evaluate policy row e (now env) = Suppress reason ->
    handled registry policy env row w
      (reclaim_snapshot_if_drained cfg env (row_event row) (write env (outbox_mark_suppressed (id row) reason) w))
| handled_dead msg : handled registry policy env row w (mark_dead cfg has_bus env row msg w)
| handled_retry msg : handled registry policy env row w (schedule_retry cfg has_bus env row msg w)
| handled_wait msg : may_wait env row -> handled registry policy env row w (schedule_clip_wait env row msg w).

Lemma process_row_handled registry policy env row w :
  status row = Pending ->
  handled registry policy env row w (process_row debug cfg has_bus registry policy env row w).
Proof.
  intros Hp. unfold process_row. rewrite bool_decide_true by done. simpl.
  destruct (get_event_fails env) eqn:Ef; [constructor|].
  destruct (get_event _ _) as [e|] eqn:Ee; [|constructor].
  destruct (evaluate policy row e (now env)) eqn:Ev; [|by eapply handled_suppress].
  destruct (parse (row_sink row)) as [sid|] eqn:Es; [|constructor].
  destruct (get registry sid) as [sink|] eqn:Er; [|constructor].
  destruct (resolve_clip _ _ _ _ _) as [e' fb|msg|msg] eqn:Ec; [| |constructor].
  - constructor. by exists e, sink, fb.
  - constructor. by eapply resolve_clip_waits.
Qed.

Lemma world_eta w : mkWorld (box w) (snapshots w) (log w ++ []) = w.
Proof. destruct w. simpl. by rewrite app_nil_r. Qed.

(** The effects of one processing of [row] with [n] calls of [deliver]: they all are the row's,
    and a first failure is among them only if the row's first call is. *)
Record tally (row : OutboxRow) (fx : list Effect) (n : Z) : Prop := {
  tally_calls : calls (id row) fx = n;
  tally_others : forall k, k <> id row -> calls k fx = 0 /\ firsts k fx = 0;
  tally_firsts : 0 <= firsts (id row) fx <= (if (attempts row =? 0) && (n =? 1) then 1 else 0);
}.

Lemma tally_nil row : tally row [] 0.
Proof. split; [done|done|]. change (firsts (id row) []) with 0. by rewrite andb_false_r. Qed.

Lemma count_publish f k sink o :
  (forall p, f (Reported k p o) = false) -> count f (publish_fx k sink o) = 0.
Proof. intros Hf. unfold publish_fx. destruct has_bus; [|done]. destruct (parse sink); [|done]. by rewrite count_cons, Hf. Qed.

Lemma tally_dead row fx n :
  tally row fx n -> tally row (fx ++ publish_fx (id row) (row_sink row) DeadLettered) n.
Proof.
  intros [Hc Ho Hf]. unfold calls, firsts in *.
  assert (forall k, count (is_first k) (publish_fx (id row) (row_sink row) DeadLettered) = 0) as H1
    by (intros; apply count_publish; intros; simpl; by rewrite andb_false_r).
  assert (forall k, count (is_call k) (publish_fx (id row) (row_sink row) DeadLettered) = 0) as H2
    by (intros; by apply count_publish).
  split; unfold calls, firsts; [by rewrite count_app, H2, Hc, Z.add_0_r| |by rewrite count_app, H1, Z.add_0_r].
  intros k Hk. destruct (Ho k Hk). rewrite !count_app, H1, H2. lia.
Qed.

Lemma tally_call row sid e : tally row [Delivered (id row) sid e] 1.
Proof.
  split; unfold calls, firsts.
  - rewrite count_cons. simpl. by rewrite Z.eqb_refl.
  - intros k Hk. rewrite !count_cons. simpl. by rewrite (proj2 (Z.eqb_neq (id row) k)) by done.
  - rewrite count_cons, count_nil. simpl. by destruct (attempts row =? 0).
Qed.

Lemma tally_failed_call row sid e : tally row ([Delivered (id row) sid e] ++ first_fx row) 1.
Proof.
  destruct (tally_call row sid e) as [Hc Ho Hf]. unfold first_fx, calls, firsts in *.
  destruct (attempts row =? 0) eqn:Ea; [|rewrite app_nil_r; split; by rewrite ?Ea].
  unfold publish_fx. destruct has_bus; [destruct (parse (row_sink row))|]; simpl app;
    try (split; [done..|by rewrite Ea]).
  split; unfold calls, firsts; rewrite ?count_cons, ?count_nil in *; simpl in *; rewrite ?Z.eqb_refl, ?Ea; [done| |done].
  intros k Hk. rewrite !count_cons. simpl. by rewrite (proj2 (Z.eqb_neq (id row) k)) by done.
Qed.

(** One processing of a pending row: its one write is a step of the state machine. *)
Definition stepped (env : RowEnv) (row : OutboxRow) (w w' : World) : Prop :=
  exists f fx n, acts env row f fx w w' /\ same_alert f /\ row_step row n (f row) /\ tally row fx n /\
    (n = 1 -> attempts (f row) = attempts row + 1) /\
    (~ may_wait env row -> terminal (status (f row)) = true \/ attempts (f row) = attempts row + 1).

Lemma stepped_dead env row msg fx n w :
  0 <= n <= 1 -> tally row fx n ->
  stepped env row w (mark_dead cfg has_bus env row msg (mkWorld (box w) (snapshots w) (log w ++ fx))).
Proof.
  intros Hn Ht. exists (set_dead msg), (fx ++ publish_fx (id row) (row_sink row) DeadLettered), n.
  split; [apply mark_dead_acts|]. split; [auto with nexus|]. split; [by constructor|].
  split; [by apply tally_dead|]. split; [done|by left].
Qed.

Lemma stepped_retry env row msg fx n w :
  0 <= attempts row < 2 ^ 32 - 1 -> 0 <= n <= 1 -> tally row fx n ->
  stepped env row w (schedule_retry cfg has_bus env row msg (mkWorld (box w) (snapshots w) (log w ++ fx))).
Proof.
  intros Ha Hn Ht. destruct (retry_acts env row msg fx w Ha) as [(d & Hd & Hact)|[_ Hact]].
  - exists (set_failed msg (now_write env + d)), fx, n.
    split; [done|]. split; [auto with nexus|]. split; [by constructor|]. split; [done|]. split; [done|by right].
  - eexists _, _, n. split; [exact Hact|]. split; [auto with nexus|]. split; [by constructor|].
    split; [by apply tally_dead|]. split; [done|by left].
Qed.

Lemma stepped_deliver env row sid e w :
  0 <= attempts row < 2 ^ 32 - 1 -> stepped env row w (deliver_row cfg has_bus env row sid e w).
Proof.
  intros Ha. unfold deliver_row, emit. destruct (bounded_deliver cfg env e) as [[]|[msg|msg]].
  - exists (set_sent (now_write env)), [Delivered (id row) sid e], 1.
    split; [apply reclaim_acts; by rewrite write_eq|]. split; [auto with nexus|]. split; [constructor|].
    split; [apply tally_call|]. split; [done|by left].
  - rewrite report_eq. simpl. rewrite <- app_assoc. apply (stepped_retry _ _ _ _ 1); [done..|apply tally_failed_call].
  - rewrite report_eq. simpl. rewrite <- app_assoc. apply (stepped_dead _ _ _ _ 1); [done|apply tally_failed_call].
Qed.

Lemma process_row_steps registry policy env row w :
  status row = Pending -> 0 <= attempts row < 2 ^ 32 - 1 ->
  stepped env row w (process_row debug cfg has_bus registry policy env row w).
Proof.
  intros Hp Ha. destruct (process_row_handled registry policy env row w Hp) as [sid e' _|e reason _ _ _|msg|msg|msg Hmay].
  - by apply stepped_deliver.
  - exists (set_suppressed reason), [], 0.
    split; [apply reclaim_acts; rewrite write_eq; simpl; by rewrite ?app_nil_r|].
    split; [auto with nexus|]. split; [constructor|]. split; [apply tally_nil|]. split; [done|by left].
  - rewrite <- (world_eta w) at 2. apply (stepped_dead _ _ _ _ 0); [done|apply tally_nil].
  - rewrite <- (world_eta w) at 2. apply (stepped_retry _ _ _ _ 0); [done..|apply tally_nil].
  - exists (set_waiting msg (now_write env + secs CLIP_WAIT_POLL_SECS)), [], 0.
    split; [rewrite <- (world_eta w) at 2; apply write_acts|]. split; [auto with nexus|].
    split; [constructor|]. split; [apply tally_nil|]. by split.
Qed.
End facts.

(** ** When a delivery is made *)

Section gate.
Context {P : Type} `{DeliveryPolicy P} (debug : string -> string) (cfg : SinkDispatcherConfig) (has_bus : bool).

(** The log grew, by no call. *)
Definition no_call (w w' : World) : Prop :=
  exists l, log w' = log w ++ l /\ forall k s e, Delivered k s e ∉ l.

Lemma no_call_refl w w' : log w' = log w -> no_call w w'.
Proof. intros Hl. exists []. rewrite Hl, app_nil_r. split; [done|set_solver]. Qed.

Lemma no_call_trans w1 w2 w3 : no_call w1 w2 -> no_call w2 w3 -> no_call w1 w3.
Proof.
  intros (l1 & H1 & Hn1) (l2 & H2 & Hn2). exists (l1 ++ l2). rewrite H2, H1, app_assoc. split; [done|].
  intros k s e. rewrite elem_of_app. intros [?|?]; [by eapply Hn1|by eapply Hn2].
Qed.

Lemma no_call_publish k sink o w : no_call w (publish_outcome has_bus k sink o w).
Proof.
  rewrite publish_eq. exists (publish_fx has_bus k sink o). split; [done|]. intros k' s e. unfold publish_fx.
  destruct has_bus; [destruct (parse sink)|]; set_solver.
Qed.

Lemma no_call_write env m w : no_call w (write env m w).
Proof. apply no_call_refl. by rewrite write_eq. Qed.

Lemma no_call_reclaim env ev w : no_call w (reclaim_snapshot_if_drained cfg env ev w).
Proof.
  destruct (reclaim_eq cfg env ev w) as [->|(dir & _ & _ & ->)]; [by apply no_call_refl|].
  exists [Reclaimed (snapshot_path dir ev)]. split; [done|set_solver].
Qed.

Lemma no_call_dead env row msg w : no_call w (mark_dead cfg has_bus env row msg w).
Proof.
  eapply no_call_trans; [apply no_call_write|]. eapply no_call_trans; [apply no_call_publish|].
  apply no_call_reclaim.
Qed.

Lemma no_call_retry env row msg w : no_call w (schedule_retry cfg has_bus env row msg w).
Proof. unfold schedule_retry. case_match; [apply no_call_write|apply no_call_dead]. Qed.

Lemma no_call_report row w : no_call w (report_first_failure has_bus row w).
Proof. unfold report_first_failure. case_match; [apply no_call_publish|by apply no_call_refl]. Qed.

Lemma deliver_row_log env row sid e w :
  exists l, log (deliver_row cfg has_bus env row sid e w) = log w ++ Delivered (id row) sid e :: l /\
    forall k s e', Delivered k s e' ∉ l.
Proof.
  assert (no_call (emit (Delivered (id row) sid e) w) (deliver_row cfg has_bus env row sid e w)) as (l & Hl & Hn).
  { unfold deliver_row. destruct (bounded_deliver cfg env e) as [|[msg|msg]].
    - eapply no_call_trans; [apply no_call_write|apply no_call_reclaim].
    - eapply no_call_trans; [apply no_call_report|apply no_call_retry].
    - eapply no_call_trans; [apply no_call_report|apply no_call_dead]. }
  exists l. rewrite Hl. simpl. by rewrite <- app_assoc.
Qed.

Lemma resolve_clip_attaches sink env row e e' fb :
  resolve_clip (clips_dir cfg) sink env row e = Go e' fb ->
  e' = e \/ exists path, wants_clip sink = true /\ clip (artifacts e) = None /\ on_disk env path = true /\ e' = with_clip path e.
Proof.
  assert (clip_wanted sink e = true -> wants_clip sink = true /\ clip (artifacts e) = None) as Hw.
  { unfold clip_wanted, is_some. intros [? Hc]%andb_true_iff. by destruct (clip (artifacts e)). }
  unfold resolve_clip, alert_clip_step, motion_clip_step.
  destruct (clip_wanted sink e) eqn:Ew; simpl; [|rewrite Ew; simpl; intros [= <- _]; by left].
  destruct (Hw eq_refl) as [Hw1 Hw2].
  destruct (alert_clip_answer env) as [[ac|]|]; [|rewrite Ew; simpl|done].
  - destruct (is_ready ac).
    { destruct (clips_dir cfg) as [d|]; [destruct (on_disk env _) eqn:Ed|]; rewrite andb_false_r; intros [= <- _];
        [right; eexists; by split_and!|by left..]. }
    destruct (str_eqb _ _); [rewrite andb_false_r; intros [= <- _]; by left|].
    destruct (within_alert_clip_grace env row); [done|rewrite andb_false_r; intros [= <- _]; by left].
  - destruct (clip_id_answer env) as [[k|]|]; [|case_match; [done|intros [= <- _]; by left]|done].
    destruct (clip_answer env) as [[c|]|]; [|intros [= <- _]; by left|done].
    destruct (ended_at c); [|done].
    destruct (clips_dir cfg) as [d|], (hot_path c) as [rel|]; simpl;
      [destruct (on_disk env (path_join d rel)) eqn:Ed; [intros [= <- _]; right; eexists; by split_and!|]|..];
      try destruct (within_clip_grace env row); try done; intros [= <- _]; by left.
Qed.

(** C29. A pending row is handed to a sink exactly when everything is in place: the alert is
    still stored, the policy lets it out at that moment, the sink id parses to a registered
    sink, and the clip is settled; then there is one call, with the stored alert, to which at
    most a clip is added that the sink wants, that was missing, and whose file is on disk. *)
Theorem delivered_iff_cleared registry policy env row w k sid e' :
  status row = Pending ->
  (exists l, log (process_row debug cfg has_bus registry policy env row w) = log w ++ l /\ Delivered k sid e' ∈ l) <->
  k = id row /\ cleared cfg registry policy env row (box w) sid e' /\
  exists e sink, get_event (row_event row) (box w) = Some e /\ get registry sid = Some sink /\
    (e' = e \/ exists path, wants_clip sink = true /\ clip (artifacts e) = None /\
                 on_disk env path = true /\ e' = with_clip path e).
Proof.
  intros Hp. split.
  - intros (l & Hl & Hin).
    destruct (process_row_handled debug cfg has_bus registry policy env row w Hp)
      as [sid0 e0 Hc|e0 r Hf He Hv|msg|msg|msg _].
    + destruct (deliver_row_log env row sid0 e0 w) as (l' & Hl' & Hn). rewrite Hl' in Hl.
      apply app_inv_head in Hl as <-. apply elem_of_cons in Hin as [Heq|Hin]; [|by apply Hn in Hin]. simplify_eq.
      split; [done|]. split; [done|]. destruct Hc as (e & sink & fb & _ & He & _ & _ & Hs & Hr).
      exists e, sink. split; [done|]. split; [done|]. by eapply resolve_clip_attaches.
    + destruct (no_call_trans _ _ _ (no_call_write env (outbox_mark_suppressed (id row) r) w)
        (no_call_reclaim env (row_event row) _)) as (l' & Hl' & Hn).
      rewrite Hl' in Hl. apply app_inv_head in Hl as <-. by apply Hn in Hin.
    + destruct (no_call_dead env row msg w) as (l' & Hl' & Hn). rewrite Hl' in Hl. apply app_inv_head in Hl as <-. by apply Hn in Hin.
    + destruct (no_call_retry env row msg w) as (l' & Hl' & Hn). rewrite Hl' in Hl. apply app_inv_head in Hl as <-. by apply Hn in Hin.
    + destruct (no_call_write env (outbox_mark_waiting (id row) msg (now_write env + secs CLIP_WAIT_POLL_SECS)) w) as (l' & Hl' & Hn).
      unfold schedule_clip_wait in Hl. rewrite Hl' in Hl. apply app_inv_head in Hl as <-. by apply Hn in Hin.
  - intros (-> & (e & sink & fb & Hf & He & Hv & Hs & Hr & Hc) & _).
    unfold process_row. rewrite bool_decide_true, Hf, He, Hv, Hs, Hr, Hc by done. simpl.
    destruct (deliver_row_log env row sid e' w) as (l & -> & _). eexists. split; [done|]. by left.
Qed.
End gate.

(** ** Invariants of the drain *)

Definition ob (d : Dispatch) : OutboxTable := box (world d).

(** A row in the ledger: attempts stay under the ceiling, and [failed] is never written. *)
Definition row_sound (r : OutboxRow) : Prop :=
  0 <= attempts r <= MAX_ATTEMPTS /\ (status r = Pending -> attempts r < MAX_ATTEMPTS) /\
  status r <> Failed /\ row_check r = true.

(** A row of the running batch: as it stands in the table, unless its event is gone. *)
Definition in_flight (t : OutboxTable) (b : OutboxRow) : Prop :=
  status b = Pending /\ row_sound b /\ id b < next_id t /\ (rows t !! id b = Some b \/ rows t !! id b = None).

Record ledger_ok (d : Dispatch) : Prop := {
  l_wf : outbox_wf (ob d);
  l_rows : map_Forall (fun _ r => row_sound r) (rows (ob d));
  l_batch : Forall (in_flight (ob d)) (batch d);
  l_nodup : NoDup (id <$> batch d);
}.

Definition health0 : DispatcherHealth := mkHealth 0 0 0 0 0.
Definition initial : Dispatch := mkDispatch (mkWorld empty_outbox ∅ []) [] 0 0 false health0.

Lemma initial_ok : ledger_ok initial.
Proof. split; [apply empty_outbox_wf|apply map_Forall_empty|done|constructor]. Qed.

Lemma row_step_sound row n r' : status row = Pending -> row_sound row -> row_step row n r' -> row_sound r'.
Proof.
  intros Hp (Ha & Hlt & _ & Hc) Hs. specialize (Hlt Hp).
  assert (suppression_reason row = None) as Hr.
  { unfold row_check in Hc. apply bool_decide_eq_true in Hc. rewrite Hp in Hc.
    destruct (suppression_reason row); [|done]. assert (Pending = Suppressed) by (by apply Hc). done. }
  unfold row_sound, row_check. destruct Hs as [n Hn|reason|t|n msg t d Hn Hd|n msg Hn|msg t]; simpl.
  - split; [lia|]. split; [done|]. split; [by rewrite Hp|done].
  - split; [lia|]. split; [done|]. split; [done|]. first [done|by apply bool_decide_eq_true].
  - split; [lia|]. split; [done|]. split; [done|]. rewrite Hr. done.
  - assert (attempts row + 1 < MAX_ATTEMPTS) by (apply backoff_defined; by eexists).
    split; [lia|]. split; [done|]. split; [done|]. rewrite Hr. done.
  - split; [lia|]. split; [done|]. split; [done|]. rewrite Hr. done.
  - split; [lia|]. split; [done|]. split; [done|]. rewrite Hr. done.
Qed.

Lemma sound_attempts row : row_sound row -> 0 <= attempts row < 2 ^ 32 - 1.
Proof. intros ([Ha Hb] & _). unfold MAX_ATTEMPTS in Hb. change (2 ^ 32) with 4294967296. lia. Qed.

(** The write of an in-flight row: it lands in the table if the row is there. *)
Lemma update_in_flight t row f :
  in_flight t row -> row_check (f row) = true ->
  (rows t !! id row = None /\ update_row (id row) f t = (Ok tt, t)) \/
  (rows t !! id row = Some row /\ update_row (id row) f t = (Ok tt, put_rows (<[id row := f row]> (rows t)) t)).
Proof.
  intros (_ & _ & _ & [Hk|Hk]) Hc; unfold update_row; rewrite Hk; [right|by left]. by rewrite Hc.
Qed.

Section runs.
Context {P : Type} `{DeliveryPolicy P} (debug : string -> string) (cfg : SinkDispatcherConfig) (has_bus : bool).

Abbreviation go := (process_row (P:=P) debug cfg has_bus).
Abbreviation step := (dispatch_step (P:=P) debug cfg has_bus).
Abbreviation runs := (run (P:=P) debug cfg has_bus).

(** The table after one processing of an in-flight row. *)
Lemma process_in_flight registry policy env row w :
  in_flight (box w) row -> outbox_wf (box w) ->
  exists r' fx n,
    row_step row n r' /\ row_sound r' /\ tally row fx n /\ (n = 1 -> attempts r' = attempts row + 1 \/ write_ok env = false) /\
    id r' = id row /\ row_event r' = row_event row /\ 0 <= n <= 1 /\
    outbox_wf (box (go registry policy env row w)) /\
    events (box (go registry policy env row w)) = events (box w) /\
    next_id (box (go registry policy env row w)) = next_id (box w) /\
    rows (box (go registry policy env row w)) =
      match rows (box w) !! id row with Some _ => <[id row := r']> (rows (box w)) | None => rows (box w) end /\
    ((snapshots (go registry policy env row w) = snapshots w /\ log (go registry policy env row w) = log w ++ fx) \/
     exists dir, snapshots_dir cfg = Some dir /\ ~ waiting (row_event row) (box (go registry policy env row w)) /\
       snapshots (go registry policy env row w) = snapshots w ∖ {[snapshot_path dir (row_event row)]} /\
       log (go registry policy env row w) = log w ++ fx ++ [Reclaimed (snapshot_path dir (row_event row))]).
Proof.
  intros Hfl Hwf. destruct Hfl as (Hp & Hs & Hlt & Hin).
  destruct (process_row_steps debug cfg has_bus registry policy env row w Hp (sound_attempts _ Hs))
    as (f & fx & n & [Hbox Hrest] & Hsame & Hstep & Ht & Hone & _).
  pose proof (row_step_sound _ _ _ Hp Hs Hstep) as Hsound.
  assert (0 <= n <= 1) as Hn by (inversion Hstep; lia).
  destruct (Hsame row) as (Hid & Hev & _). destruct (write_ok env) eqn:Ew.
  - exists (f row), fx, n. do 3 (split; [done|]). split; [intros; left; auto|]. do 3 (split; [done|]).
    pose proof (update_row_wf (id row) f Hsame (box w) Hwf) as Hwf'. rewrite <- Hbox in Hwf'. split; [done|].
    destruct (update_in_flight (box w) row f ltac:(done) (proj2 (proj2 (proj2 Hsound)))) as [[Hk Hu]|[Hk Hu]];
      rewrite Hu in Hbox; simpl in Hbox; rewrite Hbox in Hrest |- *; by rewrite Hk.
  - exists row, fx, n. split; [by constructor|]. split; [done|]. split; [done|]. split; [by right|].
    do 3 (split; [done|]). rewrite Hbox in Hrest |- *. split; [done|]. split; [done|]. split; [done|]. split; [|done].
    destruct Hin as [Hk|Hk]; rewrite Hk; [by rewrite insert_id|done].
Qed.

Lemma next_row_spec sink d row : next_row sink d = Some row -> row ∈ batch d /\ row_sink row = sink.
Proof.
  unfold next_row. intros Hh. assert (row ∈ filter (fun r => row_sink r = sink) (batch d)) as Hin.
  { destruct (filter _ (batch d)); simplify_eq/=. by left. }
  by apply list_elem_of_filter in Hin as [? ?].
Qed.

(** Rows that a change of the table does not touch stay in flight. *)
Lemma in_flight_frame t t' b :
  next_id t <= next_id t' ->
  (rows t' !! id b = rows t !! id b \/ rows t' !! id b = None) -> in_flight t b -> in_flight t' b.
Proof. intros Hn Hr (? & ? & ? & Hb). split; [done|]. split; [done|]. split; [lia|]. destruct Hr as [->| ->]; [done|by right]. Qed.

(** Steps other than a row's processing: the batch only shrinks or is fetched from the table. *)
Lemma enqueue_frame e sinks alerted at_ t :
  outbox_wf t ->
  let t' := (record_event_and_enqueue_classified e sinks alerted at_ t).2 in
  next_id t <= next_id t' /\
  (forall k, k < next_id t -> rows t' !! k = rows t !! k) /\
  (forall k r, rows t' !! k = Some r -> rows t !! k = Some r \/
     (next_id t <= k /\ exists s, r = fresh_row k (event_id e) s at_)).
Proof.
  intros Hwf. pose proof (enqueue_spec e sinks alerted at_ t Hwf) as Hs.
  destruct (record_event_and_enqueue_classified e sinks alerted at_ t) as [[[]|x] t']; simpl.
  - destruct Hs as (_ & _ & _ & Hnext & Hrows). assert (0 <= zlength sinks) by (unfold zlength; lia).
    split; [lia|]. split.
    + intros k Hk. rewrite Hrows. unfold enqueued. by rewrite (proj2 (Z.leb_gt _ _)) by lia.
    + intros k r Hk. rewrite Hrows in Hk. unfold enqueued in Hk. destruct (Z.leb_spec (next_id t) k); [|by left].
      destruct (sinks !! _) as [s|]; simpl in Hk; [|by left]. right. split; [done|]. exists s. congruence.
  - destruct Hs as [-> _]. split; [lia|]. split; [done|]. by left.
Qed.

Lemma left_differ (sink : string) (over : bool) (row b : OutboxRow) (l : list OutboxRow) :
  NoDup (id <$> l) -> row ∈ l -> row_sink row = sink ->
  b ∈ filter (fun r => (if over then negb (str_eqb (row_sink r) sink) else negb (id r =? id row)) = true) l ->
  b ∈ l /\ id b <> id row.
Proof.
  intros Hnd Hrow Hs [Hb Hin]%list_elem_of_filter. split; [done|]. destruct over; [|lia]. intros Heq.
  apply list_elem_of_lookup in Hrow as [i Hi], Hin as [j Hj].
  assert (i = j) as <-.
  { eapply (NoDup_lookup _ _ _ (id row) Hnd); rewrite list_lookup_fmap; [by rewrite Hi|by rewrite Hj, <- Heq]. }
  unfold str_eqb in Hb. rewrite bool_decide_true in Hb by congruence. done.
Qed.

Lemma filter_ids_nodup (f : OutboxRow -> bool) l : NoDup (id <$> l) -> NoDup (id <$> filter (fun r => f r = true) l).
Proof. intros Hl. eapply sublist_NoDup; [exact Hl|]. apply fmap_sublist, sublist_filter. Qed.

Lemma group_step_ok sink registry (policy : P) env over d :
  ledger_ok d -> ledger_ok (group_step debug cfg has_bus sink registry policy env over d).
Proof.
  intros [Hwf Hrows Hbatch Hnd]. unfold group_step. destruct (next_row sink d) as [row|] eqn:E; [|done].
  apply next_row_spec in E as [Hin Hs]. rewrite Forall_forall in Hbatch.
  destruct (process_in_flight registry policy env row (world d) (Hbatch _ Hin) Hwf)
    as (r' & fx & n & _ & Hsound & _ & _ & Hid & _ & _ & Hwf' & _ & Hnext & Hmap & _).
  split; unfold ob in *; simpl; [done| | |by apply filter_ids_nodup].
  - rewrite Hmap. case_match; [|done]. by apply map_Forall_insert_2.
  - apply Forall_forall. intros b Hb. destruct (left_differ _ _ _ _ _ Hnd Hin Hs Hb) as [Hbin Hne].
    apply (in_flight_frame (box (world d))); [by rewrite Hnext| |by apply Hbatch]. left. rewrite Hmap.
    destruct (rows (box (world d)) !! id row); [by rewrite lookup_insert_ne|done].
Qed.

Lemma tick_start_ok q at_ms d : ledger_ok d -> ledger_ok (tick_start cfg q at_ms d).
Proof.
  intros [Hwf Hrows Hbatch Hnd]. unfold tick_start. destruct (running d); [done|]. destruct q as [t|].
  - split; unfold ob in *; simpl; [done|done| |by apply outbox_pending_nodup].
    apply Forall_forall. intros r (Hp & _ & k & Hk)%outbox_pending_sound.
    destruct (wf_row _ Hwf _ _ Hk) as [Hid _]. pose proof (Hrows _ _ Hk) as Hr. simpl in Hr.
    pose proof (wf_next _ Hwf _ _ Hk) as Hlt. simpl in Hlt. split; [done|]. split; [done|].
    rewrite Hid. split; [done|by left].
  - split; unfold ob in *; simpl; [done|done|constructor|constructor].
Qed.

Lemma box_step_ok (f : OutboxTable -> OutboxTable) d :
  ledger_ok d -> outbox_wf (f (ob d)) -> map_Forall (fun _ r => row_sound r) (rows (f (ob d))) ->
  next_id (ob d) <= next_id (f (ob d)) ->
  (forall b, in_flight (ob d) b -> rows (f (ob d)) !! id b = rows (ob d) !! id b \/ rows (f (ob d)) !! id b = None) ->
  ledger_ok (on_box f d).
Proof.
  intros [Hwf Hrows Hbatch Hnd] Hwf' Hrows' Hn Hf. split; unfold ob in *; simpl; [done..| |done].
  eapply Forall_impl; [exact Hbatch|]. intros b Hb. eapply in_flight_frame; [done|by apply Hf|done].
Qed.

Lemma fresh_sound k ev s t : row_sound (fresh_row k ev s t).
Proof. done. Qed.

Lemma ledger_step s d : ledger_ok d -> ledger_ok (step s d).
Proof.
  intros Hok. destruct s as [q ms|sink registry policy env over|ms|e sinks alerted t|scan cutoff limit|ev]; simpl.
  - by apply tick_start_ok.
  - by apply group_step_ok.
  - unfold tick_end. destruct Hok as [Hwf Hrows Hbatch Hnd]. case_match; [|done].
    split; unfold ob in *; simpl; [done|done|constructor|constructor].
  - destruct (enqueue_frame e sinks alerted t _ (l_wf _ Hok)) as (Hn & Hold & Hnew).
    apply box_step_ok; [done|by apply enqueue_wf, Hok| |done|].
    + intros k r [Hk|[_ [s ->]]]%Hnew; [by apply (l_rows _ Hok k)|apply fresh_sound].
    + intros b (_ & _ & Hlt & _). left. apply Hold, Hlt.
  - apply box_step_ok; [done|by apply prune_wf, Hok| |done|].
    + intros k r Hk%prune_rows. by apply (l_rows _ Hok k).
    + intros b (Hp & _ & _ & [Hk|Hk]); [left; rewrite Hk; apply prune_keeps; [done|by rewrite Hp]|right].
      apply eq_None_not_Some. intros [r Hr%prune_rows]. congruence.
  - apply box_step_ok; [done|by apply delete_event_wf, Hok| |done|].
    + intros k r [Hk _]%map_lookup_filter_Some. by apply (l_rows _ Hok k).
    + intros b (_ & _ & _ & Hb). simpl. destruct (rows (ob d) !! id b) as [r|] eqn:Ek.
      * destruct (decide (row_event r = ev)) as [He|He]; [right|left].
        { apply map_lookup_filter_None. right. intros x Hx. rewrite Ek in Hx. injection Hx as <-. intros Hne. by apply Hne. }
        by apply map_lookup_filter_Some.
      * right. apply map_lookup_filter_None. by left.
Qed.

Lemma run_invariant (ok : Step -> Prop) (I : Dispatch -> Prop) steps d :
  (forall s d, ok s -> ledger_ok d -> I d -> I (step s d)) ->
  Forall ok steps -> ledger_ok d -> I d -> ledger_ok (runs steps d) /\ I (runs steps d).
Proof.
  intros Hstep Hok Hl HI. apply (mrun_invariant ok (fun d => ledger_ok d /\ I d)); [|done..].
  intros s d' Hs [Hl' HI']. simpl. split; [by apply ledger_step|by apply Hstep].
Qed.

(** What a step can do to a row: nothing, the row's own processing, or its removal; and a new
    row comes only under a new id. *)
Lemma step_row s d k r :
  ledger_ok d -> rows (ob (step s d)) !! k = Some r ->
  rows (ob d) !! k = Some r \/
  (next_id (ob d) <= k /\ exists ev snk t, r = fresh_row k ev snk t) \/
  exists sink registry policy env over row n,
    s = GroupStep sink registry policy env over /\ next_row sink d = Some row /\ id row = k /\
    rows (ob d) !! k = Some row /\ row_step row n r.
Proof.
  intros Hok. destruct s as [q ms|sink registry policy env over|ms|e sinks alerted t|scan cutoff limit|ev]; simpl.
  - unfold tick_start. case_match; [by left|]. case_match; by left.
  - unfold group_step. destruct (next_row sink d) as [row|] eqn:E; [|by left].
    pose proof (next_row_spec _ _ _ E) as [Hin _].
    pose proof (proj1 (Forall_forall _ _) (l_batch _ Hok) _ Hin) as Hfl.
    destruct (process_in_flight registry policy env row (world d) Hfl (l_wf _ Hok))
      as (r' & fx & n & Hs & _ & _ & _ & _ & _ & _ & _ & _ & _ & Hmap & _). unfold ob in *. simpl. rewrite Hmap.
    destruct Hfl as (_ & _ & _ & Hb). destruct Hb as [Hb|Hb]; rewrite Hb; [|by left].
    intros [[<- <-]|[_ Hk]]%lookup_insert_Some; [right; right|by left].
    exists sink, registry, policy, env, over, row, n. by split_and!.
  - unfold tick_end. case_match; by left.
  - intros Hk. destruct (enqueue_frame e sinks alerted t _ (l_wf _ Hok)) as (_ & _ & Hnew).
    destruct (Hnew k r Hk) as [?|[? [s ->]]]; [by left|right; left]. split; [done|by eexists _, _, _].
  - intros Hk%prune_rows. by left.
  - intros [Hk _]%map_lookup_filter_Some. by left.
Qed.

Lemma step_next s d : ledger_ok d -> next_id (ob d) <= next_id (ob (step s d)).
Proof.
  intros Hok. destruct s as [q ms|sink registry policy env over|ms|e sinks alerted t|scan cutoff limit|ev]; simpl.
  - unfold tick_start. case_match; [done|]. by case_match.
  - unfold group_step. destruct (next_row sink d) as [row|] eqn:E; [|done].
    pose proof (next_row_spec _ _ _ E) as [Hin _].
    pose proof (proj1 (Forall_forall _ _) (l_batch _ Hok) _ Hin) as Hfl.
    destruct (process_in_flight registry policy env row (world d) Hfl (l_wf _ Hok))
      as (r' & fx & n & _ & _ & _ & _ & _ & _ & _ & _ & _ & Hnext & _). unfold ob. simpl. by rewrite Hnext.
  - unfold tick_end. by case_match.
  - apply (enqueue_frame e sinks alerted t _ (l_wf _ Hok)).
  - done.
  - done.
Qed.

(** Rows keep being found under their id only as long as they are there: a gone row stays gone,
    a terminal one does not change. *)
Lemma step_terminal s d k r :
  ledger_ok d -> k < next_id (ob d) -> terminal (status r) = true ->
  (rows (ob d) !! k = Some r \/ rows (ob d) !! k = None) ->
  rows (ob (step s d)) !! k = Some r \/ rows (ob (step s d)) !! k = None.
Proof.
  intros Hok Hk Ht Hr. destruct (rows (ob (step s d)) !! k) as [r'|] eqn:E; [left|by right].
  apply step_row in E as [E|[[? _]|(sink & reg & pol & env & over & row & n & _ & Hn & Hid & E & _)]]; [|lia| |done].
  - destruct Hr; congruence.
  - destruct Hr as [Hr|Hr]; [|congruence]. apply next_row_spec in Hn as [Hin _].
    destruct (proj1 (Forall_forall _ _) (l_batch _ Hok) _ Hin) as (Hp & _). rewrite Hr in E. simplify_eq.
    by rewrite Hp in Ht.
Qed.

Abbreviation lg d := (log (world d)).

(** The counters and the row after one turn of a group. *)
Lemma group_counts sink registry (policy : P) env over d row :
  ledger_ok d -> next_row sink d = Some row ->
  let d' := group_step debug cfg has_bus sink registry policy env over d in
  exists r' n,
    row_step row n r' /\ 0 <= n <= 1 /\ (n = 1 -> attempts r' = attempts row + 1 \/ write_ok env = false) /\
    (forall k, k <> id row -> calls k (lg d') = calls k (lg d) /\ firsts k (lg d') = firsts k (lg d) /\
       rows (ob d') !! k = rows (ob d) !! k) /\
    calls (id row) (lg d') = calls (id row) (lg d) + n /\
    firsts (id row) (lg d) <= firsts (id row) (lg d') <=
      firsts (id row) (lg d) + (if (attempts row =? 0) && (n =? 1) then 1 else 0) /\
    rows (ob d') !! id row = match rows (ob d) !! id row with Some _ => Some r' | None => None end /\
    events (ob d') = events (ob d) /\ next_id (ob d') = next_id (ob d) /\
    (forall b, b ∈ batch d' -> b ∈ batch d /\ id b <> id row).
Proof.
  intros Hok Hn. pose proof (next_row_spec _ _ _ Hn) as [Hin Hs].
  pose proof (proj1 (Forall_forall _ _) (l_batch _ Hok) _ Hin) as Hfl. unfold group_step. rewrite Hn.
  destruct (process_in_flight registry policy env row (world d) Hfl (l_wf _ Hok))
    as (r' & fx & n & Hst & _ & [Hc Ho Hf] & Hone & _ & _ & Hn1 & _ & Hev & Hnext & Hmap & Hrest).
  assert (forall f, f (Reclaimed (default "" (snapshots_dir cfg))) = false -> (forall p, f (Reclaimed p) = false) ->
    count f (log (go registry policy env row (world d))) = count f (lg d) + count f fx) as Hlog.
  { intros f _ Hfr. destruct Hrest as [[_ ->]|(dir & _ & _ & _ & ->)]; rewrite !count_app; [done|].
    rewrite count_cons, Hfr, count_nil. lia. }
  assert (forall k, calls k (log (go registry policy env row (world d))) = calls k (lg d) + calls k fx) as Hcl
    by (intros; by apply Hlog).
  assert (forall k, firsts k (log (go registry policy env row (world d))) = firsts k (lg d) + firsts k fx) as Hfl'
    by (intros; by apply Hlog).
  exists r', n. unfold ob in *. simpl. do 3 (split; [done|]). split.
  { intros k Hk. destruct (Ho k Hk) as [H1 H2]. rewrite Hcl, Hfl', H1, H2, !Z.add_0_r. do 2 (split; [done|]).
    rewrite Hmap. destruct (rows (box (world d)) !! id row); [by rewrite lookup_insert_ne|done]. }
  rewrite Hcl, Hfl', Hc. split; [done|]. split; [lia|]. split.
  { rewrite Hmap. destruct (rows (box (world d)) !! id row) eqn:E; [by rewrite lookup_insert_eq|done]. }
  do 2 (split; [done|]). intros b Hb. by apply (left_differ _ _ _ _ _ (l_nodup _ Hok) Hin Hs Hb).
Qed.

Definition is_group (s : Step (P:=P)) : bool := match s with GroupStep _ _ _ _ _ => true | _ => false end.

(** The other steps make no effects, and the batch they leave is old or fresh from the table. *)
Lemma quiet_step s d :
  ledger_ok d -> is_group s = false ->
  lg (step s d) = lg d /\
  forall b, b ∈ batch (step s d) -> b ∈ batch d \/ (status b = Pending /\ rows (ob d) !! id b = Some b).
Proof.
  intros Hok. destruct s as [q ms|sink registry policy env over|ms|e sinks alerted t|scan cutoff limit|ev];
    intros Hg; simpl in *; [|done|unfold tick_end; case_match; simpl; split; [done|set_solver|done|by left]|by split; [|left]..].
  unfold tick_start. destruct (running d); [by split; [|left]|]. destruct q as [t|]; simpl; [|by split; [|set_solver]].
  split; [done|]. intros b (Hp & _ & k & Hk)%outbox_pending_sound. right.
  destruct (wf_row _ (l_wf _ Hok) _ _ Hk) as [Hid _]. subst k. by split.
Qed.

(** C3. What is settled stays settled: once a row is sent, dead or suppressed, no tick, retry,
    enqueue, sweep or eviction changes it (it can only be swept or go with its event), and its
    alert is never handed to the sink again. *)
Theorem terminal_rows_are_final steps d k r :
  ledger_ok d -> rows (ob d) !! k = Some r -> terminal (status r) = true ->
  (rows (ob (runs steps d)) !! k = Some r \/ rows (ob (runs steps d)) !! k = None) /\
  calls k (lg (runs steps d)) = calls k (lg d).
Proof.
  intros Hok Hk Ht.
  set (I := fun d' => k < next_id (ob d') /\ (rows (ob d') !! k = Some r \/ rows (ob d') !! k = None) /\
    Forall (fun b => id b <> k) (batch d') /\ calls k (lg d') = calls k (lg d)).
  destruct (run_invariant (fun _ => True) I steps d) as [_ (_ & ? & _ & ?)]; [|by apply Forall_true|done| |done].
  - intros s d' _ Hok' (Hlt & Hr & Hb & Hc).
    pose proof (step_next s d' Hok'). pose proof (step_terminal s d' k r Hok' Hlt Ht Hr) as Hr'.
    split; [lia|]. split; [done|]. rewrite Forall_forall in Hb.
    destruct (is_group s) eqn:Eg.
    + destruct s as [|sink reg pol env over| | | |]; try done. simpl in *.
      destruct (next_row sink d') as [row|] eqn:En; [|unfold group_step; rewrite En; split; [by apply Forall_forall|done]].
      destruct (group_counts sink reg pol env over d' row Hok' En) as (r' & n & _ & _ & _ & Hoth & _ & _ & _ & _ & _ & Hbs).
      pose proof (next_row_spec _ _ _ En) as [Hin _]. split.
      * apply Forall_forall. intros b Hbb. by apply Hb, Hbs.
      * rewrite <- Hc. apply Hoth. intros ->. by apply (Hb row).
    + destruct (quiet_step s d' Hok' Eg) as [-> Hbs]. split; [|done]. apply Forall_forall.
      intros b [Hbb|[Hp Hbb]]%Hbs; [by apply Hb|]. intros Heq. rewrite Heq in Hbb. destruct Hr as [Hr|Hr]; rewrite Hr in Hbb; [|done].
      simplify_eq. by rewrite Hp in Ht.
  - split; [apply (wf_next _ (l_wf _ Hok) _ _ Hk)|]. split; [by left|]. split; [|done].
    eapply Forall_impl; [apply (l_batch _ Hok)|]. intros b (Hp & _ & _ & Hb) Heq.
    rewrite Heq in Hb. destruct Hb as [Hb|Hb]; rewrite Hk in Hb; [|done]. simplify_eq. by rewrite Hp in Ht.
Qed.

(** The counters of a row against its attempts. *)
Definition counted (l : list Effect) (r : OutboxRow) : Prop :=
  calls (id r) l <= attempts r /\ firsts (id r) l <= 1 /\ (attempts r = 0 -> firsts (id r) l <= 0).

Record counts_ok (d : Dispatch) : Prop := {
  c_new : forall k, next_id (ob d) <= k -> calls k (lg d) = 0 /\ firsts k (lg d) = 0;
  c_all : forall k, calls k (lg d) <= MAX_ATTEMPTS /\ firsts k (lg d) <= 1;
  c_rows : map_Forall (fun _ r => counted (lg d) r) (rows (ob d));
  c_batch : Forall (counted (lg d)) (batch d);
}.

Lemma counted_same l l' r :
  calls (id r) l' = calls (id r) l -> firsts (id r) l' = firsts (id r) l -> counted l r -> counted l' r.
Proof. unfold counted. by intros -> ->. Qed.

Lemma counts_group sink registry (policy : P) env over d :
  write_ok env = true -> ledger_ok d -> counts_ok d ->
  counts_ok (group_step debug cfg has_bus sink registry policy env over d).
Proof.
  intros Hw Hok [Hnew Hall Hrows Hbatch].
  destruct (next_row sink d) as [row|] eqn:En; [|unfold group_step; by rewrite En].
  destruct (group_counts sink registry policy env over d row Hok En)
    as (r' & n & Hst & Hn & Hone & Hoth & Hcalls & Hfirsts & Hrow & _ & Hnext & Hb).
  pose proof (next_row_spec _ _ _ En) as [Hin _]. rewrite Forall_forall in Hbatch.
  pose proof (proj1 (Forall_forall _ _) (l_batch _ Hok) _ Hin) as (Hp & ([Ha0 _] & Hlt & _) & Hid & Hpres).
  specialize (Hlt Hp). destruct (Hbatch _ Hin) as (Hc1 & Hc2 & Hc3).
  set (d' := group_step debug cfg has_bus sink registry policy env over d) in *.
  assert (firsts (id row) (lg d') <= 1) as Hf1.
  { destruct (Z.eqb_spec (attempts row) 0) as [E|]; simpl in Hfirsts; [|lia]. specialize (Hc3 E).
    destruct (n =? 1); lia. }
  split.
  - intros k Hk. rewrite Hnext in Hk. destruct (Hoth k) as (-> & -> & _); [lia|]. by apply Hnew.
  - intros k. destruct (decide (k = id row)) as [->|Hk]; [lia|]. destruct (Hoth k Hk) as (-> & -> & _). apply Hall.
  - intros k r Hk. destruct (wf_row _ (l_wf _ (ledger_step (GroupStep sink registry policy env over) d Hok)) k r Hk)
      as (Hidr & _ & Ha).
    destruct (decide (k = id row)) as [->|Hne].
    + rewrite Hrow in Hk. destruct Hpres as [Hpres|Hpres]; rewrite Hpres in Hk; [|done]. simplify_eq.
      unfold counted. rewrite Hidr, Hcalls. split.
      * destruct (Z.eq_dec n 1) as [->|]; [destruct (Hone eq_refl); [lia|congruence]|].
        assert (attempts row <= attempts r) by (inversion Hst; simpl; lia). lia.
      * split; [done|]. intros Hz. destruct (Z.eqb_spec n 1) as [->|].
        { destruct (Hone eq_refl); [lia|congruence]. }
        assert (attempts row <= attempts r) by (inversion Hst; simpl; lia).
        rewrite andb_false_r in Hfirsts. specialize (Hc3 ltac:(lia)). lia.
    + destruct (Hoth k Hne) as (H1 & H2 & H3). rewrite H3 in Hk. pose proof (Hrows _ _ Hk) as Hc. simpl in Hc.
      apply (counted_same (lg d)); [by rewrite Hidr..|done].
  - apply Forall_forall. intros b [Hbin Hbne]%Hb. destruct (Hoth _ Hbne) as (H1 & H2 & _).
    by apply (counted_same (lg d)), Hbatch.
Qed.

Lemma counts_quiet s d : is_group s = false -> ledger_ok d -> counts_ok d -> counts_ok (step s d).
Proof.
  intros Hg Hok [Hnew Hall Hrows Hbatch]. destruct (quiet_step s d Hok Hg) as [Hlg Hb]. rewrite Forall_forall in Hbatch.
  split; rewrite Hlg; [|done| |].
  - intros k Hk. apply Hnew. pose proof (step_next s d Hok). lia.
  - intros k r Hk. destruct (step_row s d k r Hok Hk) as [Hk'|[[Hge (ev & snk & t & ->)]|Hgr]].
    + by apply (Hrows k).
    + unfold counted. simpl. destruct (Hnew k Hge) as [-> ->]. lia.
    + destruct Hgr as (? & ? & ? & ? & ? & ? & ? & -> & _). done.
  - apply Forall_forall. intros b [?|[_ Hk]]%Hb; [by apply Hbatch|]. by apply (Hrows (id b)).
Qed.

(** Every outbox write of the step lands. *)
Definition writes_ok (s : Step (P:=P)) : bool :=
  match s with GroupStep _ _ _ env _ => write_ok env | _ => true end.

(** C4. The retry budget: from an empty outbox, whatever alerts are recorded, fail, are retried,
    wait for clips, are swept or evicted, in any order, the alert of one row is handed to its sink
    at most [MAX_ATTEMPTS] times and its first failure is reported at most once, as long as the
    outbox writes land; no row is ever stored as [failed]. *)
Theorem delivery_attempts_bounded steps k :
  Forall (fun s => writes_ok s = true) steps ->
  calls k (lg (runs steps initial)) <= MAX_ATTEMPTS /\ firsts k (lg (runs steps initial)) <= 1 /\
  forall r, rows (ob (runs steps initial)) !! k = Some r ->
    calls k (lg (runs steps initial)) <= attempts r <= MAX_ATTEMPTS /\ status r <> Failed.
Proof.
  intros Hw. destruct (run_invariant (fun s => writes_ok s = true) counts_ok steps initial) as [Hok [_ Hall Hrows _]];
    [|done|apply initial_ok| |].
  - intros s d Hs Hok Hc. destruct (is_group s) eqn:Eg; [|by apply counts_quiet].
    destruct s; try done. by apply counts_group.
  - by split.
  - destruct (Hall k) as [H1 H2]. split; [done|]. split; [done|]. intros r Hk.
    pose proof (Hrows _ _ Hk) as [Hc _]. pose proof (l_rows _ Hok _ _ Hk) as ([_ Ha] & _ & Hf & _).
    destruct (wf_row _ (l_wf _ Hok) _ _ Hk) as [Hid _]. rewrite Hid in Hc. done.
Qed.

(** The row [k], processed once per element of [l], each time as it then stands in the table. *)
Fixpoint process_each (l : list (SinkRegistry * P * RowEnv)) (k : Z) (w : World) : World :=
  match l with
  | [] => w
  | (registry, policy, env) :: l' =>
      process_each l' k
        (match rows (box w) !! k with Some r => go registry policy env r w | None => w end)
  end.

Lemma process_row_terminal registry policy env r w : terminal (status r) = true -> go registry policy env r w = w.
Proof. intros Ht. unfold process_row. rewrite bool_decide_false; [done|]. intros Hp. by rewrite Hp in Ht. Qed.

Lemma process_each_terminal l k w r :
  rows (box w) !! k = Some r -> terminal (status r) = true -> process_each l k w = w.
Proof.
  revert w. induction l as [|[[reg pol] env] l IH]; intros w Hk Ht; simpl; [done|].
  rewrite Hk, process_row_terminal by done. by apply IH.
Qed.

(** A landed processing that does not wait settles the row or uses up an attempt. *)
Lemma process_progress registry policy env r w :
  in_flight (box w) r -> rows (box w) !! id r = Some r -> write_ok env = true -> ~ may_wait env r ->
  exists r', rows (box (go registry policy env r w)) !! id r = Some r' /\ row_sound r' /\ id r' = id r /\
    created_at r' = created_at r /\ next_id (box (go registry policy env r w)) = next_id (box w) /\
    (terminal (status r') = true \/ (status r' = Pending /\ attempts r' = attempts r + 1)).
Proof.
  intros (Hp & Hs & Hlt & _) Hk Hw Hnw.
  destruct (process_row_steps debug cfg has_bus registry policy env r w Hp (sound_attempts _ Hs))
    as (f & fx & n & [Hbox _] & Hsame & Hst & _ & _ & Hpr).
  pose proof (row_step_sound _ _ _ Hp Hs Hst) as Hsound. destruct (Hsame r) as (Hid & _ & _ & Hcr & _).
  rewrite Hw in Hbox. destruct (update_in_flight (box w) r f) as [[Hn _]|[_ Hu]]; [by split; auto|apply Hsound|congruence|].
  rewrite Hu in Hbox. simpl in Hbox. rewrite Hbox. exists (f r). simpl. rewrite lookup_insert_eq.
  do 5 (split; [done|]). destruct Hsound as (_ & _ & Hf & _).
  destruct (Hpr Hnw) as [?|Ha]; [by left|]. destruct (terminal (status (f r))) eqn:Et; [by left|right].
  split; [|done]. by destruct (status (f r)).
Qed.

Lemma may_wait_created env r r' : created_at r' = created_at r -> may_wait env r' -> may_wait env r.
Proof.
  unfold may_wait, within_alert_clip_grace, within_clip_grace, within_grace. by intros ->.
Qed.

Lemma process_each_settles l k : forall w r,
  in_flight (box w) r -> id r = k -> rows (box w) !! k = Some r ->
  MAX_ATTEMPTS - attempts r <= zlength l ->
  Forall (fun x => write_ok x.2 = true /\ ~ may_wait x.2 r) l ->
  exists r', rows (box (process_each l k w)) !! k = Some r' /\ terminal (status r') = true.
Proof.
  induction l as [|[[reg pol] env] l IH]; intros w r Hfl Hid Hk Hlen Hl.
  - destruct Hfl as (Hp & (_ & Hlt & _) & _). specialize (Hlt Hp). unfold zlength in Hlen. simpl in Hlen. lia.
  - apply Forall_cons in Hl as [[Hw Hnw] Hl]. simpl in *. rewrite Hk. subst k.
    destruct (process_progress reg pol env r w Hfl Hk Hw Hnw) as (r' & Hk' & Hs' & Hid' & Hc' & Hn' & [Ht|[Hp' Ha']]).
    + exists r'. rewrite (process_each_terminal _ _ _ r') by done. done.
    + apply (IH _ r'); [|done|done| |].
      * split; [done|]. split; [done|]. rewrite Hid', Hn'. split; [apply Hfl|by left].
      * unfold zlength in *. simpl in Hlen. lia.
      * eapply Forall_impl; [exact Hl|]. intros x [? Hnx]. split; [done|]. intros Hm. apply Hnx.
        by eapply may_wait_created.
Qed.

(** C38. Every alert settles: a pending row that is processed [MAX_ATTEMPTS] times with landed
    writes, under whatever policies, registries, remote answers and lookup failures, and outside
    the clip waits (its grace windows over, its clip no longer recording), ends up sent, dead or
    suppressed: no row is retried forever. *)
Theorem pending_alert_settles l d k r :
  ledger_ok d -> rows (ob d) !! k = Some r -> status r = Pending ->
  zlength l = MAX_ATTEMPTS ->
  Forall (fun x => write_ok x.2 = true /\ ~ may_wait x.2 r) l ->
  exists r', rows (box (process_each l k (world d))) !! k = Some r' /\ terminal (status r') = true.
Proof.
  intros Hok Hk Hp Hlen Hl. destruct (wf_row _ (l_wf _ Hok) _ _ Hk) as [Hid _].
  pose proof (l_rows _ Hok _ _ Hk) as Hs. pose proof (wf_next _ (l_wf _ Hok) _ _ Hk) as Hlt. simpl in *.
  apply (process_each_settles l k (world d) r); [|done|done| |done].
  - split; [done|]. split; [done|]. rewrite Hid. split; [done|by left].
  - destruct Hs as ([? _] & _). lia.
Qed.

(** An event id that is no absolute path: a UUID. *)
Definition relative (ev : string) : bool := negb (starts_with ev "/").

Definition relative_step (s : Step (P:=P)) : bool :=
  match s with Enqueue e _ _ _ => relative (event_id e) | _ => true end.

Lemma relative_jpg ev : relative ev = true -> starts_with (ev +:+ ".jpg") "/" = false.
Proof. unfold relative. destruct ev as [|c ev]; [done|]. unfold starts_with. simpl. by destruct (bool_decide _). Qed.

Lemma snapshot_path_inj dir a b :
  relative a = true -> relative b = true -> snapshot_path dir a = snapshot_path dir b -> a = b.
Proof.
  intros Ha%relative_jpg Hb%relative_jpg. unfold snapshot_path, path_join. rewrite Ha, Hb.
  assert (forall d x y, d +:+ x = d +:+ y -> x = y) as Hinj.
  { intros d x y Heq. apply chars_inj. apply (f_equal chars) in Heq. rewrite !chars_app in Heq. by apply app_inv_head in Heq. }
  assert (a +:+ ".jpg" = b +:+ ".jpg" -> a = b) as Hjpg.
  { intros Heq. apply chars_inj. apply (f_equal chars) in Heq. rewrite !chars_app in Heq. by apply app_inv_tail in Heq. }
  destruct (_ || _); intros Heq; apply Hjpg; [by apply Hinj in Heq|by apply Hinj, Hinj in Heq].
Qed.

(** What a run needs to know of one row [k] to keep its snapshot. *)
Record keeps (dir ev : string) (k : Z) (d : Dispatch) : Prop := {
  k_old : k < next_id (ob d);
  k_row : forall r, rows (ob d) !! k = Some r ->
    row_event r = ev /\ (status r = Pending -> snapshot_path dir ev ∈ snapshots (world d));
  k_rel : map_Forall (fun _ r => relative (row_event r) = true) (rows (ob d));
  k_batch : Forall (fun b => relative (row_event b) = true) (batch d);
}.

Lemma keeps_group dir ev k sink registry (policy : P) env over d :
  snapshots_dir cfg = Some dir -> relative ev = true -> ledger_ok d -> keeps dir ev k d ->
  keeps dir ev k (group_step debug cfg has_bus sink registry policy env over d).
Proof.
  intros Hdir Hrel Hok [Hk Hrow Hrels Hbatch]. unfold group_step. destruct (next_row sink d) as [row|] eqn:E; [|done].
  pose proof (next_row_spec _ _ _ E) as [Hin Hs].
  pose proof (proj1 (Forall_forall _ _) (l_batch _ Hok) _ Hin) as Hfl.
  destruct (process_in_flight registry policy env row (world d) Hfl (l_wf _ Hok))
    as (r' & fx & n & _ & _ & _ & _ & _ & Hev & _ & _ & _ & Hnext & Hmap & Hrest).
  rewrite Forall_forall in Hbatch. pose proof (Hbatch _ Hin) as Hrrow. destruct Hfl as (Hp & _ & _ & Hpres).
  split; unfold ob in *; simpl in *.
  - by rewrite Hnext.
  - intros r Hr. assert (row_event r = ev /\ (status r = Pending -> snapshot_path dir ev ∈ snapshots (world d))) as [He Hsn].
    { rewrite Hmap in Hr. destruct Hpres as [Hpres|Hpres]; rewrite Hpres in Hr; [|by apply Hrow].
      apply lookup_insert_Some in Hr as [[<- <-]|[_ Hr]]; [|by apply Hrow].
      destruct (Hrow _ Hpres) as [He Hsn]. split; [by rewrite Hev|]. intros _. by apply Hsn. }
    split; [done|]. intros Hpr. specialize (Hsn Hpr).
    destruct Hrest as [[-> _]|(dir' & Hd' & Hnw & -> & _)]; [done|]. simplify_eq.
    apply elem_of_difference. split; [done|]. rewrite elem_of_singleton. intros Heq.
    apply snapshot_path_inj in Heq; [|done..]. apply Hnw. by exists k, r.
  - rewrite Hmap. destruct (rows (box (world d)) !! id row); [|done]. apply map_Forall_insert_2; [by rewrite Hev|done].
  - apply Forall_forall. intros b Hb. by apply Hbatch, (left_differ _ _ _ _ _ (l_nodup _ Hok) Hin Hs Hb).
Qed.

Lemma step_snapshots s d : is_group s = false -> snapshots (world (step s d)) = snapshots (world d).
Proof.
  intros Hg. destruct s; simpl in *; [|done|unfold tick_end; by case_match|done..].
  unfold tick_start. case_match; [done|]. by case_match.
Qed.

Lemma keeps_quiet dir ev k s d :
  is_group s = false -> relative_step s = true -> ledger_ok d -> keeps dir ev k d -> keeps dir ev k (step s d).
Proof.
  intros Hg Hrs Hok [Hk Hrow Hrels Hbatch]. pose proof (step_next s d Hok).
  assert (forall k' r, rows (ob (step s d)) !! k' = Some r -> rows (ob d) !! k' = Some r \/
            (next_id (ob d) <= k' /\ relative (row_event r) = true)) as Hr.
  { intros k' r Hk'. destruct (step_row s d k' r Hok Hk') as [?|[[Hge _]|Hgr]]; [by left| |].
    - right. split; [done|]. destruct s as [q ms|sink registry policy env over|ms|e sinks alerted t|scan cutoff limit|e]; try done;
        simpl in Hk'; simpl in Hrs.
      + unfold tick_start in Hk'. repeat case_match; pose proof (wf_next _ (l_wf _ Hok) _ _ Hk'); simpl in *; lia.
      + unfold tick_end in Hk'. repeat case_match; pose proof (wf_next _ (l_wf _ Hok) _ _ Hk'); simpl in *; lia.
      + destruct (enqueue_frame e sinks alerted t _ (l_wf _ Hok)) as (_ & _ & Hnew).
        destruct (Hnew k' r Hk') as [Ho|[_ [s' ->]]]; [|done]. pose proof (wf_next _ (l_wf _ Hok) _ _ Ho). simpl in *. lia.
      + apply prune_rows in Hk'. pose proof (wf_next _ (l_wf _ Hok) _ _ Hk'). simpl in *. lia.
      + apply map_lookup_filter_Some in Hk' as [Hk' _]. pose proof (wf_next _ (l_wf _ Hok) _ _ Hk'). simpl in *. lia.
    - destruct Hgr as (? & ? & ? & ? & ? & ? & ? & -> & _). done. }
  split.
  - lia.
  - intros r Hkr. rewrite step_snapshots by done. destruct (Hr _ _ Hkr) as [Hold|[Hge _]]; [by apply Hrow|lia].
  - intros k' r Hkr. destruct (Hr _ _ Hkr) as [Hold|[_ Hre]]; [by apply (Hrels k')|done].
  - apply Forall_forall. intros b Hb. apply (quiet_step s d Hok Hg) in Hb as [Hb|[_ Hb]];
      [by apply (proj1 (Forall_forall _ _) Hbatch)|by apply (Hrels (id b))].
Qed.

(** The snapshot outlives its readers: the shared JPEG of an alert that is there while one of
    its rows is pending is still there whenever that row is still pending, however the rows of its
    other sinks fare and in whatever order; only the last of them reclaims it. *)
Lemma snapshot_outlives_pending steps d dir k r r' :
  snapshots_dir cfg = Some dir -> ledger_ok d ->
  map_Forall (fun _ r => relative (row_event r) = true) (rows (ob d)) ->
  Forall (fun b => relative (row_event b) = true) (batch d) ->
  Forall (fun s => relative_step s = true) steps ->
  rows (ob d) !! k = Some r -> snapshot_path dir (row_event r) ∈ snapshots (world d) ->
  rows (ob (runs steps d)) !! k = Some r' -> status r' = Pending ->
  snapshot_path dir (row_event r) ∈ snapshots (world (runs steps d)).
Proof.
  intros Hdir Hok Hrels Hbatch Hsteps Hk Hin Hk' Hp.
  destruct (run_invariant (fun s => relative_step s = true) (keeps dir (row_event r) k) steps d) as [_ [_ Hrow _ _]]; [|done|done| |].
  - intros s d' Hs Hok' Hkeep. destruct (is_group s) eqn:Eg; [|by apply keeps_quiet].
    destruct s; try done. apply keeps_group; [done| |done|done]. by apply (Hrels k).
  - split; [by apply (wf_next _ (l_wf _ Hok) _ _ Hk)| |done|done]. intros x Hx. rewrite Hk in Hx. by simplify_eq.
  - by apply (Hrow r').
Qed.

Lemma reachable_ok steps : ledger_ok (runs steps initial).
Proof.
  apply (run_invariant (fun _ => True) (fun _ => True) steps initial); [done|by apply Forall_true|apply initial_ok|done].
Qed.
End runs.

Lemma forallb_Forall {A} (f : A -> bool) l : forallb f l = true -> Forall (fun x => f x = true) l.
Proof.
  intros Hf. apply Forall_forall. intros x Hx%list_elem_of_In. by apply (proj1 (List.forallb_forall f l)).
Qed.

(** ** A concrete drain

    Two sinks take the alert ["e"]: the first one accepts it, the second one is down. *)
Definition demo_cfg : SinkDispatcherConfig := mkDispatcherConfig TICK_INTERVAL BATCH_SIZE None (Some "/snap") DELIVER_TIMEOUT.

Definition demo_registry : SinkRegistry :=
  (replace [mkSink "webhook:a" false; mkSink "email:b" true] empty_registry).1.

Definition demo_env (t : Z) (answer : option (result unit SinkError)) : RowEnv :=
  mkEnv t t t None (Ok None) (Ok None) (Ok None) (fun _ => false) (fun _ => answer) true true true.

Definition turn (sink : string) (t : Z) (answer : option (result unit SinkError)) : Step (P:=AllowAllPolicy) :=
  GroupStep sink demo_registry AllowAll (demo_env t answer) false.

Definition tick_steps (t : Z) : list (Step (P:=AllowAllPolicy)) :=
  [TickStart (Some t) t; turn "webhook:a" t (Some (Ok tt)); turn "email:b" t None; TickEnd t].

Definition demo_start : list (Step (P:=AllowAllPolicy)) :=
  Enqueue (demo_event "e" "r") ["webhook:a"; "email:b"] true (secs 100) :: tick_steps (secs 101).

Definition demo_run (steps : list (Step (P:=AllowAllPolicy))) : Dispatch := run (fun s => s) demo_cfg true steps initial.

(** The first tick delivers to the webhook, while the mail waits for the link of its clip. *)
Example demo_first_tick :
  (status <$> rows (ob (demo_run demo_start)) !! 1) = Some Sent /\
  (status <$> rows (ob (demo_run demo_start)) !! 2) = Some Pending /\
  (attempts <$> rows (ob (demo_run demo_start)) !! 2) = Some 0 /\
  ticks_completed (health (demo_run demo_start)) = 1.
Proof. vm_compute. done. Qed.

Lemma terminal_rows_are_final_witness :
  exists r, rows (ob (demo_run demo_start)) !! 1 = Some r /\ status r = Sent /\
    calls 1 (log (world (run (fun s => s) demo_cfg true (tick_steps (secs 200)) (demo_run demo_start)))) = 1.
Proof.
  assert (exists r, rows (ob (demo_run demo_start)) !! 1 = Some r /\ status r = Sent) as (r & Hr & Hs)
    by (eexists; split; vm_compute; reflexivity).
  exists r. split; [done|]. split; [done|].
  destruct (terminal_rows_are_final (fun s => s) demo_cfg true (tick_steps (secs 200)) (demo_run demo_start) 1 r) as [_ ->];
    [apply reachable_ok|exact Hr|by rewrite Hs|]. vm_compute. reflexivity.
Defined.

(** Ten ticks, five minutes apart, against the dead mail server. *)
Definition outage : list (Step (P:=AllowAllPolicy)) :=
  demo_start ++ mjoin (map (fun i => tick_steps (secs (300 * Z.of_nat i))) (seq 1 10)).

Lemma delivery_attempts_bounded_witness :
  Forall (fun s => writes_ok s = true) outage /\ calls 2 (log (world (demo_run outage))) = 8 /\
  (status <$> rows (ob (demo_run outage)) !! 2) = Some Dead /\ 8 <= MAX_ATTEMPTS.
Proof.
  assert (Forall (fun s => writes_ok s = true) outage) as Hw by (by apply forallb_Forall).
  assert (calls 2 (log (world (demo_run outage))) = 8) as Hc by (vm_compute; reflexivity).
  split; [done|]. split; [done|]. split; [vm_compute; reflexivity|].
  rewrite <- Hc. exact (proj1 (delivery_attempts_bounded (fun s => s) demo_cfg true outage 2 Hw)).
Defined.

(** Eight turns of the mail row of [demo_start], after its grace window. *)
Definition late_turns : list (SinkRegistry * AllowAllPolicy * RowEnv) :=
  repeat (demo_registry, AllowAll, demo_env (secs 300) None) 8.

Lemma pending_alert_settles_witness :
  exists r r', rows (ob (demo_run demo_start)) !! 2 = Some r /\ status r = Pending /\
    rows (box (process_each (fun s => s) demo_cfg true late_turns 2 (world (demo_run demo_start)))) !! 2 = Some r' /\
    terminal (status r') = true.
Proof.
  assert (exists r, rows (ob (demo_run demo_start)) !! 2 = Some r /\ status r = Pending /\ created_at r = secs 100)
    as (r & Hr & Hs & Hc) by (eexists; split_and!; vm_compute; reflexivity).
  destruct (pending_alert_settles (fun s => s) demo_cfg true late_turns (demo_run demo_start) 2 r) as (r' & Hr' & Ht);
    [apply reachable_ok|exact Hr|exact Hs|reflexivity| |exists r, r'; exact (conj Hr (conj Hs (conj Hr' Ht)))].
  apply Forall_repeat. split; [done|]. unfold may_wait, within_alert_clip_grace, within_clip_grace, within_grace. rewrite Hc.
  intros [Hw|[Hw|(k & c & Hk & _)]]; vm_compute in *; discriminate.
Defined.

(** The snapshot of ["e"] is on disk; the webhook's delivery must not take it from the mail row. *)
Definition with_snapshot (d : Dispatch) : Dispatch :=
  on_world (fun w => mkWorld (box w) {[snapshot_path "/snap" "e"]} (log w)) d.

Lemma snapshot_outlives_pending_witness :
  (status <$> rows (ob (run (fun s => s) demo_cfg true (tick_steps (secs 101)) (with_snapshot (demo_run (take 1 demo_start))))) !! 1) = Some Sent /\
  snapshot_path "/snap" "e" ∈
    snapshots (world (run (fun s => s) demo_cfg true (tick_steps (secs 101)) (with_snapshot (demo_run (take 1 demo_start))))).
Proof.
  split; [vm_compute; reflexivity|].
  set (d := with_snapshot (demo_run (take 1 demo_start))).
  assert (exists r, rows (ob d) !! 2 = Some r /\ row_event r = "e") as (r & Hr & He)
    by (eexists; split; vm_compute; reflexivity).
  assert (exists r', rows (ob (run (fun s => s) demo_cfg true (tick_steps (secs 101)) d)) !! 2 = Some r' /\ status r' = Pending)
    as (r' & Hr' & Hp) by (eexists; split; vm_compute; reflexivity).
  rewrite <- He at 1. apply (snapshot_outlives_pending (fun s => s) demo_cfg true (tick_steps (secs 101)) d "/snap" 2 r r');
    [reflexivity| | |apply forallb_Forall; vm_compute; reflexivity|apply forallb_Forall; vm_compute; reflexivity
    |exact Hr| |exact Hr'|exact Hp].
  - destruct (reachable_ok (fun s : string => s) demo_cfg true (take 1 demo_start)) as [H1 H2 H3 H4]. by split.
  - intros k x Hx. assert (k = 1 \/ k = 2) as Hk12; [|by destruct Hk12 as [-> | ->]; vm_compute in Hx; simplify_eq].
    apply elem_of_dom_2 in Hx. assert (dom (rows (ob d)) = {[1; 2]}) as Hdom by (vm_compute; reflexivity).
    rewrite Hdom, elem_of_union, !elem_of_singleton in Hx. exact Hx.
  - rewrite He. change (snapshot_path "/snap" "e" ∈ ({[snapshot_path "/snap" "e"]} : gset string)). by apply elem_of_singleton.
Defined.

Lemma delivered_iff_cleared_witness :
  exists r, rows (ob (demo_run (take 1 demo_start))) !! 1 = Some r /\ status r = Pending /\
    cleared demo_cfg demo_registry AllowAll (demo_env (secs 101) (Some (Ok tt))) r (ob (demo_run (take 1 demo_start)))
      "webhook:a" (demo_event "e" "r").
Proof.
  assert (exists r, rows (ob (demo_run (take 1 demo_start))) !! 1 = Some r /\ status r = Pending) as (r & Hr & Hs)
    by (eexists; split; vm_compute; reflexivity).
  exists r. split; [done|]. split; [done|].
  destruct (delivered_iff_cleared (fun s => s) demo_cfg true demo_registry AllowAll (demo_env (secs 101) (Some (Ok tt))) r
    (world (demo_run (take 1 demo_start))) 1 "webhook:a" (demo_event "e" "r") Hs) as [Hto _].
  apply Hto. assert (r = fresh_row 1 "e" "webhook:a" (secs 100)) as ->
    by (assert (rows (ob (demo_run (take 1 demo_start))) !! 1 = Some (fresh_row 1 "e" "webhook:a" (secs 100))) by
          (vm_compute; reflexivity); congruence).
  exists [Delivered 1 "webhook:a" (demo_event "e" "r")]. split; [vm_compute; reflexivity|by left].
Defined.

(** ** What the comments do not say

    A store error counts as an attempt: the row's first call of [deliver] is then its second
    attempt, and its failure is not reported as the first. *)
Definition store_error_env (t : Z) : RowEnv :=
  mkEnv t t t (Some "busy") (Ok None) (Ok None) (Ok None) (fun _ => false) (fun _ => None) true true true.

Example store_error_hides_first_failure :
  let steps := [Enqueue (demo_event "e" "r") ["webhook:a"] true (secs 100); TickStart (Some (secs 101)) 1;
                GroupStep "webhook:a" demo_registry AllowAll (store_error_env (secs 101)) false; TickEnd 2;
                TickStart (Some (secs 110)) 3; turn "webhook:a" (secs 110) None; TickEnd 4] in
  calls 1 (log (world (demo_run steps))) = 1 /\ firsts 1 (log (world (demo_run steps))) = 0.
Proof. vm_compute. done. Qed.

(** A clip that is never closed holds its alert without bound: an hour after the alert the row
    still waits, and has used up no attempt. *)
Definition recording_env (t : Z) : RowEnv :=
  mkEnv t t t None (Ok None) (Ok (Some 7)) (Ok (Some (mkClip None None))) (fun _ => false) (fun _ => None) true true true.

Example open_clip_holds_the_alert :
  let steps := [Enqueue (demo_event "e" "r") ["email:b"] true (secs 100); TickStart (Some (secs 3700)) 1;
                GroupStep "email:b" demo_registry AllowAll (recording_env (secs 3700)) false; TickEnd 2] in
  (fun r => (status r, attempts r, next_attempt_at r)) <$> rows (ob (demo_run steps)) !! 1 =
    Some (Pending, 0, Some (secs 3701)).
Proof. vm_compute. done. Qed.
