(* ===== verification/Zones.v ===== *)
(** Zones: their configuration ([nexus-config/src/cameras.rs]), the even-odd test that
    [nexus-rules/src/lib.rs] and [nexus-tracker/src/annotator.rs] each have a copy of, and the two
    filters of [nexus-tracker/src/zone_filter.rs] between the tracker and the annotator. *)
From S2P Require Import Prelude Float Types Alert.

Inductive ZoneKind := Inclusion | Exclusion | Dwell.

(** Polygon vertices are in normalised coordinates. *)
Record ZoneConfig := mkZone {
  zone_id : string;
  zone_name : string;
  polygon : list (f32 * f32);
  zone_kind : ZoneKind;
  min_bbox_area_px_override : option Z;
}.

(** ** The even-odd test *)

(** The literal [1e-9]. *)
Definition nano : f64 := flit 4835703278458517 (-82).

Definition edge_crossed (xd yd : f64) (p1 p2 : f32 * f32) : bool :=
  let p1x := f32_to_f64 p1.1 in
  let p1y := f32_to_f64 p1.2 in
  let p2x := f32_to_f64 p2.1 in
  let p2y := f32_to_f64 p2.2 in
  xorb (fgt p1y yd) (fgt p2y yd) &&
  flt xd (f64_add (f64_div (f64_mul (f64_sub p2x p1x) (f64_sub yd p1y)) (f64_add (f64_sub p2y p1y) nano)) p1x).

(** The edges [(i, (i + 1) % n)] in order. *)
Definition edges (poly : list (f32 * f32)) : list ((f32 * f32) * (f32 * f32)) :=
  match poly with
  | [] => []
  | p :: rest => zip poly (rest ++ [p])
  end.

Definition point_in_polygon (x y : f32) (poly : list (f32 * f32)) : bool :=
  if (length poly <? 3)%nat then false
  else
    let xd := f32_to_f64 x in
    let yd := f32_to_f64 y in
    foldl (fun inside e => if edge_crossed xd yd e.1 e.2 then negb inside else inside) false (edges poly).

(** The tracker's copy. *)
Definition point_in_normalized_polygon : f32 -> f32 -> list (f32 * f32) -> bool := point_in_polygon.

(** ** The filters *)

(** The centre of a box, normalised by the frame. *)
Definition normalised (w h : Z) (b : BBox) : f32 * f32 :=
  let frame_w := fmax (f32_of_Z w) (f32_of_Z 1) in
  let frame_h := fmax (f32_of_Z h) (f32_of_Z 1) in
  let '(cx, cy) := center b in (f32_div cx frame_w, f32_div cy frame_h).

Definition is_exclusion (z : ZoneConfig) : bool :=
  match zone_kind z with Exclusion => true | _ => false end.

Definition excluded (w h : Z) (zones : list ZoneConfig) (o : TrackedObject) : bool :=
  let '(nx, ny) := normalised w h (o_bbox o) in
  existsb (fun z => point_in_normalized_polygon nx ny (polygon z)) (List.filter is_exclusion zones).

(** The remaining objects and the number dropped. *)
Definition filter_excluded_zones (w h : Z) (zones : list ZoneConfig) (objects : list TrackedObject) :
    list TrackedObject * Z :=
  if negb (existsb is_exclusion zones) then (objects, 0)
  else
    let kept := List.filter (fun o => negb (excluded w h zones o)) objects in
    (kept, zlength objects - zlength kept).

Definition too_small (w h : Z) (zones : list ZoneConfig) (o : TrackedObject) : bool :=
  let b := o_bbox o in
  let area := f32_mul (fmax (f32_sub (x2 b) (x1 b)) fzero) (fmax (f32_sub (y2 b) (y1 b)) fzero) in
  let '(nx, ny) := normalised w h b in
  existsb (fun z =>
    match min_bbox_area_px_override z with
    | None => false
    | Some min_area => point_in_normalized_polygon nx ny (polygon z) && flt area (f32_of_Z min_area)
    end) zones.

Definition filter_zone_min_area (w h : Z) (zones : list ZoneConfig) (objects : list TrackedObject) :
    list TrackedObject * Z :=
  if negb (existsb (fun z => is_some (min_bbox_area_px_override z)) zones) then (objects, 0)
  else
    let kept := List.filter (fun o => negb (too_small w h zones o)) objects in
    (kept, zlength objects - zlength kept).

(** ** The fast paths are only that *)

Lemma none_excluded w h zones o : existsb is_exclusion zones = false -> excluded w h zones o = false.
Proof.
  unfold excluded. destruct (normalised w h (o_bbox o)) as [nx ny]. intros H.
  assert (List.filter is_exclusion zones = []) as ->; [|done].
  induction zones as [|z zones IH]; [done|]. simpl in *. apply orb_false_iff in H as [-> H]. by apply IH.
Qed.

Lemma none_too_small w h zones o :
  existsb (fun z => is_some (min_bbox_area_px_override z)) zones = false -> too_small w h zones o = false.
Proof.
  unfold too_small. destruct (normalised w h (o_bbox o)) as [nx ny]. intros H.
  induction zones as [|z zones IH]; [done|]. simpl in *. apply orb_false_iff in H as [Hz H].
  rewrite IH by done. by destruct (min_bbox_area_px_override z).
Qed.

Lemma elem_of_filter_excluded w h zones objects o :
  o ∈ (filter_excluded_zones w h zones objects).1 <-> o ∈ objects /\ excluded w h zones o = false.
Proof.
  unfold filter_excluded_zones. destruct (existsb is_exclusion zones) eqn:E; simpl.
  - by rewrite !list_elem_of_In, filter_In, negb_true_iff.
  - rewrite (none_excluded w h zones o E). tauto.
Qed.

Lemma elem_of_filter_min_area w h zones objects o :
  o ∈ (filter_zone_min_area w h zones objects).1 <-> o ∈ objects /\ too_small w h zones o = false.
Proof.
  unfold filter_zone_min_area. destruct (existsb _ zones) eqn:E; simpl.
  - by rewrite !list_elem_of_In, filter_In, negb_true_iff.
  - rewrite (none_too_small w h zones o E). tauto.
Qed.
