(* ===== verification/Rules.v ===== *)
(** Rule evaluation, [nexus-rules/src/lib.rs], with the rule configuration of
    [nexus-config/src/rules.rs].

    The CEL compiler and interpreter are parameters; everything around them is here: what an
    object looks like to CEL, the gates, the debounce, the static-object episodes, the cooldown,
    and the alert. Instants are nanoseconds of the monotonic clock. *)
From S2P Require Import Prelude Text Float Types Alert Zones.

(** ** Configuration *)

Record RulePredicate := mkPredicate { when_ : string; severity_name : string }.
Record RuleGates := mkGates { camera_filter : option (list Z); zones : option (list string) }.
Record RuleDebounce := mkDebounce { min_track_age_ms : Z; consecutive_frames : Z; cooldown_ms : Z }.

Definition debounce_default : RuleDebounce := mkDebounce 500 2 30000.

Record RuleConfig := mkRule {
  id : string;
  name : string;
  predicate : RulePredicate;
  gates : RuleGates;
  debounce : RuleDebounce;
  enabled : bool;
  sinks : list string;
  verify : bool;
}.

(** ** What CEL sees *)

Inductive CelValue :=
| CNull
| CBool (b : bool)
| CInt (z : Z)
| CUInt (z : Z)
| CFloat (f : f64)
| CString (s : string)
| CList (items : list CelValue)
| CMap (fields : list (string * CelValue))
| COther.

Fixpoint json_to_cel (v : JsonValue) : CelValue :=
  match v with
  | JNull => CNull
  | JBool b => CBool b
  | JInt z => if is_some (as_i64 z) then CInt z else CUInt z
  | JFloat f => CFloat f
  | JString s => CString s
  | JArray items => CList (map json_to_cel items)
  | JObject fields => CMap (map (fun kv => (kv.1, json_to_cel kv.2)) fields)
  end.

Definition f32_to_cel (f : f32) : CelValue := if is_finite f then CFloat (f32_to_f64 f) else CNull.

Definition u64_to_cel (u : Z) : CelValue := if u <? 2 ^ 63 then CInt u else CUInt u.

Definition BOX_KEYS : list string := ["x1"; "y1"; "x2"; "y2"; "width"; "height"].
Definition OBJECT_KEYS : list string :=
  ["label"; "confidence"; "track_id"; "age_ms"; "age_frames"; "box"; "attributes"].

Definition cel_map (keys : list string) (values : list CelValue) : CelValue := CMap (zip keys values).

Definition object_to_cel (o : TrackedObject) : CelValue :=
  let b := o_bbox o in
  let box := cel_map BOX_KEYS
    [f32_to_cel (x1 b); f32_to_cel (y1 b); f32_to_cel (x2 b); f32_to_cel (y2 b);
     f32_to_cel (width b); f32_to_cel (height b)] in
  let attrs := CMap ((fun kv => (kv.1, json_to_cel kv.2)) <$> map_to_list (attributes o)) in
  cel_map OBJECT_KEYS
    [CString (o_label o); f32_to_cel (confidence o); u64_to_cel (o_track_id o); u64_to_cel (age_ms o);
     CInt (age_frames o); box; attrs].

Definition camera_to_cel (cam : Z) : CelValue := json_to_cel (JObject [("id", JInt cam)]).

(** [now_ns] is the wall clock; the epoch was a Thursday. *)
Definition now_to_cel (now_ns : Z) : CelValue :=
  json_to_cel (JObject
    [("unix_ms", JInt (now_ns / ns_per_ms));
     ("hour", JInt (now_ns / secs 3600 mod 24));
     ("day_of_week", JInt ((now_ns / secs 86400 + 3) mod 7 + 1))]).

(** The per-thread table of built attribute keys, bounded at 256 names. *)
Definition ATTRIBUTE_KEYS_MAX : nat := 256.

Definition attribute_key (key_of : string -> string) (keys : gmap string string) (n : string) :
    string * gmap string string :=
  match keys !! n with
  | Some k => (k, keys)
  | None =>
      let k := key_of n in
      (k, if (size keys <? ATTRIBUTE_KEYS_MAX)%nat then <[n := k]> keys else keys)
  end.

(** ** Zones *)

(** [None] is no zone gate; [Some []] is a gate that nothing passes. *)
Definition resolve_zones (camera_zones : list ZoneConfig) (ids : option (list string)) : option (list ZoneConfig) :=
  match ids with
  | None | Some [] => None
  | Some l => Some (omap (fun z => List.find (fun c => str_eqb (zone_id c) z) camera_zones) l)
  end.

Definition inside_any (fw fh : f32) (zs : list ZoneConfig) (o : TrackedObject) : bool :=
  let '(cx, cy) := center (o_bbox o) in
  let f_one := f32_of_Z 1 in
  let nx := fclamp fzero f_one (f32_div cx fw) in
  let ny := fclamp fzero f_one (f32_div cy fh) in
  existsb (fun z => point_in_polygon nx ny (polygon z)) zs.

(** ** The state *)

Record StaticAlertState := mkStatic { epoch : Z; s_hits : Z; emitted : bool }.

Definition static_default : StaticAlertState := mkStatic 0 0 false.

Record TrackState := mkTrack {
  consecutive_hits : Z;
  last_emitted : option Z;
  static_alerts : gmap Z StaticAlertState;
}.

Definition track_default : TrackState := mkTrack 0 None ∅.

Definition with_hits (n : Z) (t : TrackState) : TrackState := mkTrack n (last_emitted t) (static_alerts t).
Definition with_static (k : Z) (s : StaticAlertState) (t : TrackState) : TrackState :=
  mkTrack (consecutive_hits t) (last_emitted t) (<[k := s]> (static_alerts t)).
Definition with_emitted (at_ : Z) (t : TrackState) : TrackState :=
  mkTrack (consecutive_hits t) (Some at_) (static_alerts t).

Definition STATIC_ALERT_EPOCH_ATTRIBUTE_KEY : string := "tracker.static_alert_epoch".
Definition STATIC_ATTRIBUTE_KEY : string := "tracker.is_static".

Definition parse_severity (s : string) : Severity :=
  default Medium (match_str [("critical", Critical); ("high", High); ("low", Low)] (to_lowercase s)).

(** ** Evaluation *)

Inductive RulesError := Compile (rule msg : string) | Evaluate (rule msg : string).

(** The arguments of one call of [evaluate], with the two things it reads besides: the wall
    clock for CEL's [now] and the fresh event ids. *)
Record EvalFrame := mkFrameArgs {
  f_camera : Z;
  f_frame_id : Z;
  f_captured_at : Z;
  f_captured_mono : Z;
  f_trace_id : string;
  f_width : Z;
  f_height : Z;
  f_zones : list ZoneConfig;
  f_objects : list TrackedObject;
  f_now : Z;
  f_uuid : nat -> string;
}.

Definition is_static_hidden (o : TrackedObject) : bool :=
  match attributes o !! STATIC_ATTRIBUTE_KEY ≫= as_bool with Some true => true | _ => false end.

Definition static_alert_epoch (o : TrackedObject) : option Z :=
  attributes o !! STATIC_ALERT_EPOCH_ATTRIBUTE_KEY ≫= as_u64.

(** The gates before the predicate: evidence on this frame, age, zone. *)
Definition passes_gates (cfg : RuleConfig) (rule_zones : option (list ZoneConfig)) (f : EvalFrame)
    (o : TrackedObject) : option BBox :=
  if is_static_hidden o then None
  else
    match detection_bbox o with
    | None => None
    | Some b =>
        if age_ms o <? min_track_age_ms (debounce cfg) then None
        else
          match rule_zones with
          | None => Some b
          | Some zs =>
              let fw := f32_of_Z (Z.max (f_width f) 1) in
              let fh := f32_of_Z (Z.max (f_height f) 1) in
              if inside_any fw fh zs o then Some b else None
          end
    end.

(** The debounce of one evaluated object: the new entry, and whether to go on. *)
Definition debounce_step (cfg : RuleConfig) (o : TrackedObject) (matched : bool) (entry : TrackState) : TrackState * bool :=
  match static_alert_epoch o with
  | Some ep =>
      let cur := default static_default (static_alerts entry !! o_track_id o) in
      let st := if epoch cur =? ep then cur else mkStatic ep 0 false in
      if emitted st then (with_static (o_track_id o) st entry, false)
      else if negb matched then (with_static (o_track_id o) (mkStatic (epoch st) 0 (emitted st)) entry, false)
      else
        let st := mkStatic (epoch st) (usat_add 32 (s_hits st) 1) (emitted st) in
        (with_static (o_track_id o) st entry, negb (s_hits st <? consecutive_frames (debounce cfg)))
  | None =>
      if negb matched then (with_hits 0 entry, false)
      else
        let n := usat_add 32 (consecutive_hits entry) 1 in
        (with_hits n entry, negb (n <? consecutive_frames (debounce cfg)))
  end.

(** The cooldown, measured on the capture stamps. *)
Definition cooling_down (cfg : RuleConfig) (mono : Z) (entry : TrackState) : bool :=
  match last_emitted entry with
  | Some last => sat_sub mono last <? millis (cooldown_ms (debounce cfg))
  | None => false
  end.

Definition mark_emitted (mono : Z) (o : TrackedObject) (entry : TrackState) : TrackState :=
  let entry := with_emitted mono entry in
  match static_alert_epoch o with
  | Some _ =>
      let st := default static_default (static_alerts entry !! o_track_id o) in
      with_static (o_track_id o) (mkStatic (epoch st) (s_hits st) true) entry
  | None => entry
  end.

Definition alert_of (cfg : RuleConfig) (f : EvalFrame) (o : TrackedObject) (b : BBox) (uuid : string) : AlertEvent :=
  let context : gmap string JsonValue := <["rule_name" := JString (name cfg)]>
    (<["confidence" := from_f64 (f32_to_f64 (confidence o))]> ∅) in
  let context := if verify cfg then <["verify" := JBool true]> context else context in
  mkEvent uuid (f_camera f) (id cfg) (Some (o_track_id o)) (o_label o)
    (parse_severity (severity_name (predicate cfg))) (Some b) (f_frame_id f) (f_captured_at f) (f_trace_id f)
    (f_width f) (f_height f) (mkArtifacts None None None) context.

(** [static_alerts.retain]: episodes of tracks that are gone end. *)
Definition retain_present (objects : list TrackedObject) (entry : TrackState) : TrackState :=
  mkTrack (consecutive_hits entry) (last_emitted entry)
    (filter (fun '(k, _) => k ∈ map o_track_id objects) (static_alerts entry)).

(** The key of an entry: the third component is the fixed [0u64]. *)
Definition StateKey : Type := string * Z * Z.
Definition state_key (rule : string) (cam : Z) : StateKey := (rule, cam, 0).

Section evaluator.
Context {Prog : Type} (compile_cel : string -> result Prog string).
(** [program.execute] with the bindings [camera], [now] and [object]. *)
Context (execute : Prog -> CelValue -> CelValue -> CelValue -> result CelValue string).
(** Rust's [{:?}] of a CEL value. *)
Context (debug : CelValue -> string).

Record CompiledRule := mkCompiled { config : RuleConfig; program : Prog }.

Definition compile (r : RuleConfig) : result CompiledRule RulesError :=
  match compile_cel (when_ (predicate r)) with
  | Ok p => Ok (mkCompiled r p)
  | Err e => Err (Compile (id r) e)
  end.

Fixpoint compile_all (rules : list RuleConfig) : result (list CompiledRule) RulesError :=
  match rules with
  | [] => Ok []
  | r :: rest => let? c := compile r in let? cs := compile_all rest in Ok (c :: cs)
  end.

Definition run_program (rule : CompiledRule) (cam now object : CelValue) : result bool RulesError :=
  match execute (program rule) cam now object with
  | Ok (CBool b) => Ok b
  | Ok other => Err (Evaluate (id (config rule)) ("rule did not return Bool, got " +:+ debug other))
  | Err e => Err (Evaluate (id (config rule)) e)
  end.

Record RuleEvaluator := mkEvaluator {
  rules : list CompiledRule;
  track_state : gmap StateKey TrackState;
}.

Definition new (cfgs : list RuleConfig) : result RuleEvaluator RulesError :=
  let? cs := compile_all cfgs in Ok (mkEvaluator cs ∅).

Definition reload (cfgs : list RuleConfig) (e : RuleEvaluator) : result unit RulesError * RuleEvaluator :=
  match compile_all cfgs with
  | Ok cs => (Ok tt, mkEvaluator cs (track_state e))
  | Err x => (Err x, e)
  end.

Definition sinks_for (rule : string) (e : RuleEvaluator) : option (list string) :=
  (fun r => sinks (config r)) <$> List.find (fun r => str_eqb (id (config r)) rule) (rules e).

(** One object under one rule; [n] alerts have been raised before. *)
Definition eval_object (rule : CompiledRule) (rule_zones : option (list ZoneConfig)) (f : EvalFrame)
    (o : TrackedObject) (n : nat) (entry : TrackState) : TrackState * option AlertEvent :=
  let cfg := config rule in
  match passes_gates cfg rule_zones f o with
  | None => (entry, None)
  | Some b =>
      match run_program rule (camera_to_cel (f_camera f)) (now_to_cel (f_now f)) (object_to_cel o) with
      | Err _ => (entry, None)
      | Ok matched =>
          let '(entry, go) := debounce_step cfg o matched entry in
          if negb go then (entry, None)
          else if cooling_down cfg (f_captured_mono f) entry then (entry, None)
          else (mark_emitted (f_captured_mono f) o entry, Some (alert_of cfg f o b (f_uuid f n)))
      end
  end.

Fixpoint eval_objects (rule : CompiledRule) (rule_zones : option (list ZoneConfig)) (f : EvalFrame)
    (objects : list TrackedObject) (n : nat) (entry : TrackState) : TrackState * list AlertEvent :=
  match objects with
  | [] => (entry, [])
  | o :: rest =>
      let '(entry, a) := eval_object rule rule_zones f o n entry in
      let '(entry, l) := eval_objects rule rule_zones f rest (n + length (option_list a)) entry in
      (entry, option_list a ++ l)
  end.

(** The gates of a rule that do not look at an object. *)
Definition rule_applies (cfg : RuleConfig) (cam : Z) : bool :=
  enabled cfg &&
  match camera_filter (gates cfg) with
  | Some l => bool_decide (cam ∈ l)
  | None => true
  end.

Definition eval_rule (rule : CompiledRule) (f : EvalFrame) (n : nat) (st : gmap StateKey TrackState) :
    gmap StateKey TrackState * list AlertEvent :=
  let cfg := config rule in
  if rule_applies cfg (f_camera f) then
    let rule_zones := resolve_zones (f_zones f) (zones (gates cfg)) in
    let key := state_key (id cfg) (f_camera f) in
    let entry := retain_present (f_objects f) (default track_default (st !! key)) in
    let '(entry, l) := eval_objects rule rule_zones f (f_objects f) n entry in
    (<[key := entry]> st, l)
  else (st, []).

Fixpoint eval_rules (rs : list CompiledRule) (f : EvalFrame) (n : nat) (st : gmap StateKey TrackState) :
    gmap StateKey TrackState * list AlertEvent :=
  match rs with
  | [] => (st, [])
  | r :: rest =>
      let '(st, l) := eval_rule r f n st in
      let '(st, l') := eval_rules rest f (n + length l) st in
      (st, l ++ l')
  end.

Definition evaluate (f : EvalFrame) (e : RuleEvaluator) : RuleEvaluator * list AlertEvent :=
  let '(st, l) := eval_rules (rules e) f 0 (track_state e) in (mkEvaluator (rules e) st, l).

(** The calls of the pipeline. *)
Inductive RuleOp := EvaluateFrame (f : EvalFrame) | ReloadRules (cfgs : list RuleConfig).

#[export] Instance rule_machine : Machine RuleOp RuleEvaluator (list (Z * AlertEvent)) := fun op e =>
  match op with
  | EvaluateFrame f => let '(e', l) := evaluate f e in (e', (fun a => (f_captured_mono f, a)) <$> l)
  | ReloadRules cfgs => ((reload cfgs e).2, [])
  end.
End evaluator.
Arguments CompiledRule : clear implicits.
Arguments RuleEvaluator : clear implicits.

(** ** Properties *)

(** The capture times of the alerts of one rule on one camera. *)
Definition alert_times (r : string) (cam : Z) (l : list (Z * AlertEvent)) : list Z :=
  (filter (fun x => rule_id x.2 = r /\ camera_id x.2 = cam) l).*1.

Lemma alert_times_app r cam a b : alert_times r cam (a ++ b) = alert_times r cam a ++ alert_times r cam b.
Proof. unfold alert_times. by rewrite filter_app, fmap_app. Qed.

Lemma alert_times_cons r cam x l :
  alert_times r cam (x :: l) =
    if decide (rule_id x.2 = r /\ camera_id x.2 = cam) then x.1 :: alert_times r cam l else alert_times r cam l.
Proof. unfold alert_times. rewrite filter_cons. by case_decide. Qed.

Section facts.
Context {Prog : Type} (compile_cel : string -> result Prog string).
Context (execute : Prog -> CelValue -> CelValue -> CelValue -> result CelValue string) (debug : CelValue -> string).

Abbreviation eval_obj := (eval_object execute debug).
Abbreviation eval_objs := (eval_objects execute debug).

Lemma debounce_keeps_last cfg o m entry : last_emitted (debounce_step cfg o m entry).1 = last_emitted entry.
Proof. unfold debounce_step. destruct (static_alert_epoch o); simpl; repeat case_match; done. Qed.

Lemma mark_emitted_last mono o entry : last_emitted (mark_emitted mono o entry) = Some mono.
Proof. unfold mark_emitted. by case_match. Qed.

(** What one object does: nothing to the cooldown, or an alert after it. *)
Lemma eval_object_cases (rule : CompiledRule Prog) rz f o n entry :
  let '(entry', a) := eval_obj rule rz f o n entry in
  match a with
  | None => last_emitted entry' = last_emitted entry
  | Some al =>
      last_emitted entry' = Some (f_captured_mono f) /\
      (forall p, last_emitted entry = Some p ->
         millis (cooldown_ms (debounce (config rule))) <= sat_sub (f_captured_mono f) p) /\
      exists b uuid, passes_gates (config rule) rz f o = Some b /\
        run_program execute debug rule (camera_to_cel (f_camera f)) (now_to_cel (f_now f)) (object_to_cel o) = Ok true /\
        al = alert_of (config rule) f o b uuid
  end.
Proof.
  unfold eval_object. destruct (passes_gates _ _ _ _) as [b|] eqn:Eg; [|done].
  destruct (run_program _ _ _ _ _ _) as [m|] eqn:Er; [|done].
  pose proof (debounce_keeps_last (config rule) o m entry) as Hl.
  destruct (debounce_step (config rule) o m entry) as [entry1 go] eqn:Ed. simpl in Hl.
  destruct go; simpl; [|done]. destruct (cooling_down _ _ _) eqn:Ec; [done|].
  split; [apply mark_emitted_last|]. split.
  - intros p Hp. unfold cooling_down in Ec. rewrite Hl, Hp in Ec. lia.
  - exists b, (f_uuid f n). split; [done|]. split; [|done].
    assert (m = true) as ->; [|done]. unfold debounce_step in Ed. repeat case_match; simplify_eq/=; try done; by destruct m.
Qed.

Lemma eval_objects_spaced (rule : CompiledRule Prog) rz f gap objects : forall n entry,
  0 < gap <= millis (cooldown_ms (debounce (config rule))) ->
  let '(entry', l) := eval_objs rule rz f objects n entry in
  let ts := map (fun _ => f_captured_mono f) l in
  spaced gap (last_emitted entry) ts /\ last_emitted entry' = last_or (last_emitted entry) ts /\
  Forall (fun a => rule_id a = id (config rule) /\ camera_id a = f_camera f) l.
Proof.
  induction objects as [|o objects IH]; intros n entry Hgap; cbn [eval_objects]; [by split|].
  pose proof (eval_object_cases rule rz f o n entry) as Ho.
  destruct (eval_obj rule rz f o n entry) as [entry1 a].
  specialize (IH (n + length (option_list a))%nat entry1 Hgap).
  destruct (eval_objs rule rz f objects _ entry1) as [entry2 l].
  destruct a as [al|]; simpl in *; [|by rewrite <- Ho].
  destruct Ho as (Hl & Hcool & b & u & _ & _ & ->). destruct IH as (Hs & Hlast & Hall). rewrite Hl in Hs, Hlast.
  split; [split; [|done]|split; [|by constructor]].
  - destruct (last_emitted entry) as [p|]; [|done]. specialize (Hcool p eq_refl). unfold sat_sub in Hcool. lia.
  - rewrite Hlast. unfold last_or. rewrite last_cons. by destruct (last _).
Qed.

Definition last_alert (r : string) (cam : Z) (st : gmap StateKey TrackState) : option Z :=
  st !! state_key r cam ≫= last_emitted.

(** Every rule of that id has at least that cooldown. *)
Definition cools (r : string) (gap : Z) (cfg : RuleConfig) : Prop :=
  id cfg = r -> gap <= millis (cooldown_ms (debounce cfg)).

Definition stamp (f : EvalFrame) (l : list AlertEvent) : list (Z * AlertEvent) := (fun a => (f_captured_mono f, a)) <$> l.

Lemma alert_times_all f r cam l :
  Forall (fun a => rule_id a = r /\ camera_id a = cam) l ->
  alert_times r cam (stamp f l) = map (fun _ => f_captured_mono f) l.
Proof.
  induction 1 as [|a l Ha Hl IH]; [done|]. unfold stamp in *. rewrite fmap_cons, alert_times_cons, decide_True by done.
  by rewrite IH.
Qed.

Lemma alert_times_none f r cam l r' cam' :
  Forall (fun a => rule_id a = r' /\ camera_id a = cam') l -> (r', cam') <> (r, cam) ->
  alert_times r cam (stamp f l) = [].
Proof.
  intros Hl Hne. induction Hl as [|a l [Hr Hc] Hl IH]; [done|]. unfold stamp in *.
  rewrite fmap_cons, alert_times_cons, decide_False; [done|]. simpl. intros [? ?]. apply Hne. congruence.
Qed.

Lemma eval_rule_spaced (rule : CompiledRule Prog) f n st r cam gap :
  0 < gap -> cools r gap (config rule) ->
  let '(st', l) := eval_rule execute debug rule f n st in
  spaced gap (last_alert r cam st) (alert_times r cam (stamp f l)) /\
  last_alert r cam st' = last_or (last_alert r cam st) (alert_times r cam (stamp f l)).
Proof.
  intros Hg Hc. unfold eval_rule. destruct (rule_applies _ _); [|done].
  set (entry := retain_present _ _). set (rz := resolve_zones _ _). set (key := state_key _ _).
  destruct (decide ((id (config rule), f_camera f) = (r, cam))) as [[= Hr Hcam]|Hne].
  - pose proof (eval_objects_spaced rule rz f gap (f_objects f) n entry (conj Hg (Hc Hr))) as H.
    destruct (eval_objs rule rz f (f_objects f) n entry) as [entry' l]. destruct H as (Hs & Hl & Hall).
    rewrite Hr, Hcam in Hall. rewrite (alert_times_all f r cam l Hall).
    assert (last_alert r cam st = last_emitted entry) as ->.
    { unfold last_alert, entry, key. rewrite Hr, Hcam. by destruct (st !! state_key r cam). }
    split; [done|]. unfold last_alert, key. by rewrite Hr, Hcam, lookup_insert_eq.
  - assert (forall objects n entry, Forall (fun a => rule_id a = id (config rule) /\ camera_id a = f_camera f)
              (eval_objs rule rz f objects n entry).2) as Hall.
    { induction objects as [|o objects IH]; intros n0 e0; cbn [eval_objects]; [constructor|].
      pose proof (eval_object_cases rule rz f o n0 e0) as Ho. destruct (eval_obj rule rz f o n0 e0) as [e1 a].
      specialize (IH (n0 + length (option_list a))%nat e1). destruct (eval_objs rule rz f objects _ e1) as [e2 l].
      destruct a as [al|]; simpl in *; [|done]. destruct Ho as (_ & _ & b & u & _ & _ & ->). by constructor. }
    specialize (Hall (f_objects f) n entry). destruct (eval_objs rule rz f (f_objects f) n entry) as [entry' l].
    rewrite (alert_times_none f r cam l _ _ Hall Hne). split; [done|]. unfold last_alert.
    rewrite lookup_insert_ne; [done|]. unfold key, state_key. congruence.
Qed.

Lemma eval_rules_spaced (rs : list (CompiledRule Prog)) f r cam gap : forall n st,
  0 < gap -> Forall (fun c => cools r gap (config c)) rs ->
  let '(st', l) := eval_rules execute debug rs f n st in
  spaced gap (last_alert r cam st) (alert_times r cam (stamp f l)) /\
  last_alert r cam st' = last_or (last_alert r cam st) (alert_times r cam (stamp f l)).
Proof.
  induction rs as [|rule rs IH]; intros n st Hg Hc; cbn [eval_rules]; [done|]. apply Forall_cons in Hc as [Hc Hcs].
  pose proof (eval_rule_spaced rule f n st r cam gap Hg Hc) as H1.
  destruct (eval_rule execute debug rule f n st) as [st1 l1]. destruct H1 as [Hs1 Hl1].
  specialize (IH (n + length l1)%nat st1 Hg Hcs). destruct (eval_rules execute debug rs f _ st1) as [st2 l2].
  destruct IH as [Hs2 Hl2]. unfold stamp in *. rewrite fmap_app, alert_times_app, spaced_app, last_or_app, <- Hl1. done.
Qed.

Lemma compile_all_configs cfgs cs :
  compile_all compile_cel cfgs = Ok cs -> map (fun c => config (Prog:=Prog) c) cs = cfgs.
Proof.
  revert cs. induction cfgs as [|r cfgs IH]; intros cs; simpl; [by intros [= <-]|].
  unfold compile. destruct (compile_cel _) as [p|]; [|done]. destruct (compile_all compile_cel cfgs) as [cs'|]; [|done].
  intros [= <-]. simpl. by rewrite (IH cs' eq_refl).
Qed.

Abbreviation rrun := (mrun (H := rule_machine compile_cel execute debug)).

(** A reload of rules that keep the cooldown; a frame is always fine. *)
Definition op_cools (r : string) (gap : Z) (op : RuleOp) : Prop :=
  match op with ReloadRules cfgs => Forall (cools r gap) cfgs | EvaluateFrame _ => True end.

Lemma rule_step_spaced op e r cam gap :
  0 < gap -> op_cools r gap op -> Forall (fun c => cools r gap (config (Prog:=Prog) c)) (rules e) ->
  let '(e', l) := rule_machine compile_cel execute debug op e in
  spaced gap (last_alert r cam (track_state e)) (alert_times r cam l) /\
  last_alert r cam (track_state e') = last_or (last_alert r cam (track_state e)) (alert_times r cam l) /\
  Forall (fun c => cools r gap (config c)) (rules e').
Proof.
  intros Hg Hop Hc. destruct op as [f|cfgs]; simpl.
  - pose proof (eval_rules_spaced (rules e) f r cam gap 0 (track_state e) Hg Hc) as H. unfold evaluate.
    destruct (eval_rules execute debug (rules e) f 0 (track_state e)) as [st l]. simpl. destruct H as [Hs Hl].
    by split; [|split].
  - split; [done|]. unfold reload. destruct (compile_all compile_cel cfgs) as [cs|] eqn:Ec; [|done]. simpl. split; [done|].
    apply compile_all_configs in Ec as <-. simpl in Hop. rewrite Forall_forall in Hop. apply Forall_forall.
    intros c Hin. apply Hop, list_elem_of_fmap. by exists c.
Qed.

Lemma rule_run_spaced ops r cam gap : forall e,
  0 < gap -> Forall (op_cools r gap) ops -> Forall (fun c => cools r gap (config (Prog:=Prog) c)) (rules e) ->
  spaced gap (last_alert r cam (track_state e)) (alert_times r cam (mjoin (rrun ops e).2)).
Proof.
  induction ops as [|op ops IH]; intros e Hg Hops Hc; [done|]. apply Forall_cons in Hops as [Hop Hops].
  rewrite mrun_cons. cbn [fst snd]. pose proof (rule_step_spaced op e r cam gap Hg Hop Hc) as Hstep.
  unfold mstep. destruct (rule_machine compile_cel execute debug op e) as [e' l]. destruct Hstep as (Hs & Hl & Hc').
  simpl. rewrite alert_times_app, spaced_app, <- Hl. split; [done|]. by apply IH.
Qed.

(** C31. The cooldown holds per rule and camera: as long as every version of the rule that is loaded
    has a cooldown of at least [gap], two alerts of the rule on one camera are at least [gap] apart
    on the capture clock, whatever tracks come and go, however ids churn, and across hot reloads. *)
Theorem alerts_respect_cooldown ops e r cam gap :
  0 < gap -> Forall (op_cools r gap) ops -> Forall (fun c => cools r gap (config (Prog:=Prog) c)) (rules e) ->
  track_state e = ∅ ->
  spaced gap None (alert_times r cam (mjoin (rrun ops e).2)).
Proof.
  intros Hg Hops Hc He. pose proof (rule_run_spaced ops r cam gap e Hg Hops Hc) as H.
  unfold last_alert in H. by rewrite He, lookup_empty in H.
Qed.

(** ** What an alert is evidence of *)

Lemma passes_gates_spec cfg rz f o b :
  passes_gates cfg rz f o = Some b ->
  is_static_hidden o = false /\ detection_bbox o = Some b /\ min_track_age_ms (debounce cfg) <= age_ms o /\
  (forall zs, rz = Some zs -> inside_any (f32_of_Z (Z.max (f_width f) 1)) (f32_of_Z (Z.max (f_height f) 1)) zs o = true).
Proof.
  unfold passes_gates. destruct (is_static_hidden o); [done|]. destruct (detection_bbox o) as [b'|]; [|done].
  destruct (Z.ltb_spec (age_ms o) (min_track_age_ms (debounce cfg))); [done|].
  destruct rz as [zs|]; [|intros [= <-]; by split_and!].
  destruct (inside_any _ _ zs o) eqn:Ei; [|done]. intros [= <-]. split_and!; [done..|]. by intros ? [= <-].
Qed.

(** The centre of the object, normalised to the frame, is in the zone. *)
Definition centre_in (f : EvalFrame) (o : TrackedObject) (z : ZoneConfig) : Prop :=
  inside_any (f32_of_Z (Z.max (f_width f) 1)) (f32_of_Z (Z.max (f_height f) 1)) [z] o = true.

Lemma resolved_zone f ids o zs :
  resolve_zones (f_zones f) ids = Some zs ->
  inside_any (f32_of_Z (Z.max (f_width f) 1)) (f32_of_Z (Z.max (f_height f) 1)) zs o = true ->
  exists l z, ids = Some l /\ zone_id z ∈ l /\ z ∈ f_zones f /\ centre_in f o z.
Proof.
  unfold resolve_zones. destruct ids as [[|i l]|]; [done| |done]. intros Heqz.
  assert (zs = omap (fun z => List.find (fun c => str_eqb (zone_id c) z) (f_zones f)) (i :: l)) as Hzs by congruence.
  unfold inside_any, centre_in, inside_any.
  destruct (center (o_bbox o)) as [cx cy]. intros (z & Hz & Hp)%existsb_exists.
  rewrite Hzs in Hz. apply list_elem_of_In, list_elem_of_omap in Hz as (zi & Hi & Hf).
  apply List.find_some in Hf as [Hin Heq]. unfold str_eqb in Heq. apply bool_decide_eq_true in Heq.
  exists (i :: l), z. split; [done|]. split; [by rewrite Heq|]. split; [by apply list_elem_of_In|].
  apply existsb_exists. exists z. split; [by left|exact Hp].
Qed.

(** The grounds of an alert: a rule that is loaded, enabled and meant for the camera, and an object
    that the detector saw on this frame. *)
Record grounds (e : RuleEvaluator Prog) (f : EvalFrame) (a : AlertEvent) (rule : CompiledRule Prog) (o : TrackedObject) : Prop := {
  g_rule : rule ∈ rules e;
  g_object : o ∈ f_objects f;
  g_applies : rule_applies (config rule) (f_camera f) = true;
  g_visible : is_static_hidden o = false;
  g_age : min_track_age_ms (debounce (config rule)) <= age_ms o;
  g_zone : match zones (gates (config rule)) with
           | None | Some [] => True
           | Some l => exists z, zone_id z ∈ l /\ z ∈ f_zones f /\ centre_in f o z
           end;
  g_predicate : execute (program rule) (camera_to_cel (f_camera f)) (now_to_cel (f_now f)) (object_to_cel o) = Ok (CBool true);
  g_alert : exists b uuid, detection_bbox o = Some b /\ a = alert_of (config rule) f o b uuid;
}.

Lemma eval_objects_grounds (rule : CompiledRule Prog) f objects : forall n entry a,
  a ∈ (eval_objs rule (resolve_zones (f_zones f) (zones (gates (config rule)))) f objects n entry).2 ->
  exists o b uuid, o ∈ objects /\ passes_gates (config rule) (resolve_zones (f_zones f) (zones (gates (config rule)))) f o = Some b /\
    run_program execute debug rule (camera_to_cel (f_camera f)) (now_to_cel (f_now f)) (object_to_cel o) = Ok true /\
    a = alert_of (config rule) f o b uuid.
Proof.
  set (rz := resolve_zones _ _). induction objects as [|o objects IH]; intros n entry a; cbn [eval_objects]; [set_solver|].
  pose proof (eval_object_cases rule rz f o n entry) as Ho. destruct (eval_obj rule rz f o n entry) as [e1 x].
  specialize (IH (n + length (option_list x))%nat e1 a). destruct (eval_objs rule rz f objects _ e1) as [e2 l]. simpl in *.
  rewrite elem_of_app. intros [Hx|Hl].
  - destruct x as [al|]; simpl in Hx; [|set_solver]. apply list_elem_of_singleton in Hx as ->.
    destruct Ho as (_ & _ & b & u & Hg & Hr & ->). exists o, b, u. split; [by left|done].
  - destruct (IH Hl) as (o' & b & u & Hin & Hrest). exists o', b, u. split; [by right|done].
Qed.

Lemma eval_rules_grounds (rs : list (CompiledRule Prog)) f : forall n st a,
  a ∈ (eval_rules execute debug rs f n st).2 ->
  exists rule m entry, rule ∈ rs /\ rule_applies (config rule) (f_camera f) = true /\
    a ∈ (eval_objs rule (resolve_zones (f_zones f) (zones (gates (config rule)))) f (f_objects f) m entry).2.
Proof.
  induction rs as [|rule rs IH]; intros n st a; cbn [eval_rules]; [set_solver|].
  destruct (eval_rule execute debug rule f n st) as [st1 l1] eqn:E1.
  specialize (IH (n + length l1)%nat st1 a). destruct (eval_rules execute debug rs f _ st1) as [st2 l2]. simpl in *.
  rewrite elem_of_app. intros [Hl|Hl].
  - unfold eval_rule in E1. destruct (rule_applies (config rule) (f_camera f)) eqn:Ea; [|simplify_eq; set_solver].
    destruct (eval_objs rule _ f (f_objects f) n _) as [e' l] eqn:Eo. simplify_eq.
    eexists rule, n, _. split; [by left|]. split; [done|]. by rewrite Eo.
  - destruct (IH Hl) as (r' & m & en & Hin & Hrest). exists r', m, en. split; [by right|done].
Qed.

Lemma alert_grounds f e a :
  a ∈ (evaluate execute debug f e).2 -> exists rule o, grounds e f a rule o.
Proof.
  unfold evaluate. destruct (eval_rules execute debug (rules e) f 0 (track_state e)) as [st l] eqn:E. simpl. intros Ha.
  destruct (eval_rules_grounds (rules e) f 0 (track_state e) a) as (rule & m & entry & Hin & Happ & Ho); [by rewrite E|].
  apply eval_objects_grounds in Ho as (o & b & uuid & Hobj & Hg & Hr & ->).
  apply passes_gates_spec in Hg as (Hvis & Hdet & Hage & Hzone). exists rule, o. split; try done.
  - destruct (zones (gates (config rule))) as [[|i l']|] eqn:Ez; [done| |done].
    destruct (resolved_zone f (Some (i :: l')) o _ eq_refl (Hzone _ eq_refl)) as (? & z & [= <-] & Hz). by exists z.
  - unfold run_program in Hr. by destruct (execute _ _ _ _) as [[]|]; simplify_eq.
  - by exists b, uuid.
Qed.

(** Every alert has grounds: it comes from a rule that is loaded, enabled and not filtered
    off the camera, and reports an object of this frame that the detector saw on this very frame
    (never a coasting or hidden track), old enough, with its centre in one of the rule's zones
    of this camera (no zone resolving means no alert), for which the predicate returned [true];
    the box is the raw detection's and the rest is copied from the rule and the frame. *)
Lemma alerts_have_grounds f e a :
  a ∈ (evaluate execute debug f e).2 -> exists rule o, grounds e f a rule o.
Proof. apply alert_grounds. Qed.

(** ** Static episodes *)

Definition of_track (r : string) (cam k : Z) (a : AlertEvent) : bool :=
  bool_decide (rule_id a = r /\ camera_id a = cam /\ track_id a = Some k).

Definition track_alerts (r : string) (cam k : Z) (l : list AlertEvent) : Z :=
  zlength (filter (fun a => of_track r cam k a = true) l).

Lemma track_alerts_app r cam k a b : track_alerts r cam k (a ++ b) = track_alerts r cam k a + track_alerts r cam k b.
Proof. unfold track_alerts, zlength. rewrite filter_app, length_app. lia. Qed.

Lemma track_alerts_none r cam k l : Forall (fun a => of_track r cam k a = false) l -> track_alerts r cam k l = 0.
Proof.
  induction 1 as [|a l Ha _ IH]; [done|]. unfold track_alerts in *. by rewrite filter_cons_False by (by rewrite Ha).
Qed.

(** The track's alert of this epoch is out. *)
Definition done_with (k ep : Z) (entry : TrackState) : Prop :=
  exists s, static_alerts entry !! k = Some s /\ epoch s = ep /\ emitted s = true.

(** The track stands still in the epoch [ep], wherever it occurs. *)
Definition parked (k ep : Z) (o : TrackedObject) : Prop := o_track_id o = k -> static_alert_epoch o = Some ep.

Lemma debounce_done cfg o m entry k ep :
  parked k ep o -> done_with k ep entry ->
  done_with k ep (debounce_step cfg o m entry).1 /\ (o_track_id o = k -> (debounce_step cfg o m entry).2 = false).
Proof.
  intros Hp (s & Hs & He & Hem). unfold debounce_step, done_with.
  destruct (decide (o_track_id o = k)) as [Hk|Hk].
  - rewrite (Hp Hk), Hk, Hs. simpl. rewrite He, Z.eqb_refl, Hem. simpl. split; [|done].
    exists s. by rewrite lookup_insert_eq.
  - destruct (static_alert_epoch o); simpl; repeat case_match; simpl; (split; [|done]); exists s;
      rewrite ?lookup_insert_ne by done; done.
Qed.

Lemma debounce_epoch cfg o m entry k ep :
  o_track_id o = k -> static_alert_epoch o = Some ep ->
  exists s, static_alerts (debounce_step cfg o m entry).1 !! k = Some s /\ epoch s = ep.
Proof.
  intros <- Hep. unfold debounce_step. rewrite Hep.
  set (cur := default static_default _). set (st := if epoch cur =? ep then cur else mkStatic ep 0 false).
  assert (epoch st = ep) as He by (unfold st; destruct (Z.eqb_spec (epoch cur) ep); done).
  destruct (emitted st); [|destruct (negb m)]; simpl; eexists; (split; [apply lookup_insert_eq|done]).
Qed.

Lemma mark_emitted_done mono o entry k ep :
  parked k ep o ->
  (done_with k ep entry -> done_with k ep (mark_emitted mono o entry)) /\
  (o_track_id o = k -> (exists s, static_alerts entry !! k = Some s /\ epoch s = ep) -> done_with k ep (mark_emitted mono o entry)).
Proof.
  intros Hp. unfold mark_emitted, done_with. split.
  - intros (s & Hs & He & Hem). destruct (static_alert_epoch o) eqn:Eo; simpl; [|by exists s].
    destruct (decide (o_track_id o = k)) as [Hk|Hk].
    + rewrite Hk, Hs. simpl. eexists. by rewrite lookup_insert_eq.
    + exists s. by rewrite lookup_insert_ne.
  - intros Hk (s & Hs & He). rewrite (Hp Hk), Hk. simpl. rewrite Hs. eexists. by rewrite lookup_insert_eq.
Qed.

Lemma eval_object_once (rule : CompiledRule Prog) rz f o n entry k ep :
  parked k ep o ->
  let '(entry', a) := eval_obj rule rz f o n entry in
  (done_with k ep entry -> done_with k ep entry') /\
  (done_with k ep entry -> o_track_id o = k -> a = None) /\
  (o_track_id o = k -> is_Some a -> done_with k ep entry').
Proof.
  intros Hp. assert (forall P : Prop, (o_track_id o = k -> is_Some (@None AlertEvent) -> P)) as Hno by (by intros ? _ []).
  unfold eval_object. destruct (passes_gates _ _ _ _) as [b|]; [|split_and!; [done|done|by apply Hno]].
  destruct (run_program _ _ _ _ _ _) as [m|]; [|split_and!; [done|done|by apply Hno]].
  pose proof (debounce_done (config rule) o m entry k ep Hp) as Hd.
  pose proof (debounce_epoch (config rule) o m entry k ep) as He.
  destruct (debounce_step (config rule) o m entry) as [entry1 go]. simpl in *.
  destruct go; simpl; [|split_and!; [by intros [? _]%Hd|done|by apply Hno]].
  destruct (cooling_down _ _ _); [split_and!; [by intros [? _]%Hd|done|by apply Hno]|].
  destruct (mark_emitted_done (f_captured_mono f) o entry1 k ep Hp) as [Hm1 Hm2]. split_and!.
  - intros Hdone. apply Hm1, Hd, Hdone.
  - intros Hdone Hk. destruct (Hd Hdone) as [_ Hgo]. by specialize (Hgo Hk).
  - intros Hk _. apply Hm2; [done|]. by apply He, Hp.
Qed.

Lemma eval_objects_once (rule : CompiledRule Prog) rz f r cam k ep objects : forall n entry,
  Forall (parked k ep) objects ->
  let '(entry', l) := eval_objs rule rz f objects n entry in
  (done_with k ep entry -> done_with k ep entry' /\ track_alerts r cam k l = 0) /\
  0 <= track_alerts r cam k l <= 1 /\ (track_alerts r cam k l <> 0 -> done_with k ep entry').
Proof.
  induction objects as [|o objects IH]; intros n entry Hp; cbn [eval_objects]; [by split_and!|].
  apply Forall_cons in Hp as [Hpo Hp].
  pose proof (eval_object_once rule rz f o n entry k ep Hpo) as Ho. pose proof (eval_object_cases rule rz f o n entry) as Hc.
  destruct (eval_obj rule rz f o n entry) as [entry1 a]. destruct Ho as (Ho1 & Ho2 & Ho3).
  specialize (IH (n + length (option_list a))%nat entry1 Hp). destruct (eval_objs rule rz f objects _ entry1) as [entry2 l].
  destruct IH as (IH1 & IH2 & IH3). rewrite track_alerts_app.
  assert ((track_alerts r cam k (option_list a) = 0) \/
          (track_alerts r cam k (option_list a) = 1 /\ o_track_id o = k /\ is_Some a)) as [Ha|(Ha & Hk & Hsome)].
  { destruct a as [al|]; [|by left]. destruct Hc as (_ & _ & b & u & _ & _ & ->). unfold track_alerts. simpl.
    rewrite filter_cons, filter_nil. case_decide as Hd; [right|by left]. unfold of_track in Hd.
    apply bool_decide_eq_true in Hd as (_ & _ & [= Hk]). by split_and!. }
  - rewrite Ha. split_and!; [|lia|lia|].
    + intros Hdone. destruct (IH1 (Ho1 Hdone)). by split.
    + intros Hn. apply IH3. lia.
  - destruct (IH1 (Ho3 Hk Hsome)) as [Hd Hz]. rewrite Ha, Hz. split_and!; [|lia|lia|done].
    intros Hdone. rewrite (Ho2 Hdone Hk) in Hsome. by destruct Hsome.
Qed.

Definition entry_done (r : string) (cam k ep : Z) (st : gmap StateKey TrackState) : Prop :=
  exists t, st !! state_key r cam = Some t /\ done_with k ep t.

Lemma eval_objects_ids (rule : CompiledRule Prog) rz f objects : forall n entry,
  Forall (fun a => rule_id a = id (config rule) /\ camera_id a = f_camera f) (eval_objs rule rz f objects n entry).2.
Proof.
  induction objects as [|o objects IH]; intros n0 e0; cbn [eval_objects]; [constructor|].
  pose proof (eval_object_cases rule rz f o n0 e0) as Ho. destruct (eval_obj rule rz f o n0 e0) as [e1 a].
  specialize (IH (n0 + length (option_list a))%nat e1). destruct (eval_objs rule rz f objects _ e1) as [e2 l].
  destruct a as [al|]; simpl in *; [|done]. destruct Ho as (_ & _ & b & u & _ & _ & ->). by constructor.
Qed.

(** A frame of the camera shows the track, parked. *)
Definition shows_parked (cam k ep : Z) (f : EvalFrame) : Prop :=
  f_camera f = cam -> Forall (parked k ep) (f_objects f) /\ k ∈ map o_track_id (f_objects f).

Lemma eval_rule_once (rule : CompiledRule Prog) f n st r cam k ep :
  shows_parked cam k ep f ->
  let '(st', l) := eval_rule execute debug rule f n st in
  (entry_done r cam k ep st -> entry_done r cam k ep st' /\ track_alerts r cam k l = 0) /\
  0 <= track_alerts r cam k l <= 1 /\ (track_alerts r cam k l <> 0 -> entry_done r cam k ep st').
Proof.
  intros Hf. unfold eval_rule. destruct (rule_applies _ _); [|by split_and!].
  set (entry := retain_present _ _). set (rz := resolve_zones _ _). set (key := state_key _ _).
  destruct (decide ((id (config rule), f_camera f) = (r, cam))) as [[= Hr Hcam]|Hne].
  - destruct (Hf Hcam) as [Hp Hin]. pose proof (eval_objects_once rule rz f r cam k ep (f_objects f) n entry Hp) as H.
    destruct (eval_objs rule rz f (f_objects f) n entry) as [entry' l]. destruct H as (H1 & H2 & H3).
    assert (key = state_key r cam) as -> by (unfold key; congruence). unfold entry_done. split_and!; [|lia|lia|].
    + intros (t & Ht & s & Hs & Hes). destruct H1 as [Hd Hz].
      { exists s. split; [|done]. unfold entry. rewrite Hr, Hcam, Ht. simpl. by apply map_lookup_filter_Some. }
      split; [|done]. exists entry'. by rewrite lookup_insert_eq.
    + intros Hn. exists entry'. rewrite lookup_insert_eq. split; [done|by apply H3].
  - pose proof (eval_objects_ids rule rz f (f_objects f) n entry) as Hids.
    destruct (eval_objs rule rz f (f_objects f) n entry) as [entry' l]. simpl in Hids.
    assert (track_alerts r cam k l = 0) as Hz.
    { apply track_alerts_none. eapply Forall_impl; [exact Hids|]. intros a [Ha1 Ha2]. apply bool_decide_eq_false.
      intros (? & ? & _). apply Hne. congruence. }
    rewrite Hz. split_and!; [|done..]. intros (t & Ht & Hd). split; [|done]. exists t.
    rewrite lookup_insert_ne; [done|]. unfold key, state_key. congruence.
Qed.

Lemma eval_rules_once (rs : list (CompiledRule Prog)) f r cam k ep : forall n st,
  shows_parked cam k ep f ->
  let '(st', l) := eval_rules execute debug rs f n st in
  (entry_done r cam k ep st -> entry_done r cam k ep st' /\ track_alerts r cam k l = 0) /\
  0 <= track_alerts r cam k l <= 1 /\ (track_alerts r cam k l <> 0 -> entry_done r cam k ep st').
Proof.
  induction rs as [|rule rs IH]; intros n st Hf; cbn [eval_rules]; [by split_and!|].
  pose proof (eval_rule_once rule f n st r cam k ep Hf) as H1.
  destruct (eval_rule execute debug rule f n st) as [st1 l1]. destruct H1 as (A1 & A2 & A3).
  specialize (IH (n + length l1)%nat st1 Hf). destruct (eval_rules execute debug rs f _ st1) as [st2 l2].
  destruct IH as (B1 & B2 & B3). rewrite track_alerts_app.
  destruct (Z.eq_dec (track_alerts r cam k l1) 0) as [Hz|Hz].
  - rewrite Hz. split_and!; [|lia|lia|].
    + intros Hd. destruct (A1 Hd) as [Hd1 _]. by destruct (B1 Hd1).
    + intros Hn. apply B3. lia.
  - destruct (B1 (A3 Hz)) as [Hd2 Hz2]. rewrite Hz2. split_and!; [|lia|lia|done].
    intros Hd. destruct (A1 Hd). lia.
Qed.

(** A parked object alerts once per episode: while a track stays on the frames of a camera in
    one static epoch, a rule raises at most one alert for it there, for any number of frames,
    whatever the cooldown, the other tracks and the reloads do. *)
Lemma static_object_alerts_once ops r cam k ep e :
  Forall (fun op => match op with EvaluateFrame f => shows_parked cam k ep f | ReloadRules _ => True end) ops ->
  track_alerts r cam k (mjoin (rrun ops e).2).*2 <= 1.
Proof.
  intros Hops.
  assert ((entry_done r cam k ep (track_state e) -> track_alerts r cam k (mjoin (rrun ops e).2).*2 = 0) /\
          track_alerts r cam k (mjoin (rrun ops e).2).*2 <= 1) as [_ ?]; [|done].
  revert e. induction ops as [|op ops IH]; intros e; [done|]. apply Forall_cons in Hops as [Hop Hops].
  rewrite mrun_cons. cbn [fst snd]. specialize (IH Hops (rule_machine compile_cel execute debug op e).1). destruct IH as [IH1 IH2].
  change (mstep op e) with (rule_machine compile_cel execute debug op e). simpl mjoin. rewrite fmap_app, track_alerts_app.
  destruct op as [f|cfgs]; simpl in *.
  - unfold evaluate in *. pose proof (eval_rules_once (rules e) f r cam k ep 0 (track_state e) Hop) as H.
    destruct (eval_rules execute debug (rules e) f 0 (track_state e)) as [st l]. destruct H as (H1 & H2 & H3). simpl in *.
    assert (((fun a => (f_captured_mono f, a)) <$> l).*2 = l) as -> by (rewrite <- list_fmap_compose; apply list_fmap_id).
    split; [intros Hd; destruct (H1 Hd) as [Hd' ->]; by rewrite IH1|].
    destruct (Z.eq_dec (track_alerts r cam k l) 0) as [->|Hz]; [lia|]. rewrite (IH1 (H3 Hz)). lia.
  - assert (track_state (reload compile_cel cfgs e).2 = track_state e) as Hts by (unfold reload; by case_match).
    rewrite Hts in IH1. split; [exact IH1|exact IH2].
Qed.
End facts.

(** ** A concrete run

    A rule on persons; the interpreter is one that knows its predicate. *)
Definition person_rule : RuleConfig :=
  mkRule "r" "Person" (mkPredicate "object.label == 'person'" "High") (mkGates None (Some ["door"])) (mkDebounce 500 1 30000)
    true [] false.

Definition demo_execute (p : unit) (cam now object : CelValue) : result CelValue string :=
  match object with
  | CMap (("label", CString l) :: _) => Ok (CBool (str_eqb l "person"))
  | _ => Err "no such key"
  end.

Definition whole_frame : ZoneConfig :=
  mkZone "door" "Door" [(fzero, fzero); (f32_of_Z 1, fzero); (f32_of_Z 1, f32_of_Z 1); (fzero, f32_of_Z 1)]
    Inclusion None.

Definition demo_object (k : Z) (attrs : gmap string JsonValue) : TrackedObject :=
  let b := mkBBox (f32_of_Z 10) (f32_of_Z 10) (f32_of_Z 30) (f32_of_Z 50) in
  mkObject k "person" (f32_of_Z 1) b (Some b) 20 1000 attrs.

Definition demo_frame (mono : Z) (objects : list TrackedObject) : EvalFrame :=
  mkFrameArgs 1 5 0 mono "t" 640 480 [whole_frame] objects 0 (fun _ => "uuid").

Definition demo_debug (v : CelValue) : string := "value".
Definition demo_evaluator : RuleEvaluator unit := mkEvaluator [mkCompiled person_rule tt] ∅.
Definition demo_ops (attrs : gmap string JsonValue) : list RuleOp :=
  [EvaluateFrame (demo_frame (secs 1) [demo_object 7 attrs]); EvaluateFrame (demo_frame (secs 2) [demo_object 8 attrs; demo_object 7 attrs]);
   EvaluateFrame (demo_frame (secs 40) [demo_object 7 attrs])].

Abbreviation demo_rules_run attrs :=
  (mrun (H := rule_machine (fun _ => Ok tt) demo_execute demo_debug) (demo_ops attrs) demo_evaluator).

Lemma alerts_respect_cooldown_witness :
  alert_times "r" 1 (mjoin (demo_rules_run ∅).2) = [secs 1; secs 40] /\
  spaced (secs 30) None (alert_times "r" 1 (mjoin (demo_rules_run ∅).2)).
Proof.
  split; [vm_compute; reflexivity|].
  apply (alerts_respect_cooldown (fun _ => Ok tt) demo_execute demo_debug); [reflexivity| | |reflexivity].
  - repeat constructor.
  - constructor; [|constructor]. intros _. vm_compute. discriminate.
Defined.

Lemma alerts_have_grounds_witness :
  exists a rule o, a ∈ (evaluate demo_execute demo_debug (demo_frame (secs 1) [demo_object 7 ∅]) demo_evaluator).2 /\
    severity a = High /\ grounds demo_execute demo_evaluator (demo_frame (secs 1) [demo_object 7 ∅]) a rule o.
Proof.
  assert (exists a, (evaluate demo_execute demo_debug (demo_frame (secs 1) [demo_object 7 ∅]) demo_evaluator).2 = [a] /\
            severity a = High) as (a & Ha & Hs) by (eexists; split; vm_compute; reflexivity).
  assert (a ∈ (evaluate demo_execute demo_debug (demo_frame (secs 1) [demo_object 7 ∅]) demo_evaluator).2) as Hin
    by (rewrite Ha; by left).
  destruct (alerts_have_grounds demo_execute demo_debug _ _ _ Hin) as (rule & o & Hg).
  exists a, rule, o. split; [exact Hin|]. split; [exact Hs|exact Hg].
Defined.

(** A car that stands in epoch 3: the frame at 40 s is past the cooldown and still raises nothing. *)
Definition parked_attrs : gmap string JsonValue := {[STATIC_ALERT_EPOCH_ATTRIBUTE_KEY := JInt 3]}.

Lemma static_object_alerts_once_witness :
  track_alerts "r" 1 7 (mjoin (demo_rules_run parked_attrs).2).*2 = 1 /\
  track_alerts "r" 1 7 (mjoin (demo_rules_run parked_attrs).2).*2 <= 1.
Proof.
  split; [vm_compute; reflexivity|].
  apply (static_object_alerts_once (fun _ => Ok tt) demo_execute demo_debug (demo_ops parked_attrs) "r" 1 7 3).
  repeat constructor; try (intros _; vm_compute; reflexivity); simpl; rewrite ?list_elem_of_singleton, ?elem_of_cons; auto.
Defined.

(** A name's built key is the key of that name, cached or not, and the table stays bounded. *)
Lemma attribute_key_sound key_of keys n :
  (forall m k, keys !! m = Some k -> k = key_of m) -> (size keys <= ATTRIBUTE_KEYS_MAX)%nat ->
  (attribute_key key_of keys n).1 = key_of n /\
  (forall m k, (attribute_key key_of keys n).2 !! m = Some k -> k = key_of m) /\
  (size (attribute_key key_of keys n).2 <= ATTRIBUTE_KEYS_MAX)%nat.
Proof.
  intros Hk Hs. unfold attribute_key. destruct (keys !! n) as [k|] eqn:E; simpl; [by split_and!; [apply Hk| |]|].
  split; [done|]. destruct (Nat.ltb_spec (size keys) ATTRIBUTE_KEYS_MAX); [|done]. split.
  - intros m k [[<- <-]|[_ Hm]]%lookup_insert_Some; [done|by apply Hk].
  - rewrite map_size_insert_None by done. lia.
Qed.
