(* ===== verification/Tracker.v ===== *)
(** The naive tracker of [nexus-tracker/src/lib.rs]: nearest overlap and a time to live. The order
    in which a [HashMap] is walked is a parameter. *)
From S2P Require Import Prelude Float Types Alert.

Record TrackerConfig := mkTracker { track_ttl_ms : Z; iou_threshold : f32 }.

(** [TrackerConfig::default]: two seconds and the literal [0.3]. *)
Definition tracker_default : TrackerConfig := mkTracker 2000 (flit 10066330 (-25)).

Record ActiveTrack := mkActive {
  n_id : Z;
  n_label : string;
  n_bbox : BBox;
  n_confidence : f32;
  n_born_at : Z;
  n_last_seen : Z;
  n_age_frames : Z;
}.

Record IouState := mkIou { n_next_id : Z; active : gmap Z ActiveTrack }.

Definition iou_new : IouState := mkIou 1 ∅.

(** Drop the tracks unseen for the time to live. *)
Definition expire (cfg : TrackerConfig) (now : Z) (m : gmap Z ActiveTrack) : gmap Z ActiveTrack :=
  filter (fun '(_, t) => sat_sub now (n_last_seen t) < millis (track_ttl_ms cfg)) m.

Section naive.
Context (walk : gmap Z ActiveTrack -> list (Z * ActiveTrack)).

(** The best track for a detection among those not consumed. *)
Definition best_track (cfg : TrackerConfig) (consumed : gset Z) (m : gmap Z ActiveTrack) (d : Detection) : option (Z * f32) :=
  foldl (fun best '(id, t) =>
    if bool_decide (id ∈ consumed) || negb (str_eqb (n_label t) (d_label d)) then best
    else
      let o := iou (n_bbox t) (d_bbox d) in
      if fge o (iou_threshold cfg) && match best with None => true | Some (_, b) => fgt o b end then Some (id, o) else best)
    None (walk m).

Definition newborn (id now : Z) (d : Detection) : ActiveTrack :=
  mkActive id (d_label d) (d_bbox d) (d_confidence d) now now 0.

(** One id per detection. *)
Fixpoint match_all (cfg : TrackerConfig) (now : Z) (dets : list Detection) (st : IouState) (consumed : gset Z) :
    IouState * list Z :=
  match dets with
  | [] => (st, [])
  | d :: rest =>
      match best_track cfg consumed (active st) d with
      | Some (id, _) =>
          let '(st, ids) := match_all cfg now rest st ({[id]} ∪ consumed) in (st, id :: ids)
      | None =>
          let id := n_next_id st in
          let st := mkIou ((id + 1) mod 2 ^ 64) (<[id := newborn id now d]> (active st)) in
          let '(st, ids) := match_all cfg now rest st consumed in (st, id :: ids)
      end
  end.

Definition touch (now : Z) (d : Detection) (t : ActiveTrack) : ActiveTrack :=
  mkActive (n_id t) (n_label t) (d_bbox d) (d_confidence d) (n_born_at t) now (usat_add 32 (n_age_frames t) 1).

Definition naive_object (now : Z) (d : Detection) (t : ActiveTrack) : TrackedObject :=
  mkObject (n_id t) (n_label t) (n_confidence t) (n_bbox t) (Some (n_bbox t)) (n_age_frames t)
    (as_millis (sat_sub now (n_born_at t)) mod 2 ^ 64) (d_attributes d).

Fixpoint report (now : Z) (pairs : list (Detection * Z)) (m : gmap Z ActiveTrack) : gmap Z ActiveTrack * list TrackedObject :=
  match pairs with
  | [] => (m, [])
  | (d, id) :: rest =>
      match m !! id with
      | Some t =>
          let t := touch now d t in
          let '(m, out) := report now rest (<[id := t]> m) in (m, naive_object now d t :: out)
      | None => report now rest m
      end
  end.

Definition naive_update (cfg : TrackerConfig) (dets : list Detection) (now : Z) (st : IouState) : IouState * list TrackedObject :=
  let st := mkIou (n_next_id st) (expire cfg now (active st)) in
  let '(st, ids) := match_all cfg now dets st ∅ in
  let '(m, out) := report now (zip dets ids) (active st) in
  (mkIou (n_next_id st) m, out).

#[export] Instance naive_machine (cfg : TrackerConfig) : Machine (list Detection * Z) IouState (list TrackedObject) :=
  fun op st => naive_update cfg op.1 op.2 st.
End naive.

(** ** One object per detection *)

Section naive_facts.
Context (walk : gmap Z ActiveTrack -> list (Z * ActiveTrack)).
Context (Hwalk : forall m, walk m ≡ₚ map_to_list m).

Lemma best_track_sound cfg consumed m d id o :
  best_track walk cfg consumed m d = Some (id, o) ->
  exists t, m !! id = Some t /\ n_label t = d_label d /\ id ∉ consumed.
Proof.
  assert (Forall (fun x => m !! x.1 = Some x.2) (walk m)) as Hall.
  { rewrite Hwalk. apply Forall_forall. intros [k t] Hin. by apply elem_of_map_to_list in Hin. }
  unfold best_track. revert Hall.
  assert (forall l best, Forall (fun x => m !! x.1 = Some x.2) l ->
    (forall i p, best = Some (i, p) -> exists t, m !! i = Some t /\ n_label t = d_label d /\ i ∉ consumed) ->
    foldl (fun best '(id, t) =>
      if bool_decide (id ∈ consumed) || negb (str_eqb (n_label t) (d_label d)) then best
      else
        let o := iou (n_bbox t) (d_bbox d) in
        if fge o (iou_threshold cfg) && match best with None => true | Some (_, b) => fgt o b end then Some (id, o) else best)
      best l = Some (id, o) -> exists t, m !! id = Some t /\ n_label t = d_label d /\ id ∉ consumed) as H.
  { induction l as [|[k t] l IH]; intros best Hall Hbest; simpl; [by apply Hbest|].
    apply Forall_cons in Hall as [Hk Hall]. simpl in Hk. apply IH; [done|]. intros i p.
    destruct (bool_decide_reflect (k ∈ consumed)) as [|Hc]; simpl; [by apply Hbest|].
    unfold str_eqb. case_bool_decide as Hl; simpl; [|by apply Hbest].
    destruct (fge _ _ && _); [|by apply Hbest]. intros [= <- <-]. by exists t. }
  intros Hall. by apply (H (walk m) None).
Qed.

(** Keys are ids that have been handed out. *)
Definition below (st : IouState) : Prop := forall k t, active st !! k = Some t -> 0 <= k < n_next_id st.

(** The labels of the matched ids, and nothing of the old tracks lost. *)
Lemma match_all_ok cfg now dets : forall st consumed,
  below st -> 0 <= n_next_id st -> n_next_id st + zlength dets < 2 ^ 64 ->
  let r := match_all walk cfg now dets st consumed in
  Forall2 (fun d id => exists t, active r.1 !! id = Some t /\ n_label t = d_label d) dets r.2 /\
  (forall k t, active st !! k = Some t -> active r.1 !! k = Some t) /\
  below r.1 /\ n_next_id st <= n_next_id r.1 <= n_next_id st + zlength dets.
Proof.
  unfold zlength. induction dets as [|d dets IH]; intros st consumed Hb H0 Hn; simpl.
  { split_and!; [constructor|done|done|lia|lia]. }
  simpl in Hn. destruct (best_track walk cfg consumed (active st) d) as [[id o]|] eqn:E.
  - apply best_track_sound in E as (t & Ht & Hl & _).
    destruct (IH st ({[id]} ∪ consumed) Hb H0 ltac:(lia)) as (A & B & C & D). destruct (match_all _ _ _ _ _ _) as [st' ids]. simpl in *.
    split_and!; [constructor; [|done]|done|done|lia|lia]. exists t. split; [by apply B|done].
  - rewrite Z.mod_small by lia. set (st1 := mkIou _ _).
    assert (below st1) as Hb1.
    { intros k t. subst st1. simpl. intros [[<- _]|[_ Hk]]%lookup_insert_Some; [lia|]. specialize (Hb k t Hk). lia. }
    destruct (IH st1 consumed Hb1) as (A & B & C & D); [subst st1; simpl; lia..|].
    destruct (match_all _ _ _ _ _ _) as [st' ids]. subst st1. simpl in *. split_and!; [|..]; [| |done|lia|lia].
    + constructor; [|done]. eexists. split; [apply B, lookup_insert_eq|done].
    + intros k t Hk. apply B. rewrite lookup_insert_ne; [done|]. specialize (Hb k t Hk). lia.
Qed.

(** The object that stands for a detection. *)
Definition shows (d : Detection) (o : TrackedObject) : Prop :=
  o_label o = d_label d /\ detection_bbox o = Some (d_bbox d) /\ o_bbox o = d_bbox d /\
  confidence o = d_confidence d /\ attributes o = d_attributes d.

Lemma report_ok now dets ids : forall m,
  Forall2 (fun d id => exists t, m !! id = Some t /\ n_label t = d_label d) dets ids ->
  let r := report now (zip dets ids) m in
  Forall2 shows dets r.2 /\ (forall k, is_Some (r.1 !! k) -> is_Some (m !! k)).
Proof.
  revert ids. induction dets as [|d dets IH]; intros [|id ids] m H; simpl; inversion H as [|? ? ? ? (t & Ht & Hl) Hrest]; subst.
  { by split; [constructor|]. }
  rewrite Ht. destruct (IH ids (<[id := touch now d t]> m)) as [A B].
  { eapply Forall2_impl; [exact Hrest|]. intros d' id' (t' & Ht' & Hl').
    destruct (decide (id = id')) as [<-|Hne]; [|exists t'; by rewrite lookup_insert_ne].
    exists (touch now d t). rewrite lookup_insert_eq. split; [done|]. simpl. congruence. }
  destruct (report now (zip dets ids) _) as [m' out]. simpl in *. split; [by constructor|].
  intros k Hk%B. destruct (decide (id = k)) as [<-|Hne]; [by rewrite Ht|]. by rewrite lookup_insert_ne in Hk.
Qed.

(** Every detection of a frame is one object, with its label, box, confidence and attributes. *)
Lemma naive_update_ok cfg dets now st :
  below st -> 0 <= n_next_id st -> n_next_id st + zlength dets < 2 ^ 64 ->
  let r := naive_update walk cfg dets now st in
  Forall2 shows dets r.2 /\ below r.1 /\ n_next_id st <= n_next_id r.1 <= n_next_id st + zlength dets.
Proof.
  intros Hb H0 Hn. unfold naive_update.
  assert (below (mkIou (n_next_id st) (expire cfg now (active st)))) as Hb'.
  { intros k t [Hk _]%map_lookup_filter_Some. by apply (Hb k t). }
  destruct (match_all_ok cfg now dets _ ∅ Hb' H0 Hn) as (A & _ & C & D).
  destruct (match_all walk cfg now dets _ ∅) as [st' ids]. simpl in *.
  destruct (report_ok now dets ids (active st') A) as [R1 R2].
  destruct (report now (zip dets ids) (active st')) as [m out]. simpl in *. split_and!; [done| |lia|lia].
  intros k t Hk. destruct (R2 k) as [t' Ht']; [by exists t|]. by apply (C k t').
Qed.
End naive_facts.

(** Two boxes over each other, on a frame with no tracks: the first detection's new track is not
    in [consumed], so the second one takes it, and the frame has two objects of one id. *)
Example newborn_taken_twice :
  let det := mkDetection "person" (f32_of_Z 1) (mkBBox fzero fzero (f32_of_Z 10) (f32_of_Z 10)) ∅ in
  map o_track_id (naive_update map_to_list tracker_default [det; det] (secs 1) iou_new).2 = [1; 1].
Proof. vm_compute. reflexivity. Qed.
