(* ===== verification/ByteTrack.v ===== *)
(** ByteTrack, [nexus-tracker/src/bytetrack.rs] with its configuration in
    [nexus-config/src/tracker.rs]: one [update] per analysed frame of a camera.

    Instants are nanoseconds of the monotonic clock. [f32::hypot] is a function of the platform's
    C library and a parameter. The vectors [det_used] and [track_matched] and the detections,
    whose attributes are moved out when they are matched, are one state, [Assoc], that the
    passes hand on. *)
From S2P Require Import Prelude Float Types Alert Order.

(** ** Configuration *)

Record ByteTrackConfig := mkByteTrack {
  high_confidence : f32;
  low_confidence : f32;
  match_iou_threshold : f32;
  max_lost_frames : Z;
  confirm_frames : Z;
  tentative_max_missed_frames : Z;
  display_smoothing_alpha : f32;
  motion_match_box_lengths_per_sec : f32;
  spatial_bucket_size_px : option Z;
}.

(** The literals [0.1], [0.15], [0.3], [0.4] and [0.6]. *)
Definition f_01 : f32 := flit 13421773 (-27).
Definition f_015 : f32 := flit 10066330 (-26).
Definition f_03 : f32 := flit 10066330 (-25).
Definition f_04 : f32 := flit 13421773 (-25).
Definition f_06 : f32 := flit 10066330 (-24).
Definition f_1 : f32 := f32_of_Z 1.
Definition f_2 : f32 := f32_of_Z 2.

Definition config_default : ByteTrackConfig :=
  mkByteTrack f32_half f_01 f_03 30 1 3 f_06 (f32_of_Z 3) None.

(** ** State *)

Inductive Lifecycle := Tentative | Confirmed | Lost.

#[export] Instance Lifecycle_eq_dec : EqDecision Lifecycle.
Proof. solve_decision. Defined.

Record TrackState := mkTrack {
  t_id : Z;
  t_label : string;
  t_bbox : BBox;
  display_bbox : BBox;
  t_confidence : f32;
  velocity_x : f32;
  velocity_y : f32;
  t_age_frames : Z;
  hit_streak : Z;
  missed_frames : Z;
  born_at : Z;
  last_matched_at : Z;
  matched_bbox : BBox;
  match_interval : f32;
  hits : Z;
  lifecycle : Lifecycle;
  t_attributes : gmap string JsonValue;
}.

Record ByteTrackState := mkState {
  next_id : Z;
  tracks : list TrackState;
  last_update : option Z;
}.

Definition new : ByteTrackState := mkState 1 [] None.

(** ** Boxes *)

Definition predict (b : BBox) (vx vy : f32) : BBox :=
  mkBBox (f32_add (x1 b) vx) (f32_add (y1 b) vy) (f32_add (x2 b) vx) (f32_add (y2 b) vy).

Definition blend (new prior : BBox) (alpha : f32) : BBox :=
  let inv := f32_sub f_1 alpha in
  let mix a b := f32_add (f32_mul alpha a) (f32_mul inv b) in
  mkBBox (mix (x1 new) (x1 prior)) (mix (y1 new) (y1 prior)) (mix (x2 new) (x2 prior)) (mix (y2 new) (y2 prior)).

(** The larger side. *)
Definition box_length (b : BBox) : f32 := fmax (f32_sub (x2 b) (x1 b)) (f32_sub (y2 b) (y1 b)).

Definition MOTION_MATCH_MAX_GAP : Z := millis 2500.
Definition MOTION_MATCH_MAX_FRAMES : Z := 4.
Definition MOTION_MATCH_MIN_SPEED : f32 := f_015.
Definition MOTION_MATCH_MIN_STEP : f32 := f_01.
Definition MOTION_MATCH_BACKWARD_SLACK : f32 := f_01.

(** ** One match *)

(** The velocity after a match, with the interval it was measured over. *)
Definition match_velocity (t : TrackState) (b : BBox) (motion : option Z) : f32 * f32 * f32 :=
  match motion with
  | Some now =>
      let secs := as_secs_f32 (sat_sub now (last_matched_at t)) in
      if fgt secs fzero then
        let weight :=
          if fgt (match_interval t) fzero then fclamp f_04 f_1 (f32_div (f32_mul f_04 secs) (match_interval t))
          else f_04 in
        let dx := f32_div (f32_sub (x1 b) (x1 (matched_bbox t))) secs in
        let dy := f32_div (f32_sub (y1 b) (y1 (matched_bbox t))) secs in
        (f32_add (velocity_x t) (f32_mul weight (f32_sub dx (velocity_x t))),
         f32_add (velocity_y t) (f32_mul weight (f32_sub dy (velocity_y t))), secs)
      else (velocity_x t, velocity_y t, match_interval t)
  | None =>
      (f32_add (f32_mul f_06 (velocity_x t)) (f32_mul f_04 (f32_sub (x1 b) (x1 (t_bbox t)))),
       f32_add (f32_mul f_06 (velocity_y t)) (f32_mul f_04 (f32_sub (y1 b) (y1 (t_bbox t)))), match_interval t)
  end.

Definition apply_match (t : TrackState) (d : Detection) (confirm : Z) (alpha : f32) (motion : option Z) : TrackState :=
  let '(vx, vy, interval) := match_velocity t (d_bbox d) motion in
  let streak := usat_add 32 (hit_streak t) 1 in
  let life :=
    match lifecycle t with
    | Tentative => if confirm <=? streak then Confirmed else Tentative
    | Lost => Confirmed
    | Confirmed => Confirmed
    end in
  mkTrack (t_id t) (t_label t) (d_bbox d) (blend (d_bbox d) (display_bbox t) alpha) (d_confidence d) vx vy
    (t_age_frames t) streak 0 (born_at t) (last_matched_at t) (d_bbox d) interval (usat_add 32 (hits t) 1) life
    (d_attributes d).

(** ** Association *)

Record Assoc := mkAssoc {
  a_tracks : list TrackState;
  a_dets : list Detection;
  det_used : list bool;
  track_matched : list bool;
}.

(** A candidate: its score, the track's index and the detection's. *)
Definition Pair : Type := f32 * nat * nat.
Definition score (p : Pair) : f32 := p.1.1.
Definition p_track (p : Pair) : nat := p.1.2.
Definition p_det (p : Pair) : nat := p.2.

Definition flagged (l : list bool) (i : nat) : bool := default false (l !! i).

Definition take_attributes (d : Detection) : Detection :=
  mkDetection (d_label d) (d_confidence d) (d_bbox d) ∅.

(** One pair of the sorted candidates. *)
Definition take_pair (confirm : Z) (alpha : f32) (motion : option Z) (s : Assoc) (p : Pair) : Assoc :=
  if flagged (track_matched s) (p_track p) || flagged (det_used s) (p_det p) then s
  else
    match a_tracks s !! p_track p, a_dets s !! p_det p with
    | Some t, Some d =>
        mkAssoc (<[p_track p := apply_match t d confirm alpha motion]> (a_tracks s))
                (<[p_det p := take_attributes d]> (a_dets s))
                (<[p_det p := true]> (det_used s)) (<[p_track p := true]> (track_matched s))
    | _, _ => s
    end.

Definition CellMap : Type := gmap (Z * Z) (list nat).

Definition cell_of (cell : f32) (b : BBox) : Z * Z :=
  let '(cx, cy) := center b in (floor_i32 (f32_div cx cell), floor_i32 (f32_div cy cell)).

Definition build_grid (cell : f32) (dets : list Detection) (idx : list nat) : CellMap :=
  foldl (fun g i =>
    match dets !! i with
    | Some d => let key := cell_of cell (d_bbox d) in <[key := default [] (g !! key) ++ [i]]> g
    | None => g
    end) ∅ idx.

(** [i32] addition, as the release build has it. *)
Definition i32_add (a b : Z) : Z := (a + b + 2 ^ 31) mod 2 ^ 32 - 2 ^ 31.

(** The cells around a centre, [dy] outside and [dx] inside. *)
Definition neighbours (g : CellMap) (c : Z * Z) : list nat :=
  mjoin ((fun dy => mjoin ((fun dx => default [] (g !! (i32_add c.1 dx, i32_add c.2 dy))) <$> [-1; 0; 1])) <$> [-1; 0; 1]).

(** The detections a track scans. *)
Definition scan (bucket : option Z) (dets : list Detection) (idx : list nat) : TrackState -> list nat :=
  match bucket with
  | Some px =>
      if 0 <? px then
        let cell := f32_of_Z px in
        let g := build_grid cell dets idx in
        fun t => neighbours g (cell_of cell (t_bbox t))
      else fun _ => idx
  | None => fun _ => idx
  end.

Definition consider (s : Assoc) (threshold : f32) (k : nat) (t : TrackState) (i : nat) : option Pair :=
  match a_dets s !! i with
  | Some d =>
      if flagged (det_used s) i || negb (str_eqb (d_label d) (t_label t)) then None
      else
        let o := iou (t_bbox t) (d_bbox d) in
        if fgt o fzero && fge o threshold then Some (o, k, i) else None
  | None => None
  end.

Definition iou_pairs (s : Assoc) (idx : list nat) (threshold : f32) (bucket : option Z) : list Pair :=
  let look := scan bucket (a_dets s) idx in
  mjoin (imap (fun k t => if flagged (track_matched s) k then [] else omap (consider s threshold k t) (look t)) (a_tracks s)).

(** Best overlap first, then the earlier track, then the earlier detection. *)
Definition best_first (a b : Pair) : comparison :=
  cthen (cthen (total_cmp (score b) (score a)) (Nat.compare (p_track a) (p_track b))) (Nat.compare (p_det a) (p_det b)).

(** Track by track, each its best overlap first. *)
Definition by_track (a b : Pair) : comparison :=
  cthen (Nat.compare (p_track a) (p_track b)) (total_cmp (score b) (score a)).

Definition by_distance (a b : Pair) : comparison := total_cmp (score a) (score b).

Definition associate_pass (cfg : ByteTrackConfig) (idx : list nat) (motion : option Z) (s : Assoc) : Assoc :=
  let pairs := iou_pairs s idx (match_iou_threshold cfg) (spatial_bucket_size_px cfg) in
  let sorted := match motion with Some _ => sort_by best_first pairs | None => sort_by by_track pairs end in
  foldl (take_pair (confirm_frames cfg) (display_smoothing_alpha cfg) motion) s sorted.

Section bytetrack.
Context (hypot : f32 -> f32 -> f32).

Definition is_moving (t : TrackState) : bool :=
  let length := box_length (t_bbox t) in
  let speed := hypot (velocity_x t) (velocity_y t) in
  fge speed (f32_mul MOTION_MATCH_MIN_SPEED length) &&
  fge (f32_mul speed (match_interval t)) (f32_mul MOTION_MATCH_MIN_STEP length).

(** Whether a track takes part in the motion pass. *)
Definition motion_eligible (t : TrackState) (now : Z) : bool :=
  let gap := sat_sub now (last_matched_at t) in
  negb (gap =? 0) && (gap <=? MOTION_MATCH_MAX_GAP) && (missed_frames t <? MOTION_MATCH_MAX_FRAMES) &&
  negb (fle (box_length (t_bbox t)) fzero) && negb ((1 <? hits t) && negb (is_moving t)).

Definition half_to_twice (x : f32) : bool := fle f32_half x && fle x f_2.

(** The candidate of one track and one detection by distance. *)
Definition consider_motion (cfg : ByteTrackConfig) (now : Z) (s : Assoc) (k : nat) (t : TrackState) (i : nat) : option Pair :=
  match a_dets s !! i with
  | Some d =>
      let tb := t_bbox t in
      let db := d_bbox d in
      if flagged (det_used s) i || flt (d_confidence d) (low_confidence cfg) || negb (str_eqb (d_label d) (t_label t)) then None
      else if negb (half_to_twice (f32_div (f32_sub (x2 db) (x1 db)) (f32_sub (x2 tb) (x1 tb)))) ||
              negb (half_to_twice (f32_div (f32_sub (y2 db) (y1 db)) (f32_sub (y2 tb) (y1 tb)))) then None
      else
        let length := box_length tb in
        let speed := hypot (velocity_x t) (velocity_y t) in
        let gap := sat_sub now (last_matched_at t) in
        let reach := f32_mul (f32_mul (motion_match_box_lengths_per_sec cfg) length) (as_secs_f32 gap) in
        let '(tcx, tcy) := center tb in
        let '(seen_x, seen_y) := center (matched_bbox t) in
        let '(dcx, dcy) := center db in
        let along := f32_add (f32_mul (f32_sub dcx seen_x) (velocity_x t)) (f32_mul (f32_sub dcy seen_y) (velocity_y t)) in
        let behind := (1 <? hits t) && flt (f32_div along speed) (f32_mul (SFopp MOTION_MATCH_BACKWARD_SLACK) length) in
        let dist := hypot (f32_sub dcx tcx) (f32_sub dcy tcy) in
        if fle dist reach && negb behind then Some (dist, k, i) else None
  | None => None
  end.

Definition motion_pairs (cfg : ByteTrackConfig) (now : Z) (s : Assoc) : list Pair :=
  mjoin (imap (fun k t =>
    if flagged (track_matched s) k || negb (motion_eligible t now) then []
    else omap (consider_motion cfg now s k t) (seq 0 (length (a_dets s)))) (a_tracks s)).

Definition associate_by_motion (cfg : ByteTrackConfig) (now : Z) (s : Assoc) : Assoc :=
  foldl (take_pair (confirm_frames cfg) (display_smoothing_alpha cfg) (Some now)) s
    (sort_by by_distance (motion_pairs cfg now s)).

(** ** One frame *)

(** The capture time when the motion pass is on. *)
Definition motion_of (cfg : ByteTrackConfig) (now : Z) : option Z :=
  if fgt (motion_match_box_lengths_per_sec cfg) fzero then Some now else None.

Definition predict_track (motion : option Z) (dt : f32) (t : TrackState) : TrackState :=
  let step :=
    match motion with
    | Some _ => if is_moving t then fmin dt (as_secs_f32 MOTION_MATCH_MAX_GAP) else fmin dt (match_interval t)
    | None => f_1
    end in
  mkTrack (t_id t) (t_label t) (predict (t_bbox t) (f32_mul (velocity_x t) step) (f32_mul (velocity_y t) step))
    (display_bbox t) (t_confidence t) (velocity_x t) (velocity_y t) (usat_add 32 (t_age_frames t) 1) (hit_streak t)
    (missed_frames t) (born_at t) (last_matched_at t) (matched_bbox t) (match_interval t) (hits t) (lifecycle t)
    (t_attributes t).

Definition is_high (cfg : ByteTrackConfig) (d : Detection) : bool := fge (d_confidence d) (high_confidence cfg).
Definition is_low (cfg : ByteTrackConfig) (d : Detection) : bool :=
  negb (is_high cfg d) && fge (d_confidence d) (low_confidence cfg).

(** The indices of the detections of a band. *)
Definition bucket (p : Detection -> bool) (dets : list Detection) : list nat :=
  List.filter (fun i => match dets !! i with Some d => p d | None => false end) (seq 0 (length dets)).

Definition age_track (now : Z) (matched : bool) (t : TrackState) : TrackState :=
  if matched then
    mkTrack (t_id t) (t_label t) (t_bbox t) (display_bbox t) (t_confidence t) (velocity_x t) (velocity_y t)
      (t_age_frames t) (hit_streak t) (missed_frames t) (born_at t) now (matched_bbox t) (match_interval t) (hits t)
      (lifecycle t) (t_attributes t)
  else
    mkTrack (t_id t) (t_label t) (t_bbox t) (display_bbox t) (t_confidence t) (velocity_x t) (velocity_y t)
      (t_age_frames t) 0 (usat_add 32 (missed_frames t) 1) (born_at t) (last_matched_at t) (matched_bbox t)
      (match_interval t) (hits t) (if decide (lifecycle t = Confirmed) then Lost else lifecycle t) (t_attributes t).

Definition born (cfg : ByteTrackConfig) (now id : Z) (d : Detection) : TrackState :=
  mkTrack id (d_label d) (d_bbox d) (d_bbox d) (d_confidence d) fzero fzero 1 1 0 now now (d_bbox d) fzero 1
    (if confirm_frames cfg <=? 1 then Confirmed else Tentative) (d_attributes d).

(** New tracks for the detections nothing has taken, with [next_id] after them. *)
Fixpoint spawn (cfg : ByteTrackConfig) (now id : Z) (dets : list Detection) (used : list bool) : Z * list TrackState :=
  match dets, used with
  | d :: dets, u :: used =>
      if u || flt (d_confidence d) (low_confidence cfg) then spawn cfg now id dets used
      else
        let '(id', l) := spawn cfg now ((id + 1) mod 2 ^ 64) dets used in (id', born cfg now id d :: l)
  | _, _ => (id, [])
  end.

Definition keep_track (cfg : ByteTrackConfig) (t : TrackState) : bool :=
  match lifecycle t with
  | Tentative => missed_frames t <=? tentative_max_missed_frames cfg
  | Confirmed | Lost => missed_frames t <=? max_lost_frames cfg
  end.

Definition is_emitted (t : TrackState) : bool :=
  match lifecycle t with Confirmed | Lost => true | Tentative => false end.

Definition lifecycle_str (l : Lifecycle) : string :=
  match l with Confirmed => "confirmed" | Lost => "lost" | Tentative => "tentative" end.

Definition emit (now : Z) (t : TrackState) : TrackedObject :=
  mkObject (t_id t) (t_label t) (t_confidence t) (display_bbox t)
    (if missed_frames t =? 0 then Some (t_bbox t) else None) (t_age_frames t)
    (as_millis (sat_sub now (born_at t)) mod 2 ^ 64)
    (<["tracking.hit_streak" := JInt (hit_streak t)]>
    (<["tracking.missed_frames" := JInt (missed_frames t)]>
    (<["tracking.predicted_only" := JBool (bool_decide (lifecycle t = Lost))]>
    (<["tracking.lifecycle" := JString (lifecycle_str (lifecycle t))]> (t_attributes t))))).

(** The attributes move into the emitted object. *)
Definition emptied (t : TrackState) : TrackState :=
  if is_emitted t then
    mkTrack (t_id t) (t_label t) (t_bbox t) (display_bbox t) (t_confidence t) (velocity_x t) (velocity_y t)
      (t_age_frames t) (hit_streak t) (missed_frames t) (born_at t) (last_matched_at t) (matched_bbox t)
      (match_interval t) (hits t) (lifecycle t) ∅
  else t.

(** The association of one frame: predict, then the three passes. *)
Definition associate (cfg : ByteTrackConfig) (dets : list Detection) (now : Z) (st : ByteTrackState) : Assoc :=
  let motion := motion_of cfg now in
  let dt := match last_update st with Some prev => as_secs_f32 (sat_sub now prev) | None => fzero end in
  let tracks := map (predict_track motion dt) (tracks st) in
  let s := mkAssoc tracks dets (replicate (length dets) false) (replicate (length tracks) false) in
  let s := associate_pass cfg (bucket (is_high cfg) dets) motion s in
  let s := associate_pass cfg (bucket (is_low cfg) dets) motion s in
  match motion with Some _ => associate_by_motion cfg now s | None => s end.

Definition update (cfg : ByteTrackConfig) (dets : list Detection) (now : Z) (st : ByteTrackState) :
    ByteTrackState * list TrackedObject :=
  let s := associate cfg dets now st in
  let aged := zip_with (age_track now) (track_matched s) (a_tracks s) in
  let '(next, fresh) := spawn cfg now (next_id st) (a_dets s) (det_used s) in
  let kept := List.filter (keep_track cfg) (aged ++ fresh) in
  (mkState next (map emptied kept) (Some now), map (emit now) (List.filter is_emitted kept)).

(** The frames of a camera, in order. *)
#[export] Instance bytetrack_machine (cfg : ByteTrackConfig) : Machine (list Detection * Z) ByteTrackState (list TrackedObject) :=
  fun op st => update cfg op.1 op.2 st.
End bytetrack.

(** ** Flags *)

Lemma flagged_true l i : flagged l i = true <-> l !! i = Some true.
Proof. unfold flagged. by destruct (l !! i) as [[]|]. Qed.

Lemma insert_flag (l : list bool) i j :
  (i < length l)%nat -> <[i := true]> l !! j = Some true <-> j = i \/ l !! j = Some true.
Proof.
  intros Hi. destruct (decide (i = j)) as [->|Hne].
  - rewrite list_lookup_insert_eq by done. naive_solver.
  - rewrite list_lookup_insert_ne by done. naive_solver.
Qed.

Lemma replicate_flag n i : replicate n false !! i <> Some true.
Proof. intros [H _]%lookup_replicate. done. Qed.

(** The elements under a raised flag. *)
Definition picked {A} (flags : list bool) (l : list A) : list A := (List.filter fst (zip flags l)).*2.

Lemma filter_seq_S (p : nat -> bool) n : forall a, List.filter p (seq (S a) n) = S <$> List.filter (fun i => p (S i)) (seq a n).
Proof. induction n as [|n IH]; intros a; [done|]. simpl. rewrite IH. by destruct (p (S a)). Qed.

Lemma picked_indices {A} (l : list A) : forall flags,
  length flags = length l ->
  picked flags l = omap (fun i => l !! i) (List.filter (flagged flags) (seq 0 (length l))).
Proof.
  unfold picked. induction l as [|x l IH]; intros [|b flags] Hlen; try done. injection Hlen as Hlen.
  specialize (IH flags Hlen).
  assert ((List.filter fst (zip flags l)).*2 =
          omap (fun i => (x :: l) !! i) (S <$> List.filter (fun i => flagged (b :: flags) (S i)) (seq 0 (length l)))) as H.
  { rewrite IH. change (fun i => flagged (b :: flags) (S i)) with (flagged flags).
    generalize (List.filter (flagged flags) (seq 0 (length l))). intros js.
    induction js as [|i js IHi]; [done|]. csimpl. destruct (l !! i); by rewrite <- IHi. }
  change (seq 0 (length (x :: l))) with (0%nat :: seq 1 (length l)).
  destruct b; [apply (f_equal (cons x)) in H|]; rewrite <- (filter_seq_S (flagged _)) in H; exact H.
Qed.

Lemma picked_permutation {A} (flags : list bool) (l : list A) ix :
  length flags = length l -> NoDup ix -> (forall i, i ∈ ix <-> flags !! i = Some true) ->
  picked flags l ≡ₚ omap (fun i => l !! i) ix.
Proof.
  intros Hlen Hnd Hix. rewrite picked_indices by done.
  assert (List.filter (flagged flags) (seq 0 (length l)) ≡ₚ ix) as ->; [|done].
  apply NoDup_Permutation; [apply NoDup_ListNoDup, List.NoDup_filter, seq_NoDup|done|].
  intros i. rewrite Hix, list_elem_of_In, filter_In, in_seq, flagged_true. split; [tauto|]. intros H. split; [|done].
  apply lookup_lt_Some in H. lia.
Qed.

Lemma picked_split {A} (p : A -> bool) (l : list A) : forall flags,
  length flags = length l -> Forall (fun x => p x = true) (picked flags l) ->
  picked flags l ++ List.filter p (picked (negb <$> flags) l) ≡ₚ List.filter p l.
Proof.
  unfold picked. induction l as [|x l IH]; intros [|b flags] Hlen Hall; try done. injection Hlen as Hlen.
  simpl in *. destruct b; simpl in *.
  - apply Forall_cons in Hall as [Hx Hall]. rewrite Hx. constructor. by apply IH.
  - specialize (IH flags Hlen Hall). destruct (p x); [|done]. by rewrite <- Permutation_middle, IH.
Qed.

(** ** The association: what a matched track holds *)

(** What a track shows of the detection it holds. *)
Definition Seen : Type := string * BBox * f32.
Definition t_seen (t : TrackState) : Seen := (t_label t, t_bbox t, t_confidence t).
Definition d_seen (d : Detection) : Seen := (d_label d, d_bbox d, d_confidence d).

Definition confident (cfg : ByteTrackConfig) (d : Detection) : bool := negb (flt (d_confidence d) (low_confidence cfg)).

(** [t] is [t0] after it took [d]. *)
Record took (cfg : ByteTrackConfig) (t0 : TrackState) (d : Detection) (t : TrackState) : Prop := {
  took_id : t_id t = t_id t0;
  took_label : t_label t = t_label t0;
  took_born : born_at t = born_at t0;
  took_seen : t_seen t = d_seen d;
  took_missed : missed_frames t = 0;
  took_life : lifecycle t = Tentative -> lifecycle t0 = Tentative;
  took_confident : confident cfg d = true;
}.

Lemma apply_match_took cfg t0 d alpha motion :
  t_label t0 = d_label d -> confident cfg d = true -> took cfg t0 d (apply_match t0 d (confirm_frames cfg) alpha motion).
Proof.
  intros Hl Hc. unfold apply_match. destruct (match_velocity t0 (d_bbox d) motion) as [[vx vy] iv].
  split; simpl; try done.
  - unfold t_seen, d_seen. simpl. by rewrite Hl.
  - by destruct (lifecycle t0).
Qed.

(** [s] is what is left of the tracks [T] and detections [D] after the matches [m]. *)
Record assoc_ok (cfg : ByteTrackConfig) (T : list TrackState) (D : list Detection) (s : Assoc) (m : list (nat * nat)) : Prop := {
  ok_tracks : length (a_tracks s) = length T;
  ok_matched : length (track_matched s) = length T;
  ok_used : length (det_used s) = length D;
  ok_seen : d_seen <$> a_dets s = d_seen <$> D;
  ok_nodup_t : NoDup m.*1;
  ok_nodup_d : NoDup m.*2;
  ok_flag_t : forall k, track_matched s !! k = Some true <-> k ∈ m.*1;
  ok_flag_d : forall i, det_used s !! i = Some true <-> i ∈ m.*2;
  ok_pair : forall k i, (k, i) ∈ m ->
    exists t0 t d, T !! k = Some t0 /\ a_tracks s !! k = Some t /\ D !! i = Some d /\ took cfg t0 d t;
  ok_rest_t : forall k, k ∉ m.*1 -> a_tracks s !! k = T !! k;
  ok_rest_d : forall i, i ∉ m.*2 -> a_dets s !! i = D !! i;
}.

Definition p_match (p : Pair) : nat * nat := (p_track p, p_det p).

(** A pair that may be matched: one label, and a detection that is confident enough. *)
Definition valid (cfg : ByteTrackConfig) (T : list TrackState) (D : list Detection) (p : Pair) : Prop :=
  exists t0 d, T !! p_track p = Some t0 /\ D !! p_det p = Some d /\ t_label t0 = d_label d /\ confident cfg d = true.

Lemma assoc_start cfg T D :
  assoc_ok cfg T D (mkAssoc T D (replicate (length D) false) (replicate (length T) false)) [].
Proof.
  split; simpl; try done; try apply length_replicate; try apply NoDup_nil_2.
  - intros k. split; [by intros ?%replicate_flag|by intros ?%not_elem_of_nil].
  - intros i. split; [by intros ?%replicate_flag|by intros ?%not_elem_of_nil].
  - intros k i. by intros ?%not_elem_of_nil.
Qed.

Section greedy.
Context (cfg : ByteTrackConfig) (alpha : f32) (motion : option Z) (T : list TrackState) (D : list Detection).

#[local] Abbreviation take := (take_pair (confirm_frames cfg) alpha motion).

Lemma take_blocked s m p :
  assoc_ok cfg T D s m -> p_track p ∈ m.*1 \/ p_det p ∈ m.*2 -> take s p = s.
Proof.
  intros Hs Hb. unfold take_pair.
  assert (flagged (track_matched s) (p_track p) || flagged (det_used s) (p_det p) = true) as ->; [|done].
  apply orb_true_iff. rewrite !flagged_true, (ok_flag_t _ _ _ _ _ Hs), (ok_flag_d _ _ _ _ _ Hs). done.
Qed.

Lemma take_free s m p :
  assoc_ok cfg T D s m -> valid cfg T D p -> p_track p ∉ m.*1 -> p_det p ∉ m.*2 ->
  assoc_ok cfg T D (take s p) (p_match p :: m).
Proof.
  intros Hs (t0 & d & Ht & Hd & Hl & Hc) Hfk Hfi. unfold take_pair.
  assert (flagged (track_matched s) (p_track p) || flagged (det_used s) (p_det p) = false) as ->.
  { apply not_true_iff_false. rewrite orb_true_iff, !flagged_true, (ok_flag_t _ _ _ _ _ Hs), (ok_flag_d _ _ _ _ _ Hs). tauto. }
  pose proof (ok_rest_t _ _ _ _ _ Hs _ Hfk) as Et. pose proof (ok_rest_d _ _ _ _ _ Hs _ Hfi) as Ed. rewrite Et, Ed, Ht, Hd.
  pose proof (lookup_lt_Some _ _ _ Ht) as Hk. pose proof (lookup_lt_Some _ _ _ Hd) as Hi.
  destruct Hs as [H1 H2 H3 H4 H5 H6 H7 H8 H9 H10 H11]. split; simpl; rewrite ?length_insert; try done.
  - rewrite list_fmap_insert, H4. apply list_insert_id. rewrite list_lookup_fmap, Hd. done.
  - by apply NoDup_cons.
  - by apply NoDup_cons.
  - intros k. rewrite insert_flag, H7, elem_of_cons by lia. done.
  - intros i. rewrite insert_flag, H8, elem_of_cons by lia. done.
  - intros k i [[= -> ->]|Hin]%elem_of_cons.
    + exists t0, (apply_match t0 d (confirm_frames cfg) alpha motion), d.
      rewrite list_lookup_insert_eq by lia. split_and!; try done. by apply apply_match_took.
    + destruct (H9 k i Hin) as (t1 & t & d' & Hx). exists t1, t, d'. rewrite list_lookup_insert_ne; [done|].
      intros E. apply Hfk. rewrite E. apply list_elem_of_fmap. by exists (k, i).
  - intros k [Hne Hk']%not_elem_of_cons. rewrite list_lookup_insert_ne by done. by apply H10.
  - intros i [Hne Hi']%not_elem_of_cons. rewrite list_lookup_insert_ne by done. by apply H11.
Qed.

(** Taking pairs in the order of [R]: every pair ends up taken, or loses its track or its
    detection to a pair that stood before it. *)
Lemma greedy (R : Pair -> Pair -> Prop) ps : forall s tk m0,
  (forall p, R p p) -> StronglySorted R ps -> Forall (valid cfg T D) ps ->
  (forall p q, p ∈ tk -> q ∈ ps -> R p q) ->
  (forall p, p ∈ ps -> p_track p ∉ m0.*1 /\ p_det p ∉ m0.*2) ->
  assoc_ok cfg T D s ((p_match <$> tk) ++ m0) ->
  exists tk', assoc_ok cfg T D (foldl take s ps) ((p_match <$> tk') ++ m0) /\
    (forall p, p ∈ tk -> p ∈ tk') /\ (forall p, p ∈ tk' -> p ∈ tk \/ p ∈ ps) /\
    (forall p, p ∈ ps -> exists q, q ∈ tk' /\ R q p /\ (p_track q = p_track p \/ p_det q = p_det p)).
Proof.
  induction ps as [|p ps IH]; intros s tk m0 Hrefl Hsort Hval Htk Hfree Hs; simpl.
  { exists tk. split_and!; [done|done|by left|]. intros q. by intros ?%not_elem_of_nil. }
  apply StronglySorted_inv in Hsort as [Hsort Hp]. apply Forall_cons in Hval as [Hv Hval]. rewrite Forall_forall in Hp.
  destruct (Hfree p) as [F1 F2]; [by left|].
  assert (forall q, q ∈ ps -> p_track q ∉ m0.*1 /\ p_det q ∉ m0.*2) as Hfree' by (intros q ?; apply Hfree; by right).
  destruct (decide (p_track p ∈ (p_match <$> tk).*1 \/ p_det p ∈ (p_match <$> tk).*2)) as [Hb|Hnb].
  - rewrite (take_blocked s _ p Hs) by (rewrite !fmap_app, !elem_of_app; tauto).
    destruct (IH s tk m0 Hrefl Hsort Hval) as (tk' & A1 & A2 & A3 & A4); [by intros; apply Htk; [|right]|done|done|].
    exists tk'. split_and!; [done|done|intros q Hq; destruct (A3 q Hq); [by left|by right; right]|].
    intros q [->|Hq]%elem_of_cons; [|by apply A4].
    assert (exists r, r ∈ tk /\ (p_track r = p_track p \/ p_det r = p_det p)) as (r & Hr & Hsh).
    { destruct Hb as [Hb|Hb]; rewrite <- list_fmap_compose in Hb; apply list_elem_of_fmap in Hb as (r & E & Hr); exists r; by auto. }
    exists r. split_and!; [by apply A2|apply Htk; [done|by left]|done].
  - assert (assoc_ok cfg T D (take s p) ((p_match <$> p :: tk) ++ m0)) as Hs'.
    { simpl. apply (take_free s); [done|done|..]; rewrite fmap_app, elem_of_app; tauto. }
    destruct (IH (take s p) (p :: tk) m0 Hrefl Hsort Hval) as (tk' & A1 & A2 & A3 & A4); [|done|done|].
    { intros a b [->|Ha]%elem_of_cons Hin; [by apply Hp|]. apply Htk; [done|by right]. }
    exists tk'. split_and!; [done|intros q ?; apply A2; by right| |].
    + intros q [[->|?]%elem_of_cons|?]%A3; [right; by left|by left|right; by right].
    + intros q [->|Hq]%elem_of_cons; [|by apply A4]. exists p. split_and!; [apply A2; by left|apply Hrefl|by left].
Qed.
End greedy.

(** ** Candidates *)

#[local] Arguments cell_of : simpl never.

Lemma build_grid_sub cell dets idx key i : i ∈ default [] (build_grid cell dets idx !! key) -> i ∈ idx.
Proof.
  unfold build_grid.
  assert (forall g, i ∈ default [] (foldl (fun (g : CellMap) i =>
    match dets !! i with
    | Some d => let key := cell_of cell (d_bbox d) in <[key := default [] (g !! key) ++ [i]]> g
    | None => g
    end) g idx !! key) -> i ∈ default [] (g !! key) \/ i ∈ idx) as H.
  { induction idx as [|j idx IH]; intros g; simpl; [by left|].
    unfold CellMap in *. intros [Hin|Hin]%IH; [|by right; right]. destruct (dets !! j) as [d|]; [|by left].
    destruct (decide (key = cell_of cell (d_bbox d))) as [->|Hne].
    - rewrite lookup_insert_eq in Hin. simpl in Hin.
      apply elem_of_app in Hin as [?|?%list_elem_of_singleton]; [by left|subst; right; by left].
    - rewrite lookup_insert_ne in Hin by done. by left. }
  intros Hin. destruct (H ∅ Hin) as [Hn|]; [|done]. unfold CellMap in Hn. rewrite lookup_empty in Hn. by apply not_elem_of_nil in Hn.
Qed.

Lemma scan_sub b dets idx t i : i ∈ scan b dets idx t -> i ∈ idx.
Proof.
  unfold scan. destruct b as [px|]; [|done]. destruct (0 <? px); [|done].
  unfold neighbours. intros (l & Hl & (dy & -> & _)%list_elem_of_fmap)%list_elem_of_join.
  apply list_elem_of_join in Hl as (l & Hi & (dx & -> & _)%list_elem_of_fmap). by eapply build_grid_sub.
Qed.

Lemma elem_of_pairs {A} (f : nat -> A -> list Pair) (l : list A) p :
  p ∈ mjoin (imap f l) <-> exists k t, l !! k = Some t /\ p ∈ f k t.
Proof.
  rewrite list_elem_of_join. split.
  - intros (q & Hp & Hq). apply elem_of_lookup_imap in Hq as (k & t & -> & Ht). by exists k, t.
  - intros (k & t & Ht & Hp). exists (f k t). split; [done|]. apply elem_of_lookup_imap. by exists k, t.
Qed.

Section candidates.
Context (cfg : ByteTrackConfig) (T : list TrackState) (D : list Detection) (s : Assoc) (m : list (nat * nat)).
Context (Hs : assoc_ok cfg T D s m).

Lemma unflagged_track k : flagged (track_matched s) k = false -> k ∉ m.*1 /\ a_tracks s !! k = T !! k.
Proof.
  intros Hf. assert (k ∉ m.*1) by (rewrite <- (ok_flag_t _ _ _ _ _ Hs), <- flagged_true; congruence).
  split; [done|by apply (ok_rest_t _ _ _ _ _ Hs)].
Qed.

Lemma unflagged_det i : flagged (det_used s) i = false -> i ∉ m.*2 /\ a_dets s !! i = D !! i.
Proof.
  intros Hf. assert (i ∉ m.*2) by (rewrite <- (ok_flag_d _ _ _ _ _ Hs), <- flagged_true; congruence).
  split; [done|by apply (ok_rest_d _ _ _ _ _ Hs)].
Qed.

(** A candidate of a pass is a pair that may be matched, of a free track and a free detection. *)
Definition candidate (p : Pair) : Prop := valid cfg T D p /\ p_track p ∉ m.*1 /\ p_det p ∉ m.*2.

Lemma iou_candidate idx threshold b p :
  (forall i d, i ∈ idx -> D !! i = Some d -> confident cfg d = true) ->
  p ∈ iou_pairs s idx threshold b -> candidate p /\ fgt (score p) fzero = true.
Proof.
  intros Hidx. unfold iou_pairs. intros (k & t & Ht & Hp)%elem_of_pairs.
  destruct (flagged (track_matched s) k) eqn:Ek; [by apply not_elem_of_nil in Hp|].
  apply list_elem_of_omap in Hp as (i & Hi%scan_sub & Hc). unfold consider in Hc.
  destruct (a_dets s !! i) as [d|] eqn:Ed; [|done]. destruct (flagged (det_used s) i) eqn:Ei; [done|].
  destruct (str_eqb (d_label d) (t_label t)) eqn:El; [|done]. simpl in Hc.
  destruct (fgt (iou (t_bbox t) (d_bbox d)) fzero) eqn:Eo; [|done].
  destruct (fge (iou (t_bbox t) (d_bbox d)) threshold); [|done]. injection Hc as <-.
  apply unflagged_track in Ek as [? Ek]. apply unflagged_det in Ei as [? Ei]. rewrite Ht in Ek. rewrite Ed in Ei.
  unfold str_eqb in El. apply bool_decide_eq_true in El.
  split; [|done]. split_and!; [|done|done]. exists t, d. split_and!; [done|done|done|by eapply Hidx].
Qed.

Lemma motion_candidate hypot now p : p ∈ motion_pairs hypot cfg now s -> candidate p.
Proof.
  unfold motion_pairs. intros (k & t & Ht & Hp)%elem_of_pairs.
  destruct (flagged (track_matched s) k) eqn:Ek; [by apply not_elem_of_nil in Hp|].
  destruct (motion_eligible hypot t now); [|by apply not_elem_of_nil in Hp].
  apply list_elem_of_omap in Hp as (i & _ & Hc). unfold consider_motion in Hc.
  destruct (a_dets s !! i) as [d|] eqn:Ed; [|done]. destruct (flagged (det_used s) i) eqn:Ei; [done|].
  destruct (flt (d_confidence d) (low_confidence cfg)) eqn:Ef; [done|].
  destruct (str_eqb (d_label d) (t_label t)) eqn:El; [|done]. simpl in Hc.
  destruct (negb (half_to_twice _) || negb (half_to_twice _)); [done|].
  destruct (center (t_bbox t)), (center (matched_bbox t)), (center (d_bbox d)).
  destruct (fle _ _ && negb _); [|done]. injection Hc as <-.
  apply unflagged_track in Ek as [? Ek]. apply unflagged_det in Ei as [? Ei]. rewrite Ht in Ek. rewrite Ed in Ei.
  unfold str_eqb in El. apply bool_decide_eq_true in El.
  split_and!; [|done|done]. exists t, d. split_and!; [done|done|done|]. unfold confident. by rewrite Ef.
Qed.
End candidates.

(** ** The passes *)

#[export] Instance best_first_comparator : Comparator best_first.
Proof.
  pose proof (flip_comparator (fun a b => total_cmp (score a) (score b)) (Comparator0 := on_comparator score total_cmp)) as H1.
  pose proof (on_comparator p_track Nat.compare) as H2. pose proof (on_comparator p_det Nat.compare) as H3.
  exact (then_comparator _ _ (Comparator0 := then_comparator _ _) (Comparator1 := H3)).
Qed.

#[export] Instance by_track_comparator : Comparator by_track.
Proof.
  pose proof (on_comparator p_track Nat.compare) as H1.
  pose proof (flip_comparator (fun a b => total_cmp (score a) (score b)) (Comparator0 := on_comparator score total_cmp)) as H2.
  exact (then_comparator _ _).
Qed.

#[export] Instance by_distance_comparator : Comparator by_distance.
Proof. exact (on_comparator score total_cmp). Qed.

Lemma not_after_refl {A} (cmp : A -> A -> comparison) `{!Comparator cmp} a : not_after cmp a a.
Proof. by destruct (not_after_total cmp a a). Qed.

Definition order_of (motion : option Z) : Pair -> Pair -> comparison :=
  match motion with Some _ => best_first | None => by_track end.

#[export] Instance order_of_comparator motion : Comparator (order_of motion).
Proof. destruct motion; apply _. Qed.

Section passes.
Context (cfg : ByteTrackConfig) (T : list TrackState) (D : list Detection).

(** Sorting the candidates by a comparator and taking them greedily. *)
Lemma greedy_sorted motion (cmp : Pair -> Pair -> comparison) `{!Comparator cmp} ps s m :
  assoc_ok cfg T D s m -> (forall p, p ∈ ps -> candidate cfg T D m p) ->
  exists tk,
    assoc_ok cfg T D
      (foldl (take_pair (confirm_frames cfg) (display_smoothing_alpha cfg) motion) s (sort_by cmp ps)) ((p_match <$> tk) ++ m) /\
    (forall p, p ∈ tk -> p ∈ ps) /\
    (forall p, p ∈ ps -> exists q, q ∈ tk /\ not_after cmp q p /\ (p_track q = p_track p \/ p_det q = p_det p)).
Proof.
  intros Hs Hps.
  destruct (greedy cfg (display_smoothing_alpha cfg) motion T D (not_after cmp) (sort_by cmp ps) s [] m) as (tk & A1 & _ & A3 & A4).
  - intros p. by apply not_after_refl.
  - apply sort_by_sorted. apply _.
  - rewrite sort_by_permutation, Forall_forall. intros p Hp. by apply Hps.
  - intros p q. by intros ?%not_elem_of_nil.
  - intros p. rewrite sort_by_permutation. intros Hp. by apply Hps.
  - done.
  - exists tk. split_and!; [done| |].
    + intros p Hp. destruct (A3 p Hp) as [?%not_elem_of_nil|Hin]; [done|]. by rewrite sort_by_permutation in Hin.
    + intros p Hp. apply A4. by rewrite sort_by_permutation.
Qed.

Definition confident_at (idx : list nat) : Prop := forall i d, i ∈ idx -> D !! i = Some d -> confident cfg d = true.

Lemma pass_ok motion idx s m :
  confident_at idx -> assoc_ok cfg T D s m ->
  let ps := iou_pairs s idx (match_iou_threshold cfg) (spatial_bucket_size_px cfg) in
  exists tk, assoc_ok cfg T D (associate_pass cfg idx motion s) ((p_match <$> tk) ++ m) /\
    (forall p, p ∈ tk -> p ∈ ps) /\
    (forall p, p ∈ ps -> exists q, q ∈ tk /\ not_after (order_of motion) q p /\ (p_track q = p_track p \/ p_det q = p_det p)).
Proof.
  intros Hidx Hs ps. pose proof (greedy_sorted motion (order_of motion) ps s m Hs) as H.
  destruct H as (tk & H); [intros p Hp; by eapply iou_candidate|]. exists tk.
  unfold associate_pass. by destruct motion.
Qed.

Lemma bucket_at p idx : idx = bucket p D -> (forall d, p d = true -> confident cfg d = true) -> confident_at idx.
Proof.
  intros -> Hp i d Hi Hd. apply list_elem_of_In, filter_In in Hi as [_ Hi]. rewrite Hd in Hi. by apply Hp.
Qed.
End passes.

Lemma high_confident cfg d :
  fle (low_confidence cfg) (high_confidence cfg) = true -> is_high cfg d = true -> confident cfg d = true.
Proof. intros Hc Hd. unfold confident. rewrite fle_not_flt; [done|]. by eapply fle_trans. Qed.

Lemma low_confident cfg d : is_low cfg d = true -> confident cfg d = true.
Proof. unfold is_low, confident. intros [_ Hd]%andb_true_iff. by rewrite fle_not_flt. Qed.

Definition predicted (hypot : f32 -> f32 -> f32) (cfg : ByteTrackConfig) (now : Z) (st : ByteTrackState) : list TrackState :=
  map (predict_track hypot (motion_of cfg now)
    match last_update st with Some prev => as_secs_f32 (sat_sub now prev) | None => fzero end) (tracks st).

Lemma associate_ok hypot cfg D now st :
  fle (low_confidence cfg) (high_confidence cfg) = true ->
  exists m, assoc_ok cfg (predicted hypot cfg now st) D (associate hypot cfg D now st) m.
Proof.
  intros Hc. unfold associate. fold (predicted hypot cfg now st). set (T := predicted hypot cfg now st).
  pose proof (bucket_at cfg D _ _ eq_refl (fun d => high_confident cfg d Hc)) as Hh.
  pose proof (bucket_at cfg D _ _ eq_refl (low_confident cfg)) as Hl.
  destruct (pass_ok cfg T D (motion_of cfg now) _ _ _ Hh (assoc_start cfg T D)) as (tk1 & H1 & _).
  destruct (pass_ok cfg T D (motion_of cfg now) _ _ _ Hl H1) as (tk2 & H2 & _).
  destruct (motion_of cfg now) as [n|]; [|by eexists].
  edestruct (greedy_sorted cfg T D (Some now) by_distance) as (tk3 & H3 & _); [exact H2| |eexists; exact H3].
  intros p Hp. by eapply motion_candidate.
Qed.

(** ** The frame's tracks *)

(** All tracks of the frame before the stale ones are retired. *)
Definition frame_tracks (cfg : ByteTrackConfig) (now id : Z) (s : Assoc) : list TrackState :=
  zip_with (age_track now) (track_matched s) (a_tracks s) ++ (spawn cfg now id (a_dets s) (det_used s)).2.

Lemma update_tracks hypot cfg D now st :
  let s := associate hypot cfg D now st in
  let kept := List.filter (keep_track cfg) (frame_tracks cfg now (next_id st) s) in
  update hypot cfg D now st =
    (mkState (spawn cfg now (next_id st) (a_dets s) (det_used s)).1 (map emptied kept) (Some now),
     map (emit now) (List.filter is_emitted kept)).
Proof. unfold update, frame_tracks. by destruct (spawn _ _ _ _ _) as [next fresh]. Qed.

(** A track keeps its identity while it lives. *)
Record same_track (t0 t : TrackState) : Prop := {
  same_id : t_id t = t_id t0;
  same_label : t_label t = t_label t0;
  same_born : born_at t = born_at t0;
  same_life : lifecycle t = Tentative -> lifecycle t0 = Tentative;
}.

Lemma age_track_same now b t0 t : same_track t0 t -> same_track t0 (age_track now b t).
Proof. intros [H1 H2 H3 H4]. destruct b; split; simpl; try done. by destruct (decide _). Qed.

Section frame.
Context (cfg : ByteTrackConfig) (T : list TrackState) (D : list Detection) (s : Assoc) (m : list (nat * nat)).
Context (Hs : assoc_ok cfg T D s m).
Context (HT : Forall (fun t => 0 <= missed_frames t) T).

Lemma assoc_track k t :
  a_tracks s !! k = Some t ->
  exists t0, T !! k = Some t0 /\ same_track t0 t /\
    (if flagged (track_matched s) k then missed_frames t = 0 else t = t0).
Proof.
  intros Ht. destruct (flagged (track_matched s) k) eqn:Ek.
  - apply flagged_true, (ok_flag_t _ _ _ _ _ Hs), list_elem_of_fmap in Ek as ([k' i] & -> & Hin).
    destruct (ok_pair _ _ _ _ _ Hs _ _ Hin) as (t0 & t' & d & H1 & H2 & H3 & [? ? ? ? ? ? ?]). simpl in *.
    simplify_eq. exists t0. split_and!; [done|by split|done].
  - apply (unflagged_track cfg T D s m Hs) in Ek as [_ Ek]. rewrite Ht in Ek. exists t. by split_and!.
Qed.

Lemma aged_tracks now :
  Forall2 (fun t0 t => same_track t0 t /\ 0 <= missed_frames t) T (zip_with (age_track now) (track_matched s) (a_tracks s)).
Proof.
  apply Forall2_same_length_lookup. split.
  { rewrite length_zip_with, (ok_matched _ _ _ _ _ Hs), (ok_tracks _ _ _ _ _ Hs). lia. }
  intros k t0 t Ht0 Ht. apply lookup_zip_with_Some in Ht as (b & t1 & -> & Hb & Ht1).
  destruct (assoc_track k t1 Ht1) as (t0' & H0 & Hsame & Hm). assert (t0' = t0) as -> by congruence.
  split; [by apply age_track_same|]. unfold flagged in Hm. rewrite Hb in Hm. simpl in Hm.
  rewrite Forall_forall in HT. assert (0 <= missed_frames t0) by (apply HT; by eapply list_elem_of_lookup_2).
  destruct b; simpl; subst; [lia|]. unfold usat_add, umax. lia.
Qed.

Lemma seen_filter now flags l :
  Forall2 (fun (b : bool) t => if b then missed_frames t = 0 else 0 <= missed_frames t) flags l ->
  t_seen <$> List.filter (fun t => missed_frames t =? 0) (zip_with (age_track now) flags l) = t_seen <$> picked flags l.
Proof.
  unfold picked. induction 1 as [|b t flags l Hb H IH]; [done|]. simpl. destruct b; simpl.
  - rewrite Hb. simpl. by f_equal.
  - assert (usat_add 32 (missed_frames t) 1 =? 0 = false) as -> by (unfold usat_add, umax; lia). done.
Qed.

Lemma matched_seen now :
  t_seen <$> List.filter (fun t => missed_frames t =? 0) (zip_with (age_track now) (track_matched s) (a_tracks s)) ≡ₚ
  picked (det_used s) (d_seen <$> D).
Proof.
  rewrite seen_filter.
  2:{ apply Forall2_same_length_lookup. split; [by rewrite (ok_matched _ _ _ _ _ Hs), (ok_tracks _ _ _ _ _ Hs)|].
      intros k b t Hb Ht. destruct (assoc_track k t Ht) as (t0 & H0 & _ & Hm). unfold flagged in Hm. rewrite Hb in Hm.
      destruct b; simpl in Hm; [done|]. subst. rewrite Forall_forall in HT. apply HT. by eapply list_elem_of_lookup_2. }
  rewrite (picked_permutation _ _ m.*1); [|by rewrite (ok_matched _ _ _ _ _ Hs), (ok_tracks _ _ _ _ _ Hs)|
    by apply (ok_nodup_t _ _ _ _ _ Hs)|intros k; by rewrite (ok_flag_t _ _ _ _ _ Hs)].
  rewrite (picked_permutation _ _ m.*2); [|by rewrite (ok_used _ _ _ _ _ Hs), length_fmap|
    by apply (ok_nodup_d _ _ _ _ _ Hs)|intros i; by rewrite (ok_flag_d _ _ _ _ _ Hs)].
  pose proof (ok_pair _ _ _ _ _ Hs) as Hp. clear HT. revert Hp. generalize m. intros l Hp.
  induction l as [|[k i] l IH]; [done|]. csimpl.
  destruct (Hp k i ltac:(by left)) as (t0 & t & d & _ & Ht & Hd & Hk). rewrite Ht, list_lookup_fmap, Hd. csimpl.
  rewrite (took_seen _ _ _ _ Hk), IH; [done|]. intros k' i' Hin. apply Hp. by right.
Qed.
End frame.

(** ** New tracks *)

Definition seen_confident (cfg : ByteTrackConfig) (x : Seen) : bool := negb (flt x.2 (low_confidence cfg)).

Lemma spawn_seen cfg now dets : forall id used,
  length used = length dets ->
  t_seen <$> (spawn cfg now id dets used).2 = List.filter (seen_confident cfg) (picked (negb <$> used) (d_seen <$> dets)).
Proof.
  unfold picked. induction dets as [|d dets IH]; intros id [|u used] Hlen; try done. injection Hlen as Hlen. simpl.
  destruct u; simpl; [by apply IH|]. unfold seen_confident at 1. simpl.
  destruct (flt (d_confidence d) (low_confidence cfg)) eqn:E; simpl; [by apply IH|].
  specialize (IH ((id + 1) mod 2 ^ 64) used Hlen). destruct (spawn _ _ _ dets used) as [id' l]. simpl in *. f_equal. exact IH.
Qed.

Lemma spawn_born cfg now dets : forall id used,
  Forall (fun t => missed_frames t = 0 /\ born_at t = now /\ (lifecycle t = Tentative -> 1 < confirm_frames cfg))
    (spawn cfg now id dets used).2.
Proof.
  induction dets as [|d dets IH]; intros id [|u used]; try by constructor. simpl.
  destruct (u || _); [apply IH|]. specialize (IH ((id + 1) mod 2 ^ 64) used). destruct (spawn _ _ _ dets used) as [id' l].
  constructor; [|done]. simpl. split_and!; [done|done|]. destruct (Z.leb_spec (confirm_frames cfg) 1); [done|lia].
Qed.

(** Ids are handed out in order, from [id] up. *)
Lemma spawn_ids cfg now dets : forall id used,
  0 <= id -> id + zlength dets < 2 ^ 64 ->
  let r := spawn cfg now id dets used in
  t_id <$> r.2 = seqZ id (zlength r.2) /\ r.1 = id + zlength r.2 /\ zlength r.2 <= zlength dets.
Proof.
  unfold zlength. induction dets as [|d dets IH]; intros id [|u used] Hid Hb; simpl in *; [split_and!; simpl; [done|lia|lia]..|].
  destruct (u || _).
  { destruct (IH id used) as (H1 & H2 & H3); [lia|lia|]. split_and!; [done|done|lia]. }
  rewrite Z.mod_small by lia. destruct (IH (id + 1) used) as (H1 & H2 & H3); [lia|lia|].
  destruct (spawn cfg now (id + 1) dets used) as [id' l]. csimpl in *.
  split_and!; [|lia|lia]. rewrite H1, (seqZ_cons id) by lia. f_equal. f_equal; lia.
Qed.

(** ** What a frame reports *)

(** The detections that the emitted objects carry. *)
Definition seen_objects (out : list TrackedObject) : list Seen :=
  omap (fun o => (fun b => (o_label o, b, confidence o)) <$> detection_bbox o) out.

Definition on_frame (t : TrackState) : bool := missed_frames t =? 0.

Lemma seen_emitted now l : seen_objects (map (emit now) l) = t_seen <$> List.filter on_frame l.
Proof.
  unfold seen_objects, on_frame. induction l as [|t l IH]; [done|]. csimpl.
  destruct (missed_frames t =? 0); csimpl; by rewrite IH.
Qed.

(** The bounds on misses that every stored track obeys, and the shortcut of [confirm_frames <= 1]. *)
Definition track_ok (cfg : ByteTrackConfig) (t : TrackState) : Prop :=
  0 <= missed_frames t /\ keep_track cfg t = true /\ (confirm_frames cfg <= 1 -> lifecycle t <> Tentative).

Lemma predicted_ok hypot cfg now st :
  Forall (track_ok cfg) (tracks st) -> Forall (fun t => 0 <= missed_frames t) (predicted hypot cfg now st).
Proof. intros H. apply Forall_map. eapply Forall_impl; [exact H|]. by intros t (? & _). Qed.

Lemma frame_tracks_ok hypot cfg D now st :
  fle (low_confidence cfg) (high_confidence cfg) = true -> Forall (track_ok cfg) (tracks st) ->
  Forall (fun t => 0 <= missed_frames t /\ (confirm_frames cfg <= 1 -> lifecycle t <> Tentative))
    (frame_tracks cfg now (next_id st) (associate hypot cfg D now st)).
Proof.
  intros Hc Hst. destruct (associate_ok hypot cfg D now st Hc) as [m Hs].
  pose proof (aged_tracks cfg _ D _ m Hs (predicted_ok hypot cfg now st Hst) now) as Ha.
  apply Forall_app. split.
  - assert (Forall (fun t0 => confirm_frames cfg <= 1 -> lifecycle t0 <> Tentative) (predicted hypot cfg now st)) as HT.
    { apply Forall_map. eapply Forall_impl; [exact Hst|]. by intros t (_ & _ & ?). }
    eapply Forall2_Forall_r; [exact Ha|]. eapply Forall_impl; [exact HT|]. intros t0 Ht0 t [[_ _ _ Hl] Hm]. split; [done|].
    intros Hcf E. by apply (Ht0 Hcf), Hl.
  - eapply Forall_impl; [apply spawn_born|]. intros t (-> & _ & Hl). split; [done|]. intros Hcf E. specialize (Hl E). lia.
Qed.

Lemma update_track_ok hypot cfg D now st :
  fle (low_confidence cfg) (high_confidence cfg) = true -> Forall (track_ok cfg) (tracks st) ->
  Forall (track_ok cfg) (tracks (update hypot cfg D now st).1).
Proof.
  intros Hc Hst. rewrite update_tracks. simpl. pose proof (frame_tracks_ok hypot cfg D now st Hc Hst) as H.
  apply Forall_map, Forall_forall. intros t [Hin Hk]%list_elem_of_In%filter_In.
  rewrite Forall_forall in H. destruct (H t) as [H1 H2]; [by apply list_elem_of_In|].
  unfold track_ok, emptied. by destruct (is_emitted t).
Qed.

Lemma reachable_track_ok hypot cfg frames :
  fle (low_confidence cfg) (high_confidence cfg) = true ->
  Forall (track_ok cfg) (tracks (mrun (H:=bytetrack_machine hypot cfg) frames new).1).
Proof.
  intros Hc. apply (mrun_invariant (fun _ => True)); [|by apply Forall_true|constructor].
  intros op st _ Hst. by apply update_track_ok.
Qed.

(** Every confident detection is in exactly one of the frame's tracks. *)
Lemma frame_tracks_seen hypot cfg D now st :
  fle (low_confidence cfg) (high_confidence cfg) = true -> Forall (track_ok cfg) (tracks st) ->
  t_seen <$> List.filter on_frame (frame_tracks cfg now (next_id st) (associate hypot cfg D now st)) ≡ₚ
  List.filter (seen_confident cfg) (d_seen <$> D).
Proof.
  intros Hc Hst. destruct (associate_ok hypot cfg D now st Hc) as [m Hs]. unfold frame_tracks.
  rewrite List.filter_app, fmap_app.
  rewrite (matched_seen cfg _ D _ m Hs (predicted_ok hypot cfg now st Hst)).
  assert (List.filter on_frame (spawn cfg now (next_id st) (a_dets (associate hypot cfg D now st))
            (det_used (associate hypot cfg D now st))).2 = (spawn cfg now (next_id st) (a_dets (associate hypot cfg D now st))
            (det_used (associate hypot cfg D now st))).2) as ->.
  { apply forallb_filter_id, forallb_forall. intros t Ht%list_elem_of_In. pose proof (spawn_born cfg now (a_dets (associate hypot cfg D now st)) (next_id st) (det_used (associate hypot cfg D now st))) as Hb.
    rewrite Forall_forall in Hb. destruct (Hb t Ht) as [E _]. unfold on_frame. by rewrite E. }
  pose proof (ok_seen _ _ _ _ _ Hs) as Hseen.
  rewrite spawn_seen, Hseen.
  2:{ rewrite (ok_used _ _ _ _ _ Hs), <- (length_fmap d_seen D), <- Hseen. apply length_fmap. }
  apply picked_split; [by rewrite (ok_used _ _ _ _ _ Hs), length_fmap|].
  rewrite (picked_permutation _ _ m.*2); [|by rewrite (ok_used _ _ _ _ _ Hs), length_fmap|
    by apply (ok_nodup_d _ _ _ _ _ Hs)|intros i; by rewrite (ok_flag_d _ _ _ _ _ Hs)].
  apply Forall_forall. intros x (i & ([k i'] & -> & Hin)%list_elem_of_fmap & Hx)%list_elem_of_omap.
  destruct (ok_pair _ _ _ _ _ Hs k i' Hin) as (t0 & t & d & _ & _ & Hd & Hk). simpl in Hx.
  rewrite list_lookup_fmap, Hd in Hx. injection Hx as <-. exact (took_confident _ _ _ _ Hk).
Qed.

Lemma filter_partition {A} (p : A -> bool) (l : list A) : List.filter p l ++ List.filter (fun x => negb (p x)) l ≡ₚ l.
Proof. induction l as [|x l IH]; [done|]. simpl. destruct (p x); simpl; [by constructor|]. by rewrite <- Permutation_middle, IH. Qed.

(** Only [q], of three filters, matters where [p] implies [k]. *)
Lemma filter_through {A} (p q k : A -> bool) (l : list A) :
  (forall x, p x = true -> k x = true) ->
  List.filter p (List.filter q (List.filter k l)) = List.filter q (List.filter p l).
Proof.
  intros H. induction l as [|x l IH]; [done|]. simpl. specialize (H x).
  destruct (k x), (p x) eqn:Ep; simpl; destruct (q x) eqn:Eq; simpl; rewrite ?Ep, ?Eq; try by rewrite ?IH.
  all: discriminate (H eq_refl).
Qed.

Lemma emitted_seen hypot cfg D now st :
  0 <= max_lost_frames cfg -> 0 <= tentative_max_missed_frames cfg ->
  seen_objects (update hypot cfg D now st).2 =
  t_seen <$> List.filter is_emitted (List.filter on_frame (frame_tracks cfg now (next_id st) (associate hypot cfg D now st))).
Proof.
  intros H1 H2. rewrite update_tracks. simpl. rewrite seen_emitted, filter_through; [done|].
  unfold on_frame, keep_track. intros t ->%Z.eqb_eq. destruct (lifecycle t); lia.
Qed.

Lemma report_spec hypot cfg D now st :
  fle (low_confidence cfg) (high_confidence cfg) = true ->
  0 <= max_lost_frames cfg -> 0 <= tentative_max_missed_frames cfg -> Forall (track_ok cfg) (tracks st) ->
  let seen := seen_objects (update hypot cfg D now st).2 in
  let expected := List.filter (seen_confident cfg) (d_seen <$> D) in
  (exists unconfirmed, seen ++ unconfirmed ≡ₚ expected) /\ (confirm_frames cfg <= 1 -> seen ≡ₚ expected).
Proof.
  intros Hc H1 H2 Hst seen expected.
  pose proof (frame_tracks_seen hypot cfg D now st Hc Hst) as Hexp. unfold seen, expected. rewrite emitted_seen by done.
  set (X := frame_tracks _ _ _ _) in *. split.
  - exists (t_seen <$> List.filter (fun t => negb (is_emitted t)) (List.filter on_frame X)).
    rewrite <- Hexp, <- fmap_app. apply fmap_Permutation, filter_partition.
  - intros Hcf. pose proof (frame_tracks_ok hypot cfg D now st Hc Hst) as HX. fold X in HX.
    assert (List.filter is_emitted (List.filter on_frame X) = List.filter on_frame X) as ->; [|exact Hexp].
    apply forallb_filter_id, forallb_forall. intros t [Ht _]%filter_In. rewrite Forall_forall in HX.
    destruct (HX t) as [_ Hl]; [by apply list_elem_of_In|]. specialize (Hl Hcf). unfold is_emitted. by destruct (lifecycle t).
Qed.

(** A frame reports its detections: the objects that carry a raw box carry, with label and
    confidence, those of the confident detections of this very frame, each at most once and
    nothing else; when tracks are confirmed at once ([confirm_frames <= 1], the default), every
    confident detection is reported exactly once. Whatever the earlier frames were. *)
Lemma detections_reported_once hypot cfg frames D now :
  fle (low_confidence cfg) (high_confidence cfg) = true ->
  0 <= max_lost_frames cfg -> 0 <= tentative_max_missed_frames cfg ->
  let st := (mrun (H:=bytetrack_machine hypot cfg) frames new).1 in
  let seen := seen_objects (update hypot cfg D now st).2 in
  let expected := List.filter (seen_confident cfg) (d_seen <$> D) in
  (exists unconfirmed, seen ++ unconfirmed ≡ₚ expected) /\ (confirm_frames cfg <= 1 -> seen ≡ₚ expected).
Proof. intros Hc H1 H2 st. apply report_spec; [done..|]. by apply reachable_track_ok. Qed.

(** ** Identity *)

Record ids_ok (st : ByteTrackState) : Prop := {
  ids_nodup : NoDup (t_id <$> tracks st);
  ids_below : Forall (fun t => t_id t < next_id st) (tracks st);
  ids_next : 0 <= next_id st;
}.

(** Labels and births by id. *)
Definition Register : Type := Z -> string * Z.
Definition agrees (g : Register) (t : TrackState) : Prop := g (t_id t) = (t_label t, born_at t).

Definition enrol (g : Register) (next : Z) (fresh : list TrackState) : Register := fun id =>
  if id <? next then g id
  else match List.find (fun t => t_id t =? id) fresh with Some t => (t_label t, born_at t) | None => g id end.

Lemma find_by_id (l : list TrackState) t :
  NoDup (t_id <$> l) -> t ∈ l -> List.find (fun x => t_id x =? t_id t) l = Some t.
Proof.
  induction l as [|y l IH]; [by intros _ ?%not_elem_of_nil|]. csimpl. intros [Hy Hnd]%NoDup_cons Hin. simpl.
  destruct (Z.eqb_spec (t_id y) (t_id t)) as [E|E].
  - apply elem_of_cons in Hin as [->|Hin]; [done|]. destruct Hy. rewrite E. by apply list_elem_of_fmap_2.
  - apply elem_of_cons in Hin as [->|Hin]; [done|]. by apply IH.
Qed.

Lemma enrolled g next fresh t :
  NoDup (t_id <$> fresh) -> Forall (fun t => next <= t_id t) fresh -> t ∈ fresh -> agrees (enrol g next fresh) t.
Proof.
  intros Hnd Hall Hin. unfold agrees, enrol. rewrite Forall_forall in Hall. specialize (Hall t Hin).
  destruct (Z.ltb_spec (t_id t) next); [lia|]. by rewrite find_by_id.
Qed.

Section identity.
Context (hypot : f32 -> f32 -> f32) (cfg : ByteTrackConfig).
Context (Hcfg : fle (low_confidence cfg) (high_confidence cfg) = true).

Lemma aged_same D now st :
  Forall (track_ok cfg) (tracks st) ->
  let s := associate hypot cfg D now st in
  Forall2 same_track (tracks st) (zip_with (age_track now) (track_matched s) (a_tracks s)).
Proof.
  intros Hst s. destruct (associate_ok hypot cfg D now st Hcfg) as [m Hs].
  pose proof (aged_tracks cfg _ D _ m Hs (predicted_ok hypot cfg now st Hst) now) as Ha.
  unfold predicted in Ha. apply Forall2_fmap_l in Ha. eapply Forall2_impl; [exact Ha|].
  by intros t0 t [[? ? ? ?] _].
Qed.

(** One frame: ids stay unique and the register grows at its end. *)
Lemma frame_identity D now st g :
  ids_ok st -> Forall (track_ok cfg) (tracks st) -> Forall (agrees g) (tracks st) ->
  next_id st + zlength D < 2 ^ 64 ->
  let X := frame_tracks cfg now (next_id st) (associate hypot cfg D now st) in
  let next := next_id (update hypot cfg D now st).1 in
  NoDup (t_id <$> X) /\ Forall (fun t => t_id t < next) X /\ next_id st <= next <= next_id st + zlength D /\
  exists g', (forall id, id < next_id st -> g' id = g id) /\ Forall (agrees g') X.
Proof.
  intros [Hnd Hlt Hpos] Hst Hg Hb X next. unfold next. rewrite update_tracks. simpl. unfold X, frame_tracks.
  pose proof (aged_same D now st Hst) as Ha. simpl in Ha. set (s := associate hypot cfg D now st) in *.
  assert (length (a_dets s) = length D) as Elen.
  { destruct (associate_ok hypot cfg D now st Hcfg) as [m Hs]. fold s in Hs.
    rewrite <- (length_fmap d_seen), (ok_seen _ _ _ _ _ Hs). apply length_fmap. }
  destruct (spawn_ids cfg now (a_dets s) (next_id st) (det_used s) Hpos) as (I1 & I2 & I3); [unfold zlength in *; lia|].
  set (fresh := spawn cfg now (next_id st) (a_dets s) (det_used s)) in *.
  assert (zlength (a_dets s) = zlength D) as Ez by (unfold zlength; lia). rewrite Ez in I3.
  set (aged := zip_with (age_track now) (track_matched s) (a_tracks s)) in *.
  assert (t_id <$> aged = t_id <$> tracks st) as Eids.
  { clear -Ha. induction Ha as [|t0 t l l' [] _ IH]; [done|]. csimpl. by f_equal. }
  assert (Forall (fun t => t_id t < next_id st) aged) as Hlt'.
  { eapply Forall2_Forall_r; [exact Ha|]. eapply Forall_impl; [exact Hlt|]. simpl. intros t0 Ht t [E _ _ _]. lia. }
  assert (Forall (fun t => next_id st <= t_id t < next_id st + zlength fresh.2) fresh.2) as Hf.
  { apply Forall_forall. intros t Ht. apply (list_elem_of_fmap_2 t_id) in Ht. rewrite I1 in Ht. apply elem_of_seqZ in Ht. lia. }
  assert (NoDup (t_id <$> fresh.2)) as Hndf by (rewrite I1; apply NoDup_seqZ).
  split_and!; [| |unfold zlength in *; lia|lia|].
  - rewrite fmap_app, Eids. apply NoDup_app. split_and!; [done| |done].
    intros id (t & -> & Ht)%list_elem_of_fmap (t' & E & Ht')%list_elem_of_fmap.
    rewrite Forall_forall in Hlt, Hf. specialize (Hlt t Ht). specialize (Hf t' Ht'). lia.
  - rewrite I2. apply Forall_app. split.
    + eapply Forall_impl; [exact Hlt'|]. simpl. intros t. unfold zlength in *. lia.
    + eapply Forall_impl; [exact Hf|]. simpl. lia.
  - exists (enrol g (next_id st) fresh.2). split; [intros id Hid; unfold enrol; destruct (Z.ltb_spec id (next_id st)); [done|lia]|].
    apply Forall_app. split.
    + eapply Forall2_Forall_r; [exact Ha|]. apply Forall_forall. intros t0 Ht0 t [E1 E2 E3 _].
      rewrite Forall_forall in Hg, Hlt. specialize (Hg t0 Ht0). specialize (Hlt t0 Ht0). unfold agrees, enrol in *.
      rewrite E1, E2, E3. destruct (Z.ltb_spec (t_id t0) (next_id st)); [exact Hg|lia].
    + apply Forall_forall. intros t Ht. apply enrolled; [done| |done]. eapply Forall_impl; [exact Hf|]. simpl. lia.
Qed.
End identity.

Lemma emptied_same t : t_id (emptied t) = t_id t /\ t_label (emptied t) = t_label t /\ born_at (emptied t) = born_at t.
Proof. unfold emptied. by destruct (is_emitted t). Qed.

(** What the register says of the objects of one frame. *)
Definition named (g : Register) (now : Z) (o : TrackedObject) : Prop :=
  o_label o = (g (o_track_id o)).1 /\ age_ms o = as_millis (sat_sub now (g (o_track_id o)).2) mod 2 ^ 64.

Section identity_runs.
Context (hypot : f32 -> f32 -> f32) (cfg : ByteTrackConfig).
Context (Hcfg : fle (low_confidence cfg) (high_confidence cfg) = true).

Lemma update_identity D now st g :
  ids_ok st -> Forall (track_ok cfg) (tracks st) -> Forall (agrees g) (tracks st) ->
  next_id st + zlength D < 2 ^ 64 ->
  let r := update hypot cfg D now st in
  ids_ok r.1 /\ next_id st <= next_id r.1 <= next_id st + zlength D /\
  exists g', (forall id, id < next_id st -> g' id = g id) /\ Forall (agrees g') (tracks r.1) /\
    NoDup (o_track_id <$> r.2) /\ (forall o, o ∈ r.2 -> o_track_id o < next_id r.1 /\ named g' now o).
Proof.
  intros Hids Hst Hg Hb r. destruct (frame_identity hypot cfg Hcfg D now st g Hids Hst Hg Hb) as (Hnd & Hlt & Hn & g' & Hg' & Hag).
  unfold r. rewrite update_tracks in *. simpl in *. set (X := frame_tracks _ _ _ _) in *.
  assert (t_id <$> map emptied (List.filter (keep_track cfg) X) = t_id <$> List.filter (keep_track cfg) X) as Eid.
  { rewrite <- list_fmap_compose. apply list_fmap_ext. intros i t _. simpl. by destruct (emptied_same t). }
  assert (forall p (l : list TrackState), NoDup (t_id <$> l) -> NoDup (t_id <$> List.filter p l)) as Hfilter.
  { intros p l. induction l as [|t l IH]; [done|]. csimpl. intros [Hx Hl]%NoDup_cons. destruct (p t); [|by apply IH].
    csimpl. apply NoDup_cons. split; [|by apply IH]. intros (y & E & [Hy _]%list_elem_of_In%filter_In)%list_elem_of_fmap.
    apply Hx. rewrite E. apply list_elem_of_fmap_2. by apply list_elem_of_In. }
  rewrite Forall_forall in Hlt, Hag. split_and!; [split; simpl|lia|lia|exists g'; split_and!; [done|..]].
  - rewrite Eid. by apply Hfilter.
  - apply Forall_map, Forall_forall. intros t [Ht _]%list_elem_of_In%filter_In. destruct (emptied_same t) as (-> & _).
    by apply Hlt, list_elem_of_In.
  - pose proof (ids_next _ Hids). lia.
  - apply Forall_map, Forall_forall. intros t [Ht _]%list_elem_of_In%filter_In. unfold agrees.
    destruct (emptied_same t) as (-> & -> & ->). by apply Hag, list_elem_of_In.
  - rewrite <- list_fmap_compose. change (o_track_id ∘ emit now) with t_id. by apply Hfilter, Hfilter.
  - intros o (t & -> & [[Ht _]%filter_In _]%list_elem_of_In%filter_In)%list_elem_of_fmap. apply list_elem_of_In in Ht.
    split; [by apply Hlt|]. specialize (Hag t Ht). unfold agrees in Hag. unfold named. simpl. by rewrite Hag.
Qed.

Lemma run_identity frames : forall st g,
  ids_ok st -> Forall (track_ok cfg) (tracks st) -> Forall (agrees g) (tracks st) ->
  next_id st + zlength (mjoin frames.*1) < 2 ^ 64 ->
  exists g', (forall id, id < next_id st -> g' id = g id) /\
    Forall2 (fun frame out => NoDup (o_track_id <$> out) /\ Forall (named g' frame.2) out)
      frames (mrun (H:=bytetrack_machine hypot cfg) frames st).2.
Proof.
  induction frames as [|[D now] frames IH]; intros st g Hids Hst Hg Hb; [by exists g|].
  assert (zlength (mjoin ((D, now) :: frames).*1) = zlength D + zlength (mjoin frames.*1)) as Ez.
  { unfold zlength. csimpl. rewrite length_app. lia. }
  rewrite Ez in Hb. assert (0 <= zlength (mjoin frames.*1)) by (unfold zlength; lia).
  destruct (update_identity D now st g Hids Hst Hg ltac:(lia)) as (Hids' & Hn & g1 & Hg1 & Hag & Hnd & Ho).
  pose proof (update_track_ok hypot cfg D now st Hcfg Hst) as Hst'.
  destruct (IH _ g1 Hids' Hst' Hag ltac:(lia)) as (g2 & Hg2 & Hrun).
  exists g2. split; [intros id Hid; rewrite Hg2 by lia; by apply Hg1|].
  rewrite mrun_cons. constructor; [|exact Hrun]. simpl. split; [done|]. apply Forall_forall. intros o Hin.
  destruct (Ho o Hin) as [Hlt Hname]. unfold named in *. by rewrite Hg2.
Qed.
End identity_runs.

(** C37. An id is one object: over any sequence of frames (of fewer than 2^64 detections) there is
    one label and one birth per id, such that every emitted object has the label of its id and
    the age since its birth, and no frame emits an id twice. A lost and dropped track's id never
    names anything else. *)
Theorem id_is_one_object hypot cfg frames :
  fle (low_confidence cfg) (high_confidence cfg) = true -> 1 + zlength (mjoin frames.*1) < 2 ^ 64 ->
  exists g : Register,
    Forall2 (fun frame out => NoDup (o_track_id <$> out) /\ Forall (named g frame.2) out)
      frames (mrun (H:=bytetrack_machine hypot cfg) frames new).2.
Proof.
  intros Hc Hb. destruct (run_identity hypot cfg Hc frames new (fun _ => ("", 0))) as (g & _ & H).
  - split; [constructor|constructor|done].
  - constructor.
  - constructor.
  - exact Hb.
  - by exists g.
Qed.

(** ** Silence *)

Lemma no_detections hypot cfg now st :
  fle (low_confidence cfg) (high_confidence cfg) = true -> Forall (track_ok cfg) (tracks st) ->
  Forall2 (fun t0 t => missed_frames t = usat_add 32 (missed_frames t0) 1)
    (tracks st) (frame_tracks cfg now (next_id st) (associate hypot cfg [] now st)).
Proof.
  intros Hc Hst. destruct (associate_ok hypot cfg [] now st Hc) as [m Hs]. unfold frame_tracks.
  pose proof (ok_seen _ _ _ _ _ Hs) as He. destruct (a_dets (associate hypot cfg [] now st)) as [|? ?]; [|done].
  simpl. rewrite app_nil_r.
  assert (m = []) as ->.
  { destruct m as [|[k i] m]; [done|]. destruct (ok_pair _ _ _ _ _ Hs k i ltac:(by left)) as (? & ? & ? & _ & _ & ? & _). done. }
  apply Forall2_same_length_lookup. split.
  { rewrite length_zip_with, (ok_matched _ _ _ _ _ Hs), (ok_tracks _ _ _ _ _ Hs). unfold predicted. rewrite length_map. lia. }
  intros k t0 t Ht0 Ht. apply lookup_zip_with_Some in Ht as (b & t1 & -> & Hb & Ht1).
  assert (b = false) as ->.
  { destruct b; [|done]. apply (ok_flag_t _ _ _ _ _ Hs) in Hb. by apply not_elem_of_nil in Hb. }
  rewrite (ok_rest_t _ _ _ _ _ Hs k) in Ht1 by apply not_elem_of_nil. unfold predicted in Ht1.
  apply list_lookup_fmap_Some in Ht1 as (t2 & -> & Ht2). by simplify_eq.
Qed.

(** One silent frame: nothing has a box, and every surviving track has one more miss. *)
Lemma silent_frame hypot cfg now st n :
  fle (low_confidence cfg) (high_confidence cfg) = true -> Forall (track_ok cfg) (tracks st) ->
  max_lost_frames cfg < umax 32 -> tentative_max_missed_frames cfg < umax 32 ->
  Forall (fun t => n <= missed_frames t) (tracks st) ->
  let r := update hypot cfg [] now st in
  Forall (fun t => n + 1 <= missed_frames t) (tracks r.1) /\ Forall (fun o => detection_bbox o = None) r.2.
Proof.
  intros Hc Hst Hml Hmt Hn r. unfold r. rewrite update_tracks. simpl. pose proof (no_detections hypot cfg now st Hc Hst) as H.
  set (X := frame_tracks _ _ _ _) in *.
  assert (Forall (fun t => 0 < missed_frames t /\ (keep_track cfg t = true -> n + 1 <= missed_frames t)) X) as HX.
  { eapply Forall2_Forall_r; [exact H|]. apply Forall_forall. intros t0 Ht0 t E. rewrite Forall_forall in Hn, Hst.
    specialize (Hn t0 Ht0). destruct (Hst t0 Ht0) as (H0 & _). simpl in *. unfold usat_add, umax in *.
    split; [lia|]. unfold keep_track. destruct (lifecycle t); lia. }
  rewrite Forall_forall in HX. split.
  - apply Forall_map, Forall_forall. intros t [Ht Hk]%list_elem_of_In%filter_In. apply list_elem_of_In in Ht.
    destruct (HX t Ht) as [_ Hx]. specialize (Hx Hk). unfold emptied. by destruct (is_emitted t).
  - apply Forall_map, Forall_forall. intros t [[Ht _]%filter_In _]%list_elem_of_In%filter_In. apply list_elem_of_In in Ht.
    destruct (HX t Ht) as [Hx _]. simpl. by destruct (Z.eqb_spec (missed_frames t) 0); [lia|].
Qed.

(** A track that is not seen again goes away: whatever came before, after more than
    [max_lost_frames] and [tentative_max_missed_frames] frames without a detection no track is
    left, and no object of the frames until then claims a detection. *)
Lemma silence_drops_every_track hypot cfg frames nows :
  fle (low_confidence cfg) (high_confidence cfg) = true ->
  max_lost_frames cfg < umax 32 -> tentative_max_missed_frames cfg < umax 32 ->
  max_lost_frames cfg < zlength nows -> tentative_max_missed_frames cfg < zlength nows ->
  let r := mrun (H:=bytetrack_machine hypot cfg) ((fun now => ([], now)) <$> nows)
             (mrun (H:=bytetrack_machine hypot cfg) frames new).1 in
  tracks r.1 = [] /\ Forall (Forall (fun o => detection_bbox o = None)) r.2.
Proof.
  intros Hc Hml Hmt Hn1 Hn2. pose proof (reachable_track_ok hypot cfg frames Hc) as Hst.
  set (st := (mrun frames new).1) in *. clearbody st.
  assert (forall n st, Forall (track_ok cfg) (tracks st) -> Forall (fun t => n <= missed_frames t) (tracks st) ->
    let r := mrun (H:=bytetrack_machine hypot cfg) ((fun now => ([], now)) <$> nows) st in
    Forall (track_ok cfg) (tracks r.1) /\ Forall (fun t => n + zlength nows <= missed_frames t) (tracks r.1) /\
    Forall (Forall (fun o => detection_bbox o = None)) r.2) as Hrun.
  { clear Hn1 Hn2 Hst. unfold zlength. induction nows as [|now nows IH]; intros n s Hs Hn.
    { simpl. rewrite Z.add_0_r. split_and!; [done|done|constructor]. }
    rewrite fmap_cons, mrun_cons. simpl. destruct (silent_frame hypot cfg now s n Hc Hs Hml Hmt Hn) as [H1 H2].
    pose proof (update_track_ok hypot cfg [] now s Hc Hs) as Hs'. destruct (IH (n + 1) _ Hs' H1) as (A & B & C).
    split_and!; [exact A| |by constructor]. eapply Forall_impl; [exact B|]. simpl. lia. }
  destruct (Hrun 0 st Hst) as (A & B & C); [eapply Forall_impl; [exact Hst|]; simpl; by intros t (? & _)|].
  split; [|exact C]. simpl in A, B. destruct (tracks (mrun _ st).1) as [|t l]; [done|].
  apply Forall_cons in A as [(_ & Hk & _) _]. apply Forall_cons in B as [B _].
  unfold keep_track in Hk. simpl in B. destruct (lifecycle t); lia.
Qed.

(** ** Who gets which detection *)

Definition start (T : list TrackState) (D : list Detection) : Assoc :=
  mkAssoc T D (replicate (length D) false) (replicate (length T) false).

(** Without the grid, the candidates of the first pass are all pairs of one label that overlap enough. *)
Lemma candidate_iff cfg T D k i t d threshold :
  T !! k = Some t -> D !! i = Some d ->
  (iou (t_bbox t) (d_bbox d), k, i) ∈ iou_pairs (start T D) (bucket (is_high cfg) D) threshold None <->
  is_high cfg d = true /\ d_label d = t_label t /\
  fgt (iou (t_bbox t) (d_bbox d)) fzero = true /\ fge (iou (t_bbox t) (d_bbox d)) threshold = true.
Proof.
  intros Ht Hd. unfold iou_pairs, scan. rewrite elem_of_pairs. simpl.
  assert (forall n j, flagged (replicate n false) j = false) as Hf.
  { intros n j. apply not_true_iff_false. rewrite flagged_true. apply replicate_flag. }
  assert (forall j, consider (start T D) threshold k t j = Some (iou (t_bbox t) (d_bbox d), k, i) -> j = i) as Hj.
  { intros j. unfold consider. destruct (_ !! j); [|done]. destruct (_ || _); [done|]. destruct (_ && _); [|done]. by intros [= _ ->]. }
  assert (consider (start T D) threshold k t i = Some (iou (t_bbox t) (d_bbox d), k, i) <->
          d_label d = t_label t /\ fgt (iou (t_bbox t) (d_bbox d)) fzero = true /\
          fge (iou (t_bbox t) (d_bbox d)) threshold = true) as Hci.
  { unfold consider. simpl. rewrite Hd, Hf. simpl. unfold str_eqb. case_bool_decide; simpl; [|naive_solver].
    destruct (fgt _ _), (fge _ _); naive_solver. }
  assert (i ∈ bucket (is_high cfg) D <-> is_high cfg d = true) as Hi.
  { unfold bucket. rewrite list_elem_of_In, filter_In, in_seq, Hd. apply lookup_lt_Some in Hd. intuition lia. }
  split.
  - intros (k' & t' & Ht' & Hp). rewrite Hf in Hp. apply list_elem_of_omap in Hp as (j & Hin & Hc).
    assert (k' = k) as -> by (unfold consider in Hc; repeat case_match; congruence).
    rewrite Ht in Ht'. injection Ht' as <-. pose proof (Hj j Hc) as ->. by rewrite <- Hi, <- Hci.
  - intros (H1 & H2). exists k, t. split; [done|]. rewrite Hf. apply list_elem_of_omap. exists i. by rewrite Hi, Hci.
Qed.

(** The first pass is stable: for every candidate (a track and a confident detection of its
    label that overlap enough), the track or the detection goes to a candidate that is at least
    as good. With the motion pass on, that one overlaps at least as well, so no track and
    detection both prefer each other to what they got; with it off, the track holds a detection
    it overlaps at least as well, or the detection went to an older track. *)
Lemma first_pass_is_stable cfg T D motion p :
  fle (low_confidence cfg) (high_confidence cfg) = true ->
  let idx := bucket (is_high cfg) D in
  let candidates := iou_pairs (start T D) idx (match_iou_threshold cfg) (spatial_bucket_size_px cfg) in
  let s := associate_pass cfg idx motion (start T D) in
  p ∈ candidates ->
  exists q t d, q ∈ candidates /\ a_tracks s !! p_track q = Some t /\ D !! p_det q = Some d /\ t_seen t = d_seen d /\
    match motion with
    | Some _ => (p_track q = p_track p \/ p_det q = p_det p) /\ fge (score q) (score p) = true
    | None => (p_track q = p_track p /\ fge (score q) (score p) = true) \/
              (p_det q = p_det p /\ (p_track q < p_track p)%nat)
    end.
Proof.
  intros Hc idx candidates s Hp.
  pose proof (bucket_at cfg D _ _ eq_refl (fun d => high_confident cfg d Hc)) as Hidx. fold idx in Hidx.
  pose proof (assoc_start cfg T D) as Hs0. fold (start T D) in Hs0.
  destruct (pass_ok cfg T D motion idx _ [] Hidx Hs0) as (tk & Hs & Hin & Hstable).
  destruct (Hstable p Hp) as (q & Hq & Hqp & Hshare).
  destruct (ok_pair _ _ _ _ _ Hs (p_track q) (p_det q)) as (t0 & t & d & _ & Ht & Hd & Hk).
  { rewrite app_nil_r. apply list_elem_of_fmap. by exists q. }
  assert (forall x, x ∈ candidates -> fgt (score x) fzero = true) as Hpos.
  { intros x Hx. by destruct (iou_candidate cfg T D _ _ Hs0 idx _ _ x Hidx Hx). }
  assert (total_cmp (score p) (score q) <> Gt -> fge (score q) (score p) = true) as Hge.
  { intros Hcmp. destruct (positive_one_zero _ (Hpos p Hp)) as [N1 E1]. destruct (positive_one_zero _ (Hpos q (Hin q Hq))) as [N2 E2].
    apply fle_not_after; [done..|]. by rewrite E1, E2. }
  exists q, t, d. split_and!; [by apply Hin|done|done|by apply (took_seen _ _ _ _ Hk)|].
  destruct motion as [now|]; simpl in Hqp; unfold not_after in Hqp.
  - split; [done|]. apply Hge. unfold best_first in Hqp. by destruct (total_cmp _ _).
  - unfold by_track in Hqp. destruct (Nat.compare_spec (p_track q) (p_track p)) as [E|E|E]; simpl in Hqp; [|right|done].
    + left. split; [done|]. by apply Hge.
    + split; [|done]. destruct Hshare; [lia|done].
Qed.

(** ** Two cars, a gap and a pedestrian *)

Definition demo_hypot (a b : f32) : f32 := fmax (SFabs a) (SFabs b).
Definition demo_box (a b c d : Z) : BBox := mkBBox (f32_of_Z a) (f32_of_Z b) (f32_of_Z c) (f32_of_Z d).
(** The confidence [0.9]. *)
Definition demo_det (label : string) (x : Z) : Detection :=
  mkDetection label (flit 15099494 (-24)) (demo_box x 0 (x + 100) 100) ∅.
Definition demo_frames : list (list Detection * Z) :=
  [([demo_det "car" 0; demo_det "car" 200], secs 1); ([demo_det "car" 210; demo_det "car" 10], secs 2); ([], secs 3);
   ([demo_det "car" 230; demo_det "person" 600], secs 4)].

Example demo_ids :
  map (map o_track_id) (mrun (H:=bytetrack_machine demo_hypot config_default) demo_frames new).2 =
  [[1; 2]; [1; 2]; [1; 2]; [1; 2; 3]].
Proof. vm_compute. reflexivity. Qed.

Lemma detections_reported_once_witness :
  seen_objects (update demo_hypot config_default [demo_det "car" 230; demo_det "person" 600] (secs 4)
    (mrun (H:=bytetrack_machine demo_hypot config_default) (take 3 demo_frames) new).1).2 ≡ₚ
  [d_seen (demo_det "car" 230); d_seen (demo_det "person" 600)].
Proof.
  destruct (detections_reported_once demo_hypot config_default (take 3 demo_frames)
    [demo_det "car" 230; demo_det "person" 600] (secs 4)) as [_ H]; [reflexivity|discriminate|discriminate|].
  apply H. discriminate.
Defined.

Lemma id_is_one_object_witness :
  exists g : Register,
    Forall2 (fun frame out => NoDup (o_track_id <$> out) /\ Forall (named g frame.2) out)
      demo_frames (mrun (H:=bytetrack_machine demo_hypot config_default) demo_frames new).2.
Proof. apply id_is_one_object; reflexivity. Defined.

Lemma silence_drops_every_track_witness :
  tracks (mrun (H:=bytetrack_machine demo_hypot config_default) ((fun now => ([], now)) <$> seqZ 5 31)
    (mrun (H:=bytetrack_machine demo_hypot config_default) demo_frames new).1).1 = [].
Proof. apply silence_drops_every_track; reflexivity. Defined.

Definition demo_track (id x : Z) : TrackState := born config_default (secs 1) id (demo_det "car" x).

Lemma first_pass_is_stable_witness :
  exists p q t d,
    p ∈ iou_pairs (start [demo_track 1 0; demo_track 2 20] [demo_det "car" 20]) [0%nat] f_03 None /\
    p_track p = 0%nat /\ q ∈ iou_pairs (start [demo_track 1 0; demo_track 2 20] [demo_det "car" 20]) [0%nat] f_03 None /\
    a_tracks (associate_pass config_default [0%nat] (Some (secs 2))
      (start [demo_track 1 0; demo_track 2 20] [demo_det "car" 20])) !! p_track q = Some t /\
    t_seen t = d_seen d /\ fge (score q) (score p) = true.
Proof.
  set (T := [demo_track 1 0; demo_track 2 20]). set (D := [demo_det "car" 20]).
  assert ((iou (demo_box 0 0 100 100) (demo_box 20 0 120 100), 0%nat, 0%nat) ∈
          iou_pairs (start T D) (bucket (is_high config_default) D) f_03 None) as Hp.
  { apply (candidate_iff config_default T D 0 0 (demo_track 1 0) (demo_det "car" 20)); by vm_compute. }
  destruct (first_pass_is_stable config_default T D (Some (secs 2)) _ eq_refl Hp) as (q & t & d & H1 & H2 & H3 & H4 & H5 & H6).
  eexists _, q, t, d. split; [exact Hp|]. split; [reflexivity|]. split; [exact H1|]. split; [exact H2|]. split; [exact H4|exact H6].
Defined.
