(* ===== verification/FramePath.v ===== *)
(** From a frame's detections to its alerts, the path of [nexus-pipeline/src/supervisor.rs]: the
    tracker, the zone filters, and rule evaluation. The annotator and the static filter between
    them write attributes of objects and nothing else. *)
From S2P Require Import Prelude Float Types Alert Zones Rules ByteTrack.

(** The zone filters: exclusion, then the minimum area. *)
Definition zone_filters (w h : Z) (zones : list ZoneConfig) (tracked : list TrackedObject) : list TrackedObject :=
  let '(tracked, _) := filter_excluded_zones w h zones tracked in
  let '(tracked, _) := filter_zone_min_area w h zones tracked in
  tracked.

(** The objects of a frame before the annotator sees them. *)
Definition frame_objects (hypot : f32 -> f32 -> f32) (cfg : ByteTrackConfig) (w h : Z) (zones : list ZoneConfig)
    (detections : list Detection) (mono : Z) (st : ByteTrackState) : ByteTrackState * list TrackedObject :=
  let '(st, tracked) := update hypot cfg detections mono st in (st, zone_filters w h zones tracked).

(** [o] is [o0] but for its attributes. *)
Definition same_but_attributes (o0 o : TrackedObject) : Prop :=
  mkObject (o_track_id o) (o_label o) (confidence o) (o_bbox o) (detection_bbox o) (age_frames o) (age_ms o)
    (attributes o0) = o0.

Lemma elem_of_zone_filters w h zones l o :
  o ∈ zone_filters w h zones l <-> o ∈ l /\ excluded w h zones o = false /\ too_small w h zones o = false.
Proof.
  unfold zone_filters. pose proof (elem_of_filter_excluded w h zones l o) as H1. destruct (filter_excluded_zones w h zones l) as [l1 n].
  pose proof (elem_of_filter_min_area w h zones l1 o) as H2. destruct (filter_zone_min_area w h zones l1) as [l2 n'].
  simpl in *. rewrite H2, H1. tauto.
Qed.

Lemma elem_of_frame_objects hypot cfg w h zones D mono st o :
  o ∈ (frame_objects hypot cfg w h zones D mono st).2 <->
  o ∈ (update hypot cfg D mono st).2 /\ excluded w h zones o = false /\ too_small w h zones o = false.
Proof. unfold frame_objects. destruct (update hypot cfg D mono st) as [st' tracked]. apply elem_of_zone_filters. Qed.

Lemma seen_objects_in out o b : o ∈ out -> detection_bbox o = Some b -> (o_label o, b, confidence o) ∈ seen_objects out.
Proof. intros Hin Hb. apply list_elem_of_omap. exists o. by rewrite Hb. Qed.

(** An alert shows what the detector saw: after any frames, when the rules are evaluated on
    the objects of a frame (annotated in any way), every alert carries label, box and confidence
    of a detection of this very frame that reached the tracker's confidence floor, belongs to
    a track the tracker emitted, and that object lies in no exclusion zone of the camera. *)
Lemma alert_shows_a_detection {Prog} execute debug hypot cfg frames D (e : RuleEvaluator Prog) f a :
  fle (low_confidence cfg) (high_confidence cfg) = true ->
  0 <= max_lost_frames cfg -> 0 <= tentative_max_missed_frames cfg ->
  let st := (mrun (H:=bytetrack_machine hypot cfg) frames new).1 in
  let objects := (frame_objects hypot cfg (f_width f) (f_height f) (f_zones f) D (f_captured_mono f) st).2 in
  Forall (fun o => exists o0, o0 ∈ objects /\ same_but_attributes o0 o) (f_objects f) ->
  a ∈ (evaluate execute debug f e).2 ->
  exists d o, d ∈ D /\ o ∈ objects /\ confident cfg d = true /\
    label a = d_label d /\ bbox a = Some (d_bbox d) /\ track_id a = Some (o_track_id o) /\
    excluded (f_width f) (f_height f) (f_zones f) o = false.
Proof.
  intros Hc H1 H2 st objects Hobj Ha.
  destruct (report_spec hypot cfg D (f_captured_mono f) st Hc H1 H2 (reachable_track_ok hypot cfg frames Hc)) as [[rest Hseen] _].
  destruct (alert_grounds execute debug f e a Ha) as (rule & o & [_ Ho _ _ _ _ _ (b & uuid & Hb & ->)]).
  rewrite Forall_forall in Hobj. destruct (Hobj o Ho) as (o0 & Ho0 & Hsame). unfold same_but_attributes in Hsame.
  pose proof (proj1 (elem_of_frame_objects hypot cfg _ _ _ D _ st o0) Ho0) as (Hup & Hex & _).
  assert (detection_bbox o0 = Some b) as Hb0 by (by rewrite <- Hsame).
  pose proof (seen_objects_in _ _ _ Hup Hb0) as Hin.
  assert ((o_label o0, b, confidence o0) ∈ List.filter (seen_confident cfg) (d_seen <$> D)) as Hd.
  { rewrite <- Hseen. apply elem_of_app. by left. }
  apply list_elem_of_In, filter_In in Hd as [Hd%list_elem_of_In Hcf]. apply list_elem_of_fmap in Hd as (d & E & Hd).
  injection E as E1 E2 E3. exists d, o0. unfold seen_confident in Hcf. simpl in Hcf. rewrite E3 in Hcf.
  split_and!; [done|done|exact Hcf|..]; simpl.
  - by rewrite <- E1, <- Hsame.
  - by rewrite E2.
  - by rewrite <- Hsame.
  - done.
Qed.

(** ** A person walks through the door

    The track is born at one second and is a second old when the rule, which asks for half a
    second, fires on the second frame's raw box. *)
Definition walk : list (list Detection * Z) := [([ByteTrack.demo_det "person" 100], secs 1)].
Definition step : list Detection := [ByteTrack.demo_det "person" 120].
Definition walk_state : ByteTrackState := (mrun (H:=bytetrack_machine demo_hypot config_default) walk new).1.
Definition walk_objects : list TrackedObject :=
  (frame_objects demo_hypot config_default 640 480 [whole_frame] step (secs 2) walk_state).2.
Definition walk_frame : EvalFrame := demo_frame (secs 2) walk_objects.

Strategy 1000 [walk_state update evaluate].

Lemma alert_shows_a_detection_witness :
  exists a d o, a ∈ (evaluate demo_execute demo_debug walk_frame demo_evaluator).2 /\ d ∈ step /\ o ∈ walk_objects /\
    label a = d_label d /\ bbox a = Some (d_bbox d).
Proof.
  assert (exists a, (evaluate demo_execute demo_debug walk_frame demo_evaluator).2 = [a]) as (a & Ha)
    by (eexists; vm_compute; reflexivity).
  assert (a ∈ (evaluate demo_execute demo_debug walk_frame demo_evaluator).2) as Hin by (rewrite Ha; by left).
  assert (Forall (fun o => exists o0, o0 ∈ walk_objects /\ same_but_attributes o0 o) (f_objects walk_frame)) as Hobj.
  { apply Forall_forall. intros o Ho. exists o. split; [exact Ho|]. unfold same_but_attributes. by destruct o. }
  destruct (alert_shows_a_detection demo_execute demo_debug demo_hypot config_default walk step demo_evaluator walk_frame a
    eq_refl ltac:(discriminate) ltac:(discriminate) Hobj Hin) as (d & o & H1 & H2 & _ & H4 & H5 & _).
  exists a, d, o. split; [exact Hin|]. split; [exact H1|]. split; [exact H2|]. split; [exact H4|exact H5].
Defined.
