(* ===== verification/ReplayCache.v ===== *)
(** The two bounded caches of the cloud tunnel: [JtiReplayCache] of
    [nexus-cloud-client/src/jti_cache.rs] and [RpcResponseCache] of [src/response_cache.rs]. Each
    method holds its lock throughout, so a call is one step. A body is a string of bytes. *)
From S2P Require Import Prelude Text.

Definition DEFAULT_CAPACITY : Z := 10000.

Definition compose_key (jti : string) (request_id : option string) : string :=
  match request_id with
  | None => jti
  | Some rid => jti +:+ "|" +:+ rid
  end.

(** ** The replay cache *)

Record JtiReplayCache := mkJti { capacity : Z; seen : gset string; order : list string }.

Definition with_capacity (capacity : Z) : JtiReplayCache := mkJti capacity ∅ [].

Definition insert_keyed (jti : string) (request_id : option string) (c : JtiReplayCache) : bool * JtiReplayCache :=
  if capacity c =? 0 then (true, c)
  else
    let composite := compose_key jti request_id in
    if decide (composite ∈ seen c) then (false, c)
    else
      let c1 :=
        if zlength (order c) =? capacity c then
          match order c with
          | evicted :: rest => mkJti (capacity c) (seen c ∖ {[evicted]}) rest
          | [] => c
          end
        else c in
      (true, mkJti (capacity c) ({[composite]} ∪ seen c1) (order c1 ++ [composite])).

Definition insert (jti : string) (c : JtiReplayCache) : bool * JtiReplayCache := insert_keyed jti None c.

Definition contains_keyed (jti : string) (request_id : option string) (c : JtiReplayCache) : bool :=
  bool_decide (compose_key jti request_id ∈ seen c).

Definition len (c : JtiReplayCache) : Z := zlength (order c).

(** ** The response cache *)

Record RpcResponseCache := mkResponses { r_capacity : Z; bodies : gmap string string; r_order : list string }.

Definition responses_with_capacity (capacity : Z) : RpcResponseCache := mkResponses capacity ∅ [].

Definition get_response (jti request_id : string) (c : RpcResponseCache) : option string :=
  if r_capacity c =? 0 then None else bodies c !! compose_key jti (Some request_id).

Definition insert_response (jti request_id body : string) (c : RpcResponseCache) : RpcResponseCache :=
  if r_capacity c =? 0 then c
  else
    let key := compose_key jti (Some request_id) in
    match bodies c !! key with
    | Some _ => mkResponses (r_capacity c) (<[key := body]> (bodies c)) (r_order c)
    | None =>
        let c1 :=
          if zlength (r_order c) =? r_capacity c then
            match r_order c with
            | evicted :: rest => mkResponses (r_capacity c) (delete evicted (bodies c)) rest
            | [] => c
            end
          else c in
        mkResponses (r_capacity c) (<[key := body]> (bodies c1)) (r_order c1 ++ [key])
    end.

(** ** The replay cache: facts *)

(** The set and the queue hold the same keys, each once, within the capacity. *)
Record jti_ok (c : JtiReplayCache) : Prop := {
  jti_same : seen c = list_to_set (order c);
  jti_nodup : NoDup (order c);
  jti_bound : zlength (order c) <= capacity c;
}.

Lemma with_capacity_ok n : 0 <= n -> jti_ok (with_capacity n).
Proof. intros Hn. split; simpl; [done|constructor|done]. Qed.

(** What an insert does: nothing to a key that is there; otherwise the key goes to the end, and
    when the queue is full its head leaves. *)
Lemma insert_keyed_spec jti rid c :
  jti_ok c -> 0 < capacity c ->
  let k := compose_key jti rid in
  let '(fresh, c') := insert_keyed jti rid c in
  jti_ok c' /\ capacity c' = capacity c /\ fresh = bool_decide (k ∉ order c) /\
  (fresh = false -> c' = c) /\
  (fresh = true -> exists dropped kept, order c = dropped ++ kept /\ order c' = kept ++ [k] /\
     (dropped = [] \/ zlength (order c) = capacity c /\ length dropped = 1%nat)).
Proof.
  intros [Hs Hnd Hb] Hc k. unfold insert_keyed. fold k. destruct (Z.eqb_spec (capacity c) 0); [lia|].
  assert (k ∈ seen c <-> k ∈ order c) as Hk by (rewrite Hs; apply elem_of_list_to_set).
  destruct (decide (k ∈ seen c)) as [Hin|Hin].
  { split_and!; [by split|done| |done|done]. rewrite bool_decide_eq_false_2; [done|]. intros H. by apply H, Hk. }
  rewrite Hk in Hin. rewrite bool_decide_eq_true_2 by done. unfold zlength in *.
  destruct (Z.eqb_spec (Z.of_nat (length (order c))) (capacity c)) as [Hfull|Hfull].
  - destruct (order c) as [|e rest] eqn:Eo; [simpl in *; lia|].
    apply NoDup_cons in Hnd as [He Hnd]. simpl in *. split_and!; [split; simpl|done|done|done|].
    + rewrite Hs. rewrite list_to_set_app_L. simpl. set_solver.
    + apply NoDup_app. split_and!; [done| |apply NoDup_singleton]. intros x Hx ->%list_elem_of_singleton. by apply Hin; right.
    + unfold zlength. rewrite length_app. simpl. lia.
    + intros _. exists [e], rest. split_and!; [done|done|right; done].
  - split_and!; [split; simpl|done|done|done|].
    + rewrite Hs, list_to_set_app_L. simpl. set_solver.
    + apply NoDup_app. split_and!; [done| |apply NoDup_singleton]. by intros x Hx ->%list_elem_of_singleton.
    + unfold zlength. rewrite length_app. simpl. lia.
    + intros _. exists [], (order c). split_and!; [done|done|by left].
Qed.

(** [k] will be there for [n] more inserts, whatever they insert. *)
Definition held (k : string) (n : Z) (c : JtiReplayCache) : Prop :=
  exists pre post, order c = pre ++ k :: post /\ zlength post + n < capacity c.

Lemma held_in k n c : held k n c -> k ∈ order c.
Proof. intros (pre & post & -> & _). apply elem_of_app. right. by left. Qed.

Lemma held_less k n m c : m <= n -> held k n c -> held k m c.
Proof. intros Hm (pre & post & Ho & Hn). exists pre, post. split; [done|lia]. Qed.

Lemma held_insert k n jti rid c :
  jti_ok c -> 0 < capacity c -> 0 < n -> held k n c -> held k (n - 1) (insert_keyed jti rid c).2.
Proof.
  intros Hok Hc Hn (pre & post & Ho & Hp). pose proof (insert_keyed_spec jti rid c Hok Hc) as H.
  destruct (insert_keyed jti rid c) as [fresh c']. destruct H as (_ & Ec & _ & Hold & Hnew). simpl.
  destruct fresh; [|rewrite Hold by done; apply (held_less _ n); [lia|by exists pre, post]].
  destruct (Hnew eq_refl) as (dropped & kept & E1 & E2 & Hd). unfold zlength in *.
  assert (exists pre', kept = pre' ++ k :: post) as [pre' Ek].
  { destruct Hd as [->|[Hfull Hlen]]; [exists pre; by rewrite <- Ho, E1|].
    destruct dropped as [|e [|]]; [done| |done]. destruct pre as [|p pre].
    - rewrite Ho in Hfull. simpl in Hfull. lia.
    - exists pre. rewrite Ho in E1. by simplify_eq/=. }
  exists pre', (post ++ [compose_key jti rid]). unfold zlength. rewrite length_app, Ec. simpl. split; [|lia].
  rewrite E2, Ek. by rewrite <- app_assoc.
Qed.

Lemma held_new n jti rid c c' :
  jti_ok c -> 0 < capacity c -> n < capacity c -> insert_keyed jti rid c = (true, c') -> held (compose_key jti rid) n c'.
Proof.
  intros Hok Hc Hn E. pose proof (insert_keyed_spec jti rid c Hok Hc) as H. rewrite E in H.
  destruct H as (_ & Ec & _ & _ & Hnew). destruct (Hnew eq_refl) as (dropped & kept & _ & E2 & _).
  exists kept, []. rewrite Ec. split; [done|]. unfold zlength. simpl. lia.
Qed.

(** An insert of a key that is there is refused, and changes nothing. *)
Lemma replay_refused jti rid c :
  jti_ok c -> 0 < capacity c -> compose_key jti rid ∈ order c -> insert_keyed jti rid c = (false, c).
Proof.
  intros Hok Hc Hk. pose proof (insert_keyed_spec jti rid c Hok Hc) as H. destruct (insert_keyed jti rid c) as [fresh c'].
  destruct H as (_ & _ & -> & Hold & _). rewrite bool_decide_eq_false_2 in * by tauto. by rewrite Hold.
Qed.

(** ** The response cache: facts *)

Record responses_ok (c : RpcResponseCache) : Prop := {
  resp_same : forall k, is_Some (bodies c !! k) <-> k ∈ r_order c;
  resp_nodup : NoDup (r_order c);
  resp_bound : zlength (r_order c) <= r_capacity c;
}.

Lemma responses_start_ok n : 0 <= n -> responses_ok (responses_with_capacity n).
Proof.
  intros Hn. split; simpl; [|constructor|done]. intros k. rewrite lookup_empty. split; [by intros [? ?]|by intros ?%not_elem_of_nil].
Qed.

Lemma insert_response_ok jti rid body c : responses_ok c -> 0 < r_capacity c -> responses_ok (insert_response jti rid body c).
Proof.
  intros [Hs Hnd Hb] Hc. unfold insert_response. destruct (Z.eqb_spec (r_capacity c) 0); [lia|].
  set (key := compose_key jti (Some rid)). destruct (bodies c !! key) as [old|] eqn:Ek.
  { split; simpl; [|done|done]. intros k. rewrite <- Hs. destruct (decide (key = k)) as [<-|Hne].
    - rewrite lookup_insert_eq, Ek. split; by eexists.
    - by rewrite lookup_insert_ne. }
  assert (key ∉ r_order c) as Hkey by (rewrite <- Hs, Ek; by intros [? ?]).
  unfold zlength in *. destruct (Z.eqb_spec (Z.of_nat (length (r_order c))) (r_capacity c)) as [Hfull|Hfull].
  - destruct (r_order c) as [|e rest] eqn:Eo; [simpl in *; lia|]. apply NoDup_cons in Hnd as [He Hnd]. simpl in *.
    split; simpl.
    + intros k. rewrite elem_of_app, list_elem_of_singleton. destruct (decide (key = k)) as [<-|Hne].
      { rewrite lookup_insert_eq. split; [by right|by eexists]. }
      rewrite lookup_insert_ne by done. destruct (decide (e = k)) as [<-|Hne'].
      { rewrite lookup_delete_eq. split; [by intros [? ?]|]. by intros [?| ->]. }
      rewrite lookup_delete_ne by done. rewrite Hs, elem_of_cons. naive_solver.
    + apply NoDup_app. split_and!; [done| |apply NoDup_singleton]. intros x Hx ->%list_elem_of_singleton. apply Hkey. by right.
    + unfold zlength. rewrite length_app. simpl. lia.
  - split; simpl.
    + intros k. rewrite elem_of_app, list_elem_of_singleton. destruct (decide (key = k)) as [<-|Hne].
      { rewrite lookup_insert_eq. split; [by right|by eexists]. }
      rewrite lookup_insert_ne by done. rewrite Hs. naive_solver.
    + apply NoDup_app. split_and!; [done| |apply NoDup_singleton]. by intros x Hx ->%list_elem_of_singleton.
    + unfold zlength. rewrite length_app. simpl. lia.
Qed.

(** A stored body is what [get] returns, until it is evicted. *)
Lemma get_inserted jti rid body c : 0 < r_capacity c -> get_response jti rid (insert_response jti rid body c) = Some body.
Proof.
  intros Hc. unfold get_response, insert_response. destruct (Z.eqb_spec (r_capacity c) 0); [lia|].
  destruct (bodies c !! _); simpl; (destruct (Z.eqb_spec (r_capacity c) 0); [lia|apply lookup_insert_eq]).
Qed.

(** [body] will be returned for [k] during [n] more inserts of other keys. *)
Definition stored (k body : string) (n : Z) (c : RpcResponseCache) : Prop :=
  bodies c !! k = Some body /\ exists pre post, r_order c = pre ++ k :: post /\ zlength post + n < r_capacity c.

Lemma stored_less k body n m c : m <= n -> stored k body n c -> stored k body m c.
Proof. intros Hm (Hb & pre & post & Ho & Hn). split; [done|]. exists pre, post. split; [done|lia]. Qed.

Lemma stored_insert k body n jti rid body' c :
  responses_ok c -> 0 < r_capacity c -> 0 < n -> compose_key jti (Some rid) <> k -> stored k body n c ->
  stored k body (n - 1) (insert_response jti rid body' c).
Proof.
  intros Hok Hc Hn Hk [Hb (pre & post & Ho & Hp)]. unfold insert_response. destruct (Z.eqb_spec (r_capacity c) 0); [lia|].
  set (key := compose_key jti (Some rid)) in *. unfold zlength in *. destruct (bodies c !! key) as [old|] eqn:Ek.
  { split; simpl; [by rewrite lookup_insert_ne|]. exists pre, post. unfold zlength. split; [done|lia]. }
  destruct (Z.eqb_spec (Z.of_nat (length (r_order c))) (r_capacity c)) as [Hfull|Hfull].
  - destruct pre as [|e pre]; [rewrite Ho in Hfull; simpl in Hfull; lia|]. rewrite Ho. simpl.
    pose proof (resp_nodup c Hok) as Hnd. rewrite Ho in Hnd. apply NoDup_cons in Hnd as [He _].
    split; simpl.
    + rewrite lookup_insert_ne by done. rewrite lookup_delete_ne; [done|]. intros ->. apply He, elem_of_app. right. by left.
    + exists pre, (post ++ [key]). unfold zlength. rewrite length_app. simpl. split; [by rewrite <- app_assoc|lia].
  - split; simpl; [by rewrite lookup_insert_ne|]. exists pre, (post ++ [key]). unfold zlength. rewrite length_app, Ho. simpl.
    split; [by rewrite <- app_assoc|lia].
Qed.

Lemma stored_new n jti rid body c :
  0 < r_capacity c -> n < r_capacity c -> bodies c !! compose_key jti (Some rid) = None ->
  stored (compose_key jti (Some rid)) body n (insert_response jti rid body c).
Proof.
  intros Hc Hn Hb. unfold insert_response. destruct (Z.eqb_spec (r_capacity c) 0); [lia|]. rewrite Hb.
  split; simpl; [apply lookup_insert_eq|]. eexists _, []. split; [done|]. unfold zlength. simpl. lia.
Qed.

Lemma stored_get k body n jti rid c : 0 < r_capacity c -> k = compose_key jti (Some rid) -> stored k body n c -> get_response jti rid c = Some body.
Proof. intros Hc -> [Hb _]. unfold get_response. destruct (Z.eqb_spec (r_capacity c) 0); [lia|done]. Qed.

Lemma insert_response_capacity jti rid body c : r_capacity (insert_response jti rid body c) = r_capacity c.
Proof. unfold insert_response. by repeat case_match. Qed.
