(* ===== verification/ActorToken.v ===== *)
(** The verifier of [actor_token]s, [nexus-cloud-client/src/actor_token.rs] with the reject reasons
    of [src/error.rs] and the claims of [nexus-cloud-protocol/src/v1.rs].

    Base64, serde and Ed25519 are parameters; bytes are strings, and the clock of
    [check_window] is an argument in whole seconds. The action table is a list of arms in the
    order of the code's [match]. *)
From Stdlib Require Import Ascii.
From S2P Require Import Prelude Text Float Types Alert ReplayCache.

(** ** Errors *)

Inductive InvalidReason :=
| MalformedJws | UnsupportedAlg | MalformedClaims | BadSignature | UnknownKeyId | WrongAudience | WrongCoreId
| MethodMismatch | PathMismatch | PermissionMismatch | Expired | NotYetValid | Replay
| SystemSubNotPermittedForMethod.

Inductive RejectReason := Missing | Invalid (r : InvalidReason).

Definition wire_code (r : RejectReason) : string :=
  match r with Missing => "actor_token_missing" | Invalid _ => "actor_token_invalid" end.

(** ** Claims and actors *)

Record ActorTokenClaims := mkClaims {
  c_actor_org_id : option string;
  c_aud : string;
  c_core_id : string;
  c_exp : Z;
  c_http_method : string;
  c_iat : Z;
  c_jti : string;
  c_org_id : string;
  c_path : string;
  c_perm : option string;
  c_role : string;
  c_sub : string;
}.

Record ShellActorTokenClaims := mkShell {
  s_aud : string;
  s_core_id : string;
  s_exp : Z;
  s_iat : Z;
  s_jti : string;
  s_org_id : string;
  s_role : string;
  s_session_id : string;
  s_sub : string;
}.

Record VerifiedActor := mkActor {
  sub : string;
  role : string;
  perm : option string;
  jti : string;
  org_id : string;
  actor_org_id : option string;
}.

Record EnvelopeContext := mkEnvelope { method : string; path : string }.

Definition EXPECTED_AUDIENCE : string := "nexus-edge-rpc".
Definition SHELL_AUDIENCE : string := "nexus-edge-shell".
Definition CLOCK_SKEW_SECS : Z := 30.

Definition UPDATE_ORCHESTRATOR_ACTIONS : list string := ["update_assignment"; "update_cancel"; "update_rollback"].
Definition FLEET_CATEGORIES : list string :=
  ["rules"; "text_prompts"; "visual_prompts"; "detector_config"; "delivery_settings"; "alert_sinks"; "live_view"].

Definition mem (s : string) (l : list string) : bool := existsb (str_eqb s) l.
#[global] Arguments mem : simpl never.

(** ** The action table *)

(** [None] for a path with encoded, empty or dot segments. *)
Definition rpc_path_parts (path : string) : option (list string) :=
  let path := match split "?" path with p :: _ => p | [] => path end in
  if contains path "%" || contains path "#" || contains path "\" || contains path "//" ||
     existsb (fun part => mem part ["."; ".."]) (split "/" path) then None
  else
    let path := default path (strip_suffix "/" path) in
    Some (split "/" (trim_start_matches "/" path)).

(** A segment of a pattern: one of some literals, [_], or a name with the guard that it is a [u64]. *)
Inductive Seg := Lit (alternatives : list string) | Any | Num.

Definition seg_matches (p : Seg) (s : string) : bool :=
  match p with
  | Lit l => mem s l
  | Any => true
  | Num => is_some (parse_u64 s)
  end.

Fixpoint segs_match (ps : list Seg) (parts : list string) : bool :=
  match ps, parts with
  | [], [] => true
  | p :: ps, s :: parts => seg_matches p s && segs_match ps parts
  | _, _ => false
  end.

(** One alternative of an arm: its verbs and its segments. *)
Definition Pat : Type := list string * list Seg.

Definition pat_matches (verb : string) (parts : list string) (p : Pat) : bool := mem verb p.1 && segs_match p.2 parts.

(** The first arm with a matching alternative. *)
Definition first_arm (verb : string) (parts : list string) (arms : list (list Pat * list string)) : option (list string) :=
  snd <$> List.find (fun arm => existsb (pat_matches verb parts) arm.1) arms.

#[local] Abbreviation l x := (Lit [x]).

Definition arms_before_cameras : list (list Pat * list string) := [
  ([(["POST"], [l "diag_collect"])], ["diagnostics.collect"]);
  ([(["POST"], [Lit ["update_assignment"; "update_cancel"; "update_rollback"]])], ["fleet.apply"; "fleet.firmware"]);
  ([(["PUT"], [l "admin"; l "remote_access"])], ["shell.policy"]);
  ([(["POST"], [l "admin"; l "remote-access"; l "restart-sshd"])], ["shell.manage"]);
  ([(["POST"], [l "admin"; l "clips"; Num; l "replicate"])], ["clips.expedite"]);
  ([(["POST"], [l "admin"; l "fleet"; Lit FLEET_CATEGORIES])], ["fleet.apply"]);
  ([(["PUT"], [l "admin"; l "network"; Lit ["plan"; "roles"]]);
    (["POST"], [l "admin"; l "network"; l "plan"; Lit ["apply"; "confirm"; "rollback"]])], ["settings.network"])
].

Definition arms_after_cameras : list (list Pat * list string) := [
  ([(["PUT"], [l "admin"; l "server"; l "identity"]); (["DELETE"], [l "admin"; l "cloud"; l "enrollment"])],
   ["settings.write"; "cores.manage"]);
  ([(["POST"], [l "admin"; l "cameras"]);
    (["POST"], [l "admin"; l "cameras"; l "reprobe"]);
    (["POST"], [l "admin"; l "cameras"; l "reprobe"; l "apply"]);
    (["PUT"], [l "admin"; l "storage"; l "cold"]);
    (["PUT"; "DELETE"], [l "admin"; l "storage"; l "backends"; Any]);
    (["PUT"], [l "admin"; l "runtime"; l "usb_preferred"]);
    (["PUT"], [l "admin"; l "delivery"]);
    (["PUT"; "DELETE"], [l "admin"; l "sinks"; l "config"; Any; Any]);
    (["POST"], [l "admin"; l "sinks"; l "config"; Any; Any; l "test"]);
    (["PUT"], [l "admin"; l "reid"; l "config"]);
    (["PUT"], [l "admin"; l "live-view"; l "transport"]);
    (["POST"], [l "admin"; l "oauth"; Any; l "start"]);
    (["POST"], [l "admin"; l "discovery"; Lit ["onvif"; "scan"]]);
    (["POST"], [l "admin"; l "discovery"; l "sessions"; Any; Lit ["probe-rtsp"; "onvif-streams"; "cancel"]]);
    (["POST"], [l "admin"; l "visual-prompts"]);
    (["DELETE"], [l "admin"; l "visual-prompts"; Any]);
    (["PUT"], [l "admin"; l "server"; Lit ["bind"; "watermarks"; "inference"]]);
    (["POST"], [l "admin"; l "server"; l "restart"]);
    (["PUT"], [l "admin"; l "auth"; l "config"]);
    (["POST"], [l "admin"; l "auth"; l "oidc"; l "test-discovery"]);
    (["POST"], [l "admin"; l "cloud"; l "enroll"]);
    (["POST"], [l "admin"; l "speakers"]);
    (["PUT"; "DELETE"], [l "admin"; l "speakers"; Any]);
    (["PUT"], [l "admin"; l "speakers"; Any; l "cameras"]);
    (["POST"], [l "admin"; l "speakers"; Any; l "test"])], ["settings.write"]);
  ([(["POST"], [l "admin"; l "users"]);
    (["PUT"; "DELETE"], [l "admin"; l "users"; Any]);
    (["POST"], [l "admin"; l "users"; Any; Lit ["reset-password"; "unlock"]])], ["members.manage"]);
  ([(["GET"], [l "admin"; l "diagnostics"; l "export"])], ["diagnostics.read"]);
  ([(["GET"], [l "admin"; Lit ["storage"; "delivery"; "sinks"; "remote_access"; "users"; "audit"; "visual-prompts"; "cameras"]]);
    (["GET"], [l "admin"; l "cameras"; l "stats"]);
    (["GET"], [l "admin"; l "sinks"; l "health"]);
    (["GET"], [l "admin"; l "live"; l "status"]);
    (["GET"], [l "admin"; l "reid"; l "status"]);
    (["GET"], [l "admin"; l "system"; l "metrics-history"]);
    (["GET"], [l "admin"; l "live-view"; l "transport"]);
    (["GET"], [l "admin"; l "oauth"; l "status"]);
    (["GET"], [l "admin"; l "discovery"; l "sessions"; Any]);
    (["GET"], [l "admin"; l "audit"; l "resource"; Any; Any]);
    (["GET"], [l "admin"; l "visual-prompts"; Any]);
    (["GET"], [l "admin"; l "fleet"; l "managed"]);
    (["GET"], [l "admin"; l "server"; Lit ["bind"; "watermarks"; "inference"; "identity"; "all"]]);
    (["GET"], [l "admin"; l "auth"; l "config"]);
    (["GET"], [l "admin"; l "cloud"; l "enrollment"]);
    (["GET"], [l "admin"; l "network"; Lit ["interfaces"; "plan"; "roles"]]);
    (["GET"], [l "admin"; l "network"; l "apply"; l "status"]);
    (["GET"], [l "admin"; l "speakers"]);
    (["GET"], [l "admin"; l "speakers"; Any])], ["settings.read"])
].

Definition camera_arms : list (list Pat * list string) := [
  ([(["POST"], [l "ptz"])], ["live.ptz"; "settings.write"]);
  ([(["POST"], [l "firmware:upgrade"])], ["fleet.firmware"]);
  ([(["PUT"], [l "network"; l "interface"])], ["settings.network"]);
  ([(["POST"], [l "talk-down"]); (["POST"], [l "talk-down"; l "stop"])], ["live.talkdown"]);
  ([(["GET"], [l "talk-down"])], ["settings.read"; "live.talkdown"]);
  ([(["PUT"], [l "talk-down"]);
    (["PUT"; "DELETE"], []);
    (["PUT"], [Lit ["imaging"; "encoder"]]);
    (["PUT"], [l "network"; l "safe"]);
    (["PUT"], [l "deviceio"; l "relays"]);
    (["POST"], [l "device"]);
    (["POST"], [l "imaging"; l "focus"]);
    (["POST"], [l "deviceio"; l "osd"]);
    (["POST"; "DELETE"], [l "visual-prompts"; Any])], ["settings.write"]);
  ([(["GET"], [Lit ["stats"; "imaging"; "encoder"; "snapshot"; "network"; "speakers"; "device"; "visual-prompts"]]);
    (["GET"], [l "ptz"; Lit ["presets"; "nodes"; "status"; "config-options"]]);
    (["GET"], [l "media"; l "profiles"]);
    (["GET"], [l "device"; l "log"]);
    (["GET"], [l "deviceio"; Lit ["relays"; "inputs"; "audio-sources"; "osds"]])], ["settings.read"])
].

Definition camera_rpc_permissions (verb : string) (tail : list string) : list string :=
  default [] (first_arm verb tail camera_arms).

(** [["admin", "cameras", id, tail @ ..]] with an [id] that is a number. *)
Definition camera_path (parts : list string) : option (Z * list string) :=
  match parts with
  | a :: b :: id :: tail => if str_eqb a "admin" && str_eqb b "cameras" then (fun n => (n, tail)) <$> parse_u64 id else None
  | _ => None
  end.

Definition rpc_permissions (env : EnvelopeContext) : list string :=
  match rpc_path_parts (path env) with
  | None => []
  | Some parts =>
      let verb := to_uppercase (method env) in
      match first_arm verb parts arms_before_cameras with
      | Some perms => perms
      | None =>
          match camera_path parts with
          | Some (_, tail) => camera_rpc_permissions verb tail
          | None => default [] (first_arm verb parts arms_after_cameras)
          end
      end
  end.

(** ** The body *)

(** [v.get(key)] *)
Definition json_get (key : string) (v : JsonValue) : option JsonValue :=
  match v with
  | JObject fields => snd <$> List.find (fun kv => str_eqb kv.1 key) fields
  | _ => None
  end.

Definition json_str (v : JsonValue) : option string := match v with JString s => Some s | _ => None end.

Definition PTZ_MOVES : list string := ["move"; "relative_move"; "absolute_move"; "stop"; "goto_preset"; "goto_home"].
Definition PTZ_SETTINGS : list string := ["set_preset"; "remove_preset"; "set_home"; "aux"].

(** The permission a PTZ body asks for. *)
Definition ptz_required (payload : option JsonValue) : option string :=
  match (payload ≫= json_get "action") ≫= json_str with
  | Some action =>
      if mem action PTZ_MOVES then Some "live.ptz"
      else if mem action PTZ_SETTINGS then Some "settings.write" else None
  | None => None
  end.

Definition CAMERA_KEYS : list string := ["camera_id"; "edge_camera_id"; "camera_ids"].

(** The camera a JSON id names. *)
Definition id_of (v : JsonValue) : option Z :=
  match as_u64 v with
  | Some n => Some n
  | None => json_str v ≫= parse_u64
  end.

Definition names_camera (camera : Z) (v : JsonValue) : bool :=
  forallb (fun id => bool_decide (id_of id = Some camera)) (match v with JArray ids => ids | other => [other] end).

(** The loop over [pending], a stack, with its fuel; [None] when the fuel runs out. *)
Fixpoint only_camera (fuel : nat) (camera : Z) (pending : list JsonValue) : option bool :=
  match pending with
  | [] => Some true
  | v :: rest =>
      match fuel with
      | O => None
      | S fuel =>
          match v with
          | JObject fields =>
              if forallb (fun kv => negb (mem kv.1 CAMERA_KEYS) || names_camera camera kv.2) fields then
                only_camera fuel camera
                  (rev (map snd (List.filter (fun kv => negb (mem kv.1 CAMERA_KEYS)) fields)) ++ rest)
              else Some false
          | JArray values => only_camera fuel camera (rev values ++ rest)
          | _ => only_camera fuel camera rest
          end
      end
  end.

Fixpoint json_size (v : JsonValue) : nat :=
  match v with
  | JArray values => S (sum_list_with json_size values)
  | JObject fields => S (sum_list_with (fun kv => json_size kv.2) fields)
  | _ => 1
  end.

(** What the loop computes: no camera id anywhere in the value names another camera. *)
Fixpoint names_only (camera : Z) (v : JsonValue) : bool :=
  match v with
  | JObject fields =>
      forallb (fun kv => if mem kv.1 CAMERA_KEYS then names_camera camera kv.2 else names_only camera kv.2) fields
  | JArray values => forallb (names_only camera) values
  | _ => true
  end.

(** ** The verifier *)

Record JwsHeader := mkHeader { alg : string; kid : option string }.

Record Verifier (Key : Type) := mkVerifier {
  core_id : string;
  trusted_keys : gmap string Key;
  allow_kidless_when_single : bool;
}.
Arguments mkVerifier {Key} core_id trusted_keys allow_kidless_when_single.
Arguments core_id {Key} v.
Arguments trusted_keys {Key} v.
Arguments allow_kidless_when_single {Key} v.

Definition verifier_new {Key} (core_id : string) (keys : list (string * Key)) : option (Verifier Key) :=
  match keys with
  | [] => None
  | _ => Some (mkVerifier core_id (list_to_map (rev keys)) false)
  end.

Definition allows_system_action (a : VerifiedActor) (env : EnvelopeContext) : bool :=
  if negb (starts_with (sub a) "system:") then negb (str_eqb (role a) "system") && negb (starts_with (role a) "system:")
  else
    str_eqb (method env) "POST" &&
    (if str_eqb (sub a) "system:update-orchestrator" then mem (path env) UPDATE_ORCHESTRATOR_ACTIONS
     else if str_eqb (sub a) "system:api-gateway" then
       match strip_prefix "/admin/fleet/" (path env) with Some category => mem category FLEET_CATEGORIES | None => false end
     else false).

Definition is_safe_http_method (m : string) : bool := mem (to_uppercase m) ["GET"; "HEAD"; "OPTIONS"].

Section verifier.
Context {Key : Type}.
Context (b64_decode : string -> option string).
Context (parse_header : string -> option JwsHeader) (parse_claims : string -> option ActorTokenClaims)
  (parse_shell_claims : string -> option ShellActorTokenClaims) (parse_json : string -> option JsonValue).
(** [key.verify(message, signature)], for a signature of the right length. *)
Context (ed25519_verify : Key -> string -> string -> bool).

Definition rpc_body_matches (env : EnvelopeContext) (permission : string) (body : option string) : bool :=
  match rpc_path_parts (path env) with
  | None => false
  | Some parts =>
      match camera_path parts with
      | None => true
      | Some (camera, tail) =>
          let payload := body ≫= parse_json in
          if bool_decide (tail = ["ptz"]) && eq_ignore_ascii_case (method env) "POST" &&
             negb (bool_decide (ptz_required payload = Some permission)) then false
          else
            let pending := option_list payload in
            default false (only_camera (sum_list_with json_size pending) camera pending)
      end
  end.

Definition allows_rpc (a : VerifiedActor) (env : EnvelopeContext) (body : option string) (legacy_allowed : bool) : bool :=
  if negb (allows_system_action a env) then false
  else
    match perm a with
    | None => legacy_allowed && (is_safe_http_method (method env) || negb (bool_decide (rpc_permissions env = [])))
    | Some permission => mem permission (rpc_permissions env) && rpc_body_matches env permission body
    end.

Definition SIGNATURE_SIZE : Z := 64.

(** The key of a header. *)
Definition resolve_key (v : Verifier Key) (h : JwsHeader) : option Key :=
  match kid h with
  | Some k => trusted_keys v !! k
  | None =>
      if allow_kidless_when_single v && bool_decide (size (trusted_keys v) = 1%nat) then
        snd <$> head (map_to_list (trusted_keys v))
      else None
  end.

Definition verified_claims_bytes (v : Verifier Key) (token : string) : result string RejectReason :=
  match split "." token with
  | [header_b64; claims_b64; sig_b64] =>
      match b64_decode header_b64, b64_decode claims_b64, b64_decode sig_b64 with
      | Some header_bytes, Some claims_bytes, Some sig_bytes =>
          match parse_header header_bytes with
          | None => Err (Invalid MalformedJws)
          | Some h =>
              if negb (str_eqb (alg h) "EdDSA") then Err (Invalid UnsupportedAlg)
              else
                match resolve_key v h with
                | None => Err (Invalid UnknownKeyId)
                | Some key =>
                    if negb (blen sig_bytes =? SIGNATURE_SIZE) then Err (Invalid BadSignature)
                    else if negb (ed25519_verify key (header_b64 +:+ "." +:+ claims_b64) sig_bytes) then Err (Invalid BadSignature)
                    else Ok claims_bytes
                end
          end
      | _, _, _ => Err (Invalid MalformedJws)
      end
  | _ => Err (Invalid MalformedJws)
  end.

Definition check_window (now iat exp : Z) : result unit RejectReason :=
  if negb (iat <? 2 ^ 63) || negb (exp <? 2 ^ 63) then Err (Invalid MalformedClaims)
  else if now + CLOCK_SKEW_SECS <? iat then Err (Invalid NotYetValid)
  else if exp <=? now - CLOCK_SKEW_SECS then Err (Invalid Expired)
  else Ok tt.

Definition actor_of (c : ActorTokenClaims) : VerifiedActor :=
  mkActor (c_sub c) (c_role c) (c_perm c) (c_jti c) (c_org_id c) (c_actor_org_id c).

(** The checks of an RPC token in their order. *)
Definition verify_no_replay (v : Verifier Key) (now : Z) (token : string) (env : EnvelopeContext) :
    result VerifiedActor RejectReason :=
  let? bytes := verified_claims_bytes v token in
  match parse_claims bytes with
  | None => Err (Invalid MalformedClaims)
  | Some c =>
      if negb (str_eqb (c_aud c) EXPECTED_AUDIENCE) then Err (Invalid WrongAudience)
      else if negb (str_eqb (c_core_id c) (core_id v)) then Err (Invalid WrongCoreId)
      else if negb (str_eqb (c_http_method c) (method env)) then Err (Invalid MethodMismatch)
      else if negb (str_eqb (c_path c) (path env)) then Err (Invalid PathMismatch)
      else
        try? check_window now (c_iat c) (c_exp c) in
        if match c_perm c with Some p => negb (mem p (rpc_permissions env)) | None => false end then
          Err (Invalid PermissionMismatch)
        else if negb (allows_system_action (actor_of c) env) then Err (Invalid SystemSubNotPermittedForMethod)
        else Ok (actor_of c)
  end.

Definition verify_with_request_id (v : Verifier Key) (now : Z) (token : string) (env : EnvelopeContext)
    (request_id : option string) : SE JtiReplayCache RejectReason VerifiedActor := fun c =>
  match verify_no_replay v now token env with
  | Err e => (Err e, c)
  | Ok actor =>
      let '(fresh, c) := insert_keyed (jti actor) request_id c in
      if fresh then (Ok actor, c) else (Err (Invalid Replay), c)
  end.

Definition verify_shell (v : Verifier Key) (now : Z) (token session_id : string) :
    SE JtiReplayCache RejectReason VerifiedActor := fun cache =>
  match verified_claims_bytes v token with
  | Err e => (Err e, cache)
  | Ok bytes =>
      match parse_shell_claims bytes with
      | None => (Err (Invalid MalformedClaims), cache)
      | Some c =>
          if negb (str_eqb (s_aud c) SHELL_AUDIENCE) then (Err (Invalid WrongAudience), cache)
          else if negb (str_eqb (s_core_id c) (core_id v)) then (Err (Invalid WrongCoreId), cache)
          else if negb (str_eqb (s_session_id c) session_id) then (Err (Invalid PathMismatch), cache)
          else
            match check_window now (s_iat c) (s_exp c) with
            | Err e => (Err e, cache)
            | Ok _ =>
                let '(fresh, cache) := insert_keyed (s_jti c) None cache in
                if fresh then (Ok (mkActor (s_sub c) (s_role c) None (s_jti c) (s_org_id c) None), cache)
                else (Err (Invalid Replay), cache)
            end
      end
  end.
End verifier.

(** ** The body: facts *)

Lemma json_size_pos v : (0 < json_size v)%nat.
Proof. destruct v; simpl; lia. Qed.

Lemma names_only_object camera fields :
  names_only camera (JObject fields) =
  forallb (fun kv => negb (mem kv.1 CAMERA_KEYS) || names_camera camera kv.2) fields &&
  forallb (names_only camera) (map snd (List.filter (fun kv => negb (mem kv.1 CAMERA_KEYS)) fields)).
Proof.
  simpl. induction fields as [|[k v] fields IH]; [done|]. simpl. rewrite IH.
  destruct (mem k CAMERA_KEYS); simpl; [by rewrite andb_assoc|].
  destruct (names_only camera v); simpl; [done|]. by rewrite andb_false_r.
Qed.

Lemma fields_size (p : string * JsonValue -> bool) fields :
  (sum_list_with json_size (map snd (List.filter p fields)) <= sum_list_with (fun kv => json_size kv.2) fields)%nat.
Proof. induction fields as [|[k v] fields IH]; simpl; [lia|]. destruct (p (k, v)); simpl; lia. Qed.

Lemma sum_rev l : sum_list_with json_size (rev l) = sum_list_with json_size l.
Proof. induction l as [|v l IH]; [done|]. simpl. rewrite sum_list_with_app, IH. simpl. lia. Qed.

Lemma forallb_rev {A} (p : A -> bool) l : forallb p (rev l) = forallb p l.
Proof.
  apply eq_true_iff_eq. rewrite !forallb_forall. split; intros H x Hx; apply H; [by apply -> in_rev|by apply in_rev].
Qed.

(** With fuel for every node, the loop ends and computes the recursive test. *)
Lemma only_camera_spec fuel : forall camera pending,
  (sum_list_with json_size pending <= fuel)%nat -> only_camera fuel camera pending = Some (forallb (names_only camera) pending).
Proof.
  induction fuel as [|fuel IH]; intros camera [|v rest] Hf; try done; [exfalso; simpl in Hf; pose proof (json_size_pos v); lia|].
  simpl in Hf. pose proof (json_size_pos v). destruct v; cbn [only_camera]; try (rewrite IH by (simpl in *; lia); done).
  - rewrite IH; [|simpl in Hf; rewrite sum_list_with_app, sum_rev; lia].
    by rewrite forallb_app, forallb_rev.
  - change (forallb (names_only camera) (JObject fields :: rest)) with (names_only camera (JObject fields) && forallb (names_only camera) rest).
    rewrite names_only_object. destruct (forallb _ fields); [|done]. rewrite IH.
    + by rewrite forallb_app, forallb_rev.
    + simpl in Hf. rewrite sum_list_with_app, sum_rev. pose proof (fields_size (fun kv => negb (mem kv.1 CAMERA_KEYS)) fields). lia.
Qed.

(** The body check is the recursive one, with the fuel the model gives it: on a camera's path
    it passes exactly when a PTZ body asks for the permission in hand and no camera id anywhere in
    the body, at any depth, is another camera's; the loop always ends. *)
Lemma body_check_is_recursive (parse_json : string -> option JsonValue) env permission body :
  rpc_body_matches parse_json env permission body =
  match rpc_path_parts (path env) with
  | None => false
  | Some parts =>
      match camera_path parts with
      | None => true
      | Some (camera, tail) =>
          let payload := body ≫= parse_json in
          (negb (bool_decide (tail = ["ptz"]) && eq_ignore_ascii_case (method env) "POST") ||
           bool_decide (ptz_required payload = Some permission)) &&
          match payload with Some v => names_only camera v | None => true end
      end
  end.
Proof.
  unfold rpc_body_matches. destruct (rpc_path_parts (path env)) as [parts|]; [|done].
  destruct (camera_path parts) as [[camera tail]|]; [|done]. cbn zeta.
  rewrite only_camera_spec by done.
  destruct (bool_decide (tail = ["ptz"]) && _), (bool_decide (ptz_required _ = _)); simpl; try done;
    (destruct (body ≫= parse_json) as [x|]; simpl; [by rewrite andb_true_r|done]).
Qed.

(** ** What a verified token proves *)

Section vouched.
Context {Key : Type} (b64_decode : string -> option string).
Context (parse_header : string -> option JwsHeader) (parse_claims : string -> option ActorTokenClaims)
  (parse_json : string -> option JsonValue) (ed25519_verify : Key -> string -> string -> bool).

Record vouched (v : Verifier Key) (now : Z) (token : string) (env : EnvelopeContext) (a : VerifiedActor) : Prop := {
  v_signed : exists h p s key signature bytes c,
    split "." token = [h; p; s] /\ b64_decode s = Some signature /\ b64_decode p = Some bytes /\
    ed25519_verify key (h +:+ "." +:+ p) signature = true /\
    (exists k, trusted_keys v !! k = Some key) /\ parse_claims bytes = Some c /\ a = actor_of c /\
    c_aud c = EXPECTED_AUDIENCE /\ c_core_id c = core_id v /\
    c_http_method c = method env /\ c_path c = path env /\
    c_iat c <= now + CLOCK_SKEW_SECS /\ now - CLOCK_SKEW_SECS < c_exp c;
  v_system : allows_system_action a env = true;
}.

Lemma resolve_key_trusted (v : Verifier Key) h key : resolve_key v h = Some key -> exists k, trusted_keys v !! k = Some key.
Proof.
  unfold resolve_key. destruct (kid h) as [k|]; [by exists k|]. destruct (_ && _); [|done].
  destruct (map_to_list (trusted_keys v)) as [|[k x] l] eqn:E; [done|]. intros [= <-]. exists k.
  apply elem_of_map_to_list. rewrite E. by left.
Qed.

Lemma verify_vouched v now token env a :
  verify_no_replay b64_decode parse_header parse_claims ed25519_verify v now token env = Ok a ->
  vouched v now token env a.
Proof.
  unfold verify_no_replay, verified_claims_bytes.
  destruct (split "." token) as [|h [|p [|s [|]]]] eqn:Es; try done.
  destruct (b64_decode h) as [hb|] eqn:E1; [|done]. destruct (b64_decode p) as [pb|] eqn:E2; [|done].
  destruct (b64_decode s) as [sb|] eqn:E3; [|done]. destruct (parse_header hb) as [hd|]; [|done].
  destruct (negb (str_eqb (alg hd) "EdDSA")); [done|]. destruct (resolve_key v hd) as [key|] eqn:Ek; [|done].
  destruct (negb (blen sb =? SIGNATURE_SIZE)); [done|].
  destruct (ed25519_verify key (h +:+ "." +:+ p) sb) eqn:Ev; [|done]. simpl.
  destruct (parse_claims pb) as [c|] eqn:Ec; [|done]. unfold str_eqb.
  do 4 (case_bool_decide; [|done]). simpl.
  destruct (check_window now (c_iat c) (c_exp c)) eqn:Ew; [|done].
  destruct (match c_perm c with Some _ => _ | None => false end); [done|].
  destruct (allows_system_action (actor_of c) env) eqn:Ea; [|done]. intros [= <-].
  apply resolve_key_trusted in Ek. unfold check_window in Ew.
  destruct (negb (c_iat c <? 2 ^ 63) || _); [done|]. destruct (Z.ltb_spec (now + CLOCK_SKEW_SECS) (c_iat c)); [done|].
  destruct (Z.leb_spec (c_exp c) (now - CLOCK_SKEW_SECS)); [done|].
  split; [|done]. exists h, p, s, key, sb, pb, c. by split_and!.
Qed.
End vouched.
