(* ===== verification/RpcDispatch.v ===== *)
(** The dispatcher of cloud RPCs, [nexus-cloud-client/src/dispatcher.rs], over the verifier of
    [ActorToken] and the caches of [ReplayCache].

    What the handler answers is an argument of the call; the world records the handler's calls
    and the audit in order. Each access to a cache is one locked step, and the admission of a
    key is one of them, so two calls that interleave at an [await] are told apart there. *)
From Stdlib Require Import Ascii.
From S2P Require Import Prelude Text Float Types Alert ReplayCache ActorToken.

(** ** Data *)

Inductive DispatchError := Reject (r : RejectReason) | Handler (e : string).

Definition error_wire_code (e : DispatchError) : string :=
  match e with Reject r => wire_code r | Handler _ => "internal_error" end.

(** The methods a [system:] subject may invoke. *)
Record SystemMethodPolicy := mkPolicy { permitted : gset string }.

Definition deny_all : SystemMethodPolicy := mkPolicy ∅.
Definition permitting (methods : list string) : SystemMethodPolicy := mkPolicy (list_to_set methods).
Definition permit (m : string) (p : SystemMethodPolicy) : SystemMethodPolicy := mkPolicy ({[m]} ∪ permitted p).
Definition allows (p : SystemMethodPolicy) (m : string) : bool := bool_decide (m ∈ permitted p).
Definition policy_default : SystemMethodPolicy := permitting ["entitlement_update"].

Record HandlerCall := mkCall {
  h_method : string;
  h_envelope : EnvelopeContext;
  h_actor : VerifiedActor;
  h_body : option string;
}.

Record World := mkWorld {
  replay : JtiReplayCache;
  response_cache : option RpcResponseCache;
  audited : list (string * EnvelopeContext * VerifiedActor);
  handled : list HandlerCall;
}.

Definition set_replay (c : JtiReplayCache) (w : World) : World := mkWorld c (response_cache w) (audited w) (handled w).
Definition set_responses (c : option RpcResponseCache) (w : World) : World := mkWorld (replay w) c (audited w) (handled w).

Definition ANONYMOUS_READ_SUB : string := "anonymous:cloud-read".
Definition ANONYMOUS_READ_ROLE : string := "anonymous".

Definition anonymous_read_actor : VerifiedActor := mkActor ANONYMOUS_READ_SUB ANONYMOUS_READ_ROLE None "" "" None.

Record RpcCallPayload := mkPayload {
  p_actor_token : option string;
  p_body : option string;
  p_method : string;
  p_path : string;
  p_request_id : option string;
}.

Inductive EnvelopeBody := RpcCall (p : RpcCallPayload) | OtherBody.

Record RpcResponsePayload := mkResponse { resp_body : JsonValue; resp_status : Z }.

(** The last segment of the path that is not empty. *)
Definition derive_method_name (p : RpcCallPayload) : string :=
  default "_root" (List.find (fun s => negb (str_eqb s "")) (rev (split "/" (p_path p)))).

(** ** The dispatcher *)

Abbreviation DM := (SE World DispatchError).

Section dispatcher.
Context {Key : Type}.
Context (b64_decode : string -> option string) (b64_standard : string -> option string).
Context (parse_header : string -> option JwsHeader) (parse_claims : string -> option ActorTokenClaims).
Context (parse_json : string -> option JsonValue) (from_utf8_lossy : string -> string).
Context (ed25519_verify : Key -> string -> string -> bool).
Context (v : Verifier Key) (policy : SystemMethodPolicy).

#[local] Abbreviation verify := (verify_no_replay b64_decode parse_header parse_claims ed25519_verify v).
#[local] Abbreviation allowed := (allows_rpc parse_json).

Definition call_handler (m : string) (env : EnvelopeContext) (a : VerifiedActor) (body : option string)
    (answer : result string string) : DM string :=
  modify (fun w => mkWorld (replay w) (response_cache w) (audited w) (handled w ++ [mkCall m env a body])) ;;
  match answer with Ok b => mret b | Err e => throw (Handler e) end.

Definition check_system_sub_and_audit (m : string) (env : EnvelopeContext) (a : VerifiedActor) : DM unit :=
  guard_err (negb (starts_with (sub a) "system:" && negb (allows policy m)))
    (Reject (Invalid SystemSubNotPermittedForMethod)) ;;
  modify (fun w => mkWorld (replay w) (response_cache w) (audited w ++ [(m, env, a)]) (handled w)).

Definition admit_key (j : string) (request_id : option string) : DM bool := fun w =>
  let '(fresh, c) := insert_keyed j request_id (replay w) in (Ok fresh, set_replay c w).

Definition lookup_response (j rid : string) : DM (option string) :=
  gets (fun w => response_cache w ≫= get_response j rid).

Definition store_response (j rid body : string) : DM unit :=
  modify (fun w => set_responses (insert_response j rid body <$> response_cache w) w).

(** [Result] into the program. *)
Definition lift {A} (r : result A RejectReason) : DM A :=
  match r with Ok a => mret a | Err e => throw (Reject e) end.

Definition dispatch_inner (now : Z) (m : string) (env : EnvelopeContext) (token request_id body : option string)
    (answer : result string string) : DM string :=
  match token with
  | None =>
      if is_safe_http_method (method env) then call_handler m env anonymous_read_actor body answer
      else throw (Reject Missing)
  | Some token =>
      cache ← gets response_cache;
      match cache, request_id with
      | Some _, Some rid =>
          actor ← lift (verify now token env);
          guard_err (allowed actor env body true) (Reject (Invalid PermissionMismatch)) ;;
          hit ← lookup_response (jti actor) rid;
          match hit with
          | Some cached => mret cached
          | None =>
              fresh ← admit_key (jti actor) (Some rid);
              guard_err fresh (Reject (Invalid Replay)) ;;
              check_system_sub_and_audit m env actor ;;
              body_out ← call_handler m env actor body answer;
              store_response (jti actor) rid body_out ;;
              mret body_out
          end
      | _, _ =>
          actor ← part replay set_replay Reject
            (verify_with_request_id b64_decode parse_header parse_claims ed25519_verify v now token env request_id);
          guard_err (allowed actor env body true) (Reject (Invalid PermissionMismatch)) ;;
          check_system_sub_and_audit m env actor ;;
          call_handler m env actor body answer
      end
  end.

Definition decode_payload_body (p : RpcCallPayload) : result (option string) RejectReason :=
  match p_body p with
  | None => Ok None
  | Some b64 => match b64_standard b64 with Some b => Ok (Some b) | None => Err (Invalid MalformedClaims) end
  end.

Definition dispatch_envelope (now : Z) (e : EnvelopeBody) (answer : result string string) : DM RpcResponsePayload :=
  match e with
  | OtherBody => throw (Reject (Invalid MalformedClaims))
  | RpcCall p =>
      body ← lift (decode_payload_body p);
      out ← dispatch_inner now (derive_method_name p) (mkEnvelope (p_method p) (p_path p)) (p_actor_token p)
        (p_request_id p) body answer;
      mret (mkResponse
        (if str_eqb out "" then JNull else default (JString (from_utf8_lossy out)) (parse_json out)) 200)
  end.

(** One inbound call, for sequences of them. *)
Record Inbound := mkInbound {
  i_now : Z;
  i_method : string;
  i_env : EnvelopeContext;
  i_token : option string;
  i_request_id : option string;
  i_body : option string;
  i_answer : result string string;
}.

#[export] Instance dispatch_machine : Machine Inbound World (result string DispatchError) := fun i w =>
  let '(r, w') := dispatch_inner (i_now i) (i_method i) (i_env i) (i_token i) (i_request_id i) (i_body i) (i_answer i) w in (w', r).
End dispatcher.

(** ** What one call does *)

Section facts.
Context {Key : Type}.
Context (b64_decode : string -> option string) (b64_standard : string -> option string).
Context (parse_header : string -> option JwsHeader) (parse_claims : string -> option ActorTokenClaims).
Context (parse_json : string -> option JsonValue) (from_utf8_lossy : string -> string).
Context (ed25519_verify : Key -> string -> string -> bool).
Context (v : Verifier Key) (policy : SystemMethodPolicy).

#[local] Abbreviation verify := (verify_no_replay b64_decode parse_header parse_claims ed25519_verify v).
#[local] Abbreviation allowed := (allows_rpc parse_json).
#[local] Abbreviation verified := (vouched b64_decode parse_claims ed25519_verify v).
#[local] Abbreviation machine := (dispatch_machine b64_decode parse_header parse_claims parse_json ed25519_verify v policy).

#[local] Instance this_machine : Machine Inbound World (result string DispatchError) := machine.

Definition call_of (i : Inbound) (a : VerifiedActor) : HandlerCall := mkCall (i_method i) (i_env i) a (i_body i).
Definition answered (i : Inbound) : result string DispatchError :=
  match i_answer i with Ok b => Ok b | Err e => Err (Handler e) end.
Definition key_of (i : Inbound) (a : VerifiedActor) : string := compose_key (jti a) (i_request_id i).

(** The token of [i] verifies, as actor [a]. *)
Definition token_of (i : Inbound) (a : VerifiedActor) : Prop :=
  exists t, i_token i = Some t /\ verify (i_now i) t (i_env i) = Ok a.

(** Whether the call goes through the response cache. *)
Definition cached_path (w : World) (i : Inbound) : bool := is_some (response_cache w) && is_some (i_request_id i).

(** What is stored after the call: its answer, when it has one and goes through the cache. *)
Definition responses_after (i : Inbound) (a : VerifiedActor) (w : World) : option RpcResponseCache :=
  match i_request_id i, i_answer i with
  | Some rid, Ok b => insert_response (jti a) rid b <$> response_cache w
  | _, _ => response_cache w
  end.

Inductive outcome (i : Inbound) (w : World) : result string DispatchError -> World -> Prop :=
| rejected e w' :
    handled w' = handled w -> audited w' = audited w -> response_cache w' = response_cache w ->
    (w' = w \/ exists a, token_of i a /\ w' = set_replay (insert_keyed (jti a) (i_request_id i) (replay w)).2 w) ->
    outcome i w (Err (Reject e)) w'
| replayed a rid b :
    token_of i a -> allowed a (i_env i) (i_body i) true = true -> i_request_id i = Some rid ->
    response_cache w ≫= get_response (jti a) rid = Some b -> outcome i w (Ok b) w
| anonymous :
    i_token i = None -> is_safe_http_method (method (i_env i)) = true ->
    outcome i w (answered i) (mkWorld (replay w) (response_cache w) (audited w) (handled w ++ [call_of i anonymous_read_actor]))
| executed a c :
    token_of i a -> allowed a (i_env i) (i_body i) true = true ->
    (starts_with (sub a) "system:" = true -> allows policy (i_method i) = true) ->
    (forall rid, i_request_id i = Some rid -> response_cache w ≫= get_response (jti a) rid = None) ->
    insert_keyed (jti a) (i_request_id i) (replay w) = (true, c) ->
    outcome i w (answered i)
      (mkWorld c (responses_after i a w) (audited w ++ [(i_method i, i_env i, a)]) (handled w ++ [call_of i a])).

Lemma gate_spec m env a w :
  check_system_sub_and_audit policy m env a w =
  if starts_with (sub a) "system:" && negb (allows policy m)
  then (Err (Reject (Invalid SystemSubNotPermittedForMethod)), w)
  else (Ok tt, mkWorld (replay w) (response_cache w) (audited w ++ [(m, env, a)]) (handled w)).
Proof. unfold check_system_sub_and_audit, guard_err. by destruct (_ && _). Qed.

(** The system gate, the audit and the handler, after the admission. *)
Lemma admitted_outcome i w a c (k : string -> DM string) :
  token_of i a -> allowed a (i_env i) (i_body i) true = true ->
  (forall rid, i_request_id i = Some rid -> response_cache w ≫= get_response (jti a) rid = None) ->
  insert_keyed (jti a) (i_request_id i) (replay w) = (true, c) ->
  (forall b s, i_answer i = Ok b -> response_cache s = response_cache w ->
     k b s = (Ok b, set_responses (responses_after i a w) s)) ->
  yields (outcome i w) (check_system_sub_and_audit policy (i_method i) (i_env i) a ;;
    b ← call_handler (i_method i) (i_env i) a (i_body i) (i_answer i); k b) (set_replay c w).
Proof.
  intros Ht Ha Hm Hc Hk. apply yields_bind. rewrite gate_spec.
  destruct (starts_with (sub a) "system:" && negb (allows policy (i_method i))) eqn:Eg.
  { apply rejected; [done..|]. right. exists a. by rewrite Hc. }
  assert (starts_with (sub a) "system:" = true -> allows policy (i_method i) = true) as Hs.
  { intros E. rewrite E in Eg. by destruct (allows policy (i_method i)). }
  pose proof (executed i w a c Ht Ha Hs Hm Hc) as H. unfold answered, responses_after in *.
  apply yields_bind. unfold call_handler, mbind, se_bind, modify, throw. destruct (i_answer i) as [b|e] eqn:Eb; simpl.
  - unfold yields. by rewrite Hk.
  - by destruct (i_request_id i).
Qed.

(** The path without the response cache. *)
Lemma plain_outcome i w t :
  i_token i = Some t -> (forall rid, i_request_id i = Some rid -> response_cache w = None) ->
  yields (outcome i w) (actor ← part replay set_replay Reject
      (verify_with_request_id b64_decode parse_header parse_claims ed25519_verify v (i_now i) t (i_env i) (i_request_id i));
    guard_err (allowed actor (i_env i) (i_body i) true) (Reject (Invalid PermissionMismatch)) ;;
    check_system_sub_and_audit policy (i_method i) (i_env i) actor ;;
    call_handler (i_method i) (i_env i) actor (i_body i) (i_answer i)) w.
Proof.
  intros Et Hr. assert (forall e w', set_replay (replay w) w = w' -> outcome i w (Err (Reject e)) w') as Hsame.
  { intros e w' <-. destruct w. apply rejected; [done..|by left]. }
  apply yields_bind. unfold part, verify_with_request_id.
  destruct (verify (i_now i) t (i_env i)) as [a|e] eqn:Ev; [|by apply Hsame].
  assert (token_of i a) as Ht by by exists t.
  destruct (insert_keyed (jti a) (i_request_id i) (replay w)) as [fresh c] eqn:Ec.
  assert (forall e, outcome i w (Err (Reject e)) (set_replay c w)) as Hrej.
  { intros e. apply rejected; [done..|]. right. exists a. by rewrite Ec. }
  destruct fresh; [|apply Hrej]. apply yields_guard; intros Ha; [|apply Hrej].
  pose proof (admitted_outcome i w a c mret Ht Ha) as H. unfold yields in *.
  assert (forall (m : DM unit) (n : DM string) s, (m ;; b ← n; mret b) s = (m ;; n) s) as Hret.
  { intros m n s. unfold mbind, se_bind. destruct (m s) as [[[]|e] s']; [|done]. by destruct (n s') as [[b|e] s'']. }
  rewrite Hret in H. apply H; [|done|].
  - intros rid E. by rewrite (Hr rid E).
  - intros b s Hb Hs. unfold responses_after. rewrite Hb. destruct (i_request_id i) as [rid|] eqn:E.
    + rewrite (Hr rid eq_refl) in *. destruct s. simpl in *. by subst.
    + destruct s. simpl in *. by subst.
Qed.

Lemma dispatch_outcome i w : outcome i w (mstep i w).2 (mstep i w).1.
Proof.
  unfold mstep, this_machine, dispatch_machine.
  enough (yields (outcome i w) (dispatch_inner b64_decode parse_header parse_claims parse_json ed25519_verify v policy
    (i_now i) (i_method i) (i_env i) (i_token i) (i_request_id i) (i_body i) (i_answer i)) w) as H.
  { unfold yields in H. by destruct (dispatch_inner _ _ _ _ _ _ _ _ _ _ _ _ _ _ w). }
  assert (forall e, outcome i w (Err (Reject e)) w) as Hsame by (intros; apply rejected; [done..|by left]).
  unfold dispatch_inner. destruct (i_token i) as [t|] eqn:Et.
  2: { destruct (is_safe_http_method (method (i_env i))) eqn:Es; [|apply Hsame].
       pose proof (anonymous i w Et Es) as H. unfold yields, call_handler, call_of, answered in *. simpl. by destruct (i_answer i). }
  assert (forall a, verify (i_now i) t (i_env i) = Ok a -> token_of i a) as Htok by (intros a Ha; by exists t).
  apply yields_bind. simpl. destruct (response_cache w) as [cache|] eqn:Er; [destruct (i_request_id i) as [rid|] eqn:Erid|].
  { apply yields_bind. unfold lift. destruct (verify (i_now i) t (i_env i)) as [a|e] eqn:Ev; [|apply Hsame].
    apply yields_guard; intros Ha; [|apply Hsame].
    apply yields_bind. simpl. destruct (response_cache w ≫= get_response (jti a) rid) as [b|] eqn:Eb; [by apply (replayed i w a rid b); auto|].
    apply yields_bind. unfold admit_key. destruct (insert_keyed (jti a) (Some rid) (replay w)) as [fresh c] eqn:Ec.
    apply yields_guard; intros ->.
    - apply admitted_outcome; [by apply Htok|done| |by rewrite Erid|].
      + by intros ? [= <-]%(eq_trans (eq_sym Erid)).
      + intros b s Hb Hs. unfold responses_after, store_response, mbind, se_bind, modify. simpl. by rewrite Erid, Hb, Hs.
    - apply rejected; [done..|]. right. exists a. rewrite Erid, Ec. by split; [apply Htok|]. }
  - rewrite <- Erid. apply plain_outcome; [done|]. intros rid. by rewrite Erid.
  - by apply plain_outcome.
Qed.

(** ** Authorisation *)

(** What lets the call in the record happen: an inbound call of the run, either a read without a
    token as the anonymous actor, or a call whose token vouches for the actor, with a permission
    for the request, under the policy for system subjects, and with an audit record. *)
Definition authorised (ops : list Inbound) (w : World) (h : HandlerCall) : Prop :=
  exists i, i ∈ ops /\ h = call_of i (h_actor h) /\
  ((i_token i = None /\ is_safe_http_method (method (i_env i)) = true /\ h_actor h = anonymous_read_actor) \/
   (exists t, i_token i = Some t /\ verified (i_now i) t (i_env i) (h_actor h) /\
      allowed (h_actor h) (i_env i) (i_body i) true = true /\
      (starts_with (sub (h_actor h)) "system:" = true -> allows policy (i_method i) = true) /\
      (i_method i, i_env i, h_actor h) ∈ audited w)).

Lemma token_vouched i a : token_of i a -> exists t, i_token i = Some t /\ verified (i_now i) t (i_env i) a.
Proof. intros (t & Et & Ev). exists t. split; [done|]. by eapply verify_vouched. Qed.

(** A step adds at most one call, which the inbound call authorises. *)
Lemma step_authorised i w :
  (handled (mstep i w).1 = handled w \/ exists h, handled (mstep i w).1 = handled w ++ [h] /\ authorised [i] (mstep i w).1 h) /\
  exists more, audited (mstep i w).1 = audited w ++ more.
Proof.
  destruct (dispatch_outcome i w) as [e w' Hh Ha _ _|a rid b _ _ _ _|Ht Hs|a c Ht Ha Hs _ _]; simpl.
  - split; [by left|]. exists []. by rewrite app_nil_r.
  - split; [by left|]. exists []. by rewrite app_nil_r.
  - split; [|exists []; by rewrite app_nil_r]. right. eexists. split; [done|]. exists i. split; [by left|]. split; [done|]. by left.
  - split; [|by eexists]. right. eexists. split; [done|]. exists i. split; [by left|]. split; [done|]. right.
    destruct (token_vouched i a Ht) as (t & Et & Hv). exists t. split_and!; [done..|]. simpl. apply elem_of_app. right. by left.
Qed.

(** C5. The handler never runs for an unauthorised call: whatever calls come in, each call the
    handler received is one of them, with its own method, path and body, and either it carried no
    token and is a GET, HEAD or OPTIONS handled as the anonymous reader, or its token was signed
    by a trusted key for this core, this method and path and this time, the actor's permission
    covers the request and its body, a system subject is on the method's allow-list, and the
    audit has a record of it. *)
Theorem rpc_runs_only_when_authorised ops w :
  handled w = [] -> Forall (authorised ops (mrun ops w).1) (handled (mrun ops w).1).
Proof.
  intros Hw. assert (forall ops w, (exists more, audited (mrun ops w).1 = audited w ++ more) /\
    exists new, handled (mrun ops w).1 = handled w ++ new /\ Forall (authorised ops (mrun ops w).1) new) as H.
  2: { destruct (H ops w) as (_ & new & -> & Hnew). by rewrite Hw. }
  clear. intros ops. induction ops as [|i ops IH]; intros w.
  { split; [exists []|exists []; split; [|done]]; by rewrite app_nil_r. }
  rewrite mrun_cons. simpl. destruct (IH (mstep i w).1) as ([more Ea] & new & Eh & Hnew).
  destruct (step_authorised i w) as [Hstep [more' Ea']].
  split; [exists (more' ++ more); by rewrite Ea, Ea', app_assoc|].
  assert (Forall (authorised (i :: ops) (mrun ops (mstep i w).1).1) new) as Hnew'.
  { eapply Forall_impl; [exact Hnew|]. intros h (j & Hj & H). exists j. split; [by right|done]. }
  destruct Hstep as [Es|(h & Es & j & ->%list_elem_of_singleton & Hc & Hj)]; rewrite Eh, Es.
  - by exists new.
  - exists (h :: new). split; [by rewrite <- app_assoc|]. constructor; [|done]. exists i. split; [by left|]. split; [done|].
    destruct Hj as [Hj|(t & H1 & H2 & H3 & H4 & H5)]; [by left|]. right. exists t. split_and!; [done..|].
    rewrite Ea. apply elem_of_app. by left.
Qed.

(** ** Retries *)

Record caches_ok (w : World) : Prop := {
  c_replay : jti_ok (replay w);
  c_responses : forall r, response_cache w = Some r -> responses_ok r /\ 0 < r_capacity r;
  c_capacity : 0 < capacity (replay w);
}.

Lemma admission_ok i a w : caches_ok w ->
  jti_ok (insert_keyed (jti a) (i_request_id i) (replay w)).2 /\
  capacity (insert_keyed (jti a) (i_request_id i) (replay w)).2 = capacity (replay w).
Proof.
  intros [Hr _ Hc]. pose proof (insert_keyed_spec (jti a) (i_request_id i) (replay w) Hr Hc) as H.
  destruct (insert_keyed _ _ _). by destruct H as (? & ? & _).
Qed.

Lemma step_caches_ok i w : caches_ok w -> caches_ok (mstep i w).1 /\ capacity (replay (mstep i w).1) = capacity (replay w).
Proof.
  intros Hw. pose proof Hw as [H1 H2 H3].
  destruct (dispatch_outcome i w) as [e w' _ _ Er [->|(a & _ & ->)]|a rid b _ _ _ _|_ _|a c _ _ _ _ Hc]; simpl; try (by split; [split|]).
  - destruct (admission_ok i a w Hw) as [? E]. split; [split; simpl; [done|done|by rewrite E]|done].
  - destruct (admission_ok i a w Hw) as [Hok E]. rewrite Hc in Hok, E. simpl in *. split; [|done].
    split; simpl; [done| |by rewrite E]. unfold responses_after.
    destruct (i_request_id i) as [rid|], (i_answer i) as [b|]; try done. intros r. destruct (response_cache w) as [r0|]; [|done].
    intros [= <-]. destruct (H2 r0 eq_refl). rewrite insert_response_capacity. split; [by apply insert_response_ok|done].
Qed.

(** A key admitted stays held, one call less per step. *)
Lemma step_held k n i w : caches_ok w -> 0 < n -> held k n (replay w) -> held k (n - 1) (replay (mstep i w).1).
Proof.
  intros Hw Hn Hk. pose proof Hw as [H1 _ H3]. assert (held k (n - 1) (replay w)) by (apply (held_less _ n); [lia|done]).
  destruct (dispatch_outcome i w) as [e w' _ _ Er [->|(a & _ & ->)]|a rid b _ _ _ _|_ _|a c _ _ _ _ Hc]; simpl; try done.
  - by apply held_insert.
  - pose proof (held_insert k n (jti a) (i_request_id i) (replay w) H1 H3 Hn Hk) as Hins. by rewrite Hc in Hins.
Qed.

Lemma run_held k ops : forall w n, caches_ok w -> zlength ops < n -> held k n (replay w) ->
  caches_ok (mrun ops w).1 /\ held k (n - zlength ops) (replay (mrun ops w).1).
Proof.
  induction ops as [|i ops IH]; intros w n Hw Hn Hk; [by rewrite Z.sub_0_r|].
  rewrite mrun_cons. unfold zlength in *. simpl length in *. simpl fst. destruct (IH (mstep i w).1 (n - 1)) as [H1 H2].
  - by apply step_caches_ok. - lia. - apply step_held; [done|lia|done].
  - split; [done|]. by replace (n - Z.of_nat (S (length ops))) with (n - 1 - Z.of_nat (length ops)) by lia.
Qed.

(** The step that ran the handler for a token admitted its key. *)
Lemma executed_held i w a n :
  caches_ok w -> token_of i a -> handled (mstep i w).1 <> handled w -> n < capacity (replay w) ->
  held (key_of i a) n (replay (mstep i w).1).
Proof.
  intros [H1 _ H3] (t & Et & Ev). destruct (dispatch_outcome i w) as [e w' Hh _ _ _|a' rid b _ _ _ _|Ht _|a' c (t' & Et' & Ev') _ _ _ Hc]; simpl; try done.
  { by rewrite Et in Ht. }
  rewrite Et in Et'. injection Et' as ->. rewrite Ev in Ev'. injection Ev' as ->. intros _ Hn. by eapply held_new.
Qed.

(** C6. At most once: when a call with a token ran the handler, then no later call whose token
    id and request id form the same key runs it again, while fewer calls than the replay cache
    holds keys lie between them. *)
Theorem rpc_runs_at_most_once i mid j a a' w :
  caches_ok w -> token_of i a -> token_of j a' -> key_of j a' = key_of i a ->
  handled (mstep i w).1 <> handled w -> zlength mid + 1 < capacity (replay w) ->
  let w' := (mrun (i :: mid) w).1 in handled (mstep j w').1 = handled w'.
Proof.
  intros Hw Hi (t & Et & Ev) Hk Hran Hlen w'. subst w'. rewrite mrun_cons. simpl.
  destruct (step_caches_ok i w Hw) as [Hw1 _].
  pose proof (executed_held i w a (zlength mid + 1) Hw Hi Hran Hlen) as Hh.
  destruct (run_held (key_of i a) mid (mstep i w).1 (zlength mid + 1) Hw1 ltac:(lia) Hh) as [[H1 _ H3] H2]. apply held_in in H2.
  destruct (dispatch_outcome j (mrun mid (mstep i w).1).1) as [e w' E _ _ _|a2 rid b _ _ _ _|Ht _|a2 c (t2 & Et2 & Ev2) _ _ _ Hc]; simpl; try done.
  { by rewrite Et in Ht. }
  exfalso. rewrite Et in Et2. injection Et2 as ->. rewrite Ev in Ev2. injection Ev2 as ->. unfold key_of in *.
  rewrite replay_refused in Hc; [done..|]. by rewrite Hk.
Qed.

(** [b] is what the cache answers for [k] during [n] more calls. *)
Definition answers (k b : string) (n : Z) (w : World) : Prop :=
  exists c, response_cache w = Some c /\ stored k b n c.

Lemma step_answers k b n i w : caches_ok w -> 0 < n -> answers k b n w -> answers k b (n - 1) (mstep i w).1.
Proof.
  intros [_ H2 _] Hn (c & Ec & Hs). destruct (H2 c Ec) as [Hok Hcap].
  assert (stored k b (n - 1) c) as Hless by (apply (stored_less _ _ n); [lia|done]).
  destruct (dispatch_outcome i w) as [e w' _ _ Er _|a rid b' _ _ _ _|_ _|a c' _ _ _ Hm _]; unfold answers; simpl;
    [exists c; by rewrite Er|by exists c|by exists c|].
  unfold responses_after. rewrite Ec. destruct (i_request_id i) as [rid|], (i_answer i) as [b'|]; try by exists c.
  eexists. split; [done|]. apply stored_insert; [done..| |done]. intros E. specialize (Hm rid eq_refl). rewrite Ec in Hm.
  simpl in Hm. rewrite (stored_get k b n) in Hm; done.
Qed.

Lemma run_answers k b ops : forall w n, caches_ok w -> zlength ops < n -> answers k b n w ->
  caches_ok (mrun ops w).1 /\ answers k b (n - zlength ops) (mrun ops w).1.
Proof.
  induction ops as [|i ops IH]; intros w n Hw Hn Hk; [by rewrite Z.sub_0_r|].
  rewrite mrun_cons. unfold zlength in *. simpl length in *. simpl fst. destruct (IH (mstep i w).1 (n - 1)) as [H1 H2].
  - by apply step_caches_ok.
  - lia.
  - apply step_answers; [done|lia|done].
  - split; [done|]. by replace (n - Z.of_nat (S (length ops))) with (n - 1 - Z.of_nat (length ops)) by lia.
Qed.

(** A call that the cache answers. *)
Lemma served_from_cache j a rid b w :
  token_of j a -> allowed a (i_env j) (i_body j) true = true -> i_request_id j = Some rid ->
  response_cache w ≫= get_response (jti a) rid = Some b -> mstep j w = (w, Ok b).
Proof.
  intros (t & Et & Ev) Ha Er Hg. unfold mstep, this_machine, dispatch_machine, dispatch_inner. rewrite Et, Er.
  destruct (response_cache w) as [c|] eqn:Ec; [|done].
  unfold mbind, se_bind, gets, lift, guard_err, lookup_response. simpl. rewrite Ec, Ev. simpl. rewrite Ha. simpl.
  rewrite Ec. simpl in *. by rewrite Hg.
Qed.

(** Byte-identical retry: when a call that carries a request id ran the handler and was
    answered, every later call with the same key that is still allowed gets that same answer, and
    the handler does not run, while fewer calls than the response cache holds lie between. *)
Lemma retry_gets_the_first_answer i mid j a a' rid rid' b c w :
  caches_ok w -> token_of i a -> token_of j a' ->
  i_request_id i = Some rid -> i_request_id j = Some rid' -> key_of j a' = key_of i a ->
  allowed a' (i_env j) (i_body j) true = true ->
  handled (mstep i w).1 <> handled w -> i_answer i = Ok b ->
  response_cache w = Some c -> zlength mid + 1 < r_capacity c ->
  let w' := (mrun (i :: mid) w).1 in mstep j w' = (w', Ok b).
Proof.
  intros Hw (t & Et & Ev) Hj Er Er' Hk Ha Hran Hb Ec Hlen w'. subst w'. rewrite mrun_cons. simpl.
  destruct (step_caches_ok i w Hw) as [Hw1 _]. destruct (c_responses w Hw c Ec) as [Hok Hcap].
  assert (answers (key_of i a) b (zlength mid + 1) (mstep i w).1) as Hans.
  { destruct (dispatch_outcome i w) as [e w' Hh _ _ _|a2 rid2 b2 _ _ _ _|Ht _|a2 c2 (t2 & Et2 & Ev2) _ _ Hm _]; simpl; try done.
    { by rewrite Et in Ht. }
    rewrite Et in Et2. injection Et2 as <-. rewrite Ev in Ev2. injection Ev2 as <-.
    unfold answers, responses_after, key_of. simpl. rewrite Er, Hb, Ec in *. eexists. split; [done|].
    apply stored_new; [done..|]. specialize (Hm rid eq_refl). simpl in Hm. unfold get_response in Hm.
    destruct (Z.eqb_spec (r_capacity c) 0); [lia|done]. }
  destruct (run_answers _ b mid _ (zlength mid + 1) Hw1 ltac:(lia) Hans) as [[_ H2 _] (c' & Ec' & Hs)].
  apply (served_from_cache j a' rid'); [done..|]. rewrite Ec'. simpl. destruct (H2 c' Ec') as [_ Hcap'].
  apply (stored_get (key_of i a) b (zlength mid + 1 - zlength mid)); [done| |done]. rewrite <- Hk. unfold key_of. by rewrite Er'.
Qed.

(** ** Errors *)

(** The error paths: a mutating call without a token is rejected as missing, a token that
    does not verify with the verifier's reason, both with the world unchanged; a rejected call
    never ran the handler, left no audit record and stored no answer; a call that fails with the
    handler's error ran it once, and stored no answer. *)
Lemma failed_rpc_effects i w :
  (i_token i = None -> is_safe_http_method (method (i_env i)) = false -> mstep i w = (w, Err (Reject Missing))) /\
  (forall t e, i_token i = Some t -> verify (i_now i) t (i_env i) = Err e -> mstep i w = (w, Err (Reject e))) /\
  (forall e, (mstep i w).2 = Err (Reject e) ->
     handled (mstep i w).1 = handled w /\ audited (mstep i w).1 = audited w /\ response_cache (mstep i w).1 = response_cache w) /\
  (forall e, (mstep i w).2 = Err (Handler e) ->
     i_answer i = Err e /\ response_cache (mstep i w).1 = response_cache w /\
     exists h, handled (mstep i w).1 = handled w ++ [h]).
Proof.
  split_and!.
  - intros Et Hs. unfold mstep, this_machine, dispatch_machine, dispatch_inner. by rewrite Et, Hs.
  - intros t e Et Ev. unfold mstep, this_machine, dispatch_machine, dispatch_inner. rewrite Et.
    unfold mbind, se_bind, gets, part, verify_with_request_id, lift. simpl. rewrite Ev. destruct w as [x rc y z]. by destruct rc, (i_request_id i).
  - intros e. unfold answered. destruct (dispatch_outcome i w); unfold answered; simpl; try done; by destruct (i_answer i).
  - intros e. destruct (dispatch_outcome i w); unfold answered, responses_after; simpl; try done.
    + destruct (i_answer i) eqn:E; [done|]. intros [= ->]. split_and!; [done..|]. by eexists.
    + destruct (i_answer i) eqn:E; [done|]. intros [= ->]. split_and!; [done|by destruct (i_request_id i)|]. by eexists.
Qed.
End facts.

(** ** Concrete calls *)

Module Demo.
(** Token [h.id.sig] names the token id [id]; its signature is sixty-four bytes. *)
Definition sig64 : string := "0123456789abcdef0123456789abcdef0123456789abcdef0123456789abcdef".
Definition claims (jti : string) : option ActorTokenClaims :=
  Some (mkClaims None "nexus-edge-rpc" "core-1" 1060 "POST" 1000 jti "org-1" "/admin/cameras" None "operator" "user-1").
Definition token (jti : string) : string := "h." +:+ jti +:+ "." +:+ sig64.
Definition check (key msg sig : string) : bool := str_eqb key "pub" && str_eqb sig sig64.
Definition verifier : Verifier string := mkVerifier "core-1" {["k1" := "pub"]} false.

Definition call (jti rid answer : string) : Inbound :=
  mkInbound 1010 "cameras" (mkEnvelope "POST" "/admin/cameras") (Some (token jti)) (Some rid) None (Ok answer).
Definition fresh : World := mkWorld (with_capacity 8) (Some (responses_with_capacity 8)) [] [].
Definition actor (jti : string) : VerifiedActor := mkActor "user-1" "operator" None jti "org-1" None.
End Demo.

#[local] Instance demo_machine : Machine Inbound World (result string DispatchError) :=
  dispatch_machine Some (fun _ => Some (mkHeader "EdDSA" (Some "k1"))) Demo.claims (fun _ => None) Demo.check Demo.verifier policy_default.

Lemma demo_caches_ok : caches_ok Demo.fresh.
Proof.
  split; [by apply with_capacity_ok| |done]. intros r [= <-]. split; [by apply responses_start_ok|done].
Qed.

Lemma demo_token jti rid answer : jti ∈ ["j1"; "j2"] ->
  token_of Some (fun _ => Some (mkHeader "EdDSA" (Some "k1"))) Demo.claims Demo.check Demo.verifier
    (Demo.call jti rid answer) (Demo.actor jti).
Proof.
  intros H. exists (Demo.token jti). split; [done|].
  repeat (apply elem_of_cons in H as [->|H]; [by vm_compute|]). by apply not_elem_of_nil in H.
Qed.

(** A retry that rebuilds its token, so with a fresh token id, is not recognised by its request
    id: the handler runs a second time. *)
Example fresh_token_retry_runs_again :
  let w := (mrun [Demo.call "j1" "r" "first"; Demo.call "j2" "r" "second"] Demo.fresh).1 in length (handled w) = 2%nat.
Proof. by vm_compute. Qed.

Lemma rpc_runs_only_when_authorised_witness :
  handled Demo.fresh = [] /\
  Forall (authorised Some Demo.claims (fun _ => None) Demo.check Demo.verifier policy_default [Demo.call "j1" "r" "done"]
    (mrun [Demo.call "j1" "r" "done"] Demo.fresh).1) (handled (mrun [Demo.call "j1" "r" "done"] Demo.fresh).1).
Proof. split; [reflexivity|]. apply (rpc_runs_only_when_authorised Some (fun _ => Some (mkHeader "EdDSA" (Some "k1")))). reflexivity. Defined.

Lemma rpc_runs_at_most_once_witness :
  let w' := (mrun [Demo.call "j1" "r" "first"; Demo.call "j2" "q" "other"] Demo.fresh).1 in
  length (handled w') = 2%nat /\ handled (mstep (Demo.call "j1" "r" "again") w').1 = handled w'.
Proof.
  split; [by vm_compute|].
  apply (rpc_runs_at_most_once Some (fun _ => Some (mkHeader "EdDSA" (Some "k1"))) Demo.claims (fun _ => None) Demo.check
    Demo.verifier policy_default (Demo.call "j1" "r" "first") [Demo.call "j2" "q" "other"] (Demo.call "j1" "r" "again")
    (Demo.actor "j1") (Demo.actor "j1") Demo.fresh).
  - apply demo_caches_ok.
  - apply demo_token. by left.
  - apply demo_token. by left.
  - done.
  - by vm_compute.
  - done.
Defined.

Lemma retry_gets_the_first_answer_witness :
  let w' := (mrun [Demo.call "j1" "r" "first"; Demo.call "j2" "q" "other"] Demo.fresh).1 in
  mstep (Demo.call "j1" "r" "again") w' = (w', Ok "first").
Proof.
  apply (retry_gets_the_first_answer Some (fun _ => Some (mkHeader "EdDSA" (Some "k1"))) Demo.claims (fun _ => None) Demo.check
    Demo.verifier policy_default (Demo.call "j1" "r" "first") [Demo.call "j2" "q" "other"] (Demo.call "j1" "r" "again")
    (Demo.actor "j1") (Demo.actor "j1") "r" "r" "first" (responses_with_capacity 8) Demo.fresh).
  - apply demo_caches_ok.
  - apply demo_token. by left.
  - apply demo_token. by left.
  - done.
  - done.
  - done.
  - by vm_compute.
  - by vm_compute.
  - done.
  - done.
  - done.
Defined.

Lemma failed_rpc_effects_witness :
  mstep (mkInbound 1010 "cameras" (mkEnvelope "POST" "/admin/cameras") None (Some "r") None (Ok "x")) Demo.fresh =
  (Demo.fresh, Err (Reject Missing)).
Proof.
  apply (failed_rpc_effects Some (fun _ => Some (mkHeader "EdDSA" (Some "k1"))) Demo.claims (fun _ => None) Demo.check
    Demo.verifier policy_default (mkInbound 1010 "cameras" (mkEnvelope "POST" "/admin/cameras") None (Some "r") None (Ok "x")) Demo.fresh);
    reflexivity.
Defined.
