(* ===== verification/ClipStore.v ===== *)
(** The clip tables: [nexus-store/src/motion.rs] over [motion_clips], [motion_events],
    [storage_backends], [storage_cold_replica] and [engine_runtime_settings], with the columns of
    [alert_clips] that [nexus-store/src/alert_clip.rs] works on in file [AlertClips].

    A timestamp is nanoseconds since the epoch: the tables hold RFC 3339 text of one shape, whose
    order is that of the instants. A table is a map from ids, read in the order of the ids, which
    is SQLite's order for rows a query does not order. *)
From S2P Require Import Prelude Text Float Types Alert Order Outbox.

(** ** Rows *)

Inductive MotionEventKind := Born | Updated | Died.

Definition kind_as_str (k : MotionEventKind) : string :=
  match k with Born => "born" | Updated => "updated" | Died => "died" end.

Definition kind_parse : string -> option MotionEventKind :=
  match_str [("born", Born); ("updated", Updated); ("died", Died)].

#[export] Instance MotionEventKind_wire : WireEnum MotionEventKind.
Proof. refine {| wire_str := kind_as_str; wire_parse := kind_parse |}. solve_wire_exact kind_parse. Defined.

Record NewClip := mkNewClip {
  n_camera : Z;
  n_started : Z;
  n_hot_path : string;
  n_hot_handle : string;
  n_codec : string;
  n_container : string;
  n_width : Z;
  n_height : Z;
}.

Record ClipClose := mkClose {
  x_ended : Z;
  x_duration : Z;
  x_size : Z;
  x_hot_path : option string;
  x_sha256 : option string;
}.

(** The columns of a clip in the groups that are written together. *)
Record Finish := mkFinish { ended_at : option Z; duration_ms : Z; size_bytes : Z; sha256 : option string }.
Record Hot := mkHot { hot_handle : option string; hot_path : option string }.
Record Cold := mkCold { cold_handle : option string; cold_path : option string; cold_uploaded_at : option Z }.
Record Retry := mkRetry {
  cold_attempts : Z;
  cold_last_attempt_at : option Z;
  cold_next_attempt_at : option Z;
  cold_quarantined : bool;
  cold_last_error : option string;
}.
Record Announce := mkAnnounce {
  blob_url : option string;
  announce_id : option string;
  announced_at : option Z;
  announce_error : option string;
  announce_attempts : Z;
  announce_next_at : option Z;
  announce_core_id : option string;
}.

Record ClipRow := mkClip {
  id : Z;
  camera_id : Z;
  started_at : Z;
  codec : string;
  container : string;
  frame_width : Z;
  frame_height : Z;
  finish : Finish;
  hot : Hot;
  cold : Cold;
  priority : Z;
  retry : Retry;
  degraded : option Z;
  announce : Announce;
}.

Definition no_cold : Cold := mkCold None None None.
Definition no_retry : Retry := mkRetry 0 None None false None.
Definition no_announce : Announce := mkAnnounce None None None None 0 None None.

Definition fresh_clip (k : Z) (n : NewClip) : ClipRow :=
  mkClip k (n_camera n) (n_started n) (n_codec n) (n_container n) (n_width n) (n_height n)
    (mkFinish None 0 0 None) (mkHot (Some (n_hot_handle n)) (Some (n_hot_path n))) no_cold 0 no_retry None no_announce.

Definition with_finish (x : Finish) (r : ClipRow) : ClipRow :=
  mkClip (id r) (camera_id r) (started_at r) (codec r) (container r) (frame_width r) (frame_height r) x (hot r)
    (cold r) (priority r) (retry r) (degraded r) (announce r).
Definition with_hot (x : Hot) (r : ClipRow) : ClipRow :=
  mkClip (id r) (camera_id r) (started_at r) (codec r) (container r) (frame_width r) (frame_height r) (finish r) x
    (cold r) (priority r) (retry r) (degraded r) (announce r).
Definition with_cold (x : Cold) (r : ClipRow) : ClipRow :=
  mkClip (id r) (camera_id r) (started_at r) (codec r) (container r) (frame_width r) (frame_height r) (finish r) (hot r)
    x (priority r) (retry r) (degraded r) (announce r).
Definition with_priority (x : Z) (r : ClipRow) : ClipRow :=
  mkClip (id r) (camera_id r) (started_at r) (codec r) (container r) (frame_width r) (frame_height r) (finish r) (hot r)
    (cold r) x (retry r) (degraded r) (announce r).
Definition with_retry (x : Retry) (r : ClipRow) : ClipRow :=
  mkClip (id r) (camera_id r) (started_at r) (codec r) (container r) (frame_width r) (frame_height r) (finish r) (hot r)
    (cold r) (priority r) x (degraded r) (announce r).
Definition with_degraded (x : option Z) (r : ClipRow) : ClipRow :=
  mkClip (id r) (camera_id r) (started_at r) (codec r) (container r) (frame_width r) (frame_height r) (finish r) (hot r)
    (cold r) (priority r) (retry r) x (announce r).
Definition with_announce (x : Announce) (r : ClipRow) : ClipRow :=
  mkClip (id r) (camera_id r) (started_at r) (codec r) (container r) (frame_width r) (frame_height r) (finish r) (hot r)
    (cold r) (priority r) (retry r) (degraded r) x.

Record NewMotionEvent := mkMotion {
  m_camera : Z;
  m_clip : Z;
  m_track : Z;
  m_kind : MotionEventKind;
  m_captured : Z;
  m_bbox : BBox;
  m_label : string;
  m_confidence : f32;
  m_attributes : string;
}.

Record AlertClipRow := mkAlertClip {
  a_id : Z;
  a_camera : Z;
  a_path : string;
  a_started : Z;
  a_ready_at : option Z;
  a_state : string;
  a_duration : Z;
  a_size : Z;
  a_sha256 : option string;
  a_cold : Cold;
  a_attempts : Z;
  a_last_attempt : option Z;
  a_last_error : option string;
  a_announce : Announce;
}.

Record StorageBackendRow := mkBackend { b_kind : string; b_config : string; b_created : Z; b_updated : Z }.
Record ColdReplicaRow := mkReplica { backend_handle : option string; throttle_bps : Z; replica_updated : Z }.

(** ** The database

    [links] holds the columns [clip_id] and [alert_clip_id] of the events in [box]; [cameras] are
    the ids of the camera table; [enrolled] is [core_id] of [cloud_enrollment]. *)
Record Links := mkLinks { l_clip : option Z; l_alert : option Z }.

Record Db := mkDb {
  cameras : gset Z;
  clips : gmap Z ClipRow;
  next_clip : Z;
  motion : gmap Z NewMotionEvent;
  next_motion : Z;
  alerts : gmap Z AlertClipRow;
  next_alert : Z;
  box : OutboxTable;
  links : gmap string Links;
  backends : gmap string StorageBackendRow;
  replica : option ColdReplicaRow;
  settings : gmap string (option string);
  enrolled : option string;
}.

Definition set_clips (x : gmap Z ClipRow) (d : Db) : Db :=
  mkDb (cameras d) x (next_clip d) (motion d) (next_motion d) (alerts d) (next_alert d) (box d) (links d)
    (backends d) (replica d) (settings d) (enrolled d).
Definition set_motion (x : gmap Z NewMotionEvent) (next : Z) (d : Db) : Db :=
  mkDb (cameras d) (clips d) (next_clip d) x next (alerts d) (next_alert d) (box d) (links d)
    (backends d) (replica d) (settings d) (enrolled d).
Definition set_alerts (x : gmap Z AlertClipRow) (next : Z) (d : Db) : Db :=
  mkDb (cameras d) (clips d) (next_clip d) (motion d) (next_motion d) x next (box d) (links d)
    (backends d) (replica d) (settings d) (enrolled d).
Definition set_events (b : OutboxTable) (l : gmap string Links) (d : Db) : Db :=
  mkDb (cameras d) (clips d) (next_clip d) (motion d) (next_motion d) (alerts d) (next_alert d) b l
    (backends d) (replica d) (settings d) (enrolled d).
Definition set_backends (x : gmap string StorageBackendRow) (d : Db) : Db :=
  mkDb (cameras d) (clips d) (next_clip d) (motion d) (next_motion d) (alerts d) (next_alert d) (box d) (links d)
    x (replica d) (settings d) (enrolled d).
Definition set_replica (x : option ColdReplicaRow) (d : Db) : Db :=
  mkDb (cameras d) (clips d) (next_clip d) (motion d) (next_motion d) (alerts d) (next_alert d) (box d) (links d)
    (backends d) x (settings d) (enrolled d).
Definition set_settings (x : gmap string (option string)) (d : Db) : Db :=
  mkDb (cameras d) (clips d) (next_clip d) (motion d) (next_motion d) (alerts d) (next_alert d) (box d) (links d)
    (backends d) (replica d) x (enrolled d).

Inductive Missing := MissingClip (k : Z) | MissingAlertClip (k : Z) | MissingEvent (ev : string)
  | MissingBackend (h : string) | MissingReplica.

(** [StoreError]: a row that is not there, or the database's error. *)
Inductive DbError := NotFound (m : Missing) | Sqlx.

Abbreviation DbM := (SE Db DbError).

(** ** Statements *)

(** The three [CHECK]s of the table. *)
Definition clip_check (r : ClipRow) : bool :=
  (is_some (hot_handle (hot r)) || is_some (cold_handle (cold r))) &&
  (negb (is_some (hot_handle (hot r))) || is_some (hot_path (hot r))) &&
  (negb (is_some (cold_handle (cold r))) || (is_some (cold_path (cold r)) && is_some (cold_uploaded_at (cold r)))).

(** [REFERENCES storage_backends(handle)] *)
Definition handle_exists (d : Db) (h : option string) : bool :=
  match h with Some h => is_some (backends d !! h) | None => true end.

Definition clip_references (d : Db) (r : ClipRow) : bool :=
  bool_decide (camera_id r ∈ cameras d) && handle_exists d (hot_handle (hot r)) && handle_exists d (cold_handle (cold r)).

Definition clip_ok (d : Db) (r : ClipRow) : bool := clip_check r && clip_references d r.

(** [UPDATE motion_clips SET .. WHERE id = ? AND ..]: the number of rows it changed. The columns the
    statement writes are checked by SQLite, against the [CHECK]s and the references of migration 0004; a
    row that fails them is an error of the statement, which changes nothing. Which statements are ever
    refused is proved in file [Schema]. *)
Definition update_clip (k : Z) (p : ClipRow -> bool) (f : ClipRow -> ClipRow) : DbM Z := fun d =>
  match clips d !! k with
  | Some r =>
      if p r then
        if clip_ok d (f r) then (Ok 1, set_clips (<[k := f r]> (clips d)) d) else (Err Sqlx, d)
      else (Ok 0, d)
  | None => (Ok 0, d)
  end.

Definition any {A} (x : A) : bool := true.

(** An error when no row was changed. *)
Definition found (m : Missing) (stmt : DbM Z) : DbM unit :=
  n ← stmt; if n =? 0 then throw (NotFound m) else mret tt.

Definition clip_rows (d : Db) : list ClipRow := snd <$> sorted_entries (clips d).

Definition clips_where (p : ClipRow -> bool) (d : Db) : list ClipRow := List.filter p (clip_rows d).

(** [ORDER BY started_at ASC] *)
Definition by_start (a b : ClipRow) : comparison := Z.compare (started_at a) (started_at b).

(** ** The life of a clip *)

Definition open_clip (n : NewClip) : DbM Z := fun d =>
  let k := next_clip d in
  let r := fresh_clip k n in
  if clip_ok d r then
    (Ok k, mkDb (cameras d) (<[k := r]> (clips d)) (k + 1) (motion d) (next_motion d) (alerts d) (next_alert d) (box d)
             (links d) (backends d) (replica d) (settings d) (enrolled d))
  else (Err Sqlx, d).

Definition mark_clip_degraded (k dropped : Z) : DbM unit :=
  update_clip k any (with_degraded (Some dropped)) ;; mret tt.

Definition closed (x : ClipClose) (r : ClipRow) : ClipRow :=
  let sha := match x_sha256 x with Some s => Some s | None => sha256 (finish r) end in
  let path := match x_hot_path x with Some p => Some p | None => hot_path (hot r) end in
  with_finish (mkFinish (Some (x_ended x)) (x_duration x) (x_size x) sha) (with_hot (mkHot (hot_handle (hot r)) path) r).

Definition close_clip (k : Z) (x : ClipClose) : DbM unit := found (MissingClip k) (update_clip k any (closed x)).

Definition get_clip (k : Z) (d : Db) : option ClipRow := clips d !! k.

Definition oldest_clip_for_camera (cam : Z) (d : Db) : option ClipRow :=
  head (sort_by by_start (clips_where (fun r => camera_id r =? cam) d)).

Definition cameras_with_clips (d : Db) : list Z := merge_sort Z.le (remove_dups (camera_id <$> clip_rows d)).

Record PerCameraClipStats := mkStats { s_camera : Z; s_count : Z; s_bytes : Z; s_oldest : Z }.

Definition zsum (l : list Z) : Z := foldr Z.add 0 l.

Definition stats_of (d : Db) (cam : Z) : PerCameraClipStats :=
  let mine := clips_where (fun r => camera_id r =? cam) d in
  mkStats cam (zlength mine) (zsum ((fun r => size_bytes (finish r)) <$> mine))
    (match mine with [] => 0 | r :: rest => foldr (fun r m => Z.min (started_at r) m) (started_at r) rest end).

Definition per_camera_clip_stats (d : Db) : list PerCameraClipStats := stats_of d <$> cameras_with_clips d.

Definition known_clip_paths (d : Db) : list string := omap (fun r => hot_path (hot r)) (clip_rows d).

(** [DELETE FROM motion_clips] with its cascades: the motion events of the clip, and the events
    that link to it with their deliveries. *)
Definition linked_events (k : Z) (d : Db) : list string :=
  fst <$> map_to_list (filter (fun '(_, l) => l_clip l = Some k) (links d)).

Definition delete_clip (k : Z) (d : Db) : Db :=
  let gone := linked_events k d in
  mkDb (cameras d) (delete k (clips d)) (next_clip d) (filter (fun '(_, m) => m_clip m <> k) (motion d)) (next_motion d)
    (alerts d) (next_alert d) (foldr delete_event (box d) gone) (filter (fun '(_, l) => l_clip l <> Some k) (links d))
    (backends d) (replica d) (settings d) (enrolled d).

Definition cascade_delete_clip_metadata (k : Z) : DbM unit := fun d =>
  match clips d !! k with
  | None => (Err (NotFound (MissingClip k)), d)
  | Some _ => (Ok tt, delete_clip k d)
  end.

(** The events that link to the clip stay, without the link. *)
Definition unlink_clip (k : Z) (l : Links) : Links := if bool_decide (l_clip l = Some k) then mkLinks None (l_alert l) else l.

(** A transaction: nothing changes when the clip is not there. *)
Definition discard_clip_metadata (k : Z) : DbM unit := fun d =>
  match clips d !! k with
  | None => (Err (NotFound (MissingClip k)), d)
  | Some _ =>
      (Ok tt, mkDb (cameras d) (delete k (clips d)) (next_clip d) (filter (fun '(_, m) => m_clip m <> k) (motion d)) (next_motion d)
                (alerts d) (next_alert d) (box d) (unlink_clip k <$> links d) (backends d) (replica d) (settings d) (enrolled d))
  end.

Definition clips_older_than (cutoff limit : Z) (d : Db) : list ClipRow :=
  sql_limit limit (sort_by by_start (clips_where (fun r => started_at r <? cutoff) d)).

(** ** Motion events *)

Definition insert_motion_event (ev : NewMotionEvent) : DbM Z := fun d =>
  if bool_decide (m_camera ev ∈ cameras d) && is_some (clips d !! m_clip ev) then
    (Ok (next_motion d), set_motion (<[next_motion d := ev]> (motion d)) (next_motion d + 1) d)
  else (Err Sqlx, d).

Definition motion_rows (d : Db) : list (Z * NewMotionEvent) := sorted_entries (motion d).

Definition by_capture (a b : Z * NewMotionEvent) : comparison := Z.compare (m_captured a.2) (m_captured b.2).

Definition in_window (from to_ : Z) (m : NewMotionEvent) : bool := (from <=? m_captured m) && (m_captured m <=? to_).

Definition list_motion_events_for_camera (cam from to_ limit : Z) (d : Db) : list (Z * NewMotionEvent) :=
  sql_limit limit (sort_by by_capture
    (List.filter (fun m => (m_camera m.2 =? cam) && in_window from to_ m.2) (motion_rows d))).

Definition list_motion_events_for_clip (k : Z) (d : Db) : list (Z * NewMotionEvent) :=
  sort_by by_capture (List.filter (fun m => m_clip m.2 =? k) (motion_rows d)).

(** An empty filter is no filter; of a longer one the first thousand ids count. *)
Definition list_motion_events_across_cameras (ids : option (list Z)) (from to_ limit : Z) (d : Db) :
    list (Z * NewMotionEvent) :=
  let wanted (m : NewMotionEvent) :=
    match ids with
    | None | Some [] => true
    | Some ids => bool_decide (m_camera m ∈ take 1000 ids)
    end in
  sql_limit limit (sort_by (fun a b => by_capture b a)
    (List.filter (fun m => in_window from to_ m.2 && wanted m.2) (motion_rows d))).

Record MotionHistogramBucket := mkBucket { bucket : Z; bucket_start : Z; event_count : Z; clip_count : Z }.

Definition unix (t : Z) : Z := t / ns_per_sec.

Definition bucket_of (from width : Z) (m : NewMotionEvent) : Z := Z.quot (unix (m_captured m) - unix from) width.

Definition list_motion_histogram_for_camera (cam from to_ width : Z) (d : Db) : list MotionHistogramBucket :=
  let seen := snd <$> List.filter (fun m => (m_camera m.2 =? cam) && in_window from to_ m.2) (motion_rows d) in
  (fun b =>
    let mine := List.filter (fun m => bucket_of from width m =? b) seen in
    mkBucket b (from + secs (b * width)) (zlength mine) (zlength (remove_dups (m_clip <$> mine))))
  <$> merge_sort Z.le (remove_dups (bucket_of from width <$> seen)).

Definition link_event_to_clip (ev : string) (k : Z) : DbM unit := fun d =>
  match links d !! ev with
  | None => (Err (NotFound (MissingEvent ev)), d)
  | Some l =>
      if is_some (clips d !! k) then (Ok tt, set_events (box d) (<[ev := mkLinks (Some k) (l_alert l)]> (links d)) d)
      else (Err Sqlx, d)
  end.

Definition get_event_clip_id (ev : string) (d : Db) : result (option Z) DbError :=
  match links d !! ev with None => Err (NotFound (MissingEvent ev)) | Some l => Ok (l_clip l) end.

(** ** Cold storage *)

Definition pending_cold (r : ClipRow) : bool :=
  negb (is_some (cold_handle (cold r))) && is_some (ended_at (finish r)) && is_some (sha256 (finish r)) &&
  is_some (hot_handle (hot r)) && is_some (hot_path (hot r)) && negb (cold_quarantined (retry r)).

(** [at_ IS NULL OR at_ <= now] *)
Definition elapsed (now : Z) (at_ : option Z) : bool := match at_ with None => true | Some t => t <=? now end.

(** [? IS NULL OR started_at >= ?] *)
Definition above_floor (floor : option Z) (t : Z) : bool := match floor with None => true | Some f => f <=? t end.

(** [NULL] sorts first. *)
Definition opt_compare (a b : option Z) : comparison :=
  match a, b with
  | None, None => Eq
  | None, Some _ => Lt
  | Some _, None => Gt
  | Some x, Some y => Z.compare x y
  end.

(** [ORDER BY priority DESC, ended_at ASC] *)
Definition by_priority (a b : ClipRow) : comparison :=
  cthen (Z.compare (priority b) (priority a)) (opt_compare (ended_at (finish a)) (ended_at (finish b))).

Definition clips_pending_cold_upload (now limit : Z) (floor : option Z) (d : Db) : list ClipRow :=
  sql_limit limit (sort_by by_priority (clips_where (fun r =>
    pending_cold r && elapsed now (cold_next_attempt_at (retry r)) && above_floor floor (started_at r)) d)).

Fixpoint position {A} (p : A -> bool) (l : list A) : option Z :=
  match l with
  | [] => None
  | x :: l => if p x then Some 0 else (fun n => n + 1) <$> position p l
  end.

Definition pending_cold_upload_position (k : Z) (d : Db) : option Z :=
  (fun n => (n + 1) mod 2 ^ 32) <$> position (fun r => id r =? k) (sort_by by_priority (clips_where pending_cold d)).

Definition bump_clip_priority (k new : Z) : DbM bool :=
  n ← update_clip k (fun r => priority r <? new) (with_priority new); mret (0 <? n).

Definition bump_latest_pending_clip_for_camera (cam new : Z) : DbM (option Z) :=
  rows ← gets (clips_where (fun r => (camera_id r =? cam) && pending_cold r));
  match head (sort_by (fun a b => opt_compare (ended_at (finish b)) (ended_at (finish a))) rows) with
  | None => mret None
  | Some r => bumped ← bump_clip_priority (id r) new; mret (if bumped : bool then Some (id r) else None)
  end.

Record ColdReplicaStats := mkColdStats { pending_count : Z; replicated_count : Z; cold_only_count : Z; lifetime_bytes : Z }.

Definition replicated (r : ClipRow) : bool := is_some (cold_handle (cold r)).

Definition cold_replica_stats (d : Db) : ColdReplicaStats :=
  mkColdStats (zlength (clips_where pending_cold d)) (zlength (clips_where replicated d))
    (zlength (clips_where (fun r => replicated r && negb (is_some (hot_path (hot r)))) d))
    (zsum ((fun r => size_bytes (finish r)) <$> clips_where replicated d)).

Record ColdMark := mkMark { mark_handle : string; mark_path : string; mark_at : Z }.
Definition cold_of (m : ColdMark) : Cold := mkCold (Some (mark_handle m)) (Some (mark_path m)) (Some (mark_at m)).

Definition mark_cold_replicated (k : Z) (m : ColdMark) : DbM unit :=
  found (MissingClip k) (update_clip k any (with_cold (cold_of m))).

Definition stamped (url aid : string) (core : option string) (a : Announce) : Announce :=
  mkAnnounce (Some url) (Some aid) (announced_at a) (announce_error a) (announce_attempts a) (announce_next_at a) core.
Definition sent_once (next_at : Z) (a : Announce) : Announce :=
  mkAnnounce (blob_url a) (announce_id a) (announced_at a) (announce_error a) (announce_attempts a + 1) (Some next_at)
    (announce_core_id a).
Definition acked (at_ : Z) (rejection : option string) (a : Announce) : Announce :=
  mkAnnounce (blob_url a) (announce_id a) (Some at_) rejection (announce_attempts a) (announce_next_at a) (announce_core_id a).

Definition stamp_clip_announce (k : Z) (url aid : string) : DbM unit :=
  core ← gets enrolled;
  found (MissingClip k) (update_clip k any (fun r => with_announce (stamped url aid core (announce r)) r)).

Definition record_clip_announce_sent (k next_at : Z) : DbM unit :=
  found (MissingClip k) (update_clip k any (fun r => with_announce (sent_once next_at (announce r)) r)).

(** [core_id = NULL] is never true. *)
Definition pending_announce (d : Db) (now : Z) (floor : option Z) (started : Z) (uploaded : option Z) (a : Announce) : bool :=
  is_some (blob_url a) && negb (is_some (announced_at a)) && is_some uploaded &&
  (is_some (enrolled d) && bool_decide (announce_core_id a = enrolled d)) &&
  above_floor floor started && elapsed now (announce_next_at a).

Definition clips_pending_cloud_announce (limit now : Z) (floor : option Z) (d : Db) : list (ClipRow * option string * Z) :=
  (fun r => (r, blob_url (announce r), announce_attempts (announce r))) <$>
  sql_limit limit (sort_by (fun a b => opt_compare (announce_next_at (announce a)) (announce_next_at (announce b)))
    (clips_where (fun r => pending_announce d now floor (started_at r) (cold_uploaded_at (cold r)) (announce r)) d)).

Definition awaiting (aid : string) (a : Announce) : bool :=
  bool_decide (announce_id a = Some aid) && negb (is_some (announced_at a)).

Definition alert_with_announce (x : Announce) (r : AlertClipRow) : AlertClipRow :=
  mkAlertClip (a_id r) (a_camera r) (a_path r) (a_started r) (a_ready_at r) (a_state r) (a_duration r) (a_size r)
    (a_sha256 r) (a_cold r) (a_attempts r) (a_last_attempt r) (a_last_error r) x.

Definition record_clip_announce_ack (aid : string) (at_ : Z) (rejection : option string) : DbM Z := fun d =>
  let n := zlength (clips_where (fun r => awaiting aid (announce r)) d) in
  let m := zlength (List.filter (fun r => awaiting aid (a_announce r)) (snd <$> sorted_entries (alerts d))) in
  let clip r := if awaiting aid (announce r) then with_announce (acked at_ rejection (announce r)) r else r in
  let alert r := if awaiting aid (a_announce r) then alert_with_announce (acked at_ rejection (a_announce r)) r else r in
  (Ok (n + m), set_alerts (alert <$> alerts d) (next_alert d) (set_clips (clip <$> clips d) d)).

Definition record_cold_upload_failure (k now : Z) (error : string) (next_at : option Z) (quarantined : bool) : DbM unit :=
  found (MissingClip k) (update_clip k any (fun r =>
    with_retry (mkRetry (cold_attempts (retry r) + 1) (Some now) next_at quarantined (Some error)) r)).

Definition quarantine_clip (k now : Z) (reason : string) : DbM unit :=
  found (MissingClip k) (update_clip k any (fun r =>
    with_retry (mkRetry (cold_attempts (retry r)) (Some now) (cold_next_attempt_at (retry r)) true (Some reason)) r)).

(** ** Eviction candidates *)

Definition soft_candidate (cam : Z) (r : ClipRow) : bool :=
  (camera_id r =? cam) && is_some (hot_handle (hot r)) && is_some (cold_handle (cold r)).

Definition find_soft_evict_candidate (cam : Z) (d : Db) : option ClipRow :=
  head (sort_by by_start (clips_where (soft_candidate cam) d)).

Definition hard_candidate (cam cutoff : Z) (r : ClipRow) : bool :=
  (camera_id r =? cam) && negb (is_some (cold_handle (cold r))) &&
  (is_some (ended_at (finish r)) || (started_at r <? cutoff)).

Definition find_hard_evict_candidate (cam abandoned_cutoff : Z) (d : Db) : option ClipRow :=
  head (sort_by by_start (clips_where (hard_candidate cam abandoned_cutoff) d)).

Definition quarantined_hot (r : ClipRow) : bool := cold_quarantined (retry r) && is_some (hot_handle (hot r)).

Definition find_largest_quarantined_hot_clip (d : Db) : option ClipRow :=
  head (sort_by (fun a b => Z.compare (size_bytes (finish b)) (size_bytes (finish a))) (clips_where quarantined_hot d)).

Definition clear_hot_pointer (k : Z) : DbM Z :=
  update_clip k (fun r => is_some (cold_handle (cold r))) (with_hot (mkHot None None)).

Definition repopulate_hot_pointer (k : Z) (handle path : string) : DbM Z :=
  update_clip k (fun r => negb (is_some (hot_handle (hot r)))) (with_hot (mkHot (Some handle) (Some path))).

(** ** Backends, the replica policy and runtime settings *)

Definition read_cold_replica (d : Db) : result ColdReplicaRow DbError :=
  match replica d with Some r => Ok r | None => Err (NotFound MissingReplica) end.

Definition write_cold_replica (now : Z) (handle : option string) (throttle : Z) : DbM unit := fun d =>
  match replica d with
  | None => (Err (NotFound MissingReplica), d)
  | Some _ =>
      if handle_exists d handle then (Ok tt, set_replica (Some (mkReplica handle throttle now)) d) else (Err Sqlx, d)
  end.

Definition BACKEND_KINDS : list string := ["local"; "usb"; "lan"; "gdrive"; "onedrive"; "azure_blob"].

Definition upsert_storage_backend (now : Z) (handle kind config : string) : DbM unit := fun d =>
  if bool_decide (kind ∈ BACKEND_KINDS) then
    let created := match backends d !! handle with Some b => b_created b | None => truncate_second now end in
    (Ok tt, set_backends (<[handle := mkBackend kind config created now]> (backends d)) d)
  else (Err Sqlx, d).

Inductive DeleteBackendError := InUse (h : string) | ActiveCold (h : string) | Local (h : string) | StoreErr (e : DbError).

Definition uses_handle (h : string) (r : ClipRow) : bool :=
  bool_decide (hot_handle (hot r) = Some h) || bool_decide (cold_handle (cold r) = Some h).

Definition alert_uses_handle (h : string) (r : AlertClipRow) : bool := bool_decide (cold_handle (a_cold r) = Some h).

(** The clips are looked at first; the alert clips, which also refer to backends, are not, and then it is the
    database that refuses the deletion. *)
Definition delete_storage_backend (h : string) : SE Db DeleteBackendError unit := fun d =>
  if str_eqb h "local" then (Err (Local h), d)
  else if bool_decide ((replica d ≫= backend_handle) = Some h) then (Err (ActiveCold h), d)
  else if existsb (uses_handle h) (clip_rows d) then (Err (InUse h), d)
  else if negb (is_some (backends d !! h)) then (Err (StoreErr (NotFound (MissingBackend h))), d)
  else if existsb (alert_uses_handle h) (snd <$> sorted_entries (alerts d)) then (Err (StoreErr Sqlx), d)
  else (Ok tt, set_backends (delete h (backends d)) d).

Definition read_runtime_setting (key : string) (d : Db) : option (option string) := settings d !! key.

Definition write_runtime_setting (key : string) (value : option string) (d : Db) : Db :=
  set_settings (<[key := value]> (settings d)) d.

Definition delete_runtime_setting (key : string) (d : Db) : Db := set_settings (delete key (settings d)) d.

(** ** The invariant *)

Record tables_ok (d : Db) : Prop := {
  ok_clips : map_Forall (fun k r => id r = k /\ k < next_clip d /\ clip_ok d r = true) (clips d);
  ok_motion : map_Forall (fun _ m => is_Some (clips d !! m_clip m)) (motion d);
  ok_links : map_Forall (fun _ l => forall k, l_clip l = Some k -> is_Some (clips d !! k)) (links d);
  ok_replica : handle_exists d (replica d ≫= backend_handle) = true;
}.

(** The writes of the clip tables. *)
Inductive ClipOp :=
| OpenClip (n : NewClip)
| MarkDegraded (k dropped : Z)
| CloseClip (k : Z) (x : ClipClose)
| CascadeDelete (k : Z)
| InsertMotion (ev : NewMotionEvent)
| LinkEvent (ev : string) (k : Z)
| BumpPriority (k new : Z)
| BumpLatest (cam new : Z)
| MarkCold (k : Z) (m : ColdMark)
| StampAnnounce (k : Z) (url aid : string)
| AnnounceSent (k next_at : Z)
| AnnounceAck (aid : string) (at_ : Z) (rejection : option string)
| ColdFailure (k now : Z) (error : string) (next_at : option Z) (quarantined : bool)
| Quarantine (k now : Z) (reason : string)
| ClearHot (k : Z)
| RepopulateHot (k : Z) (handle path : string)
| WriteReplica (now : Z) (handle : option string) (throttle : Z)
| UpsertBackend (now : Z) (handle kind config : string)
| DeleteBackend (h : string)
| WriteSetting (key : string) (value : option string)
| DeleteSetting (key : string)
| DiscardClip (k : Z).

Definition clip_op (o : ClipOp) (d : Db) : Db :=
  match o with
  | OpenClip n => (open_clip n d).2
  | MarkDegraded k n => (mark_clip_degraded k n d).2
  | CloseClip k x => (close_clip k x d).2
  | CascadeDelete k => (cascade_delete_clip_metadata k d).2
  | InsertMotion ev => (insert_motion_event ev d).2
  | LinkEvent ev k => (link_event_to_clip ev k d).2
  | BumpPriority k n => (bump_clip_priority k n d).2
  | BumpLatest cam n => (bump_latest_pending_clip_for_camera cam n d).2
  | MarkCold k m => (mark_cold_replicated k m d).2
  | StampAnnounce k u a => (stamp_clip_announce k u a d).2
  | AnnounceSent k t => (record_clip_announce_sent k t d).2
  | AnnounceAck a t r => (record_clip_announce_ack a t r d).2
  | ColdFailure k now e t q => (record_cold_upload_failure k now e t q d).2
  | Quarantine k now r => (quarantine_clip k now r d).2
  | ClearHot k => (clear_hot_pointer k d).2
  | RepopulateHot k h p => (repopulate_hot_pointer k h p d).2
  | WriteReplica now h t => (write_cold_replica now h t d).2
  | UpsertBackend now h k c => (upsert_storage_backend now h k c d).2
  | DeleteBackend h => (delete_storage_backend h d).2
  | WriteSetting k v => write_runtime_setting k v d
  | DeleteSetting k => delete_runtime_setting k d
  | DiscardClip k => (discard_clip_metadata k d).2
  end.

#[export] Instance clip_machine : Machine ClipOp Db unit := fun o d => (clip_op o d, tt).

(** What all updates of a row leave alone. *)
Definition keeps_keys (f : ClipRow -> ClipRow) : Prop :=
  forall r, id (f r) = id r /\ camera_id (f r) = camera_id r /\ started_at (f r) = started_at r.

Lemma clips_put_ok d k r f :
  tables_ok d -> keeps_keys f -> clips d !! k = Some r -> clip_ok d (f r) = true -> tables_ok (set_clips (<[k := f r]> (clips d)) d).
Proof.
  intros [H1 H2 H3 H4] Hf Hk Hr.
  assert (forall k', is_Some (clips d !! k') -> is_Some (<[k := f r]> (clips d) !! k')) as Hdom.
  { intros k' Hk'. destruct (decide (k = k')) as [<-|Hne]; [rewrite lookup_insert_eq; by eexists|by rewrite lookup_insert_ne]. }
  split; simpl.
  - intros k' r'. destruct (decide (k = k')) as [<-|Hne].
    + rewrite lookup_insert_eq. intros [= <-]. destruct (H1 k r Hk) as (E & Hlt & _). destruct (Hf r) as [-> _]. done.
    + rewrite lookup_insert_ne by done. apply H1.
  - intros m ev Hm. apply Hdom. by eapply H2.
  - intros ev l Hl k' E. apply Hdom. by eapply H3.
  - done.
Qed.

Lemma update_clip_ok k p f d : tables_ok d -> keeps_keys f -> tables_ok (update_clip k p f d).2.
Proof.
  intros Hd Hf. unfold update_clip. destruct (clips d !! k) as [r|] eqn:Ek; [|done].
  destruct (p r); [|done]. destruct (clip_ok d (f r)) eqn:E; [|done]. by apply clips_put_ok.
Qed.

Lemma found_state m stmt d : (found m stmt d).2 = (stmt d).2.
Proof. unfold found, mbind, se_bind. destruct (stmt d) as [[n|e] d']; [|done]. by destruct (n =? 0). Qed.

Lemma preserves_found (I : Db -> Prop) m stmt : preserves I stmt -> preserves I (found m stmt).
Proof. intros H d Hd. rewrite found_state. by apply H. Qed.

#[export] Hint Resolve preserves_found update_clip_ok : nexus.

(** Clips are only deleted: what refers to the rest still finds it. *)
Lemma delete_clip_ok k d : tables_ok d -> tables_ok (delete_clip k d).
Proof.
  intros [H1 H2 H3 H4]. unfold delete_clip. split; simpl.
  - intros k' r [Hne Hk]%lookup_delete_Some. by apply H1.
  - intros i m [Hm Hne]%map_lookup_filter_Some. rewrite lookup_delete_ne by done. by eapply H2.
  - intros ev l [Hl Hne]%map_lookup_filter_Some k' E. rewrite lookup_delete_ne by congruence. by eapply H3.
  - done.
Qed.

(** A discarded clip's events lose their link and nothing else. *)
Lemma discard_clip_ok k d : tables_ok d -> tables_ok (discard_clip_metadata k d).2.
Proof.
  intros [H1 H2 H3 H4]. unfold discard_clip_metadata. destruct (clips d !! k); [|done]. split; simpl.
  - intros k' r [Hne Hk]%lookup_delete_Some. by apply H1.
  - intros i m [Hm Hne]%map_lookup_filter_Some. rewrite lookup_delete_ne by done. by eapply H2.
  - intros ev l' Hl k' E. rewrite lookup_fmap in Hl. apply fmap_Some in Hl as (l & Hl & ->). unfold unlink_clip in E.
    case_bool_decide as Hk; [done|]. rewrite lookup_delete_ne by congruence. by eapply H3.
  - done.
Qed.

Lemma keys_kept f : (forall r, id (f r) = id r /\ camera_id (f r) = camera_id r /\ started_at (f r) = started_at r) -> keeps_keys f.
Proof. done. Qed.

#[export] Hint Extern 1 (keeps_keys _) => (apply keys_kept; intros []; done) : nexus.

Lemma open_clip_ok n d : tables_ok d -> tables_ok (open_clip n d).2.
Proof.
  intros Hd. pose proof Hd as [H1 H2 H3 H4]. unfold open_clip. destruct (clip_ok d (fresh_clip (next_clip d) n)) eqn:E; [|done].
  assert (clips d !! next_clip d = None) as Hnew.
  { destruct (clips d !! next_clip d) as [r|] eqn:Er; [|done]. destruct (H1 _ _ Er) as (_ & Hlt & _). lia. }
  assert (forall k', is_Some (clips d !! k') -> is_Some (<[next_clip d := fresh_clip (next_clip d) n]> (clips d) !! k')) as Hdom.
  { intros k' Hk'. rewrite lookup_insert_ne; [done|]. intros <-. rewrite Hnew in Hk'. by destruct Hk'. }
  split; simpl.
  - intros k r. destruct (decide (next_clip d = k)) as [<-|Hne].
    + rewrite lookup_insert_eq. intros [= <-]. split_and!; [done|lia|done].
    + rewrite lookup_insert_ne by done. intros Hk. destruct (H1 k r Hk) as (? & ? & ?). split_and!; [done|lia|done].
  - intros i m Hm. apply Hdom. by eapply H2.
  - intros ev l Hl k E'. apply Hdom. by eapply H3.
  - done.
Qed.

Lemma clips_map_ok (f : ClipRow -> ClipRow) d :
  tables_ok d -> (forall r, id (f r) = id r /\ clip_ok d (f r) = clip_ok d r) -> tables_ok (set_clips (f <$> clips d) d).
Proof.
  intros [H1 H2 H3 H4] Hf. split; simpl; [|intros i m Hm; rewrite lookup_fmap, fmap_is_Some; by eapply H2| |done].
  - intros k r' Hr. rewrite lookup_fmap in Hr. apply fmap_Some in Hr as (r & Hr & ->). destruct (H1 k r Hr) as (? & ? & E).
    destruct (Hf r) as [-> E']. split_and!; [done..|]. by rewrite <- E, <- E'.
  - intros ev l Hl k E. rewrite lookup_fmap, fmap_is_Some. by eapply H3.
Qed.

Lemma backends_changed_ok b d :
  tables_ok d ->
  (forall h, is_Some (backends d !! h) -> ((exists k r, clips d !! k = Some r /\ uses_handle h r = true) \/
     (replica d ≫= backend_handle) = Some h) -> is_Some (b !! h)) ->
  tables_ok (set_backends b d).
Proof.
  intros [H1 H2 H3 H4] Hb. split; simpl; [|done|done|].
  - intros k r Hr. destruct (H1 k r Hr) as (? & ? & E). split_and!; [done..|].
    unfold clip_ok, clip_references, handle_exists in *. apply andb_true_iff in E as [E1 E2].
    apply andb_true_iff in E2 as [E2 E4]. apply andb_true_iff in E2 as [E2 E3]. simpl. rewrite E1, E2. simpl.
    apply andb_true_iff; split.
    + destruct (hot_handle (hot r)) as [h|] eqn:Eh; [|done]. destruct (backends d !! h) eqn:Ed; [|done].
      destruct (Hb h) as [x ->]; [by rewrite Ed| |done]. left. exists k, r. split; [done|]. unfold uses_handle. rewrite Eh. by rewrite bool_decide_true.
    + destruct (cold_handle (cold r)) as [h|] eqn:Eh; [|done]. destruct (backends d !! h) eqn:Ed; [|done].
      destruct (Hb h) as [x ->]; [by rewrite Ed| |done]. left. exists k, r. split; [done|]. unfold uses_handle. rewrite Eh.
      rewrite (bool_decide_true (Some h = Some h)) by done. apply orb_true_r.
  - unfold handle_exists in *. simpl. destruct (replica d ≫= backend_handle) as [h|] eqn:Eh; [|done].
    destruct (backends d !! h) eqn:Ed; [|done]. destruct (Hb h) as [x ->]; [by rewrite Ed|by right|done].
Qed.

Lemma elem_of_clip_rows d r : tables_ok d -> r ∈ clip_rows d <-> clips d !! id r = Some r.
Proof.
  intros Hd. unfold clip_rows. rewrite list_elem_of_fmap. split.
  - intros ([k r'] & -> & Hr). apply elem_of_sorted_entries in Hr. simpl. by destruct (ok_clips d Hd k r' Hr) as [-> _].
  - intros Hr. exists (id r, r). split; [done|]. by apply elem_of_sorted_entries.
Qed.

Lemma clip_op_ok o d : tables_ok d -> tables_ok (clip_op o d).
Proof.
  intros Hd. destruct o; simpl;
    try (unfold close_clip, mark_cold_replicated, record_clip_announce_sent, record_cold_upload_failure, quarantine_clip;
         rewrite found_state; apply update_clip_ok; [done|auto with nexus]; fail).
  - by apply open_clip_ok.
  - unfold mark_clip_degraded, mbind, se_bind. pose proof (update_clip_ok k any (with_degraded (Some dropped)) d Hd) as H.
    destruct (update_clip _ _ _ d) as [[] ?]; apply H; auto with nexus.
  - unfold cascade_delete_clip_metadata. destruct (clips d !! k); [by apply delete_clip_ok|done].
  - unfold insert_motion_event. destruct (bool_decide _); [|done]. destruct (clips d !! m_clip ev) as [r|] eqn:E; [|done].
    destruct Hd as [H1 H2 H3 H4]. split; simpl; [done| |done|done]. intros i m.
    destruct (decide (next_motion d = i)) as [<-|Hne]; [rewrite lookup_insert_eq; intros [= <-]; rewrite E; by eexists|].
    rewrite lookup_insert_ne by done. apply H2.
  - unfold link_event_to_clip. destruct (links d !! ev) as [l|]; [|done]. destruct (clips d !! k) as [r|] eqn:E; [|done].
    destruct Hd as [H1 H2 H3 H4]. split; simpl; [done|done| |done]. intros ev' l'.
    destruct (decide (ev = ev')) as [<-|Hne]; [rewrite lookup_insert_eq; intros [= <-] k' [= <-]; rewrite E; by eexists|].
    rewrite lookup_insert_ne by done. apply H3.
  - unfold bump_clip_priority, mbind, se_bind. pose proof (update_clip_ok k (fun r => priority r <? new) (with_priority new) d Hd) as H.
    destruct (update_clip _ _ _ d) as [[] ?]; apply H; auto with nexus.
  - unfold bump_latest_pending_clip_for_camera, bump_clip_priority, mbind, se_bind, gets. simpl. destruct (head _) as [r|]; [|done].
    pose proof (update_clip_ok (id r) (fun r => priority r <? new) (with_priority new) d Hd) as H.
    destruct (update_clip _ _ _ d) as [[] ?]; apply H; auto with nexus.
  - unfold stamp_clip_announce, mbind, se_bind, gets. rewrite found_state. apply update_clip_ok; [done|auto with nexus].
  - unfold record_clip_announce_ack. simpl.
    pose proof (clips_map_ok (fun r => if awaiting aid (announce r) then with_announce (acked at_ rejection (announce r)) r else r) d Hd) as H.
    destruct H as [H1 H2 H3 H4]; [intros []; by case_match|]. by split.
  - apply update_clip_ok; [done|auto with nexus].
  - apply update_clip_ok; [done|auto with nexus].
  - unfold write_cold_replica. destruct (replica d); [|done]. destruct (handle_exists d handle) eqn:E; [|done]. by destruct Hd.
  - unfold upsert_storage_backend. destruct (bool_decide _); [|done]. apply backends_changed_ok; [done|]. intros h Hh _.
    destruct (decide (handle = h)) as [<-|Hne]; [rewrite lookup_insert_eq; by eexists|by rewrite lookup_insert_ne].
  - unfold delete_storage_backend. destruct (str_eqb h "local"); [done|]. case_bool_decide as Ha; [done|].
    destruct (existsb (uses_handle h) (clip_rows d)) eqn:Eu; [done|]. destruct (negb _); [done|]. destruct (existsb (alert_uses_handle h) _); [done|].
    apply backends_changed_ok; [done|]. intros h' Hh' Huse. rewrite lookup_delete_ne; [done|]. intros <-.
    destruct Huse as [(k & r & Hr & Hu)|Hu]; [|done]. apply not_true_iff_false in Eu. apply Eu, existsb_exists.
    exists r. split; [|done]. apply list_elem_of_In, elem_of_clip_rows; [done|]. by destruct (ok_clips d Hd k r Hr) as [-> _].
  - by destruct Hd.
  - by destruct Hd.
  - by apply discard_clip_ok.
Qed.

Lemma update_clip_next k p f d : next_clip (update_clip k p f d).2 = next_clip d.
Proof. unfold update_clip. destruct (clips d !! k) as [row|]; [|done]. destruct (p row); [|done]. by destruct (clip_ok d (f row)). Qed.

(** A key is never given twice. *)
Lemma next_clip_grows o d : next_clip d <= next_clip (clip_op o d).
Proof.
  destruct o; simpl;
    try (unfold close_clip, mark_cold_replicated, record_clip_announce_sent, record_cold_upload_failure, quarantine_clip, clear_hot_pointer,
           repopulate_hot_pointer; rewrite ?found_state, update_clip_next; lia).
  - unfold open_clip. case_match; simpl; lia.
  - unfold mark_clip_degraded, mbind, se_bind. pose proof (update_clip_next k any (with_degraded (Some dropped)) d) as H.
    destruct (update_clip _ _ _ d) as [[] ?]; simpl in *; lia.
  - unfold cascade_delete_clip_metadata. case_match; simpl; lia.
  - unfold insert_motion_event. case_match; simpl; lia.
  - unfold link_event_to_clip. repeat case_match; simpl; lia.
  - unfold bump_clip_priority, mbind, se_bind. pose proof (update_clip_next k (fun r => priority r <? new) (with_priority new) d) as H.
    destruct (update_clip _ _ _ d) as [[] ?]; simpl in *; lia.
  - unfold bump_latest_pending_clip_for_camera, bump_clip_priority, mbind, se_bind, gets. simpl. destruct (head _) as [row|]; [|simpl; lia].
    pose proof (update_clip_next (id row) (fun r => priority r <? new) (with_priority new) d) as H.
    destruct (update_clip _ _ _ d) as [[] ?]; simpl in *; lia.
  - unfold stamp_clip_announce, mbind, se_bind, gets. rewrite found_state, update_clip_next. lia.
  - unfold record_clip_announce_ack. simpl. lia.
  - unfold write_cold_replica. repeat case_match; simpl; lia.
  - unfold upsert_storage_backend. case_match; simpl; lia.
  - unfold delete_storage_backend. repeat case_match; simpl; lia.
  - lia.
  - lia.
  - unfold discard_clip_metadata. case_match; simpl; lia.
Qed.

(** A migrated database: the [local] backend, one camera, nothing recorded. *)
Definition migrated (cams : gset Z) : Db :=
  mkDb cams ∅ 1 ∅ 1 ∅ 1 (mkOutbox ∅ ∅ 1) ∅ {["local" := mkBackend "local" "{}" 0 0]} (Some (mkReplica None 0 0)) ∅ None.

Lemma migrated_ok cams : tables_ok (migrated cams).
Proof. split; [apply map_Forall_empty..|done]. Qed.

(** ** What a candidate is *)

Lemma elem_of_filter_b {A} (p : A -> bool) l x : x ∈ List.filter p l <-> x ∈ l /\ p x = true.
Proof. rewrite !list_elem_of_In. apply filter_In. Qed.

Lemma first_spec cmp `{!Comparator cmp} p d r :
  tables_ok d -> head (sort_by cmp (clips_where p d)) = Some r ->
  clips d !! id r = Some r /\ p r = true /\
  forall r', clips d !! id r' = Some r' -> p r' = true -> not_after cmp r r'.
Proof.
  intros Hd Hh. pose proof (sort_by_permutation cmp (clips_where p d)) as Hp.
  pose proof (sort_by_sorted cmp (clips_where p d)) as Hs.
  destruct (sort_by cmp (clips_where p d)) as [|x l]; [done|]. injection Hh as ->.
  assert (r ∈ clips_where p d) as Hin by (rewrite <- Hp; by left).
  unfold clips_where in Hin. apply elem_of_filter_b in Hin as [Hr Hpr]. apply elem_of_clip_rows in Hr; [|done].
  split_and!; [done..|]. intros r' Hr' Hpr'. apply StronglySorted_inv in Hs as [_ Hs].
  assert (r' ∈ clips_where p d) as Hin by (apply elem_of_filter_b; split; [by apply elem_of_clip_rows|done]).
  rewrite <- Hp in Hin. apply elem_of_cons in Hin as [->|Hin]; [|by eapply Forall_forall in Hs].
  intros E. pose proof (cmp_opp (cmp:=cmp) r r) as E'. rewrite E in E'. done.
Qed.

Lemma first_none cmp p d r :
  tables_ok d -> head (sort_by cmp (clips_where p d)) = None -> clips d !! id r = Some r -> p r = false.
Proof.
  intros Hd Hh Hr. pose proof (sort_by_permutation cmp (clips_where p d)) as Hp.
  destruct (sort_by cmp (clips_where p d)); [|done]. apply Permutation_nil_l in Hp.
  destruct (p r) eqn:E; [|done]. exfalso. apply (not_elem_of_nil r). rewrite Hp.
  apply elem_of_filter_b. split; [by apply elem_of_clip_rows|done].
Qed.

#[export] Instance by_start_comparator : Comparator by_start.
Proof. apply (on_comparator started_at Z.compare). Qed.

Lemma size_desc_comparator : Comparator (fun a b => Z.compare (size_bytes (finish b)) (size_bytes (finish a))).
Proof. apply (flip_comparator (fun a b => Z.compare (size_bytes (finish a)) (size_bytes (finish b))) (Comparator0 := on_comparator _ _)). Qed.

(** Only a deletion removes a clip, and its cold copy stays where it was stamped. *)
Lemma update_clip_keeps k p f d k' r :
  clips d !! k' = Some r -> exists r', clips (update_clip k p f d).2 !! k' = Some r' /\ (r' = r \/ k' = k /\ p r = true /\ r' = f r).
Proof.
  intros Hr. unfold update_clip. destruct (clips d !! k) as [r0|] eqn:E; [|by eauto]. destruct (p r0) eqn:Ep; [|by eauto].
  destruct (clip_ok d (f r0)); [|by eauto]. simpl. destruct (decide (k = k')) as [<-|Hne].
  - rewrite E in Hr. injection Hr as ->. rewrite lookup_insert_eq. exists (f r). split; [done|by right].
  - rewrite lookup_insert_ne by done. eauto.
Qed.
