(* ===== verification/AlertClips.v ===== *)
(** The alert clips: [nexus-store/src/alert_clip.rs] over the table of migrations 0026, 0027 and
    0036, in the database of [ClipStore]. A clip goes from [building] to [ready] or [failed], and
    from [ready] to [evicted]. *)
From S2P Require Import Prelude Text Types Order Outbox ClipStore.

Record NewAlertClip := mkNewAlert { na_camera : Z; na_started : Z; na_path : string }.

Definition is_ready (r : AlertClipRow) : bool := str_eqb (a_state r) "ready".

Definition alert_with_state (s : string) (r : AlertClipRow) : AlertClipRow :=
  mkAlertClip (a_id r) (a_camera r) (a_path r) (a_started r) (a_ready_at r) s (a_duration r) (a_size r)
    (a_sha256 r) (a_cold r) (a_attempts r) (a_last_attempt r) (a_last_error r) (a_announce r).

Definition made_ready (now duration size : Z) (sha : option string) (r : AlertClipRow) : AlertClipRow :=
  mkAlertClip (a_id r) (a_camera r) (a_path r) (a_started r) (Some now) "ready" duration size
    sha (a_cold r) (a_attempts r) (a_last_attempt r) (a_last_error r) (a_announce r).

Definition alert_with_cold (c : Cold) (r : AlertClipRow) : AlertClipRow :=
  mkAlertClip (a_id r) (a_camera r) (a_path r) (a_started r) (a_ready_at r) (a_state r) (a_duration r) (a_size r)
    (a_sha256 r) c (a_attempts r) (a_last_attempt r) (a_last_error r) (a_announce r).

Definition alert_attempted (now : Z) (error : string) (r : AlertClipRow) : AlertClipRow :=
  mkAlertClip (a_id r) (a_camera r) (a_path r) (a_started r) (a_ready_at r) (a_state r) (a_duration r) (a_size r)
    (a_sha256 r) (a_cold r) (a_attempts r + 1) (Some now) (Some error) (a_announce r).

(** [UPDATE alert_clips SET .. WHERE id = ? AND ..]: the number of rows it changed. *)
Definition update_alert (k : Z) (p : AlertClipRow -> bool) (f : AlertClipRow -> AlertClipRow) : DbM Z := fun d =>
  match alerts d !! k with
  | Some r => if p r then (Ok 1, set_alerts (<[k := f r]> (alerts d)) (next_alert d) d) else (Ok 0, d)
  | None => (Ok 0, d)
  end.

Definition in_state (s : string) (r : AlertClipRow) : bool := str_eqb (a_state r) s.

Definition alert_rows (d : Db) : list AlertClipRow := snd <$> sorted_entries (alerts d).

Definition alerts_where (p : AlertClipRow -> bool) (d : Db) : list AlertClipRow := List.filter p (alert_rows d).

Definition known_alert_clip_paths (d : Db) : list (Z * string * string) :=
  (fun r => (a_id r, a_path r, a_state r)) <$> alerts_where (fun r => in_state "building" r || in_state "ready" r) d.

Definition insert_alert_clip (n : NewAlertClip) : DbM Z := fun d =>
  if bool_decide (na_camera n ∈ cameras d) then
    let k := next_alert d in
    let r := mkAlertClip k (na_camera n) (na_path n) (na_started n) None "building" 0 0 None no_cold 0 None None no_announce in
    (Ok k, set_alerts (<[k := r]> (alerts d)) (k + 1) d)
  else (Err Sqlx, d).

Definition mark_alert_clip_ready (now k duration size : Z) (sha : option string) : DbM unit :=
  found (MissingAlertClip k) (update_alert k (in_state "building") (made_ready now duration size sha)).

Definition mark_alert_clip_failed (k : Z) : DbM unit :=
  update_alert k (in_state "building") (alert_with_state "failed") ;; mret tt.

Definition mark_alert_clip_evicted (k : Z) : DbM unit :=
  update_alert k (in_state "ready") (alert_with_state "evicted") ;; mret tt.

(** [cold_handle REFERENCES storage_backends(handle)] *)
Definition mark_alert_clip_cold_replicated (k : Z) (m : ColdMark) : DbM unit := fun d =>
  if is_some (alerts d !! k) && negb (handle_exists d (Some (mark_handle m))) then (Err Sqlx, d)
  else found (MissingAlertClip k) (update_alert k any (alert_with_cold (cold_of m))) d.

Definition stamp_alert_clip_announce (k : Z) (url aid : string) : DbM unit :=
  core ← gets enrolled;
  found (MissingAlertClip k) (update_alert k any (fun r => alert_with_announce (stamped url aid core (a_announce r)) r)).

Definition record_alert_clip_announce_sent (k next_at : Z) : DbM unit :=
  found (MissingAlertClip k) (update_alert k any (fun r => alert_with_announce (sent_once next_at (a_announce r)) r)).

Definition alert_clips_pending_cloud_announce (limit now : Z) (floor : option Z) (d : Db) :
    list (AlertClipRow * option string * Z) :=
  (fun r => (r, blob_url (a_announce r), announce_attempts (a_announce r))) <$>
  sql_limit limit (sort_by (fun a b => opt_compare (announce_next_at (a_announce a)) (announce_next_at (a_announce b)))
    (alerts_where (fun r => pending_announce d now floor (a_started r) (cold_uploaded_at (a_cold r)) (a_announce r)) d)).

Definition record_alert_clip_cold_failure (k now : Z) (error : string) : DbM unit :=
  update_alert k any (alert_attempted now error) ;; mret tt.

(** [ORDER BY ready_at ASC] *)
Definition by_ready (a b : AlertClipRow) : comparison := opt_compare (a_ready_at a) (a_ready_at b).

Definition alert_clips_pending_cold_upload (limit : Z) (floor : option Z) (retry_cutoff : Z) (d : Db) : list AlertClipRow :=
  sql_limit limit (sort_by by_ready (alerts_where (fun r =>
    in_state "ready" r && negb (is_some (cold_uploaded_at (a_cold r))) && is_some (a_sha256 r) &&
    elapsed retry_cutoff (a_last_attempt r) && above_floor floor (a_started r)) d)).

Definition get_alert_clip (k : Z) (d : Db) : option AlertClipRow := alerts d !! k.

Definition get_event_alert_clip (ev : string) (d : Db) : option AlertClipRow :=
  (links d !! ev ≫= l_alert) ≫= fun k => alerts d !! k.

Definition link_event_alert_clip (ev : string) (k : Z) : DbM unit := fun d =>
  match links d !! ev with
  | None => (Err (NotFound (MissingEvent ev)), d)
  | Some l =>
      if is_some (alerts d !! k) then (Ok tt, set_events (box d) (<[ev := mkLinks (l_clip l) (Some k)]> (links d)) d)
      else (Err Sqlx, d)
  end.

(** A delivery of an event linked to the clip that is [pending] or [failed]. *)
Definition undelivered (d : Db) (k : Z) (r : OutboxRow) : bool :=
  bool_decide ((links d !! row_event r ≫= l_alert) = Some k) && negb (terminal (status r)).

Definition alert_clip_pending_deliveries (k : Z) (d : Db) : Z := zlength (List.filter (undelivered d k) (by_id (box d))).

Definition evictable (cold_grace_cutoff : Z) (d : Db) (r : AlertClipRow) : bool :=
  in_state "ready" r &&
  (is_some (cold_uploaded_at (a_cold r)) || match a_ready_at r with Some t => t <=? cold_grace_cutoff | None => false end) &&
  (alert_clip_pending_deliveries (a_id r) d =? 0).

Definition alert_clips_evictable (limit cold_grace_cutoff : Z) (d : Db) : list AlertClipRow :=
  sql_limit limit (sort_by by_ready (alerts_where (evictable cold_grace_cutoff d) d)).

(** ** Facts *)

Definition alerts_ok (d : Db) : Prop := map_Forall (fun k r => a_id r = k) (alerts d).

Lemma elem_of_alert_rows d r : alerts_ok d -> r ∈ alert_rows d <-> alerts d !! a_id r = Some r.
Proof.
  intros Hd. unfold alert_rows. rewrite list_elem_of_fmap. split.
  - intros ([k r'] & -> & Hr). apply elem_of_sorted_entries in Hr. simpl. by rewrite (Hd k r' Hr).
  - intros Hr. exists (a_id r, r). split; [done|]. by apply elem_of_sorted_entries.
Qed.

Lemma elem_of_sql_limit {A} limit (l : list A) x : x ∈ sql_limit limit l -> x ∈ l.
Proof. unfold sql_limit. destruct (limit <? 0); [done|]. intros Hx. rewrite <- (take_drop (Z.to_nat limit) l). apply elem_of_app. by left. Qed.

Lemma length_sql_limit {A} limit (l : list A) : 0 <= limit -> zlength (sql_limit limit l) <= limit.
Proof. intros H. unfold sql_limit, zlength. destruct (Z.ltb_spec limit 0); [lia|]. rewrite length_take. lia. Qed.

Lemma evictable_in limit cutoff d r :
  alerts_ok d -> r ∈ alert_clips_evictable limit cutoff d -> alerts d !! a_id r = Some r /\ evictable cutoff d r = true.
Proof.
  intros Hd H%elem_of_sql_limit. rewrite sort_by_permutation in H. apply elem_of_filter_b in H as [Hr E].
  split; [by apply elem_of_alert_rows|done].
Qed.

Lemma update_alert_ok k p f d : (forall r, a_id (f r) = a_id r) -> alerts_ok d -> alerts_ok (update_alert k p f d).2.
Proof.
  intros Hf Hd. unfold update_alert. destruct (alerts d !! k) as [r|] eqn:E; [|done]. destruct (p r); [|done].
  intros k' r'. simpl. destruct (decide (k = k')) as [<-|Hne].
  - rewrite lookup_insert_eq. intros [= <-]. rewrite Hf. by apply Hd.
  - rewrite lookup_insert_ne by done. apply Hd.
Qed.

(** Nothing brings an evicted clip back, and only a build makes a clip ready. *)
Lemma update_alert_other k p f d k' : k' <> k -> alerts (update_alert k p f d).2 !! k' = alerts d !! k'.
Proof.
  intros Hne. unfold update_alert. destruct (alerts d !! k) as [r|]; [|done]. destruct (p r); [|done].
  simpl. by rewrite lookup_insert_ne.
Qed.
