(* ===== verification/Schema.v ===== *)
(** The clip tables under the constraints of their migrations: every write of [nexus-store/src/motion.rs],
    [alert_clip.rs] and [outbox.rs], the recording of events and the deletion of cameras, over one database. A
    statement that would break a [CHECK] or a reference is refused by SQLite; which statements are ever
    refused is a list, and no other ever is. *)
From S2P Require Import Prelude Text Types Alert Order Outbox ClipStore AlertClips.

(** ** Cameras and events *)

(** The camera table is its keys here; the rows are in [Cameras]. *)
Definition with_cameras (x : gset Z) (d : Db) : Db :=
  mkDb x (clips d) (next_clip d) (motion d) (next_motion d) (alerts d) (next_alert d) (box d) (links d)
    (backends d) (replica d) (settings d) (enrolled d).

Definition upsert_camera (cam : Z) (d : Db) : Db := with_cameras ({[cam]} ∪ cameras d) d.

(** What a camera takes along, [ON DELETE CASCADE]: its clips and alert clips, *)
Definition gone_clip (cam : Z) (d : Db) (k : Z) : bool :=
  match clips d !! k with Some r => camera_id r =? cam | None => false end.

Definition gone_alert (cam : Z) (d : Db) (k : Z) : bool :=
  match alerts d !! k with Some r => a_camera r =? cam | None => false end.

(** its events, and the events that are linked to a clip that goes. *)
Definition gone_event (cam : Z) (d : Db) (ev : string) : bool :=
  match events (box d) !! ev with Some (e, _) => Alert.camera_id e =? cam | None => false end ||
  match links d !! ev ≫= l_clip with Some k => gone_clip cam d k | None => false end.

Definition delete_events (gone : string -> bool) (t : OutboxTable) : OutboxTable :=
  mkOutbox (filter (fun '(ev, _) => gone ev = false) (events t)) (filter (fun '(_, r) => gone (row_event r) = false) (rows t))
    (next_id t).

(** [events.alert_clip_id .. ON DELETE SET NULL] *)
Definition unlink_alert (gone : Z -> bool) (l : Links) : Links :=
  match l_alert l with Some k => if gone k then mkLinks (l_clip l) None else l | None => l end.

Definition delete_camera (cam : Z) (d : Db) : Db :=
  mkDb (cameras d ∖ {[cam]})
    (filter (fun '(_, r) => camera_id r <> cam) (clips d)) (next_clip d)
    (filter (fun '(_, m) => m_camera m <> cam /\ gone_clip cam d (m_clip m) = false) (motion d)) (next_motion d)
    (filter (fun '(_, r) => a_camera r <> cam) (alerts d)) (next_alert d)
    (delete_events (gone_event cam d) (box d))
    (unlink_alert (gone_alert cam d) <$> filter (fun '(ev, _) => gone_event cam d ev = false) (links d))
    (backends d) (replica d) (settings d) (enrolled d).

(** The outbox with the camera that its event refers to; a new event has no links. *)
Definition record_event (e : AlertEvent) (sinks : list string) (alerted : bool) (now : Z) : DbM unit := fun d =>
  if bool_decide (Alert.camera_id e ∈ cameras d) then
    match record_event_and_enqueue_classified e sinks alerted now (box d) with
    | (Ok _, t) => (Ok tt, set_events t (<[event_id e := mkLinks None None]> (links d)) d)
    | (Err _, _) => (Err Sqlx, d)
    end
  else (Err Sqlx, d).

Definition on_outbox (m : OutboxM unit) : DbM unit := fun d =>
  match m (box d) with
  | (Ok _, t) => (Ok tt, set_events t (links d) d)
  | (Err _, t) => (Err Sqlx, set_events t (links d) d)
  end.

(** ** Writes *)

Inductive StoreOp :=
| ClipStmt (o : ClipOp)
| InsertAlertClip (n : NewAlertClip)
| AlertReady (now k duration size : Z) (sha : option string)
| AlertFailed (k : Z)
| AlertEvicted (k : Z)
| AlertCold (k : Z) (m : ColdMark)
| AlertColdFailed (k now : Z) (error : string)
| AlertStamped (k : Z) (url aid : string)
| AlertSentOnce (k next_at : Z)
| LinkAlert (ev : string) (k : Z)
| RecordEvent (e : AlertEvent) (sinks : list string) (alerted : bool) (now : Z)
| DeliverySent (k now : Z)
| DeliveryFailed (k : Z) (err : string) (next_at : Z)
| DeliveryWaiting (k : Z) (err : string) (next_at : Z)
| DeliveryDead (k : Z) (err : string)
| DeliverySuppressed (k : Z) (reason : SuppressionReason)
| PruneDeliveries (scan : list Z) (cutoff limit : Z)
| UpsertCamera (cam : Z)
| DeleteCamera (cam : Z).

(** The database's own error. *)
Definition sqlx {A} (x : result A DbError * Db) : bool := match x.1 with Err Sqlx => true | _ => false end.

(** A statement, and whether the database refuses it. *)
Definition said {A} (m : DbM A) (d : Db) : Db * bool := ((m d).2, sqlx (m d)).

Definition clip_refused (o : ClipOp) (d : Db) : bool :=
  match o with
  | OpenClip n => sqlx (open_clip n d)
  | MarkDegraded k n => sqlx (mark_clip_degraded k n d)
  | CloseClip k x => sqlx (close_clip k x d)
  | CascadeDelete k => sqlx (cascade_delete_clip_metadata k d)
  | InsertMotion ev => sqlx (insert_motion_event ev d)
  | LinkEvent ev k => sqlx (link_event_to_clip ev k d)
  | BumpPriority k n => sqlx (bump_clip_priority k n d)
  | BumpLatest cam n => sqlx (bump_latest_pending_clip_for_camera cam n d)
  | MarkCold k m => sqlx (mark_cold_replicated k m d)
  | StampAnnounce k u a => sqlx (stamp_clip_announce k u a d)
  | AnnounceSent k t => sqlx (record_clip_announce_sent k t d)
  | AnnounceAck a t r => sqlx (record_clip_announce_ack a t r d)
  | ColdFailure k now e t q => sqlx (record_cold_upload_failure k now e t q d)
  | Quarantine k now r => sqlx (quarantine_clip k now r d)
  | ClearHot k => sqlx (clear_hot_pointer k d)
  | RepopulateHot k h p => sqlx (repopulate_hot_pointer k h p d)
  | WriteReplica now h t => sqlx (write_cold_replica now h t d)
  | UpsertBackend now h k c => sqlx (upsert_storage_backend now h k c d)
  | DeleteBackend h => match (delete_storage_backend h d).1 with Err (StoreErr Sqlx) => true | _ => false end
  | WriteSetting _ _ | DeleteSetting _ => false
  | DiscardClip k => sqlx (discard_clip_metadata k d)
  end.

Definition store_step (o : StoreOp) (d : Db) : Db * bool :=
  match o with
  | ClipStmt o => (clip_op o d, clip_refused o d)
  | InsertAlertClip n => said (insert_alert_clip n) d
  | AlertReady now k du sz sha => said (mark_alert_clip_ready now k du sz sha) d
  | AlertFailed k => said (mark_alert_clip_failed k) d
  | AlertEvicted k => said (mark_alert_clip_evicted k) d
  | AlertCold k m => said (mark_alert_clip_cold_replicated k m) d
  | AlertColdFailed k now error => said (record_alert_clip_cold_failure k now error) d
  | AlertStamped k url aid => said (stamp_alert_clip_announce k url aid) d
  | AlertSentOnce k next_at => said (record_alert_clip_announce_sent k next_at) d
  | LinkAlert ev k => said (link_event_alert_clip ev k) d
  | RecordEvent e sinks alerted now => said (record_event e sinks alerted now) d
  | DeliverySent k now => said (on_outbox (outbox_mark_sent k now)) d
  | DeliveryFailed k err at_ => said (on_outbox (outbox_mark_failed k err at_)) d
  | DeliveryWaiting k err at_ => said (on_outbox (outbox_mark_waiting k err at_)) d
  | DeliveryDead k err => said (on_outbox (outbox_mark_dead k err)) d
  | DeliverySuppressed k reason => said (on_outbox (outbox_mark_suppressed k reason)) d
  | PruneDeliveries scan cutoff limit =>
      (set_events (prune_outbox_terminal_older_than scan cutoff limit (box d)).2 (links d) d, false)
  | UpsertCamera cam => (upsert_camera cam d, false)
  | DeleteCamera cam => (delete_camera cam d, false)
  end.

#[export] Instance store_machine : Machine StoreOp Db bool := store_step.

(** ** What is refused

    The references of the schema, each read off the foreign key, and the two [CHECK]s that depend on what is
    asked for. *)
Definition unknown_camera (d : Db) (cam : Z) : bool := negb (bool_decide (cam ∈ cameras d)).
Definition unknown_backend (d : Db) (h : string) : bool := negb (is_some (backends d !! h)).
Definition unknown_clip (d : Db) (k : Z) : bool := negb (is_some (clips d !! k)).

Definition suppressed_row (d : Db) (k : Z) : bool :=
  match rows (box d) !! k with Some r => bool_decide (status r = Suppressed) | None => false end.

Definition ill_formed (o : StoreOp) (d : Db) : bool :=
  match o with
  | ClipStmt (OpenClip n) => unknown_camera d (n_camera n) || unknown_backend d (n_hot_handle n)
  | ClipStmt (InsertMotion ev) => unknown_camera d (m_camera ev) || unknown_clip d (m_clip ev)
  | ClipStmt (LinkEvent ev k) => is_some (links d !! ev) && unknown_clip d k
  | ClipStmt (MarkCold k m) => negb (unknown_clip d k) && unknown_backend d (mark_handle m)
  | ClipStmt (RepopulateHot k h _) =>
      match clips d !! k with Some r => bool_decide (hot_handle (hot r) = None) && unknown_backend d h | None => false end
  | ClipStmt (WriteReplica _ (Some h) _) => is_some (replica d) && unknown_backend d h
  | ClipStmt (UpsertBackend _ _ kind _) => negb (bool_decide (kind ∈ BACKEND_KINDS))
  | ClipStmt (DeleteBackend h) =>
      bool_decide (h <> "local" /\ (replica d ≫= backend_handle) <> Some h /\
        map_Forall (fun _ r => hot_handle (hot r) <> Some h /\ cold_handle (cold r) <> Some h) (clips d) /\
        ~ map_Forall (fun _ r => cold_handle (a_cold r) <> Some h) (alerts d))
  | ClipStmt _ => false
  | InsertAlertClip n => unknown_camera d (na_camera n)
  | AlertCold k m => is_some (alerts d !! k) && unknown_backend d (mark_handle m)
  | LinkAlert ev k => is_some (links d !! ev) && negb (is_some (alerts d !! k))
  | RecordEvent e sinks _ _ =>
      unknown_camera d (Alert.camera_id e) || is_some (events (box d) !! event_id e) || negb (bool_decide (NoDup sinks))
  | DeliverySent k _ | DeliveryFailed k _ _ | DeliveryWaiting k _ _ | DeliveryDead k _ => suppressed_row d k
  | _ => false
  end.

(** ** Consistency *)

(** What [tables_ok] leaves out: cameras, alert clips, events and deliveries. *)
Record rest_ok (d : Db) : Prop := {
  ok_motion_camera : map_Forall (fun _ m => m_camera m ∈ cameras d) (motion d);
  ok_alerts : map_Forall (fun k r => a_id r = k /\ k < next_alert d /\ a_camera r ∈ cameras d /\
    handle_exists d (cold_handle (a_cold r)) = true) (alerts d);
  ok_alert_links : map_Forall (fun _ l => forall k, l_alert l = Some k -> is_Some (alerts d !! k)) (links d);
  ok_events : forall ev, is_Some (links d !! ev) <-> is_Some (events (box d) !! ev);
  ok_event_camera : map_Forall (fun _ x => Alert.camera_id x.1 ∈ cameras d) (events (box d));
  ok_box : outbox_wf (box d);
}.

Definition schema_ok (d : Db) : Prop := tables_ok d /\ rest_ok d.

(** ** Refusals *)

Lemma update_refused k p f d :
  sqlx (update_clip k p f d) = match clips d !! k with Some r => p r && negb (clip_ok d (f r)) | None => false end.
Proof. unfold update_clip. destruct (clips d !! k) as [r|]; [|done]. destruct (p r); [|done]. by destruct (clip_ok d (f r)). Qed.

Lemma found_refused m stmt d : sqlx (found m stmt d) = sqlx (stmt d).
Proof. unfold found, mbind, se_bind. destruct (stmt d) as [[n|e] d']; [|done]. by destruct (n =? 0). Qed.

Lemma then_refused {A B} (m : DbM A) (f : A -> B) d : sqlx ((x ← m; mret (f x)) d) = sqlx (m d).
Proof. unfold mbind, se_bind. by destruct (m d) as [[a|e] d']. Qed.

(** A statement that leaves good rows good is not refused. *)
Lemma good_rows_pass k p f d : tables_ok d -> (forall r, clip_ok d r = true -> p r = true -> clip_ok d (f r) = true) ->
  sqlx (update_clip k p f d) = false.
Proof.
  intros Hd Hf. rewrite update_refused. destruct (clips d !! k) as [r|] eqn:E; [|done]. destruct (p r) eqn:Ep; [|done].
  destruct (ok_clips d Hd k r E) as (_ & _ & Hr). by rewrite Hf.
Qed.

(** The columns under a constraint. *)
Lemma clip_ok_same d r r' : camera_id r' = camera_id r -> hot r' = hot r -> cold r' = cold r -> clip_ok d r' = clip_ok d r.
Proof. intros E1 E2 E3. unfold clip_ok, clip_check, clip_references. by rewrite E1, E2, E3. Qed.

Lemma closed_passes d x r : clip_ok d r = true -> clip_ok d (closed x r) = true.
Proof.
  unfold clip_ok, clip_check, clip_references, closed. simpl. rewrite !andb_true_iff. intros [[[H1 H2] H3] H4]. split_and!; try done; try apply H4.
  destruct (x_hot_path x); [|done]. by rewrite orb_true_r.
Qed.

Lemma clear_hot_passes d r : clip_ok d r = true -> is_some (cold_handle (cold r)) = true -> clip_ok d (with_hot (mkHot None None) r) = true.
Proof. unfold clip_ok, clip_check, clip_references. simpl. rewrite !andb_true_iff. naive_solver. Qed.

Lemma cold_passes d m r : clip_ok d r = true -> clip_ok d (with_cold (cold_of m) r) = negb (unknown_backend d (mark_handle m)).
Proof.
  unfold clip_ok, clip_check, clip_references, unknown_backend. simpl. rewrite !andb_true_iff, negb_involutive, !orb_true_r. intros [[[H1 H2] H3] [[H4 H5] H6]].
  by rewrite H2, H4, H5.
Qed.

Lemma hot_passes d h p r : clip_ok d r = true -> clip_ok d (with_hot (mkHot (Some h) (Some p)) r) = negb (unknown_backend d h).
Proof.
  unfold clip_ok, clip_check, clip_references, unknown_backend. simpl. rewrite !andb_true_iff, negb_involutive. intros [[[H1 H2] H3] [[H4 H5] H6]].
  by rewrite H3, H4, H6, andb_true_r.
Qed.

Lemma backend_use_split h r : uses_handle h r = false <-> hot_handle (hot r) <> Some h /\ cold_handle (cold r) <> Some h.
Proof. unfold uses_handle. rewrite orb_false_iff, !bool_decide_eq_false. done. Qed.

Lemma no_clip_uses h d : existsb (uses_handle h) (clip_rows d) = false <->
  map_Forall (fun _ r => hot_handle (hot r) <> Some h /\ cold_handle (cold r) <> Some h) (clips d).
Proof.
  rewrite <- not_true_iff_false, existsb_exists. split.
  - intros H k r Hr. apply backend_use_split, not_true_iff_false. intros E. apply H. exists r. split; [|done].
    apply list_elem_of_In, list_elem_of_fmap. exists (k, r). split; [done|]. by apply elem_of_sorted_entries.
  - intros H (r & Hr & E). apply list_elem_of_In, list_elem_of_fmap in Hr as ([k r'] & -> & Hr). apply elem_of_sorted_entries in Hr.
    apply H, backend_use_split in Hr. simpl in E. congruence.
Qed.

Lemma no_alert_uses h d : existsb (alert_uses_handle h) (snd <$> sorted_entries (alerts d)) = false <->
  map_Forall (fun _ r => cold_handle (a_cold r) <> Some h) (alerts d).
Proof.
  rewrite <- not_true_iff_false, existsb_exists. unfold alert_uses_handle. split.
  - intros H k r Hr E. apply H. exists r. split; [|by apply bool_decide_eq_true].
    apply list_elem_of_In, list_elem_of_fmap. exists (k, r). split; [done|]. by apply elem_of_sorted_entries.
  - intros H (r & Hr & E%bool_decide_eq_true). apply list_elem_of_In, list_elem_of_fmap in Hr as ([k r'] & -> & Hr). apply elem_of_sorted_entries in Hr.
    by apply H in Hr.
Qed.

(** The backend an alert clip refers to is there, so deleting it meets the reference. *)
Lemma delete_backend_refused h d : rest_ok d ->
  clip_refused (DeleteBackend h) d = ill_formed (ClipStmt (DeleteBackend h)) d.
Proof.
  intros Hd. apply eq_true_iff_eq. simpl. rewrite bool_decide_eq_true. unfold delete_storage_backend, str_eqb.
  case_bool_decide as H1; [naive_solver|]. case_bool_decide as H2; [naive_solver|].
  destruct (existsb (uses_handle h) _) eqn:H3; simpl.
  { split; [done|]. intros (_ & _ & H%no_clip_uses & _). congruence. }
  apply no_clip_uses in H3. destruct (existsb (alert_uses_handle h) _) eqn:H4; simpl.
  - assert (~ map_Forall (fun _ r => cold_handle (a_cold r) <> Some h) (alerts d)) as H5 by (intros H%no_alert_uses; congruence).
    assert (is_Some (backends d !! h)) as [b ->]; [|by split].
    apply existsb_exists in H4 as (r & Hr & E). apply list_elem_of_In, list_elem_of_fmap in Hr as ([k r'] & -> & Hr). apply elem_of_sorted_entries in Hr.
    destruct (ok_alerts d Hd k r' Hr) as (_ & _ & _ & Hh). unfold alert_uses_handle in E. apply bool_decide_eq_true in E. simpl in E. rewrite E in Hh.
    simpl in Hh. by destruct (backends d !! h).
  - apply no_alert_uses in H4. destruct (backends d !! h); simpl; naive_solver.
Qed.

Lemma clip_refusals o d : schema_ok d -> clip_refused o d = ill_formed (ClipStmt o) d.
Proof.
  intros [Hd Hr]. destruct o; try (by apply delete_backend_refused); simpl;
    unfold mark_clip_degraded, close_clip, bump_clip_priority, mark_cold_replicated, record_clip_announce_sent, record_cold_upload_failure, quarantine_clip,
      clear_hot_pointer, repopulate_hot_pointer; rewrite ?found_refused, ?then_refused; try (by apply good_rows_pass; [done|intros []]); try done.
  - unfold open_clip, clip_ok, clip_references, unknown_camera, unknown_backend. simpl.
    destruct (bool_decide _); [|done]. simpl. rewrite andb_true_r. by destruct (is_some _).
  - apply good_rows_pass; [done|]. intros r Hc _. by apply closed_passes.
  - unfold cascade_delete_clip_metadata. by destruct (clips d !! k).
  - unfold insert_motion_event, unknown_camera, unknown_clip. destruct (bool_decide _); [|done]. by destruct (is_some _).
  - unfold link_event_to_clip, unknown_clip. destruct (links d !! ev); [|done]. simpl. by destruct (is_some _).
  - unfold bump_latest_pending_clip_for_camera, bump_clip_priority. unfold mbind, se_bind, gets. simpl. destruct (head _) as [r|]; [|done].
    pose proof (good_rows_pass (id r) (fun r => priority r <? new) (with_priority new) d Hd) as H. unfold sqlx in *.
    destruct (update_clip _ _ _ d) as [[n|e] d']; [done|]. simpl in *. apply H. by intros [].
  - rewrite update_refused. unfold unknown_clip. destruct (clips d !! k) as [r|] eqn:E; [|done]. simpl. destruct (ok_clips d Hd k r E) as (_ & _ & Hc).
    by rewrite cold_passes, negb_involutive.
  - unfold stamp_clip_announce, mbind, se_bind, gets. simpl. rewrite found_refused. by apply good_rows_pass; [done|intros []].
  - apply good_rows_pass; [done|]. intros r Hc Hp. by apply clear_hot_passes.
  - rewrite update_refused. destruct (clips d !! k) as [r|] eqn:E; [|done]. destruct (ok_clips d Hd k r E) as (_ & _ & Hc).
    rewrite hot_passes, negb_involutive by done. by destruct (hot_handle (hot r)).
  - unfold write_cold_replica. destruct (replica d), handle as [h|]; try done. simpl. unfold unknown_backend. by destruct (is_some _).
  - unfold upsert_storage_backend. by destruct (bool_decide _).
  - unfold discard_clip_metadata. by destruct (clips d !! k).
Qed.

Lemma alert_update_passes k p f d : sqlx (update_alert k p f d) = false.
Proof. unfold update_alert. destruct (alerts d !! k) as [r|]; [|done]. by destruct (p r). Qed.

Lemma outbox_refused k f d : sqlx (on_outbox (update_row k f) d) =
  match rows (box d) !! k with Some r => negb (row_check (f r)) | None => false end.
Proof. unfold on_outbox, update_row. destruct (rows (box d) !! k) as [r|]; [|done]. by destruct (row_check (f r)). Qed.

(** A statement that sets a status other than [suppressed] and keeps the reason. *)
Lemma status_refused k f d : outbox_wf (box d) -> (forall r, status (f r) <> Suppressed /\ suppression_reason (f r) = suppression_reason r) ->
  sqlx (on_outbox (update_row k f) d) = suppressed_row d k.
Proof.
  intros Hw Hf. rewrite outbox_refused. unfold suppressed_row. destruct (rows (box d) !! k) as [r|] eqn:E; [|done].
  destruct (wf_row _ Hw k r E) as (_ & Hc & _), (Hf r) as [H1 H2]. unfold row_check in *. rewrite H2.
  apply bool_decide_eq_true in Hc. destruct (decide (status r = Suppressed)) as [Hs|Hs].
  - rewrite (bool_decide_true (status r = _)), bool_decide_false; [done| |done]. intros H. apply H1, H. by apply Hc.
  - rewrite (bool_decide_false (status r = _)), bool_decide_true; [done| |done]. split; [done|]. intros H. by destruct Hs; apply Hc.
Qed.

Lemma event_refused e sinks alerted now d : outbox_wf (box d) ->
  sqlx (record_event e sinks alerted now d) = ill_formed (RecordEvent e sinks alerted now) d.
Proof.
  intros Hw. unfold record_event. simpl. unfold unknown_camera. destruct (bool_decide (Alert.camera_id e ∈ _)); [|done]. simpl.
  pose proof (enqueue_spec e sinks alerted now (box d) Hw) as H. destruct (record_event_and_enqueue_classified _ _ _ _ _) as [[[]|x] t]; simpl.
  - destruct H as (-> & Hn & _). by rewrite bool_decide_true.
  - destruct H as [_ [[x' ->]|Hn]]; [done|]. rewrite (bool_decide_false (NoDup sinks)) by done. by rewrite orb_true_r.
Qed.

Lemma refusals o d : schema_ok d -> (store_step o d).2 = ill_formed o d.
Proof.
  intros [Hd Hr]. pose proof (ok_box d Hr) as Hw. destruct o; simpl; try done;
    unfold mark_alert_clip_ready, mark_alert_clip_failed, mark_alert_clip_evicted, record_alert_clip_cold_failure, record_alert_clip_announce_sent;
    rewrite ?found_refused, ?then_refused; try apply alert_update_passes; try (by apply status_refused; [done|intros []]).
  - by apply clip_refusals.
  - unfold insert_alert_clip, unknown_camera. by destruct (bool_decide _).
  - unfold mark_alert_clip_cold_replicated, unknown_backend. simpl. destruct (is_some (alerts d !! k) && _) eqn:E; [by destruct (_ && _)|].
    by rewrite found_refused, alert_update_passes.
  - unfold stamp_alert_clip_announce, mbind, se_bind, gets. simpl. rewrite found_refused. apply alert_update_passes.
  - unfold link_event_alert_clip. destruct (links d !! ev); [|done]. simpl. by destruct (is_some _).
  - by apply event_refused.
  - unfold outbox_mark_suppressed. rewrite outbox_refused. by destruct (rows (box d) !! k).
Qed.

(** ** A refused statement changes nothing *)

Lemma update_kept k p f d : sqlx (update_clip k p f d) = true -> (update_clip k p f d).2 = d.
Proof. unfold update_clip. destruct (clips d !! k) as [r|]; [|done]. destruct (p r); [|done]. by destruct (clip_ok d (f r)). Qed.

Lemma after_state {A B} (m : DbM A) (f : A -> B) d : ((x ← m; mret (f x)) d).2 = (m d).2.
Proof. unfold mbind, se_bind. by destruct (m d) as [[a|e] d']. Qed.

Lemma outbox_same (d : Db) : set_events (box d) (links d) d = d.
Proof. by destruct d. Qed.

Lemma outbox_kept k f d : sqlx (on_outbox (update_row k f) d) = true -> (on_outbox (update_row k f) d).2 = d.
Proof.
  unfold on_outbox, update_row. destruct (rows (box d) !! k) as [r|]; [|done]. destruct (row_check (f r)); [done|]. intros _. apply outbox_same.
Qed.

Lemma clip_kept o d : clip_refused o d = true -> clip_op o d = d.
Proof.
  destruct o; simpl; unfold mark_clip_degraded, close_clip, bump_clip_priority, mark_cold_replicated, record_clip_announce_sent,
    record_cold_upload_failure, quarantine_clip, clear_hot_pointer, repopulate_hot_pointer;
    rewrite ?found_refused, ?then_refused, ?found_state, ?after_state; try apply update_kept; try done.
  - unfold open_clip. by destruct (clip_ok _ _).
  - unfold cascade_delete_clip_metadata. by destruct (clips d !! k).
  - unfold insert_motion_event. by destruct (_ && _).
  - unfold link_event_to_clip. destruct (links d !! ev); [|done]. by destruct (is_some _).
  - unfold bump_latest_pending_clip_for_camera, bump_clip_priority, mbind, se_bind, gets. simpl. destruct (head _) as [r|]; [|done].
    pose proof (update_kept (id r) (fun r => priority r <? new) (with_priority new) d) as H. unfold sqlx in *.
    by destruct (update_clip _ _ _ d) as [[n|[]] d'].
  - unfold stamp_clip_announce, mbind, se_bind, gets. simpl. rewrite found_refused, found_state. apply update_kept.
  - unfold write_cold_replica. destruct (replica d); [|done]. by destruct (handle_exists _ _).
  - unfold upsert_storage_backend. by destruct (bool_decide _).
  - unfold delete_storage_backend. by repeat case_match.
  - unfold discard_clip_metadata. by destruct (clips d !! k).
Qed.

Lemma refused_kept o d : (store_step o d).2 = true -> (store_step o d).1 = d.
Proof.
  destruct o; simpl; try done;
    unfold mark_alert_clip_ready, mark_alert_clip_failed, mark_alert_clip_evicted, record_alert_clip_cold_failure, record_alert_clip_announce_sent;
    rewrite ?found_refused, ?then_refused; try (by rewrite alert_update_passes); try apply outbox_kept.
  - apply clip_kept.
  - unfold insert_alert_clip. by destruct (bool_decide _).
  - unfold mark_alert_clip_cold_replicated. destruct (_ && _); [done|]. by rewrite found_refused, alert_update_passes.
  - unfold stamp_alert_clip_announce, mbind, se_bind, gets. simpl. by rewrite found_refused, alert_update_passes.
  - unfold link_event_alert_clip. destruct (links d !! ev); [|done]. by destruct (is_some _).
  - unfold record_event. destruct (bool_decide _); [|done]. by destruct (record_event_and_enqueue_classified _ _ _ _ _) as [[[]|x] t].
Qed.

(** ** The tables stay consistent *)

Lemma rest_of_clips c d : rest_ok d -> rest_ok (set_clips c d).
Proof. intros []. by split. Qed.

Lemma update_rest k p f d : rest_ok d -> rest_ok (update_clip k p f d).2.
Proof.
  intros Hd. unfold update_clip. destruct (clips d !! k) as [r|]; [|done]. destruct (p r); [|done].
  destruct (clip_ok d (f r)); [|done]. by apply rest_of_clips.
Qed.

Lemma deleted_events gone t ev : events (foldr delete_event t gone) !! ev = if decide (ev ∈ gone) then None else events t !! ev.
Proof.
  induction gone as [|x gone IH]; simpl; [done|]. rewrite lookup_delete, IH. repeat case_decide; set_solver.
Qed.

Lemma deleted_events_wf gone t : outbox_wf t -> outbox_wf (foldr delete_event t gone).
Proof. intros H. induction gone; [done|]. by apply delete_event_wf. Qed.

Lemma elem_of_linked k d ev : ev ∈ linked_events k d <-> exists l, links d !! ev = Some l /\ l_clip l = Some k.
Proof.
  unfold linked_events. rewrite list_elem_of_fmap. split.
  - intros ([x l] & -> & H). apply elem_of_map_to_list, map_lookup_filter_Some in H as [H E]. eauto.
  - intros (l & H & E). exists (ev, l). split; [done|]. by apply elem_of_map_to_list, map_lookup_filter_Some.
Qed.

Lemma delete_clip_rest k d : rest_ok d -> rest_ok (delete_clip k d).
Proof.
  intros [H1 H2 H3 H4 H5 H6]. unfold delete_clip. split; simpl.
  - intros i m [Hm _]%map_lookup_filter_Some. by eapply H1.
  - done.
  - intros ev l [Hl _]%map_lookup_filter_Some. by eapply H3.
  - intros ev. rewrite deleted_events. split.
    + intros [l [Hl Hne]%map_lookup_filter_Some]. rewrite decide_False; [apply H4; by eexists|]. intros (l' & Hl' & E)%elem_of_linked. congruence.
    + case_decide as Hin; [by intros []|]. intros [l Hl]%H4. exists l. apply map_lookup_filter_Some. split; [done|]. intros E. apply Hin, elem_of_linked. eauto.
  - intros ev x. rewrite deleted_events. case_decide; [done|]. apply H5.
  - by apply deleted_events_wf.
Qed.

(** A link of an event that is there is put in its place. *)
Lemma link_put_rest ev l d : rest_ok d -> is_Some (links d !! ev) -> (forall k, l_alert l = Some k -> is_Some (alerts d !! k)) ->
  rest_ok (set_events (box d) (<[ev := l]> (links d)) d).
Proof.
  intros [H1 H2 H3 H4 H5 H6] Hev Hl. split; simpl; [done|done| | |done|done].
  - by apply map_Forall_insert_2.
  - intros ev'. rewrite <- H4. destruct (decide (ev = ev')) as [<-|]; [|by rewrite lookup_insert_ne]. by rewrite lookup_insert_eq.
Qed.

(** Alert clips are only rewritten, under the same references. *)
Lemma alerts_rest a n d : rest_ok d -> next_alert d <= n ->
  (forall k, is_Some (alerts d !! k) -> is_Some (a !! k)) ->
  map_Forall (fun k r => a_id r = k /\ k < n /\ a_camera r ∈ cameras d /\ handle_exists d (cold_handle (a_cold r)) = true) a ->
  rest_ok (set_alerts a n d).
Proof. intros [H1 H2 H3 H4 H5 H6] Hn Ha Hf. split; simpl; [done|done| |done|done|done]. intros ev l Hl k E. apply Ha. by eapply H3. Qed.

Lemma backends_rest b d : rest_ok d -> (forall h, is_Some (backends d !! h) -> (exists k r, alerts d !! k = Some r /\ cold_handle (a_cold r) = Some h) -> is_Some (b !! h)) ->
  rest_ok (set_backends b d).
Proof.
  intros [H1 H2 H3 H4 H5 H6] Hb. split; simpl; [done| |done|done|done|done]. intros k r Hr. destruct (H2 k r Hr) as (? & ? & ? & Hh). split_and!; [done..|].
  destruct (cold_handle (a_cold r)) as [h|] eqn:E; [|done]. simpl in *. destruct (Hb h) as [x ->]; [|by eauto|done]. by destruct (backends d !! h).
Qed.

Lemma clip_op_rest o d : tables_ok d -> rest_ok d -> rest_ok (clip_op o d).
Proof.
  intros Ht Hd. pose proof Hd as [H1 H2 H3 H4 H5 H6]. destruct o; simpl;
    unfold mark_clip_degraded, close_clip, bump_clip_priority, mark_cold_replicated, record_clip_announce_sent, record_cold_upload_failure, quarantine_clip,
      clear_hot_pointer, repopulate_hot_pointer; rewrite ?found_state, ?after_state; try (by apply update_rest).
  - unfold open_clip. by destruct (clip_ok _ _).
  - unfold cascade_delete_clip_metadata. destruct (clips d !! k); [by apply delete_clip_rest|done].
  - unfold insert_motion_event. destruct (bool_decide _) eqn:E; [|done]. apply bool_decide_eq_true in E. destruct (is_some _); [|done].
    split; simpl; [|done..]. by apply map_Forall_insert_2.
  - unfold link_event_to_clip. destruct (links d !! ev) as [l|] eqn:E; [|done]. destruct (is_some _); [|done].
    apply link_put_rest; [done|by rewrite E|]. intros k' Hk'. by apply (H3 ev l E).
  - unfold bump_latest_pending_clip_for_camera, bump_clip_priority, mbind, se_bind, gets. simpl. destruct (head _) as [r|]; [|done].
    pose proof (update_rest (id r) (fun r => priority r <? new) (with_priority new) d Hd) as H. by destruct (update_clip _ _ _ d) as [[n|e] d'].
  - unfold stamp_clip_announce, mbind, se_bind, gets. simpl. rewrite found_state. by apply update_rest.
  - unfold record_clip_announce_ack. simpl. apply alerts_rest; [by apply rest_of_clips|simpl; lia| |].
    + intros k Hk. simpl in *. by rewrite lookup_fmap, fmap_is_Some.
    + intros k r'. simpl. rewrite lookup_fmap. intros (r & E & Hr)%fmap_Some. rewrite Hr. destruct (H2 k r E) as (? & ? & ? & ?). by case_match.
  - unfold write_cold_replica. destruct (replica d); [|done]. by destruct (handle_exists _ _).
  - unfold upsert_storage_backend. destruct (bool_decide _); [|done]. apply backends_rest; [done|]. intros h Hh _. rewrite lookup_insert. by case_decide.
  - unfold delete_storage_backend. destruct (str_eqb _ _); [done|]. destruct (bool_decide _); [done|]. destruct (existsb (uses_handle h) _); [done|].
    destruct (negb _); [done|]. destruct (existsb (alert_uses_handle h) _) eqn:E; [done|]. apply no_alert_uses in E. apply backends_rest; [done|].
    intros h' Hh' (k & r & Hr & Eh). rewrite lookup_delete_ne; [done|]. intros <-. by apply E in Hr.
  - done.
  - done.
  - unfold discard_clip_metadata. destruct (clips d !! k); [|done]. split; simpl; [|done| | |done|done].
    + intros i m [Hm _]%map_lookup_filter_Some. by eapply H1.
    + intros ev l'. rewrite lookup_fmap. intros (l & Hl & ->)%fmap_Some k' E. eapply (H3 ev l Hl). unfold unlink_clip in E. by case_bool_decide.
    + intros ev. by rewrite lookup_fmap, fmap_is_Some.
Qed.

Lemma update_alert_schema k p f d : (forall r, a_id (f r) = a_id r /\ a_camera (f r) = a_camera r) ->
  (forall r, handle_exists d (cold_handle (a_cold r)) = true -> handle_exists d (cold_handle (a_cold (f r))) = true) ->
  schema_ok d -> schema_ok (update_alert k p f d).2.
Proof.
  intros Hf Hh [Ht Hd]. unfold update_alert. destruct (alerts d !! k) as [r|] eqn:E; [|by split]. destruct (p r); [|by split]. split; [by destruct Ht|].
  destruct (ok_alerts d Hd k r E) as (E1 & E2 & E3 & E4), (Hf r) as [F1 F2]. apply alerts_rest; [done|lia| |].
  - intros k' Hk'. rewrite lookup_insert. by case_decide.
  - apply map_Forall_insert_2; [|apply Hd]. rewrite F1, F2. auto.
Qed.

Lemma insert_alert_schema n d : schema_ok d -> schema_ok (insert_alert_clip n d).2.
Proof.
  intros [Ht Hd]. unfold insert_alert_clip. destruct (bool_decide _) eqn:E; [|by split]. apply bool_decide_eq_true in E. split; [by destruct Ht|].
  apply alerts_rest; [done|lia| |].
  - intros k Hk. rewrite lookup_insert. by case_decide.
  - apply map_Forall_insert_2; [simpl; split_and!; [done|lia|done..]|]. intros k r Hr. destruct (ok_alerts d Hd k r Hr) as (? & ? & ? & ?). split_and!; [done|lia|done..].
Qed.

Lemma link_alert_schema ev k d : schema_ok d -> schema_ok (link_event_alert_clip ev k d).2.
Proof.
  intros [Ht Hd]. unfold link_event_alert_clip. destruct (links d !! ev) as [l|] eqn:E; [|by split]. destruct (is_some (alerts d !! k)) eqn:Ek; [|by split].
  split; simpl.
  - destruct Ht as [H1 H2 H3 H4]. split; simpl; [done|done| |done]. apply map_Forall_insert_2; [by apply (H3 ev l E)|done].
  - apply link_put_rest; [done|by rewrite E|]. intros k' [= <-]. by destruct (alerts d !! k).
Qed.

(** What the outbox does to its rows is no matter of the other tables. *)
Lemma box_schema t d : schema_ok d -> events t = events (box d) -> outbox_wf t -> schema_ok (set_events t (links d) d).
Proof.
  intros [Ht [H1 H2 H3 H4 H5 H6]] He Hw. split; [by destruct Ht|]. split; simpl; [done|done|done| | |done].
  - intros ev. by rewrite He.
  - by rewrite He.
Qed.

Lemma outbox_schema k f d : same_alert f -> schema_ok d -> schema_ok (on_outbox (update_row k f) d).2.
Proof.
  intros Hf Hd. assert ((on_outbox (update_row k f) d).2 = set_events (update_row k f (box d)).2 (links d) d) as ->.
  { unfold on_outbox. by destruct (update_row k f (box d)) as [[[]|x] t]. }
  apply box_schema; [done| |apply update_row_wf; [done|apply Hd]].
  destruct (update_row_cases k f (box d)) as [->|(r & _ & _ & ->)]; done.
Qed.

Lemma record_event_schema e sinks alerted now d : schema_ok d -> schema_ok (record_event e sinks alerted now d).2.
Proof.
  intros [Ht Hd]. unfold record_event. destruct (bool_decide _) eqn:Ec; [|by split]. apply bool_decide_eq_true in Ec.
  pose proof (enqueue_wf e sinks alerted now (box d) (ok_box d Hd)) as Hw. pose proof (enqueue_spec e sinks alerted now (box d) (ok_box d Hd)) as H.
  destruct (record_event_and_enqueue_classified _ _ _ _ _) as [[[]|x] t]; [|by split]. destruct H as (Hn & _ & He & _).
  destruct Hd as [H1 H2 H3 H4 H5 H6]. split; simpl.
  - destruct Ht as [T1 T2 T3 T4]. split; simpl; [done|done| |done]. by apply map_Forall_insert_2.
  - split; simpl; [done|done| | | |done].
    + by apply map_Forall_insert_2.
    + intros ev. rewrite He, !lookup_insert. case_decide; [|apply H4]. by split; eexists.
    + rewrite He. by apply map_Forall_insert_2.
Qed.

Lemma upsert_camera_schema cam d : schema_ok d -> schema_ok (upsert_camera cam d).
Proof.
  intros [[T1 T2 T3 T4] [H1 H2 H3 H4 H5 H6]]. split; split; simpl; try done.
  - intros k r Hr. destruct (T1 k r Hr) as (? & ? & E). split_and!; [done..|]. unfold clip_ok, clip_references in *. simpl. rewrite !andb_true_iff, !bool_decide_eq_true in *.
    set_solver.
  - intros i m Hm. apply H1 in Hm. set_solver.
  - intros k r Hr. destruct (H2 k r Hr) as (? & ? & ? & ?). split_and!; [done..|set_solver|done].
  - intros ev x Hx. apply H5 in Hx. set_solver.
Qed.

Lemma kept_clip cam d k r : clips d !! k = Some r -> gone_clip cam d k = false -> filter (fun '(_, r) => camera_id r <> cam) (clips d) !! k = Some r.
Proof. intros Hr Hg. apply map_lookup_filter_Some. split; [done|]. unfold gone_clip in Hg. rewrite Hr in Hg. by apply Z.eqb_neq. Qed.

Lemma kept_alert cam d k r : alerts d !! k = Some r -> gone_alert cam d k = false -> filter (fun '(_, r) => a_camera r <> cam) (alerts d) !! k = Some r.
Proof. intros Hr Hg. apply map_lookup_filter_Some. split; [done|]. unfold gone_alert in Hg. rewrite Hr in Hg. by apply Z.eqb_neq. Qed.

Lemma kept_event cam d ev : gone_event cam d ev = false ->
  (forall e al, events (box d) !! ev = Some (e, al) -> Alert.camera_id e <> cam) /\
  (forall l k, links d !! ev = Some l -> l_clip l = Some k -> gone_clip cam d k = false).
Proof.
  intros [H1 H2]%orb_false_iff. split.
  - intros e al E. rewrite E in H1. by apply Z.eqb_neq.
  - intros l k E Ek. rewrite E in H2. simpl in H2. by rewrite Ek in H2.
Qed.

Lemma delete_camera_tables cam d : tables_ok d -> tables_ok (delete_camera cam d).
Proof.
  intros [T1 T2 T3 T4]. split; simpl; [| | |done].
  - intros k r [Hr Hne]%map_lookup_filter_Some. destruct (T1 k r Hr) as (? & ? & E). split_and!; [done..|]. unfold clip_ok, clip_references in *. simpl.
    rewrite !andb_true_iff, !bool_decide_eq_true in *. set_solver.
  - intros i m [Hm [_ Hg]]%map_lookup_filter_Some. destruct (T2 i m Hm) as [r Hr]. exists r. by apply kept_clip.
  - intros ev l'. rewrite lookup_fmap. intros (l & [Hl Hg]%map_lookup_filter_Some & ->)%fmap_Some k E.
    assert (l_clip l = Some k) as Ek by (revert E; unfold unlink_alert; by repeat case_match).
    destruct (T3 ev l Hl k Ek) as [r Hr]. exists r. apply kept_clip; [done|]. eapply kept_event; eauto.
Qed.

Lemma delete_events_wf gone t : outbox_wf t -> outbox_wf (delete_events gone t).
Proof.
  intros [H1 H2 H3]. split; simpl; intros k r [Hk Hg]%map_lookup_filter_Some; [eauto..|]. destruct (H3 k r Hk) as [x Hx]. exists x. by apply map_lookup_filter_Some.
Qed.

Lemma delete_camera_rest cam d : rest_ok d -> rest_ok (delete_camera cam d).
Proof.
  intros [H1 H2 H3 H4 H5 H6]. split; simpl.
  - intros i m [Hm [Hne _]]%map_lookup_filter_Some. apply H1 in Hm. set_solver.
  - intros k r [Hr Hne]%map_lookup_filter_Some. destruct (H2 k r Hr) as (? & ? & ? & ?). split_and!; [done..|set_solver|done].
  - intros ev l'. rewrite lookup_fmap. intros (l & [Hl _]%map_lookup_filter_Some & ->)%fmap_Some k E. unfold unlink_alert in E.
    destruct (l_alert l) as [k'|] eqn:Ea; [|congruence]. destruct (gone_alert cam d k') eqn:Eg; [done|]. rewrite Ea in E. injection E as ->.
    destruct (H3 ev l Hl k Ea) as [r Hr]. exists r. by apply kept_alert.
  - intros ev. rewrite lookup_fmap, fmap_is_Some. specialize (H4 ev). unfold is_Some. setoid_rewrite map_lookup_filter_Some. unfold is_Some in H4. naive_solver.
  - intros ev [e al] [Hx Hg]%map_lookup_filter_Some. pose proof (H5 ev _ Hx) as Hc. simpl in *. apply kept_event in Hg as [Hg _]. specialize (Hg _ _ Hx). set_solver.
  - by apply delete_events_wf.
Qed.

Lemma store_step_ok o d : schema_ok d -> schema_ok (store_step o d).1.
Proof.
  intros Hs. pose proof Hs as [Ht Hd]. destruct o; simpl;
    unfold mark_alert_clip_ready, mark_alert_clip_failed, mark_alert_clip_evicted, record_alert_clip_cold_failure, record_alert_clip_announce_sent;
    rewrite ?found_state, ?after_state; try (by apply update_alert_schema); try (by apply outbox_schema; [intros []; simpl; split_and!; try lia; done|]).
  - split; [by apply clip_op_ok|by apply clip_op_rest].
  - by apply insert_alert_schema.
  - unfold mark_alert_clip_cold_replicated. destruct (is_some (alerts d !! k)) eqn:Ek; simpl.
    + destruct (handle_exists d (Some (mark_handle m))) eqn:E; simpl in *; rewrite E; simpl; [|done]. rewrite found_state. by apply update_alert_schema.
    + rewrite found_state. unfold update_alert. by destruct (alerts d !! k).
  - unfold stamp_alert_clip_announce, mbind, se_bind, gets. simpl. rewrite found_state. by apply update_alert_schema.
  - by apply link_alert_schema.
  - by apply record_event_schema.
  - apply box_schema; [done|done|]. apply prune_wf, Hd.
  - by apply upsert_camera_schema.
  - split; [by apply delete_camera_tables|by apply delete_camera_rest].
Qed.

(** C36. The schema never gets in the code's way, and is never broken. Start from a consistent database and
    take any writes of clips, alert clips, events, deliveries, backends and settings, and any
    cameras that come and go. Then every clip has a copy, hot or cold, complete; every reference is
    kept: of clips, alert clips, events and motion events to their cameras, of clips, alert clips
    and the replica policy to their backends, of events and motion events to their clips. And a statement is
    refused by a constraint just when it is of the list [ill_formed]: it names a camera, a backend
    or a clip that is not there, repeats an event or a sink, knows no such kind of backend, settles
    a delivery that was suppressed, or deletes a backend that alert clips alone refer to. A closed
    clip, a dropped hot copy, a quarantine, an acknowledgement, a deleted clip or camera never are.
    A refused statement changes nothing. *)
Theorem only_ill_formed_writes_are_refused ops d0 o : schema_ok d0 ->
  let d := (mrun ops d0).1 in
  schema_ok d /\ (store_step o d).2 = ill_formed o d /\ (ill_formed o d = true -> (store_step o d).1 = d).
Proof.
  intros H0 d. assert (schema_ok d) as Hd.
  { apply (mrun_invariant (fun _ => True) schema_ok ops d0); [|by apply Forall_true|done]. intros o' s _ Hs. by apply store_step_ok. }
  split_and!; [done|by apply refusals|]. rewrite <- refusals by done. apply refused_kept.
Qed.

(** ** Examples *)

Lemma migrated_schema cams : schema_ok (migrated cams).
Proof.
  split; [apply migrated_ok|]. split; try apply map_Forall_empty.
  - intros ev. simpl. by rewrite !lookup_empty.
  - apply empty_outbox_wf.
Qed.

Definition demo_store (ops : list StoreOp) : Db * list bool := mrun ops (migrated {[1; 2]}).

Definition demo_clip (cam : Z) : StoreOp := ClipStmt (OpenClip (mkNewClip cam 0 "clips/1.mp4" "local" "h264" "mp4" 960 540)).

Definition demo_evidence : list StoreOp :=
  [demo_clip 1; ClipStmt (UpsertBackend 0 "nas" "lan" "{}"); InsertAlertClip (mkNewAlert 1 0 "alert/1.mp4");
   AlertReady 5 1 10 10 (Some "ab"%string); AlertCold 1 (mkMark "nas" "alert/1.mp4" 6)].

(** A hot copy is kept until there is a cold one; the constraint never has to say so. *)
Example a_lone_hot_copy_is_kept :
  let x := demo_store [demo_clip 1; ClipStmt (ClearHot 1)] in
  x.2 = [false; false] /\ (fun r => hot_handle (hot r)) <$> clips x.1 !! 1 = Some (Some "local"%string).
Proof. vm_compute. done. Qed.

(** No clip is at the backend and no policy names it; deleting it still fails, with the database's error
    and not with [InUse]. *)
Example alert_clips_hold_their_backend :
  let d := (demo_store demo_evidence).1 in (delete_storage_backend "nas" d).1 = Err (StoreErr Sqlx).
Proof. vm_compute. done. Qed.

(** What a deleted camera leaves: the other camera's clip. *)
Example a_deleted_camera_takes_its_footage :
  let x := demo_store (demo_evidence ++ [demo_clip 2; RecordEvent (demo_event "e1" "r") ["ops"%string] true 7;
    LinkAlert "e1" 1; DeleteCamera 1]) in
  forallb negb x.2 = true /\ cameras x.1 = {[2]} /\ (camera_id <$> clips x.1) = {[2 := 2]} /\ alerts x.1 = ∅ /\ links x.1 = ∅.
Proof. vm_compute. done. Qed.

Lemma only_ill_formed_writes_are_refused_witness :
  let d := (demo_store demo_evidence).1 in
  schema_ok d /\ (store_step (ClipStmt (ClearHot 1)) d).2 = false /\ (store_step (ClipStmt (DeleteBackend "nas")) d).2 = true.
Proof.
  pose proof (only_ill_formed_writes_are_refused demo_evidence (migrated {[1; 2]}) (ClipStmt (ClearHot 1)) (migrated_schema _)) as (H1 & H2 & _).
  pose proof (only_ill_formed_writes_are_refused demo_evidence (migrated {[1; 2]}) (ClipStmt (DeleteBackend "nas")) (migrated_schema _)) as (_ & H3 & _).
  split; [exact H1|split].
  - etransitivity; [exact H2|vm_compute; reflexivity].
  - etransitivity; [exact H3|vm_compute; reflexivity].
Defined.
