(* ===== verification/Watermark.v ===== *)
(** The free-space watermarks: [WatermarkController] and [WatermarkSignal] of
    [nexus-engine/src/storage_safety.rs]. A reading is an [f32]; the thresholds are [u8]. *)
From S2P Require Import Prelude Float Order.

Definition HYSTERESIS_PCT : Z := 5.

Inductive WatermarkLevel := LevelOk | Low | Panic.

#[export] Instance WatermarkLevel_eq_dec : EqDecision WatermarkLevel.
Proof. solve_decision. Defined.

Definition as_u8 (l : WatermarkLevel) : Z := match l with LevelOk => 0 | Low => 1 | Panic => 2 end.
Definition from_u8 (v : Z) : WatermarkLevel := if v =? 0 then LevelOk else if v =? 1 then Low else Panic.

Definition severity (l : WatermarkLevel) : Z := match l with LevelOk => 0 | Low => 1 | Panic => 2 end.

(** ** The signal

    Each method is one atomic access; [wakes] counts the calls of [notify_waiters]. *)
Record WatermarkSignal := mkSignal { s_level : Z; wakes : Z; free_pct_millis : Z }.

Definition signal_new : WatermarkSignal := mkSignal 0 0 0.

Definition signal_level (s : WatermarkSignal) : WatermarkLevel := from_u8 (s_level s).

Definition is_ok (s : WatermarkSignal) : bool := bool_decide (signal_level s = LevelOk).

Definition signal_set (l : WatermarkLevel) (s : WatermarkSignal) : WatermarkSignal :=
  let prev := from_u8 (s_level s) in
  mkSignal (as_u8 l) (if bool_decide (l <> LevelOk /\ prev <> l) then wakes s + 1 else wakes s) (free_pct_millis s).

Definition signal_free_pct (s : WatermarkSignal) : f32 := f32_div (f32_of_Z (free_pct_millis s)) (f32_of_Z 1000).

(** [x.round().clamp(0.0, u32::MAX as f32) as u32]: half away from zero, and NaN is 0. *)
Definition round_u32 (x : f32) : Z :=
  match x with
  | S754_nan | S754_zero _ | S754_infinity true | S754_finite true _ _ => 0
  | S754_infinity false => umax 32
  | S754_finite false m e =>
      Z.min (umax 32) (if 0 <=? e then Zpos m * 2 ^ e else (Zpos m + 2 ^ (- e - 1)) / 2 ^ (- e))
  end.

Definition set_free_pct (free_pct : f32) (s : WatermarkSignal) : WatermarkSignal :=
  mkSignal (s_level s) (wakes s) (round_u32 (f32_mul free_pct (f32_of_Z 1000))).

(** ** The controller *)

Inductive Transition := Stable | Entered (l : WatermarkLevel) | Exited (l : WatermarkLevel).

#[export] Instance Transition_eq_dec : EqDecision Transition.
Proof. solve_decision. Defined.

Record WatermarkController := mkController { low_pct : Z; panic_pct : Z; level : WatermarkLevel }.

Definition controller_new (low_pct panic_pct : Z) : WatermarkController := mkController low_pct panic_pct LevelOk.

(** [u8] addition wraps. *)
Definition recovery_floor (c : WatermarkController) : f32 := f32_of_Z ((low_pct c + HYSTERESIS_PCT) mod 2 ^ 8).

Definition next_level (c : WatermarkController) (free_pct : f32) : WatermarkLevel :=
  match level c with
  | LevelOk =>
      if fle free_pct (f32_of_Z (panic_pct c)) then Panic
      else if fle free_pct (f32_of_Z (low_pct c)) then Low else LevelOk
  | Low =>
      if fle free_pct (f32_of_Z (panic_pct c)) then Panic
      else if fge free_pct (recovery_floor c) then LevelOk else Low
  | Panic =>
      if fge free_pct (recovery_floor c) then LevelOk
      else if fgt free_pct (f32_of_Z (panic_pct c)) then Low else Panic
  end.

Definition observe (free_pct : f32) (c : WatermarkController) : WatermarkController * Transition :=
  let l := next_level c free_pct in
  if bool_decide (l = level c) then (c, Stable)
  else (mkController (low_pct c) (panic_pct c) l, if severity (level c) <? severity l then Entered l else Exited l).

#[export] Instance controller_machine : Machine f32 WatermarkController Transition := observe.

(** ** The order of the thresholds *)

Definition bytes : list Z := map Z.of_nat (seq 0 256).

Lemma percent_step : forallb (fun n => flt (f32_of_Z n) (f32_of_Z (n + 1))) bytes = true.
Proof. by vm_compute. Qed.

Lemma byte_step n : 0 <= n < 256 -> flt (f32_of_Z n) (f32_of_Z (n + 1)) = true.
Proof.
  intros Hn. pose proof percent_step as H. rewrite forallb_forall in H. apply H.
  unfold bytes. apply in_map_iff. exists (Z.to_nat n). split; [lia|]. apply in_seq. lia.
Qed.

Lemma f32_of_Z_mono a b : 0 <= a <= b -> b <= 256 -> fle (f32_of_Z a) (f32_of_Z b) = true.
Proof.
  intros Ha Hb. replace b with (a + (b - a)) in * by lia. assert (0 <= b - a) as Hd by lia.
  revert Hb Ha. generalize (b - a) Hd. clear b Hd. refine (natlike_ind _ _ _).
  - intros Hb Ha. rewrite Z.add_0_r in *. destruct (Z.eq_dec a 256) as [->|]; [by vm_compute|].
    pose proof (byte_step a ltac:(lia)) as H. apply flt_fle in H. destruct (fle_not_nan _ _ H) as [Hn _].
    apply not_false_iff_true. intros E. apply (f_equal negb) in E. rewrite <- flt_not_fle in E by done.
    unfold flt, SFltb in E. rewrite SFcompare_total in E by done.
    pose proof (cmp_opp (cmp:=total_cmp) (one_zero (f32_of_Z a)) (one_zero (f32_of_Z a))) as O. by destruct (total_cmp _ _).
  - intros d Hd IH Hb Ha. apply (fle_trans _ (f32_of_Z (a + d))); [apply IH; lia|].
    replace (a + Z.succ d) with (a + d + 1) by lia. apply flt_fle, byte_step. lia.
Qed.

Lemma f32_of_Z_lt a b : 0 <= a < b -> b <= 256 -> flt (f32_of_Z a) (f32_of_Z b) = true.
Proof.
  intros Ha Hb. pose proof (byte_step a ltac:(lia)) as H1. pose proof (f32_of_Z_mono (a + 1) b ltac:(lia) Hb) as H2.
  destruct (fle_not_nan _ _ H2) as [N1 N2]. destruct (fle_not_nan _ _ (flt_fle _ _ H1)) as [N0 _].
  rewrite flt_not_fle by done. apply negb_true_iff, not_true_iff_false. intros H3.
  pose proof (fle_trans _ _ _ H2 H3) as H4. rewrite flt_not_fle, H4 in H1 by done. done.
Qed.

Lemma byte_not_nan n : 0 <= n < 256 -> is_nan (f32_of_Z n) = false.
Proof. intros Hn. by destruct (fle_not_nan _ _ (flt_fle _ _ (byte_step n Hn))). Qed.

(** ** What the level says *)

Definition thresholds_ok (low panic : Z) : Prop := 0 <= panic <= low /\ low <= 250.

Definition below_panic (panic : Z) (x : f32) : bool := fle x (f32_of_Z panic).
Definition below_low (low : Z) (x : f32) : bool := fle x (f32_of_Z low).
Definition recovered (low : Z) (x : f32) : bool := fge x (f32_of_Z (low + HYSTERESIS_PCT)).

(** The level by the readings, latest first: panic while the latest is at the panic mark; Ok
    while none was at the low mark since the last one that was past the recovery floor. *)
Fixpoint calm (low : Z) (latest_first : list f32) : bool :=
  match latest_first with
  | [] => true
  | x :: before => recovered low x || (negb (below_low low x) && calm low before)
  end.

Definition level_of (low panic : Z) (latest_first : list f32) : WatermarkLevel :=
  match latest_first with
  | [] => LevelOk
  | x :: _ =>
      if below_panic panic x then Panic
      else if calm low latest_first then LevelOk else Low
  end.

Section order.
Context (low panic : Z) (Ht : thresholds_ok low panic).

Lemma panic_is_low x : below_panic panic x = true -> below_low low x = true.
Proof. destruct Ht as [[T1 T2] T3]. intros H. eapply fle_trans; [exact H|]. apply f32_of_Z_mono; lia. Qed.

Lemma low_not_recovered x : below_low low x = true -> recovered low x = false.
Proof.
  destruct Ht as [[T1 T2] T3]. unfold below_low, recovered, HYSTERESIS_PCT. intros H1. apply not_true_iff_false. intros H2.
  pose proof (fle_trans _ _ _ H2 H1) as H3. pose proof (f32_of_Z_lt low (low + 5) ltac:(lia) ltac:(lia)) as H4.
  rewrite flt_not_fle in H4 by (apply byte_not_nan; lia). change (fle (f32_of_Z (low + 5)) (f32_of_Z low) = true) in H3. by rewrite H3 in H4.
Qed.

Lemma floor_exact l : recovery_floor (mkController low panic l) = f32_of_Z (low + HYSTERESIS_PCT).
Proof. destruct Ht as [[T1 T2] T3]. unfold recovery_floor, HYSTERESIS_PCT. simpl. by rewrite Z.mod_small by lia. Qed.

Lemma next_level_of x seen :
  is_nan x = false -> next_level (mkController low panic (level_of low panic seen)) x = level_of low panic (x :: seen).
Proof.
  intros Hx. unfold next_level. rewrite floor_exact. simpl.
  change (fle x (f32_of_Z panic)) with (below_panic panic x). change (fle x (f32_of_Z low)) with (below_low low x).
  change (fge x (f32_of_Z (low + HYSTERESIS_PCT))) with (recovered low x).
  assert (fgt x (f32_of_Z panic) = negb (below_panic panic x)) as Hgt.
  { change (fgt x (f32_of_Z panic)) with (flt (f32_of_Z panic) x). rewrite flt_not_fle; [done|apply byte_not_nan; destruct Ht as [[T1 T2] T3]; lia|done]. }
  rewrite Hgt. pose proof (panic_is_low x) as H1. pose proof (low_not_recovered x) as H2.
  assert (level_of low panic seen = LevelOk -> calm low seen = true) as Hok.
  { destruct seen as [|y seen]; [done|]. unfold level_of. destruct (below_panic panic y); [done|]. by destruct (calm low (y :: seen)). }
  assert (level_of low panic seen <> LevelOk -> calm low seen = false) as Hnot.
  { destruct seen as [|y seen]; [done|]. unfold level_of. destruct (below_panic panic y) eqn:Ep.
    - intros _. simpl. pose proof (panic_is_low y Ep) as El. by rewrite El, (low_not_recovered y El).
    - by destruct (calm low (y :: seen)). }
  change (level_of low panic (x :: seen)) with (if below_panic panic x then Panic else if calm low (x :: seen) then LevelOk else Low).
  destruct (below_panic panic x) eqn:Ep.
  { rewrite (H2 (H1 eq_refl)). by destruct (level_of low panic seen). }
  simpl. destruct (level_of low panic seen) eqn:Es; [rewrite Hok by done|rewrite Hnot by done|rewrite Hnot by done];
    destruct (recovered low x) eqn:Er, (below_low low x) eqn:El; try done; by specialize (H2 eq_refl).
Qed.

(** The level is a function of the readings: after any readings that are numbers, it is
    [Panic] exactly when the last one is at or below the panic mark, [Ok] exactly when since the
    last reading at or past the low mark plus five (or since the start) every reading was above
    the low mark, and [Low] otherwise. *)
Lemma watermark_level_is_by_readings readings :
  Forall (fun x => is_nan x = false) readings ->
  level (mrun readings (controller_new low panic)).1 = level_of low panic (rev readings).
Proof.
  intros Hr. enough ((mrun readings (controller_new low panic)).1 = mkController low panic (level_of low panic (rev readings))) as -> by done.
  induction readings as [|x readings IH] using rev_ind; [done|]. apply Forall_app in Hr as [Hr Hx]. apply Forall_cons in Hx as [Hx _].
  rewrite mrun_app, rev_unit, IH by done. rewrite mrun_cons. simpl mrun. simpl fst.
  unfold mstep, controller_machine, observe. rewrite next_level_of by done. case_bool_decide as E; [cbn [fst low_pct panic_pct level] in *; by rewrite <- E|done].
Qed.
End order.

(** Above the panic mark a panic ends at once, into [Low], and one reading later starts again: the
    recovery has no hysteresis at the panic mark. *)
Example panic_flaps :
  (mrun (map f32_of_Z [5; 6; 5; 6]) (controller_new 15 5)).2 = [Entered Panic; Exited Low; Entered Panic; Exited Low].
Proof. by vm_compute. Qed.

Lemma watermark_level_is_by_readings_witness :
  thresholds_ok 15 5 /\ level (mrun (map f32_of_Z [50; 3; 16; 20; 17]) (controller_new 15 5)).1 = LevelOk.
Proof.
  split; [split; lia|].
  etransitivity; [apply (watermark_level_is_by_readings 15 5 ltac:(split; lia)); repeat constructor|by vm_compute].
Defined.
