(* ===== verification/Reclaim.v ===== *)
(** Storage under pressure: [nexus-engine/src/storage_safety.rs] (the reclaim ladder, [evict_one],
    the sampler loop) and [nexus-engine/src/alert_clip_evict.rs], over the database of [ClipStore]
    and [AlertClips] and a disk.

    A statement of the database, and a directory listing, fails when the next entry of [faults]
    says so; it then changes nothing. The disk maps paths to modification times; [stuck] are the
    files that cannot be removed. A directory is listed, and a set walked, in an order that is a
    parameter. *)
From stdpp Require Import pretty.
From S2P Require Import Prelude Text Float Types Order Outbox ClipStore AlertClips Watermark.

Definition MAX_CLIP_DURATION_MS : Z := 300000.
Definition ABANDONED_CLIP_GRACE_MS : Z := 2 * MAX_CLIP_DURATION_MS.
Definition PRESSURE_RECLAIM_BATCH : Z := 64.
Definition MAX_RECLAIM_STEPS_PER_TICK : nat := 64.
Definition RECLAIM_REPROBE_EVERY : Z := 8.
Definition PRESSURE_METRICS_KEEP : Z := secs (2 * 60 * 60).
Definition EVICT_BATCH : Z := 64.
Definition COLD_GRACE : Z := secs (15 * 60).

(** ** The world *)

Record Disk := mkDisk { files : gmap string Z; dirs : gset string; stuck : gset string }.

Inductive RemoveError := FileNotFound | RemoveFailed.

Definition remove_file (p : string) (k : Disk) : result unit RemoveError * Disk :=
  match files k !! p with
  | None => (Err FileNotFound, k)
  | Some _ =>
      if decide (p ∈ stuck k) then (Err RemoveFailed, k) else (Ok tt, mkDisk (delete p (files k)) (dirs k) (stuck k))
  end.

(** [Path::join]: an absolute path replaces the base. *)
Definition join (dir p : string) : string := if starts_with p "/" then p else dir +:+ "/" +:+ p.

Inductive Notice :=
| ClipHotEvicted (k cam : Z)
| ClipHardEvicted (k cam : Z)
| StoragePanicEvent (l : WatermarkLevel) (free_pct : f32).

Inductive Fault := FDb (e : DbError) | FIo.

Record World := mkWorld {
  db : Db;
  disk : Disk;
  faults : list bool;
  cursor : Z;
  notices : list Notice;
  refusing : bool;
  controller : WatermarkController;
  signal : WatermarkSignal;
  samples : list Z;
}.

Definition set_db (x : Db) (w : World) : World :=
  mkWorld x (disk w) (faults w) (cursor w) (notices w) (refusing w) (controller w) (signal w) (samples w).
Definition set_disk (x : Disk) (w : World) : World :=
  mkWorld (db w) x (faults w) (cursor w) (notices w) (refusing w) (controller w) (signal w) (samples w).
Definition set_faults (x : list bool) (w : World) : World :=
  mkWorld (db w) (disk w) x (cursor w) (notices w) (refusing w) (controller w) (signal w) (samples w).
Definition set_cursor (x : Z) (w : World) : World :=
  mkWorld (db w) (disk w) (faults w) x (notices w) (refusing w) (controller w) (signal w) (samples w).
Definition publish_to (x : Notice) (w : World) : World :=
  mkWorld (db w) (disk w) (faults w) (cursor w) (notices w ++ [x]) (refusing w) (controller w) (signal w) (samples w).
Definition set_refusing (x : bool) (w : World) : World :=
  mkWorld (db w) (disk w) (faults w) (cursor w) (notices w) x (controller w) (signal w) (samples w).
Definition set_watermark (c : WatermarkController) (s : WatermarkSignal) (w : World) : World :=
  mkWorld (db w) (disk w) (faults w) (cursor w) (notices w) (refusing w) c s (samples w).
Definition set_samples (x : list Z) (w : World) : World :=
  mkWorld (db w) (disk w) (faults w) (cursor w) (notices w) (refusing w) (controller w) (signal w) x.

Abbreviation RM := (SE World Fault).

(** The next call outside fails, or not. *)
Definition next_fails (w : World) : bool := match faults w with b :: _ => b | [] => false end.
Definition used (w : World) : World := set_faults (tail (faults w)) w.

Definition stmt {A} (m : DbM A) : RM A := fun w =>
  if next_fails w then (Err (FDb Sqlx), used w)
  else match m (db w) with
       | (Ok a, d) => (Ok a, set_db d (used w))
       | (Err e, d) => (Err (FDb e), set_db d (used w))
       end.

Definition query {A} (f : Db -> A) : RM A := stmt (gets f).

Definition unlink (p : string) : RM (result unit RemoveError) := fun w =>
  let '(r, k) := remove_file p (disk w) in (Ok r, set_disk k w).

Definition publish (x : Notice) : RM unit := modify (publish_to x).

(** A call whose error is handled by the caller. *)
Definition try_ {A} (m : RM A) : RM (result A Fault) := fun w => let '(r, w) := m w in (Ok r, w).

(** ** The alert-clip evictor *)

(** One evictable clip: whether it was reclaimed. *)
Definition reclaim_alert (clips_dir : string) (ac : AlertClipRow) : RM bool :=
  removed ← unlink (join clips_dir (a_path ac));
  match removed with
  | Err RemoveFailed => mret false
  | _ => marked ← try_ (stmt (mark_alert_clip_evicted (a_id ac)));
         mret (match marked with Ok _ => true | Err _ => false end)
  end.

Fixpoint reclaim_alerts (clips_dir : string) (rows : list AlertClipRow) (n : Z) : RM Z :=
  match rows with
  | [] => mret n
  | ac :: rows => ok ← reclaim_alert clips_dir ac; reclaim_alerts clips_dir rows (if ok : bool then n + 1 else n)
  end.

Definition reclaim_evictable_alert_clips (clips_dir : string) (cold_grace_cutoff batch : Z) : RM Z :=
  rows ← try_ (query (alert_clips_evictable batch cold_grace_cutoff));
  match rows with
  | Err _ => mret 0
  | Ok rows => reclaim_alerts clips_dir rows 0
  end.

Definition sweep (clips_dir : string) (now : Z) : RM Z :=
  reclaim_evictable_alert_clips clips_dir (now - COLD_GRACE) EVICT_BATCH.

(** ** The pressure ladder *)

Record StorageSafetyConfig := mkConfig { clips_dir : string; snapshots_dir : option string; low_watermark_pct : Z;
  panic_watermark_pct : Z }.

Section ladder.
Context (walk : gset string -> list string).

(** The entries of a directory: the names below it with no further [/]. *)
Definition entries (dir : string) (k : Disk) : list string :=
  omap (fun p => match strip_prefix (dir +:+ "/") p with
                 | Some name => if contains name "/" then None else Some name
                 | None => None
                 end) (walk (dom (files k))).

(** The stem of a [jpg] file. *)
Definition jpg_stem (name : string) : option string :=
  match strip_suffix ".jpg" name with
  | Some stem => if str_eqb stem "" then None else Some stem
  | None => None
  end.

Definition snapshot_candidates (dir : string) (k : Disk) : list (string * string) :=
  take (Z.to_nat PRESSURE_RECLAIM_BATCH)
    (omap (fun name => (fun stem => (stem, dir +:+ "/" +:+ name)) <$> jpg_stem name) (entries dir k)).

Fixpoint reclaim_snapshots (live : gset string) (candidates : list (string * string)) (n : Z) : RM Z :=
  match candidates with
  | [] => mret n
  | (stem, path) :: rest =>
      if decide (stem ∈ live) then reclaim_snapshots live rest n
      else
        removed ← unlink path;
        reclaim_snapshots live rest (match removed with Ok _ => n + 1 | Err _ => n end)
  end.

Definition existing_event_ids (ids : list string) (d : Db) : gset string := dom (events (box d)) ∩ list_to_set ids.

(** A directory that is not there is an empty one. *)
Definition sweep_orphan_snapshots (dir : string) : RM Z := fun w =>
  if negb (bool_decide (dir ∈ dirs (disk w))) then (Ok 0, w)
  else if next_fails w then (Err FIo, used w)
  else
    match snapshot_candidates dir (disk w) with
    | [] => (Ok 0, used w)
    | candidates =>
        (live ← query (existing_event_ids candidates.*1); reclaim_snapshots live candidates 0) (used w)
    end.

(** The hot file of a clip whose row is gone: an error is logged. *)
Definition unlink_hot (clips_dir : string) (r : ClipRow) : RM unit :=
  match hot_path (hot r) with
  | Some p => removed ← unlink (join clips_dir p); mret tt
  | None => mret tt
  end.

(** [evict_one] on the camera at place [idx]: [None] when the camera has nothing to give. *)
Definition evict_camera (clips_dir : string) (now idx cam : Z) : RM (option bool) :=
  soft ← query (find_soft_evict_candidate cam);
  match soft with
  | Some clip =>
      match hot_path (hot clip) with
      | None => mret (Some false)
      | Some p =>
          removed ← unlink (join clips_dir p);
          match removed with
          | Err RemoveFailed => modify (set_cursor (idx + 1)) ;; mret (Some false)
          | _ =>
              n ← stmt (clear_hot_pointer (id clip));
              (if n =? 0 then mret tt else publish (ClipHotEvicted (id clip) cam)) ;;
              modify (set_cursor (idx + 1)) ;; mret (Some true)
          end
      end
  | None =>
      hard ← query (find_hard_evict_candidate cam (now - millis ABANDONED_CLIP_GRACE_MS));
      match hard with
      | Some clip =>
          stmt (cascade_delete_clip_metadata (id clip)) ;;
          unlink_hot clips_dir clip ;;
          publish (ClipHardEvicted (id clip) cam) ;;
          modify (set_cursor (idx + 1)) ;; mret (Some true)
      | None => mret None
      end
  end.

Fixpoint evict_round (clips_dir : string) (now : Z) (places : list (Z * Z)) : RM bool :=
  match places with
  | [] => modify (fun w => set_cursor ((cursor w + 1) mod 2 ^ 64) w) ;; mret false
  | (idx, cam) :: places =>
      done ← evict_camera clips_dir now idx cam;
      match done with
      | Some b => mret b
      | None => evict_round clips_dir now places
      end
  end.

(** The cameras in the order of the round: from the cursor on, and around. *)
Definition round_of (c : Z) (cams : list Z) : list (Z * Z) :=
  let n := zlength cams in
  (fun offset => let idx := (c + Z.of_nat offset) mod n in (idx, nth (Z.to_nat idx) cams 0)) <$> seq 0 (length cams).

Definition evict_one (clips_dir : string) (now : Z) : RM bool :=
  cams ← query cameras_with_clips;
  match cams with
  | [] => mret false
  | _ => c ← gets cursor; evict_round clips_dir now (round_of c cams)
  end.

Definition evict_quarantined (cfg : StorageSafetyConfig) (clip : ClipRow) : RM unit :=
  stmt (cascade_delete_clip_metadata (id clip)) ;;
  unlink_hot (clips_dir cfg) clip ;;
  publish (ClipHardEvicted (id clip) (camera_id clip)).

Definition pressure_reclaim (cfg : StorageSafetyConfig) (now : Z) : RM bool :=
  n ← reclaim_evictable_alert_clips (clips_dir cfg) now PRESSURE_RECLAIM_BATCH;
  if 0 <? n then mret true
  else
    n ← match snapshots_dir cfg with Some dir => sweep_orphan_snapshots dir | None => mret 0 end;
    if 0 <? n then mret true
    else
      quarantined ← query find_largest_quarantined_hot_clip;
      match quarantined with
      | Some clip => evict_quarantined cfg clip ;; mret true
      | None => evict_one (clips_dir cfg) now
      end.

(** ** The sampler *)

(** The database is not touched; [samples] are the times of the rolling metrics, in milliseconds. *)
Definition run_pressure_oneshot (now : Z) : RM unit :=
  modify (fun w =>
    let w := used w in
    if next_fails w then used w else used (set_samples (List.filter (fun t => (now - PRESSURE_METRICS_KEEP) / ns_per_ms <=? t) (samples w)) w)).

Definition publish_storage_event (free_pct : f32) : RM unit :=
  modify (fun w => publish_to (StoragePanicEvent (level (controller w)) free_pct) w).

Definition observe_reading (free_pct : f32) : RM Transition := fun w =>
  let '(c, t) := observe free_pct (controller w) in
  (Ok t, set_watermark c (set_free_pct free_pct (signal_set (level c) (signal w))) w).

(** What the environment answers in a step of the batch: the clock, and the probe ([None] when it
    fails). *)
Record StepEnv := mkEnv { e_now : Z; e_probe : option f32 }.

Definition reprobe (p : f32) : RM unit :=
  t ← observe_reading p;
  if bool_decide (t = Exited LevelOk) then modify (set_refusing false) ;; publish_storage_event p else mret tt.

Fixpoint reclaim_batch (cfg : StorageSafetyConfig) (env : Z -> StepEnv) (step : Z) (fuel : nat) : RM unit :=
  match fuel with
  | O => mret tt
  | S fuel =>
      more ← try_ (pressure_reclaim cfg (e_now (env step)));
      match more with
      | Ok true =>
          if step mod RECLAIM_REPROBE_EVERY =? RECLAIM_REPROBE_EVERY - 1 then
            match e_probe (env step) with
            | Some p =>
                reprobe p ;;
                l ← gets (fun w => level (controller w));
                if bool_decide (l = LevelOk) then mret tt else reclaim_batch cfg env (step + 1) fuel
            | None => reclaim_batch cfg env (step + 1) fuel
            end
          else reclaim_batch cfg env (step + 1) fuel
      | _ => mret tt
      end
  end.

Definition react (t : Transition) (free_pct : f32) : RM unit :=
  match t with
  | Entered Panic => modify (set_refusing true) ;; publish_storage_event free_pct
  | Exited LevelOk => modify (set_refusing false) ;; publish_storage_event free_pct
  | Entered Low | Exited Low => publish_storage_event free_pct
  | _ => mret tt
  end.

(** One turn of the loop of [run_storage_safety]. *)
Definition safety_tick (cfg : StorageSafetyConfig) (now : Z) (probe : option f32) (env : Z -> StepEnv) : RM unit :=
  match probe with
  | None => mret tt
  | Some free_pct =>
      t ← observe_reading free_pct;
      react t free_pct ;;
      (if bool_decide (t = Entered Low \/ t = Entered Panic) then run_pressure_oneshot now else mret tt) ;;
      l ← gets (fun w => level (controller w));
      if bool_decide (l = LevelOk) then mret tt else reclaim_batch cfg env 0 MAX_RECLAIM_STEPS_PER_TICK
  end.
End ladder.

(** ** Reasoning about calls that can fail *)

Lemma db_used w : db (used w) = db w.
Proof. done. Qed.

Lemma disk_used w : disk (used w) = disk w.
Proof. done. Qed.

(** A read: the rest runs on what it found, or not at all. *)
Lemma yields_query {A B} (P : result B Fault -> World -> Prop) (f : Db -> A) (g : A -> RM B) w :
  P (Err (FDb Sqlx)) (used w) -> yields P (g (f (db w))) (used w) -> yields P (query f ≫= g) w.
Proof.
  intros He Hg. apply yields_bind. unfold query, stmt, gets. destruct (next_fails w); [done|].
  assert (set_db (db w) (used w) = used w) as -> by (by destruct w). exact Hg.
Qed.

Lemma yields_stmt {A B} (P : result B Fault -> World -> Prop) (m : DbM A) (g : A -> RM B) w :
  P (Err (FDb Sqlx)) (used w) ->
  (forall e d, m (db w) = (Err e, d) -> P (Err (FDb e)) (set_db d (used w))) ->
  (forall a d, m (db w) = (Ok a, d) -> yields P (g a) (set_db d (used w))) ->
  yields P (stmt m ≫= g) w.
Proof.
  intros H1 H2 H3. apply yields_bind. unfold stmt. destruct (next_fails w); [done|].
  destruct (m (db w)) as [[a|e] d]; auto.
Qed.

Lemma yields_unlink {B} (P : result B Fault -> World -> Prop) p (g : result unit RemoveError -> RM B) w :
  yields P (g (remove_file p (disk w)).1) (set_disk (remove_file p (disk w)).2 w) -> yields P (unlink p ≫= g) w.
Proof. intros H. apply yields_bind. unfold unlink. by destruct (remove_file p (disk w)). Qed.

Lemma yields_modify {B} (P : result B Fault -> World -> Prop) f (g : unit -> RM B) w :
  yields P (g tt) (f w) -> yields P (modify f ≫= g) w.
Proof. intros H. by apply yields_bind. Qed.

Lemma yields_ret {B} (P : result B Fault -> World -> Prop) (b : B) w : P (Ok b) w -> yields P (mret b) w.
Proof. done. Qed.

(** [m], then its result. *)
Lemma yields_try {A B} (P : result B Fault -> World -> Prop) (m : RM A) (g : result A Fault -> RM B) w :
  yields P (g (m w).1) (m w).2 -> yields P (try_ m ≫= g) w.
Proof. intros H. apply yields_bind. unfold try_. by destruct (m w). Qed.

Lemma yields_seq {A B} (P : result B Fault -> World -> Prop) (Q : result A Fault -> World -> Prop) (m : RM A) (g : A -> RM B) w :
  yields Q m w -> (forall e w', Q (Err e) w' -> P (Err e) w') -> (forall a w', Q (Ok a) w' -> yields P (g a) w') ->
  yields P (m ≫= g) w.
Proof. unfold yields at 1. intros H He Ha. apply yields_bind. destruct (m w) as [[a|e] w']; auto. Qed.

(** ** What a step down the ladder may take *)

(** A clip that is cold-replicated, or that a recorder may still be writing, and that is not
    quarantined on the hot tier. *)
Definition protected (now : Z) (r : ClipRow) : bool :=
  (replicated r || (negb (is_some (ended_at (finish r))) && (now - millis ABANDONED_CLIP_GRACE_MS <=? started_at r))) &&
  negb (quarantined_hot r).

(** The row is as it was, or lost its hot copy while it has a cold one. *)
Definition spared_row (r r' : ClipRow) : Prop := r' = r \/ replicated r = true /\ r' = with_hot (mkHot None None) r.

Definition spared (now : Z) (d d' : Db) : Prop :=
  forall k r, clips d !! k = Some r -> protected now r = true -> exists r', clips d' !! k = Some r' /\ spared_row r r'.

Lemma spared_refl now d : spared now d d.
Proof. intros k r Hr _. exists r. split; [done|by left]. Qed.

Lemma spared_clips now d d' : clips d' = clips d -> spared now d d'.
Proof. intros E k r Hr _. exists r. rewrite E. split; [done|by left]. Qed.

Lemma unprotected_hard now cam r : hard_candidate cam (now - millis ABANDONED_CLIP_GRACE_MS) r = true -> protected now r = false.
Proof.
  unfold hard_candidate, protected, replicated. intros [[_ Hc]%andb_true_iff Ho]%andb_true_iff. apply negb_true_iff in Hc.
  rewrite Hc. simpl. apply andb_false_iff. left. destruct (is_some (ended_at (finish r))); [done|]. simpl in *.
  apply Z.leb_gt. by apply Z.ltb_lt.
Qed.

Lemma unprotected_quarantined now r : quarantined_hot r = true -> protected now r = false.
Proof. unfold protected. intros ->. by rewrite andb_false_r. Qed.

Lemma spared_delete now d k r : clips d !! k = Some r -> protected now r = false -> spared now d (delete_clip k d).
Proof.
  intros Hk Hp k' r' Hr' Hp'. exists r'. split; [|by left]. simpl. rewrite lookup_delete_ne; [done|].
  intros <-. rewrite Hk in Hr'. injection Hr' as ->. by rewrite Hp in Hp'.
Qed.

Lemma spared_cascade now d k r :
  clips d !! k = Some r -> protected now r = false -> spared now d (cascade_delete_clip_metadata k d).2.
Proof. intros Hk Hp. unfold cascade_delete_clip_metadata. rewrite Hk. by eapply spared_delete. Qed.

Lemma spared_clear now d k : spared now d (clear_hot_pointer k d).2.
Proof.
  intros k' r Hr _. unfold clear_hot_pointer.
  destruct (update_clip_keeps k (fun r => is_some (cold_handle (cold r))) (with_hot (mkHot None None)) d k' r Hr) as (r' & Hr' & H).
  exists r'. split; [done|]. destruct H as [->|(_ & Hc & ->)]; [by left|by right].
Qed.

Lemma mark_evicted_clips k d : clips (mark_alert_clip_evicted k d).2 = clips d.
Proof.
  unfold mark_alert_clip_evicted, mbind, se_bind, update_alert. destruct (alerts d !! k) as [r|]; [|done]. by destruct (in_state "ready" r).
Qed.

(** A file that a step may remove: the clip of an alert whose evidence is delivered, the snapshot
    of an event that is gone, or the hot copy of a clip that is replicated, or closed or abandoned,
    or quarantined. *)
Definition spent (cfg : StorageSafetyConfig) (now : Z) (d : Db) (p : string) : Prop :=
  (exists ac, alerts d !! a_id ac = Some ac /\ evictable now d ac = true /\ p = join (clips_dir cfg) (a_path ac)) \/
  (exists dir stem name, snapshots_dir cfg = Some dir /\ jpg_stem name = Some stem /\ events (box d) !! stem = None /\
     p = dir +:+ "/" +:+ name) \/
  (exists r q, clips d !! id r = Some r /\ hot_path (hot r) = Some q /\ p = join (clips_dir cfg) q /\
     (soft_candidate (camera_id r) r = true \/ protected now r = false)).

Section effects.
Context (walk : gset string -> list string) (cfg : StorageSafetyConfig) (now : Z).
Context (d0 : Db) (f0 : gmap string Z).

(** Until a clip is taken. *)
Record untouched (w : World) : Prop := {
  u_clips : clips (db w) = clips d0;
  u_box : box (db w) = box d0;
  u_ok : tables_ok (db w);
  u_files : forall p, ~ spent cfg now d0 p -> files (disk w) !! p = f0 !! p;
}.

(** After that. *)
Record taken (w : World) : Prop := {
  t_ok : tables_ok (db w);
  t_spared : spared now d0 (db w);
  t_files : forall p, ~ spent cfg now d0 p -> files (disk w) !! p = f0 !! p;
}.

Lemma untouched_taken w : untouched w -> taken w.
Proof. intros [H1 H2 H3 H4]. split; [done| |done]. by apply spared_clips. Qed.

Lemma untouched_used w : untouched w -> untouched (used w).
Proof. by intros []. Qed.

Lemma remove_file_frame p q k : q <> p -> files (remove_file p k).2 !! q = files k !! q.
Proof.
  intros Hne. unfold remove_file. destruct (files k !! p); [|done]. destruct (decide (p ∈ stuck k)); [done|].
  simpl. by rewrite lookup_delete_ne.
Qed.

Lemma untouched_unlink p w : spent cfg now d0 p -> untouched w -> untouched (set_disk (remove_file p (disk w)).2 w).
Proof.
  intros Hp [H1 H2 H3 H4]. split; [done..|]. intros q Hq. simpl. rewrite remove_file_frame; [by apply H4|]. by intros ->.
Qed.

Lemma taken_unlink p w : spent cfg now d0 p -> taken w -> taken (set_disk (remove_file p (disk w)).2 w).
Proof.
  intros Hp [H1 H2 H3]. split; [done..|]. intros q Hq. simpl. rewrite remove_file_frame; [by apply H3|]. by intros ->.
Qed.

Lemma mark_evicted_ok k d : tables_ok d -> tables_ok (mark_alert_clip_evicted k d).2 /\ box (mark_alert_clip_evicted k d).2 = box d.
Proof.
  intros Hd. unfold mark_alert_clip_evicted, mbind, se_bind, update_alert. destruct (alerts d !! k) as [r|]; [|done].
  destruct (in_state "ready" r); [|done]. split; [|done]. by destruct Hd.
Qed.

Lemma untouched_alert ac w :
  alerts d0 !! a_id ac = Some ac -> evictable now d0 ac = true -> untouched w ->
  untouched (reclaim_alert (clips_dir cfg) ac w).2.
Proof.
  intros Hac He Hw. apply (yields_unlink (fun _ w' => untouched w')).
  apply (untouched_unlink (join (clips_dir cfg) (a_path ac))) in Hw; [|left; by exists ac].
  assert (untouched (stmt (mark_alert_clip_evicted (a_id ac)) (set_disk (remove_file (join (clips_dir cfg) (a_path ac)) (disk w)).2 w)).2) as Hm.
  { revert Hw. generalize (set_disk (remove_file (join (clips_dir cfg) (a_path ac)) (disk w)).2 w). intros v Hv. unfold stmt.
    destruct (next_fails v); [by apply untouched_used|]. destruct Hv as [H1 H2 H3 H4].
    destruct (mark_evicted_ok (a_id ac) (db v) H3) as [H5 H6]. pose proof (mark_evicted_clips (a_id ac) (db v)) as H7.
    destruct (mark_alert_clip_evicted (a_id ac) (db v)) as [[] d]; simpl in *; split; simpl; try done; congruence. }
  destruct (remove_file _ (disk w)).1 as [|[]]; try exact Hw; apply yields_try; exact Hm.
Qed.

Lemma untouched_alerts rows : forall n w,
  Forall (fun ac => alerts d0 !! a_id ac = Some ac /\ evictable now d0 ac = true) rows -> untouched w ->
  untouched (reclaim_alerts (clips_dir cfg) rows n w).2.
Proof.
  induction rows as [|ac rows IH]; intros n w Hr Hw; [done|]. apply Forall_cons in Hr as [[Hac He] Hr].
  apply (yields_seq (fun _ w' => untouched w') (fun _ w' => untouched w')); [by apply untouched_alert|done|].
  intros ok w' Hw'. by apply IH.
Qed.

Lemma untouched_evictor w :
  alerts_ok d0 -> db w = d0 -> untouched w ->
  untouched (reclaim_evictable_alert_clips (clips_dir cfg) now PRESSURE_RECLAIM_BATCH w).2.
Proof.
  intros Ha Hd Hw. apply (yields_try (fun _ w' => untouched w')). unfold query, stmt, gets.
  destruct (next_fails w); [by apply untouched_used|]. simpl. rewrite Hd. apply untouched_alerts.
  - apply Forall_forall. intros ac Hac. by eapply evictable_in.
  - destruct Hw as [H1 H2 H3 H4]. by rewrite Hd in *.
Qed.

Lemma untouched_snapshots dir live candidates : forall n w,
  snapshots_dir cfg = Some dir ->
  Forall (fun c => exists name, jpg_stem name = Some c.1 /\ c.2 = dir +:+ "/" +:+ name /\ (c.1 ∉ live -> events (box d0) !! c.1 = None)) candidates ->
  untouched w -> untouched (reclaim_snapshots live candidates n w).2.
Proof.
  induction candidates as [|[stem path] rest IH]; intros n w Hdir Hc Hw; [done|]. apply Forall_cons in Hc as [(name & Hs & Hp & Hl) Hc].
  simpl. destruct (decide (stem ∈ live)); [by apply IH|]. apply (yields_unlink (fun _ w' => untouched w')).
  apply IH; [done..|]. apply untouched_unlink; [|done]. right. left. exists dir, stem, name. simpl in *. split_and!; auto.
Qed.

Lemma untouched_sweep dir w : snapshots_dir cfg = Some dir -> untouched w -> untouched (sweep_orphan_snapshots walk dir w).2.
Proof.
  intros Hdir Hw. unfold sweep_orphan_snapshots. destruct (negb _); [done|].
  destruct (next_fails w); [by apply untouched_used|].
  destruct (snapshot_candidates walk dir (disk w)) as [|c cs] eqn:Ec; [by apply untouched_used|]. rewrite <- Ec.
  apply (yields_query (fun _ w' => untouched w')); [by do 2 apply untouched_used|].
  apply (untouched_snapshots dir); [done| |by do 2 apply untouched_used].
  apply Forall_forall. intros [stem path] Hin. pose proof Hin as Hin'. unfold snapshot_candidates in Hin.
  apply elem_of_take in Hin as (i & Hi & _). apply list_elem_of_lookup_2 in Hi.
  apply list_elem_of_omap in Hi as (name & _ & Hn). apply fmap_Some in Hn as (s & Hs & [= -> ->]).
  exists name. split_and!; [done..|]. simpl. rewrite <- (u_box w Hw). intros Hnl.
  destruct (events (box (db w)) !! s) as [e|] eqn:E; [|done]. exfalso. apply Hnl. unfold existing_event_ids. apply elem_of_intersection.
  split; [apply elem_of_dom; by eexists|]. apply elem_of_list_to_set, list_elem_of_fmap. eexists (s, _). split; [done|exact Hin'].
Qed.
End effects.

(** ** Taking a clip *)

Section taking.
Context (walk : gset string -> list string) (cfg : StorageSafetyConfig) (now : Z).
Context (d0 : Db) (f0 : gmap string Z).

#[local] Abbreviation untouched := (untouched cfg now d0 f0).
#[local] Abbreviation taken := (taken cfg now d0 f0).

Lemma taken_same w w' : db w' = db w -> disk w' = disk w -> taken w -> taken w'.
Proof. intros E1 E2 [H1 H2 H3]. split; rewrite ?E1, ?E2; done. Qed.

(** Deleting a clip that is not protected, and its hot file. *)
Lemma taken_delete w clip {B} (P : result B Fault -> World -> Prop) (g : unit -> RM B) :
  untouched w -> clips d0 !! id clip = Some clip -> protected now clip = false ->
  (forall e w', taken w' -> P (Err e) w') -> (forall w', taken w' -> yields P (g tt) w') ->
  yields P (stmt (cascade_delete_clip_metadata (id clip)) ;; unlink_hot (clips_dir cfg) clip ;; g tt) w.
Proof.
  intros Hw Hc Hp He Hg. pose proof (untouched_taken _ _ _ _ _ (untouched_used _ _ _ _ _ Hw)) as Hused.
  apply yields_stmt; [by apply He| |].
  - intros e d. unfold cascade_delete_clip_metadata. rewrite (u_clips _ _ _ _ _ Hw), Hc. done.
  - intros [] d Hd. assert (taken (set_db d (used w))) as Ht.
    { unfold cascade_delete_clip_metadata in Hd. rewrite (u_clips _ _ _ _ _ Hw), Hc in Hd. injection Hd as <-.
      destruct Hw as [H1 H2 H3 H4]. split; [by apply delete_clip_ok| |done].
      intros k r Hk. rewrite <- H1 in Hk. apply (spared_delete now (db w) (id clip) clip); [by rewrite H1|done|done]. }
    apply yields_bind. unfold unlink_hot. destruct (hot_path (hot clip)) as [p|] eqn:Eh; [|by apply Hg].
    unfold mbind, se_bind, unlink. destruct (remove_file (join (clips_dir cfg) p) (disk (set_db d (used w)))) as [r k] eqn:Er.
    apply Hg. pose proof (taken_unlink cfg now d0 f0 (join (clips_dir cfg) p) (set_db d (used w))) as H. rewrite Er in H.
    apply H; [|done]. right. right. exists clip, p. split_and!; [done..|by right].
Qed.

Lemma taken_quarantined w clip :
  untouched w -> find_largest_quarantined_hot_clip d0 = Some clip -> tables_ok d0 -> taken (evict_quarantined cfg clip w).2.
Proof.
  intros Hw Hf Hok. unfold find_largest_quarantined_hot_clip in Hf.
  pose proof (first_spec _ (Comparator0 := size_desc_comparator) _ _ _ Hok Hf) as (Hc & Hq & _).
  apply (taken_delete w clip (fun _ w' => taken w') (fun _ => publish _)); [done|done|by apply unprotected_quarantined|done|].
  intros w' Hw'. by apply (taken_same w').
Qed.

Lemma taken_camera idx cam w :
  tables_ok d0 -> untouched w ->
  yields (fun r w' => taken w' /\ (r = Ok None -> untouched w')) (evict_camera (clips_dir cfg) now idx cam) w.
Proof.
  intros Hok Hw. pose proof (untouched_used _ _ _ _ _ Hw) as Hu. pose proof (untouched_taken _ _ _ _ _ Hu) as Ht.
  unfold evict_camera. apply yields_query; [done|].
  replace (find_soft_evict_candidate cam (db w)) with (find_soft_evict_candidate cam d0)
    by (unfold find_soft_evict_candidate, clips_where, clip_rows; by rewrite (u_clips _ _ _ _ _ Hw)).
  destruct (find_soft_evict_candidate cam d0) as [clip|] eqn:Es.
  - pose proof (first_spec _ _ _ _ Hok Es) as (Hc & Hs & _).
    destruct (hot_path (hot clip)) as [p|] eqn:Eh; [|done]. apply yields_unlink.
    assert (spent cfg now d0 (join (clips_dir cfg) p)) as Hp.
    { right. right. exists clip, p. split_and!; [done..|]. left. unfold soft_candidate in *.
      apply andb_true_iff in Hs as [[_ H1]%andb_true_iff H2]. by rewrite Z.eqb_refl, H1, H2. }
    apply (untouched_unlink _ _ _ _ _ _ Hp) in Hu. apply (taken_unlink _ _ _ _ _ _ Hp) in Ht.
    revert Hu Ht. generalize (set_disk (remove_file (join (clips_dir cfg) p) (disk (used w))).2 (used w)). intros v Hu Ht.
    assert (yields (fun r w' => taken w' /\ (r = Ok None -> untouched w'))
      (n ← stmt (clear_hot_pointer (id clip));
       (if n =? 0 then mret tt else publish (ClipHotEvicted (id clip) cam)) ;; modify (set_cursor (idx + 1)) ;; mret (Some true)) v) as Hclear.
    { assert (forall d, (clear_hot_pointer (id clip) (db v)).2 = d -> taken (set_db d (used v))) as Hd.
      { intros d <-. destruct Hu as [H1 H2 H3 H4]. split; [by apply (clip_op_ok (ClearHot (id clip)))| |done].
        intros k r Hk. rewrite <- H1 in Hk. by apply spared_clear. }
      apply yields_stmt; [by split; [apply (taken_same v)|]|intros e d E; split; [apply Hd; by rewrite E|done]|].
      intros n d E. assert (taken (set_db d (used v))) as Hd' by (apply Hd; by rewrite E).
      destruct (n =? 0); (split; [by apply (taken_same (set_db d (used v)))|done]). }
    destruct (remove_file _ _).1 as [|[]]; [exact Hclear..|]. by split; [apply (taken_same v)|].
  - pose proof (untouched_used _ _ _ _ _ Hu) as Hu2. pose proof (untouched_taken _ _ _ _ _ Hu2) as Ht2.
    apply yields_query; [done|].
    replace (find_hard_evict_candidate cam (now - millis ABANDONED_CLIP_GRACE_MS) (db (used w)))
      with (find_hard_evict_candidate cam (now - millis ABANDONED_CLIP_GRACE_MS) d0)
      by (unfold find_hard_evict_candidate, clips_where, clip_rows; simpl; by rewrite (u_clips _ _ _ _ _ Hw)).
    destruct (find_hard_evict_candidate cam _ d0) as [clip|] eqn:Eh; [|by split].
    pose proof (first_spec _ _ _ _ Hok Eh) as (Hc & Hs & _).
    apply (taken_delete _ clip _ (fun _ => publish _ ;; modify _ ;; mret _)); [done|done|by eapply unprotected_hard|done|].
    intros w' Hw'. by split; [apply (taken_same w')|].
Qed.

Lemma taken_round places : forall w, tables_ok d0 -> untouched w -> taken (evict_round (clips_dir cfg) now places w).2.
Proof.
  induction places as [|[idx cam] places IH]; intros w Hok Hw;
    [apply untouched_taken in Hw; by apply (taken_same w)|].
  apply (yields_seq (fun _ w' => taken w') _ _ _ _ (taken_camera idx cam w Hok Hw)); [by intros ? ? []|].
  intros [b|] w' [Ht Hu]; [done|]. apply IH; [done|by apply Hu].
Qed.

Lemma taken_evict_one w : tables_ok d0 -> untouched w -> taken (evict_one (clips_dir cfg) now w).2.
Proof.
  intros Hok Hw. pose proof (untouched_used _ _ _ _ _ Hw) as Hu.
  apply (yields_query (fun _ w' => taken w')); [by apply untouched_taken in Hu|].
  destruct (cameras_with_clips (db w)); [by apply untouched_taken in Hu|]. apply yields_bind. unfold gets. cbv beta iota. by apply taken_round.
Qed.

Lemma taken_reclaim w :
  tables_ok d0 -> alerts_ok d0 -> db w = d0 -> untouched w -> taken (pressure_reclaim walk cfg now w).2.
Proof.
  intros Hok Ha Hd Hw. apply (yields_seq (fun _ w' => taken w') (fun _ w' => untouched w')).
  { by apply untouched_evictor. }
  { intros e w' Hw'. by apply untouched_taken in Hw'. }
  intros n1 w1 Hw1. destruct (0 <? n1); [by apply untouched_taken in Hw1|].
  apply (yields_seq (fun _ w' => taken w') (fun _ w' => untouched w')).
  { destruct (snapshots_dir cfg) as [dir|] eqn:Edir; [by apply untouched_sweep|done]. }
  { intros e w' Hw'. by apply untouched_taken in Hw'. }
  intros n2 w2 Hw2. destruct (0 <? n2); [by apply untouched_taken in Hw2|].
  pose proof (untouched_used _ _ _ _ _ Hw2) as Hu2.
  apply (yields_query (fun _ w' => taken w')); [by apply untouched_taken in Hu2|].
  replace (find_largest_quarantined_hot_clip (db w2)) with (find_largest_quarantined_hot_clip d0)
    by (unfold find_largest_quarantined_hot_clip, clips_where, clip_rows; by rewrite (u_clips _ _ _ _ _ Hw2)).
  destruct (find_largest_quarantined_hot_clip d0) as [clip|] eqn:Eq; [|by apply taken_evict_one].
  apply (yields_seq (fun _ w' => taken w') (fun _ w' => taken w')); [by apply taken_quarantined|done|done].
Qed.
End taking.

(** C9. A step down the ladder spares the footage that must stay: whatever fails on the way, a clip
    that is cold-replicated, or that is still open and not older than the grace, keeps its row,
    unless it is quarantined; at most it loses a hot copy while the cold one stands. *)
Theorem reclaim_spares_live_and_replicated walk cfg now w k r :
  tables_ok (db w) -> alerts_ok (db w) -> clips (db w) !! k = Some r -> protected now r = true ->
  exists r', clips (db (pressure_reclaim walk cfg now w).2) !! k = Some r' /\ spared_row r r'.
Proof.
  intros Hok Ha Hk Hp. apply (taken_reclaim walk cfg now (db w) (files (disk w)) w Hok Ha eq_refl); by try split.
Qed.

(** A step removes no file but a spent one: the clip of an alert whose deliveries are all done,
    the snapshot of an event that is no longer recorded, or the hot copy of a clip that is
    replicated, closed or abandoned, or quarantined. *)
Lemma reclaim_removes_only_spent_files walk cfg now w p :
  tables_ok (db w) -> alerts_ok (db w) -> ~ spent cfg now (db w) p ->
  files (disk (pressure_reclaim walk cfg now w).2) !! p = files (disk w) !! p.
Proof.
  intros Hok Ha Hp. apply (taken_reclaim walk cfg now (db w) (files (disk w)) w Hok Ha eq_refl); by try split.
Qed.

(** ** The round *)

(** The places of a round are the cameras, once each, from the cursor on and around. *)
Lemma round_of_rotates c cams :
  0 <= c -> let k := Z.to_nat (c mod zlength cams) in (round_of c cams).*2 = drop k cams ++ take k cams.
Proof.
  intros Hc k. unfold round_of. rewrite <- list_fmap_compose. unfold compose. simpl.
  destruct (decide (cams = [])) as [->|Hne]; [by destruct k|].
  assert (0 < zlength cams) as Hn by (unfold zlength; destruct cams; [done|simpl; lia]).
  pose proof (Z.mod_pos_bound c (zlength cams) Hn) as Hk. unfold zlength in *.
  assert (forall j, (j < length cams)%nat -> Some (nth j cams 0) = cams !! j) as Hnth.
  { intros j Hj. destruct (lookup_lt_is_Some_2 cams j Hj) as [x E]. by rewrite nth_lookup, E. }
  apply list_eq. intros i. rewrite list_lookup_fmap. destruct (decide (i < length cams)%nat) as [Hi|Hi].
  2: { rewrite (proj2 (lookup_ge_None (seq 0 (length cams)) i)) by (rewrite length_seq; lia).
       symmetry. apply lookup_ge_None. rewrite length_app, length_drop, length_take. lia. }
  rewrite lookup_seq_lt by done. simpl.
  destruct (decide (k + i < length cams)%nat) as [Hki|Hki].
  - replace ((c + Z.of_nat i) mod Z.of_nat (length cams)) with (Z.of_nat (k + i)).
    2: { rewrite Z.add_mod, (Z.mod_small (Z.of_nat i)) by lia. rewrite Z.mod_small; lia. }
    rewrite lookup_app_l by (rewrite length_drop; lia). rewrite lookup_drop, Nat2Z.id. by apply Hnth.
  - replace ((c + Z.of_nat i) mod Z.of_nat (length cams)) with (Z.of_nat (k + i - length cams)).
    2: { rewrite Z.add_mod, (Z.mod_small (Z.of_nat i)) by lia. apply (Z.mod_unique _ _ 1); lia. }
    rewrite lookup_app_r by (rewrite length_drop; lia). rewrite length_drop, lookup_take_lt, Nat2Z.id by lia.
    replace (i - (length cams - k))%nat with (k + i - length cams)%nat by lia. apply Hnth. lia.
Qed.

Lemma used_none w : faults w = [] -> used w = w.
Proof. destruct w. simpl. by intros ->. Qed.

Lemma stmt_ok {A} (m : DbM A) w :
  faults w = [] -> stmt m w = match m (db w) with (Ok a, d) => (Ok a, set_db d w) | (Err e, d) => (Err (FDb e), set_db d w) end.
Proof. intros Hf. unfold stmt, next_fails. by rewrite Hf, used_none. Qed.

Lemma query_ok {A B} (f : Db -> A) (g : A -> RM B) w : faults w = [] -> (query f ≫= g) w = g (f (db w)) w.
Proof. intros Hf. unfold mbind, se_bind, query. rewrite stmt_ok by done. simpl. f_equal. by destruct w. Qed.

(** With no file that cannot be removed, removing goes as far as it can. *)
Lemma remove_unstuck p k : stuck k = ∅ -> (remove_file p k).1 <> Err RemoveFailed /\ stuck (remove_file p k).2 = ∅.
Proof.
  intros Hs. unfold remove_file. destruct (files k !! p); [|done]. destruct (decide (p ∈ stuck k)) as [H|]; [|done].
  rewrite Hs in H. set_solver.
Qed.

(** The clip the camera gives up: the oldest replicated one, or else the oldest that may go. *)
Definition victim (now cam : Z) (d : Db) : option (ClipRow * bool) :=
  match find_soft_evict_candidate cam d with
  | Some r => Some (r, true)
  | None => (fun r => (r, false)) <$> find_hard_evict_candidate cam (now - millis ABANDONED_CLIP_GRACE_MS) d
  end.

Definition without (v : ClipRow * bool) (m : gmap Z ClipRow) : gmap Z ClipRow :=
  if v.2 then <[id v.1 := with_hot (mkHot None None) v.1]> m else delete (id v.1) m.

Lemma soft_clears d r cam :
  tables_ok d -> clips d !! id r = Some r -> soft_candidate cam r = true ->
  is_some (hot_path (hot r)) = true /\
  clear_hot_pointer (id r) d = (Ok 1, set_clips (<[id r := with_hot (mkHot None None) r]> (clips d)) d).
Proof.
  intros Hd Hr [[_ Hh]%andb_true_iff Hc]%andb_true_iff. destruct (ok_clips d Hd _ _ Hr) as (_ & _ & Hok).
  unfold clip_ok, clip_check, clip_references in Hok. rewrite Hh, Hc in Hok. simpl in Hok.
  destruct (is_some (hot_path (hot r))) eqn:Ep; [|done]. split; [done|]. simpl in Hok.
  unfold clear_hot_pointer, update_clip. rewrite Hr, Hc. unfold clip_ok, clip_check, clip_references. simpl. rewrite Hc. simpl.
  apply andb_true_iff in Hok as [H1 [[H2 H3]%andb_true_iff H4]%andb_true_iff]. by rewrite H1, H2, H4.
Qed.

Lemma evict_camera_ok clips_dir now idx cam w :
  tables_ok (db w) -> faults w = [] -> stuck (disk w) = ∅ ->
  match victim now cam (db w) with
  | None => evict_camera clips_dir now idx cam w = (Ok None, w)
  | Some v => exists w', evict_camera clips_dir now idx cam w = (Ok (Some true), w') /\
      cursor w' = idx + 1 /\ clips (db w') = without v (clips (db w))
  end.
Proof.
  intros Hd Hf Hs. unfold victim, evict_camera. rewrite query_ok by done.
  destruct (find_soft_evict_candidate cam (db w)) as [r|] eqn:Es.
  - pose proof (first_spec _ _ _ _ Hd Es) as (Hr & Hc & _). destruct (soft_clears (db w) r cam Hd Hr Hc) as [Hp Hclear].
    destruct (hot_path (hot r)) as [p|]; [|done]. unfold mbind at 1, se_bind at 1, unlink.
    destruct (remove_unstuck (join clips_dir p) (disk w) Hs) as [Hnot Hs'].
    destruct (remove_file (join clips_dir p) (disk w)) as [rm k]. simpl in *.
    assert (exists w', (n ← stmt (clear_hot_pointer (id r));
        (if n =? 0 then mret tt else publish (ClipHotEvicted (id r) cam)) ;;
        modify (set_cursor (idx + 1)) ;; mret (Some true)) (set_disk k w) = (Ok (Some true), w') /\
        cursor w' = idx + 1 /\ clips (db w') = without (r, true) (clips (db w))) as H.
    { unfold mbind at 1, se_bind at 1. rewrite stmt_ok by done. simpl. rewrite Hclear. by eexists. }
    destruct rm as [|[]]; [done|done|]. by destruct Hnot.
  - rewrite query_ok by done. destruct (find_hard_evict_candidate cam _ (db w)) as [r|] eqn:Eh; [|done].
    pose proof (first_spec _ _ _ _ Hd Eh) as (Hr & _). simpl. unfold mbind at 1, se_bind at 1. rewrite stmt_ok by done.
    unfold cascade_delete_clip_metadata. rewrite Hr. unfold mbind at 1, se_bind at 1, unlink_hot.
    destruct (hot_path (hot r)) as [p|]; [|by eexists].
    unfold mbind, se_bind, unlink. destruct (remove_file (join clips_dir p) (disk (set_db (delete_clip (id r) (db w)) w))). by eexists.
Qed.

(** Eviction is round-robin and takes footage in the right order: when nothing fails, the step
    takes a clip from the first camera, from the cursor on and around, that has one to give, and
    moves the cursor behind it; there, the oldest replicated clip loses its hot copy, and only a
    camera without one gives its oldest closed or abandoned clip; and when no camera has one, the
    step says so and changes no row. *)
Lemma evict_one_is_round_robin clips_dir now w :
  tables_ok (db w) -> faults w = [] -> stuck (disk w) = ∅ ->
  let places := round_of (cursor w) (cameras_with_clips (db w)) in
  (forall before idx cam after v, places = before ++ (idx, cam) :: after ->
     Forall (fun p => victim now p.2 (db w) = None) before -> victim now cam (db w) = Some v ->
     exists w', evict_one clips_dir now w = (Ok true, w') /\ cursor w' = idx + 1 /\
       clips (db w') = without v (clips (db w))) /\
  (Forall (fun p => victim now p.2 (db w) = None) places ->
     exists w', evict_one clips_dir now w = (Ok false, w') /\ db w' = db w).
Proof.
  intros Hd Hf Hs places. unfold evict_one. rewrite query_ok by done.
  assert (forall l : list (Z * Z), Forall (fun p => victim now p.2 (db w) = None) l -> forall rest,
    evict_round clips_dir now (l ++ rest) w = evict_round clips_dir now rest w) as Hskip.
  { induction 1 as [|[idx cam] l H _ IH]; intros rest; [done|]. simpl. unfold mbind, se_bind.
    pose proof (evict_camera_ok clips_dir now idx cam w Hd Hf Hs) as E. simpl in H. rewrite H in E. rewrite E. apply IH. }
  subst places. split.
  - intros before idx cam after v E Hb Hv. destruct (cameras_with_clips (db w)) as [|c cs]; [by destruct before|].
    unfold mbind, se_bind, gets. rewrite E, Hskip by done. simpl. unfold mbind, se_bind.
    pose proof (evict_camera_ok clips_dir now idx cam w Hd Hf Hs) as H. rewrite Hv in H. destruct H as (w' & -> & H). by exists w'.
  - intros Hnone. destruct (cameras_with_clips (db w)) as [|c cs]; [by exists w|].
    unfold mbind, se_bind, gets. rewrite <- (app_nil_r (round_of _ _)), Hskip by done. simpl. by eexists.
Qed.

(** ** The sampler and the recorder *)

Definition sampler (w : World) : WatermarkController * bool * WatermarkSignal := (controller w, refusing w, signal w).

Section frame.
Context (x : WatermarkController * bool * WatermarkSignal).
#[local] Abbreviation same := (fun w => sampler w = x).

Lemma frame_stmt {A} (m : DbM A) : preserves same (stmt m).
Proof. intros w Hw. unfold stmt. destruct (next_fails w); [done|]. by destruct (m (db w)) as [[a|e] d]. Qed.

Lemma frame_query {A} (f : Db -> A) : preserves same (query f).
Proof. apply frame_stmt. Qed.

Lemma frame_unlink p : preserves same (unlink p).
Proof. intros w Hw. unfold unlink. by destruct (remove_file p (disk w)). Qed.

Lemma frame_try {A} (m : RM A) : preserves same m -> preserves same (try_ m).
Proof. intros H w Hw. specialize (H w Hw). unfold try_. by destruct (m w). Qed.

Lemma frame_modify f : (forall w, sampler (f w) = sampler w) -> preserves same (modify (E:=Fault) f).
Proof. intros H w Hw. simpl. by rewrite H. Qed.
End frame.

Ltac frame :=
  repeat first
    [ apply preserves_ret | apply frame_query | apply frame_stmt | apply frame_unlink | apply preserves_gets
    | apply frame_try | apply frame_modify; done
    | apply preserves_bind; [|intros ?]
    | assumption | case_match ].

Lemma frame_alerts x dir rows : forall n, preserves (fun w => sampler w = x) (reclaim_alerts dir rows n).
Proof. induction rows as [|ac rows IH]; intros n; simpl; [frame|]. unfold reclaim_alert. frame; apply IH. Qed.

Lemma frame_snapshots x live l : forall n, preserves (fun w => sampler w = x) (reclaim_snapshots live l n).
Proof. induction l as [|[stem p] l IH]; intros n; simpl; [frame|]. destruct (decide _); [apply IH|]. frame; apply IH. Qed.

Lemma frame_round x dir now places : preserves (fun w => sampler w = x) (evict_round dir now places).
Proof.
  induction places as [|[idx cam] places IH]; simpl; [frame|]. unfold evict_camera, publish, unlink_hot. frame.
Qed.

Lemma frame_reclaim x walk cfg now : preserves (fun w => sampler w = x) (pressure_reclaim walk cfg now).
Proof.
  unfold pressure_reclaim, reclaim_evictable_alert_clips, evict_quarantined, evict_one, unlink_hot, publish.
  pose proof (frame_round x (clips_dir cfg) now) as Hround.
  assert (forall dir, preserves (fun w => sampler w = x) (sweep_orphan_snapshots walk dir)) as Hsweep.
  { intros dir w Hw. unfold sweep_orphan_snapshots. destruct (negb _); [done|]. destruct (next_fails w); [done|].
    destruct (snapshot_candidates walk dir (disk w)) as [|c cs] eqn:E; [done|].
    assert (preserves (fun w => sampler w = x) (live ← query (existing_event_ids ((c :: cs).*1)); reclaim_snapshots live (c :: cs) 0)) as H.
    { frame. apply frame_snapshots. }
    apply H. exact Hw. }
  frame; try apply frame_alerts; try apply Hround; try apply Hsweep; unfold unlink_hot; frame.
Qed.

(** The recorder may record while the level is Ok, and the signal shows the controller's level. *)
Record sampled (w : World) : Prop := {
  ok_records : level (controller w) = LevelOk -> refusing w = false;
  ok_shown : signal_level (signal w) = level (controller w);
}.

Lemma sampled_same w w' : sampler w' = sampler w -> sampled w -> sampled w'.
Proof. unfold sampler. intros [= E1 E2 E3] [H1 H2]. split; by rewrite ?E1, ?E2, ?E3. Qed.

Lemma level_roundtrip l : from_u8 (as_u8 l) = l.
Proof. by destruct l. Qed.

(** After a reading the recorder's flag is behind only when the level has just become Ok. *)
Lemma sampled_reading p w : sampled w ->
  yields (fun r w' => exists t, r = Ok t /\ signal_level (signal w') = level (controller w') /\
    (level (controller w') = LevelOk -> refusing w' = false \/ t = Exited LevelOk) /\
    (t = Entered Panic -> level (controller w') = Panic)) (observe_reading p) w.
Proof.
  intros [H1 H2]. unfold yields, observe_reading. destruct (observe p (controller w)) as [c t] eqn:E. simpl.
  exists t. split; [done|]. split; [by destruct c as [? ? []]|]. unfold observe in E.
  split; [intros Hc|by case_bool_decide; injection E as <- <-; [done|destruct (_ <? _); intros [= ->]]].
  case_bool_decide as Hs; injection E as <- <-; [left; by apply H1|]. right. simpl in Hc. rewrite Hc in *.
  destruct (level (controller w)) eqn:El; [by destruct Hs|done..].
Qed.

Lemma sampled_batch walk cfg env : forall fuel step w, sampled w -> sampled (reclaim_batch walk cfg env step fuel w).2.
Proof.
  induction fuel as [|fuel IH]; intros step w Hw; [done|]. simpl.
  apply (yields_seq (fun _ w' => sampled w') (fun _ w' => sampled w')).
  { apply (sampled_same w); [|done]. apply frame_try; [apply frame_reclaim|done]. }
  { done. }
  intros [[]|] w1 Hw1; [|done..]. destruct (_ =? _); [|by apply IH]. destruct (e_probe (env step)) as [p|]; [|by apply IH].
  apply (yields_seq (fun _ w' => sampled w') (fun _ w' => sampled w')); [|done|].
  - unfold reprobe. eapply (yields_seq (fun _ w' => sampled w')); [by apply sampled_reading|by intros e w' (t & ? & _)|].
    intros t w2 (t' & [= <-] & H1 & H2 & _). case_bool_decide as E; [by split|]. split; [|done]. intros Hl. by destruct (H2 Hl).
  - intros [] w2 Hw2. apply yields_bind. unfold gets. cbv beta iota. case_bool_decide; [done|]. by apply IH.
Qed.

Record Tick := mkTick { t_now : Z; t_probe : option f32; t_env : Z -> StepEnv }.

Definition safety_machine (walk : gset string -> list string) (cfg : StorageSafetyConfig) : Machine Tick World unit :=
  fun t w => ((safety_tick walk cfg (t_now t) (t_probe t) (t_env t) w).2, tt).

(** The recorder is never refused by a healthy disk: whatever the readings, the failures and
    what is reclaimed, after every turn of the sampler the recorder accepts clips if the level is
    Ok, and the shared signal shows the controller's level. *)
Lemma healthy_disk_records walk cfg ticks w :
  let sampler_machine := safety_machine walk cfg in
  sampled w -> sampled (mrun ticks w).1.
Proof.
  intros M Hw. apply (mrun_invariant (fun _ => True) sampled ticks w); [|by apply Forall_true|done].
  clear. intros t w _ Hw. simpl. unfold safety_tick. destruct (t_probe t) as [p|]; [|done].
  eapply (yields_seq (fun _ w' => sampled w')); [by apply sampled_reading|by intros e w' (t' & ? & _)|].
  intros t1 w1 (t' & [= <-] & H1 & H2 & H3).
  apply (yields_seq (fun _ w' => sampled w') (fun _ w' => sampled w')); [|done|].
  { unfold react. destruct t1 as [|[]|[]]; split; simpl; try done; try (by intros Hl; destruct (H2 Hl)).
    intros Hl. by rewrite H3 in Hl. }
  intros [] w2 Hw2. apply (yields_seq (fun _ w' => sampled w') (fun _ w' => sampled w')); [|done|].
  { case_bool_decide; [|done]. apply (sampled_same w2); [|done]. simpl. by destruct (next_fails (used w2)). }
  intros [] w3 Hw3. apply yields_bind. unfold gets. cbv beta iota. case_bool_decide; [done|]. by apply sampled_batch.
Qed.

(** ** A concrete box *)

Module Demo.
Definition hour : Z := secs 3600.
Definition now : Z := 100 * hour.

(** A clip of camera 1, started at [start]; closed, and replicated, or not. *)
Definition clip (k start : Z) (closed cold_copy quarantined : bool) : ClipRow :=
  mkClip k 1 start "h264" "mp4" 960 540
    (mkFinish (if closed then Some (start + hour) else None) 0 1 (Some "sha")) (mkHot (Some "local") (Some ("clip" +:+ pretty k)))
    (if cold_copy then mkCold (Some "lan") (Some "x") (Some start) else no_cold) 0 (mkRetry 0 None None quarantined None) None no_announce.

Definition db (rows : list ClipRow) (events : gmap string (Alert.AlertEvent * bool)) : Db :=
  mkDb {[1]} (list_to_map ((fun r => (id r, r)) <$> rows)) 1000 ∅ 1 ∅ 1 (mkOutbox events ∅ 1) ∅
    (list_to_map [("local", mkBackend "local" "{}" 0 0); ("lan", mkBackend "lan" "{}" 0 0)]) (Some (mkReplica (Some "lan") 0 0)) ∅ None.

Definition cfg : StorageSafetyConfig := mkConfig "clips" (Some "snaps") 15 5.

Definition world (d : Db) (paths : list string) : World :=
  mkWorld d (mkDisk (list_to_map ((fun p => (p, 0)) <$> paths)) {["clips"; "snaps"]} ∅) [] 0 [] false
    (controller_new 15 5) signal_new [].

(** An open clip, a replicated one and a closed one. *)
Definition three : Db := db [clip 1 (now - millis 1000) false false false; clip 2 (10 * hour) true true false; clip 3 (20 * hour) true false false] ∅.
Definition box3 : World := world three ["clips/clip1"; "clips/clip2"; "clips/clip3"].
End Demo.

Lemma demo_tables_ok : tables_ok Demo.three.
Proof.
  split.
  - apply (bool_decide_unpack _). by vm_compute.
  - apply map_Forall_empty.
  - apply map_Forall_empty.
  - by vm_compute.
Qed.

Lemma demo_alerts_ok : alerts_ok Demo.three.
Proof. apply map_Forall_empty. Qed.

Lemma reclaim_spares_live_and_replicated_witness :
  (exists r', clips (db (pressure_reclaim elements Demo.cfg Demo.now Demo.box3).2) !! 1 = Some r' /\
    spared_row (Demo.clip 1 (Demo.now - millis 1000) false false false) r').
Proof.
  apply (reclaim_spares_live_and_replicated elements Demo.cfg Demo.now Demo.box3 1);
    [apply demo_tables_ok|apply demo_alerts_ok|by vm_compute|by vm_compute].
Defined.

Lemma reclaim_removes_only_spent_files_witness :
  files (disk (pressure_reclaim elements (mkConfig "clips" None 15 5) Demo.now Demo.box3).2) !! "clips/clip1" = Some 0.
Proof.
  etransitivity; [apply (reclaim_removes_only_spent_files elements (mkConfig "clips" None 15 5) Demo.now Demo.box3);
    [apply demo_tables_ok|apply demo_alerts_ok|]|by vm_compute].
  intros [(ac & H & _)|[(dir & stem & name & H & _)|(r & q & Hr & Hq & Hp & Hs)]]; [by vm_compute in H|by vm_compute in H|].
  simpl in Hr. unfold Demo.three, Demo.db in Hr. simpl in Hr.
  repeat (apply lookup_insert_Some in Hr as [[_ <-]|[_ Hr]]; [simpl in *; simplify_eq/=; try done; destruct Hs as [Hs|Hs]; by vm_compute in Hs|]).
  by rewrite lookup_empty in Hr.
Defined.

Lemma evict_one_is_round_robin_witness :
  exists w', evict_one "clips" Demo.now Demo.box3 = (Ok true, w') /\ cursor w' = 1 /\
    clips (db w') = without (Demo.clip 2 (10 * Demo.hour) true true false, true) (clips Demo.three).
Proof.
  destruct (evict_one_is_round_robin "clips" Demo.now Demo.box3 demo_tables_ok eq_refl eq_refl) as [H _].
  apply (H [] 0 1 []); [by vm_compute|constructor|by vm_compute].
Defined.

(** The batch of a [Low] turn sees the panic mark and moves the level, but the recorder is not
    told; on the next turn the level is [Panic] already, so it is not told then either. *)
Definition ten_clips : Db := Demo.db ((fun k => Demo.clip (Z.of_nat k) (Z.of_nat k * Demo.hour) true false false) <$> seq 1 10) ∅.

Definition filling (reading : Z) : Tick := mkTick Demo.now (Some (f32_of_Z reading)) (fun _ => mkEnv Demo.now (Some (f32_of_Z 3))).

Example panic_in_a_batch_is_not_acted_on :
  let sampler_machine := safety_machine elements Demo.cfg in
  let w := (mrun [filling 10; filling 3] (Demo.world ten_clips [])).1 in
  level (controller w) = Panic /\ refusing w = false.
Proof. by vm_compute. Qed.

Lemma healthy_disk_records_witness :
  sampled (Demo.world ten_clips []) /\
  sampled (@mrun _ _ _ (safety_machine elements Demo.cfg) [filling 10; filling 3] (Demo.world ten_clips [])).1.
Proof.
  assert (sampled (Demo.world ten_clips [])) as H by by split. split; [exact H|].
  exact (healthy_disk_records elements Demo.cfg [filling 10; filling 3] (Demo.world ten_clips []) H).
Defined.

(** Sixty-four snapshots of live events that are listed first hide an orphan, and footage is
    evicted while a cheaper tier has something to give. *)
Definition live_ids : list string := (fun k => "e" +:+ pretty k) <$> seq 0 64.
Definition crowded : World :=
  Demo.world (Demo.db [Demo.clip 1 Demo.hour true false false] (list_to_map ((fun e => (e, (demo_event e "r", true))) <$> live_ids)))
    ("snaps/orphan.jpg" :: "clips/clip1" :: ((fun e => "snaps/" +:+ e +:+ ".jpg") <$> live_ids)).
Definition orphan_last (s : gset string) : list string := elements (s ∖ {["snaps/orphan.jpg"]}) ++ ["snaps/orphan.jpg"].

Example live_snapshots_hide_an_orphan :
  let w := (pressure_reclaim orphan_last Demo.cfg Demo.now crowded).2 in
  files (disk w) !! "snaps/orphan.jpg" = Some 0 /\ clips (db w) !! 1 = None.
Proof. by vm_compute. Qed.
