(* ===== verification/Retention.v ===== *)
(** The retention sweeper, [nexus-engine/src/retention.rs], and the audit sweeper,
    [audit_retention.rs]: clips past their horizon, files without a row, rows without a file,
    settled deliveries and old audit entries. The world is that of [Reclaim]; the clock is an
    argument, and the entries of a directory come in the order [walk]. *)
From Stdlib Require Import Ascii.
From S2P Require Import Prelude Text Types AuditLog Order Outbox ClipStore AlertClips Reclaim.

Definition RETENTION_BATCH_SIZE : Z := 500.
Definition ORPHAN_MIN_AGE : Z := secs (60 * 60).

Record SweepResult := mkSweep { evicted : Z; orphans : Z; missing : Z }.

Definition add_evicted (r : SweepResult) : SweepResult := mkSweep (evicted r + 1) (orphans r) (missing r).
Definition add_orphan (r : SweepResult) : SweepResult := mkSweep (evicted r) (orphans r + 1) (missing r).
Definition add_missing (r : SweepResult) : SweepResult := mkSweep (evicted r) (orphans r) (missing r + 1).

(** ** Deliveries *)

(** The loop of [sweep_outbox_once]; [scan] is the order in which SQLite visits the rows. *)
Fixpoint sweep_outbox (scan : OutboxTable -> list Z) (cutoff : Z) (fuel : nat) (total : Z) (t : OutboxTable) :
    option (Z * OutboxTable) :=
  match fuel with
  | O => None
  | S fuel =>
      let '(deleted, t) := prune_outbox_terminal_older_than (scan t) cutoff RETENTION_BATCH_SIZE t in
      if deleted <? RETENTION_BATCH_SIZE then Some (total + deleted, t) else sweep_outbox scan cutoff fuel (total + deleted) t
  end.

Definition sweep_outbox_once (scan : OutboxTable -> list Z) (now retention_days : Z) (fuel : nat) (t : OutboxTable) :
    option (Z * OutboxTable) :=
  if retention_days =? 0 then Some (0, t) else sweep_outbox scan (now - retention_days * ns_per_day) fuel 0 t.

(** ** Clips and files *)

Section sweep.
Context (walk : gset string -> list string).

Fixpoint retire (clips_dir : string) (stale : list ClipRow) (r : SweepResult) : RM SweepResult :=
  match stale with
  | [] => mret r
  | clip :: stale =>
      unlink_hot clips_dir clip ;;
      stmt (cascade_delete_clip_metadata (id clip)) ;;
      retire clips_dir stale (add_evicted r)
  end.

(** The paths a row speaks for, those a file is expected at, and the ready alert clips by path;
    of two rows with one path the later counts. *)
Definition known_paths (clips_dir : string) (paths : list string) (alert : list (Z * string * string)) : gset string :=
  list_to_set (join clips_dir <$> paths) ∪ list_to_set ((fun a => join clips_dir a.1.2) <$> alert).
Definition ready_alerts (alert : list (Z * string * string)) : list (Z * string * string) :=
  List.filter (fun a => str_eqb a.2 "ready") alert.
Definition expected_paths (clips_dir : string) (paths : list string) (alert : list (Z * string * string)) : gset string :=
  list_to_set (join clips_dir <$> paths) ∪ list_to_set ((fun a => join clips_dir a.1.2) <$> ready_alerts alert).
Definition ready_by_path (clips_dir : string) (alert : list (Z * string * string)) : gmap string Z :=
  list_to_map ((fun a => (join clips_dir a.1.2, a.1.1)) <$> rev (ready_alerts alert)).

(** Every file below the root. *)
Definition below (root p : string) : bool := is_some (strip_prefix (root +:+ "/") p).

Definition walk_clip_files (root : string) : RM (list string) := fun w =>
  if negb (bool_decide (root ∈ dirs (disk w))) then (Ok [], w)
  else if next_fails w then (Err FIo, used w)
  else (Ok (List.filter (below root) (walk (dom (files (disk w))))), used w).

(** A file whose time cannot be read is young. *)
Definition is_younger_than (p : string) (cutoff : Z) (k : Disk) : bool :=
  match files k !! p with Some mtime => cutoff <? mtime | None => true end.

Fixpoint remove_orphans (known : gset string) (young_cutoff : Z) (on_disk : list string) (r : SweepResult) : RM SweepResult :=
  match on_disk with
  | [] => mret r
  | p :: rest =>
      if decide (p ∈ known) then remove_orphans known young_cutoff rest r
      else
        young ← gets (fun w => is_younger_than p young_cutoff (disk w));
        if young : bool then remove_orphans known young_cutoff rest r
        else
          removed ← unlink p;
          remove_orphans known young_cutoff rest (match removed with Ok _ => add_orphan r | Err _ => r end)
  end.

(** [Path::parent] *)
Definition parent (clips_dir p : string) : string :=
  match rev (split "/" p) with _ :: (_ :: _) as before => Text.join "/" (rev (tail before)) | _ => clips_dir end.

Fixpoint report_missing (clips_dir : string) (on_disk : gset string) (ready : gmap string Z) (expected : list string)
    (r : SweepResult) : RM SweepResult :=
  match expected with
  | [] => mret r
  | p :: rest =>
      if decide (p ∈ on_disk) then report_missing clips_dir on_disk ready rest r
      else
        present ← gets (fun w => bool_decide (parent clips_dir p ∈ dirs (disk w)));
        if negb present then report_missing clips_dir on_disk ready rest r
        else
          match ready !! p with
          | Some k =>
              stmt (mark_alert_clip_evicted k) ;; report_missing clips_dir on_disk ready rest (add_missing r)
          | None => report_missing clips_dir on_disk ready rest (add_missing r)
          end
  end.

Definition sweep_once (clips_dir : string) (now cutoff orphan_min_age : Z) : RM SweepResult :=
  stale ← query (clips_older_than cutoff RETENTION_BATCH_SIZE);
  r ← retire clips_dir stale (mkSweep 0 0 0);
  paths ← query known_clip_paths;
  alert ← query known_alert_clip_paths;
  on_disk ← walk_clip_files clips_dir;
  r ← remove_orphans (known_paths clips_dir paths alert) (now - orphan_min_age) on_disk r;
  report_missing clips_dir (list_to_set on_disk) (ready_by_path clips_dir alert)
    (walk (expected_paths clips_dir paths alert)) r.
End sweep.

(** ** The outbox *)

Definition settled (cutoff : Z) (t : OutboxTable) : list Z :=
  filter (fun k => prunable cutoff t k = true) (map_to_list (rows t)).*1.

Lemma elem_of_settled cutoff t k : k ∈ settled cutoff t <-> prunable cutoff t k = true.
Proof.
  unfold settled. rewrite list_elem_of_filter, list_elem_of_fmap. split; [by intros [H _]|]. intros H. split; [done|].
  unfold prunable in H. destruct (rows t !! k) as [r|] eqn:E; [|done]. exists (k, r). split; [done|]. by apply elem_of_map_to_list.
Qed.

Lemma settled_nodup cutoff t : NoDup (settled cutoff t).
Proof. apply NoDup_filter, NoDup_fst_map_to_list. Qed.

(** One batch takes settled rows only, all of them or a full batch. *)
Lemma prune_settled scan cutoff t :
  (forall k, is_Some (rows t !! k) -> k ∈ scan) ->
  exists gone, prune_outbox_terminal_older_than scan cutoff RETENTION_BATCH_SIZE t =
      (zlength gone, put_rows (filter (fun '(k, _) => k ∉ gone) (rows t)) t) /\
    settled cutoff t ≡ₚ gone ++ settled cutoff (put_rows (filter (fun '(k, _) => k ∉ gone) (rows t)) t) /\
    zlength gone = Z.min RETENTION_BATCH_SIZE (zlength (settled cutoff t)).
Proof.
  intros Hscan. set (all := filter (fun k => prunable cutoff t k = true) (remove_dups scan)).
  assert (settled cutoff t ≡ₚ all) as Hall.
  { apply NoDup_Permutation; [apply settled_nodup|apply NoDup_filter, NoDup_remove_dups|]. intros k.
    subst all. rewrite elem_of_settled, list_elem_of_filter, elem_of_remove_dups. split; [|by intros [H _]]. intros H. split; [done|].
    apply Hscan. unfold prunable in H. by destruct (rows t !! k). }
  exists (take (Z.to_nat RETENTION_BATCH_SIZE) all). split; [done|]. set (gone := take _ all). split.
  - apply NoDup_Permutation; [apply settled_nodup| |].
    + apply NoDup_app. split_and!; [apply (sublist_NoDup _ all); [by rewrite <- Hall; apply settled_nodup|apply sublist_take]| |apply settled_nodup].
      intros k Hk Hs. apply elem_of_settled in Hs. unfold prunable in Hs. simpl in Hs.
      destruct (filter _ (rows t) !! k) as [r|] eqn:E; [|done]. by apply map_lookup_filter_Some in E as [_ Hg].
    + intros k. rewrite elem_of_app, !elem_of_settled. split.
      * intros Hp. destruct (decide (k ∈ gone)) as [|Hg]; [by left|]. right. unfold prunable in *. simpl.
        destruct (rows t !! k) as [r|] eqn:E; [|done]. by rewrite (proj2 (map_lookup_filter_Some (fun '(k, _) => k ∉ gone) (rows t) k r)).
      * intros [Hg|Hp].
        -- assert (k ∈ all) as Hin by (subst gone; apply elem_of_take in Hg as (i & Hi & _); by eapply list_elem_of_lookup_2).
           by apply list_elem_of_filter in Hin as [H _].
        -- unfold prunable in *. simpl in Hp. destruct (filter _ (rows t) !! k) as [r|] eqn:E; [|done].
           apply map_lookup_filter_Some in E as [-> _]. done.
  - subst gone. unfold zlength. rewrite Hall, length_take. unfold RETENTION_BATCH_SIZE. lia.
Qed.

(** The outbox sweep ends, and removes exactly what is settled and old: with the rows visited
    in any order, after as many batches as the settled rows fill, and one more, it has deleted all
    terminal rows from before the horizon and no other row, and reports their number; a retention of
    zero days keeps everything. *)
Lemma outbox_sweep_ends_exact scan now days fuel t :
  (forall t k, is_Some (rows t !! k) -> k ∈ scan t) ->
  let cutoff := now - days * ns_per_day in
  zlength (settled cutoff t) / RETENTION_BATCH_SIZE < Z.of_nat fuel ->
  exists t', sweep_outbox_once scan now days fuel t = Some (if days =? 0 then 0 else zlength (settled cutoff t), t') /\
    forall k, rows t' !! k = if negb (days =? 0) && prunable cutoff t k then None else rows t !! k.
Proof.
  intros Hscan cutoff Hfuel. unfold sweep_outbox_once. destruct (days =? 0); [by exists t|]. fold cutoff. simpl.
  enough (forall total, exists t', sweep_outbox scan cutoff fuel total t = Some (total + zlength (settled cutoff t), t') /\
    forall k, rows t' !! k = if prunable cutoff t k then None else rows t !! k) as H by apply (H 0).
  revert t Hfuel. induction fuel as [|fuel IH]; intros t Hfuel total.
  { exfalso. pose proof (Z.div_pos (zlength (settled cutoff t)) RETENTION_BATCH_SIZE ltac:(unfold zlength; lia) ltac:(done)). lia. }
  cbn [sweep_outbox]. destruct (prune_settled (scan t) cutoff t (Hscan t)) as (gone & E & Hp & Hn). rewrite E.
  set (t1 := put_rows _ t) in *. assert (zlength (settled cutoff t) = zlength gone + zlength (settled cutoff t1)) as Hlen.
  { unfold zlength. rewrite Hp, length_app. lia. }
  assert (forall k, k ∈ gone -> prunable cutoff t k = true) as Hgone.
  { intros k Hk. apply elem_of_settled. rewrite Hp. apply elem_of_app. by left. }
  assert (forall k, rows t1 !! k = if decide (k ∈ gone) then None else rows t !! k) as Hrows.
  { intros k. simpl. destruct (decide (k ∈ gone)) as [Hk|Hk].
    - apply map_lookup_filter_None. right. by intros r _ ?.
    - destruct (rows t !! k) as [r|] eqn:Er; [by apply map_lookup_filter_Some|]. apply map_lookup_filter_None. by left. }
  assert (forall k, prunable cutoff t1 k = negb (bool_decide (k ∈ gone)) && prunable cutoff t k) as Hprun.
  { intros k. unfold prunable. rewrite Hrows. destruct (decide (k ∈ gone)); [by rewrite bool_decide_true|by rewrite bool_decide_false]. }
  destruct (Z.ltb_spec (zlength gone) RETENTION_BATCH_SIZE) as [Hlt|Hge].
  - exists t1. assert (settled cutoff t1 = []) as Hnil by (apply length_zero_iff_nil; unfold zlength in *; lia).
    split; [rewrite Hlen, Hnil; unfold zlength; simpl; do 2 f_equal; lia|]. intros k. rewrite Hrows.
    destruct (decide (k ∈ gone)) as [Hk|Hk]; [by rewrite Hgone|]. destruct (prunable cutoff t k) eqn:Ek; [|done].
    apply elem_of_settled in Ek. rewrite Hp, Hnil, app_nil_r in Ek. done.
  - destruct (IH t1) with (total := total + zlength gone) as (t' & -> & Ht').
    { assert (zlength gone = RETENTION_BATCH_SIZE) as Eg by lia. rewrite Hlen, Eg in Hfuel.
      replace (RETENTION_BATCH_SIZE + zlength (settled cutoff t1)) with (zlength (settled cutoff t1) + 1 * RETENTION_BATCH_SIZE) in Hfuel by lia.
      rewrite Z.div_add in Hfuel by done. lia. }
    exists t'. split; [do 2 f_equal; lia|]. intros k. rewrite Ht', Hprun, Hrows. destruct (decide (k ∈ gone)) as [Hk|Hk].
    + rewrite bool_decide_true, Hgone by done. done.
    + rewrite bool_decide_false by done. done.
Qed.

(** ** The files *)

(** A row speaks for the path: a clip that is not retired, or an alert clip that is being built or
    is ready. *)
Definition spoken_for (clips_dir : string) (stale : list ClipRow) (d : Db) (p : string) : Prop :=
  (exists k r q, clips d !! k = Some r /\ k ∉ id <$> stale /\ hot_path (hot r) = Some q /\ p = join clips_dir q) \/
  (exists k a, alerts d !! k = Some a /\ (a_state a = "building" \/ a_state a = "ready") /\ p = join clips_dir (a_path a)).

Section file.
Context (walk : gset string -> list string) (clips_dir : string) (p : string) (m : Z) (stale : list ClipRow).
Context (Hstale : Forall (fun c => forall q, hot_path (hot c) = Some q -> join clips_dir q <> p) stale).

Definition has_file (w : World) : Prop := files (disk w) !! p = Some m.
Definition has_row (w : World) : Prop := has_file w /\ spoken_for clips_dir stale (db w) p.

Lemma has_file_unlink q w : q <> p -> has_file w -> has_file (set_disk (remove_file q (disk w)).2 w).
Proof. intros Hne Hw. unfold has_file. simpl. rewrite remove_file_frame; [done|]. congruence. Qed.

Lemma spoken_delete c d : c ∈ stale -> spoken_for clips_dir stale d p -> spoken_for clips_dir stale (delete_clip (id c) d) p.
Proof.
  intros Hc [(k & r & q & Hk & Hn & Hq & Hp)|H]; [left|by right]. exists k, r, q. split_and!; [|done..]. simpl.
  rewrite lookup_delete_ne; [done|]. intros <-. apply Hn, list_elem_of_fmap. by exists c.
Qed.

Lemma retire_keeps (I : World -> Prop) rest : forall r,
  (forall w, I w -> I (used w)) ->
  (forall w q, q <> p -> I w -> I (set_disk (remove_file q (disk w)).2 w)) ->
  (forall w c, c ∈ stale -> I w -> I (set_db (delete_clip (id c) (db w)) w)) ->
  Forall (fun c => c ∈ stale) rest -> preserves I (retire clips_dir rest r).
Proof.
  intros r Hu Hk Hd Hr. revert r. induction Hr as [|c rest Hc Hr IH]; intros r; [apply preserves_ret|]. simpl.
  apply preserves_bind; [|intros []; apply preserves_bind; [|intros []; apply IH]].
  - unfold unlink_hot. destruct (hot_path (hot c)) as [q|] eqn:Eq; [|apply preserves_ret].
    apply preserves_bind; [|intros; apply preserves_ret]. intros w Hw. unfold unlink.
    rewrite Forall_forall in Hstale. pose proof (Hstale c Hc q Eq) as Hne. pose proof (Hk w (join clips_dir q) Hne Hw) as H.
    by destruct (remove_file (join clips_dir q) (disk w)).
  - intros w Hw. unfold stmt. destruct (next_fails w); [by apply Hu|]. unfold cascade_delete_clip_metadata.
    destruct (clips (db w) !! id c); simpl; [apply (Hd (used w) c Hc)|]; apply Hu in Hw; [done|].
    assert (set_db (db w) (used w) = used w) as -> by by destruct w. done.
Qed.

Lemma kept_when_known known young on_disk : forall r,
  p ∈ known -> preserves has_file (remove_orphans known young on_disk r).
Proof.
  induction on_disk as [|q rest IH]; intros r Hp; [apply preserves_ret|]. simpl. destruct (decide (q ∈ known)) as [|Hq]; [by apply IH|].
  apply preserves_bind; [apply preserves_gets|]. intros []; [by apply IH|]. apply preserves_bind; [|intros; by apply IH].
  intros w Hw. unfold unlink. pose proof (has_file_unlink q w) as H. destruct (remove_file q (disk w)). apply H; [by intros ->|done].
Qed.

Lemma kept_when_young known cutoff on_disk : forall r, cutoff < m -> preserves has_file (remove_orphans known cutoff on_disk r).
Proof.
  induction on_disk as [|q rest IH]; intros r Hm; [apply preserves_ret|]. simpl. destruct (decide (q ∈ known)) as [|Hq]; [by apply IH|].
  intros w Hw. apply (yields_bind (fun _ w' => has_file w')). unfold gets. cbv beta iota.
  destruct (is_younger_than q cutoff (disk w)) eqn:Ey; [by apply IH|]. apply (yields_unlink (fun _ w' => has_file w')).
  apply IH; [done|]. apply has_file_unlink; [|done]. intros ->. unfold is_younger_than in Ey. rewrite Hw in Ey.
  by apply Z.ltb_ge in Ey; lia.
Qed.

Lemma report_keeps on_disk ready expected : forall r, preserves has_file (report_missing clips_dir on_disk ready expected r).
Proof.
  induction expected as [|q rest IH]; intros r; [apply preserves_ret|]. simpl. destruct (decide (q ∈ on_disk)); [apply IH|].
  apply preserves_bind; [apply preserves_gets|]. intros [|]; simpl; [|apply IH]. destruct (ready !! q); [|apply IH].
  apply preserves_bind; [|intros; apply IH]. intros w Hw. unfold stmt. destruct (next_fails w); [done|].
  by destruct (mark_alert_clip_evicted z (db w)) as [[|] ?].
Qed.
End file.

Lemma spoken_known clips_dir stale d p :
  spoken_for clips_dir stale d p -> p ∈ known_paths clips_dir (known_clip_paths d) (known_alert_clip_paths d).
Proof.
  unfold known_paths. rewrite elem_of_union, !elem_of_list_to_set. intros [(k & r & q & Hk & _ & Hq & ->)|(k & a & Hk & Hs & ->)].
  - left. apply list_elem_of_fmap. exists q. split; [done|]. unfold known_clip_paths. apply list_elem_of_omap. exists r.
    split; [|done]. apply list_elem_of_fmap. exists (k, r). split; [done|]. by apply elem_of_sorted_entries.
  - right. apply list_elem_of_fmap. exists (a_id a, a_path a, a_state a). split; [done|]. unfold known_alert_clip_paths.
    apply list_elem_of_fmap. exists a. split; [done|]. apply elem_of_filter_b. split.
    + apply list_elem_of_fmap. exists (k, a). split; [done|]. by apply elem_of_sorted_entries.
    + unfold in_state, str_eqb. destruct Hs as [->| ->]; [by rewrite bool_decide_true|]. by rewrite (bool_decide_true ("ready" = "ready")), orb_true_r.
Qed.

(** The sweep keeps every file that is spoken for or fresh: a file stays, whatever fails, if it
    is not the hot copy of a clip the sweep retires, and a clip's row or an alert clip that is
    being built or is ready names it, or it is younger than the grace. *)
Lemma sweep_keeps_known_and_young walk clips_dir now cutoff age p m w :
  let stale := clips_older_than cutoff RETENTION_BATCH_SIZE (db w) in
  files (disk w) !! p = Some m ->
  Forall (fun c => forall q, hot_path (hot c) = Some q -> join clips_dir q <> p) stale ->
  spoken_for clips_dir stale (db w) p \/ now - age < m ->
  files (disk (sweep_once walk clips_dir now cutoff age w).2) !! p = Some m.
Proof.
  intros stale Hm Hstale Hwhy. set (P := fun (_ : result SweepResult Fault) w => has_file p m w).
  apply (yields_query P); [done|]. fold stale.
  set (I := fun w => has_file p m w /\ (spoken_for clips_dir stale (db w) p \/ now - age < m)).
  apply (yields_seq P (fun _ w' => I w')); [|by intros e w' []|].
  { apply (retire_keeps clips_dir p stale Hstale I); try done.
    - intros w' q Hq [H1 H2]. split; [by apply has_file_unlink|done].
    - intros w' c Hc [H1 [H2|H2]]; (split; [done|]); [left; by apply spoken_delete|by right].
    - apply Forall_forall. done. }
  intros r w1 [Hf Hw1]. apply (yields_query P); [done|]. apply (yields_query P); [done|].
  apply (yields_seq P (fun _ w' => has_file p m w')); [|done|].
  { unfold yields, walk_clip_files. destruct (negb _); [done|]. by destruct (next_fails _). }
  intros on_disk w2 Hw2. apply (yields_seq P (fun _ w' => has_file p m w')); [|done|intros r' w3 Hw3; by apply report_keeps].
  destruct Hw1 as [Hs|Hy]; [|by apply kept_when_young]. apply kept_when_known; [|done]. by eapply spoken_known.
Qed.

(** ** The turn of the sweepers *)

(** One turn of [run_retention]: an error of either sweep is logged. *)
Definition retention_turn (walk : gset string -> list string) (scan : OutboxTable -> list Z) (fuel : nat)
    (clips_dir : string) (now retention_days outbox_days : Z) : RM unit :=
  try_ (sweep_once walk clips_dir now (now - retention_days * ns_per_day) ORPHAN_MIN_AGE) ;;
  modify (fun w => match sweep_outbox_once scan now outbox_days fuel (box (db w)) with
                   | Some (_, t) => set_db (set_events t (links (db w)) (db w)) w
                   | None => w
                   end).

(** [audit_retention::sweep_once]: the sweep is itself audited when it deleted something, and a
    failure to record it does not undo the deletion. [json] prints the summary. *)
Definition audit_sweep_once (json : Z -> Z -> Z -> option string) (delete_fails record_fails : bool)
    (now retention_days : Z) (log : AuditLog) : result Z unit * AuditLog :=
  if delete_fails then (Err tt, log)
  else
    let cutoff := now - retention_days * ns_per_day in
    let '(log, deleted) := delete_audit_older_than cutoff log in
    if (deleted =? 0) || record_fails then (Ok deleted, log)
    else
      (Ok deleted, record_audit_event now
        (mkEntry (Some System) (Some "0") "system:audit-retention" "audit.retention.sweep" (Some "audit_log") (Some "sweeper")
           None (json deleted cutoff retention_days) Success None None) log).

(** ** Witnesses *)

Definition visit (t : OutboxTable) : list Z := (map_to_list (rows t)).*1.

Lemma visit_all t k : is_Some (rows t !! k) -> k ∈ visit t.
Proof. intros [r Hr]. apply list_elem_of_fmap. exists (k, r). split; [done|]. by apply elem_of_map_to_list. Qed.

(** A delivery sent long ago and one that waits. *)
Definition old_box : OutboxTable :=
  mkOutbox ∅ {[ 1 := mkRow 1 "e" "a" Sent 1 None None None 0 (Some 0); 2 := mkRow 2 "e" "b" Pending 0 None None None 0 None ]} 3.

Lemma outbox_sweep_ends_exact_witness :
  exists t', sweep_outbox_once visit (100 * ns_per_day) 30 1 old_box = Some (1, t') /\ rows t' !! 1 = None /\ is_Some (rows t' !! 2).
Proof.
  destruct (outbox_sweep_ends_exact visit (100 * ns_per_day) 30 1 old_box visit_all) as (t' & E & H); [by vm_compute|].
  exists t'. rewrite E, !H. split; [by vm_compute|]. split; [by vm_compute|]. by eexists.
Defined.

Lemma sweep_keeps_known_and_young_witness :
  files (disk (sweep_once elements "clips" Demo.now (15 * Demo.hour) ORPHAN_MIN_AGE Demo.box3).2) !! "clips/clip3" = Some 0.
Proof.
  apply sweep_keeps_known_and_young; [by vm_compute| |left; left].
  - repeat constructor. intros q Hq. vm_compute in Hq. injection Hq as <-. by vm_compute.
  - exists 3, (Demo.clip 3 (20 * Demo.hour) true false false), "clip3". split_and!; [by vm_compute| |by vm_compute|by vm_compute].
    apply (bool_decide_unpack _). by vm_compute.
Defined.
