(* ===== verification/Throttle.v ===== *)
(** The token bucket that paces uploads: [nexus-storage/src/throttle.rs], in the [f64] of the code.

    An instant is a number of nanoseconds. The loop of [acquire] sleeps between its turns, so it
    runs over the readings of the clock at which it wakes. *)
From S2P Require Import Prelude Float Order.

(** [Duration::from_secs_f64], to the nearest nanosecond with ties to even; the code gives it
    numbers between 0 and 1/4. *)
Definition div_round_even (a b : Z) : Z :=
  let q := a / b in
  let r := a mod b in
  if 2 * r <? b then q else if b <? 2 * r then q + 1 else if Z.even q then q else q + 1.

Definition from_secs_f64 (x : f64) : Z :=
  match x with
  | S754_finite false m e =>
      if 0 <=? e then Zpos m * 2 ^ e * ns_per_sec else div_round_even (Zpos m * ns_per_sec) (2 ^ (- e))
  | _ => 0
  end.

Record BucketState := mkBucket { bps : Z; capacity : Z; credit : f64; last_refill : Z }.

Definition bucket_new (now bytes_per_sec : Z) : BucketState :=
  mkBucket bytes_per_sec bytes_per_sec (f64_of_Z bytes_per_sec) now.

(** The credit at [now], up to [cap]. *)
Definition refilled (now : Z) (cap : f64) (s : BucketState) : f64 :=
  fmin (f64_add (credit s) (f64_mul (as_secs_f64 (sat_sub now (last_refill s))) (f64_of_Z (bps s)))) cap.

Definition set_rate (now bytes_per_sec : Z) (s : BucketState) : BucketState :=
  let c := refilled now (f64_of_Z (capacity s)) s in
  let cap := f64_of_Z bytes_per_sec in
  mkBucket bytes_per_sec bytes_per_sec (if fgt c cap then cap else c) now.

Definition quarter : f64 := flit 4503599627370496 (-54).

(** One turn of the loop of [acquire]: the time to sleep, or [None] when the credit was taken. *)
Definition acquire_turn (now n : Z) (s : BucketState) : option Z * BucketState :=
  if bps s =? 0 then (None, s)
  else
    let c := refilled now (fmax (f64_of_Z (capacity s)) (f64_of_Z n)) s in
    if fge c (f64_of_Z n) then (None, mkBucket (bps s) (capacity s) (f64_sub c (f64_of_Z n)) now)
    else
      let secs := f64_div (f64_sub (f64_of_Z n) c) (f64_of_Z (bps s)) in
      (Some (from_secs_f64 (fmin secs quarter)), mkBucket (bps s) (capacity s) c now).

(** [acquire], at the readings of the clock it makes (none when there is no rate): whether it
    returned. *)
Fixpoint acquire (nows : list Z) (n : Z) (s : BucketState) : bool * BucketState :=
  match nows with
  | [] => (bps s =? 0, s)
  | now :: nows =>
      match acquire_turn now n s with
      | (None, s) => (true, s)
      | (Some _, s) => acquire nows n s
      end
  end.

(** ** What it does *)

Lemma fmin_le x y : is_nan x = false -> is_nan y = false -> fle (fmin x y) y = true.
Proof.
  intros Hx Hy. unfold fmin. rewrite Hx, Hy. destruct (SFltb y x) eqn:E.
  - unfold fle, SFleb. rewrite SFcompare_total by done.
    pose proof (cmp_opp (cmp:=total_cmp) (one_zero y) (one_zero y)) as O. by destruct (total_cmp _ _).
  - change (flt y x = false) in E. rewrite flt_not_fle in E by done. by apply negb_false_iff in E.
Qed.

Lemma no_rate_no_wait nows n s : bps s = 0 -> acquire nows n s = (true, s).
Proof. intros H. destruct nows as [|now nows]; simpl; unfold acquire_turn; by rewrite H. Qed.

(** Credit is spent only when it is there, and exactly once. *)
Lemma acquire_spends nows n s s' :
  bps s <> 0 -> acquire nows n s = (true, s') ->
  exists now s0, now ∈ nows /\ bps s0 = bps s /\ capacity s0 = capacity s /\
    let c := refilled now (fmax (f64_of_Z (capacity s)) (f64_of_Z n)) s0 in
    fge c (f64_of_Z n) = true /\ s' = mkBucket (bps s) (capacity s) (f64_sub c (f64_of_Z n)) now.
Proof.
  revert s. induction nows as [|now nows IH]; intros s Hb; simpl; [by rewrite (proj2 (Z.eqb_neq _ _) Hb)|]. unfold acquire_turn.
  rewrite (proj2 (Z.eqb_neq _ _) Hb). destruct (fge _ _) eqn:E.
  - intros [= <-]. exists now, s. split_and!; [by left|done..].
  - intros H. apply IH in H as (t & s0 & Ht & Hb0 & Hc & H); [|done]. exists t, s0. split_and!; [by right|done|done|by destruct H..].
Qed.

Lemma set_rate_clamps now r s :
  is_nan (f64_of_Z r) = false -> is_nan (refilled now (f64_of_Z (capacity s)) s) = false ->
  fle (credit (set_rate now r s)) (f64_of_Z r) = true.
Proof.
  intros Hr Hc. unfold set_rate; simpl. destruct (fgt _ _) eqn:E.
  - unfold fle, SFleb. rewrite SFcompare_total by done.
    pose proof (cmp_opp (cmp:=total_cmp) (one_zero (f64_of_Z r)) (one_zero (f64_of_Z r))) as O. by destruct (total_cmp _ _).
  - change (flt (f64_of_Z r) (refilled now (f64_of_Z (capacity s)) s) = false) in E.
    rewrite flt_not_fle in E by done. by apply negb_false_iff in E.
Qed.

(** A clock that wakes the task when its sleep is over: the readings of the first turns. *)
Fixpoint on_time (fuel : nat) (now n : Z) (s : BucketState) : list Z :=
  match fuel with
  | O => []
  | S fuel => now :: match acquire_turn now n s with
                     | (None, _) => []
                     | (Some wait, s) => on_time fuel (now + wait) n s
                     end
  end.

(** A request larger than a second's worth is served when its own size has been earned. *)
Example oversized_is_served :
  let s := bucket_new 0 1000 in
  let drained := (acquire [0] 1000 s).2 in
  on_time 20 0 1500 drained = (fun k => Z.of_nat k * millis 250) <$> seq 0 7 /\
  (acquire (on_time 20 0 1500 drained) 1500 drained).1 = true.
Proof. by vm_compute. Qed.
