(* ===== verification/ColdStore.v ===== *)
(** Cold backends: [nexus-storage/src/lib.rs] (the [ColdBackend] trait, the registry, the factory)
    and [nexus-storage/src/lan.rs] ([LanFsBackend]).

    The trait is the class [ColdBackend] over the state of the backend; [ColdBackendLaws] is what
    its documentation asks of an implementation, and [LanFsBackend] is proved to keep it. A file
    system maps paths, as lists of components, to contents; [faults] says of each call whether it
    fails, and after how many bytes a write does. SHA-256 in hex is a parameter. *)
From S2P Require Import Prelude Text Alert.
From Stdlib Require Import Ascii String.
Open Scope Z_scope.
Open Scope list_scope.

Inductive BackendError :=
| BIo
| BUnreachable (m : string)
| BChecksumMismatch (expected actual : string)
| BInvalidPath (m : string)
| BAuth (m : string)
| BOther (m : string).

Record VolumeInfo := mkVolume { free_bytes : option Z; total_bytes : option Z; used_bytes : option Z }.

Inductive HealthStatus := HealthOk | ReadOnly (reason : string) | Unreachable (reason : string).

Record PutReceipt := mkReceipt { r_cold_path : string; uploaded_at : Z; bytes_written : Z; cold_url : option string }.

(** The trait. [now] is the clock at the end of the call. *)
Class ColdBackend (S : Type) := {
  kind : string;
  yields_cloud_url : bool;
  put : Z -> string -> string -> string -> SE S BackendError PutReceipt;
  get_range : string -> Z -> Z -> SE S BackendError string;
  delete_ : string -> SE S BackendError bool;
  exists_ : string -> string -> SE S BackendError bool;
  volume_info : SE S BackendError VolumeInfo;
  health : S -> HealthStatus * S;
}.

(** The last component of a path. *)
Definition file_name (p : string) : string := List.last (split "/" p) "".

(** The path of a clip: [stem.mp4] below some directories. *)
Definition is_clip_path (p : string) : Prop := exists stem, stem <> "" /\ file_name p = stem +:+ ".mp4".

(** What an implementation promises for the paths of clips: after a [put], and whenever [exists_]
    says so, the backend holds a whole copy; and a copy stays until its own file is written. A backend that yields URLs gives one with every
    receipt, as the one that does so in the program. *)
Class ColdBackendLaws (S : Type) `{ColdBackend S} := {
  sound : S -> Prop;
  holds : S -> string -> string -> Prop;
  put_sound : forall now p b h s, is_clip_path p -> sound s -> sound (put now p b h s).2;
  exists_sound : forall p h s, is_clip_path p -> sound s -> sound (exists_ p h s).2;
  health_sound : forall s, sound s -> sound (health s).2;
  put_holds : forall now p b h s r s', is_clip_path p -> sound s -> put now p b h s = (Ok r, s') -> holds s' (r_cold_path r) h;
  exists_holds : forall p h s s', is_clip_path p -> sound s -> exists_ p h s = (Ok true, s') -> holds s' p h;
  put_keeps : forall now p b h s q h', is_clip_path p -> is_clip_path q -> file_name p <> file_name q ->
    holds s q h' -> holds (put now p b h s).2 q h';
  put_named : forall now p b h s r s', is_clip_path p -> put now p b h s = (Ok r, s') -> file_name (r_cold_path r) = file_name p /\ is_clip_path (r_cold_path r);
  put_url : forall now p b h s r s', yields_cloud_url = true -> put now p b h s = (Ok r, s') -> is_some (cold_url r) = true;
  exists_keeps : forall p h s q h', holds s q h' -> holds (exists_ p h s).2 q h';
  health_keeps : forall s q h', holds s q h' -> holds (health s).2 q h';
}.

(** ** The registry *)

Section registry.
Context {B : Type} (handle_of kind_of : B -> string).

Record Registry := mkRegistry { user_backends : gmap string B; reserved : gmap string B }.

Definition registry_new : Registry := mkRegistry ∅ ∅.

(** Of two backends with one handle the later is kept. *)
Definition replace_all (bs : list B) (g : Registry) : Registry :=
  mkRegistry (foldl (fun m b => <[handle_of b := b]> m) ∅ bs) (reserved g).

Definition insert_reserved (b : B) (g : Registry) : Registry :=
  mkRegistry (user_backends g) (<[handle_of b := b]> (reserved g)).

Definition registry_get (h : string) (g : Registry) : option B :=
  match reserved g !! h with Some b => Some b | None => user_backends g !! h end.

Definition registry_snapshot (g : Registry) : gmap string string :=
  (kind_of <$> reserved g) ∪ (kind_of <$> user_backends g).

(** A reserved backend shadows a row with its handle, and a rebuild does not remove it. *)
Lemma reserved_backend_survives bs b g :
  registry_get (handle_of b) (replace_all bs (insert_reserved b g)) = Some b.
Proof. unfold registry_get. simpl. by rewrite lookup_insert_eq. Qed.

Lemma registry_snapshot_get h g : registry_snapshot g !! h = kind_of <$> registry_get h g.
Proof.
  unfold registry_snapshot, registry_get. rewrite lookup_union, !lookup_fmap.
  by destruct (reserved g !! h), (user_backends g !! h).
Qed.
End registry.

(** ** The file system *)

Abbreviation Path := (list string).

Record Fs := mkFs { files : gmap Path string; dirs : gset Path; faults : list (option nat) }.

Abbreviation FsM := (SE Fs BackendError).

Definition set_files (x : gmap Path string) (s : Fs) : Fs := mkFs x (dirs s) (faults s).

(** The answer of the next call: [Some n] when it fails, having written [n] bytes if it writes. *)
Definition next_fault (s : Fs) : option nat := match faults s with f :: _ => f | [] => None end.
Definition spent (s : Fs) : Fs := mkFs (files s) (dirs s) (tail (faults s)).

(** A call that changes nothing when it fails. *)
Definition fs_call {A} (f : Fs -> result A BackendError * Fs) : FsM A := fun s =>
  if is_some (next_fault s) then (Err BIo, spent s) else f (spent s).

(** The directories above a path. *)
Definition above (p : Path) : list Path := (fun n => take n p) <$> seq 0 (List.length p).

Definition parent (p : Path) : Path := removelast p.

(** No file stands where a directory is needed. *)
Definition clear_way (p : Path) (s : Fs) : bool := forallb (fun q => negb (is_some (files s !! q))) (above p).

Definition create_dir_all (p : Path) : FsM unit := fs_call (fun s =>
  if clear_way p s && negb (is_some (files s !! p)) then (Ok tt, mkFs (files s) (dirs s ∪ list_to_set (p :: above p)) (faults s))
  else (Err BIo, s)).

(** [File::create]: an empty file, in a directory that is there. *)
Definition create_file (p : Path) : FsM unit := fs_call (fun s =>
  if bool_decide (parent p ∈ dirs s) && negb (bool_decide (p ∈ dirs s)) then (Ok tt, set_files (<[p := ""]> (files s)) s)
  else (Err BIo, s)).

Definition first_bytes (n : nat) (b : string) : string := of_chars (take n (chars b)).

(** [write_all]: a write that fails may have written a part. *)
Definition write_all (p : Path) (b : string) : FsM unit := fun s =>
  match files s !! p with
  | None => (Err BIo, spent s)
  | Some old =>
      match next_fault s with
      | Some n => (Err BIo, set_files (<[p := old +:+ first_bytes n b]> (files s)) (spent s))
      | None => (Ok tt, set_files (<[p := old +:+ b]> (files s)) (spent s))
      end
  end.

Definition sync_all : FsM unit := fs_call (fun s => (Ok tt, s)).

Definition rename (p q : Path) : FsM unit := fs_call (fun s =>
  match files s !! p with
  | None => (Err BIo, s)
  | Some b => if bool_decide (q ∈ dirs s) then (Err BIo, s) else (Ok tt, set_files (<[q := b]> (delete p (files s))) s)
  end).

(** [fs::read]: [None] is [NotFound]. *)
Definition read_file (p : Path) : FsM (option string) := fs_call (fun s =>
  if clear_way p s && negb (bool_decide (p ∈ dirs s)) then (Ok (files s !! p), s) else (Err BIo, s)).

Inductive Stat := StatFile | StatDir | StatNone.

Definition metadata (p : Path) : FsM Stat := fs_call (fun s =>
  if negb (clear_way p s) then (Err BIo, s)
  else (Ok (if is_some (files s !! p) then StatFile else if bool_decide (p ∈ dirs s) then StatDir else StatNone), s)).

Definition remove (p : Path) : FsM bool := fs_call (fun s =>
  if negb (clear_way p s) || bool_decide (p ∈ dirs s) then (Err BIo, s)
  else match files s !! p with
       | None => (Ok false, s)
       | Some _ => (Ok true, set_files (delete p (files s)) s)
       end).

(** ** The LAN backend *)

Definition SPOT_CHECK_BYTES : Z := 64 * 1024.
Definition STREAM_CHUNK_BYTES : Z := 64 * 1024.

(** The last dot of a file name that is not its first character. *)
Definition split_ext (name : string) : string * option string :=
  match split_once_chars "." (rev (chars name)) with
  | Some (ext, (_ :: _) as stem) => (of_chars (rev stem), Some (of_chars (rev ext)))
  | _ => (name, None)
  end.

Definition extension (p : Path) : option string := (split_ext (List.last p "")).2.

Definition extend_ext (p : Path) (suffix : string) : string :=
  match extension p with
  | None | Some "" => suffix
  | Some e => e +:+ "." +:+ suffix
  end.

(** [Path::with_extension] with an extension that is not empty. *)
Definition with_extension (p : Path) (ext : string) : Path :=
  match p with
  | [] => []
  | _ => parent p ++ [(split_ext (List.last p "")).1 +:+ "." +:+ ext]
  end.

Record LanFsBackend := mkLan { handle : string; root : Path }.

Definition is_absolute (rel : string) : bool := starts_with rel "/".

(** The components of a relative path, without the empty and the current ones. *)
Definition components (rel : string) : list string :=
  List.filter (fun c => negb (str_eqb c "") && negb (str_eqb c ".")) (split "/" rel).

Definition resolve (b : LanFsBackend) (rel : string) : result Path BackendError :=
  if is_absolute rel then Err (BInvalidPath ("backend path must be relative: " +:+ rel))
  else if existsb (fun c => str_eqb c "..") (components rel) then Err (BInvalidPath ("backend path contains `..`: " +:+ rel))
  else Ok (root b ++ components rel).

Definition resolved (b : LanFsBackend) (rel : string) : FsM Path := fun s => (resolve b rel, s).

(** [len.to_le_bytes()] of a [u64] *)
Definition to_le_bytes (n : Z) : string :=
  of_chars ((fun k => ascii_of_N (Z.to_N (n / 2 ^ (8 * Z.of_nat k) mod 256))) <$> seq 0 8).

Fixpoint words_chars (l : list ascii) : list (list ascii) :=
  match l with
  | [] => []
  | c :: l =>
      let rest := words_chars l in
      if is_whitespace c then rest
      else match l with
           | d :: _ => if is_whitespace d then [c] :: rest else match rest with w :: ws => (c :: w) :: ws | [] => [[c]] end
           | [] => [[c]]
           end
  end.

(** [split_whitespace] *)
Definition words (s : string) : list string := of_chars <$> words_chars (chars s).

Section lan.
Context (sha256_hex : string -> string).

(** What the spot check hashes: all of a small file; else its ends and its length. *)
Definition spot_input (b : string) : string :=
  if blen b <=? 2 * SPOT_CHECK_BYTES then b
  else
    let n := Z.to_nat SPOT_CHECK_BYTES in
    first_bytes n b +:+ of_chars (drop (List.length (chars b) - n) (chars b)) +:+ to_le_bytes (blen b).

Definition spot_digest (b : string) : string := sha256_hex (spot_input b).

Definition compute_spot_check (abs : Path) : FsM string :=
  content ← read_file abs;
  match content with None => throw BIo | Some b => mret (spot_digest b) end.

Definition sidecar_of (abs : Path) : Path := with_extension abs (extend_ext abs "sha256").
Definition partial_of (abs : Path) : Path := with_extension abs (extend_ext abs "partial").

(** The two words of a sidecar. *)
Definition sidecar_words (s : string) : string * string :=
  match words s with
  | [] => ("", "")
  | [f] => (f, "")
  | f :: w :: _ => (f, w)
  end.

Definition spot_check (abs : Path) (expected_hex : string) : FsM bool :=
  actual ← compute_spot_check abs;
  stored ← read_file (sidecar_of abs);
  match stored with
  | None => mret false
  | Some s =>
      let '(stored_full, stored_spot) := sidecar_words s in
      if negb (str_eqb stored_full expected_hex) then mret false else mret (str_eqb stored_spot actual)
  end.

Definition newline : string := String "010"%char EmptyString.
Definition sidecar_text (full spot : string) : string := full +:+ " " +:+ spot +:+ newline.

(** [fs::write] *)
Definition write_file (p : Path) (b : string) : FsM unit := create_file p ;; write_all p b.

Definition lan_put (b : LanFsBackend) (now : Z) (path bytes expected_sha256 : string) : FsM PutReceipt :=
  abs ← resolved b path;
  create_dir_all (parent abs) ;;
  guard_err (str_eqb (sha256_hex bytes) expected_sha256) (BChecksumMismatch expected_sha256 (sha256_hex bytes)) ;;
  create_file (partial_of abs) ;;
  write_all (partial_of abs) bytes ;;
  sync_all ;;
  rename (partial_of abs) abs ;;
  spot_hex ← compute_spot_check abs;
  write_file (sidecar_of abs) (sidecar_text expected_sha256 spot_hex) ;;
  mret (mkReceipt path now (blen bytes) None).

(** [end - start + 1] of [u64]s, when the subtraction and the addition do not overflow. *)
Definition range_len (start end_inclusive : Z) : option Z :=
  if end_inclusive <? start then None
  else if end_inclusive - start =? umax 64 then None else Some (end_inclusive - start + 1).

(** [read_exact] of a range: an error past the end. *)
Definition slice (b : string) (start len : Z) : option string :=
  if blen b <? start + len then None else Some (of_chars (take (Z.to_nat len) (drop (Z.to_nat start) (chars b)))).

Definition bad_range (start end_inclusive : Z) : BackendError := BInvalidPath "bad range".

Definition lan_get_range (b : LanFsBackend) (path : string) (start end_inclusive : Z) : FsM string :=
  abs ← resolved b path;
  content ← read_file abs;
  match content with
  | None => throw BIo
  | Some c =>
      match range_len start end_inclusive with
      | None => throw (bad_range start end_inclusive)
      | Some len => match slice c start len with None => throw BIo | Some r => mret r end
      end
  end.

(** The chunks of the stream: each full but the last; a short read ends it with an error. *)
Fixpoint chunks (fuel : nat) (rest : list ascii) (remaining : Z) : list (result string BackendError) :=
  match fuel with
  | O => []
  | S fuel =>
      if remaining <=? 0 then []
      else
        let want := Z.min remaining STREAM_CHUNK_BYTES in
        if zlength rest <? want then [Err BIo]
        else Ok (of_chars (take (Z.to_nat want) rest)) :: chunks fuel (drop (Z.to_nat want) rest) (remaining - want)
  end.

Definition lan_get_range_stream (b : LanFsBackend) (path : string) (start end_inclusive : Z) :
    FsM (list (result string BackendError)) :=
  abs ← resolved b path;
  content ← read_file abs;
  match content with
  | None => throw BIo
  | Some c =>
      match range_len start end_inclusive with
      | None => throw (bad_range start end_inclusive)
      | Some len => mret (chunks (Z.to_nat (len / STREAM_CHUNK_BYTES) + 1) (drop (Z.to_nat start) (chars c)) len)
      end
  end.

Definition lan_delete (b : LanFsBackend) (path : string) : FsM bool :=
  abs ← resolved b path;
  removed ← remove abs;
  if removed : bool then ignore_err (remove (sidecar_of abs)) ;; mret true else mret false.

Definition lan_exists (b : LanFsBackend) (path expected_sha256 : string) : FsM bool :=
  abs ← resolved b path;
  st ← metadata abs;
  match st with
  | StatFile => spot_check abs expected_sha256
  | StatDir | StatNone => mret false
  end.

Definition lan_health (b : LanFsBackend) (s : Fs) : HealthStatus * Fs :=
  match metadata (root b) s with
  | (Ok StatDir, s) => (HealthOk, s)
  | (Ok StatFile, s) => (Unreachable "is not a directory", s)
  | (_, s) => (Unreachable "stat failed", s)
  end.

Definition lan_volume_info : FsM VolumeInfo := mret (mkVolume None None None).

Definition lan_new (h : string) (r : Path) : FsM LanFsBackend := fun s =>
  if bool_decide (r ∈ dirs s) then (Ok (mkLan h r), s)
  else (Err (BOther "lan backend root does not exist or is not a directory"), s).

(** The factory: [parse] is the JSON parser; of two fields of one name the last counts. *)
Definition field_str (v : JsonValue) (k : string) : option string :=
  match v with
  | JObject fs => match List.find (fun f => str_eqb f.1 k) (rev fs) with Some (_, JString s) => Some s | _ => None end
  | _ => None
  end.

Definition build_backend (parse : string -> option JsonValue) (h k config_json : string) : FsM LanFsBackend :=
  match parse config_json with
  | None => throw (BOther "config_json parse")
  | Some cfg =>
      if str_eqb k "lan" then
        match field_str cfg "root" with
        | None => throw (BOther "lan backend requires `root` in config_json")
        | Some r => lan_new h (components r)
        end
      else if str_eqb k "local" then throw (BOther "kind='local' is the implicit hot backend; never registered as cold")
      else throw (BOther "unknown backend kind")
  end.

#[local] Instance lan_backend (b : LanFsBackend) : ColdBackend Fs := {|
  kind := "lan";
  yields_cloud_url := false;
  put := lan_put b;
  get_range := lan_get_range b;
  delete_ := lan_delete b;
  exists_ := lan_exists b;
  volume_info := lan_volume_info;
  health := lan_health b;
|}.
End lan.

(** ** Names *)

Definition last_char (s : string) : option ascii := head (rev (chars s)).

Lemma last_char_app a c s : last_char (a +:+ String c s) = last_char (String c s).
Proof.
  unfold last_char. rewrite chars_app, rev_app_distr. destruct (rev (chars (String c s))) eqn:E; [|done].
  apply (f_equal (@rev ascii)) in E. rewrite rev_involutive in E. done.
Qed.

Lemma app_differ a b s t : last_char (a +:+ s) <> last_char (b +:+ t) -> a +:+ s <> b +:+ t.
Proof. intros H E. by rewrite E in H. Qed.

(** A path whose last component is [stem.mp4]. *)
Definition mp4 (abs d : Path) (stem : string) : Prop := stem <> "" /\ abs = d ++ [stem +:+ ".mp4"].

Lemma split_ext_mp4 stem : stem <> "" -> split_ext (stem +:+ ".mp4") = (stem, Some "mp4").
Proof.
  intros H. unfold split_ext. rewrite chars_app, rev_app_distr. simpl.
  destruct (rev (chars stem)) as [|c l] eqn:E.
  - apply (f_equal (@rev ascii)) in E. rewrite rev_involutive in E. simpl in E. destruct H. by apply chars_inj.
  - rewrite <- E, rev_involutive, of_chars_chars. done.
Qed.

Lemma with_extension_mp4 abs d stem suffix :
  mp4 abs d stem -> with_extension abs (extend_ext abs suffix) = d ++ [stem +:+ ".mp4." +:+ suffix].
Proof.
  intros [Hs ->]. unfold with_extension, extend_ext, extension, parent.
  rewrite List.last_last, List.removelast_last, split_ext_mp4 by done. by destruct d.
Qed.

Lemma sidecar_mp4 abs d stem : mp4 abs d stem -> sidecar_of abs = d ++ [stem +:+ ".mp4.sha256"].
Proof. apply with_extension_mp4. Qed.

Lemma partial_mp4 abs d stem : mp4 abs d stem -> partial_of abs = d ++ [stem +:+ ".mp4.partial"].
Proof. apply with_extension_mp4. Qed.

(** The files a clip owns are not those of another. *)
Lemma owned_differ abs d stem abs' d' stem' :
  mp4 abs d stem -> mp4 abs' d' stem' ->
  abs' <> partial_of abs /\ abs' <> sidecar_of abs /\ sidecar_of abs' <> partial_of abs /\ sidecar_of abs' <> abs /\
  (sidecar_of abs' = sidecar_of abs -> abs' = abs).
Proof.
  intros H H'. rewrite (partial_mp4 _ _ _ H), (sidecar_mp4 _ _ _ H), (sidecar_mp4 _ _ _ H').
  destruct H as [_ ->], H' as [_ ->].
  assert (forall s t, last_char (stem' +:+ s) <> last_char (stem +:+ t) -> d' ++ [stem' +:+ s] <> d ++ [stem +:+ t]) as HD.
  { intros s t Hst [_ E]%app_inj_tail. revert E. by apply app_differ. }
  split_and!; [apply HD; by rewrite !last_char_app..|]. intros [-> E]%app_inj_tail. do 2 f_equal.
  apply chars_inj. rewrite !chars_app in *. apply (f_equal chars) in E. rewrite !chars_app in E.
  change (chars ".mp4.sha256") with (chars ".mp4" ++ chars ".sha256") in E. rewrite !app_assoc in E. by apply app_inv_tail in E.
Qed.

Lemma resolve_clip b p abs :
  is_clip_path p -> resolve b p = Ok abs -> exists d stem, mp4 abs d stem /\ file_name p = stem +:+ ".mp4".
Proof.
  intros (stem & Hs & Hf) Hr. unfold resolve in Hr. destruct (is_absolute p); [done|]. destruct (existsb _ _); [done|].
  injection Hr as <-. pose proof Hf as Hf0. unfold file_name in Hf. unfold components.
  destruct (split "/" p) as [|x l] using rev_ind; [simpl in Hf; by destruct stem|]. rewrite List.last_last in Hf. subst x.
  rewrite List.filter_app. simpl.
  assert (str_eqb (stem +:+ ".mp4") "" = false) as -> by (apply bool_decide_eq_false; by destruct stem).
  assert (str_eqb (stem +:+ ".mp4") "." = false) as ->.
  { apply bool_decide_eq_false. intros E. apply (f_equal last_char) in E. by rewrite last_char_app in E. }
  simpl. exists (root b ++ List.filter (fun c => negb (str_eqb c "") && negb (str_eqb c ".")) l), stem. split; [|done].
  split; [done|]. by rewrite app_assoc.
Qed.

(** ** Words *)

Lemma words_one l : l <> [] -> Forall (fun c => is_whitespace c = false) l -> words_chars l = [l].
Proof.
  induction l as [|c l IH]; intros Hne Hl; [done|]. apply Forall_cons in Hl as [Hc Hl]. simpl. rewrite Hc.
  destruct l as [|d l]; [done|]. rewrite IH by done. apply Forall_cons in Hl as [Hd _]. by rewrite Hd.
Qed.

Lemma words_then l c rest :
  l <> [] -> Forall (fun c => is_whitespace c = false) l -> is_whitespace c = true ->
  words_chars (l ++ c :: rest) = l :: words_chars rest.
Proof.
  intros Hne Hl Hw. induction l as [|x l IH]; [done|]. apply Forall_cons in Hl as [Hx Hl].
  assert (words_chars ((x :: l) ++ c :: rest) = if is_whitespace x then words_chars (l ++ c :: rest) else
    match l ++ c :: rest with
    | d :: _ => if is_whitespace d then [x] :: words_chars (l ++ c :: rest) else
                match words_chars (l ++ c :: rest) with w :: ws => (x :: w) :: ws | [] => [[x]] end
    | [] => [[x]]
    end) as -> by done.
  rewrite Hx. destruct l as [|d l].
  - simpl. rewrite Hw. done.
  - rewrite IH by done. apply Forall_cons in Hl as [Hd _]. simpl. by rewrite Hd.
Qed.

(** ** The calls of the file system *)

Definition same (s s' : Fs) : Prop := files s' = files s /\ dirs s' = dirs s.

Lemma same_spent s : same s (spent s).
Proof. done. Qed.

Section calls.
Context {A : Type} (P : result A BackendError -> Fs -> Prop).

Lemma wp_call {B} (f : Fs -> result B BackendError * Fs) (k : B -> FsM A) s :
  (forall s', same s s' -> P (Err BIo) s') ->
  (match f (spent s) with (Ok x, s') => yields P (k x) s' | (Err e, s') => P (Err e) s' end) ->
  yields P (fs_call f ≫= k) s.
Proof. intros He Hf. apply yields_bind. unfold fs_call. destruct (is_some _); [by apply He|done]. Qed.

Lemma wp_create_dirs p (k : unit -> FsM A) s :
  (forall s', same s s' -> P (Err BIo) s') ->
  (forall s', files s' = files s -> dirs s ⊆ dirs s' -> clear_way p s = true -> files s !! p = None -> yields P (k tt) s') ->
  yields P (create_dir_all p ≫= k) s.
Proof.
  intros He Hk. apply wp_call; [done|]. destruct (clear_way p (spent s)) eqn:E; [|by apply He].
  destruct (files (spent s) !! p) eqn:Ep; [by apply He|]. apply Hk; [done|set_solver|done|done].
Qed.

Lemma wp_create p (k : unit -> FsM A) s :
  (forall s', same s s' -> P (Err BIo) s') ->
  (forall s', files s' = <[p := ""]> (files s) -> dirs s' = dirs s -> p ∉ dirs s -> yields P (k tt) s') ->
  yields P (create_file p ≫= k) s.
Proof.
  intros He Hk. apply wp_call; [done|]. do 2 case_bool_decide; [by apply He| |by apply He..]. by apply Hk.
Qed.

Lemma wp_write p b (k : unit -> FsM A) s old :
  files s !! p = Some old ->
  (forall s' n, files s' = <[p := old +:+ first_bytes n b]> (files s) -> dirs s' = dirs s -> P (Err BIo) s') ->
  (forall s', files s' = <[p := old +:+ b]> (files s) -> dirs s' = dirs s -> yields P (k tt) s') ->
  yields P (write_all p b ≫= k) s.
Proof.
  intros Hp He Hk. apply yields_bind. unfold write_all. rewrite Hp. destruct (next_fault s) as [n|]; [by apply (He _ n)|by apply Hk].
Qed.

Lemma wp_sync (k : unit -> FsM A) s :
  (forall s', same s s' -> P (Err BIo) s') -> (forall s', same s s' -> yields P (k tt) s') -> yields P (sync_all ≫= k) s.
Proof. intros He Hk. apply wp_call; [done|]. by apply Hk. Qed.

Lemma wp_rename p q (k : unit -> FsM A) s b :
  files s !! p = Some b ->
  (forall s', same s s' -> P (Err BIo) s') ->
  (forall s', files s' = <[q := b]> (delete p (files s)) -> dirs s' = dirs s -> q ∉ dirs s -> yields P (k tt) s') ->
  yields P (rename p q ≫= k) s.
Proof.
  intros Hp He Hk. apply wp_call; [done|]. simpl. rewrite Hp. case_bool_decide; [by apply He|by apply Hk].
Qed.

Lemma wp_read p (k : option string -> FsM A) s :
  (forall s', same s s' -> P (Err BIo) s') -> (forall s', same s s' -> yields P (k (files s !! p)) s') ->
  yields P (read_file p ≫= k) s.
Proof. intros He Hk. apply wp_call; [done|]. destruct (_ && _); [by apply Hk|by apply He]. Qed.

Lemma wp_resolved b p (k : Path -> FsM A) s :
  (forall e, P (Err e) s) -> (forall abs, resolve b p = Ok abs -> yields P (k abs) s) -> yields P (resolved b p ≫= k) s.
Proof. intros He Hk. apply yields_bind. unfold resolved. destruct (resolve b p); [by apply Hk|apply He]. Qed.
End calls.

(** With no fault to come, a read gives what is there. *)
Lemma read_now p s :
  faults s = [] -> clear_way p s = true -> p ∉ dirs s -> read_file p s = (Ok (files s !! p), s).
Proof.
  intros Hf Hc Hd. unfold read_file, fs_call, next_fault, spent. rewrite Hf. simpl.
  assert (mkFs (files s) (dirs s) [] = s) as -> by (destruct s; simpl in *; by subst).
  by rewrite Hc, bool_decide_false.
Qed.

Lemma clear_way_same s s' p : files s' = files s -> clear_way p s' = clear_way p s.
Proof. intros H. unfold clear_way. by rewrite H. Qed.

(** Files do not stand in the way of their siblings. *)
Lemma clear_way_insert d x y b s :
  clear_way (d ++ [x]) s = true -> clear_way (d ++ [x]) (set_files (<[d ++ [y] := b]> (files s)) s) = true.
Proof.
  unfold clear_way. rewrite !forallb_forall. intros H q Hq. specialize (H q Hq). simpl.
  rewrite lookup_insert_ne; [done|]. intros <-. apply list_elem_of_In in Hq. unfold above in Hq.
  apply list_elem_of_fmap in Hq as (n & E & Hn). apply elem_of_seq in Hn. apply (f_equal List.length) in E.
  rewrite length_take, !length_app in *. simpl in *. lia.
Qed.

Lemma clear_way_delete p q s : clear_way p s = true -> clear_way p (set_files (delete q (files s)) s) = true.
Proof.
  unfold clear_way. rewrite !forallb_forall. intros H r Hr. specialize (H r Hr). simpl.
  destruct (decide (q = r)) as [->|]; [by rewrite lookup_delete_eq|by rewrite lookup_delete_ne].
Qed.

(** The way to [d ++ [x]] is the way to [d], and [d] itself. *)
Lemma clear_way_snoc d x s : clear_way (d ++ [x]) s = clear_way d s && negb (is_some (files s !! d)).
Proof.
  unfold clear_way, above. rewrite length_app. simpl. rewrite seq_app, fmap_app, forallb_app. simpl. f_equal.
  - assert (forall l, Forall (fun n => n < List.length d)%nat l -> forallb (fun q => negb (is_some (files s !! q))) ((fun n => take n (d ++ [x])) <$> l) =
      forallb (fun q => negb (is_some (files s !! q))) ((fun n => take n d) <$> l)) as H.
    { intros l Hl. induction Hl as [|n l Hn Hl IH]; [done|]. csimpl. rewrite take_app_le by lia. f_equal. exact IH. }
    apply H. apply Forall_forall. intros n Hn%elem_of_seq. lia.
  - rewrite take_app_length. by rewrite andb_true_r.
Qed.

(** ** A put, interrupted or not *)

Section put.
Context (sha256_hex : string -> string).

Record put_post (path bytes sha : string) (now : Z) (abs : Path) (s : Fs) (r : result PutReceipt BackendError) (s' : Fs) : Prop := {
  put_frame : forall q, q <> abs -> q <> partial_of abs -> q <> sidecar_of abs -> files s' !! q = files s !! q;
  put_whole : files s' !! abs = files s !! abs \/ files s' !! abs = Some bytes /\ sha256_hex bytes = sha;
  put_sidecar : files s' !! sidecar_of abs = files s !! sidecar_of abs \/
    exists n, files s' !! sidecar_of abs = Some (first_bytes n (sidecar_text sha (spot_digest sha256_hex bytes))) /\ sha256_hex bytes = sha;
  put_ok : forall rec, r = Ok rec ->
    rec = mkReceipt path now (blen bytes) None /\ sha256_hex bytes = sha /\ files s' !! abs = Some bytes /\
    files s' !! sidecar_of abs = Some (sidecar_text sha (spot_digest sha256_hex bytes)) /\
    abs ∉ dirs s' /\ sidecar_of abs ∉ dirs s' /\ clear_way abs s' = true;
}.

Lemma first_bytes_all b : first_bytes (List.length (chars b)) b = b.
Proof. unfold first_bytes. by rewrite firstn_all, of_chars_chars. Qed.

Lemma first_bytes_none b : first_bytes 0 b = "".
Proof. done. Qed.

(** The temporary file is written and renamed: until then the clip is what it was. *)
Lemma wp_data {A} (P : result A BackendError -> Fs -> Prop) (k : unit -> FsM A) abs bytes s :
  abs <> partial_of abs ->
  (forall e s', (forall q, q <> partial_of abs -> files s' !! q = files s !! q) -> P (Err e) s') ->
  (forall s', files s' !! abs = Some bytes -> (forall q, q <> abs -> q <> partial_of abs -> files s' !! q = files s !! q) ->
     dirs s' = dirs s -> abs ∉ dirs s -> yields P (k tt) s') ->
  yields P (create_file (partial_of abs) ;; write_all (partial_of abs) bytes ;; sync_all ;; rename (partial_of abs) abs ≫= k) s.
Proof.
  intros N He Hk.
  apply wp_create; [intros s2 [F2 _]; apply He; intros q _; by rewrite F2|]. intros s2 F2 D2 ND2.
  apply (wp_write _ _ _ _ _ ""); [by rewrite F2, lookup_insert_eq| |].
  { intros s3 n F3 _. apply He. intros q Hq. by rewrite F3, lookup_insert_ne, F2, lookup_insert_ne. }
  intros s3 F3 D3.
  assert (forall q, q <> partial_of abs -> files s3 !! q = files s !! q) as G3.
  { intros q Hq. by rewrite F3, lookup_insert_ne, F2, lookup_insert_ne. }
  apply wp_sync; [intros s4 [F4 _]; apply He; intros q Hq; rewrite F4; by apply G3|]. intros s4 [F4 D4].
  apply (wp_rename _ _ _ _ _ bytes); [by rewrite F4, F3, lookup_insert_eq| |].
  { intros s5 [F5 _]. apply He. intros q Hq. rewrite F5, F4. by apply G3. }
  intros s5 F5 D5 ND5. apply Hk; [by rewrite F5, lookup_insert_eq| |congruence|congruence].
  intros q Ha Hq. rewrite F5, lookup_insert_ne, lookup_delete_ne, F4 by done. by apply G3.
Qed.

(** The sidecar is written after the clip; an interrupted write leaves a part of it. *)
Lemma wp_sidecar {A} (P : result A BackendError -> Fs -> Prop) (k : unit -> FsM A) abs bytes sha s :
  files s !! abs = Some bytes ->
  (forall e s', files s' = files s -> P (Err e) s') ->
  (forall e n s', files s' = <[sidecar_of abs := first_bytes n (sidecar_text sha (spot_digest sha256_hex bytes))]> (files s) -> P (Err e) s') ->
  (forall s', files s' = <[sidecar_of abs := sidecar_text sha (spot_digest sha256_hex bytes)]> (files s) ->
     dirs s' = dirs s -> sidecar_of abs ∉ dirs s -> yields P (k tt) s') ->
  yields P (spot_hex ← compute_spot_check sha256_hex abs; write_file (sidecar_of abs) (sidecar_text sha spot_hex) ≫= k) s.
Proof.
  intros Ha He Hs Hk. unfold compute_spot_check, write_file. apply yields_assoc.
  apply wp_read; [intros s1 [F1 _]; by apply He|]. intros s1 [F1 D1]. rewrite Ha. apply yields_bind; cbn beta iota. apply yields_assoc.
  apply wp_create; [intros s2 [F2 _]; apply He; congruence|]. intros s2 F2 D2 ND2. rewrite F1 in F2. rewrite D1 in D2, ND2.
  apply (wp_write _ _ _ _ _ ""); [by rewrite F2, lookup_insert_eq| |].
  - intros s3 n F3 _. apply (Hs _ n). by rewrite F3, F2, insert_insert_eq.
  - intros s3 F3 D3. apply Hk; [by rewrite F3, F2, insert_insert_eq|congruence|done].
Qed.

(** No directory above the clip has become a file. *)
Lemma put_clear_way d stem s s' abs :
  mp4 abs d stem -> clear_way (parent abs) s = true -> files s !! parent abs = None ->
  (forall q, q <> abs -> q <> partial_of abs -> q <> sidecar_of abs -> files s' !! q = files s !! q) -> clear_way abs s' = true.
Proof.
  intros Hm C P F. assert (forall q, (List.length q <= List.length d)%nat -> files s' !! q = files s !! q) as G.
  { intros q Hq. rewrite (partial_mp4 _ _ _ Hm), (sidecar_mp4 _ _ _ Hm) in F. destruct Hm as [_ ->].
    apply F; intros ->; rewrite length_app in Hq; simpl in Hq; lia. }
  destruct Hm as [_ ->]. unfold parent in *. rewrite List.removelast_last in *. rewrite clear_way_snoc.
  assert (files s' !! d = None) as -> by (rewrite G by lia; exact P). rewrite andb_true_r. unfold clear_way in *. rewrite forallb_forall in *. intros q Hq. rewrite G; [by apply C|].
  apply list_elem_of_In in Hq. unfold above in Hq. apply list_elem_of_fmap in Hq as (n & -> & _). rewrite length_take. lia.
Qed.

(** Everything outside the three files is as it was, the clip is the old or the new one in full,
    and the sidecar the old one or a part of the new one. *)
Lemma lan_put_spec b now path bytes sha s abs d stem :
  resolve b path = Ok abs -> mp4 abs d stem ->
  yields (put_post path bytes sha now abs s) (lan_put sha256_hex b now path bytes sha) s.
Proof.
  intros Hr Hm. destruct (owned_differ _ _ _ _ _ _ Hm Hm) as (N1 & N2 & N3 & N4 & _).
  assert (forall e s', (forall q, q <> partial_of abs -> files s' !! q = files s !! q) -> put_post path bytes sha now abs s (Err e) s') as Hold.
  { intros e s' H. split; [intros q _ Hq _; by apply H|left; by apply H|left; by apply H|done]. }
  unfold lan_put. apply wp_resolved; [intros e; by apply Hold|]. intros abs' Habs. rewrite Hr in Habs. injection Habs as <-.
  apply wp_create_dirs; [intros s1 [Hs1 _]; apply Hold; intros q _; by rewrite Hs1|]. intros s1 F1 D1 C1 P1.
  apply yields_guard; [|intros _; apply Hold; intros q _; by rewrite F1]. intros Hsha%bool_decide_eq_true.
  apply wp_data; [done|intros e s2 H; apply Hold; intros q Hq; rewrite H by done; by rewrite F1|]. intros s2 A2 G2 D2 ND2.
  apply (wp_sidecar _ _ _ bytes); [done|..].
  - intros e s3 F3. split; [intros q Ha Hq _|right|left|done]; rewrite F3; [rewrite G2 by done; by rewrite F1|done|].
    rewrite G2 by done. by rewrite F1.
  - intros e n s3 F3. split; [intros q Ha Hq Hq2|right|right|done]; rewrite F3.
    + rewrite lookup_insert_ne, G2 by done. by rewrite F1.
    + by rewrite lookup_insert_ne.
    + exists n. by rewrite lookup_insert_eq.
  - intros s3 F3 D3 ND3. unfold yields. simpl. split; [intros q Ha Hq Hq2|right|right|]; rewrite F3.
    + rewrite lookup_insert_ne, G2 by done. by rewrite F1.
    + by rewrite lookup_insert_ne.
    + eexists. by rewrite first_bytes_all, lookup_insert_eq.
    + intros rec [= <-]. split_and!; [done|done|by rewrite lookup_insert_ne|by rewrite lookup_insert_eq|by rewrite D3, D2|by rewrite D3|].
      apply (put_clear_way d stem s); [done..|]. intros q Ha Hq Hq2. rewrite F3, lookup_insert_ne, G2 by done. by rewrite F1.
Qed.
End put.

(** ** The laws *)

Section laws.
Context (sha256_hex : string -> string).

(** A digest is printed as 64 hexadecimal digits. *)
Hypothesis sha256_shape : forall b, List.length (chars (sha256_hex b)) = 64%nat /\ Forall (fun c => is_whitespace c = false) (chars (sha256_hex b)).

(** A sidecar that names a whole spot digest names that of a content with the full digest. *)
Definition honest (text : string) : Prop :=
  List.length (chars (sidecar_words text).2) = 64%nat ->
  exists c, sha256_hex c = (sidecar_words text).1 /\ spot_digest sha256_hex c = (sidecar_words text).2.

Definition truthful (s : Fs) : Prop := forall abs d stem text, mp4 abs d stem -> files s !! sidecar_of abs = Some text -> honest text.

(** The file at the path has the length and the ends (or all) of a content with the digest [h]. *)
Definition lan_holds (b : LanFsBackend) (s : Fs) (p h : string) : Prop :=
  exists abs content c, resolve b p = Ok abs /\ files s !! abs = Some content /\ sha256_hex c = h /\
    spot_digest sha256_hex content = spot_digest sha256_hex c.

Lemma sidecar_words_full c c' :
  sidecar_words (sidecar_text (sha256_hex c) (sha256_hex c')) = (sha256_hex c, sha256_hex c').
Proof.
  destruct (sha256_shape c) as [L1 W1], (sha256_shape c') as [L2 W2].
  unfold sidecar_words, words, sidecar_text. rewrite !chars_app.
  change (chars " ") with [" "%char]. change (chars newline) with ["010"%char]. simpl.
  rewrite words_then; [|by destruct (chars (sha256_hex c))|done|done].
  rewrite words_then; [|by destruct (chars (sha256_hex c'))|done|done]. simpl. by rewrite !of_chars_chars.
Qed.

(** A part of a sidecar says no more than the whole. *)
Lemma honest_part n bytes : honest (first_bytes n (sidecar_text (sha256_hex bytes) (spot_digest sha256_hex bytes))).
Proof.
  intros H. exists bytes. revert H. unfold spot_digest. generalize (spot_input bytes) as c'. intros c'.
  destruct (sha256_shape bytes) as [L1 W1], (sha256_shape c') as [L2 W2].
  unfold sidecar_words, words, sidecar_text, first_bytes. rewrite chars_of_chars, !chars_app.
  change (chars " ") with [" "%char]. change (chars newline) with ["010"%char]. simpl.
  set (f := chars (sha256_hex bytes)) in *. set (w := chars (sha256_hex c')) in *.
  assert (forall l, Forall (fun c => is_whitespace c = false) l -> forall k, words_chars (take k l) = [] \/ words_chars (take k l) = [take k l]) as Hone.
  { intros l Hl k. destruct (decide (take k l = [])) as [->|Hne]; [by left|right]. apply words_one; [done|by apply Forall_take]. }
  destruct (decide (n <= 64)%nat) as [Hn|Hn].
  - rewrite take_app_le by lia. destruct (Hone f W1 n) as [->| ->]; done.
  - rewrite take_app_ge by lia. rewrite L1. replace (n - 64)%nat with (S (n - 65)) by lia. simpl.
    rewrite words_then; [|by destruct f|done|done]. destruct (decide (n - 65 <= 64)%nat) as [Hn2|Hn2].
    + rewrite take_app_le by lia. destruct (Hone w W2 (n - 65)%nat) as [->| ->]; [done|]. simpl. rewrite chars_of_chars, length_take, L2.
      intros H. assert (n - 65 = 64)%nat as -> by lia. rewrite <- L2 at 1. rewrite firstn_all. subst f w. by rewrite !of_chars_chars.
    + rewrite take_ge by (rewrite length_app; simpl; lia). rewrite words_then; [|by destruct w|done|done]. simpl.
      subst f w. by rewrite !of_chars_chars.
Qed.

Lemma preserves_same_read s q : preserves (same s) (read_file q).
Proof. intros s0 H. unfold read_file, fs_call. destruct (is_some _); [done|]. by destruct (_ && _). Qed.

Lemma preserves_same_metadata s q : preserves (same s) (metadata q).
Proof. intros s0 H. unfold metadata, fs_call. destruct (is_some _); [done|]. by destruct (negb _). Qed.

#[local] Hint Resolve preserves_same_read preserves_same_metadata : nexus.

Lemma exists_same b p h s : same s (lan_exists sha256_hex b p h s).2.
Proof.
  assert (preserves (same s) (lan_exists sha256_hex b p h)) as H; [|by apply H].
  unfold lan_exists. apply preserves_bind; [by intros s0|]. intros abs.
  apply preserves_bind; [auto with nexus|]. intros [| |]; [|auto with nexus..].
  unfold spot_check, compute_spot_check. apply preserves_bind; [apply preserves_bind; [auto with nexus|intros []; auto with nexus]|].
  intros actual. apply preserves_bind; [auto with nexus|]. intros [text|]; [|auto with nexus].
  destruct (sidecar_words text). destruct (negb _); auto with nexus.
Qed.

Lemma put_keeps_truth b now p bytes h s :
  is_clip_path p -> truthful s -> truthful (lan_put sha256_hex b now p bytes h s).2.
Proof.
  intros Hp Hs. unfold lan_put. destruct (resolve b p) as [abs|e] eqn:Hr; [|unfold resolved, mbind, se_bind; by rewrite Hr].
  destruct (resolve_clip _ _ _ Hp Hr) as (d & stem & Hm & _).
  pose proof (lan_put_spec sha256_hex b now p bytes h s abs d stem Hr Hm) as [Hf _ Hside _].
  intros abs' d' stem' text Hm' Ht. destruct (owned_differ _ _ _ _ _ _ Hm Hm') as (_ & _ & N1 & N2 & N3).
  destruct (decide (abs' = abs)) as [->|Hne].
  - destruct Hside as [E|(n & E & <-)]; unfold lan_put in E; rewrite E in Ht; [by eapply Hs|]. injection Ht as <-. apply honest_part.
  - unfold lan_put in Hf. rewrite Hf in Ht by auto. by eapply Hs.
Qed.

Lemma lan_put_holds b now p bytes h s r s' :
  is_clip_path p -> lan_put sha256_hex b now p bytes h s = (Ok r, s') -> r_cold_path r = p /\ lan_holds b s' p h.
Proof.
  intros Hp E. destruct (resolve b p) as [abs|e] eqn:Hr; [|unfold lan_put, resolved, mbind, se_bind in E; by rewrite Hr in E].
  destruct (resolve_clip _ _ _ Hp Hr) as (d & stem & Hm & _).
  pose proof (lan_put_spec sha256_hex b now p bytes h s abs d stem Hr Hm) as Hspec. unfold yields in Hspec. rewrite E in Hspec.
  destruct Hspec as [_ _ _ Hok]. destruct (Hok r eq_refl) as (-> & Hsha & Hc & _). split; [done|]. by exists abs, bytes, bytes.
Qed.

Lemma lan_exists_holds b p h s s' :
  is_clip_path p -> truthful s -> lan_exists sha256_hex b p h s = (Ok true, s') -> lan_holds b s' p h.
Proof.
  intros Hp Hs E. pose proof (exists_same b p h s) as Hsame. rewrite E in Hsame. destruct Hsame as [Hf _]. simpl in Hf.
  cut (yields (fun r _ => r = Ok true -> lan_holds b s p h) (lan_exists sha256_hex b p h) s).
  { unfold yields. rewrite E. intros H. destruct (H eq_refl) as (abs & c & H'). exists abs, c. by rewrite Hf. }
  clear E Hf. unfold lan_exists. apply wp_resolved; [done|]. intros abs Hr. destruct (resolve_clip _ _ _ Hp Hr) as (d & stem & Hm & _).
  apply wp_call; [done|]. destruct (negb _); [done|]. destruct (is_some (files (spent s) !! abs)); [|by case_bool_decide].
  unfold spot_check, compute_spot_check. apply yields_assoc. apply wp_read; [done|]. intros s1 [F1 _]. simpl.
  destruct (files s !! abs) as [content|] eqn:Ha; [|done]. apply yields_bind; simpl.
  apply wp_read; [done|]. intros s2 _. rewrite F1. change (files (spent s)) with (files s). destruct (files s !! sidecar_of abs) as [text|] eqn:Ht; [|by unfold yields].
  pose proof (Hs _ _ _ _ Hm Ht) as Hh. unfold honest in Hh. destruct (sidecar_words text) as [f w]. simpl in *.
  destruct (negb (str_eqb f h)) eqn:Ef; [done|]. apply negb_false_iff, bool_decide_eq_true in Ef as <-.
  unfold yields. simpl. intros [= Ew]. apply bool_decide_eq_true in Ew as ->.
  destruct Hh as (c & <- & Hc); [by destruct (sha256_shape (spot_input content))|]. by exists abs, content, c.
Qed.

Lemma lan_put_keeps b now p bytes h s q h' :
  is_clip_path p -> is_clip_path q -> file_name p <> file_name q ->
  lan_holds b s q h' -> lan_holds b (lan_put sha256_hex b now p bytes h s).2 q h'.
Proof.
  intros Hp Hq Hne (abs' & content & c & Hr' & Hc & H). exists abs', content, c. split; [done|]. split; [|done].
  destruct (resolve b p) as [abs|e] eqn:Hr; [|unfold lan_put, resolved, mbind, se_bind; by rewrite Hr].
  destruct (resolve_clip _ _ _ Hp Hr) as (d & stem & Hm & N). destruct (resolve_clip _ _ _ Hq Hr') as (d' & stem' & Hm' & N').
  pose proof (lan_put_spec sha256_hex b now p bytes h s abs d stem Hr Hm) as [Hf _ _ _].
  destruct (owned_differ _ _ _ _ _ _ Hm Hm') as (N1 & N2 & _). rewrite Hf; [done| |done|done].
  intros ->. destruct Hm as [_ ->], Hm' as [_ E]. apply app_inj_tail in E as [_ E]. congruence.
Qed.

Lemma health_files b s : files (lan_health b s).2 = files s.
Proof.
  pose proof (preserves_same_metadata s (root b) s) as H. unfold lan_health. destruct (metadata (root b) s) as [[[]|] s']; by apply H.
Qed.

Definition LanFsBackend_laws (b : LanFsBackend) : @ColdBackendLaws Fs (lan_backend sha256_hex b).
Proof.
  refine {| sound := truthful; holds := fun s p h => lan_holds b s p h |}.
  - intros. by apply put_keeps_truth.
  - intros p h s _ Hs abs d stem text Hm Ht. apply (Hs abs d stem); [done|]. rewrite <- (proj1 (exists_same b p h s)). exact Ht.
  - intros s Hs abs d stem text Hm. simpl. rewrite health_files. by apply (Hs abs d stem).
  - intros now p bytes h s r s' Hp _ E. destruct (lan_put_holds b now p bytes h s r s' Hp E) as [-> H]. done.
  - intros. by eapply lan_exists_holds.
  - intros. by apply lan_put_keeps.
  - intros now p bytes h s r s' Hp E. by destruct (lan_put_holds b now p bytes h s r s' Hp E) as [-> H].
  - done.
  - intros p h s q h' (abs & c & H). exists abs, c. simpl. by rewrite (proj1 (exists_same b p h s)).
  - intros s q h' (abs & c & H). exists abs, c. simpl. by rewrite health_files.
Defined.
End laws.

(** ** Reading back *)

(** The bytes of the chunks, when none is an error. *)
Fixpoint gather (l : list (result string BackendError)) : result string BackendError :=
  match l with
  | [] => Ok ""
  | c :: l => let? c := c in let? r := gather l in Ok (c +:+ r)
  end.

Lemma of_chars_app a b : of_chars (a ++ b) = of_chars a +:+ of_chars b.
Proof. apply chars_inj. by rewrite chars_app, !chars_of_chars. Qed.

Lemma gather_chunks fuel rest remaining :
  0 <= remaining -> remaining <= Z.of_nat fuel * STREAM_CHUNK_BYTES ->
  gather (chunks fuel rest remaining) =
    if zlength rest <? remaining then Err BIo else Ok (of_chars (take (Z.to_nat remaining) rest)).
Proof.
  unfold STREAM_CHUNK_BYTES. revert rest remaining. induction fuel as [|fuel IH]; intros rest remaining H0 Hf.
  { assert (remaining = 0) as -> by lia. assert (zlength rest <? 0 = false) as -> by (apply Z.ltb_ge; unfold zlength; lia). done. }
  simpl chunks. destruct (remaining <=? 0) eqn:E0.
  - assert (remaining = 0) as -> by lia. assert (zlength rest <? 0 = false) as -> by (apply Z.ltb_ge; unfold zlength; lia). done.
  - set (want := Z.min remaining STREAM_CHUNK_BYTES). assert (0 < want <= remaining) as Hw by (unfold want, STREAM_CHUNK_BYTES; lia).
    assert (remaining - want <= Z.of_nat fuel * (64 * 1024)) as Hrem by (unfold want, STREAM_CHUNK_BYTES; lia).
    clearbody want. destruct (zlength rest <? want) eqn:Es.
    + assert (zlength rest <? remaining = true) as -> by lia. done.
    + simpl. rewrite IH by lia. unfold zlength in *. rewrite length_drop.
      destruct (Z.of_nat (List.length rest) <? remaining) eqn:El.
      * assert (Z.of_nat (List.length rest - Z.to_nat want) <? remaining - want = true) as -> by (apply Z.ltb_lt; lia). done.
      * assert (Z.of_nat (List.length rest - Z.to_nat want) <? remaining - want = false) as -> by (apply Z.ltb_ge; lia).
        rewrite <- of_chars_app. do 2 f_equal. rewrite <- (take_drop (Z.to_nat want) rest) at 3.
        rewrite take_app_ge by (rewrite length_take; lia). do 2 f_equal. rewrite length_take. lia.
Qed.

Lemma enough_chunks n : 0 <= n -> n <= Z.of_nat (Z.to_nat (n / STREAM_CHUNK_BYTES) + 1) * STREAM_CHUNK_BYTES.
Proof.
  intros Hn. assert (0 < STREAM_CHUNK_BYTES) as Hc by done. pose proof (Z.mul_succ_div_gt n _ Hc).
  pose proof (Z.div_pos n _ Hn Hc). rewrite Nat2Z.inj_add, Z2Nat.id by done. lia.
Qed.

Section reading.
Context (sha256_hex : string -> string).

(** Streaming a range in 64 KiB chunks gives what reading it at once gives, errors included:
    a stream that ends early is the error of the exact read, whatever the calls answer. *)
Lemma stream_is_the_range b path start end_inclusive s :
  0 <= start -> 
  match lan_get_range_stream b path start end_inclusive s with
  | (Ok l, s') => (gather l, s')
  | (Err e, s') => (Err e, s')
  end = lan_get_range b path start end_inclusive s.
Proof.
  intros H0. unfold lan_get_range_stream, lan_get_range, resolved, mbind, se_bind. destruct (resolve b path) as [abs|e]; [|done].
  destruct (read_file abs s) as [[[c|]|e] s1]; [|done..]. unfold range_len. destruct (Z.ltb_spec end_inclusive start) as [E1|E1]; [done|].
  destruct (end_inclusive - start =? umax 64); [done|]. simpl. rewrite gather_chunks; [|lia|by apply enough_chunks; lia].
  unfold slice, blen, zlength. rewrite length_drop. destruct (Z.ltb_spec (Z.of_nat (List.length (chars c))) (start + (end_inclusive - start + 1))) as [E2|E2].
  - assert (Z.of_nat (List.length (chars c) - Z.to_nat start) <? end_inclusive - start + 1 = true) as -> by (apply Z.ltb_lt; lia). done.
  - assert (Z.of_nat (List.length (chars c) - Z.to_nat start) <? end_inclusive - start + 1 = false) as -> by (apply Z.ltb_ge; lia). done.
Qed.

Hypothesis sha256_shape : forall b, List.length (chars (sha256_hex b)) = 64%nat /\ Forall (fun c => is_whitespace c = false) (chars (sha256_hex b)).

Lemma exists_now b path sha abs content text s :
  faults s = [] -> resolve b path = Ok abs -> clear_way abs s = true -> clear_way (sidecar_of abs) s = true ->
  abs ∉ dirs s -> sidecar_of abs ∉ dirs s -> files s !! abs = Some content -> files s !! sidecar_of abs = Some text ->
  sidecar_words text = (sha, spot_digest sha256_hex content) -> lan_exists sha256_hex b path sha s = (Ok true, s).
Proof.
  intros Hf Hr C1 C2 D1 D2 F1 F2 Hw. unfold lan_exists, resolved, mbind, se_bind. rewrite Hr.
  assert (spent s = s) as Hsp by (destruct s; simpl in *; by subst).
  assert (metadata abs s = (Ok StatFile, s)) as ->.
  { unfold metadata, fs_call, next_fault. rewrite Hf. simpl. rewrite Hsp, C1. simpl. by rewrite F1. }
  unfold spot_check, compute_spot_check, mbind, se_bind. rewrite (read_now abs), F1 by done. simpl.
  rewrite (read_now (sidecar_of abs)), F2 by done. rewrite Hw. unfold str_eqb. by rewrite !bool_decide_true.
Qed.

(** C30. What was uploaded is there and reads back: after a put that succeeded the backend says so
    when asked for the same digest, and gives every range of the bytes that were put. *)
Theorem uploaded_clip_reads_back b now path bytes sha s r s' i j :
  is_clip_path path -> blen bytes < 2 ^ 64 -> 0 <= i <= j -> j < blen bytes ->
  lan_put sha256_hex b now path bytes sha s = (Ok r, s') -> faults s' = [] ->
  lan_exists sha256_hex b (r_cold_path r) sha s' = (Ok true, s') /\
  lan_get_range b (r_cold_path r) i j s' = (Ok (of_chars (take (Z.to_nat (j - i + 1)) (drop (Z.to_nat i) (chars bytes)))), s').
Proof.
  intros Hp Hlen Hij Hj E Hf. destruct (resolve b path) as [abs|e] eqn:Hr; [|unfold lan_put, resolved, mbind, se_bind in E; by rewrite Hr in E].
  destruct (resolve_clip _ _ _ Hp Hr) as (d & stem & Hm & _).
  pose proof (lan_put_spec sha256_hex b now path bytes sha s abs d stem Hr Hm) as Hs. unfold yields in Hs. rewrite E in Hs.
  destruct (put_ok _ _ _ _ _ _ _ _ _ Hs r eq_refl) as (-> & <- & F1 & F2 & D1 & D2 & C). simpl. simpl in *. split.
  - eapply (exists_now b path _ abs bytes _ s' Hf Hr C); [|done|done|done|done|apply (sidecar_words_full _ sha256_shape bytes (spot_input bytes))].
    rewrite (sidecar_mp4 _ _ _ Hm). destruct Hm as [_ ->]. rewrite clear_way_snoc in *. done.
  - unfold lan_get_range, resolved, mbind, se_bind. rewrite Hr, (read_now abs), F1 by done. unfold range_len, slice.
    assert (j <? i = false) as -> by lia. assert (j - i =? umax 64 = false) as -> by (unfold umax; lia).
    assert (blen bytes <? i + (j - i + 1) = false) as -> by lia. done.
Qed.

Lemma remove_files p s : files (remove p s).2 = files s \/ files (remove p s).2 = delete p (files s).
Proof.
  unfold remove, fs_call. destruct (is_some _); [by left|]. destruct (_ || _); [by left|].
  destruct (files (spent s) !! p); [by right|by left].
Qed.

Lemma delete_keeps_truth b p s : truthful sha256_hex s -> truthful sha256_hex (lan_delete b p s).2.
Proof.
  intros Hs. assert (forall q, preserves (truthful sha256_hex) (remove q)) as Hr.
  { intros q s0 H0 abs d stem text Hm Ht. apply (H0 abs d stem); [done|]. destruct (remove_files q s0) as [E|E]; rewrite E in Ht; [done|].
    by apply lookup_delete_Some in Ht as [_ Ht]. }
  assert (preserves (truthful sha256_hex) (lan_delete b p)) as H; [|by apply H].
  unfold lan_delete. apply preserves_bind; [by intros s0|]. intros abs. apply preserves_bind; [done|].
  intros []; [|auto with nexus]. apply preserves_bind; [auto with nexus|]. auto with nexus.
Qed.

(** What is asked of the backend, each call with the failures it meets. *)
Inductive LanOp := LanPut (now : Z) (p b h : string) | LanExists (p h : string) | LanDelete (p : string).

Definition lan_op (b : LanFsBackend) (o : LanOp * list (option nat)) (s : Fs) : Fs * option bool :=
  let s := mkFs (files s) (dirs s) o.2 in
  match o.1 with
  | LanPut now p c h => ((lan_put sha256_hex b now p c h s).2, None)
  | LanExists p h => let '(r, s) := lan_exists sha256_hex b p h s in (s, match r with Ok x => Some x | Err _ => None end)
  | LanDelete p => ((lan_delete b p s).2, None)
  end.

Definition lan_machine (b : LanFsBackend) : Machine (LanOp * list (option nat)) Fs (option bool) := lan_op b.

Definition clip_op_path (o : LanOp * list (option nat)) : Prop :=
  match o.1 with LanPut _ p _ _ => is_clip_path p | _ => True end.

(** The backend after the calls, before a call that meets the failures [f]. *)
Definition lan_at (b : LanFsBackend) (ops : list (LanOp * list (option nat))) (d : gset Path) (f : list (option nat)) : Fs :=
  let s := (@mrun _ _ _ (lan_machine b) ops (mkFs ∅ d [])).1 in mkFs (files s) (dirs s) f.

(** C8. A torn upload is never taken for a copy. However uploads, checks and deletions of clips are
    cut short, at any call and in the middle of any write, when the backend says that it has a
    clip, the file is there, and it has the length, the first and the last 64 KiB (or, of a small
    clip, all) of a content with the digest that was asked for. *)
Theorem torn_upload_is_never_a_copy b ops dirs_ faults_ p h s' :
  Forall clip_op_path ops -> is_clip_path p ->
  lan_exists sha256_hex b p h (lan_at b ops dirs_ faults_) = (Ok true, s') ->
  lan_holds sha256_hex b s' p h.
Proof.
  intros Hops Hp E. eapply lan_exists_holds; [apply sha256_shape|done| |apply E].
  assert (truthful sha256_hex (@mrun _ _ _ (lan_machine b) ops (mkFs ∅ dirs_ [])).1) as H; [|done]. clear E.
  apply (@mrun_invariant _ _ _ (lan_machine b) clip_op_path (truthful sha256_hex) ops); [|done|].
  - intros [[now q c g|q g|q] fs] s Ho Hs; unfold mstep, lan_machine, lan_op; simpl in *.
    + by apply put_keeps_truth.
    + pose proof (exists_same sha256_hex b q g (mkFs (files s) (dirs s) fs)) as [F _].
      destruct (lan_exists _ _ _ _ _) as [r s1]. simpl in *. intros abs d stem text Hm Ht. apply (Hs abs d stem); [done|]. by rewrite <- F.
    + by apply delete_keeps_truth.
  - intros abs d stem text Hm Ht. simpl in Ht. by rewrite lookup_empty in Ht.
Qed.
End reading.

(** A digest of 64 digits. *)
Definition toy_sha (b : string) : string := of_chars (repeat (ascii_of_nat (97 + Z.to_nat (blen b mod 16))) 64).

Lemma toy_sha_shape b : List.length (chars (toy_sha b)) = 64%nat /\ Forall (fun c => is_whitespace c = false) (chars (toy_sha b)).
Proof.
  unfold toy_sha. rewrite chars_of_chars, repeat_length. split; [done|]. apply Forall_forall. intros c Hc.
  apply list_elem_of_In, repeat_spec in Hc as ->. pose proof (Z.mod_pos_bound (blen b) 16 ltac:(done)) as H.
  assert (Forall (fun k => is_whitespace (ascii_of_nat (97 + k)) = false) (seq 0 16)) as HF by (repeat constructor).
  rewrite Forall_forall in HF. apply HF, elem_of_seq. lia.
Qed.

Definition share : LanFsBackend := mkLan "lan" ["mnt"].
Definition share_fs (f : list (option nat)) : Fs := mkFs ∅ {[["mnt"]]} f.

Lemma cam_clip_path : is_clip_path "cam1/7.mp4".
Proof. by exists "7". Qed.

Lemma uploaded_clip_reads_back_witness :
  let s := (lan_put toy_sha share 5 "cam1/7.mp4" "moov" (toy_sha "moov") (share_fs [])).2 in
  lan_exists toy_sha share "cam1/7.mp4" (toy_sha "moov") s = (Ok true, s) /\
  lan_get_range share "cam1/7.mp4" 1 2 s = (Ok "oo", s).
Proof.
  apply (uploaded_clip_reads_back toy_sha toy_sha_shape share 5 "cam1/7.mp4" "moov" (toy_sha "moov") (share_fs [])
    (mkReceipt "cam1/7.mp4" 5 4 None)); [apply cam_clip_path|by vm_compute|lia|by vm_compute|by vm_compute|by vm_compute].
Defined.

(** The second upload is cut short inside the sidecar, the third succeeds. *)
Lemma torn_upload_is_never_a_copy_witness :
  let ops := [(LanPut 1 "cam1/7.mp4" "old" (toy_sha "old"), []);
              (LanPut 2 "cam1/7.mp4" "moov" (toy_sha "moov"), [None; None; None; None; None; None; None; Some 80%nat]);
              (LanExists "cam1/7.mp4" (toy_sha "moov"), []);
              (LanPut 3 "cam1/7.mp4" "moov" (toy_sha "moov"), [])] in
  (@mrun _ _ _ (lan_machine toy_sha share) ops (mkFs ∅ {[["mnt"]]} [])).2 = [None; None; Some false; None] /\
  lan_holds toy_sha share (lan_exists toy_sha share "cam1/7.mp4" (toy_sha "moov")
    (lan_at toy_sha share ops {[["mnt"]]} [])).2 "cam1/7.mp4" (toy_sha "moov").
Proof.
  split; [by vm_compute|].
  apply (torn_upload_is_never_a_copy toy_sha toy_sha_shape share
    [(LanPut 1 "cam1/7.mp4" "old" (toy_sha "old"), []);
     (LanPut 2 "cam1/7.mp4" "moov" (toy_sha "moov"), [None; None; None; None; None; None; None; Some 80%nat]);
     (LanExists "cam1/7.mp4" (toy_sha "moov"), []);
     (LanPut 3 "cam1/7.mp4" "moov" (toy_sha "moov"), [])] {[["mnt"]]} []);
    [repeat constructor; apply cam_clip_path|apply cam_clip_path|by vm_compute].
Defined.

Lemma stream_is_the_range_witness :
  let s := share_fs [] in
  match lan_get_range_stream share "cam1/7.mp4" 0 3 s with
  | (Ok l, s') => (gather l, s')
  | (Err e, s') => (Err e, s')
  end = lan_get_range share "cam1/7.mp4" 0 3 s.
Proof. apply stream_is_the_range. lia. Defined.
