(* ===== verification/ColdReplicator.v ===== *)
(** Replication of clips to a cold backend: [nexus-engine/src/cold_replicator.rs], over the
    database of [ClipStore] and [AlertClips], the backends of [ColdStore] and the bucket of
    [Throttle].

    What the code takes from outside is read in order: [step] counts the readings, and [clock],
    [uuid], [failing], [sending] and [waking] say what the clock, the id generator, a statement of
    the database, the tunnel and a sleeping [acquire] answer at a reading. One event of the select
    loop is one step; a task that sleeps for ever in [acquire] never ends its step. *)
From stdpp Require Import pretty.
From S2P Require Import Prelude Text Float Types Order Outbox ClipStore AlertClips Throttle ColdStore.
From Stdlib Require Import Ascii.
Open Scope Z_scope.

Definition POLL_INTERVAL : Z := secs (5 * 60).
Definition BATCH_SIZE : Z := 32.
Definition URGENT_CLIP_PRIORITY : Z := 2.
Definition ALERT_COLD_BATCH : Z := 8.
Definition ALERT_COLD_RETRY : Z := secs 60.
Definition ANNOUNCE_BATCH : Z := 32.
Definition ANNOUNCE_BACKOFF_BASE : Z := secs (5 * 60).
Definition ANNOUNCE_BACKOFF_CAP : Z := secs (6 * 60 * 60).

Definition clamp (lo hi x : Z) : Z := Z.max lo (Z.min hi x).

Definition announce_next_at (now attempts : Z) : Z :=
  now + Z.min (ANNOUNCE_BACKOFF_BASE * Z.shiftl 1 (clamp 0 16 attempts)) ANNOUNCE_BACKOFF_CAP.

Definition MAX_COLD_ATTEMPTS : Z := 8.
Definition COLD_BACKOFF : list Z := [secs 60; secs (5 * 60); secs (30 * 60); secs (2 * 60 * 60); secs (6 * 60 * 60)].

Definition cold_backoff_schedule (new_attempts now : Z) : option Z * bool :=
  if MAX_COLD_ATTEMPTS <=? new_attempts then (None, true)
  else
    let idx := Z.min (Z.max 1 new_attempts - 1) (zlength COLD_BACKOFF - 1) in
    (Some (now + nth (Z.to_nat idx) COLD_BACKOFF 0), false).

Record ColdReplicatorConfig := mkReplicator { clips_dir : string; outbox : bool; max_cold_upload_bytes : Z }.

(** The columns of [cloud_enrollment] that are read. *)
Record CloudEnrollment := mkEnrollment { enrolled_at : Z; attach_replay_after : option Z }.

Definition upload_floor (e : option CloudEnrollment) : option Z :=
  (fun e => default (enrolled_at e) (attach_replay_after e)) <$> e.

Definition attached_history (e : option CloudEnrollment) (started : Z) : option bool :=
  match e with
  | Some e => if is_some (attach_replay_after e) then Some (started <? enrolled_at e) else None
  | None => None
  end.

Inductive UploadError :=
| MissingHotPath
| MissingSha256
| HotRead (path : string)
| UBackend (e : BackendError)
| UStore (e : DbError).

Inductive TunnelError := Disconnected | SendFailed.

(** A [clip_replicated] envelope. *)
Record ClipReplicated := mkReplicated {
  env_id : string;
  edge_clip_id : string;
  p_camera_id : Z;
  p_blob_url : string;
  p_started_at : Z;
  p_duration_ms : Z;
  p_size_bytes : Z;
  p_sha256_hex : string;
  p_codec : option string;
  p_container : option string;
  p_thumbnail : option string;
  p_attached_history : option bool;
  p_is_alert_clip : option bool;
}.

(** [u64::try_from(x).unwrap_or(0)] *)
Definition to_u64 (x : Z) : Z := if (0 <=? x) && (x <? 2 ^ 64) then x else 0.

Definition motion_clip_envelope (uid : string) (clip : ClipRow) (url : string) (history : option bool) : ClipReplicated :=
  mkReplicated uid (pretty (id clip)) (to_u64 (camera_id clip)) url (started_at clip) (to_u64 (duration_ms (finish clip)))
    (to_u64 (size_bytes (finish clip))) (default "" (sha256 (finish clip))) (Some (codec clip)) (Some (container clip))
    None history None.

Definition alert_edge_id (k : Z) : string := "alert-" +:+ pretty k.

Definition alert_clip_envelope (uid : string) (clip : AlertClipRow) (url : string) : ClipReplicated :=
  mkReplicated uid (alert_edge_id (a_id clip)) (to_u64 (a_camera clip)) url (a_started clip) (to_u64 (a_duration clip))
    (to_u64 (a_size clip)) (default "" (a_sha256 clip)) (Some "h264") (Some "mp4") None None (Some true).

(** [Path::parent], as its text; a trailing separator or [.] is no component. *)
Fixpoint drop_blank (l : list string) : list string :=
  match l with
  | ["."] => ["."]
  | c :: l' => if str_eqb c "" || str_eqb c "." then drop_blank l' else l
  | [] => []
  end.

Definition parent_text (p : string) : option string :=
  match drop_blank (rev (split "/"%char p)) with
  | [] => None
  | _ :: above => Some (match drop_blank above with
                        | [] => if starts_with p "/" then "/" else ""
                        | l => Text.join "/" (rev l)
                        end)
  end.

Definition cold_path_of (hot_rel stem : string) : string :=
  match parent_text hot_rel with
  | None | Some "" => stem +:+ ".mp4"
  | Some d => d +:+ "/" +:+ stem +:+ ".mp4"
  end.

(** [Path::join] *)
Definition path_join (dir p : string) : string := if starts_with p "/" then p else dir +:+ "/" +:+ p.

(** ** File names *)

Lemma split_chars_nonempty sep l : split_chars sep l <> [].
Proof. destruct l as [|c l]; simpl; [done|]. case_bool_decide; [done|]. by destruct (split_chars sep l). Qed.

Lemma split_chars_app sep a b : split_chars sep (a ++ sep :: b) = split_chars sep a ++ split_chars sep b.
Proof.
  induction a as [|c a IH]; simpl; [by rewrite bool_decide_true|]. rewrite IH. case_bool_decide; [done|].
  pose proof (split_chars_nonempty sep a). by destruct (split_chars sep a).
Qed.

Lemma split_chars_none sep l : sep ∉ l -> split_chars sep l = [l].
Proof.
  induction l as [|c l IH]; intros H0; [done|]. simpl. rewrite not_elem_of_cons in H0. destruct H0 as [H1 H2].
  rewrite IH by done. by rewrite bool_decide_false.
Qed.

Definition slash : Ascii.ascii := "/"%char.

Lemma file_name_plain s : slash ∉ chars s -> file_name s = s.
Proof. intros Hs. unfold file_name, split. rewrite split_chars_none by done. simpl. by rewrite of_chars_chars. Qed.

Lemma file_name_below d s : slash ∉ chars s -> file_name (d +:+ "/" +:+ s) = s.
Proof.
  intros Hs. unfold file_name, split. rewrite !chars_app. change (chars "/") with [slash]. simpl.
  change ("/"%char) with slash. rewrite split_chars_app, map_app, (split_chars_none slash (chars s)) by done. simpl.
  by rewrite List.last_last, of_chars_chars.
Qed.

Lemma cold_path_name rel stem : slash ∉ chars stem -> file_name (cold_path_of rel stem) = stem +:+ ".mp4".
Proof.
  intros Hs. assert (slash ∉ chars (stem +:+ ".mp4")) as Hs2.
  { rewrite chars_app, not_elem_of_app. split; [done|]. by apply (bool_decide_unpack _). }
  unfold cold_path_of. destruct (parent_text rel) as [[|c d]|]; [by apply file_name_plain|by apply file_name_below|by apply file_name_plain].
Qed.

(** The digits of a number. *)
Definition numeral (c : Ascii.ascii) : bool := is_digit c || bool_decide (c = "-"%char).

Lemma pretty_numeral (z : Z) : Forall (fun c => numeral c = true) (chars (pretty z)).
Proof.
  assert (forall x s, Forall (fun c => numeral c = true) (chars s) -> Forall (fun c => numeral c = true) (chars (pretty_N_go x s))) as Hgo.
  { refine (fun x => well_founded_ind N.lt_wf_0 (fun x => forall s, _ -> _) _ x). clear x. intros x IH s Hs.
    destruct (decide (x = 0)%N) as [->|Hx]; [by rewrite pretty_N_go_0|]. rewrite pretty_N_go_step by lia. apply IH; [apply N.div_lt; lia|].
    simpl. constructor; [|done]. by unfold pretty_N_char; repeat case_match. }
  assert (forall n : N, Forall (fun c => numeral c = true) (chars (pretty n))) as HN.
  { intros n. unfold pretty, pretty_N. destruct (decide (n = 0)%N); [by repeat constructor|]. apply Hgo. constructor. }
  destruct z as [|p|p]; [by repeat constructor|apply (HN (Npos p))|].
  change (pretty (Z.neg p)) with ("-" +:+ pretty (Npos p)). rewrite chars_app. apply Forall_app. split; [by repeat constructor|apply HN].
Qed.

Lemma pretty_no_slash (z : Z) : slash ∉ chars (pretty z).
Proof. intros Hin. pose proof (pretty_numeral z) as HF. rewrite Forall_forall in HF. by specialize (HF _ Hin). Qed.

Lemma alert_edge_no_slash k : slash ∉ chars (alert_edge_id k).
Proof. unfold alert_edge_id. rewrite chars_app, not_elem_of_app. split; [by apply (bool_decide_unpack _)|apply pretty_no_slash]. Qed.

Lemma mp4_names_inj a b : a +:+ ".mp4" = b +:+ ".mp4" -> a = b.
Proof. intros E%(f_equal chars). rewrite !chars_app in E. apply app_inv_tail in E. by apply chars_inj. Qed.

Definition clip_file (k : Z) : string := pretty k +:+ ".mp4".

Lemma clip_file_inj a b : clip_file a = clip_file b -> a = b.
Proof. intros E%mp4_names_inj. by apply (inj pretty). Qed.

Lemma clip_file_not_alert a b : clip_file a <> alert_edge_id b +:+ ".mp4".
Proof.
  intros E%mp4_names_inj. pose proof (pretty_numeral a) as HF. rewrite E in HF. unfold alert_edge_id in HF. simpl in HF.
  by apply Forall_inv in HF.
Qed.

Lemma pretty_nonempty (z : Z) : pretty z <> "".
Proof.
  assert (forall x s, s <> "" -> pretty_N_go x s <> "") as Hgo.
  { refine (fun x => well_founded_ind N.lt_wf_0 (fun x => forall s, _ -> _) _ x). clear x. intros x IH s Hs.
    destruct (decide (x = 0)%N) as [->|Hx]; [by rewrite pretty_N_go_0|]. rewrite pretty_N_go_step by lia. apply IH; [apply N.div_lt; lia|done]. }
  assert (forall n : N, pretty n <> "") as HN.
  { intros n. unfold pretty, pretty_N. destruct (decide (n = 0)%N); [done|]. rewrite pretty_N_go_step by lia. by apply Hgo. }
  destruct z as [|p|p]; [done|apply (HN (Npos p))|done].
Qed.

(** ** The world *)

Section replicator.
Context {S : Type} `{ColdBackend S}.
Context (clock : nat -> Z) (uuid : nat -> string) (failing : nat -> bool) (sending : nat -> result unit TunnelError)
  (waking : nat -> list Z) (connected : nat -> bool).
Context (io_text : string) (db_text : DbError -> string).
Context (cfg : ColdReplicatorConfig).

(** [registry] holds the state of each registered backend under its handle. *)
Record World := mkWorld {
  db : Db;
  registry : gmap string S;
  hot_files : gmap string string;
  enrollment : option CloudEnrollment;
  throttle : BucketState;
  last_health_was_ok : bool;
  unreachable : list (string * string);
  sent : list ClipReplicated;
  kick : bool;
  step : nat;
}.

Definition set_db (x : Db) (w : World) : World :=
  mkWorld x (registry w) (hot_files w) (enrollment w) (throttle w) (last_health_was_ok w) (unreachable w) (sent w) (kick w) (step w).
Definition set_registry (x : gmap string S) (w : World) : World :=
  mkWorld (db w) x (hot_files w) (enrollment w) (throttle w) (last_health_was_ok w) (unreachable w) (sent w) (kick w) (step w).
Definition set_throttle (x : BucketState) (w : World) : World :=
  mkWorld (db w) (registry w) (hot_files w) (enrollment w) x (last_health_was_ok w) (unreachable w) (sent w) (kick w) (step w).
Definition set_health (ok : bool) (u : list (string * string)) (w : World) : World :=
  mkWorld (db w) (registry w) (hot_files w) (enrollment w) (throttle w) ok u (sent w) (kick w) (step w).
Definition set_sent (x : list ClipReplicated) (w : World) : World :=
  mkWorld (db w) (registry w) (hot_files w) (enrollment w) (throttle w) (last_health_was_ok w) (unreachable w) x (kick w) (step w).
Definition set_kick (x : bool) (w : World) : World :=
  mkWorld (db w) (registry w) (hot_files w) (enrollment w) (throttle w) (last_health_was_ok w) (unreachable w) (sent w) x (step w).
Definition next_step (w : World) : World :=
  mkWorld (db w) (registry w) (hot_files w) (enrollment w) (throttle w) (last_health_was_ok w) (unreachable w) (sent w) (kick w) (Datatypes.S (step w)).

(** An upload fails with an error that is recorded; a task that sleeps for ever does not return. *)
Inductive Halt := Fail (e : UploadError) | Asleep.

Abbreviation RM := (SE World Halt).

Definition utc_now : RM Z := fun w => (Ok (clock (step w)), next_step w).
Definition fresh_id : RM string := fun w => (Ok (uuid (step w)), next_step w).

Definition stmt {A} (m : DbM A) : RM A := fun w =>
  if failing (step w) then (Err (Fail (UStore Sqlx)), next_step w)
  else match m (db w) with
       | (Ok a, d) => (Ok a, set_db d (next_step w))
       | (Err e, d) => (Err (Fail (UStore e)), set_db d (next_step w))
       end.

(** A call on the backend registered under a handle, which the tick has seen there. *)
Definition on_backend {A} (h : string) (m : SE S BackendError A) : RM A := fun w =>
  match registry w !! h with
  | None => (Err (Fail (UBackend (BOther h))), w)
  | Some s =>
      match m s with
      | (Ok a, s) => (Ok a, set_registry (<[h := s]> (registry w)) w)
      | (Err e, s) => (Err (Fail (UBackend e)), set_registry (<[h := s]> (registry w)) w)
      end
  end.

Definition read_hot (rel : string) : RM string := fun w =>
  let abs := path_join (clips_dir cfg) rel in
  if failing (step w) then (Err (Fail (HotRead abs)), next_step w)
  else match hot_files w !! abs with
       | Some b => (Ok b, next_step w)
       | None => (Err (Fail (HotRead abs)), next_step w)
       end.

(** [throttle.acquire(n)] *)
Definition acquire_credit (n : Z) : RM unit := fun w =>
  match acquire (waking (step w)) n (throttle w) with
  | (true, b) => (Ok tt, set_throttle b (next_step w))
  | (false, b) => (Err Asleep, set_throttle b (next_step w))
  end.

Definition send_announce (env : ClipReplicated) : RM bool := fun w =>
  match sending (step w) with
  | Ok _ => (Ok true, set_sent (sent w ++ [env]) (next_step w))
  | Err _ => (Ok false, next_step w)
  end.

(** A call whose error the caller handles. *)
Definition try_ {A} (m : RM A) : RM (result A UploadError) := fun w =>
  match m w with
  | (Ok a, w) => (Ok (Ok a), w)
  | (Err (Fail e), w) => (Ok (Err e), w)
  | (Err Asleep, w) => (Err Asleep, w)
  end.

(** A query whose error gives a default. *)
Definition query_or {A} (a : A) (f : Db -> A) : RM A :=
  r ← try_ (stmt (gets f)); mret (match r with Ok x => x | Err _ => a end).

(** ** One clip *)

Definition announces : bool := outbox cfg && yields_cloud_url.

(** Stamp the URL, before the clip is marked cold. *)
Definition stamp_motion (clip : ClipRow) (history : option bool) (url : option string) : RM (option ClipReplicated) :=
  match url with
  | None => mret None
  | Some url =>
      uid ← fresh_id;
      stmt (stamp_clip_announce (id clip) url uid) ;;
      mret (Some (motion_clip_envelope uid clip url history))
  end.

(** Send an envelope, and count the attempt when it left. *)
Definition announce_first (env : option ClipReplicated) (record : Z -> DbM unit) : RM unit :=
  match env with
  | Some env =>
      if outbox cfg then
        ok ← send_announce env;
        if ok : bool then now ← utc_now; r ← try_ (stmt (record (announce_next_at now 0))); mret tt else mret tt
      else mret tt
  | None => mret tt
  end.

Definition upload_one (h : string) (clip : ClipRow) (history : option bool) : RM unit :=
  hot_rel ← get_some (hot_path (hot clip)) (throw (Fail MissingHotPath));
  sha ← get_some (sha256 (finish clip)) (throw (Fail MissingSha256));
  let cold_path := cold_path_of hot_rel (pretty (id clip)) in
  present ← on_backend h (exists_ cold_path sha);
  if (present : bool) && negb announces then
    now ← utc_now;
    stmt (mark_cold_replicated (id clip) (mkMark h cold_path now))
  else
    bytes ← read_hot hot_rel;
    (if priority clip <? URGENT_CLIP_PRIORITY then acquire_credit (blen bytes) else mret tt) ;;
    now ← utc_now;
    receipt ← on_backend h (put now cold_path bytes sha);
    env ← stamp_motion clip history (cold_url receipt);
    stmt (mark_cold_replicated (id clip) (mkMark h (r_cold_path receipt) (uploaded_at receipt))) ;;
    announce_first env (record_clip_announce_sent (id clip)).

Definition stamp_alert (clip : AlertClipRow) (url : option string) : RM (option ClipReplicated) :=
  match url with
  | None => mret None
  | Some url =>
      uid ← fresh_id;
      stmt (stamp_alert_clip_announce (a_id clip) url uid) ;;
      mret (Some (alert_clip_envelope uid clip url))
  end.

Definition upload_alert_clip_one (h : string) (clip : AlertClipRow) : RM unit :=
  sha ← get_some (a_sha256 clip) (throw (Fail MissingSha256));
  let cold_path := cold_path_of (a_path clip) (alert_edge_id (a_id clip)) in
  present ← on_backend h (exists_ cold_path sha);
  url ← (if (present : bool) && negb announces then mret None
         else
           bytes ← read_hot (a_path clip);
           acquire_credit (blen bytes) ;;
           now ← utc_now;
           receipt ← on_backend h (put now cold_path bytes sha);
           mret (cold_url receipt));
  env ← stamp_alert clip url;
  now ← utc_now;
  stmt (mark_alert_clip_cold_replicated (a_id clip) (mkMark h cold_path now)) ;;
  announce_first env (record_alert_clip_announce_sent (a_id clip)).

(** ** A batch *)

Definition describe_backend (e : BackendError) : string :=
  match e with
  | BIo => "io: " +:+ io_text
  | BUnreachable m => "backend unreachable: " +:+ m
  | BChecksumMismatch x a => "checksum mismatch: expected " +:+ x +:+ ", got " +:+ a
  | BInvalidPath m => "invalid path: " +:+ m
  | BAuth m => "auth: " +:+ m
  | BOther m => "backend: " +:+ m
  end.

Definition describe (e : UploadError) : string :=
  match e with
  | MissingHotPath => "clip has no hot_path (already soft-evicted?)"
  | MissingSha256 => "clip has no sha256 (recorder hash failed)"
  | HotRead p => "read hot file " +:+ p +:+ ": " +:+ io_text
  | UBackend e => "backend: " +:+ describe_backend e
  | UStore e => "store: " +:+ db_text e
  end.

Definition too_large (clip : ClipRow) : bool :=
  (0 <? size_bytes (finish clip)) && (max_cold_upload_bytes cfg <? size_bytes (finish clip)).

Definition size_reason (clip : ClipRow) : string :=
  "size " +:+ pretty (size_bytes (finish clip)) +:+ " bytes exceeds cold-upload ceiling " +:+ pretty (max_cold_upload_bytes cfg) +:+ " bytes".

(** One clip of the batch: quarantined for its size, uploaded, or backed off. *)
Definition replicate_clip (h : string) (e : option CloudEnrollment) (clip : ClipRow) : RM unit :=
  if too_large clip then
    now ← utc_now;
    r ← try_ (stmt (quarantine_clip (id clip) now (size_reason clip)));
    mret tt
  else
    r ← try_ (upload_one h clip (attached_history e (started_at clip)));
    match r with
    | Ok _ => mret tt
    | Err err =>
        now ← utc_now;
        let '(next_at, quarantine) := cold_backoff_schedule (cold_attempts (retry clip) + 1) now in
        r ← try_ (stmt (record_cold_upload_failure (id clip) now (describe err) next_at quarantine));
        mret tt
    end.

Definition replicate_alert (h : string) (clip : AlertClipRow) : RM unit :=
  r ← try_ (upload_alert_clip_one h clip);
  match r with
  | Ok _ => mret tt
  | Err err =>
      now ← utc_now;
      r ← try_ (stmt (record_alert_clip_cold_failure (a_id clip) now (describe err)));
      mret tt
  end.

Definition drain_alert_clips (h : string) (floor : option Z) : RM unit :=
  now ← utc_now;
  pending ← query_or [] (alert_clips_pending_cold_upload ALERT_COLD_BATCH floor (now - ALERT_COLD_RETRY));
  iter_m (replicate_alert h) pending.

Definition get_cloud_enrollment : RM (option CloudEnrollment) := fun w =>
  (Ok (if failing (step w) then None else enrollment w), next_step w).

Definition drain (h : string) (policy : ColdReplicaRow) : RM unit :=
  e ← get_cloud_enrollment;
  let floor := upload_floor e in
  now ← utc_now;
  modify (fun w => set_throttle (set_rate now (Z.max 0 (throttle_bps policy)) (throttle w)) w) ;;
  now ← utc_now;
  pending ← query_or [] (clips_pending_cold_upload now BATCH_SIZE floor);
  iter_m (replicate_clip h e) pending ;;
  if outbox cfg then drain_alert_clips h floor else mret tt.

Definition check_health (h : string) : RM HealthStatus := fun w =>
  match registry w !! h with
  | None => (Err (Fail (UBackend (BOther h))), w)
  | Some s => let '(st, s) := health s in (Ok st, set_registry (<[h := s]> (registry w)) w)
  end.

Definition tick : RM unit :=
  policy ← try_ (stmt (fun d => (read_cold_replica d, d)));
  match policy with
  | Err _ | Ok (mkReplica None _ _) => mret tt
  | Ok (mkReplica (Some h) _ _ as policy) =>
      known ← gets (fun w => is_some (registry w !! h));
      if str_eqb h "local" || negb known then mret tt
      else
        status ← check_health h;
        match status with
        | ReadOnly _ => mret tt
        | Unreachable reason =>
            modify (fun w => if last_health_was_ok w then set_health false (unreachable w ++ [(h, reason)]) w else w)
        | HealthOk =>
            modify (fun w => set_health true (unreachable w) w) ;; drain h policy
        end
  end.

(** ** Announcing again *)

(** One clip of a pass: whether the pass goes on. *)
Definition reannounce_one (now : Z) (stamp : string -> DbM unit) (env : string -> ClipReplicated) (attempts : Z)
    (record : Z -> DbM unit) : RM bool :=
  uid ← fresh_id;
  stamped ← try_ (stmt (stamp uid));
  match stamped with
  | Err _ => mret true
  | Ok _ =>
      ok ← send_announce (env uid);
      if ok : bool then r ← try_ (stmt (record (announce_next_at now attempts))); mret true else mret false
  end.

Fixpoint reannounce_motion (now : Z) (e : option CloudEnrollment) (rows : list (ClipRow * option string * Z)) : RM bool :=
  match rows with
  | [] => mret true
  | (clip, url, attempts) :: rows =>
      let url := default "" url in
      more ← reannounce_one now (stamp_clip_announce (id clip) url)
        (fun uid => motion_clip_envelope uid clip url (attached_history e (started_at clip))) attempts (record_clip_announce_sent (id clip));
      if more : bool then reannounce_motion now e rows else mret false
  end.

Fixpoint reannounce_alerts (now : Z) (rows : list (AlertClipRow * option string * Z)) : RM bool :=
  match rows with
  | [] => mret true
  | (clip, url, attempts) :: rows =>
      let url := default "" url in
      more ← reannounce_one now (stamp_alert_clip_announce (a_id clip) url)
        (fun uid => alert_clip_envelope uid clip url) attempts (record_alert_clip_announce_sent (a_id clip));
      if more : bool then reannounce_alerts now rows else mret false
  end.

Definition reannounce : RM unit :=
  up ← gets (fun w => connected (step w));
  if outbox cfg && up then
    now ← utc_now;
    e ← get_cloud_enrollment;
    let floor := upload_floor e in
    motion ← query_or [] (clips_pending_cloud_announce ANNOUNCE_BATCH now floor);
    more ← reannounce_motion now e motion;
    if more : bool then
      alert ← query_or [] (alert_clips_pending_cloud_announce ANNOUNCE_BATCH now floor);
      more ← reannounce_alerts now alert;
      mret tt
    else mret tt
  else mret tt.

(** ** The loop *)

(** What wakes [run_cold_replicator]; a stream that ends or fails only logs. *)
Inductive Event := PollInterval | ClipClosed | Kicked | AlertRaised (cam : Z) | StreamError.

Definition on_event (ev : Event) : RM unit :=
  match ev with
  | PollInterval => tick ;; reannounce
  | ClipClosed => tick
  | Kicked => k ← gets kick; if k : bool then modify (set_kick false) ;; tick else mret tt
  | AlertRaised cam =>
      bumped ← try_ (stmt (bump_latest_pending_clip_for_camera cam URGENT_CLIP_PRIORITY));
      match bumped with
      | Ok (Some _) => modify (set_kick true)
      | _ => mret tt
      end
  | StreamError => mret tt
  end.

(** Once asleep for ever, the task handles no further event. *)
Definition replicator_machine : Machine Event (World * bool) unit := fun ev '(w, awake) =>
  if awake then
    match on_event ev w with
    | (Err Asleep, w) => ((w, false), tt)
    | (_, w) => ((w, true), tt)
    end
  else ((w, false), tt).

(** ** What a call does to the database and the backends *)

Context `{!ColdBackendLaws S}.

Abbreviation Backends := (gmap string S).

Definition all_sound (g : Backends) : Prop := forall h s, g !! h = Some s -> sound s.

Definition held (g : Backends) (h p sha : string) : Prop := exists s, g !! h = Some s /\ holds s p sha.

(** The backends are sound, and hold what they held, but for files of the name [file]. *)
Definition keeps_but (file : string) (g g' : Backends) : Prop :=
  all_sound g' /\ forall h p sha, is_clip_path p -> file_name p <> file -> held g h p sha -> held g' h p sha.

Lemma keeps_refl file g : all_sound g -> keeps_but file g g.
Proof. done. Qed.

Lemma keeps_trans file g1 g2 g3 : keeps_but file g1 g2 -> keeps_but file g2 g3 -> keeps_but file g1 g3.
Proof. intros [_ H1] [H2 H3]. split; [done|auto]. Qed.

(** No clip has an empty name. *)
Lemma keeps_any file g g' : keeps_but "" g g' -> keeps_but file g g'.
Proof.
  intros [H1 H2]. split; [done|]. intros h p sha Hp _. apply H2; [done|]. destruct Hp as (stem & Hs & ->). by destruct stem.
Qed.

Section wp.
Context {A : Type} (P : result A Halt -> World -> Prop).

Lemma wp_now (k : Z -> RM A) w : (forall t, yields P (k t) (next_step w)) -> yields P (utc_now ≫= k) w.
Proof. intros Hk. apply yields_bind. apply Hk. Qed.

Lemma wp_id (k : string -> RM A) w : (forall u, yields P (k u) (next_step w)) -> yields P (fresh_id ≫= k) w.
Proof. intros Hk. apply yields_bind. apply Hk. Qed.

Lemma wp_stmt {B} (m : DbM B) (k : B -> RM A) w :
  P (Err (Fail (UStore Sqlx))) (next_step w) ->
  match m (db w) with
  | (Ok a, d) => yields P (k a) (set_db d (next_step w))
  | (Err e, d) => P (Err (Fail (UStore e))) (set_db d (next_step w))
  end -> yields P (stmt m ≫= k) w.
Proof. intros He Hm. apply yields_bind. unfold stmt. destruct (failing (step w)); [done|]. by destruct (m (db w)) as [[a|e] d]. Qed.

Lemma wp_read_hot rel (k : string -> RM A) w :
  (forall e, P (Err (Fail e)) (next_step w)) -> (forall b, yields P (k b) (next_step w)) -> yields P (read_hot rel ≫= k) w.
Proof.
  intros He Hk. apply yields_bind. unfold read_hot. destruct (failing (step w)); [apply He|].
  destruct (hot_files w !! _); [apply Hk|apply He].
Qed.

Lemma wp_acquire n (k : unit -> RM A) w :
  (forall b, P (Err Asleep) (set_throttle b (next_step w))) -> (forall b, yields P (k tt) (set_throttle b (next_step w))) ->
  yields P (acquire_credit n ≫= k) w.
Proof. intros He Hk. apply yields_bind. unfold acquire_credit. destruct (acquire _ _ _) as [[] b]; [apply Hk|apply He]. Qed.

Lemma wp_send env (k : bool -> RM A) w :
  (forall ok l, yields P (k ok) (set_sent l (next_step w))) -> yields P (send_announce env ≫= k) w.
Proof.
  intros Hk. apply yields_bind. unfold send_announce. destruct (sending (step w)); [apply Hk|].
  specialize (Hk false (sent w)). by destruct w.
Qed.

Lemma wp_try {B} (m : RM B) (k : result B UploadError -> RM A) w :
  yields (fun r w' => match r with
                      | Ok a => yields P (k (Ok a)) w'
                      | Err (Fail e) => yields P (k (Err e)) w'
                      | Err Asleep => P (Err Asleep) w'
                      end) m w -> yields P (try_ m ≫= k) w.
Proof. intros Hm. apply yields_bind. unfold try_, yields in *. by destruct (m w) as [[a|[e|]] w']. Qed.

(** [exists_] on a clip: nothing is lost, and a copy that is found is held. *)
Lemma wp_exists h p sha (k : bool -> RM A) w :
  is_clip_path p -> all_sound (registry w) ->
  (forall e w', db w' = db w -> keeps_but "" (registry w) (registry w') -> P (Err (Fail e)) w') ->
  (forall b w', db w' = db w -> keeps_but "" (registry w) (registry w') -> (b = true -> held (registry w') h p sha) -> yields P (k b) w') ->
  yields P (on_backend h (exists_ p sha) ≫= k) w.
Proof.
  intros Hp Hs He Hk. apply yields_bind. unfold on_backend. destruct (registry w !! h) as [s|] eqn:Er; [|by apply He].
  pose proof (exists_sound p sha s Hp (Hs _ _ Er)) as S1. pose proof (fun q g => exists_keeps p sha s q g) as S2.
  destruct (exists_ p sha s) as [r s'] eqn:E; simpl in *.
  assert (keeps_but "" (registry w) (<[h := s']> (registry w))) as HK.
  { split.
    - intros h' s0. destruct (decide (h = h')) as [<-|Hne]; [rewrite lookup_insert_eq; by intros [= <-]|rewrite lookup_insert_ne by done; apply Hs].
    - intros h' q g _ _ (s0 & Hs0 & Hh). unfold held. destruct (decide (h = h')) as [<-|Hne].
      + rewrite lookup_insert_eq. exists s'. split; [done|]. apply S2. congruence.
      + rewrite lookup_insert_ne by done. by exists s0. }
  destruct r as [b|e]; [|by apply He]. apply Hk; [done|done|]. intros ->. exists s'. simpl. rewrite lookup_insert_eq.
  split; [done|]. eapply exists_holds; [done| |exact E]. by eapply Hs.
Qed.

(** [put] of a clip: only the file of its name changes, and the receipt names a copy that is held. *)
Lemma wp_put h now p b sha (k : PutReceipt -> RM A) w :
  is_clip_path p -> all_sound (registry w) ->
  (forall e w', db w' = db w -> keeps_but (file_name p) (registry w) (registry w') -> P (Err (Fail e)) w') ->
  (forall rec w', (yields_cloud_url = true -> is_some (cold_url rec) = true) -> db w' = db w -> keeps_but (file_name p) (registry w) (registry w') ->
     held (registry w') h (r_cold_path rec) sha -> file_name (r_cold_path rec) = file_name p -> is_clip_path (r_cold_path rec) -> yields P (k rec) w') ->
  yields P (on_backend h (put now p b sha) ≫= k) w.
Proof.
  intros Hp Hs He Hk. apply yields_bind. unfold on_backend. destruct (registry w !! h) as [s|] eqn:Er; [|by apply He].
  pose proof (put_sound now p b sha s Hp (Hs _ _ Er)) as S1. pose proof (fun q g => put_keeps now p b sha s q g Hp) as S2.
  destruct (put now p b sha s) as [r s'] eqn:E; simpl in *.
  assert (keeps_but (file_name p) (registry w) (<[h := s']> (registry w))) as HK.
  { split.
    - intros h' s0. destruct (decide (h = h')) as [<-|Hne]; [rewrite lookup_insert_eq; by intros [= <-]|rewrite lookup_insert_ne by done; apply Hs].
    - intros h' q g Hq Hf (s0 & Hs0 & Hh). unfold held. destruct (decide (h = h')) as [<-|Hne].
      + rewrite lookup_insert_eq. exists s'. split; [done|]. apply S2; [done|done|congruence].
      + rewrite lookup_insert_ne by done. by exists s0. }
  destruct r as [rec|e]; [|by apply He]. destruct (put_named now p b sha s rec s' Hp E) as [Hn Hc].
  apply Hk; [intros Hy; by apply (put_url now p b sha s rec s')|done|done| |done|done]. exists s'. simpl. rewrite lookup_insert_eq. split; [done|].
  apply (put_holds now p b sha s rec s' Hp (Hs _ _ Er) E).
Qed.
End wp.

(** ** One clip *)

(** From the row [c] at [d0], [g0], the clip has come to the row [r]: nothing else of the database
    changed, the backends kept the files of the others. *)
Record progress (c : ClipRow) (d0 : Db) (g0 : Backends) (d : Db) (g : Backends) (r : ClipRow) : Prop := {
  pr_db : d = set_clips (<[id c := r]> (clips d0)) d0;
  pr_tables : tables_ok d;
  pr_row : id r = id c /\ finish r = finish c;
  pr_keeps : keeps_but (clip_file (id c)) g0 g;
}.

Lemma progress_refl c d g : tables_ok d -> all_sound g -> clips d !! id c = Some c -> progress c d g d g c.
Proof. intros Hd Hg Hc. split; [|done|done|by apply keeps_refl]. rewrite insert_id by done. by destruct d. Qed.

Lemma progress_keeps c d0 g0 d g g' r :
  progress c d0 g0 d g r -> keeps_but (clip_file (id c)) g g' -> progress c d0 g0 d g' r.
Proof. intros [H1 H2 H3 H4] Hk. split; [done..|]. by eapply keeps_trans. Qed.

Lemma wp_update {A} (P : result A Halt -> World -> Prop) c d0 g0 r msg f (m : DbM unit) (k : unit -> RM A) w :
  progress c d0 g0 (db w) (registry w) r -> keeps_keys f -> finish (f r) = finish r ->
  m (db w) = found msg (update_clip (id c) any f) (db w) ->
  (forall e w', registry w' = registry w -> progress c d0 g0 (db w') (registry w') r -> P (Err (Fail e)) w') ->
  (forall w', registry w' = registry w -> progress c d0 g0 (db w') (registry w') (f r) -> yields P (k tt) w') ->
  yields P (stmt m ≫= k) w.
Proof.
  intros Hp Hf Hfin Hm He Hk. destruct Hp as [H1 H2 [I1 I2] H4].
  assert (clips (db w) !! id c = Some r) as Hr by (rewrite H1; simpl; by rewrite lookup_insert_eq).
  apply wp_stmt; [by apply He|]. rewrite Hm. unfold found, mbind, se_bind, update_clip. rewrite Hr. simpl.
  destruct (clip_ok (db w) (f r)) eqn:Eok; simpl; [|by apply He].
  apply Hk; [done|]. split; simpl; [|by apply clips_put_ok| |done].
  - rewrite H1. simpl. rewrite insert_insert_eq. by destruct d0.
  - destruct (Hf r) as (E & _). split; congruence.
Qed.

(** The clip was marked cold: the backend holds a copy under its name, and when the cloud is to be
    told, the URL is stamped. *)
Record marked (c : ClipRow) (core : option string) (g : Backends) (r : ClipRow) : Prop := {
  mk_copy : exists h p sha, cold_handle (cold r) = Some h /\ cold_path (cold r) = Some p /\ sha256 (finish r) = Some sha /\
    is_clip_path p /\ file_name p = clip_file (id c) /\ held g h p sha;
  mk_at : is_some (cold_uploaded_at (cold r)) = true;
  mk_url : announces = true -> is_some (blob_url (announce r)) = true /\ announce_core_id (announce r) = core;
}.

Definition outcome (c : ClipRow) (d0 : Db) (g0 : Backends) (_ : result unit Halt) (w' : World) : Prop :=
  exists r, progress c d0 g0 (db w') (registry w') r /\ retry r = retry c /\ (cold r = cold c \/ marked c (enrolled d0) (registry w') r).

Lemma enrolled_progress c d0 g0 d g r : progress c d0 g0 d g r -> enrolled d = enrolled d0.
Proof. intros [-> _ _ _]. done. Qed.

(** Sending and counting the announcement leave the mark. *)
Lemma announce_first_outcome c d0 g0 env w r :
  progress c d0 g0 (db w) (registry w) r -> retry r = retry c -> (cold r = cold c \/ marked c (enrolled d0) (registry w) r) ->
  yields (outcome c d0 g0) (announce_first env (record_clip_announce_sent (id c))) w.
Proof.
  intros Hp Hret Hm. assert (forall x w', db w' = db w -> registry w' = registry w -> outcome c d0 g0 x w') as Hsame.
  { intros x w' E1 E2. exists r. rewrite E1, E2. done. }
  unfold announce_first. destruct env as [env|]; [|by apply Hsame]. destruct (outbox cfg); [|by apply Hsame].
  apply wp_send. intros [] l; [|by apply Hsame]. apply wp_now. intros t. apply wp_try.
  apply yields_eta, (wp_update _ c d0 g0 r (MissingClip (id c)) (fun r => with_announce (sent_once (announce_next_at t 0) (announce r)) r));
    [done|by auto with nexus|done|done|..].
  - intros e w' E Hp'. exists r. simpl. rewrite E in *. by split_and!.
  - intros w' E Hp'. eexists. split; [exact Hp'|]. split; [done|]. simpl. rewrite E. destruct Hm as [Hm|[H1 H2 H3]]; [by left|by right].
Qed.

Lemma cold_path_clip rel k : is_clip_path (cold_path_of rel (pretty k)) /\ file_name (cold_path_of rel (pretty k)) = clip_file k.
Proof.
  assert (file_name (cold_path_of rel (pretty k)) = clip_file k) as E by apply cold_path_name, pretty_no_slash.
  split; [|done]. exists (pretty k). split; [apply pretty_nonempty|done].
Qed.

(** From the receipt on: stamp, mark, announce. *)
Lemma mark_outcome h c d0 g0 history sha rec w :
  progress c d0 g0 (db w) (registry w) c -> sha256 (finish c) = Some sha -> held (registry w) h (r_cold_path rec) sha ->
  is_clip_path (r_cold_path rec) -> file_name (r_cold_path rec) = clip_file (id c) ->
  (yields_cloud_url = true -> is_some (cold_url rec) = true) ->
  yields (outcome c d0 g0)
    (env ← stamp_motion c history (cold_url rec);
     stmt (mark_cold_replicated (id c) (mkMark h (r_cold_path rec) (uploaded_at rec))) ;;
     announce_first env (record_clip_announce_sent (id c))) w.
Proof.
  intros Hp Hsha Hh Hc Hn Hurl.
  assert (forall env a w1, registry w1 = registry w -> progress c d0 g0 (db w1) (registry w1) (with_announce a c) ->
    (announces = true -> is_some (blob_url a) = true /\ announce_core_id a = enrolled d0) ->
    yields (outcome c d0 g0) (stmt (mark_cold_replicated (id c) (mkMark h (r_cold_path rec) (uploaded_at rec))) ;;
       announce_first env (record_clip_announce_sent (id c))) w1) as Hmark.
  { intros env a w1 E1 Hp1 Ha.
    apply (wp_update _ c d0 g0 (with_announce a c) (MissingClip (id c)) (with_cold (cold_of (mkMark h (r_cold_path rec) (uploaded_at rec)))));
      [done|by auto with nexus|done..| |].
    - intros e w2 E2 Hp2. eexists. split; [exact Hp2|]. split; [done|by left].
    - intros w2 E2 Hp2. apply (announce_first_outcome c d0 g0 env w2 _ Hp2); [done|]. right. rewrite E2, E1. split; [|done|exact Ha].
      exists h, (r_cold_path rec), sha. by split_and!. }
  unfold stamp_motion. destruct (cold_url rec) as [url|] eqn:Eu.
  - apply yields_assoc. apply wp_id. intros u. apply yields_assoc.
    apply (wp_update _ c d0 g0 c (MissingClip (id c)) (fun r => with_announce (stamped url u (enrolled (db w)) (announce r)) r));
      [done|by auto with nexus|done..| |].
    + intros e w2 E2 Hp2. exists c. split_and!; [done|done|by left].
    + intros w2 E2 Hp2. apply yields_bind; cbn beta iota. eapply Hmark; [by rewrite E2|exact Hp2|].
      intros _. split; [done|]. simpl. by eapply enrolled_progress.
  - apply yields_bind; cbn beta iota. apply (Hmark None (announce c)); [done|by destruct c|].
    intros Ha. unfold announces in Ha. apply andb_true_iff in Ha as [_ Hy]. by specialize (Hurl Hy).
Qed.

Lemma upload_one_outcome h c d0 g0 history w :
  progress c d0 g0 (db w) (registry w) c -> yields (outcome c d0 g0) (upload_one h c history) w.
Proof.
  intros Hp. assert (forall x w', progress c d0 g0 (db w') (registry w') c -> outcome c d0 g0 x w') as Hold.
  { intros x w' H'. exists c. split_and!; [done|done|by left]. }
  unfold upload_one. destruct (hot_path (hot c)) as [rel|]; [|by apply Hold]. destruct (sha256 (finish c)) as [sha|] eqn:Esha; [|by apply Hold].
  unfold get_some. apply yields_bind; cbn beta iota. apply yields_bind; cbn beta iota.
  destruct (cold_path_clip rel (id c)) as [Hclip Hname]. set (p := cold_path_of rel (pretty (id c))) in *.
  assert (all_sound (registry w)) as Hs by (by destruct (pr_keeps _ _ _ _ _ _ Hp)).
  apply wp_exists; [done|done|..].
  { intros e w1 E1 K1. apply Hold. rewrite E1. eapply progress_keeps; [done|by apply keeps_any]. }
  intros present w1 E1 K1 Hheld.
  assert (progress c d0 g0 (db w1) (registry w1) c) as Hp1 by (rewrite E1; eapply progress_keeps; [done|by apply keeps_any]).
  destruct (present && negb announces) eqn:Eb.
  - apply andb_true_iff in Eb as [-> Ea%negb_true_iff]. apply wp_now. intros t.
    apply yields_eta, (wp_update _ c d0 g0 c (MissingClip (id c)) (with_cold (cold_of (mkMark h p t)))); [done|by auto with nexus|done..| |].
    + intros e w2 E2 Hp2. by apply Hold.
    + intros w2 E2 Hp2. eexists. split; [exact Hp2|]. split; [done|]. right. simpl. rewrite E2. split; [|done|by rewrite Ea].
      exists h, p, sha. split_and!; [done..|]. by apply Hheld.
  - apply wp_read_hot; [intros e; by apply Hold|]. intros bytes.
    assert (forall w2, db w2 = db w1 -> registry w2 = registry w1 -> yields (outcome c d0 g0)
      (now ← utc_now; receipt ← on_backend h (put now p bytes sha); env ← stamp_motion c history (cold_url receipt);
       stmt (mark_cold_replicated (id c) (mkMark h (r_cold_path receipt) (uploaded_at receipt))) ;;
       announce_first env (record_clip_announce_sent (id c))) w2) as Hput.
    { intros w2 D2 G2. apply wp_now. intros t. apply wp_put; [done|simpl; rewrite G2; by destruct K1|..].
      - intros e w3 D3 K3. apply Hold. rewrite D3. simpl. rewrite D2. simpl in K3. rewrite G2 in K3. rewrite Hname in K3. by eapply progress_keeps.
      - intros rec w3 Hurl D3 K3 Hh Hn Hc.
        assert (progress c d0 g0 (db w3) (registry w3) c) as Hp3.
        { rewrite D3. simpl. rewrite D2. simpl in K3. rewrite G2, Hname in K3. by eapply progress_keeps. }
        apply (mark_outcome h c d0 g0 history sha rec w3); [done|done|done|done|congruence|done]. }
    destruct (priority c <? URGENT_CLIP_PRIORITY).
    + apply wp_acquire; [intros b; by apply Hold|]. intros b. by apply Hput.
    + apply yields_bind; cbn beta iota. by apply Hput.
Qed.

(** ** The invariant *)

Definition attempts_ok (x : Retry) : Prop :=
  0 <= cold_attempts x <= MAX_COLD_ATTEMPTS /\ (cold_attempts x = MAX_COLD_ATTEMPTS -> cold_quarantined x = true).

Record row_ok (core : option string) (g : Backends) (r : ClipRow) : Prop := {
  ro_attempts : attempts_ok (retry r);
  ro_marked : cold_handle (cold r) <> None -> marked r core g r;
  ro_closed : cold_handle (cold r) <> None -> is_some (ended_at (finish r)) = true;
}.

Record inv (d : Db) (g : Backends) : Prop := {
  inv_tables : tables_ok d;
  inv_sound : all_sound g;
  inv_rows : forall k r, clips d !! k = Some r -> row_ok (enrolled d) g r;
}.

Definition inv_world (w : World) : Prop := inv (db w) (registry w).

Lemma marked_id c c' core g r : id c = id c' -> marked c core g r -> marked c' core g r.
Proof. intros E [H1 H2 H3]. unfold clip_file in *. rewrite E in H1. by split. Qed.

Lemma marked_keeps c core g g' r file : file <> clip_file (id c) -> keeps_but file g g' -> marked c core g r -> marked c core g' r.
Proof.
  intros Hne [_ Hk] [(h & p & sha & H1 & H2 & H3 & H4 & H5 & H6) Ha Hu]. split; [|done|done]. exists h, p, sha.
  split_and!; [done..|]. apply Hk; [done|congruence|done].
Qed.

Lemma row_ok_keeps core g g' r file : file <> clip_file (id r) -> keeps_but file g g' -> row_ok core g r -> row_ok core g' r.
Proof. intros Hne Hk [H1 H2 H3]. split; [done| |done]. intros Hc. eapply marked_keeps; [done|done|by apply H2]. Qed.

(** A clip that came to a good row leaves a good world. *)
Lemma inv_progress c d0 g0 d g r :
  inv d0 g0 -> progress c d0 g0 d g r -> row_ok (enrolled d0) g r -> inv d g.
Proof.
  intros [H1 H2 H3] [-> Ht [Hid _] Hk] Hr. split; [done|by destruct Hk|]. intros k r'. simpl.
  destruct (decide (id c = k)) as [<-|Hne]; [rewrite lookup_insert_eq; by intros [= <-]|]. rewrite lookup_insert_ne by done. intros Hk'.
  eapply row_ok_keeps; [|exact Hk|by eapply H3]. intros E%clip_file_inj. destruct (ok_clips _ H1 k r' Hk') as [E' _]. congruence.
Qed.

(** What the batch knows of a clip it has still to handle. *)
Definition waiting (d : Db) (c : ClipRow) : Prop := clips d !! id c = Some c /\ pending_cold c = true.

Lemma pending_facts c :
  pending_cold c = true -> cold_handle (cold c) = None /\ is_some (ended_at (finish c)) = true /\ cold_quarantined (retry c) = false.
Proof.
  unfold pending_cold. rewrite !andb_true_iff, !negb_true_iff. intros (((((H1 & H2) & _) & _) & _) & H6).
  destruct (cold_handle (cold c)); [done|]. done.
Qed.

Lemma schedule_ok n now next q :
  0 <= n < MAX_COLD_ATTEMPTS -> cold_backoff_schedule (n + 1) now = (next, q) ->
  forall a e, attempts_ok (mkRetry (n + 1) a next q e).
Proof.
  unfold cold_backoff_schedule, attempts_ok, MAX_COLD_ATTEMPTS. intros Hn. destruct (Z.leb_spec 8 (n + 1)); intros [= <- <-] a e; simpl; lia.
Qed.

Definition handled (c : ClipRow) (w w' : World) : Prop :=
  inv_world w' /\ forall k, k <> id c -> clips (db w') !! k = clips (db w) !! k.

Lemma handled_progress c w w' r :
  inv_world w -> progress c (db w) (registry w) (db w') (registry w') r -> row_ok (enrolled (db w)) (registry w') r -> handled c w w'.
Proof.
  intros Hi Hp Hr. split; [by eapply inv_progress|]. intros k Hk. rewrite (pr_db _ _ _ _ _ _ Hp). simpl. by rewrite lookup_insert_ne.
Qed.

Lemma replicate_clip_ok h e c w :
  inv_world w -> waiting (db w) c -> yields (fun _ => handled c w) (replicate_clip h e c) w.
Proof.
  intros Hi [Hc Hpend]. pose proof (pending_facts c Hpend) as (Hcold & Hend & Hq).
  pose proof (inv_rows _ _ Hi _ _ Hc) as Hrow. pose proof (ro_attempts _ _ _ Hrow) as [Ha Hfull].
  assert (progress c (db w) (registry w) (db w) (registry w) c) as Hp by (apply progress_refl; [apply Hi|apply Hi|done]).
  assert (forall w' r, progress c (db w) (registry w) (db w') (registry w') r -> attempts_ok (retry r) ->
    (cold r = cold c \/ marked c (enrolled (db w)) (registry w') r) -> handled c w w') as Hdone.
  { intros w' r Hp' Ha' Hm. eapply handled_progress; [done|exact Hp'|]. destruct (pr_row _ _ _ _ _ _ Hp') as [Eid Efin].
    split; [done| |]; intros Hne; destruct Hm as [Hm|Hm]; [congruence| |by rewrite Efin|by rewrite Efin]. by eapply marked_id. }
  unfold replicate_clip. destruct (too_large c).
  - apply wp_now. intros t. apply wp_try. apply yields_eta.
    apply (wp_update _ c (db w) (registry w) c (MissingClip (id c)) (fun r => with_retry (mkRetry (cold_attempts (retry r)) (Some t)
      (cold_next_attempt_at (retry r)) true (Some (size_reason c))) r)); [done|by auto with nexus|done|done|..].
    + intros e0 w' _ Hp'. apply (Hdone w' c); [done|done|by left].
    + intros w' _ Hp'. eapply (Hdone w'); [exact Hp'|done|by left].
  - apply wp_try. eapply yields_mono; [by apply upload_one_outcome|]. intros x w1 (r & Hp1 & Hret & Hm).
    destruct x as [[]|[err|]]; [apply (Hdone w1 r); [done|by rewrite Hret|done]| |apply (Hdone w1 r); [done|by rewrite Hret|done]].
    apply wp_now. intros t. destruct (cold_backoff_schedule _ t) as [next q] eqn:Es. apply wp_try. apply yields_eta.
    apply (wp_update _ c (db w) (registry w) r (MissingClip (id c)) (fun r => with_retry (mkRetry (cold_attempts (retry r) + 1) (Some t) next q
      (Some (describe err))) r)); [done|by auto with nexus|done|done|..].
    + intros e0 w' E Hp'. apply (Hdone w' r); [done|by rewrite Hret|]. by rewrite E.
    + intros w' E Hp'. eapply (Hdone w'); [exact Hp'| |].
      * simpl. rewrite Hret. eapply schedule_ok; [|exact Es]. split; [lia|]. destruct (Z.eq_dec (cold_attempts (retry c)) MAX_COLD_ATTEMPTS) as [E8|]; [|lia].
        apply Hfull in E8. congruence.
      * rewrite E. destruct Hm as [Hm|[M1 M2 M3]]; [by left|by right].
Qed.

(** ** A batch *)

Lemma batch_ok h e l w :
  inv_world w -> NoDup (id <$> l) -> Forall (waiting (db w)) l -> inv_world (iter_m (replicate_clip h e) l w).2.
Proof.
  revert w. induction l as [|c l IH]; intros w Hi Hnd Hw; [done|]. simpl in Hnd. apply NoDup_cons in Hnd as [Hnin Hnd].
  apply Forall_cons in Hw as [Hc Hw]. change (yields (fun _ w' => inv_world w') (replicate_clip h e c ≫= fun _ => iter_m (replicate_clip h e) l) w).
  apply yields_bind. pose proof (replicate_clip_ok h e c w Hi Hc) as Hh. unfold yields in Hh.
  destruct (replicate_clip h e c w) as [[[]|x] w1]; destruct Hh as [Hi1 Hsame]; simpl in *; [|done]. apply IH; [done|done|].
  apply Forall_forall. intros c' Hc'. rewrite Forall_forall in Hw. destruct (Hw c' Hc') as [H1 H2]. split; [|done].
  rewrite Hsame; [done|]. intros E. apply Hnin. rewrite <- E. by apply list_elem_of_fmap_2.
Qed.

Lemma NoDup_filter_b {A} (p : A -> bool) (l : list A) : NoDup l -> NoDup (List.filter p l).
Proof. rewrite !NoDup_ListNoDup. apply List.NoDup_filter. Qed.

Lemma NoDup_sql_limit {A} n (l : list A) : NoDup l -> NoDup (sql_limit n l).
Proof. intros Hl. unfold sql_limit. destruct (_ <? _); [done|]. by eapply sublist_NoDup; [|apply sublist_take]. Qed.

Lemma clip_rows_ids d : tables_ok d -> NoDup (id <$> clip_rows d).
Proof.
  intros Hd. unfold clip_rows. rewrite <- list_fmap_compose.
  assert ((id ∘ snd) <$> sorted_entries (clips d) = fst <$> sorted_entries (clips d)) as ->.
  { apply list_fmap_ext. intros i [k r] Hi. apply list_elem_of_lookup_2, elem_of_sorted_entries in Hi. simpl.
    by destruct (ok_clips d Hd k r Hi) as [-> _]. }
  unfold sorted_entries. rewrite merge_sort_Permutation. apply NoDup_fst_map_to_list.
Qed.

Lemma pending_batch now limit floor d l :
  tables_ok d -> l = clips_pending_cold_upload now limit floor d -> NoDup (id <$> l) /\ Forall (waiting d) l.
Proof.
  intros Hd ->. set (p := fun r => pending_cold r && elapsed now (cold_next_attempt_at (retry r)) && above_floor floor (started_at r)).
  assert (forall c, c ∈ clips_pending_cold_upload now limit floor d -> clips d !! id c = Some c /\ p c = true) as Hin.
  { intros c Hc. apply elem_of_sql_limit in Hc. rewrite (sort_by_permutation by_priority) in Hc.
    apply elem_of_filter_b in Hc as [Hc Hp]. split; [by apply elem_of_clip_rows|done]. }
  split.
  - apply NoDup_fmap_2_strong.
    + intros x y Hx Hy E. destruct (Hin x Hx) as [H1 _], (Hin y Hy) as [H2 _]. congruence.
    + apply NoDup_sql_limit. rewrite (sort_by_permutation by_priority). apply NoDup_filter_b.
      by eapply NoDup_fmap_1, clip_rows_ids.
  - apply Forall_forall. intros c Hc. destruct (Hin c Hc) as [H1 H2]. split; [done|]. unfold p in H2.
    apply andb_true_iff in H2 as [H2 _]. by apply andb_true_iff in H2 as [H2 _].
Qed.

(** ** Calls that keep the invariant *)

Definition keeps_inv {A} (m : DbM A) : Prop := forall g, preserves (fun d => inv d g) m.

Lemma inv_stmt {A} (m : DbM A) : keeps_inv m -> preserves inv_world (stmt m).
Proof. intros Hm w Hw. unfold stmt. destruct (failing _); [done|]. specialize (Hm (registry w) (db w) Hw). by destruct (m (db w)) as [[a|e] d]. Qed.

Lemma inv_try {A} (m : RM A) : preserves inv_world m -> preserves inv_world (try_ m).
Proof. intros Hm w Hw. specialize (Hm w Hw). unfold try_. by destruct (m w) as [[a|[e|]] w']. Qed.

Lemma inv_gets {A} (f : Db -> A) : keeps_inv (gets f).
Proof. by intros g d. Qed.

Lemma inv_now : preserves inv_world utc_now.
Proof. by intros w. Qed.

Lemma inv_id : preserves inv_world fresh_id.
Proof. by intros w. Qed.

Lemma inv_read_hot rel : preserves inv_world (read_hot rel).
Proof. intros w Hw. unfold read_hot. destruct (failing _); [done|]. by destruct (hot_files w !! _). Qed.

Lemma inv_acquire n : preserves inv_world (acquire_credit n).
Proof. intros w Hw. unfold acquire_credit. by destruct (acquire _ _ _) as [[] b]. Qed.

Lemma inv_send env : preserves inv_world (send_announce env).
Proof. intros w Hw. unfold send_announce. by destruct (sending _). Qed.

Lemma inv_enrollment : preserves inv_world get_cloud_enrollment.
Proof. by intros w. Qed.

Lemma inv_registry d g g' file : (forall k, file <> clip_file k) -> inv d g -> keeps_but file g g' -> inv d g'.
Proof.
  intros Hf [H1 H2 H3] Hk. split; [done|by destruct Hk|]. intros k r Hr. eapply row_ok_keeps; [apply Hf|exact Hk|by eapply H3].
Qed.

Lemma clip_file_nonempty k : "" <> clip_file k.
Proof. unfold clip_file. pose proof (pretty_nonempty k). by destruct (pretty k). Qed.

Lemma inv_exists h p sha : is_clip_path p -> preserves inv_world (on_backend h (exists_ p sha)).
Proof.
  intros Hp w Hw. apply (yields_eta (fun _ w' => inv_world w')). apply wp_exists; [done|apply Hw|..].
  - intros e w' E K. unfold inv_world. rewrite E. eapply (inv_registry _ _ _ ""); [|exact Hw|exact K]. apply clip_file_nonempty.
  - intros b w' E K _. unfold yields, inv_world. simpl. rewrite E. eapply (inv_registry _ _ _ ""); [|exact Hw|exact K]. apply clip_file_nonempty.
Qed.

Lemma inv_put h now p b sha :
  is_clip_path p -> (forall k, file_name p <> clip_file k) -> preserves inv_world (on_backend h (put now p b sha)).
Proof.
  intros Hp Hn w Hw. apply (yields_eta (fun _ w' => inv_world w')). apply wp_put; [done|apply Hw|..].
  - intros e w' E K. unfold inv_world. rewrite E. by eapply inv_registry.
  - intros rec w' _ E K _ _ _. unfold yields, inv_world. simpl. rewrite E. by eapply inv_registry.
Qed.

(** A write of a clip that keeps its row good. *)
Lemma inv_update msg k p (f : Db -> ClipRow -> ClipRow) :
  (forall d, keeps_keys (f d)) -> (forall d g r, row_ok (enrolled d) g r -> row_ok (enrolled d) g (f d r)) ->
  keeps_inv (fun d => found msg (update_clip k p (f d)) d).
Proof.
  intros Hk Hf g d [H1 H2 H3]. rewrite found_state. pose proof (update_clip_ok k p (f d) d H1 (Hk d)) as Ht.
  unfold update_clip in *. destruct (clips d !! k) as [r|] eqn:Er; [|by split]. destruct (p r); [|by split].
  destruct (clip_ok d (f d r)); [|by split]. split; [done|done|]. simpl in *. intros k' r'.
  destruct (decide (k = k')) as [<-|Hne]; [rewrite lookup_insert_eq; intros [= <-]; apply Hf; by eapply H3|].
  rewrite lookup_insert_ne by done. apply H3.
Qed.

(** A write of an alert clip. *)
Lemma inv_alert k p f : keeps_inv (update_alert k p f).
Proof.
  intros g d Hd. unfold update_alert. destruct (alerts d !! k) as [r|]; [|done]. destruct (p r); [|done].
  destruct Hd as [[H1 H2 H3 H4] H5 H6]. split; [by split|done|done].
Qed.

Lemma keeps_inv_found msg m : keeps_inv m -> keeps_inv (found msg m).
Proof. intros Hm g d Hd. rewrite found_state. by apply Hm. Qed.

Lemma keeps_inv_bind {A B} (m : DbM A) (f : A -> DbM B) : keeps_inv m -> (forall a, keeps_inv (f a)) -> keeps_inv (m ≫= f).
Proof. intros Hm Hf g. apply preserves_bind; [apply Hm|intros a; apply Hf]. Qed.

Lemma keeps_inv_ret {A} (a : A) : keeps_inv (mret a).
Proof. by intros g d. Qed.

#[local] Hint Resolve inv_try inv_now inv_id inv_read_hot inv_acquire inv_send inv_enrollment inv_gets inv_alert keeps_inv_found
  keeps_inv_bind keeps_inv_ret : nexus.

Lemma inv_query {A} (a : A) f : preserves inv_world (query_or a f).
Proof. unfold query_or. apply preserves_bind; [apply inv_try, inv_stmt; auto with nexus|]. intros []; auto with nexus. Qed.

#[local] Hint Resolve inv_query : nexus.

Lemma inv_stamp_alert k url uid : keeps_inv (stamp_alert_clip_announce k url uid).
Proof. unfold stamp_alert_clip_announce. auto with nexus. Qed.

Lemma inv_sent_alert k t : keeps_inv (record_alert_clip_announce_sent k t).
Proof. unfold record_alert_clip_announce_sent. auto with nexus. Qed.

Lemma inv_mark_alert k m : keeps_inv (mark_alert_clip_cold_replicated k m).
Proof.
  intros g d Hd. unfold mark_alert_clip_cold_replicated. destruct (_ && _); [done|].
  by apply (keeps_inv_found _ _ (inv_alert _ _ _)).
Qed.

Lemma inv_fail_alert k now e : keeps_inv (record_alert_clip_cold_failure k now e).
Proof. unfold record_alert_clip_cold_failure. auto with nexus. Qed.

Lemma inv_stamp k url uid : keeps_inv (stamp_clip_announce k url uid).
Proof.
  intros g d Hd. unfold stamp_clip_announce.
  apply (inv_update (MissingClip k) k any (fun d r => with_announce (stamped url uid (enrolled d) (announce r)) r)); [by intros ? []| |done].
  intros d0 g0 r [H1 H2 H3]. split; [done| |done]. intros Hc. destruct (H2 Hc) as [M1 M2 M3]. by split.
Qed.

Lemma inv_sent k t : keeps_inv (record_clip_announce_sent k t).
Proof.
  intros g d Hd. apply (inv_update (MissingClip k) k any (fun _ r => with_announce (sent_once t (announce r)) r)); [by intros ? []| |done].
  intros d0 g0 r [H1 H2 H3]. split; [done| |done]. intros Hc. destruct (H2 Hc) as [M1 M2 M3]. by split.
Qed.

Lemma inv_bump k n : keeps_inv (bump_clip_priority k n).
Proof.
  intros g d Hd. unfold bump_clip_priority. apply preserves_bind; [|by intros ? s Hs|done]. intros d1 H1.
  pose proof (inv_update (MissingClip k) k (fun r => priority r <? n) (fun _ r => with_priority n r)) as HU. unfold keeps_inv, preserves in HU.
  specialize (HU ltac:(by intros ? [])). rewrite <- (found_state (MissingClip k)). apply (HU ltac:(intros d0 g0 r [R1 R2 R3]; split; [done|intros Hc; destruct (R2 Hc) as [M1 M2 M3]; by split|done]) g d1 H1).
Qed.

Lemma inv_bump_latest cam n : keeps_inv (bump_latest_pending_clip_for_camera cam n).
Proof.
  unfold bump_latest_pending_clip_for_camera. apply keeps_inv_bind; [auto with nexus|]. intros rows. destruct (head _) as [r|]; [|auto with nexus].
  apply keeps_inv_bind; [apply inv_bump|]. intros []; auto with nexus.
Qed.

#[local] Hint Resolve inv_stamp_alert inv_sent_alert inv_mark_alert inv_fail_alert inv_stamp inv_sent inv_bump inv_bump_latest : nexus.

Lemma alert_path rel k : is_clip_path (cold_path_of rel (alert_edge_id k)) /\ (forall c, file_name (cold_path_of rel (alert_edge_id k)) <> clip_file c).
Proof.
  assert (file_name (cold_path_of rel (alert_edge_id k)) = alert_edge_id k +:+ ".mp4") as E by apply cold_path_name, alert_edge_no_slash.
  split; [by exists (alert_edge_id k)|]. rewrite E. intros c E'. by apply (clip_file_not_alert c k).
Qed.

Lemma inv_announce_first env record : (forall t, keeps_inv (record t)) -> preserves inv_world (announce_first env record).
Proof.
  intros Hr. unfold announce_first. destruct env as [env|]; [|auto with nexus]. destruct (outbox cfg); [|auto with nexus].
  apply preserves_bind; [auto with nexus|]. intros []; [|auto with nexus]. apply preserves_bind; [auto with nexus|]. intros t.
  apply preserves_bind; [by apply inv_try, inv_stmt|]. auto with nexus.
Qed.

Lemma inv_upload_alert h c : preserves inv_world (upload_alert_clip_one h c).
Proof.
  unfold upload_alert_clip_one. destruct (a_sha256 c) as [sha|]; [|auto with nexus]. unfold get_some. destruct (alert_path (a_path c) (a_id c)) as [Hp Hn].
  apply preserves_bind; [auto with nexus|]. intros sha'. apply preserves_bind; [by apply inv_exists|]. intros present.
  apply preserves_bind.
  - destruct (present && negb announces); [auto with nexus|]. apply preserves_bind; [auto with nexus|]. intros b.
    apply preserves_bind; [auto with nexus|]. intros _. apply preserves_bind; [auto with nexus|]. intros t.
    apply preserves_bind; [by apply inv_put|]. auto with nexus.
  - intros url. apply preserves_bind.
    + unfold stamp_alert. destruct url as [url|]; [|auto with nexus]. apply preserves_bind; [auto with nexus|]. intros u.
      apply preserves_bind; [by apply inv_stmt; auto with nexus|]. auto with nexus.
    + intros env. apply preserves_bind; [auto with nexus|]. intros t. apply preserves_bind; [by apply inv_stmt; auto with nexus|].
      intros _. apply inv_announce_first. auto with nexus.
Qed.

Lemma inv_drain_alerts h floor : preserves inv_world (drain_alert_clips h floor).
Proof.
  unfold drain_alert_clips. apply preserves_bind; [auto with nexus|]. intros t. apply preserves_bind; [auto with nexus|]. intros l.
  apply preserves_iter. intros c. unfold replicate_alert. apply preserves_bind; [by apply inv_try, inv_upload_alert|].
  intros [[]|err]; [auto with nexus|]. apply preserves_bind; [auto with nexus|]. intros t'.
  apply preserves_bind; [by apply inv_try, inv_stmt; auto with nexus|]. auto with nexus.
Qed.

Lemma inv_drain h p : preserves inv_world (drain h p).
Proof.
  unfold drain. apply preserves_bind; [auto with nexus|]. intros e. apply preserves_bind; [auto with nexus|]. intros t.
  apply preserves_bind; [by intros w Hw|]. intros _. apply preserves_bind; [auto with nexus|]. intros t2.
  intros w Hw. unfold query_or, mbind at 1, se_bind at 1, mbind at 1, se_bind at 1.
  unfold try_, stmt. destruct (failing (step w)); simpl.
  - apply (preserves_bind inv_world (mret tt)); [auto with nexus| |done]. intros _. destruct (outbox cfg); [apply inv_drain_alerts|auto with nexus].
  - pose proof (pending_batch t2 BATCH_SIZE (upload_floor e) (db w) _ (inv_tables _ _ Hw) eq_refl) as [Hnd Hf].
    assert (inv_world (set_db (db w) (next_step w))) as Hw' by exact Hw.
    pose proof (batch_ok h e _ (set_db (db w) (next_step w)) Hw' Hnd Hf) as Hb. unfold mbind, se_bind.
    destruct (iter_m (replicate_clip h e) _ _) as [[[]|x] w1]; [|done]. destruct (outbox cfg); [by apply inv_drain_alerts|done].
Qed.

Lemma inv_health h : preserves inv_world (check_health h).
Proof.
  intros w Hw. unfold check_health. destruct (registry w !! h) as [s|] eqn:Er; [|done].
  pose proof (health_sound s (inv_sound _ _ Hw _ _ Er)) as S1. pose proof (fun q g => health_keeps s q g) as S2.
  destruct (health s) as [st s']. simpl in *. unfold inv_world. simpl. eapply (inv_registry _ _ _ ""); [apply clip_file_nonempty|exact Hw|]. split.
  - intros h' s0. destruct (decide (h = h')) as [<-|Hne]; [rewrite lookup_insert_eq; by intros [= <-]|rewrite lookup_insert_ne by done; apply Hw].
  - intros h' q g _ _ (s0 & Hs0 & Hh). unfold held. destruct (decide (h = h')) as [<-|Hne].
    + rewrite lookup_insert_eq. exists s'. split; [done|]. apply S2. congruence.
    + rewrite lookup_insert_ne by done. by exists s0.
Qed.

Lemma inv_modify f : (forall w, db (f w) = db w /\ registry (f w) = registry w) -> preserves (E := Halt) inv_world (modify f).
Proof. intros Hf w Hw. unfold modify, inv_world. simpl. by destruct (Hf w) as [-> ->]. Qed.

Lemma inv_tick : preserves inv_world tick.
Proof.
  unfold tick. apply preserves_bind; [by apply inv_try, inv_stmt; intros g d|]. intros [[[h|] t u]|]; [|auto with nexus..].
  apply preserves_bind; [auto with nexus|]. intros known. destruct (_ || _); [auto with nexus|].
  apply preserves_bind; [apply inv_health|]. intros [| |].
  - apply preserves_bind; [by apply inv_modify|]. intros _. apply inv_drain.
  - auto with nexus.
  - apply inv_modify. intros w. by destruct (last_health_was_ok w).
Qed.

Lemma inv_reannounce_one now stamp env n record :
  (forall u, keeps_inv (stamp u)) -> (forall t, keeps_inv (record t)) -> preserves inv_world (reannounce_one now stamp env n record).
Proof.
  intros Hs Hr. unfold reannounce_one. apply preserves_bind; [auto with nexus|]. intros u.
  apply preserves_bind; [by apply inv_try, inv_stmt|]. intros [[]|]; [|auto with nexus].
  apply preserves_bind; [auto with nexus|]. intros []; [|auto with nexus]. apply preserves_bind; [by apply inv_try, inv_stmt|]. auto with nexus.
Qed.

Lemma inv_reannounce : preserves inv_world reannounce.
Proof.
  assert (forall now e l, preserves inv_world (reannounce_motion now e l)) as Hm.
  { intros now e l. induction l as [|[[c url] n] l IH]; simpl; [auto with nexus|].
    apply preserves_bind; [apply inv_reannounce_one; auto with nexus|]. intros []; [done|auto with nexus]. }
  assert (forall now l, preserves inv_world (reannounce_alerts now l)) as Ha.
  { intros now l. induction l as [|[[c url] n] l IH]; simpl; [auto with nexus|].
    apply preserves_bind; [apply inv_reannounce_one; auto with nexus|]. intros []; [done|auto with nexus]. }
  unfold reannounce. apply preserves_bind; [auto with nexus|]. intros up. destruct (outbox cfg && up); [|auto with nexus].
  apply preserves_bind; [auto with nexus|]. intros t. apply preserves_bind; [auto with nexus|]. intros e.
  apply preserves_bind; [auto with nexus|]. intros l. apply preserves_bind; [done|]. intros []; [|auto with nexus].
  apply preserves_bind; [auto with nexus|]. intros l2. apply preserves_bind; [done|]. auto with nexus.
Qed.

Lemma inv_event ev : preserves inv_world (on_event ev).
Proof.
  destruct ev; simpl.
  - apply preserves_bind; [apply inv_tick|]. intros _. apply inv_reannounce.
  - apply inv_tick.
  - apply preserves_bind; [auto with nexus|]. intros []; [|auto with nexus]. apply preserves_bind; [by apply inv_modify|]. intros _. apply inv_tick.
  - apply preserves_bind; [by apply inv_try, inv_stmt; auto with nexus|]. intros [[k|]|]; [by apply inv_modify|auto with nexus..].
  - auto with nexus.
Qed.

(** ** Runs

    Beside the events of the loop, the recorder opens a clip, closes an open one and writes its
    file, the cloud acknowledges an announcement, and a replicated clip loses its hot copy. *)
Inductive Act :=
| Do (ev : Event)
| Opened (n : NewClip)
| Closed (k : Z) (x : ClipClose)
| Wrote (p b : string)
| CloudAck (aid : string) (at_ : Z) (rejection : option string)
| SoftEvicted (k : Z).

Definition act (a : Act) (s : World * bool) : World * bool :=
  let w := s.1 in
  match a with
  | Do ev => (@mstep _ _ _ replicator_machine ev s).1
  | Opened n => (set_db (open_clip n (db w)).2 w, s.2)
  | Closed k x =>
      match clips (db w) !! k with
      | Some r => if is_some (ended_at (finish r)) then s else (set_db (close_clip k x (db w)).2 w, s.2)
      | None => s
      end
  | Wrote p b => (mkWorld (db w) (registry w) (<[p := b]> (hot_files w)) (enrollment w) (throttle w) (last_health_was_ok w)
                    (unreachable w) (sent w) (kick w) (step w), s.2)
  | CloudAck aid t e => (set_db (record_clip_announce_ack aid t e (db w)).2 w, s.2)
  | SoftEvicted k => (set_db (clear_hot_pointer k (db w)).2 w, s.2)
  end.

Definition acts (l : list Act) (w : World) : World * bool := foldl (fun s a => act a s) (w, true) l.

Lemma inv_open n d g : inv d g -> inv (open_clip n d).2 g.
Proof.
  intros [H1 H2 H3]. pose proof (open_clip_ok n d H1) as Ht. unfold open_clip in *. destruct (clip_ok _ _); [|by split].
  split; [done|done|]. simpl. intros k r. destruct (decide (next_clip d = k)) as [<-|Hne]; [|rewrite lookup_insert_ne by done; apply H3].
  rewrite lookup_insert_eq. intros [= <-]. split; [|done|done]. split; [simpl; unfold MAX_COLD_ATTEMPTS; lia|done].
Qed.

Lemma inv_ack aid t e d g : inv d g -> inv (record_clip_announce_ack aid t e d).2 g.
Proof.
  intros [H1 H2 H3]. pose proof (clip_op_ok (AnnounceAck aid t e) d H1) as Ht. split; [done|done|]. simpl. intros k r'.
  rewrite lookup_fmap. intros (r & Hr & ->)%fmap_Some. destruct (H3 k r Hr) as [R1 R2 R3]. destruct (awaiting _ _); [|done].
  split; [done| |done]. intros Hc. destruct (R2 Hc) as [M1 M2 M3]. by split.
Qed.

Lemma inv_soft_evict k d g : inv d g -> inv (clear_hot_pointer k d).2 g.
Proof.
  intros Hd. pose proof (inv_update (MissingClip k) k (fun r => is_some (cold_handle (cold r))) (fun _ => with_hot (mkHot None None))) as HU.
  unfold clear_hot_pointer. rewrite <- (found_state (MissingClip k)). apply (HU ltac:(by intros ? [])); [|done].
  intros d0 g0 r [R1 R2 R3]. split; [done| |done]. intros Hc. destruct (R2 Hc) as [M1 M2 M3]. by split.
Qed.

Lemma inv_close k x d g r : inv d g -> clips d !! k = Some r -> is_some (ended_at (finish r)) = false -> inv (close_clip k x d).2 g.
Proof.
  intros [H1 H2 H3] Hr Ho. pose proof (clip_op_ok (CloseClip k x) d H1) as Ht. simpl in Ht. unfold close_clip in *. rewrite found_state in *.
  unfold update_clip in *. rewrite Hr in *. simpl in *. destruct (clip_ok _ _); [|by split]. split; [done|done|]. simpl. intros k' r'.
  destruct (decide (k = k')) as [<-|Hne]; [|rewrite lookup_insert_ne by done; apply H3]. rewrite lookup_insert_eq. intros [= <-].
  destruct (H3 k r Hr) as [R1 R2 R3]. assert (~ cold_handle (cold r) <> None) as Hn.
  { intros Hc. apply R3 in Hc. congruence. }
  by split.
Qed.

Lemma inv_acts l w : inv_world w -> inv_world (acts l w).1.
Proof.
  unfold acts. generalize true. revert w. induction l as [|a l IH]; intros w b Hw; [done|]. cbn [foldl].
  destruct (act a (w, b)) as [w' b'] eqn:E. apply IH. assert (inv_world (act a (w, b)).1) as H'; [|by rewrite E in H'].
  clear E. destruct a; cbn [act fst snd].
  - unfold mstep, replicator_machine. destruct b; [|done]. pose proof (inv_event ev w Hw) as He.
    by destruct (on_event ev w) as [[[]|[e|]] w1].
  - by apply inv_open.
  - destruct (clips (db w) !! k) as [r|] eqn:Er; [|done]. destruct (is_some _) eqn:Eo; [done|]. by eapply inv_close.
  - done.
  - by apply inv_ack.
  - by apply inv_soft_evict.
Qed.

(** Where a run starts: consistent tables, sound backends, and no clip that was replicated or
    failed to be. *)
Record fresh_world (w : World) : Prop := {
  fw_tables : tables_ok (db w);
  fw_sound : all_sound (registry w);
  fw_clips : map_Forall (fun _ r => cold_handle (cold r) = None /\ cold_attempts (retry r) = 0) (clips (db w));
}.

Lemma fresh_inv w : fresh_world w -> inv_world w.
Proof.
  intros [H1 H2 H3]. split; [done|done|]. intros k r Hr. destruct (H3 k r Hr) as [Hc Ha]. split; [|congruence|congruence].
  unfold attempts_ok, MAX_COLD_ATTEMPTS. rewrite Ha. lia.
Qed.

(** C7. A clip is marked as replicated only when the backend has it: whatever fails on the way,
    the backend named on the row holds, under the path on the row, a whole copy of a content with
    the digest on the row. *)
Theorem replicated_clip_is_held l w k r h :
  fresh_world w -> clips (db (acts l w).1) !! k = Some r -> cold_handle (cold r) = Some h ->
  exists p sha s, cold_path (cold r) = Some p /\ sha256 (finish r) = Some sha /\
    registry (acts l w).1 !! h = Some s /\ holds s p sha.
Proof.
  intros Hw Hr Hh. pose proof (inv_acts l w (fresh_inv w Hw)) as [_ _ Hi]. destruct (Hi k r Hr) as [_ Hm _].
  destruct Hm as [(h' & p & sha & E1 & E2 & E3 & _ & _ & s & Hs) _ _]; [congruence|]. rewrite Hh in E1. injection E1 as <-. by exists p, sha, s.
Qed.

(** Every clip the cloud has not acknowledged stays to be announced: while the core is
    enrolled and its backend gives URLs, a replicated clip without an answer is due again as soon
    as its backoff has passed, unless it lies below the enrollment's floor. *)
Lemma unacked_clip_stays_announced l w k r now floor :
  fresh_world w -> announces = true -> clips (db (acts l w).1) !! k = Some r -> cold_handle (cold r) <> None ->
  is_some (enrolled (db (acts l w).1)) = true -> announced_at (announce r) = None ->
  above_floor floor (started_at r) = true -> elapsed now (ClipStore.announce_next_at (announce r)) = true ->
  pending_announce (db (acts l w).1) now floor (started_at r) (cold_uploaded_at (cold r)) (announce r) = true.
Proof.
  intros Hw Ha Hr Hc He Hack Hfl Hel. pose proof (inv_acts l w (fresh_inv w Hw)) as [_ _ Hi]. destruct (Hi k r Hr) as [_ Hm _].
  destruct (Hm Hc) as [_ Hat Hurl]. destruct (Hurl Ha) as [Hu Hcore]. unfold pending_announce.
  rewrite Hu, Hack, Hat, He, Hcore, Hfl, Hel. by rewrite bool_decide_true.
Qed.

(** A clip that cannot be uploaded is given up: at most eight failures are ever counted, and
    from the eighth on the clip is in quarantine, where no batch finds it. *)
Lemma upload_attempts_bounded l w k r :
  fresh_world w -> clips (db (acts l w).1) !! k = Some r ->
  0 <= cold_attempts (retry r) <= MAX_COLD_ATTEMPTS /\
  (cold_attempts (retry r) = MAX_COLD_ATTEMPTS -> pending_cold r = false).
Proof.
  intros Hw Hr. pose proof (inv_acts l w (fresh_inv w Hw)) as [_ _ Hi]. destruct (Hi k r Hr) as [[H1 H2] _ _]. split; [done|].
  intros E. unfold pending_cold. rewrite (H2 E). apply andb_false_r.
Qed.
End replicator.

(** ** A run

    A backend that gives URLs: it keeps the digest under each file name. *)
Module Cloud.
Abbreviation St := (gmap string string).

Definition put (now : Z) (p b h : string) (s : St) : result PutReceipt BackendError * St :=
  (Ok (mkReceipt p now (blen b) (Some ("https://blobs/" +:+ file_name p))), <[file_name p := h]> s).

Definition has (p h : string) (s : St) : bool := bool_decide (s !! file_name p = Some h).
End Cloud.

#[local] Instance cloud_backend : ColdBackend Cloud.St := {|
  kind := "azure";
  yields_cloud_url := true;
  ColdStore.put := Cloud.put;
  get_range := fun _ _ _ s => (Err BIo, s);
  delete_ := fun _ s => (Ok false, s);
  exists_ := fun p h s => (Ok (Cloud.has p h s), s);
  volume_info := fun s => (Ok (mkVolume None None None), s);
  health := fun s => (HealthOk, s);
|}.

#[local] Instance cloud_backend_laws : ColdBackendLaws Cloud.St.
Proof.
  refine {| sound := fun _ => True; holds := fun (s : Cloud.St) p h => s !! file_name p = Some h |}; try done.
  - intros now p b h s r s' _ _ [= <- <-]. simpl. by rewrite lookup_insert_eq.
  - intros p h s s' _ _ [= E <-]. by apply bool_decide_eq_true in E.
  - intros now p b h s q h' _ _ Hne Hq. simpl. by rewrite lookup_insert_ne.
  - intros now p b h s r s' Hp [= <- <-]. done.
  - by intros now p b h s r s' _ [= <- <-].
Defined.

Definition sample_cfg : ColdReplicatorConfig := mkReplicator "clips" true 1000.

Definition sample_db : Db :=
  mkDb {[1]} ∅ 1 ∅ 1 ∅ 1 (mkOutbox ∅ ∅ 1) ∅
    {["local" := mkBackend "local" "{}" 0 0; "cloud" := mkBackend "azure_blob" "{}" 0 0]} (Some (mkReplica (Some "cloud") 0 0)) ∅ (Some "core").

Definition sample_world : World (S := Cloud.St) :=
  mkWorld sample_db {["cloud" := (∅ : Cloud.St)]} ∅ (Some (mkEnrollment 0 None)) (bucket_new 0 0) true [] [] true 0.

(** A clip is recorded, the tunnel is down, and the loop is kicked. *)
Definition sample_acts : list Act :=
  [Opened (mkNewClip 1 5 "cam1/a.mp4" "local" "h264" "mp4" 960 540); Wrote "clips/cam1/a.mp4" "moov";
   Closed 1 (mkClose (secs 9) 9000 4 None (Some "abc")); Do Kicked].

Abbreviation run_sample failing := (acts (fun n => secs (Z.of_nat n)) (fun n => pretty (Z.of_nat n)) failing (fun _ => Err Disconnected)
  (fun _ => []) (fun _ => false) "io" (fun _ => "db") sample_cfg).

Lemma sample_fresh : fresh_world sample_world.
Proof.
  split; [split; [apply map_Forall_empty..|done]|done|apply map_Forall_empty].
Qed.

Lemma replicated_clip_is_held_witness :
  match clips (db (run_sample (fun _ => false) sample_acts sample_world).1) !! 1 with
  | Some r => exists p sha s, cold_path (cold r) = Some p /\ sha256 (finish r) = Some sha /\
      registry (run_sample (fun _ => false) sample_acts sample_world).1 !! "cloud" = Some s /\ holds s p sha
  | None => False
  end.
Proof.
  destruct (clips (db (run_sample (fun _ => false) sample_acts sample_world).1) !! 1) as [r|] eqn:E; [|by vm_compute in E].
  apply (replicated_clip_is_held _ _ _ _ _ _ _ _ _ sample_acts sample_world 1 r); [apply sample_fresh|exact E|].
  vm_compute in E. injection E as <-. done.
Defined.

Lemma unacked_clip_stays_announced_witness :
  match clips (db (run_sample (fun _ => false) sample_acts sample_world).1) !! 1 with
  | Some r => pending_announce (db (run_sample (fun _ => false) sample_acts sample_world).1) (secs 99) (Some 0) (started_at r)
      (cold_uploaded_at (cold r)) (announce r) = true
  | None => False
  end.
Proof.
  destruct (clips (db (run_sample (fun _ => false) sample_acts sample_world).1) !! 1) as [r|] eqn:E; [|by vm_compute in E].
  apply (unacked_clip_stays_announced _ _ _ _ _ _ _ _ _ sample_acts sample_world 1 r (secs 99) (Some 0)); [apply sample_fresh|done|exact E|..];
    vm_compute in E; injection E as <-; done.
Defined.

(** The statement that stamps the announcement fails, so the upload fails. *)
Lemma upload_attempts_bounded_witness :
  let failing n := bool_decide (n = 9)%nat in
  match clips (db (run_sample failing sample_acts sample_world).1) !! 1 with
  | Some r => cold_attempts (retry r) = 1 /\ 0 <= cold_attempts (retry r) <= MAX_COLD_ATTEMPTS /\
      (cold_attempts (retry r) = MAX_COLD_ATTEMPTS -> pending_cold r = false)
  | None => False
  end.
Proof.
  intros failing. destruct (clips (db (run_sample failing sample_acts sample_world).1) !! 1) as [r|] eqn:E; [|by vm_compute in E].
  split; [vm_compute in E; by injection E as <-|].
  eapply (upload_attempts_bounded _ _ failing _ _ _ _ _ _ sample_acts sample_world 1 r); [apply sample_fresh|exact E].
Defined.
