(* ===== verification/Stats.v ===== *)
(** The per-camera registries of [nexus-pipeline/src/stats.rs]: frame statistics, decode health and
    the state of the analysis stream.

    An instant is a number of nanoseconds. A slot of the frame statistics is never removed, and a
    probe that took a slot of the decode health before it was removed writes where no reader looks,
    so each method is one step on the maps. Counters saturate at [u64::MAX]. *)
From S2P Require Import Prelude Float.

Definition FPS_WINDOW : Z := secs 2.
Definition FPS_WINDOW_MAX_SAMPLES : nat := 240.
Definition CAMERA_OFFLINE_AFTER_MS : Z := 90000.
Definition RATE_WINDOW : Z := secs 5.
Definition MAX_PLAUSIBLE_FRAME_GAP : Z := 4096.

(** ** A window of event times *)
Abbreviation RateWindow := (list Z).

Fixpoint drop_older (now window : Z) (w : list Z) : list Z :=
  match w with t :: w' => if window <? now - t then drop_older now window w' else w | [] => [] end.

Definition rate (w : list Z) : f32 :=
  if bool_decide (length w < 2)%nat then fzero
  else match head w, last w with
  | Some front, Some back =>
      let span := as_secs_f32 (sat_sub back front) in
      if fle span fzero then fzero else f32_div (f32_of_Z (zlength w - 1)) span
  | _, _ => fzero
  end.

Definition record (now : Z) (w : RateWindow) : RateWindow * f32 :=
  let w := drop_older now RATE_WINDOW (w ++ [now]) in (w, rate w).

Lemma drop_older_head now window w t : head (drop_older now window w) = Some t -> now - t <= window.
Proof.
  induction w as [|u w IH]; simpl; [done|]. destruct (Z.ltb_spec window (now - u)); [done|]. intros [= ->]. lia.
Qed.

Lemma drop_older_keeps now window w : 0 <= window -> exists w', drop_older now window (w ++ [now]) = w' ++ [now].
Proof.
  intros Hw. induction w as [|u w [w' IH]]; simpl; [exists []; rewrite Z.sub_diag; by destruct (Z.ltb_spec window 0); [lia|]|].
  destruct (window <? now - u); [by exists w'|by exists (u :: w)].
Qed.

Lemma drop_older_suffix now window w : drop_older now window w `suffix_of` w.
Proof.
  induction w as [|u w IH]; simpl; [done|]. destruct (window <? now - u); [by apply suffix_cons_r|done].
Qed.

(** ** Frame statistics *)
Record Entry := mkEntry {
  last_frame_at : option Z;
  last_frame_mono : option Z;
  recent_instants : list Z;
  frames_emitted : Z;
  frames_dropped : Z;
  frames_backpressure_dropped : Z;
  last_frame_id : option Z;
  source_dims : Z * Z;
  tile_invocations : Z;
  tile_detections_added : Z;
  tile_inference_ms_total : Z;
  analysed : RateWindow;
  e_analysed_fps : f32;
}.

Definition entry_new : Entry := mkEntry None None [] 0 0 0 None (0, 0) 0 0 0 [] fzero.

Record CameraFrameStats := mkStats {
  s_last_frame_at : option Z;
  s_last_frame_mono : option Z;
  fps_ema : f64;
  s_frames_emitted : Z;
  s_frames_dropped : Z;
  s_backpressure_dropped : Z;
  analysed_fps : f32;
  s_source_dims : Z * Z;
  s_tile_invocations : Z;
  s_tile_detections_added : Z;
  s_tile_inference_ms_total : Z;
}.

Definition last_frame_age_ms (now : Z) (s : CameraFrameStats) : option Z :=
  (fun t => let ms := as_millis (sat_sub now t) in if ms <? 2 ^ 63 then ms else 2 ^ 63 - 1) <$> s_last_frame_mono s.

Definition is_online (now : Z) (s : CameraFrameStats) : bool :=
  match last_frame_age_ms now s with Some age => age <=? CAMERA_OFFLINE_AFTER_MS | None => false end.

Definition fps (now : Z) (e : Entry) : f64 :=
  if bool_decide (length (recent_instants e) < 2)%nat then fzero
  else match head (recent_instants e) with
  | None => fzero
  | Some oldest =>
      let elapsed := as_secs_f64 (Z.min (sat_sub now oldest) FPS_WINDOW) in
      if fle elapsed fzero then fzero
      else f64_div (f64_sub (f64_of_Z (zlength (recent_instants e))) (f64_of_Z 1)) elapsed
  end.

Definition snapshot_entry (now : Z) (e : Entry) : CameraFrameStats :=
  mkStats (last_frame_at e) (last_frame_mono e) (fps now e) (frames_emitted e) (frames_dropped e)
    (frames_backpressure_dropped e)
    (match last (analysed e) with
     | Some l => if sat_sub now l <=? RATE_WINDOW then e_analysed_fps e else fzero
     | None => fzero
     end)
    (source_dims e) (tile_invocations e) (tile_detections_added e) (tile_inference_ms_total e).

Record Slot := mkSlot { s_entry : option Entry; s_epoch : Z }.

Abbreviation FrameStats := (gmap Z Slot).

Definition slot_default : Slot := mkSlot None 0.

Definition begin_session (cam : Z) (r : FrameStats) : FrameStats * Z :=
  let s := default slot_default (r !! cam) in
  (<[cam := mkSlot (s_entry s) (s_epoch s + 1)]> r, s_epoch s + 1).

Definition frame_entry (now captured_at w h : Z) (e : Entry) : Entry :=
  let ts := drop_older now FPS_WINDOW (recent_instants e) ++ [now] in
  mkEntry (Some captured_at) (Some now) (drop (length ts - FPS_WINDOW_MAX_SAMPLES) ts)
    (usat_add 64 (frames_emitted e) 1) (frames_dropped e) (frames_backpressure_dropped e) (last_frame_id e) (w, h)
    (tile_invocations e) (tile_detections_added e) (tile_inference_ms_total e) (analysed e) (e_analysed_fps e).

Definition observe_frame (cam ep now captured_at w h : Z) (r : FrameStats) : FrameStats :=
  match r !! cam with
  | None => r
  | Some s =>
      if s_epoch s =? ep
      then <[cam := mkSlot (Some (frame_entry now captured_at w h (default entry_new (s_entry s)))) (s_epoch s)]> r
      else r
  end.

(** Every other writer changes the entry of a camera that has one. *)
Definition on_entry (cam : Z) (f : Entry -> Entry) (r : FrameStats) : FrameStats :=
  match r !! cam with
  | Some s => match s_entry s with Some e => <[cam := mkSlot (Some (f e)) (s_epoch s)]> r | None => r end
  | None => r
  end.

(** Frames lost between the previous id and this one. *)
Definition gap (prev : option Z) (frame_id : Z) : Z :=
  match prev with
  | Some p => let lost := sat_sub (sat_sub frame_id p) 1 in if (0 <? lost) && (lost <=? MAX_PLAUSIBLE_FRAME_GAP) then lost else 0
  | None => 0
  end.

Definition id_entry (frame_id : Z) (e : Entry) : Entry :=
  mkEntry (last_frame_at e) (last_frame_mono e) (recent_instants e) (frames_emitted e) (frames_dropped e)
    (usat_add 64 (frames_backpressure_dropped e) (gap (last_frame_id e) frame_id)) (Some frame_id) (source_dims e)
    (tile_invocations e) (tile_detections_added e) (tile_inference_ms_total e) (analysed e) (e_analysed_fps e).

Definition observe_frame_id (cam frame_id : Z) : FrameStats -> FrameStats := on_entry cam (id_entry frame_id).

Definition analysed_entry (now : Z) (e : Entry) : Entry :=
  let '(w, f) := record now (analysed e) in
  mkEntry (last_frame_at e) (last_frame_mono e) (recent_instants e) (frames_emitted e) (frames_dropped e)
    (frames_backpressure_dropped e) (last_frame_id e) (source_dims e)
    (tile_invocations e) (tile_detections_added e) (tile_inference_ms_total e) w f.

Definition observe_analysed (cam now : Z) : FrameStats -> FrameStats := on_entry cam (analysed_entry now).

Definition dropped_entry (e : Entry) : Entry :=
  mkEntry (last_frame_at e) (last_frame_mono e) (recent_instants e) (frames_emitted e) (usat_add 64 (frames_dropped e) 1)
    (frames_backpressure_dropped e) (last_frame_id e) (source_dims e)
    (tile_invocations e) (tile_detections_added e) (tile_inference_ms_total e) (analysed e) (e_analysed_fps e).

Definition observe_dropped (cam : Z) : FrameStats -> FrameStats := on_entry cam dropped_entry.

Definition tile_entry (added infer_ms : Z) (e : Entry) : Entry :=
  mkEntry (last_frame_at e) (last_frame_mono e) (recent_instants e) (frames_emitted e) (frames_dropped e)
    (frames_backpressure_dropped e) (last_frame_id e) (source_dims e)
    (usat_add 64 (tile_invocations e) 1) (usat_add 64 (tile_detections_added e) added)
    (usat_add 64 (tile_inference_ms_total e) infer_ms) (analysed e) (e_analysed_fps e).

Definition observe_tile_invocation (cam added infer_ms : Z) : FrameStats -> FrameStats := on_entry cam (tile_entry added infer_ms).

Definition clear (cam : Z) (r : FrameStats) : FrameStats :=
  match r !! cam with Some s => <[cam := mkSlot None (s_epoch s + 1)]> r | None => r end.

Definition snapshot (now cam : Z) (r : FrameStats) : option CameraFrameStats :=
  s ← r !! cam; snapshot_entry now <$> s_entry s.

Definition snapshot_all (now : Z) (r : FrameStats) : gmap Z CameraFrameStats :=
  omap (fun s => snapshot_entry now <$> s_entry s) r.

(** ** Decode health *)
Record DecodeHealth := mkHealth {
  decoder_input_drops : Z;
  decoder_output_frames : Z;
  sampled_frames : Z;
  duplicate_frames : Z;
  decoder_output_fps : f32;
  sampled_fps : f32;
  decoder_dims : Z * Z;
}.

Definition duplicate_per_mille (h : DecodeHealth) : Z :=
  if sampled_frames h =? 0 then 0 else usat_mul 64 (duplicate_frames h) 1000 / sampled_frames h.

Record DecodeSlot := mkDecode { health : DecodeHealth; decoder_output : RateWindow; sampled : RateWindow }.

Definition decode_default : DecodeSlot := mkDecode (mkHealth 0 0 0 0 fzero fzero (0, 0)) [] [].

Record DecodeHealthMap := mkDecodeMap { slots : gmap Z DecodeSlot; retired : gset Z }.

Definition decode_new : DecodeHealthMap := mkDecodeMap ∅ ∅.

(** A probe records on first sight, except for a retired camera. *)
Definition probe (cam : Z) (f : DecodeSlot -> DecodeSlot) (m : DecodeHealthMap) : DecodeHealthMap :=
  match slots m !! cam with
  | Some s => mkDecodeMap (<[cam := f s]> (slots m)) (retired m)
  | None => if bool_decide (cam ∈ retired m) then m else mkDecodeMap (<[cam := f decode_default]> (slots m)) (retired m)
  end.

Definition decode_begin_session (cam : Z) (m : DecodeHealthMap) : DecodeHealthMap :=
  mkDecodeMap (slots m) (retired m ∖ {[cam]}).

Definition input_drop (s : DecodeSlot) : DecodeSlot :=
  let h := health s in
  mkDecode (mkHealth (usat_add 64 (decoder_input_drops h) 1) (decoder_output_frames h) (sampled_frames h)
    (duplicate_frames h) (decoder_output_fps h) (sampled_fps h) (decoder_dims h)) (decoder_output s) (sampled s).

Definition observe_decoder_input_drop (cam : Z) : DecodeHealthMap -> DecodeHealthMap := probe cam input_drop.

Definition output_frame (now : Z) (s : DecodeSlot) : DecodeSlot :=
  let h := health s in
  let '(w, f) := record now (decoder_output s) in
  mkDecode (mkHealth (decoder_input_drops h) (usat_add 64 (decoder_output_frames h) 1) (sampled_frames h)
    (duplicate_frames h) f (sampled_fps h) (decoder_dims h)) w (sampled s).

Definition observe_decoder_output (cam now : Z) : DecodeHealthMap -> DecodeHealthMap := probe cam (output_frame now).

Definition geometry (w h : Z) (s : DecodeSlot) : DecodeSlot :=
  let d := health s in
  mkDecode (mkHealth (decoder_input_drops d) (decoder_output_frames d) (sampled_frames d)
    (duplicate_frames d) (decoder_output_fps d) (sampled_fps d) (w, h)) (decoder_output s) (sampled s).

Definition observe_decoder_geometry (cam w h : Z) : DecodeHealthMap -> DecodeHealthMap := probe cam (geometry w h).

Definition loop_stats (now n duplicates : Z) (s : DecodeSlot) : DecodeSlot :=
  let h := health s in
  let '(w, f) := record now (sampled s) in
  mkDecode (mkHealth (decoder_input_drops h) (decoder_output_frames h) n duplicates (decoder_output_fps h) f
    (decoder_dims h)) (decoder_output s) w.

Definition observe_loop_stats (cam now n duplicates : Z) : DecodeHealthMap -> DecodeHealthMap :=
  probe cam (loop_stats now n duplicates).

Definition decode_clear (cam : Z) (m : DecodeHealthMap) : DecodeHealthMap :=
  mkDecodeMap (delete cam (slots m)) ({[cam]} ∪ retired m).

Definition decode_reset (cam : Z) (m : DecodeHealthMap) : DecodeHealthMap :=
  mkDecodeMap (delete cam (slots m)) (retired m).

Definition decode_snapshot (cam : Z) (m : DecodeHealthMap) : option DecodeHealth := health <$> slots m !! cam.

Definition decode_snapshot_all (m : DecodeHealthMap) : gmap Z DecodeHealth := health <$> slots m.

(** ** The analysis stream *)
Record AnalysisStreamStatus := mkStatus {
  mode : string;
  state : string;
  reason : option string;
  st_dims : Z * Z;
  st_fps : f32;
}.

Abbreviation AnalysisStreams := (gmap Z AnalysisStreamStatus).

Definition observe_mainstream_by_design (cam : Z) : AnalysisStreams -> AnalysisStreams :=
  insert cam (mkStatus "mainstream" "active" None (0, 0) fzero).
Definition observe_probing (cam : Z) : AnalysisStreams -> AnalysisStreams :=
  insert cam (mkStatus "substream" "probing" None (0, 0) fzero).
Definition observe_active (cam w h : Z) (f : f32) : AnalysisStreams -> AnalysisStreams :=
  insert cam (mkStatus "substream" "active" None (w, h) f).
Definition observe_unavailable (cam : Z) (why : string) : AnalysisStreams -> AnalysisStreams :=
  insert cam (mkStatus "mainstream" "unavailable" (Some why) (0, 0) fzero).
Definition analysis_clear (cam : Z) : AnalysisStreams -> AnalysisStreams := delete cam.
Definition analysis_snapshot (cam : Z) (m : AnalysisStreams) : option AnalysisStreamStatus := m !! cam.

(** ** Runs of calls *)
Inductive FrameOp :=
| Begin (cam : Z)
| OFrame (cam ep now captured_at w h : Z)
| OId (cam frame_id : Z)
| OAnalysed (cam now : Z)
| ODropped (cam : Z)
| OTile (cam added infer_ms : Z)
| OClear (cam : Z).

#[export] Instance frame_stats_machine : Machine FrameOp FrameStats (option Z) := fun o r =>
  match o with
  | Begin cam => let '(r, e) := begin_session cam r in (r, Some e)
  | OFrame cam ep now at_ w h => (observe_frame cam ep now at_ w h r, None)
  | OId cam i => (observe_frame_id cam i r, None)
  | OAnalysed cam now => (observe_analysed cam now r, None)
  | ODropped cam => (observe_dropped cam r, None)
  | OTile cam a ms => (observe_tile_invocation cam a ms r, None)
  | OClear cam => (clear cam r, None)
  end.

Definition epoch_of (cam : Z) (r : FrameStats) : Z := s_epoch (default slot_default (r !! cam)).

(** A frame of [cam] in this run was taken by a session claimed before epoch [e0]. *)
Definition late_for (cam e0 : Z) (o : FrameOp) : Prop :=
  match o with OFrame c ep _ _ _ _ => c = cam -> ep <= e0 | _ => True end.

Definition out_of (cam e0 : Z) (r : FrameStats) : Prop :=
  e0 < epoch_of cam r /\ (default slot_default (r !! cam)).(s_entry) = None.

Lemma on_entry_lookup cam f r c : epoch_of c (on_entry cam f r) = epoch_of c r /\
  ((default slot_default (r !! c)).(s_entry) = None -> (default slot_default (on_entry cam f r !! c)).(s_entry) = None).
Proof.
  unfold on_entry, epoch_of. destruct (r !! cam) as [[[e|] ep]|] eqn:E; simpl; try done.
  destruct (decide (c = cam)) as [->|Hc]; [by rewrite lookup_insert_eq, E|by rewrite lookup_insert_ne].
Qed.

Lemma out_of_step cam e0 o r : late_for cam e0 o -> out_of cam e0 r -> out_of cam e0 (mstep o r).1.
Proof.
  assert (forall c f, out_of cam e0 r -> out_of cam e0 (on_entry c f r)) as Hon.
  { intros c f [He Hn]. destruct (on_entry_lookup c f r cam) as [E1 E2]. unfold out_of. rewrite E1. auto. }
  intros Hl Ho. destruct o as [c|c ep now at_ w h|c i|c now|c|c a ms|c]; simpl; try by apply Hon.
  - destruct Ho as [He Hn]. unfold out_of, epoch_of in *. destruct (decide (c = cam)) as [->|Hc]; [|by rewrite lookup_insert_ne].
    rewrite lookup_insert_eq. simpl. split; [lia|done].
  - destruct Ho as [He Hn]. unfold observe_frame, out_of, epoch_of in *. destruct (r !! c) as [s|] eqn:E; [|done].
    destruct (Z.eqb_spec (s_epoch s) ep); [|done]. destruct (decide (c = cam)) as [->|Hc]; [|by rewrite lookup_insert_ne].
    rewrite E in He. simpl in *. specialize (Hl eq_refl). lia.
  - destruct Ho as [He Hn]. unfold clear, out_of, epoch_of in *. destruct (r !! c) as [s|] eqn:E; [|done].
    destruct (decide (c = cam)) as [->|Hc]; [|by rewrite lookup_insert_ne]. rewrite lookup_insert_eq, E in *. simpl in *. split; [lia|done].
Qed.

(** A stopped camera stays out of the statistics: once it is cleared, no call makes it show again
    until a session claimed after the clear delivers a frame. *)
Theorem cleared_camera_stays_out cam r ops now :
  is_Some (r !! cam) -> Forall (late_for cam (epoch_of cam r)) ops -> snapshot now cam (mrun ops (clear cam r)).1 = None.
Proof.
  intros [s Hs] Hops.
  assert (out_of cam (epoch_of cam r) (mrun ops (clear cam r)).1) as [_ Ho].
  { eapply mrun_invariant; [intros o r'; apply out_of_step|done|]. unfold out_of, epoch_of, clear. rewrite Hs, lookup_insert_eq. simpl. split; [lia|done]. }
  unfold snapshot. revert Ho. destruct ((mrun ops (clear cam r)).1 !! cam) as [s'|]; simpl; [by intros ->|done].
Qed.

Lemma cleared_camera_stays_out_witness :
  snapshot 9 1 (mrun [Begin 1; OFrame 1 1 5 5 640 360; ODropped 1] (clear 1 (mrun [Begin 1; OFrame 1 1 0 0 640 360] (∅ : FrameStats)).1)).1 = None.
Proof.
  apply (cleared_camera_stays_out 1 (mrun [Begin 1; OFrame 1 1 0 0 640 360] (∅ : FrameStats)).1); [by eexists|].
  repeat constructor; vm_compute; done.
Defined.

(** ** Frames lost on the way in *)

Definition id_run (ids : list Z) (e : Entry) : Entry := foldl (fun e i => id_entry i e) e ids.

Definition one_camera (prev i : Z) : Prop := prev < i /\ i - prev - 1 <= MAX_PLAUSIBLE_FRAME_GAP.

Fixpoint session_ids (prev : Z) (ids : list Z) : Prop :=
  match ids with [] => True | i :: ids => one_camera prev i /\ session_ids i ids end.

Lemma gap_one prev i : one_camera prev i -> gap (Some prev) i = i - prev - 1.
Proof.
  intros [H1 H2]. unfold gap, sat_sub. rewrite (Z.max_r 0 (i - prev)) by lia. rewrite Z.max_r by lia.
  destruct (Z.ltb_spec 0 (i - prev - 1)); destruct (Z.leb_spec (i - prev - 1) MAX_PLAUSIBLE_FRAME_GAP); simpl; lia.
Qed.

Lemma last_cons_default (j : Z) ids i : List.last (j :: ids) i = List.last ids j.
Proof. revert j i. induction ids as [|k ids IH]; intros j i; [done|]. change (List.last (k :: ids) i = List.last (k :: ids) j). by rewrite !IH. Qed.

Lemma session_ids_grow i ids : session_ids i ids -> i <= List.last ids i.
Proof.
  revert i. induction ids as [|j ids IH]; intros i Hs; [simpl; lia|]. destruct Hs as [[H1 _] Hs].
  rewrite last_cons_default. specialize (IH j Hs). lia.
Qed.

(** Without saturation, a session whose ids grow by gaps a camera survives accounts for every frame
    of its source: those received after the first and those counted as lost make up the ids that passed. *)
Theorem lost_and_received_add_up prev ids e :
  last_frame_id e = Some prev -> 0 <= frames_backpressure_dropped e -> session_ids prev ids ->
  frames_backpressure_dropped e + (List.last ids prev - prev) <= umax 64 ->
  frames_backpressure_dropped (id_run ids e) + zlength ids = frames_backpressure_dropped e + (List.last ids prev - prev) /\
  last_frame_id (id_run ids e) = Some (List.last ids prev).
Proof.
  unfold zlength. revert prev e. induction ids as [|i ids IH]; intros prev e He H0 Hs Hb; [simpl; split; [lia|done]|].
  destruct Hs as [Hi Hs].
  assert (List.last (i :: ids) prev = List.last ids i) as El.
  { apply last_cons_default. }
  rewrite El in *.
  assert (i <= List.last ids i) as Hle.
  { by apply session_ids_grow. }
  assert (frames_backpressure_dropped (id_entry i e) = frames_backpressure_dropped e + (i - prev - 1)) as Ed.
  { simpl. rewrite He, gap_one by done. destruct Hi. unfold usat_add. lia. }
  destruct (IH i (id_entry i e)) as [IH1 IH2]; [done|destruct Hi; lia|done|lia|].
  change (id_run (i :: ids) e) with (id_run ids (id_entry i e)). simpl length. split; [lia|done].
Qed.

(** ** The window is bounded *)
Definition window_ok (e : Entry) : Prop :=
  (length (recent_instants e) <= FPS_WINDOW_MAX_SAMPLES)%nat /\
  forall t m, t ∈ recent_instants e -> last_frame_mono e = Some m -> t <= m /\ m - t <= FPS_WINDOW.

Lemma drop_older_in now window w t : StronglySorted Z.le w -> t ∈ drop_older now window w -> t ∈ w /\ now - t <= window.
Proof.
  induction w as [|u w IH]; intros Hs Ht; simpl in *; [by apply elem_of_nil in Ht|].
  apply StronglySorted_inv in Hs as [Hs Hu]. destruct (Z.ltb_spec window (now - u)).
  - destruct (IH Hs Ht). split; [by right|done].
  - split; [done|]. apply elem_of_cons in Ht as [->|Ht]; [lia|]. rewrite Forall_forall in Hu. apply Hu in Ht. lia.
Qed.

Lemma suffix_sorted (a b : list Z) : a `suffix_of` b -> StronglySorted Z.le b -> StronglySorted Z.le a.
Proof. intros [k ->]. induction k as [|x k IH]; simpl; [done|]. by intros [? _]%StronglySorted_inv; auto. Qed.

Lemma sorted_snoc l (x : Z) : StronglySorted Z.le l -> (forall t, t ∈ l -> t <= x) -> StronglySorted Z.le (l ++ [x]).
Proof.
  induction l as [|u l IH]; intros Hs Hx; simpl; [by repeat constructor|]. apply StronglySorted_inv in Hs as [Hs Hu].
  constructor; [apply IH; [done|intros; apply Hx; by right]|]. apply Forall_app. split; [done|]. constructor; [apply Hx; left|constructor].
Qed.

(** Frames observed at instants that do not decrease keep at most 240 of them, in order, none more
    than the window older than the newest. *)
Theorem frame_window_bounded now captured_at w h e :
  window_ok e -> StronglySorted Z.le (recent_instants e) -> (forall t, t ∈ recent_instants e -> t <= now) ->
  let e' := frame_entry now captured_at w h e in window_ok e' /\ StronglySorted Z.le (recent_instants e') /\ last (recent_instants e') = Some now.
Proof.
  intros [Hl Hw] Hs Hn. cbn zeta. unfold window_ok. simpl.
  set (ts := drop_older now FPS_WINDOW (recent_instants e) ++ [now]).
  assert (forall t, t ∈ drop_older now FPS_WINDOW (recent_instants e) -> t <= now /\ now - t <= FPS_WINDOW) as Hd.
  { intros t Ht. destruct (drop_older_in _ _ _ _ Hs Ht) as [Hin Hle]. split; [by apply Hn|done]. }
  assert (StronglySorted Z.le ts) as Hts.
  { apply sorted_snoc; [eapply suffix_sorted; [apply drop_older_suffix|done]|]. intros t Ht. by apply Hd. }
  assert (length ts <= 241)%nat as Hlen.
  { unfold ts. rewrite length_app. simpl. destruct (drop_older_suffix now FPS_WINDOW (recent_instants e)) as [k Ek].
    assert (length (recent_instants e) = length k + length (drop_older now FPS_WINDOW (recent_instants e)))%nat by (rewrite Ek at 1; apply length_app).
    unfold FPS_WINDOW_MAX_SAMPLES in Hl. lia. }
  split; [split|split].
  - rewrite length_drop. lia.
  - intros t m Ht [= <-]. assert (t ∈ ts) as Hin.
    { rewrite <- (take_drop (length ts - FPS_WINDOW_MAX_SAMPLES) ts). apply elem_of_app. by right. }
    unfold ts in Hin. apply elem_of_app in Hin as [Hin|Hin%list_elem_of_singleton]; [by apply Hd|]. subst t. unfold FPS_WINDOW, secs, ns_per_sec. lia.
  - eapply suffix_sorted; [apply suffix_drop|done].
  - assert (length ts = S (length (drop_older now FPS_WINDOW (recent_instants e)))) as Hl' by (unfold ts; rewrite length_app; simpl; lia).
    rewrite Hl'. unfold ts. rewrite drop_app_le by (unfold FPS_WINDOW_MAX_SAMPLES; lia). by rewrite last_snoc.
Qed.

(** ** A retired camera *)
Inductive DecodeOp :=
| DBegin (cam : Z) | DDrop (cam : Z) | DOutput (cam now : Z) | DGeometry (cam w h : Z) | DLoop (cam now n duplicates : Z)
| DClear (cam : Z) | DReset (cam : Z).

#[export] Instance decode_machine : Machine DecodeOp DecodeHealthMap unit := fun o m =>
  (match o with
   | DBegin cam => decode_begin_session cam m
   | DDrop cam => observe_decoder_input_drop cam m
   | DOutput cam now => observe_decoder_output cam now m
   | DGeometry cam w h => observe_decoder_geometry cam w h m
   | DLoop cam now n d => observe_loop_stats cam now n d m
   | DClear cam => decode_clear cam m
   | DReset cam => decode_reset cam m
   end, tt).

Definition gone (cam : Z) (m : DecodeHealthMap) : Prop := slots m !! cam = None /\ cam ∈ retired m.

Lemma gone_probe cam c f m : gone cam m -> gone cam (probe c f m).
Proof.
  intros [Hs Hr]. unfold probe, gone. destruct (slots m !! c) as [s|] eqn:E; simpl.
  - split; [|done]. by rewrite lookup_insert_ne by (intros ->; congruence).
  - case_bool_decide; [done|]. simpl. split; [|done]. rewrite lookup_insert_ne; [done|]. by intros ->.
Qed.

(** Whatever a stopped ingester's probes report after the clear, the camera is not in the census
    until an ingester claims it. *)
Theorem retired_camera_stays_out cam m ops :
  Forall (fun o => o <> DBegin cam) ops -> decode_snapshot cam (mrun ops (decode_clear cam m)).1 = None.
Proof.
  intros Hops. assert (gone cam (mrun ops (decode_clear cam m)).1) as [Hs _].
  { eapply mrun_invariant; [|done|]; [|unfold gone, decode_clear; simpl; rewrite lookup_delete_eq; split; [done|set_solver]].
    intros o m' Ho Hg. destruct o as [c|c|c now|c w h|c now n d|c|c]; try by apply gone_probe.
    - destruct Hg as [Hs Hr]. unfold gone. simpl. split; [done|]. assert (c <> cam) by congruence. set_solver.
    - destruct Hg as [Hs Hr]. unfold gone. simpl. split; [|set_solver]. by apply lookup_delete_None; right.
    - destruct Hg as [Hs Hr]. unfold gone. simpl. split; [|done]. by apply lookup_delete_None; right. }
  unfold decode_snapshot. by rewrite Hs.
Qed.
