(* ===== verification/Cameras.v ===== *)
(** Cameras: the configuration of one ([nexus-config/src/cameras.rs], the fields the engine's
    reconciler reads), the table they are stored in ([nexus-store/src/lib.rs]) and the size of the
    frame a camera is analysed at ([nexus-engine/src/reconciler.rs], [nexus-pipeline/src/source.rs]). *)
From S2P Require Import Prelude Float Types.

(** ** Configuration *)

(** A parsed URL: its scheme and its text. *)
Record Url := mkUrl { scheme : string; url_text : string }.

#[export] Instance CodecKind_eq_dec : EqDecision CodecKind.
Proof. solve_decision. Defined.

Record CameraIngest := mkIngest {
  url : Url;
  analysis_url : option Url;
  enabled : bool;
  max_fps : Z;
  codec : option CodecKind;
}.

(** A model, or an ensemble of models. *)
Inductive ModelConfig := mkModel {
  model_kind : string;
  pack_path : option string;
  preset : string;
  input_width : Z;
  input_height : Z;
  score_threshold : f32;
  members : list ModelConfig;
  model_top_k : option Z;
  min_bbox_area_px : option Z;
  nms_spatial_bucket_size_px : option Z;
}.

(** [validate_finite]: the thresholds, at every depth, are numbers. *)
Fixpoint model_is_finite (m : ModelConfig) : bool := is_finite (score_threshold m) && forallb model_is_finite (members m).

Inductive TileGridConfig := G2x2 | G3x3.

#[export] Instance TileGridConfig_eq_dec : EqDecision TileGridConfig.
Proof. solve_decision. Defined.

Record CameraBehavior := mkBehavior {
  parking_lot_mode : bool;
  anchor_ttl_secs : option Z;
  supervisor_width : option Z;
  detector_skip_crowded_threshold : option Z;
  detector_skip_every_n_frames : option Z;
  detector_downscale_crowded_threshold : option Z;
  detector_downscale_sustained_secs : option Z;
  detector_downscale_to_width : option Z;
  detector_downscale_to_height : option Z;
  supervisor_downscale_crowded_threshold : option Z;
  supervisor_downscale_sustained_secs : option Z;
  supervisor_upscale_clear_secs : option Z;
  supervisor_downscale_to_width : option Z;
  tile_enabled : option bool;
  tile_trigger : option Z;
  tile_max_per_frame : option Z;
  tile_grid : option TileGridConfig;
}.

Record CameraConfig := mkCamera {
  cam_id : Z;
  cam_name : string;
  ingest : CameraIngest;
  prompts : list string;
  model_override : option ModelConfig;
  behavior : CameraBehavior;
}.

Definition set_cam_id (i : Z) (c : CameraConfig) : CameraConfig :=
  mkCamera i (cam_name c) (ingest c) (prompts c) (model_override c) (behavior c).

(** ** The supervisor frame *)

(** [width * 9 / 16] in [u32], which wraps in a release build, rounded up to an even number. *)
Definition supervisor_frame_for (width : Z) : Z * Z :=
  let h_raw := (width * 9) mod 2 ^ 32 / 16 in
  (width, Z.land (h_raw + 1) (Z.lxor 1 (umax 32))).

Definition supervisor_dims_from (model_override_width supervisor_width : option Z) (default_detector_width : Z) : Z * Z :=
  let det_w := default default_detector_width model_override_width in
  supervisor_frame_for (Z.max (default det_w supervisor_width) det_w).

Definition supervisor_dims_for (cam : CameraConfig) (default_detector_width : Z) : Z * Z :=
  supervisor_dims_from (input_width <$> model_override cam) (supervisor_width (behavior cam)) default_detector_width.

(** Clearing the low bit of a 32-bit number. *)
Lemma land_even h : 0 <= h < 2 ^ 32 -> Z.land h (Z.lxor 1 (umax 32)) = 2 * (h / 2).
Proof.
  intros Hh. apply Z.bits_inj'. intros n Hn. rewrite Z.land_spec, Z.lxor_spec.
  destruct (Z.eq_dec n 0) as [->|Hn0]; [rewrite Z.testbit_even_0; simpl; by rewrite andb_false_r|].
  replace (Z.testbit (2 * (h / 2)) n) with (Z.testbit h n).
  2: { replace n with (Z.succ (n - 1)) by lia. rewrite Z.testbit_even_succ by lia. symmetry. apply Z.div2_bits. lia. }
  destruct (Z.testbit h n) eqn:Hb; [|done]. simpl.
  assert (n < 32) by (apply Z.nle_gt; intros Hle; rewrite (Z.bits_above_log2 h n) in Hb; [done|lia|]; destruct (Z.eq_dec h 0) as [->|]; [simpl; lia|]; apply Z.log2_lt_pow2; [lia|]; apply Z.lt_le_trans with (2 ^ 32); [lia|]; by apply Z.pow_le_mono_r).
  change (umax 32) with (Z.ones 32). rewrite Z.ones_spec_low by lia.
  replace (Z.testbit 1 n) with false; [done|]. symmetry. apply Z.bits_above_log2; simpl; lia.
Qed.

(** Up to the width at which the product wraps, the frame is 16:9 with an even height: the true
    height is rounded by less than two lines. *)
Theorem supervisor_frame_16_9 w : 0 <= w -> w * 9 < 2 ^ 32 ->
  let h := (supervisor_frame_for w).2 in Z.even h = true /\ 9 * w - 15 <= 16 * h <= 9 * w + 16.
Proof.
  intros Hw Hb. unfold supervisor_frame_for. cbn zeta. simpl snd. rewrite (Z.mod_small (w * 9)) by lia.
  assert (0 <= w * 9 / 16 < 2 ^ 31) by (split; [apply Z.div_pos; lia|apply Z.div_lt_upper_bound; lia]).
  rewrite land_even by lia. rewrite Z.even_mul. split; [done|].
  pose proof (Z.div_mod (w * 9) 16). pose proof (Z.mod_pos_bound (w * 9) 16).
  pose proof (Z.div_mod (w * 9 / 16 + 1) 2). pose proof (Z.mod_pos_bound (w * 9 / 16 + 1) 2). lia.
Qed.

(** ** The table

    A row is the id and what this build decodes from [config_json]: [None] when another release
    wrote a value this one has no variant for. *)
Abbreviation CamerasTable := (gmap Z (option CameraConfig)).

Definition upsert_camera_tx (cam : CameraConfig) (t : CamerasTable) : CamerasTable := <[cam_id cam := Some cam]> t.

Definition delete_camera_tx (i : Z) (t : CamerasTable) : CamerasTable := delete i t.

(** [new_id] is the rowid SQLite assigns: [INSERT], then the blob rewritten with it. *)
Definition create_camera_tx (new_id : Z) (cam : CameraConfig) (t : CamerasTable) : CameraConfig * CamerasTable :=
  let t1 := <[new_id := Some cam]> t in
  let cam := set_cam_id new_id cam in
  (cam, <[new_id := Some cam]> t1).

Definition read_row (r : Z * option CameraConfig) : CameraConfig + Z :=
  match r.2 with Some cam => inl cam | None => inr r.1 end.

Definition list_readable_cameras (t : CamerasTable) : list CameraConfig * list Z :=
  let rows := read_row <$> sorted_entries t in
  (omap (fun r => match r with inl c => Some c | inr _ => None end) rows,
   omap (fun r => match r with inl _ => None | inr i => Some i end) rows).

(** The strict read fails on a row it cannot decode. *)
Definition list_cameras (t : CamerasTable) : option (list CameraConfig) :=
  mapM snd (sorted_entries t).

(** Every blob carries the id of its row. *)
Definition ids_match (t : CamerasTable) : Prop := forall i c, t !! i = Some (Some c) -> cam_id c = i.

Lemma upsert_ids cam t : ids_match t -> ids_match (upsert_camera_tx cam t).
Proof. intros Ht i c. unfold upsert_camera_tx. rewrite lookup_insert_Some. intros [[<- [= <-]]|[_ E]]; [done|by apply Ht]. Qed.

Lemma delete_ids i t : ids_match t -> ids_match (delete_camera_tx i t).
Proof. intros Ht j c. unfold delete_camera_tx. rewrite lookup_delete_Some. intros [_ E]. by apply Ht. Qed.

Lemma create_ids i cam t : ids_match t -> ids_match (create_camera_tx i cam t).2.
Proof.
  intros Ht j c. simpl. rewrite insert_insert_eq, lookup_insert_Some. intros [[<- [= <-]]|[_ E]]; [done|by apply Ht].
Qed.

Lemma elem_of_readable t c : ids_match t -> c ∈ (list_readable_cameras t).1 <-> t !! cam_id c = Some (Some c).
Proof.
  intros Ht. simpl. rewrite list_elem_of_omap. setoid_rewrite list_elem_of_fmap. split.
  - intros (r & ([i o] & -> & Hr%elem_of_sorted_entries) & E). destruct o as [c'|]; [|done]. simpl in E. injection E as ->.
    by rewrite (Ht _ _ Hr).
  - intros Hr. exists (inl c). split; [|done]. exists (cam_id c, Some c). split; [done|]. by apply elem_of_sorted_entries.
Qed.

Lemma readable_ids_sub rows : cam_id <$> omap (fun r => match r with inl c => Some c | inr _ => None end) (read_row <$> rows)
  `sublist_of` (fun r : Z * option CameraConfig => match r.2 with Some c => cam_id c | None => r.1 end) <$> rows.
Proof.
  induction rows as [|[i [c|]] rows IH]; simpl; [done|by apply sublist_skip|by apply sublist_cons].
Qed.

(** The list the reconciler reads names each camera once. *)
Lemma readable_nodup t : ids_match t -> NoDup (cam_id <$> (list_readable_cameras t).1).
Proof.
  intros Ht. eapply sublist_NoDup; [|apply readable_ids_sub].
  replace (_ <$> sorted_entries t) with ((sorted_entries t).*1).
  - unfold sorted_entries. rewrite merge_sort_Permutation. apply NoDup_fst_map_to_list.
  - apply list_fmap_ext. intros k [i [c|]] Hr; simpl; [|done]. symmetry. apply Ht.
    apply elem_of_sorted_entries. by eapply list_elem_of_lookup_2.
Qed.
