(* ===== verification/Ingesters.v ===== *)
(** A recorder's camera sessions: the part of the trait [ClipRecorder] ([nexus-pipeline/src/recorder.rs])
    that the engine registers cameras through, and the GStreamer recorder's implementation of it
    ([gst_clip_recorder.rs], with [PreRollIngester] of [preroll_ingester.rs]).

    An ingester is a shared object ([Arc<PreRollIngester>]) with a session to the camera of its own,
    which ends when it is shut down: the recorder keeps a store of ingesters, and its two maps point
    into it. [gst_ok n] says whether GStreamer starts for the [n]th construction. *)
From S2P Require Import Prelude RecordingHealth Types Cameras Stats.
From S2P Require ClipStore.

Inductive RecorderError := Refused | RIo (m : string) | RStore (e : ClipStore.DbError) | UnknownClip (clip : Z).

(** ** The trait *)
Class ClipRecorder (R : Type) := {
  add_camera_ingester : Z -> string -> Z -> Z -> Z -> Z -> CodecKind -> SE R RecorderError unit;
  set_camera_codec_pin : Z -> option CodecKind -> R -> R;
  remove_camera_ingester : Z -> R -> R;
  set_camera_analysis_ingester : Z -> option string -> Z -> Z -> Z -> CodecKind -> SE R RecorderError unit;
  (** The decode-health registry the recorder and the engine share. *)
  decode_health_clear : Z -> R -> R;
}.

(** What the engine counts on: the sessions a camera has ([main_of], [sub_of]) are those last
    registered for it, each call changes its own camera only, and what is removed is gone. A recorder
    without sessions of its own accepts every registration, and has none ([keeps_sessions]). *)
Class ClipRecorderLaws (R : Type) `{ClipRecorder R} := {
  keeps_sessions : bool;
  rec_sound : R -> Prop;
  main_of : R -> Z -> option string;
  sub_of : R -> Z -> option string;
  add_sound : forall c u p f w h k r, rec_sound r -> rec_sound (add_camera_ingester c u p f w h k r).2;
  pin_sound : forall c k r, rec_sound r -> rec_sound (set_camera_codec_pin c k r);
  remove_sound : forall c r, rec_sound r -> rec_sound (remove_camera_ingester c r);
  sub_sound : forall c u f w h k r, rec_sound r -> rec_sound (set_camera_analysis_ingester c u f w h k r).2;
  dh_sound : forall c r, rec_sound r -> rec_sound (decode_health_clear c r);
  add_main : forall c u p f w h k r, rec_sound r -> (add_camera_ingester c u p f w h k r).1 = Ok tt ->
    keeps_sessions = true -> main_of (add_camera_ingester c u p f w h k r).2 c = Some u;
  add_main_or : forall c u p f w h k r, rec_sound r -> let r' := (add_camera_ingester c u p f w h k r).2 in main_of r' c = Some u \/ main_of r' c = main_of r c;
  add_other : forall c u p f w h k r d, rec_sound r -> d <> c -> main_of (add_camera_ingester c u p f w h k r).2 d = main_of r d;
  add_sub : forall c u p f w h k r d, rec_sound r -> sub_of (add_camera_ingester c u p f w h k r).2 d = sub_of r d;
  pin_main : forall c k r d, rec_sound r -> main_of (set_camera_codec_pin c k r) d = main_of r d;
  pin_sub : forall c k r d, rec_sound r -> sub_of (set_camera_codec_pin c k r) d = sub_of r d;
  remove_main : forall c r, rec_sound r -> main_of (remove_camera_ingester c r) c = None;
  remove_other : forall c r d, rec_sound r -> d <> c -> main_of (remove_camera_ingester c r) d = main_of r d;
  remove_sub : forall c r d, rec_sound r -> sub_of (remove_camera_ingester c r) d = sub_of r d;
  sub_main : forall c u f w h k r d, rec_sound r -> main_of (set_camera_analysis_ingester c u f w h k r).2 d = main_of r d;
  sub_none : forall c f w h k r, rec_sound r -> sub_of (set_camera_analysis_ingester c None f w h k r).2 c = None;
  sub_some : forall c u f w h k r, rec_sound r -> let r' := (set_camera_analysis_ingester c (Some u) f w h k r).2 in
    sub_of r' c = Some u \/ sub_of r' c = sub_of r c;
  sub_ok : forall c u f w h k r, rec_sound r -> (set_camera_analysis_ingester c (Some u) f w h k r).1 = Ok tt ->
    keeps_sessions = true -> sub_of (set_camera_analysis_ingester c (Some u) f w h k r).2 c = Some u;
  sub_other : forall c u f w h k r d, rec_sound r -> d <> c -> sub_of (set_camera_analysis_ingester c u f w h k r).2 d = sub_of r d;
  dh_main : forall c r d, main_of (decode_health_clear c r) d = main_of r d;
  dh_sub : forall c r d, sub_of (decode_health_clear c r) d = sub_of r d;
}.

(** ** The GStreamer recorder *)
Record Ingester := mkIngester {
  i_camera : Z;
  i_url : string;
  i_codec : CodecKind;
  codec_pin : option CodecKind;
  i_pre_roll : Z;
  i_max_fps : Z;
  rgb_dims : Z * Z;
  delivered : bool;
  is_shutdown : bool;
}.

(** The maps of the recorder and the store they point into. *)
Record GstRecorder := mkGst {
  ingesters : gmap Z nat;
  analysis_ingesters : gmap Z nat;
  store : gmap nat Ingester;
  built : nat;
  decode_health : DecodeHealthMap;
  recording_health : RecordingHealth.Registry;
  alert_inflight : gmap Z Z;
  alert_box_timelines : gset Z;
}.

Definition gst_new : GstRecorder := mkGst ∅ ∅ ∅ 0 decode_new empty_registry ∅ ∅.

Section gst_recorder.
Context (gst_ok : nat -> bool).

Definition set_main (f : gmap Z nat -> gmap Z nat) (r : GstRecorder) : GstRecorder :=
  mkGst (f (ingesters r)) (analysis_ingesters r) (store r) (built r) (decode_health r) (recording_health r) (alert_inflight r) (alert_box_timelines r).
Definition set_analysis (f : gmap Z nat -> gmap Z nat) (r : GstRecorder) : GstRecorder :=
  mkGst (ingesters r) (f (analysis_ingesters r)) (store r) (built r) (decode_health r) (recording_health r) (alert_inflight r) (alert_box_timelines r).
Definition on_store (f : gmap nat Ingester -> gmap nat Ingester) (r : GstRecorder) : GstRecorder :=
  mkGst (ingesters r) (analysis_ingesters r) (f (store r)) (built r) (decode_health r) (recording_health r) (alert_inflight r) (alert_box_timelines r).
Definition on_health (f : DecodeHealthMap -> DecodeHealthMap) (r : GstRecorder) : GstRecorder :=
  mkGst (ingesters r) (analysis_ingesters r) (store r) (built r) (f (decode_health r)) (recording_health r) (alert_inflight r) (alert_box_timelines r).

(** [PreRollIngester::build]: the frame rate of the tap is 15 where none is set. *)
Definition new_with_rgb (cam : Z) (u : string) (pre_roll : Z) (codec : CodecKind) (fps w h : Z) (r : GstRecorder) :
    option (nat * GstRecorder) :=
  if gst_ok (built r)
  then Some (built r,
    mkGst (ingesters r) (analysis_ingesters r)
      (<[built r := mkIngester cam u codec None pre_roll (if fps =? 0 then 15 else fps) (w, h) false false]> (store r))
      (S (built r)) (decode_begin_session cam (decode_health r)) (recording_health r) (alert_inflight r) (alert_box_timelines r))
  else None.

(** The clock of constructions moves on a failure too. *)
Definition failed (r : GstRecorder) : GstRecorder :=
  mkGst (ingesters r) (analysis_ingesters r) (store r) (S (built r)) (decode_health r) (recording_health r) (alert_inflight r) (alert_box_timelines r).

Definition shutdown_ingester (i : Ingester) : Ingester :=
  mkIngester (i_camera i) (i_url i) (i_codec i) (codec_pin i) (i_pre_roll i) (i_max_fps i) (rgb_dims i) (delivered i) true.
Definition shutdown (l : nat) : GstRecorder -> GstRecorder := on_store (alter shutdown_ingester l).

Definition shutdown_opt (l : option nat) (r : GstRecorder) : GstRecorder := match l with Some l => shutdown l r | None => r end.

Definition pin_ingester (k : option CodecKind) (i : Ingester) : Ingester :=
  mkIngester (i_camera i) (i_url i) (i_codec i) k (i_pre_roll i) (i_max_fps i) (rgb_dims i) (delivered i) (is_shutdown i).
Definition set_codec_pin (k : option CodecKind) (l : nat) : GstRecorder -> GstRecorder := on_store (alter (pin_ingester k) l).

Definition deliver_ingester (i : Ingester) : Ingester :=
  mkIngester (i_camera i) (i_url i) (i_codec i) (codec_pin i) (i_pre_roll i) (i_max_fps i) (rgb_dims i) true (is_shutdown i).
Definition mark_delivered (l : nat) : GstRecorder -> GstRecorder := on_store (alter deliver_ingester l).

Definition ingester_of (m : gmap Z nat) (cam : Z) (r : GstRecorder) : option Ingester := m !! cam ≫= fun l => store r !! l.

Definition same_stream (u : string) (codec : CodecKind) (i : Ingester) : bool :=
  str_eqb (i_url i) u && bool_decide (i_codec i = codec).

Definition gst_add (cam : Z) (u : string) (pre_roll fps w h : Z) (codec : CodecKind) : SE GstRecorder RecorderError unit := fun r =>
  if match ingester_of (ingesters r) cam r with Some i => same_stream u codec i | None => false end then (Ok tt, r)
  else match new_with_rgb cam u pre_roll codec fps w h r with
  | None => (Err (RIo "ingester"), failed r)
  | Some (l, r1) => (Ok tt, shutdown_opt (ingesters r1 !! cam) (set_main (insert cam l) r1))
  end.

Definition gst_pin (cam : Z) (k : option CodecKind) (r : GstRecorder) : GstRecorder :=
  match ingesters r !! cam with Some l => set_codec_pin k l r | None => r end.

Definition forget_camera (cam : Z) (r : GstRecorder) : GstRecorder :=
  mkGst (ingesters r) (analysis_ingesters r) (store r) (built r) (decode_health r)
    (RecordingHealth.remove (recording_health r) cam) (delete cam (alert_inflight r)) (alert_box_timelines r ∖ {[cam]}).

Definition gst_remove (cam : Z) (r : GstRecorder) : GstRecorder :=
  shutdown_opt (ingesters r !! cam) (set_main (delete cam) (forget_camera cam r)).

Definition live_analysis_ingester (cam : Z) (r : GstRecorder) : option nat :=
  match analysis_ingesters r !! cam with
  | Some l => match store r !! l with Some i => if is_shutdown i then None else Some l | None => None end
  | None => None
  end.

Definition gst_analysis (cam : Z) (u : option string) (fps w h : Z) (codec : CodecKind) : SE GstRecorder RecorderError unit := fun r =>
  match u with
  | None =>
      match analysis_ingesters r !! cam with
      | Some prev => (Ok tt, on_health (decode_reset cam) (shutdown prev (set_analysis (delete cam) r)))
      | None => (Ok tt, r)
      end
  | Some u =>
      let existing := ingester_of (analysis_ingesters r) cam r in
      let same := match existing with Some i => same_stream u codec i | None => false end in
      if same && match existing with Some i => negb (is_shutdown i) | None => false end then (Ok tt, r)
      else
        let '(w, h) := match ingester_of (ingesters r) cam r with Some main => rgb_dims main | None => (w, h) end in
        match new_with_rgb cam u 0 codec fps w h r with
        | None => (Err (RIo "analysis ingester"), failed r)
        | Some (l, r1) =>
            let r2 := shutdown_opt (analysis_ingesters r1 !! cam) (set_analysis (insert cam l) r1) in
            (Ok tt, if same then r2 else on_health (decode_reset cam) r2)
        end
  end.

(** One tap rebuilt at a new frame. *)
Definition resize_tap (analysis : bool) (cam w h : Z) : SE GstRecorder RecorderError bool := fun r =>
  let taps := if analysis then analysis_ingesters r else ingesters r in
  match ingester_of taps cam r with
  | None => (Ok false, r)
  | Some i =>
      if bool_decide (rgb_dims i = (w, h)) then (Ok false, r)
      else match new_with_rgb cam (i_url i) (i_pre_roll i) (i_codec i) (i_max_fps i) w h r with
      | None => (Err (RIo "ingester"), failed r)
      | Some (l, r1) =>
          let r2 := if delivered i then mark_delivered l r1 else r1 in
          let r3 := set_codec_pin (codec_pin i) l r2 in
          (Ok true, shutdown_opt (taps !! cam) ((if analysis then set_analysis else set_main) (insert cam l) r3))
      end
  end.

Definition resize_camera_rgb_tap (cam w h : Z) : SE GstRecorder RecorderError bool :=
  main ← resize_tap false cam w h;
  live ← gets (live_analysis_ingester cam);
  analysis ← (if is_some live then resize_tap true cam w h else mret false);
  mret (main || analysis).

(** The SPEC-069 fallback shuts a substream session down and leaves it in the map. *)
Definition fall_back (cam : Z) (r : GstRecorder) : GstRecorder := shutdown_opt (analysis_ingesters r !! cam) r.

#[local] Instance gst_recorder : ClipRecorder GstRecorder := {|
  add_camera_ingester := gst_add;
  set_camera_codec_pin := gst_pin;
  remove_camera_ingester := gst_remove;
  set_camera_analysis_ingester := gst_analysis;
  decode_health_clear c := on_health (decode_clear c);
|}.

(** ** Every live session is in a map *)
Record gst_sound (r : GstRecorder) : Prop := {
  gs_store : forall l i, store r !! l = Some i -> (l < built r)%nat;
  gs_main : forall c l, ingesters r !! c = Some l -> exists i, store r !! l = Some i /\ i_camera i = c /\ is_shutdown i = false;
  gs_analysis : forall c l, analysis_ingesters r !! c = Some l -> exists i, store r !! l = Some i /\ i_camera i = c;
  gs_disjoint : forall c d l, ingesters r !! c = Some l -> analysis_ingesters r !! d <> Some l;
  gs_live : forall l i, store r !! l = Some i -> is_shutdown i = false ->
    ingesters r !! i_camera i = Some l \/ analysis_ingesters r !! i_camera i = Some l;
}.

Definition taps (a : bool) (r : GstRecorder) : gmap Z nat := if a then analysis_ingesters r else ingesters r.

(** A new ingester in the place of the one before it. *)
Definition install (a : bool) (cam : Z) (i : Ingester) (r : GstRecorder) : GstRecorder :=
  shutdown_opt (taps a r !! cam)
    ((if a then set_analysis else set_main) (insert cam (built r))
      (mkGst (ingesters r) (analysis_ingesters r) (<[built r := i]> (store r)) (S (built r))
        (decode_begin_session cam (decode_health r)) (recording_health r) (alert_inflight r) (alert_box_timelines r))).

(** One that is taken out. *)
Definition uninstall (a : bool) (cam : Z) (r : GstRecorder) : GstRecorder :=
  shutdown_opt (taps a r !! cam) ((if a then set_analysis else set_main) (delete cam) r).

Lemma shutdown_opt_maps o r : ingesters (shutdown_opt o r) = ingesters r /\ analysis_ingesters (shutdown_opt o r) = analysis_ingesters r /\ built (shutdown_opt o r) = built r.
Proof. by destruct o. Qed.

Lemma shutdown_opt_store o r l : store (shutdown_opt o r) !! l = if bool_decide (o = Some l) then shutdown_ingester <$> store r !! l else store r !! l.
Proof.
  destruct o as [l'|]; simpl; [|done]. destruct (decide (l' = l)) as [->|Hl]; [rewrite bool_decide_true by done; apply lookup_alter_eq|].
  rewrite bool_decide_false by congruence. by apply lookup_alter_ne.
Qed.

Lemma taps_camera a r c l : gst_sound r -> taps a r !! c = Some l -> exists i, store r !! l = Some i /\ i_camera i = c.
Proof. intros Hr Hl. destruct a; simpl in Hl; [by apply gs_analysis|]. destruct (gs_main r Hr c l Hl) as (i & ? & ? & _). eauto. Qed.

Lemma taps_distinct a b r c d l : gst_sound r -> taps a r !! c = Some l -> taps b r !! d = Some l -> a = b /\ c = d.
Proof.
  intros Hr Hc Hd. split.
  - destruct a, b; simpl in *; [done| | |done]; exfalso; [by apply (gs_disjoint r Hr d c l)|by apply (gs_disjoint r Hr c d l)].
  - destruct (taps_camera a r c l Hr Hc) as (i & E & <-). destruct (taps_camera b r d l Hr Hd) as (j & E' & <-). congruence.
Qed.

Lemma taps_built a r c l : gst_sound r -> taps a r !! c = Some l -> (l < built r)%nat.
Proof. intros Hr Hl. destruct (taps_camera a r c l Hr Hl) as (i & E & _). by eapply gs_store. Qed.

Lemma install_taps a b cam i r : taps b (install a cam i r) = if bool_decide (a = b) then <[cam := built r]> (taps b r) else taps b r.
Proof. unfold install. destruct (shutdown_opt_maps (taps a r !! cam) ((if a then set_analysis else set_main) (insert cam (built r))
      (mkGst (ingesters r) (analysis_ingesters r) (<[built r := i]> (store r)) (S (built r))
        (decode_begin_session cam (decode_health r)) (recording_health r) (alert_inflight r) (alert_box_timelines r)))) as (E1 & E2 & _).
  destruct a, b; simpl in *; [exact E2|exact E1|exact E2|exact E1].
Qed.

Lemma install_store a cam i r l : gst_sound r ->
  store (install a cam i r) !! l = if bool_decide (l = built r) then Some i
    else if bool_decide (taps a r !! cam = Some l) then shutdown_ingester <$> store r !! l else store r !! l.
Proof.
  intros Hr. unfold install. rewrite shutdown_opt_store.
  assert (store ((if a then set_analysis else set_main) (insert cam (built r))
      (mkGst (ingesters r) (analysis_ingesters r) (<[built r := i]> (store r)) (S (built r))
        (decode_begin_session cam (decode_health r)) (recording_health r) (alert_inflight r) (alert_box_timelines r))) = <[built r := i]> (store r)) as -> by by destruct a.
  destruct (decide (l = built r)) as [->|Hl].
  - rewrite (bool_decide_true (built r = built r)) by done. rewrite lookup_insert_eq, bool_decide_false; [done|].
    intros E. apply taps_built in E; [lia|done].
  - rewrite (bool_decide_false (l = built r)) by done. by rewrite lookup_insert_ne.
Qed.

Lemma install_built a cam i r : built (install a cam i r) = S (built r).
Proof. unfold install. by destruct (taps a r !! cam), a. Qed.

(** A map of the new state points to an old ingester it does not replace, or to the new one. *)
Lemma install_lookup a b cam i r d l : gst_sound r -> taps b (install a cam i r) !! d = Some l ->
  (a = b /\ d = cam /\ l = built r) \/ (~ (a = b /\ d = cam) /\ taps b r !! d = Some l /\ store (install a cam i r) !! l = store r !! l).
Proof.
  intros Hr. rewrite install_taps. intros Hl.
  assert (~ (a = b /\ d = cam) -> taps b r !! d = Some l -> store (install a cam i r) !! l = store r !! l) as Hs.
  { intros Hn Ht. rewrite install_store by done. pose proof (taps_built _ _ _ _ Hr Ht). rewrite bool_decide_false by lia.
    clear Hl. case_bool_decide as Hc; [|done]. destruct (taps_distinct _ _ _ _ _ _ Hr Ht Hc) as [-> ->]. exfalso. by apply Hn. }
  case_bool_decide as Hab; [|right; split; [tauto|split; [done|apply Hs; tauto]]].
  destruct (decide (d = cam)) as [->|Hd]; [left; rewrite lookup_insert_eq in Hl; by injection Hl as <-|].
  rewrite lookup_insert_ne in Hl by done. right. split; [tauto|split; [done|apply Hs; tauto]].
Qed.

Lemma install_sound a cam i r : gst_sound r -> i_camera i = cam -> is_shutdown i = false -> gst_sound (install a cam i r).
Proof.
  intros Hr Hi Hs. split.
  - intros l j. rewrite install_store, install_built by done. case_bool_decide as Hl; [lia|].
    intros E. assert (is_Some (store r !! l)) as [j' Ej]; [|apply gs_store in Ej; [lia|done]].
    case_bool_decide; [|by eexists]. by destruct (store r !! l).
  - intros c l Hl. destruct (install_lookup a false cam i r c l Hr Hl) as [(-> & -> & ->)|(_ & Ht & ->)]; [|by apply (gs_main r Hr)].
    exists i. rewrite install_store, bool_decide_true by done. auto.
  - intros c l Hl. destruct (install_lookup a true cam i r c l Hr Hl) as [(-> & -> & ->)|(_ & Ht & ->)]; [|by apply (gs_analysis r Hr)].
    exists i. rewrite install_store, bool_decide_true by done. auto.
  - intros c d l Hc Hd. destruct (install_lookup a false cam i r c l Hr Hc) as [(-> & -> & ->)|(_ & Ht & _)], (install_lookup _ true cam i r d _ Hr Hd) as [(E & -> & E2)|(_ & Ht' & _)].
    + done.
    + apply (taps_built true) in Ht'; [lia|done].
    + subst l. apply (taps_built false) in Ht; [lia|done].
    + by eapply (gs_disjoint r Hr).
  - intros l j. rewrite install_store by done. case_bool_decide as Hl.
    + intros [= <-] _. subst l. rewrite Hi. destruct a; [right|left].
      * change (taps true (install true cam i r) !! cam = Some (built r)). rewrite install_taps. simpl. by rewrite lookup_insert_eq.
      * change (taps false (install false cam i r) !! cam = Some (built r)). rewrite install_taps. simpl. by rewrite lookup_insert_eq.
    + case_bool_decide as Ho; [by destruct (store r !! l); intros [= <-]|]. intros E Hj.
      assert (forall b, taps b r !! i_camera j = Some l -> taps b (install a cam i r) !! i_camera j = Some l) as Hk.
      { intros b Hb. rewrite install_taps. case_bool_decide as Hab; [|done]. subst b. rewrite lookup_insert_ne; [done|]. intros ->. done. }
      destruct (gs_live r Hr l j E Hj) as [H1|H1]; [left; by apply (Hk false)|right; by apply (Hk true)].
Qed.

Lemma uninstall_taps a b cam r : taps b (uninstall a cam r) = if bool_decide (a = b) then delete cam (taps b r) else taps b r.
Proof.
  unfold uninstall. destruct (shutdown_opt_maps (taps a r !! cam) ((if a then set_analysis else set_main) (delete cam) r)) as (E1 & E2 & _).
  destruct a, b; simpl in *; [exact E2|exact E1|exact E2|exact E1].
Qed.

Lemma uninstall_store a cam r l : store (uninstall a cam r) !! l = if bool_decide (taps a r !! cam = Some l) then shutdown_ingester <$> store r !! l else store r !! l.
Proof. unfold uninstall. rewrite shutdown_opt_store. by destruct a. Qed.

Lemma uninstall_lookup a b cam r d l : gst_sound r -> taps b (uninstall a cam r) !! d = Some l ->
  ~ (a = b /\ d = cam) /\ taps b r !! d = Some l /\ store (uninstall a cam r) !! l = store r !! l.
Proof.
  intros Hr. rewrite uninstall_taps. intros Hl.
  assert (taps b r !! d = Some l /\ ~ (a = b /\ d = cam)) as [Ht Hn].
  { case_bool_decide as Hab; [|split; [done|tauto]]. apply lookup_delete_Some in Hl as [Hd Hl]. split; [done|]. by intros [_ ->]. }
  clear Hl. split; [done|split; [done|]]. rewrite uninstall_store. case_bool_decide as Hc; [|done].
  destruct (taps_distinct _ _ _ _ _ _ Hr Ht Hc) as [-> ->]. exfalso. by apply Hn.
Qed.

Lemma uninstall_sound a cam r : gst_sound r -> gst_sound (uninstall a cam r).
Proof.
  intros Hr. split.
  - intros l j. rewrite uninstall_store. assert (built (uninstall a cam r) = built r) as -> by (unfold uninstall; by destruct (taps a r !! cam), a).
    intros E. assert (is_Some (store r !! l)) as [j' Ej]; [|by apply gs_store in Ej]. case_bool_decide; [|by eexists]. by destruct (store r !! l).
  - intros c l Hl. destruct (uninstall_lookup a false cam r c l Hr Hl) as (_ & Ht & ->). by apply (gs_main r Hr).
  - intros c l Hl. destruct (uninstall_lookup a true cam r c l Hr Hl) as (_ & Ht & ->). by apply (gs_analysis r Hr).
  - intros c d l Hc Hd. apply (uninstall_lookup a false) in Hc as (_ & Hc & _); [|done]. apply (uninstall_lookup a true) in Hd as (_ & Hd & _); [|done].
    by eapply (gs_disjoint r Hr).
  - intros l j. rewrite uninstall_store. case_bool_decide as Ho; [by destruct (store r !! l); intros [= <-]|]. intros E Hj.
    assert (forall b, taps b r !! i_camera j = Some l -> taps b (uninstall a cam r) !! i_camera j = Some l) as Hk.
    { intros b Hb. rewrite uninstall_taps. case_bool_decide as Hab; [|done]. subst b. rewrite lookup_delete_ne; [done|]. intros ->. done. }
    destruct (gs_live r Hr l j E Hj) as [H1|H1]; [left; by apply (Hk false)|right; by apply (Hk true)].
Qed.

(** ** What a camera's sessions are after each call *)

(** The stream a camera's live session reads: the main one, or the substream's. *)
Definition view (a : bool) (r : GstRecorder) (c : Z) : option string :=
  i ← ingester_of (taps a r) c r; if is_shutdown i then None else Some (i_url i).

Lemma view_install a b cam i r d : gst_sound r -> is_shutdown i = false ->
  view b (install a cam i r) d = if bool_decide (a = b /\ d = cam) then Some (i_url i) else view b r d.
Proof.
  intros Hr Hi. unfold view, ingester_of. destruct (taps b (install a cam i r) !! d) as [l|] eqn:E.
  - destruct (install_lookup a b cam i r d l Hr E) as [(-> & -> & ->)|(Hn & Ht & Hs)].
    + rewrite bool_decide_true by done. simpl. rewrite install_store, bool_decide_true by done. simpl. by rewrite Hi.
    + rewrite bool_decide_false by done. simpl. by rewrite Hs, Ht.
  - rewrite install_taps in E. case_bool_decide as Hab.
    + destruct (decide (d = cam)) as [->|Hd]; [by rewrite lookup_insert_eq in E|]. rewrite lookup_insert_ne in E by done.
      rewrite bool_decide_false by tauto. by rewrite E.
    + rewrite bool_decide_false by tauto. by rewrite E.
Qed.

Lemma view_uninstall a b cam r d : gst_sound r ->
  view b (uninstall a cam r) d = if bool_decide (a = b /\ d = cam) then None else view b r d.
Proof.
  intros Hr. unfold view, ingester_of. destruct (taps b (uninstall a cam r) !! d) as [l|] eqn:E.
  - destruct (uninstall_lookup a b cam r d l Hr E) as (Hn & Ht & Hs). rewrite bool_decide_false by done. simpl. by rewrite Hs, Ht.
  - rewrite uninstall_taps in E. case_bool_decide as Hab.
    + destruct (decide (d = cam)) as [->|Hd]; [by rewrite bool_decide_true|]. rewrite lookup_delete_ne in E by done.
      rewrite bool_decide_false by tauto. by rewrite E.
    + rewrite bool_decide_false by tauto. by rewrite E.
Qed.

(** A change of an ingester that keeps its camera, its stream and whether it lives. *)
Lemma alter_sound f l r : (forall i, i_camera (f i) = i_camera i /\ is_shutdown (f i) = is_shutdown i) ->
  gst_sound r -> gst_sound (on_store (alter f l) r).
Proof.
  intros Hf Hr. assert (forall l' i, store (on_store (alter f l) r) !! l' = Some i ->
    exists j, store r !! l' = Some j /\ i_camera j = i_camera i /\ is_shutdown j = is_shutdown i) as Hback.
  { intros l' i. simpl. destruct (decide (l = l')) as [->|Hl]; [rewrite lookup_alter_eq|rewrite lookup_alter_ne by done; by eauto].
    destruct (store r !! l') as [j|]; intros [= <-]. exists j. destruct (Hf j). auto. }
  assert (forall l' j, store r !! l' = Some j -> exists i, store (on_store (alter f l) r) !! l' = Some i /\ i_camera i = i_camera j /\ is_shutdown i = is_shutdown j) as Hforth.
  { intros l' j E. simpl. destruct (decide (l = l')) as [->|Hl]; [rewrite lookup_alter_eq, E|rewrite lookup_alter_ne by done; by eauto].
    exists (f j). destruct (Hf j). auto. }
  split.
  - intros l' i Hi. destruct (Hback _ _ Hi) as (j & Hj & _). by apply (gs_store r Hr l' j).
  - intros c l' Hl'. destruct (gs_main r Hr c l' Hl') as (j & Hj & Hc & Hd). destruct (Hforth _ _ Hj) as (i & Hi & Hc' & Hd'). exists i. split_and!; congruence.
  - intros c l' Hl'. destruct (gs_analysis r Hr c l' Hl') as (j & Hj & Hc). destruct (Hforth _ _ Hj) as (i & Hi & Hc' & _). exists i. split_and!; congruence.
  - apply (gs_disjoint r Hr).
  - intros l' i Hi Hd. destruct (Hback _ _ Hi) as (j & Hj & <- & Hd'). apply (gs_live r Hr l' j Hj). congruence.
Qed.

Lemma view_alter a f l r c : (forall i, i_url (f i) = i_url i /\ is_shutdown (f i) = is_shutdown i) ->
  view a (on_store (alter f l) r) c = view a r c.
Proof.
  intros Hf. unfold view, ingester_of. assert (taps a (on_store (alter f l) r) = taps a r) as -> by by destruct a.
  destruct (taps a r !! c) as [l'|]; [|done]. simpl. destruct (decide (l = l')) as [->|Hl]; [rewrite lookup_alter_eq|by rewrite lookup_alter_ne].
  destruct (store r !! l') as [i|]; [|done]. simpl. by destruct (Hf i) as [-> ->].
Qed.

Lemma failed_sound r : gst_sound r -> gst_sound (failed r).
Proof. intros Hr. split; [|apply (gs_main r Hr)|apply (gs_analysis r Hr)|apply (gs_disjoint r Hr)|apply (gs_live r Hr)]. intros l i E. simpl. pose proof (gs_store r Hr l i E). lia. Qed.

Lemma health_sound f r : gst_sound r -> gst_sound (on_health f r).
Proof. intros Hr. split; [apply (gs_store r Hr)|apply (gs_main r Hr)|apply (gs_analysis r Hr)|apply (gs_disjoint r Hr)|apply (gs_live r Hr)]. Qed.

Lemma forget_sound c r : gst_sound r -> gst_sound (forget_camera c r).
Proof. intros Hr. split; [apply (gs_store r Hr)|apply (gs_main r Hr)|apply (gs_analysis r Hr)|apply (gs_disjoint r Hr)|apply (gs_live r Hr)]. Qed.

Lemma view_same_maps a r r' c : ingesters r' = ingesters r -> analysis_ingesters r' = analysis_ingesters r -> store r' = store r -> view a r' c = view a r c.
Proof. intros E1 E2 E3. unfold view, ingester_of. rewrite E3. destruct a; simpl; [by rewrite E2|by rewrite E1]. Qed.

(** What one registration can do. *)
Inductive registered (a : bool) (cam : Z) (u : string) (r : GstRecorder) : result unit RecorderError * GstRecorder -> Prop :=
| registered_running : view a r cam = Some u -> registered a cam u r (Ok tt, r)
| registered_failed m : registered a cam u r (Err (RIo m), failed r)
| registered_new i f : i_camera i = cam -> i_url i = u -> is_shutdown i = false -> registered a cam u r (Ok tt, on_health f (install a cam i r)).

Lemma same_stream_url u k i : same_stream u k i = true -> i_url i = u.
Proof. unfold same_stream, str_eqb. rewrite andb_true_iff. intros [H _]. by apply bool_decide_eq_true in H. Qed.

Lemma on_health_id r : on_health (fun h => h) r = r.
Proof. by destruct r. Qed.

Lemma gst_add_spec cam u p f w h k r : gst_sound r -> registered false cam u r (gst_add cam u p f w h k r).
Proof.
  intros Hr. unfold gst_add. destruct (ingester_of (ingesters r) cam r) as [i|] eqn:E; [destruct (same_stream u k i) eqn:Es|].
  - constructor. unfold view. simpl taps. rewrite E. simpl. unfold ingester_of in E.
    destruct (ingesters r !! cam) as [l|] eqn:El; [|done]. simpl in E. destruct (gs_main r Hr cam l El) as (j & Ej & _ & Hj).
    assert (i = j) as -> by congruence. rewrite Hj. by rewrite (same_stream_url u k j).
  - unfold new_with_rgb. destruct (gst_ok (built r)); [|constructor].
    rewrite <- (on_health_id (shutdown_opt _ _)). by eapply (registered_new false cam u r (mkIngester _ _ _ _ _ _ _ _ _) (fun x => x)).
  - unfold new_with_rgb. destruct (gst_ok (built r)); [|constructor].
    rewrite <- (on_health_id (shutdown_opt _ _)). by eapply (registered_new false cam u r (mkIngester _ _ _ _ _ _ _ _ _) (fun x => x)).
Qed.

Lemma gst_analysis_spec cam u f w h k r : gst_sound r -> registered true cam u r (gst_analysis cam (Some u) f w h k r).
Proof.
  intros Hr. unfold gst_analysis.
  set (same := match ingester_of (analysis_ingesters r) cam r with Some i => same_stream u k i | None => false end).
  destruct (same && _) eqn:Es.
  - apply andb_true_iff in Es as [E1 E2]. constructor. unfold view. simpl taps. subst same. destruct (ingester_of (analysis_ingesters r) cam r) as [i|]; [|done].
    simpl. apply negb_true_iff in E2. rewrite E2. by rewrite (same_stream_url u k i).
  - destruct (match ingester_of (ingesters r) cam r with Some main => rgb_dims main | None => (w, h) end) as [w' h'].
    unfold new_with_rgb. destruct (gst_ok (built r)); [|constructor]. destruct same.
    + rewrite <- (on_health_id (shutdown_opt _ _)). by eapply (registered_new true cam u r (mkIngester _ _ _ _ _ _ _ _ _) (fun x => x)).
    + by eapply (registered_new true cam u r (mkIngester _ _ _ _ _ _ _ _ _) (decode_reset cam)).
Qed.

Lemma registered_sound a cam u r out : gst_sound r -> registered a cam u r out -> gst_sound out.2.
Proof. intros Hr Ho. destruct Ho as [Hv|m|i f Hi Hu Hs]; simpl; [done|by apply failed_sound|by apply health_sound, install_sound]. Qed.

Lemma registered_view a b cam u r out d : gst_sound r -> registered a cam u r out ->
  view b out.2 d = view b r d \/ (a = b /\ d = cam /\ view b out.2 d = Some u).
Proof.
  intros Hr Ho. destruct Ho as [Hv|m|i f Hi Hu Hs]; simpl; [by left|left; by apply view_same_maps|].
  assert (view b (on_health f (install a cam i r)) d = view b (install a cam i r) d) as -> by by apply view_same_maps.
  rewrite view_install by done. case_bool_decide as Hc; [|by left]. right. destruct Hc. subst. auto.
Qed.

Lemma registered_ok a cam u r out : gst_sound r -> registered a cam u r out -> out.1 = Ok tt -> view a out.2 cam = Some u.
Proof.
  intros Hr Ho. destruct Ho as [Hv|m|i f Hi Hu Hs]; simpl; [done|done|]. intros _.
  assert (view a (on_health f (install a cam i r)) cam = view a (install a cam i r) cam) as -> by by apply view_same_maps.
  rewrite view_install, bool_decide_true by done. by rewrite Hu.
Qed.

Lemma gst_remove_uninstall cam r : gst_remove cam r = uninstall false cam (forget_camera cam r).
Proof. done. Qed.

Lemma gst_analysis_none cam f w h k r : (gst_analysis cam None f w h k r).2 = r /\ analysis_ingesters r !! cam = None \/
  (gst_analysis cam None f w h k r).2 = on_health (decode_reset cam) (uninstall true cam r).
Proof. unfold gst_analysis, uninstall. simpl. destruct (analysis_ingesters r !! cam) as [l|]; [by right|by left]. Qed.

Lemma gst_analysis_none_sound cam f w h k r : gst_sound r -> gst_sound (gst_analysis cam None f w h k r).2.
Proof. intros Hr. destruct (gst_analysis_none cam f w h k r) as [[-> _]| ->]; [done|by apply health_sound, uninstall_sound]. Qed.

Lemma gst_analysis_none_view cam f w h k r b d : gst_sound r ->
  view b (gst_analysis cam None f w h k r).2 d = if bool_decide (true = b /\ d = cam) then None else view b r d.
Proof.
  intros Hr. destruct (gst_analysis_none cam f w h k r) as [[-> E]| ->].
  - case_bool_decide as Hc; [|done]. destruct Hc as [<- ->]. unfold view, ingester_of. simpl. by rewrite E.
  - transitivity (view b (uninstall true cam r) d); [by apply view_same_maps|by apply view_uninstall].
Qed.

Lemma gst_pin_sound cam k r : gst_sound r -> gst_sound (gst_pin cam k r).
Proof. intros Hr. unfold gst_pin. destruct (ingesters r !! cam); [|done]. by apply alter_sound. Qed.

Lemma gst_pin_view a cam k r c : view a (gst_pin cam k r) c = view a r c.
Proof. unfold gst_pin. destruct (ingesters r !! cam); [|done]. by apply view_alter. Qed.

#[local] Arguments gst_analysis : simpl never.
#[local] Arguments gst_add : simpl never.

#[local] Instance gst_laws : ClipRecorderLaws GstRecorder.
Proof.
  refine {| keeps_sessions := true; rec_sound := gst_sound; main_of := view false; sub_of := view true |}; simpl.
  - intros. by eapply registered_sound, gst_add_spec.
  - intros. by apply gst_pin_sound.
  - intros. rewrite gst_remove_uninstall. by apply uninstall_sound, forget_sound.
  - intros c [u|] ? ? ? ? ? ?; [by eapply registered_sound, gst_analysis_spec|by apply gst_analysis_none_sound].
  - intros. by apply health_sound.
  - intros c u p f w h k r Hr Ho _. by eapply registered_ok, Ho; [|apply gst_add_spec].
  - intros c u p f w h k r Hr. destruct (registered_view false false c u r _ c Hr (gst_add_spec c u p f w h k r Hr)) as [E|(_ & _ & E)]; auto.
  - intros c u p f w h k r d Hr Hd. by destruct (registered_view false false c u r _ d Hr (gst_add_spec c u p f w h k r Hr)) as [E|(_ & ? & _)].
  - intros c u p f w h k r d Hr. by destruct (registered_view false true c u r _ d Hr (gst_add_spec c u p f w h k r Hr)) as [E|(? & _)].
  - intros. apply gst_pin_view.
  - intros. apply gst_pin_view.
  - intros c r Hr. rewrite gst_remove_uninstall, view_uninstall by by apply forget_sound. by rewrite bool_decide_true.
  - intros c r d Hr Hd. rewrite gst_remove_uninstall, view_uninstall by by apply forget_sound. rewrite bool_decide_false by tauto. by apply view_same_maps.
  - intros c r d Hr. rewrite gst_remove_uninstall, view_uninstall by by apply forget_sound. rewrite bool_decide_false by by intros []. by apply view_same_maps.
  - intros c [u|] f w h k r d Hr.
    + by destruct (registered_view true false c u r _ d Hr (gst_analysis_spec c u f w h k r Hr)) as [E|(? & _)].
    + rewrite gst_analysis_none_view by done. by rewrite bool_decide_false by by intros [].
  - intros. rewrite gst_analysis_none_view by done. by rewrite bool_decide_true.
  - intros c u f w h k r Hr. destruct (registered_view true true c u r _ c Hr (gst_analysis_spec c u f w h k r Hr)) as [E|(_ & _ & E)]; auto.
  - intros c u f w h k r Hr Ho _. by eapply registered_ok, Ho; [|apply gst_analysis_spec].
  - intros c [u|] f w h k r d Hr Hd.
    + by destruct (registered_view true true c u r _ d Hr (gst_analysis_spec c u f w h k r Hr)) as [E|(_ & ? & _)].
    + rewrite gst_analysis_none_view by done. by rewrite bool_decide_false by tauto.
  - intros. by apply view_same_maps.
  - intros. by apply view_same_maps.
Defined.

(** ** Runs *)

(** One tap rebuilt: nothing, a failed construction, or a new ingester of the same stream. *)
Lemma resize_tap_spec a cam w h r : gst_sound r ->
  (resize_tap a cam w h r).2 = r \/ (resize_tap a cam w h r).2 = failed r \/
  exists i j, ingester_of (taps a r) cam r = Some i /\ i_camera j = cam /\ i_url j = i_url i /\ is_shutdown j = false /\ rgb_dims j = (w, h) /\
    (resize_tap a cam w h r).2 = install a cam j r.
Proof.
  intros Hr. unfold resize_tap. replace (if a then analysis_ingesters r else ingesters r) with (taps a r) by by destruct a.
  destruct (ingester_of (taps a r) cam r) as [i|] eqn:E; [|by left]. case_bool_decide; [by left|]. unfold new_with_rgb.
  destruct (gst_ok (built r)); [|by right; left]. right; right.
  set (new := mkIngester cam (i_url i) (i_codec i) (codec_pin i) (i_pre_roll i) (if i_max_fps i =? 0 then 15 else i_max_fps i) (w, h) (delivered i) false).
  exists i, new. do 5 (split; [done|]). unfold install. simpl snd.
  assert (store r !! built r = None) as Hn.
  { destruct (store r !! built r) as [j|] eqn:Ej; [|done]. apply gs_store in Ej; [lia|done]. }
  destruct a; destruct (delivered i) eqn:Ed; unfold set_codec_pin, mark_delivered, on_store, set_analysis, set_main; simpl;
    rewrite ?alter_insert_eq; subst new; unfold pin_ingester, deliver_ingester; simpl; by rewrite ?Ed.
Qed.

Lemma resize_tap_sound a cam w h r : gst_sound r -> gst_sound (resize_tap a cam w h r).2.
Proof.
  intros Hr. destruct (resize_tap_spec a cam w h r Hr) as [E|[E|(i & j & _ & Hc & _ & Hs & _ & E)]]; rewrite E; [done|by apply failed_sound|by apply install_sound].
Qed.

Lemma resize_sound cam w h r : gst_sound r -> gst_sound (resize_camera_rgb_tap cam w h r).2.
Proof.
  intros Hr. unfold resize_camera_rgb_tap, mbind, se_bind. pose proof (resize_tap_sound false cam w h r Hr) as H1.
  destruct (resize_tap false cam w h r) as [[m|e] r1]; simpl in *; [|done].
  destruct (is_some _); [|done]. pose proof (resize_tap_sound true cam w h r1 H1) as H2.
  by destruct (resize_tap true cam w h r1) as [[n|e] r2].
Qed.

Lemma fall_back_sound cam r : gst_sound r -> gst_sound (fall_back cam r).
Proof.
  intros Hr. unfold fall_back. destruct (analysis_ingesters r !! cam) as [l|] eqn:El; [|done]. simpl.
  assert (forall l', store (shutdown l r) !! l' = if bool_decide (l = l') then shutdown_ingester <$> store r !! l' else store r !! l') as Hs.
  { intros l'. simpl. case_bool_decide as E; [subst; apply lookup_alter_eq|by apply lookup_alter_ne]. }
  split.
  - intros l' i. rewrite Hs. intros E. assert (is_Some (store r !! l')) as [j Ej] by (case_bool_decide; [by destruct (store r !! l')|by eexists]). by apply (gs_store r Hr l' j).
  - intros c l' Hl'. rewrite Hs, bool_decide_false; [by apply (gs_main r Hr)|]. intros ->. by apply (gs_disjoint r Hr c cam l').
  - intros c l' Hl'. destruct (gs_analysis r Hr c l' Hl') as (i & Ei & Hi). rewrite Hs, Ei. case_bool_decide; [by exists (shutdown_ingester i)|eauto].
  - apply (gs_disjoint r Hr).
  - intros l' i. rewrite Hs. case_bool_decide; [by destruct (store r !! l'); intros [= <-]|]. apply (gs_live r Hr).
Qed.

(** The main stream is not touched by the fallback or a resize, and a substream can only end by it. *)
Lemma view_fall_back cam r d : gst_sound r -> view false (fall_back cam r) d = view false r d /\
  (view true (fall_back cam r) d = view true r d \/ view true (fall_back cam r) d = None).
Proof.
  intros Hr. unfold fall_back. destruct (analysis_ingesters r !! cam) as [l|] eqn:El; [|by split; [|left]]. simpl. unfold view, ingester_of.
  split.
  - simpl. destruct (ingesters r !! d) as [l'|] eqn:E; [|done]. simpl. rewrite lookup_alter_ne; [done|]. intros ->. by apply (gs_disjoint r Hr d cam l').
  - simpl. destruct (analysis_ingesters r !! d) as [l'|]; [|by left]. simpl. destruct (decide (l = l')) as [->|Hl]; [|left; by rewrite lookup_alter_ne].
    right. rewrite lookup_alter_eq. by destruct (store r !! l').
Qed.

Inductive GstOp :=
| GAdd (cam : Z) (u : string) (pre_roll fps w h : Z) (codec : CodecKind)
| GPin (cam : Z) (k : option CodecKind)
| GRemove (cam : Z)
| GAnalysis (cam : Z) (u : option string) (fps w h : Z) (codec : CodecKind)
| GResize (cam w h : Z)
| GFallBack (cam : Z)
| GDelivered (l : nat)
| GClearHealth (cam : Z).

#[local] Instance gst_machine : Machine GstOp GstRecorder unit := fun o r =>
  (match o with
   | GAdd c u p f w h k => (gst_add c u p f w h k r).2
   | GPin c k => gst_pin c k r
   | GRemove c => gst_remove c r
   | GAnalysis c u f w h k => (gst_analysis c u f w h k r).2
   | GResize c w h => (resize_camera_rgb_tap c w h r).2
   | GFallBack c => fall_back c r
   | GDelivered l => mark_delivered l r
   | GClearHealth c => on_health (decode_clear c) r
   end, tt).

Lemma gst_new_sound : gst_sound gst_new.
Proof. by split. Qed.

Lemma gst_step_sound o r : gst_sound r -> gst_sound (mstep o r).1.
Proof.
  intros Hr. destruct o as [c u p f w h k|c k|c|c u f w h k|c w h|c|l|c]; simpl.
  - by eapply registered_sound, gst_add_spec.
  - by apply gst_pin_sound.
  - rewrite gst_remove_uninstall. by apply uninstall_sound, forget_sound.
  - destruct u; [by eapply registered_sound, gst_analysis_spec|by apply gst_analysis_none_sound].
  - by apply resize_sound.
  - by apply fall_back_sound.
  - by apply alter_sound.
  - by apply health_sound.
Qed.

(** C14. No session to a camera is leaked: however registrations, removals, resizes, fallbacks and failed
    constructions follow each other, an ingester whose session is not shut down is the main one or the
    substream one the recorder holds for its camera, so a camera has at most one session of each kind, and
    none once the recorder has dropped both. *)
Theorem no_leaked_session ops l i :
  store (mrun ops gst_new).1 !! l = Some i -> is_shutdown i = false ->
  let r := (mrun ops gst_new).1 in ingesters r !! i_camera i = Some l \/ analysis_ingesters r !! i_camera i = Some l.
Proof.
  intros Hl Hi. assert (gst_sound (mrun ops gst_new).1) as Hr; [|by apply (gs_live _ Hr)].
  apply (mrun_invariant (fun _ => True)); [intros o r _; apply gst_step_sound|by apply Forall_true|apply gst_new_sound].
Qed.
End gst_recorder.

(** A camera re-pointed, resized and given a substream that falls back: one main session lives. *)
Definition repointed : list GstOp :=
  [GAdd 1 "rtsp://a" 10 0 960 540 H264; GAnalysis 1 (Some "rtsp://a/sub") 0 960 540 H264; GAdd 1 "rtsp://b" 10 0 960 540 H265;
   GResize 1 640 360; GFallBack 1].

Lemma no_leaked_session_witness :
  let r := (mrun (H := gst_machine (fun _ => true)) repointed gst_new).1 in
  ingesters r !! 1 = Some 3%nat \/ analysis_ingesters r !! 1 = Some 3%nat.
Proof.
  set (i := mkIngester 1 "rtsp://b" H265 None 10 15 (640, 360) false false).
  apply (no_leaked_session (fun _ => true) repointed 3 i); vm_compute; reflexivity.
Defined.
