(* ===== verification/Reconciler.v ===== *)
(** The camera reconciler: [nexus-engine/src/reconciler.rs]. It keeps one supervisor task running per
    enabled camera row, restarts one whose configuration changed or that ended, and registers each
    camera's sessions with the recorder.

    Tasks are a store of their own, which the handle map points into; a task ends on its own, is asked
    to stop, or is aborted. What a pass meets is its [Answers]: the rows it reads, which tasks end
    while it runs, which end in time when asked to, what the codec probes and the hydration query
    answer. The recorder is any [ClipRecorder]. Logging is left out. *)
From S2P Require Import Prelude FrameCache Types Stats Alert ActorToken Cameras Ingesters.

(** ** What a running camera was started for *)
Record EntryKey := mkKey {
  k_url : string;
  supervisor_dims : Z * Z;
  k_codec : option CodecKind;
  k_analysis_url : option string;
  k_behavior : CameraBehavior;
}.

Definition changed_behavior_field (started want : CameraBehavior) : option string :=
  if bool_decide (parking_lot_mode want <> parking_lot_mode started) then Some "parking_lot_mode"
  else if bool_decide (anchor_ttl_secs want <> anchor_ttl_secs started) then Some "anchor_ttl_secs"
  else if bool_decide (detector_skip_crowded_threshold want <> detector_skip_crowded_threshold started) then Some "detector_skip_crowded_threshold"
  else if bool_decide (detector_skip_every_n_frames want <> detector_skip_every_n_frames started) then Some "detector_skip_every_n_frames"
  else if bool_decide (detector_downscale_crowded_threshold want <> detector_downscale_crowded_threshold started) then Some "detector_downscale_crowded_threshold"
  else if bool_decide (detector_downscale_sustained_secs want <> detector_downscale_sustained_secs started) then Some "detector_downscale_sustained_secs"
  else if bool_decide (supervisor_downscale_crowded_threshold want <> supervisor_downscale_crowded_threshold started) then Some "supervisor_downscale_crowded_threshold"
  else if bool_decide (supervisor_downscale_sustained_secs want <> supervisor_downscale_sustained_secs started) then Some "supervisor_downscale_sustained_secs"
  else if bool_decide (supervisor_upscale_clear_secs want <> supervisor_upscale_clear_secs started) then Some "supervisor_upscale_clear_secs"
  else if bool_decide (supervisor_downscale_to_width want <> supervisor_downscale_to_width started) then Some "supervisor_downscale_to_width"
  else if bool_decide (tile_enabled want <> tile_enabled started) then Some "tile_enabled"
  else if bool_decide (tile_trigger want <> tile_trigger started) then Some "tile_trigger"
  else if bool_decide (tile_max_per_frame want <> tile_max_per_frame started) then Some "tile_max_per_frame"
  else if bool_decide (tile_grid want <> tile_grid started) then Some "tile_grid"
  else None.

Definition key_eqb (self other : EntryKey) : bool :=
  bool_decide (k_url self = k_url other) && bool_decide (supervisor_dims self = supervisor_dims other)
  && bool_decide (k_codec self = k_codec other) && bool_decide (k_analysis_url self = k_analysis_url other)
  && negb (is_some (changed_behavior_field (k_behavior self) (k_behavior other))).

(** The block a restart can apply: all but the width, which [supervisor_dims] carries, and the two
    downscale targets, whose layers are built at boot. *)
Definition restartable (b : CameraBehavior) : CameraBehavior :=
  mkBehavior (parking_lot_mode b) (anchor_ttl_secs b) None (detector_skip_crowded_threshold b)
    (detector_skip_every_n_frames b) (detector_downscale_crowded_threshold b) (detector_downscale_sustained_secs b)
    None None (supervisor_downscale_crowded_threshold b) (supervisor_downscale_sustained_secs b)
    (supervisor_upscale_clear_secs b) (supervisor_downscale_to_width b) (tile_enabled b) (tile_trigger b)
    (tile_max_per_frame b) (tile_grid b).

Definition restart_key (k : EntryKey) : string * (Z * Z) * option CodecKind * option string * CameraBehavior :=
  (k_url k, supervisor_dims k, k_codec k, k_analysis_url k, restartable (k_behavior k)).

Lemma changed_none started want : changed_behavior_field started want = None <-> restartable started = restartable want.
Proof.
  destruct started, want. unfold changed_behavior_field, restartable. simpl. split.
  - repeat (case_bool_decide as Hn; [discriminate|subst]). done.
  - intros E. injection E as E1 E2 E3 E4 E5 E6 E7 E8 E9 E10 E11 E12 E13 E14. subst.
    repeat (rewrite bool_decide_false by tauto). done.
Qed.

(** The guard compares exactly what a restart can apply, so it is an equivalence. *)
Lemma key_eqb_iff a b : key_eqb a b = true <-> restart_key a = restart_key b.
Proof.
  unfold key_eqb, restart_key. rewrite !andb_true_iff, !bool_decide_eq_true, negb_true_iff.
  assert (is_some (changed_behavior_field (k_behavior a) (k_behavior b)) = false <-> restartable (k_behavior a) = restartable (k_behavior b)) as ->.
  { rewrite <- changed_none. by destruct (changed_behavior_field _ _). }
  split; [intros [[[[-> ->] ->] ->] ->]; done|]. intros Heq.
  pose proof (f_equal snd Heq) as E1. pose proof (f_equal (fun x => x.1.2) Heq) as E2. pose proof (f_equal (fun x => x.1.1.2) Heq) as E3.
  pose proof (f_equal (fun x => x.1.1.1.2) Heq) as E4. pose proof (f_equal (fun x => x.1.1.1.1) Heq) as E5. done.
Qed.

Definition wanted (default_detector_width : Z) (cam : CameraConfig) : EntryKey :=
  mkKey (url_text (url (ingest cam))) (supervisor_dims_for cam default_detector_width) (codec (ingest cam))
    (url_text <$> analysis_url (ingest cam)) (behavior cam).

(** ** Entries, tasks and the state *)
Record AnalysisSession := mkSession { s_codec : CodecKind; s_registered : bool }.
Record Sessions := mkSessions { main_pending : option CodecKind; s_analysis : option AnalysisSession }.

#[export] Instance AnalysisSession_eq_dec : EqDecision AnalysisSession.
Proof. solve_decision. Defined.
#[export] Instance Sessions_eq_dec : EqDecision Sessions.
Proof. solve_decision. Defined.

Record RunningCameraEntry := mkRunning { e_task : nat; e_key : EntryKey; e_sessions : Sessions }.

Record Start := mkStart { st_key : EntryKey; st_sessions : Sessions }.

(** What boot registered, and the frame each boot tap was built at. *)
Record BootSessions := mkBoot { boot_sessions : gmap Z Sessions; boot_taps : gmap Z (Z * Z) }.

Definition with_taps (b : BootSessions) (taps : gmap Z (Z * Z)) : BootSessions := mkBoot (boot_sessions b) taps.

Definition at_boot (ddw : Z) (cam : CameraConfig) (boot : BootSessions) : Start * BootSessions :=
  let want := wanted ddw cam in
  (mkStart (mkKey (k_url want) (default (supervisor_dims want) (boot_taps boot !! cam_id cam)) (k_codec want)
              (k_analysis_url want) (k_behavior want))
     (default (mkSessions None None) (boot_sessions boot !! cam_id cam)),
   mkBoot (delete (cam_id cam) (boot_sessions boot)) (delete (cam_id cam) (boot_taps boot))).

Record EntityLocalSeed := mkSeed { seed_camera : Z; seed_track : Z; entity_local_id : string; started_ts : Z; last_seen_at : Z }.

Record Task := mkTask {
  t_cam : CameraConfig;
  t_dims : Z * Z;
  t_top_k : option Z;
  t_seed : list EntityLocalSeed;
  t_stop : bool;
  t_ended : bool;
  t_aborted : bool;
}.

(** [JoinHandle::is_finished]: an abort only asks for the end, and the task ends when it next reaches
    an await, at some later [task_ends]. Until then it lingers: not finished, and no longer counted as
    running, since nothing but the rest of its present step is left to it. *)
Definition is_finished (t : Task) : bool := t_ended t.
Definition running (t : Task) : bool := negb (t_ended t) && negb (t_aborted t).
Definition lingering (t : Task) : bool := negb (is_finished t) && t_aborted t.
Definition exited_on_its_own (t : Task) : bool := is_finished t && negb (t_stop t).

Definition send_stop (t : Task) : Task := mkTask (t_cam t) (t_dims t) (t_top_k t) (t_seed t) true (t_ended t) (t_aborted t).
Definition end_task (t : Task) : Task := mkTask (t_cam t) (t_dims t) (t_top_k t) (t_seed t) (t_stop t) true (t_aborted t).
Definition abort_task (t : Task) : Task := mkTask (t_cam t) (t_dims t) (t_top_k t) (t_seed t) (t_stop t) (t_ended t) true.

Section reconciler.
Context {R Frame Obj : Type} `{ClipRecorder R}.
(** The configuration the engine was built with: [ReconcilerArgs]. *)
Context (default_detector_width : Z) (default_top_k : option Z) (pre_roll_secs : Z).

Record World := mkWorld {
  rec : R;
  handles : gmap Z RunningCameraEntry;
  tasks : gmap nat Task;
  next_task : nat;
  unreadable_cameras : list Z;
  frames : gmap Z (@FrameCache.Slot Frame Obj);
  frame_stats : FrameStats;
  analysis_streams : AnalysisStreams;
  pumps : gset Z;
}.

Definition set_rec (r : R) (w : World) : World :=
  mkWorld r (handles w) (tasks w) (next_task w) (unreadable_cameras w) (frames w) (frame_stats w) (analysis_streams w) (pumps w).
Definition on_handles (f : gmap Z RunningCameraEntry -> gmap Z RunningCameraEntry) (w : World) : World :=
  mkWorld (rec w) (f (handles w)) (tasks w) (next_task w) (unreadable_cameras w) (frames w) (frame_stats w) (analysis_streams w) (pumps w).
Definition on_tasks (f : gmap nat Task -> gmap nat Task) (w : World) : World :=
  mkWorld (rec w) (handles w) (f (tasks w)) (next_task w) (unreadable_cameras w) (frames w) (frame_stats w) (analysis_streams w) (pumps w).
Definition set_unreadable (l : list Z) (w : World) : World :=
  mkWorld (rec w) (handles w) (tasks w) (next_task w) l (frames w) (frame_stats w) (analysis_streams w) (pumps w).
Definition stop_pump (c : Z) (w : World) : World :=
  mkWorld (rec w) (handles w) (tasks w) (next_task w) (unreadable_cameras w) (frames w) (frame_stats w) (analysis_streams w) (pumps w ∖ {[c]}).
Definition clear_registries (c : Z) (w : World) : World :=
  mkWorld (decode_health_clear c (rec w)) (handles w) (tasks w) (next_task w) (unreadable_cameras w)
    (FrameCache.clear (frames w) c) (Stats.clear c (frame_stats w)) (analysis_clear c (analysis_streams w)) (pumps w).

(** What one pass meets. [ended c] are the tasks that end on their own before the pass turns to
    camera [c]; [closes n] says whether task [n] ends within the timeout when asked to stop. *)
Record Answers := mkAnswers {
  rows : option CamerasTable;
  ended : Z -> list nat;
  closes : nat -> bool;
  probe_codec_for_url : string -> option CodecKind;
  entity_locals : Z -> option (list EntityLocalSeed);
}.

Definition task_ends (n : nat) : World -> World := on_tasks (alter end_task n).
Definition tasks_end (l : list nat) (w : World) : World := foldr task_ends w l.

(** ** The recorder's sessions *)
Definition rtsp (u : Url) : bool := str_eqb (scheme u) "rtsp" || str_eqb (scheme u) "rtsps".

Definition apply_analysis_session (a : Answers) (cam : CameraConfig) (main_codec : CodecKind) (dims : Z * Z) (r : R) :
    option AnalysisSession * R :=
  match analysis_url (ingest cam) with
  | None => (None, (set_camera_analysis_ingester (cam_id cam) None (max_fps (ingest cam)) dims.1 dims.2 main_codec r).2)
  | Some u =>
      let codec := if rtsp u then default main_codec (probe_codec_for_url a (url_text u)) else main_codec in
      match set_camera_analysis_ingester (cam_id cam) (Some (url_text u)) (max_fps (ingest cam)) dims.1 dims.2 codec r with
      | (Ok _, r) => (Some (mkSession codec true), r)
      | (Err _, r) => (Some (mkSession codec false), r)
      end
  end.

Definition start_sessions (a : Answers) (cam : CameraConfig) (main_codec : CodecKind) (dims : Z * Z) (main_registered : bool) (r : R) :
    Sessions * R :=
  if main_registered then
    let r := set_camera_codec_pin (cam_id cam) (codec (ingest cam)) r in
    let '(analysis, r) := apply_analysis_session a cam main_codec dims r in
    (mkSessions None analysis, r)
  else (mkSessions (Some main_codec) None, r).

Fixpoint register_boot_sessions (a : Answers) (cameras : list (CameraConfig * CodecKind * (Z * Z) * bool)) (acc : gmap Z Sessions) (r : R) :
    BootSessions * R :=
  match cameras with
  | [] => (mkBoot acc ∅, r)
  | (cam, codec, dims, registered) :: cameras =>
      let '(s, r) := start_sessions a cam codec dims registered r in
      register_boot_sessions a cameras (<[cam_id cam := s]> acc) r
  end.

Definition retry_main (cam : CameraConfig) (e : RunningCameraEntry) (r : R) : option CodecKind * R :=
  match main_pending (e_sessions e) with
  | None => (None, r)
  | Some codec =>
      let dims := supervisor_dims (e_key e) in
      match add_camera_ingester (cam_id cam) (k_url (e_key e)) pre_roll_secs (max_fps (ingest cam)) dims.1 dims.2 codec r with
      | (Ok _, r) => (None, set_camera_codec_pin (cam_id cam) (Cameras.codec (ingest cam)) r)
      | (Err _, r) => (Some codec, r)
      end
  end.

Definition retry_analysis (cam : CameraConfig) (e : RunningCameraEntry) (r : R) : option AnalysisSession * R :=
  match s_analysis (e_sessions e), k_analysis_url (e_key e) with
  | Some session, Some u =>
      let dims := supervisor_dims (e_key e) in
      match set_camera_analysis_ingester (cam_id cam) (Some u) (max_fps (ingest cam)) dims.1 dims.2 (s_codec session) r with
      | (Ok _, r) => (Some (mkSession (s_codec session) true), r)
      | (Err _, r) => (Some (mkSession (s_codec session) false), r)
      end
  | s, _ => (s, r)
  end.

Definition set_sessions (s : Sessions) (e : RunningCameraEntry) : RunningCameraEntry := mkRunning (e_task e) (e_key e) s.

Definition retry_sessions (cam : CameraConfig) (e : RunningCameraEntry) (w : World) : World :=
  let '(pending, r) := retry_main cam e (rec w) in
  let '(analysis, r) := retry_analysis cam e r in
  let s := mkSessions pending analysis in
  let w := set_rec r w in
  if bool_decide (s = e_sessions e) then w else on_handles (alter (set_sessions s) (cam_id cam)) w.

(** ** Starting and stopping a camera *)
Definition spawn_supervisor (cam : CameraConfig) (start : Start) (seed : list EntityLocalSeed) (w : World) : RunningCameraEntry * World :=
  let top_k := match model_override cam ≫= model_top_k with Some k => Some k | None => default_top_k end in
  let t := mkTask cam (supervisor_dims (st_key start)) top_k seed false false false in
  (mkRunning (next_task w) (st_key start) (st_sessions start),
   mkWorld (rec w) (handles w) (<[next_task w := t]> (tasks w)) (S (next_task w)) (unreadable_cameras w) (frames w)
     (frame_stats w) (analysis_streams w) (pumps w)).

Definition resolve_codec (a : Answers) (cam : CameraConfig) : CodecKind :=
  match codec (ingest cam) with
  | Some c => c
  | None => if rtsp (url (ingest cam)) then default H264 (probe_codec_for_url a (url_text (url (ingest cam)))) else H264
  end.

Definition start_camera (a : Answers) (cam : CameraConfig) (want : EntryKey) (w : World) : World :=
  let dims := supervisor_dims want in
  let codec := resolve_codec a cam in
  let '(registered, r) := add_camera_ingester (cam_id cam) (k_url want) pre_roll_secs (max_fps (ingest cam)) dims.1 dims.2 codec (rec w) in
  let '(sessions, r) := start_sessions a cam codec dims (match registered with Ok _ => true | Err _ => false end) r in
  let seed := default [] (entity_locals a (cam_id cam)) in
  let '(entry, w) := spawn_supervisor cam (mkStart want sessions) seed (set_rec r w) in
  on_handles (insert (cam_id cam) entry) w.

(** The abort of a supervisor that does not stop in time is not awaited: the entry goes while the task
    may still linger. *)
Definition stop_camera (a : Answers) (c : Z) (w : World) : World :=
  let w := match handles w !! c with
    | Some e =>
        let w := on_tasks (alter send_stop (e_task e)) w in
        let over := match tasks w !! e_task e with Some t => t_ended t | None => true end in
        let w := on_tasks (alter (if over || closes a (e_task e) then end_task else abort_task) (e_task e)) w in
        on_handles (delete c) w
    | None => w
    end in
  let w := set_rec (remove_camera_ingester c (rec w)) w in
  let w := set_rec (set_camera_analysis_ingester c None 0 0 0 H264 (rec w)).2 w in
  clear_registries c w.

(** ** A pass *)
Definition remove_gone (a : Answers) (live_enabled : gset Z) (w : World) (c : Z) : World :=
  if bool_decide (c ∈ live_enabled) then w else stop_pump c (stop_camera a c (tasks_end (ended a c) w)).

Definition task_finished (w : World) (n : nat) : bool := match tasks w !! n with Some t => is_finished t | None => true end.

Definition visit (a : Answers) (current : gmap Z RunningCameraEntry) (w : World) (cam : CameraConfig) : World :=
  let w := tasks_end (ended a (cam_id cam)) w in
  let want := wanted default_detector_width cam in
  match current !! cam_id cam with
  | Some entry =>
      if key_eqb (e_key entry) want && negb (task_finished w (e_task entry)) then retry_sessions cam entry w
      else start_camera a cam want (stop_camera a (cam_id cam) w)
  | None => start_camera a cam want w
  end.

Definition enabled_cams (live : list CameraConfig) : list CameraConfig := filter (fun c => enabled (ingest c) = true) live.

Definition reconcile (a : Answers) (w : World) : result unit unit * World :=
  match rows a with
  | None => (Err tt, w)
  | Some t =>
      let '(live, unreadable) := list_readable_cameras t in
      let w := set_unreadable unreadable w in
      let current := handles w in
      let live_enabled := list_to_set (cam_id <$> enabled_cams live) : gset Z in
      let w := foldl (remove_gone a live_enabled) w (map_to_list current).*1 in
      (Ok tt, foldl (visit a current) w (enabled_cams live))
  end.

(** ** The loop

    A message that is not about cameras is ignored, and a stream that ended yields no more. *)
Inductive Wake := ConfigChanged (v : JsonValue) | StreamError | StreamEnded | Supervise.

Definition about_cameras (v : JsonValue) : bool :=
  match json_get "kind" v ≫= json_str with Some k => str_eqb k "camera" | None => true end.

Definition run_turn (subscribed : bool) (m : Wake) (a : Answers) (w : World) : bool * World :=
  match m with
  | ConfigChanged v => (subscribed, if subscribed && about_cameras v then (reconcile a w).2 else w)
  | StreamError => (subscribed, w)
  | StreamEnded => (false, w)
  | Supervise => (subscribed, (reconcile a w).2)
  end.

(** ** Boot *)
Definition boot_camera (seed_all : list EntityLocalSeed) (acc : World * BootSessions) (cam : CameraConfig) : World * BootSessions :=
  let '(w, boot) := acc in
  if enabled (ingest cam) then
    let '(start, boot) := at_boot default_detector_width cam boot in
    let seed := filter (fun s => seed_camera s = cam_id cam) seed_all in
    let '(entry, w) := spawn_supervisor cam start seed w in
    (on_handles (insert (cam_id cam) entry) w, boot)
  else (w, boot).

Definition boot_cameras (seed_all : list EntityLocalSeed) (cameras : list CameraConfig) (boot : BootSessions) (w : World) : World :=
  (foldl (boot_camera seed_all) (w, boot) cameras).1.

(** ** The invariant *)
Context `{!ClipRecorderLaws R}.

(** What the recorder holds for a camera fits its entry: no entry, no session; otherwise the main
    session reads the entry's URL, and is there unless it is outstanding, and a substream session
    reads the entry's substream. *)
Definition sessions_ok (r : R) (c : Z) (o : option RunningCameraEntry) : Prop :=
  match o with
  | None => main_of r c = None /\ sub_of r c = None
  | Some e =>
      (forall u, main_of r c = Some u -> u = k_url (e_key e)) /\
      (forall u, sub_of r c = Some u -> k_analysis_url (e_key e) = Some u) /\
      (keeps_sessions = true -> main_pending (e_sessions e) = None -> main_of r c = Some (k_url (e_key e)))
  end.

Definition linked (w : World) (c : Z) (e : RunningCameraEntry) : Prop :=
  exists t, tasks w !! e_task e = Some t /\ cam_id (t_cam t) = c /\ t_dims t = supervisor_dims (e_key e) /\
    t_stop t = false /\ t_aborted t = false.

Record inv (w : World) : Prop := {
  inv_linked : forall c e, handles w !! c = Some e -> linked w c e;
  inv_next : forall n t, tasks w !! n = Some t -> (n < next_task w)%nat;
  inv_running : forall n t, tasks w !! n = Some t -> running t = true -> exists e, handles w !! cam_id (t_cam t) = Some e /\ e_task e = n;
  inv_rec : rec_sound (rec w);
  inv_sessions : forall c, sessions_ok (rec w) c (handles w !! c);
}.

(** A call that concerns one camera. *)
Definition only (c : Z) (r r' : R) : Prop :=
  (rec_sound r -> rec_sound r') /\ (rec_sound r -> forall d, d <> c -> main_of r' d = main_of r d /\ sub_of r' d = sub_of r d).

Lemma only_refl c r : only c r r.
Proof. by split. Qed.

Lemma only_trans c r1 r2 r3 : only c r1 r2 -> only c r2 r3 -> only c r1 r3.
Proof.
  intros [S1 V1] [S2 V2]. split; [auto|]. intros Hr d Hd. destruct (V1 Hr d Hd) as [<- <-]. by apply V2; auto.
Qed.

Lemma only_add c u p f w h k r : only c r (add_camera_ingester c u p f w h k r).2.
Proof. split; [apply add_sound|]. intros Hr d Hd. by rewrite add_other, add_sub. Qed.
Lemma only_pin c k r : only c r (set_camera_codec_pin c k r).
Proof. split; [apply pin_sound|]. intros Hr d Hd. by rewrite pin_main, pin_sub. Qed.
Lemma only_remove c r : only c r (remove_camera_ingester c r).
Proof. split; [apply remove_sound|]. intros Hr d Hd. by rewrite remove_other, remove_sub. Qed.
Lemma only_sub c u f w h k r : only c r (set_camera_analysis_ingester c u f w h k r).2.
Proof. split; [apply sub_sound|]. intros Hr d Hd. by rewrite sub_main, sub_other. Qed.
Lemma only_dh c r : only c r (decode_health_clear c r).
Proof. split; [apply dh_sound|]. intros Hr d Hd. by rewrite dh_main, dh_sub. Qed.

Lemma only_sessions c r r' d o : only c r r' -> rec_sound r -> d <> c -> sessions_ok r d o -> sessions_ok r' d o.
Proof. intros [_ V] Hr Hd. destruct (V Hr d Hd) as [E1 E2]. destruct o; simpl; by rewrite E1, E2. Qed.

(** ** What each operation does to the invariant *)
Lemma tasks_ends_spec l w : inv w ->
  inv (tasks_end l w) /\ handles (tasks_end l w) = handles w /\ rec (tasks_end l w) = rec w /\ next_task (tasks_end l w) = next_task w /\
  forall n, tasks (tasks_end l w) !! n = if bool_decide (n ∈ l) then end_task <$> tasks w !! n else tasks w !! n.
Proof.
  intros Hw. induction l as [|m l (IH & E1 & E2 & E3 & E4)]; simpl; [done|].
  assert (forall n, alter end_task m (tasks (tasks_end l w)) !! n = if bool_decide (n ∈ m :: l) then end_task <$> tasks w !! n else tasks w !! n) as Et.
  { intros n. destruct (decide (m = n)) as [->|Hm].
    - rewrite lookup_alter_eq, E4, (bool_decide_true (n ∈ n :: l)) by left. case_bool_decide; [|done]. by destruct (tasks w !! n).
    - rewrite lookup_alter_ne, E4 by done. assert (n ∈ l <-> n ∈ m :: l) as Hi by (rewrite elem_of_cons; naive_solver).
      by rewrite (bool_decide_ext _ _ Hi). }
  split_and!; [|done..]. split; simpl.
  - intros c e He. destruct (inv_linked _ IH c e He) as (t & Ht & H1 & H2 & H3 & H4). unfold linked. simpl.
    destruct (decide (m = e_task e)) as [->|Hm]; [exists (end_task t); by rewrite lookup_alter_eq, Ht|exists t; by rewrite lookup_alter_ne].
  - intros n t. destruct (decide (m = n)) as [->|Hm]; [rewrite lookup_alter_eq|rewrite lookup_alter_ne by done; apply (inv_next _ IH)].
    destruct (tasks (tasks_end l w) !! n) eqn:E; [|done]. intros _. by apply (inv_next _ IH) in E.
  - intros n t. destruct (decide (m = n)) as [->|Hm]; [rewrite lookup_alter_eq|rewrite lookup_alter_ne by done; apply (inv_running _ IH)].
    destruct (tasks (tasks_end l w) !! n) eqn:E; [|done]. by intros [= <-].
  - apply (inv_rec _ IH).
  - apply (inv_sessions _ IH).
Qed.

(** What is left of the tasks and the entries when one camera is stopped. *)
Lemma stop_tasks a c w : let w' := stop_camera a c w in
  handles w' = delete c (handles w) /\ next_task w' = next_task w /\
  (forall e, handles w !! c = Some e -> forall n, tasks w' !! n =
     if bool_decide (n = e_task e) then (fun t => (if (match tasks w !! e_task e with Some t => t_ended t | None => true end) || closes a (e_task e) then end_task else abort_task) (send_stop t)) <$> tasks w !! n
     else tasks w !! n) /\
  (handles w !! c = None -> tasks w' = tasks w).
Proof.
  unfold stop_camera. cbn zeta. destruct (handles w !! c) as [e|] eqn:E; simpl; [|split_and!; try done; symmetry; by apply delete_id].
  split_and!; [done|done| |done]. intros e' [= <-] n. rewrite lookup_alter_eq.
  assert ((match send_stop <$> tasks w !! e_task e with Some t => t_ended t | None => true end) = match tasks w !! e_task e with Some t => t_ended t | None => true end) as -> by by destruct (tasks w !! e_task e).
  case_bool_decide as Hn; [subst n; rewrite !lookup_alter_eq; by destruct (tasks w !! e_task e)|by rewrite !lookup_alter_ne by done].
Qed.

Lemma stop_rec a c w : inv w -> only c (rec w) (rec (stop_camera a c w)) /\ main_of (rec (stop_camera a c w)) c = None /\ sub_of (rec (stop_camera a c w)) c = None.
Proof.
  intros Hw. assert (rec (stop_camera a c w) = decode_health_clear c (set_camera_analysis_ingester c None 0 0 0 H264 (remove_camera_ingester c (rec w))).2) as ->.
  { unfold stop_camera. by destruct (handles w !! c). }
  pose proof (remove_sound c (rec w) (inv_rec _ Hw)) as S1. split_and!.
  - eapply only_trans; [apply only_remove|]. eapply only_trans; [apply only_sub|apply only_dh].
  - rewrite dh_main, sub_main by done. apply remove_main, (inv_rec _ Hw).
  - rewrite dh_sub. by apply sub_none.
Qed.

Lemma stop_inv a c w : inv w -> inv (stop_camera a c w).
Proof.
  intros Hw. destruct (stop_tasks a c w) as (Eh & En & Et & Et'). destruct (stop_rec a c w Hw) as (Ho & Hm & Hs).
  assert (forall n t, tasks (stop_camera a c w) !! n = Some t -> running t = true -> tasks w !! n = Some t /\ forall e, handles w !! c = Some e -> e_task e <> n) as Hback.
  { intros n t. destruct (handles w !! c) as [e|] eqn:E; [|rewrite Et' by done; by intros ? _; split].
    rewrite (Et e eq_refl). case_bool_decide as Hn; [|intros Ht _; split; [done|]; intros e' [= <-]; congruence].
    subst n. destruct (tasks w !! e_task e) as [t0|]; [|done]. simpl. intros [= <-].
    destruct (t_ended t0 || closes a (e_task e)); unfold running; simpl; by rewrite ?andb_false_r. }
  split.
  - rewrite Eh. intros d e' He. apply lookup_delete_Some in He as [Hd He]. destruct (inv_linked _ Hw d e' He) as (t & Ht & H1 & H2).
    exists t. split; [|done]. destruct (handles w !! c) as [e|] eqn:E; [|by rewrite Et'].
    rewrite (Et e eq_refl), bool_decide_false; [done|]. intros E'. destruct (inv_linked _ Hw c e E) as (t' & Ht' & H1' & _). rewrite E' in Ht. congruence.
  - rewrite En. intros n t Ht. assert (is_Some (tasks w !! n)) as [t0 E0]; [|by apply (inv_next _ Hw n t0)].
    destruct (handles w !! c) as [e|] eqn:E; [|rewrite Et' in Ht by done; by eexists]. rewrite (Et e eq_refl) in Ht.
    case_bool_decide; [|by eexists]. by destruct (tasks w !! n).
  - intros n t Ht Hr. destruct (Hback n t Ht Hr) as [Ht0 Hne]. destruct (inv_running _ Hw n t Ht0 Hr) as (e & He & <-).
    exists e. split; [|done]. rewrite Eh. apply lookup_delete_Some. split; [|done]. intros ->. by apply (Hne e).
  - apply Ho, (inv_rec _ Hw).
  - intros d. rewrite Eh. destruct (decide (d = c)) as [->|Hd]; [rewrite lookup_delete_eq; done|]. rewrite lookup_delete_ne by done.
    eapply only_sessions; [done|apply (inv_rec _ Hw)|done|apply (inv_sessions _ Hw)].
Qed.

Lemma start_sessions_only a cam k dims b r : only (cam_id cam) r (start_sessions a cam k dims b r).2.
Proof.
  unfold start_sessions. destruct b; [|apply only_refl]. unfold apply_analysis_session.
  destruct (analysis_url (ingest cam)) as [u|].
  - set (r1 := set_camera_codec_pin _ _ r). set (codec := if rtsp u then _ else _).
    pose proof (only_sub (cam_id cam) (Some (url_text u)) (max_fps (ingest cam)) dims.1 dims.2 codec r1) as H2.
    destruct (set_camera_analysis_ingester _ _ _ _ _ _ r1) as [[?|?] r2]; simpl in *; (eapply only_trans; [apply only_pin|exact H2]).
  - simpl. eapply only_trans; [apply only_pin|apply only_sub].
Qed.

(** The sessions a start leaves fit the entry it is recorded in. *)
Lemma start_sessions_views a cam k dims b r : rec_sound r -> let '(s, r') := start_sessions a cam k dims b r in
  main_of r' (cam_id cam) = main_of r (cam_id cam) /\ (main_pending s = None <-> b = true) /\
  (sub_of r (cam_id cam) = None -> forall u, sub_of r' (cam_id cam) = Some u -> url_text <$> analysis_url (ingest cam) = Some u).
Proof.
  intros Hr. unfold start_sessions. destruct b; [|split_and!; [done|done|intros ->; done]].
  set (r1 := set_camera_codec_pin _ _ r). assert (rec_sound r1) as Hr1 by by apply pin_sound.
  assert (main_of r1 (cam_id cam) = main_of r (cam_id cam)) as Hm by by apply pin_main.
  assert (sub_of r1 (cam_id cam) = sub_of r (cam_id cam)) as Hs by by apply pin_sub.
  unfold apply_analysis_session. destruct (analysis_url (ingest cam)) as [u|].
  - set (codec := if rtsp u then _ else _).
    pose proof (sub_main (cam_id cam) (Some (url_text u)) (max_fps (ingest cam)) dims.1 dims.2 codec r1 (cam_id cam) Hr1) as H1.
    pose proof (sub_some (cam_id cam) (url_text u) (max_fps (ingest cam)) dims.1 dims.2 codec r1 Hr1) as H2. cbn zeta in H2.
    destruct (set_camera_analysis_ingester _ _ _ _ _ _ r1) as [[?|?] r2]; simpl in *; (split_and!; [congruence|done|]; intros Hn u' Hu; destruct H2; congruence).
  - simpl. split_and!; [rewrite sub_main; done|done|]. intros _ u. by rewrite sub_none.
Qed.

Definition fresh_task (a : Answers) (cam : CameraConfig) (want : EntryKey) : Task :=
  mkTask cam (supervisor_dims want) (match model_override cam ≫= model_top_k with Some k => Some k | None => default_top_k end)
    (default [] (entity_locals a (cam_id cam))) false false false.

Lemma start_spec a cam want w : inv w -> handles w !! cam_id cam = None -> k_analysis_url want = url_text <$> analysis_url (ingest cam) ->
  let w' := start_camera a cam want w in
  inv w' /\ next_task w' = S (next_task w) /\ tasks w' = <[next_task w := fresh_task a cam want]> (tasks w) /\
  exists s, handles w' = <[cam_id cam := mkRunning (next_task w) want s]> (handles w).
Proof.
  intros Hw Hn Hwant. unfold start_camera. cbn zeta. set (c := cam_id cam) in *. set (dims := supervisor_dims want). set (k := resolve_codec a cam).
  pose proof (only_add c (k_url want) pre_roll_secs (max_fps (ingest cam)) dims.1 dims.2 k (rec w)) as O1.
  pose proof (add_main c (k_url want) pre_roll_secs (max_fps (ingest cam)) dims.1 dims.2 k (rec w) (inv_rec _ Hw)) as M1.
  pose proof (add_main_or c (k_url want) pre_roll_secs (max_fps (ingest cam)) dims.1 dims.2 k (rec w) (inv_rec _ Hw)) as M2.
  pose proof (add_sub c (k_url want) pre_roll_secs (max_fps (ingest cam)) dims.1 dims.2 k (rec w) c (inv_rec _ Hw)) as U1. cbn zeta in *.
  destruct (add_camera_ingester c _ _ _ _ _ _ (rec w)) as [reg r1]. simpl in O1, M1, M2, U1.
  set (b := match reg with Ok _ => true | Err _ => false end).
  pose proof (start_sessions_only a cam k dims b r1) as O2. pose proof (start_sessions_views a cam k dims b r1 (proj1 O1 (inv_rec _ Hw))) as V.
  destruct (start_sessions a cam k dims b r1) as [s r2]. simpl in O2. destruct V as (V1 & V2 & V3). fold c in V1, V3, O2.
  pose proof (inv_sessions _ Hw c) as S0. rewrite Hn in S0. destruct S0 as [S1 S2]. pose proof (only_trans _ _ _ _ O1 O2) as O.
  simpl. split_and!; [|done|done|by exists s]. split; simpl.
  - intros d e. rewrite lookup_insert_Some. intros [[<- <-]|[Hd He]].
    + exists (fresh_task a cam want). simpl. by rewrite lookup_insert_eq.
    + destruct (inv_linked _ Hw d e He) as (t & Ht & H'). exists t. simpl. split; [|done]. rewrite lookup_insert_ne; [done|].
      intros E. apply (inv_next _ Hw) in Ht. lia.
  - intros n t. rewrite lookup_insert_Some. intros [[<- _]|[_ Ht]]; [lia|]. apply (inv_next _ Hw) in Ht. lia.
  - intros n t. rewrite lookup_insert_Some. intros [[<- <-]|[Hne Ht]] Hr.
    + simpl. fold c. rewrite lookup_insert_eq. by eexists.
    + destruct (inv_running _ Hw n t Ht Hr) as (e & He & <-). exists e. split; [|done]. rewrite lookup_insert_ne; [done|]. intros E. fold c in Hn. congruence.
  - apply O, (inv_rec _ Hw).
  - intros d. fold c. destruct (decide (d = c)) as [->|Hd].
    + rewrite lookup_insert_eq. simpl. split_and!.
      * intros u. rewrite V1. destruct M2 as [->| ->]; congruence.
      * intros u Hu. rewrite Hwant. apply V3; [congruence|done].
      * intros Hk Hp. apply V2 in Hp. rewrite V1. apply M1; [|done]. subst b. by destruct reg as [[]|].
    + rewrite lookup_insert_ne by done. eapply only_sessions; [exact O|apply (inv_rec _ Hw)|done|apply (inv_sessions _ Hw)].
Qed.

Lemma set_sessions_id e : set_sessions (e_sessions e) e = e.
Proof. by destruct e. Qed.

Lemma retry_main_spec cam e r : rec_sound r -> let '(p, r') := retry_main cam e r in
  only (cam_id cam) r r' /\ (main_of r' (cam_id cam) = main_of r (cam_id cam) \/ main_of r' (cam_id cam) = Some (k_url (e_key e))) /\
  sub_of r' (cam_id cam) = sub_of r (cam_id cam) /\
  (keeps_sessions = true -> p = None -> main_pending (e_sessions e) = None /\ r' = r \/ main_of r' (cam_id cam) = Some (k_url (e_key e))).
Proof.
  intros Hr. unfold retry_main. destruct (main_pending (e_sessions e)) as [k|]; [|split_and!; [apply only_refl|by left|done|by left]].
  set (c := cam_id cam). set (dims := supervisor_dims (e_key e)).
  pose proof (only_add c (k_url (e_key e)) pre_roll_secs (max_fps (ingest cam)) dims.1 dims.2 k r) as O1.
  pose proof (add_main c (k_url (e_key e)) pre_roll_secs (max_fps (ingest cam)) dims.1 dims.2 k r Hr) as M1.
  pose proof (add_main_or c (k_url (e_key e)) pre_roll_secs (max_fps (ingest cam)) dims.1 dims.2 k r Hr) as M2.
  pose proof (add_sub c (k_url (e_key e)) pre_roll_secs (max_fps (ingest cam)) dims.1 dims.2 k r c Hr) as U1. cbn zeta in *.
  destruct (add_camera_ingester c _ _ _ _ _ _ r) as [[[]|err] r1]; simpl in *.
  - assert (rec_sound r1) as Hr1 by by apply O1. rewrite pin_main, pin_sub by done. split_and!; [|tauto|done|].
    + eapply only_trans; [exact O1|apply only_pin].
    + intros Hk _. right. by apply M1.
  - split_and!; [done|tauto|done|done].
Qed.

Lemma retry_analysis_spec cam e r : rec_sound r -> let '(s, r') := retry_analysis cam e r in
  only (cam_id cam) r r' /\ main_of r' (cam_id cam) = main_of r (cam_id cam) /\
  (sub_of r' (cam_id cam) = sub_of r (cam_id cam) \/ exists u, k_analysis_url (e_key e) = Some u /\ sub_of r' (cam_id cam) = Some u).
Proof.
  intros Hr. unfold retry_analysis. destruct (s_analysis (e_sessions e)) as [s|]; [|split_and!; [apply only_refl|done|by left]].
  destruct (k_analysis_url (e_key e)) as [u|]; [|split_and!; [apply only_refl|done|by left]].
  set (c := cam_id cam). set (dims := supervisor_dims (e_key e)).
  pose proof (only_sub c (Some u) (max_fps (ingest cam)) dims.1 dims.2 (s_codec s) r) as O1.
  pose proof (sub_main c (Some u) (max_fps (ingest cam)) dims.1 dims.2 (s_codec s) r c Hr) as M1.
  pose proof (sub_some c u (max_fps (ingest cam)) dims.1 dims.2 (s_codec s) r Hr) as U1. cbn zeta in *.
  destruct (set_camera_analysis_ingester c _ _ _ _ _ r) as [[[]|err] r1]; simpl in *; (split_and!; [done|done|destruct U1; [right; by exists u|by left]]).
Qed.

Lemma retry_spec cam e w : inv w -> handles w !! cam_id cam = Some e ->
  let w' := retry_sessions cam e w in
  inv w' /\ next_task w' = next_task w /\ tasks w' = tasks w /\ exists s, handles w' = <[cam_id cam := set_sessions s e]> (handles w).
Proof.
  intros Hw He. unfold retry_sessions. cbn zeta. set (c := cam_id cam).
  pose proof (retry_main_spec cam e (rec w) (inv_rec _ Hw)) as H1. destruct (retry_main cam e (rec w)) as [p r1]. destruct H1 as (O1 & M1 & U1 & K1).
  assert (rec_sound r1) as Hr1 by (apply O1, (inv_rec _ Hw)).
  pose proof (retry_analysis_spec cam e r1 Hr1) as H2. destruct (retry_analysis cam e r1) as [s r2]. destruct H2 as (O2 & M2 & U2). fold c in O1, M1, U1, K1, O2, M2, U2.
  pose proof (inv_sessions _ Hw c) as S0. fold c in He. rewrite He in S0. destruct S0 as (S1 & S2 & S3). pose proof (only_trans _ _ _ _ O1 O2) as O.
  assert (sessions_ok r2 c (Some (set_sessions (mkSessions p s) e))) as Hs.
  { simpl. split_and!.
    - intros u. rewrite M2. destruct M1 as [->| ->]; [apply S1|congruence].
    - intros u Hu. destruct U2 as [E|(u' & E1 & E2)]; [|congruence]. apply S2. congruence.
    - intros Hk Hp. rewrite M2. destruct (K1 Hk Hp) as [[E ->]|E]; [by apply S3|done]. }
  assert (forall f, inv (on_handles (fun h => <[c := set_sessions f e]> h) (set_rec r2 w)) <-> sessions_ok r2 c (Some (set_sessions f e))) as Hinv.
  { intros f. split; [intros Hi; pose proof (inv_sessions _ Hi c) as Hc; simpl in Hc; by rewrite lookup_insert_eq in Hc|]. intros Hok. split; simpl.
    - intros d e'. rewrite lookup_insert_Some. intros [[<- <-]|[_ He']]; [exact (inv_linked _ Hw c e He)|exact (inv_linked _ Hw d e' He')].
    - apply (inv_next _ Hw).
    - intros n t Ht Hr. destruct (inv_running _ Hw n t Ht Hr) as (e' & He' & <-). destruct (decide (cam_id (t_cam t) = c)) as [E|E].
      + exists (set_sessions f e). rewrite E, lookup_insert_eq. split; [done|]. simpl. congruence.
      + exists e'. by rewrite lookup_insert_ne.
    - apply O, (inv_rec _ Hw).
    - intros d. destruct (decide (d = c)) as [->|Hd]; [by rewrite lookup_insert_eq|]. rewrite lookup_insert_ne by done.
      eapply only_sessions; [exact O|apply (inv_rec _ Hw)|done|apply (inv_sessions _ Hw)]. }
  case_bool_decide as E.
  - assert (on_handles (fun h => <[c := set_sessions (mkSessions p s) e]> h) (set_rec r2 w) = set_rec r2 w) as Eq.
    { unfold on_handles, set_rec. simpl. rewrite E, set_sessions_id. by rewrite (insert_id (handles w) c e He). }
    rewrite <- Eq. split_and!; [by apply Hinv|done|done|by exists (mkSessions p s)].
  - assert (on_handles (alter (set_sessions (mkSessions p s)) c) (set_rec r2 w) = on_handles (fun h => <[c := set_sessions (mkSessions p s) e]> h) (set_rec r2 w)) as ->.
    { unfold on_handles. simpl. f_equal. apply map_eq. intros d. destruct (decide (c = d)) as [->|Hd]; [by rewrite lookup_alter_eq, lookup_insert_eq, He|by rewrite lookup_alter_ne, lookup_insert_ne]. }
    split_and!; [by apply Hinv|done|done|by exists (mkSessions p s)].
Qed.

(** ** A pass *)

(** A task not stopped by the pass is as it was, unless it ended on its own. *)
Definition aged (a : Answers) (n : nat) (t t' : Task) : Prop := t' = t \/ (t' = end_task t /\ exists c, n ∈ ended a c).

Lemma aged_trans a n t1 t2 t3 : aged a n t1 t2 -> aged a n t2 t3 -> aged a n t1 t3.
Proof. intros [->|[-> H1]] [->|[-> H2]]; [by left|by right|by right|right; by destruct t1]. Qed.

Definition spares (a : Answers) (c : Z) (w w' : World) : Prop :=
  (next_task w <= next_task w')%nat /\ (forall d, d <> c -> handles w' !! d = handles w !! d) /\
  forall n t, tasks w !! n = Some t -> (forall e, handles w !! c = Some e -> e_task e <> n) -> exists t', tasks w' !! n = Some t' /\ aged a n t t'.

Lemma ends_aged a c w n t : inv w -> tasks w !! n = Some t -> exists t', tasks (tasks_end (ended a c) w) !! n = Some t' /\ aged a n t t'.
Proof.
  intros Hw Ht. destruct (tasks_ends_spec (ended a c) w Hw) as (_ & _ & _ & _ & E). rewrite E, Ht.
  case_bool_decide; [|by exists t; split; [|left]]. exists (end_task t). split; [done|right]. split; [done|by exists c].
Qed.

Lemma stop_aged a c w n t : tasks w !! n = Some t -> (forall e, handles w !! c = Some e -> e_task e <> n) -> tasks (stop_camera a c w) !! n = Some t.
Proof.
  intros Ht Hn. destruct (stop_tasks a c w) as (_ & _ & E1 & E2). destruct (handles w !! c) as [e|]; [|by rewrite E2].
  rewrite (E1 e eq_refl), bool_decide_false; [done|]. intros ->. by apply (Hn e).
Qed.

Lemma remove_gone_spec a live w c : inv w ->
  let w' := remove_gone a live w c in
  inv w' /\ spares a c w w' /\ handles w' !! c = if bool_decide (c ∈ live) then handles w !! c else None.
Proof.
  intros Hw. unfold remove_gone. cbn zeta. case_bool_decide.
  - split_and!; [done|split_and!; [done|done|]|done]. intros n t Ht _. exists t. by split; [|left].
  - destruct (tasks_ends_spec (ended a c) w Hw) as (I1 & E1 & _ & E3 & _). set (w1 := tasks_end (ended a c) w) in *.
    destruct (stop_tasks a c w1) as (F1 & F2 & _). pose proof (stop_inv a c w1 I1) as I2.
    split_and!.
    + split; [exact (inv_linked _ I2)|exact (inv_next _ I2)|exact (inv_running _ I2)|exact (inv_rec _ I2)|exact (inv_sessions _ I2)].
    + split_and!; [change (next_task w <= next_task (stop_camera a c w1))%nat; by rewrite F2, E3|
        intros d Hd; change (handles (stop_camera a c w1) !! d = handles w !! d); by rewrite F1, lookup_delete_ne, E1|].
      intros n t Ht Hn. destruct (ends_aged a c w n t Hw Ht) as (t' & Ht' & Ha). exists t'. split; [|done]. apply stop_aged; [done|]. by rewrite E1.
    + change (handles (stop_camera a c w1) !! c = None). by rewrite F1, lookup_delete_eq.
Qed.

Definition kept (cam : CameraConfig) (e0 : RunningCameraEntry) (t : Task) : bool :=
  key_eqb (e_key e0) (wanted default_detector_width cam) && running t.

Lemma visit_spec a current cam w : inv w -> handles w !! cam_id cam = current !! cam_id cam ->
  let w' := visit a current w cam in
  inv w' /\ spares a (cam_id cam) w w' /\
  exists e t, handles w' !! cam_id cam = Some e /\ tasks w' !! e_task e = Some t /\ running t = true /\
    restart_key (e_key e) = restart_key (wanted default_detector_width cam) /\
    match current !! cam_id cam with
    | Some e0 => exists t0, tasks (tasks_end (ended a (cam_id cam)) w) !! e_task e0 = Some t0 /\
        if kept cam e0 t0 then e_task e = e_task e0 /\ e_key e = e_key e0 /\ t = t0 else (next_task w <= e_task e)%nat
    | None => (next_task w <= e_task e)%nat
    end.
Proof.
  intros Hw Hc. unfold visit. cbn zeta. set (c := cam_id cam) in *. destruct (tasks_ends_spec (ended a c) w Hw) as (I1 & E1 & E2 & E3 & E4).
  set (w1 := tasks_end (ended a c) w) in *. assert (forall n t, tasks w !! n = Some t -> exists t', tasks w1 !! n = Some t' /\ aged a n t t') as A1 by (intros; by apply ends_aged).
  set (want := wanted default_detector_width cam).
  assert (forall w2, inv w2 -> handles w2 = delete c (handles w) -> next_task w2 = next_task w ->
    (forall n t, tasks w !! n = Some t -> (forall e, handles w !! c = Some e -> e_task e <> n) -> exists t', tasks w2 !! n = Some t' /\ aged a n t t') ->
    let w' := start_camera a cam want w2 in inv w' /\ spares a c w w' /\
    exists e t, handles w' !! c = Some e /\ tasks w' !! e_task e = Some t /\ running t = true /\ restart_key (e_key e) = restart_key want /\ (next_task w <= e_task e)%nat) as Hstart.
  { intros w2 I2 H2 N2 A2. destruct (start_spec a cam want w2 I2) as (I3 & N3 & T3 & s & H3); [by rewrite H2, lookup_delete_eq|done|]. cbn zeta.
    split_and!; [done|split_and!|].
    - rewrite N3, N2. lia.
    - intros d Hd. rewrite H3, H2. by rewrite lookup_insert_ne, lookup_delete_ne.
    - intros n t Ht Hn. destruct (A2 n t Ht Hn) as (t' & Ht' & Ha). exists t'. split; [|done]. rewrite T3, lookup_insert_ne; [done|].
      rewrite N2. apply (inv_next _ Hw) in Ht. lia.
    - exists (mkRunning (next_task w2) want s), (fresh_task a cam want). rewrite H3, T3. fold c. rewrite !lookup_insert_eq. simpl. split_and!; try done. lia. }
  destruct (current !! c) as [e0|] eqn:Ec.
  - assert (linked w1 c e0) as (t0 & Ht0 & _ & _ & _ & Hab) by (apply (inv_linked _ I1); by rewrite E1).
    assert (task_finished w1 (e_task e0) = is_finished t0) as -> by (unfold task_finished; by rewrite Ht0).
    assert (key_eqb (e_key e0) want && negb (is_finished t0) = kept cam e0 t0) as -> by (unfold kept, running, is_finished; by rewrite Hab, andb_true_r). destruct (kept cam e0 t0) eqn:Ek.
    + destruct (retry_spec cam e0 w1 I1) as (I2 & N2 & T2 & s & H2); [by rewrite E1|]. cbn zeta in *. fold c in H2.
      unfold kept in Ek. apply andb_true_iff in Ek as [Ek Er]. apply key_eqb_iff in Ek.
      split_and!; [done|split_and!|].
      * rewrite N2, E3. lia.
      * intros d Hd. rewrite H2, E1. by rewrite lookup_insert_ne.
      * intros n t Ht _. rewrite T2. by apply A1.
      * exists (set_sessions s e0), t0. rewrite H2, T2, lookup_insert_eq. simpl. split_and!; try done. exists t0. unfold kept. split; [done|].
        rewrite Er, andb_true_r. by rewrite (proj2 (key_eqb_iff _ _) Ek).
    + destruct (stop_tasks a c w1) as (F1 & F2 & _). destruct (Hstart (stop_camera a c w1)) as (I3 & S3 & e & t & ? & ? & ? & ? & ?).
      * by apply stop_inv.
      * by rewrite F1, E1.
      * by rewrite F2.
      * intros n t Ht Hn. destruct (A1 n t Ht) as (t' & Ht' & Ha). exists t'. split; [|done]. apply stop_aged; [done|]. by rewrite E1.
      * split_and!; [done|done|]. exists e, t. split_and!; try done. exists t0. by rewrite Ek.
  - destruct (Hstart w1) as (I3 & S3 & e & t & ? & ? & ? & ? & ?); [done|rewrite E1; symmetry; by apply delete_id|done| |].
    + intros n t Ht _. by apply A1.
    + split_and!; [done|done|]. by exists e, t.
Qed.

Lemma distinct_tasks w c d e e' : inv w -> handles w !! c = Some e -> handles w !! d = Some e' -> c <> d -> e_task e <> e_task e'.
Proof.
  intros Hw Hc Hd Hne E. destruct (inv_linked _ Hw c e Hc) as (t & Ht & H1 & _). destruct (inv_linked _ Hw d e' Hd) as (t' & Ht' & H1' & _). rewrite E in Ht. congruence.
Qed.

Lemma gone_spec a live cs w : inv w ->
  let w' := foldl (remove_gone a live) w cs in
  inv w' /\ (next_task w <= next_task w')%nat /\
  (forall d, handles w' !! d = if bool_decide (d ∈ cs /\ d ∉ live) then None else handles w !! d) /\
  forall n t, tasks w !! n = Some t -> (forall c e, c ∈ cs -> c ∉ live -> handles w !! c = Some e -> e_task e <> n) ->
    exists t', tasks w' !! n = Some t' /\ aged a n t t'.
Proof.
  revert w. induction cs as [|c cs IH]; intros w Hw; cbn [foldl].
  - split_and!; [done|done| |intros n t Ht _; exists t; by split; [|left]]. intros d. rewrite bool_decide_false; [done|]. intros [Hd _]. by apply elem_of_nil in Hd.
  - destruct (remove_gone_spec a live w c Hw) as (I1 & (N1 & H1 & T1) & C1). destruct (IH _ I1) as (I2 & N2 & H2 & T2).
    split_and!; [done|lia| |].
    + intros d. rewrite H2. destruct (decide (d = c)) as [->|Hd].
      * rewrite C1. repeat case_bool_decide; set_solver.
      * rewrite H1 by done. repeat case_bool_decide; set_solver.
    + intros n t Ht Hn. assert (exists t1, tasks (remove_gone a live w c) !! n = Some t1 /\ aged a n t t1) as (t1 & Ht1 & A1).
      { destruct (decide (c ∈ live)) as [Hl|Hl]; [|apply T1; [done|]; intros e He; by apply (Hn c e); [left| |]].
        exists t. split; [|by left]. unfold remove_gone. by rewrite bool_decide_true. }
      destruct (T2 n t1 Ht1) as (t2 & Ht2 & A2); [|exists t2; split; [done|by eapply aged_trans]].
      intros d e Hd Hl He. destruct (decide (d = c)) as [->|Hdc]; [rewrite C1, bool_decide_false in He by done; done|].
      rewrite H1 in He by done. apply (Hn d e); [by right|done|done].
Qed.

Lemma aged_kept a cam e0 n t t' : aged a n t t' -> kept cam e0 t = false -> kept cam e0 t' = false.
Proof. intros [->|[-> _]] Hk; [done|]. unfold kept, running, end_task. simpl. by rewrite andb_false_r. Qed.

(** What became of a camera: its entry is for the configuration it now has, its supervisor runs (unless
    it ended meanwhile), and it is the one it had, or a new one. *)
Definition fate (a : Answers) (w w' : World) (o : option RunningCameraEntry) (cam : CameraConfig) : Prop :=
  exists e t, handles w' !! cam_id cam = Some e /\ tasks w' !! e_task e = Some t /\
    (running t = true \/ exists c, e_task e ∈ ended a c) /\
    restart_key (e_key e) = restart_key (wanted default_detector_width cam) /\
    match o with
    | Some e0 => forall t0, tasks w !! e_task e0 = Some t0 ->
        if kept cam e0 t0 then (forall c, e_task e0 ∉ ended a c) -> e_task e = e_task e0 /\ e_key e = e_key e0 /\ t = t0
        else (next_task w <= e_task e)%nat
    | None => (next_task w <= e_task e)%nat
    end.

(** The fate of a camera as its own visit leaves it. *)
Lemma visit_fate a current cam w : inv w -> handles w !! cam_id cam = current !! cam_id cam -> fate a w (visit a current w cam) (current !! cam_id cam) cam.
Proof.
  intros Hw Hc. destruct (visit_spec a current cam w Hw Hc) as (_ & _ & e & t & H1 & H2 & H3 & H4 & H5). exists e, t. split_and!; [done|done|by left|done|].
  destruct (current !! cam_id cam) as [e0|]; [|done]. destruct H5 as (t1 & Ht1 & H5). intros t0 Ht0.
  destruct (tasks_ends_spec (ended a (cam_id cam)) w Hw) as (_ & _ & _ & _ & E). rewrite E, Ht0 in Ht1. destruct (kept cam e0 t0) eqn:Ek.
  - intros Hn. rewrite bool_decide_false in Ht1 by apply Hn. injection Ht1 as <-. by rewrite Ek in H5.
  - rewrite (aged_kept a cam e0 (e_task e0) t0 t1) in H5; [done| |done]. case_bool_decide; injection Ht1 as <-; [right; split; [done|by eexists]|by left].
Qed.

(** What other cameras' steps leave of it, before and after. *)
Lemma fate_later a w w1 w2 o cam : fate a w w1 o cam ->
  (forall e, handles w1 !! cam_id cam = Some e -> handles w2 !! cam_id cam = Some e /\
     forall t, tasks w1 !! e_task e = Some t -> exists t', tasks w2 !! e_task e = Some t' /\ aged a (e_task e) t t') ->
  fate a w w2 o cam.
Proof.
  intros (e & t & H1 & H2 & H3 & H4 & H5) Hl. destruct (Hl e H1) as [H1' Ht]. destruct (Ht t H2) as (t' & Ht' & Ha).
  exists e, t'. split_and!; [done|done| |done|].
  - destruct Ha as [->|[-> Hc]]; [done|by right].
  - destruct o as [e0|]; [|done]. intros t0 Ht0. specialize (H5 t0 Ht0). destruct (kept cam e0 t0); [|done]. intros Hn.
    destruct (H5 Hn) as (E1 & E2 & ->). split_and!; [done|done|]. destruct Ha as [->|[_ [c Hc]]]; [done|]. exfalso. apply (Hn c). by rewrite <- E1.
Qed.

Lemma fate_earlier a w w1 w2 o cam : fate a w1 w2 o cam -> (next_task w <= next_task w1)%nat ->
  (forall e0 t0, o = Some e0 -> tasks w !! e_task e0 = Some t0 -> exists t1, tasks w1 !! e_task e0 = Some t1 /\ aged a (e_task e0) t0 t1) ->
  fate a w w2 o cam.
Proof.
  intros (e & t & H1 & H2 & H3 & H4 & H5) Hn Ht. exists e, t. split_and!; [done|done|done|done|]. destruct o as [e0|]; [|lia].
  intros t0 Ht0. destruct (Ht e0 t0 eq_refl Ht0) as (t1 & Ht1 & Ha). specialize (H5 t1 Ht1). destruct (kept cam e0 t0) eqn:Ek.
  - intros Hc. destruct Ha as [->|[_ [c Hc']]]; [|by destruct (Hc c)]. rewrite Ek in H5. by apply H5.
  - rewrite (aged_kept a cam e0 (e_task e0) t0 t1 Ha Ek) in H5. lia.
Qed.

Lemma visits_spec a current cams w : inv w -> NoDup (cam_id <$> cams) ->
  (forall cam, cam ∈ cams -> handles w !! cam_id cam = current !! cam_id cam) ->
  let w' := foldl (visit a current) w cams in
  inv w' /\ (next_task w <= next_task w')%nat /\ (forall d, d ∉ cam_id <$> cams -> handles w' !! d = handles w !! d) /\
  (forall n t, tasks w !! n = Some t -> (forall c e, c ∈ cam_id <$> cams -> handles w !! c = Some e -> e_task e <> n) ->
    exists t', tasks w' !! n = Some t' /\ aged a n t t') /\
  forall cam, cam ∈ cams -> fate a w w' (current !! cam_id cam) cam.
Proof.
  revert w. induction cams as [|x cams IH]; intros w Hw Hd Hc; simpl.
  - split_and!; [done|done|done| |by intros cam Hcam%elem_of_nil]. intros n t Ht _. exists t. by split; [|left].
  - apply NoDup_cons in Hd as [Hx Hd]. assert (handles w !! cam_id x = current !! cam_id x) as Hcx by (apply Hc; left).
    destruct (visit_spec a current x w Hw Hcx) as (I1 & (N1 & H1 & T1) & _). pose proof (visit_fate a current x w Hw Hcx) as F1.
    set (w1 := visit a current w x) in *. assert (forall cam, cam ∈ cams -> cam_id cam <> cam_id x) as Hne.
    { intros cam Hcam E. apply Hx. rewrite <- E. apply list_elem_of_fmap. by exists cam. }
    destruct (IH w1 I1 Hd) as (I2 & N2 & H2 & T2 & F2).
    { intros cam Hcam. rewrite H1 by by apply Hne. apply Hc. by right. }
    split_and!; [done|lia| | |].
    + intros d Hdd. rewrite H2, H1; [done| |]; intros E; apply Hdd; subst; [left|by right].
    + intros n t Ht Hn. destruct (T1 n t Ht) as (t1 & Ht1 & A1); [intros e He; apply (Hn (cam_id x) e); [left|done]|].
      destruct (T2 n t1 Ht1) as (t2 & Ht2 & A2); [|exists t2; split; [done|by eapply aged_trans]].
      intros c e Hcc He. rewrite H1 in He by (intros ->; by apply Hx). apply (Hn c e); [by right|done].
    + intros cam Hcam. apply elem_of_cons in Hcam as [->|Hcam].
      * apply (fate_later a w w1); [exact F1|]. intros e He. split; [by rewrite H2|]. intros t Ht. apply T2; [done|]. intros c e' Hcc He'.
        apply (distinct_tasks w1 c (cam_id x)); [done|done|done|]. by intros ->.
      * apply (fate_earlier a w w1); [by apply F2|done|]. intros e0 t0 E0 Ht0. apply T1; [done|]. intros e He.
        apply (distinct_tasks w (cam_id x) (cam_id cam)); [done|done| |by apply not_eq_sym, Hne]. rewrite <- E0. apply Hc. by right.
Qed.

Lemma elem_of_enabled t cam : ids_match t -> cam ∈ enabled_cams (list_readable_cameras t).1 <-> t !! cam_id cam = Some (Some cam) /\ enabled (ingest cam) = true.
Proof. intros Ht. unfold enabled_cams. rewrite list_elem_of_filter, elem_of_readable by done. tauto. Qed.

Lemma enabled_nodup t : ids_match t -> NoDup (cam_id <$> enabled_cams (list_readable_cameras t).1).
Proof.
  intros Ht. eapply sublist_NoDup; [by apply (readable_nodup t)|]. unfold enabled_cams.
  generalize ((list_readable_cameras t).1). induction l as [|c l IH]; [done|]. rewrite filter_cons. case_decide; simpl; [by apply sublist_skip|by apply sublist_cons].
Qed.

Lemma pass_spec a w t : inv w -> rows a = Some t -> ids_match t ->
  let w' := (reconcile a w).2 in
  inv w' /\ (forall c, is_Some (handles w' !! c) <-> exists cam, t !! c = Some (Some cam) /\ enabled (ingest cam) = true) /\
  forall cam, t !! cam_id cam = Some (Some cam) -> enabled (ingest cam) = true -> fate a w w' (handles w !! cam_id cam) cam.
Proof.
  intros Hw Hr Ht. unfold reconcile. rewrite Hr. pose proof (enabled_nodup t Ht) as Hd. pose proof (fun cam => elem_of_enabled t cam Ht) as He.
  destruct (list_readable_cameras t) as [live bad]. simpl fst in *. cbn zeta. set (w0 := set_unreadable bad w).
  assert (inv w0) as I0 by (split; [exact (inv_linked _ Hw)|exact (inv_next _ Hw)|exact (inv_running _ Hw)|exact (inv_rec _ Hw)|exact (inv_sessions _ Hw)]).
  set (on := list_to_set (cam_id <$> enabled_cams live) : gset Z).
  assert (forall c, c ∈ on <-> c ∈ cam_id <$> enabled_cams live) as Hon by (intros; apply elem_of_list_to_set).
  destruct (gone_spec a on (map_to_list (handles w0)).*1 w0 I0) as (I1 & N1 & H1 & T1). set (w1 := foldl (remove_gone a on) w0 _) in *.
  assert (forall c, handles w1 !! c = if bool_decide (c ∈ on) then handles w !! c else None) as H1'.
  { intros c. rewrite H1. destruct (handles w !! c) as [e|] eqn:E; [|repeat case_bool_decide; done]. assert (c ∈ (map_to_list (handles w0)).*1) as Hc.
    { apply list_elem_of_fmap. exists (c, e). split; [done|]. by apply elem_of_map_to_list. }
    repeat case_bool_decide; tauto. }
  assert (forall cam, cam ∈ enabled_cams live -> cam_id cam ∈ on) as Hin by (intros cam Hc; apply Hon, list_elem_of_fmap; by exists cam).
  destruct (visits_spec a (handles w0) (enabled_cams live) w1 I1 Hd) as (I2 & N2 & H2 & T2 & F2).
  { intros cam Hc. by rewrite H1', bool_decide_true by by apply Hin. }
  cbn [snd]. split_and!; [done| |].
  - intros c. destruct (decide (c ∈ cam_id <$> enabled_cams live)) as [Hc|Hc].
    + apply list_elem_of_fmap in Hc as (cam & -> & Hc). destruct (F2 cam Hc) as (e & ? & -> & _). split; [|done]. intros _. exists cam. by apply He.
    + rewrite H2, H1', bool_decide_false by (try rewrite Hon; done). split; [by intros []|]. intros (cam & E1 & E2). destruct Hc.
      assert (cam_id cam = c) as <- by by apply Ht. apply list_elem_of_fmap. exists cam. split; [done|]. by apply He.
  - intros cam E1 E2. assert (cam ∈ enabled_cams live) as Hc by by apply He.
    apply (fate_earlier a w w1); [by apply F2|done|]. intros e0 t0 E0 Ht0. apply T1; [done|]. intros d e _ Hn E.
    apply (distinct_tasks w d (cam_id cam)); [done|done|done|]. intros ->. by apply Hn, Hin.
Qed.

(** ** From boot on *)

(** The entry boot makes of a camera. *)
Definition boot_start (boot : BootSessions) (cam : CameraConfig) : Start := (at_boot default_detector_width cam boot).1.

Lemma boot_start_other boot cam x : cam_id x <> cam_id cam -> boot_start (at_boot default_detector_width cam boot).2 x = boot_start boot x.
Proof. intros Hx. unfold boot_start, at_boot. simpl. by rewrite !lookup_delete_ne. Qed.

Record tasks_inv (w : World) : Prop := {
  ti_linked : forall c e, handles w !! c = Some e -> linked w c e;
  ti_next : forall n t, tasks w !! n = Some t -> (n < next_task w)%nat;
  ti_running : forall n t, tasks w !! n = Some t -> running t = true -> exists e, handles w !! cam_id (t_cam t) = Some e /\ e_task e = n;
}.

Lemma spawn_tasks_inv cam start seed w : tasks_inv w -> handles w !! cam_id cam = None ->
  let '(e, w') := spawn_supervisor cam start seed w in
  tasks_inv (on_handles (insert (cam_id cam) e) w') /\ e = mkRunning (next_task w) (st_key start) (st_sessions start).
Proof.
  intros [H1 H2 H3] Hn. unfold spawn_supervisor. split; [|done]. split; simpl.
  - intros d e. rewrite lookup_insert_Some. intros [[<- <-]|[Hd He]].
    + eexists. simpl. rewrite lookup_insert_eq. by split_and!.
    + destruct (H1 d e He) as (t & Ht & H'). exists t. simpl. split; [|done]. rewrite lookup_insert_ne; [done|]. intros E. apply H2 in Ht. lia.
  - intros n t. rewrite lookup_insert_Some. intros [[<- _]|[_ Ht]]; [lia|]. apply H2 in Ht. lia.
  - intros n t. rewrite lookup_insert_Some. intros [[<- <-]|[Hne Ht]] Hr.
    + simpl. rewrite lookup_insert_eq. by eexists.
    + destruct (H3 n t Ht Hr) as (e & He & <-). exists e. split; [|done]. rewrite lookup_insert_ne; [done|]. intros E. congruence.
Qed.

Lemma boot_cameras_spec seed_all cameras boot w : tasks_inv w -> NoDup (cam_id <$> cameras) ->
  (forall cam, cam ∈ cameras -> handles w !! cam_id cam = None) ->
  let w' := boot_cameras seed_all cameras boot w in
  tasks_inv w' /\ rec w' = rec w /\
  (forall d, d ∉ cam_id <$> enabled_cams cameras -> handles w' !! d = handles w !! d) /\
  forall cam, cam ∈ enabled_cams cameras -> exists n, handles w' !! cam_id cam = Some (mkRunning n (st_key (boot_start boot cam)) (st_sessions (boot_start boot cam))).
Proof.
  unfold boot_cameras. revert boot w. induction cameras as [|x cams IH]; intros boot w Hw Hd Hn; cbn [foldl].
  - split_and!; [done|done|done|by intros cam Hc%elem_of_nil].
  - apply NoDup_cons in Hd as [Hx Hd]. unfold enabled_cams. rewrite filter_cons. case_decide as Hen.
    + pose proof (spawn_tasks_inv x (boot_start boot x) (filter (fun s => seed_camera s = cam_id x) seed_all) w Hw) as Hs.
      assert (boot_camera seed_all (w, boot) x = (on_handles (insert (cam_id x) (spawn_supervisor x (boot_start boot x) (filter (fun s => seed_camera s = cam_id x) seed_all) w).1)
        (spawn_supervisor x (boot_start boot x) (filter (fun s => seed_camera s = cam_id x) seed_all) w).2, (at_boot default_detector_width x boot).2)) as ->.
      { unfold boot_camera. by rewrite Hen. }
      destruct (spawn_supervisor x (boot_start boot x) _ w) as [e w1] eqn:Es. cbn [fst snd].
      destruct Hs as [I1 ->]; [apply Hn; left|].
      assert (handles w1 = handles w /\ rec w1 = rec w) as [E1 E2] by (unfold spawn_supervisor in Es; by inversion Es).
      destruct (IH (at_boot default_detector_width x boot).2 (on_handles (insert (cam_id x) (mkRunning (next_task w) (st_key (boot_start boot x)) (st_sessions (boot_start boot x)))) w1) I1 Hd) as (I2 & R2 & H2 & F2).
      { intros cam Hc. simpl. rewrite E1, lookup_insert_ne; [apply Hn; by right|]. intros E. apply Hx. rewrite E. apply list_elem_of_fmap. by exists cam. }
      assert (forall d, d ∈ cam_id <$> enabled_cams cams -> d ∈ cam_id <$> cams) as Hsub.
      { intros d. rewrite !list_elem_of_fmap. intros (cam & -> & Hc). exists cam. split; [done|]. by apply list_elem_of_filter in Hc as [_ ?]. }
      split_and!; [done|by rewrite R2|..].
      * intros d Hdd. rewrite H2 by (intros E; apply Hdd; by right). simpl. rewrite E1, lookup_insert_ne; [done|]. intros <-. apply Hdd. left.
      * intros cam Hc. apply elem_of_cons in Hc as [->|Hc].
        -- rewrite H2 by (intros E; by apply Hx, Hsub). simpl. rewrite lookup_insert_eq. by eexists.
        -- destruct (F2 cam Hc) as (n & ->). exists n. rewrite boot_start_other; [done|]. intros E. apply Hx. rewrite <- E.
           apply list_elem_of_fmap. exists cam. split; [done|]. by apply list_elem_of_filter in Hc as [_ ?].
    + assert (boot_camera seed_all (w, boot) x = (w, boot)) as -> by (unfold boot_camera; by destruct (enabled (ingest x))).
      apply IH; [done|done|]. intros cam Hc. apply Hn. by right.
Qed.

(** [build_gst_recorder]: the enabled cameras are registered with a new recorder, every camera's codec
    pin is set, and those with something outstanding or a substream go through [register_boot_sessions]. *)
Fixpoint build_taps (a : Answers) (cameras : list CameraConfig) (r : R) : list (CameraConfig * CodecKind * (Z * Z) * bool) * gmap Z (Z * Z) * R :=
  match cameras with
  | [] => ([], ∅, r)
  | cam :: cameras =>
      if enabled (ingest cam) then
        let dims := supervisor_dims_for cam default_detector_width in
        let codec := resolve_codec a cam in
        let '(registered, r) := add_camera_ingester (cam_id cam) (url_text (url (ingest cam))) pre_roll_secs (max_fps (ingest cam)) dims.1 dims.2 codec r in
        let '(pending, taps, r) := build_taps a cameras r in
        match registered with
        | Ok _ => ((if is_some (analysis_url (ingest cam)) then [(cam, codec, dims, true)] else []) ++ pending, <[cam_id cam := dims]> taps, r)
        | Err _ => ((cam, codec, dims, false) :: pending, taps, r)
        end
      else build_taps a cameras r
  end.

Definition build_recorder (a : Answers) (cameras : list CameraConfig) (r : R) : BootSessions * R :=
  let '(pending, taps, r) := build_taps a cameras r in
  let r := foldl (fun r cam => set_camera_codec_pin (cam_id cam) (codec (ingest cam)) r) r cameras in
  let '(boot, r) := register_boot_sessions a pending ∅ r in
  (with_taps boot taps, r).

Definition boot (a : Answers) (seed_all : list EntityLocalSeed) (t : CamerasTable) (w : World) : World :=
  let '(cameras, unreadable) := list_readable_cameras t in
  let '(sessions, r) := build_recorder a cameras (rec w) in
  boot_cameras seed_all cameras sessions (set_unreadable unreadable (set_rec r w)).

Abbreviation pend_id p := (cam_id p.1.1.1).

Lemma register_spec a pending acc r : rec_sound r -> NoDup ((fun p => pend_id p) <$> pending) ->
  let '(b, r') := register_boot_sessions a pending acc r in
  rec_sound r' /\ (forall d, d ∉ (fun p => pend_id p) <$> pending -> main_of r' d = main_of r d /\ sub_of r' d = sub_of r d /\ boot_sessions b !! d = acc !! d) /\
  forall p, p ∈ pending -> exists s, boot_sessions b !! pend_id p = Some s /\ main_of r' (pend_id p) = main_of r (pend_id p) /\
    (main_pending s = None <-> p.2 = true) /\
    (sub_of r (pend_id p) = None -> forall u, sub_of r' (pend_id p) = Some u -> url_text <$> analysis_url (ingest p.1.1.1) = Some u).
Proof.
  revert acc r. induction pending as [|[[[cam k] dims] b] pending IH]; intros acc r Hr Hd; simpl.
  - split_and!; [done|done|by intros p Hp%elem_of_nil].
  - apply NoDup_cons in Hd as [Hx Hd]. pose proof (start_sessions_only a cam k dims b r) as O1. pose proof (start_sessions_views a cam k dims b r Hr) as V.
    destruct (start_sessions a cam k dims b r) as [s r1]. destruct V as (V1 & V2 & V3). simpl in O1, Hx.
    assert (rec_sound r1) as Hr1 by by apply O1. specialize (IH (<[cam_id cam := s]> acc) r1 Hr1 Hd).
    destruct (register_boot_sessions a pending _ r1) as [bs r2]. destruct IH as (S2 & N2 & P2). split_and!; [done|..].
    + intros d Hdd. apply not_elem_of_cons in Hdd as [Hdx Hdd]. simpl in Hdx. destruct (N2 d Hdd) as (-> & -> & ->). destruct O1 as [_ O1].
      destruct (O1 Hr d Hdx) as [-> ->]. by rewrite lookup_insert_ne.
    + intros p Hp. apply elem_of_cons in Hp as [->|Hp]; simpl.
      * destruct (N2 (cam_id cam) Hx) as (E1 & E2 & E3). exists s. rewrite E1, E2, E3, lookup_insert_eq. by split_and!.
      * destruct (P2 p Hp) as (s' & E1 & E2 & E3 & E4). exists s'. assert (pend_id p <> cam_id cam) as Hne.
        { intros E. apply Hx. rewrite <- E. apply list_elem_of_fmap. by exists p. }
        destruct O1 as [_ O1]. destruct (O1 Hr _ Hne) as [F1 F2]. split_and!; [done|congruence|done|]. intros Hs. apply E4. congruence.
Qed.

(** What the first part of boot leaves for a camera. *)
Definition tapped (pending : list (CameraConfig * CodecKind * (Z * Z) * bool)) (taps : gmap Z (Z * Z)) (r : R) (cam : CameraConfig) : Prop :=
  exists b, taps !! cam_id cam = (if b : bool then Some (supervisor_dims_for cam default_detector_width) else None) /\ sub_of r (cam_id cam) = None /\
    (forall u, main_of r (cam_id cam) = Some u -> u = url_text (url (ingest cam))) /\
    (keeps_sessions = true -> b = true -> main_of r (cam_id cam) = Some (url_text (url (ingest cam)))) /\
    (forall p, p ∈ pending -> pend_id p = cam_id cam -> p.1.1.1 = cam /\ p.2 = b) /\
    ((exists p, p ∈ pending /\ pend_id p = cam_id cam) \/ b = true).

Lemma build_taps_spec a cams r : rec_sound r -> NoDup (cam_id <$> cams) -> (forall c, main_of r c = None /\ sub_of r c = None) ->
  let '(pending, taps, r') := build_taps a cams r in
  rec_sound r' /\ (fun p => pend_id p) <$> pending `sublist_of` cam_id <$> enabled_cams cams /\
  (forall d, d ∉ cam_id <$> enabled_cams cams -> taps !! d = None /\ main_of r' d = None /\ sub_of r' d = None) /\
  forall cam, cam ∈ enabled_cams cams -> tapped pending taps r' cam.
Proof.
  intros Hr Hd H0. assert (forall c, c ∈ cam_id <$> cams -> main_of r c = None /\ sub_of r c = None) as Hc0 by auto.
  assert (let '(pending, taps, r') := build_taps a cams r in
    rec_sound r' /\ (fun p => pend_id p) <$> pending `sublist_of` cam_id <$> enabled_cams cams /\
    (forall d, d ∉ cam_id <$> enabled_cams cams -> taps !! d = None /\ main_of r' d = main_of r d /\ sub_of r' d = sub_of r d) /\
    forall cam, cam ∈ enabled_cams cams -> tapped pending taps r' cam) as Hall.
  2: { destruct (build_taps a cams r) as [[pending taps] r']. destruct Hall as (S & L & N & T). split_and!; [done|done| |done].
       intros d Hdd. destruct (N d Hdd) as (-> & -> & ->). by destruct (H0 d). }
  clear H0. revert r Hr Hc0. induction cams as [|x cams IH]; intros r Hr Hc0; simpl.
  - split_and!; [done|done|by intros d _; rewrite lookup_empty|by intros cam Hc%elem_of_nil].
  - apply NoDup_cons in Hd as [Hx Hd]. unfold enabled_cams. rewrite filter_cons. case_decide as Hen.
    2: { apply not_true_is_false in Hen. rewrite Hen. apply IH; [done|done|]. intros c Hc. apply Hc0. by right. }
    rewrite Hen. fold (enabled_cams cams). set (c := cam_id x) in *. set (dims := supervisor_dims_for x default_detector_width). set (k := resolve_codec a x). set (u := url_text (url (ingest x))).
    pose proof (only_add c u pre_roll_secs (max_fps (ingest x)) dims.1 dims.2 k r) as O1.
    pose proof (add_main c u pre_roll_secs (max_fps (ingest x)) dims.1 dims.2 k r Hr) as M1.
    pose proof (add_main_or c u pre_roll_secs (max_fps (ingest x)) dims.1 dims.2 k r Hr) as M2.
    pose proof (add_sub c u pre_roll_secs (max_fps (ingest x)) dims.1 dims.2 k r c Hr) as U1. cbn zeta in *.
    destruct (add_camera_ingester c u _ _ _ _ _ r) as [reg r1]. simpl in O1, M1, M2, U1.
    destruct (Hc0 c) as [Z1 Z2]; [left|]. assert (forall d, d ∈ cam_id <$> enabled_cams cams -> d ∈ cam_id <$> cams) as Hsub.
    { intros d. rewrite !list_elem_of_fmap. intros (cam & -> & Hc). exists cam. split; [done|]. by apply list_elem_of_filter in Hc as [_ ?]. }
    specialize (IH Hd r1 (proj1 O1 Hr)). destruct (build_taps a cams r1) as [[pending taps] r'].
    destruct IH as (S & L & N & T). { intros d Hdd. destruct (proj2 O1 Hr d) as [-> ->]; [by intros ->|]. apply Hc0. by right. }
    assert (c ∉ cam_id <$> enabled_cams cams) as Hxe by (intros E; by apply Hx, Hsub). destruct (N c Hxe) as (N1 & N2 & N3).
    assert (forall p, p ∈ pending -> pend_id p <> c) as Hpc.
    { intros p Hp E. apply Hxe. eapply sublist_subseteq; [exact L|]. rewrite <- E. apply list_elem_of_fmap. by exists p. }
    assert (forall b pend' taps', (forall p, p ∈ pend' -> p.1.1.1 = x /\ p.2 = b) -> (length pend' <= 1)%nat -> (pend' = [] -> b = true) ->
      taps' = (if b : bool then <[c := dims]> taps else taps) -> (keeps_sessions = true -> b = true -> main_of r1 c = Some u) ->
      rec_sound r' /\ (fun p => pend_id p) <$> pend' ++ pending `sublist_of` cam_id <$> x :: enabled_cams cams /\
      (forall d, d ∉ cam_id <$> x :: enabled_cams cams -> taps' !! d = None /\ main_of r' d = main_of r d /\ sub_of r' d = sub_of r d) /\
      forall cam, cam ∈ x :: enabled_cams cams -> tapped (pend' ++ pending) taps' r' cam) as Hgo.
    { intros b pend' taps' Hp' Hl Hnil -> Hk. split_and!; [done|..].
      - rewrite fmap_app. destruct pend' as [|p [|? ?]]; simpl in *; [by apply sublist_cons| |lia].
        destruct (Hp' p) as [-> _]; [left|]. by apply sublist_skip.
      - intros d Hdd. apply not_elem_of_cons in Hdd as [Hdx Hdd]. destruct (N d Hdd) as (E1 & -> & ->). destruct (proj2 O1 Hr d Hdx) as [-> ->].
        split_and!; [|done|done]. destruct b; [by rewrite lookup_insert_ne|done].
      - intros cam Hc. apply elem_of_cons in Hc as [->|Hc].
        + exists b. fold c. split_and!.
          * destruct b; [by rewrite lookup_insert_eq|done].
          * congruence.
          * intros v. rewrite N2. destruct M2 as [->|E]; [by intros [= <-]|]. rewrite E, Z1. done.
          * intros K1 K2. rewrite N2. by apply Hk.
          * intros p Hp E. apply elem_of_app in Hp as [Hp|Hp]; [by apply Hp'|by destruct (Hpc p Hp)].
          * destruct pend' as [|p pend']; [right; by apply Hnil|left]. exists p. split; [left|]. destruct (Hp' p) as [-> _]; [left|done].
        + destruct (T cam Hc) as (b' & T1 & T2 & T3 & T4 & T5 & T6). assert (cam_id cam <> c) as Hne.
          { intros E. apply Hxe. rewrite <- E. apply list_elem_of_fmap. by exists cam. }
          exists b'. split_and!; [destruct b; [by rewrite lookup_insert_ne|done]|done|done|done| |].
          * intros p Hp E. apply elem_of_app in Hp as [Hp|Hp]; [|by apply T5]. destruct (Hp' p Hp) as [Ep _]. rewrite Ep in E. by destruct Hne.
          * destruct T6 as [(p & Hp & E)|T6]; [left|by right]. exists p. split; [|done]. apply elem_of_app. by right. }
    destruct reg as [[]|err].
    + apply (Hgo true); [|by destruct (is_some _); simpl; lia|done|done|auto]. intros p Hp. destruct (is_some (analysis_url (ingest x))); [|by apply elem_of_nil in Hp].
      apply list_elem_of_singleton in Hp. by subst p.
    + apply (Hgo false [(x, k, dims, false)]); [|simpl; lia|done|done|done]. intros p Hp. apply list_elem_of_singleton in Hp. by subst p.
Qed.

(** An engine before boot: no camera, no task, a recorder without sessions. *)
Definition blank (w : World) : Prop :=
  handles w = ∅ /\ tasks w = ∅ /\ rec_sound (rec w) /\ forall c, main_of (rec w) c = None /\ sub_of (rec w) c = None.

Lemma pins_views (cams : list CameraConfig) r : rec_sound r ->
  let r' := foldl (fun r cam => set_camera_codec_pin (cam_id cam) (codec (ingest cam)) r) r cams in
  rec_sound r' /\ forall d, main_of r' d = main_of r d /\ sub_of r' d = sub_of r d.
Proof.
  revert r. induction cams as [|x cams IH]; intros r Hr; simpl; [done|].
  destruct (IH (set_camera_codec_pin (cam_id x) (codec (ingest x)) r)) as [S V]; [by apply pin_sound|]. split; [done|].
  intros d. destruct (V d) as [-> ->]. by rewrite pin_main, pin_sub.
Qed.

Lemma build_recorder_spec a cams r : rec_sound r -> NoDup (cam_id <$> cams) -> (forall c, main_of r c = None /\ sub_of r c = None) ->
  let '(b, r') := build_recorder a cams r in
  rec_sound r' /\ (forall d, d ∉ cam_id <$> enabled_cams cams -> main_of r' d = None /\ sub_of r' d = None) /\
  forall cam, cam ∈ enabled_cams cams -> st_key (boot_start b cam) = wanted default_detector_width cam /\
    forall n, sessions_ok r' (cam_id cam) (Some (mkRunning n (st_key (boot_start b cam)) (st_sessions (boot_start b cam)))).
Proof.
  intros Hr Hd H0. unfold build_recorder. pose proof (build_taps_spec a cams r Hr Hd H0) as HB. destruct (build_taps a cams r) as [[pending taps] r1].
  destruct HB as (S1 & L1 & N1 & T1). destruct (pins_views cams r1 S1) as [S2 V2]. set (r2 := foldl _ r1 cams) in *.
  assert (NoDup ((fun p => pend_id p) <$> pending)) as Hp.
  { eapply sublist_NoDup; [|exact L1]. eapply sublist_NoDup; [exact Hd|]. clear. induction cams as [|c l IH]; [done|]. unfold enabled_cams in *. rewrite filter_cons.
    case_decide; simpl; [by apply sublist_skip|by apply sublist_cons]. }
  pose proof (register_spec a pending ∅ r2 S2 Hp) as HR. destruct (register_boot_sessions a pending ∅ r2) as [b r3]. destruct HR as (S3 & N3 & P3).
  split_and!; [done|..].
  - intros d Hdd. destruct (N3 d) as (-> & -> & _); [intros E; apply Hdd; by eapply sublist_subseteq|]. destruct (V2 d) as [-> ->]. by apply N1.
  - intros cam Hc. destruct (T1 cam Hc) as (ok & E1 & E2 & E3 & E4 & E5 & E6). destruct (V2 (cam_id cam)) as [F1 F2].
    assert (st_key (boot_start (with_taps b taps) cam) = wanted default_detector_width cam) as Hk.
    { unfold boot_start, at_boot, with_taps. simpl. rewrite E1. by destruct ok. }
    split; [done|]. intros n. unfold sessions_ok. cbn [e_key e_sessions]. rewrite Hk. simpl k_url. simpl k_analysis_url.
    unfold boot_start, at_boot, with_taps. simpl st_sessions.
    destruct (decide (cam_id cam ∈ (fun p => pend_id p) <$> pending)) as [Hin|Hin].
    + apply list_elem_of_fmap in Hin as (p & Ep & Hin). symmetry in Ep. destruct (E5 p Hin Ep) as [Ec Eb]. destruct (P3 p Hin) as (s & G1 & G2 & G3 & G4).
      rewrite Ep in G1, G2, G4. rewrite G1. simpl. split_and!.
      * intros u. rewrite G2, F1. apply E3.
      * intros u Hu. rewrite Ec in G4. apply G4; [congruence|done].
      * intros K1 K2. rewrite G2, F1. apply E4; [done|]. rewrite <- Eb. by apply G3.
    + destruct (N3 _ Hin) as (G1 & G2 & G3). rewrite G3, lookup_empty. simpl. split_and!.
      * intros u. rewrite G1, F1. apply E3.
      * intros u. by rewrite G2, F2, E2.
      * intros K1 _. rewrite G1, F1. apply E4; [done|]. destruct E6 as [(p & Hp' & E)|E6]; [|done]. destruct Hin. apply list_elem_of_fmap. by exists p.
Qed.

Lemma boot_spec a seeds t w : ids_match t -> blank w -> let w' := boot a seeds t w in
  inv w' /\ forall cam, t !! cam_id cam = Some (Some cam) -> enabled (ingest cam) = true ->
    exists e, handles w' !! cam_id cam = Some e /\ e_key e = wanted default_detector_width cam.
Proof.
  intros Ht (B1 & B2 & B3 & B4). unfold boot. pose proof (readable_nodup t Ht) as Hd. pose proof (fun cam => elem_of_enabled t cam Ht) as He.
  destruct (list_readable_cameras t) as [cams bad]. simpl fst in *. pose proof (build_recorder_spec a cams (rec w) B3 Hd B4) as HB.
  destruct (build_recorder a cams (rec w)) as [b r]. destruct HB as (S & N & T). set (w1 := set_unreadable bad (set_rec r w)).
  assert (tasks_inv w1) as I1 by (split; simpl; rewrite ?B1, ?B2; set_solver).
  destruct (boot_cameras_spec seeds cams b w1 I1 Hd) as ([J1 J2 J3] & Er & N2 & F); [intros; simpl; by rewrite B1, lookup_empty|].
  cbn zeta. split.
  - split; [done|done|done|by rewrite Er|]. intros c. rewrite Er. simpl rec. destruct (decide (c ∈ cam_id <$> enabled_cams cams)) as [Hc|Hc].
    + apply list_elem_of_fmap in Hc as (cam & -> & Hc). destruct (F cam Hc) as [n ->]. by apply T.
    + rewrite N2 by done. simpl. rewrite B1, lookup_empty. by apply N.
  - intros cam E1 E2. assert (cam ∈ enabled_cams cams) as Hc by by apply He. destruct (F cam Hc) as [n ->]. eexists. split; [done|]. by apply T.
Qed.

(** The engine: the table of cameras and the reconciler's state. Rows are written, the loop takes a
    turn on the rows of the moment or on a failed read, tasks end, a substream falls back, and the
    supervisors write what they observe. *)
Abbreviation Sys := (CamerasTable * World)%type.

Inductive sys_step : Sys -> Sys -> Prop :=
| step_upsert t w cam : sys_step (t, w) (upsert_camera_tx cam t, w)
| step_create t w new_id cam : t !! new_id = None -> sys_step (t, w) ((create_camera_tx new_id cam t).2, w)
| step_delete t w c : sys_step (t, w) (delete_camera_tx c t, w)
| step_turn t w subscribed m a : rows a = None \/ rows a = Some t -> sys_step (t, w) (t, (run_turn subscribed m a w).2)
| step_ends t w n : sys_step (t, w) (t, task_ends n w)
| step_recorder t w r : rec_sound r -> (forall c, main_of r c = main_of (rec w) c) ->
    (forall c, sub_of r c = sub_of (rec w) c \/ sub_of r c = None) -> sys_step (t, w) (t, set_rec r w)
| step_observed t w f fs an p :
    sys_step (t, w) (t, mkWorld (rec w) (handles w) (tasks w) (next_task w) (unreadable_cameras w) f fs an p).

Definition booted (s : Sys) : Prop := exists a seeds w, ids_match s.1 /\ blank w /\ s.2 = boot a seeds s.1 w.
Definition reachable (s : Sys) : Prop := exists s0, booted s0 /\ rtc sys_step s0 s.

Definition sys_inv (s : Sys) : Prop := ids_match s.1 /\ inv s.2.

Lemma reconcile_inv a w : inv w -> (forall t, rows a = Some t -> ids_match t) -> inv (reconcile a w).2.
Proof.
  intros Hw Ht. destruct (rows a) as [t|] eqn:E; [|unfold reconcile; by rewrite E]. destruct (pass_spec a w t Hw E) as [I _]; [by apply Ht|done].
Qed.

Lemma sys_step_inv s s' : sys_step s s' -> sys_inv s -> sys_inv s'.
Proof.
  intros Hs [Ht Hw]. destruct Hs as [t w cam|t w i cam Hi|t w c|t w sub m a Ha|t w n|t w r Hr Hm Hu|t w f fs an p]; simpl in *.
  - split; [by apply upsert_ids|done].
  - split; [by apply create_ids|done].
  - split; [by apply delete_ids|done].
  - split; [done|]. assert (inv (reconcile a w).2) as Hi by (apply reconcile_inv; [done|]; intros t' E; rewrite E in Ha; destruct Ha as [Ha|Ha]; [done|by injection Ha as ->]).
    destruct m; simpl; try done. by destruct (_ && _).
  - split; [done|]. by apply (tasks_ends_spec [n] w Hw).
  - split; [done|]. split; simpl; [apply (inv_linked _ Hw)|apply (inv_next _ Hw)|apply (inv_running _ Hw)|done|].
    intros c. pose proof (inv_sessions _ Hw c) as S. unfold sessions_ok in *. destruct (handles w !! c) as [e|].
    + rewrite Hm. destruct S as (S1 & S2 & S3). split_and!; [done| |done]. intros u Hc. apply S2. destruct (Hu c); congruence.
    + rewrite Hm. destruct S as [S1 S2]. split; [done|]. destruct (Hu c); congruence.
  - split; [done|]. split; [exact (inv_linked _ Hw)|exact (inv_next _ Hw)|exact (inv_running _ Hw)|exact (inv_rec _ Hw)|exact (inv_sessions _ Hw)].
Qed.

Lemma reachable_inv s : reachable s -> sys_inv s.
Proof.
  intros (s0 & (a & seeds & w & Ht & Hb & E) & Hr). assert (sys_inv s0) as H0 by (split; [done|]; rewrite E; by apply boot_spec).
  clear - H0 Hr. induction Hr as [|s0 s1 s Hs Hr IH]; [done|]. apply IH. by eapply sys_step_inv.
Qed.

(** ** What the reconciler promises *)

(** C12. At most one supervisor runs for a camera, and it is the one its entry names: across rows written
    at any time, passes that restart or stop cameras, stops that time out, crashes and failed reads,
    no supervisor is left running that the handle map does not hold. One that did not stop in time
    and was aborted does not count as running: it may linger until its next await, after its entry
    has gone and its successor has started ([lingering]). *)
Theorem one_supervisor_per_camera s n m t t' :
  reachable s -> tasks s.2 !! n = Some t -> tasks s.2 !! m = Some t' -> running t = true -> running t' = true ->
  cam_id (t_cam t) = cam_id (t_cam t') ->
  n = m /\ exists e, handles s.2 !! cam_id (t_cam t) = Some e /\ e_task e = n /\ t_dims t = supervisor_dims (e_key e).
Proof.
  intros Hr Ht Ht' Rn Rn' E. destruct (reachable_inv s Hr) as [_ Hw].
  destruct (inv_running _ Hw n t Ht Rn) as (e & He & En). destruct (inv_running _ Hw m t' Ht' Rn') as (e' & He' & Em).
  rewrite E in He. split; [congruence|]. exists e. rewrite E. split_and!; [done|done|].
  destruct (inv_linked _ Hw _ e He) as (t0 & Ht0 & _ & Hd & _). rewrite En in Ht0. congruence.
Qed.

(** C13. A pass converges: once it has read the rows, the cameras with an entry are exactly those enabled in
    a readable row; each one's entry is for the configuration of its row, as far as a restart can
    apply it, with a supervisor that runs, unless it ended during the pass, and with sessions that read
    the row's streams; and a camera that is gone or disabled has no supervisor and no session. *)
Theorem pass_converges s a c :
  reachable s -> rows a = Some s.1 ->
  let w' := (reconcile a s.2).2 in
  match s.1 !! c with
  | Some (Some cam) =>
      if enabled (ingest cam) then
        exists e t, handles w' !! c = Some e /\ tasks w' !! e_task e = Some t /\
          (running t = true \/ exists d, e_task e ∈ ended a d) /\
          restart_key (e_key e) = restart_key (wanted default_detector_width cam) /\
          (forall u, main_of (rec w') c = Some u -> u = url_text (url (ingest cam))) /\
          (forall u, sub_of (rec w') c = Some u -> url_text <$> analysis_url (ingest cam) = Some u)
      else handles w' !! c = None /\ main_of (rec w') c = None /\ sub_of (rec w') c = None
  | _ => handles w' !! c = None /\ main_of (rec w') c = None /\ sub_of (rec w') c = None
  end.
Proof.
  intros Hr Ha. destruct (reachable_inv s Hr) as [Ht Hw]. destruct (pass_spec a s.2 s.1 Hw Ha Ht) as (I & Hon & Hf). cbn zeta.
  assert ((forall cam, s.1 !! c = Some (Some cam) -> enabled (ingest cam) = false) ->
    handles (reconcile a s.2).2 !! c = None /\ main_of (rec (reconcile a s.2).2) c = None /\ sub_of (rec (reconcile a s.2).2) c = None) as Hoff.
  { intros Hn. assert (handles (reconcile a s.2).2 !! c = None) as E.
    { apply eq_None_not_Some. rewrite Hon. intros (cam & E1 & E2). apply Hn in E1. congruence. }
    split; [done|]. pose proof (inv_sessions _ I c) as S. by rewrite E in S. }
  destruct (s.1 !! c) as [[cam|]|] eqn:E; [|by apply Hoff|by apply Hoff].
  destruct (enabled (ingest cam)) eqn:En; [|apply Hoff; intros cam' [= <-]; done].
  assert (cam_id cam = c) as <- by by apply Ht. destruct (Hf cam E En) as (e & t & H1 & H2 & H3 & H4 & _). exists e, t.
  pose proof (inv_sessions _ I (cam_id cam)) as S. rewrite H1 in S. destruct S as (S1 & S2 & _).
  pose proof (f_equal (fun k => k.1.1.1.1) H4) as K1. pose proof (f_equal (fun k => k.1.2) H4) as K2. simpl in K1, K2. split_and!; try done.
  - intros u Hu. rewrite <- K1. by apply S1.
  - intros u Hu. rewrite <- K2. by apply S2.
Qed.

(** A pass restarts a camera when it must and only then: an enabled camera's supervisor is the same
    after the pass if and only if it was running and was started for what its row asks for now. In
    particular a registration the recorder refuses restarts nothing, nor does an edit of another
    camera, nor one a restart cannot apply. *)
Lemma restarted_when_needed s a cam e t :
  reachable s -> rows a = Some s.1 -> s.1 !! cam_id cam = Some (Some cam) -> enabled (ingest cam) = true ->
  handles s.2 !! cam_id cam = Some e -> tasks s.2 !! e_task e = Some t -> (forall d, e_task e ∉ ended a d) ->
  exists e', handles (reconcile a s.2).2 !! cam_id cam = Some e' /\
    (e_task e' = e_task e <-> running t = true /\ restart_key (e_key e) = restart_key (wanted default_detector_width cam)).
Proof.
  intros Hr Ha Hc Hen He Ht Hn. destruct (reachable_inv s Hr) as [Hi Hw]. destruct (pass_spec a s.2 s.1 Hw Ha Hi) as (I & _ & Hf).
  destruct (Hf cam Hc Hen) as (e' & t' & H1 & H2 & H3 & H4 & H5). exists e'. split; [done|]. rewrite He in H5. specialize (H5 t Ht).
  pose proof (inv_next _ Hw _ _ Ht) as Hlt. rewrite <- key_eqb_iff. unfold kept in H5.
  destruct (key_eqb (e_key e) (wanted default_detector_width cam)); destruct (running t); simpl in H5.
  - destruct (H5 Hn) as [-> _]. tauto.
  - split; [lia|by intros []].
  - split; [lia|by intros []].
  - split; [lia|by intros []].
Qed.
End reconciler.

(** ** A run: two cameras booted, one re-pointed, a pass *)
Module Demo.

Definition gst_up : nat -> bool := fun _ => true.
#[local] Instance demo_recorder : ClipRecorder GstRecorder := gst_recorder gst_up.
#[local] Instance demo_laws : ClipRecorderLaws GstRecorder := gst_laws gst_up.

Definition plain : CameraBehavior := mkBehavior false None None None None None None None None None None None None None None None None.
Definition camera (i : Z) (u : string) (sub : option Url) : CameraConfig :=
  mkCamera i "door" (mkIngest (mkUrl "rtsp" u) sub true 15 (Some H264)) [] None plain.
Definition door : CameraConfig := camera 1 "rtsp://door/main" (Some (mkUrl "rtsp" "rtsp://door/sub")).
Definition yard : CameraConfig := camera 2 "rtsp://yard/main" None.
Definition moved : CameraConfig := camera 1 "rtsp://moved/main" None.

Definition table : CamerasTable := <[1 := Some door]> (<[2 := Some yard]> ∅).
Definition answers (t : CamerasTable) : Answers := mkAnswers (Some t) (fun _ => []) (fun _ => true) (fun _ => None) (fun _ => None).
Abbreviation W := (@World GstRecorder unit unit).
Definition off : W := mkWorld gst_new ∅ ∅ 0%nat [] ∅ ∅ ∅ ∅.
Definition up : CamerasTable * W := (table, boot 960 None 10 (answers table) [] table off).
Definition edited : CamerasTable * W := (upsert_camera_tx moved up.1, up.2).
Definition converged : CamerasTable * W := (edited.1, (reconcile 960 None 10 (answers edited.1) edited.2).2).

Lemma off_blank : blank off.
Proof. split_and!; [done|done|exact (gst_new_sound)|done]. Qed.

Lemma edited_reachable : reachable 960 None 10 edited.
Proof.
  exists up. split; [|apply rtc_once, step_upsert]. exists (answers table), [], off. split_and!; [|apply off_blank|done].
  intros i c. unfold up, table. simpl fst. rewrite !lookup_insert_Some, lookup_empty. naive_solver.
Qed.

Lemma converged_reachable : reachable 960 None 10 converged.
Proof.
  destruct edited_reachable as (s0 & Hb & Hr). exists s0. split; [done|]. eapply rtc_r; [exact Hr|].
  pose proof (step_turn 960 None 10 edited.1 edited.2 true Supervise (answers edited.1) (or_intror eq_refl)) as Hs.
  rewrite <- surjective_pairing in Hs. exact Hs.
Qed.
End Demo.

Import Demo.
#[local] Existing Instance demo_recorder.
#[local] Existing Instance demo_laws.

(** The door's supervisor does not stop in time: its successor starts while it lingers. *)
Example an_aborted_supervisor_lingers :
  let a := mkAnswers (Some edited.1) (fun _ => []) (fun _ => false) (fun _ => None) (fun _ => None) in
  let w := (reconcile 960 None 10 a edited.2).2 in
  lingering <$> tasks w !! 0%nat = Some true /\ e_task <$> handles w !! 1 = Some 2%nat /\ running <$> tasks w !! 2%nat = Some true.
Proof. vm_compute. by split_and!. Qed.

Lemma one_supervisor_per_camera_witness :
  exists e, handles converged.2 !! 1 = Some e /\ e_task e = 2%nat /\ (960, 540) = supervisor_dims (e_key e).
Proof.
  set (t := mkTask moved (960, 540) None [] false false false).
  destruct (one_supervisor_per_camera 960 None 10 converged 2 2 t t converged_reachable) as [_ H]; [vm_compute; reflexivity..|exact H].
Defined.

Lemma pass_converges_witness :
  exists e t, handles converged.2 !! 1 = Some e /\ tasks converged.2 !! e_task e = Some t /\
    (running t = true \/ exists d, e_task e ∈ ended (answers edited.1) d) /\ k_url (e_key e) = "rtsp://moved/main" /\
    sub_of (rec converged.2) 1 = None.
Proof.
  pose proof (pass_converges 960 None 10 edited (answers edited.1) 1 edited_reachable eq_refl) as H. cbn zeta in H.
  change (edited.1 !! 1) with (Some (Some moved)) in H. destruct H as (e & t & H1 & H2 & H3 & H4 & _ & H5). exists e, t.
  pose proof (f_equal (fun k => k.1.1.1.1) H4) as K. split_and!; [exact H1|exact H2|exact H3|exact K|].
  destruct (sub_of (rec converged.2) 1) as [u|] eqn:E; [|done]. discriminate (H5 u E).
Defined.

Lemma restarted_when_needed_witness :
  exists e', handles converged.2 !! 2 = Some e' /\ e_task e' = 1%nat.
Proof.
  destruct (restarted_when_needed 960 None 10 edited (answers edited.1) yard (mkRunning 1 (wanted 960 yard) (mkSessions None None))
    (mkTask yard (960, 540) None [] false false false) edited_reachable eq_refl) as (e' & H1 & H2); [vm_compute; reflexivity..| |].
  - intros d Hd. apply elem_of_nil in Hd. exact Hd.
  - exists e'. split; [exact H1|]. apply H2. split; reflexivity.
Defined.
