(* ===== verification/MotionEvents.v ===== *)
(** The motion-event emitter: [nexus-tracker/src/motion.rs]. It compares the tracks of a camera from
    frame to frame and says which were born, are still there, and died. Instants and wall-clock times
    are numbers of nanoseconds. *)
From S2P Require Import Prelude Float Order Types Alert.

Inductive MotionKind := Born | Updated | Died.

#[export] Instance MotionKind_eq_dec : EqDecision MotionKind.
Proof. solve_decision. Defined.

Record MotionDecision := mkDecision {
  d_camera : Z;
  d_track : Z;
  d_kind : MotionKind;
  d_at : Z;
  d_bbox : BBox;
  d_label : string;
  d_confidence : f32;
  d_attributes : gmap string JsonValue;
}.

Record TrackSnapshot := mkSnapshot {
  last_emitted_at : option Z;
  last_bbox : BBox;
  last_label : string;
  last_confidence : f32;
  last_attributes : gmap string JsonValue;
}.

Abbreviation CameraState := (gmap Z TrackSnapshot).

Record MotionEventEmitter := mkEmitter { sample_hz : f32; cameras : gmap Z CameraState }.

Definition emitter_new (hz : f32) : MotionEventEmitter := mkEmitter (if is_finite hz && fgt hz fzero then hz else fzero) ∅.

(** [x as u64] of a number that is not negative. *)
Definition f32_as_u64 (x : f32) : Z :=
  match x with
  | S754_finite false m e => Z.min (umax 64) (if 0 <=? e then Zpos m * 2 ^ e else Zpos m / 2 ^ (- e))
  | S754_infinity false => umax 64
  | _ => 0
  end.

Definition ns_per_us : Z := 1000.

Definition update_interval (hz : f32) : option Z :=
  if fle hz fzero then None else Some (f32_as_u64 (f32_div (f32_of_Z 1000000) hz) * ns_per_us).

(** ** Attributes are assigned in place *)
Fixpoint assign_value (dst src : JsonValue) {struct src} : JsonValue :=
  match dst, src with
  | JString _, JString s => JString s
  | JArray d, JArray s =>
      JArray ((fix go (d s : list JsonValue) {struct s} : list JsonValue :=
        match d, s with
        | _, [] => []
        | [], s => s
        | dv :: d, sv :: s => assign_value dv sv :: go d s
        end) d s)
  | _, s => s
  end.

Definition assign_attributes (dst src : gmap string JsonValue) : gmap string JsonValue :=
  map_fold (fun k v acc => <[k := match acc !! k with Some d => assign_value d v | None => v end]> acc)
    (filter (fun kv => is_Some (src !! kv.1)) dst) src.

Lemma assign_value_eq src dst : assign_value dst src = src.
Proof.
  revert src dst. fix IH 1. intros [| | | |s|items|] dst; destruct dst as [| | | |s'|d|]; try reflexivity.
  simpl. f_equal. revert d. induction items as [|v items IHs]; intros [|dv d]; simpl; [done..|]. by rewrite IH, IHs.
Qed.

(** Reusing the buffers of the old attributes gives the new ones. *)
Lemma assign_attributes_eq dst src : assign_attributes dst src = src.
Proof.
  unfold assign_attributes. set (d0 := filter _ dst).
  assert (forall m, (forall k, m !! k = None -> src !! k = None) -> m ⊆ src -> m = src) as Hall.
  { intros m Hm Hs. apply map_eq. intros k. destruct (m !! k) as [v|] eqn:E; [by rewrite (lookup_weaken _ _ _ _ E Hs)|by rewrite Hm]. }
  set (P := fun (acc m : gmap string JsonValue) => forall k, acc !! k = match m !! k with Some v => Some v | None => d0 !! k end).
  assert (P (map_fold (fun k v acc => <[k := match acc !! k with Some d => assign_value d v | None => v end]> acc) d0 src) src) as HP.
  { apply (map_fold_weak_ind P); [by intros k; rewrite lookup_empty|]. intros k v m acc Hk IH j.
    destruct (decide (k = j)) as [->|Hj]; [rewrite !lookup_insert_eq|rewrite !lookup_insert_ne by done; apply IH].
    destruct (acc !! j); [by rewrite assign_value_eq|done]. }
  apply map_eq. intros k. rewrite HP. destruct (src !! k) as [v|] eqn:E; [done|]. subst d0.
  apply eq_None_not_Some. intros [v Hv]. apply map_lookup_filter_Some in Hv as [_ [w Hw]]. simpl in Hw. congruence.
Qed.

(** ** A frame *)
Definition decision (cam : Z) (k : MotionKind) (now : Z) (t : TrackedObject) : MotionDecision :=
  mkDecision cam (o_track_id t) k now (o_bbox t) (o_label t) (confidence t) (attributes t).

Definition due (interval : option Z) (now_mono : Z) (last_emit : option Z) : bool :=
  match interval, last_emit with
  | Some int, Some prev => int <=? sat_sub now_mono prev
  | _, _ => false
  end.

Definition first_sight (t : TrackedObject) : TrackSnapshot :=
  mkSnapshot None (o_bbox t) (o_label t) (confidence t) (attributes t).

Definition refresh (t : TrackedObject) (emitted : option Z) (s : TrackSnapshot) : TrackSnapshot :=
  mkSnapshot emitted (o_bbox t) (o_label t) (confidence t) (assign_attributes (last_attributes s) (attributes t)).

Record Sorting := mkSorting { tracks : CameraState; born : list MotionDecision; updated : list MotionDecision }.

Definition see (cam : Z) (interval : option Z) (now now_mono : Z) (s : Sorting) (t : TrackedObject) : Sorting :=
  match tracks s !! o_track_id t with
  | None => mkSorting (<[o_track_id t := first_sight t]> (tracks s)) (born s ++ [decision cam Born now t]) (updated s)
  | Some snap =>
      if due interval now_mono (last_emitted_at snap)
      then mkSorting (<[o_track_id t := refresh t (Some now_mono) snap]> (tracks s)) (born s) (updated s ++ [decision cam Updated now t])
      else mkSorting (<[o_track_id t := refresh t (last_emitted_at snap) snap]> (tracks s)) (born s) (updated s)
  end.

Definition stamp (now_mono : Z) (s : TrackSnapshot) : TrackSnapshot :=
  mkSnapshot (Some now_mono) (last_bbox s) (last_label s) (last_confidence s) (last_attributes s).

Definition death (cam now : Z) (kv : Z * TrackSnapshot) : MotionDecision :=
  let s := kv.2 in mkDecision cam kv.1 Died now (last_bbox s) (last_label s) (last_confidence s) (last_attributes s).

Definition by_track (a b : MotionDecision) : comparison := d_track a ?= d_track b.

Definition tick_tracks (cam : Z) (interval : option Z) (tracked : list TrackedObject) (now now_mono : Z) (st : CameraState) :
    list MotionDecision * CameraState :=
  let live : gset Z := list_to_set (o_track_id <$> tracked) in
  let s := foldl (see cam interval now now_mono) (mkSorting st [] []) tracked in
  let st := foldl (fun st d => alter (stamp now_mono) (d_track d) st) (tracks s) (born s) in
  let died := death cam now <$> filter (fun kv => kv.1 ∉ live) (map_to_list st) in
  (sort_by by_track (born s) ++ sort_by by_track (updated s) ++ sort_by by_track died, filter (fun kv => kv.1 ∈ live) st).

Definition tick (cam : Z) (tracked : list TrackedObject) (now now_mono : Z) (e : MotionEventEmitter) :
    list MotionDecision * MotionEventEmitter :=
  let '(out, st) := tick_tracks cam (update_interval (sample_hz e)) tracked now now_mono (default ∅ (cameras e !! cam)) in
  (out, mkEmitter (sample_hz e) (<[cam := st]> (cameras e))).

Definition forget_camera (cam : Z) (e : MotionEventEmitter) : MotionEventEmitter :=
  mkEmitter (sample_hz e) (delete cam (cameras e)).

Definition live_track_count (cam : Z) (e : MotionEventEmitter) : nat :=
  match cameras e !! cam with Some st => size st | None => 0%nat end.

(** ** One track at a time *)
#[export] Instance by_track_comparator : Comparator by_track.
Proof.
  apply (on_comparator d_track Z.compare).
Qed.

Lemma filter_track_sort i l : filter (fun d => d_track d = i) (sort_by by_track l) = filter (fun d => d_track d = i) l.
Proof. apply filter_sort_by. intros x y <- E. unfold by_track. by rewrite E, Z.compare_refl. Qed.

(** What a frame does to one track, over the objects it lists with its id. *)
Definition see_one (cam : Z) (interval : option Z) (now now_mono : Z) (acc : option TrackSnapshot * list MotionDecision * list MotionDecision)
    (t : TrackedObject) : option TrackSnapshot * list MotionDecision * list MotionDecision :=
  let '(o, b, u) := acc in
  match o with
  | None => (Some (first_sight t), b ++ [decision cam Born now t], u)
  | Some snap =>
      if due interval now_mono (last_emitted_at snap) then (Some (refresh t (Some now_mono) snap), b, u ++ [decision cam Updated now t])
      else (Some (refresh t (last_emitted_at snap) snap), b, u)
  end.

Definition of_track (i : Z) (l : list MotionDecision) : list MotionDecision := filter (fun d => d_track d = i) l.

Lemma of_track_sorted i l : of_track i (sort_by by_track l) = of_track i l.
Proof. apply filter_track_sort. Qed.

Lemma of_track_app i a b : of_track i (a ++ b) = of_track i a ++ of_track i b.
Proof. apply filter_app. Qed.

Lemma of_track_one i d : of_track i [d] = if bool_decide (d_track d = i) then [d] else [].
Proof. unfold of_track. rewrite filter_cons, filter_nil. case_decide; [by rewrite bool_decide_true|by rewrite bool_decide_false]. Qed.

Lemma see_one_track cam interval now now_mono i l s :
  let s' := foldl (see cam interval now now_mono) s l in
  (tracks s' !! i, of_track i (born s'), of_track i (updated s')) =
  foldl (see_one cam interval now now_mono) (tracks s !! i, of_track i (born s), of_track i (updated s)) (filter (fun t => o_track_id t = i) l).
Proof.
  revert s. induction l as [|t l IH]; intros s; simpl; [done|]. rewrite filter_cons, IH. clear IH. unfold see. case_decide as Ht.
  - simpl. f_equal. subst i. destruct (tracks s !! o_track_id t) as [snap|] eqn:E; simpl.
    + destruct (due _ _ _); simpl; rewrite lookup_insert_eq, ?of_track_app, ?of_track_one, ?bool_decide_true; done.
    + rewrite lookup_insert_eq, of_track_app, of_track_one, bool_decide_true; done.
  - f_equal. destruct (tracks s !! o_track_id t) as [snap|]; simpl.
    + destruct (due _ _ _); simpl; rewrite lookup_insert_ne by done; [|done].
      by rewrite of_track_app, of_track_one, bool_decide_false, app_nil_r.
    + rewrite lookup_insert_ne by done. by rewrite of_track_app, of_track_one, bool_decide_false, app_nil_r.
Qed.

Lemma see_known cam interval now now_mono l snap b u : exists snap' us,
  foldl (see_one cam interval now now_mono) (Some snap, b, u) l = (Some snap', b, u ++ us) /\
  Forall (fun d => d_kind d = Updated) us /\
  (match us with [] => last_emitted_at snap' = last_emitted_at snap
   | d :: us' => due interval now_mono (last_emitted_at snap) = true /\ last_emitted_at snap' = Some now_mono /\
       (us' <> [] -> due interval now_mono (Some now_mono) = true) end) /\
  match last l with
  | None => snap' = snap
  | Some t => last_bbox snap' = o_bbox t /\ last_label snap' = o_label t /\ last_confidence snap' = confidence t /\ last_attributes snap' = attributes t
  end.
Proof.
  revert snap u. induction l as [|t l IH]; intros snap u; simpl; [exists snap, []; rewrite app_nil_r; by split_and!|].
  rewrite last_cons. destruct (due interval now_mono (last_emitted_at snap)) eqn:Ed.
  - destruct (IH (refresh t (Some now_mono) snap) (u ++ [decision cam Updated now t])) as (s' & us & E & Hk & He & Hl). rewrite E.
    exists s', (decision cam Updated now t :: us). rewrite <- app_assoc. split_and!; [done|by constructor|done| | |].
    + destruct us as [|d us]; [by rewrite He|by destruct He as (_ & -> & _)].
    + destruct us as [|d us]; [done|]. by destruct He as (H1 & _).
    + destruct (last l); [done|]. subst s'. simpl. by rewrite assign_attributes_eq.
  - destruct (IH (refresh t (last_emitted_at snap) snap) u) as (s' & us & E & Hk & He & Hl). rewrite E. exists s', us. split_and!; [done|done| |].
    + destruct us as [|d us]; [done|]. simpl in He. by rewrite Ed in He.
    + destruct (last l); [done|]. subst s'. simpl. by rewrite assign_attributes_eq.
Qed.

Lemma see_new cam interval now now_mono t l b u : exists snap',
  foldl (see_one cam interval now now_mono) (None, b, u) (t :: l) = (Some snap', b ++ [decision cam Born now t], u) /\
  match default t (last l) with t => last_bbox snap' = o_bbox t /\ last_label snap' = o_label t /\ last_confidence snap' = confidence t /\ last_attributes snap' = attributes t end.
Proof.
  simpl. destruct (see_known cam interval now now_mono l (first_sight t) (b ++ [decision cam Born now t]) u) as (s' & us & E & _ & He & Hl).
  exists s'. destruct us as [|d us].
  - rewrite app_nil_r in E. rewrite E. split; [done|]. destruct (last l); [done|]. by subst s'.
  - destruct He as [He _]. unfold due in He. simpl in He. by destruct interval.
Qed.

Lemma stamp_fold now_mono ds (st : CameraState) i : foldl (fun st d => alter (stamp now_mono) (d_track d) st) st ds !! i =
  match of_track i ds with [] => st !! i | _ => stamp now_mono <$> st !! i end.
Proof.
  revert st. induction ds as [|d ds IH]; intros st; simpl; [done|]. rewrite IH. unfold of_track. rewrite filter_cons. fold (of_track i ds).
  case_decide as Hd; [rewrite Hd, lookup_alter_eq|by rewrite lookup_alter_ne]. destruct (of_track i ds); [done|]. by destruct (st !! i).
Qed.

Lemma of_track_deaths cam now i m (live : gset Z) : of_track i (death cam now <$> filter (fun kv => kv.1 ∉ live) (map_to_list m)) =
  if bool_decide (i ∈ live) then [] else match m !! i with Some s => [death cam now (i, s)] | None => [] end.
Proof.
  assert (forall l : list (Z * TrackSnapshot), NoDup l.*1 -> of_track i (death cam now <$> filter (fun kv => kv.1 ∉ live) l) =
    if bool_decide (i ∈ live) then [] else match (list_to_map l : gmap Z TrackSnapshot) !! i with Some s => [death cam now (i, s)] | None => [] end) as Hl.
  { induction l as [|[k s] l IH]; intros Hd.
    - simpl. rewrite lookup_empty. by case_bool_decide.
    - rewrite fmap_cons in Hd. apply NoDup_cons in Hd as [Hk Hd]. specialize (IH Hd). simpl in Hk. rewrite list_to_map_cons, filter_cons. destruct (decide ((k, s).1 ∉ live)) as [Hin|Hin]; simpl in Hin.
      + rewrite fmap_cons. change (death cam now (k, s) :: ?x) with ([death cam now (k, s)] ++ x). rewrite of_track_app, of_track_one, IH. simpl.
        destruct (decide (k = i)) as [->|Hi]; [rewrite lookup_insert_eq, bool_decide_true, bool_decide_false by done|by rewrite lookup_insert_ne, bool_decide_false by done].
        by rewrite not_elem_of_list_to_map_1.
      + rewrite IH. case_bool_decide as Hi; [done|]. rewrite lookup_insert_ne; [done|]. intros ->. tauto. }
  rewrite Hl by apply NoDup_fst_map_to_list. by rewrite list_to_map_to_list.
Qed.

(** The decisions of a frame for one track, and what is kept of it. *)
Lemma tick_track cam interval tracked now now_mono st i :
  let l := filter (fun t => o_track_id t = i) tracked in
  let '(out, st') := tick_tracks cam interval tracked now now_mono st in
  match st !! i, last l with
  | None, None => of_track i out = [] /\ st' !! i = None
  | Some s, None => of_track i out = [death cam now (i, s)] /\ st' !! i = None
  | o, Some t => exists s', st' !! i = Some s' /\
      (last_bbox s' = o_bbox t /\ last_label s' = o_label t /\ last_confidence s' = confidence t /\ last_attributes s' = attributes t) /\
      match o with
      | None => (exists t0, of_track i out = [decision cam Born now t0]) /\ last_emitted_at s' = Some now_mono
      | Some s => exists us, of_track i out = us /\ Forall (fun d => d_kind d = Updated) us /\
          match us with [] => last_emitted_at s' = last_emitted_at s
          | d :: us' => due interval now_mono (last_emitted_at s) = true /\ last_emitted_at s' = Some now_mono /\
              (us' <> [] -> due interval now_mono (Some now_mono) = true) end
      end
  end.
Proof.
  cbn zeta. unfold tick_tracks. set (live := list_to_set (o_track_id <$> tracked) : gset Z).
  pose proof (see_one_track cam interval now now_mono i tracked (mkSorting st [] [])) as Hs. cbn zeta in Hs. simpl in Hs. change (of_track i []) with (@nil MotionDecision) in Hs.
  set (s1 := foldl (see cam interval now now_mono) (mkSorting st [] []) tracked) in *. cbn zeta.
  set (st1 := foldl _ (tracks s1) (born s1)). rewrite !of_track_app, !of_track_sorted.
  rewrite of_track_deaths. assert (st1 !! i = match of_track i (born s1) with [] => tracks s1 !! i | _ => stamp now_mono <$> tracks s1 !! i end) as E1 by apply stamp_fold.
  assert (filter (fun kv => kv.1 ∈ live) st1 !! i = if bool_decide (i ∈ live) then st1 !! i else None) as ->.
  { case_bool_decide as Hi; [|apply map_lookup_filter_None; by right]. destruct (st1 !! i) as [x|] eqn:E; [by apply map_lookup_filter_Some|apply map_lookup_filter_None; by left]. }
  set (l := filter (fun t => o_track_id t = i) tracked) in *.
  assert (i ∈ live <-> l <> []) as Hlive.
  { subst live l. rewrite elem_of_list_to_set, list_elem_of_fmap. split.
    - intros (t & -> & Ht) E. assert (t ∈ filter (fun t' => o_track_id t' = o_track_id t) tracked) as Hin by by apply list_elem_of_filter. rewrite E in Hin. by apply elem_of_nil in Hin.
    - intros Hne. destruct (filter _ tracked) as [|t l'] eqn:E; [done|]. exists t. assert (t ∈ filter (fun t => o_track_id t = i) tracked) as Hin by (rewrite E; left).
      apply list_elem_of_filter in Hin. naive_solver. }
  clearbody l live. destruct l as [|t0 l0]; simpl last.
  - simpl in Hs. injection Hs as H1 H2 H3. rewrite bool_decide_false by (rewrite Hlive; tauto). rewrite E1, H1, H2, H3. by destruct (st !! i).
  - rewrite bool_decide_true by by apply Hlive. rewrite app_nil_r, last_cons. revert Hs. destruct (st !! i) as [s|]; intros Hs.
    + destruct (see_known cam interval now now_mono (t0 :: l0) s [] []) as (s' & us & E & Hk & He & Hl). rewrite E in Hs. injection Hs as H1 H2 H3. rewrite last_cons in Hl.
      rewrite E1, H1, H2, H3. destruct (last l0) as [t|]; simpl; (exists s'; split_and!; try tauto; exists us; by split_and!).
    + destruct (see_new cam interval now now_mono t0 l0 [] []) as (s' & E & Hl). rewrite E in Hs. injection Hs as H1 H2 H3.
      rewrite E1, H1, H2, H3. destruct (last l0) as [t|]; simpl in *; (exists (stamp now_mono s'); split_and!; try tauto; by exists t0).
Qed.

(** What a frame reports of a track that is not dead is a decision on one of its objects. *)
Lemma see_sources cam interval now now_mono tracked st :
  let s := foldl (see cam interval now now_mono) (mkSorting st [] []) tracked in
  Forall (fun d => exists k t, t ∈ tracked /\ d = decision cam k now t) (born s ++ updated s).
Proof.
  cbn zeta. induction tracked as [|t l IH] using rev_ind; [constructor|]. rewrite foldl_snoc. set (s := foldl _ _ l) in *.
  assert (Forall (fun d => exists k x, x ∈ l ++ [t] /\ d = decision cam k now x) (born s ++ updated s)) as IH'.
  { eapply Forall_impl; [exact IH|]. intros d (k & x & Hx & ->). exists k, x. split; [|done]. apply elem_of_app. by left. }
  assert (forall k, exists k' x, x ∈ l ++ [t] /\ decision cam k now t = decision cam k' now x) as Ht.
  { intros k. exists k, t. split; [|done]. apply elem_of_app. right. by left. }
  apply Forall_app in IH' as [Hb Hu]. unfold see. destruct (tracks s !! o_track_id t) as [snap|]; [destruct (due _ _ _)|]; simpl.
  - rewrite !Forall_app, Forall_singleton. auto.
  - by rewrite Forall_app.
  - rewrite !Forall_app, Forall_singleton. auto.
Qed.

Lemma tick_sources cam tracked now now_mono e d :
  d ∈ (tick cam tracked now now_mono e).1 -> d_kind d <> Died -> exists t, t ∈ tracked /\ d_track d = o_track_id t.
Proof.
  unfold tick, tick_tracks. pose proof (see_sources cam (update_interval (sample_hz e)) now now_mono tracked (default ∅ (cameras e !! cam))) as H.
  cbn zeta in H. set (s := foldl (see _ _ _ _) _ tracked) in *. cbn [fst]. rewrite Forall_forall in H.
  rewrite !elem_of_app, !sort_by_permutation. intros Hd Hk.
  assert (d ∈ born s ++ updated s) as Hin.
  { rewrite elem_of_app. destruct Hd as [Hd|[Hd|Hd]]; [by left|by right|]. apply list_elem_of_fmap in Hd as (kv & -> & _). by destruct Hk. }
  destruct (H d Hin) as (k & t & Ht & ->). by exists t.
Qed.

(** ** The life of a track *)

Inductive EmitterOp :=
| Tick (cam : Z) (tracked : list TrackedObject) (now now_mono : Z)
| Forget (cam : Z).

#[export] Instance emitter_machine : Machine EmitterOp MotionEventEmitter (list MotionDecision) := fun o e =>
  match o with
  | Tick cam tracked now now_mono => let '(out, e) := tick cam tracked now now_mono e in (e, out)
  | Forget cam => (forget_camera cam e, [])
  end.

Lemma mstep_tick cam tracked now now_mono e : mstep (Tick cam tracked now now_mono) e = ((tick cam tracked now now_mono e).2, (tick cam tracked now now_mono e).1).
Proof. unfold mstep, emitter_machine. by destruct (tick cam tracked now now_mono e). Qed.

(** What is said of track [i] of camera [c], and when. *)
Inductive Life := Said (k : MotionKind) (at_mono : Z) | Forgotten.

Definition life_of (c i : Z) (o : EmitterOp) (out : list MotionDecision) : list Life :=
  match o with
  | Tick cam _ _ now_mono => if bool_decide (cam = c) then (fun d => Said (d_kind d) now_mono) <$> of_track i out else []
  | Forget cam => if bool_decide (cam = c) then [Forgotten] else []
  end.

Fixpoint story (c i : Z) (ops : list EmitterOp) (e : MotionEventEmitter) : list Life :=
  match ops with
  | [] => []
  | o :: ops => life_of c i o (mstep o e).2 ++ story c i ops (mstep o e).1
  end.

(** A track is not there, or was last spoken of at a time: it is born, updated no sooner than the
    interval after that, and dies. *)
Definition life_step (interval : option Z) (alive : option Z) (l : Life) : option (option Z) :=
  match alive, l with
  | None, Said Born t => Some (Some t)
  | Some p, Said Updated t => if due interval t (Some p) then Some (Some t) else None
  | Some _, Said Died _ => Some None
  | _, Forgotten => Some None
  | _, _ => None
  end.

Fixpoint life_run (interval : option Z) (alive : option Z) (ls : list Life) : option (option Z) :=
  match ls with
  | [] => Some alive
  | l :: ls => alive ← life_step interval alive l; life_run interval alive ls
  end.

Lemma life_run_app interval alive a b : life_run interval alive (a ++ b) = (alive ← life_run interval alive a; life_run interval alive b).
Proof. revert alive. induction a as [|l a IH]; intros alive; simpl; [done|]. destruct (life_step interval alive l); simpl; [apply IH|done]. Qed.

Definition snapshot_of (c i : Z) (e : MotionEventEmitter) : option TrackSnapshot := default ∅ (cameras e !! c) !! i.
Definition alive (c i : Z) (e : MotionEventEmitter) : option Z := snapshot_of c i e ≫= last_emitted_at.
Definition stamped (e : MotionEventEmitter) : Prop := forall c i s, snapshot_of c i e = Some s -> is_Some (last_emitted_at s).

Lemma updates_run interval now_mono us p : Forall (fun d => d_kind d = Updated) us ->
  match us with [] => True | _ :: us' => due interval now_mono (Some p) = true /\ (us' <> [] -> due interval now_mono (Some now_mono) = true) end ->
  life_run interval (Some p) ((fun d => Said (d_kind d) now_mono) <$> us) = Some (Some (match us with [] => p | _ => now_mono end)).
Proof.
  intros Hk Hu. destruct us as [|d us]; [done|]. destruct Hu as [Hd Hu]. apply Forall_cons in Hk as [Hk0 Hk]. simpl. rewrite Hk0. simpl. rewrite Hd. simpl.
  destruct us as [|d' us]; [done|]. specialize (Hu ltac:(done)). revert Hk Hu. generalize (d' :: us). intros l Hk Hu. induction Hk as [|x l Hx Hk IH]; simpl; [done|].
  rewrite Hx. simpl. rewrite Hu. simpl. apply IH.
Qed.

Lemma step_life c i o e : stamped e ->
  stamped (mstep o e).1 /\ sample_hz (mstep o e).1 = sample_hz e /\
  life_run (update_interval (sample_hz e)) (alive c i e) (life_of c i o (mstep o e).2) = Some (alive c i (mstep o e).1).
Proof.
  intros Hs. destruct o as [cam tracked now now_mono|cam]; [rewrite mstep_tick; unfold life_of|simpl].
  - unfold tick. destruct (tick_tracks cam (update_interval (sample_hz e)) tracked now now_mono (default ∅ (cameras e !! cam))) as [out st] eqn:Et. cbn [fst snd sample_hz].
    assert (forall j, (snapshot_of cam j e = None /\ last (filter (fun t => o_track_id t = j) tracked) = None /\ of_track j out = [] /\ st !! j = None) \/
      (exists s, snapshot_of cam j e = Some s /\ of_track j out = [death cam now (j, s)] /\ st !! j = None) \/
      (snapshot_of cam j e = None /\ exists t0 s', of_track j out = [decision cam Born now t0] /\ st !! j = Some s' /\ last_emitted_at s' = Some now_mono) \/
      (exists s s' us, snapshot_of cam j e = Some s /\ st !! j = Some s' /\ of_track j out = us /\ Forall (fun d => d_kind d = Updated) us /\
         match us with [] => last_emitted_at s' = last_emitted_at s
         | d :: us' => due (update_interval (sample_hz e)) now_mono (last_emitted_at s) = true /\ last_emitted_at s' = Some now_mono /\
             (us' <> [] -> due (update_interval (sample_hz e)) now_mono (Some now_mono) = true) end)) as Hj.
    { intros j. pose proof (tick_track cam (update_interval (sample_hz e)) tracked now now_mono (default ∅ (cameras e !! cam)) j) as T. cbn zeta in T. rewrite Et in T.
      unfold snapshot_of. destruct (default ∅ (cameras e !! cam) !! j) as [s|]; destruct (last _) as [t|].
      - destruct T as (s' & E & _ & us & T). right; right; right. exists s, s', us. tauto.
      - right; left. exists s. tauto.
      - destruct T as (s' & E & _ & [t0 E'] & T). right; right; left. split; [done|]. by exists t0, s'.
      - left. tauto. }
    split_and!; [|done|].
    + intros d j s. unfold snapshot_of. simpl. destruct (decide (d = cam)) as [->|Hd]; [|rewrite lookup_insert_ne by done; apply Hs].
      rewrite lookup_insert_eq. intros E. change (st !! j = Some s) in E. destruct (Hj j) as [(_ & _ & _ & E')|[(s0 & _ & _ & E')|[(_ & t0 & s' & _ & E' & E2)|(s0 & s' & us & H0 & E' & _ & _ & Hu)]]]; rewrite E' in E; [done|done| |]; injection E as <-.
      * rewrite E2. eauto.
      * destruct us; [rewrite Hu; by apply (Hs cam j s0)|destruct Hu as (_ & Hu & _); rewrite Hu; eauto].
    + case_bool_decide as Hc; [subst cam|by simpl; unfold alive, snapshot_of; simpl; rewrite lookup_insert_ne by done].
      unfold alive at 2. unfold snapshot_of. simpl. rewrite lookup_insert_eq. simpl. unfold alive.
      destruct (Hj i) as [(E0 & _ & -> & ->)|[(s0 & E0 & -> & ->)|[(E0 & t0 & s' & -> & -> & E2)|(s0 & s' & us & E0 & -> & -> & Hk & Hu)]]]; rewrite E0; simpl.
      * done.
      * by destruct (Hs c i s0 E0) as [p ->].
      * by rewrite E2.
      * destruct (Hs c i s0 E0) as [p Ep]. rewrite Ep in *. destruct us as [|d us]; [by rewrite Hu|].
        destruct Hu as (H1 & -> & H2). rewrite updates_run; done.
  - assert (forall d j, snapshot_of d j (forget_camera cam e) = if bool_decide (d = cam) then None else snapshot_of d j e) as Hf.
    { intros d j. unfold snapshot_of. simpl. case_bool_decide as Hd; [subst; by rewrite lookup_delete_eq|by rewrite lookup_delete_ne]. }
    split_and!; [|done|].
    + intros d j s. rewrite Hf. case_bool_decide; [done|apply Hs].
    + unfold alive at 2. rewrite Hf. case_bool_decide as Hc; [subst; rewrite bool_decide_true by done; simpl; by destruct (alive c i e)|].
      rewrite bool_decide_false by congruence. done.
Qed.

Lemma stamped_new hz : stamped (emitter_new hz).
Proof. intros c i s. unfold snapshot_of. simpl. rewrite lookup_empty. simpl. by rewrite lookup_empty. Qed.

(** Every track's story is a life: over any frames, with ids listed twice or out of order, and with the
    camera forgotten at any time, a track is born before it is updated or dies, is not born again before
    it died, and two things said of it while it is there are at least the sampling interval apart. What
    the emitter holds at the end is whether it is there and when it was last spoken of. *)
Lemma track_story_is_a_life hz ops c i :
  life_run (update_interval (sample_hz (emitter_new hz))) None (story c i ops (emitter_new hz)) = Some (alive c i (mrun ops (emitter_new hz)).1).
Proof.
  assert (forall ops e, stamped e -> life_run (update_interval (sample_hz e)) (alive c i e) (story c i ops e) = Some (alive c i (mrun ops e).1)) as Hgen.
  { clear. induction ops as [|o ops IH]; intros e Hs; [done|]. rewrite mrun_cons. cbn [story fst]. rewrite life_run_app.
    destruct (step_life c i o e Hs) as (Hs' & Eh & ->). simpl. rewrite <- Eh. by apply IH. }
  rewrite <- Hgen by apply stamped_new. done.
Qed.

(** ** A death names what was last seen *)
Definition see_last (c i : Z) (o : option TrackedObject) (op : EmitterOp) : option TrackedObject :=
  match op with
  | Tick cam tracked _ _ => if bool_decide (cam = c) then last (filter (fun t => o_track_id t = i) tracked) else o
  | Forget cam => if bool_decide (cam = c) then None else o
  end.

Definition last_seen (c i : Z) (ops : list EmitterOp) : option TrackedObject := foldl (see_last c i) None ops.

Definition shows (s : TrackSnapshot) (t : TrackedObject) : Prop :=
  last_bbox s = o_bbox t /\ last_label s = o_label t /\ last_confidence s = confidence t /\ last_attributes s = attributes t.

Definition tracks_seen (c i : Z) (e : MotionEventEmitter) (o : option TrackedObject) : Prop :=
  match snapshot_of c i e, o with Some s, Some t => shows s t | None, None => True | _, _ => False end.

Lemma step_seen c i o e t : tracks_seen c i e t -> tracks_seen c i (mstep o e).1 (see_last c i t o).
Proof.
  unfold tracks_seen. destruct o as [cam tracked now now_mono|cam]; [rewrite mstep_tick; cbn [fst see_last]|simpl].
  - unfold tick. destruct (tick_tracks cam (update_interval (sample_hz e)) tracked now now_mono (default ∅ (cameras e !! cam))) as [out st] eqn:Et. cbn [fst snd sample_hz].
    case_bool_decide as Hc; [subst cam|by unfold snapshot_of; simpl; rewrite lookup_insert_ne]. intros _.
    pose proof (tick_track c (update_interval (sample_hz e)) tracked now now_mono (default ∅ (cameras e !! c)) i) as T. cbn zeta in T. rewrite Et in T.
    unfold snapshot_of at 1. simpl. rewrite lookup_insert_eq. simpl. destruct (default ∅ (cameras e !! c) !! i) as [s|]; destruct (last _) as [t'|].
    + by destruct T as (s' & -> & Hs & _).
    + by destruct T as [_ ->].
    + by destruct T as (s' & -> & Hs & _).
    + by destruct T as [_ ->].
  - unfold snapshot_of. simpl. case_bool_decide as Hc; [subst; by rewrite lookup_delete_eq|by rewrite lookup_delete_ne].
Qed.

(** When a track dies, the decision carries the box, the label, the confidence and the attributes with
    which it was last seen, and it is of a track of the last frame that is not in this one. *)
Theorem death_shows_last_sight hz ops c tracked now now_mono d :
  let e := (mrun ops (emitter_new hz)).1 in
  d ∈ (tick c tracked now now_mono e).1 -> d_kind d = Died ->
  exists t, last_seen c (d_track d) ops = Some t /\ d = mkDecision c (d_track d) Died now (o_bbox t) (o_label t) (confidence t) (attributes t) /\
    forall t', t' ∈ tracked -> o_track_id t' <> d_track d.
Proof.
  cbn zeta. intros Hd Hk. assert (forall ops e t, tracks_seen c (d_track d) e t -> tracks_seen c (d_track d) (mrun ops e).1 (foldl (see_last c (d_track d)) t ops)) as Hgen.
  { clear. induction ops as [|o ops IH]; intros e t Ht; [done|]. rewrite mrun_cons. cbn [foldl fst]. by apply IH, step_seen. }
  assert (tracks_seen c (d_track d) (mrun ops (emitter_new hz)).1 (last_seen c (d_track d) ops)) as Hs.
  { apply Hgen. unfold tracks_seen, snapshot_of. simpl. rewrite lookup_empty. simpl. by rewrite lookup_empty. }
  set (e := (mrun ops (emitter_new hz)).1) in *. unfold tick in Hd.
  pose proof (tick_track c (update_interval (sample_hz e)) tracked now now_mono (default ∅ (cameras e !! c)) (d_track d)) as T. cbn zeta in T.
  destruct (tick_tracks _ _ _ _ _ _) as [out st]. simpl in Hd. assert (d ∈ of_track (d_track d) out) as Hin by by apply list_elem_of_filter.
  unfold tracks_seen, snapshot_of in Hs. destruct (default ∅ (cameras e !! c) !! d_track d) as [s|]; destruct (last (filter _ tracked)) as [t|] eqn:El.
  - exfalso. destruct T as (s' & _ & _ & us & E & Hu & _). rewrite E in Hin. rewrite Forall_forall in Hu. apply Hu in Hin. congruence.
  - destruct T as [E _]. rewrite E in Hin. apply list_elem_of_singleton in Hin. destruct (last_seen c (d_track d) ops) as [t|]; [|done].
    exists t. destruct Hs as (H1 & H2 & H3 & H4). split_and!; [done|rewrite Hin at 1; unfold death; simpl; by rewrite H1, H2, H3, H4|].
    intros t' Ht' E'. apply last_None in El. assert (t' ∈ filter (fun t => o_track_id t = d_track d) tracked) as Hf by by apply list_elem_of_filter.
    rewrite El in Hf. by apply elem_of_nil in Hf.
  - exfalso. destruct T as (s' & _ & _ & [t0 E] & _). rewrite E in Hin. apply list_elem_of_singleton in Hin. by rewrite Hin in Hk.
  - exfalso. destruct T as [E _]. rewrite E in Hin. by apply elem_of_nil in Hin.
Qed.

Definition person (i x : Z) : TrackedObject := mkObject i "person" (f32_of_Z 1) (mkBBox (f32_of_Z x) fzero (f32_of_Z 1) (f32_of_Z 1)) None 1 0 ∅.

Lemma death_shows_last_sight_witness :
  exists t, last_seen 7 1 [Tick 7 [person 1 10] 0 0; Tick 7 [person 1 20; person 2 5] 100 100] = Some t /\ o_bbox t = o_bbox (person 1 20).
Proof.
  set (d := mkDecision 7 1 Died 200 (o_bbox (person 1 20)) "person" (f32_of_Z 1) ∅).
  destruct (death_shows_last_sight (f32_of_Z 1) [Tick 7 [person 1 10] 0 0; Tick 7 [person 1 20; person 2 5] 100 100] 7 [person 2 6] 200 200 d) as (t & H1 & H2 & _).
  - vm_compute. left.
  - reflexivity.
  - exists t. split; [exact H1|]. exact (eq_sym (f_equal d_bbox H2)).
Defined.
