(* ===== verification/Nms.v ===== *)
(** What follows a detector: non-maximum suppression ([nexus-inference/src/nms.rs]) and the caps on the
    number and the size of detections ([caps.rs]), over IEEE single floats. *)
From S2P Require Import Prelude Float Order Types Alert.

Definition iou (a b : BBox) : f32 :=
  let iw := fmax (f32_sub (fmin (x2 a) (x2 b)) (fmax (x1 a) (x1 b))) fzero in
  let ih := fmax (f32_sub (fmin (y2 a) (y2 b)) (fmax (y1 a) (y1 b))) fzero in
  let inter := f32_mul iw ih in
  let area_a := f32_mul (width a) (height a) in
  let area_b := f32_mul (width b) (height b) in
  let union := f32_sub (f32_add area_a area_b) inter in
  if fle union fzero then fzero else f32_div inter union.

(** Descending confidence; numbers that do not compare are equal. *)
Definition by_confidence (a b : Detection) : comparison :=
  match SFcompare (d_confidence b) (d_confidence a) with Some c => c | None => Eq end.

(** [a] suppresses [b]. *)
Definition overlaps (iou_threshold : f32) (a b : Detection) : bool :=
  str_eqb (d_label a) (d_label b) && fge (iou (d_bbox a) (d_bbox b)) iou_threshold.

(** ** The passes

    [suppressed] is the vector of flags; a pass visits the indices [0 .. n) in order. *)
Record Pass := mkPass { keep : list Detection; suppressed : list bool }.

Definition flag (s : list bool) (j : nat) : bool := default true (s !! j).

Definition scan (dets : list Detection) (thr : f32) (i : nat) (d : Detection) (s : list bool) (j : nat) : list bool :=
  if bool_decide (j <= i)%nat || flag s j then s
  else match dets !! j with
  | Some e => if overlaps thr d e then <[j := true]> s else s
  | None => s
  end.

(** The candidates of index [i] are those the visit looks at, in its order. *)
Definition visit (dets : list Detection) (thr : f32) (candidates : nat -> list nat) (p : Pass) (i : nat) : Pass :=
  if flag (suppressed p) i then p
  else match dets !! i with
  | Some d => mkPass (keep p ++ [d]) (foldl (scan dets thr i d) (suppressed p) (candidates i))
  | None => p
  end.

Definition run_pass (dets : list Detection) (thr : f32) (candidates : nat -> list nat) : list Detection :=
  keep (foldl (visit dets thr candidates) (mkPass [] (replicate (length dets) false)) (seq 0 (length dets))).

Definition nms_naive (dets : list Detection) (thr : f32) : list Detection :=
  run_pass dets thr (fun i => seq (S i) (length dets - S i)).

Definition cell_of (size : f32) (d : Detection) : Z * Z :=
  let b := d_bbox d in
  (floor_i32 (f32_div (f32_mul (f32_add (x1 b) (x2 b)) f32_half) size), floor_i32 (f32_div (f32_mul (f32_add (y1 b) (y2 b)) f32_half) size)).

Abbreviation Grid := (gmap (Z * Z) (list nat)).

Definition build_grid (cells : list (Z * Z)) : Grid :=
  foldl (fun (g : Grid) ic => <[ic.2 := default [] (g !! ic.2) ++ [ic.1]]> g) ∅ (zip (seq 0 (length cells)) cells).

(** [gx + dx] in [i32], which wraps in a release build. *)
Definition wrap_i32 (z : Z) : Z := (z + 2 ^ 31) mod 2 ^ 32 - 2 ^ 31.

Definition neighbours (c : Z * Z) : list (Z * Z) :=
  dx ← [-1; 0; 1]; dy ← [-1; 0; 1]; [(wrap_i32 (c.1 + dx), wrap_i32 (c.2 + dy))].

#[global] Arguments neighbours : simpl never.
#[global] Arguments cell_of : simpl never.

Definition nms_bucketed (dets : list Detection) (thr : f32) (bucket_size_px : Z) : list Detection :=
  let cells := cell_of (f32_of_Z bucket_size_px) <$> dets in
  let grid := build_grid cells in
  run_pass dets thr (fun i => match cells !! i with Some c => neighbours c ≫= (fun n => default [] (grid !! n)) | None => [] end).

Definition nms_per_label (dets : list Detection) (thr : f32) (bucket_size_px : option Z) : list Detection :=
  if bool_decide (length dets <= 1)%nat then dets
  else
    let dets := sort_by by_confidence dets in
    match bucket_size_px with
    | None => nms_naive dets thr
    | Some size => if size =? 0 then nms_naive dets thr else nms_bucketed dets thr size
    end.

(** ** Caps *)
Definition apply_min_bbox_area (min_area_px : Z) (l : list Detection) : list Detection :=
  if min_area_px =? 0 then l
  else filter (fun d => fge (f32_mul (fmax (f32_sub (x2 (d_bbox d)) (x1 (d_bbox d))) fzero) (fmax (f32_sub (y2 (d_bbox d)) (y1 (d_bbox d))) fzero)) (f32_of_Z min_area_px) = true) l.

Definition apply_top_k (k : nat) (l : list Detection) : list Detection :=
  if bool_decide (k < length l)%nat then take k (sort_by by_confidence l) else l.


(** ** The reference: a detection survives unless one that survived before it suppresses it *)
Definition greedy (thr : f32) : list Detection -> list Detection := suppress (overlaps thr).

(** ** A pass is the reference, run on indices *)
Section pass.
Context (dets : list Detection) (thr : f32) (candidates : nat -> list nat).

(** Index [k] suppresses index [j]: the visit of [k] looks at [j]. *)
Definition edge (k j : nat) : bool :=
  bool_decide (k < j)%nat && bool_decide (j ∈ candidates k) &&
  match dets !! k, dets !! j with Some a, Some b => overlaps thr a b | _, _ => false end.

Definition choose (kept : list nat) (j : nat) : list nat :=
  if existsb (fun k => edge k j) kept then kept else kept ++ [j].
Definition chosen (m : nat) : list nat := foldl choose [] (seq 0 m).

Lemma chosen_S m : chosen (S m) = choose (chosen m) m.
Proof. unfold chosen. by rewrite seq_S, foldl_snoc. Qed.

Lemma chosen_lt m k : k ∈ chosen m -> (k < m)%nat.
Proof.
  induction m as [|m IH]; [by intros H%elem_of_nil|]. rewrite chosen_S. unfold choose.
  destruct (existsb _ _); [by intros ?%IH; lia|]. intros [H%IH| ->%list_elem_of_singleton]%elem_of_app; lia.
Qed.

Lemma scan_length i d s j : length (scan dets thr i d s j) = length s.
Proof.
  unfold scan. destruct (_ || _); [done|]. destruct (dets !! j); [|done].
  destruct (overlaps _ _ _); [by rewrite length_insert|done].
Qed.

Lemma scan_flag i d s c j :
  dets !! i = Some d -> length s = length dets -> (j < length dets)%nat ->
  flag (scan dets thr i d s c) j =
  flag s j || (bool_decide (c = j) && bool_decide (i < j)%nat && match dets !! j with Some e => overlaps thr d e | None => false end).
Proof.
  intros Hi Hs Hj. destruct (decide (c = j)) as [->|Hc].
  - rewrite (bool_decide_true (j = j)) by done. unfold scan. destruct (decide (i < j)%nat) as [Hl|Hl].
    + rewrite (bool_decide_false (j <= i)%nat), (bool_decide_true (i < j)%nat) by lia.
      destruct (flag s j) eqn:Ef; [done|]. simpl. destruct (dets !! j) as [e|]; [|done].
      destruct (overlaps thr d e); [|by rewrite Ef]. unfold flag. rewrite list_lookup_insert_eq by lia. done.
    + rewrite (bool_decide_true (j <= i)%nat), (bool_decide_false (i < j)%nat) by lia. by rewrite orb_false_r.
  - rewrite (bool_decide_false (c = j)) by done. rewrite orb_false_r. unfold scan.
    destruct (_ || _); [done|]. destruct (dets !! c); [|done]. destruct (overlaps _ _ _); [|done].
    unfold flag. by rewrite list_lookup_insert_ne.
Qed.

Lemma scans_flag i d cs s j :
  dets !! i = Some d -> length s = length dets -> (j < length dets)%nat ->
  length (foldl (scan dets thr i d) s cs) = length dets /\
  flag (foldl (scan dets thr i d) s cs) j =
  flag s j || (bool_decide (i < j)%nat && bool_decide (j ∈ cs) && match dets !! j with Some e => overlaps thr d e | None => false end).
Proof.
  intros Hi Hs Hj. induction cs as [|c cs IH] using rev_ind.
  - simpl. by rewrite andb_false_r, orb_false_r.
  - rewrite foldl_snoc, scan_length. destruct IH as [Hl IH]. split; [done|].
    rewrite scan_flag, IH by done. rewrite <- orb_assoc. f_equal.
    assert (bool_decide (j ∈ cs ++ [c]) = bool_decide (j ∈ cs) || bool_decide (c = j)) as ->.
    { rewrite <- bool_decide_or. apply bool_decide_ext. rewrite elem_of_app, list_elem_of_singleton. naive_solver. }
    by destruct (bool_decide (i < j)%nat), (bool_decide (j ∈ cs)), (bool_decide (c = j)), (dets !! j) as [e|]; simpl; try destruct (overlaps thr d e).
Qed.

(** After the visits of [0 .. m), exactly what a kept index suppresses is flagged. *)
Lemma pass_upto m :
  (m <= length dets)%nat ->
  let p := foldl (visit dets thr candidates) (mkPass [] (replicate (length dets) false)) (seq 0 m) in
  keep p = omap (dets !!.) (chosen m) /\ length (suppressed p) = length dets /\
  forall j, (j < length dets)%nat -> flag (suppressed p) j = existsb (fun k => edge k j) (chosen m).
Proof.
  induction m as [|m IH]; intros Hm; cbn zeta.
  - split; [done|]. simpl. rewrite length_replicate. split; [done|]. intros j Hj.
    unfold flag. by rewrite lookup_replicate_2.
  - rewrite seq_S, foldl_snoc, chosen_S. change (0 + m)%nat with m.
    destruct IH as (Hk & Hl & Hf); [lia|]. revert Hk Hl Hf. generalize (foldl (visit dets thr candidates) (mkPass [] (replicate (length dets) false)) (seq 0 m)).
    intros p Hk Hl Hf. unfold visit, choose. rewrite Hf by lia. destruct (existsb _ _) eqn:E; [done|].
    destruct (lookup_lt_is_Some_2 dets m) as [d Hd]; [lia|]. rewrite Hd. simpl.
    split; [by rewrite omap_app, Hk; simpl; rewrite Hd|].
    split; [by apply (scans_flag m d _ _ m Hd Hl)|]. intros j Hj.
    destruct (scans_flag m d (candidates m) (suppressed p) j Hd Hl Hj) as [_ ->].
    rewrite existsb_app, Hf by done. simpl. unfold edge at 3. by rewrite Hd, orb_false_r.
Qed.

Lemma run_pass_chosen : run_pass dets thr candidates = omap (dets !!.) (chosen (length dets)).
Proof. by destruct (pass_upto (length dets)) as [H _]. Qed.
End pass.

Lemma chosen_ext dets thr c1 c2 n :
  (forall k j, (k < n)%nat -> (j < n)%nat -> edge dets thr c1 k j = edge dets thr c2 k j) ->
  chosen dets thr c1 n = chosen dets thr c2 n.
Proof.
  intros He. assert (forall m, (m <= n)%nat -> chosen dets thr c1 m = chosen dets thr c2 m) as H; [|by apply H].
  induction m as [|m IH]; intros Hm; [done|]. rewrite !chosen_S, IH by lia. unfold choose.
  assert (existsb (fun k => edge dets thr c1 k m) (chosen dets thr c2 m) = existsb (fun k => edge dets thr c2 k m) (chosen dets thr c2 m)) as ->; [|done].
  apply eq_true_iff_eq. rewrite !existsb_exists. setoid_rewrite <- list_elem_of_In.
  split; intros (k & Hk & Ho); exists k; (split; [done|]); pose proof (chosen_lt _ _ _ _ _ Hk); [rewrite <- He by lia|rewrite He by lia]; done.
Qed.

Lemma edge_naive dets thr k j a b :
  dets !! k = Some a -> dets !! j = Some b -> (k < j)%nat ->
  edge dets thr (fun i => seq (S i) (length dets - S i)) k j = overlaps thr a b.
Proof.
  intros Hk Hj Hkj. unfold edge. rewrite bool_decide_true, Hk, Hj by done. rewrite bool_decide_true; [done|].
  apply elem_of_seq. apply lookup_lt_Some in Hj. lia.
Qed.

Lemma existsb_omap {A B} (f : A -> option B) (p : B -> bool) (q : A -> bool) l :
  (forall x, x ∈ l -> match f x with Some y => p y = q x | None => q x = false end) -> existsb p (omap f l) = existsb q l.
Proof.
  induction l as [|x l IH]; intros H; [done|]. simpl. pose proof (H x (list_elem_of_here _ _)) as Hx.
  rewrite <- IH by (intros; apply H; by apply list_elem_of_further). destruct (f x); simpl; by rewrite Hx.
Qed.

Lemma nms_naive_greedy dets thr : nms_naive dets thr = greedy thr dets.
Proof.
  unfold nms_naive. rewrite run_pass_chosen. set (c := fun i => seq (S i) (length dets - S i)).
  assert (forall m, (m <= length dets)%nat -> omap (dets !!.) (chosen dets thr c m) = greedy thr (take m dets)) as H.
  2: by rewrite H, take_ge.
  induction m as [|m IH]; intros Hm; [done|]. destruct (lookup_lt_is_Some_2 dets m) as [d Hd]; [lia|].
  unfold greedy in *. rewrite (take_S_r _ _ _ Hd), suppress_snoc, chosen_S. unfold suppress_step. unfold choose. rewrite <- IH by lia.
  rewrite (existsb_omap _ _ (fun k => edge dets thr c k m)).
  - destruct (existsb _ _); [done|]. rewrite omap_app. simpl. by rewrite Hd.
  - intros k Hk%chosen_lt. destruct (lookup_lt_is_Some_2 dets k) as [a Ha]; [lia|]. rewrite Ha. symmetry. by apply edge_naive.
Qed.

(** ** The grid *)
Lemma build_grid_spec cells c j : j ∈ default [] (build_grid cells !! c) <-> cells !! j = Some c.
Proof.
  unfold build_grid. induction cells as [|e cells IH] using rev_ind.
  - simpl. by rewrite lookup_empty, elem_of_nil, lookup_nil.
  - rewrite length_app, seq_app. simpl. rewrite zip_with_app by (by rewrite length_seq). simpl. rewrite foldl_snoc. simpl.
    set (g := foldl _ ∅ _) in *. rewrite lookup_snoc_Some. destruct (decide (e = c)) as [->|Hc].
    + rewrite lookup_insert_eq. simpl. rewrite elem_of_app, IH, list_elem_of_singleton.
      split; [intros [H| ->]; [left; split; [by eapply lookup_lt_Some|done]|by right]|intros [[_ H]|[-> _]]; auto].
    + rewrite lookup_insert_ne, IH by done.
      split; [intros H; left; split; [by eapply lookup_lt_Some|done]|intros [[_ H]|[_ H]]; [done|congruence]].
Qed.

(** Every pair that overlaps lies in neighbouring cells. *)
Definition grid_covers (size : Z) (thr : f32) (dets : list Detection) : Prop :=
  forall a b, a ∈ dets -> b ∈ dets -> overlaps thr a b = true ->
  cell_of (f32_of_Z size) b ∈ neighbours (cell_of (f32_of_Z size) a).

Lemma nms_bucketed_naive dets thr size : grid_covers size thr dets -> nms_bucketed dets thr size = nms_naive dets thr.
Proof.
  intros Hg. unfold nms_bucketed, nms_naive. rewrite !run_pass_chosen. f_equal. apply chosen_ext.
  intros k j Hk%lookup_lt_is_Some_2 Hj%lookup_lt_is_Some_2. destruct Hk as [a Ha], Hj as [b Hb].
  destruct (decide (k < j)%nat) as [Hkj|Hkj]; [|unfold edge; by rewrite !(bool_decide_false (k < j)%nat) by done].
  rewrite (edge_naive _ _ _ _ _ _ Ha Hb Hkj). unfold edge. rewrite list_lookup_fmap, Ha, Hb, (bool_decide_true (k < j)%nat) by done. cbn [fmap option_fmap option_map andb].
  destruct (overlaps thr a b) eqn:Eo; [|by rewrite andb_false_r]. rewrite bool_decide_true; [done|].
  apply list_elem_of_bind. exists (cell_of (f32_of_Z size) b). split; [|apply Hg; [by eapply list_elem_of_lookup_2..|done]].
  apply build_grid_spec. by rewrite list_lookup_fmap, Hb.
Qed.

(** ** Confidences

    A confidence that is not a number does not compare, and [slice::sort_by] leaves the order of such
    a list open: [by_confidence] orders the lists without one. *)
Definition rated (d : Detection) : Prop := is_nan (d_confidence d) = false.

Definition confidence_order (a b : Detection) : comparison :=
  total_cmp (one_zero (d_confidence b)) (one_zero (d_confidence a)).

#[export] Instance confidence_comparator : Comparator confidence_order.
Proof.
  exact (flip_comparator _ (Comparator0 := on_comparator (fun d => one_zero (d_confidence d)) total_cmp)).
Qed.

Lemma by_confidence_rated a b : rated a -> rated b -> by_confidence a b = confidence_order a b.
Proof. intros Ha Hb. unfold by_confidence. by rewrite SFcompare_total. Qed.

Lemma confidence_order_fge a b :
  rated a -> rated b -> not_after confidence_order a b <-> fge (d_confidence a) (d_confidence b) = true.
Proof. intros Ha Hb. unfold fge. rewrite fle_not_after by done. done. Qed.

Definition descending : list Detection -> Prop := StronglySorted (fun a b => fge (d_confidence a) (d_confidence b) = true).

Lemma sorted_descending l : Forall rated l -> descending (sort_by by_confidence l).
Proof.
  intros Hl. rewrite Forall_forall in Hl.
  rewrite (sort_by_ext _ confidence_order) by (intros; apply by_confidence_rated; auto).
  unfold descending. assert (Forall rated (sort_by confidence_order l)) as Hr.
  { apply Forall_forall. intros d Hd. rewrite sort_by_permutation in Hd. auto. }
  pose proof (sort_by_sorted confidence_order l) as Hs. induction Hs as [|d k Hs IH Hd]; [constructor|].
  apply Forall_cons in Hr as [Hr Hrk]. constructor; [by apply IH|].
  rewrite Forall_forall in Hd, Hrk |- *. intros e He. apply confidence_order_fge; auto.
Qed.

(** ** The result, on either path *)

Lemma nms_greedy dets thr bucket :
  (forall size, bucket = Some size -> size <> 0 -> grid_covers size thr dets) ->
  nms_per_label dets thr bucket = greedy thr (sort_by by_confidence dets).
Proof.
  intros Hg. unfold nms_per_label. destruct (decide (length dets <= 1)%nat) as [Hl|Hl].
  - rewrite bool_decide_true by done. destruct dets as [|d [|]]; [done..|]. simpl in Hl. lia.
  - rewrite bool_decide_false by done. destruct bucket as [size|]; [|apply nms_naive_greedy].
    destruct (Z.eqb_spec size 0) as [->|Hz]; [apply nms_naive_greedy|]. rewrite nms_bucketed_naive; [apply nms_naive_greedy|].
    intros a b Ha Hb. rewrite sort_by_permutation in Ha, Hb. by apply (Hg size).
Qed.

Lemma descending_lookup l i j a b :
  descending l -> l !! j = Some a -> l !! i = Some b -> (j < i)%nat -> fge (d_confidence a) (d_confidence b) = true.
Proof.
  intros Hs Ha Hb Hji. revert i j Ha Hb Hji. induction Hs as [|d l Hs IH Hd]; intros i j Ha Hb Hji; [done|].
  destruct i as [|i]; [lia|]. destruct j as [|j]; simpl in *; [|apply IH with i j; [done..|lia]].
  injection Ha as <-. rewrite Forall_forall in Hd. apply Hd. by eapply list_elem_of_lookup_2.
Qed.

(** What is kept, as sets: each detection is kept or suppressed by a kept one no less confident. *)
Lemma nms_kept dets thr bucket :
  Forall rated dets ->
  (forall size, bucket = Some size -> size <> 0 -> grid_covers size thr dets) ->
  (forall d, d ∈ nms_per_label dets thr bucket -> d ∈ dets) /\
  (forall d, d ∈ dets -> d ∈ nms_per_label dets thr bucket \/
     exists k, k ∈ nms_per_label dets thr bucket /\ overlaps thr k d = true /\ fge (d_confidence k) (d_confidence d) = true).
Proof.
  intros Hr Hg. rewrite nms_greedy by done. split.
  - intros d Hd. rewrite <- (sort_by_permutation by_confidence dets).
    eapply elem_of_submseteq; [exact Hd|apply sublist_submseteq, suppress_sublist].
  - intros d Hd. rewrite <- (sort_by_permutation by_confidence dets) in Hd. apply list_elem_of_lookup_1 in Hd as [i Hi].
    destruct (suppress_covers (overlaps thr) _ i d Hi) as [Hd|(k & j & Hj & Hji & Hk & Ho)]; [by left|].
    right. exists k. split; [done|]. split; [done|].
    eapply descending_lookup; [by apply sorted_descending|exact Hj|exact Hi|done].
Qed.

(** What suppression is meant by, apart from the code's test: the same label, and an intersection over
    union that reaches the threshold ([>=] in the code, where its comment says "exceeds"). *)
Definition suppresses (thr : f32) (a b : Detection) : Prop :=
  d_label a = d_label b /\ fge (iou (d_bbox a) (d_bbox b)) thr = true.

Lemma overlaps_suppresses thr a b : overlaps thr a b = true <-> suppresses thr a b.
Proof. unfold overlaps, suppresses, str_eqb. by rewrite andb_true_iff, bool_decide_eq_true. Qed.

(** The survivors of greedy suppression of a list: a part of it in its order, in which none suppresses a
    later one, and from before which one suppresses whatever is left out. *)
Record greedily_kept (thr : f32) (input kept : list Detection) : Prop := {
  gk_part : kept `sublist_of` input;
  gk_apart : forall i j a b, kept !! i = Some a -> kept !! j = Some b -> (i < j)%nat -> ~ suppresses thr a b;
  gk_covers : forall i d, input !! i = Some d -> d ∈ kept \/
    exists k j, input !! j = Some k /\ (j < i)%nat /\ k ∈ kept /\ suppresses thr k d;
}.

(** C34. Suppression, naive or over the grid, is greedy suppression in the order of descending confidence:
    of two detections of one label whose boxes overlap by the threshold or more, the one behind is
    dropped when the one before it is kept, and nothing else is. For confidences that are numbers (a
    NaN leaves the order of the sort open), and, with the grid, where no two such boxes lie in cells
    that are not neighbours; the naive and the bucketed pass then keep the same list. *)
Theorem suppression_is_greedy dets thr bucket :
  Forall rated dets ->
  (forall size, bucket = Some size -> size <> 0 -> grid_covers size thr dets) ->
  let input := sort_by by_confidence dets in
  let kept := nms_per_label dets thr bucket in
  input ≡ₚ dets /\ descending input /\ greedily_kept thr input kept /\ kept = nms_per_label dets thr None.
Proof.
  intros Hr Hg. cbn zeta. split; [apply sort_by_permutation|]. split; [by apply sorted_descending|].
  rewrite !nms_greedy by done. split; [|done]. split.
  - apply suppress_sublist.
  - intros i j a b Hi Hj Hij Hs%overlaps_suppresses. unfold greedy in *. by rewrite (suppress_independent _ _ _ _ _ _ Hi Hj Hij) in Hs.
  - intros i d Hi. destruct (suppress_covers (overlaps thr) _ i d Hi) as [Hd|(k & j & Hj & Hji & Hk & Ho)]; [by left|].
    right. exists k, j. by rewrite <- overlaps_suppresses.
Qed.

Definition demo_dets : list Detection :=
  [mkDetection "person" (flit 8388608 (-24)) (mkBBox fzero fzero (f32_of_Z 10) (f32_of_Z 10)) ∅;
   mkDetection "person" (flit 12582912 (-24)) (mkBBox (f32_of_Z 1) (f32_of_Z 1) (f32_of_Z 11) (f32_of_Z 11)) ∅;
   mkDetection "person" (flit 8388608 (-25)) (mkBBox (f32_of_Z 300) (f32_of_Z 1) (f32_of_Z 310) (f32_of_Z 11)) ∅].

#[export] Instance grid_covers_dec size thr dets : Decision (grid_covers size thr dets).
Proof.
  refine (cast_if (decide (Forall (fun a => Forall (fun b => overlaps thr a b = true -> cell_of (f32_of_Z size) b ∈ neighbours (cell_of (f32_of_Z size) a)) dets) dets))).
  - intros a b Ha Hb. rewrite Forall_forall in f. specialize (f a Ha). rewrite Forall_forall in f. by apply f.
  - intros Hg. apply n, Forall_forall. intros a Ha. apply Forall_forall. intros b Hb. by apply Hg.
Defined.

Lemma suppression_is_greedy_witness :
  map (fun d => x1 (d_bbox d)) (nms_per_label demo_dets f32_half (Some 64)) = [f32_of_Z 1; f32_of_Z 300] /\
  greedily_kept f32_half (sort_by by_confidence demo_dets) (nms_per_label demo_dets f32_half (Some 64)).
Proof.
  split; [vm_compute; reflexivity|]. apply (suppression_is_greedy demo_dets f32_half (Some 64)).
  { repeat constructor. }
  intros size [= <-] _. apply (bool_decide_unpack _). vm_compute. exact I.
Defined.

(** Boxes that overlap by exactly the threshold: the later one goes. *)
Example equal_overlap_suppresses :
  let d x := mkDetection "person" f32_half (mkBBox (f32_of_Z x) fzero (f32_of_Z (x + 2)) (f32_of_Z 1)) ∅ in
  iou (d_bbox (d 0)) (d_bbox (d 0)) = f32_of_Z 1 /\ length (nms_per_label [d 0; d 0] (f32_of_Z 1) None) = 1%nat.
Proof. vm_compute. done. Qed.

(** At threshold 0 the naive pass suppresses boxes that do not meet; the bucketed one does not look at
    those in far cells, whatever the cells' size exceeds. *)
Lemma bucket_matters_at_threshold_zero :
  length (nms_per_label demo_dets fzero None) = 1%nat /\ length (nms_per_label demo_dets fzero (Some 64)) = 2%nat.
Proof. vm_compute. done. Qed.


(** ** The caps *)

Lemma descending_split l1 l2 a b :
  descending (l1 ++ l2) -> a ∈ l1 -> b ∈ l2 -> fge (d_confidence a) (d_confidence b) = true.
Proof.
  intros Hs Ha Hb. induction l1 as [|d l1 IH]; [by apply elem_of_nil in Ha|].
  apply StronglySorted_inv in Hs as [Hs Hd]. apply elem_of_cons in Ha as [-> |Ha]; [|by apply IH].
  rewrite Forall_forall in Hd. apply Hd, elem_of_app. by right.
Qed.

(** Of [l], the cap keeps at most [k] detections, and leaves out none that is more confident than one
    it keeps. *)
Lemma top_k_keeps_the_best k l :
  Forall rated l -> exists rest,
  l ≡ₚ apply_top_k k l ++ rest /\ length (apply_top_k k l) = Nat.min k (length l) /\
  forall a b, a ∈ apply_top_k k l -> b ∈ rest -> fge (d_confidence a) (d_confidence b) = true.
Proof.
  intros Hr. unfold apply_top_k. destruct (decide (k < length l)%nat) as [Hk|Hk].
  - rewrite bool_decide_true by done. exists (drop k (sort_by by_confidence l)).
    rewrite length_take, (Permutation_length (sort_by_permutation _ l)), take_drop, sort_by_permutation.
    split; [done|]. split; [done|]. intros a b Ha Hb. eapply descending_split; [|exact Ha|exact Hb].
    rewrite take_drop. by apply sorted_descending.
  - rewrite bool_decide_false by done. exists []. rewrite app_nil_r. split; [done|]. split; [lia|].
    by intros a b _ ?%elem_of_nil.
Qed.
