(* ===== verification/Detectors.v ===== *)
(** The detectors of [nexus-inference]: the trait ([detectors.rs]), the wrappers that cap a detector's
    output ([caps.rs] and the order [lib.rs] puts them in), the ensemble ([ensemble.rs]), the
    stand-in for a model that did not load and the registry of such failures ([health.rs]).

    What a model sees in a frame is not in the repository: a detector is a record of programs over
    a world [W], which holds the models' and devices' state. *)
From S2P Require Import Prelude Text Float Order Types Alert Nms.
From Stdlib Require Import Ascii.
Open Scope Z_scope.

Inductive InferenceError :=
| ModelLoad (why : string)
| EpUnavailable (why : string)
| InferFailed (why : string)
| UnsupportedFormat (f : PixelFormat)
| InferIo (why : string).

Abbreviation Detect W := (Frame -> list string -> SE W InferenceError (list Detection)) (only parsing).

Record Detector W := mkDetector {
  detect : Detect W;
  detect_crop : Detect W;
  det_name : string;
}.
Arguments mkDetector {W}.
Arguments detect {W}.
Arguments detect_crop {W}.
Arguments det_name {W}.

(** [detect_crop] as the trait defines it. *)
Definition default_crop {W} (detect : Detect W) (name : string) : Detector W := mkDetector detect detect name.

(** ** The per-camera whitelist *)

(** [rsplit('.').next()]: what follows the last dot. *)
Definition last_segment (label : string) : string := default label (last (split "."%char label)).

Definition label_matches_any_prompt (label : string) (prompts : list string) : bool :=
  if bool_decide (prompts = []) then true
  else existsb (fun p => eq_ignore_ascii_case p label || eq_ignore_ascii_case p (last_segment label)) prompts.

(** ** Stand-ins *)

Definition unavailable {W} : Detector W := default_crop (fun _ _ => mret []) "unavailable".

(** ** Wrappers *)
Section wrappers.
Context {W : Type}.

Definition min_bbox_area_detector (inner : Detector W) (min_area_px : Z) : Detector W :=
  default_crop (fun frame prompts => dets ← detect inner frame prompts; mret (apply_min_bbox_area min_area_px dets)) (det_name inner).

Definition top_k_detector (inner : Detector W) (k : nat) : Detector W :=
  default_crop (fun frame prompts => dets ← detect inner frame prompts; mret (apply_top_k k dets)) (det_name inner).

(** [build_detector_with_context] over the detector [build_detector_kind] made. *)
Definition with_caps (min_area : option Z) (top_k : option nat) (inner : Detector W) : Detector W :=
  let inner := match min_area with
               | Some m => if 0 <? m then min_bbox_area_detector inner m else inner
               | None => inner
               end in
  match top_k with Some k => top_k_detector inner k | None => inner end.

(** ** The ensemble

    The members run concurrently, each on its own session, and [join_all] puts their results in
    the members' order. *)
Definition DEFAULT_ENSEMBLE_NMS_IOU : f32 := f32_half.

Record EnsembleDetector := mkEnsemble {
  members : list (Detector W);
  nms_iou : f32;
  nms_spatial_bucket_size_px : option Z;
}.

Fixpoint fan_out (l : list (Detector W)) (frame : Frame) (prompts : list string) (w : W) : list (result (list Detection) InferenceError) * W :=
  match l with
  | [] => ([], w)
  | m :: l' =>
      let '(r, w) := detect m frame prompts w in
      let '(rs, w) := fan_out l' frame prompts w in
      (r :: rs, w)
  end.

(** A member that fails is left out. *)
Definition merge (rs : list (result (list Detection) InferenceError)) : list Detection :=
  rs ≫= (fun r => match r with Ok dets => dets | Err _ => [] end).

Definition ensemble_detect (e : EnsembleDetector) (frame : Frame) (prompts : list string) : SE W InferenceError (list Detection) :=
  fun w =>
  if bool_decide (members e = []) then (Ok [], w)
  else
    let '(rs, w) := fan_out (members e) frame prompts w in
    (Ok (nms_per_label (merge rs) (nms_iou e) (nms_spatial_bucket_size_px e)), w).
End wrappers.
Arguments EnsembleDetector : clear implicits.

Definition ensemble {W} (e : EnsembleDetector W) : Detector W := default_crop (ensemble_detect e) "ensemble".

(** ** Degradations: [health.rs]

    [register] hands out a registration whose [Drop] removes its own entry. *)
Record DetectorDegradation := mkDegradation { dg_kind : string; dg_layer : option string; dg_reason : string }.

#[export] Instance degradation_eq_dec : EqDecision DetectorDegradation.
Proof. solve_decision. Defined.

Record Registry := mkRegistry { next_registration : Z; registrations : list (Z * DetectorDegradation) }.

Definition registry_new : Registry := mkRegistry 1 [].

(** [fetch_add] wraps at 64 bits. *)
Definition register (entry : DetectorDegradation) (g : Registry) : Registry * Z :=
  (mkRegistry ((next_registration g + 1) mod 2 ^ 64) (registrations g ++ [(next_registration g, entry)]), next_registration g).

Definition drop_registration (id : Z) (g : Registry) : Registry :=
  mkRegistry (next_registration g) (filter (fun e => e.1 <> id) (registrations g)).

Definition degradations (g : Registry) : list DetectorDegradation :=
  foldl (fun acc e => if bool_decide (e.2 ∈ acc) then acc else acc ++ [e.2]) [] (registrations g).

Definition is_degraded (g : Registry) : bool := bool_decide (registrations g <> []).

(** [DegradedDetector] keeps a registration for as long as it lives. *)
Record DegradedDetector W := mkDegraded { degraded_inner : Detector W; registration : Z }.
Arguments mkDegraded {W}.
Arguments degraded_inner {W}.
Arguments registration {W}.

(** [mock] is the synthetic detector; [mock_fallback_allowed] reads the environment. *)
Definition degraded_detector_in_layer {W} (mock : Detector W) (mock_fallback_allowed : bool) (kind : string) (layer : option string)
    (reason : string) (g : Registry) : DegradedDetector W * Registry :=
  let '(inner, reason) := if mock_fallback_allowed then (mock, reason +:+ " (synthetic mock detector substituted)") else (unavailable, reason) in
  let '(g, id) := register (mkDegradation kind layer reason) g in
  (mkDegraded (default_crop (detect inner) (det_name inner)) id, g).

Inductive HealthOp := Register (d : DetectorDegradation) | DropRegistration (id : Z).

#[export] Instance health_machine : Machine HealthOp Registry (option Z) :=
  fun o g => match o with
  | Register d => let '(g, id) := register d g in (g, Some id)
  | DropRegistration id => (drop_registration id g, None)
  end.

(** ** Caps *)

Definition box_area (d : Detection) : f32 :=
  f32_mul (fmax (f32_sub (x2 (d_bbox d)) (x1 (d_bbox d))) fzero) (fmax (f32_sub (y2 (d_bbox d)) (y1 (d_bbox d))) fzero).

Lemma min_area_in m l d : d ∈ apply_min_bbox_area m l -> d ∈ l /\ (m <> 0 -> fge (box_area d) (f32_of_Z m) = true).
Proof.
  unfold apply_min_bbox_area. destruct (Z.eqb_spec m 0) as [->|Hm]; [done|].
  intros [Ha Hd]%list_elem_of_filter. done.
Qed.

Lemma top_k_length k l : (length (apply_top_k k l) <= k)%nat.
Proof.
  unfold apply_top_k. case_bool_decide as H; [|lia]. rewrite length_take. lia.
Qed.

Lemma top_k_in k l d : d ∈ apply_top_k k l -> d ∈ l.
Proof.
  unfold apply_top_k. case_bool_decide; [|done]. intros Hd%subseteq_take. by rewrite sort_by_permutation in Hd.
Qed.

(** What leaves the wrappers is what the detector saw, no more than the cap and none smaller than
    the floor; an error passes. *)
Lemma with_caps_spec {W} min_area top_k (inner : Detector W) frame prompts w :
  (forall m, min_area = Some m -> 0 <= m) ->
  match detect (with_caps min_area top_k inner) frame prompts w, detect inner frame prompts w with
  | (Ok out, w1), (Ok dets, w2) =>
      w1 = w2 /\ (forall d, d ∈ out -> d ∈ dets) /\
      (forall m d, min_area = Some m -> 0 < m -> d ∈ out -> fge (box_area d) (f32_of_Z m) = true) /\
      (forall k, top_k = Some k -> (length out <= k)%nat)
  | (Err e1, w1), (Err e2, w2) => e1 = e2 /\ w1 = w2
  | _, _ => False
  end.
Proof.
  intros Hmin.
  assert (forall m, 0 < m -> forall dets : list Detection, forall d, d ∈ apply_min_bbox_area m dets ->
            d ∈ dets /\ fge (box_area d) (f32_of_Z m) = true) as Hm.
  { intros m Hp dets d Hd. apply min_area_in in Hd as [Hd Ha]. split; [done|]. apply Ha. lia. }
  unfold with_caps. destruct min_area as [m|]; [destruct (Z.ltb_spec 0 m)|]; destruct top_k as [k|];
    unfold top_k_detector, min_bbox_area_detector; simpl; unfold mbind, se_bind, mret, se_ret;
    destruct (detect inner frame prompts w) as [[dets|e] w']; try done; split_and!; try done;
    intros; simplify_eq; try lia; try apply top_k_length;
    repeat match goal with H : _ ∈ apply_top_k _ _ |- _ => apply top_k_in in H end; try done; by eapply Hm.
Qed.

(** ** The ensemble *)
Section ensemble.
Context {W : Type}.

(** The world each member leaves the next, and what it answers. *)
Lemma fan_out_length (l : list (Detector W)) frame prompts w : length (fan_out l frame prompts w).1 = length l.
Proof.
  revert w. induction l as [|m l IH]; intros w; [done|]. simpl. destruct (detect m frame prompts w) as [r w1].
  specialize (IH w1). destruct (fan_out l frame prompts w1). simpl in *. by rewrite IH.
Qed.

Lemma elem_of_merge rs d : d ∈ merge rs <-> exists dets, Ok dets ∈ rs /\ d ∈ dets.
Proof.
  unfold merge. rewrite list_elem_of_bind. split.
  - intros ([dets|e] & Hd & Hr); [by exists dets|by apply elem_of_nil in Hd].
  - intros (dets & Hr & Hd). by exists (Ok dets).
Qed.
End ensemble.

(** A member that fails costs the ensemble that member's detections and nothing else: detection
    always answers, with the suppression of everything the working members found on the frame; each
    answer is one of theirs, and each of theirs is answered or suppressed by an answer of its label
    that is no less confident. *)
Lemma ensemble_answers_for_the_working {W} (e : EnsembleDetector W) frame prompts w :
  let rs := (fan_out (members e) frame prompts w).1 in
  Forall rated (merge rs) ->
  (forall size, nms_spatial_bucket_size_px e = Some size -> size <> 0 -> grid_covers size (nms_iou e) (merge rs)) ->
  exists out, detect (ensemble e) frame prompts w = (Ok out, (fan_out (members e) frame prompts w).2) /\
    (forall d, d ∈ out -> exists dets, Ok dets ∈ rs /\ d ∈ dets) /\
    (forall dets d, Ok dets ∈ rs -> d ∈ dets ->
       d ∈ out \/ exists k, k ∈ out /\ overlaps (nms_iou e) k d = true /\ fge (d_confidence k) (d_confidence d) = true).
Proof.
  cbn zeta. intros Hr Hg. exists (nms_per_label (merge (fan_out (members e) frame prompts w).1) (nms_iou e) (nms_spatial_bucket_size_px e)).
  destruct (nms_kept (merge (fan_out (members e) frame prompts w).1) (nms_iou e) (nms_spatial_bucket_size_px e) Hr Hg) as [Hin Hcov].
  split; [|split].
  - unfold ensemble. simpl. unfold ensemble_detect. case_bool_decide as Hm.
    + by rewrite Hm.
    + by destruct (fan_out (members e) frame prompts w).
  - intros d Hd. by apply elem_of_merge, Hin.
  - intros dets d Hdets Hd. apply Hcov, elem_of_merge. by exists dets.
Qed.

(** A camera with two models, of which one did not load its device. *)
Definition working : Detector unit := default_crop (fun _ _ => mret demo_dets) "yolo".
Definition broken : Detector unit := default_crop (fun _ _ => throw (InferFailed "device gone")) "yoloe".
Definition demo_ensemble : EnsembleDetector unit := mkEnsemble [broken; working] DEFAULT_ENSEMBLE_NMS_IOU None.
Definition demo_frame : Frame := mkFrame 1 1 0 0 640 360 Rgb24 [] "t".

Lemma ensemble_answers_for_the_working_witness :
  exists out, detect (ensemble demo_ensemble) demo_frame [] tt = (Ok out, tt) /\ length out = 2%nat /\
    (forall d, d ∈ out -> exists dets, Ok dets ∈ (fan_out (members demo_ensemble) demo_frame [] tt).1 /\ d ∈ dets).
Proof.
  destruct (ensemble_answers_for_the_working demo_ensemble demo_frame [] tt) as (out & H1 & H2 & _).
  - simpl. repeat constructor.
  - intros size. discriminate.
  - exists out. split; [exact H1|]. split; [|exact H2].
    assert (Ok out = (detect (ensemble demo_ensemble) demo_frame [] tt).1) as E by (rewrite H1; reflexivity).
    vm_compute in E. injection E as ->. reflexivity.
Defined.

(** ** Registrations *)

Lemma elem_of_listed g d : d ∈ degradations g <-> exists id, (id, d) ∈ registrations g.
Proof.
  unfold degradations. induction (registrations g) as [|[id e] l IH] using rev_ind.
  - simpl. split; [by intros ?%elem_of_nil|by intros (id & ?%elem_of_nil)].
  - rewrite foldl_snoc. simpl. setoid_rewrite elem_of_app. setoid_rewrite list_elem_of_singleton.
    assert (d ∈ foldl (fun acc e => if bool_decide (e.2 ∈ acc) then acc else acc ++ [e.2]) [] l \/ d = e <->
            exists id0, (id0, d) ∈ l \/ (id0, d) = (id, e)) as <-.
    { rewrite IH. split; [intros [[i H]| ->]; [by exists i; left|by exists id; right]|].
      intros (i & [H|[= -> ->]]); [left; by exists i|by right]. }
    case_bool_decide as He; [|by rewrite elem_of_app, list_elem_of_singleton].
    split; [by left|by intros [?| ->]].
Qed.

Lemma nodup_keys_filter {A} (P : Z * A -> Prop) `{!forall x, Decision (P x)} (l : list (Z * A)) :
  NoDup l.*1 -> NoDup (filter P l).*1.
Proof.
  induction l as [|[i a] l IH]; [done|]. rewrite fmap_cons, NoDup_cons. intros [Hi Hl]. rewrite filter_cons.
  case_decide; [|by apply IH]. rewrite fmap_cons, NoDup_cons. split; [|by apply IH].
  intros ([j b] & E & [_ Hj]%list_elem_of_filter)%list_elem_of_fmap. apply Hi, list_elem_of_fmap. by exists (j, b).
Qed.

Lemma nodup_keys_inj {A} (l : list (Z * A)) i a b : NoDup l.*1 -> (i, a) ∈ l -> (i, b) ∈ l -> a = b.
Proof.
  intros Hl Ha Hb. apply (elem_of_list_to_map (M:=gmap Z)) in Ha, Hb; [|done..]. congruence.
Qed.

(** Ids are given out once, for as long as the counter does not wrap. *)
Definition registry_ok (n : Z) (g : Registry) : Prop :=
  1 <= next_registration g <= n + 1 /\ NoDup (registrations g).*1 /\
  forall id d, (id, d) ∈ registrations g -> id < next_registration g.

Lemma drop_registrations id g : registrations (drop_registration id g) = filter (fun e => e.1 <> id) (registrations g).
Proof. done. Qed.

Lemma registry_step n g o : n + 1 < 2 ^ 64 - 1 -> registry_ok n g -> registry_ok (n + 1) (mstep o g).1.
Proof.
  intros Hn (Hx & Hd & Hlt). destruct o as [d|id]; simpl; split_and!; simpl.
  - rewrite Z.mod_small; lia.
  - rewrite Z.mod_small; lia.
  - rewrite fmap_app. apply NoDup_app. split; [done|]. split; [|apply NoDup_singleton].
    intros i Hi ->%list_elem_of_singleton. apply list_elem_of_fmap in Hi as ([i e] & [= <-] & Hi). apply Hlt in Hi. simpl in Hi. lia.
  - intros id e. rewrite Z.mod_small by lia. intros [H%Hlt|[= -> ->]%list_elem_of_singleton]%elem_of_app; lia.
  - lia.
  - lia.
  - by apply nodup_keys_filter.
  - intros i e [_ H]%list_elem_of_filter. by apply Hlt in H.
Qed.

Lemma registry_reach ops g n :
  n + zlength ops < 2 ^ 64 - 1 -> registry_ok n g -> registry_ok (n + zlength ops) (mrun ops g).1.
Proof.
  revert g n. induction ops as [|o ops IH]; intros g n Hn Hg.
  - simpl. unfold zlength. simpl. by rewrite Z.add_0_r.
  - rewrite mrun_cons. unfold zlength in *. simpl length in *. rewrite Nat2Z.inj_succ in *.
    replace (n + Z.succ (Z.of_nat (length ops))) with (n + 1 + Z.of_nat (length ops)) by lia. simpl.
    apply IH; [lia|]. apply registry_step; [lia|done].
Qed.

Lemma kept_through ops g id d :
  (id, d) ∈ registrations g -> DropRegistration id ∉ ops -> (id, d) ∈ registrations (mrun ops g).1.
Proof.
  revert g. induction ops as [|o ops IH]; intros g Hg Hno; [done|]. rewrite mrun_cons. simpl.
  apply not_elem_of_cons in Hno as [Ho Hno]. apply IH; [|done]. destruct o as [e|i]; simpl.
  - apply elem_of_app. by left.
  - apply list_elem_of_filter. split; [|done]. simpl. congruence.
Qed.

(** Whatever else fails and recovers, the engine reports itself degraded, with this failure
    listed, for exactly as long as the detector that stands for the failed model lives: dropping it
    takes its own entry and no other. *)
Lemma degraded_as_long_as_the_detector_lives before d later :
  zlength before + zlength later + 1 < 2 ^ 64 - 2 ->
  let '(g0, id) := register d (mrun before registry_new).1 in
  let g := (mrun later g0).1 in
  DropRegistration id ∉ later ->
  is_degraded g = true /\ d ∈ degradations g /\
  forall i e, (i, e) ∈ registrations (drop_registration id g) <-> (i, e) ∈ registrations g /\ (i, e) <> (id, d).
Proof.
  intros Hn. assert (0 <= zlength before) by (unfold zlength; lia). assert (0 <= zlength later) by (unfold zlength; lia).
  destruct (register d (mrun before registry_new).1) as [g0 id] eqn:E. intros g Hno.
  assert (registry_ok 0 registry_new) as Hnew.
  { split_and!; simpl; [lia|lia|apply NoDup_nil_2|by intros i e ?%elem_of_nil]. }
  pose proof (registry_reach before registry_new 0 ltac:(lia) Hnew) as Hb.
  pose proof (registry_step (0 + zlength before) _ (Register d) ltac:(lia) Hb) as Hg0.
  assert ((mstep (Register d) (mrun before registry_new).1).1 = g0) as Eg.
  { change ((let '(g1, i) := register d (mrun before registry_new).1 in (g1, Some i)).1 = g0). by rewrite E. }
  rewrite Eg in Hg0. pose proof (registry_reach later g0 (0 + zlength before + 1) ltac:(lia) Hg0) as (_ & Hnd & _). fold g in Hnd.
  assert ((id, d) ∈ registrations g) as Hin.
  { apply kept_through; [|done]. unfold register in E. injection E as <- <-. simpl. apply elem_of_app. right. by apply list_elem_of_singleton. }
  split_and!.
  - unfold is_degraded. apply bool_decide_eq_true. intros Hz. rewrite Hz in Hin. by apply elem_of_nil in Hin.
  - apply elem_of_listed. by exists id.
  - intros i e. rewrite drop_registrations, list_elem_of_filter. simpl. split; [intros [Hi He]; split; [done|congruence]|].
    intros [He Hne]. split; [|done]. intros ->. apply Hne. f_equal. by eapply nodup_keys_inj.
Qed.

Definition yolo_down : DetectorDegradation := mkDegradation "yolo" None "missing ONNX".
Definition yoloe_down : DetectorDegradation := mkDegradation "yoloe" (Some "yoloe@640x640") "no pack".

Lemma degraded_as_long_as_the_detector_lives_witness :
  let g := (mrun [DropRegistration 1; Register yoloe_down] (register yolo_down (mrun [Register yoloe_down] registry_new).1).1).1 in
  is_degraded g = true /\ degradations g = [yolo_down; yoloe_down] /\ degradations (drop_registration 2 g) = [yoloe_down].
Proof.
  pose proof (degraded_as_long_as_the_detector_lives [Register yoloe_down] yolo_down [DropRegistration 1; Register yoloe_down] eq_refl) as H.
  cbn -[is_degraded degradations drop_registration] in H. destruct H as (H1 & _ & _); [apply not_elem_of_cons; split; [discriminate|]; apply not_elem_of_cons; split; [discriminate|apply not_elem_of_nil]|].
  split; [exact H1|]. split; vm_compute; reflexivity.
Defined.
