(* ===== verification/Backends.v ===== *)
(** Where a detector runs: the slot on a thread of its own and the pool that routes frames over the
    slots ([nexus-inference/src/backends.rs], [pool.rs]).

    A slot is a step system. Its events are what can happen to it: the thread gets its runtime, a
    call is sent, the worker finishes the command at the head of its queue or panics in it, a caller
    resumes, the backend is dropped. A device that hangs is a worker for which no [Serve] comes.
    Times are nanoseconds of the monotonic clock. *)
From S2P Require Import Prelude Float Types Alert Detectors.

Inductive BackendState := Initializing | Ready | Restarting | Failed.

#[export] Instance backend_state_eq_dec : EqDecision BackendState.
Proof. solve_decision. Defined.

Definition from_u8 (v : Z) : BackendState :=
  if v =? 0 then Initializing else if v =? 1 then Ready else if v =? 2 then Restarting else Failed.

Definition as_u8 (s : BackendState) : Z :=
  match s with Initializing => 0 | Ready => 1 | Restarting => 2 | Failed => 3 end.

Lemma state_u8_roundtrip s : from_u8 (as_u8 s) = s.
Proof. by destruct s. Qed.

Definition DETECT_TIMEOUT : Z := secs 10.
Definition DEVICE_FAILURE_STREAK : Z := 32.
Definition DEVICE_FAILURE_WINDOW : Z := secs 15.

Abbreviation Answer := (result (list Detection) InferenceError) (only parsing).

Definition is_ok {A E} (r : result A E) : bool := match r with Ok _ => true | Err _ => false end.

(** ** The slot's health

    The state and generation every backend has, and the failures in a row of a slot on a thread. *)
Record Slot := mkSlot {
  state : BackendState;
  generation : Z;
  error_streak : Z;
  streak_started : option Z;
}.

Definition set_state (s : BackendState) (b : Slot) : Slot := mkSlot s (generation b) (error_streak b) (streak_started b).
Definition bump_generation (b : Slot) : Slot := mkSlot (state b) ((generation b + 1) mod 2 ^ 64) (error_streak b) (streak_started b).

(** What [detect] records of an answer at [now]; the counter has 32 bits. *)
Definition record_outcome (now : Z) (ok : bool) (b : Slot) : Slot :=
  if ok then mkSlot (state b) (generation b) 0 (streak_started b)
  else
    let streak := (error_streak b + 1) mod 2 ^ 32 in
    let started := if streak =? 1 then Some now else streak_started b in
    let sustained := (DEVICE_FAILURE_STREAK <=? streak) &&
                     match started with Some t => DEVICE_FAILURE_WINDOW <=? Z.max 0 (now - t) | None => false end in
    if sustained then mkSlot (if decide (state b = Failed) then state b else Failed) (generation b) 0 started
    else mkSlot (state b) (generation b) streak started.

(** ** The slot on a thread *)
Inductive WorkerCmd := Detect (call : Z) | PushConfig | Shutdown.
Inductive Phase := Starting | Serving | Exited.

#[export] Instance phase_eq_dec : EqDecision Phase.
Proof. solve_decision. Defined.

(** A call waits on its reply channel until a deadline; [replies] holds what was sent into the
    channels, [None] where the sender went away. *)
Record ThreadIsolated := mkThread {
  slot : Slot;
  phase : Phase;
  queue : list WorkerCmd;
  waiting : gmap Z Z;
  replies : gmap Z (option Answer);
}.

Definition start : ThreadIsolated := mkThread (mkSlot Initializing 0 0 None) Starting [] ∅ ∅.

Definition with_slot (f : Slot -> Slot) (b : ThreadIsolated) : ThreadIsolated :=
  mkThread (f (slot b)) (phase b) (queue b) (waiting b) (replies b).

Definition send (c : WorkerCmd) (b : ThreadIsolated) : ThreadIsolated :=
  mkThread (slot b) (phase b) (queue b ++ [c]) (waiting b) (replies b).

(** A reply goes to a caller that still waits. *)
Definition reply (call : Z) (r : option Answer) (b : ThreadIsolated) : ThreadIsolated :=
  match waiting b !! call with
  | Some _ => mkThread (slot b) (phase b) (queue b) (waiting b) (<[call := r]> (replies b))
  | None => b
  end.

Definition lose (c : WorkerCmd) (b : ThreadIsolated) : ThreadIsolated :=
  match c with Detect call => reply call None b | _ => b end.

(** The thread ends: the receiver goes, and with it the queued commands and their channels. *)
Definition thread_exit (b : ThreadIsolated) : ThreadIsolated :=
  let b' := foldr lose b (queue b) in
  mkThread (slot b') Exited [] (waiting b') (replies b').

Inductive Event :=
| Boot (runtime_ok : bool)
| Submit (call now : Z)
| PushCameraConfig
| Serve (r : Answer)
| Panic
| Return (call now : Z)
| DropBackend.

Definition next (b : ThreadIsolated) (q : list WorkerCmd) : ThreadIsolated := mkThread (slot b) (phase b) q (waiting b) (replies b).

Definition answered (call : Z) (b : ThreadIsolated) : ThreadIsolated :=
  mkThread (slot b) (phase b) (queue b) (delete call (waiting b)) (delete call (replies b)).

Definition timed_out : Answer := Err (InferFailed "detect timed out").

(** What a resumed caller finds: its answer, a dropped channel, the deadline passed, or nothing yet. *)
Inductive Found := Outcome (r : Answer) | Lost | NotYet.

Definition found (call now : Z) (b : ThreadIsolated) : Found :=
  match waiting b !! call with
  | None => NotYet
  | Some deadline =>
      match replies b !! call with
      | Some (Some r) => Outcome r
      | Some None => Lost
      | None => if deadline <=? now then Outcome timed_out else NotYet
      end
  end.

#[export] Instance thread_machine : Machine Event ThreadIsolated (option (Z * Answer)) :=
  fun e b =>
  match e with
  | Boot runtime_ok =>
      match phase b with
      | Starting =>
          if runtime_ok then
            (mkThread (set_state Ready (bump_generation (slot b))) Serving (queue b) (waiting b) (replies b), None)
          else (thread_exit (with_slot (set_state Failed) b), None)
      | _ => (b, None)
      end
  | Submit call now =>
      if decide (phase b = Exited) then
        (with_slot (set_state Failed) b, Some (call, Err (InferFailed "worker channel closed")))
      else
        let b := send (Detect call) b in
        (mkThread (slot b) (phase b) (queue b) (<[call := now + DETECT_TIMEOUT]> (waiting b)) (replies b), None)
  | PushCameraConfig => (if decide (phase b = Exited) then b else send PushConfig b, None)
  | Serve r =>
      match phase b, queue b with
      | Serving, Detect call :: q => (reply call (Some r) (next b q), None)
      | Serving, PushConfig :: q => (next b q, None)
      | Serving, Shutdown :: q => (thread_exit (next b q), None)
      | _, _ => (b, None)
      end
  | Panic => match phase b with Serving => (thread_exit b, None) | _ => (b, None) end
  | Return call now =>
      match found call now b with
      | Outcome r => (with_slot (record_outcome now (is_ok r)) (answered call b), Some (call, r))
      | Lost => (answered call b, Some (call, Err (InferFailed "worker reply")))
      | NotYet => (b, None)
      end
  | DropBackend => (if decide (phase b = Exited) then b else send Shutdown b, None)
  end.

(** ** The pool

    [looking] holds the calls that are in [pick_ready], with the looks each has left. The calls run
    concurrently and share the cursor, an atomic counter of 64 bits: a step is one look of one call, so
    every interleaving of their looks, and of the answers the slots record meanwhile, is a run. *)
Record Pool := mkPool { workers : list Slot; has_fallback : bool; cursor : Z; degraded : bool; looking : gmap nat nat }.

Definition pool_new (ws : list Slot) (fallback : bool) : Pool := mkPool ws fallback 0 false ∅.

Definition with_looking (x : gmap nat nat) (p : Pool) : Pool := mkPool (workers p) (has_fallback p) (cursor p) (degraded p) x.

Inductive Route := ToWorker (i : nat) | ToFallback | NoBackend.

Definition clear_degraded_if_recovered (p : Pool) : Pool :=
  if degraded p && existsb (fun w => bool_decide (state w = Ready)) (workers p)
  then mkPool (workers p) (has_fallback p) (cursor p) false (looking p) else p.

(** [detect] up to its first look. *)
Definition enter (call : nat) (p : Pool) : Pool :=
  let p := clear_degraded_if_recovered p in with_looking (<[call := length (workers p)]> (looking p)) p.

(** One look at the slot the cursor names ([fetch_add]). *)
Definition look (call k : nat) (p : Pool) : Pool * option Route :=
  let i := Z.to_nat (cursor p mod zlength (workers p)) in
  let p := mkPool (workers p) (has_fallback p) ((cursor p + 1) mod 2 ^ 64) (degraded p) (looking p) in
  if decide (state <$> workers p !! i = Some Ready) then (with_looking (delete call (looking p)) p, Some (ToWorker i))
  else (with_looking (<[call := k]> (looking p)) p, None).

(** The call that found no slot: the warning's flag, and the fallback. *)
Definition stop_looking (call : nat) (p : Pool) : Pool * option Route :=
  (mkPool (workers p) (has_fallback p) (cursor p) true (delete call (looking p)), Some (if has_fallback p then ToFallback else NoBackend)).

(** [Answered]: a call that was handed to slot [i] ends at [now], and the slot records how. *)
Inductive PoolEvent := Enter (call : nat) | Look (call : nat) | Answered (i : nat) (now : Z) (ok : bool).

#[export] Instance pool_machine : Machine PoolEvent Pool (option Route) :=
  fun e p =>
  match e with
  | Enter call => (enter call p, None)
  | Look call =>
      match looking p !! call with
      | Some (S k) => look call k p
      | Some O => stop_looking call p
      | None => (p, None)
      end
  | Answered i now ok => (mkPool (alter (record_outcome now ok) i (workers p)) (has_fallback p) (cursor p) (degraded p) (looking p), None)
  end.

(** ** Failed is final *)

Lemma record_keeps_failed now ok s : state s = Failed -> state (record_outcome now ok s) = Failed.
Proof. unfold record_outcome. intros Hs. destruct ok; [done|]. destruct (_ && _); simpl; [|done]. by rewrite decide_True. Qed.

Lemma lose_slot l b : slot (foldr lose b l) = slot b /\ phase (foldr lose b l) = phase b.
Proof.
  induction l as [|c l [IH1 IH2]]; [done|]. simpl. destruct c; simpl; [|by auto..]. unfold reply.
  destruct (waiting _ !! _); simpl; by auto.
Qed.

Lemma exit_slot b : slot (thread_exit b) = slot b.
Proof. unfold thread_exit. simpl. apply lose_slot. Qed.

Lemma reply_slot call r b : slot (reply call r b) = slot b /\ phase (reply call r b) = phase b.
Proof. unfold reply. by destruct (waiting b !! call). Qed.

(** What an event does to the health of a slot, and to its phase. *)
Lemma step_slot e b :
  (phase (mstep e b).1 = Starting -> phase b = Starting) /\
  match e with
  | Boot ok => if decide (phase b = Starting) then
                 slot (mstep e b).1 = if ok then set_state Ready (bump_generation (slot b)) else set_state Failed (slot b)
               else slot (mstep e b).1 = slot b
  | Submit _ _ => slot (mstep e b).1 = if decide (phase b = Exited) then set_state Failed (slot b) else slot b
  | Return call now =>
      slot (mstep e b).1 = match found call now b with Outcome r => record_outcome now (is_ok r) (slot b) | _ => slot b end
  | _ => slot (mstep e b).1 = slot b
  end.
Proof.
  unfold mstep. destruct e as [ok|call now| |r| |call now|]; simpl.
  - destruct (phase b) eqn:Ep; simpl; rewrite ?Ep; try done. split; [done|].
    destruct ok; [done|]. apply (exit_slot (with_slot (set_state Failed) b)).
  - by destruct (decide (phase b = Exited)).
  - by destruct (decide (phase b = Exited)).
  - destruct (phase b) eqn:Ep; simpl; rewrite ?Ep; try done. destruct (queue b) as [|[] q]; simpl; rewrite ?Ep; try done.
    + destruct (reply_slot call (Some r) (next b q)) as [-> ->]. simpl. by rewrite Ep.
    + split; [done|]. apply (exit_slot (next b q)).
  - destruct (phase b) eqn:Ep; simpl; rewrite ?Ep; try done. split; [done|]. apply (exit_slot b).
  - by destruct (found call now b).
  - by destruct (decide (phase b = Exited)).
Qed.

Lemma booted_stays_booted es b : phase b <> Starting -> phase (mrun es b).1 <> Starting.
Proof.
  revert b. induction es as [|e es IH]; intros b Hb; [done|]. rewrite mrun_cons. simpl. apply IH.
  intros H. by apply Hb, (step_slot e b).
Qed.

Lemma step_keeps_failed e b : phase b <> Starting -> state (slot b) = Failed -> state (slot (mstep e b).1) = Failed.
Proof.
  intros Hp Hs. destruct (step_slot e b) as [_ H]. destruct e; rewrite ?H; try done.
  - by rewrite decide_False in H by done; rewrite H.
  - by destruct (decide _).
  - destruct (found call now b); [by apply record_keeps_failed|done..].
Qed.

Lemma failed_is_final es b : phase b <> Starting -> state (slot b) = Failed -> state (slot (mrun es b).1) = Failed.
Proof.
  revert b. induction es as [|e es IH]; intros b Hp Hs; [done|]. rewrite mrun_cons. simpl. apply IH.
  - by apply (booted_stays_booted [e] b) in Hp; rewrite mrun_cons in Hp.
  - by apply step_keeps_failed.
Qed.

(** ** What demotes a slot

    The answers a slot recorded, with their times. *)
Definition outcome_of (e : Event) (b : ThreadIsolated) : list (Z * bool) :=
  match e with
  | Return call now => match found call now b with Outcome r => [(now, is_ok r)] | _ => [] end
  | _ => []
  end.

Fixpoint history (es : list Event) (b : ThreadIsolated) : list (Z * bool) :=
  match es with [] => [] | e :: es => outcome_of e b ++ history es (mstep e b).1 end.

Lemma history_snoc es e b : history (es ++ [e]) b = history es b ++ outcome_of e (mrun es b).1.
Proof.
  revert b. induction es as [|e' es IH]; intros b; [simpl; by rewrite app_nil_r|].
  rewrite mrun_cons. simpl. by rewrite IH, app_assoc.
Qed.

(** The failures in a row at the end of a history, since the first of them. *)
Definition streak_of (h : list (Z * bool)) (s : Slot) : Prop :=
  exists h0 run, h = h0 ++ run /\ zlength run = error_streak s /\ Forall (fun o => o.2 = false) run /\
    match run with [] => True | (t, _) :: _ => streak_started s = Some t end.

(** The evidence for a demotion at [now]. *)
Definition failing_since (h : list (Z * bool)) (now : Z) : Prop :=
  exists h0 t run, h = h0 ++ (t, false) :: run /\ Forall (fun o => o.2 = false) run /\
    DEVICE_FAILURE_STREAK <= zlength run + 1 /\ DEVICE_FAILURE_WINDOW <= now - t.

Lemma record_streak h s now ok :
  zlength h + 1 < 2 ^ 32 -> streak_of h s ->
  streak_of (h ++ [(now, ok)]) (record_outcome now ok s) /\
  (state s <> Failed -> state (record_outcome now ok s) = Failed -> failing_since (h ++ [(now, ok)]) now).
Proof.
  intros Hn (h0 & run & -> & Hlen & Hrun & Hst).
  assert (streak_of ((h0 ++ run) ++ [(now, ok)]) (mkSlot (state s) (generation s) 0 (streak_started s))) as Hzero.
  { exists ((h0 ++ run) ++ [(now, ok)]), []. by rewrite app_nil_r. }
  unfold record_outcome. destruct ok; [by split|].
  assert (0 <= error_streak s < zlength (h0 ++ run) + 1) as Hb by (unfold zlength in *; rewrite length_app; lia).
  rewrite (Z.mod_small (error_streak s + 1)) by lia.
  set (started := if error_streak s + 1 =? 1 then Some now else streak_started s).
  assert (exists t rest, run ++ [(now, false)] = (t, false) :: rest /\ started = Some t /\ Forall (fun o => o.2 = false) rest) as (t & rest & Er & Et & Hrest).
  { destruct run as [|[t b] run].
    - exists now, []. subst started. unfold zlength in Hlen. simpl in Hlen. by rewrite <- Hlen.
    - apply Forall_cons in Hrun as [Hb0 Hrun]. simpl in Hb0. subst b. exists t, (run ++ [(now, false)]).
      split; [done|]. split; [|by apply Forall_app; split; [|repeat constructor]]. subst started.
      destruct (Z.eqb_spec (error_streak s + 1) 1) as [E|]; [|done]. unfold zlength in Hlen. simpl in Hlen. lia. }
  assert (zlength rest + 1 = error_streak s + 1) as Hl.
  { assert (zlength (run ++ [(now, false)]) = zlength rest + 1) by (rewrite Er; unfold zlength; simpl; lia).
    unfold zlength in *. rewrite length_app in *. simpl in *. lia. }
  destruct (_ && _) eqn:E; simpl.
  - split; [|].
    + destruct Hzero as (a & r & H1 & H2 & H3 & H4). exists a, r. split; [done|]. split; [done|]. split; [done|].
      destruct r as [|[]]; [done|]. unfold zlength in H2. simpl in H2. lia.
    + intros _ _. apply andb_true_iff in E as [E1 E2]. rewrite Et in E2. apply Z.leb_le in E1, E2. exists h0, t, rest.
      rewrite <- app_assoc, Er. split; [done|]. split; [done|].
      assert (DEVICE_FAILURE_WINDOW = 15000000000) as -> by done. assert (DEVICE_FAILURE_WINDOW = 15000000000) as Ew by done. rewrite Ew in E2. lia.
  - split; [|done]. exists h0, (run ++ [(now, false)]). rewrite app_assoc. split; [done|]. rewrite Er. simpl.
    split; [unfold zlength in *; simpl; lia|]. split; [|done]. by constructor.
Qed.

Lemma history_length es b : zlength (history es b) <= zlength es.
Proof.
  revert b. induction es as [|e es IH]; intros b; [done|]. simpl. specialize (IH (mstep e b).1).
  unfold zlength in *. rewrite length_app. simpl length.
  assert (length (outcome_of e b) <= 1)%nat; [|lia]. destruct e; simpl; try lia. destruct (found _ _ _); simpl; lia.
Qed.

Lemma history_app es1 es2 b : history (es1 ++ es2) b = history es1 b ++ history es2 (mrun es1 b).1.
Proof.
  revert b. induction es1 as [|e es1 IH]; intros b; [done|]. rewrite mrun_cons. simpl. by rewrite IH, app_assoc.
Qed.

(** An event records at most one answer, and otherwise leaves the streak alone. *)
Lemma step_streak_fields e b :
  (exists now ok, outcome_of e b = [(now, ok)] /\ slot (mstep e b).1 = record_outcome now ok (slot b)) \/
  (outcome_of e b = [] /\ error_streak (slot (mstep e b).1) = error_streak (slot b) /\
   streak_started (slot (mstep e b).1) = streak_started (slot b)).
Proof.
  destruct (step_slot e b) as [_ H]. destruct e as [ok|call now| |r| |call now|]; try (right; by rewrite H).
  - right. destruct (decide (phase b = Starting)); rewrite H; [by destruct ok|done].
  - right. rewrite H. by destruct (decide _).
  - simpl. destruct (found call now b) as [r| |]; [left|right; by rewrite H..]. by exists now, (is_ok r).
Qed.

Lemma mrun_snoc es e (b : ThreadIsolated) : (mrun (es ++ [e]) b).1 = (mstep e (mrun es b).1).1.
Proof. by rewrite mrun_app, mrun_cons. Qed.

Lemma run_streak es : zlength es < 2 ^ 32 -> streak_of (history es start) (slot (mrun es start).1).
Proof.
  induction es as [|e es IH] using rev_ind; intros Hn.
  - by exists [], [].
  - assert (zlength es + 1 < 2 ^ 32) as Hn' by (unfold zlength in *; rewrite length_app in Hn; simpl in Hn; lia).
    rewrite history_snoc, mrun_snoc. specialize (IH ltac:(lia)). pose proof (history_length es start).
    destruct (step_streak_fields e (mrun es start).1) as [(now & ok & -> & ->)|(-> & E1 & E2)].
    + apply record_streak; [lia|done].
    + rewrite app_nil_r. destruct IH as (h0 & run & ? & ? & ? & ?). exists h0, run. by rewrite E1, E2.
Qed.

(** A slot goes to [Failed] for one of three reasons: its thread got no runtime, its thread is
    gone, or its last answers are failures all of them, at least 32 in a row and the first of them at
    least 15 seconds old: a hiccup, or a burst of errors shorter than a driver's reset, demotes nothing. *)
Lemma demotion_has_evidence es e :
  zlength es + 1 < 2 ^ 32 ->
  let b := (mrun es start).1 in
  state (slot b) <> Failed -> state (slot (mstep e b).1) = Failed ->
  e = Boot false \/ (exists call now, e = Submit call now /\ phase b = Exited) \/
  (exists call now, e = Return call now /\ failing_since (history (es ++ [e]) start) now).
Proof.
  intros Hn b Hb Hf. pose proof (run_streak es ltac:(lia)) as Hs. pose proof (history_length es start) as Hl.
  rewrite history_snoc. destruct (step_slot e b) as [_ H]. destruct e as [ok|call now| |r| |call now|]; try by rewrite H in Hf.
  - destruct (decide (phase b = Starting)); rewrite H in Hf; [|done]. destruct ok; [done|by left].
  - right; left. exists call, now. split; [done|]. by destruct (decide (phase b = Exited)); [|rewrite H in Hf].
  - right; right. exists call, now. split; [done|]. fold b in Hs. cbn [outcome_of]. fold b.
    destruct (found call now b) as [r| |]; rewrite H in Hf; [|done..].
    apply (record_streak _ (slot b)); [lia|done..].
Qed.

Definition sorted_times (h : list (Z * bool)) : Prop :=
  forall h1 o h2, h = h1 ++ o :: h2 -> Forall (fun o' => o'.1 <= o.1) h1.

Lemma sorted_times_app h1 h2 : sorted_times (h1 ++ h2) -> sorted_times h1.
Proof. intros Hs a o b ->. apply (Hs a o (b ++ h2)). by rewrite <- app_assoc. Qed.

(** A slot that is not [Failed] has counted the failures at the end of its history, from the first of
    them on, and has not seen enough. *)
Definition counted (h : list (Z * bool)) (s : Slot) : Prop :=
  forall h0 t run now, h = h0 ++ (t, false) :: run -> Forall (fun o => o.2 = false) run ->
  last h = Some (now, false) ->
  zlength run + 1 <= error_streak s /\ exists st, streak_started s = Some st /\ st <= t /\
    (error_streak s < DEVICE_FAILURE_STREAK \/ now - st < DEVICE_FAILURE_WINDOW).

Lemma record_counts g h s now ok :
  zlength (g ++ h) + 1 < 2 ^ 32 -> sorted_times ((g ++ h) ++ [(now, ok)]) ->
  streak_of (g ++ h) s -> (state s = Failed \/ counted h s) ->
  state (record_outcome now ok s) = Failed \/ counted (h ++ [(now, ok)]) (record_outcome now ok s).
Proof.
  intros Hn Hsort Hst [Hs|Hs]; [left; by apply record_keeps_failed|].
  unfold record_outcome. destruct ok.
  { right. intros h0 t run n _ _. by rewrite last_snoc. }
  pose proof (Hsort (g ++ h) (now, false) [] eq_refl) as Hle. simpl in Hle.
  destruct Hst as (h0 & r & Hh & Hlen & Hr & Hfirst). rewrite Hh in Hle.
  assert (0 <= error_streak s < zlength (g ++ h) + 1) as Hb by (rewrite Hh in *; unfold zlength in *; rewrite length_app; lia).
  rewrite (Z.mod_small (error_streak s + 1)) by lia.
  set (started := if error_streak s + 1 =? 1 then Some now else streak_started s).
  destruct (_ && _) eqn:E; [left; simpl; by destruct (decide _)|right].
  assert (forall st, started = Some st -> error_streak s + 1 < DEVICE_FAILURE_STREAK \/ now - st < DEVICE_FAILURE_WINDOW) as Hnot.
  { intros st Est. rewrite Est in E. apply andb_false_iff in E as [E|E]; apply Z.leb_gt in E; lia. }
  assert (exists st, started = Some st /\ st <= now /\ (error_streak s <> 0 -> streak_started s = Some st)) as (st & Est & Hnow & Hprev).
  { subst started. destruct r as [|[t b] r].
    - unfold zlength in Hlen. simpl in Hlen. rewrite <- Hlen. by exists now.
    - exists t. unfold zlength in Hlen. simpl in Hlen. destruct (Z.eqb_spec (error_streak s + 1) 1) as [E1|]; [lia|].
      apply Forall_app in Hle as [_ Hle]. apply Forall_cons in Hle as [Hle _]. auto. }
  intros k0 t run n Hd Hrun. rewrite last_snoc. intros [= <-]. simpl.
  destruct run as [|o run _] using rev_ind.
  - apply app_inj_tail in Hd as [_ [= <-]]. split; [unfold zlength; simpl; lia|]. exists st. auto.
  - rewrite app_comm_cons, app_assoc in Hd. apply app_inj_tail in Hd as [Hd _].
    apply Forall_app in Hrun as [Hrun _].
    assert (exists n', last h = Some (n', false)) as [n' Hlast].
    { rewrite Hd. destruct run as [|[n' b] run _] using rev_ind; [exists t; by rewrite last_snoc|].
      exists n'. rewrite app_comm_cons, app_assoc, last_snoc. apply Forall_app in Hrun as [_ Hrun].
      apply Forall_cons in Hrun as [Hrun _]. simpl in Hrun. by subst b. }
    destruct (Hs k0 t run n' Hd Hrun Hlast) as (Hc & st' & Est' & Hst' & _).
    split; [unfold zlength in *; rewrite length_app; simpl; lia|].
    exists st. split; [done|]. split; [|auto].
    rewrite Hprev in Est' by (unfold zlength in Hc; lia). by injection Est' as ->.
Qed.

(** And it does go to [Failed] then: once a thread serves, after any run in which the answers since
    are failures, at least 32 of them and over at least 15 seconds, the slot is [Failed], and stays so
    whatever follows. A device that hangs is such a run, its calls being answered by their deadline. *)
Lemma persistent_failure_demotes es0 es later :
  zlength es0 + zlength es + 1 < 2 ^ 32 ->
  let b := (mrun es0 start).1 in
  phase b <> Starting ->
  sorted_times (history (es0 ++ es) start) ->
  (exists now, last (history es b) = Some (now, false) /\ failing_since (history es b) now) ->
  state (slot (mrun (es ++ later) b).1) = Failed.
Proof.
  intros Hn b Hp Hsort (now & Hlast & h0 & t & run & Hh & Hrun & Hlen & Hspan).
  rewrite mrun_app. apply failed_is_final; [by apply booted_stays_booted|].
  assert (state (slot (mrun es b).1) = Failed \/ counted (history es b) (slot (mrun es b).1)) as [H|H]; [|done|].
  2: { destruct (H h0 t run now Hh Hrun Hlast) as (Hc & st & _ & Hst & [Hx|Hx]); lia. }
  clear Hlast h0 t run Hh Hrun Hlen Hspan.
  induction es as [|e es IH] using rev_ind.
  - right. intros h0 t run n Hd. by destruct h0.
  - assert (zlength es + 1 = zlength (es ++ [e])) as Hl by (unfold zlength; rewrite length_app; simpl; lia).
    rewrite app_assoc, history_snoc, mrun_app in Hsort. cbn [fst] in Hsort. fold b in Hsort.
    specialize (IH ltac:(lia) (sorted_times_app _ _ Hsort)). rewrite history_snoc, mrun_snoc.
    pose proof (run_streak (es0 ++ es) ltac:(unfold zlength in *; rewrite length_app; lia)) as Hst.
    pose proof (history_length (es0 ++ es) start) as Hhl.
    rewrite history_app in Hsort, Hst, Hhl. rewrite mrun_app in Hst. fold b in Hsort, Hst, Hhl. cbn [fst] in Hst.
    destruct (step_streak_fields e (mrun es b).1) as [(now' & ok & E1 & ->)|(-> & E1 & E2)].
    + rewrite E1 in Hsort |- *. apply (record_counts (history es0 start)); [|exact Hsort|exact Hst|exact IH].
      unfold zlength in *. rewrite !length_app in *. lia.
    + rewrite app_nil_r. destruct IH as [IH|IH].
      * left. apply step_keeps_failed; [by apply booted_stays_booted|done].
      * right. unfold counted in *. by setoid_rewrite E1; setoid_rewrite E2.
Qed.

(** ** A device that hangs

    The thread serves; then calls come, one after the other, and no answer does. *)
Definition hung_call (i : nat) : list Event :=
  [Submit (Z.of_nat i) (secs (11 * Z.of_nat i)); Return (Z.of_nat i) (secs (11 * Z.of_nat i + 10))].
Definition hung (n : nat) : list Event := seq 0 n ≫= hung_call.

Fixpoint sorted_from (prev : Z) (h : list (Z * bool)) : bool :=
  match h with [] => true | o :: h => (prev <=? o.1) && sorted_from o.1 h end.

Lemma sorted_from_le t h : sorted_from t h = true -> Forall (fun o => t <= o.1) h.
Proof.
  revert t. induction h as [|o h IH]; intros t; simpl; [constructor|]. intros [H1%Z.leb_le H2]%andb_true_iff.
  constructor; [done|]. eapply Forall_impl; [by apply IH|]. simpl. lia.
Qed.

Lemma sorted_times_check t h : sorted_from t h = true -> sorted_times h.
Proof.
  revert t. induction h as [|o h IH]; intros t; simpl; intros H; [by intros [] ? ?|].
  apply andb_true_iff in H as [_ H]. intros [|o' h1] p h2 E; [constructor|]. simplify_eq/=.
  constructor; [|by eapply IH]. apply sorted_from_le in H. rewrite Forall_forall in H. apply H, elem_of_app. by right; left.
Qed.

Lemma demotion_has_evidence_witness :
  let es := Boot true :: hung 31 ++ [Submit 31 (secs 341)] in
  state (slot (mrun es start).1) = Ready /\ state (slot (mstep (Return 31 (secs 351)) (mrun es start).1).1) = Failed /\
  exists call now, Return 31 (secs 351) = Return call now /\ failing_since (history (es ++ [Return 31 (secs 351)]) start) now.
Proof.
  intros es. assert (state (slot (mrun es start).1) = Ready) as H1 by (vm_compute; reflexivity).
  assert (state (slot (mstep (Return 31 (secs 351)) (mrun es start).1).1) = Failed) as H2 by (vm_compute; reflexivity).
  split; [exact H1|]. split; [exact H2|].
  destruct (demotion_has_evidence es (Return 31 (secs 351)) eq_refl) as [H|[(c & n & H & _)|H]];
    [rewrite H1; discriminate|exact H2|discriminate H|discriminate H|exact H].
Defined.

Lemma persistent_failure_demotes_witness :
  state (slot (mrun (hung 32 ++ [Submit 32 (secs 400); Serve (Ok []); Return 32 (secs 401)]) (mrun [Boot true] start).1).1) = Failed.
Proof.
  apply (persistent_failure_demotes [Boot true] (hung 32)); [reflexivity|discriminate|apply (sorted_times_check 0); vm_compute; reflexivity|].
  exists (secs (11 * 31 + 10)). split; [vm_compute; reflexivity|].
  exists [], (secs 10), (drop 1 (history (hung 32) (mrun [Boot true] start).1)).
  split; [vm_compute; reflexivity|]. split; [vm_compute; repeat constructor|]. split; vm_compute; discriminate.
Defined.

(** ** Picking a worker *)

Lemma mstep_pool e p : mstep e p = pool_machine e p.
Proof. done. Qed.

Lemma cleared p : workers (clear_degraded_if_recovered p) = workers p /\ has_fallback (clear_degraded_if_recovered p) = has_fallback p /\
  cursor (clear_degraded_if_recovered p) = cursor p.
Proof. unfold clear_degraded_if_recovered. by destruct (_ && _). Qed.

(** What a step does to the slots, and what it hands a call to. *)
Lemma pool_step e p : let '(p', r) := mstep e p in
  has_fallback p' = has_fallback p /\
  workers p' = match e with Answered i now ok => alter (record_outcome now ok) i (workers p) | _ => workers p end /\
  match r with
  | Some (ToWorker i) => exists s, workers p !! i = Some s /\ state s = Ready
  | Some ToFallback => has_fallback p = true
  | Some NoBackend => has_fallback p = false
  | None => True
  end.
Proof.
  rewrite mstep_pool. destruct e as [call|call|i now ok]; simpl; [|destruct (looking p !! call) as [[|k]|]|done].
  - by destruct (cleared p) as (-> & -> & _).
  - split_and!; [done|done|]. by destruct (has_fallback p).
  - unfold look. cbn [workers]. destruct (decide _) as [E|_]; [|done]. split_and!; [done|done|].
    destruct (workers p !! _) as [s|]; [|done]. exists s. split; [done|]. by injection E.
  - done.
Qed.

(** A call that has the cursor to itself looks at each slot once, from the cursor on, and takes one that
    is ready when there is one. *)
Lemma lone_call_finds call tries : forall p,
  looking p !! call = Some tries -> 0 <= cursor p -> cursor p + Z.of_nat tries < 2 ^ 64 ->
  (exists j, (j < tries)%nat /\ state <$> workers p !! Z.to_nat ((cursor p + Z.of_nat j) mod zlength (workers p)) = Some Ready) ->
  exists i, Some (ToWorker i) ∈ (mrun (replicate tries (Look call)) p).2.
Proof.
  induction tries as [|tries IH]; intros p Hl Hc Hn (j & Hj & Hready); [lia|].
  change (replicate (S tries) (Look call)) with (Look call :: replicate tries (Look call)). rewrite mrun_cons. cbn [snd].
  rewrite mstep_pool. simpl. rewrite Hl. unfold look. cbn [workers]. destruct (decide _) as [E|E]; cbn [fst snd]; [eexists; apply list_elem_of_here|].
  destruct j as [|j]; [by rewrite Z.add_0_r in Hready|].
  destruct (IH (with_looking (<[call := tries]> (looking p)) (mkPool (workers p) (has_fallback p) ((cursor p + 1) mod 2 ^ 64) (degraded p) (looking p)))) as [i Hi].
  - simpl. by rewrite lookup_insert_eq.
  - simpl. rewrite Z.mod_small by lia. lia.
  - simpl. rewrite Z.mod_small by lia. lia.
  - exists j. split; [lia|]. simpl. rewrite (Z.mod_small (cursor p + 1)) by lia. rewrite <- Hready. do 4 f_equal. lia.
  - exists i. by apply list_elem_of_further.
Qed.

(** With another call on the cursor, a call may miss the slot that is ready: slot 0 is, and the other
    call takes the look at it. *)
Example pick_can_miss :
  (mrun [Enter 0; Look 0; Enter 1; Look 1; Look 0; Enter 2; Look 2; Look 0]
    (mkPool [mkSlot Ready 1 0 None; mkSlot Failed 1 0 None] true 1 false ∅)).2 =
  [None; None; None; Some (ToWorker 0); None; None; Some (ToWorker 0); Some ToFallback].
Proof. vm_compute. reflexivity. Qed.

(** ** A pool whose devices hang *)

Definition ready_slot : Slot := mkSlot Ready 1 0 None.

(** The times at which slot [i] recorded an answer. *)
Definition answers_of (i : nat) (es : list PoolEvent) : list Z :=
  omap (fun e => match e with Answered j now _ => if decide (j = i) then Some now else None | _ => None end) es.

(** Thirty-two answers, the last of them 15 s or more after the first. *)
Definition worn_out (h : list Z) : Prop :=
  exists first k t, h !! 0%nat = Some first /\ h !! k = Some t /\ DEVICE_FAILURE_STREAK <= Z.of_nat k + 1 /\ DEVICE_FAILURE_WINDOW <= t - first.

(** Every call that was handed to a device ends with a failure. *)
Definition fails (e : PoolEvent) : Prop := match e with Answered _ _ ok => ok = false | _ => True end.

(** A slot all of whose answers [h] were failures. *)
Definition failing (h : list Z) (s : Slot) : Prop :=
  state s = Failed \/ (state s = Ready /\ error_streak s = zlength h /\ (h <> [] -> streak_started s = head h) /\ ~ worn_out h).

Lemma failing_records h now s : zlength h + 1 < 2 ^ 32 -> failing h s -> failing (h ++ [now]) (record_outcome now false s).
Proof.
  intros Hn [Hs|(Hs & Hk & Hst & Hw)]; [left; by apply record_keeps_failed|].
  unfold record_outcome. rewrite Hk, (Z.mod_small (zlength h + 1)) by (unfold zlength in *; lia).
  assert ((if zlength h + 1 =? 1 then Some now else streak_started s) = head (h ++ [now])) as ->.
  { destruct h as [|t h]; [done|]. destruct (Z.eqb_spec (zlength (t :: h) + 1) 1) as [E|_]; [unfold zlength in E; simpl in E; lia|]. by rewrite Hst. }
  destruct (_ && _) eqn:E; [left; simpl; by destruct (decide _)|]. right. cbn [state error_streak streak_started].
  split_and!; [done|unfold zlength; rewrite length_app; simpl; lia|done|].
  intros (first & k & t & H0 & Hat & Hlen & Hspan). destruct (decide (k < length h)%nat) as [Hlt|Hge].
  - apply Hw. exists first, k, t. rewrite lookup_app_l in Hat by done. destruct h as [|u h]; [simpl in Hlt; lia|]. by split_and!.
  - pose proof (lookup_lt_Some _ _ _ Hat) as Hl. rewrite length_app in Hl. simpl in Hl. assert (k = length h) as -> by lia.
    rewrite lookup_app_r, Nat.sub_diag in Hat by done. simpl in Hat. injection Hat as <-.
    assert (head (h ++ [now]) = Some first) as Hh by (by destruct h). rewrite Hh in E.
    apply andb_false_iff in E as [E|E]; apply Z.leb_gt in E; unfold zlength in E; lia.
Qed.

Lemma answers_length i es : zlength (answers_of i es) <= zlength es.
Proof.
  unfold zlength, answers_of. induction es as [|e es IH]; [done|]. cbn [omap list_omap]. destruct e as [call|call|j now ok]; simpl; [lia..|].
  destruct (decide (j = i)); simpl; lia.
Qed.

Lemma pool_run es n : zlength es < 2 ^ 32 -> Forall fails es ->
  let p := (mrun es (pool_new (replicate n ready_slot) true)).1 in
  has_fallback p = true /\ length (workers p) = n /\ forall i s, workers p !! i = Some s -> failing (answers_of i es) s.
Proof.
  induction es as [|e es IH] using rev_ind; intros Hn Hf.
  - simpl. split_and!; [done|by rewrite length_replicate|]. intros i s [-> _]%lookup_replicate. right. split_and!; [done..|]. by intros (? & ? & ? & ? & _).
  - assert (zlength es + 1 < 2 ^ 32) as Hn' by (unfold zlength in *; rewrite length_app in Hn; simpl in Hn; lia).
    apply Forall_app in Hf as [Hf He]. apply Forall_cons in He as [He _]. destruct (IH ltac:(lia) Hf) as (H1 & H2 & H3).
    rewrite mrun_app. cbn [fst]. rewrite mrun_cons. cbn [fst mrun].
    set (p := (mrun es _).1) in *. pose proof (pool_step e p) as Hstep. destruct (mstep e p) as [p' r]. destruct Hstep as (E1 & E2 & _). cbn [fst].
    rewrite E1, E2. split; [done|]. destruct e as [call|call|j now ok]; simpl in He.
    1,2: split; [done|]; intros i s Hi; unfold answers_of; rewrite omap_app; simpl; rewrite app_nil_r; by apply H3.
    subst ok. split; [by rewrite length_alter|]. intros i s Hi. unfold answers_of. rewrite omap_app. simpl. destruct (decide (j = i)) as [->|Hne].
    + rewrite list_lookup_alter_eq in Hi. destruct (workers p !! i) as [s0|] eqn:E; [|done]. injection Hi as <-.
      fold (answers_of i es). apply failing_records; [|by apply H3]. pose proof (answers_length i es). lia.
    + rewrite list_lookup_alter_ne in Hi by done. rewrite app_nil_r. by apply H3.
Qed.

(** C32. Detection survives its accelerators, whatever the interleaving of the calls: when every device of
    a pool of [n] slots hangs, so that every call to one ends with its timeout, no call is ever
    refused; a call is handed to a slot only while the answers the slot has recorded are fewer than
    32 or lie within 15 s; and a call that takes its last step once every slot has recorded more
    goes to the fallback, and so does every later one. *)
Theorem hung_pool_falls_back n es e :
  zlength es < 2 ^ 32 -> Forall fails es ->
  let p := (mrun es (pool_new (replicate n ready_slot) true)).1 in
  match (mstep e p).2 with
  | Some (ToWorker i) => (i < n)%nat /\ ~ worn_out (answers_of i es)
  | Some NoBackend => False
  | _ => True
  end /\
  ((forall i, (i < n)%nat -> worn_out (answers_of i es)) -> forall r later, Some r ∈ (mrun later p).2 -> Forall fails later ->
     zlength (es ++ later) < 2 ^ 32 -> r = ToFallback).
Proof.
  assert (forall es e, zlength es < 2 ^ 32 -> Forall fails es ->
    match (mstep e (mrun es (pool_new (replicate n ready_slot) true)).1).2 with
    | Some (ToWorker i) => (i < n)%nat /\ ~ worn_out (answers_of i es)
    | Some NoBackend => False
    | _ => True
    end) as Hone.
  { clear es e. intros es e Hn Hf. destruct (pool_run es n Hn Hf) as (H1 & H2 & H3). set (p := (mrun es _).1) in *.
    pose proof (pool_step e p) as Hstep. destruct (mstep e p) as [p' r]. destruct Hstep as (_ & _ & Hr). cbn [snd].
    destruct r as [[i| |]|]; [|done|congruence|done]. destruct Hr as (s & Hi & Hs). split; [rewrite <- H2; by eapply lookup_lt_Some|].
    destruct (H3 i s Hi) as [Hx|(_ & _ & _ & Hx)]; [congruence|done]. }
  intros Hn Hf. split; [by apply Hone|]. intros Hw r later Hr Hl Hlen.
  apply list_elem_of_lookup in Hr as [k Hk].
  assert (exists e', later !! k = Some e') as [e' He'].
  { apply lookup_lt_is_Some. rewrite <- (mrun_length later (mrun es (pool_new (replicate n ready_slot) true)).1). by eapply lookup_lt_Some. }
  rewrite <- (take_drop_middle later k e' He') in Hk. rewrite mrun_app in Hk. cbn [snd] in Hk.
  rewrite lookup_app_r in Hk by (rewrite mrun_length, length_take; lia).
  rewrite mrun_length, length_take, Nat.min_l, Nat.sub_diag, mrun_cons in Hk by (apply lookup_lt_Some in He'; lia). cbn [snd lookup list_lookup] in Hk. injection Hk as Hk.
  specialize (Hone (es ++ take k later) e'). rewrite mrun_app in Hone. cbn [fst] in Hone. rewrite Hk in Hone.
  assert (zlength (es ++ take k later) < 2 ^ 32) as Hlen' by (unfold zlength in *; rewrite length_app in *; rewrite length_take; lia).
  specialize (Hone Hlen' ltac:(apply Forall_app; split; [done|by apply Forall_take])).
  destruct r as [i| |]; [|done|done]. destruct Hone as [Hi Hno]. destruct Hno. destruct (Hw i Hi) as (first & j & t & H0 & Hj & Hs).
  exists first, j, t. unfold answers_of. rewrite omap_app. fold (answers_of i es). split_and!; [|by apply lookup_app_l_Some|apply Hs..].
  by apply lookup_app_l_Some.
Qed.

(** Ten cameras on two devices that hang: every ten seconds, ten calls are handed out, five to each, and
    time out together. *)
Definition one_call (k : nat) : list PoolEvent := [Enter k; Look k].
Definition batch (k : nat) : list PoolEvent :=
  (seq 0 10 ≫= one_call) ++ ((fun i => Answered (i mod 2) (secs (10 * Z.of_nat (S k))) false) <$> seq 0 10).
Definition hung_pool : list PoolEvent := seq 0 7 ≫= batch.

Lemma hung_pool_falls_back_witness :
  (mrun (hung_pool ++ [Enter 9; Look 9; Look 9; Look 9]) (pool_new (replicate 2 ready_slot) true)).2 !! 213%nat = Some (Some ToFallback) /\
  forall r, Some r ∈ (mrun [Enter 9; Look 9; Look 9; Look 9] (mrun hung_pool (pool_new (replicate 2 ready_slot) true)).1).2 -> r = ToFallback.
Proof.
  split; [vm_compute; reflexivity|].
  assert (Forall fails hung_pool) as Hf by (repeat constructor).
  destruct (hung_pool_falls_back 2 hung_pool (Look 9)) as [_ H]; [vm_compute; reflexivity|exact Hf|].
  intros r Hr. apply (H ltac:(intros i Hi; destruct i as [|[|i]]; [| |lia];
    (exists (secs 10), 34%nat, (secs 70); split_and!; [vm_compute; reflexivity|vm_compute; reflexivity|vm_compute; discriminate|vm_compute; discriminate])) r _ Hr);
    [repeat constructor|vm_compute; reflexivity].
Defined.
