(* ===== verification/Worker.v ===== *)
(** A detector in a process of its own: the wire protocol ([nexus-inference/src/worker_proto.rs]), the
    worker's loop ([bin/nexus-inference-worker.rs]) and the backend that owns the child
    ([WorkerProcessBackend] of [backends.rs]).

    MessagePack is a parameter: an encoder, a decoder and the law that the one undoes the other. Bytes
    are integers in [0, 255]; a pipe is the list of the bytes in it. *)
From S2P Require Import Prelude Float Types Alert Detectors Backends.

Definition MAX_MSG_BYTES : Z := 16 * 1024 * 1024.

(** ** Messages *)
Record WireFrame := mkWireFrame {
  w_camera_id : Z;
  w_frame_id : Z;
  w_captured_at : Z;
  w_width : Z;
  w_height : Z;
  w_format : PixelFormat;
  w_data : list Z;
  w_trace_id : string;
}.

Definition from_frame (f : Frame) : WireFrame :=
  mkWireFrame (frame_camera_id f) (Types.frame_id f) (Types.captured_at f) (frame_width f) (frame_height f) (format f) (frame_data f) (Types.trace_id f).

(** The monotonic stamp does not cross the pipe: the worker takes its own clock's. *)
Definition into_frame (now : Z) (w : WireFrame) : Frame :=
  mkFrame (w_camera_id w) (w_frame_id w) (w_captured_at w) now (w_width w) (w_height w) (w_format w) (w_data w) (w_trace_id w).

Inductive WorkerRequest :=
| ReqDetect (req_id : Z) (frame : WireFrame) (prompts : list string)
| ReqShutdown.

Inductive WorkerResponse (Probe : Type) :=
| Health (hailo_probe : option Probe) (degradations : list DetectorDegradation)
| DetectOk (req_id : Z) (detections : list Detection)
| DetectErr (req_id : Z) (message : string).
Arguments Health {Probe}.
Arguments DetectOk {Probe}.
Arguments DetectErr {Probe}.

Definition req_id_of {P} (r : WorkerResponse P) : Z :=
  match r with Health _ _ => 0 | DetectOk id _ | DetectErr id _ => id end.

(** ** Framing *)
Inductive IoError := UnexpectedEof | InvalidData | BrokenPipe.

Definition to_be_bytes (n : Z) : list Z := [Z.shiftr n 24 mod 256; Z.shiftr n 16 mod 256; Z.shiftr n 8 mod 256; n mod 256].
Definition from_be_bytes (l : list Z) : Z := foldl (fun acc b => acc * 256 + b) 0 l.

Section framing.
Context {M : Type} (encode : M -> option (list Z)) (decode : list Z -> option M).

(** [open]: the other end still reads. *)
Definition write_msg (open : bool) (msg : M) : result (list Z) IoError :=
  match encode msg with
  | None => Err InvalidData
  | Some bytes =>
      if MAX_MSG_BYTES <? zlength bytes then Err InvalidData
      else if open then Ok (to_be_bytes (zlength bytes mod 2 ^ 32) ++ bytes)
      else Err BrokenPipe
  end.

(** [read_exact] on what the pipe will ever hold. *)
Definition read_exact (n : nat) (pipe : list Z) : result (list Z * list Z) IoError :=
  if bool_decide (n <= length pipe)%nat then Ok (take n pipe, drop n pipe) else Err UnexpectedEof.

Definition read_msg (pipe : list Z) : result (M * list Z) IoError :=
  let? (len_buf, pipe) := read_exact 4 pipe in
  let len := from_be_bytes len_buf in
  if MAX_MSG_BYTES <? len then Err InvalidData
  else
    let? (buf, pipe) := read_exact (Z.to_nat len) pipe in
    match decode buf with Some m => Ok (m, pipe) | None => Err InvalidData end.

Lemma be_roundtrip n : 0 <= n < 2 ^ 32 -> from_be_bytes (to_be_bytes n) = n.
Proof.
  intros Hn. unfold from_be_bytes, to_be_bytes. simpl. rewrite !Z.shiftr_div_pow2 by lia.
  change (2 ^ 24) with 16777216. change (2 ^ 16) with 65536. change (2 ^ 8) with 256. change (2 ^ 32) with 4294967296 in Hn.
  pose proof (Z.div_mod n 256 ltac:(lia)). pose proof (Z.div_mod (n / 256) 256 ltac:(lia)).
  pose proof (Z.div_mod (n / 256 / 256) 256 ltac:(lia)).
  replace 65536 with (256 * 256) by lia. replace 16777216 with (256 * (256 * 256)) by lia.
  rewrite <- !Z.div_div by lia. rewrite (Z.mod_small (n / 256 / 256 / 256) 256); [lia|].
  split; [repeat (apply Z.div_pos; [|lia]); lia|]. repeat (apply Z.div_lt_upper_bound; [lia|]). lia.
Qed.

Lemma read_exact_app n a b : length a = n -> read_exact n (a ++ b) = Ok (a, b).
Proof.
  intros <-. unfold read_exact. rewrite bool_decide_true by (rewrite length_app; lia). by rewrite take_app_length, drop_app_length.
Qed.

Context (codec : forall m bytes, encode m = Some bytes -> decode bytes = Some m).

(** A message that was written is read back, and nothing after it is touched. *)
Lemma framing_roundtrip msg bytes rest : write_msg true msg = Ok bytes -> read_msg (bytes ++ rest) = Ok (msg, rest).
Proof.
  unfold write_msg. destruct (encode msg) as [body|] eqn:E; [|done]. destruct (Z.ltb_spec MAX_MSG_BYTES (zlength body)) as [|Hl]; [done|].
  intros Hw. assert (bytes = to_be_bytes (zlength body mod 2 ^ 32) ++ body) as -> by congruence. clear Hw. assert (0 <= zlength body) by (unfold zlength; lia). assert (MAX_MSG_BYTES = 16777216) as EM by done.
  assert (2 ^ 32 = 4294967296) as EP by done. rewrite Z.mod_small by lia.
  unfold read_msg. rewrite <- app_assoc, read_exact_app by done. rewrite be_roundtrip by lia.
  destruct (Z.ltb_spec MAX_MSG_BYTES (zlength body)); [lia|].
  rewrite read_exact_app by (unfold zlength; lia). by rewrite (codec _ _ E).
Qed.
End framing.

(** ** The worker's loop *)

(** [Display] of an inference error; [{:?}] of a format is its name. *)
Definition format_name (f : PixelFormat) : string :=
  match f with Rgb24 => "Rgb24" | Bgr24 => "Bgr24" | Nv12 => "Nv12" | I420 => "I420" end.

Definition error_text (e : InferenceError) : string :=
  match e with
  | ModelLoad s => "model load: " +:+ s
  | EpUnavailable s => "execution provider not available: " +:+ s
  | InferFailed s => "inference failed: " +:+ s
  | UnsupportedFormat f => "unsupported pixel format: " +:+ format_name f
  | InferIo s => "io: " +:+ s
  end.

(** [OutOfFuel] is not an exit: [main_exits] shows it never comes. *)
Inductive Exit := Success | Failure | OutOfFuel.

Section worker.
Context {W Probe : Type} (d : Detector W) (clock : nat -> Z).
Context (enc_req : WorkerRequest -> option (list Z)) (dec_req : list Z -> option WorkerRequest).
Context (enc_resp : WorkerResponse Probe -> option (list Z)) (dec_resp : list Z -> option (WorkerResponse Probe)).

Definition answer (k : nat) (id : Z) (frame : WireFrame) (prompts : list string) (w : W) : WorkerResponse Probe * W :=
  match detect d (into_frame (clock k) frame) prompts w with
  | (Ok dets, w) => (DetectOk id dets, w)
  | (Err e, w) => (DetectErr id (error_text e), w)
  end.

(** [accept k]: the parent still reads when the [k]-th message is written. *)
Fixpoint serve (fuel : nat) (accept : nat -> bool) (k : nat) (stdin : list Z) (w : W) : list Z * Exit * W :=
  match fuel with
  | O => ([], OutOfFuel, w)
  | S fuel =>
      match read_msg dec_req stdin with
      | Err UnexpectedEof => ([], Success, w)
      | Err _ => ([], Failure, w)
      | Ok (ReqShutdown, _) => ([], Success, w)
      | Ok (ReqDetect id frame prompts, stdin) =>
          let '(resp, w) := answer k id frame prompts w in
          match write_msg enc_resp (accept k) resp with
          | Err _ => ([], Failure, w)
          | Ok bytes =>
              let '(out, exit, w) := serve fuel accept (S k) stdin w in
              (bytes ++ out, exit, w)
          end
      end
  end.

(** [main] once the detector is built. *)
Definition worker_main (hailo_probe : option Probe) (degradations : list DetectorDegradation) (accept : nat -> bool) (stdin : list Z)
    (w : W) : list Z * Exit * W :=
  match write_msg enc_resp (accept 0%nat) (Health hailo_probe degradations) with
  | Err _ => ([], Failure, w)
  | Ok bytes =>
      let '(out, exit, w) := serve (S (length stdin)) accept 1 stdin w in
      (bytes ++ out, exit, w)
  end.

Lemma read_msg_consumes {M} (dec : list Z -> option M) pipe m rest : read_msg dec pipe = Ok (m, rest) -> (length rest < length pipe)%nat.
Proof.
  unfold read_msg, read_exact. case_bool_decide as H1; [|done]. destruct (MAX_MSG_BYTES <? _); [done|].
  case_bool_decide as H2; [|done]. destruct (dec _); [|done]. intros [= _ <-]. rewrite !length_drop. lia.
Qed.

Lemma serve_exits fuel accept k stdin w : (length stdin < fuel)%nat -> (serve fuel accept k stdin w).1.2 <> OutOfFuel.
Proof.
  revert k stdin w. induction fuel as [|fuel IH]; intros k stdin w Hf; [lia|]. simpl.
  destruct (read_msg dec_req stdin) as [[[id frame prompts|] rest]|[]] eqn:E; try done.
  destruct (answer k id frame prompts w) as [resp w']. destruct (write_msg _ _ _) as [bytes|]; [|done].
  apply read_msg_consumes in E. specialize (IH (S k) rest w' ltac:(lia)). by destruct (serve fuel accept (S k) rest w') as [[out exit] w2].
Qed.

(** The worker always exits when its input ends. *)
Lemma main_exits probe degs accept stdin w : (worker_main probe degs accept stdin w).1.2 <> OutOfFuel.
Proof.
  unfold worker_main. destruct (write_msg _ _ _); [|done]. pose proof (serve_exits (S (length stdin)) accept 1 stdin w ltac:(lia)).
  by destruct (serve _ _ _ _ _) as [[out exit] w2].
Qed.

(** ** The worker on a pipe is its detector *)

(** What the detector itself would answer to the requests, one after the other. *)
Fixpoint answers (k : nat) (rs : list (Z * WireFrame * list string)) (w : W) : list (WorkerResponse Probe) * W :=
  match rs with
  | [] => ([], w)
  | (id, frame, prompts) :: rs =>
      let '(resp, w) := answer k id frame prompts w in
      let '(resps, w) := answers (S k) rs w in
      (resp :: resps, w)
  end.

(** [n] messages read from a pipe. *)
Fixpoint read_msgs {M} (dec : list Z -> option M) (n : nat) (pipe : list Z) : result (list M * list Z) IoError :=
  match n with
  | O => Ok ([], pipe)
  | S n =>
      let? (m, pipe) := read_msg dec pipe in
      let? (ms, pipe) := read_msgs dec n pipe in
      Ok (m :: ms, pipe)
  end.

(** The bytes of messages written one after the other. *)
Fixpoint write_msgs {M} (enc : M -> option (list Z)) (ms : list M) : result (list Z) IoError :=
  match ms with
  | [] => Ok []
  | m :: ms =>
      let? bytes := write_msg enc true m in
      let? rest := write_msgs enc ms in
      Ok (bytes ++ rest)
  end.

Definition request (r : Z * WireFrame * list string) : WorkerRequest := ReqDetect r.1.1 r.1.2 r.2.

Context (req_codec : forall m bytes, enc_req m = Some bytes -> dec_req bytes = Some m).
Context (resp_codec : forall m bytes, enc_resp m = Some bytes -> dec_resp bytes = Some m).

Lemma read_msgs_written {M} (enc : M -> option (list Z)) dec ms bytes :
  (forall m b, enc m = Some b -> dec b = Some m) -> write_msgs enc ms = Ok bytes -> read_msgs dec (length ms) bytes = Ok (ms, []).
Proof.
  intros Hc. revert bytes. induction ms as [|m ms IH]; intros bytes; simpl; [by intros [= <-]|].
  destruct (write_msg enc true m) as [b|] eqn:E; [|done]. destruct (write_msgs enc ms) as [rest|]; [|done].
  intros H. assert (bytes = b ++ rest) as -> by congruence.
  rewrite (framing_roundtrip enc dec Hc _ _ _ E). by rewrite (IH rest eq_refl).
Qed.

Lemma serve_answers rs : forall fuel k stdin out w,
  write_msgs enc_req (request <$> rs) = Ok stdin -> (length stdin < fuel)%nat ->
  write_msgs enc_resp (answers k rs w).1 = Ok out ->
  serve fuel (fun _ => true) k stdin w = (out, Success, (answers k rs w).2).
Proof.
  induction rs as [|[[id frame] prompts] rs IH]; intros fuel k stdin out w; simpl.
  - intros [= <-] Hf [= <-]. destruct fuel; [lia|]. done.
  - destruct (write_msg enc_req true _) as [b|] eqn:Eb; [|done]. destruct (write_msgs enc_req _) as [rest|]; [|done].
    intros H Hf. assert (stdin = b ++ rest) as -> by congruence. destruct fuel as [|fuel]; [lia|].
    destruct (answer k id frame prompts w) as [resp w1] eqn:Ea. destruct (answers (S k) rs w1) as [resps w2] eqn:Eas. simpl.
    destruct (write_msg enc_resp true resp) as [rb|] eqn:Er; [|done]. destruct (write_msgs enc_resp resps) as [ob|] eqn:Eo; [|done].
    intros Hout. assert (out = rb ++ ob) as -> by congruence. unfold request in Eb. simpl in Eb.
    pose proof (framing_roundtrip enc_req dec_req req_codec _ _ rest Eb) as Hread. rewrite Hread, Ea, Er.
    apply read_msg_consumes in Hread. rewrite (IH fuel (S k) rest ob w1); [by rewrite Eas|done|lia|by rewrite Eas].
Qed.

(** The worker on a pipe is its detector: sent any requests that fit the wire, it answers its health and
    then each request in turn, under the request's id, with what the detector answers to that frame, an
    error as its text; reading its output gives exactly these messages back, and at the end of the
    input it exits cleanly. *)
Lemma worker_is_its_detector probe degs rs stdin out w :
  write_msgs enc_req (request <$> rs) = Ok stdin ->
  write_msgs enc_resp (Health probe degs :: (answers 1 rs w).1) = Ok out ->
  worker_main probe degs (fun _ => true) stdin w = (out, Success, (answers 1 rs w).2) /\
  read_msgs dec_resp (S (length rs)) out = Ok (Health probe degs :: (answers 1 rs w).1, []).
Proof.
  intros Hin Hout. split.
  - unfold worker_main. simpl in Hout. destruct (write_msg enc_resp true (Health probe degs)) as [b|]; [|done].
    destruct (write_msgs enc_resp (answers 1 rs w).1) as [ob|] eqn:Eo; [|done].
    rewrite (serve_answers rs (S (length stdin)) 1 stdin ob w Hin ltac:(lia) Eo). congruence.
  - assert (length (Health probe degs :: (answers 1 rs w).1) = S (length rs)) as <-.
    { simpl. f_equal. clear Hin Hout. generalize 1%nat, w. induction rs as [|[[id frame] prompts] rs IH]; intros k w'; [done|]. simpl.
      destruct (answer k id frame prompts w') as [resp w1]. specialize (IH (S k) w1). destruct (answers (S k) rs w1). simpl in *. by rewrite IH. }
    by eapply read_msgs_written.
Qed.
End worker.

(** A codec for the messages of a small session: a camera without pixels, on which the detector fails. *)
Definition small_frame (id : Z) : WireFrame := mkWireFrame 1 id 0 0 0 Rgb24 [] "t".

Definition toy_req (m : WorkerRequest) : option (list Z) :=
  match m with
  | ReqDetect id (mkWireFrame 1 fid 0 0 0 Rgb24 [] t) [] => if str_eqb t "t" then Some [1; id; fid] else None
  | ReqShutdown => Some [0]
  | _ => None
  end.
Definition untoy_req (l : list Z) : option WorkerRequest :=
  match l with [1; id; fid] => Some (ReqDetect id (small_frame fid) []) | [0] => Some ReqShutdown | _ => None end.

Definition gone : string := "inference failed: device gone".
Definition toy_resp (m : WorkerResponse unit) : option (list Z) :=
  match m with
  | Health None [] => Some [0]
  | DetectOk id [] => Some [1; id]
  | DetectErr id t => if str_eqb t gone then Some [2; id] else None
  | _ => None
  end.
Definition untoy_resp (l : list Z) : option (WorkerResponse unit) :=
  match l with [0] => Some (Health None []) | [1; id] => Some (DetectOk id []) | [2; id] => Some (DetectErr id gone) | _ => None end.

Lemma toy_req_codec m bytes : toy_req m = Some bytes -> untoy_req bytes = Some m.
Proof.
  destruct m as [id [[|[]|] fid [] [] [] [] [] t] []|]; simpl; try done; [|by intros [= <-]].
  unfold str_eqb. case_bool_decide; [|done]. intros [= <-]. by subst.
Qed.

Lemma toy_resp_codec m bytes : toy_resp m = Some bytes -> untoy_resp bytes = Some m.
Proof.
  destruct m as [[] []|id []|id t]; simpl; try done; try by intros [= <-].
  unfold str_eqb. case_bool_decide; [|done]. intros [= <-]. by subst.
Qed.

Lemma worker_is_its_detector_witness :
  exists stdin out,
    write_msgs toy_req [ReqDetect 7 (small_frame 1) []; ReqDetect 8 (small_frame 2) []] = Ok stdin /\
    worker_main broken (fun _ => 0) untoy_req toy_resp None [] (fun _ => true) stdin tt = (out, Success, tt) /\
    read_msgs untoy_resp 3 out = Ok ([Health None []; DetectErr 7 gone; DetectErr 8 gone], []).
Proof.
  set (rs := [(7, small_frame 1, []); (8, small_frame 2, [])] : list (Z * WireFrame * list string)).
  destruct (write_msgs toy_req (request <$> rs)) as [stdin|] eqn:Ein; [|vm_compute in Ein; discriminate Ein].
  destruct (write_msgs toy_resp (Health None [] :: (answers broken (fun _ => 0) 1 rs tt).1)) as [out|] eqn:Eout; [|vm_compute in Eout; discriminate Eout].
  destruct (worker_is_its_detector broken (fun _ => 0) toy_req untoy_req toy_resp untoy_resp toy_req_codec toy_resp_codec
              None [] rs stdin out tt Ein Eout) as [H1 H2].
  exists stdin, out. split; [exact Ein|]. split; [exact H1|exact H2].
Defined.

(** ** The backend that owns the child

    Its events: a caller checks the state, takes a request id and enters its reply channel, writes the
    request, resumes; the reader task takes a message off the child's output, meets its end, fails
    the calls still pending. A caller and the reader run concurrently, so each is an event. *)
Inductive Pc := Checked | Entered (req : Z) | Awaiting (req : Z).
Inductive Reader := Reading | Draining | Gone.

Record Proc := mkProc {
  p_state : BackendState;
  p_generation : Z;
  next_id : Z;
  stdin_there : bool;
  pending : gmap Z Z;                     (* the call that waits for a request's reply *)
  pcs : gmap Z Pc;                        (* where each call stands *)
  mail : gmap Z (option Answer);          (* what reached a call's channel, [None] when its sender went *)
  reader : Reader;
  remote_health : list DetectorDegradation;
}.

Definition spawn : Proc := mkProc Ready 1 1 true ∅ ∅ ∅ Reading [].

Definition fail_state (p : Proc) : Proc :=
  mkProc Failed (p_generation p) (next_id p) (stdin_there p) (pending p) (pcs p) (mail p) (reader p) (remote_health p).
Definition set_pc (call : Z) (pc : Pc) (p : Proc) : Proc :=
  mkProc (p_state p) (p_generation p) (next_id p) (stdin_there p) (pending p) (<[call := pc]> (pcs p)) (mail p) (reader p) (remote_health p).
Definition leave (call : Z) (p : Proc) : Proc :=
  mkProc (p_state p) (p_generation p) (next_id p) (stdin_there p) (pending p) (delete call (pcs p)) (delete call (mail p)) (reader p) (remote_health p).
Definition set_pending (m : gmap Z Z) (p : Proc) : Proc :=
  mkProc (p_state p) (p_generation p) (next_id p) (stdin_there p) m (pcs p) (mail p) (reader p) (remote_health p).
Definition set_reader (r : Reader) (p : Proc) : Proc :=
  mkProc (p_state p) (p_generation p) (next_id p) (stdin_there p) (pending p) (pcs p) (mail p) r (remote_health p).
Definition set_health (l : list DetectorDegradation) (p : Proc) : Proc :=
  mkProc (p_state p) (p_generation p) (next_id p) (stdin_there p) (pending p) (pcs p) (mail p) (reader p) l.
Definition take_id (p : Proc) : Proc :=
  mkProc (p_state p) (p_generation p) ((next_id p + 1) mod 2 ^ 64) (stdin_there p) (pending p) (pcs p) (mail p) (reader p) (remote_health p).

(** A send into the channel of a call that still has its receiver. *)
Definition deliver (call : Z) (r : option Answer) (p : Proc) : Proc :=
  match pcs p !! call with
  | Some _ => mkProc (p_state p) (p_generation p) (next_id p) (stdin_there p) (pending p) (pcs p) (<[call := r]> (mail p)) (reader p) (remote_health p)
  | None => p
  end.

(** [HashMap::insert]: the sender that was there is dropped. *)
Definition enter (req call : Z) (p : Proc) : Proc :=
  let p := match pending p !! req with Some old => deliver old None p | None => p end in
  set_pending (<[req := call]> (pending p)) p.

Definition exited : Answer := Err (InferFailed "worker process exited before reply").

Definition fail_all (p : Proc) : Proc :=
  set_pending ∅ (foldr (fun rc p => deliver rc.2 (Some exited) p) p (map_to_list (pending p))).

Inductive ProcEvent :=
| BeginCall (call : Z)
| EnterCall (call : Z)
| WriteCall (call : Z) (r : result unit IoError)
| ResumeCall (call : Z)
| Recv (msg : WorkerResponse unit)
| OutputEnds
| FailPending.

#[export] Instance proc_machine : Machine ProcEvent Proc (option (Z * Answer)) :=
  fun e p =>
  match e with
  | BeginCall call =>
      if decide (is_Some (pcs p !! call)) then (p, None)
      else if decide (p_state p = Failed) then (p, Some (call, Err (InferFailed "worker_process backend is Failed")))
      else (set_pc call Checked p, None)
  | EnterCall call =>
      match pcs p !! call with
      | Some Checked => let req := next_id p in (enter req call (set_pc call (Entered req) (take_id p)), None)
      | _ => (p, None)
      end
  | WriteCall call r =>
      match pcs p !! call with
      | Some (Entered req) =>
          if negb (stdin_there p) then (leave call (fail_state p), Some (call, Err (InferFailed "worker stdin gone")))
          else match r with
          | Ok _ => (set_pc call (Awaiting req) p, None)
          | Err _ => (leave call (set_pending (delete req (pending p)) (fail_state p)), Some (call, Err (InferFailed "write_msg")))
          end
      | _ => (p, None)
      end
  | ResumeCall call =>
      match pcs p !! call, mail p !! call with
      | Some (Awaiting _), Some (Some r) => (leave call p, Some (call, r))
      | Some (Awaiting _), Some None => (leave call (fail_state p), Some (call, Err (InferFailed "worker reply channel dropped")))
      | _, _ => (p, None)
      end
  | Recv msg =>
      match reader p with
      | Reading =>
          match msg with
          | Health _ degs => (set_health degs p, None)
          | DetectOk req dets =>
              (match pending p !! req with
               | Some call => deliver call (Some (Ok dets)) (set_pending (delete req (pending p)) p)
               | None => p end, None)
          | DetectErr req m =>
              (match pending p !! req with
               | Some call => deliver call (Some (Err (InferFailed m))) (set_pending (delete req (pending p)) p)
               | None => p end, None)
          end
      | _ => (p, None)
      end
  | OutputEnds => match reader p with Reading => (set_reader Draining (fail_state p), None) | _ => (p, None) end
  | FailPending => match reader p with Draining => (set_reader Gone (fail_all p), None) | _ => (p, None) end
  end.

(** ** A frame too large for the wire

    The write fails, and a write that fails fails the backend. *)
Lemma oversized_is_refused {M} (enc : M -> option (list Z)) msg bytes open :
  enc msg = Some bytes -> MAX_MSG_BYTES < zlength bytes -> write_msg enc open msg = Err InvalidData.
Proof. intros E Hl. unfold write_msg. rewrite E. by destruct (Z.ltb_spec MAX_MSG_BYTES (zlength bytes)); [|lia]. Qed.

Definition is_4k (f : WireFrame) : Prop := w_width f = 3840 /\ w_height f = 2160 /\ w_format f = Rgb24 /\ zlength (w_data f) = 3840 * 2160 * 3.

(** One 4K RGB frame does not fit, whatever the encoding adds, and leaves the backend [Failed]. *)
Lemma a_4k_frame_fails_the_backend (enc : WorkerRequest -> option (list Z)) id f prompts bytes p call req :
  enc (ReqDetect id f prompts) = Some bytes -> zlength (w_data f) <= zlength bytes -> is_4k f ->
  pcs p !! call = Some (Entered req) -> stdin_there p = true ->
  exists e, write_msg enc true (ReqDetect id f prompts) = Err e /\
    let '(p', out) := mstep (WriteCall call (Err e)) p in
    p_state p' = Failed /\ out = Some (call, Err (InferFailed "write_msg")).
Proof.
  intros E Hl (_ & _ & _ & Hd) Hpc Hin. exists InvalidData. split.
  - apply (oversized_is_refused enc _ bytes); [done|]. unfold MAX_MSG_BYTES. lia.
  - unfold mstep, proc_machine. by rewrite Hpc, Hin.
Qed.

(** ** Every call gets its own answer *)

Definition req_at (p : Proc) (call req : Z) : Prop := pcs p !! call = Some (Entered req) \/ pcs p !! call = Some (Awaiting req).

(** Where an answer for [req] comes from. *)
Definition origin (es : list ProcEvent) (req : Z) (r : Answer) : Prop :=
  (exists dets, r = Ok dets /\ Recv (DetectOk req dets) ∈ es) \/
  (exists m, r = Err (InferFailed m) /\ Recv (DetectErr req m) ∈ es) \/
  (r = exited /\ OutputEnds ∈ es).

Record proc_ok (es : list ProcEvent) (p : Proc) : Prop := {
  ok_next : 1 <= next_id p <= zlength es + 1;
  ok_pending : forall req call, pending p !! req = Some call -> req_at p call req /\ mail p !! call = None;
  ok_below : forall call req, req_at p call req -> 1 <= req < next_id p;
  ok_unique : forall c1 c2 req, req_at p c1 req -> req_at p c2 req -> c1 = c2;
  ok_mail : forall call m, mail p !! call = Some m -> exists req r, req_at p call req /\ m = Some r /\ origin es req r;
  ok_waiting : forall call req, reader p <> Gone -> req_at p call req -> mail p !! call = None -> pending p !! req = Some call;
  ok_reader : reader p <> Reading -> OutputEnds ∈ es;
  ok_stdin : stdin_there p = true;
}.

Lemma origin_snoc es e req r : origin es req r -> origin (es ++ [e]) req r.
Proof. unfold origin. setoid_rewrite elem_of_app. naive_solver. Qed.

Lemma deliver_fields call r p :
  p_state (deliver call r p) = p_state p /\ next_id (deliver call r p) = next_id p /\ pending (deliver call r p) = pending p /\
  pcs (deliver call r p) = pcs p /\ reader (deliver call r p) = reader p /\ stdin_there (deliver call r p) = stdin_there p.
Proof. unfold deliver. by destruct (pcs p !! call). Qed.

Lemma deliver_all l p :
  let p' := foldr (fun (rc : Z * Z) p => deliver rc.2 (Some exited) p) p l in
  next_id p' = next_id p /\ pcs p' = pcs p /\ reader p' = reader p /\
  forall c, mail p' !! c = if decide (c ∈ l.*2 /\ is_Some (pcs p !! c)) then Some (Some exited) else mail p !! c.
Proof.
  induction l as [|[req call] l (IH1 & IH2 & IH3 & IH4)]; cbn zeta in *.
  { split; [done|]. split; [done|]. split; [done|]. intros c. rewrite decide_False; [done|]. by intros [?%elem_of_nil _]. }
  simpl. set (q := foldr _ p l) in *. destruct (deliver_fields call (Some exited) q) as (_ & E2 & _ & E4 & E5 & _).
  rewrite E2, E4, E5. split_and!; [done..|]. intros c. unfold deliver. rewrite IH2.
  destruct (pcs p !! call) as [pc|] eqn:Ep; simpl.
  - destruct (decide (c = call)) as [->|Hc].
    + rewrite lookup_insert_eq, decide_True; [done|]. rewrite elem_of_cons. split; [by left|by eexists].
    + rewrite lookup_insert_ne, IH4 by done. apply decide_ext. rewrite elem_of_cons. naive_solver.
  - rewrite IH4. apply decide_ext. rewrite elem_of_cons. split; [naive_solver|]. intros [[-> |H] Hs]; [rewrite Ep in Hs; by destruct Hs|done].
Qed.

Lemma proc_new : proc_ok [] spawn.
Proof.
  split; simpl; try lia; unfold req_at; simpl; try done.
  - intros call req [H|H]; rewrite lookup_empty in H; done.
  - intros c1 c2 req [H|H]; rewrite lookup_empty in H; done.
  - intros call req _ [H|H]; rewrite lookup_empty in H; done.
Qed.

Lemma proc_ok_more es e p : proc_ok es p -> proc_ok (es ++ [e]) p.
Proof.
  intros [H1 H2 H3 H4 H5 H6 H7 H8]. split; try done.
  - unfold zlength in *. rewrite length_app. simpl. lia.
  - intros call m Hm. destruct (H5 call m Hm) as (req & r & ? & ? & ?). exists req, r. split_and!; try done. by apply origin_snoc.
  - intros Hr. apply elem_of_app. left. by apply H7.
Qed.

(** What does not touch calls, channels and ids. *)
Lemma proc_ok_same es p p' :
  proc_ok es p -> next_id p' = next_id p -> pending p' = pending p -> pcs p' = pcs p -> mail p' = mail p ->
  stdin_there p' = stdin_there p -> (reader p' = reader p \/ (reader p' = Draining /\ reader p = Reading /\ OutputEnds ∈ es)) -> proc_ok es p'.
Proof.
  intros [H1 H2 H3 H4 H5 H6 H7 H8] E1 E2 E3 E4 E6 E5. unfold req_at in *.
  split; unfold req_at; rewrite ?E1, ?E2, ?E3, ?E4, ?E6; try done.
  - intros call req Hr. apply H6. destruct E5 as [E5|(E5 & -> & _)]; [congruence|done].
  - intros Hr. destruct E5 as [E5|(_ & _ & E5)]; [apply H7; congruence|done].
Qed.

Lemma fail_state_ok es p : proc_ok es p -> proc_ok es (fail_state p).
Proof. intros H. apply (proc_ok_same es p); auto. Qed.

(** A call moves to a place that keeps its request. *)
Lemma set_pc_ok es p call pc :
  proc_ok es p -> (forall req, (pc = Entered req \/ pc = Awaiting req) <-> req_at p call req) -> proc_ok es (set_pc call pc p).
Proof.
  intros [H1 H2 H3 H4 H5 H6 H7 H8] Hpc.
  assert (forall c r, req_at (set_pc call pc p) c r <-> req_at p c r) as Hat.
  { intros c r. unfold req_at, set_pc. simpl. destruct (decide (c = call)) as [->|Hc].
    - rewrite lookup_insert_eq. specialize (Hpc r). unfold req_at in Hpc. naive_solver.
    - by rewrite lookup_insert_ne. }
  split; try done; setoid_rewrite Hat; done.
Qed.

(** A call leaves, with whatever pends for it. *)
Lemma leave_ok es p call m :
  proc_ok es p -> (forall req c, m !! req = Some c <-> pending p !! req = Some c /\ c <> call) -> proc_ok es (leave call (set_pending m p)).
Proof.
  intros [H1 H2 H3 H4 H5 H6 H7 H8] Hm.
  assert (forall c r, req_at (leave call (set_pending m p)) c r <-> c <> call /\ req_at p c r) as Hat.
  { intros c r. unfold req_at, leave. simpl. destruct (decide (c = call)) as [->|Hc].
    - rewrite lookup_delete_eq. naive_solver.
    - rewrite lookup_delete_ne by done. naive_solver. }
  assert (forall c, c <> call -> mail (leave call (set_pending m p)) !! c = mail p !! c) as Hmail.
  { intros c Hc. simpl. by rewrite lookup_delete_ne. }
  split; try done.
  - intros req c [Hp Hc]%Hm. rewrite Hat, Hmail by done. destruct (H2 req c Hp). auto.
  - intros c r [_ H]%Hat. by apply H3 in H.
  - intros c1 c2 r [_ Ha]%Hat [_ Hb]%Hat. by apply (H4 c1 c2 r).
  - intros c x Hc. destruct (decide (c = call)) as [->|Hne]; [simpl in Hc; by rewrite lookup_delete_eq in Hc|].
    rewrite Hmail in Hc by done. destruct (H5 c x Hc) as (req & r & ? & ? & ?). exists req, r. rewrite Hat. auto.
  - intros c r Hr [Hne Ha]%Hat Hc. rewrite Hmail in Hc by done. apply Hm. split; [by apply H6|done].
Qed.

Lemma set_pending_same p : set_pending (pending p) p = p.
Proof. by destruct p. Qed.

(** A pending request is answered: its entry goes and its call gets mail. *)
Lemma answered_ok es p req call r :
  proc_ok es p -> pending p !! req = Some call -> origin es req r ->
  proc_ok es (deliver call (Some r) (set_pending (delete req (pending p)) p)).
Proof.
  intros [H1 H2 H3 H4 H5 H6 H7 H8] Hp Ho. destruct (H2 req call Hp) as [Hat Hnone].
  assert (is_Some (pcs p !! call)) as [pc Hpc] by (destruct Hat as [H|H]; by eexists).
  unfold deliver. simpl. rewrite Hpc. split; simpl; try done; unfold req_at in *; simpl.
  - intros q c [Hq Hpq]%lookup_delete_Some. destruct (H2 q c Hpq) as [Ha Hm]. split; [done|].
    rewrite lookup_insert_ne; [done|]. intros <-. apply Hq. destruct Hat as [Hat|Hat], Ha as [Ha|Ha]; congruence.
  - intros c m. destruct (decide (c = call)) as [->|Hc].
    + rewrite lookup_insert_eq. intros [= <-]. exists req, r. auto.
    + rewrite lookup_insert_ne by done. apply H5.
  - intros c q Hr Ha. destruct (decide (c = call)) as [->|Hc]; [by rewrite lookup_insert_eq|].
    rewrite lookup_insert_ne by done. intros Hm. rewrite lookup_delete_ne; [by apply H6|].
    intros <-. apply Hc. by apply (H4 c call req).
Qed.

(** Taking an id and entering it. *)
Lemma enter_ok es p call :
  zlength es + 1 < 2 ^ 64 - 1 -> proc_ok es p -> pcs p !! call = Some Checked ->
  (forall e, proc_ok (es ++ [e]) (enter (next_id p) call (set_pc call (Entered (next_id p)) (take_id p)))).
Proof.
  intros Hn [H1 H2 H3 H4 H5 H6 H7 H8] Hpc e. unfold req_at in *.
  assert (pending p !! next_id p = None) as Hfree.
  { destruct (pending p !! next_id p) as [c|] eqn:E; [|done]. destruct (H2 _ c E) as [Ha _]. apply H3 in Ha. lia. }
  unfold enter. simpl. rewrite Hfree. split; unfold req_at; simpl.
  - rewrite Z.mod_small by lia. unfold zlength in *. rewrite length_app. simpl. lia.
  - intros q c [[<- <-]|[Hq Hpq]]%lookup_insert_Some.
    + rewrite lookup_insert_eq. split; [by left|]. destruct (mail p !! call) as [m|] eqn:E; [|done].
      destruct (H5 call m E) as (r0 & _ & [Ha|Ha] & _); congruence.
    + destruct (H2 q c Hpq) as [Ha Hm]. rewrite lookup_insert_ne; [done|]. intros <-. destruct Ha; congruence.
  - intros c q. rewrite Z.mod_small by lia. destruct (decide (c = call)) as [->|Hc].
    + rewrite lookup_insert_eq. intros [[= <-]|?]; [lia|done].
    + rewrite lookup_insert_ne by done. intros Ha%H3. lia.
  - intros c1 c2 q. destruct (decide (c1 = call)) as [->|Hc1], (decide (c2 = call)) as [->|Hc2]; try done;
      rewrite ?lookup_insert_eq, ?lookup_insert_ne by done.
    + intros [[= <-]|?] Ha; [|done]. apply H3 in Ha. lia.
    + intros Ha [[= <-]|?]; [|done]. apply H3 in Ha. lia.
    + apply H4.
  - intros c m Hm. destruct (H5 c m Hm) as (q & r & Ha & -> & Ho). exists q, r.
    rewrite lookup_insert_ne by (intros <-; destruct Ha; congruence). split_and!; try done. by apply origin_snoc.
  - intros c q Hr. destruct (decide (c = call)) as [->|Hc].
    + rewrite lookup_insert_eq. intros [[= <-]|?] _; [by rewrite lookup_insert_eq|done].
    + rewrite lookup_insert_ne by done. intros Ha Hm. rewrite lookup_insert_ne; [by apply H6|]. apply H3 in Ha. lia.
  - intros Hr. apply elem_of_app. left. by apply H7.
  - done.
Qed.

Lemma fail_all_mail p call m :
  mail (fail_all p) !! call = Some m -> m = Some exited /\ (exists req, pending p !! req = Some call) \/ mail p !! call = Some m.
Proof.
  unfold fail_all. simpl. destruct (deliver_all (map_to_list (pending p)) p) as (_ & _ & _ & ->).
  destruct (decide _) as [[H _]|_]; [|by right]. intros [= <-]. left. split; [done|].
  apply list_elem_of_fmap in H as ([req c] & -> & H%elem_of_map_to_list). by exists req.
Qed.

Lemma fail_all_answers p req call : pending p !! req = Some call -> is_Some (pcs p !! call) -> mail (fail_all p) !! call = Some (Some exited).
Proof.
  intros Hp Hc. unfold fail_all. simpl. destruct (deliver_all (map_to_list (pending p)) p) as (_ & _ & _ & ->).
  rewrite decide_True; [done|]. split; [|done]. apply list_elem_of_fmap. exists (req, call). split; [done|]. by apply elem_of_map_to_list.
Qed.

Lemma fail_all_fields p : next_id (fail_all p) = next_id p /\ pcs (fail_all p) = pcs p /\ reader (fail_all p) = reader p /\ pending (fail_all p) = ∅.
Proof. unfold fail_all. simpl. by destruct (deliver_all (map_to_list (pending p)) p) as (-> & -> & -> & _). Qed.

Lemma deliver_stdin l p : stdin_there (foldr (fun (rc : Z * Z) p => deliver rc.2 (Some exited) p) p l) = stdin_there p.
Proof. induction l as [|rc l IH]; [done|]. simpl. by rewrite (proj2 (proj2 (proj2 (proj2 (proj2 (deliver_fields _ _ _)))))). Qed.

Lemma fail_all_ok es p : proc_ok es p -> reader p = Draining -> proc_ok es (set_reader Gone (fail_all p)).
Proof.
  intros [H1 H2 H3 H4 H5 H6 H7 H8] Hr. destruct (fail_all_fields p) as (E1 & E2 & E3 & E4). unfold req_at in *.
  split; unfold req_at, set_reader; cbn [next_id pending pcs mail reader stdin_there]; rewrite ?E1, ?E2, ?E4; try done.
  - intros call m [[-> [req Hp]]|Hm]%fail_all_mail; [|by apply H5].
    exists req, exited. split; [by apply H2|]. split; [done|]. right; right. split; [done|]. apply H7. by rewrite Hr.
  - intros _. apply H7. by rewrite Hr.
  - unfold fail_all. simpl. by rewrite deliver_stdin.
Qed.

Lemma proc_step es e p : zlength es + 1 < 2 ^ 64 - 1 -> proc_ok es p -> proc_ok (es ++ [e]) (mstep e p).1.
Proof.
  intros Hn Hp. pose proof (proc_ok_more es e p Hp) as Hm. unfold mstep, proc_machine.
  destruct e as [call|call|call r|call|msg| |].
  - destruct (decide _) as [|Hno]; [done|]. destruct (decide _); [done|]. apply set_pc_ok; [done|].
    intros req. split; [by intros []|]. intros [H|H]; destruct Hno; by eexists.
  - destruct (pcs p !! call) as [[]|] eqn:E; try done. by apply enter_ok.
  - destruct (pcs p !! call) as [[|req|]|] eqn:E; try done. rewrite (ok_stdin _ _ Hm). simpl. destruct r as [[]|err].
    + apply set_pc_ok; [done|]. intros q. unfold req_at. rewrite E. naive_solver.
    + apply leave_ok; [by apply fail_state_ok|]. intros q c. rewrite lookup_delete_Some. simpl. split.
      * intros [Hq Hc]. split; [done|]. intros ->. destruct (ok_pending _ _ Hp q call Hc) as [[Ha|Ha] _]; congruence.
      * intros [Hc Hne]. split; [|done]. intros ->. destruct (ok_pending _ _ Hp q c Hc) as [Ha _]. apply Hne.
        apply (ok_unique _ _ Hp c call q); [done|]. by left.
  - assert (forall x, mail p !! call = Some x -> proc_ok (es ++ [ResumeCall call]) (leave call p)) as Hl.
    { intros x Hx. rewrite <- (set_pending_same p). apply leave_ok; [done|]. intros q c. split; [|by intros []].
      intros Hq. split; [done|]. intros ->. destruct (ok_pending _ _ Hp q call Hq) as [_ Hno]. congruence. }
    destruct (pcs p !! call) as [[]|] eqn:E; try done. destruct (mail p !! call) as [[r|]|] eqn:Ex; [by eapply Hl| |done].
    destruct (ok_mail _ _ Hp call None Ex) as (? & ? & _ & ? & _). done.
  - destruct (reader p); try done. destruct msg as [pr degs|req dets|req m].
    + apply (proc_ok_same _ p); auto.
    + destruct (pending p !! req) as [call|] eqn:E; [|done]. apply answered_ok; [done|done|].
      left. exists dets. split; [done|]. apply elem_of_app. right. by left.
    + destruct (pending p !! req) as [call|] eqn:E; [|done]. apply answered_ok; [done|done|].
      right; left. exists m. split; [done|]. apply elem_of_app. right. by left.
  - destruct (reader p) eqn:E; try done. apply (proc_ok_same _ p); auto. right. split; [done|]. split; [done|].
    apply elem_of_app. right. by left.
  - destruct (reader p) eqn:E; try done. by apply fail_all_ok.
Qed.

Lemma proc_run es : zlength es < 2 ^ 64 - 1 -> proc_ok es (mrun es spawn).1.
Proof.
  induction es as [|e es IH] using rev_ind; intros Hn; [apply proc_new|].
  assert (zlength (es ++ [e]) = zlength es + 1) as El by (unfold zlength; rewrite length_app; simpl; lia).
  rewrite mrun_app, mrun_cons. apply proc_step; [lia|]. apply IH. lia.
Qed.

(** C33. A caller that gets detections gets those the worker sent for its own request: whatever it is
    answered came in a message with the id it took, or is the failure every pending call gets when
    the worker's output ends; no other call holds that id. *)
Theorem answers_are_its_own es call r :
  zlength es < 2 ^ 64 - 1 ->
  let p := (mrun es spawn).1 in
  (mstep (ResumeCall call) p).2 = Some (call, r) ->
  exists req, pcs p !! call = Some (Awaiting req) /\ origin es req r /\
    forall other, req_at p other req -> other = call.
Proof.
  intros Hn p Hout. pose proof (proc_run es Hn) as Hp. fold p in Hp.
  cbn in Hout. destruct (pcs p !! call) as [[| |req]|] eqn:E; try done.
  destruct (mail p !! call) as [[a|]|] eqn:Em; [|destruct (ok_mail _ _ Hp call None Em) as (? & ? & _ & ? & _); done|done].
  injection Hout as ->. exists req. split; [done|].
  destruct (ok_mail _ _ Hp call (Some r) Em) as (q & a & Ha & [= <-] & Ho).
  assert (q = req) as -> by (destruct Ha; congruence). split; [done|].
  intros other Hother. apply (ok_unique _ _ Hp other call req); [done|by right].
Qed.

(** When the worker dies every call that entered its channel is answered at once. *)
Lemma worker_death_answers_everyone es call req :
  zlength es + 2 < 2 ^ 64 - 1 ->
  let p := (mrun es spawn).1 in
  let q := (mrun [OutputEnds; FailPending] p).1 in
  reader p = Reading -> pcs p !! call = Some (Awaiting req) ->
  p_state q = Failed /\ exists r, (mstep (ResumeCall call) q).2 = Some (call, r).
Proof.
  intros Hn p q Hr Hc. pose proof (proc_run es ltac:(lia)) as Hp. fold p in Hp.
  assert (q = set_reader Gone (fail_all (set_reader Draining (fail_state p)))) as Eq.
  { subst q. rewrite !mrun_cons. cbn -[fail_all]. by rewrite Hr. }
  set (p1 := set_reader Draining (fail_state p)) in Eq.
  assert (p_state q = Failed) as Hs.
  { rewrite Eq. unfold fail_all. simpl. generalize (map_to_list (pending p)). intros l. induction l as [|rc l IH]; [done|].
    simpl. by rewrite (proj1 (deliver_fields _ _ _)). }
  split; [done|].
  assert (pcs q = pcs p) as Epc.
  { rewrite Eq. change (pcs (fail_all p1) = pcs p). by destruct (fail_all_fields p1) as (_ & -> & _). }
  assert (exists x, mail q !! call = Some (Some x)) as [x Hx].
  { rewrite Eq. destruct (mail p !! call) as [m|] eqn:Em.
    - destruct (ok_mail _ _ Hp call m Em) as (r0 & a & _ & -> & _). unfold fail_all. simpl.
      destruct (deliver_all (map_to_list (pending p)) p1) as (_ & _ & _ & ->). destruct (decide _); by eexists.
    - exists exited. apply (fail_all_answers p1 req); [|by eexists]. apply (ok_waiting _ _ Hp); [by rewrite Hr|by right|done]. }
  exists x. cbn. rewrite Epc, Hc, Hx. done.
Qed.

(** But a caller that checked the state before the output ended, and enters its channel after the
    pending calls were failed, is answered by nobody: the reader that would is gone, and the write
    succeeds as long as the child reads, as one does whose output merely could not be decoded. *)
Definition late : list ProcEvent := [BeginCall 1; OutputEnds; FailPending; EnterCall 1; WriteCall 1 (Ok tt)].

Definition stranded (p : Proc) : Prop := reader p = Gone /\ pcs p !! 1 = Some (Awaiting 1) /\ mail p !! 1 = None /\ p_state p = Failed.

Lemma stranded_stays es e p :
  zlength es + 1 < 2 ^ 64 - 1 -> proc_ok es p -> stranded p -> stranded (mstep e p).1 /\ forall r, (mstep e p).2 <> Some (1, r).
Proof.
  intros Hn Hp (Hr & Hpc & Hm & Hs). unfold mstep, proc_machine. destruct e as [call|call|call r|call|msg| |]; rewrite ?Hr; try done.
  - destruct (decide (is_Some _)) as [|Hno]; [done|]. rewrite decide_True by done. split; [done|]. intros r [= ->]. apply Hno. by eexists.
  - destruct (pcs p !! call) as [[]|] eqn:E; try done. assert (call <> 1) as Hne by congruence.
    assert (pending p !! next_id p = None) as Hfree.
    { destruct (pending p !! next_id p) as [c|] eqn:Ep; [|done]. destruct (ok_pending _ _ Hp _ c Ep) as [Ha _].
      apply (ok_below _ _ Hp) in Ha. lia. }
    unfold enter. simpl. rewrite Hfree. split; [|done]. unfold stranded. simpl. by rewrite lookup_insert_ne.
  - destruct (pcs p !! call) as [[|req|]|] eqn:E; try done. assert (call <> 1) as Hne by congruence.
    rewrite (ok_stdin _ _ Hp). simpl. destruct r; (split; [unfold stranded; simpl|cbn; intros ? ?; congruence]);
      rewrite ?lookup_insert_ne, ?lookup_delete_ne by done; done.
  - destruct (pcs p !! call) as [[]|] eqn:E; try done. destruct (decide (call = 1)) as [->|Hne]; [by rewrite Hm|].
    destruct (mail p !! call) as [[r|]|]; [..|done]; (split; [unfold stranded; simpl|cbn; intros ? ?; congruence]);
      rewrite ?lookup_delete_ne by done; done.
Qed.

Lemma a_late_caller_waits_for_ever es :
  zlength es + 5 < 2 ^ 64 - 1 -> forall r, Some (1, r) ∉ (mrun (late ++ es) spawn).2.
Proof.
  intros Hn. assert (forall es r, zlength es + 5 < 2 ^ 64 - 1 -> stranded (mrun (late ++ es) spawn).1 /\ Some (1, r) ∉ (mrun (late ++ es) spawn).2) as H.
  2: { intros r. by apply H. }
  clear es Hn. intros es r. induction es as [|e es IH] using rev_ind; intros Hn.
  - split; [vm_compute; done|]. vm_compute. intros H. repeat (apply elem_of_cons in H as [H|H]; [done|]). by apply elem_of_nil in H.
  - assert (zlength (es ++ [e]) = zlength es + 1) as El by (unfold zlength; rewrite length_app; simpl; lia).
    destruct (IH ltac:(lia)) as [H1 H2]. rewrite app_assoc, mrun_app, mrun_cons.
    assert (zlength (late ++ es) = 5 + zlength es) as El' by (unfold zlength; rewrite length_app; simpl; lia).
    destruct (stranded_stays (late ++ es) e (mrun (late ++ es) spawn).1 ltac:(lia) (proc_run (late ++ es) ltac:(lia)) H1) as [H3 H4].
    split; [exact H3|]. cbn [snd]. rewrite not_elem_of_app. split; [done|]. simpl. rewrite not_elem_of_cons. split; [|apply not_elem_of_nil].
    intros E. by apply (H4 r).
Qed.

Definition session : list ProcEvent :=
  [BeginCall 5; BeginCall 6; EnterCall 6; EnterCall 5; WriteCall 5 (Ok tt); WriteCall 6 (Ok tt); Recv (DetectOk 2 []); Recv (DetectErr 1 "no")].

Lemma answers_are_its_own_witness :
  (mstep (ResumeCall 5) (mrun session spawn).1).2 = Some (5, Ok []) /\
  exists req, pcs (mrun session spawn).1 !! 5 = Some (Awaiting req) /\ origin session req (Ok []).
Proof.
  assert ((mstep (ResumeCall 5) (mrun session spawn).1).2 = Some (5, Ok [])) as E by (vm_compute; reflexivity).
  split; [exact E|]. destruct (answers_are_its_own session 5 (Ok []) eq_refl E) as (req & H1 & H2 & _).
  exists req. split; [exact H1|exact H2].
Defined.
