(* ===== verification/Tiles.v ===== *)
(** Re-inference on tiles of a crowded frame: the geometry ([nexus-pipeline/src/tile.rs]), the executor
    ([tile_executor.rs]) and the cascade of the supervisor's loop ([supervisor.rs]) over a detector of
    [Detectors]. *)
From S2P Require Import Prelude Float Order Types Alert Nms Detectors Cameras.

Record TileRoi := mkRoi { roi_x : Z; roi_y : Z; roi_w : Z; roi_h : Z }.

Inductive TileError :=
| UnsupportedPixels (f : PixelFormat)
| RoiOutOfBounds (roi : TileRoi) (parent_w parent_h : Z)
| EmptyRoi (roi : TileRoi)
| BufferSize (got expected : Z).

Definition roi_area (r : TileRoi) : Z := usat_mul 32 (roi_w r) (roi_h r).

(** [+] on [u32], which wraps in a release build. *)
Definition u32_add (a b : Z) : Z := (a + b) mod 2 ^ 32.

Lemma u32_add_small a b : 0 <= a + b < 2 ^ 32 -> u32_add a b = a + b.
Proof. apply Z.mod_small. Qed.

Definition contains_centroid (r : TileRoi) (cx cy : f32) : bool :=
  fge cx (f32_of_Z (roi_x r)) && flt cx (f32_of_Z (u32_add (roi_x r) (roi_w r))) &&
  fge cy (f32_of_Z (roi_y r)) && flt cy (f32_of_Z (u32_add (roi_y r) (roi_h r))).

(** [(rows, cols)]. *)
Definition dims (g : TileGridConfig) : Z * Z := match g with G2x2 => (2, 2) | G3x3 => (3, 3) end.

(** The [i]-th of [n] strips of a side: where it starts and how long it is; the last takes the rest. *)
Definition strip (side n i : Z) : Z * Z :=
  let cell := side / n in
  let at_ := i * cell in
  (at_, if i =? n - 1 then side - at_ else cell).

Definition range (n : Z) : list Z := Z.of_nat <$> seq 0 (Z.to_nat n).

Definition grid_cells (parent_w parent_h : Z) (grid : TileGridConfig) : list TileRoi :=
  let '(rows, cols) := dims grid in
  r ← range rows; c ← range cols;
  let '(x, w) := strip parent_w cols c in
  let '(y, h) := strip parent_h rows r in
  [mkRoi x y w h].

Record Scored := mkScored { sc_count : Z; sc_idx : Z; sc_cell : TileRoi }.

Definition density (stage1 : list Detection) (cell : TileRoi) : Z :=
  zlength (filter (fun d => contains_centroid cell (center (d_bbox d)).1 (center (d_bbox d)).2 = true) stage1).

(** Density descending, then raster order. *)
Definition scored_order (a b : Scored) : comparison := cthen (Z.compare (sc_count b) (sc_count a)) (Z.compare (sc_idx a) (sc_idx b)).

Definition scored_cells (stage1 : list Detection) (cells : list TileRoi) : list Scored :=
  filter (fun s => 0 < sc_count s) (imap (fun i cell => mkScored (density stage1 cell) (Z.of_nat i) cell) cells).

Definition pick_tiles (stage1 : list Detection) (parent_w parent_h : Z) (grid : TileGridConfig) (max_tiles : Z) : list TileRoi :=
  if bool_decide (stage1 = []) || (max_tiles =? 0) || (parent_w =? 0) || (parent_h =? 0) then []
  else sc_cell <$> take (Z.to_nat max_tiles) (sort_by scored_order (scored_cells stage1 (grid_cells parent_w parent_h grid))).

(** [&data[start..end]]; [None]: the index panics. *)
Definition slice (data : list Z) (start len : Z) : option (list Z) :=
  if start + len <=? zlength data then Some (take (Z.to_nat len) (drop (Z.to_nat start) data)) else None.

Definition window (data : list Z) (stride start_row start_byte roi_stride rows : Z) : option (list Z) :=
  mjoin <$> mapM (fun row => slice data ((start_row + row) * stride + start_byte) roi_stride) (range rows).

Definition interleaved (f : PixelFormat) : bool := match f with Rgb24 | Bgr24 => true | _ => false end.

(** [None]: a panic, where the sums of the bounds check wrapped. *)
Definition crop_to_tile_rgb (parent : Frame) (roi : TileRoi) : option (result Frame TileError) :=
  if negb (interleaved (format parent)) then Some (Err (UnsupportedPixels (format parent)))
  else if (roi_w roi =? 0) || (roi_h roi =? 0) then Some (Err (EmptyRoi roi))
  else if (frame_width parent <? u32_add (roi_x roi) (roi_w roi)) || (frame_height parent <? u32_add (roi_y roi) (roi_h roi)) then
    Some (Err (RoiOutOfBounds roi (frame_width parent) (frame_height parent)))
  else
    let parent_stride := frame_width parent * 3 in
    let expected := parent_stride * frame_height parent in
    if negb (zlength (frame_data parent) =? expected) then Some (Err (BufferSize (zlength (frame_data parent)) expected))
    else
      let roi_stride := roi_w roi * 3 in
      buf ← window (frame_data parent) parent_stride (roi_y roi) (roi_x roi * 3) roi_stride (roi_h roi);
      Some (Ok (mkFrame (frame_camera_id parent) (Types.frame_id parent) (Types.captured_at parent) (captured_mono parent) (roi_w roi) (roi_h roi)
        (format parent) buf (Types.trace_id parent))).

Definition shift_box (dx dy : f32) (b : BBox) : BBox := mkBBox (f32_add (x1 b) dx) (f32_add (y1 b) dy) (f32_add (x2 b) dx) (f32_add (y2 b) dy).

Definition map_tile_dets_to_frame (tile_dets : list Detection) (roi : TileRoi) : list Detection :=
  (fun d => mkDetection (d_label d) (d_confidence d) (shift_box (f32_of_Z (roi_x roi)) (f32_of_Z (roi_y roi)) (d_bbox d)) (d_attributes d)) <$> tile_dets.

(** ** The executor *)
(** [CropPanicked] is no value of the source's type: it stands for the panic of [crop_to_tile_rgb], which no
    tile of a frame's grid meets ([grid_cells_do_not_panic]). *)
Inductive TileExecError := Crop (e : TileError) | Inference (e : InferenceError) | CropPanicked.

Section cascade.
Context {W : Type}.

Fixpoint run_tile_inference (detector : Detector W) (parent : Frame) (tiles : list TileRoi) (prompts : list string) : SE W TileExecError (list Detection) :=
  match tiles with
  | [] => mret []
  | tile :: tiles =>
      match crop_to_tile_rgb parent tile with
      | None => throw CropPanicked
      | Some (Err e) => throw (Crop e)
      | Some (Ok crop) =>
          dets ← part (fun w => w) (fun w _ => w) Inference (detect_crop detector crop prompts);
          rest ← run_tile_inference detector parent tiles prompts;
          mret (map_tile_dets_to_frame dets tile ++ rest)
      end
  end.

(** ** The cascade

    What the loop does with the first stage's detections on a frame whose detector ran, and the
    count it reports when the second stage answered. *)
Definition whitelisted (prompts : list string) (dets : list Detection) : list Detection :=
  if bool_decide (prompts = []) then dets else filter (fun d => label_matches_any_prompt (d_label d) prompts = true) dets.

Definition engaged (b : CameraBehavior) (stage1 : list Detection) : bool :=
  bool_decide (tile_enabled b = Some true) &&
  match tile_trigger b with Some t => (0 <? t) && (t <=? zlength stage1) | None => false end.

Definition cascade (b : CameraBehavior) (effective_top_k : option nat) (detector : Detector W) (frame : Frame) (prompts : list string)
    (stage1 : list Detection) (w : W) : list Detection * option Z * W :=
  if engaged b stage1 then
    let grid := default G2x2 (tile_grid b) in
    let max_tiles := default 3 (tile_max_per_frame b) in
    match pick_tiles stage1 (frame_width frame) (frame_height frame) grid max_tiles with
    | [] => (stage1, None, w)
    | tiles =>
        match run_tile_inference detector frame tiles prompts w with
        | (Ok stage2, w) =>
            let stage2 := whitelisted prompts stage2 in
            let merged := stage1 ++ stage2 in
            (match effective_top_k with Some k => apply_top_k k merged | None => merged end, Some (zlength stage2), w)
        | (Err _, w) => (stage1, None, w)
        end
    end
  else (stage1, None, w).
End cascade.

(** ** The cells tile the frame *)
Definition in_strip (side n i p : Z) : bool := let '(a, l) := strip side n i in (a <=? p) && (p <? a + l).

Definition covers (px py : Z) (r : TileRoi) : bool :=
  ((roi_x r <=? px) && (px <? roi_x r + roi_w r)) && ((roi_y r <=? py) && (py <? roi_y r + roi_h r)).

(** Case analysis on the comparisons of the goal, by the arithmetic facts they stand for. *)
Ltac case_comparison :=
  match goal with
  | |- context [?a <=? ?b] => destruct (Z.leb_spec a b)
  | |- context [?a <? ?b] => destruct (Z.ltb_spec a b)
  end.

Lemma strips2 side p : 0 <= p < side ->
  (in_strip side 2 0 p, in_strip side 2 1 p) = (true, false) \/ (in_strip side 2 0 p, in_strip side 2 1 p) = (false, true).
Proof.
  intros Hp. unfold in_strip, strip. pose proof (Z.div_mod side 2 ltac:(lia)). pose proof (Z.mod_pos_bound side 2 ltac:(lia)).
  simpl (_ =? _). cbn iota zeta. repeat case_comparison; simpl; try lia; auto.
Qed.

Lemma strips3 side p : 0 <= p < side ->
  let b := (in_strip side 3 0 p, in_strip side 3 1 p, in_strip side 3 2 p) in
  b = (true, false, false) \/ b = (false, true, false) \/ b = (false, false, true).
Proof.
  intros Hp. unfold in_strip, strip. pose proof (Z.div_mod side 3 ltac:(lia)). pose proof (Z.mod_pos_bound side 3 ltac:(lia)).
  simpl (_ =? _). cbn iota zeta. repeat case_comparison; simpl; try lia; auto.
Qed.

Lemma filter_bool_cons {A} (f : A -> bool) x l : filter (fun y => f y = true) (x :: l) = if f x then x :: filter (fun y => f y = true) l else filter (fun y => f y = true) l.
Proof. rewrite filter_cons. destruct (f x) eqn:E; [by rewrite decide_True|rewrite decide_False by congruence; done]. Qed.

Definition cell_at (w h n i j : Z) : TileRoi := mkRoi (strip w n i).1 (strip h n j).1 (strip w n i).2 (strip h n j).2.

Lemma grid_cells_eq w h grid :
  grid_cells w h grid =
  match grid with
  | G2x2 => let cell := cell_at w h 2 in [cell 0 0; cell 1 0; cell 0 1; cell 1 1]
  | G3x3 => let cell := cell_at w h 3 in [cell 0 0; cell 1 0; cell 2 0; cell 0 1; cell 1 1; cell 2 1; cell 0 2; cell 1 2; cell 2 2]
  end.
Proof. by destruct grid. Qed.

(** Every pixel of the frame lies in exactly one cell. *)
Lemma grid_cells_partition w h grid px py :
  0 <= px < w -> 0 <= py < h -> exists cell, filter (fun c => covers px py c = true) (grid_cells w h grid) = [cell].
Proof.
  intros Hx Hy.
  assert (forall n i j, covers px py (cell_at w h n i j) = in_strip w n i px && in_strip h n j py) as Hcell.
  { intros n i j. unfold covers, in_strip, cell_at. simpl. by destruct (strip w n i), (strip h n j). }
  rewrite grid_cells_eq. destruct grid; cbn zeta; rewrite !filter_bool_cons, !Hcell.
  - destruct (strips2 w px Hx) as [[= E1 E2]|[= E1 E2]], (strips2 h py Hy) as [[= E3 E4]|[= E3 E4]];
      rewrite E1, E2, E3, E4; simpl; by eexists.
  - destruct (strips3 w px Hx) as [[= E1 E2 E3]|[[= E1 E2 E3]|[= E1 E2 E3]]], (strips3 h py Hy) as [[= E4 E5 E6]|[[= E4 E5 E6]|[= E4 E5 E6]]];
      rewrite E1, E2, E3, E4, E5, E6; simpl; by eexists.
Qed.

Lemma grid_cells_in w h grid cell :
  0 <= w -> 0 <= h -> cell ∈ grid_cells w h grid ->
  0 <= roi_x cell /\ 0 <= roi_y cell /\ 0 <= roi_w cell /\ 0 <= roi_h cell /\ roi_x cell + roi_w cell <= w /\ roi_y cell + roi_h cell <= h.
Proof.
  intros Hw Hh. pose proof (Z.div_mod w 2 ltac:(lia)). pose proof (Z.mod_pos_bound w 2 ltac:(lia)).
  pose proof (Z.div_mod w 3 ltac:(lia)). pose proof (Z.mod_pos_bound w 3 ltac:(lia)).
  pose proof (Z.div_mod h 2 ltac:(lia)). pose proof (Z.mod_pos_bound h 2 ltac:(lia)).
  pose proof (Z.div_mod h 3 ltac:(lia)). pose proof (Z.mod_pos_bound h 3 ltac:(lia)).
  rewrite grid_cells_eq. unfold cell_at, strip. simpl (_ =? _).
  destruct grid; cbn zeta iota; intros Hc; repeat (apply elem_of_cons in Hc as [-> |Hc]; [cbn [fst snd roi_x roi_y roi_w roi_h]; lia|]); by apply elem_of_nil in Hc.
Qed.

(** ** The tiles that are picked *)

#[export] Instance scored_comparator : Comparator scored_order.
Proof.
  unfold scored_order. exact (then_comparator (fun a b => Z.compare (sc_count b) (sc_count a)) (fun a b => Z.compare (sc_idx a) (sc_idx b))
    (Comparator0 := flip_comparator _ (Comparator0 := on_comparator sc_count Z.compare)) (Comparator1 := on_comparator sc_idx Z.compare)).
Qed.

Lemma scored_in stage1 cells s : s ∈ scored_cells stage1 cells -> sc_cell s ∈ cells /\ sc_count s = density stage1 (sc_cell s) /\ 0 < sc_count s.
Proof.
  unfold scored_cells. intros [Hpos Hs]%list_elem_of_filter. apply elem_of_lookup_imap in Hs as (i & cell & -> & Hc). simpl in *.
  split_and!; [by eapply list_elem_of_lookup_2|done|done].
Qed.

Lemma scored_complete stage1 cells cell : cell ∈ cells -> 0 < density stage1 cell -> exists s, s ∈ scored_cells stage1 cells /\ sc_cell s = cell.
Proof.
  intros [i Hi]%list_elem_of_lookup_1 Hd. exists (mkScored (density stage1 cell) (Z.of_nat i) cell). split; [|done].
  apply list_elem_of_filter. split; [done|]. apply elem_of_lookup_imap. by exists i, cell.
Qed.

(** The second stage looks where the crowd is: the tiles picked are cells of the grid, each with the
    centre of a detection in it, at most as many as the camera allows, and a cell with detections is
    left out only when they are that many already, none of them less dense. *)
Lemma tiles_are_the_densest stage1 w h grid max_tiles :
  0 <= max_tiles -> 0 < w -> 0 < h ->
  let tiles := pick_tiles stage1 w h grid max_tiles in
  zlength tiles <= max_tiles /\
  (forall t, t ∈ tiles -> t ∈ grid_cells w h grid /\ 0 < density stage1 t) /\
  (forall t, t ∈ grid_cells w h grid -> 0 < density stage1 t -> t ∉ tiles ->
     zlength tiles = max_tiles /\ forall u, u ∈ tiles -> density stage1 t <= density stage1 u).
Proof.
  intros Hm Hw Hh. cbn zeta. unfold pick_tiles. destruct (bool_decide (stage1 = []) || _ || _ || _) eqn:E.
  - split; [unfold zlength; simpl; lia|]. split; [by intros t ?%elem_of_nil|]. intros t _ Hd _.
    rewrite !orb_true_iff, bool_decide_eq_true, !Z.eqb_eq in E. destruct E as [[[-> | ->]|E]|E]; [done| |lia|lia].
    split; [done|]. by intros u ?%elem_of_nil.
  - set (l := scored_cells stage1 (grid_cells w h grid)).
    pose proof (sort_by_sorted scored_order l) as Hs. pose proof (sort_by_permutation scored_order l) as Hp.
    set (k := Z.to_nat max_tiles). split; [|split].
    + unfold zlength. rewrite length_fmap, length_take. lia.
    + intros t (s & -> & Hin)%list_elem_of_fmap. apply subseteq_take in Hin. rewrite Hp in Hin. apply scored_in in Hin as (H1 & H2 & H3).
      split; [done|]. by rewrite <- H2.
    + intros t Ht Hd Hno. destruct (scored_complete stage1 _ t Ht Hd) as (s & Hin & <-). fold l in Hin. rewrite <- Hp in Hin.
      rewrite <- (take_drop k (sort_by scored_order l)) in Hin, Hs. apply elem_of_app in Hin as [Hin|Hin].
      { destruct Hno. apply list_elem_of_fmap. by exists s. }
      split.
      * unfold zlength. rewrite length_fmap, length_take. apply list_elem_of_lookup_1 in Hin as [j Hj]. apply lookup_lt_Some in Hj. rewrite length_drop in Hj. lia.
      * intros u (s' & -> & Hin')%list_elem_of_fmap. eapply StronglySorted_app_1_elem_of in Hs; [|exact Hin'|exact Hin].
        assert (forall x, x ∈ sort_by scored_order l -> sc_count x = density stage1 (sc_cell x)) as Hc.
        { intros x Hx. rewrite Hp in Hx. by apply scored_in in Hx as (_ & ? & _). }
        rewrite <- !Hc; [|by eapply subseteq_take|by eapply subseteq_drop].
        unfold not_after, scored_order, cthen in Hs. destruct (Z.compare_spec (sc_count s) (sc_count s')); [lia|lia|done].
Qed.

(** ** The crop *)

Lemma length_rows {A} (rows : list (list A)) k : (forall x, x ∈ rows -> length x = k) -> length (mjoin rows) = (length rows * k)%nat.
Proof.
  intros H. induction rows as [|x rows IH]; [done|]. simpl. rewrite length_app, H, IH by (intros; try apply H; by constructor). done.
Qed.

Lemma lookup_rows {A} (rows : list (list A)) k r x b :
  (forall y, y ∈ rows -> length y = k) -> rows !! r = Some x -> (b < k)%nat -> mjoin rows !! (r * k + b)%nat = x !! b.
Proof.
  revert r. induction rows as [|y rows IH]; intros r Hk Hr Hb; [done|]. simpl. destruct r as [|r]; simpl in Hr.
  - injection Hr as ->. rewrite Nat.mul_0_l, Nat.add_0_l. rewrite lookup_app_l; [done|]. rewrite Hk; [done|by left].
  - assert (length y = k) as Hy by (apply Hk; by left). rewrite lookup_app_r by (rewrite Hy; lia).
    replace (S r * k + b - length y)%nat with (r * k + b)%nat by (rewrite Hy; lia). apply IH; [|done|done].
    intros z Hz. apply Hk. by right.
Qed.

Lemma elem_of_range n i : i ∈ range n <-> 0 <= i < n.
Proof.
  unfold range. rewrite list_elem_of_fmap. setoid_rewrite elem_of_seq. split.
  - intros (j & -> & Hj). lia.
  - intros Hi. exists (Z.to_nat i). lia.
Qed.

Lemma lookup_range n i : 0 <= i < n -> range n !! Z.to_nat i = Some i.
Proof. intros Hi. unfold range. rewrite list_lookup_fmap, lookup_seq_lt by lia. simpl. f_equal. lia. Qed.

Lemma length_range n : length (range n) = Z.to_nat n.
Proof. unfold range. by rewrite length_fmap, length_seq. Qed.

(** A frame whose buffer is what its size says; the width and the height are [u32]. *)
Definition packed (f : Frame) : Prop :=
  interleaved (format f) = true /\ 0 < frame_width f < 2 ^ 32 /\ 0 < frame_height f < 2 ^ 32 /\
  zlength (frame_data f) = frame_width f * 3 * frame_height f.

(** The rows of a region inside a frame of that size are all there. *)
Lemma window_inside data width height x y w h :
  zlength data = width * 3 * height -> 0 <= x -> 0 <= y -> 0 <= w -> 0 <= h -> x + w <= width -> y + h <= height ->
  exists rows, window data (width * 3) y (x * 3) (w * 3) h = Some (mjoin rows) /\ length rows = Z.to_nat h /\
    (forall row, row ∈ rows -> length row = Z.to_nat (w * 3)) /\
    forall r, 0 <= r < h -> rows !! Z.to_nat r = Some (take (Z.to_nat (w * 3)) (drop (Z.to_nat ((y + r) * (width * 3) + x * 3)) data)).
Proof.
  intros Hd Hx Hy Hw Hh Hxw Hyh. set (row_at := fun r => take (Z.to_nat (w * 3)) (drop (Z.to_nat ((y + r) * (width * 3) + x * 3)) data)).
  assert (forall r, 0 <= r < h -> (y + r) * (width * 3) + x * 3 + w * 3 <= zlength data) as Hin by (intros r Hr; rewrite Hd; nia).
  exists (row_at <$> range h). split_and!.
  - unfold window. rewrite (proj2 (mapM_Some _ (range h) (row_at <$> range h))); [done|].
    apply Forall2_fmap_r, Forall_Forall2_diag, Forall_forall. intros r Hr%elem_of_range. unfold slice.
    destruct (Z.leb_spec ((y + r) * (width * 3) + x * 3 + w * 3) (zlength data)); [done|]. specialize (Hin r Hr). lia.
  - by rewrite length_fmap, length_range.
  - intros row (r & -> & Hr%elem_of_range)%list_elem_of_fmap. specialize (Hin r Hr). unfold zlength in Hin. unfold row_at.
    rewrite length_take, length_drop. nia.
  - intros r Hr. by rewrite list_lookup_fmap, lookup_range by done.
Qed.

Lemma crop_inside f roi :
  packed f -> 0 <= roi_x roi -> 0 <= roi_y roi -> 0 < roi_w roi -> 0 < roi_h roi ->
  roi_x roi + roi_w roi <= frame_width f -> roi_y roi + roi_h roi <= frame_height f ->
  exists crop, crop_to_tile_rgb f roi = Some (Ok crop) /\ packed crop /\
    frame_width crop = roi_w roi /\ frame_height crop = roi_h roi /\ captured_mono crop = captured_mono f /\
    forall r b, 0 <= r < roi_h roi -> 0 <= b < roi_w roi * 3 ->
      frame_data crop !! Z.to_nat (r * (roi_w roi * 3) + b) =
      frame_data f !! Z.to_nat ((roi_y roi + r) * (frame_width f * 3) + roi_x roi * 3 + b).
Proof.
  intros (Hi & HW & HH & Hd) Hx Hy Hw Hh Hxw Hyh. unfold crop_to_tile_rgb. rewrite Hi. simpl negb. cbn iota.
  destruct (Z.eqb_spec (roi_w roi) 0); [lia|]. destruct (Z.eqb_spec (roi_h roi) 0); [lia|]. simpl orb. rewrite !u32_add_small by lia.
  destruct (Z.ltb_spec (frame_width f) (roi_x roi + roi_w roi)); [lia|]. destruct (Z.ltb_spec (frame_height f) (roi_y roi + roi_h roi)); [lia|].
  simpl orb. rewrite Hd, Z.eqb_refl. simpl negb. cbn iota zeta.
  destruct (window_inside (frame_data f) (frame_width f) (frame_height f) (roi_x roi) (roi_y roi) (roi_w roi) (roi_h roi))
    as (rows & -> & Hlen & Hrow & Hat); [done|lia..|].
  eexists. split; [done|]. split; [|split; [done|split; [done|split; [done|]]]].
  - split; [done|]. cbn [frame_width frame_height frame_data]. split; [lia|]. split; [lia|]. unfold zlength.
    rewrite (length_rows _ _ Hrow), Hlen. nia.
  - intros r b Hr Hb. cbn [frame_data].
    replace (Z.to_nat (r * (roi_w roi * 3) + b)) with (Z.to_nat r * Z.to_nat (roi_w roi * 3) + Z.to_nat b)%nat by nia.
    rewrite (lookup_rows _ _ _ _ _ Hrow (Hat r Hr)) by lia. rewrite lookup_take_lt, lookup_drop by lia. f_equal. nia.
Qed.

(** C35. A crop is the window it was asked for: on a frame whose buffer has the size its dimensions say, a
    region inside it with an area is always cut out, every byte of row [r] of the crop is the byte at
    the same place of row [y + r] of the frame, and the crop's buffer again has the size its
    dimensions say. *)
Theorem crop_is_the_window f roi :
  packed f -> 0 <= roi_x roi -> 0 <= roi_y roi -> 0 < roi_w roi -> 0 < roi_h roi ->
  roi_x roi + roi_w roi <= frame_width f -> roi_y roi + roi_h roi <= frame_height f ->
  exists crop, crop_to_tile_rgb f roi = Some (Ok crop) /\ packed crop /\
    frame_width crop = roi_w roi /\ frame_height crop = roi_h roi /\ captured_mono crop = captured_mono f /\
    forall r b, 0 <= r < roi_h roi -> 0 <= b < roi_w roi * 3 ->
      frame_data crop !! Z.to_nat (r * (roi_w roi * 3) + b) =
      frame_data f !! Z.to_nat ((roi_y roi + r) * (frame_width f * 3) + roi_x roi * 3 + b).
Proof. apply crop_inside. Qed.

(** A tile of the frame's own grid never makes the crop panic, whatever its buffer. *)
Lemma grid_cells_do_not_panic f grid tile :
  0 <= frame_width f < 2 ^ 32 -> 0 <= frame_height f < 2 ^ 32 -> tile ∈ grid_cells (frame_width f) (frame_height f) grid ->
  crop_to_tile_rgb f tile <> None.
Proof.
  intros HW HH Ht. pose proof (grid_cells_in _ _ _ _ (proj1 HW) (proj1 HH) Ht) as (Hx & Hy & Hw & Hh & Hxw & Hyh). unfold crop_to_tile_rgb.
  destruct (negb _); [done|]. destruct (_ || _); [done|]. rewrite !u32_add_small by lia. destruct (_ || _); [done|].
  destruct (zlength (frame_data f) =? _) eqn:Ed; [|done]. apply Z.eqb_eq in Ed. simpl negb. cbn iota zeta.
  destruct (window_inside (frame_data f) (frame_width f) (frame_height f) (roi_x tile) (roi_y tile) (roi_w tile) (roi_h tile)) as (rows & -> & _); [done..|].
  done.
Qed.

(** What the wrap does where the caller does not keep its obligation: a region that starts past the
    frame passes the check, and the index panics. *)
Example a_wrapped_region_panics :
  crop_to_tile_rgb (mkFrame 1 1 0 0 4 2 Rgb24 (Z.of_nat <$> seq 0 24) "t") (mkRoi (2 ^ 32 - 1) 0 2 1) = None.
Proof. vm_compute. reflexivity. Qed.

(** ** The cascade *)

(** A detection that detector found on a crop of the frame, moved to the frame's coordinates. *)
Definition found_on_tile {W} (detector : Detector W) (f : Frame) (prompts : list string) (tiles : list TileRoi) (d : Detection) : Prop :=
  exists tile crop d0 dets w1 w2, tile ∈ tiles /\ crop_to_tile_rgb f tile = Some (Ok crop) /\
    detect_crop detector crop prompts w1 = (Ok dets, w2) /\ d0 ∈ dets /\ [d] = map_tile_dets_to_frame [d0] tile.

Lemma run_tiles_spec {W} (detector : Detector W) f prompts all tiles w out w' :
  tiles ⊆ all -> run_tile_inference detector f tiles prompts w = (Ok out, w') -> Forall (found_on_tile detector f prompts all) out.
Proof.
  revert w out. induction tiles as [|tile tiles IH]; intros w out Hsub; cbn [run_tile_inference]; [intros [= <- _]; constructor|].
  destruct (crop_to_tile_rgb f tile) as [[crop|]|] eqn:Ec; [|done..]. unfold mbind, se_bind, part.
  destruct (detect_crop detector crop prompts w) as [[dets|] w1] eqn:Ed; [|done].
  destruct (run_tile_inference detector f tiles prompts w1) as [[rest|] w2] eqn:Er; [|done].
  unfold mret, se_ret. intros H. injection H as <- <-. apply Forall_app. split.
  - apply Forall_forall. intros d (d0 & -> & Hd0)%list_elem_of_fmap. exists tile, crop, d0, dets, w, w1.
    split; [apply Hsub, list_elem_of_here|]. split; [done|]. split; [done|]. by split.
  - apply (IH w1 rest); [|done]. intros x Hx. apply Hsub. by apply list_elem_of_further.
Qed.

(** On a packed frame a tile that was picked is always cut out: only the detector can fail. *)
Lemma picked_tiles_crop stage1 f grid max_tiles tile :
  packed f -> tile ∈ pick_tiles stage1 (frame_width f) (frame_height f) grid max_tiles -> exists crop, crop_to_tile_rgb f tile = Some (Ok crop).
Proof.
  intros Hp Ht. pose proof Hp as (_ & Hw & Hh & _).
  assert (tile ∈ grid_cells (frame_width f) (frame_height f) grid /\ 0 < density stage1 tile) as [Hc Hd].
  { unfold pick_tiles in Ht. destruct (_ || _ || _ || _); [by apply elem_of_nil in Ht|].
    apply list_elem_of_fmap in Ht as (s & -> & Hs). apply subseteq_take in Hs. rewrite sort_by_permutation in Hs.
    apply scored_in in Hs as (H1 & H2 & H3). split; [done|]. lia. }
  pose proof (grid_cells_in (frame_width f) (frame_height f) grid tile ltac:(lia) ltac:(lia) Hc) as (H1 & H2 & H3 & H4 & H5 & H6).
  assert (exists d, contains_centroid tile (center (d_bbox d)).1 (center (d_bbox d)).2 = true) as [d Hin].
  { unfold density in Hd. destruct (filter _ stage1) as [|d l] eqn:E; [unfold zlength in Hd; simpl in Hd; lia|].
    exists d. assert (d ∈ filter (fun d => contains_centroid tile (center (d_bbox d)).1 (center (d_bbox d)).2 = true) stage1) as He by (rewrite E; by left).
    by apply list_elem_of_filter in He as [He _]. }
  assert (roi_w tile <> 0 /\ roi_h tile <> 0) as [Hrw Hrh].
  { unfold contains_centroid in Hin. rewrite !andb_true_iff in Hin. destruct Hin as [[[Ha Hb] Hc'] Hd'].
    split; intros E; rewrite E in *; rewrite u32_add_small in * by lia; rewrite Z.add_0_r in *; [apply fle_not_flt in Ha|apply fle_not_flt in Hc']; congruence. }
  destruct (crop_inside f tile) as (crop & Hcrop & _); try done; try lia. by exists crop.
Qed.

(** The cascade only adds: when the second stage does not run, or fails, the frame keeps exactly what
    the first stage found. When it answers, the first stage's detections are followed by those the
    same detector found on tiles of this frame, moved to the frame's coordinates, of labels the
    camera asks for; their number is what the statistics count, and the cap on detections holds over
    both stages together. *)
Lemma cascade_only_adds {W} b top_k (detector : Detector W) f prompts stage1 w :
  let '(out, added, _) := cascade b top_k detector f prompts stage1 w in
  match added with
  | None => out = stage1
  | Some n => engaged b stage1 = true /\
      exists found, n = zlength found /\
        Forall (found_on_tile detector f prompts (grid_cells (frame_width f) (frame_height f) (default G2x2 (tile_grid b)))) found /\
        Forall (fun d => label_matches_any_prompt (d_label d) prompts = true) found /\
        match top_k with
        | None => out = stage1 ++ found
        | Some k => (length out <= k)%nat /\ forall d, d ∈ out -> d ∈ stage1 \/ d ∈ found
        end
  end.
Proof.
  unfold cascade. destruct (engaged b stage1); [|done].
  destruct (pick_tiles _ _ _ _ _) as [|t ts] eqn:Ep; [done|].
  destruct (run_tile_inference detector f (t :: ts) prompts w) as [[stage2|e] w'] eqn:Er; [|done].
  split; [done|]. exists (whitelisted prompts stage2). split; [done|].
  assert (t :: ts ⊆ grid_cells (frame_width f) (frame_height f) (default G2x2 (tile_grid b))) as Hsub.
  { intros x Hx. rewrite <- Ep in Hx. unfold pick_tiles in Hx. destruct (_ || _ || _ || _); [by apply elem_of_nil in Hx|].
    apply list_elem_of_fmap in Hx as (s & -> & Hs). apply subseteq_take in Hs. rewrite sort_by_permutation in Hs. by apply scored_in in Hs as (? & _). }
  pose proof (run_tiles_spec _ _ _ _ _ _ _ _ Hsub Er) as Hf.
  split; [|split].
  - unfold whitelisted. case_bool_decide; [done|]. rewrite Forall_forall in *. intros d [_ Hd]%list_elem_of_filter. by apply Hf.
  - unfold whitelisted. apply Forall_forall. intros d Hd. case_bool_decide as Hpr.
    + unfold label_matches_any_prompt. by rewrite bool_decide_true.
    + by apply list_elem_of_filter in Hd as [Hd _].
  - destruct top_k as [k|]; [|done]. split; [apply top_k_length|]. intros d Hd%top_k_in. by apply elem_of_app.
Qed.

(** A crowd in the top left corner of a frame, and one detection to the right. *)
Definition crowd_box (x : Z) : Detection := mkDetection "person" f32_half (mkBBox (f32_of_Z x) (f32_of_Z 40) (f32_of_Z (x + 10)) (f32_of_Z 60)) ∅.
Definition crowd : list Detection := [crowd_box 700; crowd_box 50; crowd_box 60; crowd_box 70].

Lemma tiles_are_the_densest_witness :
  pick_tiles crowd 960 540 G2x2 1 = [mkRoi 0 0 480 270] /\ density crowd (mkRoi 480 0 480 270) <= density crowd (mkRoi 0 0 480 270).
Proof.
  split; [vm_compute; reflexivity|].
  destruct (tiles_are_the_densest crowd 960 540 G2x2 1 ltac:(lia) ltac:(lia) ltac:(lia)) as (_ & _ & H).
  assert (pick_tiles crowd 960 540 G2x2 1 = [mkRoi 0 0 480 270]) as E by (vm_compute; reflexivity).
  destruct (H (mkRoi 480 0 480 270)) as [_ H'].
  - vm_compute. right. left.
  - vm_compute. reflexivity.
  - rewrite E. intros [Hc|Hc]%elem_of_cons; [discriminate Hc|by apply elem_of_nil in Hc].
  - apply H'. rewrite E. left.
Defined.

Definition small_parent : Frame := mkFrame 1 1 0 0 4 2 Rgb24 (Z.of_nat <$> seq 0 24) "t".

Lemma crop_is_the_window_witness :
  exists crop, crop_to_tile_rgb small_parent (mkRoi 2 1 2 1) = Some (Ok crop) /\ frame_data crop !! 4%nat = Some 22.
Proof.
  destruct (crop_is_the_window small_parent (mkRoi 2 1 2 1)) as (crop & H1 & _ & _ & _ & _ & H).
  - repeat split.
  - simpl; lia.
  - simpl; lia.
  - simpl; lia.
  - simpl; lia.
  - simpl; lia.
  - simpl; lia.
  - exists crop. split; [exact H1|]. etransitivity; [apply (H 0 4); simpl; lia|reflexivity].
Defined.
