(* ===== verification/StaticObject.v ===== *)
(** The static-object filter of a camera: [nexus-tracker/src/static_object.rs], with its configuration
    ([nexus-config/src/static_filter.rs]) and the inference rate of [rate.rs]. It hides parked
    vehicles from the rules until they move, and keeps their places on disk.

    The registry file is part of the state; what the disk answers to the (at most two) saves of a frame
    is an argument, and the JSON printer and parser and [f32::hypot] are parameters. Logging is left out. *)
From S2P Require Import Prelude Text Float Types Alert Rules.
From S2P Require FramePath.

(** ** The inference rate *)

(** [1.0 / 30.0], [1.0 / 60.0], [5.0], [0.1], [4.0] in [f64]. *)
Definition f64_1 : f64 := f64_of_Z 1.
Definition DEFAULT_INTERVAL_SECS : f64 := f64_div f64_1 (f64_of_Z 30).
Definition MIN_INTERVAL_SECS : f64 := f64_div f64_1 (f64_of_Z 60).
Definition MAX_INTERVAL_SECS : f64 := f64_of_Z 5.
Definition ALPHA : f64 := flit 7205759403792794 (-56).
Definition WINSOR_FACTOR : f64 := f64_of_Z 4.

Record InferenceRate := mkRate { origin : option Z; last_secs : option f64; interval_secs : option f64 }.

Definition rate_default : InferenceRate := mkRate None None None.

Definition blend (interval : option f64) (dt : f64) : f64 :=
  let dt := fclamp MIN_INTERVAL_SECS MAX_INTERVAL_SECS dt in
  match interval with
  | Some ewma =>
      f64_add (f64_mul ALPHA (fmin dt (f64_mul WINSOR_FACTOR ewma))) (f64_mul (f64_sub f64_1 ALPHA) ewma)
  | None => dt
  end.

Definition observe (t_secs : f64) (r : InferenceRate) : InferenceRate :=
  let interval :=
    match last_secs r with
    | Some prev =>
        let dt := f64_sub t_secs prev in
        if fgt dt fzero then Some (blend (interval_secs r) dt) else interval_secs r
    | None => interval_secs r
    end in
  mkRate (origin r) (Some t_secs) interval.

Definition observe_at (mono : Z) (r : InferenceRate) : InferenceRate :=
  let o := default mono (origin r) in
  observe (as_secs_f64 (sat_sub mono o)) (mkRate (Some o) (last_secs r) (interval_secs r)).

(** [.round().max(1.0) as u32]: halves away from zero, a NaN is the other operand, the cast saturates. *)
Definition round_max1_u32 (x : f64) : Z :=
  match x with
  | S754_nan | S754_zero _ | S754_infinity true => 1
  | S754_infinity false => umax 32
  | S754_finite true _ _ => 1
  | S754_finite false m e =>
      let r := if 0 <=? e then Zpos m * 2 ^ e else (2 * Zpos m + 2 ^ (- e)) / 2 ^ (1 - e) in
      Z.max 1 (Z.min (umax 32) r)
  end.

Definition frames (secs : f32) (r : InferenceRate) : Z :=
  round_max1_u32 (f64_div (f32_to_f64 (fmax secs fzero)) (default DEFAULT_INTERVAL_SECS (interval_secs r))).

(** ** Configuration and state *)

Record StaticObjectConfig := mkConfig {
  dwell_frames : option Z;
  dwell_secs : f32;
  anchor_persons : bool;
  significant_movement_pixels : Z;
  significant_movement_frames : Z;
  movement_ema_alpha : f32;
  match_distance_pixels : Z;
  track_id_reuse_reset_pixels : Z;
  persistence_enabled : bool;
  anchor_ttl_secs : Z;
}.

(** [0.35] is [11744051 * 2 ^ -25]. *)
Definition config_default : StaticObjectConfig :=
  mkConfig None (f32_of_Z 5) false 36 3 (flit 11744051 (-25)) 40 60 true 3600.

Definition point : Set := f32 * f32.

Record PerTrackState := mkPer {
  last_center : option point;
  movement_ema : f64;
  static_frames : Z;
  moving_consecutive_frames : Z;
  static_promoted : bool;
  alert_epoch : Z;
  anchor_center : option point;
  parked_at : option point;
  departed : bool;
}.

Definition per_default : PerTrackState := mkPer None fzero 0 0 false 0 None None false.

Record StaticAnchor := mkAnchor {
  a_label : string;
  center_x : f32;
  center_y : f32;
  last_seen_unix_ms : option Z;
}.

Record RegistryFile := mkRegistry { version : Z; file_camera_id : Z; file_anchors : list StaticAnchor }.

Record StaticObjectFilter := mkFilter {
  cfg : StaticObjectConfig;
  filter_camera_id : Z;
  (** [persistence_path]: whether there is a file. *)
  has_path : bool;
  state_by_track : gmap Z PerTrackState;
  anchors : list StaticAnchor;
  extra_anchor_classes : list string;
  rate : InferenceRate;
}.

Definition STATIC_ATTRIBUTE_KEY : string := "tracker.is_static".
Definition EMA_ATTRIBUTE_KEY : string := "tracker.movement_ema".
Definition STATIC_FRAMES_ATTRIBUTE_KEY : string := "tracker.static_frames".
Definition MOVING_FRAMES_ATTRIBUTE_KEY : string := "tracker.moving_consecutive_frames".
Definition ALERT_EPOCH_ATTRIBUTE_KEY : string := "tracker.static_alert_epoch".

Definition is_object_static (o : TrackedObject) : bool :=
  match attributes o !! STATIC_ATTRIBUTE_KEY with Some (JBool true) => true | _ => false end.

Definition is_vehicle_label (label : string) : bool :=
  let lc := to_lowercase label in
  starts_with lc "vehicle" || str_eqb lc "car" || str_eqb lc "truck" || str_eqb lc "bus" || str_eqb lc "motorcycle".

Definition is_anchor_eligible (f : StaticObjectFilter) (label : string) : bool :=
  is_vehicle_label label || (anchor_persons (cfg f) && eq_ignore_ascii_case label "person") ||
  existsb (fun c => str_eqb c (to_lowercase label)) (extra_anchor_classes f).

(** ** Anchors *)

Definition f64_dist_sq (p q : point) : f64 :=
  let dx := f32_to_f64 (f32_sub (fst p) (fst q)) in
  let dy := f32_to_f64 (f32_sub (snd p) (snd q)) in
  f64_add (f64_mul dx dx) (f64_mul dy dy).

Definition place (a : StaticAnchor) : point := (center_x a, center_y a).

Definition anchor_matches (label_lc : string) (c : point) (max_dist_px : f32) (a : StaticAnchor) : bool :=
  str_eqb (a_label a) label_lc && fle (f64_dist_sq (place a) c) (f32_to_f64 (f32_mul max_dist_px max_dist_px)).

Fixpoint match_anchor (l : list StaticAnchor) (label_lc : string) (c : point) (max_dist_px : f32) : option nat :=
  match l with
  | [] => None
  | a :: l' => if anchor_matches label_lc c max_dist_px a then Some O else S <$> match_anchor l' label_lc c max_dist_px
  end.

Definition seen_at (now_ms : Z) (a : StaticAnchor) : StaticAnchor :=
  mkAnchor (a_label a) (center_x a) (center_y a) (Some now_ms).

Definition upsert_anchor (l : list StaticAnchor) (label_lc : string) (c : point) (max_dist_px : f32) (now_ms : Z) :
    list StaticAnchor * (point * bool) :=
  match match_anchor l label_lc c max_dist_px with
  | Some idx => (alter (seen_at now_ms) idx l, (from_option place c (l !! idx), false))
  | None => (l ++ [mkAnchor label_lc c.1 c.2 (Some now_ms)], (c, true))
  end.

(** ** One object of a frame *)

(** The thresholds of a frame, as [classify] reads them from the configuration. *)
Record Knobs := mkKnobs {
  k_dwell : Z;
  k_sig_px : f64;
  k_sig_frames : Z;
  k_alpha : f64;
  k_match_dist : f32;
  k_still_px : f64;
  k_reset_px : f64;
  k_persistence : bool;
}.

(** [0.01_f32] is [10737418 * 2 ^ -30]. *)
Definition knobs (c : StaticObjectConfig) (r : InferenceRate) : Knobs :=
  let match_dist := f32_of_Z (Z.max 1 (match_distance_pixels c)) in
  mkKnobs (Z.max 1 (default (frames (dwell_secs c) r) (dwell_frames c)))
    (f64_of_Z (Z.max 1 (significant_movement_pixels c)))
    (Z.max 1 (significant_movement_frames c))
    (f32_to_f64 (fclamp (flit 10737418 (-30)) (f32_of_Z 1) (movement_ema_alpha c)))
    match_dist (f32_to_f64 (f32_div match_dist (f32_of_Z 4)))
    (f64_of_Z (track_id_reuse_reset_pixels c)) (persistence_enabled c).

Definition f64_sqrt : f64 -> f64 := SFsqrt 53 1024.

Definition travel (last : option point) (c : point) : f64 :=
  match last with
  | Some p => f64_sqrt (f64_dist_sq c p)
  | None => fzero
  end.

(** The guard against a recycled track id. *)
Definition reuse_guard (k : Knobs) (c : point) (s : PerTrackState) : PerTrackState :=
  if fgt (k_reset_px k) fzero && is_some (last_center s) && fgt (travel (last_center s) c) (k_reset_px k) then
    mkPer None fzero 0 0 false (usat_add 64 (alert_epoch s) (Z.b2z (static_promoted s))) None None false
  else s.

Definition stood_still (k : Knobs) (seen : bool) (c : point) (s : PerTrackState) : bool :=
  seen && is_some (last_center s) && fle (travel (last_center s) c) (k_still_px k).

Definition next_ema (k : Knobs) (c : point) (s : PerTrackState) : f64 :=
  let instant := travel (last_center s) c in
  match last_center s with
  | None => instant
  | Some _ => f64_add (f64_mul (k_alpha k) instant) (f64_mul (f64_sub f64_1 (k_alpha k)) (movement_ema s))
  end.

(** The movement average, the two counters and the promotion. *)
Definition count_step (k : Knobs) (c : point) (s : PerTrackState) : PerTrackState :=
  let ema := next_ema k c s in
  let significant := fge ema (k_sig_px k) in
  let still_frames := if significant then 0 else usat_add 32 (static_frames s) 1 in
  mkPer (Some c) ema still_frames
    (if significant then usat_add 32 (moving_consecutive_frames s) 1 else 0)
    (static_promoted s || (k_dwell k <=? still_frames))
    (alert_epoch s) (anchor_center s) (parked_at s) (departed s).

Definition match_if (k : Knobs) (l : list StaticAnchor) (label_lc : string) (c : point) : option nat :=
  if k_persistence k then match_anchor l label_lc c (k_match_dist k) else None.

Section Classify.
Context (hypot : f32 -> f32 -> f32).

Definition left_its_spot (k : Knobs) (c : point) (s : PerTrackState) : bool :=
  static_promoted s &&
  match parked_at s with
  | Some p => fgt (hypot (f32_sub p.1 c.1) (f32_sub p.2 c.2)) (k_match_dist k)
  | None => false
  end.

Definition broke_static_gate (k : Knobs) (c : point) (matched : option nat) (s : PerTrackState) : bool :=
  left_its_spot k c s ||
  ((k_sig_frames k <=? moving_consecutive_frames s) && (static_promoted s || is_some matched)).

(** The gate breaks: the anchor the track owns goes, and a new episode begins. *)
Definition depart (k : Knobs) (label_lc : string) (matched : option nat) (s : PerTrackState) (l : list StaticAnchor) :
    PerTrackState * list StaticAnchor * bool :=
  let stale :=
    match anchor_center s with
    | Some p => match_anchor l label_lc p (k_match_dist k)
    | None => matched
    end in
  (mkPer (last_center s) (movement_ema s) 0 (moving_consecutive_frames s) false
     (usat_add 64 (alert_epoch s) 1) None None true,
   match stale with Some idx => delete idx l | None => l end, is_some stale).

(** One turn of the loop for an eligible object: the new state of its track, the anchors, whether
    the registry changed, and the verdict. *)
Definition object_step (k : Knobs) (frame_ms : Z) (label_lc : string) (seen : bool) (c : point)
    (s : PerTrackState) (l : list StaticAnchor) : PerTrackState * list StaticAnchor * bool * bool :=
  let s := reuse_guard k c s in
  let still := stood_still k seen c s in
  let s := count_step k c s in
  let matched := match_if k l label_lc c in
  let '(s, l, dirty) :=
    if broke_static_gate k c matched s then depart k label_lc matched s l
    else (s, match matched with Some idx => if still then alter (seen_at frame_ms) idx l else l | None => l end, false) in
  let still_matches := is_some (match_if k l label_lc c) in
  let suppress := ((still_matches && negb (departed s)) || static_promoted s) &&
                  (moving_consecutive_frames s <? k_sig_frames k) in
  if static_promoted s && k_persistence k && (moving_consecutive_frames s =? 0) && still then
    let '(l, (anchor_at, mutated)) := upsert_anchor l label_lc c (k_match_dist k) frame_ms in
    (mkPer (last_center s) (movement_ema s) (static_frames s) (moving_consecutive_frames s) (static_promoted s)
       (alert_epoch s) (Some anchor_at) (Some (default c (parked_at s))) (departed s),
     l, dirty || mutated, suppress)
  else (s, l, dirty, suppress).

(** The state the loop threads: the tracks, the anchors, [dirty]. *)
Definition loop_state : Type := gmap Z PerTrackState * list StaticAnchor * bool.

Definition visit (f : StaticObjectFilter) (k : Knobs) (frame_ms : Z) (o : TrackedObject) (ls : loop_state) :
    loop_state * bool :=
  if is_anchor_eligible f (o_label o) then
    let '(states, l, dirty) := ls in
    let '(s, l, d, suppress) :=
      object_step k frame_ms (to_lowercase (o_label o)) (is_some (detection_bbox o)) (center (o_bbox o))
        (default per_default (states !! o_track_id o)) l in
    ((<[o_track_id o := s]> states, l, dirty || d), suppress)
  else (ls, false).

Fixpoint visit_all (f : StaticObjectFilter) (k : Knobs) (frame_ms : Z) (os : list TrackedObject) (ls : loop_state) :
    loop_state * list bool :=
  match os with
  | [] => (ls, [])
  | o :: os' =>
      let '(ls, b) := visit f k frame_ms o ls in
      let '(ls, bs) := visit_all f k frame_ms os' ls in
      (ls, b :: bs)
  end.

(** ** The attributes *)

Definition with_attribute (key : string) (v : JsonValue) (o : TrackedObject) : TrackedObject :=
  mkObject (o_track_id o) (o_label o) (confidence o) (o_bbox o) (detection_bbox o) (age_frames o) (age_ms o)
    (<[key := v]> (attributes o)).

Definition stamp (f : StaticObjectFilter) (states : gmap Z PerTrackState) (o : TrackedObject) (suppress : bool) :
    TrackedObject :=
  let o := if suppress then with_attribute STATIC_ATTRIBUTE_KEY (JBool true) o else o in
  if is_anchor_eligible f (o_label o) then
    match states !! o_track_id o with
    | Some s =>
        let o := if is_finite (movement_ema s) then with_attribute EMA_ATTRIBUTE_KEY (JFloat (movement_ema s)) o else o in
        with_attribute ALERT_EPOCH_ATTRIBUTE_KEY (JInt (alert_epoch s))
          (with_attribute MOVING_FRAMES_ATTRIBUTE_KEY (JInt (moving_consecutive_frames s))
            (with_attribute STATIC_FRAMES_ATTRIBUTE_KEY (JInt (static_frames s)) o))
    | None => o
    end
  else o.

(** ** The registry file *)

(** What the file holds, if there is one. *)
Definition File : Type := option (list Z).

(** The disk's answer to a save: it may fail to make the directory, or leave anything behind when
    the write fails. *)
Inductive SaveAnswer := MkdirFails | Written | WriteFails (remains : File).

Context (print : RegistryFile -> list Z) (parse : list Z -> option RegistryFile).

Definition save_registry (a : SaveAnswer) (f : StaticObjectFilter) (file : File) : File :=
  if has_path f && persistence_enabled (cfg f) then
    match a with
    | MkdirFails => file
    | Written => Some (print (mkRegistry 1 (filter_camera_id f) (anchors f)))
    | WriteFails remains => remains
    end
  else file.

Definition load_registry (read_ok : bool) (camera : Z) (file : File) : list StaticAnchor :=
  match file with
  | Some bytes =>
      if read_ok then
        match parse bytes with
        | Some doc => if file_camera_id doc =? camera then file_anchors doc else []
        | None => []
        end
      else []
  | None => []
  end.

Definition with_anchor_classes (c : StaticObjectConfig) (camera : Z) (path : bool) (classes : list string)
    (read_ok : bool) (file : File) : StaticObjectFilter :=
  mkFilter c camera path ∅ (if path && persistence_enabled c then load_registry read_ok camera file else [])
    (map to_lowercase classes) rate_default.

Definition new (c : StaticObjectConfig) (camera : Z) (path : bool) (read_ok : bool) (file : File) : StaticObjectFilter :=
  with_anchor_classes c camera path [] read_ok file.

Definition with_state (st : gmap Z PerTrackState) (l : list StaticAnchor) (r : InferenceRate) (f : StaticObjectFilter) :
    StaticObjectFilter :=
  mkFilter (cfg f) (filter_camera_id f) (has_path f) st l (extra_anchor_classes f) r.

(** [removed]: whether the file could be removed. *)
Definition clear (removed : bool) (f : StaticObjectFilter) (file : File) : StaticObjectFilter * File :=
  (with_state ∅ [] (rate f) f, if has_path f && removed then None else file).

(** The sweep: an anchor without a stamp gets this frame's. *)
Definition stamp_unseen (frame_ms : Z) (a : StaticAnchor) : StaticAnchor :=
  seen_at (default frame_ms (last_seen_unix_ms a)) a.

Definition i64_sat_sub (a b : Z) : Z := Z.max (- 2 ^ 63) (Z.min (2 ^ 63 - 1) (a - b)).

Definition too_old (frame_ms ttl_ms : Z) (a : StaticAnchor) : bool :=
  ttl_ms <? i64_sat_sub frame_ms (default frame_ms (last_seen_unix_ms a)).

Definition sweep (frame_ms ttl_ms : Z) (l : list StaticAnchor) : list StaticAnchor * bool :=
  (map (stamp_unseen frame_ms) (List.filter (fun a => negb (too_old frame_ms ttl_ms a)) l),
   existsb (too_old frame_ms ttl_ms) l).

(** One frame. [saves] is the disk's answer to the two saves. *)
Definition classify (saves : SaveAnswer * SaveAnswer) (frame_ms mono : Z) (objects : list TrackedObject)
    (f : StaticObjectFilter) (file : File) : StaticObjectFilter * File * list TrackedObject :=
  let r := observe_at mono (rate f) in
  let '(states, l, dirty, verdicts) := visit_all f (knobs (cfg f) r) frame_ms objects (state_by_track f, anchors f, false) in
  let f := with_state states l r f in
  let objects := zip_with (stamp f states) objects verdicts in
  let file := if dirty then save_registry saves.1 f file else file in
  if persistence_enabled (cfg f) && (0 <? anchor_ttl_secs (cfg f)) then
    let '(l, swept) := sweep frame_ms (anchor_ttl_secs (cfg f) * 1000) l in
    let f := with_state states l r f in
    (f, if swept then save_registry saves.2 f file else file, objects)
  else (f, file, objects).

Definition filter_static (saves : SaveAnswer * SaveAnswer) (frame_ms mono : Z) (objects : list TrackedObject)
    (f : StaticObjectFilter) (file : File) : StaticObjectFilter * File * list TrackedObject :=
  let '(f, file, objects) := classify saves frame_ms mono objects f file in
  (f, file, List.filter (fun o => negb (is_object_static o)) objects).

(** ** Runs *)

Inductive Op :=
| Classify (saves : SaveAnswer * SaveAnswer) (frame_ms mono : Z) (objects : list TrackedObject)
| Clear (removed : bool).

Definition filter_step (o : Op) (s : StaticObjectFilter * File) : StaticObjectFilter * File * list TrackedObject :=
  match o with
  | Classify saves ms mono objects => classify saves ms mono objects s.1 s.2
  | Clear removed => (clear removed s.1 s.2, [])
  end.

#[export] Instance filter_machine : Machine Op (StaticObjectFilter * File) (list TrackedObject) := filter_step.
End Classify.

(** ** What one object does to the registry *)

(** Where an anchor is, whenever it was seen. *)
Definition spot (a : StaticAnchor) : string * point := (a_label a, place a).

Lemma spots_alter ms (i : nat) (l : list StaticAnchor) : spot <$> alter (seen_at ms) i l = spot <$> l.
Proof.
  apply list_eq. intros j. rewrite !list_lookup_fmap.
  destruct (decide (i = j)) as [<-|Hne]; [rewrite list_lookup_alter_eq; by destruct (l !! i)|by rewrite list_lookup_alter_ne].
Qed.

Lemma spots_map_seen (g : StaticAnchor -> Z) (l : list StaticAnchor) : spot <$> map (fun a => seen_at (g a) a) l = spot <$> l.
Proof. induction l as [|a l IH]; simpl; by f_equal. Qed.

Lemma spots_delete (i : nat) (l : list StaticAnchor) : spot <$> delete i l = delete i (spot <$> l).
Proof. apply list_fmap_delete. Qed.

Lemma elem_of_spots_in (l : list StaticAnchor) sp : sp ∈ spot <$> l <-> exists a, a ∈ l /\ spot a = sp.
Proof. rewrite list_elem_of_fmap. naive_solver. Qed.

Lemma match_anchor_lookup l lc c d i : match_anchor l lc c d = Some i ->
  exists a, l !! i = Some a /\ anchor_matches lc c d a = true.
Proof.
  revert i. induction l as [|a l IH]; intros i; simpl; [done|].
  destruct (anchor_matches lc c d a) eqn:E; [intros [= <-]; by exists a|].
  destruct (match_anchor l lc c d) as [j|]; [intros [= <-]; by apply IH|done].
Qed.

(** Which anchors an object may leave: those that were there, where they were, and one at its own
    centre if it was parked there and standing still. *)
Definition spots_from (placed : Prop) (lc : string) (c : point) (l l' : list StaticAnchor) : Prop :=
  forall a, a ∈ l' -> (exists a0, a0 ∈ l /\ spot a0 = spot a) \/ (spot a = (lc, c) /\ placed).

Lemma upsert_spots l lc c d ms :
  let r := upsert_anchor l lc c d ms in
  (r.2.2 = false -> spot <$> r.1 = spot <$> l) /\ spots_from True lc c l r.1.
Proof.
  unfold upsert_anchor. destruct (match_anchor l lc c d) as [i|]; simpl; split; try done.
  - intros _. apply spots_alter.
  - intros a Ha. left. apply elem_of_spots_in. rewrite <-(spots_alter ms i). apply elem_of_spots_in. eauto.
  - intros a [Ha|Ha%list_elem_of_singleton]%elem_of_app; [eauto|right]. subst a. unfold spot, place. simpl. by destruct c.
Qed.

Lemma depart_spots k lc matched s l :
  let r := depart k lc matched s l in
  (r.2 = false -> r.1.2 = l) /\ (forall a, a ∈ r.1.2 -> a ∈ l).
Proof.
  unfold depart. set (st := match anchor_center s with Some _ => _ | None => _ end).
  destruct st as [i|]; simpl; split; try done. intros a [j Hj]%list_elem_of_lookup.
  rewrite list_lookup_delete in Hj. case_match; by eapply list_elem_of_lookup_2.
Qed.

Lemma spots_from_weaken (P Q : Prop) lc c l1 l2 l l' :
  (P -> Q) -> (forall a, a ∈ l2 -> exists a0, a0 ∈ l1 /\ spot a0 = spot a) ->
  spots_from P lc c l2 l -> spot <$> l = spot <$> l' -> spots_from Q lc c l1 l'.
Proof.
  intros HPQ Hin Hf He a Ha.
  assert (exists b, b ∈ l /\ spot b = spot a) as (b & Hb & Hab).
  { apply elem_of_spots_in. rewrite He. apply elem_of_spots_in. eauto. }
  destruct (Hf b Hb) as [(a0 & H0 & E0)|[E0 Hp]]; [left|right; split; [congruence|auto]].
  destruct (Hin a0 H0) as (a1 & H1 & E1). exists a1. split; [done|congruence].
Qed.

(** What a turn of the loop guarantees, whatever the state it starts in. *)
Record turn_ok (k : Knobs) (lc : string) (seen : bool) (c : point) (s : PerTrackState) (l : list StaticAnchor)
    (s' : PerTrackState) (l' : list StaticAnchor) (d sup : bool) : Prop := {
  t_clean : d = false -> spot <$> l' = spot <$> l;
  t_spots : spots_from (stood_still k seen c (reuse_guard k c s) = true /\ k_persistence k = true) lc c l l';
  t_epoch : alert_epoch s <= umax 64 -> alert_epoch s <= alert_epoch s' <= umax 64;
  t_moving : sup = true -> moving_consecutive_frames s' < k_sig_frames k;
  t_center : last_center s' = Some c;
}.

Lemma reuse_guard_epoch k c s :
  alert_epoch s <= umax 64 -> alert_epoch s <= alert_epoch (reuse_guard k c s) <= umax 64.
Proof.
  intros H. unfold reuse_guard. case_match; simpl; [|lia]. unfold usat_add. destruct (static_promoted s); simpl; lia.
Qed.

Lemma object_step_ok hypot k ms lc seen c s l :
  let '(s', l', d, sup) := object_step hypot k ms lc seen c s l in turn_ok k lc seen c s l s' l' d sup.
Proof.
  unfold object_step. set (g := reuse_guard k c s). set (still := stood_still k seen c g).
  set (s1 := count_step k c g). set (matched := match_if k l lc c).
  pose proof (reuse_guard_epoch k c s) as Hg. fold g in Hg.
  (* the gate *)
  set (gate := if broke_static_gate hypot k c matched s1 then depart k lc matched s1 l
    else (s1, match matched with Some idx => if still then alter (seen_at ms) idx l else l | None => l end, false)).
  assert ((gate.2 = false -> spot <$> gate.1.2 = spot <$> l) /\ (forall a, a ∈ gate.1.2 -> exists a0, a0 ∈ l /\ spot a0 = spot a) /\
    (alert_epoch s <= umax 64 -> alert_epoch s <= alert_epoch gate.1.1 <= umax 64) /\ last_center gate.1.1 = Some c)
    as (G1 & G2 & G3 & G4).
  { subst gate. destruct (broke_static_gate hypot k c matched s1).
    - destruct (depart_spots k lc matched s1 l) as [D1 D2]. split_and!; [intros H; by rewrite D1|eauto| |done].
      intros H. specialize (Hg H). simpl. unfold usat_add. lia.
    - simpl. assert (spot <$> (match matched with Some idx => if still then alter (seen_at ms) idx l else l | None => l end)
        = spot <$> l) as E by (destruct matched, still; try done; apply spots_alter).
      split_and!; [done| |done|done]. intros a Ha. apply elem_of_spots_in. rewrite <-E. apply elem_of_spots_in. eauto. }
  destruct gate as [[s2 l2] d]. simpl in G1, G2, G3, G4.
  set (sup := _ && (_ <? _)).
  assert (sup = true -> moving_consecutive_frames s2 < k_sig_frames k) as Hsup.
  { unfold sup. intros [_ H%Z.ltb_lt]%andb_true_iff. done. }
  destruct (static_promoted s2 && k_persistence k && (moving_consecutive_frames s2 =? 0) && still) eqn:Ep.
  - destruct (upsert_spots l2 lc c (k_match_dist k) ms) as [U1 U2].
    destruct (upsert_anchor l2 lc c (k_match_dist k) ms) as [l3 [at_ mut]]. simpl in U1, U2.
    apply andb_true_iff in Ep as [[[_ Hp]%andb_true_iff _]%andb_true_iff Hst].
    constructor; simpl; try done.
    + intros [-> ->]%orb_false_iff. by rewrite U1, G1.
    + eapply spots_from_weaken; [|exact G2|exact U2|done]. done.
  - constructor; try done. intros a Ha. left. by apply G2.
Qed.

(** ** Only finite places are kept *)

Definition finite_point (p : point) : Prop := is_finite p.1 = true /\ is_finite p.2 = true.

(** The square of a NaN or of an infinity. *)
Definition blown (x : spec_float) : Prop := x = S754_nan \/ x = S754_infinity false.

Lemma blown_square (a b : f32) : is_finite a = false ->
  blown (f64_mul (f32_to_f64 (f32_sub a b)) (f32_to_f64 (f32_sub a b))).
Proof. destruct a as [?|[]| |?]; try done; destruct b as [?|[]| |?]; intros _; vm_compute; auto. Qed.

Lemma square_not_minus x : f64_mul x x <> S754_infinity true.
Proof.
  destruct x as [?|[]| |s m e]; try done. unfold f64_mul, SFmul. rewrite xorb_nilpotent.
  unfold binary_round_aux. destruct (shr_fexp _ _ _ _ _) as [r1 e1]. destruct (shr_fexp _ _ _ _ _) as [r2 e2].
  destruct (shr_m r2); [done| |done]. by case_match.
Qed.

Lemma blown_add_l x y : blown x -> y <> S754_infinity true -> blown (f64_add x y).
Proof. intros [-> | ->] Hy; destruct y as [[]|[]| |[] m e]; try done; vm_compute; auto. Qed.

Lemma blown_add_r x y : blown y -> x <> S754_infinity true -> blown (f64_add x y).
Proof. intros [-> | ->] Hx; destruct x as [[]|[]| |[] m e]; try done; vm_compute; auto. Qed.

Lemma blown_far d t : blown d -> is_finite t = true -> fle (f64_sqrt d) t = false.
Proof. intros [-> | ->] Ht; destruct t as [[]|[]| |[] m e]; try done; by vm_compute. Qed.

Lemma near_finite (c p : point) t :
  fle (f64_sqrt (f64_dist_sq c p)) t = true -> is_finite t = true -> finite_point c.
Proof.
  intros Hle Ht. destruct c as [cx cy], p as [px py]. unfold f64_dist_sq in Hle. unfold finite_point. simpl in *.
  split; apply not_false_iff_true; intros H.
  - rewrite blown_far in Hle; [done| |done]. apply blown_add_l; [by apply blown_square|apply square_not_minus].
  - rewrite blown_far in Hle; [done| |done]. apply blown_add_r; [by apply blown_square|apply square_not_minus].
Qed.

Lemma still_finite k seen c s : is_finite (k_still_px k) = true -> stood_still k seen c s = true -> finite_point c.
Proof.
  unfold stood_still. intros Hf [[_ Hs]%andb_true_iff Hle]%andb_true_iff.
  destruct (last_center s) as [p|]; [|done]. by eapply near_finite.
Qed.

Definition finite_anchors (l : list StaticAnchor) : Prop := forall a, a ∈ l -> finite_point (place a).

Lemma turn_finite k lc seen c s l s' l' d sup :
  is_finite (k_still_px k) = true -> turn_ok k lc seen c s l s' l' d sup -> finite_anchors l -> finite_anchors l'.
Proof.
  intros Hf Ht Hl a Ha. destruct (t_spots _ _ _ _ _ _ _ _ _ _ Ht a Ha) as [(a0 & H0 & E)|[E [Hst _]]];
    apply (f_equal snd) in E; unfold spot, snd in E.
  - rewrite <-E. by apply Hl.
  - rewrite E. by eapply still_finite.
Qed.

(** ** A frame *)

Definition epoch_of (states : gmap Z PerTrackState) (t : Z) : Z := alert_epoch (default per_default (states !! t)).

Definition epochs_fit (states : gmap Z PerTrackState) : Prop := forall t, epoch_of states t <= umax 64.

Record frame_ok (f : StaticObjectFilter) (k : Knobs) (os : list TrackedObject) (ls ls' : loop_state) : Prop := {
  f_clean : ls'.2 = false -> ls.2 = false /\ spot <$> ls'.1.2 = spot <$> ls.1.2;
  f_finite : is_finite (k_still_px k) = true -> finite_anchors ls.1.2 -> finite_anchors ls'.1.2;
  f_places : forall a, a ∈ ls'.1.2 -> (exists a0, a0 ∈ ls.1.2 /\ spot a0 = spot a) \/
    (k_persistence k = true /\ exists o, o ∈ os /\ is_anchor_eligible f (o_label o) = true /\ is_Some (detection_bbox o) /\
      spot a = (to_lowercase (o_label o), center (o_bbox o)));
  f_epochs : epochs_fit ls.1.1 -> epochs_fit ls'.1.1 /\ forall t, epoch_of ls.1.1 t <= epoch_of ls'.1.1 t;
}.

Lemma frame_ok_nil f k ls : frame_ok f k [] ls ls.
Proof. constructor; naive_solver. Qed.

Lemma epoch_of_insert states t s u :
  epoch_of (<[t := s]> states) u = if decide (t = u) then alert_epoch s else epoch_of states u.
Proof. unfold epoch_of. destruct (decide (t = u)) as [<-|Hne]; [by rewrite lookup_insert_eq|by rewrite lookup_insert_ne]. Qed.

Lemma frame_ok_visit hypot f k ms o ls : frame_ok f k [o] ls (visit hypot f k ms o ls).1.
Proof.
  unfold visit. destruct (is_anchor_eligible f (o_label o)) eqn:El; [|constructor; naive_solver].
  destruct ls as [[states l] dirty].
  pose proof (object_step_ok hypot k ms (to_lowercase (o_label o)) (is_some (detection_bbox o)) (center (o_bbox o))
    (default per_default (states !! o_track_id o)) l) as Ht.
  destruct (object_step _ _ _ _ _ _ _ _) as [[[s' l'] d] sup]. constructor; simpl.
  - intros [-> ->]%orb_false_iff. split; [done|]. by apply (t_clean _ _ _ _ _ _ _ _ _ _ Ht).
  - intros Hf. by eapply turn_finite.
  - intros a Ha. destruct (t_spots _ _ _ _ _ _ _ _ _ _ Ht a Ha) as [?|[E [Hst Hp]]]; [by left|right].
    split; [done|]. exists o. split_and!; [by left|done| |done].
    unfold stood_still in Hst. destruct (detection_bbox o); [by eexists|done].
  - intros Hfit. assert (alert_epoch (default per_default (states !! o_track_id o)) <= umax 64) as H by apply Hfit.
    pose proof (t_epoch _ _ _ _ _ _ _ _ _ _ Ht H) as [H1 H2].
    split; intros u; rewrite epoch_of_insert; destruct (decide _) as [<-|_]; try done; apply Hfit.
Qed.

Lemma frame_ok_trans f k os1 os2 ls1 ls2 ls3 :
  frame_ok f k os1 ls1 ls2 -> frame_ok f k os2 ls2 ls3 -> frame_ok f k (os1 ++ os2) ls1 ls3.
Proof.
  intros [A1 A2 A3 A4] [B1 B2 B3 B4]. constructor.
  - intros H. destruct (B1 H) as [H1 E1]. destruct (A1 H1) as [H0 E0]. split; [done|congruence].
  - auto.
  - intros a Ha. destruct (B3 a Ha) as [(a1 & H1 & E1)|(Hp & o & Ho & H)].
    + destruct (A3 a1 H1) as [(a0 & H0 & E0)|(Hp & o & Ho & H2 & H3 & E)].
      * left. exists a0. split; [done|]. by rewrite E0.
      * right. split; [done|]. exists o. split_and!; try done; [apply elem_of_app; by left|by rewrite <-E1].
    + right. split; [done|]. exists o. split; [apply elem_of_app; by right|done].
  - intros H. destruct (A4 H) as [H1 M1]. destruct (B4 H1) as [H2 M2]. split; [done|].
    intros t. specialize (M1 t). specialize (M2 t). lia.
Qed.

Lemma frame_ok_all hypot f k ms os ls : frame_ok f k os ls (visit_all hypot f k ms os ls).1.
Proof.
  revert ls. induction os as [|o os IH]; intros ls; [apply frame_ok_nil|]. simpl.
  pose proof (frame_ok_visit hypot f k ms o ls) as H1. destruct (visit hypot f k ms o ls) as [ls1 b]. simpl in H1.
  specialize (IH ls1). destruct (visit_all hypot f k ms os ls1) as [ls2 bs]. simpl in *.
  by apply (frame_ok_trans f k [o] os ls ls1 ls2).
Qed.

Lemma visit_all_length hypot f k ms os ls : length (visit_all hypot f k ms os ls).2 = length os.
Proof.
  revert ls. induction os as [|o os IH]; intros ls; [done|]. simpl.
  destruct (visit hypot f k ms o ls) as [ls1 b]. specialize (IH ls1).
  destruct (visit_all hypot f k ms os ls1) as [ls2 bs]. simpl in *. by rewrite IH.
Qed.

(** ** The sweep *)

Lemma elem_of_sweep ms ttl l a :
  a ∈ (sweep ms ttl l).1 <-> exists a0, a0 ∈ l /\ too_old ms ttl a0 = false /\ a = stamp_unseen ms a0.
Proof.
  unfold sweep. simpl. rewrite list_elem_of_In, in_map_iff. setoid_rewrite filter_In. setoid_rewrite <-list_elem_of_In.
  setoid_rewrite negb_true_iff. naive_solver.
Qed.

Lemma sweep_spots ms ttl l a : a ∈ (sweep ms ttl l).1 -> exists a0, a0 ∈ l /\ spot a0 = spot a.
Proof. intros (a0 & H & _ & ->)%elem_of_sweep. by exists a0. Qed.

Lemma sweep_clean ms ttl l : (sweep ms ttl l).2 = false -> spot <$> (sweep ms ttl l).1 = spot <$> l.
Proof.
  unfold sweep. simpl. intros H. rewrite (spots_map_seen (fun a => default ms (last_seen_unix_ms a))). f_equal.
  induction l as [|a l IH]; simpl in *; [done|]. apply orb_false_iff in H as [-> H]. simpl. by rewrite IH.
Qed.

(** ** A call of [classify] *)

Definition frame_knobs (mono : Z) (f : StaticObjectFilter) : Knobs := knobs (cfg f) (observe_at mono (rate f)).

Definition visited (hypot : f32 -> f32 -> f32) (ms mono : Z) (objects : list TrackedObject) (f : StaticObjectFilter) :
    loop_state * list bool :=
  visit_all hypot f (frame_knobs mono f) ms objects (state_by_track f, anchors f, false).

Lemma classify_cases hypot print saves ms mono objects f file :
  let v := visited hypot ms mono objects f in
  let r := classify hypot print saves ms mono objects f file in
  let f1 := with_state v.1.1.1 v.1.1.2 (observe_at mono (rate f)) f in
  let file1 := if v.1.2 then save_registry print saves.1 f1 file else file in
  let sw := sweep ms (anchor_ttl_secs (cfg f) * 1000) v.1.1.2 in
  let f2 := with_state v.1.1.1 sw.1 (observe_at mono (rate f)) f in
  r.2 = zip_with (stamp f v.1.1.1) objects v.2 /\
  if persistence_enabled (cfg f) && (0 <? anchor_ttl_secs (cfg f))
  then r.1 = (f2, if sw.2 then save_registry print saves.2 f2 file1 else file1)
  else r.1 = (f1, file1).
Proof.
  unfold classify, visited, frame_knobs.
  destruct (visit_all _ _ _ _ _ _) as [[[states l] dirty] verdicts]. simpl. by destruct (persistence_enabled (cfg f) && _).
Qed.

(** What a frame leaves of the configuration, and where the anchors come from. *)
Lemma classify_keeps hypot print saves ms mono objects f file :
  let f' := (classify hypot print saves ms mono objects f file).1.1 in
  cfg f' = cfg f /\ filter_camera_id f' = filter_camera_id f /\ has_path f' = has_path f /\
  extra_anchor_classes f' = extra_anchor_classes f /\ rate f' = observe_at mono (rate f) /\
  state_by_track f' = (visited hypot ms mono objects f).1.1.1 /\
  forall a, a ∈ anchors f' -> exists a0, a0 ∈ (visited hypot ms mono objects f).1.1.2 /\ spot a0 = spot a.
Proof.
  destruct (classify_cases hypot print saves ms mono objects f file) as [_ H]. simpl in H.
  destruct (persistence_enabled (cfg f) && (0 <? anchor_ttl_secs (cfg f))); rewrite H; simpl; split_and!; try done.
  - intros a Ha. exact (sweep_spots ms (anchor_ttl_secs (cfg f) * 1000) _ a Ha).
  - eauto.
Qed.

(** ** The registry file agrees with the filter *)

Section Registry.
Context (hypot : f32 -> f32 -> f32) (print : RegistryFile -> list Z) (parse : list Z -> option RegistryFile).
(** [serde_json]: what is printed is read back, but for numbers that JSON does not have. *)
Hypothesis parse_print : forall d, finite_anchors (file_anchors d) -> parse (print d) = Some d.

(** A filter that keeps its anchors on disk, with a match radius whose quarter is a number. *)
Definition keeps_on_disk (f : StaticObjectFilter) : Prop :=
  has_path f = true /\ persistence_enabled (cfg f) = true /\ forall r, is_finite (k_still_px (knobs (cfg f) r)) = true.

Record registry_ok (c : StaticObjectConfig) (camera : Z) (s : StaticObjectFilter * File) : Prop := {
  r_cfg : cfg s.1 = c;
  r_camera : filter_camera_id s.1 = camera;
  r_disk : keeps_on_disk s.1;
  r_finite : finite_anchors (anchors s.1);
  r_agree : spot <$> load_registry parse true (filter_camera_id s.1) s.2 = spot <$> anchors s.1;
}.

(** The disk does what it is asked to. *)
Definition disk_works (o : Op) : Prop :=
  match o with
  | Classify saves _ _ _ => saves = (Written, Written)
  | Clear removed => removed = true
  end.

Lemma load_saved f file :
  keeps_on_disk f -> finite_anchors (anchors f) ->
  load_registry parse true (filter_camera_id f) (save_registry print Written f file) = anchors f.
Proof.
  intros (H1 & H2 & _) Hf. unfold save_registry. rewrite H1, H2. simpl. rewrite parse_print by done. simpl.
  by rewrite Z.eqb_refl.
Qed.

Lemma clean_save (dirty : bool) f file (l : list StaticAnchor) :
  keeps_on_disk f -> finite_anchors (anchors f) ->
  spot <$> load_registry parse true (filter_camera_id f) file = spot <$> l ->
  (dirty = false -> spot <$> anchors f = spot <$> l) ->
  spot <$> load_registry parse true (filter_camera_id f) (if dirty then save_registry print Written f file else file) =
    spot <$> anchors f.
Proof. intros Hk Hf Hl Hc. destruct dirty; [by rewrite load_saved|]. by rewrite Hl, Hc. Qed.

Lemma registry_file_step c camera :
  forall o s, disk_works o -> registry_ok c camera s -> registry_ok c camera (filter_step hypot print o s).1.
Proof.
  intros o [f file] Ho [Hcfg Hcam Hd Hf Ha]. simpl in *. destruct o as [saves ms mono objects|removed]; simpl in *.
  - subst saves.
    pose proof (classify_keeps hypot print (Written, Written) ms mono objects f file) as (K1 & K2 & K3 & _ & _ & _ & K).
    destruct (classify_cases hypot print (Written, Written) ms mono objects f file) as [_ Hc].
    pose proof (frame_ok_all hypot f (frame_knobs mono f) ms objects (state_by_track f, anchors f, false)) as [F1 F2 _ _].
    fold (visited hypot ms mono objects f) in F1, F2. cbv zeta in Hc.
    set (v := visited hypot ms mono objects f) in *.
    set (r := classify hypot print (Written, Written) ms mono objects f file) in *.
    assert (finite_anchors v.1.1.2) as Hv by (apply F2; [apply (proj2 (proj2 Hd))|done]).
    assert (keeps_on_disk r.1.1) as Hk by (unfold keeps_on_disk; by rewrite K1, K3).
    constructor; [congruence|congruence|done| |].
    { intros a (a0 & H0 & E)%K. apply (f_equal snd) in E. unfold spot, snd in E. rewrite <-E. by apply Hv. }
    set (f1 := with_state v.1.1.1 v.1.1.2 (observe_at mono (rate f)) f) in *.
    pose proof (clean_save v.1.2 f1 file (anchors f) Hd Hv Ha (fun H => proj2 (F1 H))) as H1. 
    destruct (persistence_enabled (cfg f) && (0 <? anchor_ttl_secs (cfg f))); rewrite Hc; [|exact H1].
    set (sw := sweep ms (anchor_ttl_secs (cfg f) * 1000) v.1.1.2).
    set (f2 := with_state v.1.1.1 sw.1 (observe_at mono (rate f)) f).
    assert (finite_anchors (anchors f2)) as H2.
    { intros a (a0 & H0 & E)%sweep_spots. apply (f_equal snd) in E. unfold spot, snd in E. rewrite <-E. by apply Hv. }
    exact (clean_save sw.2 f2 _ v.1.1.2 Hd H2 H1 (sweep_clean _ _ _)).
  - subst removed. destruct Hd as (H1 & H2 & H3). unfold filter_step, clear. simpl. rewrite H1. simpl.
    constructor; [done|done|done|intros a Hin; by apply elem_of_nil in Hin|done].
Qed.

(** A frame without objects only sweeps. *)
Lemma empty_frame_sweeps f file ms mono :
  persistence_enabled (cfg f) = true -> 0 < anchor_ttl_secs (cfg f) ->
  spot <$> anchors (classify hypot print (Written, Written) ms mono [] f file).1.1 =
  spot <$> List.filter (fun a => negb (too_old ms (anchor_ttl_secs (cfg f) * 1000) a)) (anchors f).
Proof.
  intros Hp Ht. destruct (classify_cases hypot print (Written, Written) ms mono [] f file) as [_ H]. cbv zeta in H.
  rewrite Hp in H. assert (0 <? anchor_ttl_secs (cfg f) = true) as E by lia. rewrite E in H. simpl andb in H. cbn iota in H. rewrite H.
  cbn [fst snd anchors with_state]. unfold visited, sweep. cbn [visit_all fst snd].
  apply (spots_map_seen (fun a => default ms (last_seen_unix_ms a))).
Qed.

(** The registry file keeps up with the filter: as long as the disk does what it is asked to, after any
    frames and operator resets, a filter built anew from the file has anchors of the same labels at
    the same places, in the same order, as the running one, none forgotten and none resurrected (and
    they are all finite, so that JSON can hold them). What the file does not keep up with is when
    an anchor was last seen: the stamps are those of the last change of structure, and by them the
    restarted filter sweeps, on its first frame, every anchor whose stamp has outlived the camera's time
    to live, however recently the running filter saw the vehicle
    ([a_long_parked_car_is_forgotten]). *)
Lemma registry_file_holds_the_anchors c camera classes file0 (ops : list Op) :
  persistence_enabled c = true -> (forall r, is_finite (k_still_px (knobs c r)) = true) ->
  finite_anchors (load_registry parse true camera file0) ->
  Forall disk_works ops ->
  let '(f, file) := (mrun (H:=filter_machine hypot print) ops
    (with_anchor_classes parse c camera true classes true file0, file0)).1 in
  let again := with_anchor_classes parse c camera true classes true file in
  spot <$> anchors again = spot <$> anchors f /\
  finite_anchors (anchors f) /\
  forall ms mono, 0 < anchor_ttl_secs c ->
    spot <$> anchors (classify hypot print (Written, Written) ms mono [] again file).1.1 =
    spot <$> List.filter (fun a => negb (too_old ms (anchor_ttl_secs c * 1000) a)) (anchors again).
Proof.
  intros Hp Hk Hf Hops.
  pose proof (mrun_invariant (H:=filter_machine hypot print) disk_works (registry_ok c camera) ops
    (with_anchor_classes parse c camera true classes true file0, file0) (registry_file_step c camera) Hops) as Hr.
  destruct (mrun (H:=filter_machine hypot print) ops _) as [[f file] outs] eqn:E. simpl in Hr. cbn [fst].
  assert (registry_ok c camera (f, file)) as [R1 R2 R3 R4 R5].
  { apply Hr. unfold with_anchor_classes. rewrite Hp. by constructor. }
  cbv zeta. split; [|split; [done|]].
  - unfold with_anchor_classes. rewrite Hp. simpl in *. by rewrite <-R2.
  - intros ms mono Ht. by apply (empty_frame_sweeps (with_anchor_classes parse c camera true classes true file)).
Qed.
End Registry.

(** ** Signs of conversions *)

(** Not below zero: a NaN, a zero or positive. *)
Definition not_minus (x : spec_float) : bool :=
  match x with S754_nan | S754_zero _ | S754_infinity false | S754_finite false _ _ => true | _ => false end.

Lemma not_minus_flt x : not_minus x = true -> flt x fzero = false.
Proof. by destruct x as [?|[]| |[] ? ?]. Qed.

Lemma round_not_minus prec emax m e : not_minus (binary_round prec emax false m e) = true.
Proof.
  unfold binary_round, binary_round_aux. destruct (shl_align _ _ _) as [mz ez].
  destruct (shr_fexp _ _ _ _ _) as [r1 e1]. destruct (shr_fexp _ _ _ _ _) as [r2 e2].
  destruct (shr_m r2); [done| |done]. by case_match.
Qed.

Lemma digits2_iter_xO p k : digits2_pos (Pos.iter xO p k) = (digits2_pos p + k)%positive.
Proof. induction k as [|k IH] using Pos.peano_ind; [simpl; lia|]. rewrite Pos.iter_succ. simpl. rewrite IH. lia. Qed.

Lemma digits2_small p n : Zpos p < 2 ^ n -> 0 <= n -> Zpos (digits2_pos p) <= n.
Proof.
  revert n. induction p as [p IH|p IH|]; intros n Hp Hn; simpl digits2_pos.
  - assert (n <> 0) by (intros ->; lia). rewrite Pos2Z.inj_succ. specialize (IH (n - 1)).
    assert (2 ^ n = 2 * 2 ^ (n - 1)) as E by (rewrite <-Z.pow_succ_r by lia; f_equal; lia). lia.
  - assert (n <> 0) by (intros ->; lia). rewrite Pos2Z.inj_succ. specialize (IH (n - 1)).
    assert (2 ^ n = 2 * 2 ^ (n - 1)) as E by (rewrite <-Z.pow_succ_r by lia; f_equal; lia). lia.
  - assert (n <> 0) by (intros ->; lia). lia.
Qed.

(** An integer of [prec] bits converts to a positive number. *)
Lemma small_positive prec emax p :
  Zpos p < 2 ^ prec -> 0 < prec -> prec < emax ->
  exists m e, binary_normalize prec emax (Zpos p) 0 false = S754_finite false m e.
Proof.
  intros Hp H0 H1. pose proof (digits2_small p prec Hp ltac:(lia)) as Hd. simpl. unfold binary_round.
  rewrite Z.add_0_r. set (d := digits2_pos p) in *.
  assert (exists m e, shl_align p 0 (fexp prec emax (Zpos d)) = (m, e) /\ fexp prec emax (Zpos (digits2_pos m) + e) = e /\ e <= 0)
    as (m & e & -> & He & Hle).
  { unfold shl_align. rewrite Z.sub_0_r. assert (fexp prec emax (Zpos d) <= 0) as Hf by (unfold fexp, emin; lia).
    destruct (fexp prec emax (Zpos d)) as [|k|k] eqn:E; [|lia|].
    - exists p, 0. split_and!; [done| |done]. by rewrite Z.add_0_r.
    - exists (Pos.iter xO p k), (Zneg k). split_and!; [done| |lia].
      rewrite digits2_iter_xO. replace (Zpos (digits2_pos p + k) + Zneg k) with (Zpos d) by (subst d; lia). done. }
  unfold binary_round_aux, shr_fexp, shr. simpl. rewrite He, Z.sub_diag. simpl. rewrite He, Z.sub_diag. simpl.
  destruct (Z.leb_spec e (emax - prec)); [eauto|lia].
Qed.

Lemma f64_of_u32_positive z : 0 < z <= umax 32 -> exists m e, f64_of_Z z = S754_finite false m e.
Proof.
  intros Hz. destruct z as [|p|p]; [lia| |lia]. apply (small_positive 53 1024 p); [|done|done].
  unfold umax in Hz. lia.
Qed.

(** ** A vehicle that stays where it is *)

Lemma f32_sub_self x : is_finite x = true -> exists s, f32_sub x x = S754_zero s.
Proof.
  destruct x as [s| | |s m e]; try done; intros _; [destruct s; by eexists|].
  exists false. unfold f32_sub, SFsub. by rewrite Z.sub_diag.
Qed.

Lemma dist_self c : finite_point c -> f64_dist_sq c c = fzero.
Proof.
  intros [H1 H2]. unfold f64_dist_sq. destruct (f32_sub_self c.1 H1) as [s1 ->]. destruct (f32_sub_self c.2 H2) as [s2 ->].
  by destruct s1, s2.
Qed.

(** A zero, or the NaN of a configuration that has one. *)
Definition quiet (x : f64) : bool := match x with S754_zero _ | S754_nan => true | _ => false end.

Lemma quiet_ema (a x : f64) : quiet x = true -> quiet (f64_add (f64_mul a fzero) (f64_mul (f64_sub f64_1 a) x)) = true.
Proof.
  intros Hx. destruct x as [[]|?| |]; try done; generalize (f64_sub f64_1 a); intros b;
    destruct a as [[]|[]| |[] ? ?], b as [[]|[]| |[] ? ?]; reflexivity.
Qed.

Lemma quiet_not_significant x z : quiet x = true -> 0 < z <= umax 32 -> fge x (f64_of_Z z) = false.
Proof. intros Hx Hz. destruct (f64_of_u32_positive z Hz) as (m & e & ->). by destruct x as [[]| | |]. Qed.

(** A track that has stood at [p] for [n] turns of the loop. *)
Record parked (p : point) (n : Z) (s : PerTrackState) : Prop := {
  p_center : last_center s = Some p;
  p_quiet : quiet (movement_ema s) = true;
  p_count : Z.min n (umax 32) <= static_frames s <= umax 32;
  p_spot : parked_at s = None \/ parked_at s = Some p;
}.

Definition parked_in (p : point) (n : Z) (t : Z) (states : gmap Z PerTrackState) : Prop :=
  match states !! t with Some s => parked p n s | None => n = 0 end.

(** The numbers of a configuration at their width. *)
Record u32_config (c : StaticObjectConfig) : Prop := {
  u_sig_px : significant_movement_pixels c <= umax 32;
  u_reset : 0 <= track_id_reuse_reset_pixels c;
  u_dwell : forall d, dwell_frames c = Some d -> d <= umax 32;
}.

Lemma round_max1_u32_range x : 1 <= round_max1_u32 x <= umax 32.
Proof. unfold round_max1_u32, umax. destruct x as [|[]| |[] m e]; lia. Qed.

Lemma reset_not_plus z : flt fzero (f64_of_Z z) = true -> flt (f64_of_Z z) fzero = false.
Proof. generalize (f64_of_Z z). intros x. by destruct x as [?|[]| |[] ? ?]. Qed.

Section Parked.
Context (hypot : f32 -> f32 -> f32) (hypot_zero : forall a b, hypot (S754_zero a) (S754_zero b) = fzero).
Context (c : StaticObjectConfig) (Hu : u32_config c) (p : point) (Hp : finite_point p).

Lemma dwell_range r : 1 <= k_dwell (knobs c r) <= umax 32.
Proof.
  unfold knobs. cbn [k_dwell]. pose proof (u_dwell _ Hu) as Hd. destruct (dwell_frames c) as [d|]; simpl default.
  - specialize (Hd d eq_refl). unfold umax in *. lia.
  - pose proof (round_max1_u32_range (f64_div (f32_to_f64 (fmax (dwell_secs c) fzero)) (default DEFAULT_INTERVAL_SECS (interval_secs r)))).
    unfold frames. lia.
Qed.

Lemma count_parked r n s :
  parked p n s -> let k := knobs c r in
  reuse_guard k p s = s /\ parked p (n + 1) (count_step k p s) /\ moving_consecutive_frames (count_step k p s) = 0 /\
  (k_dwell k <= n + 1 -> static_promoted (count_step k p s) = true).
Proof.
  intros [H1 H2 H3 H4] k.
  assert (travel (last_center s) p = fzero) as Ht by (rewrite H1; simpl; by rewrite dist_self).
  assert (reuse_guard k p s = s) as Hg.
  { unfold reuse_guard. rewrite Ht. unfold fgt. simpl. destruct (SFltb fzero _) eqn:E; [|done].
    pose proof (reset_not_plus _ E) as E2. unfold flt in E2. by rewrite E2, andb_false_r. }
  assert (quiet (next_ema k p s) = true) as Hq by (unfold next_ema; rewrite Ht, H1; by apply quiet_ema).
  assert (fge (next_ema k p s) (k_sig_px k) = false) as Hs.
  { apply quiet_not_significant; [done|]. pose proof (u_sig_px _ Hu). unfold umax in *. lia. }
  assert (static_frames (count_step k p s) = usat_add 32 (static_frames s) 1) as Hc by (unfold count_step; by rewrite Hs).
  split; [done|]. split; [|split].
  - constructor; [done|done| |done]. rewrite Hc. unfold usat_add. lia.
  - unfold count_step. by rewrite Hs.
  - intros Hd. unfold count_step. rewrite Hs. unfold usat_add. cbn [static_promoted].
    assert ((k_dwell k <=? Z.min (static_frames s + 1) (umax 32)) = true) as Hle.
    { apply Z.leb_le. pose proof (dwell_range r) as Hr. fold k in Hr. lia. }
    rewrite Hle. apply orb_true_r.
Qed.
(** The first turn of a track. *)
Lemma count_born r :
  let k := knobs c r in
  parked p 1 (count_step k p per_default) /\ moving_consecutive_frames (count_step k p per_default) = 0 /\
  (k_dwell k <= 1 -> static_promoted (count_step k p per_default) = true).
Proof.
  intros k. assert (fge fzero (k_sig_px k) = false) as Hs.
  { apply quiet_not_significant; [done|]. pose proof (u_sig_px _ Hu). unfold umax in *. lia. }
  assert (count_step k p per_default =
    mkPer (Some p) fzero 1 0 (false || (k_dwell k <=? 1)) 0 None None false) as ->.
  { unfold count_step. change (next_ema k p per_default) with fzero. by rewrite Hs. }
  split_and!; [constructor; simpl; auto; unfold umax; lia|done|]. intros Hd. by apply Z.leb_le.
Qed.

(** What follows the counting leaves the track parked. *)
Lemma gate_parked r n ms lc seen s l :
  let k := knobs c r in let s1 := count_step k p (reuse_guard k p s) in
  parked p n s1 -> moving_consecutive_frames s1 = 0 ->
  let '(s', _, _, sup) := object_step hypot k ms lc seen p s l in
  parked p n s' /\ (static_promoted s1 = true -> sup = true).
Proof.
  intros k s1 Hpark Hm. unfold object_step. fold s1. generalize (stood_still k seen p (reuse_guard k p s)). intros still.
  clearbody s1.
  assert (broke_static_gate hypot k p (match_if k l lc p) s1 = false) as ->.
  { unfold broke_static_gate. rewrite Hm. replace (k_sig_frames k <=? 0) with false by (symmetry; apply Z.leb_gt; simpl; lia).
    rewrite orb_false_r. unfold left_its_spot. destruct (p_spot _ _ _ Hpark) as [-> | ->]; [apply andb_false_r|].
    destruct (f32_sub_self p.1) as [a ->]; [apply Hp|]. destruct (f32_sub_self p.2) as [b ->]; [apply Hp|].
    rewrite hypot_zero. apply andb_false_iff. right. apply not_minus_flt.
    unfold k, knobs, k_match_dist, f32_of_Z. destruct (Z.max 1 (match_distance_pixels c)) eqn:E; [done| |lia].
    apply round_not_minus. }
  set (l1 := match match_if k l lc p with Some _ => _ | None => _ end).
  assert (static_promoted s1 = true ->
    (is_some (match_if k l1 lc p) && negb (departed s1) || static_promoted s1) &&
    (moving_consecutive_frames s1 <? k_sig_frames k) = true) as Hsup.
  { intros ->. rewrite Hm, orb_true_r. apply Z.ltb_lt. simpl. lia. }
  destruct (static_promoted s1 && _ && _ && _); [|by split].
  destruct (upsert_anchor l1 lc p (k_match_dist k) ms) as [l2 [at_ mut]]. split; [|done].
  destruct Hpark as [H1 H2 H3 H4]. constructor; try done. right. simpl. by destruct H4 as [-> | ->].
Qed.

Lemma turn_parked r n t ms lc seen states l :
  let k := knobs c r in
  parked_in p n t states -> 0 <= n ->
  let '(s', _, _, sup) := object_step hypot k ms lc seen p (default per_default (states !! t)) l in
  parked p (n + 1) s' /\ (k_dwell k <= n + 1 -> sup = true).
Proof.
  intros k Hin Hn. unfold parked_in in Hin.
  assert (let s1 := count_step k p (reuse_guard k p (default per_default (states !! t))) in
    parked p (n + 1) s1 /\ moving_consecutive_frames s1 = 0 /\ (k_dwell k <= n + 1 -> static_promoted s1 = true))
    as (H1 & H2 & H3).
  { destruct (states !! t) as [s|]; simpl default.
    - destruct (count_parked r n s Hin) as (Hg & H). fold k in Hg, H. by rewrite Hg.
    - subst n. replace (reuse_guard k p per_default) with per_default; [apply count_born|].
      unfold reuse_guard. simpl is_some. by rewrite andb_false_r. }
  pose proof (gate_parked r (n + 1) ms lc seen (default per_default (states !! t)) l H1 H2) as Hg. fold k in Hg.
  destruct (object_step hypot k ms lc seen p _ l) as [[[s' l'] d] sup]. destruct Hg as [Hg1 Hg2]. split; [done|auto].
Qed.

(** The frame's verdicts, object by object. *)
Definition verdict_ok (k : Knobs) (n t : Z) (ob : TrackedObject * bool) : Prop :=
  o_track_id ob.1 = t -> k_dwell k <= n + 1 -> ob.2 = true.

Definition stays (f : StaticObjectFilter) (t : Z) (o : TrackedObject) : Prop :=
  o_track_id o = t -> is_anchor_eligible f (o_label o) = true /\ center (o_bbox o) = p.

Lemma visit_parked f r n t ms o ls :
  let k := knobs c r in
  stays f t o -> 0 <= n -> parked_in p n t ls.1.1 ->
  let '(ls', b) := visit hypot f k ms o ls in
  parked_in p (if decide (o_track_id o = t) then n + 1 else n) t ls'.1.1 /\ verdict_ok k n t (o, b).
Proof.
  intros k Hst Hn Hin. unfold visit. destruct ls as [[states l] dirty]. simpl in Hin.
  destruct (decide (o_track_id o = t)) as [Ht|Ht].
  - destruct (Hst Ht) as [-> ->]. subst t.
    pose proof (turn_parked r n (o_track_id o) ms (to_lowercase (o_label o)) (is_some (detection_bbox o)) states l Hin Hn) as Hp'.
    fold k in Hp'. destruct (object_step _ _ _ _ _ _ _ _) as [[[s' l'] d] sup]. destruct Hp' as [H1 H2].
    split; [unfold parked_in; simpl; by rewrite lookup_insert_eq|by intros _].
  - assert (forall b, verdict_ok k n t (o, b)) as Hother by (intros b E; by destruct Ht).
    destruct (is_anchor_eligible f (o_label o)); [|by split].
    destruct (object_step _ _ _ _ _ _ _ _) as [[[s' l'] d] sup].
    split; [unfold parked_in; simpl; by rewrite lookup_insert_ne|done].
Qed.

Lemma visit_all_parked f r t ms os n ls :
  let k := knobs c r in
  Forall (stays f t) os -> 0 <= n -> parked_in p n t ls.1.1 ->
  let '(ls', bs) := visit_all hypot f k ms os ls in
  (exists m, n <= m /\ (Exists (fun o => o_track_id o = t) os -> n + 1 <= m) /\ parked_in p m t ls'.1.1) /\
  Forall (verdict_ok k n t) (zip os bs).
Proof.
  intros k. revert n ls. induction os as [|o os IH]; intros n ls Hst Hn Hin; simpl.
  { split; [|constructor]. exists n. split_and!; [lia|by intros ?%Exists_nil|done]. }
  apply Forall_cons in Hst as [Ho Hst]. pose proof (visit_parked f r n t ms o ls Ho Hn Hin) as Hv. fold k in Hv.
  destruct (visit hypot f k ms o ls) as [ls1 b]. destruct Hv as [Hv1 Hv2].
  set (n1 := if decide (o_track_id o = t) then n + 1 else n) in *.
  assert (n <= n1 /\ (o_track_id o = t -> n + 1 <= n1)) as [Hn1 Hn2] by (subst n1; case_decide; split; done || lia).
  specialize (IH n1 ls1 Hst ltac:(lia) Hv1).
  destruct (visit_all hypot f k ms os ls1) as [ls2 bs]. destruct IH as [(m & Hm1 & Hm2 & Hm3) Hv3].
  split.
  - exists m. split_and!; [lia| |done]. intros [He|He]%Exists_cons; [specialize (Hn2 He); lia|].
    specialize (Hm2 He). lia.
  - constructor; [done|]. eapply Forall_impl; [exact Hv3|]. intros [o' b']. unfold verdict_ok. simpl.
    intros H Ht Hd. apply H; [done|lia].
Qed.
End Parked.

Lemma lookup_with_attribute k v o j :
  attributes (with_attribute k v o) !! j = if decide (k = j) then Some v else attributes o !! j.
Proof. unfold with_attribute. simpl. destruct (decide (k = j)) as [<-|Hne]; [by rewrite lookup_insert_eq|by rewrite lookup_insert_ne]. Qed.

Lemma static_stamp f states o b : is_object_static (stamp f states o b) = b || is_object_static o.
Proof.
  unfold stamp. set (o1 := if b then _ else o).
  assert (is_object_static o1 = b || is_object_static o) as <-.
  { subst o1. destruct b; [|done]. unfold is_object_static. by rewrite lookup_with_attribute, decide_True. }
  destruct (is_anchor_eligible f (o_label o1)); [|done]. destruct (states !! o_track_id o1) as [s|]; [|done].
  unfold is_object_static. rewrite !lookup_with_attribute, !decide_False by done.
  destruct (is_finite (movement_ema s)); [|done]. by rewrite lookup_with_attribute, decide_False.
Qed.

Lemma stamp_track f states o b : o_track_id (stamp f states o b) = o_track_id o.
Proof. unfold stamp. destruct b; simpl; repeat case_match; reflexivity. Qed.

(** ** Runs of frames *)

Lemma eligible_same f f' label :
  cfg f' = cfg f -> extra_anchor_classes f' = extra_anchor_classes f -> is_anchor_eligible f' label = is_anchor_eligible f label.
Proof. unfold is_anchor_eligible. by intros -> ->. Qed.

Section Runs.
Context (hypot : f32 -> f32 -> f32) (print : RegistryFile -> list Z).

(** What the calls of a run do not change. *)
Definition same_settings (f f' : StaticObjectFilter) : Prop :=
  cfg f' = cfg f /\ extra_anchor_classes f' = extra_anchor_classes f.

Lemma step_settings o s : same_settings s.1 (filter_step hypot print o s).1.1.
Proof.
  destruct o as [saves ms mono objects|removed]; [|by split].
  pose proof (classify_keeps hypot print saves ms mono objects s.1 s.2) as (H1 & _ & _ & H2 & _). by split.
Qed.

Lemma run_settings ops s : same_settings s.1 (mrun (H:=filter_machine hypot print) ops s).1.1.
Proof.
  apply (mrun_invariant (H:=filter_machine hypot print) (fun _ => True) (fun s' => same_settings s.1 s'.1)); [|by apply Forall_forall|by split].
  intros o s' _ [H1 H2]. destruct (step_settings o s') as [H3 H4]. split; etransitivity; eauto.
Qed.

(** A call that shows track [t], always at [p], as an object the filter looks at. *)
Definition stays_put (f : StaticObjectFilter) (t : Z) (p : point) (o : Op) : Prop :=
  match o with
  | Classify _ _ _ objects => Exists (fun o => o_track_id o = t) objects /\ Forall (stays p f t) objects
  | Clear _ => False
  end.

Lemma stays_same f f' t p o : same_settings f f' -> stays p f t o -> stays p f' t o.
Proof. intros [H1 H2] H Ht. rewrite (eligible_same f f'); auto. Qed.

Context (hypot_zero : forall a b, hypot (S754_zero a) (S754_zero b) = fzero).

Lemma call_parked saves ms mono objects f file t p n :
  u32_config (cfg f) -> finite_point p -> Forall (stays p f t) objects -> 0 <= n -> parked_in p n t (state_by_track f) ->
  let r := classify hypot print saves ms mono objects f file in
  (exists m, n <= m /\ (Exists (fun o => o_track_id o = t) objects -> n + 1 <= m) /\ parked_in p m t (state_by_track r.1.1)) /\
  (k_dwell (frame_knobs mono f) <= n + 1 -> Forall (fun o => o_track_id o = t -> is_object_static o = true) r.2).
Proof.
  intros Hu Hp Hst Hn Hin r.
  pose proof (classify_keeps hypot print saves ms mono objects f file) as (_ & _ & _ & _ & _ & Hs & _).
  destruct (classify_cases hypot print saves ms mono objects f file) as [Ho _]. fold r in Hs, Ho.
  pose proof (visit_all_parked hypot hypot_zero (cfg f) Hu p Hp f (observe_at mono (rate f)) t ms objects n
    (state_by_track f, anchors f, false) Hst Hn Hin) as Hv.
  fold (frame_knobs mono f) in Hv. fold (visited hypot ms mono objects f) in Hv.
  destruct (visited hypot ms mono objects f) as [ls' bs]. destruct Hv as [Hv1 Hv2]. simpl in Hs, Ho.
  split; [by rewrite Hs|]. intros Hd. rewrite Ho. clear - Hv2 Hd.
  revert bs Hv2. induction objects as [|o objects IH]; intros [|b bs] Hv2; simpl; try constructor.
  - apply Forall_cons in Hv2 as [Hb _]. rewrite stamp_track, static_stamp. intros Ht. pose proof (Hb Ht Hd) as E. simpl in E. by rewrite E.
  - apply Forall_cons in Hv2 as [_ Hv2]. by apply IH.
Qed.

Lemma run_parked ops f file t p n :
  u32_config (cfg f) -> finite_point p -> Forall (stays_put f t p) ops -> 0 <= n -> parked_in p n t (state_by_track f) ->
  exists m, n + zlength ops <= m /\ parked_in p m t (state_by_track (mrun (H:=filter_machine hypot print) ops (f, file)).1.1).
Proof.
  revert f file n. induction ops as [|o ops IH]; intros f file n Hu Hp Hst Hn Hin.
  { exists n. unfold zlength. simpl. split; [lia|done]. }
  apply Forall_cons in Hst as [Ho Hst]. destruct o as [saves ms mono objects|]; [|done]. destruct Ho as [Hex Ho].
  destruct (call_parked saves ms mono objects f file t p n Hu Hp Ho Hn Hin) as [(m & _ & Hm & Hin') _].
  specialize (Hm Hex). rewrite mrun_cons. simpl.
  pose proof (step_settings (Classify saves ms mono objects) (f, file)) as Hs.
  change (mstep (Machine:=filter_machine hypot print) (Classify saves ms mono objects) (f, file)) with
    (classify hypot print saves ms mono objects f file).
  change (filter_step hypot print (Classify saves ms mono objects) (f, file)) with
    (classify hypot print saves ms mono objects f file) in Hs.
  destruct (classify hypot print saves ms mono objects f file) as [[f' file'] out]. simpl in *.
  destruct (IH f' file' m) as (m' & H1 & H2); [by rewrite (proj1 Hs)|done| |lia|done|].
  { eapply Forall_impl; [exact Hst|]. intros [? ? ? os|]; [|done]. intros [He Hf]. split; [done|].
    eapply Forall_impl; [exact Hf|]. intros o. by apply stays_same. }
  exists m'. split; [|done]. unfold zlength in *. simpl length. lia.
Qed.

(** A parked vehicle stops alerting: a track that the filter does not know yet, of a class it
    looks at, and that every frame shows at the same place, is marked as static from the frame on
    that completes the dwell ([dwell_frames], or [dwell_secs] at the rate measured by then), whatever
    else is in the frames, whatever the registry holds and however often the disk fails. *)
Lemma parked_vehicle_is_hidden f file ops saves ms mono objects t p :
  u32_config (cfg f) -> finite_point p -> state_by_track f !! t = None ->
  Forall (stays_put f t p) (ops ++ [Classify saves ms mono objects]) ->
  let s := (mrun (H:=filter_machine hypot print) ops (f, file)).1 in
  k_dwell (frame_knobs mono s.1) <= zlength ops + 1 ->
  Forall (fun o => o_track_id o = t -> is_object_static o = true)
    (classify hypot print saves ms mono objects s.1 s.2).2.
Proof.
  intros Hu Hp Hnone [Hst [[_ Hlast] _]%Forall_cons]%Forall_app s Hd.
  destruct (run_parked ops f file t p 0 Hu Hp Hst ltac:(lia)) as (m & Hm & Hin).
  { unfold parked_in. by rewrite Hnone. }
  pose proof (run_settings ops (f, file)) as Hs. fold s in Hs, Hin. simpl in Hs.
  assert (0 <= m) as H0 by (unfold zlength in Hm; lia).
  destruct (call_parked saves ms mono objects s.1 s.2 t p m) as [_ H]; try done; [by rewrite (proj1 Hs)| |].
  - eapply Forall_impl; [exact Hlast|]. intros o. by apply stays_same.
  - apply H. lia.
Qed.
End Runs.

(** ** What a call reports *)

Definition STAMPS : list string :=
  [STATIC_ATTRIBUTE_KEY; EMA_ATTRIBUTE_KEY; STATIC_FRAMES_ATTRIBUTE_KEY; MOVING_FRAMES_ATTRIBUTE_KEY; ALERT_EPOCH_ATTRIBUTE_KEY].

(** What the caller sees of object [o]. *)
Record reported (f' : StaticObjectFilter) (o o' : TrackedObject) : Prop := {
  rp_same : FramePath.same_but_attributes o o';
  rp_others : forall key, key ∉ STAMPS -> attributes o' !! key = attributes o !! key;
  rp_static : is_object_static o' = true -> is_object_static o = true \/ is_anchor_eligible f' (o_label o) = true;
  rp_epoch : is_anchor_eligible f' (o_label o) = true ->
    attributes o' !! ALERT_EPOCH_ATTRIBUTE_KEY = Some (JInt (epoch_of (state_by_track f') (o_track_id o)));
}.

Lemma with_attribute_same k v o0 o :
  FramePath.same_but_attributes o0 o -> FramePath.same_but_attributes o0 (with_attribute k v o).
Proof. done. Qed.

Lemma stamp_same f states o b : FramePath.same_but_attributes o (stamp f states o b).
Proof.
  assert (FramePath.same_but_attributes o o) as H by (by destruct o).
  unfold stamp. destruct b; repeat case_match; auto using with_attribute_same.
Qed.

Lemma stamp_others f states o b key : key ∉ STAMPS -> attributes (stamp f states o b) !! key = attributes o !! key.
Proof.
  intros Hk. assert (forall j v o, j ∈ STAMPS -> attributes (with_attribute j v o) !! key = attributes o !! key) as H.
  { intros j v o1 Hj. rewrite lookup_with_attribute, decide_False; [done|]. by intros ->. }
  unfold stamp. destruct b; repeat case_match; rewrite ?H by (unfold STAMPS; rewrite !elem_of_cons; tauto); done.
Qed.

Lemma stamp_epoch f states o b s :
  is_anchor_eligible f (o_label o) = true -> states !! o_track_id o = Some s ->
  attributes (stamp f states o b) !! ALERT_EPOCH_ATTRIBUTE_KEY = Some (JInt (alert_epoch s)).
Proof.
  intros He Hs. unfold stamp. set (o1 := if b then _ else o).
  assert (o_label o1 = o_label o /\ o_track_id o1 = o_track_id o) as [-> ->] by (subst o1; by destruct b).
  rewrite He, Hs. by rewrite lookup_with_attribute, decide_True.
Qed.

Definition state_grows (states states' : gmap Z PerTrackState) : Prop :=
  forall t, is_Some (states !! t) -> is_Some (states' !! t).

Lemma visit_grounds hypot f k ms o ls :
  let '(ls', b) := visit hypot f k ms o ls in
  state_grows ls.1.1 ls'.1.1 /\ (b = true -> is_anchor_eligible f (o_label o) = true) /\
  (is_anchor_eligible f (o_label o) = true -> is_Some (ls'.1.1 !! o_track_id o)).
Proof.
  unfold visit. destruct (is_anchor_eligible f (o_label o)); [|simpl; split_and!; [by intros t|done|done]].
  destruct ls as [[states l] dirty]. destruct (object_step _ _ _ _ _ _ _ _) as [[[s' l'] d] sup].
  split_and!; [|done|intros _; simpl; by rewrite lookup_insert_eq].
  intros t Ht. simpl. destruct (decide (o_track_id o = t)) as [<-|Hne]; [by rewrite lookup_insert_eq|by rewrite lookup_insert_ne].
Qed.

Lemma visit_all_grounds hypot f k ms os ls :
  let '(ls', bs) := visit_all hypot f k ms os ls in
  state_grows ls.1.1 ls'.1.1 /\
  Forall2 (fun o b => (b = true -> is_anchor_eligible f (o_label o) = true) /\
    (is_anchor_eligible f (o_label o) = true -> is_Some (ls'.1.1 !! o_track_id o))) os bs.
Proof.
  revert ls. induction os as [|o os IH]; intros ls; simpl; [split; [by intros t|constructor]|].
  pose proof (visit_grounds hypot f k ms o ls) as Hv. destruct (visit hypot f k ms o ls) as [ls1 b].
  destruct Hv as (H1 & H2 & H3). specialize (IH ls1). destruct (visit_all hypot f k ms os ls1) as [ls2 bs].
  destruct IH as [I1 I2]. split; [intros t Ht; auto|]. constructor; [|done]. split; [done|auto].
Qed.

Lemma sat_sub_young ms ttl a : too_old ms ttl a = false ->
  exists t, last_seen_unix_ms (stamp_unseen ms a) = Some t /\ i64_sat_sub ms t <= ttl.
Proof. unfold too_old. intros H%Z.ltb_ge. eexists. split; [reflexivity|exact H]. Qed.

(** A frame and its report. Objects keep their order and everything but the five attributes of
    the filter; only objects of the classes it looks at are marked as static; every such object
    carries its track's alert epoch, and epochs never fall. An anchor that is left was there
    before, at the very same place, or was placed where an object of its class, seen by the detector, stands on this
    frame; and with a time to live none is left that was last seen longer ago than that. *)
Lemma frame_report_is_faithful hypot print saves ms mono objects f file :
  epochs_fit (state_by_track f) ->
  let '(f', file', out) := classify hypot print saves ms mono objects f file in
  Forall2 (reported f') objects out /\
  (epochs_fit (state_by_track f') /\ forall t, epoch_of (state_by_track f) t <= epoch_of (state_by_track f') t) /\
  (forall a, a ∈ anchors f' -> (exists a0, a0 ∈ anchors f /\ spot a0 = spot a) \/
    exists o, o ∈ objects /\ is_anchor_eligible f (o_label o) = true /\ is_Some (detection_bbox o) /\
      spot a = (to_lowercase (o_label o), center (o_bbox o))) /\
  (persistence_enabled (cfg f) = true -> 0 < anchor_ttl_secs (cfg f) -> forall a, a ∈ anchors f' ->
    exists t, last_seen_unix_ms a = Some t /\ i64_sat_sub ms t <= anchor_ttl_secs (cfg f) * 1000).
Proof.
  intros Hfit.
  pose proof (classify_keeps hypot print saves ms mono objects f file) as (K1 & _ & _ & K4 & _ & K6 & K7).
  destruct (classify_cases hypot print saves ms mono objects f file) as [Ho Hc].
  pose proof (frame_ok_all hypot f (frame_knobs mono f) ms objects (state_by_track f, anchors f, false)) as [_ _ F3 F4].
  pose proof (visit_all_grounds hypot f (frame_knobs mono f) ms objects (state_by_track f, anchors f, false)) as Hg.
  fold (visited hypot ms mono objects f) in F3, F4, Hg. specialize (F4 Hfit).
  destruct (classify hypot print saves ms mono objects f file) as [[f' file'] out].
  destruct (visited hypot ms mono objects f) as [[[states l] dirty] bs]. destruct Hg as [_ Hg]. simpl in *. subst out.
  split_and!; try (rewrite K6; apply F4).
  - clear - Hg K1 K4 K6. induction Hg as [|o b os bs [H1 H2] Hg IH]; simpl; constructor; [|done].
    assert (is_anchor_eligible f' (o_label o) = is_anchor_eligible f (o_label o)) as E by (by apply eligible_same).
    constructor; [apply stamp_same|intros key; apply stamp_others| |].
    + rewrite static_stamp, E. intros [->|H]%orb_true_iff; auto.
    + rewrite E, K6. intros He. destruct (H2 He) as [s Hs]. rewrite (stamp_epoch _ _ _ _ s He Hs). unfold epoch_of. by rewrite Hs.
  - intros a (a0 & H0 & E0)%K7. destruct (F3 a0 H0) as [(a1 & H1 & E1)|(_ & o & H1 & H2 & H3 & H4)].
    + left. exists a1. split; [done|congruence].
    + right. exists o. split_and!; try done. congruence.
  - intros Hp Ht a Ha. rewrite Hp in Hc. replace (0 <? anchor_ttl_secs (cfg f)) with true in Hc by (symmetry; by apply Z.ltb_lt).
    simpl in Hc. injection Hc as Hf' _. rewrite Hf' in Ha. simpl in Ha.
    apply (elem_of_sweep ms (anchor_ttl_secs (cfg f) * 1000) l) in Ha as (a0 & _ & Hold & ->). by apply sat_sub_young.
Qed.

(** ** A vehicle that drives *)

Lemma object_step_counters hypot k ms lc seen c s l :
  let s1 := count_step k c (reuse_guard k c s) in
  let '(s', _, _, sup) := object_step hypot k ms lc seen c s l in
  movement_ema s' = movement_ema s1 /\ moving_consecutive_frames s' = moving_consecutive_frames s1 /\
  (k_sig_frames k <= moving_consecutive_frames s1 -> sup = false).
Proof.
  intros s1. unfold object_step. fold s1. generalize (stood_still k seen c (reuse_guard k c s)). intros still. clearbody s1.
  set (gate := if broke_static_gate hypot k c (match_if k l lc c) s1 then _ else _).
  assert (movement_ema gate.1.1 = movement_ema s1 /\ moving_consecutive_frames gate.1.1 = moving_consecutive_frames s1) as [G1 G2]
    by (subst gate; destruct (broke_static_gate hypot k c (match_if k l lc c) s1); by split).
  destruct gate as [[s2 l2] d]. simpl in G1, G2.
  assert (k_sig_frames k <= moving_consecutive_frames s1 -> forall b, b && (moving_consecutive_frames s2 <? k_sig_frames k) = false) as Hs.
  { intros H b. apply andb_false_iff. right. apply Z.ltb_ge. lia. }
  destruct (static_promoted s2 && _ && _ && _); [destruct (upsert_anchor _ _ _ _ _) as [l3 [at_ mut]]|]; simpl; split_and!; auto.
Qed.

(** A track whose movement was significant on its last [n] frames. *)
Definition driving (n t : Z) (states : gmap Z PerTrackState) : Prop :=
  Z.min n (umax 32) <= moving_consecutive_frames (default per_default (states !! t)).

Lemma significant_counts c r p s n :
  u32_config c -> let k := knobs c r in
  Z.min n (umax 32) <= moving_consecutive_frames s ->
  fge (movement_ema (count_step k p (reuse_guard k p s))) (k_sig_px k) = true ->
  Z.min (n + 1) (umax 32) <= moving_consecutive_frames (count_step k p (reuse_guard k p s)).
Proof.
  intros Hu k Hn Hs. unfold count_step in *. cbn [movement_ema moving_consecutive_frames] in *. rewrite Hs.
  assert (reuse_guard k p s = s) as ->; [|unfold usat_add; lia].
  unfold reuse_guard in *. destruct (fgt (k_reset_px k) fzero && is_some (last_center s) && fgt (travel (last_center s) p) (k_reset_px k)); [|done].
  exfalso. pose proof (u_sig_px _ Hu) as Hpx.
  assert (0 < Z.max 1 (significant_movement_pixels c) <= umax 32) as Hz by (unfold umax in *; lia).
  pose proof (quiet_not_significant fzero _ eq_refl Hz) as Hq. unfold k, knobs in Hs. cbn [k_sig_px] in Hs.
  change (next_ema _ _ _) with fzero in Hs. congruence.
Qed.

(** A call that shows track [t] once, as an object the filter looks at, and leaves its movement
    average at the significant-movement threshold or above. *)
Definition drives (f f' : StaticObjectFilter) (t : Z) (objects : list TrackedObject) : Prop :=
  NoDup (o_track_id <$> objects) /\
  (exists o, o ∈ objects /\ o_track_id o = t /\ is_anchor_eligible f (o_label o) = true) /\
  fge (movement_ema (default per_default (state_by_track f' !! t)))
    (f64_of_Z (Z.max 1 (significant_movement_pixels (cfg f)))) = true.

Lemma visit_other hypot f k ms o ls t : o_track_id o <> t -> (visit hypot f k ms o ls).1.1.1 !! t = ls.1.1 !! t.
Proof.
  intros Hne. unfold visit. destruct (is_anchor_eligible f (o_label o)); [|done]. destruct ls as [[states l] dirty].
  destruct (object_step _ _ _ _ _ _ _ _) as [[[s' l'] d] sup]. simpl. by rewrite lookup_insert_ne.
Qed.

Lemma visit_all_other hypot f k ms os ls t :
  t ∉ o_track_id <$> os -> (visit_all hypot f k ms os ls).1.1.1 !! t = ls.1.1 !! t.
Proof.
  revert ls. induction os as [|o os IH]; intros ls Ht; [done|]. simpl in *. apply not_elem_of_cons in Ht as [H1 H2].
  pose proof (visit_other hypot f k ms o ls t (not_eq_sym H1)) as Hv. destruct (visit hypot f k ms o ls) as [ls1 b].
  specialize (IH ls1 H2). destruct (visit_all hypot f k ms os ls1) as [ls2 bs]. simpl in *. by rewrite IH.
Qed.

Lemma visit_all_driving hypot f r ms os ls n o i :
  u32_config (cfg f) -> let k := knobs (cfg f) r in
  NoDup (o_track_id <$> os) -> os !! i = Some o -> is_anchor_eligible f (o_label o) = true ->
  driving n (o_track_id o) ls.1.1 ->
  let v := visit_all hypot f k ms os ls in
  fge (movement_ema (default per_default (v.1.1.1 !! o_track_id o))) (k_sig_px k) = true ->
  driving (n + 1) (o_track_id o) v.1.1.1 /\
  (k_sig_frames k <= Z.min (n + 1) (umax 32) -> v.2 !! i = Some false).
Proof.
  intros Hu k. revert i ls. induction os as [|o' os IH]; intros i ls Hnd Hi He Hn; [done|]. simpl.
  simpl in Hnd. apply NoDup_cons in Hnd as [Hni Hnd]. destruct i as [|i]; simpl in Hi.
  - injection Hi as ->. unfold visit. rewrite He. destruct ls as [[states l] dirty]. simpl in Hn.
    set (p := center (o_bbox o)). set (s0 := default per_default (states !! o_track_id o)).
    pose proof (object_step_counters hypot k ms (to_lowercase (o_label o)) (is_some (detection_bbox o)) p s0 l) as Hc.
    destruct (object_step _ _ _ _ _ _ _ _) as [[[s' l'] d] sup]. destruct Hc as (C1 & C2 & C3).
    pose proof (visit_all_other hypot f k ms os (<[o_track_id o := s']> states, l', dirty || d) (o_track_id o) Hni) as Hv.
    destruct (visit_all hypot f k ms os _) as [ls2 bs]. simpl in Hv |- *. rewrite lookup_insert_eq in Hv.
    unfold driving. rewrite Hv. simpl default. rewrite C1, C2. intros Hs.
    pose proof (significant_counts (cfg f) r p s0 n Hu Hn Hs) as H. fold k in H. split; [done|]. intros Hk. f_equal. apply C3. exact (Z.le_trans _ _ _ Hk H).
  - assert (o_track_id o' <> o_track_id o) as Hne.
    { intros E. apply Hni. rewrite E. apply list_elem_of_fmap. exists o. split; [done|by eapply list_elem_of_lookup_2]. }
    pose proof (visit_other hypot f k ms o' ls (o_track_id o) Hne) as Hv. destruct (visit hypot f k ms o' ls) as [ls1 b].
    specialize (IH i ls1 Hnd Hi He). destruct (visit_all hypot f k ms os ls1) as [ls2 bs]. simpl in *.
    intros Hs. apply IH; [|done]. unfold driving in *. by rewrite Hv.
Qed.

Section Driving.
Context (hypot : f32 -> f32 -> f32) (print : RegistryFile -> list Z).

(** Every call of the run shows track [t] driving. *)
Fixpoint drives_through (t : Z) (ops : list Op) (s : StaticObjectFilter * File) : Prop :=
  match ops with
  | [] => True
  | Classify saves ms mono objects :: ops' =>
      let s' := (classify hypot print saves ms mono objects s.1 s.2).1 in
      drives s.1 s'.1 t objects /\ drives_through t ops' s'
  | Clear _ :: _ => False
  end.

Lemma one_of_track (os : list TrackedObject) t i o o0 :
  NoDup (o_track_id <$> os) -> os !! i = Some o -> o_track_id o = t -> o0 ∈ os -> o_track_id o0 = t -> o = o0.
Proof.
  intros Hnd Hi <- [j Hj]%list_elem_of_lookup Hj'.
  assert (i = j) as <-; [|congruence].
  eapply (NoDup_lookup _ i j (o_track_id o) Hnd); rewrite list_lookup_fmap; [by rewrite Hi|rewrite Hj; simpl; by f_equal].
Qed.

Lemma call_driving saves ms mono objects f file t n :
  u32_config (cfg f) -> driving n t (state_by_track f) ->
  let r := classify hypot print saves ms mono objects f file in
  drives f r.1.1 t objects ->
  driving (n + 1) t (state_by_track r.1.1) /\
  (Z.max 1 (significant_movement_frames (cfg f)) <= Z.min (n + 1) (umax 32) ->
    forall i o o', objects !! i = Some o -> o_track_id o = t -> r.2 !! i = Some o' -> is_object_static o' = is_object_static o).
Proof.
  intros Hu Hn r (Hnd & (o & Hin & Ht & He) & Hs). subst t. pose proof Hin as [i Hi]%list_elem_of_lookup.
  pose proof (classify_keeps hypot print saves ms mono objects f file) as (_ & _ & _ & _ & _ & Hst & _). fold r in Hst.
  destruct (classify_cases hypot print saves ms mono objects f file) as [Ho _]. fold r in Ho.
  pose proof (visit_all_driving hypot f (observe_at mono (rate f)) ms objects (state_by_track f, anchors f, false) n o i Hu Hnd Hi He Hn)
    as Hv. cbv zeta in Hv. fold (frame_knobs mono f) in Hv. fold (visited hypot ms mono objects f) in Hv.
  rewrite Hst in Hs |- *. destruct (Hv Hs) as [H1 H2]. split; [done|]. intros Hk j o1 o' Hj Ht Hout.
  assert (o1 = o) as -> by (by eapply one_of_track). specialize (H2 Hk).
  assert (j = i) as ->.
  { eapply (NoDup_lookup _ j i (o_track_id o) Hnd); rewrite list_lookup_fmap; [by rewrite Hj|by rewrite Hi]. }
  rewrite Ho, lookup_zip_with, Hi in Hout. simpl in Hout. rewrite H2 in Hout. injection Hout as <-. by rewrite static_stamp.
Qed.

Lemma run_driving ops f file t n :
  u32_config (cfg f) -> 0 <= n -> driving n t (state_by_track f) -> drives_through t ops (f, file) ->
  driving (n + zlength ops) t (state_by_track (mrun (H:=filter_machine hypot print) ops (f, file)).1.1).
Proof.
  revert f file n. induction ops as [|o ops IH]; intros f file n Hu Hn Hd Hr.
  { unfold zlength. simpl. by rewrite Z.add_0_r. }
  destruct o as [saves ms mono objects|]; [|done]. destruct Hr as [Hr1 Hr2]. simpl in Hr1, Hr2.
  destruct (call_driving saves ms mono objects f file t n Hu Hd Hr1) as [Hd' _].
  pose proof (classify_keeps hypot print saves ms mono objects f file) as (Hc & _). rewrite mrun_cons. simpl.
  change (mstep (Machine:=filter_machine hypot print) (Classify saves ms mono objects) (f, file)) with
    (classify hypot print saves ms mono objects f file).
  destruct (classify hypot print saves ms mono objects f file) as [[f' file'] out]. simpl in *.
  replace (n + zlength (Classify saves ms mono objects :: ops)) with (n + 1 + zlength ops) by (unfold zlength; simpl length; lia).
  apply IH; [by rewrite Hc|lia|done|done].
Qed.

(** A vehicle that drives is shown: when its movement average reached the threshold on each of the
    last [significant_movement_frames] frames, the filter does not mark its object as static,
    whatever the track was before (promoted, close to an anchor, another vehicle's id). *)
Lemma driving_vehicle_is_shown f file ops saves ms mono objects t i o o' :
  u32_config (cfg f) -> significant_movement_frames (cfg f) <= umax 32 ->
  0 <= moving_consecutive_frames (default per_default (state_by_track f !! t)) ->
  drives_through t (ops ++ [Classify saves ms mono objects]) (f, file) ->
  significant_movement_frames (cfg f) <= zlength ops + 1 ->
  let s := (mrun (H:=filter_machine hypot print) ops (f, file)).1 in
  objects !! i = Some o -> o_track_id o = t ->
  (classify hypot print saves ms mono objects s.1 s.2).2 !! i = Some o' ->
  is_object_static o' = is_object_static o.
Proof.
  intros Hu H32 H0 Hr Hlen s Hi Ht Ho'.
  assert (drives_through t ops (f, file) /\
    drives s.1 (classify hypot print saves ms mono objects s.1 s.2).1.1 t objects) as [Hr1 Hr2].
  { subst s. clear - Hr. revert Hr. generalize (f, file). induction ops as [|op ops IH]; intros s Hr; [by destruct Hr|].
    destruct op as [saves' ms' mono' objects'|]; [|done]. destruct Hr as [H1 H2].
    destruct (IH _ H2) as [I1 I2]. rewrite mrun_cons. split; [done|exact I2]. }
  pose proof (run_driving ops f file t 0 Hu ltac:(lia) H0 Hr1) as Hd. fold s in Hd.
  pose proof (run_settings hypot print ops (f, file)) as [Hc _]. fold s in Hc. simpl in Hc.
  destruct (call_driving saves ms mono objects s.1 s.2 t (0 + zlength ops)) as [_ H]; [by rewrite Hc|done|done|].
  eapply (H ltac:(rewrite Hc; unfold zlength in *; unfold umax in *; lia) i); done.
Qed.
End Driving.

(** ** A car in the lot *)

#[export] Instance spec_float_eq_dec : EqDecision spec_float.
Proof. solve_decision. Defined.

#[export] Instance spec_float_countable : Countable spec_float.
Proof.
  apply (inj_countable'
    (fun x => match x with S754_zero s => inl (inl s) | S754_infinity s => inl (inr s) | S754_nan => inr None
                         | S754_finite s m e => inr (Some (s, m, e)) end : (bool + bool) + option (bool * positive * Z))
    (fun y => match y with inl (inl s) => S754_zero s | inl (inr s) => S754_infinity s | inr None => S754_nan
                         | inr (Some (s, m, e)) => S754_finite s m e end)).
  by intros [].
Defined.

#[export] Instance anchor_eq_dec : EqDecision StaticAnchor.
Proof. unfold f32. solve_decision. Defined.

#[export] Instance anchor_countable : Countable StaticAnchor.
Proof.
  apply (inj_countable' (fun a => (a_label a, center_x a : spec_float, center_y a : spec_float, last_seen_unix_ms a))
    (fun '(l, x, y, t) => mkAnchor l x y t)). by intros [].
Defined.

#[export] Instance registry_eq_dec : EqDecision RegistryFile.
Proof. solve_decision. Defined.

#[export] Instance registry_countable : Countable RegistryFile.
Proof. apply (inj_countable' (fun r => (version r, file_camera_id r, file_anchors r)) (fun '(v, c, l) => mkRegistry v c l)). by intros []. Defined.

(** A file format: one number. *)
Definition demo_print (d : RegistryFile) : list Z := [Zpos (encode d)].
Definition demo_parse (b : list Z) : option RegistryFile :=
  match b with [Zpos p] => decode p | _ => None end.

Lemma demo_parse_print d : demo_parse (demo_print d) = Some d.
Proof. apply decode_encode. Qed.

Definition demo_config : StaticObjectConfig :=
  mkConfig (Some 3) (f32_of_Z 5) false 36 3 (flit 11744051 (-25)) 40 60 true 3600.

Definition demo_hypot (a b : f32) : f32 := fmax (SFabs a) (SFabs b).

Definition demo_car (x : Z) : TrackedObject :=
  let b := mkBBox (f32_of_Z x) (f32_of_Z 100) (f32_of_Z (x + 80)) (f32_of_Z 160) in
  mkObject 7 "Car" (f32_of_Z 1) b (Some b) 1 1000 ∅.

Definition call (i x : Z) : Op := Classify (Written, Written) (i * 500) (secs i / 2) [demo_car x].

Definition demo_new (file : File) : StaticObjectFilter := with_anchor_classes demo_parse demo_config 1 true [] true file.

Definition demo_start : StaticObjectFilter * File := (demo_new None, None).
Definition demo_run (ops : list Op) : StaticObjectFilter * File :=
  (mrun (H:=filter_machine demo_hypot demo_print) ops demo_start).1.
Definition demo_parking : list Op := [call 1 100; call 2 100; call 3 100; call 4 100].

Example the_car_is_anchored :
  (fun a => (a_label a, last_seen_unix_ms a)) <$> anchors (demo_run demo_parking).1 = [("car", Some 2000)].
Proof. vm_compute. reflexivity. Qed.

Lemma demo_u32 : u32_config demo_config.
Proof. by constructor; [vm_compute|vm_compute|intros d [= <-]; vm_compute]. Defined.

Lemma registry_file_holds_the_anchors_witness :
  let '(f, file) := demo_run demo_parking in
  spot <$> anchors (demo_new file) = spot <$> anchors f /\ length (anchors f) = 1%nat.
Proof.
  pose proof (registry_file_holds_the_anchors demo_hypot demo_print demo_parse (fun d _ => demo_parse_print d)
    demo_config 1 [] None demo_parking eq_refl (fun _ => eq_refl) ltac:(intros a Ha; by apply elem_of_nil in Ha)
    ltac:(repeat constructor)) as H.
  assert (length (anchors (demo_run demo_parking).1) = 1%nat) as Hl by (vm_compute; reflexivity).
  unfold demo_run, demo_start, demo_new in *.
  destruct (mrun (H:=filter_machine demo_hypot demo_print) demo_parking _) as [[f file] outs]. simpl in *.
  destruct H as [H _]. by split.
Defined.

(** A car that has stood for more than the hour an anchor lives, and is seen standing there all along: the
    running filter has its anchor from the latest frame, the file from the first. The restarted filter
    sweeps it on its first frame, with the car in plain sight. *)
Example a_long_parked_car_is_forgotten :
  let '(f, file) := demo_run (demo_parking ++ [call 4000 100; call 7600 100]) in
  let again := demo_new file in
  let r := classify demo_hypot demo_print (Written, Written) 3800500 (secs 1) [demo_car 100] again file in
  last_seen_unix_ms <$> anchors f = [Some 3800000] /\ last_seen_unix_ms <$> anchors again = [Some 1500] /\ anchors r.1.1 = [].
Proof. vm_compute. by split_and!. Qed.

Lemma parked_vehicle_is_hidden_witness :
  Forall (fun o => o_track_id o = 7 -> is_object_static o = true)
    (classify demo_hypot demo_print (Written, Written) 1500 (secs 3 / 2) [demo_car 100]
      (demo_run [call 1 100; call 2 100]).1 (demo_run [call 1 100; call 2 100]).2).2.
Proof.
  apply (parked_vehicle_is_hidden demo_hypot demo_print (fun a b => ltac:(by destruct a, b)) (demo_new None) None
    [call 1 100; call 2 100] (Written, Written) 1500 (secs 3 / 2) [demo_car 100] 7 (center (o_bbox (demo_car 100)))).
  - exact demo_u32.
  - by split; vm_compute.
  - reflexivity.
  - repeat first [apply Forall_cons; split|apply Forall_nil; exact I]; (split; [by apply Exists_cons; left|]);
      (apply Forall_cons; split; [|by apply Forall_nil]); intros _; by split.
  - vm_compute. discriminate.
Defined.

(** Leaving at fifty pixels a frame: the average passes the threshold on the third. *)
Definition demo_leaving : StaticObjectFilter * File :=
  demo_run (demo_parking ++ [call 5 150; call 6 200; call 7 250]).

Lemma driving_vehicle_is_shown_witness :
  let s := (mrun (H:=filter_machine demo_hypot demo_print) [call 8 300; call 9 350] (demo_leaving.1, demo_leaving.2)).1 in
  exists o', (classify demo_hypot demo_print (Written, Written) 5000 (secs 5) [demo_car 400] s.1 s.2).2 = [o'] /\
    is_object_static o' = false.
Proof.
  intros s.
  assert (exists o', (classify demo_hypot demo_print (Written, Written) 5000 (secs 5) [demo_car 400] s.1 s.2).2 = [o'])
    as [o' E] by (eexists; vm_compute; reflexivity).
  exists o'. split; [exact E|].
  assert (cfg demo_leaving.1 = demo_config) as Hc by (vm_compute; reflexivity).
  assert (drives_through demo_hypot demo_print 7 ([call 8 300; call 9 350] ++
    [Classify (Written, Written) 5000 (secs 5) [demo_car 400]]) (demo_leaving.1, demo_leaving.2)) as Hd.
  { split; [|split; [|split; [|exact I]]]; (split; [apply NoDup_singleton|split; [|vm_compute; reflexivity]]); eexists;
      (split; [apply list_elem_of_singleton; reflexivity|split; [reflexivity|vm_compute; reflexivity]]). }
  pose proof (driving_vehicle_is_shown demo_hypot demo_print demo_leaving.1 demo_leaving.2 [call 8 300; call 9 350]
    (Written, Written) 5000 (secs 5) [demo_car 400] 7 0 (demo_car 400) o') as H.
  rewrite Hc in H.
  apply (H demo_u32 ltac:(vm_compute; discriminate) ltac:(vm_compute; discriminate) Hd ltac:(vm_compute; discriminate) eq_refl eq_refl).
  fold s. by rewrite E.
Defined.

Lemma frame_report_is_faithful_witness :
  let r := classify demo_hypot demo_print (Written, Written) 4000000 (secs 4000) [] (demo_run demo_parking).1 None in
  length (anchors (demo_run demo_parking).1) = 1%nat /\
  forall a, a ∈ anchors r.1.1 -> exists t, last_seen_unix_ms a = Some t /\ i64_sat_sub 4000000 t <= 3600 * 1000.
Proof.
  split; [vm_compute; reflexivity|].
  assert (epochs_fit (state_by_track (demo_run demo_parking).1)) as Hfit.
  { intros t. unfold epoch_of. replace (state_by_track (demo_run demo_parking).1) with
      ({[7 := default per_default (state_by_track (demo_run demo_parking).1 !! 7)]} : gmap Z PerTrackState)
      by (vm_compute; reflexivity).
    destruct (decide (t = 7)) as [->|Hne]; [rewrite lookup_singleton_eq; by vm_compute|by rewrite lookup_singleton_ne]. }
  pose proof (frame_report_is_faithful demo_hypot demo_print (Written, Written) 4000000 (secs 4000) []
    (demo_run demo_parking).1 None Hfit) as H.
  destruct (classify demo_hypot demo_print (Written, Written) 4000000 (secs 4000) [] (demo_run demo_parking).1 None)
    as [[f' file'] out]. destruct H as (_ & _ & _ & H). simpl.
  assert (cfg (demo_run demo_parking).1 = demo_config) as Hc by (vm_compute; reflexivity).
  rewrite Hc in H. exact (H eq_refl eq_refl).
Defined.
