(* ===== verification/Annotator.v ===== *)
(** The track annotator: [nexus-tracker/src/annotator.rs], with its configuration
    ([nexus-config/src/tracker.rs]). It writes attributes of motion, dwell, zones, groups and
    proximity on the objects of a frame.

    Instants are nanoseconds. [f64::atan2] is a parameter. The walk of the group grid runs over the
    cells the code names, however many they are. *)
From Stdlib Require Import Ascii.
From stdpp Require Import pretty.
From S2P Require Import Prelude Text Float Types Alert Zones Rules.
From S2P Require FramePath.
From S2P Require Import StaticObject.

(** ** Configuration *)

Record AnnotatorConfig := mkAnnotator {
  speed_walking_px_per_sec : f32;
  speed_running_px_per_sec : f32;
  speed_vehicle_px_per_sec : f32;
  parked_ema_threshold_px : f32;
  parked_min_frames_to_flag : option Z;
  parked_min_secs : f32;
  direction_min_px_per_sec : f32;
  a_movement_ema_alpha : f32;
  direction_ema_alpha : f32;
  group_radius_box_multiplier : f32;
  stale_state_frames : Z;
  group_spatial_bucket_size_px : option Z;
  static_anchor_classes : list string;
  tool_proximity_labels : list string;
  proximity_radius_box_multiplier : f32;
  tool_proximity_radius_box_multiplier : f32;
}.

(** [1.5], [0.30] and [2.5] in [f32]. *)
Definition annotator_default : AnnotatorConfig :=
  mkAnnotator (f32_of_Z 30) (f32_of_Z 120) (f32_of_Z 250) (flit 12582912 (-23)) None (f32_of_Z 1) (f32_of_Z 8)
    (flit 10066330 (-25)) f32_half (flit 10485760 (-22)) 600 None [] [] (flit 12582912 (-23)) (f32_of_Z 1).

(** ** State *)

Record TrackMemory := mkMemory {
  first_seen_at : option Z;
  last_seen_at : option Z;
  last_seen_tick : Z;
  m_center : option point;
  m_ema : f64;
  direction_dx_ema : f64;
  direction_dy_ema : f64;
  parked_frames_accum : Z;
  inside_by_zone : gmap string bool;
  near_anchor_id : option string;
  near_anchor_since : option Z;
}.

Definition memory_default : TrackMemory := mkMemory None None 0 None fzero fzero fzero 0 ∅ None None.

Record TrackAnnotator := mkTrackAnnotator {
  ann_cfg : AnnotatorConfig;
  memories : gmap Z TrackMemory;
  frame_tick : Z;
  prev_anchor_ids : list string;
  ann_rate : InferenceRate;
}.

Definition annotator_new (c : AnnotatorConfig) : TrackAnnotator := mkTrackAnnotator c ∅ 0 [] rate_default.

(** ** Pure helpers *)

Definition is_vehicle (label : string) : bool := starts_with label "vehicle".

(** [round() as i64]: halves away from zero, saturating, NaN is 0. *)
Definition round_i64 (x : spec_float) : Z :=
  match x with
  | S754_nan | S754_zero _ => 0
  | S754_infinity s => if s then - 2 ^ 63 else 2 ^ 63 - 1
  | S754_finite s m e =>
      let r := if 0 <=? e then Zpos m * 2 ^ e else (2 * Zpos m + 2 ^ (- e)) / 2 ^ (1 - e) in
      Z.max (- 2 ^ 63) (Z.min (2 ^ 63 - 1) (if s then - r else r))
  end.

Definition anchor_id (a : StaticAnchor) : string :=
  to_lowercase (a_label a) +:+ "@" +:+ pretty (round_i64 (center_x a)) +:+ "x" +:+ pretty (round_i64 (center_y a)).

Definition COMPASS : list string := ["e"; "ne"; "n"; "nw"; "w"; "sw"; "s"; "se"].

(** [TAU], [1e-6] and [f64::MAX]. *)
Definition TAU : f64 := flit 7074237752028440 (-50).
Definition f64_micro : f64 := flit 4722366482869645 (-72).
Definition f64_MAX : f64 := flit 9007199254740991 971.
Definition FIRST_FRAME_DT_SECONDS : f64 := f64_div f64_1 (f64_of_Z 30).

Section Annotator.
Context (atan2 : f64 -> f64 -> f64).

Definition compass8 (dx dy : f64) : string :=
  let a := atan2 (SFopp dy) dx in
  let a := if flt a fzero then f64_add a TAU else a in
  let bucket := floor_i32 (f64_add (f64_div a (f64_div TAU (f64_of_Z 8))) (f64_div f64_1 (f64_of_Z 2))) in
  default "" (COMPASS !! Z.to_nat (bucket mod 8)).

(** ** The pre-passes *)

Definition cell (px : f32) (c : point) : Z * Z := (floor_i32 (f32_div c.1 px), floor_i32 (f32_div c.2 px)).

Definition bucket_px (c : AnnotatorConfig) : option f32 :=
  match group_spatial_bucket_size_px c with
  | Some n => if 0 <? n then Some (f32_of_Z n) else None
  | None => None
  end.

(** The centres of one label, and those of one cell, in the order of the objects. *)
Definition centers_of (label : string) (objects : list TrackedObject) : list point :=
  map (fun o => center (o_bbox o)) (List.filter (fun o => str_eqb (o_label o) label) objects).

Definition centers_in (px : f32) (label : string) (objects : list TrackedObject) (g : Z * Z) : list point :=
  List.filter (fun c => bool_decide (cell px c = g)) (centers_of label objects).

Record Tool := mkTool { t_center : point; t_label : string; t_conf : f32 }.

Definition tools_of (c : AnnotatorConfig) (objects : list TrackedObject) : list Tool :=
  map (fun o => mkTool (center (o_bbox o)) (to_lowercase (o_label o)) (confidence o))
    (List.filter (fun o => existsb (fun t => eq_ignore_ascii_case t (o_label o)) (tool_proximity_labels c)) objects).

(** ** One object *)

Definition elapsed (now : Z) (since : option Z) : Z :=
  match since with Some t => sat_sub now t | None => 0 end.

Definition dt_of (now : Z) (last : option Z) : f64 :=
  match last with
  | Some prev =>
      let us := sat_sub now prev / 1000 in
      if 0 <? us then f64_div (f64_of_Z us) (f64_of_Z 1000000) else FIRST_FRAME_DT_SECONDS
  | None => FIRST_FRAME_DT_SECONDS
  end.

Definition ema (alpha x prior : f64) : f64 := f64_add (f64_mul alpha x) (f64_mul (f64_sub f64_1 alpha) prior).

(** Times, ticks and the three averages. *)
Definition track_motion (c : AnnotatorConfig) (now tick : Z) (p : point) (m : TrackMemory) : TrackMemory :=
  let m_alpha := f32_to_f64 (a_movement_ema_alpha c) in
  let d_alpha := f32_to_f64 (direction_ema_alpha c) in
  let '(mv, dx, dy) :=
    match m_center m with
    | Some l =>
        let dx := f32_to_f64 (f32_sub p.1 l.1) in
        let dy := f32_to_f64 (f32_sub p.2 l.2) in
        (ema m_alpha (f64_sqrt (f64_add (f64_mul dx dx) (f64_mul dy dy))) (m_ema m),
         ema d_alpha dx (direction_dx_ema m), ema d_alpha dy (direction_dy_ema m))
    | None => (fzero, fzero, fzero)
    end in
  mkMemory (Some (default now (first_seen_at m))) (Some now) tick (Some p) mv dx dy
    (parked_frames_accum m) (inside_by_zone m) (near_anchor_id m) (near_anchor_since m).

Definition speed_class (c : AnnotatorConfig) (vehicle : bool) (px_per_sec : f64) : string :=
  if vehicle && fge px_per_sec (f32_to_f64 (speed_vehicle_px_per_sec c)) then "vehicle_speed"
  else if fge px_per_sec (f32_to_f64 (speed_running_px_per_sec c)) then "running"
  else if fge px_per_sec (f32_to_f64 (speed_walking_px_per_sec c)) then "walking"
  else "stationary".

Definition direction_of (c : AnnotatorConfig) (dt_safe : f64) (m : TrackMemory) : string :=
  let dx := direction_dx_ema m in
  let dy := direction_dy_ema m in
  if fge (f64_div (f64_sqrt (f64_add (f64_mul dx dx) (f64_mul dy dy))) dt_safe) (f32_to_f64 (direction_min_px_per_sec c))
  then compass8 dx dy else "none".

Definition count_parked (c : AnnotatorConfig) (m : TrackMemory) : TrackMemory :=
  mkMemory (first_seen_at m) (last_seen_at m) (last_seen_tick m) (m_center m) (m_ema m) (direction_dx_ema m)
    (direction_dy_ema m)
    (if fle (m_ema m) (f32_to_f64 (parked_ema_threshold_px c)) then usat_add 32 (parked_frames_accum m) 1 else 0)
    (inside_by_zone m) (near_anchor_id m) (near_anchor_since m).

(** *** Zones *)

(** The walk over the zones: the flags, the ids of the zones the object is in, the state with the
    highest priority so far. *)
Record ZoneWalk := mkWalk { flags : gmap string bool; inside_ids : list string; z_state : string; priority : Z }.

Definition zone_step (inside_now inside_prev : bool) : string * Z :=
  match inside_now, inside_prev with
  | true, false => ("entering", 4)
  | false, true => ("exiting", 3)
  | true, true => ("inside", 2)
  | false, false => ("outside", 1)
  end.

Definition inside_zone (w h : Z) (p : point) (z : ZoneConfig) : bool :=
  point_in_normalized_polygon (f32_div p.1 (fmax (f32_of_Z w) (f32_of_Z 1))) (f32_div p.2 (fmax (f32_of_Z h) (f32_of_Z 1)))
    (polygon z).

Definition walk_zone (w h : Z) (p : point) (s : ZoneWalk) (z : ZoneConfig) : ZoneWalk :=
  let inside_now := inside_zone w h p z in
  let inside_prev := default false (flags s !! zone_id z) in
  let '(st, prio) := zone_step inside_now inside_prev in
  mkWalk (<[zone_id z := inside_now]> (flags s))
    (if inside_now then inside_ids s ++ [zone_id z] else inside_ids s)
    (if priority s <? prio then st else z_state s) (if priority s <? prio then prio else priority s).

Definition walk_zones (w h : Z) (zones : list ZoneConfig) (p : point) (fl : gmap string bool) : ZoneWalk :=
  foldl (walk_zone w h p) (mkWalk fl [] "outside" 1) (List.filter (fun z => negb (is_exclusion z)) zones).

(** *** The group *)

Definition half_perimeter (b : BBox) : f32 := f32_mul f32_half (f32_add (width b) (height b)).

Definition radius_sq (multiplier half : f32) : f64 := let r := f32_mul multiplier half in f32_to_f64 (f32_mul r r).

Definition within (r2 : f64) (p c : point) : bool := fle (f64_dist_sq c p) r2.

Definition count_within (r2 : f64) (p : point) (l : list point) : Z :=
  foldl (fun n c => if within r2 p c then usat_add 32 n 1 else n) 0 l.

(** The cells of the walk, rows of [x] first. *)
Definition walk_cells (px radius : f32) (p : point) : list (Z * Z) :=
  let lo v := floor_i32 (f32_div (f32_sub v radius) px) in
  let hi v := floor_i32 (f32_div (f32_add v radius) px) in
  xs ← seqZ (lo p.1) (hi p.1 - lo p.1 + 1); (fun y => (xs, y)) <$> seqZ (lo p.2) (hi p.2 - lo p.2 + 1).

Definition group_size (c : AnnotatorConfig) (objects : list TrackedObject) (o : TrackedObject) : Z :=
  let p := center (o_bbox o) in
  let radius := f32_mul (group_radius_box_multiplier c) (half_perimeter (o_bbox o)) in
  let r2 := f32_to_f64 (f32_mul radius radius) in
  let group :=
    match bucket_px c with
    | Some px => count_within r2 p (walk_cells px radius p ≫= centers_in px (o_label o) objects)
    | None => count_within r2 p (centers_of (o_label o) objects)
    end in
  sat_sub group 1.

(** *** Proximity *)

(** The first of the nearest of those in reach. *)
Definition nearest {A} (dist : A -> f64) (r2 : f64) (ok : A -> bool) (l : list A) : option A :=
  (foldl (fun '(best, best_d2) a =>
    let d2 := dist a in if fle d2 r2 && flt d2 best_d2 && ok a then (Some a, d2) else (best, best_d2))
    (None, f64_MAX) l).1.

Definition near_anchor (c : AnnotatorConfig) (anchors : list StaticAnchor) (o : TrackedObject) : option string :=
  let p := center (o_bbox o) in
  anchor_id <$> nearest (fun a => f64_dist_sq (place a) p) (radius_sq (proximity_radius_box_multiplier c) (half_perimeter (o_bbox o)))
    (fun _ => true) anchors.

Definition near_tool (c : AnnotatorConfig) (tools : list Tool) (o : TrackedObject) : option Tool :=
  let p := center (o_bbox o) in
  nearest (fun t => f64_dist_sq (t_center t) p)
    (radius_sq (tool_proximity_radius_box_multiplier c) (half_perimeter (o_bbox o)))
    (fun t => negb (str_eqb (to_lowercase (o_label o)) (t_label t))) tools.

Definition track_near (now : Z) (near : option string) (m : TrackMemory) : TrackMemory :=
  let '(id, since) :=
    match near with
    | Some i => if bool_decide (near_anchor_id m = Some i) then (near_anchor_id m, near_anchor_since m) else (Some i, Some now)
    | None => (None, None)
    end in
  mkMemory (first_seen_at m) (last_seen_at m) (last_seen_tick m) (m_center m) (m_ema m) (direction_dx_ema m)
    (direction_dy_ema m) (parked_frames_accum m) (inside_by_zone m) id since.

(** *** The attributes of an object *)

Definition with_attributes (kvs : list (string * JsonValue)) (o : TrackedObject) : TrackedObject :=
  foldl (fun o kv => with_attribute kv.1 kv.2 o) o kvs.

Definition set_flags (fl : gmap string bool) (m : TrackMemory) : TrackMemory :=
  mkMemory (first_seen_at m) (last_seen_at m) (last_seen_tick m) (m_center m) (m_ema m) (direction_dx_ema m)
    (direction_dy_ema m) (parked_frames_accum m) fl (near_anchor_id m) (near_anchor_since m).

(** What is the same for all objects of a frame. *)
Record FrameView := mkView {
  v_now : Z;
  v_tick : Z;
  v_w : Z;
  v_h : Z;
  v_zones : list ZoneConfig;
  v_anchors : list StaticAnchor;
  v_objects : list TrackedObject;
  v_tools : list Tool;
  v_parked_min : Z;
}.

Definition annotate_one (c : AnnotatorConfig) (v : FrameView) (o : TrackedObject) (m : TrackMemory) :
    TrackMemory * TrackedObject :=
  let now := v_now v in
  let p := center (o_bbox o) in
  let dt_safe := fmax (dt_of now (last_seen_at m)) f64_micro in
  let m := track_motion c now (v_tick v) p m in
  let vehicle := is_vehicle (o_label o) in
  let speed := speed_class c vehicle (f64_div (m_ema m) dt_safe) in
  let direction := direction_of c dt_safe m in
  let m := if vehicle then count_parked c m else m in
  let walk := walk_zones (v_w v) (v_h v) (v_zones v) p (inside_by_zone m) in
  let m := set_flags (flags walk) m in
  let near := near_anchor c (v_anchors v) o in
  let m := track_near now near m in
  (m, with_attributes (
    [("motion.speed_class", JString speed); ("motion.direction", JString direction)] ++
    (if vehicle then [("motion.parked_vehicle", JString (if v_parked_min v <=? parked_frames_accum m then "yes" else "no"))] else []) ++
    [("motion.dwell_seconds", JInt (elapsed now (first_seen_at m) / ns_per_ms mod 2 ^ 64 / 1000));
     ("motion.zone_state", JString (z_state walk)); ("motion.zone_ids", JArray (JString <$> inside_ids walk));
     ("group.size", JInt (group_size c (v_objects v) o))] ++
    (match near with
     | Some i => [("motion.near_static_vehicle_id", JString i);
                  ("motion.near_static_vehicle_seconds", JInt (elapsed now (near_anchor_since m) / ns_per_sec))]
     | None => []
     end) ++
    (match near_tool c (v_tools v) o with
     | Some t => [("motion.tool_in_proximity_label", JString (t_label t));
                  ("motion.tool_in_proximity_confidence", from_f64 (f32_to_f64 (t_conf t)))]
     | None => []
     end)) o).

Fixpoint annotate_all (c : AnnotatorConfig) (v : FrameView) (os : list TrackedObject) (ms : gmap Z TrackMemory) :
    gmap Z TrackMemory * list TrackedObject :=
  match os with
  | [] => (ms, [])
  | o :: os' =>
      let '(m, o1) := annotate_one c v o (default memory_default (ms !! o_track_id o)) in
      let '(ms, out) := annotate_all c v os' (<[o_track_id o := m]> ms) in
      (ms, o1 :: out)
  end.

(** *** Anchors that are gone *)

Definition removed_ids (prev now : list string) : list string :=
  List.filter (fun i => negb (existsb (str_eqb i) now)) prev.

Definition stamp_removed (removed : list string) (o : TrackedObject) : TrackedObject :=
  match removed with
  | [] => o
  | i :: _ =>
      with_attributes [("motion.removed_anchor_ids", JArray (JString <$> removed));
                       ("motion.carrying_anchor_label", JString (default "" (head (split "@"%char i))))] o
  end.

Definition gc_stale (c : AnnotatorConfig) (tick : Z) (ms : gmap Z TrackMemory) : gmap Z TrackMemory :=
  filter (fun kv => sat_sub tick (last_seen_tick kv.2) <= stale_state_frames c) ms.

(** One frame: its capture stamp and size, the camera's zones, the static filter's anchors. *)
Definition annotate (now w h : Z) (zones : list ZoneConfig) (anchors : list StaticAnchor) (objects : list TrackedObject)
    (a : TrackAnnotator) : TrackAnnotator * list TrackedObject :=
  let c := ann_cfg a in
  let tick := usat_add 64 (frame_tick a) 1 in
  let r := observe_at now (ann_rate a) in
  match objects with
  | [] => (mkTrackAnnotator c (gc_stale c tick (memories a)) tick (prev_anchor_ids a) r, [])
  | _ :: _ =>
      let ids := anchor_id <$> anchors in
      let v := mkView now tick w h zones anchors objects (tools_of c objects)
        (default (frames (parked_min_secs c) r) (parked_min_frames_to_flag c)) in
      let '(ms, out) := annotate_all c v objects (memories a) in
      (mkTrackAnnotator c (gc_stale c tick ms) tick ids r, map (stamp_removed (removed_ids (prev_anchor_ids a) ids)) out)
  end.
End Annotator.

(** ** Only annotations are written *)

Definition ANNOTATIONS : list string :=
  ["motion.speed_class"; "motion.direction"; "motion.parked_vehicle"; "motion.dwell_seconds"; "motion.zone_state";
   "motion.zone_ids"; "group.size"; "motion.near_static_vehicle_id"; "motion.near_static_vehicle_seconds";
   "motion.tool_in_proximity_label"; "motion.tool_in_proximity_confidence"; "motion.removed_anchor_ids";
   "motion.carrying_anchor_label"].

(** [o'] is [o] with some of those written. *)
Definition annotated (o o' : TrackedObject) : Prop :=
  FramePath.same_but_attributes o o' /\ forall key, key ∉ ANNOTATIONS -> attributes o' !! key = attributes o !! key.

Lemma annotated_refl o : annotated o o.
Proof. split; [by destruct o|done]. Qed.

Lemma annotated_step kvs : Forall (fun kv => kv.1 ∈ ANNOTATIONS) kvs -> forall o o', annotated o o' -> annotated o (with_attributes kvs o').
Proof.
  induction 1 as [|[k v] kvs Hk Hkvs IH]; intros o o' [H1 H2]; [done|]. simpl. apply IH. split; [done|].
  intros key Hkey. rewrite lookup_with_attribute, decide_False; [by apply H2|]. intros <-. by apply Hkey.
Qed.

Ltac in_annotations := repeat (apply Forall_cons; split; [unfold ANNOTATIONS; rewrite !elem_of_cons; simpl; tauto|]); apply Forall_nil; exact I.

Lemma annotate_one_annotated atan2 c v o m : annotated o (annotate_one atan2 c v o m).2.
Proof.
  unfold annotate_one. apply annotated_step, annotated_refl. rewrite !Forall_app. split_and!; repeat case_match; in_annotations.
Qed.

Lemma stamp_removed_annotated removed o o' : annotated o o' -> annotated o (stamp_removed removed o').
Proof. unfold stamp_removed. destruct removed; [done|]. intros H. apply annotated_step; [in_annotations|done]. Qed.

Lemma annotate_all_annotated atan2 c v os ms : Forall2 annotated os (annotate_all atan2 c v os ms).2.
Proof.
  revert ms. induction os as [|o os IH]; intros ms; [constructor|]. cbn [annotate_all].
  pose proof (annotate_one_annotated atan2 c v o (default memory_default (ms !! o_track_id o))) as H.
  destruct (annotate_one _ _ _ _ _) as [m o1]. specialize (IH (<[o_track_id o := m]> ms)).
  destruct (annotate_all _ _ _ _ _) as [ms' out]. by constructor.
Qed.

(** The annotator changes nothing of an object but its own thirteen attributes, and neither drops
    nor reorders objects. *)
Theorem annotator_only_annotates atan2 now w h zones anchors objects a :
  Forall2 annotated objects (annotate atan2 now w h zones anchors objects a).2.
Proof.
  unfold annotate. destruct objects as [|o os]; [constructor|]. set (v := mkView _ _ _ _ _ _ _ _ _).
  pose proof (annotate_all_annotated atan2 (ann_cfg a) v (o :: os) (memories a)) as H.
  destruct (annotate_all _ _ _ _ _) as [ms out]. simpl in H |- *. clear - H.
  induction H; constructor; [by apply stamp_removed_annotated|done].
Qed.

(** ** The zone state *)

Definition zone_name_of (prio : Z) : string :=
  if prio =? 4 then "entering" else if prio =? 3 then "exiting" else if prio =? 2 then "inside" else "outside".

Lemma zone_step_name n p : let '(st, prio) := zone_step n p in st = zone_name_of prio /\ 1 <= prio <= 4.
Proof. by destruct n, p. Qed.

(** What the state should be, from where the object is and where it was. *)
Definition zone_state_spec (before now : ZoneConfig -> bool) (zones : list ZoneConfig) : string :=
  if existsb (fun z => now z && negb (before z)) zones then "entering"
  else if existsb (fun z => before z && negb (now z)) zones then "exiting"
  else if existsb now zones then "inside" else "outside".

Definition zone_prio (before now : ZoneConfig -> bool) (z : ZoneConfig) : Z := (zone_step (now z) (before z)).2.

Fixpoint max_prio (before now : ZoneConfig -> bool) (zones : list ZoneConfig) : Z :=
  match zones with [] => 1 | z :: zs => Z.max (zone_prio before now z) (max_prio before now zs) end.

Lemma max_prio_spec before now zones : zone_name_of (max_prio before now zones) = zone_state_spec before now zones /\ 1 <= max_prio before now zones <= 4.
Proof.
  unfold zone_state_spec. induction zones as [|z zones [IH Hb]]; [done|]. simpl.
  assert (zone_prio before now z = 4 /\ (now z && negb (before z)) = true \/ zone_prio before now z = 3 /\ (now z && negb (before z)) = false /\ (before z && negb (now z)) = true
    \/ zone_prio before now z = 2 /\ (now z && negb (before z)) = false /\ (before z && negb (now z)) = false /\ now z = true
    \/ zone_prio before now z = 1 /\ (now z && negb (before z)) = false /\ (before z && negb (now z)) = false /\ now z = false) as H
    by (unfold zone_prio, zone_step; destruct (now z), (before z); simpl; tauto).
  assert (max_prio before now zones = 1 \/ max_prio before now zones = 2 \/ max_prio before now zones = 3 \/ max_prio before now zones = 4) as Hm by lia.
  destruct (existsb (fun z => now z && negb (before z)) zones) eqn:E1, (existsb (fun z => before z && negb (now z)) zones) eqn:E2,
    (existsb now zones) eqn:E3; destruct Hm as [Hm|[Hm|[Hm|Hm]]]; rewrite Hm in *; try discriminate IH;
    destruct H as [(-> & ->)|[(-> & -> & ->)|[(-> & -> & -> & ->)|(-> & -> & -> & ->)]]]; simpl; (split; [done|lia]).
Qed.

Section Walk.
Context (w h : Z) (p : point).

(** The walk over zones of distinct ids, from any accumulator. *)
Lemma walk_zone_list zones s :
  NoDup (zone_id <$> zones) -> z_state s = zone_name_of (priority s) -> 1 <= priority s <= 4 ->
  let before z := default false (flags s !! zone_id z) in
  let s' := foldl (walk_zone w h p) s zones in
  z_state s' = zone_name_of (priority s') /\ priority s' = Z.max (priority s) (max_prio before (inside_zone w h p) zones) /\
  inside_ids s' = inside_ids s ++ (zone_id <$> List.filter (inside_zone w h p) zones) /\
  (forall z, z ∈ zones -> flags s' !! zone_id z = Some ((inside_zone w h p) z)) /\
  (forall i, i ∉ zone_id <$> zones -> flags s' !! i = flags s !! i).
Proof.
  revert s. induction zones as [|z zones IH]; intros s Hnd Hs Hb; simpl.
  { split_and!; [done|lia|by rewrite app_nil_r|intros z Hz; by apply elem_of_nil in Hz|done]. }
  simpl in Hnd. apply NoDup_cons in Hnd as [Hz Hnd].
  set (s1 := walk_zone w h p s z).
  assert (flags s1 = <[zone_id z := (inside_zone w h p) z]> (flags s) /\
    inside_ids s1 = (if (inside_zone w h p) z then inside_ids s ++ [zone_id z] else inside_ids s) /\
    priority s1 = Z.max (priority s) (zone_prio (fun z => default false (flags s !! zone_id z)) (inside_zone w h p) z) /\
    z_state s1 = zone_name_of (priority s1)) as (F & I & P & N).
  { subst s1. unfold walk_zone, zone_prio. pose proof (zone_step_name ((inside_zone w h p) z) (default false (flags s !! zone_id z))) as Hn.
    destruct (zone_step _ _) as [st prio]. destruct Hn as [Hn Hp]. simpl. split_and!; try done.
    - destruct (Z.ltb_spec (priority s) prio); lia.
    - by destruct (priority s <? prio). }
  assert (1 <= priority s1 <= 4) as Hb1.
  { rewrite P. unfold zone_prio. pose proof (zone_step_name ((inside_zone w h p) z) (default false (flags s !! zone_id z))) as Hn.
    destruct (zone_step _ _) as [st prio]. destruct Hn as [_ Hp]. simpl. lia. }
  destruct (IH s1 Hnd N Hb1) as (H1 & H2 & H3 & H4 & H5). split_and!; [done| | | |].
  - rewrite H2, P.
    assert (max_prio (fun z0 => default false (flags s1 !! zone_id z0)) (inside_zone w h p) zones =
      max_prio (fun z0 => default false (flags s !! zone_id z0)) (inside_zone w h p) zones) as ->; [|lia].
    rewrite F. clear - Hz. induction zones as [|y zones IH]; [done|]. simpl in *. apply not_elem_of_cons in Hz as [Hy Hz].
    rewrite IH by done. unfold zone_prio. rewrite lookup_insert_ne; [done|congruence].
  - rewrite H3, I. destruct ((inside_zone w h p) z); simpl; [by rewrite <-app_assoc|done].
  - intros y [->|Hy]%elem_of_cons; [|by apply H4]. rewrite H5 by done. rewrite F. by rewrite lookup_insert_eq.
  - intros i [Hi1 Hi2]%not_elem_of_cons. rewrite H5 by done. rewrite F. by rewrite lookup_insert_ne.
Qed.
End Walk.

Lemma kept_ids_nodup zones : NoDup (zone_id <$> zones) -> NoDup (zone_id <$> List.filter (fun z => negb (is_exclusion z)) zones).
Proof.
  induction zones as [|z zones IH]; simpl; [done|]. intros [H1 H2]%NoDup_cons. destruct (is_exclusion z); simpl; [auto|].
  apply NoDup_cons. split; [|auto]. intros (y & E & Hy)%list_elem_of_fmap. apply H1, list_elem_of_fmap. exists y. split; [done|].
  apply list_elem_of_In, filter_In in Hy as [Hy _]. by apply list_elem_of_In.
Qed.

(** The zone attributes are by position: with zones of distinct ids, [motion.zone_ids] lists the zones
    (exclusion zones apart) that the object's centre is in, in the configured order; the state says
    "entering" when it is in one it was not in on the last frame that showed the track, otherwise "exiting" when
    it left one, otherwise whether it is in any; and the flags that the next frame reads are right. *)
Theorem zone_state_is_by_positions w h zones p fl :
  NoDup (zone_id <$> zones) ->
  let zs := List.filter (fun z => negb (is_exclusion z)) zones in
  let s := walk_zones w h zones p fl in
  z_state s = zone_state_spec (fun z => default false (fl !! zone_id z)) (inside_zone w h p) zs /\
  inside_ids s = zone_id <$> List.filter (inside_zone w h p) zs /\
  forall z, z ∈ zs -> flags s !! zone_id z = Some (inside_zone w h p z).
Proof.
  intros Hnd zs s. destruct (walk_zone_list w h p zs (mkWalk fl [] "outside" 1) (kept_ids_nodup zones Hnd)) as (H1 & H2 & H3 & H4 & _);
    [done|simpl; lia|]. subst s. unfold walk_zones. fold zs. split_and!; [|done|done].
  rewrite H1, H2. simpl priority. destruct (max_prio_spec (fun z => default false (fl !! zone_id z)) (inside_zone w h p) zs) as [<- Hb].
  f_equal. simpl. lia.
Qed.

(** ** The group *)

Lemma count_within_acc r2 p l n :
  0 <= n <= umax 32 ->
  foldl (fun n c => if within r2 p c then usat_add 32 n 1 else n) n l = Z.min (umax 32) (n + zlength (List.filter (within r2 p) l)).
Proof.
  revert n. induction l as [|c l IH]; intros n Hn; simpl; [unfold zlength; simpl; lia|].
  destruct (within r2 p c); simpl; rewrite IH; unfold usat_add, zlength, umax in *; simpl length; lia.
Qed.

Lemma count_within_filter r2 p l : count_within r2 p l = Z.min (umax 32) (zlength (List.filter (within r2 p) l)).
Proof. unfold count_within. rewrite count_within_acc; [|unfold umax; lia]. f_equal. Qed.

Lemma filter_bind {A B} (f : B -> bool) (g : A -> list B) l :
  List.filter f (l ≫= g) = l ≫= fun a => List.filter f (g a).
Proof. induction l as [|a l IH]; [done|]. by rewrite !bind_cons, List.filter_app, IH. Qed.

(** Walking distinct cells meets each centre once: the centres met are those whose cell is walked. *)
Lemma cells_partition (key : point -> Z * Z) cells (l : list point) :
  NoDup cells ->
  length (cells ≫= fun g => List.filter (fun c => bool_decide (key c = g)) l) =
  length (List.filter (fun c => bool_decide (key c ∈ cells)) l).
Proof.
  intros Hnd. induction l as [|c l IH]; simpl.
  { clear Hnd. by induction cells. }
  assert (length (cells ≫= fun g => if bool_decide (key c = g) then c :: List.filter (fun c => bool_decide (key c = g)) l
      else List.filter (fun c => bool_decide (key c = g)) l) =
    ((if bool_decide (key c ∈ cells) then 1 else 0) + length (cells ≫= fun g => List.filter (fun c => bool_decide (key c = g)) l))%nat) as E.
  { clear IH. induction cells as [|g cells IHc]; [done|]. apply NoDup_cons in Hnd as [Hg Hnd]. specialize (IHc Hnd).
    rewrite !bind_cons, !length_app, IHc. case_bool_decide as H1; case_bool_decide as H2; case_bool_decide as H3; simpl; try lia;
      exfalso; subst; rewrite elem_of_cons in *; tauto. }
  rewrite E, IH. by case_bool_decide.
Qed.

Lemma walk_cells_nodup px radius p : NoDup (walk_cells px radius p).
Proof.
  unfold walk_cells. apply NoDup_bind.
  - intros a b g _ _ Ha Hb. apply list_elem_of_fmap in Ha as (y1 & -> & _). apply list_elem_of_fmap in Hb as (y2 & E & _).
    by injection E.
  - intros x _. apply NoDup_fmap_2; [by intros ? ? [=]|apply NoDup_seqZ].
  - apply NoDup_seqZ.
Qed.

Definition reach_sq (c : AnnotatorConfig) (o : TrackedObject) : f64 :=
  radius_sq (group_radius_box_multiplier c) (half_perimeter (o_bbox o)).

(** The centres of [o]'s label in its reach, [o]'s own among them. *)
Definition in_reach (c : AnnotatorConfig) (objects : list TrackedObject) (o : TrackedObject) : list point :=
  List.filter (within (reach_sq c o) (center (o_bbox o))) (centers_of (o_label o) objects).

Definition walked (c : AnnotatorConfig) (px : f32) (o : TrackedObject) (q : point) : bool :=
  bool_decide (cell px q ∈ walk_cells px (f32_mul (group_radius_box_multiplier c) (half_perimeter (o_bbox o))) (center (o_bbox o))).

(** The group is the number of objects of the same label in reach, the object itself taken off; with
    the spatial index each of them is counted at most once, those in a walked cell exactly once, so
    the two agree when every centre in reach lies in a walked cell. *)
Theorem group_size_counts c objects o :
  (bucket_px c = None -> group_size c objects o = sat_sub (Z.min (umax 32) (zlength (in_reach c objects o))) 1) /\
  (forall px, bucket_px c = Some px ->
    group_size c objects o = sat_sub (Z.min (umax 32) (zlength (List.filter (walked c px o) (in_reach c objects o)))) 1).
Proof.
  unfold group_size. split; [intros ->|intros px ->]; rewrite count_within_filter; [done|].
  unfold in_reach, walked, reach_sq, radius_sq. set (radius := f32_mul (group_radius_box_multiplier c) (half_perimeter (o_bbox o))). set (p := center _).
  set (f := within (f32_to_f64 (f32_mul radius radius)) p). rewrite filter_bind. unfold centers_in.
  assert (forall g, List.filter f (List.filter (fun q => bool_decide (cell px q = g)) (centers_of (o_label o) objects)) =
    List.filter (fun q => bool_decide (cell px q = g)) (List.filter f (centers_of (o_label o) objects))) as Hc.
  { intros g. generalize (centers_of (o_label o) objects). clear. intros l. induction l as [|q l IH]; [done|]. simpl.
    destruct (bool_decide (cell px q = g)) eqn:E, (f q) eqn:F; simpl; rewrite ?E, ?F; simpl; rewrite ?IH; done. }
  erewrite list_bind_ext; [|intros g; apply Hc|reflexivity].
  unfold zlength. rewrite (cells_partition (cell px)); [done|apply walk_cells_nodup].
Qed.

(** ** What is remembered *)

Lemma annotate_one_tick atan2 c v o m : last_seen_tick (annotate_one atan2 c v o m).1 = v_tick v.
Proof.
  unfold annotate_one, track_near, track_motion, count_parked. simpl. destruct (is_vehicle (o_label o)), (near_anchor c (v_anchors v) o);
    simpl; repeat case_match; reflexivity.
Qed.

(** After every frame the annotator remembers only tracks seen within the last
    [stale_state_frames] frames. *)
Theorem memories_are_recent atan2 now w h zones anchors objects a t m :
  memories (annotate atan2 now w h zones anchors objects a).1 !! t = Some m ->
  sat_sub (frame_tick (annotate atan2 now w h zones anchors objects a).1) (last_seen_tick m) <= stale_state_frames (ann_cfg a).
Proof.
  unfold annotate. destruct objects as [|o os].
  - simpl. intros [_ H]%map_lookup_filter_Some. exact H.
  - destruct (annotate_all _ _ _ _ _) as [ms out]. simpl. intros [_ H]%map_lookup_filter_Some. exact H.
Qed.

(** ** Through a door *)

Definition demo_zone : ZoneConfig :=
  mkZone "door" "Door" [(fzero, fzero); (f32_half, fzero); (f32_half, f32_of_Z 1); (fzero, f32_of_Z 1)] Inclusion None.

Definition demo_walker (x : Z) : TrackedObject :=
  mkObject 4 "person" (f32_of_Z 1) (mkBBox (f32_of_Z x) (f32_of_Z 100) (f32_of_Z (x + 40)) (f32_of_Z 200)) None 1 0 ∅.

Definition demo_frames (xs : list Z) : list (option JsonValue) :=
  (foldl (fun '(a, out, t) x =>
    let '(a, os) := annotate (fun _ _ => fzero) t 640 480 [demo_zone] [] [demo_walker x] a in
    (a, out ++ ((fun o => attributes o !! "motion.zone_state") <$> os), t + secs 1))
    (annotator_new annotator_default, [], secs 10) xs).1.2.

Example in_and_out : demo_frames [500; 200; 100; 400] =
  [Some (JString "outside"); Some (JString "entering"); Some (JString "inside"); Some (JString "exiting")].
Proof. vm_compute. reflexivity. Qed.

Lemma zone_state_is_by_positions_witness :
  z_state (walk_zones 640 480 [demo_zone] (f32_of_Z 100, f32_of_Z 100) ∅) = "entering".
Proof.
  destruct (zone_state_is_by_positions 640 480 [demo_zone] (f32_of_Z 100, f32_of_Z 100) ∅) as (H & _);
    [apply NoDup_singleton|]. rewrite H. vm_compute. reflexivity.
Defined.
