(* ===== verification/Sightings.v ===== *)
(** Entity sightings: the scheduler of [nexus-pipeline/src/entity_sighting.rs], which says when a
    track's picture is sent on, and the table that carries the tracks' local ids over a restart
    ([nexus-store/src/entity.rs]).

    [captured_mono] and the wall clock are nanoseconds. Fresh ids and the jitter drawn for a first
    emission are arguments of a tick, as are the frame's objects. Track ids are below [2 ^ 63]. *)
From S2P Require Import Prelude Types Float Alert.

(** ** The scheduler *)

Record EntityLocalSeed := mkSeed {
  sd_camera : Z;
  sd_track : Z;
  sd_local_id : string;
  sd_started : Z;
  sd_last_seen : Z;
}.

Record SightingSnapshot := mkSighting {
  si_camera : Z;
  si_track : Z;
  si_local_id : string;
  si_frame : Z;
  si_bbox : BBox;
  si_confidence : f32;
  si_started : Z;
  si_ts : Z;
  si_is_first : bool;
  si_label : string;
}.

Record TrackState := mkTrackState {
  local_id : string;
  started_ts : Z;
  last_emit_at : option Z;
  last_seen_at : Z;
}.

Record SightingScheduler := mkScheduler {
  sch_camera : Z;
  min_track_age_frames : Z;
  emit_interval : Z;
  crowded_track_threshold : Z;
  crowded_emit_interval : Z;
  track_gc_after : Z;
  sch_tracks : gmap Z TrackState;
  sch_seed : gmap Z EntityLocalSeed;
  jitter_first_emit : bool;
}.

(** [seed] into a map: of two seeds of a track, the later one stays. *)
Definition seed_map (cam : Z) (l : list EntityLocalSeed) : gmap Z EntityLocalSeed :=
  foldl (fun m s => if sd_camera s =? cam then <[sd_track s := s]> m else m) ∅ l.

Definition new_with_persistence (cam min_age interval : Z) (l : list EntityLocalSeed) : SightingScheduler :=
  mkScheduler cam min_age interval 0 0 (Z.max (interval * 2) (secs 10)) ∅ (seed_map cam l) false.

Definition with_first_emit_jitter (s : SightingScheduler) : SightingScheduler :=
  mkScheduler (sch_camera s) (min_track_age_frames s) (emit_interval s) (crowded_track_threshold s)
    (crowded_emit_interval s) (track_gc_after s) (sch_tracks s) (sch_seed s) true.

Definition with_crowded_cadence (threshold interval : Z) (s : SightingScheduler) : SightingScheduler :=
  mkScheduler (sch_camera s) (min_track_age_frames s) (emit_interval s) threshold interval (track_gc_after s)
    (sch_tracks s) (sch_seed s) (jitter_first_emit s).

Definition with_tracks (t : gmap Z TrackState) (d : gmap Z EntityLocalSeed) (s : SightingScheduler) : SightingScheduler :=
  mkScheduler (sch_camera s) (min_track_age_frames s) (emit_interval s) (crowded_track_threshold s)
    (crowded_emit_interval s) (track_gc_after s) t d (jitter_first_emit s).

(** What the persistence sink is told. *)
Inductive PersistCall :=
| Upsert (camera track : Z) (local_id : string) (started last_seen : Z)
| Delete (camera track : Z).

(** A tick: the frame's id and stamps, the objects, the ids and draws at hand. *)
Record Tick := mkTick {
  t_frame : Z;
  t_mono : Z;
  t_now : Z;
  t_tracked : list TrackedObject;
  t_fresh : Z -> string;
  t_draw : Z -> Z;
}.

Definition periodic_interval (s : SightingScheduler) (t : Tick) : Z :=
  if (0 <? crowded_track_threshold s) && (crowded_track_threshold s <? zlength (t_tracked t))
  then crowded_emit_interval s else emit_interval s.

(** The track's entry, made from a seed or anew when there is none, seen now. *)
Definition touch (s : SightingScheduler) (t : Tick) (i : Z) : TrackState :=
  let e :=
    match sch_tracks s !! i with
    | Some e => e
    | None =>
        match sch_seed s !! i with
        | Some d => mkTrackState (sd_local_id d) (sd_started d) None (t_mono t)
        | None => mkTrackState (t_fresh t i) (t_now t) None (t_mono t)
        end
    end in
  mkTrackState (local_id e) (started_ts e) (last_emit_at e) (t_mono t).

(** [Some is_first] when a snapshot is due. *)
Definition due (s : SightingScheduler) (t : Tick) (o : TrackedObject) (e : TrackState) : option bool :=
  match last_emit_at e with
  | None => if min_track_age_frames s <=? age_frames o then Some true else None
  | Some prev => if periodic_interval s t <=? sat_sub (t_mono t) prev then Some false else None
  end.

(** The stamp of an emission: a first one is back-dated by a draw from [0, emit_interval), when the
    clock goes back that far. *)
Definition emit_stamp (s : SightingScheduler) (t : Tick) (i : Z) (is_first : bool) : Z :=
  if is_first && jitter_first_emit s && (0 <? as_millis (emit_interval s)) then
    let back := t_mono t - millis (t_draw t i) in
    if 0 <=? back then back else t_mono t
  else t_mono t.

Definition sight (t : Tick) (o : TrackedObject) (s : SightingScheduler) :
    SightingScheduler * list (SightingSnapshot * PersistCall) :=
  let i := o_track_id o in
  let e := touch s t i in
  let seeds := delete i (sch_seed s) in
  match due s t o e with
  | Some is_first =>
      (with_tracks (<[i := mkTrackState (local_id e) (started_ts e) (Some (emit_stamp s t i is_first)) (t_mono t)]> (sch_tracks s))
         seeds s,
       [(mkSighting (sch_camera s) i (local_id e) (t_frame t) (o_bbox o) (confidence o) (started_ts e) (t_now t) is_first (o_label o),
         Upsert (sch_camera s) i (local_id e) (started_ts e) (t_now t))])
  | None => (with_tracks (<[i := e]> (sch_tracks s)) seeds s, [])
  end.

Fixpoint sight_all (t : Tick) (os : list TrackedObject) (s : SightingScheduler) :
    SightingScheduler * list (SightingSnapshot * PersistCall) :=
  match os with
  | [] => (s, [])
  | o :: os' =>
      let '(s, out) := sight t o s in
      let '(s, outs) := sight_all t os' s in
      (s, out ++ outs)
  end.

Definition kept (s : SightingScheduler) (mono : Z) (e : TrackState) : bool :=
  sat_sub mono (last_seen_at e) <? track_gc_after s.

(** The collection: what stays, and the tracks to delete, in the map's order. *)
Definition collect (t : Tick) (s : SightingScheduler) : SightingScheduler * list PersistCall :=
  (with_tracks (filter (fun kv => kept s (t_mono t) kv.2 = true) (sch_tracks s))
     (filter (fun kv => t_now t - sd_last_seen kv.2 < track_gc_after s) (sch_seed s)) s,
   (fun kv => Delete (sch_camera s) kv.1) <$> map_to_list (filter (fun kv => kept s (t_mono t) kv.2 = false) (sch_tracks s))).

Definition tick (t : Tick) (s : SightingScheduler) : SightingScheduler * (list SightingSnapshot * list PersistCall) :=
  let '(s, out) := sight_all t (t_tracked t) s in
  let '(s, gone) := collect t s in
  (s, (out.*1, out.*2 ++ gone)).

#[export] Instance sighting_machine : Machine Tick SightingScheduler (list SightingSnapshot * list PersistCall) := tick.

(** ** The table *)

Record EntityLocalRecord := mkRecord { el_local_id : string; el_started : Z; el_last_seen : Z }.

Definition EntityTable : Type := gmap (Z * Z) EntityLocalRecord.

Definition upsert_entity_local (cam track : Z) (id : string) (started last_seen : Z) (db : EntityTable) : EntityTable :=
  <[(cam, track) := mkRecord id (from_option el_started started (db !! (cam, track))) last_seen]> db.

Definition delete_entity_local (cam track : Z) (db : EntityTable) : EntityTable := delete (cam, track) db.

Definition prune_entity_local_state (older_than : Z) (db : EntityTable) : EntityTable :=
  filter (fun kv => older_than <= el_last_seen kv.2) db.

Definition load_recent_entity_locals_for_camera (cam since : Z) (db : EntityTable) : list EntityLocalSeed :=
  omap (fun kv => if (kv.1.1 =? cam) && (since <=? el_last_seen kv.2)
                  then Some (mkSeed kv.1.1 kv.1.2 (el_local_id kv.2) (el_started kv.2) (el_last_seen kv.2)) else None)
    (map_to_list db).

Definition persist (c : PersistCall) (db : EntityTable) : EntityTable :=
  match c with
  | Upsert cam track id started last_seen => upsert_entity_local cam track id started last_seen db
  | Delete cam track => delete_entity_local cam track db
  end.

(** ** The table mirrors the scheduler *)

(** Every track that was sent on has a row under its id. *)
Definition mirrored (s : SightingScheduler) (db : EntityTable) : Prop :=
  forall i e, sch_tracks s !! i = Some e -> is_Some (last_emit_at e) ->
    exists r, db !! (sch_camera s, i) = Some r /\ el_local_id r = local_id e.

Definition same_scheduler (s s' : SightingScheduler) : Prop :=
  sch_camera s' = sch_camera s /\ track_gc_after s' = track_gc_after s.

(** A track keeps its id as long as the scheduler remembers it. *)
Definition ids_kept (s s' : SightingScheduler) : Prop :=
  forall i e, sch_tracks s !! i = Some e -> exists e', sch_tracks s' !! i = Some e' /\ local_id e' = local_id e /\ started_ts e' = started_ts e.

Lemma ids_kept_trans s1 s2 s3 : ids_kept s1 s2 -> ids_kept s2 s3 -> ids_kept s1 s3.
Proof.
  intros H1 H2 i e (e2 & E2 & I2 & T2)%H1. destruct (H2 _ _ E2) as (e3 & E3 & I3 & T3). exists e3.
  split_and!; [done|congruence|congruence].
Qed.

Lemma touch_known s t i e : sch_tracks s !! i = Some e ->
  local_id (touch s t i) = local_id e /\ started_ts (touch s t i) = started_ts e /\ last_emit_at (touch s t i) = last_emit_at e.
Proof. unfold touch. by intros ->. Qed.

Lemma sight_ok t o s db :
  let '(s', out) := sight t o s in
  same_scheduler s s' /\ ids_kept s s' /\ (mirrored s db -> mirrored s' (foldl (fun db c => persist c db) db out.*2)).
Proof.
  unfold sight. set (i := o_track_id o).
  assert (forall e', local_id e' = local_id (touch s t i) -> started_ts e' = started_ts (touch s t i) ->
    ids_kept s (with_tracks (<[i := e']> (sch_tracks s)) (delete i (sch_seed s)) s)) as Hkept.
  { intros e' Hid Hst j e Hj. simpl. destruct (decide (i = j)) as [<-|Hne].
    - exists e'. rewrite lookup_insert_eq. destruct (touch_known s t i e Hj) as (H1 & H2 & _). split_and!; [done|congruence|congruence].
    - exists e. by rewrite lookup_insert_ne. }
  destruct (due s t o (touch s t i)) as [is_first|] eqn:Ed; (split; [done|split; [by apply Hkept|]]); intros Hm j e Hj He; simpl in *.
  - destruct (decide (i = j)) as [<-|Hne].
    + rewrite lookup_insert_eq in Hj. injection Hj as <-. eexists. split; [apply lookup_insert_eq|done].
    + rewrite lookup_insert_ne in Hj by done. destruct (Hm j e Hj He) as (r & Hr & Hid). exists r. split; [|done].
      etransitivity; [apply lookup_insert_ne; congruence|done].
  - destruct (decide (i = j)) as [<-|Hne].
    + rewrite lookup_insert_eq in Hj. injection Hj as <-.
      destruct (sch_tracks s !! i) as [e|] eqn:E.
      * destruct (touch_known s t i e E) as (H1 & H2 & H3). rewrite H3 in He. destruct (Hm i e E He) as (r & Hr & Hid).
        exists r. split; [done|congruence].
      * unfold touch in He. rewrite E in He. by destruct (sch_seed s !! i), He.
    + rewrite lookup_insert_ne in Hj by done. by apply Hm.
Qed.

Lemma sight_all_ok t os s db :
  let '(s', out) := sight_all t os s in
  same_scheduler s s' /\ ids_kept s s' /\ (mirrored s db -> mirrored s' (foldl (fun db c => persist c db) db out.*2)).
Proof.
  revert s db. induction os as [|o os IH]; intros s db; simpl.
  { split_and!; [by split|intros i e H; by exists e|done]. }
  pose proof (sight_ok t o s db) as H1. destruct (sight t o s) as [s1 out1].
  destruct H1 as ((C1 & G1) & K1 & M1). specialize (IH s1 (foldl (fun db c => persist c db) db out1.*2)).
  destruct (sight_all t os s1) as [s2 outs]. destruct IH as ((C2 & G2) & K2 & M2).
  split_and!; [by split; congruence|by eapply ids_kept_trans|]. rewrite fmap_app, foldl_app. auto.
Qed.

(** What a tick reports is a picture of one of its objects. *)
Lemma sight_all_sources t os s x :
  x ∈ (sight_all t os s).2.*1 -> exists o, o ∈ os /\ si_track x = o_track_id o /\ si_bbox x = o_bbox o /\ si_label x = o_label o.
Proof.
  revert s. induction os as [|o os IH]; intros s; simpl; [intros H; by apply elem_of_nil in H|].
  destruct (sight t o s) as [s1 out1] eqn:E1. specialize (IH s1). destruct (sight_all t os s1) as [s2 outs]. simpl in *.
  rewrite fmap_app, elem_of_app. intros [H|H].
  - exists o. split; [by left|]. unfold sight in E1. destruct (due _ _ _ _); injection E1 as _ <-; simpl in H; [|by apply elem_of_nil in H].
    by apply list_elem_of_singleton in H as ->.
  - destruct (IH H) as (o' & Ho & Hrest). exists o'. split; [by right|done].
Qed.

Lemma tick_pictures t s x :
  x ∈ (tick t s).2.1 -> exists o, o ∈ t_tracked t /\ si_track x = o_track_id o /\ si_bbox x = o_bbox o /\ si_label x = o_label o.
Proof.
  unfold tick. pose proof (sight_all_sources t (t_tracked t) s x) as H. destruct (sight_all _ _ _) as [s1 out]. destruct (collect _ _) as [s2 gone]. exact H.
Qed.

Lemma persist_deletes cam l (db : EntityTable) j :
  (forall c, c ∈ l -> exists i, c = Delete cam i /\ i <> j) ->
  foldl (fun db c => persist c db) db l !! (cam, j) = db !! (cam, j).
Proof.
  revert db. induction l as [|c l IH]; intros db Hl; [done|]. simpl. rewrite IH.
  - destruct (Hl c ltac:(by left)) as (i & -> & Hne). simpl. apply lookup_delete_ne. congruence.
  - intros c' Hc'. apply Hl. by right.
Qed.

Lemma collect_ok t s db :
  let '(s', gone) := collect t s in
  same_scheduler s s' /\ (mirrored s db -> mirrored s' (foldl (fun db c => persist c db) db gone)) /\
  (forall i e, sch_tracks s' !! i = Some e <-> sch_tracks s !! i = Some e /\ kept s (t_mono t) e = true).
Proof.
  unfold collect. split_and!; [by split| |intros i e; simpl; apply map_lookup_filter_Some].
  intros Hm j e Hj He. simpl in *. apply map_lookup_filter_Some in Hj as [Hj Hk]. simpl in Hk.
  rewrite persist_deletes; [by apply Hm|]. intros c ([i e'] & -> & Hin)%list_elem_of_fmap. exists i. split; [done|].
  intros ->. apply elem_of_map_to_list, map_lookup_filter_Some in Hin as [Hi Hk']. simpl in Hk'. congruence.
Qed.

(** A tick on scheduler and table together. *)
Definition world_tick (t : Tick) (w : SightingScheduler * EntityTable) : SightingScheduler * EntityTable :=
  let '(s, (_, calls)) := tick t w.1 in (s, foldl (fun db c => persist c db) w.2 calls).

Lemma world_tick_ok t w :
  mirrored w.1 w.2 -> mirrored (world_tick t w).1 (world_tick t w).2 /\ same_scheduler w.1 (world_tick t w).1 /\
  forall i e, sch_tracks (world_tick t w).1 !! i = Some e -> sat_sub (t_mono t) (last_seen_at e) < track_gc_after w.1.
Proof.
  intros Hm. unfold world_tick, tick. pose proof (sight_all_ok t (t_tracked t) w.1 w.2) as H1.
  destruct (sight_all t (t_tracked t) w.1) as [s1 out]. destruct H1 as ((C1 & G1) & _ & M1).
  pose proof (collect_ok t s1 (foldl (fun db c => persist c db) w.2 out.*2)) as H2.
  destruct (collect t s1) as [s2 gone]. destruct H2 as ((C2 & G2) & M2 & K2). simpl. rewrite foldl_app.
  split_and!; [auto|by split; congruence|]. intros i e [_ Hk]%K2. unfold kept in Hk. rewrite <-G1. by apply Z.ltb_lt.
Qed.

(** ** Over a restart *)

Lemma seed_map_lookup cam i d (l : list EntityLocalSeed) (m : gmap Z EntityLocalSeed) :
  sd_camera d = cam -> sd_track d = i ->
  (forall x, x ∈ l -> sd_camera x = cam -> sd_track x = i -> x = d) -> m !! i = Some d \/ d ∈ l ->
  foldl (fun m s => if sd_camera s =? cam then <[sd_track s := s]> m else m) m l !! i = Some d.
Proof.
  intros Hc Hi. revert m. induction l as [|x l IH]; intros m Hu Hd; simpl.
  { by destruct Hd as [|Hd%elem_of_nil]. }
  apply IH; [intros y Hy; apply Hu; by right|].
  destruct (Z.eqb_spec (sd_camera x) cam) as [Hx|Hx].
  - destruct (decide (sd_track x = i)) as [Ht|Ht].
    + left. rewrite (Hu x ltac:(by left) Hx Ht), <-Hi. by rewrite lookup_insert_eq.
    + destruct Hd as [Hd|[->|Hd]%elem_of_cons]; [left; by rewrite lookup_insert_ne|done|by right].
  - destruct Hd as [Hd|[->|Hd]%elem_of_cons]; [by left|done|by right].
Qed.

Lemma loaded_seed cam i since (db : EntityTable) r :
  db !! (cam, i) = Some r -> since <= el_last_seen r ->
  seed_map cam (load_recent_entity_locals_for_camera cam since db) !! i =
    Some (mkSeed cam i (el_local_id r) (el_started r) (el_last_seen r)).
Proof.
  intros Hr Hs. apply seed_map_lookup; [done|done| |right].
  - intros x ([[c t] r'] & Hin & Hx)%list_elem_of_omap Hc Ht. simpl in Hx.
    destruct ((c =? cam) && (since <=? el_last_seen r')); [|done]. injection Hx as <-. simpl in Hc, Ht. subst c t.
    apply elem_of_map_to_list in Hin. pose proof (eq_trans (eq_sym Hr) Hin) as E. by injection E as <-.
  - apply list_elem_of_omap. exists ((cam, i), r). split; [by apply elem_of_map_to_list|]. simpl.
    rewrite Z.eqb_refl. by replace (since <=? el_last_seen r) with true by (symmetry; by apply Z.leb_le).
Qed.

(** The scheduler has [id] for track [i], from an entry or from a seed. *)
Definition knows (i : Z) (id : string) (s : SightingScheduler) : Prop :=
  match sch_tracks s !! i with
  | Some e => local_id e = id
  | None => exists d, sch_seed s !! i = Some d /\ sd_local_id d = id
  end.

Lemma touch_knows i id s t : knows i id s -> local_id (touch s t i) = id.
Proof.
  unfold knows, touch. destruct (sch_tracks s !! i) as [e|]; [done|]. by intros (d & -> & Hd).
Qed.

Lemma sight_knows i id t o s :
  knows i id s -> let '(s', out) := sight t o s in
  knows i id s' /\ Forall (fun x => si_track x = i -> si_local_id x = id) out.*1.
Proof.
  intros Hk. unfold sight. pose proof (touch_knows i id s t Hk) as Ht.
  assert (forall e', local_id e' = local_id (touch s t (o_track_id o)) ->
    knows i id (with_tracks (<[o_track_id o := e']> (sch_tracks s)) (delete (o_track_id o) (sch_seed s)) s)) as Hn.
  { intros e' He. unfold knows in *. simpl. destruct (decide (o_track_id o = i)) as [<-|Hne].
    - rewrite lookup_insert_eq. congruence.
    - rewrite lookup_insert_ne, lookup_delete_ne by done. done. }
  destruct (due s t o (touch s t (o_track_id o))); (split; [by apply Hn|]); [|constructor].
  apply Forall_singleton. simpl. by intros <-.
Qed.

Lemma sight_all_knows i id t os s :
  knows i id s -> let '(s', out) := sight_all t os s in
  knows i id s' /\ Forall (fun x => si_track x = i -> si_local_id x = id) out.*1.
Proof.
  revert s. induction os as [|o os IH]; intros s Hk; simpl; [split; [done|constructor]|].
  pose proof (sight_knows i id t o s Hk) as H1. destruct (sight t o s) as [s1 out1]. destruct H1 as [K1 F1].
  specialize (IH s1 K1). destruct (sight_all t os s1) as [s2 outs]. destruct IH as [K2 F2]. split; [done|].
  rewrite fmap_app. by apply Forall_app.
Qed.

(** A seed waits for its track while its horizon lasts. *)
Definition waits (i : Z) (d : EntityLocalSeed) (s : SightingScheduler) : Prop := sch_tracks s !! i = None /\ sch_seed s !! i = Some d.

Definition not_shown (i : Z) (t : Tick) : Prop := Forall (fun o => o_track_id o <> i) (t_tracked t).

Lemma sight_all_waits i d t os s :
  Forall (fun o => o_track_id o <> i) os -> waits i d s -> waits i d (sight_all t os s).1.
Proof.
  revert s. induction os as [|o os IH]; intros s Hns Hw; [done|]. apply Forall_cons in Hns as [Ho Hns]. simpl.
  assert (waits i d (sight t o s).1) as H1.
  { destruct Hw as [H1 H2]. unfold sight. destruct (due _ _ _ _); unfold waits; simpl;
      rewrite lookup_insert_ne, lookup_delete_ne by done; done. }
  destruct (sight t o s) as [s1 out1]. specialize (IH s1 Hns H1). by destruct (sight_all t os s1).
Qed.

Lemma tick_waits i d t s :
  not_shown i t -> t_now t - sd_last_seen d < track_gc_after s -> waits i d s ->
  waits i d (tick t s).1 /\ track_gc_after (tick t s).1 = track_gc_after s.
Proof.
  intros Hns Hh Hw. unfold tick. pose proof (sight_all_waits i d t (t_tracked t) s Hns Hw) as H1.
  pose proof (sight_all_ok t (t_tracked t) s ∅) as H2. destruct (sight_all t (t_tracked t) s) as [s1 out].
  destruct H2 as ((_ & G) & _). simpl in *. split; [|done]. destruct H1 as [H1 H3]. split; simpl.
  - apply map_lookup_filter_None. by left.
  - apply map_lookup_filter_Some. split; [done|]. simpl. by rewrite G.
Qed.

Lemma run_waits i d ts s :
  Forall (fun t => not_shown i t /\ t_now t - sd_last_seen d < track_gc_after s) ts -> waits i d s ->
  waits i d (mrun ts s).1.
Proof.
  revert s. induction ts as [|t ts IH]; intros s Hts Hw; [done|]. apply Forall_cons in Hts as [[Hn Hh] Hts].
  rewrite mrun_cons. change (mstep t s) with (tick t s).
  destruct (tick_waits i d t s Hn Hh Hw) as [H1 H2]. simpl. apply IH; [|done]. by rewrite H2.
Qed.

(** An entity keeps its local id over a restart. Whatever the scheduler did on its table, a track it
    has sent on has a row under its id; a scheduler that is started from the rows seen since some
    time, when the row is among them, gives the track the same id in every snapshot of the tick that first
    shows it again, as long as the row has not outlived the collection window by then. *)
Theorem entity_keeps_its_id_over_a_restart s0 db0 ticks i e since s1 gap t :
  sch_tracks s0 = ∅ ->
  let w := foldl (fun w t => world_tick t w) (s0, db0) ticks in
  sch_tracks w.1 !! i = Some e -> is_Some (last_emit_at e) ->
  sch_tracks s1 = ∅ ->
  sch_seed s1 = seed_map (sch_camera s0) (load_recent_entity_locals_for_camera (sch_camera s0) since w.2) ->
  exists r, w.2 !! (sch_camera s0, i) = Some r /\ el_local_id r = local_id e /\
    (since <= el_last_seen r ->
     Forall (fun t => not_shown i t /\ t_now t - el_last_seen r < track_gc_after s1) gap ->
     Forall (fun x => si_track x = i -> si_local_id x = local_id e) (tick t (mrun gap s1).1).2.1).
Proof.
  intros H0 w Hi He H1 Hseed.
  assert (mirrored w.1 w.2 /\ sch_camera w.1 = sch_camera s0) as [Hm Hcam].
  { subst w. clear - H0. assert (mirrored (s0, db0).1 (s0, db0).2 /\ sch_camera (s0, db0).1 = sch_camera s0) as H.
    { split; [|done]. intros i e Hi. simpl in Hi. by rewrite H0, lookup_empty in Hi. }
    revert H. generalize (s0, db0). induction ticks as [|t ticks IH]; intros w [Hm Hc]; [done|]. simpl. apply IH.
    destruct (world_tick_ok t w Hm) as (H1 & (H2 & _) & _). split; [done|congruence]. }
  destruct (Hm i e Hi He) as (r & Hr & Hid). rewrite Hcam in Hr. exists r. split_and!; [done|done|]. intros Hs Hgap.
  pose proof (loaded_seed (sch_camera s0) i since w.2 r Hr Hs) as Hl. rewrite <-Hseed in Hl.
  assert (waits i (mkSeed (sch_camera s0) i (el_local_id r) (el_started r) (el_last_seen r)) (mrun gap s1).1) as [W1 W2].
  { apply run_waits; [done|]. split; [by rewrite H1|done]. }
  assert (knows i (local_id e) (mrun gap s1).1) as Hk by (unfold knows; rewrite W1; eauto).
  unfold tick. pose proof (sight_all_knows i (local_id e) t (t_tracked t) (mrun gap s1).1 Hk) as Hf.
  destruct (sight_all t (t_tracked t) (mrun gap s1).1) as [s2 out]. by destruct Hf.
Qed.

(** ** A walk past the camera, and a restart *)

Definition demo_object (i age : Z) : TrackedObject :=
  mkObject i "person" (f32_of_Z 1) (mkBBox fzero fzero (f32_of_Z 10) (f32_of_Z 10)) None age 0 ∅.

Definition demo_tick (s : Z) (os : list TrackedObject) : Tick :=
  mkTick s (secs s) (secs (1000 + s)) os (fun i => "id at " +:+ (if s <? 100 then "first" else "second")) (fun _ => 250).

Definition demo_scheduler (l : list EntityLocalSeed) : SightingScheduler :=
  with_first_emit_jitter (with_crowded_cadence 4 (secs 20) (new_with_persistence 1 2 (secs 5) l)).

Definition demo_world : SightingScheduler * EntityTable :=
  foldl (fun w t => world_tick t w) (demo_scheduler [], ∅) [demo_tick 1 [demo_object 7 1]; demo_tick 2 [demo_object 7 2]].

Definition demo_restarted : SightingScheduler :=
  demo_scheduler (load_recent_entity_locals_for_camera 1 (secs 990) demo_world.2).

Lemma entity_keeps_its_id_over_a_restart_witness :
  Forall (fun x => si_track x = 7 -> si_local_id x = "id at first")
    (tick (demo_tick 8 [demo_object 7 9]) (mrun [demo_tick 6 []] demo_restarted).1).2.1 /\
  length (tick (demo_tick 8 [demo_object 7 9]) (mrun [demo_tick 6 []] demo_restarted).1).2.1 = 1%nat.
Proof.
  split; [|vm_compute; reflexivity].
  destruct (entity_keeps_its_id_over_a_restart (demo_scheduler []) ∅
    [demo_tick 1 [demo_object 7 1]; demo_tick 2 [demo_object 7 2]] 7
    (mkTrackState "id at first" (secs 1001) (Some (secs 2 - millis 250)) (secs 2)) (secs 990) demo_restarted [demo_tick 6 []]
    (demo_tick 8 [demo_object 7 9]) eq_refl) as (r & Hr & Hid & H).
  - vm_compute. reflexivity.
  - by eexists.
  - vm_compute. reflexivity.
  - vm_compute. reflexivity.
  - assert (r = mkRecord "id at first" (secs 1001) (secs 1002)) as ->.
    { vm_compute in Hr. injection Hr as <-. vm_compute. reflexivity. }
    simpl local_id in H. apply H; [vm_compute; discriminate|].
    apply Forall_singleton. split; [constructor|vm_compute; reflexivity].
Defined.

(** A row that no restart found in time keeps its start: the next track of that number gets a
    new id under the old start. *)
Example a_stale_row_keeps_its_start :
  let w := world_tick (demo_tick 200 [demo_object 7 2]) (demo_scheduler [], demo_world.2) in
  w.2 !! (1, 7) = Some (mkRecord "id at second" (secs 1001) (secs 1200)) /\
  (started_ts <$> sch_tracks w.1 !! 7) = Some (secs 1200).
Proof. split; vm_compute; reflexivity. Qed.
