(* ===== verification/ClipLoop.v ===== *)
(** The recording half of a camera's frame loop ([nexus-pipeline/src/supervisor.rs]): when a clip is
    rotated, opened, retried and closed, which motion rows and alerts are put on it, and the close
    at the end of the pipeline.

    The recorder ([nexus-pipeline/src/recorder.rs]) is known by its answers: a call and its answer are an
    entry of the trace a step leaves. Wall-clock and monotonic stamps are nanoseconds. What fails
    without an effect on the loop (a close, an insert, a link) leaves its call in the trace and no
    more; log lines are left out, and with them the flag that spaces them. *)
From S2P Require Import Prelude PostRoll MotionEvents.

Definition MAX_CLIP_DURATION_MS : Z := 5 * 60 * 1000.
Definition SIZE_STAT_INTERVAL_FRAMES : Z := 60.
Definition OPEN_RETRY_MIN : Z := millis 500.
Definition OPEN_RETRY_MAX : Z := secs 30.

Record ClipHandle := mkHandle { clip_id : Z; h_camera : Z }.

#[export] Instance ClipHandle_eq_dec : EqDecision ClipHandle.
Proof. solve_decision. Defined.

Inductive OpenAnswer := Opened (h : ClipHandle) | OpenRefused | OpenFailed.

(** What the recorder says on a frame, when it is asked. *)
Record RecorderAnswers := mkAnswers {
  a_size : option Z;
  a_epoch_changed : bool;
  a_panic : bool;
  a_open : OpenAnswer;
  a_panic_after : bool;
}.

Inductive ClipCall :=
| Open (started_at width height : Z) (answer : OpenAnswer)
| Close (h : ClipHandle) (ended_at : Z)
| InsertMotion (h : ClipHandle) (d : MotionDecision)
| LinkEvent (event : string) (clip : Z).

Record ClipState := mkClips {
  current_clip : option ClipHandle;
  clip_opened_at : option Z;
  pending_open : bool;
  open_retry_at : option Z;
  open_retry_delay : Z;
  open_panic_refused : bool;
  frames_since_size_stat : Z;
  post_roll : PostRoll;
}.

Definition clips_new (post_roll_secs : Z) : ClipState :=
  mkClips None None false None OPEN_RETRY_MIN false 0 (PostRoll.new post_roll_secs).

(** A stamp of the frame: its wall-clock and monotonic times. *)
Record Stamp := mkStamp { wall : Z; mono : Z }.

(** ** Rotation *)

(** The size check, every sixtieth frame: the new count, and whether the clip is too large. *)
Definition size_check (max_clip_bytes : Z) (size : option Z) (n : Z) : Z * bool :=
  if 0 <? max_clip_bytes then
    let n := n + 1 in
    if SIZE_STAT_INTERVAL_FRAMES <=? n then (0, match size with Some b => max_clip_bytes <=? b | None => false end)
    else (n, false)
  else (n, false).

(** The clip is closed, and its motion wants another. *)
Definition close_for_reopen (at_ : Stamp) (h : ClipHandle) (s : ClipState) : ClipState * list ClipCall :=
  (mkClips None None true (open_retry_at s) (open_retry_delay s) (open_panic_refused s) 0 (post_roll s), [Close h (wall at_)]).

Definition rotate (max_clip_bytes : Z) (at_ : Stamp) (a : RecorderAnswers) (s : ClipState) : ClipState * list ClipCall :=
  match current_clip s, clip_opened_at s with
  | Some h, Some opened =>
      let duration_exceeded := MAX_CLIP_DURATION_MS <=? as_millis (sat_sub (mono at_) opened) in
      let '(n, size_exceeded) := size_check max_clip_bytes (a_size a) (frames_since_size_stat s) in
      let s := mkClips (current_clip s) (clip_opened_at s) (pending_open s) (open_retry_at s) (open_retry_delay s)
        (open_panic_refused s) n (post_roll s) in
      if duration_exceeded || size_exceeded || a_epoch_changed a then close_for_reopen at_ h s else (s, [])
  | _, _ => (s, [])
  end.

(** The frame size flipped: the open clip, if any, is closed before the source is rebuilt. *)
Definition resize_close (at_ : Stamp) (s : ClipState) : ClipState * list ClipCall :=
  match current_clip s with
  | Some h => close_for_reopen at_ h s
  | None => (s, [])
  end.

(** ** The motion lifecycle of a frame *)

Record Activity := mkActivity {
  (** What the emitter decided, and whether it has a live track. *)
  decisions : list MotionDecision;
  live : bool;
  (** Whether alerts keep a clip ([record_motion_clip_on_alert]), and the alerts recorded. *)
  on_alert : bool;
  events : list string;
  dims : Z * Z;
}.

Definition alert_kept_alive (v : Activity) : bool := on_alert v && negb (bool_decide (events v = [])).

Definition has_born (v : Activity) : bool := existsb (fun d => bool_decide (d_kind d = Born)) (decisions v).

(** The deferred close has come: no demand is left. *)
Definition forget_demand (s : ClipState) : ClipState :=
  mkClips (current_clip s) (clip_opened_at s) false None OPEN_RETRY_MIN false (frames_since_size_stat s) (post_roll s).

Definition should_open (at_ : Stamp) (a : RecorderAnswers) (v : Activity) (s : ClipState) : bool :=
  negb (is_some (current_clip s)) && (negb (open_panic_refused s) || negb (a_panic a)) &&
  (open_panic_refused s || match open_retry_at s with Some t => t <=? mono at_ | None => true end) &&
  (pending_open s || alert_kept_alive v || has_born v).

Definition try_open (at_ : Stamp) (a : RecorderAnswers) (v : Activity) (s : ClipState) : ClipState * list ClipCall :=
  let delay := if open_panic_refused s then OPEN_RETRY_MIN else open_retry_delay s in
  let call := Open (wall at_) (dims v).1 (dims v).2 (a_open a) in
  match a_open a with
  | Opened h =>
      (mkClips (Some h) (Some (mono at_)) false None OPEN_RETRY_MIN false (frames_since_size_stat s) (post_roll s), [call])
  | e =>
      (mkClips None (clip_opened_at s) true (Some (mono at_ + delay)) (Z.min (delay * 2) OPEN_RETRY_MAX)
         (match e with OpenRefused => a_panic_after a | _ => false end) (frames_since_size_stat s) (post_roll s), [call])
  end.

Definition insert_decisions (v : Activity) (s : ClipState) : list ClipCall :=
  match current_clip s with Some h => InsertMotion h <$> decisions v | None => [] end.

Definition link_events (v : Activity) (s : ClipState) : list ClipCall :=
  match current_clip s with Some h => (fun e => LinkEvent e (clip_id h)) <$> events v | None => [] end.

Definition close_now (at_ : Stamp) (s : ClipState) : ClipState * list ClipCall :=
  match current_clip s with
  | Some h => (mkClips None None (pending_open s) (open_retry_at s) (open_retry_delay s) (open_panic_refused s)
                 (frames_since_size_stat s) (post_roll s), [Close h (wall at_)])
  | None => (s, [])
  end.

Definition set_post_roll (p : PostRoll) (s : ClipState) : ClipState :=
  mkClips (current_clip s) (clip_opened_at s) (pending_open s) (open_retry_at s) (open_retry_delay s)
    (open_panic_refused s) (frames_since_size_stat s) p.

Definition lifecycle (at_ : Stamp) (a : RecorderAnswers) (v : Activity) (s : ClipState) : ClipState * list ClipCall :=
  let '(p, action) := PostRoll.tick (post_roll s) (mono at_) (live v || alert_kept_alive v) in
  let s := set_post_roll p s in
  let s := match action with CloseNow => forget_demand s | KeepOpen => s end in
  let '(s, opened) := if should_open at_ a v s then try_open at_ a v s else (s, []) in
  let rows := insert_decisions v s ++ link_events v s in
  let '(s, closed) := match action with CloseNow => close_now at_ s | KeepOpen => (s, []) end in
  (s, opened ++ rows ++ closed).

(** The pipeline ended. *)
Definition finish (now : Z) (s : ClipState) : ClipState * list ClipCall :=
  let s := set_post_roll (PostRoll.reset (post_roll s)) s in
  match current_clip s with
  | Some h => (mkClips None None (pending_open s) (open_retry_at s) (open_retry_delay s) (open_panic_refused s)
                 (frames_since_size_stat s) (post_roll s), [Close h now])
  | None => (s, [])
  end.

(** ** What a frame that passed the gate does to the clips

    The detector fails ([Undetected]), the frame size flips ([Flipped]), or the frame goes through. *)
Inductive ClipFrame :=
| Undetected (at_ : Stamp) (a : RecorderAnswers)
| Flipped (at_ : Stamp) (a : RecorderAnswers)
| Through (at_ : Stamp) (a : RecorderAnswers) (v : Activity).

Definition clip_step (max_clip_bytes : Z) (f : ClipFrame) (s : ClipState) : ClipState * list ClipCall :=
  match f with
  | Undetected at_ a => rotate max_clip_bytes at_ a s
  | Flipped at_ a =>
      let '(s, c1) := rotate max_clip_bytes at_ a s in
      let '(s, c2) := resize_close at_ s in
      (s, c1 ++ c2)
  | Through at_ a v =>
      let '(s, c1) := rotate max_clip_bytes at_ a s in
      let '(s, c2) := lifecycle at_ a v s in
      (s, c1 ++ c2)
  end.

#[export] Instance clip_machine (max_clip_bytes : Z) : Machine ClipFrame ClipState (list ClipCall) := clip_step max_clip_bytes.

(** ** What holds of a reachable state *)

Record clips_ok (s : ClipState) : Prop := {
  ok_opened : is_some (current_clip s) = is_some (clip_opened_at s);
  ok_retry : is_some (open_retry_at s) = true \/ open_panic_refused s = true -> pending_open s = true;
  ok_delay : OPEN_RETRY_MIN <= open_retry_delay s <= OPEN_RETRY_MAX;
}.

Lemma clips_new_ok n : clips_ok (clips_new n).
Proof. split; [done|by intros [H|H]|by vm_compute]. Qed.

Lemma close_for_reopen_ok at_ h s : clips_ok s -> clips_ok (close_for_reopen at_ h s).1.
Proof. intros [_ _ H]. by split. Qed.

Lemma rotate_ok m at_ a s : clips_ok s -> clips_ok (rotate m at_ a s).1.
Proof.
  intros H. unfold rotate. destruct (current_clip s) as [h|] eqn:Ec; [|done]. destruct (clip_opened_at s) as [o|] eqn:Eo; [|done].
  destruct (size_check _ _ _) as [n size]. destruct H as [H1 H2 H3].
  destruct (_ || _ || _); [by apply close_for_reopen_ok|]. simpl. split; simpl; done.
Qed.

Lemma try_open_ok at_ a v s : clips_ok s -> current_clip s = None -> clips_ok (try_open at_ a v s).1.
Proof.
  intros [H1 H2 H3] Hc. rewrite Hc in H1. unfold try_open.
  assert (OPEN_RETRY_MIN <= OPEN_RETRY_MIN <= OPEN_RETRY_MAX) as Hmin by (by vm_compute).
  assert (OPEN_RETRY_MIN <= Z.min ((if open_panic_refused s then OPEN_RETRY_MIN else open_retry_delay s) * 2) OPEN_RETRY_MAX <= OPEN_RETRY_MAX)
    as Hd by (destruct (open_panic_refused s); unfold OPEN_RETRY_MIN, OPEN_RETRY_MAX, millis, secs, ns_per_ms, ns_per_sec in *; lia).
  destruct (a_open a); split; simpl; try done; by intros [?|?].
Qed.

Lemma should_open_none at_ a v s : should_open at_ a v s = true -> current_clip s = None.
Proof. unfold should_open. by destruct (current_clip s). Qed.

Lemma lifecycle_ok at_ a v s : clips_ok s -> clips_ok (lifecycle at_ a v s).1.
Proof.
  intros H. unfold lifecycle. destruct (PostRoll.tick _ _ _) as [p action].
  set (s1 := match action with KeepOpen => _ | CloseNow => _ end).
  assert (clips_ok s1) as H1.
  { destruct H as [H1 H2 H3]. subst s1. destruct action; split; simpl; first [done|by intros [?|?]|by vm_compute]. }
  assert (clips_ok (if should_open at_ a v s1 then try_open at_ a v s1 else (s1, [])).1) as H2.
  { destruct (should_open at_ a v s1) eqn:E; [|done]. apply try_open_ok; [done|by eapply should_open_none]. }
  destruct (if should_open at_ a v s1 then _ else _) as [s2 c]. simpl in H2.
  destruct action; simpl; [done|]. unfold close_now. destruct (current_clip s2) eqn:Ec; [|done].
  destruct H2 as [A B C]. split; simpl; done.
Qed.

Lemma clip_step_ok m f s : clips_ok s -> clips_ok (clip_step m f s).1.
Proof.
  intros H. destruct f as [at_ a|at_ a|at_ a v]; simpl; [by apply rotate_ok| |];
    pose proof (rotate_ok m at_ a s H) as H1; destruct (rotate m at_ a s) as [s1 c1]; simpl in H1.
  - unfold resize_close. destruct (current_clip s1) as [c|]; [|done]. apply (close_for_reopen_ok at_ c). exact H1.
  - pose proof (lifecycle_ok at_ a v s1 H1) as H2. by destruct (lifecycle at_ a v s1).
Qed.

Lemma clips_reach m fs n : clips_ok (mrun (H:=clip_machine m) fs (clips_new n)).1.
Proof.
  apply (mrun_invariant (H:=clip_machine m) (fun _ => True) clips_ok); [intros f s _; apply clip_step_ok|by apply Forall_forall|apply clips_new_ok].
Qed.

(** ** Brackets

    A trace is read with the clip that is open: a clip is opened when none is, closed when it is the
    open one, and rows and alerts are put on the open one. *)
Definition read_call (cur : option ClipHandle) (c : ClipCall) : option (option ClipHandle) :=
  match c with
  | Open _ _ _ (Opened h) => if is_some cur then None else Some (Some h)
  | Open _ _ _ _ => if is_some cur then None else Some None
  | Close h _ => if bool_decide (cur = Some h) then Some None else None
  | InsertMotion h _ => if bool_decide (cur = Some h) then Some cur else None
  | LinkEvent _ k => if bool_decide (clip_id <$> cur = Some k) then Some cur else None
  end.

Fixpoint read_trace (cur : option ClipHandle) (l : list ClipCall) : option (option ClipHandle) :=
  match l with
  | [] => Some cur
  | c :: l' => cur' ← read_call cur c; read_trace cur' l'
  end.

Lemma read_app cur l1 l2 : read_trace cur (l1 ++ l2) = read_trace cur l1 ≫= fun cur' => read_trace cur' l2.
Proof. revert cur. induction l1 as [|c l1 IH]; intros cur; [done|]. simpl. destruct (read_call cur c) as [c'|]; [apply IH|done]. Qed.

(** What a step has to show. *)
Definition reads (s : ClipState) (r : ClipState * list ClipCall) : Prop := read_trace (current_clip s) r.2 = Some (current_clip r.1).

Lemma close_for_reopen_reads at_ h s s0 : current_clip s0 = Some h -> reads s0 (close_for_reopen at_ h s).
Proof. intros E. unfold reads, close_for_reopen. simpl. rewrite E. by rewrite bool_decide_eq_true_2. Qed.

Lemma rotate_reads m at_ a s : reads s (rotate m at_ a s).
Proof.
  unfold rotate. destruct (current_clip s) as [h|] eqn:E; [|unfold reads; simpl; by rewrite E].
  destruct (clip_opened_at s); [|unfold reads; simpl; by rewrite E].
  destruct (size_check _ _ _) as [n size]. destruct (_ || _ || _); [by apply close_for_reopen_reads|].
  unfold reads. simpl. by rewrite E.
Qed.

Lemma rows_read s l :
  (forall c, c ∈ l -> read_call (current_clip s) c = Some (current_clip s)) -> read_trace (current_clip s) l = Some (current_clip s).
Proof.
  induction l as [|c l IH]; intros H; [done|]. simpl. rewrite H by (by left). simpl. apply IH. intros c' Hc'. apply H. by right.
Qed.

Lemma insert_link_read v s : read_trace (current_clip s) (insert_decisions v s ++ link_events v s) = Some (current_clip s).
Proof.
  apply rows_read. unfold insert_decisions, link_events. destruct (current_clip s) as [h|] eqn:E.
  - intros c [(d & -> & _)%list_elem_of_fmap|(e & -> & _)%list_elem_of_fmap]%elem_of_app; simpl; by rewrite bool_decide_eq_true_2.
  - intros c H. by apply elem_of_nil in H.
Qed.

Lemma lifecycle_reads at_ a v s : reads s (lifecycle at_ a v s).
Proof.
  unfold lifecycle. destruct (PostRoll.tick _ _ _) as [p action].
  set (s1 := match action with KeepOpen => _ | CloseNow => _ end).
  assert (current_clip s1 = current_clip s) as E1 by (subst s1; by destruct action).
  assert (reads s1 (if should_open at_ a v s1 then try_open at_ a v s1 else (s1, []))) as R1.
  { destruct (should_open at_ a v s1) eqn:E; [|done]. apply should_open_none in E. unfold reads, try_open. rewrite E.
    by destruct (a_open a). }
  destruct (if should_open at_ a v s1 then _ else _) as [s2 opened]. unfold reads in *. simpl in R1.
  set (r3 := match action with KeepOpen => (s2, []) | CloseNow => close_now at_ s2 end).
  assert (read_trace (current_clip s2) r3.2 = Some (current_clip r3.1)) as R3.
  { subst r3. destruct action; [done|]. unfold close_now. destruct (current_clip s2) as [h|] eqn:E; simpl; rewrite ?E; [|done].
    by rewrite bool_decide_eq_true_2. }
  destruct r3 as [s3 closed]. simpl in *. rewrite read_app, <-E1, R1. simpl. rewrite read_app, insert_link_read. exact R3.
Qed.

Lemma reads_trans s s1 c1 s2 c2 : reads s (s1, c1) -> reads s1 (s2, c2) -> reads s (s2, c1 ++ c2).
Proof. unfold reads. simpl. intros H1 H2. by rewrite read_app, H1. Qed.

Lemma clip_step_reads m f s : reads s (clip_step m f s).
Proof.
  destruct f as [at_ a|at_ a|at_ a v]; simpl; [apply rotate_reads| |];
    pose proof (rotate_reads m at_ a s) as H1; destruct (rotate m at_ a s) as [s1 c1].
  - assert (reads s1 (resize_close at_ s1)) as H2.
    { unfold resize_close. destruct (current_clip s1) eqn:E; [by apply close_for_reopen_reads|unfold reads; simpl; by rewrite E]. }
    destruct (resize_close at_ s1) as [s2 c2]. by eapply reads_trans.
  - pose proof (lifecycle_reads at_ a v s1) as H2. destruct (lifecycle at_ a v s1) as [s2 c2]. by eapply reads_trans.
Qed.

Lemma run_reads m fs s : reads s ((mrun (H:=clip_machine m) fs s).1, concat (mrun (H:=clip_machine m) fs s).2).
Proof.
  revert s. induction fs as [|f fs IH]; intros s; [done|]. rewrite mrun_cons.
  change (mstep (Machine:=clip_machine m) f s) with (clip_step m f s).
  pose proof (clip_step_reads m f s) as H1. destruct (clip_step m f s) as [s1 c1]. simpl. by eapply reads_trans.
Qed.

(** Clips are bracketed. Over the life of a camera's pipeline, whatever the recorder answers, at most one clip
    is open at a time, a clip is closed once and only while it is the open one, every motion row
    and every link of an alert names the clip that is open at that moment, and when the pipeline
    has ended no clip is left open. *)
Lemma clips_are_bracketed m n fs now :
  let r := mrun (H:=clip_machine m) fs (clips_new n) in
  read_trace None (concat r.2 ++ (finish now r.1).2) = Some None.
Proof.
  intros r. pose proof (run_reads m fs (clips_new n)) as H. fold r in H. unfold reads in H. simpl in H.
  rewrite read_app, H. simpl. unfold finish. simpl. destruct (current_clip r.1) as [h|] eqn:E; simpl; [by rewrite bool_decide_eq_true_2|done].
Qed.

(** ** Demand *)

(** A clip is open, or one is wanted. *)
Definition demanded (s : ClipState) : Prop := is_Some (current_clip s) \/ pending_open s = true.

Lemma rotate_demanded m at_ a s : demanded s -> demanded (rotate m at_ a s).1.
Proof.
  intros H. unfold rotate. destruct (current_clip s) as [h|] eqn:E; [|done]. destruct (clip_opened_at s); [|done].
  destruct (size_check _ _ _) as [n size]. destruct (_ || _ || _); [by right|]. left. by eexists.
Qed.

Lemma try_open_demanded at_ a v s : demanded (try_open at_ a v s).1.
Proof. unfold try_open. destruct (a_open a); [left; by eexists|by right|by right]. Qed.

(** With activity on the frame the deferred close does not come. *)
Lemma active_keeps p now : (PostRoll.tick p now true) = (set_pending p None, KeepOpen).
Proof. done. Qed.

(** A frame with activity that a clip is open or wanted for, or that begins now, leaves one open or wanted. *)
Lemma lifecycle_demanded at_ a v s :
  clips_ok s -> live v || alert_kept_alive v = true -> demanded s \/ has_born v = true \/ alert_kept_alive v = true ->
  demanded (lifecycle at_ a v s).1.
Proof.
  intros Hok Hlive Hd. unfold lifecycle. rewrite Hlive, active_keeps. set (s1 := set_post_roll _ s).
  assert (demanded (if should_open at_ a v s1 then try_open at_ a v s1 else (s1, [])).1) as H.
  { destruct (should_open at_ a v s1) eqn:E; [apply try_open_demanded|]. simpl.
    destruct (current_clip s) as [h|] eqn:Ec; [left; by exists h|]. right. simpl.
    destruct (pending_open s) eqn:Ep; [done|exfalso]. destruct Hok as [_ Hr _].
    assert (open_panic_refused s = false /\ open_retry_at s = None) as [E1 E2].
    { split; [apply not_true_iff_false; intros H; by rewrite (Hr (or_intror H)) in Ep|].
      destruct (open_retry_at s); [by rewrite (Hr (or_introl eq_refl)) in Ep|done]. }
    unfold should_open in E. subst s1. simpl in E. rewrite Ec, E1, E2, Ep in E. simpl in E.
    destruct Hd as [[[h Hh]|Hp]|[Hb|Hb]]; [by rewrite Hh in Ec|by rewrite Hp in Ep|by rewrite Hb, orb_true_r in E|by rewrite Hb in E]. }
  by destruct (if should_open at_ a v s1 then _ else _) as [s2 c].
Qed.

(** Frames whose motion is announced: it does not get live without a [Born]. *)
Fixpoint announced (was : bool) (fs : list ClipFrame) : Prop :=
  match fs with
  | [] => True
  | Through _ _ v :: fs' => (live v = true -> was = true \/ has_born v = true) /\ announced (live v) fs'
  | _ :: fs' => announced was fs'
  end.

(** Whether motion was live on the last frame that went through. *)
Definition live_after (was : bool) (fs : list ClipFrame) : bool :=
  foldl (fun was f => match f with Through _ _ v => live v | _ => was end) was fs.

Lemma clip_step_demanded m f s was :
  clips_ok s -> announced was [f] -> (was = true -> demanded s) ->
  live_after was [f] = true -> demanded (clip_step m f s).1.
Proof.
  intros Hok Ha Hd Hl. destruct f as [at_ a|at_ a|at_ a v]; simpl in *.
  - apply rotate_demanded. auto.
  - pose proof (rotate_demanded m at_ a s (Hd Hl)) as H. destruct (rotate m at_ a s) as [s1 c1]. simpl in H.
    unfold resize_close. destruct (current_clip s1) eqn:E; [by right|done].
  - destruct Ha as [Ha _]. pose proof (rotate_ok m at_ a s Hok) as Hok1.
    pose proof (rotate_demanded m at_ a s) as Hd1. destruct (rotate m at_ a s) as [s1 c1]. simpl in Hok1, Hd1.
    pose proof (lifecycle_demanded at_ a v s1 Hok1) as H. destruct (lifecycle at_ a v s1) as [s2 c2]. simpl in *.
    apply H; [by rewrite Hl|]. destruct (Ha Hl) as [Hw|Hb]; [left; auto|by right; left].
Qed.

(** Live motion is recorded, or a recording is on its way. From the first frame of a pipeline on, whenever
    motion was live on the last frame that went through, a clip is open or the loop has kept the
    demand for one, whatever the recorder refused, and through rotations, size flips and frames on
    which the detector failed. *)
Lemma live_motion_is_recorded_or_wanted m n fs :
  announced false fs -> live_after false fs = true ->
  demanded (mrun (H:=clip_machine m) fs (clips_new n)).1.
Proof.
  assert (forall fs was s, clips_ok s -> announced was fs -> (was = true -> demanded s) -> live_after was fs = true ->
    demanded (mrun (H:=clip_machine m) fs s).1) as Hgen; [|intros Ha Hl; by apply (Hgen fs false (clips_new n) (clips_new_ok n))].
  clear. induction fs as [|f fs IH]; intros was s Hok Ha Hd Hl; [auto|]. rewrite mrun_cons.
  change (mstep (Machine:=clip_machine m) f s) with (clip_step m f s). simpl.
  apply (IH (live_after was [f])); [by apply clip_step_ok| | |by destruct f].
  - destruct f as [? ?|? ?|? ? ?]; simpl in *; [done|done|apply Ha].
  - apply clip_step_demanded; [done| |done]. destruct f as [? ?|? ?|? ? ?]; simpl in *; [done|done|by split; [apply Ha|]].
Qed.

(** ** Retries *)

Definition stamp_of (f : ClipFrame) : Stamp :=
  match f with Undetected at_ _ | Flipped at_ _ | Through at_ _ _ => at_ end.

(** The next try is due at the latest thirty seconds after [t]. *)
Definition retry_by (t : Z) (s : ClipState) : Prop := forall r, open_retry_at s = Some r -> r <= t + OPEN_RETRY_MAX.

Lemma rotate_retry m at_ a s : open_retry_at (rotate m at_ a s).1 = open_retry_at s.
Proof.
  unfold rotate. destruct (current_clip s), (clip_opened_at s); try done. destruct (size_check _ _ _) as [n size].
  by destruct (_ || _ || _).
Qed.

Lemma lifecycle_retry at_ a v s t :
  clips_ok s -> mono at_ <= t -> retry_by t s -> retry_by t (lifecycle at_ a v s).1.
Proof.
  intros Hok Ht Hr. unfold lifecycle. destruct (PostRoll.tick _ _ _) as [p action].
  set (s1 := match action with KeepOpen => _ | CloseNow => _ end).
  assert (retry_by t s1 /\ OPEN_RETRY_MIN <= open_retry_delay s1 <= OPEN_RETRY_MAX) as [H1 Hd].
  { destruct Hok as [_ _ Hd]. subst s1. destruct action; split; simpl; try done; by vm_compute. }
  assert (retry_by t (if should_open at_ a v s1 then try_open at_ a v s1 else (s1, [])).1) as H2.
  { destruct (should_open at_ a v s1); [|done]. unfold try_open. intros r.
    destruct (a_open a); simpl; [done| |]; intros [= <-]; destruct (open_panic_refused s1);
      unfold OPEN_RETRY_MIN, OPEN_RETRY_MAX, millis, secs, ns_per_ms, ns_per_sec in *; lia. }
  destruct (if should_open at_ a v s1 then _ else _) as [s2 c]. simpl in H2. destruct action; [done|].
  unfold close_now. by destruct (current_clip s2).
Qed.

Lemma run_retry m fs s t :
  clips_ok s -> Forall (fun f => mono (stamp_of f) <= t) fs -> retry_by t s ->
  retry_by t (mrun (H:=clip_machine m) fs s).1.
Proof.
  intros Hok Hf Hr.
  assert ((fun s => clips_ok s /\ retry_by t s) (mrun (H:=clip_machine m) fs s).1) as [_ H]; [|done].
  apply (mrun_invariant (H:=clip_machine m) (fun f => mono (stamp_of f) <= t)); [|done|done]. clear.
  intros f s Ht [Hok Hr]. split; [by apply clip_step_ok|]. change (mstep (Machine:=clip_machine m) f s) with (clip_step m f s).
  destruct f as [at_ a|at_ a|at_ a v]; simpl in *; pose proof (rotate_retry m at_ a s) as E; pose proof (rotate_ok m at_ a s Hok) as Hok1.
  - unfold retry_by. by rewrite E.
  - destruct (rotate m at_ a s) as [s1 c1]. simpl in E. unfold resize_close, retry_by. by destruct (current_clip s1); simpl; rewrite E.
  - destruct (rotate m at_ a s) as [s1 c1]. simpl in E, Hok1.
    assert (retry_by t s1) as H1 by (unfold retry_by; by rewrite E).
    pose proof (lifecycle_retry at_ a v s1 t Hok1 Ht H1) as H. by destruct (lifecycle at_ a v s1).
Qed.

(** A wanted clip is tried again. Whatever happened before, when no clip is open and one is wanted, the first
    frame with activity that comes thirty seconds after the frames so far asks the recorder to open
    one, unless the recorder refused in panic and is still in it. *)
Lemma wanted_clip_is_tried_again m n fs t at_ a v :
  Forall (fun f => mono (stamp_of f) <= t) fs -> t + OPEN_RETRY_MAX <= mono at_ ->
  let s := (mrun (H:=clip_machine m) fs (clips_new n)).1 in
  current_clip s = None -> pending_open s = true -> open_panic_refused s = false \/ a_panic a = false ->
  live v || alert_kept_alive v = true ->
  Open (wall at_) (dims v).1 (dims v).2 (a_open a) ∈ (clip_step m (Through at_ a v) s).2.
Proof.
  intros Hf Hat s Hc Hp Hpan Hlive.
  pose proof (run_retry m fs (clips_new n) t (clips_new_ok n) Hf ltac:(by intros r)) as Hr. fold s in Hr.
  simpl. unfold rotate. rewrite Hc. unfold lifecycle. rewrite Hlive, active_keeps. set (s1 := set_post_roll _ s).
  assert (should_open at_ a v s1 = true) as ->.
  { unfold should_open. subst s1. simpl. rewrite Hc, Hp. simpl.
    assert (negb (open_panic_refused s) || negb (a_panic a) = true) as -> by (destruct Hpan as [-> | ->]; [done|apply orb_true_r]).
    simpl. rewrite andb_true_r. destruct (open_retry_at s) as [r|] eqn:E; [|apply orb_true_r].
    specialize (Hr r E). apply orb_true_iff. right. apply Z.leb_le. lia. }
  unfold try_open. destruct (a_open a); simpl; by left.
Qed.

(** ** Length *)

Lemma size_check_count m size n : (size_check m size n).1 = 0 \/ (size_check m size n).1 = n + 1 \/ (size_check m size n).1 = n.
Proof. unfold size_check. destruct (0 <? m); [|auto]. destruct (_ <=? _); auto. Qed.

(** After every frame that passed the gate, the open clip is younger than five minutes, or was
    opened on this very frame. *)
Theorem open_clip_is_young m f s o :
  clips_ok s -> clip_opened_at (clip_step m f s).1 = Some o ->
  as_millis (sat_sub (mono (stamp_of f)) o) < MAX_CLIP_DURATION_MS.
Proof.
  intros Hok.
  assert (forall at_ a o, clip_opened_at (rotate m at_ a s).1 = Some o -> as_millis (sat_sub (mono at_) o) < MAX_CLIP_DURATION_MS) as Hrot.
  { intros at_ a o'. pose proof (ok_opened _ Hok) as Hop. unfold rotate.
    destruct (current_clip s) as [h|], (clip_opened_at s) as [o0|] eqn:Eo; try done; [|simpl; congruence].
    destruct (size_check _ _ _) as [n size]. destruct (Z.leb_spec MAX_CLIP_DURATION_MS (as_millis (sat_sub (mono at_) o0))); simpl; [done|].
    destruct (size || a_epoch_changed a); simpl; [done|]. by intros [= <-]. }
  destruct f as [at_ a|at_ a|at_ a v]; simpl; [apply Hrot| |]; specialize (Hrot at_ a);
    destruct (rotate m at_ a s) as [s1 c1]; simpl in Hrot.
  - unfold resize_close. by destruct (current_clip s1); [|apply Hrot].
  - unfold lifecycle. destruct (PostRoll.tick _ _ _) as [p action]. set (s2 := match action with KeepOpen => _ | CloseNow => _ end).
    assert (clip_opened_at s2 = clip_opened_at s1) as E by (subst s2; by destruct action).
    assert (forall o, clip_opened_at (if should_open at_ a v s2 then try_open at_ a v s2 else (s2, [])).1 = Some o ->
      as_millis (sat_sub (mono at_) o) < MAX_CLIP_DURATION_MS) as H.
    { intros o'. destruct (should_open at_ a v s2); [|simpl; rewrite E; apply Hrot]. unfold try_open.
      destruct (a_open a); simpl; [|rewrite E; apply Hrot..]. intros [= <-]. unfold sat_sub, as_millis. rewrite Z.sub_diag. by vm_compute. }
    destruct (if should_open at_ a v s2 then _ else _) as [s3 c3]. simpl in H. destruct action; simpl; [apply H|].
    unfold close_now. destruct (current_clip s3); [done|apply H].
Qed.

(** ** An evening *)

Definition demo_decision (k : MotionKind) : MotionDecision := death 1 0 (5, first_sight (person 5 10)).

Definition demo_born : MotionDecision := decision 1 Born 0 (person 5 10).

Definition fine (clip : Z) : RecorderAnswers := mkAnswers None false false (Opened (mkHandle clip 1)) false.
Definition refusing : RecorderAnswers := mkAnswers None false false OpenFailed false.

Definition moving (born : bool) : Activity := mkActivity (if born then [demo_born] else []) true false [] (640, 480).

Definition at_sec (s : Z) : Stamp := mkStamp (secs s) (secs s).

(** The recorder fails for the first tries; after five minutes of motion the clip is rotated. *)
Definition demo_frames : list ClipFrame :=
  [Through (at_sec 1) refusing (moving true); Through (at_sec 2) refusing (moving false); Through (at_sec 4) (fine 7) (moving false);
   Undetected (at_sec 310) (fine 8); Through (at_sec 311) (fine 9) (moving false)].

Example demo_opens : omap (fun c => match c with Open _ _ _ a => Some (Some a) | Close h _ => Some None | _ => None end)
    (concat (mrun (H:=clip_machine 0) demo_frames (clips_new 10)).2) =
  [Some OpenFailed; Some OpenFailed; Some (Opened (mkHandle 7 1)); None; Some (Opened (mkHandle 9 1))].
Proof. vm_compute. reflexivity. Qed.

Lemma live_motion_is_recorded_or_wanted_witness :
  demanded (mrun (H:=clip_machine 0) (take 4 demo_frames) (clips_new 10)).1 /\
  current_clip (mrun (H:=clip_machine 0) (take 4 demo_frames) (clips_new 10)).1 = None.
Proof.
  split; [|vm_compute; reflexivity]. apply live_motion_is_recorded_or_wanted; [|reflexivity].
  simpl. split_and!; auto.
Defined.

Lemma wanted_clip_is_tried_again_witness :
  Open (secs 40) 640 480 (Opened (mkHandle 7 1)) ∈
    (clip_step 0 (Through (at_sec 40) (fine 7) (moving false)) (mrun (H:=clip_machine 0) (take 2 demo_frames) (clips_new 10)).1).2.
Proof.
  apply (wanted_clip_is_tried_again 0 10 (take 2 demo_frames) (secs 10) (at_sec 40) (fine 7) (moving false)).
  - repeat (apply Forall_cons; split; [vm_compute; discriminate|]). by apply Forall_nil.
  - vm_compute. discriminate.
  - vm_compute. reflexivity.
  - vm_compute. reflexivity.
  - left. vm_compute. reflexivity.
  - reflexivity.
Defined.
