(* ===== verification/BurnBoxes.v ===== *)
(** What an alert clip is made of before it is encoded ([nexus-pipeline/src/alert_clip.rs]): the
    boxes burned into it, the timeline that keeps them, their scaling and de-duplication, the
    pre-roll that precedes them and the stride of the frames they are drawn on.

    Wall-clock stamps are nanoseconds; boxes are IEEE single floats. The encode path (GStreamer) and
    the layout of the clip's path are left out. *)
From S2P Require Import Prelude Float Order Preroll.

Record BurnBox := mkBurn { b_x1 : f32; b_y1 : f32; b_x2 : f32; b_y2 : f32; b_label : string; b_confidence : f32 }.

Record BoxFrame := mkBoxFrame { bf_ts : Z; bf_boxes : list BurnBox; bf_sup_w : Z; bf_sup_h : Z }.

Record BoxTimeline := mkTimeline { tl_frames : list BoxFrame; tl_retain : Z }.

Definition timeline_new (retain : Z) : BoxTimeline := mkTimeline [] retain.

(** [chrono::Duration::from_std]: a duration over [i64::MAX] milliseconds does not convert. *)
Definition from_std (d : Z) : option Z := if d <=? millis (2 ^ 63 - 1) then Some d else None.

Fixpoint pop_older (cutoff : Z) (l : list BoxFrame) : list BoxFrame :=
  match l with
  | f :: l' => if bf_ts f <? cutoff then pop_older cutoff l' else l
  | [] => []
  end.

Definition kept_for (t : BoxTimeline) : Z := default (secs 10) (from_std (tl_retain t)).

Definition timeline_push (f : BoxFrame) (t : BoxTimeline) : BoxTimeline :=
  mkTimeline (pop_older (bf_ts f - kept_for t) (tl_frames t ++ [f])) (tl_retain t).

(** The newest entry at or before [ts]. *)
Definition boxes_at (ts : Z) (t : BoxTimeline) : option BoxFrame :=
  List.find (fun f => bf_ts f <=? ts) (reverse (tl_frames t)).

Definition timeline_snapshot (t : BoxTimeline) : list BoxFrame := tl_frames t.

Definition scale_box (b : BurnBox) (sup_w sup_h native_w native_h : Z) : BurnBox :=
  if (sup_w =? 0) || (sup_h =? 0) then b
  else
    let sx := f32_div (f32_of_Z native_w) (f32_of_Z sup_w) in
    let sy := f32_div (f32_of_Z native_h) (f32_of_Z sup_h) in
    mkBurn (f32_mul (b_x1 b) sx) (f32_mul (b_y1 b) sy) (f32_mul (b_x2 b) sx) (f32_mul (b_y2 b) sy) (b_label b) (b_confidence b).

(** [0.45] *)
Definition BURN_DEDUPE_IOU : f32 := flit 15099494 (-25).

Definition burn_box_iou (a b : BurnBox) : f32 :=
  let ix1 := fmax (b_x1 a) (b_x1 b) in
  let iy1 := fmax (b_y1 a) (b_y1 b) in
  let ix2 := fmin (b_x2 a) (b_x2 b) in
  let iy2 := fmin (b_y2 a) (b_y2 b) in
  let inter := f32_mul (fmax (f32_sub ix2 ix1) fzero) (fmax (f32_sub iy2 iy1) fzero) in
  if fle inter fzero then fzero
  else
    let area_a := f32_mul (fmax (f32_sub (b_x2 a) (b_x1 a)) fzero) (fmax (f32_sub (b_y2 a) (b_y1 a)) fzero) in
    let area_b := f32_mul (fmax (f32_sub (b_x2 b) (b_x1 b)) fzero) (fmax (f32_sub (b_y2 b) (b_y1 b)) fzero) in
    let union := f32_sub (f32_add area_a area_b) inter in
    if fle union fzero then fzero else f32_div inter union.

(** Descending confidence; numbers that do not compare are equal. *)
Definition by_confidence (a b : BurnBox) : comparison :=
  match SFcompare (b_confidence b) (b_confidence a) with Some c => c | None => Eq end.

Definition duplicates (k b : BurnBox) : bool := fgt (burn_box_iou k b) BURN_DEDUPE_IOU.

(** The boxes are drained in order; one that duplicates a kept box is dropped. *)
Fixpoint drain (boxes kept : list BurnBox) : list BurnBox :=
  match boxes with
  | [] => kept
  | b :: rest => if existsb (fun k => duplicates k b) kept then drain rest kept else drain rest (kept ++ [b])
  end.

Definition dedupe_burn_boxes (boxes : list BurnBox) : list BurnBox :=
  if bool_decide (length boxes < 2)%nat then boxes else drain (sort_by by_confidence boxes) [].

(** The samples run through a ring of their own; their epoch is put back. *)
Definition trim_preroll (samples : list NalSample) (pre : Z) : list NalSample :=
  let ring := foldl (fun r s => (push r s).1) (new pre) samples in
  match head samples with
  | Some s => stamp (sample_epoch s) <$> snapshot ring
  | None => snapshot ring
  end.

Definition frame_wall_clock (window_start rebased_pts : Z) : Z := window_start + default 0 (from_std rebased_pts).

(** [0.0172] *)
Definition label_px (native_w : Z) : f32 :=
  let x := f32_mul (f32_of_Z native_w) (flit 9234180 (-29)) in
  if flt x (f32_of_Z 13) then f32_of_Z 13 else if fgt x (f32_of_Z 34) then f32_of_Z 34 else x.

Definition out_stride (row_bytes : Z) : Z := Z.land (row_bytes + 3) (Z.lxor 3 (umax 64)).

(** Every row copied into a wider one of zeros; [None] where a slice is out of range. *)
Fixpoint pad_rows (tight : list Z) (row_bytes stride : nat) (h : nat) : option (list Z) :=
  match h with
  | O => Some []
  | S h' =>
      if bool_decide (row_bytes <= length tight)%nat then
        (fun rest => take row_bytes tight ++ replicate (stride - row_bytes) 0 ++ rest) <$> pad_rows (drop row_bytes tight) row_bytes stride h'
      else None
  end.

Definition align_rgb_stride (tight : list Z) (row_bytes h : Z) : option (list Z) :=
  if out_stride row_bytes =? row_bytes then Some tight
  else pad_rows tight (Z.to_nat row_bytes) (Z.to_nat (out_stride row_bytes)) (Z.to_nat h).

(** ** De-duplication is greedy suppression *)

Lemma drain_suppress boxes : forall kept, drain boxes kept = foldl (suppress_step duplicates) kept boxes.
Proof. induction boxes as [|b boxes IH]; intros kept; [done|]. simpl. unfold suppress_step at 2. by destruct (existsb _ _); rewrite IH. Qed.

Lemma dedupe_suppress boxes : dedupe_burn_boxes boxes = suppress duplicates (sort_by by_confidence boxes).
Proof.
  unfold dedupe_burn_boxes. case_bool_decide as H; [|by rewrite drain_suppress].
  destruct boxes as [|b [|c l]]; [done|done|simpl in H; lia].
Qed.

(** No two boxes burned into a frame duplicate each other, and every box left out is
    duplicated by one that is burned and was as confident. *)
Theorem one_box_per_object boxes :
  let input := sort_by by_confidence boxes in
  let kept := dedupe_burn_boxes boxes in
  input ≡ₚ boxes /\ kept `sublist_of` input /\
  (forall i j a b, kept !! i = Some a -> kept !! j = Some b -> (i < j)%nat -> duplicates a b = false) /\
  (forall i d, input !! i = Some d -> d ∈ kept \/ exists k j, input !! j = Some k /\ (j < i)%nat /\ k ∈ kept /\ duplicates k d = true).
Proof.
  intros input kept. subst kept. rewrite dedupe_suppress. fold input. split_and!.
  - apply sort_by_permutation.
  - apply suppress_sublist.
  - apply suppress_independent.
  - apply suppress_covers.
Qed.

(** ** The timeline holds the last boxes *)

Definition ascending (l : list BoxFrame) : Prop := StronglySorted (fun f g => bf_ts f <= bf_ts g) l.

Lemma pop_older_filter cutoff l : ascending l -> pop_older cutoff l = List.filter (fun f => cutoff <=? bf_ts f) l.
Proof.
  induction 1 as [|f l Hl IH Hf]; [done|]. simpl. destruct (Z.ltb_spec (bf_ts f) cutoff).
  - rewrite IH. destruct (Z.leb_spec cutoff (bf_ts f)); [lia|done].
  - destruct (Z.leb_spec cutoff (bf_ts f)); [|lia]. f_equal. symmetry. apply List.forallb_filter_id, forallb_forall.
    intros g Hg%list_elem_of_In. rewrite Forall_forall in Hf. specialize (Hf g Hg). lia.
Qed.

Lemma find_rev_last {A} (p : A -> bool) l : List.find p (reverse l) = last (List.filter p l).
Proof.
  induction l as [|x l IH] using rev_ind; [done|]. rewrite reverse_snoc, List.filter_app. simpl.
  destruct (p x); [by rewrite last_snoc|by rewrite app_nil_r].
Qed.

Lemma ascending_snoc l f : ascending (l ++ [f]) <-> ascending l /\ Forall (fun g => bf_ts g <= bf_ts f) l.
Proof.
  induction l as [|g l IH]; simpl.
  - split; [intros _; split; constructor|intros _; repeat constructor].
  - split.
    + intros [Hl Hg]%StronglySorted_inv. apply IH in Hl as [Hl Hf]. apply Forall_app in Hg as [Hg Hgf].
      split; [by constructor|]. rewrite Forall_singleton in Hgf. by constructor.
    + intros [[Hl Hg]%StronglySorted_inv [Hf Hlf]%Forall_cons]. constructor; [by apply IH|].
      apply Forall_app. split; [done|]. by rewrite Forall_singleton.
Qed.

Lemma filter_filter_and {A} (p q : A -> bool) l : List.filter p (List.filter q l) = List.filter (fun x => q x && p x) l.
Proof. induction l as [|x l IH]; [done|]. simpl. destruct (q x); simpl; [destruct (p x)|]; by rewrite IH. Qed.

Lemma ascending_filter p l : ascending l -> ascending (List.filter p l).
Proof.
  induction 1 as [|f l Hl IH Hf]; [constructor|]. simpl. destruct (p f); [|done]. constructor; [done|].
  rewrite Forall_forall in Hf |- *. intros g [Hg _]%list_elem_of_In%filter_In. apply Hf. by apply list_elem_of_In.
Qed.

Definition newest_ts (l : list BoxFrame) : Z := default 0 (bf_ts <$> last l).

Lemma pushed_frames retain l : ascending l ->
  let t := foldl (fun t f => timeline_push f t) (timeline_new retain) l in
  tl_retain t = retain /\ tl_frames t = List.filter (fun f => newest_ts l - kept_for (timeline_new retain) <=? bf_ts f) l.
Proof.
  induction l as [|f l IH] using rev_ind; [done|]. intros [Hl Hf]%ascending_snoc. cbn zeta. rewrite foldl_snoc.
  destruct (IH Hl) as [Hr E]. set (t := foldl _ _ l) in *. unfold timeline_push. cbn [tl_retain tl_frames]. split; [done|].
  assert (kept_for t = kept_for (timeline_new retain)) as -> by (unfold kept_for; by rewrite Hr). rewrite E.
  unfold newest_ts. rewrite last_snoc. cbn [fmap option_fmap option_map default]. set (k := kept_for _).
  rewrite pop_older_filter.
  2: { apply ascending_snoc. split; [by apply ascending_filter|]. rewrite Forall_forall in Hf |- *.
       intros g [Hg _]%list_elem_of_In%filter_In. apply Hf. by apply list_elem_of_In. }
  rewrite !List.filter_app. f_equal. rewrite filter_filter_and. apply List.filter_ext_in. intros g Hg%list_elem_of_In.
  destruct (last l) as [m|] eqn:Em; simpl; [|apply last_None in Em as ->; by apply elem_of_nil in Hg].
  rewrite Forall_forall in Hf. pose proof (Hf m ltac:(by exact (last_Some_elem_of _ _ Em))). destruct (Z.leb_spec (bf_ts f - k) (bf_ts g)); [|by rewrite andb_false_r].
  rewrite andb_true_r. apply Z.leb_le. lia.
Qed.

(** The boxes drawn at an instant are those of the latest analysed frame at or before it, of all
    that were pushed and are not older than the retention before the newest. *)
Theorem boxes_hold_last retain l ts : ascending l ->
  boxes_at ts (foldl (fun t f => timeline_push f t) (timeline_new retain) l) =
  last (List.filter (fun f => (newest_ts l - kept_for (timeline_new retain) <=? bf_ts f) && (bf_ts f <=? ts)) l).
Proof.
  intros H. unfold boxes_at. destruct (pushed_frames retain l H) as [_ ->]. by rewrite find_rev_last, filter_filter_and.
Qed.

(** ** The pre-roll is the tail of the ring's snapshot *)

(** A sample but for its epoch. *)
Definition payload (s : NalSample) : NalSample := stamp 0 s.

Lemma fmap_suffix {A B} (f : A -> B) l l' : l `suffix_of` l' -> (f <$> l) `suffix_of` (f <$> l').
Proof. intros [k ->]. rewrite fmap_app. by exists (f <$> k). Qed.

Lemma push_payload r s l :
  (payload <$> snapshot r) `suffix_of` l -> (payload <$> snapshot (push r s).1) `suffix_of` (l ++ [payload s]).
Proof.
  intros Hr. pose proof (fmap_suffix payload _ _ (push_suffix r s)) as Hs. rewrite fmap_app in Hs.
  etransitivity; [exact Hs|]. apply suffix_app. unfold push_base. destruct (is_discontinuity r s); [apply suffix_nil|done].
Qed.

(** The pre-roll of an alert clip is a tail of the snapshot, in its order and with its epoch,
    and begins on a keyframe. *)
Theorem preroll_is_a_tail l pre :
  (payload <$> trim_preroll l pre) `suffix_of` (payload <$> l) /\
  match trim_preroll l pre with [] => True | k :: _ => is_keyframe k = true end /\
  (forall s, head l = Some s -> Forall (fun x => sample_epoch x = sample_epoch s) (trim_preroll l pre)).
Proof.
  unfold trim_preroll. set (ring := foldl _ _ l).
  assert ((payload <$> snapshot ring) `suffix_of` (payload <$> l) /\ ring_wf ring) as [H Hwf].
  { subst ring. induction l as [|s l [IH Hwf]] using rev_ind; [split; [done|apply ring_new_wf]|].
    rewrite foldl_snoc, fmap_app. split; [by apply push_payload|by apply push_wf]. }
  assert (match snapshot ring with [] => True | k :: _ => is_keyframe k = true end) as Hk.
  { destruct (snapshot_wf ring Hwf) as [Hk _]. by destruct (snapshot ring). }
  destruct (head l) as [s|] eqn:E; [|split_and!; [done|done|done]]. split_and!.
  - assert (payload <$> (stamp (sample_epoch s) <$> snapshot ring) = payload <$> snapshot ring) as ->; [|done].
    rewrite <- list_fmap_compose. by apply list_fmap_ext.
  - by destruct (snapshot ring).
  - intros ? [= <-]. apply Forall_fmap, Forall_forall. done.
Qed.

(** ** The stride *)

Lemma length_pad_rows row stride h : forall tight padded, (row <= stride)%nat ->
  pad_rows tight row stride h = Some padded -> length padded = (stride * h)%nat.
Proof.
  induction h as [|h IH]; intros tight padded Hs; simpl; [intros [= <-]; simpl; lia|].
  case_bool_decide as Hl; [|done]. destruct (pad_rows _ _ _ h) as [rest|] eqn:E; [|done]. intros [= <-].
  rewrite !length_app, length_take, length_replicate, (IH _ _ Hs E). lia.
Qed.

Lemma pad_rows_total row stride h : forall tight, (row * h <= length tight)%nat -> is_Some (pad_rows tight row stride h).
Proof.
  induction h as [|h IH]; intros tight Hl; simpl; [by eexists|]. rewrite bool_decide_eq_true_2 by lia.
  destruct (IH (drop row tight)) as [rest ->]; [rewrite length_drop; lia|]. by eexists.
Qed.

Lemma pad_rows_pixel row stride h : forall tight padded y x, (row <= stride)%nat ->
  pad_rows tight row stride h = Some padded -> (y < h)%nat -> (x < stride)%nat ->
  padded !! (y * stride + x)%nat = if bool_decide (x < row)%nat then tight !! (y * row + x)%nat else Some 0.
Proof.
  induction h as [|h IH]; intros tight padded y x Hs; simpl; [lia|]. case_bool_decide as Hl; [|done].
  destruct (pad_rows _ _ _ h) as [rest|] eqn:E; [|done]. intros [= <-] Hy Hx.
  assert (length (take row tight ++ replicate (stride - row) 0) = stride) as Hlen by (rewrite length_app, length_take, length_replicate; lia).
  rewrite (assoc_L (++)). destruct y as [|y].
  - rewrite lookup_app_l by (rewrite Hlen; lia). simpl. case_bool_decide.
    + rewrite lookup_app_l by (rewrite length_take; lia). by rewrite lookup_take_lt.
    + rewrite lookup_app_r by (rewrite length_take; lia). rewrite length_take. apply lookup_replicate_2. lia.
  - rewrite lookup_app_r by (rewrite Hlen; lia). rewrite Hlen. replace (S y * stride + x - stride)%nat with (y * stride + x)%nat by lia.
    rewrite (IH _ _ y x Hs E) by lia. case_bool_decide; [|done]. rewrite lookup_drop. f_equal. lia.
Qed.

(** [(n + 3) & !3] rounds up to a multiple of four. *)
Lemma out_stride_eq n : 0 <= n < 2 ^ 62 -> out_stride n = 4 * ((n + 3) / 4).
Proof.
  intros Hn. unfold out_stride. apply Z.bits_inj'. intros k Hk. rewrite Z.land_spec.
  assert (Z.testbit (Z.lxor 3 (umax 64)) k = (2 <=? k) && (k <? 64)) as ->.
  { rewrite Z.lxor_spec. change 3 with (Z.ones 2). change (umax 64) with (Z.ones 64). rewrite !Z.testbit_ones_nonneg by lia.
    destruct (Z.ltb_spec k 2), (Z.ltb_spec k 64), (Z.leb_spec 2 k); simpl; lia || done. }
  assert (4 * ((n + 3) / 4) = Z.shiftl (Z.shiftr (n + 3) 2) 2) as -> by (rewrite Z.shiftl_mul_pow2, Z.shiftr_div_pow2 by lia; apply Z.mul_comm).
  rewrite Z.shiftl_spec by lia. destruct (Z.leb_spec 2 k); simpl.
  - rewrite Z.shiftr_spec by lia. replace (k - 2 + 2) with k by lia. destruct (Z.ltb_spec k 64); simpl; [apply andb_true_r|].
    rewrite andb_false_r. symmetry. apply Z.bits_above_log2; [lia|]. apply Z.lt_le_trans with 64; [|done]. apply Z.log2_lt_pow2; lia.
  - rewrite (Z.testbit_neg_r _ (k - 2)) by lia. apply andb_false_r.
Qed.

(** Aligning the stride moves no pixel: a buffer of [h] whole rows is never out of range, each row
    starts on a multiple of four, holds the row's bytes in place and zeros after them. *)
Theorem stride_moves_no_pixel tight row h :
  0 <= row < 2 ^ 62 -> 0 <= h -> zlength tight = row * h ->
  exists padded, align_rgb_stride tight row h = Some padded /\ zlength padded = out_stride row * h /\
  out_stride row mod 4 = 0 /\ row <= out_stride row < row + 4 /\
  forall y x, 0 <= y < h -> 0 <= x < out_stride row ->
      padded !! Z.to_nat (y * out_stride row + x) = if x <? row then tight !! Z.to_nat (y * row + x) else Some 0.
Proof.
  intros Hrow Hh Hlen. pose proof (out_stride_eq row Hrow) as E.
  assert (row <= out_stride row < row + 4 /\ out_stride row mod 4 = 0) as [Hb Hm].
  { rewrite E. pose proof (Z.div_mod (row + 3) 4). pose proof (Z.mod_pos_bound (row + 3) 4). split; [lia|]. rewrite Z.mul_comm. apply Z.mod_mul. lia. }
  unfold align_rgb_stride. destruct (Z.eqb_spec (out_stride row) row) as [Eq|Hne].
  - exists tight. rewrite Eq in *. split_and!; [done|done|done|lia|lia|]. intros y x Hy Hx. destruct (Z.ltb_spec x row); [done|lia].
  - unfold zlength in *. destruct (pad_rows_total (Z.to_nat row) (Z.to_nat (out_stride row)) (Z.to_nat h) tight) as [padded Hp]; [nia|].
    exists padded. split; [done|]. assert (Z.to_nat row <= Z.to_nat (out_stride row))%nat as Hs by lia.
    split_and!; [rewrite (length_pad_rows _ _ _ _ _ Hs Hp); nia|done|lia|lia|]. intros y x Hy Hx.
    replace (Z.to_nat (y * out_stride row + x)) with (Z.to_nat y * Z.to_nat (out_stride row) + Z.to_nat x)%nat by nia.
    rewrite (pad_rows_pixel _ _ _ _ _ _ _ Hs Hp) by lia. destruct (Z.ltb_spec x row); [rewrite bool_decide_eq_true_2 by lia|rewrite bool_decide_eq_false_2 by lia; done].
    f_equal. nia.
Qed.
