(* ===== verification/Supervisor.v ===== *)
(** The frame loop of a camera ([run_camera] of [nexus-pipeline/src/supervisor.rs]), from a frame's
    arrival to its last write: the gate, the rotation of the clip, detection, tracking, the crowd
    policies and the change of frame size, the zone filters, the annotator and the static filter,
    what is published, the rules and their alerts, and the motion lifecycle.

    Every part is the model of its own file; this file is their composition, in the order of the
    code. The detectors' world and the rule evaluator are shared with other cameras, so a step gets
    them and hands them back. The tracker is an interface. What the environment says on a frame is
    an argument, and what the loop does to it is a trace of calls. Stamps are nanoseconds. The
    outer loop's sources and channels are left out: a change of frame size starts a new session. *)
From S2P Require Import Prelude Float PostRoll MotionGate CrowdPolicy Order.
From S2P Require Import BurnBoxes ByteTrack Tracker FramePath StaticObject Annotator Sightings Nms.
From S2P Require Import Tiles Zones Rules MotionEvents ClipLoop Detectors Cameras Alert Types.

(** ** Trackers *)

(** [trait Tracker]: [update] under the lock of the tracker's state. *)
Class TrackerOps (T : Type) := track_update : list Detection -> Z -> T -> T * list TrackedObject.

(** What the loop's client may rely on: an object that carries a raw box carries, with label and
    confidence, those of an admitted detection of the frame. *)
Class TrackerLaws (T : Type) `{!TrackerOps T} := {
  admits : Detection -> bool;
  tracker_ok : T -> Prop;
  update_ok dets now st : tracker_ok st -> tracker_ok (track_update dets now st).1;
  reports_detections dets now st o b :
    tracker_ok st -> o ∈ (track_update dets now st).2 -> detection_bbox o = Some b ->
    exists d, d ∈ dets /\ admits d = true /\ d_label d = o_label o /\ d_bbox d = b /\ d_confidence d = confidence o;
}.

#[export] Instance bytetrack_ops (hypot : f32 -> f32 -> f32) (cfg : ByteTrackConfig) : TrackerOps ByteTrackState := ByteTrack.update hypot cfg.

(** ** Calls *)

Record FrameMetadata (Obj : Type) := mkMetadata {
  md_camera : Z;
  md_frame : Z;
  md_captured_at : Z;
  md_width : Z;
  md_height : Z;
  md_trace : string;
  md_objects : list Obj;
}.
Arguments mkMetadata {Obj}.
Arguments md_objects {Obj}.

Inductive TrackLifecycle := New | Active.

Record TrackLite := mkLite { tl_track : Z; tl_label : string; tl_confidence : f32; tl_bbox : BBox; tl_lifecycle : TrackLifecycle }.

Definition lite_of (o : TrackedObject) : TrackLite :=
  mkLite (o_track_id o) (o_label o) (confidence o) (o_bbox o) (if age_frames o =? 0 then New else Active).

Inductive Call :=
| ObserveFrameId (id : Z)
| ObserveDropped
| ObserveTiles (added : Z)
| ObserveAnalysed
| ResizeTap (width height : Z)
| PutObjects (epoch frame : Z) (objects : list TrackedObject)
| PublishMetadata (m : FrameMetadata TrackedObject)
| PublishLite (m : FrameMetadata TrackLite)
| PushBoxes (f : BoxFrame)
| Sighted (sightings : list SightingSnapshot) (rows : list PersistCall)
| RecordEvent (e : AlertEvent) (sinks : list string) (alerted ok : bool)
| PublishAlert (e : AlertEvent)
| ArmAlertClip (at_ : Z) (answer : option Z)
| LinkAlertClip (event : string) (clip : Z)
| OnClip (c : ClipCall)
| Stopped (frames_decoded frames_detected : Z).

(** What the environment says on a frame, when it is asked. *)
Record Answers := mkFrameAnswers {
  (** The operator's clear counter, and whether the registry file could be removed and saved. *)
  a_clear_seq : Z;
  a_removed : bool;
  a_saves : SaveAnswer * SaveAnswer;
  a_recorder : RecorderAnswers;
  (** [resize_camera_rgb_tap]; [None] is an error. *)
  a_resize : option bool;
  a_lite_subscribers : bool;
  (** The wall clock for CEL's [now], and the fresh event ids. *)
  a_now : Z;
  a_uuid : nat -> string;
  a_snapshot_written : string -> bool;
  a_should_build : string -> Z -> bool;
  a_sinks_for : string -> list string;
  a_event_recorded : AlertEvent -> bool;
  a_arm : option Z;
  (** The scheduler's fresh ids and draws. *)
  a_fresh : Z -> string;
  a_draw : Z -> Z;
}.

Inductive Flow := Continue | Break.

Section Supervisor.
Context {W Prog T : Type} `{!TrackerOps T}.
Context (atan2 : f64 -> f64 -> f64) (hypot : f32 -> f32 -> f32) (print : RegistryFile -> list Z).
Context (execute : Prog -> CelValue -> CelValue -> CelValue -> result CelValue string) (debug : CelValue -> string).

(** What a pipeline is started with. *)
Record Pipeline := mkPipeline {
  p_camera : Z;
  p_behavior : CameraBehavior;
  p_prompts : list string;
  p_zones : list ZoneConfig;
  p_detector : Detector W;
  p_low_res : option (Detector W);
  p_top_k : option nat;
  p_max_clip_bytes : Z;
  p_alert_clips : bool;
  p_clip_on_alert : bool;
  p_original_dims : Z * Z;
  p_snapshots_dir : string;
}.

(** The knobs that follow the crowd. *)
Record Tuning := mkTuning {
  gate : MotionGate;
  skip_policy : Skip.DetectorSkipPolicy;
  crowd_hysteresis : Hysteresis.CrowdHysteresis;
  detector_downscaled : bool;
  supervisor_hysteresis : Hysteresis.CrowdHysteresis;
  supervisor_downscaled : bool;
  current_dims : Z * Z;
}.

(** What the loop knows of the scene. *)
Record Scene := mkScene {
  tracker : T;
  annotator : TrackAnnotator;
  static_filter : option (StaticObjectFilter * File);
  last_static_clear_seq : Z;
}.

Record Loop := mkLoop {
  tuning : Tuning;
  scene : Scene;
  emitter : MotionEventEmitter;
  sightings : SightingScheduler;
  clips : ClipState;
  session_epoch : Z;
  decoded : Z;
  detected : Z;
}.

(** What the cameras share. *)
Record Shared := mkShared { world : W; evaluator : RuleEvaluator Prog }.

Definition with_tuning (u : Tuning) (l : Loop) : Loop :=
  mkLoop u (scene l) (emitter l) (sightings l) (clips l) (session_epoch l) (decoded l) (detected l).
Definition with_scene (s : Scene) (l : Loop) : Loop :=
  mkLoop (tuning l) s (emitter l) (sightings l) (clips l) (session_epoch l) (decoded l) (detected l).
Definition with_clips (c : ClipState) (l : Loop) : Loop :=
  mkLoop (tuning l) (scene l) (emitter l) (sightings l) c (session_epoch l) (decoded l) (detected l).
Definition with_emitter (e : MotionEventEmitter) (l : Loop) : Loop :=
  mkLoop (tuning l) (scene l) e (sightings l) (clips l) (session_epoch l) (decoded l) (detected l).
Definition with_sightings (s : SightingScheduler) (l : Loop) : Loop :=
  mkLoop (tuning l) (scene l) (emitter l) s (clips l) (session_epoch l) (decoded l) (detected l).

Definition with_gate (g : MotionGate) (u : Tuning) : Tuning :=
  mkTuning g (skip_policy u) (crowd_hysteresis u) (detector_downscaled u) (supervisor_hysteresis u) (supervisor_downscaled u) (current_dims u).
Definition with_skip (p : Skip.DetectorSkipPolicy) (u : Tuning) : Tuning :=
  mkTuning (gate u) p (crowd_hysteresis u) (detector_downscaled u) (supervisor_hysteresis u) (supervisor_downscaled u) (current_dims u).
Definition with_dims (down : bool) (d : Z * Z) (u : Tuning) : Tuning :=
  mkTuning (gate u) (skip_policy u) (crowd_hysteresis u) (detector_downscaled u) (supervisor_hysteresis u) down d.

Definition stamp_of_frame (f : Frame) : Stamp := mkStamp (Types.captured_at f) (captured_mono f).

Definition on_clips (cs : list ClipCall) : list Call := OnClip <$> cs.

(** ** Arrival: the frame is counted, and an operator's clear is honoured *)
Definition receive (f : Frame) (a : Answers) (l : Loop) : Loop * list Call :=
  let s := scene l in
  let s :=
    match static_filter s with
    | Some (flt, file) =>
        if a_clear_seq a =? last_static_clear_seq s then s
        else mkScene (tracker s) (annotator s) (Some (StaticObject.clear (a_removed a) flt file)) (a_clear_seq a)
    | None => s
    end in
  (mkLoop (tuning l) s (emitter l) (sightings l) (clips l) (session_epoch l) (decoded l + 1) (detected l),
   [ObserveFrameId (Types.frame_id f)]).

(** ** Detection *)

Definition active_detector (p : Pipeline) (u : Tuning) : Detector W :=
  match detector_downscaled u, p_low_res p with true, Some low => low | _, _ => p_detector p end.

(** The frame's detections; [None] when the detector failed. *)
Definition detections_of (p : Pipeline) (f : Frame) (skip : bool) (u : Tuning) (w : W) : option (list Detection * list Call) * W :=
  if skip then (Some ([], []), w)
  else
    match detect (active_detector p u) f (p_prompts p) w with
    | (Err _, w) => (None, w)
    | (Ok dets, w) =>
        let stage1 := whitelisted (p_prompts p) dets in
        let '(dets, added, w) := cascade (p_behavior p) (p_top_k p) (active_detector p u) f (p_prompts p) stage1 w in
        (Some (dets, match added with Some n => [ObserveTiles n] | None => [] end), w)
    end.

(** ** The crowd policies, fed with the number of tracked objects *)
Definition observe_crowd (n now : Z) (u : Tuning) : Tuning * bool :=
  let '(c, down) := Hysteresis.observe (crowd_hysteresis u) n now in
  let '(s, want) := Hysteresis.observe (supervisor_hysteresis u) n now in
  (mkTuning (gate u) (Skip.observe (skip_policy u) n) c down s (supervisor_downscaled u) (current_dims u), want).

(** The change of frame size: the new knobs, whether the source is rebuilt, and the call. *)
Definition resize (p : Pipeline) (want : bool) (answer : option bool) (u : Tuning) : Tuning * bool * list Call :=
  if Bool.eqb want (supervisor_downscaled u) then (u, false, [])
  else
    match supervisor_downscale_to_width (p_behavior p) with
    | Some w =>
        let target := if want then supervisor_frame_for w else p_original_dims p in
        match answer with
        | Some true => (with_dims want target u, true, [ResizeTap target.1 target.2])
        | _ => (with_dims want (current_dims u) u, false, [ResizeTap target.1 target.2])
        end
    | None => (with_dims want (current_dims u) u, false, [])
    end.

(** ** From tracks to the objects that are published *)
Definition perceive (p : Pipeline) (f : Frame) (a : Answers) (tracked : list TrackedObject) (s : Scene) : Scene * list TrackedObject :=
  let w := frame_width f in
  let h := frame_height f in
  let objects := zone_filters w h (p_zones p) tracked in
  let anchors := match static_filter s with Some (flt, _) => anchors flt | None => [] end in
  let '(ann, objects) := annotate atan2 (captured_mono f) w h (p_zones p) anchors objects (annotator s) in
  match static_filter s with
  | Some (flt, file) =>
      let '(flt, file, objects) := classify hypot print (a_saves a) (as_millis (Types.captured_at f)) (captured_mono f) objects flt file in
      (mkScene (tracker s) ann (Some (flt, file)) (last_static_clear_seq s), objects)
  | None => (mkScene (tracker s) ann None (last_static_clear_seq s), objects)
  end.

Definition dynamic_tracks (tracked : list TrackedObject) (static_filter_active : bool) : list TrackedObject :=
  List.filter (fun t => negb (static_filter_active && is_object_static t)) tracked.

Definition metadata {Obj} (p : Pipeline) (f : Frame) (objects : list Obj) : FrameMetadata Obj :=
  mkMetadata (p_camera p) (Types.frame_id f) (Types.captured_at f) (frame_width f) (frame_height f) (Types.trace_id f) objects.

Definition burn_box (o : TrackedObject) : option BurnBox :=
  (fun b => mkBurn (x1 b) (y1 b) (x2 b) (y2 b) (o_label o) (confidence o)) <$> detection_bbox o.

(** Cache, bus and box timeline. *)
Definition publish (p : Pipeline) (f : Frame) (a : Answers) (objects dynamic : list TrackedObject) (l : Loop) : list Call :=
  PutObjects (session_epoch l) (Types.frame_id f) objects :: PublishMetadata (metadata p f objects) ::
  (if a_lite_subscribers a then [PublishLite (metadata p f (lite_of <$> objects))] else []) ++
  (if p_alert_clips p
   then [PushBoxes (mkBoxFrame (Types.captured_at f) (dedupe_burn_boxes (omap burn_box dynamic)) (current_dims (tuning l)).1 (current_dims (tuning l)).2)]
   else []).

Definition sight_tick (f : Frame) (a : Answers) (dynamic : list TrackedObject) : Sightings.Tick :=
  Sightings.mkTick (Types.frame_id f) (captured_mono f) (Types.captured_at f) dynamic (a_fresh a) (a_draw a).

(** ** Alerts *)

Definition eval_frame (p : Pipeline) (f : Frame) (a : Answers) (objects : list TrackedObject) : EvalFrame :=
  mkFrameArgs (p_camera p) (Types.frame_id f) (Types.captured_at f) (captured_mono f) (Types.trace_id f) (frame_width f) (frame_height f)
    (p_zones p) objects (a_now a) (a_uuid a).

Definition with_snapshot (path : string) (e : AlertEvent) : AlertEvent :=
  mkEvent (event_id e) (camera_id e) (rule_id e) (track_id e) (label e) (severity e) (bbox e)
    (Alert.frame_id e) (Alert.captured_at e) (Alert.trace_id e) (frame_w e) (frame_h e)
    (mkArtifacts (Some path) (clip (artifacts e)) (cloud_receipt (artifacts e))) (context e).

(** The path of a snapshot that could be written; only RGB frames are encoded. *)
Definition write_alert_snapshot (p : Pipeline) (f : Frame) (a : Answers) (e : AlertEvent) : option string :=
  match format f with
  | Rgb24 => if a_snapshot_written a (event_id e) then Some (p_snapshots_dir p +:+ "/" +:+ event_id e +:+ ".jpg") else None
  | _ => None
  end.

Definition stamp_alert_snapshots (p : Pipeline) (f : Frame) (a : Answers) (events : list AlertEvent) : list AlertEvent :=
  (fun e => match write_alert_snapshot p f a e with Some path => with_snapshot path e | None => e end) <$> events.

Definition alerted (f : Frame) (a : Answers) (e : AlertEvent) : bool := a_should_build a (rule_id e) (Types.captured_at f).

Definition record_alert (f : Frame) (a : Answers) (e : AlertEvent) : list Call :=
  [RecordEvent e (a_sinks_for a (rule_id e)) (alerted f a e) (a_event_recorded a e); PublishAlert e].

Definition events_to_link (a : Answers) (events : list AlertEvent) : list string :=
  event_id <$> List.filter (a_event_recorded a) events.

Definition any_deliverable (f : Frame) (a : Answers) (events : list AlertEvent) : bool :=
  existsb (alerted f a) (List.filter (a_event_recorded a) events).

Definition arm_alert_clip (p : Pipeline) (f : Frame) (a : Answers) (events : list AlertEvent) : list Call :=
  if p_alert_clips p && any_deliverable f a events then
    ArmAlertClip (Types.captured_at f) (a_arm a) ::
    match a_arm a with Some k => (fun e => LinkAlertClip e k) <$> events_to_link a events | None => [] end
  else [].

(** The frame's events: stamped, recorded and published, and put on an alert clip. *)
Definition alert_calls (p : Pipeline) (f : Frame) (a : Answers) (events : list AlertEvent) : list Call :=
  (events ≫= record_alert f a) ++ arm_alert_clip p f a events.

(** ** Motion *)
Definition activity_of (p : Pipeline) (f : Frame) (a : Answers) (decisions : list MotionDecision) (em : MotionEventEmitter)
    (events : list AlertEvent) (l : Loop) : Activity :=
  mkActivity decisions (0 <? Z.of_nat (live_track_count (p_camera p) em)) (p_clip_on_alert p) (events_to_link a events)
    (current_dims (tuning l)).

(** A frame whose objects are known, to its end. *)
Definition conclude (p : Pipeline) (f : Frame) (a : Answers) (objects : list TrackedObject) (l : Loop) (sh : Shared) :
    Loop * Shared * list Call :=
  let dynamic := dynamic_tracks objects (is_some (static_filter (scene l))) in
  let c1 := publish p f a objects dynamic l in
  let '(si, (snaps, rows)) := Sightings.tick (sight_tick f a dynamic) (sightings l) in
  let '(ev, events) := evaluate execute debug (eval_frame p f a objects) (evaluator sh) in
  let events := stamp_alert_snapshots p f a events in
  let '(decisions, em) := MotionEvents.tick (p_camera p) dynamic (Types.captured_at f) (captured_mono f) (emitter l) in
  let '(cl, c3) := lifecycle (stamp_of_frame f) (a_recorder a) (activity_of p f a decisions em events l) (clips l) in
  (with_clips cl (with_emitter em (with_sightings si l)), mkShared (world sh) ev,
   c1 ++ [Sighted snaps rows] ++ alert_calls p f a events ++ on_clips c3).

(** A frame that was detected on, or skipped. *)
Definition follow (p : Pipeline) (f : Frame) (a : Answers) (dets : list Detection) (l : Loop) (sh : Shared) :
    Loop * Shared * list Call * Flow :=
  let s := scene l in
  let '(tr, tracked) := track_update dets (captured_mono f) (tracker s) in
  let '(u, want) := observe_crowd (zlength tracked) (captured_mono f) (tuning l) in
  let '(u, rebuilt, c1) := resize p want (a_resize a) u in
  let s := mkScene tr (annotator s) (static_filter s) (last_static_clear_seq s) in
  if rebuilt then
    let '(cl, c2) := resize_close (stamp_of_frame f) (clips l) in
    (with_clips cl (with_scene s (with_tuning u l)), sh, ObserveAnalysed :: c1 ++ on_clips c2, Break)
  else
    let '(s, objects) := perceive p f a tracked s in
    let '(l, sh, c2) := conclude p f a objects (with_scene s (with_tuning u l)) sh in
    (l, sh, ObserveAnalysed :: c1 ++ c2, Continue).

(** A frame that passed the gate. *)
Definition analyse (p : Pipeline) (f : Frame) (a : Answers) (l : Loop) (sh : Shared) : Loop * Shared * list Call * Flow :=
  let '(cl, c1) := rotate (p_max_clip_bytes p) (stamp_of_frame f) (a_recorder a) (clips l) in
  let '(sk, skip) := Skip.should_skip (skip_policy (tuning l)) in
  let l := with_clips cl (with_tuning (with_skip sk (tuning l)) l) in
  let '(dets, w) := detections_of p f skip (tuning l) (world sh) in
  let sh := mkShared w (evaluator sh) in
  match dets with
  | None => (l, sh, on_clips c1, Continue)
  | Some (dets, c2) =>
      let l := mkLoop (tuning l) (scene l) (emitter l) (sightings l) (clips l) (session_epoch l) (decoded l)
        (detected l + if skip then 0 else 1) in
      let '(l, sh, c3, flow) := follow p f a dets l sh in
      (l, sh, on_clips c1 ++ c2 ++ c3, flow)
  end.

Definition frame_step (p : Pipeline) (f : Frame) (a : Answers) (l : Loop) (sh : Shared) : Loop * Shared * list Call * Flow :=
  let '(l, c1) := receive f a l in
  let '(g, pass) := allow (gate (tuning l)) f in
  let l := with_tuning (with_gate g (tuning l)) l in
  if pass then
    let '(l, sh, c2, flow) := analyse p f a l sh in (l, sh, c1 ++ c2, flow)
  else (l, sh, c1 ++ [ObserveDropped], Continue).

(** The end of the pipeline. *)
Definition stop (p : Pipeline) (now : Z) (l : Loop) : Loop * list Call :=
  let '(cl, c) := finish now (clips l) in
  (with_clips cl (with_emitter (forget_camera (p_camera p) (emitter l)) l), on_clips c ++ [Stopped (decoded l) (detected l)]).

(** The loop as a machine: frames, with what the others left in the shared state, and new sessions. *)
Inductive LoopOp :=
| Arrive (f : Frame) (a : Answers) (sh : Shared)
| NextSession (epoch : Z).

Definition loop_step (p : Pipeline) (o : LoopOp) (l : Loop) : Loop * list Call :=
  match o with
  | Arrive f a sh => let '(l, _, calls, _) := frame_step p f a l sh in (l, calls)
  | NextSession e => (mkLoop (tuning l) (scene l) (emitter l) (sightings l) (clips l) e (decoded l) (detected l), [])
  end.

#[export] Instance loop_machine (p : Pipeline) : Machine LoopOp Loop (list Call) := loop_step p.

(** ** The start *)

(** The engine's sections the loop is made from. *)
Record EngineConfig := mkEngineConfig {
  ec_annotator : AnnotatorConfig;
  ec_static : StaticObjectConfig;
  ec_sample_hz : f32;
  ec_post_roll_secs : Z;
  ec_min_track_age_frames : Z;
  ec_emit_interval : Z;
  ec_crowded_threshold : Z;
  ec_crowded_interval : Z;
}.

(** The camera's override of the anchors' time to live. *)
Definition effective_static (p : Pipeline) (c : StaticObjectConfig) : StaticObjectConfig :=
  match anchor_ttl_secs (p_behavior p) with
  | Some ttl => mkConfig (dwell_frames c) (dwell_secs c) (anchor_persons c) (significant_movement_pixels c)
      (significant_movement_frames c) (movement_ema_alpha c) (match_distance_pixels c) (track_id_reuse_reset_pixels c)
      (persistence_enabled c) ttl
  | None => c
  end.

(** [file]: the camera's registry file, and whether it can be read; [seq]: its clear counter. *)
Definition loop_new (parse : list Z -> option RegistryFile) (p : Pipeline) (c : EngineConfig) (tr : T) (read_ok : bool) (file : File)
    (seq : Z) (seeds : list EntityLocalSeed) (epoch : Z) : Loop :=
  let b := p_behavior p in
  mkLoop
    (mkTuning gate_new (Skip.new (detector_skip_crowded_threshold b) (detector_skip_every_n_frames b))
       (Hysteresis.new (detector_downscale_crowded_threshold b) (detector_downscale_sustained_secs b) None) false
       (Hysteresis.new (supervisor_downscale_crowded_threshold b) (supervisor_downscale_sustained_secs b) (supervisor_upscale_clear_secs b)) false
       (p_original_dims p))
    (mkScene tr (annotator_new (ec_annotator c))
       (if parking_lot_mode b
        then Some (with_anchor_classes parse (effective_static p (ec_static c)) (p_camera p) true (static_anchor_classes (ec_annotator c)) read_ok file, file)
        else None)
       seq)
    (emitter_new (ec_sample_hz c))
    (with_first_emit_jitter (with_crowded_cadence (ec_crowded_threshold c) (ec_crowded_interval c)
       (new_with_persistence (p_camera p) (ec_min_track_age_frames c) (ec_emit_interval c) seeds)))
    (clips_new (ec_post_roll_secs c)) epoch 0 0.

(** ** The clips of the loop are the clips of [ClipLoop] *)

Definition clip_call (c : Call) : option ClipCall := match c with OnClip c => Some c | _ => None end.
Definition clip_calls (cs : list Call) : list ClipCall := omap clip_call cs.

(** Whether motion is live in the emitter. *)
Definition motion_live (p : Pipeline) (e : MotionEventEmitter) : bool := 0 <? Z.of_nat (live_track_count (p_camera p) e).

Lemma clip_calls_app a b : clip_calls (a ++ b) = clip_calls a ++ clip_calls b.
Proof. apply omap_app. Qed.

Lemma clip_calls_on l : clip_calls (on_clips l) = l.
Proof. induction l as [|c l IH]; [done|]. simpl. f_equal. exact IH. Qed.

Lemma clip_calls_none l : (forall c, c ∈ l -> clip_call c = None) -> clip_calls l = [].
Proof.
  induction l as [|c l IH]; intros H; [done|]. simpl. rewrite H by (by left). apply IH. intros. apply H. by right.
Qed.

Lemma publish_no_clip p f a objects dynamic l : clip_calls (publish p f a objects dynamic l) = [].
Proof. unfold publish. by destruct (a_lite_subscribers a), (p_alert_clips p). Qed.

Lemma alerts_no_clip p f a events : clip_calls (alert_calls p f a events) = [].
Proof.
  apply clip_calls_none. intros c. unfold alert_calls. rewrite elem_of_app. intros [H|H].
  - apply list_elem_of_bind in H as (e & H & _). unfold record_alert in H. apply elem_of_cons in H as [->|H]; [done|]. by apply list_elem_of_singleton in H as ->.
  - unfold arm_alert_clip in H. destruct (_ && _); [|by apply elem_of_nil in H]. apply elem_of_cons in H as [->|H]; [done|].
    destruct (a_arm a); [|by apply elem_of_nil in H]. by apply list_elem_of_fmap in H as (e & -> & _).
Qed.

(** An emitter gets its first track by announcing it. *)
Lemma tick_announces p tracked now mono e :
  let '(out, e') := MotionEvents.tick (p_camera p) tracked now mono e in
  motion_live p e' = true -> motion_live p e = true \/ existsb (fun d => bool_decide (d_kind d = Born)) out = true.
Proof.
  unfold MotionEvents.tick. set (st := default ∅ (cameras e !! p_camera p)).
  pose proof (fun i => tick_track (p_camera p) (update_interval (sample_hz e)) tracked now mono st i) as H. cbn zeta in H.
  destruct (tick_tracks _ _ _ _ _ st) as [out st']. intros Hl. destruct (motion_live p e) eqn:E; [by left|right].
  assert (st = ∅) as Hst.
  { subst st. unfold motion_live, live_track_count in E. destruct (cameras e !! p_camera p) as [m|]; [|done]. simpl.
    apply map_size_empty_inv. apply Z.ltb_ge in E. lia. }
  unfold motion_live, live_track_count in Hl. cbn [cameras] in Hl. rewrite lookup_insert_eq in Hl.
  assert (st' <> ∅) as (i & s' & Hi)%map_choose by (intros ->; by rewrite map_size_empty in Hl).
  specialize (H i). rewrite Hst, lookup_empty in H. destruct (last _) as [t|]; [|destruct H as [_ H]; by rewrite H in Hi].
  destruct H as (s & _ & _ & (t0 & Ho) & _). apply existsb_exists. exists (decision (p_camera p) Born now t0). split; [|done].
  apply list_elem_of_In. assert (decision (p_camera p) Born now t0 ∈ MotionEvents.of_track i out) as Hin by (rewrite Ho; by left).
  by apply list_elem_of_filter in Hin as [_ Hin].
Qed.

(** [fs] is what a step did to the clips, and the motion it was about. *)
Record clip_view (p : Pipeline) (fs : list ClipFrame) (l l' : Loop) (calls : list Call) : Prop := {
  view_state : (mrun (H:=clip_machine (p_max_clip_bytes p)) fs (clips l)).1 = clips l';
  view_calls : concat (mrun (H:=clip_machine (p_max_clip_bytes p)) fs (clips l)).2 = clip_calls calls;
  view_announced : announced (motion_live p (emitter l)) fs;
  view_live : live_after (motion_live p (emitter l)) fs = motion_live p (emitter l');
}.

Lemma conclude_view p f a objects l sh :
  let '(l', _, calls) := conclude p f a objects l sh in
  exists v, lifecycle (stamp_of_frame f) (a_recorder a) v (clips l) = (clips l', clip_calls calls) /\
    live v = motion_live p (emitter l') /\ (live v = true -> motion_live p (emitter l) = true \/ has_born v = true) /\
    dims v = current_dims (tuning l) /\ tuning l' = tuning l.
Proof.
  unfold conclude. destruct (Sightings.tick _ _) as [si [snaps rows]]. destruct (evaluate _ _ _ _) as [ev events].
  pose proof (tick_announces p (dynamic_tracks objects (is_some (static_filter (scene l)))) (Types.captured_at f) (captured_mono f) (emitter l)) as Ha.
  destruct (MotionEvents.tick _ _ _ _ _) as [decisions em].
  set (v := activity_of _ _ _ _ _ _ _). destruct (lifecycle _ _ v _) as [cl c3] eqn:E. exists v. split; [|split_and!; [done|exact Ha|done|done]].
  rewrite E, !clip_calls_app, publish_no_clip, alerts_no_clip, clip_calls_on. done.
Qed.

Lemma follow_view p f a dets l sh :
  let '(l', _, calls, _) := follow p f a dets l sh in
  (resize_close (stamp_of_frame f) (clips l) = (clips l', clip_calls calls) /\ emitter l' = emitter l) \/
  exists v, lifecycle (stamp_of_frame f) (a_recorder a) v (clips l) = (clips l', clip_calls calls) /\
    live v = motion_live p (emitter l') /\ (live v = true -> motion_live p (emitter l) = true \/ has_born v = true) /\
    dims v = current_dims (tuning l') /\ current_dims (tuning l') = current_dims (tuning l).
Proof.
  unfold follow. destruct (track_update _ _ _) as [tr tracked]. destruct (observe_crowd _ _ _) as [u want] eqn:Eo.
  assert (current_dims u = current_dims (tuning l)) as Hu.
  { unfold observe_crowd in Eo. destruct (Hysteresis.observe _ _ _), (Hysteresis.observe _ _ _). by injection Eo as <- _. }
  destruct (resize p want (a_resize a) u) as [[u' rebuilt] c1] eqn:Er.
  assert (clip_calls c1 = [] /\ (rebuilt = false -> current_dims u' = current_dims u)) as [Hc1 Hd].
  { unfold resize in Er. repeat case_match; injection Er as <- <- <-; done. }
  destruct rebuilt.
  - destruct (resize_close (stamp_of_frame f) (clips l)) as [cl c2] eqn:Ec. left. simpl. rewrite clip_calls_app, Hc1, clip_calls_on. done.
  - destruct (perceive _ _ _ _ _) as [s objects]. match goal with |- context [conclude p f a objects ?l sh] => set (l1 := l) end.
    pose proof (conclude_view p f a objects l1 sh) as H. destruct (conclude p f a objects l1 sh) as [[l' sh'] c2].
    right. destruct H as (v & E & Hv & Hb & Hdv & Ht). exists v. simpl. rewrite clip_calls_app, Hc1, Ht. specialize (Hd eq_refl).
    split_and!; [exact E|done|done|done|]. change (current_dims u' = current_dims (tuning l)). congruence.
Qed.

(** The size a frame is at, and was before unless it flipped. *)
Definition dims_kept (o : option ClipFrame) (l l' : Loop) : Prop :=
  match o with
  | Some (Flipped _ _) => True
  | Some (Through _ _ v) => dims v = current_dims (tuning l') /\ current_dims (tuning l') = current_dims (tuning l)
  | _ => current_dims (tuning l') = current_dims (tuning l)
  end.

Lemma clip_view_intro p (o : option ClipFrame) l l' calls :
  match o with Some t => clip_step (p_max_clip_bytes p) t (clips l) = (clips l', clip_calls calls) | None => clips l' = clips l /\ clip_calls calls = [] end ->
  announced (motion_live p (emitter l)) (option_list o) ->
  live_after (motion_live p (emitter l)) (option_list o) = motion_live p (emitter l') ->
  clip_view p (option_list o) l l' calls.
Proof.
  intros H Ha Hl. destruct o as [t|]; simpl in *.
  - split; [| |done|done]; rewrite mrun_cons; change (mstep (Machine:=clip_machine (p_max_clip_bytes p)) t (clips l)) with (clip_step (p_max_clip_bytes p) t (clips l));
      rewrite H; simpl; [done|by rewrite app_nil_r].
  - destruct H as [H1 H2]. split; simpl; done.
Qed.

Lemma analyse_view p f a l sh : exists o,
  let '(l', _, calls, _) := analyse p f a l sh in clip_view p (option_list o) l l' calls /\ dims_kept o l l'.
Proof.
  unfold analyse. destruct (rotate _ _ _ _) as [cl c1] eqn:Er. destruct (Skip.should_skip _) as [sk skip].
  set (l0 := with_clips cl _). destruct (detections_of _ _ _ _ _) as [dets w] eqn:Ed.
  destruct dets as [[dets c2]|].
  - set (l1 := mkLoop _ _ _ _ _ _ _ _). pose proof (follow_view p f a dets l1 (mkShared w (evaluator sh))) as H.
    destruct (follow p f a dets l1 _) as [[[l' sh'] c3] flow].
    assert (clip_calls c2 = []) as Hc2.
    { unfold detections_of in Ed. destruct skip; [by injection Ed as <- <- <-|]. destruct (detect _ _ _ _) as [[d|e] w1]; [|done].
      destruct (cascade _ _ _ _ _ _ _) as [[d2 added] w2]. injection Ed as <- <- <-. by destruct added. }
    assert (clip_calls (on_clips c1 ++ c2 ++ c3) = c1 ++ clip_calls c3) as Hcalls by (by rewrite !clip_calls_app, clip_calls_on, Hc2).
    assert (clips l1 = cl) as Hcl by done. rewrite Hcl in H. destruct H as [[E He]|(v & E & Hv & Hb & Hdv & Hdl)].
    + exists (Some (Flipped (stamp_of_frame f) (a_recorder a))). split; [|done]. apply clip_view_intro; simpl; [|done|by rewrite He].
      by rewrite Er, E, Hcalls.
    + exists (Some (Through (stamp_of_frame f) (a_recorder a) v)). split; [|by split]. apply clip_view_intro; simpl; [|by split|done].
      by rewrite Er, E, Hcalls.
  - exists (Some (Undetected (stamp_of_frame f) (a_recorder a))). split; [|done]. apply clip_view_intro; simpl; [|done|done].
    by rewrite Er, clip_calls_on.
Qed.

Lemma receive_view f a l :
  clips (receive f a l).1 = clips l /\ emitter (receive f a l).1 = emitter l /\ tuning (receive f a l).1 = tuning l /\
  clip_calls (receive f a l).2 = [].
Proof. unfold receive. by destruct (static_filter (scene l)) as [[flt file]|]. Qed.

Lemma clip_view_from p fs l0 l l' c0 calls :
  clips l0 = clips l -> emitter l0 = emitter l -> clip_calls c0 = [] -> clip_view p fs l l' calls -> clip_view p fs l0 l' (c0 ++ calls).
Proof. intros E1 E2 E3 [H1 H2 H3 H4]. split; rewrite ?E1, ?E2, ?clip_calls_app, ?E3; done. Qed.

Lemma loop_step_view p op l : exists o,
  clip_view p (option_list o) l (loop_step p op l).1 (loop_step p op l).2 /\ dims_kept o l (loop_step p op l).1.
Proof.
  destruct op as [f a sh|e]; simpl; [|by exists None; split; [split|]].
  unfold frame_step. pose proof (receive_view f a l) as (R1 & R2 & R3 & R4). destruct (receive f a l) as [l1 c1]. simpl in R1, R2, R3, R4.
  destruct (allow _ f) as [g pass]. set (l2 := with_tuning _ l1).
  assert (current_dims (tuning l2) = current_dims (tuning l)) as Hd by (simpl; by rewrite R3). destruct pass; simpl.
  - pose proof (analyse_view p f a l2 sh) as [o H]. destruct (analyse p f a l2 sh) as [[[l' sh'] c2] flow]. exists o.
    simpl. destruct H as [H Hk]. split; [by apply (clip_view_from p _ l l2)|]. unfold dims_kept in *. by rewrite <-Hd.
  - exists None. split; [|exact Hd]. apply (clip_view_from p _ l l2); [done|done|done|]. by split.
Qed.

Lemma announced_app was a b : announced was (a ++ b) <-> announced was a /\ announced (live_after was a) b.
Proof.
  revert was. induction a as [|t a IH]; intros was; [simpl; tauto|]. destruct t; simpl; rewrite IH; unfold live_after; simpl; tauto.
Qed.

Lemma loop_run_view p ops l : exists fs,
  clip_view p fs l (mrun (H:=loop_machine p) ops l).1 (concat (mrun (H:=loop_machine p) ops l).2).
Proof.
  revert l. induction ops as [|op ops IH]; intros l; [by exists []; split|]. rewrite mrun_cons.
  change (mstep (Machine:=loop_machine p) op l) with (loop_step p op l). destruct (loop_step_view p op l) as (o & [A1 A2 A3 A4] & _). set (fs1 := option_list o) in *.
  destruct (loop_step p op l) as [l1 c1]. destruct (IH l1) as [fs2 [B1 B2 B3 B4]]. exists (fs1 ++ fs2). simpl in *. split.
  - rewrite mrun_app. simpl. rewrite A1. exact B1.
  - rewrite mrun_app. simpl. rewrite concat_app, A1, A2, B2. by rewrite clip_calls_app.
  - apply announced_app. rewrite A4. done.
  - unfold live_after in *. by rewrite foldl_app, A4.
Qed.

(** ** The recording half refines [ClipLoop] *)

Definition loop_trace (p : Pipeline) (ops : list LoopOp) (l : Loop) : list Call := concat (mrun (H:=loop_machine p) ops l).2.

Definition fresh_loop (p : Pipeline) (n : Z) (l : Loop) : Prop := clips l = clips_new n /\ motion_live p (emitter l) = false.

Lemma loop_new_fresh parse p c tr ok file seq seeds e : fresh_loop p (ec_post_roll_secs c) (loop_new parse p c tr ok file seq seeds e).
Proof. by split. Qed.

(** The frame loop refines the clip loop. Whatever frames arrive, and whatever the detectors, the rules, the
    other cameras and the recorder do, the calls a pipeline makes on its recorder, and the state of
    its clips, are those of the clip loop on some sequence of frames in which motion never gets live
    without a birth, and whose liveness is the motion emitter's. *)
Lemma frame_loop_refines_clip_loop p ops l n : fresh_loop p n l ->
  exists fs, announced false fs /\
    clips (mrun (H:=loop_machine p) ops l).1 = (mrun (H:=clip_machine (p_max_clip_bytes p)) fs (clips_new n)).1 /\
    clip_calls (loop_trace p ops l) = concat (mrun (H:=clip_machine (p_max_clip_bytes p)) fs (clips_new n)).2 /\
    live_after false fs = motion_live p (emitter (mrun (H:=loop_machine p) ops l).1).
Proof.
  intros [Hc He]. destruct (loop_run_view p ops l) as [fs [H1 H2 H3 H4]]. rewrite Hc in *. rewrite He in *. exists fs.
  split_and!; [done|by symmetry..|done].
Qed.

(** A pipeline leaves no clip open and mixes none up: over its whole life one clip is open at a time, each is
    closed once and while it is the open one, every motion row and every link of an alert names the
    clip open at that moment, and once the loop has stopped no clip is open. *)
Lemma pipeline_clips_are_bracketed p ops l n now : fresh_loop p n l ->
  read_trace None (clip_calls (loop_trace p ops l ++ (stop p now (mrun (H:=loop_machine p) ops l).1).2)) = Some None.
Proof.
  intros [Hc He]. destruct (loop_run_view p ops l) as [fs [H1 H2 _ _]]. rewrite clip_calls_app. unfold loop_trace. rewrite <-H2.
  unfold stop. rewrite Hc in *. set (l' := (mrun (H:=loop_machine p) ops l).1) in *. rewrite <-H1.
  pose proof (clips_are_bracketed (p_max_clip_bytes p) n fs now) as H. cbn zeta in H. revert H.
  destruct (finish now _) as [cl c]. simpl. by rewrite clip_calls_app, clip_calls_on, app_nil_r.
Qed.

(** C16. Live motion is recorded, or a recording is on its way. Whenever the motion emitter has a live track, a
    clip is open or the loop has kept the demand for one: through refusals of the recorder,
    rotations, changes of frame size, failures of the detector and frames the gate drops. *)
Theorem live_motion_is_recorded p ops l n : fresh_loop p n l ->
  let l' := (mrun (H:=loop_machine p) ops l).1 in
  motion_live p (emitter l') = true -> demanded (clips l').
Proof.
  intros [Hc He] l' Hl. destruct (loop_run_view p ops l) as [fs [H1 _ H3 H4]]. fold l' in H1, H4. rewrite Hc in *. rewrite He in *.
  rewrite <-H1. apply live_motion_is_recorded_or_wanted; [done|]. by rewrite H4.
Qed.

(** ** A clip has one frame size *)

(** The size of the clip that is open after some calls. *)
Definition size_call (d : option (Z * Z)) (c : ClipCall) : option (Z * Z) :=
  match c with
  | Open _ w h (Opened _) => Some (w, h)
  | Close _ _ => None
  | _ => d
  end.
Definition clip_size (d : option (Z * Z)) (l : list ClipCall) : option (Z * Z) := foldl size_call d l.

Definition sized (d : option (Z * Z)) (size : Z * Z) (s : ClipState) : Prop := is_Some (current_clip s) -> d = Some size.

Lemma rotate_sized m at_ a s d size :
  sized d size s -> sized (clip_size d (rotate m at_ a s).2) size (rotate m at_ a s).1.
Proof.
  intros H. unfold rotate. destruct (current_clip s) as [h|] eqn:E; [|done]. destruct (clip_opened_at s); [|done].
  destruct (size_check _ _ _) as [n size']. destruct (_ || _ || _); [by intros [? ?]|]. intros _. apply H. by rewrite E.
Qed.

Lemma clip_size_rows d l : (forall c, c ∈ l -> forall x, size_call x c = x) -> clip_size d l = d.
Proof.
  revert d. induction l as [|c l IH]; intros d H; [done|]. unfold clip_size. simpl. rewrite H by (by left). apply IH.
  intros c' Hc'. apply H. by right.
Qed.

Lemma lifecycle_sized at_ a v s d :
  sized d (ClipLoop.dims v) s -> sized (clip_size d (lifecycle at_ a v s).2) (ClipLoop.dims v) (lifecycle at_ a v s).1.
Proof.
  intros H. unfold lifecycle. destruct (PostRoll.tick _ _ _) as [pr action].
  set (s1 := match action with KeepOpen => _ | CloseNow => _ end).
  assert (sized d (ClipLoop.dims v) s1) as H1 by (subst s1; by destruct action).
  assert (sized (clip_size d (if should_open at_ a v s1 then try_open at_ a v s1 else (s1, [])).2) (ClipLoop.dims v)
    (if should_open at_ a v s1 then try_open at_ a v s1 else (s1, [])).1) as H2.
  { destruct (should_open at_ a v s1); [|done]. unfold try_open. destruct (a_open a); [|by intros [? ?]..].
    intros _. simpl. by destruct (ClipLoop.dims v). }
  destruct (if should_open at_ a v s1 then _ else _) as [s2 opened]. simpl in H2.
  assert (forall x, foldl size_call x (insert_decisions v s2 ++ link_events v s2) = x) as Hrows.
  { intros x. apply (clip_size_rows x). unfold insert_decisions, link_events. destruct (current_clip s2).
    - by intros c' [(? & -> & _)%list_elem_of_fmap|(? & -> & _)%list_elem_of_fmap]%elem_of_app.
    - intros c Hc. by apply elem_of_nil in Hc. }
  destruct action; simpl.
  - unfold clip_size in *. by rewrite app_nil_r, foldl_app, Hrows.
  - unfold close_now. destruct (current_clip s2) eqn:E; [by intros [? ?]|]. simpl. intros [? Hx]. by rewrite E in Hx.
Qed.

Lemma clip_view_sized p o l l' calls d :
  clip_view p (option_list o) l l' calls -> dims_kept o l l' ->
  sized d (current_dims (tuning l)) (clips l) -> sized (clip_size d (clip_calls calls)) (current_dims (tuning l')) (clips l').
Proof.
  intros [H1 H2 _ _] Hk Hd. rewrite <-H1, <-H2. destruct o as [t|]; simpl in *; [|by rewrite Hk].
  change (mstep (Machine:=clip_machine (p_max_clip_bytes p)) t (clips l)) with (clip_step (p_max_clip_bytes p) t (clips l)).
  destruct t as [at_ a|at_ a|at_ a v]; simpl in *; pose proof (rotate_sized (p_max_clip_bytes p) at_ a (clips l) d _ Hd) as Hr;
    destruct (rotate (p_max_clip_bytes p) at_ a (clips l)) as [s1 c1]; simpl in *.
  - by rewrite app_nil_r, Hk.
  - unfold resize_close. destruct (current_clip s1) eqn:E; simpl; [by intros [? ?]|]. intros [? Hx]. by rewrite E in Hx.
  - destruct Hk as [Hv Hkl]. rewrite <-Hkl, <-Hv in Hr. pose proof (lifecycle_sized at_ a v s1 _ Hr) as Hl.
    destruct (lifecycle at_ a v s1) as [s2 c2]. simpl in *. rewrite app_nil_r. unfold clip_size in *. rewrite foldl_app, <-Hv. exact Hl.
Qed.

(** A clip has one frame size: the clip that is open was opened at the size at which the source delivers
    frames now, so the boxes put on it are in its own coordinates; a change of size closes it first. *)
Lemma clip_has_one_frame_size p ops l n : fresh_loop p n l ->
  let l' := (mrun (H:=loop_machine p) ops l).1 in
  is_Some (current_clip (clips l')) -> clip_size None (clip_calls (loop_trace p ops l)) = Some (current_dims (tuning l')).
Proof.
  intros [Hc _]. assert (forall ops l d, sized d (current_dims (tuning l)) (clips l) ->
    sized (clip_size d (clip_calls (loop_trace p ops l))) (current_dims (tuning (mrun (H:=loop_machine p) ops l).1)) (clips (mrun (H:=loop_machine p) ops l).1)) as H.
  2: { apply (H ops l None). unfold sized. rewrite Hc. by intros [? ?]. }
  clear. induction ops as [|op ops IH]; intros l d H; [done|]. unfold loop_trace. rewrite mrun_cons.
  change (mstep (Machine:=loop_machine p) op l) with (loop_step p op l). destruct (loop_step_view p op l) as (o & Hv & Hk).
  destruct (loop_step p op l) as [l1 c1]. simpl in Hv, Hk |- *. rewrite clip_calls_app. unfold clip_size. rewrite foldl_app.
  apply IH. by eapply clip_view_sized.
Qed.

(** ** Where the calls of a frame come from *)

(** The calls a frame makes once its objects are known. *)
Definition outward (c : Call) : bool :=
  match c with
  | PutObjects _ _ _ | PublishMetadata _ | PublishLite _ | PushBoxes _ | Sighted _ _ | RecordEvent _ _ _ _ | PublishAlert _
  | ArmAlertClip _ _ | LinkAlertClip _ _ | OnClip (InsertMotion _ _) | OnClip (LinkEvent _ _) => true
  | _ => false
  end.

Definition silent (l : list Call) : Prop := Forall (fun c => outward c = false) l.

Lemma silent_rotate m at_ a s : silent (on_clips (rotate m at_ a s).2).
Proof.
  unfold rotate. destruct (current_clip s); [|constructor]. destruct (clip_opened_at s); [|constructor].
  destruct (size_check _ _ _). destruct (_ || _ || _); repeat constructor.
Qed.

Lemma silent_resize_close at_ s : silent (on_clips (resize_close at_ s).2).
Proof. unfold resize_close. destruct (current_clip s); repeat constructor. Qed.

(** A frame that reached its end: its detections, its objects, and the state it ended from. *)
Record Ending := mkEnding {
  en_dets : list Detection;
  en_skip : bool;
  en_scene : Scene;
  en_loop : Loop;
  en_shared : Shared;
  en_objects : list TrackedObject;
}.

Record ended (p : Pipeline) (f : Frame) (a : Answers) (l : Loop) (sh : Shared) (e : Ending) : Prop := {
  en_detected : exists c, (detections_of p f (en_skip e) (tuning l) (world sh)).1 = Some (en_dets e, c);
  en_filter : is_some (static_filter (en_scene e)) = is_some (static_filter (scene l));
  en_seen : perceive p f a (track_update (en_dets e) (captured_mono f) (tracker (scene l))).2 (en_scene e) = (scene (en_loop e), en_objects e);
  en_tracker : tracker (en_scene e) = (track_update (en_dets e) (captured_mono f) (tracker (scene l))).1;
  en_rules : evaluator (en_shared e) = evaluator sh;
  en_emitter : emitter (en_loop e) = emitter l;
  en_clips : clips (en_loop e) = (rotate (p_max_clip_bytes p) (stamp_of_frame f) (a_recorder a) (clips l)).1;
}.

Definition ending_calls (p : Pipeline) (f : Frame) (a : Answers) (e : Ending) : list Call :=
  (conclude p f a (en_objects e) (en_loop e) (en_shared e)).2.

(** What a frame that does not reach its end leaves of the tracker. *)
Definition tracker_kept (f : Frame) (l l' : Loop) : Prop :=
  tracker (scene l') = tracker (scene l) \/ exists dets, tracker (scene l') = (track_update dets (captured_mono f) (tracker (scene l))).1.

Lemma perceive_scene p f a tracked s :
  tracker (perceive p f a tracked s).1 = tracker s /\ is_some (static_filter (perceive p f a tracked s).1) = is_some (static_filter s).
Proof.
  unfold perceive. destruct (annotate _ _ _ _ _ _ _ _) as [ann objects]. destruct (static_filter s) as [[flt file]|]; [|done].
  by destruct (classify _ _ _ _ _ _ _ _) as [[flt' file'] objects'].
Qed.

Lemma conclude_scene p f a objects l sh : scene (conclude p f a objects l sh).1.1 = scene l.
Proof.
  unfold conclude. destruct (Sightings.tick _ _) as [si [snaps rows]]. destruct (evaluate _ _ _ _) as [ev events].
  destruct (MotionEvents.tick _ _ _ _ _) as [decisions em]. by destruct (lifecycle _ _ _ _) as [cl c3].
Qed.

(** The two ways a frame can go, with the calls it makes before its end. *)
Definition goes (p : Pipeline) (f : Frame) (a : Answers) (l : Loop) (sh : Shared) (r : Loop * Shared * list Call * Flow) : Prop :=
  (silent r.1.2 /\ tracker_kept f l r.1.1.1 /\ emitter r.1.1.1 = emitter l) \/
  exists e before, ended p f a l sh e /\ silent before /\ r.1.2 = before ++ ending_calls p f a e /\
    r.1.1 = (conclude p f a (en_objects e) (en_loop e) (en_shared e)).1.

Lemma silent_app a b : silent (a ++ b) <-> silent a /\ silent b.
Proof. apply Forall_app. Qed.

Lemma detections_silent p f skip u w d c : (detections_of p f skip u w).1 = Some (d, c) -> silent c.
Proof.
  unfold detections_of. destruct skip; [intros [= <- <-]; constructor|]. destruct (detect _ _ _ _) as [[ds|e] w1]; [|done].
  destruct (cascade _ _ _ _ _ _ _) as [[d2 added] w2]. intros [= <- <-]. destruct added; repeat constructor.
Qed.

Lemma analyse_goes p f a l sh : goes p f a l sh (analyse p f a l sh).
Proof.
  unfold analyse. destruct (rotate _ _ _ _) as [cl c1] eqn:Er.
  pose proof (silent_rotate (p_max_clip_bytes p) (stamp_of_frame f) (a_recorder a) (clips l)) as H1. rewrite Er in H1. simpl in H1.
  destruct (Skip.should_skip _) as [sk skip].
  assert (forall l', tuning l' = with_skip sk (tuning l) -> detections_of p f skip (tuning l') (world sh) = detections_of p f skip (tuning l) (world sh)) as Hd.
  { intros l' E. unfold detections_of, active_detector. by rewrite E. }
  rewrite Hd by done. destruct (detections_of p f skip (tuning l) (world sh)) as [dets w] eqn:Ed.
  destruct dets as [[dets c2]|]; [|left; split; [done|]; split; [by left|done]].
  assert (silent c2) as H2 by (eapply (detections_silent p f skip (tuning l) (world sh)); by rewrite Ed).
  set (l1 := mkLoop _ _ _ _ _ _ _ _). unfold follow. change (scene l1) with (scene l).
  destruct (track_update dets (captured_mono f) (tracker (scene l))) as [tr tracked] eqn:Et.
  destruct (observe_crowd _ _ _) as [u want]. destruct (resize p want (a_resize a) u) as [[u' rebuilt] c3] eqn:Er2.
  assert (silent c3) as H3 by (unfold resize in Er2; repeat case_match; injection Er2 as <- <- <-; repeat constructor).
  destruct rebuilt.
  - pose proof (silent_resize_close (stamp_of_frame f) (clips l1)) as H4. destruct (resize_close _ (clips l1)) as [cl2 c4]. left. simpl.
    split; [|split; [right; exists dets; by rewrite Et|done]]. simpl in H4. rewrite !silent_app. split_and!; [done|done|]. constructor; [done|]. by apply Forall_app.
  - set (s := mkScene tr _ _ _). pose proof (perceive_scene p f a tracked s) as Hp. destruct (perceive p f a tracked s) as [s' objects] eqn:Ep.
    set (l2 := with_scene s' (with_tuning u' l1)). right. exists (mkEnding dets skip s l2 (mkShared w (evaluator sh)) objects), (on_clips c1 ++ c2 ++ ObserveAnalysed :: c3).
    unfold ending_calls. cbn [en_objects en_loop en_shared]. destruct (conclude p f a objects l2 _) as [[l' sh'] c4]. cbn [fst snd].
    split; [|split; [|split; [|done]]].
    + split; cbn [en_dets en_skip en_scene en_loop en_shared en_objects]; [exists c2; by rewrite Ed|done|by rewrite Et|by rewrite Et|done|done|by rewrite Er].
    + rewrite !silent_app. split_and!; [done|done|]. by constructor.
    + rewrite <-!(assoc_L (++)). done.
Qed.

Lemma receive_scene f a l :
  tracker (scene (receive f a l).1) = tracker (scene l) /\ is_some (static_filter (scene (receive f a l).1)) = is_some (static_filter (scene l)) /\
  silent (receive f a l).2.
Proof.
  unfold receive. destruct (static_filter (scene l)) as [[flt file]|] eqn:E; [destruct (_ =? _)|];
    split_and!; simpl; rewrite ?E; first [done|repeat constructor].
Qed.

Lemma frame_goes p f a l sh : goes p f a l sh (frame_step p f a l sh).
Proof.
  unfold frame_step. pose proof (receive_scene f a l) as (S1 & S2 & S3). pose proof (receive_view f a l) as (R1 & R2 & R3 & _).
  destruct (receive f a l) as [l1 c1]. simpl in S1, S2, S3, R1, R2, R3. destruct (allow _ f) as [g pass]. set (l2 := with_tuning _ l1).
  destruct pass; [|left; split; [by apply silent_app; split; [done|repeat constructor]|]; split; [by left|exact R2]].
  pose proof (analyse_goes p f a l2 sh) as H. destruct (analyse p f a l2 sh) as [[[l' sh'] c2] flow].
  destruct H as [(H1 & H2 & H3)|(e & before & [E1 E2 E3 E4 E5 E6 E7] & Hb & Hc & Hr)]; simpl in *.
  - left. simpl. split; [by apply silent_app|]. split; [|by rewrite H3]. unfold tracker_kept in *. by rewrite <-S1.
  - right. exists e, (c1 ++ before). simpl. split; [|split; [by apply silent_app|]; split; [by rewrite Hc, (assoc_L (++))|done]].
    split; [|by rewrite E2|by rewrite <-S1|by rewrite <-S1|done|by rewrite E6|by rewrite E7, R1].
    destruct E1 as [c Hc1]. exists c. rewrite <-Hc1. unfold detections_of, active_detector. simpl. by rewrite R3.
Qed.

(** ** What an alert shows *)

Lemma same_trans o0 o1 o2 : same_but_attributes o0 o1 -> same_but_attributes o1 o2 -> same_but_attributes o0 o2.
Proof. unfold same_but_attributes. destruct o0, o1, o2; simpl. congruence. Qed.

Lemma perceive_sources p f a tracked s o : o ∈ (perceive p f a tracked s).2 ->
  exists o0, o0 ∈ tracked /\ excluded (frame_width f) (frame_height f) (p_zones p) o0 = false /\
    too_small (frame_width f) (frame_height f) (p_zones p) o0 = false /\ same_but_attributes o0 o.
Proof.
  unfold perceive. set (z := zone_filters _ _ _ tracked). set (anc := match static_filter s with Some _ => _ | None => _ end).
  pose proof (annotator_only_annotates atan2 (captured_mono f) (frame_width f) (frame_height f) (p_zones p) anc z (annotator s)) as Ha.
  destruct (annotate _ _ _ _ _ _ _ _) as [ann objects]. simpl in Ha.
  assert (forall o1, o1 ∈ objects -> exists o0, o0 ∈ tracked /\ excluded (frame_width f) (frame_height f) (p_zones p) o0 = false /\
    too_small (frame_width f) (frame_height f) (p_zones p) o0 = false /\ same_but_attributes o0 o1) as H1.
  { intros o1 [i Hi]%list_elem_of_lookup_1. destruct (Forall2_lookup_r _ _ _ _ _ Ha Hi) as (o0 & H0 & Hs & _).
    apply list_elem_of_lookup_2, elem_of_zone_filters in H0 as (Hin & He & Ht). by exists o0. }
  destruct (static_filter s) as [[flt file]|]; [|apply H1].
  pose proof (classify_cases hypot print (a_saves a) (as_millis (Types.captured_at f)) (captured_mono f) objects flt file) as [Hc _]. cbn zeta in Hc.
  destruct (classify _ _ _ _ _ _ _ _) as [[flt' file'] out]. simpl in *. subst out.
  intros (o1 & b & -> & Ho1 & _)%elem_of_zip_with. destruct (H1 o1 Ho1) as (o0 & ? & ? & ? & Hs). exists o0. split_and!; [done..|].
  by eapply same_trans; [|apply stamp_same].
Qed.

(** Every detection that reaches the tracker is of a label the camera asks for. *)
Lemma detections_whitelisted p f skip u w dets c d :
  (detections_of p f skip u w).1 = Some (dets, c) -> d ∈ dets -> skip = false /\ label_matches_any_prompt (d_label d) (p_prompts p) = true.
Proof.
  unfold detections_of. destruct skip; [intros [= <- _] H; by apply elem_of_nil in H|].
  destruct (detect _ _ _ _) as [[ds|e] w1]; [|done]. set (det := active_detector p u). set (stage1 := whitelisted _ ds).
  pose proof (cascade_only_adds (p_behavior p) (p_top_k p) det f (p_prompts p) stage1 w1) as H.
  destruct (cascade _ _ _ _ _ stage1 w1) as [[out added] w2]. intros [= <- _] Hd. split; [done|].
  assert (forall x, x ∈ stage1 -> label_matches_any_prompt (d_label x) (p_prompts p) = true) as H1.
  { intros x. subst stage1. unfold whitelisted. case_bool_decide as E; [|by intros [? _]%list_elem_of_filter].
    intros _. unfold label_matches_any_prompt. by rewrite bool_decide_true. }
  destruct added as [n|]; [|by subst out; apply H1]. destruct H as (_ & found & _ & _ & Hf & Hk). rewrite Forall_forall in Hf.
  assert (d ∈ stage1 \/ d ∈ found) as [Hin|Hin]; [|by apply H1|by apply Hf].
  destruct (p_top_k p) as [k|]; [by apply Hk|]. subst out. by apply elem_of_app.
Qed.

Lemma stamped_alert p f a events e : e ∈ stamp_alert_snapshots p f a events -> exists e0, e0 ∈ events /\ (e = e0 \/ exists path, e = with_snapshot path e0).
Proof.
  intros (e0 & -> & He)%list_elem_of_fmap. exists e0. split; [done|]. destruct (write_alert_snapshot p f a e0); eauto.
Qed.

(** The alerts of a frame's end. *)
Definition alerts_of (p : Pipeline) (f : Frame) (a : Answers) (e : Ending) : list AlertEvent :=
  stamp_alert_snapshots p f a (evaluate execute debug (eval_frame p f a (en_objects e)) (evaluator (en_shared e))).2.

(** The calls of a frame's end, part by part. *)
Lemma ending_calls_eq p f a e : exists v cl rows snaps,
  let dynamic := dynamic_tracks (en_objects e) (is_some (static_filter (scene (en_loop e)))) in
  (Sightings.tick (sight_tick f a dynamic) (sightings (en_loop e))).2 = (snaps, rows) /\
  decisions v = (MotionEvents.tick (p_camera p) dynamic (Types.captured_at f) (captured_mono f) (emitter (en_loop e))).1 /\
  ClipLoop.events v = events_to_link a (alerts_of p f a e) /\ on_alert v = p_clip_on_alert p /\
  lifecycle (stamp_of_frame f) (a_recorder a) v (clips (en_loop e)) = cl /\
  ending_calls p f a e = publish p f a (en_objects e) dynamic (en_loop e) ++ [Sighted snaps rows] ++
    alert_calls p f a (alerts_of p f a e) ++ on_clips cl.2.
Proof.
  unfold ending_calls, conclude, alerts_of. set (dynamic := dynamic_tracks _ _).
  destruct (Sightings.tick _ _) as [si [snaps rows]]. destruct (evaluate _ _ _ _) as [ev events].
  destruct (MotionEvents.tick _ _ _ _ _) as [ds em]. set (v := activity_of _ _ _ _ _ _ _).
  exists v, (lifecycle (stamp_of_frame f) (a_recorder a) v (clips (en_loop e))), rows, snaps. cbn zeta.
  split_and!; [done..|]. by destruct (lifecycle _ _ v _).
Qed.

Lemma elem_of_alert_calls p f a events c : c ∈ alert_calls p f a events ->
  (exists e, e ∈ events /\ (c = RecordEvent e (a_sinks_for a (rule_id e)) (alerted f a e) (a_event_recorded a e) \/ c = PublishAlert e)) \/
  (exists at_ k, c = ArmAlertClip at_ k) \/ exists i k, c = LinkAlertClip i k /\ i ∈ events_to_link a events.
Proof.
  unfold alert_calls. rewrite elem_of_app. intros [(e & Hc & He)%list_elem_of_bind|H].
  - left. exists e. split; [done|]. unfold record_alert in Hc. apply elem_of_cons in Hc as [->|Hc]; [by left|]. right. by apply list_elem_of_singleton in Hc.
  - right. unfold arm_alert_clip in H. destruct (_ && _); [|by apply elem_of_nil in H].
    apply elem_of_cons in H as [->|H]; [left; eauto|]. destruct (a_arm a) as [k|]; [|by apply elem_of_nil in H].
    apply list_elem_of_fmap in H as (i & -> & Hi). right. eauto.
Qed.

Lemma elem_of_publish p f a objects dynamic l c : c ∈ publish p f a objects dynamic l ->
  c = PutObjects (session_epoch l) (Types.frame_id f) objects \/ c = PublishMetadata (metadata p f objects) \/
  c = PublishLite (metadata p f (lite_of <$> objects)) \/
  c = PushBoxes (mkBoxFrame (Types.captured_at f) (dedupe_burn_boxes (omap burn_box dynamic)) (current_dims (tuning l)).1 (current_dims (tuning l)).2).
Proof.
  unfold publish. rewrite !elem_of_cons, elem_of_app. intros [->|[->|[H|H]]]; [auto|auto|..].
  - destruct (a_lite_subscribers a); [apply list_elem_of_singleton in H as ->; auto|by apply elem_of_nil in H].
  - destruct (p_alert_clips p); [apply list_elem_of_singleton in H as ->; auto|by apply elem_of_nil in H].
Qed.

(** An alert that is recorded is one of the frame's end. *)
Lemma recorded_at_end p f a l sh e sinks al ok : RecordEvent e sinks al ok ∈ (frame_step p f a l sh).1.2 ->
  exists en, ended p f a l sh en /\ e ∈ alerts_of p f a en /\
    PutObjects (session_epoch (en_loop en)) (Types.frame_id f) (en_objects en) ∈ (frame_step p f a l sh).1.2.
Proof.
  destruct (frame_goes p f a l sh) as [(Hs & _)|(en & before & Hen & Hb & Hc & _)]; intros H.
  - unfold silent in Hs. rewrite Forall_forall in Hs. by specialize (Hs _ H).
  - exists en. split; [done|]. rewrite Hc in *. apply elem_of_app in H as [H|H].
    { unfold silent in Hb. rewrite Forall_forall in Hb. by specialize (Hb _ H). }
    destruct (ending_calls_eq p f a en) as (v & cl & rows & snaps & _ & _ & _ & _ & _ & E). rewrite E in *. split.
    2: { rewrite !elem_of_app. right; left. left. }
    rewrite !elem_of_app in H. destruct H as [H|[H|[H|H]]].
    + apply elem_of_publish in H as [?|[?|[?|?]]]; done.
    + by apply list_elem_of_singleton in H.
    + apply elem_of_alert_calls in H as [(e0 & He & [[= -> _ _ _]|?])|[(? & ? & ?)|(? & ? & ? & _)]]; done.
    + by apply list_elem_of_fmap in H as (? & ? & _).
Qed.

(** What an alert of the frame's end is about. *)
Lemma alert_source p f a en ev l sh : ended p f a l sh en -> ev ∈ alerts_of p f a en ->
  exists o b rule, o ∈ en_objects en /\ is_static_hidden o = false /\ detection_bbox o = Some b /\
    rule ∈ Rules.rules (evaluator sh) /\ rule_id ev = id (config rule) /\
    label ev = o_label o /\ bbox ev = Some b /\ track_id ev = Some (o_track_id o) /\
    camera_id ev = p_camera p /\ Alert.frame_id ev = Types.frame_id f /\ Alert.captured_at ev = Types.captured_at f.
Proof.
  intros Hen (e0 & He & Hev)%stamped_alert. destruct (alert_grounds _ _ _ _ _ He) as (rule & o & [G1 G2 _ G4 _ _ _ (b & uuid & Hb & ->)]).
  rewrite (en_rules _ _ _ _ _ _ Hen) in G1. exists o, b, rule. simpl in *.
  split_and!; try done; by destruct Hev as [->|[path ->]].
Qed.

Lemma not_hidden_not_static o : is_static_hidden o = false -> is_object_static o = false.
Proof.
  unfold is_static_hidden, is_object_static. change Rules.STATIC_ATTRIBUTE_KEY with StaticObject.STATIC_ATTRIBUTE_KEY.
  destruct (attributes o !! StaticObject.STATIC_ATTRIBUTE_KEY) as [[]|]; done.
Qed.

Section Detected.
Context `{!TrackerLaws T}.

Lemma frame_tracker_ok p f a l sh : tracker_ok (tracker (scene l)) -> tracker_ok (tracker (scene (frame_step p f a l sh).1.1.1)).
Proof.
  intros H. destruct (frame_goes p f a l sh) as [(_ & [E|[dets E]] & _)|(en & before & Hen & _ & _ & Hr)].
  - by rewrite E.
  - rewrite E. by apply update_ok.
  - rewrite Hr, conclude_scene. destruct Hen as [_ _ Hs Ht _ _ _].
    pose proof (perceive_scene p f a (track_update (en_dets en) (captured_mono f) (tracker (scene l))).2 (en_scene en)) as [Hp _].
    rewrite Hs in Hp. simpl in Hp. rewrite Hp, Ht. by apply update_ok.
Qed.

Lemma run_tracker_ok p ops l : tracker_ok (tracker (scene l)) -> tracker_ok (tracker (scene (mrun (H:=loop_machine p) ops l).1)).
Proof.
  apply (mrun_invariant (H:=loop_machine p) (fun _ => True) (fun l => tracker_ok (tracker (scene l)))); [|by apply Forall_true].
  intros [f a sh|e] s _ Hs; [|done]. change (mstep (Machine:=loop_machine p) (Arrive f a sh) s) with (loop_step p (Arrive f a sh) s).
  simpl. pose proof (frame_tracker_ok p f a s sh Hs) as H. by destruct (frame_step p f a s sh) as [[[l' sh'] calls] flow].
Qed.

(** C15. A recorded alert shows a detection. In any run, every alert a frame puts on record is about one
    object [o] that the tracker reported for this very frame: the object carries label and box of a
    detection the active detector gave for the frame, of a label the camera asks for, strong enough
    for the tracker; it lies in no exclusion zone and is not too small for its zone; it is published,
    with what the annotator and the static filter add ([shown]), and is not parked. The alert carries
    the object's label, box and track, and camera, id and stamp of the frame; its rule is one of the
    evaluator's. *)
Theorem recorded_alert_shows_a_detection p ops l0 f a sh ev sinks al ok :
  tracker_ok (tracker (scene l0)) ->
  let l := (mrun (H:=loop_machine p) ops l0).1 in
  let calls := (frame_step p f a l sh).1.2 in
  RecordEvent ev sinks al ok ∈ calls ->
  exists dets c d o shown rule, (detections_of p f false (tuning l) (world sh)).1 = Some (dets, c) /\ d ∈ dets /\ admits d = true /\
    label_matches_any_prompt (d_label d) (p_prompts p) = true /\
    o ∈ (track_update dets (captured_mono f) (tracker (scene l))).2 /\ o_label o = d_label d /\ detection_bbox o = Some (d_bbox d) /\
    excluded (frame_width f) (frame_height f) (p_zones p) o = false /\
    too_small (frame_width f) (frame_height f) (p_zones p) o = false /\
    same_but_attributes o shown /\ is_object_static shown = false /\
    (exists epoch objects, PutObjects epoch (Types.frame_id f) objects ∈ calls /\ shown ∈ objects) /\
    label ev = o_label o /\ bbox ev = Some (d_bbox d) /\ track_id ev = Some (o_track_id o) /\
    rule ∈ Rules.rules (evaluator sh) /\ rule_id ev = id (config rule) /\
    camera_id ev = p_camera p /\ Alert.frame_id ev = Types.frame_id f /\ Alert.captured_at ev = Types.captured_at f.
Proof.
  intros Hok l calls Hr. destruct (recorded_at_end _ _ _ _ _ _ _ _ _ Hr) as (en & Hen & Hev & Hput).
  destruct (alert_source _ _ _ _ _ _ _ Hen Hev) as (o & b & rule & Ho & Hhid & Hb & Hrule & Hid & Hlab & Hbox & Htr & Hcam & Hfr & Hat).
  destruct Hen as [[c Hdet] _ Hseen _ _ _ _].
  assert (o ∈ (perceive p f a (track_update (en_dets en) (captured_mono f) (tracker (scene l))).2 (en_scene en)).2) as Ho' by (by rewrite Hseen).
  apply perceive_sources in Ho' as (o0 & Hin & Hex & Hts & Hsame). pose proof Hsame as Hs. unfold same_but_attributes in Hs.
  assert (detection_bbox o0 = Some b) as Hb0 by (by rewrite <-Hs).
  destruct (reports_detections _ _ _ _ _ (run_tracker_ok p ops l0 Hok) Hin Hb0) as (d & Hd & Had & Hl & Hbx & _).
  destruct (detections_whitelisted _ _ _ _ _ _ _ _ Hdet Hd) as [Hsk Hw]. rewrite Hsk in Hdet.
  exists (en_dets en), c, d, o0, o, rule. subst b. split_and!; try done.
  - by apply not_hidden_not_static.
  - by eexists _, _.
  - rewrite Hlab. by rewrite <-Hs.
  - rewrite Htr. by rewrite <-Hs.
Qed.
End Detected.

(** ** Only what moves acts *)

(** [o] is among the published objects and not parked. *)
Definition moving (objects : list TrackedObject) (o : TrackedObject) : Prop := o ∈ objects /\ is_object_static o = false.

Lemma dynamic_moving objects o : o ∈ dynamic_tracks objects true -> moving objects o.
Proof. unfold dynamic_tracks. intros [Hin Ho]%list_elem_of_In%filter_In. split; [by apply list_elem_of_In|by apply negb_true_iff]. Qed.

(** A frame that publishes objects is one that reached its end. *)
Lemma published_at_end p f a l sh m : PublishMetadata m ∈ (frame_step p f a l sh).1.2 ->
  exists en before, ended p f a l sh en /\ silent before /\ md_objects m = en_objects en /\
    (frame_step p f a l sh).1.2 = before ++ ending_calls p f a en.
Proof.
  destruct (frame_goes p f a l sh) as [(Hs & _)|(en & before & Hen & Hb & Hc & _)]; intros H.
  - unfold silent in Hs. rewrite Forall_forall in Hs. by specialize (Hs _ H).
  - exists en, before. split_and!; [done|done| |done]. rewrite Hc in H. apply elem_of_app in H as [H|H].
    { unfold silent in Hb. rewrite Forall_forall in Hb. by specialize (Hb _ H). }
    destruct (ending_calls_eq p f a en) as (v & cl & rows & snaps & _ & _ & _ & _ & _ & E). rewrite E in H.
    rewrite !elem_of_app in H. destruct H as [H|[H|[H|H]]].
    + apply elem_of_publish in H as [?|[H|[?|?]]]; try done. by injection H as ->.
    + by apply list_elem_of_singleton in H.
    + apply elem_of_alert_calls in H as [(e0 & He & [?|?])|[(? & ? & ?)|(? & ? & ? & _)]]; done.
    + by apply list_elem_of_fmap in H as (? & ? & _).
Qed.

(** The motion rows a lifecycle puts on a clip are decisions of its activity. *)
Lemma lifecycle_rows at_ a v s h d : InsertMotion h d ∈ (lifecycle at_ a v s).2 -> d ∈ decisions v.
Proof.
  unfold lifecycle. destruct (PostRoll.tick _ _ _) as [pr action]. set (s1 := match action with KeepOpen => _ | CloseNow => _ end).
  destruct (if should_open at_ a v s1 then _ else _) as [s2 opened] eqn:E.
  assert (InsertMotion h d ∉ opened) as Hop.
  { destruct (should_open at_ a v s1); [|injection E as _ <-; apply not_elem_of_nil]. unfold try_open in E. destruct (a_open a); injection E as _ <-; by intros ?%list_elem_of_singleton. }
  assert (InsertMotion h d ∈ insert_decisions v s2 ++ link_events v s2 -> d ∈ decisions v) as Hrow.
  { unfold insert_decisions, link_events. destruct (current_clip s2).
    - intros [(d' & [= _ ->] & Hd)%list_elem_of_fmap|(? & ? & _)%list_elem_of_fmap]%elem_of_app; done.
    - intros H. by apply elem_of_nil in H. }
  destruct (match action with KeepOpen => (s2, []) | CloseNow => close_now at_ s2 end) as [s3 closed] eqn:E3.
  assert (InsertMotion h d ∉ closed) as Hcl.
  { destruct action; [injection E3 as _ <-; apply not_elem_of_nil|]. unfold close_now in E3.
    destruct (current_clip s2); injection E3 as _ <-; [by intros ?%list_elem_of_singleton|apply not_elem_of_nil]. }
  simpl. intros [?|[?|?]%elem_of_app]%elem_of_app; [done|by apply Hrow|done].
Qed.

(** C26. A parked car is silent. With the static filter on, whatever a frame sends on is about an object that it
    publishes and that is not parked: every box for the alert clip (a raw detection's, never a
    coasting track's), every sighting, every alert, and every motion row but a death. *)
Theorem parked_car_is_silent p f a l sh m :
  PublishMetadata m ∈ (frame_step p f a l sh).1.2 -> is_some (static_filter (scene l)) = true ->
  let calls := (frame_step p f a l sh).1.2 in
  (forall bf b, PushBoxes bf ∈ calls -> b ∈ bf_boxes bf -> exists o, moving (md_objects m) o /\ burn_box o = Some b) /\
  (forall ss rows s, Sighted ss rows ∈ calls -> s ∈ ss -> exists o, moving (md_objects m) o /\ si_track s = o_track_id o) /\
  (forall e sinks al ok, RecordEvent e sinks al ok ∈ calls ->
    exists o, moving (md_objects m) o /\ track_id e = Some (o_track_id o) /\ is_Some (detection_bbox o)) /\
  (forall h d, OnClip (InsertMotion h d) ∈ calls -> d_kind d <> Died -> exists o, moving (md_objects m) o /\ d_track d = o_track_id o).
Proof.
  intros Hm Hf calls. subst calls. destruct (published_at_end _ _ _ _ _ _ Hm) as (en & before & Hen & Hb & -> & Hc). rewrite Hc.
  destruct (ending_calls_eq p f a en) as (v & cl & rows & snaps & Hsi & Hdec & Hevs & _ & Hcl & E). cbn zeta in *.
  assert (is_some (static_filter (scene (en_loop en))) = true) as Hact.
  { destruct Hen as [_ H1 H2 _ _ _ _]. pose proof (perceive_scene p f a (track_update (en_dets en) (captured_mono f) (tracker (scene l))).2 (en_scene en)) as [_ Hp].
    rewrite H2 in Hp. simpl in Hp. by rewrite Hp, H1, Hf. }
  rewrite Hact in *. set (dynamic := dynamic_tracks (en_objects en) true) in *.
  assert (forall c, c ∈ before ++ ending_calls p f a en -> outward c = true -> c ∈ ending_calls p f a en) as Hend.
  { intros c [H|H]%elem_of_app Ho; [|done]. unfold silent in Hb. rewrite Forall_forall in Hb. specialize (Hb _ H). congruence. }
  split_and!.
  - intros bf b H Hbx. apply Hend in H; [|done]. rewrite E, !elem_of_app in H. destruct H as [H|[H|[H|H]]].
    + apply elem_of_publish in H as [?|[?|[?|H]]]; try done. injection H as ->. cbn [bf_boxes] in Hbx. rewrite dedupe_suppress in Hbx.
      pose proof (elem_of_submseteq _ _ _ Hbx (sublist_submseteq _ _ (suppress_sublist duplicates (sort_by BurnBoxes.by_confidence (omap burn_box dynamic))))) as Hin.
      rewrite sort_by_permutation in Hin. apply list_elem_of_omap in Hin as (o & Ho & Hbo). exists o. split; [by apply dynamic_moving|done].
    + by apply list_elem_of_singleton in H.
    + apply elem_of_alert_calls in H as [(e0 & He & [?|?])|[(? & ? & ?)|(? & ? & ? & _)]]; done.
    + by apply list_elem_of_fmap in H as (? & ? & _).
  - intros ss rws s H Hs. apply Hend in H; [|done]. rewrite E, !elem_of_app in H. destruct H as [H|[H|[H|H]]].
    + apply elem_of_publish in H as [?|[?|[?|?]]]; done.
    + apply list_elem_of_singleton in H as [= -> ->]. pose proof (tick_pictures (sight_tick f a dynamic) (sightings (en_loop en)) s) as Ht.
      rewrite Hsi in Ht. destruct (Ht Hs) as (o & Ho & Htr & _). exists o. split; [by apply dynamic_moving|done].
    + apply elem_of_alert_calls in H as [(e0 & He & [?|?])|[(? & ? & ?)|(? & ? & ? & _)]]; done.
    + by apply list_elem_of_fmap in H as (? & ? & _).
  - intros e sinks al ok H. apply Hend in H; [|done]. rewrite E, !elem_of_app in H. destruct H as [H|[H|[H|H]]].
    + apply elem_of_publish in H as [?|[?|[?|?]]]; done.
    + by apply list_elem_of_singleton in H.
    + apply elem_of_alert_calls in H as [(e0 & He & [[= -> _ _ _]|?])|[(? & ? & ?)|(? & ? & ? & _)]]; try done.
      destruct (alert_source _ _ _ _ _ _ _ Hen He) as (o & b & rule & Ho & Hh & Hbo & _ & _ & _ & _ & Htr & _).
      exists o. split; [split; [done|by apply not_hidden_not_static]|]. split; [done|by eexists].
    + by apply list_elem_of_fmap in H as (? & ? & _).
  - intros h d H Hk. apply Hend in H; [|done]. rewrite E, !elem_of_app in H. destruct H as [H|[H|[H|H]]].
    + apply elem_of_publish in H as [?|[?|[?|?]]]; done.
    + by apply list_elem_of_singleton in H.
    + apply elem_of_alert_calls in H as [(e0 & He & [?|?])|[(? & ? & ?)|(? & ? & ? & _)]]; done.
    + apply list_elem_of_fmap in H as (c & [= <-] & H). rewrite <-Hcl in H. apply lifecycle_rows in H. rewrite Hdec in H.
      destruct (tick_sources _ _ _ _ _ _ H Hk) as (o & Ho & Htr). exists o. split; [by apply dynamic_moving|done].
Qed.

(** ** Records come before links *)

(** [i] is linked by [c]. *)
Definition links (c : Call) : option string :=
  match c with LinkAlertClip i _ | OnClip (LinkEvent i _) => Some i | _ => None end.

Definition recorded_id (c : Call) : option string :=
  match c with RecordEvent e _ _ true => Some (event_id e) | _ => None end.

(** Every link of the trace names an event recorded before it. *)
Definition links_follow_records (calls : list Call) : Prop :=
  forall l1 c l2 i, calls = l1 ++ c :: l2 -> links c = Some i -> exists r, r ∈ l1 /\ recorded_id r = Some i.

Lemma silent_no_link c : outward c = false -> links c = None.
Proof. by destruct c as [| | | | | | | | | | | | | |[]|]. Qed.

Lemma links_follow_app a b :
  links_follow_records a -> (forall c i, c ∈ b -> links c = Some i -> exists r, r ∈ a /\ recorded_id r = Some i) -> links_follow_records (a ++ b).
Proof.
  intros Ha Hb l1 c l2 i E Hl. symmetry in E. apply app_eq_inv in E as [(k & -> & ->)|(k & -> & E)].
  - destruct (Hb c i) as (r & Hr & Hi); [apply elem_of_app; right; by left|done|]. exists r. split; [|done]. apply elem_of_app. by left.
  - destruct k as [|c' k]; simpl in E.
    + rewrite app_nil_r in Hb. apply (Hb c i); [|done]. rewrite <-E. by left.
    + injection E as <- ->. eapply Ha; [|exact Hl]. done.
Qed.

Lemma links_none l : (forall c, c ∈ l -> links c = None) -> links_follow_records l.
Proof. intros H l1 c l2 i -> Hl. rewrite H in Hl; [done|]. apply elem_of_app. right. by left. Qed.

Lemma lifecycle_links at_ a v s i k : LinkEvent i k ∈ (lifecycle at_ a v s).2 -> i ∈ ClipLoop.events v.
Proof.
  unfold lifecycle. destruct (PostRoll.tick _ _ _) as [pr action]. set (s1 := match action with KeepOpen => _ | CloseNow => _ end).
  destruct (if should_open at_ a v s1 then _ else _) as [s2 opened] eqn:E.
  destruct (match action with KeepOpen => (s2, []) | CloseNow => close_now at_ s2 end) as [s3 closed] eqn:E3. simpl.
  intros [H|[H|H]%elem_of_app]%elem_of_app.
  - destruct (should_open at_ a v s1); [|injection E as _ <-; by apply elem_of_nil in H]. unfold try_open in E.
    destruct (a_open a); injection E as _ <-; by apply list_elem_of_singleton in H.
  - unfold insert_decisions, link_events in H. destruct (current_clip s2); [|by apply elem_of_nil in H].
    apply elem_of_app in H as [(? & ? & _)%list_elem_of_fmap|(e & [= -> _] & He)%list_elem_of_fmap]; done.
  - destruct action; [injection E3 as _ <-; by apply elem_of_nil in H|]. unfold close_now in E3.
    destruct (current_clip s2); injection E3 as _ <-; [by apply list_elem_of_singleton in H|by apply elem_of_nil in H].
Qed.

(** An event that is to be linked was recorded. *)
Lemma to_link_recorded p f a events i : i ∈ events_to_link a events -> exists r, r ∈ alert_calls p f a events /\ recorded_id r = Some i.
Proof.
  intros (e & -> & [He Hrec]%list_elem_of_In%filter_In)%list_elem_of_fmap. apply list_elem_of_In in He.
  exists (RecordEvent e (a_sinks_for a (rule_id e)) (alerted f a e) true). split; [|done].
  unfold alert_calls. apply elem_of_app. left. apply list_elem_of_bind. exists e. split; [|done]. unfold record_alert. rewrite Hrec. by left.
Qed.

(** An alert is on record before anything points at it: in the calls of any frame, a link of an event to an
    alert clip or to a motion clip comes after the store has taken that very event, so no link ever
    names an event that is not in the store. *)
Lemma links_name_recorded_events p f a l sh : links_follow_records (frame_step p f a l sh).1.2.
Proof.
  destruct (frame_goes p f a l sh) as [(Hs & _)|(en & before & Hen & Hb & Hc & _)].
  { apply links_none. intros c Hcin. apply silent_no_link. unfold silent in Hs. rewrite Forall_forall in Hs. by apply Hs. }
  rewrite Hc. destruct (ending_calls_eq p f a en) as (v & cl & rows & snaps & _ & _ & Hevs & _ & Hcl & ->).
  set (pub := publish _ _ _ _ _ _). set (events := alerts_of p f a en) in *.
  assert (forall c, c ∈ pub ++ [Sighted snaps rows] -> links c = None) as Hpub.
  { intros c [H|H]%elem_of_app; [|by apply list_elem_of_singleton in H as ->]. by apply elem_of_publish in H as [->|[->|[->| ->]]]. }
  assert (links_follow_records (alert_calls p f a events)) as Hal.
  { unfold alert_calls. apply links_follow_app.
    - apply links_none. intros c (e & Hin & _)%list_elem_of_bind. unfold record_alert in Hin.
      apply elem_of_cons in Hin as [->|Hin]; [done|]. by apply list_elem_of_singleton in Hin as ->.
    - intros c i Hin Hl. assert (i ∈ events_to_link a events) as Hi.
      { unfold arm_alert_clip in Hin. destruct (_ && _); [|by apply elem_of_nil in Hin]. apply elem_of_cons in Hin as [->|Hin]; [done|].
        destruct (a_arm a); [|by apply elem_of_nil in Hin]. apply list_elem_of_fmap in Hin as (j & -> & Hj). by injection Hl as ->. }
      apply list_elem_of_fmap in Hi as (e & -> & [He Hrec]%list_elem_of_In%filter_In). apply list_elem_of_In in He.
      exists (RecordEvent e (a_sinks_for a (rule_id e)) (alerted f a e) true). split; [|done].
      apply list_elem_of_bind. exists e. split; [|done]. unfold record_alert. rewrite Hrec. by left. }
  replace (before ++ pub ++ [Sighted snaps rows] ++ alert_calls p f a events ++ on_clips cl.2)
    with ((before ++ (pub ++ [Sighted snaps rows])) ++ (alert_calls p f a events ++ on_clips cl.2)) by (rewrite <-!(assoc_L (++)); done).
  intros l1 c l2 i E Hl. symmetry in E.
  assert (forall x, x ∈ before ++ (pub ++ [Sighted snaps rows]) -> links x = None) as Hfront.
  { intros x [H|H]%elem_of_app; [|by apply Hpub]. apply silent_no_link. unfold silent in Hb. rewrite Forall_forall in Hb. by apply Hb. }
  assert (links_follow_records (alert_calls p f a events ++ on_clips cl.2)) as Hback.
  { apply links_follow_app; [done|]. intros x j (cc & -> & Hcc)%list_elem_of_fmap Hj. apply (to_link_recorded p f).
    rewrite <-Hcl in Hcc. destruct cc as [| | |ev k]; try done. injection Hj as ->. apply lifecycle_links in Hcc. by rewrite Hevs in Hcc. }
  apply app_eq_inv in E as [(k & -> & E)|(k & E1 & E)].
  - destruct (Hback k c l2 i E Hl) as (r & Hr & Hi). exists r. split; [|done]. apply elem_of_app. by right.
  - destruct k as [|c' k]; simpl in E.
    + destruct (Hback [] c l2 i (eq_sym E) Hl) as (r & Hr & _). by apply elem_of_nil in Hr.
    + injection E as <- ->. rewrite Hfront in Hl; [done|]. rewrite E1. apply elem_of_app. right. by left.
Qed.

(** ** Every alert has its clip *)

Lemma lifecycle_links_all at_ a v s i h :
  a_open a = Opened h -> open_retry_at s = None -> open_panic_refused s = false -> on_alert v = true ->
  i ∈ ClipLoop.events v -> exists k, LinkEvent i k ∈ (lifecycle at_ a v s).2.
Proof.
  intros Ho Hr Hp Hon Hi. assert (alert_kept_alive v = true) as Hk.
  { unfold alert_kept_alive. rewrite Hon. simpl. rewrite bool_decide_false; [done|]. intros E. rewrite E in Hi. by apply elem_of_nil in Hi. }
  unfold lifecycle. rewrite Hk, orb_true_r, active_keeps. set (s1 := set_post_roll _ s).
  assert (exists h', current_clip (if should_open at_ a v s1 then try_open at_ a v s1 else (s1, [])).1 = Some h') as [h' Hc].
  { destruct (should_open at_ a v s1) eqn:E.
    - unfold try_open. rewrite Ho. by exists h.
    - simpl. destruct (current_clip s) as [h'|] eqn:Ec; [by exists h'|]. exfalso. unfold should_open in E. subst s1. simpl in E.
      rewrite Ec, Hr, Hp, Hk in E. by destruct (pending_open s). }
  destruct (if should_open at_ a v s1 then _ else _) as [s2 opened]. simpl in Hc |- *. exists (clip_id h').
  rewrite !elem_of_app. right. left. right. unfold link_events. rewrite Hc. apply list_elem_of_fmap. by exists i.
Qed.

(** The clip calls of a frame are read from the clip that was open before it to the one open after it. *)
Lemma frame_reads p f a l sh :
  read_trace (current_clip (clips l)) (clip_calls (frame_step p f a l sh).1.2) = Some (current_clip (clips (frame_step p f a l sh).1.1.1)).
Proof.
  destruct (loop_step_view p (Arrive f a sh) l) as (o & [H1 H2 _ _] & _). simpl in H1, H2.
  pose proof (run_reads (p_max_clip_bytes p) (option_list o) (clips l)) as H. unfold reads in H. cbn [fst snd] in H. rewrite H1, H2 in H.
  by destruct (frame_step p f a l sh) as [[[l' sh'] calls] flow].
Qed.

(** C27. Every alert has its clip. With recording on alerts switched on, on a frame on which the recorder opens a clip
    when asked, and with no refusal or failure waiting for a retry, every alert the store took is
    linked, motion or no motion, to the motion clip that is open when the link is made: the clip that was
    open when the frame came, or, where the frame rotated that one out or there was none, the one the
    frame opened; never to a clip that is closed or not open yet. *)
Theorem every_alert_has_its_clip p f a l sh e sinks al h :
  p_clip_on_alert p = true -> a_open (a_recorder a) = Opened h ->
  open_retry_at (clips l) = None -> open_panic_refused (clips l) = false ->
  RecordEvent e sinks al true ∈ (frame_step p f a l sh).1.2 ->
  exists k before after, (frame_step p f a l sh).1.2 = before ++ OnClip (LinkEvent (event_id e) (clip_id k)) :: after /\
    read_trace (current_clip (clips l)) (clip_calls before) = Some (Some k).
Proof.
  intros Hp Ho Hr Hpan H0. assert (exists k, OnClip (LinkEvent (event_id e) k) ∈ (frame_step p f a l sh).1.2) as [k Hk].
  2: { apply list_elem_of_split in Hk as (before & after & E). pose proof (frame_reads p f a l sh) as Hread.
       rewrite E, clip_calls_app, read_app in Hread. destruct (read_trace _ (clip_calls before)) as [cur|] eqn:Ec; [|done].
       simpl in Hread. case_bool_decide as Hcur; [|done]. destruct cur as [h'|]; [|done]. injection Hcur as <-. by exists h', before, after. }
  revert H0. destruct (frame_goes p f a l sh) as [(Hs & _)|(en & before & Hen & Hb & -> & _)]; intros H.
  { unfold silent in Hs. rewrite Forall_forall in Hs. by specialize (Hs _ H). }
  apply elem_of_app in H as [H|H]. { unfold silent in Hb. rewrite Forall_forall in Hb. by specialize (Hb _ H). }
  destruct (ending_calls_eq p f a en) as (v & cl & rows & snaps & _ & _ & Hevs & Hon & Hcl & E). rewrite E in *.
  rewrite !elem_of_app in H. destruct H as [H|[H|[H|H]]].
  - apply elem_of_publish in H as [?|[?|[?|?]]]; done.
  - by apply list_elem_of_singleton in H.
  - apply elem_of_alert_calls in H as [(e0 & He & [[= -> _ _ Hrec]|?])|[(? & ? & ?)|(? & ? & ? & _)]]; try done.
    assert (event_id e0 ∈ ClipLoop.events v) as Hi.
    { rewrite Hevs. unfold events_to_link. apply list_elem_of_fmap. exists e0. split; [done|]. by apply list_elem_of_In, filter_In; split; [apply list_elem_of_In|]. }
    destruct (lifecycle_links_all (stamp_of_frame f) (a_recorder a) v (clips (en_loop en)) (event_id e0) h Ho) as [k Hk]; [| |by rewrite Hon|done|].
    + rewrite (en_clips _ _ _ _ _ _ Hen). by rewrite rotate_retry.
    + rewrite (en_clips _ _ _ _ _ _ Hen). unfold rotate. destruct (current_clip (clips l)), (clip_opened_at (clips l)); try done.
      destruct (size_check _ _ _). by destruct (_ || _ || _).
    + exists k. rewrite Hcl in Hk. rewrite !elem_of_app. do 4 right. apply list_elem_of_fmap. by exists (LinkEvent (event_id e0) k).
  - by apply list_elem_of_fmap in H as (? & ? & _).
Qed.

End Supervisor.

(** ** ByteTrack is a lawful tracker *)
#[export] Instance bytetrack_laws hypot cfg :
  fle (low_confidence cfg) (high_confidence cfg) = true -> 0 <= max_lost_frames cfg -> 0 <= tentative_max_missed_frames cfg ->
  TrackerLaws ByteTrackState (TrackerOps0 := bytetrack_ops hypot cfg).
Proof.
  intros Hc H1 H2. refine {| admits := confident cfg; tracker_ok st := Forall (track_ok cfg) (ByteTrack.tracks st) |}.
  - intros dets now st. by apply update_track_ok.
  - intros dets now st o b Hst Ho Hb. destruct (report_spec hypot cfg dets now st Hc H1 H2 Hst) as [[rest Hseen] _].
    assert ((o_label o, b, confidence o) ∈ List.filter (seen_confident cfg) (d_seen <$> dets)) as Hd.
    { rewrite <-Hseen. apply elem_of_app. left. by apply seen_objects_in. }
    apply list_elem_of_In, filter_In in Hd as [Hd%list_elem_of_In Hcf]. apply list_elem_of_fmap in Hd as (d & E & Hd).
    injection E as E1 E2 E3. exists d. unfold seen_confident in Hcf. simpl in Hcf. rewrite E3 in Hcf. by split_and!.
Defined.

(** ** A person at the door

    Two frames a second apart; the camera is in parking-lot mode and alerts keep clips. *)
Definition demo_behavior : CameraBehavior :=
  mkBehavior true None None None None None None None None None None None None None None None None.

Definition demo_detector : Detector unit :=
  default_crop (fun _ _ => mret [mkDetection "person" (f32_of_Z 1) (mkBBox (f32_of_Z 10) (f32_of_Z 10) (f32_of_Z 30) (f32_of_Z 40)) ∅]) "yolo".

Definition demo_pipeline : Pipeline (W := unit) :=
  mkPipeline 1 demo_behavior ["person"] [whole_frame] demo_detector None None 0 true true (64, 48) "/snapshots".

Definition demo_answers : Answers :=
  mkFrameAnswers 0 true (Written, Written) (ClipLoop.fine 7) None false 0 (fun _ => "uuid") (fun _ => true) (fun _ _ => true)
    (fun _ => ["mail"]) (fun _ => true) (Some 3) (fun _ => "local") (fun _ => 0).

Definition demo_camera_frame (n : Z) : Frame := Types.mkFrame 1 n (secs n) (secs n) 64 48 Rgb24 [] "t".

Definition demo_shared : Shared (W := unit) (Prog := unit) := mkShared tt demo_evaluator.

Definition demo_engine : EngineConfig := mkEngineConfig annotator_default StaticObject.config_default (f32_of_Z 1) 10 5 (secs 5) 15 (secs 15).

Definition demo_bytes : TrackerOps ByteTrackState := bytetrack_ops ByteTrack.demo_hypot ByteTrack.config_default.

Definition demo_lawful : TrackerLaws ByteTrackState (TrackerOps0 := demo_bytes) :=
  bytetrack_laws ByteTrack.demo_hypot ByteTrack.config_default eq_refl ltac:(discriminate) ltac:(discriminate).

Definition demo_fresh : Loop (T := ByteTrackState) :=
  loop_new StaticObject.demo_parse demo_pipeline demo_engine ByteTrack.new true None 0 [] 1.

Definition demo_atan2 (y x : f64) : f64 := fzero.

Definition demo_step (n : Z) (l : Loop (T := ByteTrackState)) :=
  frame_step (TrackerOps0 := demo_bytes) demo_atan2 ByteTrack.demo_hypot StaticObject.demo_print demo_execute demo_debug demo_pipeline
    (demo_camera_frame n) demo_answers l demo_shared.

Definition demo_machine : Machine (LoopOp (W := unit) (Prog := unit)) (Loop (T := ByteTrackState)) (list Call) :=
  loop_machine (TrackerOps0 := demo_bytes) demo_atan2 ByteTrack.demo_hypot StaticObject.demo_print demo_execute demo_debug demo_pipeline.

Definition demo_ops : list (LoopOp (W := unit) (Prog := unit)) := [Arrive (demo_camera_frame 1) demo_answers demo_shared].
Definition demo_loop : Loop (T := ByteTrackState) := (mrun (H:=demo_machine) demo_ops demo_fresh).1.

Definition demo_calls : list Call := (demo_step 2 demo_loop).1.2.

Strategy 1000 [frame_step mrun loop_step].
Strategy expand [demo_loop demo_calls demo_step demo_machine].

Lemma demo_fresh_loop : fresh_loop demo_pipeline 10 demo_fresh.
Proof. apply loop_new_fresh. Defined.

Lemma demo_recorded : exists e, demo_calls !! 6%nat = Some (RecordEvent e ["mail"] true true) /\ event_id e = "uuid" /\ label e = "person".
Proof. eexists. split; [vm_compute; reflexivity|split; reflexivity]. Defined.

Lemma frame_loop_refines_clip_loop_witness :
  exists fs, announced false fs /\ clips demo_loop = (mrun (H:=clip_machine 0) fs (clips_new 10)).1 /\
    live_after false fs = true /\ is_Some (current_clip (clips demo_loop)).
Proof.
  destruct (frame_loop_refines_clip_loop (TrackerOps0 := demo_bytes) demo_atan2 ByteTrack.demo_hypot StaticObject.demo_print demo_execute demo_debug
    demo_pipeline demo_ops demo_fresh 10 demo_fresh_loop) as (fs & H1 & H2 & _ & H4).
  exists fs. split; [exact H1|]. split; [exact H2|]. split; [rewrite H4; vm_compute; reflexivity|]. eexists. vm_compute. reflexivity.
Defined.

Lemma pipeline_clips_are_bracketed_witness :
  read_trace None (clip_calls (loop_trace (TrackerOps0 := demo_bytes) demo_atan2 ByteTrack.demo_hypot StaticObject.demo_print demo_execute demo_debug
    demo_pipeline demo_ops demo_fresh ++ (stop demo_pipeline (secs 3) demo_loop).2)) = Some None.
Proof.
  exact (pipeline_clips_are_bracketed (TrackerOps0 := demo_bytes) demo_atan2 ByteTrack.demo_hypot StaticObject.demo_print demo_execute demo_debug
    demo_pipeline demo_ops demo_fresh 10 (secs 3) demo_fresh_loop).
Defined.

Lemma live_motion_is_recorded_witness : motion_live demo_pipeline (emitter demo_loop) = true /\ demanded (clips demo_loop).
Proof.
  split; [vm_compute; reflexivity|].
  apply (live_motion_is_recorded (TrackerOps0 := demo_bytes) demo_atan2 ByteTrack.demo_hypot StaticObject.demo_print demo_execute demo_debug
    demo_pipeline demo_ops demo_fresh 10 demo_fresh_loop).
  vm_compute. reflexivity.
Defined.

Lemma clip_has_one_frame_size_witness :
  clip_size None (clip_calls (loop_trace (TrackerOps0 := demo_bytes) demo_atan2 ByteTrack.demo_hypot StaticObject.demo_print demo_execute demo_debug
    demo_pipeline demo_ops demo_fresh)) = Some (current_dims (tuning demo_loop)) /\ current_dims (tuning demo_loop) = (64, 48).
Proof.
  split; [|vm_compute; reflexivity].
  apply (clip_has_one_frame_size (TrackerOps0 := demo_bytes) demo_atan2 ByteTrack.demo_hypot StaticObject.demo_print demo_execute demo_debug
    demo_pipeline demo_ops demo_fresh 10 demo_fresh_loop).
  eexists. vm_compute. reflexivity.
Defined.

Lemma recorded_alert_shows_a_detection_witness :
  exists e d, RecordEvent e ["mail"] true true ∈ demo_calls /\ label e = d_label d /\ bbox e = Some (d_bbox d) /\
    confident ByteTrack.config_default d = true.
Proof.
  destruct demo_recorded as (e & He & _ & _). pose proof (list_elem_of_lookup_2 _ _ _ He) as Hin.
  destruct (recorded_alert_shows_a_detection (TrackerOps0 := demo_bytes) demo_atan2 ByteTrack.demo_hypot StaticObject.demo_print demo_execute demo_debug
    (TrackerLaws0 := demo_lawful) demo_pipeline demo_ops demo_fresh (demo_camera_frame 2) demo_answers demo_shared e ["mail"] true true
    ltac:(by apply Forall_nil) Hin) as (dets & c & d & o & shown & rule & _ & _ & Had & _ & _ & Hl & _ & _ & _ & _ & _ & _ & H5 & H6 & _).
  exists e, d. split; [exact Hin|]. split; [exact (eq_trans H5 Hl)|]. split; [exact H6|exact Had].
Defined.

Lemma parked_car_is_silent_witness :
  exists m e o, demo_calls !! 3%nat = Some (PublishMetadata m) /\ RecordEvent e ["mail"] true true ∈ demo_calls /\
    moving (md_objects m) o /\ track_id e = Some (o_track_id o).
Proof.
  assert (exists m, demo_calls !! 3%nat = Some (PublishMetadata m)) as (m & Hm) by (eexists; vm_compute; reflexivity).
  destruct demo_recorded as (e & He & _ & _). pose proof (list_elem_of_lookup_2 _ _ _ He) as Hin.
  destruct (parked_car_is_silent (TrackerOps0 := demo_bytes) demo_atan2 ByteTrack.demo_hypot StaticObject.demo_print demo_execute demo_debug
    demo_pipeline (demo_camera_frame 2) demo_answers demo_loop demo_shared m (list_elem_of_lookup_2 _ _ _ Hm)
    ltac:(vm_compute; reflexivity)) as (_ & _ & H3 & _).
  destruct (H3 e ["mail"] true true Hin) as (o & Ho & Ht & _). exists m, e, o. split; [exact Hm|]. split; [exact Hin|]. split; [exact Ho|exact Ht].
Defined.

Lemma every_alert_has_its_clip_witness : exists k before after, demo_calls = before ++ OnClip (LinkEvent "uuid" (clip_id k)) :: after /\
  read_trace (current_clip (clips demo_loop)) (clip_calls before) = Some (Some k).
Proof.
  destruct demo_recorded as (e & He & Hid & _). rewrite <-Hid.
  apply (every_alert_has_its_clip (TrackerOps0 := demo_bytes) demo_atan2 ByteTrack.demo_hypot StaticObject.demo_print demo_execute demo_debug
    demo_pipeline (demo_camera_frame 2) demo_answers demo_loop demo_shared e ["mail"] true (mkHandle 7 1));
    [reflexivity|reflexivity|vm_compute; reflexivity|vm_compute; reflexivity|exact (list_elem_of_lookup_2 _ _ _ He)].
Defined.
