(* ===== verification/LiveTap.v ===== *)
(** The tap of a camera's ingester ([nexus-pipeline/src/preroll_ingester.rs]): what happens to a sample
    between the parser and the two places recordings are cut from, the pre-roll ring ([Preroll]) and
    the live broadcast.

    Time stamps are nanoseconds. A broadcast channel is known by its documentation: a receiver gets
    what is sent after it subscribed, in order, unless it falls behind; then the oldest samples are
    gone, and the next read says how many. The pipeline that feeds the tap is left out. *)
From S2P Require Import Prelude Preroll ParamSets.

(** One buffer of the parser. *)
Record Buffer := mkBuffer { raw_pts : option Z; raw_dts : option Z; delta_unit : bool; raw_data : list Z }.

(** What the callback keeps for the length of a session. *)
Record Session := mkSession { last_pts : option Z; param_sets : ParamSetCache; first_sample : bool }.

Definition session_new (hevc : bool) : Session := mkSession None (ParamSets.new hevc) true.

(** The time stamp of the buffer, or its decoding stamp, or 33 ms after the last one. *)
Definition resolve_pts (b : Buffer) (last : option Z) : option Z :=
  match raw_pts b with
  | Some p => Some p
  | None => match raw_dts b with Some d => Some d | None => (fun prev => prev + millis 33) <$> last end
  end.

(** The ring, the cache and the sample as the ring stamped it; why an epoch began; the ring's bytes
    when it first dropped GOPs for their size. *)
Definition push_tap_sample (ring : NalRingBuffer) (sample : NalSample) (new_session : bool) (c : ParamSetCache) :
    NalRingBuffer * ParamSetCache * NalSample * option string * option Z :=
  let reason := if new_session then Some "new session"%string
                else if sps_changed c then Some "parameter-set change"%string else None in
  let ring := match reason with Some _ => Preroll.begin_epoch ring | None => ring end in
  let before := epoch ring in
  let '(ring, pushed) := push ring sample in
  let reason := match reason with
                | Some r => Some r
                | None => if sample_epoch pushed =? before then None else Some "pts stepped back"%string
                end in
  let c := match reason with Some _ => ParamSets.begin_epoch c | None => c end in
  let '(ring, trip) := take_byte_cap_trip ring in
  (ring, c, pushed, reason, if trip then Some (bytes ring) else None).

(** The callback up to the broadcast. *)
Definition on_sample (b : Buffer) (s : Session) (ring : NalRingBuffer) : Session * NalRingBuffer * NalSample :=
  let p := resolve_pts b (last_pts s) in
  let d := match raw_dts b with Some d => Some d | None => p end in
  let '(c, out) := process (param_sets s) (raw_data b) in
  let nal := mkSample p d (negb (delta_unit b)) (default (raw_data b) out) 0 in
  let '(ring, c, pushed, _, _) := push_tap_sample ring nal (first_sample s) c in
  (mkSession (match p with Some v => Some v | None => last_pts s end) c false, ring, pushed).

(** A receiver of the broadcast: what waits for it, and how much it missed. *)
Record Rx := mkRx { rx_queue : list NalSample; rx_missed : Z }.

Definition rx_new : Rx := mkRx [] 0.

Definition rx_send (s : NalSample) (r : Rx) : Rx := mkRx (rx_queue r ++ [s]) (rx_missed r).

(** The channel wrapped: the [n] oldest samples are gone. *)
Definition rx_overrun (n : nat) (r : Rx) : Rx :=
  mkRx (drop n (rx_queue r)) (rx_missed r + zlength (take n (rx_queue r))).

Inductive Received := Got (s : NalSample) | Lagged (n : Z) | Closed.

(** What a read answers at once, if anything. *)
Definition rx_recv (r : Rx) : option Received * Rx :=
  if 0 <? rx_missed r then (Some (Lagged (rx_missed r)), mkRx (rx_queue r) 0)
  else match rx_queue r with
       | s :: rest => (Some (Got s), mkRx rest 0)
       | [] => (None, r)
       end.

(** A camera's tap. The ring is pushed first and the sample is sent after, so a sample can be in
    the one and not yet on the other. *)
Record Tap := mkTap { tap_session : Session; tap_ring : NalRingBuffer; tap_unsent : option NalSample }.

Definition tap_new (pre_roll : Z) (hevc : bool) : Tap := mkTap (session_new hevc) (Preroll.new pre_roll) None.

Inductive TapOp := Connect (hevc : bool) | Arrive (b : Buffer) | Send.

(** Samples arrive one at a time: the next callback begins when the last one has sent. *)
Definition tap_step (o : TapOp) (t : Tap) : Tap * option NalSample :=
  match o with
  | Connect h => (mkTap (session_new h) (tap_ring t) (tap_unsent t), None)
  | Arrive b =>
      match tap_unsent t with
      | Some _ => (t, None)
      | None =>
          let '(s, ring, pushed) := on_sample b (tap_session t) (tap_ring t) in
          (mkTap s ring (Some pushed), None)
      end
  | Send => (mkTap (tap_session t) (tap_ring t) None, tap_unsent t)
  end.

#[export] Instance tap_machine : Machine TapOp Tap (option NalSample) := tap_step.

(** ** Epochs *)

Lemma push_stamped r s :
  (push r s).2 = stamp (epoch (push r s).1) s /\
  (epoch (push r s).1 = epoch r /\ push_base r s = r \/
   epoch (push r s).1 = epoch r + 1 /\ push_base r s = Preroll.begin_epoch r).
Proof.
  destruct (push_held r s) as (dropped & _ & _ & He). rewrite He.
  unfold push, push_base. destruct (is_discontinuity r s); simpl; auto.
Qed.

Lemma begun_base r s : push_base (Preroll.begin_epoch r) s = Preroll.begin_epoch r.
Proof. unfold push_base, is_discontinuity. simpl. by destruct (pts s). Qed.

(** A sample is stamped with the epoch its ring is in after the push. Either nothing began an epoch,
    and no set changed, or the ring is one epoch further, has nothing older, and the cache has
    started over. *)
Lemma push_tap_facts r s ns c :
  let '(r', c', pushed, reason, _) := push_tap_sample r s ns c in
  pushed = stamp (epoch r') s /\ (ring_wf r -> ring_wf r') /\
  match reason with
  | None => epoch r' = epoch r /\ c' = c /\ ns = false /\ sps_changed c = false /\ snapshot r' `suffix_of` snapshot r ++ [pushed]
  | Some _ => epoch r' = epoch r + 1 /\ c' = ParamSets.begin_epoch c /\ snapshot r' `suffix_of` [pushed]
  end.
Proof.
  unfold push_tap_sample.
  assert (forall r0 r1 pushed, push r0 s = (r1, pushed) -> pushed = stamp (epoch r1) s /\
    snapshot r1 `suffix_of` snapshot (push_base r0 s) ++ [pushed] /\ (ring_wf r0 -> ring_wf r1) /\
    (epoch r1 = epoch r0 /\ push_base r0 s = r0 \/ epoch r1 = epoch r0 + 1 /\ push_base r0 s = Preroll.begin_epoch r0)) as Hp.
  { intros r0 r1 pushed E. destruct (push_stamped r0 s) as [Hs Hor]. pose proof (push_suffix r0 s) as Hx. pose proof (push_wf r0 s) as Hw.
    destruct (push_held r0 s) as (_ & _ & _ & He). rewrite <- He in Hx. rewrite E in *. cbn [fst snd] in *. by rewrite Hs. }
  assert (ring_wf r -> ring_wf (Preroll.begin_epoch r)) as Hwf by (intros H; by apply (apply_op_wf BeginEpoch)).
  assert (forall r1, ring_wf r1 -> ring_wf (take_byte_cap_trip r1).1) as Htrip by (intros r1 H; by apply (apply_op_wf TakeByteCapTrip)).
  destruct ns; [|destruct (sps_changed c) eqn:Ec].
  1, 2: destruct (push (Preroll.begin_epoch r) s) as [r1 pushed] eqn:E; destruct (Hp _ _ _ E) as (-> & Hs & Hw & He); rewrite begun_base in *;
    assert (epoch r1 = epoch r + 1) as E1 by (destruct He as [[E1 _]|[E1 Hb]]; [done|apply (f_equal epoch) in Hb; simpl in Hb; lia]);
    simpl; split_and!; [done|intros H; by apply (Htrip r1), Hw, Hwf|done..].
  destruct (push r s) as [r1 pushed] eqn:E. destruct (Hp _ _ _ E) as (-> & Hs & Hw & He). simpl.
  assert (ring_wf r -> ring_wf (take_byte_cap_trip r1).1) as Hwf' by (intros H; by apply Htrip, Hw).
  destruct (Z.eqb_spec (epoch r1) (epoch r)) as [Ee|Ee]; simpl; destruct He as [[E1 Hb]|[E1 Hb]]; try lia; rewrite Hb in *;
    by split_and!.
Qed.

(** ** One parameter set per epoch *)

(** A sample that went through the tap: as it was stamped, the codec of its session, the units the
    camera sent, and the units it was passed on with. *)
Record Arrival := mkArrival { ar_sample : NalSample; ar_hevc : bool; ar_sent : list (list Z); ar_given : list (list Z) }.

Definition arrival (o : TapOp) (t : Tap) : list Arrival :=
  match o, tap_unsent t with
  | Arrive b, None =>
      let c := param_sets (tap_session t) in
      [mkArrival (on_sample b (tap_session t) (tap_ring t)).2 (hevc c) (au_nals (raw_data b)) (given c (raw_data b))]
  | _, _ => []
  end.

Fixpoint arrivals (ops : list TapOp) (t : Tap) : list Arrival :=
  match ops with
  | [] => []
  | o :: ops' => arrival o t ++ arrivals ops' (mstep o t).1
  end.

(** The access unit, as the camera sent it, gives each id one content. *)
Definition sound (a : Arrival) : Prop := consistent (ar_hevc a) (ar_sent a).

(** Two arrivals of one epoch are of one session, and their sets do not contradict each other. *)
Definition agree (a b : Arrival) : Prop :=
  ar_hevc a = ar_hevc b /\ consistent (ar_hevc a) (ar_given a ++ ar_given b).

(** The samples of an epoch, as they were stamped. *)
Definition of_epoch (e : Z) (log : list Arrival) : list NalSample :=
  List.filter (fun s => sample_epoch s =? e) (ar_sample <$> log).

(** What holds after the arrivals of [log]. *)
Record tap_ok (t : Tap) (log : list Arrival) : Prop := {
  tap_slots : slots_ok (param_sets (tap_session t));
  tap_past : Forall (fun a => sample_epoch (ar_sample a) <= epoch (tap_ring t)) log;
  tap_held : Forall (fun a => first_sample (tap_session t) = false -> sample_epoch (ar_sample a) = epoch (tap_ring t) ->
    ar_hevc a = hevc (param_sets (tap_session t)) /\
    Forall (held (ar_hevc a) (epoch_map (param_sets (tap_session t)))) (ar_given a)) log;
  tap_wf : ring_wf (tap_ring t);
  tap_tail : snapshot (tap_ring t) `suffix_of` of_epoch (epoch (tap_ring t)) log;
  tap_agree : forall a b, a ∈ log -> b ∈ log -> sample_epoch (ar_sample a) = sample_epoch (ar_sample b) -> agree a b;
}.

Lemma held_consistent h m nals : Forall (held h m) nals -> consistent h nals.
Proof.
  rewrite Forall_forall. intros Hh n1 n2 H1 H2 Hk Ek Eid. pose proof (Hh n1 H1 _ eq_refl Hk) as E1.
  rewrite Ek in Hk. pose proof (Hh n2 H2 _ eq_refl Hk) as E2. rewrite Eid, <- Ek in E1. rewrite <- Ek in E2. congruence.
Qed.

Lemma slots_new h : slots_ok (ParamSets.new h).
Proof. by intros m [] set _. Qed.

Lemma tap_new_ok pre h : tap_ok (tap_new pre h) [].
Proof. split; [apply slots_new|constructor..|apply ring_new_wf|done|]. intros a b Ha. by apply elem_of_nil in Ha. Qed.

Lemma arrive_ok b t log : tap_unsent t = None -> tap_ok t log -> Forall sound (arrival (Arrive b) t) ->
  tap_ok (tap_step (Arrive b) t).1 (log ++ arrival (Arrive b) t).
Proof.
  intros Hu [Hslots Hpast Hheld Hwf Htail Hagree] Hcons. unfold tap_step, arrival in *. rewrite Hu in *. unfold on_sample in *. apply Forall_inv in Hcons. unfold sound in Hcons. cbn [ar_hevc ar_sent] in Hcons.
  set (c := param_sets (tap_session t)) in *. set (r := tap_ring t) in *.
  pose proof (process_given c (raw_data b) Hcons Hslots) as (Eh & Hok & Hgiven & Hext). fold (given c (raw_data b)) in Hgiven.
  destruct (process c (raw_data b)) as [c1 out] eqn:Ep. cbn [fst] in *.
  set (nal := mkSample _ _ _ _ _). pose proof (push_tap_facts r nal (first_sample (tap_session t)) c1) as Hp.
  destruct (push_tap_sample r nal _ c1) as [[[[r' c'] pushed] reason] trip]. destruct Hp as (Hst & Hwf' & Hreason).
  assert (sample_epoch pushed = epoch r') as He by (by rewrite Hst).
  set (new := mkArrival pushed (hevc c) (au_nals (raw_data b)) (given c (raw_data b))).
  assert (hevc c' = hevc c /\ slots_ok c' /\ Forall (held (hevc c) (epoch_map c')) (given c (raw_data b)) /\ epoch r <= epoch r') as (Ec & Hok' & Hnew & Hle).
  { destruct reason; destruct Hreason as (E1 & -> & _).
    - split_and!; [done|by apply begin_epoch_ok| |lia]. eapply Forall_impl; [exact Hgiven|].
      intros n Hn. apply begin_epoch_held in Hn as [Hn _]. simpl in Hn. by rewrite Eh in Hn.
    - split_and!; [done..| |lia]. eapply Forall_impl; [exact Hgiven|]. intros n [Hn _]. by rewrite Eh in Hn. }
  assert (Forall (fun a => sample_epoch (ar_sample a) = epoch r' ->
    ar_hevc a = hevc c' /\ Forall (held (ar_hevc a) (epoch_map c')) (ar_given a)) log) as Hold.
  { rewrite Forall_forall in Hpast, Hheld |- *. intros a Ha Ea. specialize (Hpast a Ha).
    destruct reason; [destruct Hreason; lia|]. destruct Hreason as (Er & -> & Hf & Hch & _).
    destruct (Hheld a Ha Hf ltac:(lia)) as [E Hh]. split; [congruence|]. rewrite E in *.
    eapply Forall_impl; [exact Hh|]. intros n Hn. rewrite <- Eh. by apply (extends_held c), Hn; apply Hext. }
  simpl. split; simpl.
  - done.
  - apply Forall_app. split; [|by constructor; [simpl; lia|]]. eapply Forall_impl; [exact Hpast|]. simpl. intros; lia.
  - apply Forall_app. split; [eapply Forall_impl; [exact Hold|]; simpl; tauto|]. by constructor; simpl.
  - by apply Hwf'.
  - unfold of_epoch in *. rewrite fmap_app, List.filter_app. simpl. rewrite He, Z.eqb_refl. destruct reason.
    + destruct Hreason as (_ & _ & Hs). etransitivity; [exact Hs|]. by apply suffix_app_r.
    + destruct Hreason as (-> & _ & _ & _ & Hs). etransitivity; [exact Hs|]. by apply suffix_app.
  - assert (forall a, a ∈ log -> sample_epoch (ar_sample a) = sample_epoch pushed -> agree a new /\ agree new a) as Hx.
    { intros a Ha Ea. rewrite Forall_forall in Hold. destruct (Hold a Ha ltac:(congruence)) as [E Hh].
      unfold agree. cbn [ar_hevc ar_given new]. rewrite E, Ec in *. split; (split; [done|]); eapply held_consistent, Forall_app; eauto. }
    intros a1 a2 [H1|H1%list_elem_of_singleton]%elem_of_app [H2|H2%list_elem_of_singleton]%elem_of_app; subst; simpl; intros E.
    + by apply Hagree.
    + by apply Hx.
    + by apply Hx.
    + split; [done|]. eapply held_consistent, Forall_app. by split.
Qed.

Lemma tap_step_ok o t log : tap_ok t log -> Forall sound (arrival o t) -> tap_ok (mstep o t).1 (log ++ arrival o t).
Proof.
  intros Ht Ho. destruct o as [h|b|].
  - rewrite app_nil_r. destruct Ht as [H1 H2 H3 H4]. split; simpl; [apply slots_new|done| |done..].
    apply Forall_forall. done.
  - destruct (tap_unsent t) eqn:Hu; [|by apply arrive_ok]. unfold mstep, tap_machine, tap_step, arrival. rewrite Hu, app_nil_r. done.
  - rewrite app_nil_r. destruct Ht. by split.
Qed.

Lemma tap_run_ok ops t log : tap_ok t log -> Forall sound (arrivals ops t) -> tap_ok (mrun ops t).1 (log ++ arrivals ops t).
Proof.
  revert t log. induction ops as [|o ops IH]; intros t log Ht; [by rewrite app_nil_r|]. cbn [arrivals]. intros [Ho Hops]%Forall_app.
  rewrite mrun_cons. cbn [fst]. rewrite app_assoc. by apply IH; [apply tap_step_ok|].
Qed.

(** C23. A recording of one epoch is given one content per parameter set: two samples of one
    epoch come from one session, and two VPSs, or two SPSs, of one id among the units they were
    passed on with (carried or injected) are the same bytes, padding apart, however often the camera
    changes its sets between access units, reconnects or steps back in time. The access units it
    sends are taken to give each id one content within themselves ([sound]): one that contradicts
    itself is passed on as it came. *)
Theorem one_parameter_set_per_epoch pre h ops a b :
  Forall sound (arrivals ops (tap_new pre h)) -> a ∈ arrivals ops (tap_new pre h) -> b ∈ arrivals ops (tap_new pre h) ->
  sample_epoch (ar_sample a) = sample_epoch (ar_sample b) -> agree a b.
Proof. intros Hops. apply (tap_agree _ _ (tap_run_ok ops _ [] (tap_new_ok pre h) Hops)). Qed.

(** ** The ring is the end of the stream *)

(** What a snapshot of the ring holds is the end of its epoch's stream, and can be spliced: it is
    empty or starts on a keyframe, and no sample that arrived after its first is missing. *)
Lemma snapshot_is_the_end_of_the_stream pre h ops :
  Forall sound (arrivals ops (tap_new pre h)) ->
  let t := (mrun ops (tap_new pre h)).1 in
  snapshot (tap_ring t) `suffix_of` of_epoch (epoch (tap_ring t)) (arrivals ops (tap_new pre h)) /\
  match snapshot (tap_ring t) with [] => True | k :: _ => is_keyframe k = true end.
Proof.
  intros Hops t. pose proof (tap_run_ok ops _ [] (tap_new_ok pre h) Hops) as Ht. fold t in Ht. simpl in Ht.
  split; [apply (tap_tail _ _ Ht)|]. destruct (snapshot_wf _ (tap_wf _ _ Ht)) as [H _]. by destruct (snapshot _).
Qed.

(** A keyframe with its sets, a bare keyframe that gets them injected, and one that changes the SPS. *)
Definition demo_buffer (p : Z) (au : list Z) : Buffer := mkBuffer (Some p) None false au.
Definition au_other_sps : list Z := [0; 0; 0; 1; 0x67; 66; 0; 31; 0x80; 0; 0; 1; 0x68; 0x80; 0; 0; 1; 0x65; 9].
Definition demo_ops : list TapOp :=
  [Arrive (demo_buffer 0 au_with_sets); Send; Arrive (demo_buffer (millis 40) au_bare); Send; Arrive (demo_buffer (millis 80) au_other_sps)].

Lemma one_content h nals :
  forallb (fun n1 => forallb (fun n2 => bool_decide (kind_of h n1 = kind_of h n2 -> kind_of h n1 = Vps \/ kind_of h n1 = Sps ->
    trim_trailing_zeros n1 = trim_trailing_zeros n2)) nals) nals = true -> consistent h nals.
Proof.
  rewrite forallb_forall. intros H n1 n2 H1 H2 Hk Ek _. apply list_elem_of_In in H1, H2. specialize (H n1 H1).
  rewrite forallb_forall in H. specialize (H n2 H2). apply bool_decide_eq_true_1 in H. auto.
Qed.

Lemma one_parameter_set_per_epoch_witness :
  let log := arrivals demo_ops (tap_new (secs 5) false) in
  (sample_epoch ∘ ar_sample <$> log) = [1; 1; 2] /\
  forall a b, log !! 0%nat = Some a -> log !! 1%nat = Some b -> agree a b.
Proof.
  split; [by vm_compute|]. intros a b Ha Hb. apply (one_parameter_set_per_epoch (secs 5) false demo_ops).
  - repeat constructor; apply one_content; by vm_compute.
  - by eapply list_elem_of_lookup_2.
  - by eapply list_elem_of_lookup_2.
  - vm_compute in Ha, Hb. by simplify_eq.
Defined.
