(* ===== verification/LivePump.v ===== *)
(** How samples become the media of a clip: the recording half of
    [nexus-pipeline/src/gst_clip_recorder.rs] between the ring, the broadcast and the muxer. Access
    units are put together again ([coalesce_same_pts]), moved to the clip's own timeline
    ([push_sample]) and forwarded by the live pump, which buffers until the clip's row exists and
    ends the clip where the stream's epoch does.

    The muxer's input ([appsrc]) is known by its answers: [accepts n] says whether the [n]th buffer
    of the clip is taken. What it was handed is kept beside the buffer made of it. Time stamps are
    nanoseconds below [2 ^ 64]. Logging is left out. *)
From S2P Require Import Prelude Text Types Preroll.

Definition FALLBACK_FRAME_INTERVAL_NS : Z := 33333333.
Definition PUMP_GATE_BACKLOG_MAX : nat := 4096.

(** ** Access units *)

Definition is_h265 (codec : CodecKind) : bool := str_eqb (codec_base codec) "h265".

Definition is_slice (h265 : bool) (header : Z) : bool :=
  if h265 then Z.land (Z.shiftr header 1) 0x3f <=? 31
  else let t := Z.land header 0x1f in (t =? 1) || (t =? 5).

(** The walk over the bytes, from a position on. *)
Fixpoint slice_from (h265 : bool) (l : list Z) : bool :=
  match l with
  | a :: ((b :: ((c :: ((d :: l4) as l3)) as l2)) as l1) =>
      if (a =? 0) && (b =? 0) && (c =? 0) && (d =? 1) then
        match l4 with header :: _ => is_slice h265 header || slice_from h265 l4 | [] => false end
      else if (a =? 0) && (b =? 0) && (c =? 1) then is_slice h265 d || slice_from h265 l3
      else slice_from h265 l1
  | _ => false
  end.

Definition contains_slice_nal (data : list Z) (codec : CodecKind) : bool := slice_from (is_h265 codec) data.

(** [prev] and [incoming] as one sample. *)
Definition merge (prev incoming : NalSample) : NalSample :=
  mkSample (match pts prev with Some p => Some p | None => pts incoming end)
    (match dts prev, dts incoming with
     | Some a, Some b => Some (Z.min a b)
     | Some a, None => Some a
     | None, Some b => Some b
     | None, None => None
     end)
    (is_keyframe prev || is_keyframe incoming) (data prev ++ data incoming) (sample_epoch prev).

Definition same_pts (prev incoming : NalSample) : bool :=
  match pts prev, pts incoming with Some p, Some q => p =? q | _, _ => false end.

(** What is pending afterwards, and the sample that is complete. *)
Definition coalesce_same_pts (pending : option NalSample) (incoming : NalSample) (codec : CodecKind) :
    NalSample * option NalSample :=
  match pending with
  | None => (incoming, None)
  | Some prev =>
      if same_pts prev incoming || negb (contains_slice_nal (data prev) codec) then (merge prev incoming, None)
      else (incoming, Some prev)
  end.

(** ** The clip's timeline *)

(** A buffer for the muxer. *)
Record Written := mkWritten { w_pts : Z; w_dts : Z; w_delta : bool; w_data : list Z }.

Definition on_timeline (base t : Z) : Z := sat_sub t base mod 2 ^ 64.

(** A sample with no stamp of its own comes one frame after the last. *)
Definition raw_pts_ns (s : NalSample) (base : Z) (lw : option Z) : Z :=
  match pts s, dts s with
  | Some p, _ => on_timeline base p
  | None, Some d => on_timeline base d
  | None, None => match lw with Some prev => usat_add 64 prev FALLBACK_FRAME_INTERVAL_NS | None => 0 end
  end.

(** The buffer [push_sample] makes; a stamp that steps back is nudged past the last one, [lw]. *)
Definition rebased (s : NalSample) (base : Z) (lw : option Z) : Written :=
  let raw := raw_pts_ns s base lw in
  let p := match lw with Some prev => if raw <? prev then usat_add 64 prev 1 else raw | None => raw end in
  mkWritten p (match dts s with Some d => on_timeline base d | None => p end) (negb (is_keyframe s)) (data s).

(** What went into the muxer: each sample with its buffer, and how many were tried. *)
Record Media := mkMedia { m_pushed : list (NalSample * Written); m_tried : nat }.

Definition media_new : Media := mkMedia [] 0.

Definition media_duration_ms (last : option Z) : Z :=
  match last with Some ns => (ns + FALLBACK_FRAME_INTERVAL_NS) mod 2 ^ 64 / 1000000 | None => 0 end.

Section muxer.
Variable accepts : nat -> bool.
Variable codec : CodecKind.

(** [push_sample]: the stamp written, unless the muxer refuses. *)
Definition push_sample (s : NalSample) (base : Z) (last : option Z) (m : Media) : option Z * Media :=
  let w := rebased s base last in
  if accepts (m_tried m) then (Some (w_pts w), mkMedia (m_pushed m ++ [(s, w)]) (S (m_tried m)))
  else (None, mkMedia (m_pushed m) (S (m_tried m))).

(** ** The pre-roll *)

(** The complete units of a snapshot; a tail with no slice is dropped. *)
Fixpoint coalesce_all (pending : option NalSample) (l : list NalSample) : list NalSample :=
  match l with
  | [] =>
      match pending with
      | Some s => if contains_slice_nal (data s) codec then [s] else []
      | None => []
      end
  | s :: l' =>
      let '(next, flushed) := coalesce_same_pts pending s codec in
      match flushed with Some x => x :: coalesce_all (Some next) l' | None => coalesce_all (Some next) l' end
  end.

Definition snapshot_units (snapshot : list NalSample) : list NalSample := coalesce_all None snapshot.

(** The prepend stops at the first buffer that is refused. *)
Fixpoint prepend (base : Z) (units : list NalSample) (last : option Z) (m : Media) : bool * option Z * Media :=
  match units with
  | [] => (true, last, m)
  | s :: units' =>
      match push_sample s base last m with
      | (Some written, m') => prepend base units' (Some written) m'
      | (None, m') => (false, last, m')
      end
  end.

(** ** The live pump *)

(** The local state of the pump, apart from its backlog and counters. *)
Record Cursor := mkCursor {
  pending : option NalSample;
  base_pts : option Z;
  last_pushed_pts : option Z;
  last_written_pts_ns : option Z;
  clip_epoch : option Z;
  epoch_ended : bool;
}.

Definition set_pending (x : option NalSample) (c : Cursor) : Cursor :=
  mkCursor x (base_pts c) (last_pushed_pts c) (last_written_pts_ns c) (clip_epoch c) (epoch_ended c).
Definition set_base (x : option Z) (c : Cursor) : Cursor :=
  mkCursor (pending c) x (last_pushed_pts c) (last_written_pts_ns c) (clip_epoch c) (epoch_ended c).
Definition set_last (pushed written : option Z) (c : Cursor) : Cursor :=
  mkCursor (pending c) (base_pts c) pushed written (clip_epoch c) (epoch_ended c).
Definition set_epoch (x : option Z) (ended : bool) (c : Cursor) : Cursor :=
  mkCursor (pending c) (base_pts c) (last_pushed_pts c) (last_written_pts_ns c) x ended.

Definition push_one (s : NalSample) (c : Cursor) (m : Media) : bool * Cursor * Media :=
  match push_sample s (default 0 (base_pts c)) (last_written_pts_ns c) m with
  | (Some written, m') =>
      (true, set_last (match pts s with Some p => Some p | None => last_pushed_pts c end) (Some written) c, m')
  | (None, m') => (false, c, m')
  end.

(** A sample not newer than the last one pushed. *)
Definition seen_before (s : NalSample) (c : Cursor) : bool :=
  match pts s, last_pushed_pts c with Some p, Some last => p <=? last | _, _ => false end.

(** The pending unit is pushed if it has a slice, and dropped otherwise. *)
Definition flush_pending (c : Cursor) (m : Media) : bool * Cursor * Media :=
  match pending c with
  | Some last =>
      if contains_slice_nal (data last) codec then push_one last (set_pending None c) m else (true, set_pending None c, m)
  | None => (true, c, m)
  end.

(** A sample joins the pending unit, or takes its place. *)
Definition take_in (s : NalSample) (c : Cursor) (m : Media) : bool * Cursor * Media :=
  let '(next, flushed) := coalesce_same_pts (pending c) s codec in
  let c := set_pending (Some next) c in
  match flushed with Some x => push_one x c m | None => (true, c, m) end.

(** [false]: the pump ends. *)
Definition handle_sample (s : NalSample) (c : Cursor) (m : Media) : bool * Cursor * Media :=
  if negb (is_some (clip_epoch c)) && negb (is_keyframe s) then (true, c, m)
  else
    let e := default (sample_epoch s) (clip_epoch c) in
    let c := set_epoch (Some e) (epoch_ended c) c in
    if negb (sample_epoch s =? e) then
      let '(_, c, m) := flush_pending c m in (false, set_epoch (clip_epoch c) true c, m)
    else if seen_before s c then (true, c, m)
    else
      match base_pts c with
      | Some _ => take_in s c m
      | None => if is_keyframe s then take_in s (set_base (Some (default 0 (pts s))) c) m else (true, c, m)
      end.

(** The backlog, in order, up to the first sample that ends the pump. *)
Fixpoint drain (l : list NalSample) (c : Cursor) (m : Media) : bool * Cursor * Media :=
  match l with
  | [] => (true, c, m)
  | s :: l' =>
      match handle_sample s c m with
      | (true, c, m) => drain l' c m
      | r => r
      end
  end.

Record PumpStats := mkPumpStats { st_dropped : Z; st_last_written : option Z }.

Inductive Phase := Gated (backlog : list NalSample) | Streaming | Finished (s : PumpStats).

Record Pump := mkPump { phase : Phase; cursor : Cursor; dropped : Z }.

(** A pump that starts behind its gate. *)
Definition pump_new (base epoch : option Z) : Pump :=
  mkPump (Gated []) (mkCursor None base None None epoch false) 0.

Inductive PumpOp :=
| Recv (s : NalSample)
| Lag (n : Z)
| Hangup
| OpenGate (last_pushed last_written : option Z)
| DropGate
| Stop
| Quiet.

(** The pump ends and reports its counters. *)
Definition finish_pump (c : Cursor) (n : Z) : Pump := mkPump (Finished (mkPumpStats n (last_written_pts_ns c))) c n.

Definition continue (r : bool * Cursor * Media) (n : Z) : Pump * Media :=
  let '(go, c, m) := r in ((if go then mkPump Streaming c n else finish_pump c n), m).

Definition pump_step (o : PumpOp) (st : Pump * Media) : Pump * Media :=
  let '(p, m) := st in
  let c := cursor p in
  let n := dropped p in
  match phase p with
  | Gated backlog =>
      match o with
      | Stop | DropGate | Hangup => (mkPump (Finished (mkPumpStats n None)) c n, m)
      | OpenGate pushed written => continue (drain backlog (set_last pushed written c) m) n
      | Recv s =>
          if bool_decide (PUMP_GATE_BACKLOG_MAX <= length backlog)%nat then (mkPump (Gated (tail backlog ++ [s])) c (n + 1), m)
          else (mkPump (Gated (backlog ++ [s])) c n, m)
      | Lag k => (mkPump (phase p) c (n + k), m)
      | Quiet => (p, m)
      end
  | Streaming =>
      match o with
      | Stop => let '(_, c, m) := flush_pending c m in (finish_pump c n, m)
      | Quiet => continue (flush_pending c m) n
      | Recv s => continue (handle_sample s c m) n
      | Lag k => (mkPump Streaming c (n + k), m)
      | Hangup => (finish_pump c n, m)
      | OpenGate _ _ | DropGate => (p, m)
      end
  | Finished _ => (p, m)
  end.

#[export] Instance pump_machine : Machine PumpOp (Pump * Media) unit := fun o st => (pump_step o st, tt).

(** ** What the muxer is given can be muxed *)

(** Every unit pushed has a slice and is of epoch [ep], and the stamps do not go back; [lw] is the
    last. *)
Record pushed_ok (ep lw : option Z) (m : Media) : Prop := {
  po_slice : Forall (fun x => contains_slice_nal (data x.1) codec = true) (m_pushed m);
  po_epoch : Forall (fun x => ep = Some (sample_epoch x.1)) (m_pushed m);
  po_sorted : StronglySorted Z.le ((fun x => w_pts x.2) <$> m_pushed m);
  po_range : Forall (fun x => 0 <= w_pts x.2 <= umax 64) (m_pushed m);
  po_last : lw = (fun x => w_pts x.2) <$> last (m_pushed m);
}.

Lemma pushed_new ep : pushed_ok ep None media_new.
Proof. split; simpl; try constructor. Qed.

Lemma rebased_range s base lw : (forall p, lw = Some p -> 0 <= p <= umax 64) ->
  0 <= w_pts (rebased s base lw) <= umax 64 /\ (forall p, lw = Some p -> p <= w_pts (rebased s base lw)).
Proof.
  intros Hl. unfold rebased. cbn [w_pts]. set (raw := raw_pts_ns s base lw).
  assert (0 <= raw <= umax 64) as Hr.
  { pose proof (fun t => Z.mod_pos_bound (sat_sub t base) (2 ^ 64) ltac:(lia)) as Hm.
    subst raw. unfold raw_pts_ns, on_timeline, umax, usat_add in *. destruct (pts s) as [p|]; [specialize (Hm p); lia|].
    destruct (dts s) as [d|]; [specialize (Hm d); lia|]. destruct lw as [p|]; [|lia]. specialize (Hl p eq_refl).
    unfold FALLBACK_FRAME_INTERVAL_NS, umax in *. lia. }
  destruct lw as [p|]; [|by split]. specialize (Hl p eq_refl). unfold usat_add.
  destruct (Z.ltb_spec raw p); (split; [unfold umax in *; lia|intros ? [= <-]; unfold umax in *; lia]).
Qed.

Lemma push_sample_ok ep s base lw m : pushed_ok ep lw m -> contains_slice_nal (data s) codec = true -> ep = Some (sample_epoch s) ->
  match push_sample s base lw m with
  | (Some w, m') => pushed_ok ep (Some w) m' /\ exists b, m_pushed m' = m_pushed m ++ [(s, b)]
  | (None, m') => pushed_ok ep lw m' /\ m_pushed m' = m_pushed m
  end.
Proof.
  intros [H1 H2 H4 H5 H6] Hs Hep. unfold push_sample. destruct (accepts (m_tried m)); [|by split].
  assert (forall p, lw = Some p -> 0 <= p <= umax 64) as Hl.
  { intros p ->. destruct (last (m_pushed m)) as [x|] eqn:E; [|done]. injection H6 as ->.
    rewrite Forall_forall in H5. by apply H5, last_Some_elem_of. }
  destruct (rebased_range s base lw Hl) as [Hr Hle]. set (w := rebased s base lw) in *. simpl.
  split; [|by eexists]. split; simpl.
  - apply Forall_app. by split; [|constructor].
  - apply Forall_app. by split; [|constructor].
  - rewrite fmap_app. apply StronglySorted_app. split_and!; [|done|by repeat constructor].
    intros a b Ha Hb%list_elem_of_singleton. subst b. apply list_elem_of_fmap in Ha as (x & -> & Hx).
    destruct (m_pushed m) as [|y l _] eqn:E using rev_ind; [by apply elem_of_nil in Hx|].
    assert (lw = Some (w_pts y.2)) as El by (by rewrite H6, last_snoc). specialize (Hle _ El).
    rewrite fmap_app in H4. apply StronglySorted_app in H4 as (Hl4 & _ & _). apply elem_of_app in Hx as [Hx|Hx%list_elem_of_singleton]; [|by subst x].
    transitivity (w_pts y.2); [|done]. apply Hl4; [exact (list_elem_of_fmap_2 (fun x => w_pts x.2) l x Hx)|by apply list_elem_of_singleton].
  - apply Forall_app. by split; [|constructor].
  - by rewrite last_snoc.
Qed.

Lemma push_one_ok s c m :
  pushed_ok (clip_epoch c) (last_written_pts_ns c) m -> contains_slice_nal (data s) codec = true -> clip_epoch c = Some (sample_epoch s) ->
  let '(go, c', m') := push_one s c m in
  pushed_ok (clip_epoch c') (last_written_pts_ns c') m' /\ clip_epoch c' = clip_epoch c /\ pending c' = pending c /\ base_pts c' = base_pts c /\
  (if go then exists b, m_pushed m' = m_pushed m ++ [(s, b)] else m_pushed m' = m_pushed m).
Proof.
  intros Hm Hs He. unfold push_one. pose proof (push_sample_ok _ s (default 0 (base_pts c)) _ m Hm Hs He) as Hp.
  destruct (push_sample _ _ _ m) as [[w|] m']; simpl; destruct Hp; by split_and!.
Qed.

(** A pump that streams: what it pushed is in order, and its pending unit is of its epoch. *)
Definition stream_ok (c : Cursor) (m : Media) : Prop :=
  pushed_ok (clip_epoch c) (last_written_pts_ns c) m /\ (forall s, pending c = Some s -> clip_epoch c = Some (sample_epoch s)).

(** What is pushed or about to be. *)
Definition held_units (c : Cursor) (m : Media) : list NalSample := (m_pushed m).*1 ++ option_list (pending c).

(** The clip starts on a keyframe, or has not started and waits for one. *)
Definition keyed (c : Cursor) (m : Media) : Prop :=
  match head (held_units c m) with Some s => is_keyframe s = true | None => base_pts c = None end.

(** The outcome [(go, c', m')] of handling a sample or flushing. *)
Definition outcome_ok (r : bool * Cursor * Media) : Prop :=
  let '(go, c', m') := r in
  pushed_ok (clip_epoch c') (last_written_pts_ns c') m' /\ (go = true -> stream_ok c' m').

Lemma kept_ok go c m : stream_ok c m -> outcome_ok (go, c, m).
Proof. intros H. by split; [apply H|]. Qed.

Lemma flush_pending_ok c m : stream_ok c m -> outcome_ok (flush_pending c m).
Proof.
  intros Hc. unfold flush_pending. destruct (pending c) as [s|] eqn:Es; [|by apply kept_ok]. destruct Hc as [Hm Hp].
  destruct (contains_slice_nal (data s) codec) eqn:E; [|by apply kept_ok].
  pose proof (push_one_ok s (set_pending None c) m Hm E (Hp s Es)) as H. unfold outcome_ok. destruct (push_one s _ m) as [[go c'] m'].
  destruct H as (H1 & H2 & H3 & _). split; [done|]. intros _. split; [done|]. intros x. by rewrite H3.
Qed.

Lemma coalesce_epoch p s next flushed e :
  coalesce_same_pts p s codec = (next, flushed) -> (forall x, p = Some x -> sample_epoch x = e) -> sample_epoch s = e -> sample_epoch next = e.
Proof. unfold coalesce_same_pts. destruct p as [x|]; [|by intros [= <- <-]]. case_match; intros [= <- <-] Hp; simpl; auto. Qed.

Lemma coalesce_flushed p s next x : coalesce_same_pts p s codec = (next, Some x) -> p = Some x /\ contains_slice_nal (data x) codec = true.
Proof.
  unfold coalesce_same_pts. destruct p as [y|]; [|done]. destruct (same_pts y s || negb (contains_slice_nal (data y) codec)) eqn:E; [done|].
  apply orb_false_iff in E as [_ E]. intros [= -> ->]. split; [done|]. by destruct (contains_slice_nal _ _).
Qed.

Lemma take_in_ok s c m : stream_ok c m -> clip_epoch c = Some (sample_epoch s) -> outcome_ok (take_in s c m).
Proof.
  intros [Hm Hp] He. unfold take_in, outcome_ok. destruct (coalesce_same_pts (pending c) s codec) as [next flushed] eqn:Ec.
  assert (clip_epoch c = Some (sample_epoch next)) as En.
  { rewrite He. f_equal. symmetry. apply (coalesce_epoch _ _ _ _ (sample_epoch s) Ec); [|done]. intros x Hx. specialize (Hp x Hx). congruence. }
  destruct flushed as [x|].
  - apply coalesce_flushed in Ec as [Hx Hs]. pose proof (push_one_ok x (set_pending (Some next) c) m Hm Hs (Hp x Hx)) as H.
    destruct (push_one x _ m) as [[go c'] m']. destruct H as (H1 & H2 & H3 & _). split; [done|]. intros _. split; [done|].
    intros y. rewrite H3, H2. by intros [= <-].
  - split; [done|]. intros _. split; [done|]. by intros y [= <-].
Qed.

Lemma handle_sample_ok s c m : stream_ok c m -> outcome_ok (handle_sample s c m).
Proof.
  intros Hc. unfold handle_sample. destruct (negb (is_some (clip_epoch c)) && negb (is_keyframe s)); [by apply kept_ok|].
  destruct Hc as [Hm Hp].
  set (e := default (sample_epoch s) (clip_epoch c)). set (c1 := set_epoch (Some e) (epoch_ended c) c).
  assert (stream_ok c1 m) as Hc1.
  { unfold c1, e. destruct (clip_epoch c) as [e0|] eqn:E; simpl; [split; simpl; by rewrite <- ?E in *|].
    destruct Hm as [H1 H2 H3 H4 H5]. destruct (m_pushed m) as [|x l] eqn:Ex; [|by apply Forall_inv in H2].
    split; [split; simpl; rewrite Ex; done|]. intros y Hy. by specialize (Hp y Hy). }
  destruct (negb (sample_epoch s =? e)) eqn:Ee.
  - pose proof (flush_pending_ok c1 m Hc1) as H. destruct (flush_pending c1 m) as [[go c2] m2]. destruct H as [H _]. by split.
  - assert (clip_epoch c1 = Some (sample_epoch s)) as Hs by (simpl; f_equal; lia).
    destruct (seen_before s c1); [by apply kept_ok|]. change (base_pts c1) with (base_pts c).
    destruct (base_pts c); [by apply take_in_ok|]. destruct (is_keyframe s); [|by apply kept_ok].
    apply (take_in_ok s (set_base _ c1) m); [by destruct Hc1|done].
Qed.

Lemma drain_ok l c m : stream_ok c m -> outcome_ok (drain l c m).
Proof.
  revert c m. induction l as [|s l IH]; intros c m Hc; [by apply kept_ok|]. simpl.
  pose proof (handle_sample_ok s c m Hc) as H. destruct (handle_sample s c m) as [[[|] c'] m']; [|done].
  apply IH. by apply H.
Qed.

(** ** The whole of a clip *)

(** The stamp the clip's timeline starts at, and the last one of the pre-roll. *)
Definition clip_base (snapshot : list NalSample) : Z := default 0 (head (omap pts snapshot)).
Definition tail_pts (snapshot : list NalSample) : option Z := last (omap pts snapshot).

(** The pump of a clip: it has no timeline of its own unless the pre-roll is empty. *)
Definition start_pump (snapshot : list NalSample) : Pump :=
  pump_new (if bool_decide (snapshot_units snapshot = []) then None else Some (clip_base snapshot)) (sample_epoch <$> head snapshot).

(** A clip from its snapshot: the pump buffers [before] the pre-roll is in, and then streams. *)
Definition record_clip (snapshot : list NalSample) (before after : list PumpOp) : option (Pump * Media) :=
  match prepend (clip_base snapshot) (snapshot_units snapshot) None media_new with
  | (true, lw, m) => Some (mrun after (pump_step (OpenGate (tail_pts snapshot) lw) (mrun before (start_pump snapshot, m)).1)).1
  | (false, _, _) => None
  end.

(** A snapshot of a ring: of one epoch, and it starts on a keyframe. *)
Definition spliceable (e : Z) (snapshot : list NalSample) : Prop :=
  Forall (fun s => sample_epoch s = e) snapshot /\ (forall k, head snapshot = Some k -> is_keyframe k = true).

Lemma coalesce_all_ok e l : forall p,
  (forall x, p = Some x -> sample_epoch x = e) -> Forall (fun s => sample_epoch s = e) l ->
  Forall (fun s => contains_slice_nal (data s) codec = true /\ sample_epoch s = e) (coalesce_all p l).
Proof.
  induction l as [|s l IH]; intros p Hp Hl; simpl.
  - destruct p as [x|]; [|constructor]. destruct (contains_slice_nal (data x) codec) eqn:E; [|constructor].
    constructor; [|constructor]. split; [done|by apply Hp].
  - apply Forall_cons in Hl as [Hs Hl]. destruct (coalesce_same_pts p s codec) as [next flushed] eqn:Ec.
    assert (sample_epoch next = e) as En by (eapply coalesce_epoch; eauto).
    assert (Forall (fun s => contains_slice_nal (data s) codec = true /\ sample_epoch s = e) (coalesce_all (Some next) l)) as Hr
      by (apply IH; [by intros x [= <-]|done]).
    destruct flushed as [x|]; [|done]. apply coalesce_flushed in Ec as [-> Hx]. constructor; [split; [done|by apply Hp]|done].
Qed.

Lemma coalesce_all_key l : forall p,
  (forall x, head (option_list p ++ l) = Some x -> is_keyframe x = true) ->
  forall k, head (coalesce_all p l) = Some k -> is_keyframe k = true.
Proof.
  induction l as [|s l IH]; intros p Hp k; simpl.
  - destruct p as [x|]; [|done]. destruct (contains_slice_nal _ _); [|done]. intros [= <-]. by apply Hp.
  - unfold coalesce_same_pts. destruct p as [x|]; simpl in *; [|apply IH; intros y; simpl; intros [= <-]; by apply Hp].
    specialize (Hp x eq_refl). destruct (_ || _); [|by intros [= <-]]. apply IH. simpl. intros y [= <-]. simpl. by rewrite Hp.
Qed.

(** The units are the snapshot's bytes, but for a tail that has no slice. *)
Lemma coalesce_all_bytes l : forall p, exists stub,
  (option_list p ≫= data) ++ (l ≫= data) = (coalesce_all p l ≫= data) ++ stub /\ (stub = [] \/ contains_slice_nal stub codec = false).
Proof.
  induction l as [|s l IH]; intros p; simpl.
  - destruct p as [x|]; simpl; [|exists []; auto]. destruct (contains_slice_nal (data x) codec) eqn:E; simpl.
    + exists []. rewrite !app_nil_r. auto.
    + exists (data x). rewrite !app_nil_r. auto.
  - unfold coalesce_same_pts. destruct p as [x|]; simpl; [destruct (_ || _)|].
    + destruct (IH (Some (merge x s))) as (stub & E & Hs). exists stub. split; [|done]. rewrite <- E. simpl. rewrite !app_nil_r. by rewrite <- !app_assoc.
    + destruct (IH (Some s)) as (stub & E & Hs). exists stub. split; [|done]. simpl in *. rewrite !app_nil_r in *. rewrite <- !app_assoc. by f_equal.
    + destruct (IH (Some s)) as (stub & E & Hs). exists stub. split; [|done]. simpl in *. by rewrite !app_nil_r in *.
Qed.

Lemma prepend_ok e base units : forall lw m,
  pushed_ok (Some e) lw m -> Forall (fun s => contains_slice_nal (data s) codec = true /\ sample_epoch s = e) units ->
  let '(ok, lw', m') := prepend base units lw m in
  pushed_ok (Some e) lw' m' /\ (ok = true -> (m_pushed m').*1 = (m_pushed m).*1 ++ units).
Proof.
  induction units as [|s units IH]; intros lw m Hm Hu; simpl; [by rewrite app_nil_r|].
  apply Forall_cons in Hu as [[Hs He] Hu].
  pose proof (push_sample_ok (Some e) s base lw m Hm Hs ltac:(by rewrite He)) as Hp.
  destruct (push_sample s base lw m) as [[w|] m']; [|by destruct Hp].
  destruct Hp as [Hm' [b Eb]]. specialize (IH (Some w) m' Hm' Hu). destruct (prepend base units _ m') as [[ok lw'] m''].
  destruct IH as [IH1 IH2]. split; [done|]. intros Hok. by rewrite (IH2 Hok), Eb, fmap_app, <- app_assoc.
Qed.

(** *** It can be muxed *)

Definition not_gate (o : PumpOp) : Prop := match o with OpenGate _ _ => False | _ => True end.

Lemma finished_run ops p m st : phase p = Finished st -> (mrun ops (p, m)).1 = (p, m).
Proof.
  intros Hp. induction ops as [|o ops IH]; [done|]. rewrite mrun_cons. cbn [fst].
  unfold mstep, pump_machine, pump_step. by rewrite Hp.
Qed.

(** A pump behind its gate touches nothing. *)
Lemma gated_run ops : forall p m, (exists l, phase p = Gated l) -> Forall not_gate ops ->
  let '(p', m') := (mrun ops (p, m)).1 in
  m' = m /\ cursor p' = cursor p /\ ((exists l, phase p' = Gated l) \/ exists st, phase p' = Finished st).
Proof.
  induction ops as [|o ops IH]; intros p m [l Hp] Ho; [simpl; eauto|]. apply Forall_cons in Ho as [Ho Hops].
  rewrite mrun_cons. cbn [fst]. unfold mstep, pump_machine, pump_step. rewrite Hp.
  destruct o as [x|n| | | | |]; try done; cbn [fst].
  - case_bool_decide; (refine (IH (mkPump (Gated _) (cursor p) _) m _ _); [simpl; eauto|done]).
  - refine (IH (mkPump (Gated l) (cursor p) _) m _ _); [simpl; eauto|done].
  - erewrite finished_run by done. simpl. split_and!; eauto.
  - erewrite finished_run by done. simpl. split_and!; eauto.
  - erewrite finished_run by done. simpl. split_and!; eauto.
  - apply IH; [eauto|done].
Qed.

(** What holds of a pump past its gate. *)
Definition pump_ok (st : Pump * Media) : Prop :=
  match phase st.1 with
  | Gated _ => False
  | Streaming => stream_ok (cursor st.1) st.2
  | Finished _ => exists lw, pushed_ok (clip_epoch (cursor st.1)) lw st.2
  end.

Lemma continue_ok r n : outcome_ok r -> pump_ok (continue r n).
Proof. destruct r as [[[|] c] m]; intros [H1 H2]; unfold pump_ok; simpl; eauto. Qed.

Lemma pump_step_ok o st : pump_ok st -> pump_ok (pump_step o st).
Proof.
  destruct st as [p m]. unfold pump_ok at 1. cbn [fst snd]. unfold pump_step. destruct (phase p) eqn:Ep; [done| |by unfold pump_ok; simpl; rewrite Ep].
  intros Hc. destruct o.
  - by apply continue_ok, handle_sample_ok.
  - done.
  - unfold pump_ok. simpl. eexists. apply Hc.
  - unfold pump_ok. simpl. by rewrite Ep.
  - unfold pump_ok. simpl. by rewrite Ep.
  - pose proof (flush_pending_ok (cursor p) m Hc) as H. destruct (flush_pending _ m) as [[go c] m']. destruct H as [H _]. by eexists.
  - by apply continue_ok, flush_pending_ok.
Qed.

(** The gate opens on the pre-roll's last stamps. *)
Lemma gate_ok p m pushed e lw :
  phase p = Gated pushed -> pending (cursor p) = None -> clip_epoch (cursor p) = e -> pushed_ok e lw m ->
  forall tail, pump_ok (pump_step (OpenGate tail lw) (p, m)).
Proof.
  intros Hp Hn He Hm tail. unfold pump_step. rewrite Hp. apply continue_ok, drain_ok. split; simpl; [by rewrite He|].
  by rewrite Hn.
Qed.

Lemma pump_pushed st : pump_ok st -> exists e lw, pushed_ok e lw st.2.
Proof. unfold pump_ok. destruct (phase st.1); [done|intros [H _]; eauto|intros [lw H]; eauto]. Qed.

(** Media only grow. *)
Definition grows (m m' : Media) : Prop := m_pushed m `prefix_of` m_pushed m'.

#[local] Instance grows_preorder : PreOrder grows.
Proof. split; [intros m; unfold grows; reflexivity|]. intros m1 m2 m3. unfold grows. intros H1 H2. by transitivity (m_pushed m2). Qed.

Lemma push_one_grows s c m : grows m (push_one s c m).2.
Proof. unfold push_one, push_sample, grows. destruct (accepts _); simpl; [by apply prefix_app_r|done]. Qed.

Lemma flush_pending_grows c m : grows m (flush_pending c m).2.
Proof. unfold flush_pending. repeat case_match; [apply push_one_grows|done..]. Qed.

Lemma take_in_grows s c m : grows m (take_in s c m).2.
Proof. unfold take_in. repeat case_match; [apply push_one_grows|done..]. Qed.

Lemma handle_sample_grows s c m : grows m (handle_sample s c m).2.
Proof.
  unfold handle_sample. destruct (_ && _); [done|]. destruct (negb _).
  - pose proof (flush_pending_grows (set_epoch (Some (default (sample_epoch s) (clip_epoch c))) (epoch_ended c) c) m) as H.
    by destruct (flush_pending _ m) as [[? ?] ?].
  - repeat case_match; try done; apply take_in_grows.
Qed.

Lemma drain_grows l c m : grows m (drain l c m).2.
Proof.
  revert c m. induction l as [|s l IH]; intros c m; [done|]. simpl. pose proof (handle_sample_grows s c m) as H.
  destruct (handle_sample s c m) as [[[|] c'] m']; [|done]. etransitivity; [exact H|apply IH].
Qed.

Lemma pump_step_grows o st : grows st.2 (pump_step o st).2.
Proof.
  assert (forall r n m, grows m r.2 -> grows m (continue r n).2) as Hc by (by intros [[? ?] ?]).
  destruct st as [p m]. unfold pump_step. cbn [snd].
  destruct (phase p) as [b| |]; [destruct o as [x|n| |a b'| | |]|destruct o|done]; try done.
  - by case_bool_decide.
  - apply Hc, drain_grows.
  - apply Hc, handle_sample_grows.
  - pose proof (flush_pending_grows (cursor p) m) as H. by destruct (flush_pending _ m) as [[? ?] ?].
  - apply Hc, flush_pending_grows.
Qed.

Lemma run_grows ops st : grows st.2 (mrun ops st).1.2.
Proof.
  revert st. induction ops as [|o ops IH]; intros st; [done|]. rewrite mrun_cons. etransitivity; [apply (pump_step_grows o)|apply IH].
Qed.

(** The start of a clip: the media of the pre-roll, and the pump once the gate is open. *)
Lemma clip_started e snapshot before after p m :
  spliceable e snapshot -> Forall not_gate before ->
  record_clip snapshot before after = Some (p, m) ->
  exists lw m0 p0, pushed_ok (if bool_decide (snapshot = []) then None else Some e) lw m0 /\ (m_pushed m0).*1 = snapshot_units snapshot /\
    (p, m) = (mrun after (pump_step (OpenGate (tail_pts snapshot) lw) (p0, m0))).1 /\
    cursor p0 = cursor (start_pump snapshot) /\ ((exists l, phase p0 = Gated l) \/ exists st, phase p0 = Finished st).
Proof.
  intros [He _] Hb. unfold record_clip.
  pose proof (prepend_ok e (clip_base snapshot) (snapshot_units snapshot) None media_new (pushed_new _)
    (coalesce_all_ok e snapshot None ltac:(done) He)) as Hp.
  destruct (prepend _ _ _ _) as [[ok lw] m0]. destruct Hp as [Hm Hu]. destruct ok; [|done]. intros [= E].
  pose proof (gated_run before (start_pump snapshot) m0 ltac:(by eexists) Hb) as Hg.
  destruct (mrun before (start_pump snapshot, m0)).1 as [p0 m1]. destruct Hg as (-> & Hc & Hph).
  exists lw, m0, p0. split_and!; [|by apply Hu|done..]. case_bool_decide as Hs; [|done]. subst snapshot. specialize (Hu eq_refl).
  destruct Hm as [H1 H2 H3 H4 H5]. apply fmap_nil_inv in Hu. split; by rewrite ?Hu in *.
Qed.

(** C17. A clip can be muxed: every access unit handed to the muxer has a slice, all of them are of one
    epoch of the stream, and the stamps never go back, whatever the camera sends, the channel loses
    and the muxer refuses, and whenever the clip is stopped; with a pre-roll it starts on a
    keyframe. *)
Theorem clip_can_be_muxed e snapshot before after p m :
  spliceable e snapshot -> Forall not_gate before -> record_clip snapshot before after = Some (p, m) ->
  Forall (fun x => contains_slice_nal (data x.1) codec = true) (m_pushed m) /\
  (exists e', Forall (fun x => sample_epoch x.1 = e') (m_pushed m)) /\
  StronglySorted Z.le ((fun x => w_pts x.2) <$> m_pushed m) /\
  (snapshot_units snapshot <> [] -> exists k, head (m_pushed m).*1 = Some k /\ is_keyframe k = true).
Proof.
  intros Hs Hb Hr. destruct (clip_started e snapshot before after p m Hs Hb Hr) as (lw & m0 & p0 & Hm & Hu & E & Hc & Hph).
  assert (exists ep lw', pushed_ok ep lw' m) as (ep & lw' & [H1 H2 H3 _ _]).
  { destruct Hph as [[l Hl]|[st Hst]].
    - assert (pump_ok (p, m)) as Hok; [|by destruct (pump_pushed _ Hok) as (e' & lw' & H); exists e', lw'].
      rewrite E. apply (mrun_invariant (fun _ => True) pump_ok); [intros o st _; apply pump_step_ok|by apply Forall_true|].
      apply (gate_ok p0 m0 l (clip_epoch (cursor p0)) lw); [done|by rewrite Hc|done|]. rewrite Hc. simpl. revert Hm. case_bool_decide as Hn; [by subst|].
      destruct snapshot as [|k l']; [done|]. intros Hm. destruct Hs as [Hs _]. apply Forall_inv in Hs. simpl. by rewrite Hs.
    - unfold pump_step in E. rewrite Hst, (finished_run _ _ _ _ Hst) in E. injection E as -> ->. eauto. }
  split_and!; [done| |done|].
  - destruct (m_pushed m) as [|x l] eqn:Ex; [by exists 0|].
    exists (sample_epoch x.1). pose proof (Forall_inv H2) as Hx. eapply Forall_impl; [exact H2|]. simpl. congruence.
  - assert (grows m0 m) as [l Hg].
    { etransitivity; [exact (pump_step_grows (OpenGate (tail_pts snapshot) lw) (p0, m0))|].
      change m with (p, m).2. rewrite E. apply run_grows. }
    rewrite Hg, fmap_app, Hu. destruct (snapshot_units snapshot) as [|k l'] eqn:Eu; [done|]. intros _. exists k. split; [done|].
    apply (coalesce_all_key snapshot None); [|unfold snapshot_units in Eu; by rewrite Eu]. apply Hs.
Qed.

(** *** Nothing is lost *)

Lemma drain_app l1 l2 c m :
  drain (l1 ++ l2) c m = (let '(go, c', m') := drain l1 c m in if go then drain l2 c' m' else (go, c', m')).
Proof.
  revert c m. induction l1 as [|s l1 IH]; intros c m; [done|]. simpl. destruct (handle_sample s c m) as [[[|] c'] m']; [apply IH|done].
Qed.

Lemma gated_recvs l : forall backlog c n m, (length backlog + length l <= PUMP_GATE_BACKLOG_MAX)%nat ->
  (mrun (Recv <$> l) (mkPump (Gated backlog) c n, m)).1 = (mkPump (Gated (backlog ++ l)) c n, m).
Proof.
  induction l as [|s l IH]; intros backlog c n m Hl; [by rewrite app_nil_r|]. cbn [fmap list_fmap]. rewrite mrun_cons. cbn [fst].
  unfold mstep, pump_machine, pump_step. cbn [phase]. cbn [length] in Hl. rewrite bool_decide_false by (simpl; lia). cbn [fst cursor dropped].
  change (list_fmap _ _ Recv l) with (Recv <$> l). rewrite IH by (rewrite length_app; simpl; lia). by rewrite <- app_assoc.
Qed.

Lemma streaming_recvs l : forall c n m, (mrun (Recv <$> l) (mkPump Streaming c n, m)).1 = continue (drain l c m) n.
Proof.
  induction l as [|s l IH]; intros c n m; [done|]. cbn [fmap list_fmap]. rewrite mrun_cons. cbn [fst].
  unfold mstep, pump_machine, pump_step. cbn [phase fst cursor dropped drain]. change (list_fmap _ _ Recv l) with (Recv <$> l).
  destruct (handle_sample s c m) as [[[|] c'] m']; [apply IH|]. unfold continue. by eapply finished_run.
Qed.

(** Each stamp of [l] is above the stamps before it and above [hi]. *)
Fixpoint rising (hi : option Z) (l : list NalSample) : Prop :=
  match l with
  | [] => True
  | s :: l' =>
      match pts s, hi with Some p, Some h => h < p | _, _ => True end /\
      rising (match pts s with Some p => Some p | None => hi end) l'
  end.

Definition under (hi x : option Z) : Prop := forall p, x = Some p -> exists h, hi = Some h /\ p <= h.

(** The stamps the pump remembers are not above [hi]. *)
Definition remembers (hi : option Z) (c : Cursor) : Prop :=
  under hi (last_pushed_pts c) /\ forall s, pending c = Some s -> under hi (pts s).

Lemma under_rise hi s x : match pts s, hi with Some p, Some h => h < p | _, _ => True end ->
  under hi x -> under (match pts s with Some p => Some p | None => hi end) x.
Proof.
  intros Hs Hx p Hp. destruct (Hx p Hp) as (h & -> & Hle). destruct (pts s) as [q|]; eexists; (split; [done|]); lia.
Qed.

(** A sample the pump takes in becomes part of what it holds. *)
Lemma take_in_bytes hi s c m go c' m' :
  match pts s, hi with Some p, Some h => h < p | _, _ => True end -> remembers hi c ->
  (forall n, accepts n = true) -> take_in s c m = (go, c', m') ->
  go = true /\ held_units c' m' ≫= data = (held_units c m ≫= data) ++ data s /\
  remembers (match pts s with Some p => Some p | None => hi end) c' /\ clip_epoch c' = clip_epoch c /\ base_pts c' = base_pts c.
Proof.
  intros Hs [Hlast Hpend] Ha. unfold take_in, coalesce_same_pts, push_one, push_sample, held_units. rewrite Ha.
  set (hi' := match pts s with Some p => Some p | None => hi end).
  assert (under hi' (pts s)) as Hself by (intros p Hp; unfold hi'; rewrite Hp; eexists; split; [done|lia]).
  pose proof (under_rise hi s _ Hs Hlast) as Hl. fold hi' in Hl.
  destruct (pending c) as [x|] eqn:Ex; [|intros [= <- <- <-]; simpl].
  - pose proof (under_rise hi s _ Hs (Hpend x eq_refl)) as Hx. fold hi' in Hx. destruct (_ || _); intros [= <- <- <-]; simpl.
    + rewrite !bind_app. simpl. rewrite !app_nil_r, <- app_assoc. split_and!; [done..| |done|done]. split; [done|]. intros y [= <-]. simpl.
      destruct (pts x) eqn:E; done.
    + rewrite fmap_app, !bind_app. simpl. rewrite !app_nil_r. split_and!; [done..| |done|done]. split; simpl; [|by intros y [= <-]].
      destruct (pts x); done.
  - rewrite !bind_app. simpl. rewrite !app_nil_r. split_and!; [done..| |done|done]. split; [done|]. by intros y [= <-].
Qed.

Lemma handle_sample_bytes e hi s c m :
  match pts s, hi with Some p, Some h => h < p | _, _ => True end -> remembers hi c ->
  (forall n, accepts n = true) -> sample_epoch s = e ->
  (clip_epoch c = Some e /\ is_Some (base_pts c) \/ clip_epoch c = None /\ base_pts c = None /\ is_keyframe s = true) ->
  exists c' m', handle_sample s c m = (true, c', m') /\ held_units c' m' ≫= data = (held_units c m ≫= data) ++ data s /\
    remembers (match pts s with Some p => Some p | None => hi end) c' /\ clip_epoch c' = Some e /\ is_Some (base_pts c').
Proof.
  intros Hs Hr Ha He Hc. unfold handle_sample.
  assert (negb (is_some (clip_epoch c)) && negb (is_keyframe s) = false) as -> by (destruct Hc as [[-> _]|(-> & _ & ->)]; done).
  set (c1 := set_epoch _ _ c). assert (clip_epoch c1 = Some e) as He1 by (simpl; destruct Hc as [[-> _]|(-> & _)]; simpl; congruence).
  assert (sample_epoch s =? default (sample_epoch s) (clip_epoch c) = true) as -> by (destruct Hc as [[-> _]|(-> & _)]; simpl; lia).
  assert (remembers hi c1) as Hr1 by exact Hr. simpl negb.
  assert (seen_before s c1 = false) as ->.
  { unfold seen_before. destruct (pts s) as [q|]; [|done]. destruct (last_pushed_pts c1) as [l|] eqn:El; [|done].
    destruct Hr1 as [Hl _]. destruct (Hl l El) as (h & -> & Hle). lia. }
  change (base_pts c1) with (base_pts c). destruct (base_pts c) as [b|] eqn:Eb.
  - destruct (take_in s c1 m) as [[go c'] m'] eqn:Et. destruct (take_in_bytes hi s c1 m go c' m' Hs Hr1 Ha Et) as (-> & H1 & H2 & H3 & H4).
    exists c', m'. split_and!; [done..|by rewrite H3|]. rewrite H4. simpl. by rewrite Eb.
  - destruct Hc as [[_ [? Hb]]|(_ & _ & ->)]; [done|]. set (c2 := set_base _ c1).
    destruct (take_in s c2 m) as [[go c'] m'] eqn:Et. destruct (take_in_bytes hi s c2 m go c' m' Hs Hr1 Ha Et) as (-> & H1 & H2 & H3 & H4).
    exists c', m'. split_and!; [done..|rewrite H3; exact He1|]. by rewrite H4.
Qed.

Lemma drain_bytes e l : forall hi c m,
  rising hi l -> remembers hi c -> (forall n, accepts n = true) -> Forall (fun s => sample_epoch s = e) l ->
  (clip_epoch c = Some e /\ is_Some (base_pts c) \/
   clip_epoch c = None /\ base_pts c = None /\ (forall k, head l = Some k -> is_keyframe k = true)) ->
  exists c' m', drain l c m = (true, c', m') /\ held_units c' m' ≫= data = (held_units c m ≫= data) ++ (l ≫= data).
Proof.
  induction l as [|s l IH]; intros hi c m Hl Hr Ha He Hc; [exists c, m; simpl; by rewrite app_nil_r|].
  destruct Hl as [Hs Hl]. apply Forall_cons in He as [Hes He].
  destruct (handle_sample_bytes e hi s c m Hs Hr Ha Hes) as (c1 & m1 & E & Hb & Hr1 & He1 & Hb1); [naive_solver|].
  destruct (IH _ c1 m1 Hl Hr1 Ha He ltac:(by left)) as (c' & m' & E' & Hb'). exists c', m'. simpl. rewrite E. split; [done|].
  by rewrite Hb', Hb, <- app_assoc.
Qed.

Lemma prepend_accepted base units lw m : (forall n, accepts n = true) -> (prepend base units lw m).1.1 = true.
Proof. intros Ha. revert lw m. induction units as [|s units IH]; intros lw m; [done|]. simpl. unfold push_sample. rewrite Ha. apply IH. Qed.

(** C18. Nothing of the stream is lost on a recording that runs undisturbed: what the clip holds is its
    pre-roll and, right after it, every byte that came over the channel, whether it came before or
    after the row was inserted; only a header-only tail of the pre-roll is left out. Undisturbed
    means: the muxer takes every buffer; every sample is received (no lag of the channel, no stop, and
    no pause long enough to flush a held unit); all are of the pre-roll's epoch, their stamps rising
    from its last; at most 4096 of them ([PUMP_GATE_BACKLOG_MAX]) wait while the row is inserted; the
    pre-roll starts on a keyframe and has a unit with a picture, or it is empty and the first sample
    is a keyframe (the pump drops what comes before one). *)
Theorem clip_has_every_byte e snapshot waiting live :
  spliceable e snapshot -> (snapshot = [] -> forall k, head (waiting ++ live) = Some k -> is_keyframe k = true) ->
  (snapshot <> [] -> snapshot_units snapshot <> []) ->
  (forall n, accepts n = true) -> (length waiting <= PUMP_GATE_BACKLOG_MAX)%nat ->
  Forall (fun s => sample_epoch s = e) (waiting ++ live) -> rising (tail_pts snapshot) (waiting ++ live) ->
  exists p m units stub, record_clip snapshot (Recv <$> waiting) (Recv <$> live) = Some (p, m) /\
    phase p = Streaming /\ dropped p = 0 /\
    snapshot ≫= data = units ++ stub /\ (stub = [] \/ contains_slice_nal stub codec = false) /\
    held_units (cursor p) m ≫= data = units ++ ((waiting ++ live) ≫= data).
Proof.
  intros Hs Hkey Hun Ha Hlen He Hr. unfold record_clip.
  pose proof (prepend_ok e (clip_base snapshot) (snapshot_units snapshot) None media_new (pushed_new _)
    (coalesce_all_ok e snapshot None ltac:(done) (proj1 Hs))) as Hp.
  pose proof (prepend_accepted (clip_base snapshot) (snapshot_units snapshot) None media_new Ha) as Hacc.
  destruct (prepend _ _ _ _) as [[ok lw] m0]. simpl in Hacc. subst ok. destruct Hp as [_ Hu]. specialize (Hu eq_refl). simpl in Hu.
  destruct (coalesce_all_bytes snapshot None) as (stub & Eb & Hstub). simpl in Eb.
  unfold start_pump, pump_new. rewrite gated_recvs by (simpl; lia). rewrite app_nil_l. cbn [pump_step phase cursor dropped].
  set (c0 := set_last _ lw _).
  destruct (drain_bytes e (waiting ++ live) (tail_pts snapshot) c0 m0 Hr) as (c & m & Ed & Hb); [|done|done| |].
  - split; [|done]. intros q Hq. exists q. split; [done|lia].
  - destruct snapshot as [|k l]; [right; simpl; split_and!; [done..|by apply Hkey]|left]. simpl. rewrite bool_decide_false by (by apply Hun).
    split; [|done]. destruct Hs as [Hs _]. apply Forall_inv in Hs. by rewrite Hs.
  - rewrite drain_app in Ed. destruct (drain waiting c0 m0) as [[go c1] m1]. destruct go; [|done].
    exists (mkPump Streaming c 0), m, (snapshot_units snapshot ≫= data), stub. split_and!; [|done..|].
    + unfold continue at 1. rewrite streaming_recvs. unfold continue. by rewrite Ed.
    + cbn [cursor]. rewrite Hb. f_equal. unfold held_units. rewrite Hu. simpl. by rewrite app_nil_r.
Qed.
End muxer.

(** ** Examples *)

Definition all_taken (n : nat) : bool := true.
Definition IDR_AU : list Z := [0; 0; 0; 1; 0x65; 1].
Definition P_AU : list Z := [0; 0; 0; 1; 0x41; 1].
Definition SETS_AU : list Z := [0; 0; 0; 1; 0x67; 66; 0; 0; 0; 1; 0x68; 1].
Definition au (ms : Z) (key : bool) (bytes : list Z) : NalSample := mkSample (Some (millis ms)) (Some (millis ms)) key bytes 1.

(** A pre-roll of a split keyframe and a delta, one sample while the row is inserted, one after. *)
Definition demo_snapshot : list NalSample := [au 1000 true SETS_AU; au 1000 true IDR_AU; au 1040 false P_AU].

Lemma clip_can_be_muxed_witness :
  exists p m, record_clip all_taken H264 demo_snapshot [Recv (au 1080 false P_AU)] [Recv (au 1120 false P_AU); Stop] = Some (p, m) /\
    (fun x => w_pts x.2) <$> m_pushed m = [0; millis 40; millis 80; millis 120] /\
    StronglySorted Z.le ((fun x => w_pts x.2) <$> m_pushed m).
Proof.
  eexists _, _. split; [vm_compute; reflexivity|]. split; [vm_compute; reflexivity|].
  eapply (clip_can_be_muxed all_taken H264 1 demo_snapshot [Recv (au 1080 false P_AU)] [Recv (au 1120 false P_AU); Stop]).
  - split; [by repeat constructor|by intros k [= <-]].
  - by repeat constructor.
  - vm_compute. reflexivity.
Defined.

Lemma clip_has_every_byte_witness :
  exists p m units stub, record_clip all_taken H264 demo_snapshot [Recv (au 1080 false P_AU)] [Recv (au 1120 false P_AU)] = Some (p, m) /\
    phase p = Streaming /\ dropped p = 0 /\
    demo_snapshot ≫= data = units ++ stub /\ (stub = [] \/ contains_slice_nal stub H264 = false) /\
    held_units (cursor p) m ≫= data = units ++ (P_AU ++ P_AU).
Proof.
  apply (clip_has_every_byte all_taken H264 1 demo_snapshot [au 1080 false P_AU] [au 1120 false P_AU]).
  - split; [by repeat constructor|by intros k [= <-]].
  - done.
  - intros _. by vm_compute.
  - done.
  - simpl. unfold PUMP_GATE_BACKLOG_MAX. lia.
  - by repeat constructor.
  - by vm_compute.
Defined.

(** What a pump made of a run, by the milliseconds of its buffers' stamps. *)
Definition stamps (r : option (Pump * Media)) : option (list Z * Z) :=
  (fun '(p, m) => ((fun x => w_pts x.2 / millis 1) <$> m_pushed m, dropped p)) <$> r.

(** A sample that steps back within an epoch is left out, and not counted as dropped. *)
Example late_sample_is_not_counted :
  stamps (record_clip all_taken H264 demo_snapshot []
    [Recv (au 1120 false P_AU); Recv (au 1160 false P_AU); Recv (au 1080 false P_AU); Recv (au 1200 false P_AU); Stop]) =
  Some ([0; 40; 120; 160; 200], 0).
Proof. vm_compute. reflexivity. Qed.

(** The headers of a keyframe are the last of the pre-roll, its slice comes live with the same
    stamp: the one is dropped as header-only and the other as seen before. *)
Example keyframe_across_the_boundary_is_lost :
  stamps (record_clip all_taken H264 (demo_snapshot ++ [au 1080 true SETS_AU]) []
    [Recv (au 1080 true IDR_AU); Recv (au 1120 false P_AU); Stop]) = Some ([0; 40; 120], 0).
Proof. vm_compute. reflexivity. Qed.

(** With no pre-roll, headers whose slice does not come in time leave the clip to start on a delta. *)
Example clip_can_start_on_a_delta :
  (fun '(_, m) => (fun x => is_keyframe x.1) <$> m_pushed m) <$>
    record_clip all_taken H264 [] [] [Recv (au 1000 true SETS_AU); Quiet; Recv (au 1320 false P_AU); Stop] = Some [false].
Proof. vm_compute. reflexivity. Qed.
