(* ===== verification/Recorder.v ===== *)
(** The clips of the GStreamer recorder ([nexus-pipeline/src/gst_clip_recorder.rs], with the paths and
    the choice of disk of [recorder.rs]): opening a clip, its life, closing it, the drain at shutdown,
    over the clip table, the health registry and the files.

    Opening is two steps, since the row is inserted while other clips go on: what the code does up to
    the insertion ([open_start]) and the rest ([open_finish]). A clip's media and its pump are those of
    [LivePump]. What GStreamer, the disk, the hash and the database answer is an argument; [day] is the date format
    of chrono. Logging is left out. *)
From stdpp Require Import pretty.
From S2P Require Import Prelude Text Types Preroll RecordingHealth ClipStore Ingesters LivePump.

Definition MIN_CLIP_DURATION_MS : Z := 3000.
Definition MIN_PLAYABLE_CLIP_BYTES : Z := 1024.
Definition CONTAINER : string := "mp4".

(** ** The layout of a clip's file *)

(** [u32::from_be_bytes] and the four letters at an offset; [None] past the end of the head. *)
Definition box_at (head : list Z) (off : Z) : option (Z * list Z) :=
  match take 8 (drop (Z.to_nat off) head) with
  | [a; b; c; d; k1; k2; k3; k4] => Some (((a * 256 + b) * 256 + c) * 256 + d, [k1; k2; k3; k4])
  | _ => None
  end.

Definition is_kind (kind : string) (l : list Z) : bool := bool_decide (l = code <$> chars kind).

Definition clip_layout_fault (head : list Z) : option string :=
  match box_at head 0 with
  | Some (ftyp, kind) =>
      if is_kind "ftyp" kind && (8 <=? ftyp) then
        match box_at head ftyp with
        | Some (moov, kind) =>
            if is_kind "moov" kind && (8 <=? moov) then
              match box_at head (ftyp + moov) with
              | Some (_, kind) => if is_kind "moof" kind then None else Some "box after moov is not moof"%string
              | None => Some "nothing readable after moov"%string
              end
            else Some "box after ftyp is not moov"%string
        | None => Some "box after ftyp is not moov"%string
        end
      else Some "first box is not ftyp"%string
  | None => Some "first box is not ftyp"%string
  end.

Definition empty_clip_reason (file_bytes : Z) : option string :=
  if file_bytes <? MIN_PLAYABLE_CLIP_BYTES then Some "clip file under 1 KiB"%string else None.

(** ** State *)

(** A clip that is open. [accepts] says what its muxer takes. *)
Record OpenState := mkOpen {
  o_health : RecordingAttempt;
  o_camera : Z;
  o_started : Z;
  o_path : string;
  o_dir : string;
  o_handle : string;
  o_codec : CodecKind;
  o_accepts : nat -> bool;
  o_pump : Pump;
  o_media : Media;
  o_preroll_last : option Z;
}.

Definition set_pump (pm : Pump * Media) (o : OpenState) : OpenState :=
  mkOpen (o_health o) (o_camera o) (o_started o) (o_path o) (o_dir o) (o_handle o) (o_codec o) (o_accepts o) pm.1 pm.2 (o_preroll_last o).

Record OpenClip := mkOpenClip { oc_camera : Z; oc_started : Z; oc_width : Z; oc_height : Z }.

(** A clip whose row is being inserted. *)
Record Opening := mkOpening { g_args : OpenClip; g_state : OpenState; g_tail : option Z }.

(** [CLIP_CLOSED], as published. *)
Record ClosedEvent := mkClosed { ev_clip : Z; ev_camera : Z; ev_handle : string; ev_path : string; ev_size : Z; ev_sha : option string }.

Record Recorder := mkRecorder {
  r_db : Db;
  r_health : Registry;
  r_panic : bool;
  r_files : gset string;
  r_opening : gmap nat Opening;
  r_open : gmap Z OpenState;
  r_published : list ClosedEvent;
}.

Definition with_db (x : Db) (r : Recorder) : Recorder := mkRecorder x (r_health r) (r_panic r) (r_files r) (r_opening r) (r_open r) (r_published r).
Definition with_health (x : Registry) (r : Recorder) : Recorder := mkRecorder (r_db r) x (r_panic r) (r_files r) (r_opening r) (r_open r) (r_published r).
Definition with_panic (x : bool) (r : Recorder) : Recorder := mkRecorder (r_db r) (r_health r) x (r_files r) (r_opening r) (r_open r) (r_published r).
Definition with_files (x : gset string) (r : Recorder) : Recorder := mkRecorder (r_db r) (r_health r) (r_panic r) x (r_opening r) (r_open r) (r_published r).
Definition with_opening (x : gmap nat Opening) (r : Recorder) : Recorder := mkRecorder (r_db r) (r_health r) (r_panic r) (r_files r) x (r_open r) (r_published r).
Definition with_open (x : gmap Z OpenState) (r : Recorder) : Recorder := mkRecorder (r_db r) (r_health r) (r_panic r) (r_files r) (r_opening r) x (r_published r).
Definition publish (e : ClosedEvent) (r : Recorder) : Recorder := mkRecorder (r_db r) (r_health r) (r_panic r) (r_files r) (r_opening r) (r_open r) (r_published r ++ [e]).

(** What opening meets: the camera's ingester (its codec and a snapshot of its ring), the label the
    operator prefers with where it is mounted, and what fails. *)
Record OpenEnv := mkOpenEnv {
  oe_ingester : option (CodecKind * list NalSample);
  oe_label : option string;
  oe_mount : option (string -> option string);
  oe_mkdir : bool;
  oe_pipeline : bool;
  oe_playing : bool;
  oe_joined : bool;
  oe_accepts : nat -> bool;
}.

Inductive Join := Joined | Panicked | TimedOut.

(** The calls of a close to the store. *)
Inductive CloseCall := CallDiscard | CallDegraded | CallQuarantine | CallClose.

(** What closing meets: how the pump ends, whether the muxer drains, the file's size before and after
    it is renamed ([None] when it cannot be read), its head, its hash, what fails, and which of the
    calls to the store reach the database. *)
Record CloseEnv := mkCloseEnv {
  ce_join : Join;
  ce_drained : bool;
  ce_bytes : option Z;
  ce_unlink : bool;
  ce_head : option (list Z);
  ce_rename : bool;
  ce_size : option Z;
  ce_hash : option string;
  ce_now : Z;
  ce_up : CloseCall -> bool;
}.

(** A call that reaches the database, or comes back with its error. *)
Definition reaches {A} (up : bool) (stmt : DbM A) : DbM A := if up then stmt else throw Sqlx.

Record ClipMeta := mkMeta {
  cm_clip : Z;
  cm_camera : Z;
  cm_path : string;
  cm_duration : Z;
  cm_size : Z;
  cm_codec : string;
  cm_container : string;
  cm_discarded : bool;
}.

Section recorder.
Variable day : Z -> string.
Variable clips_dir : string.

(** ** Paths *)

Definition join (a b : string) : string := a +:+ "/" +:+ b.

(** [timestamp_millis] *)
Definition unix_ms (t : Z) : Z := t / ns_per_ms.

Definition inflight_clip_path (dir : string) (camera started : Z) : string :=
  join (join (join dir (pretty camera)) (day started)) (pretty (unix_ms started) +:+ ".partial.mp4").

Definition final_clip_path (dir : string) (camera started duration : Z) : string :=
  join (join (join dir (pretty camera)) (day started)) (pretty (unix_ms started) +:+ "_" +:+ pretty duration +:+ ".mp4").

Definition clip_rel_path (abs : string) : string := default abs (strip_prefix (clips_dir +:+ "/") abs).

(** The directory of a new clip and the handle of its disk. *)
Definition effective_clips_dir (label : option string) (resolver : option (string -> option string)) : string * string :=
  match label, resolver with
  | Some label, Some lookup =>
      match lookup label with
      | Some rel => (join clips_dir rel, "usb-" +:+ label)
      | None => (clips_dir, "local"%string)
      end
  | _, _ => (clips_dir, "local"%string)
  end.

(** ** Opening *)

(** A guard that is dropped on an early return. *)
Definition gives_up (g : RecordingFailureGuard) (r : Recorder) : Recorder := with_health (drop_guard (r_health r) g) r.

Definition OPEN_GUARD : string := "recording could not be opened".

(** Everything before the row: [Ok] when the pre-roll is in and the row is to be inserted. *)
Definition open_start (task : nat) (args : OpenClip) (env : OpenEnv) (r : Recorder) : result unit RecorderError * Recorder :=
  let '(h, health) := begin (r_health r) (oc_camera args) Motion in
  let failure := guard health OPEN_GUARD in
  let r := with_health h r in
  if r_panic r then (Err Refused, gives_up failure r)
  else
    match oe_ingester env with
    | None => (Err Refused, gives_up failure r)
    | Some (codec, snapshot) =>
        let '(dir, handle) := effective_clips_dir (oe_label env) (oe_mount env) in
        let path := inflight_clip_path dir (oc_camera args) (oc_started args) in
        if negb (oe_mkdir env) then (Err (RIo "create_dir_all"), gives_up failure r)
        else if negb (oe_pipeline env) then (Err (RIo "parse::launch"), gives_up failure r)
        else
          let r := with_files ({[ path ]} ∪ r_files r) r in
          let removed := with_files (r_files r ∖ {[ path ]}) r in
          if negb (oe_playing env) then (Err (RIo "set Playing"), gives_up failure removed)
          else
            let '(ok, lw, m) := prepend (oe_accepts env) (clip_base snapshot) (snapshot_units codec snapshot) None media_new in
            if negb (oe_joined env) then (Err (RIo "preroll spawn_blocking"), gives_up failure removed)
            else if negb ok then (Err (RIo "push pre-roll sample"), gives_up failure removed)
            else
              let st := mkOpen health (oc_camera args) (oc_started args) path dir handle codec (oe_accepts env)
                          (start_pump codec snapshot) m lw in
              (Ok tt, with_opening (<[task := mkOpening args st (tail_pts snapshot)]> (r_opening r)) r)
    end.

Definition new_clip (g : Opening) : NewClip :=
  let st := g_state g in
  mkNewClip (oc_camera (g_args g)) (oc_started (g_args g)) (clip_rel_path (o_path st)) (o_handle st) (codec_base (o_codec st)) CONTAINER
    (oc_width (g_args g)) (oc_height (g_args g)).

(** The row, and the gate of the pump. [db_up]: the statement reaches the database. *)
Definition open_finish (task : nat) (db_up : bool) (r : Recorder) : option (result Z RecorderError) * Recorder :=
  match r_opening r !! task with
  | None => (None, r)
  | Some g =>
      let st := g_state g in
      let r := with_opening (delete task (r_opening r)) r in
      let failure := guard (o_health st) OPEN_GUARD in
      match (if db_up then open_clip (new_clip g) (r_db r) else (Err Sqlx, r_db r)) with
      | (Err e, _) => (Some (Err (RStore e)), gives_up failure (with_files (r_files r ∖ {[ o_path st ]}) r))
      | (Ok k, d) =>
          let st := set_pump (pump_step (o_accepts st) (o_codec st) (OpenGate (g_tail g) (o_preroll_last st)) (o_pump st, o_media st)) st in
          let r := with_open (<[k := st]> (r_open r)) (with_db d r) in
          (Some (Ok k), with_health (complete (r_health r) failure) r)
      end
  end.

(** ** The life of a clip *)

(** Something happens to the pump of a clip, or to that of one being opened. *)
Definition pump_event (k : Z) (o : PumpOp) (r : Recorder) : Recorder :=
  match r_open r !! k with
  | Some st => with_open (<[k := set_pump (pump_step (o_accepts st) (o_codec st) o (o_pump st, o_media st)) st]> (r_open r)) r
  | None => r
  end.

Definition opening_event (task : nat) (o : PumpOp) (r : Recorder) : Recorder :=
  match r_opening r !! task with
  | Some g =>
      let st := g_state g in
      let st := set_pump (pump_step (o_accepts st) (o_codec st) o (o_pump st, o_media st)) st in
      with_opening (<[task := mkOpening (g_args g) st (g_tail g)]> (r_opening r)) r
  | None => r
  end.

Definition ended_on_epoch_change (k : Z) (r : Recorder) : bool :=
  match r_open r !! k with Some st => epoch_ended (cursor (o_pump st)) | None => false end.

(** ** Closing *)

Definition CLOSE_GUARD : string := "recording could not be finalized".

(** What the pump reports: nothing when it was not heard of. *)
Definition pump_stats (j : Join) (p : Pump) : PumpStats :=
  match j, phase p with Joined, Finished s => s | _, _ => mkPumpStats 0 None end.

(** A failure that is reported when [b]. *)
Definition fail_if (b : bool) (a : RecordingAttempt) (why : string) (h : Registry) : Registry := if b then fail h a why else h.

(** The failures up to the drain of the muxer. *)
Definition ending_health (env : CloseEnv) (a : RecordingAttempt) (h : Registry) : Registry :=
  let h := match ce_join env with
           | Joined => h
           | Panicked => fail h a "recording writer failed during close"
           | TimedOut => fail h a "recording writer did not stop before the close timeout"
           end in
  fail_if (negb (ce_drained env)) a "recording muxer did not finalize cleanly" h.

(** The length of the clip, by its media or by the wall clock. *)
Definition clip_duration (s : PumpStats) (st : OpenState) (ended : Z) : Z :=
  let wall := Z.max 0 (Z.quot (ended - o_started st) ns_per_ms) in
  let media := media_duration_ms (match st_last_written s with Some w => Some w | None => o_preroll_last st end) in
  if 0 <? media then media else wall.

(** A clip without media, or too short, leaves no file and no row. *)
Definition discard (k : Z) (st : OpenState) (env : CloseEnv) (duration : Z) (r : Recorder) : result ClipMeta RecorderError * Recorder :=
  let failure := guard (o_health st) CLOSE_GUARD in
  let r := if ce_unlink env then with_files (r_files r ∖ {[ o_path st ]}) r else r in
  match reaches (ce_up env CallDiscard) (discard_clip_metadata k) (r_db r) with
  | (Err e, d) => (Err (RStore e), gives_up failure (with_db d r))
  | (Ok _, d) =>
      let r := with_db d r in
      (Ok (mkMeta k (o_camera st) (o_path st) duration 0 (codec_base (o_codec st)) CONTAINER true), with_health (complete (r_health r) failure) r)
  end.

(** The row is stamped, and marked first where the recording has holes or a damaged layout. *)
Definition stamp_row (k : Z) (env : CloseEnv) (missed : Z) (fault : option string) (x : ClipClose) : DbM unit :=
  (if (0 <? missed) || is_some fault then ignore_err (reaches (ce_up env CallDegraded) (mark_clip_degraded k missed)) else mret tt) ;;
  match fault with
  | Some why => ignore_err (reaches (ce_up env CallQuarantine) (quarantine_clip k (ce_now env) ("clip layout: " +:+ why)))
  | None => mret tt
  end ;;
  reaches (ce_up env CallClose) (close_clip k x).

Definition keep (k : Z) (st : OpenState) (env : CloseEnv) (ended duration missed : Z) (r : Recorder) : result ClipMeta RecorderError * Recorder :=
  let a := o_health st in
  let failure := guard a CLOSE_GUARD in
  let fault := ce_head env ≫= clip_layout_fault in
  let final := final_clip_path (o_dir st) (o_camera st) (o_started st) duration in
  let r := if ce_rename env && bool_decide (o_path st ∈ r_files r) then with_files ({[ final ]} ∪ r_files r ∖ {[ o_path st ]}) r else r in
  let used := if bool_decide (final ∈ r_files r) then final else o_path st in
  let rel := clip_rel_path used in
  let size := default 0 (ce_size env) in
  let holes := (0 <? missed) || is_some fault in
  let r := with_health (fail_if holes a "recording has missing samples or a damaged media layout" (r_health r)) r in
  match stamp_row k env missed fault (mkClose ended duration size (Some rel) (ce_hash env)) (r_db r) with
  | (Err e, d) => (Err (RStore e), gives_up failure (with_db d r))
  | (Ok _, d) =>
      let r := publish (mkClosed k (o_camera st) (o_handle st) rel size (ce_hash env)) (with_db d r) in
      let h := r_health r in
      let h := if negb (is_some (ce_hash env)) || negb (is_some (ce_head env)) || (size <? MIN_PLAYABLE_CLIP_BYTES)
               then fail h a "finalized recording could not be verified"
               else if negb holes then succeed h a else h in
      (Ok (mkMeta k (o_camera st) used duration size (codec_base (o_codec st)) CONTAINER false), with_health (complete h failure) r)
  end.

(** The clip once its pump is told to stop. *)
Definition stopped (st : OpenState) : OpenState :=
  set_pump (pump_step (o_accepts st) (o_codec st) Stop (o_pump st, o_media st)) st.

Definition close (k ended : Z) (env : CloseEnv) (r : Recorder) : result ClipMeta RecorderError * Recorder :=
  match r_open r !! k with
  | None => (Err (UnknownClip k), r)
  | Some st =>
      let r := with_open (delete k (r_open r)) r in
      let st := stopped st in
      let stats := pump_stats (ce_join env) (o_pump st) in
      let duration := clip_duration stats st ended in
      let empty := is_some (empty_clip_reason (default 0 (ce_bytes env))) in
      let too_short := (duration <? MIN_CLIP_DURATION_MS) && negb (epoch_ended (cursor (o_pump st))) in
      let h := fail_if empty (o_health st) "recording contained no playable media" (ending_health env (o_health st) (r_health r)) in
      let r := with_health h r in
      if empty || too_short then discard k st env duration r else keep k st env ended duration (st_dropped stats) r
  end.

(** Every clip that is open when it is called, one after the other, in the order of the map's walk. *)
Definition shutdown (ended : Z) (env : Z -> CloseEnv) (walk : list Z) (r : Recorder) : Recorder :=
  foldl (fun r k => (close k ended (env k) r).2) r walk.

(** ** The recorder as a machine *)

Inductive RecorderOp :=
| OpenStart (task : nat) (args : OpenClip) (env : OpenEnv)
| OpenFinish (task : nat) (db_up : bool)
| OpeningEvent (task : nat) (o : PumpOp)
| PumpEvent (k : Z) (o : PumpOp)
| Close (k ended : Z) (env : CloseEnv)
| SetPanic (b : bool)
| CameraRemoved (camera : Z)
| StoreWrite (o : ClipOp).

Inductive RecorderOut := Answered (a : result Z RecorderError) | ClosedAs (a : result ClipMeta RecorderError) | Silent.

Definition recorder_step (o : RecorderOp) (r : Recorder) : Recorder * RecorderOut :=
  match o with
  | OpenStart task args env =>
      match r_opening r !! task with
      | Some _ => (r, Silent)
      | None => match open_start task args env r with (Ok _, r') => (r', Silent) | (Err e, r') => (r', Answered (Err e)) end
      end
  | OpenFinish task db_up => match open_finish task db_up r with (Some a, r') => (r', Answered a) | (None, r') => (r', Silent) end
  | OpeningEvent task o => match o with OpenGate _ _ => (r, Silent) | _ => (opening_event task o r, Silent) end
  | PumpEvent k o => (pump_event k o r, Silent)
  | Close k ended env => let '(a, r') := close k ended env r in (r', ClosedAs a)
  | SetPanic b => (with_panic b r, Silent)
  | CameraRemoved c => (with_health (remove (r_health r) c) r, Silent)
  | StoreWrite o => (with_db (clip_op o (r_db r)) r, Silent)
  end.

#[export] Instance recorder_machine : Machine RecorderOp Recorder RecorderOut := recorder_step.
End recorder.

(** ** The row of a closed clip *)

(** The statements of the close, on a row that is there. *)
Lemma update_clip_row k p f d row : clips d !! k = Some row -> p row = true -> clip_ok d (f row) = true ->
  update_clip k p f d = (Ok 1, set_clips (<[k := f row]> (clips d)) d).
Proof. intros Hk Hp Ho. unfold update_clip. by rewrite Hk, Hp, Ho. Qed.

Lemma clip_ok_set d cs r : clip_ok (set_clips cs d) r = clip_ok d r.
Proof. done. Qed.

(** What is written before the row is closed. *)
Definition marked (env : CloseEnv) (missed : Z) (fault : option string) (row : ClipRow) : ClipRow :=
  let row := if ((0 <? missed) || is_some fault) && ce_up env CallDegraded then with_degraded (Some missed) row else row in
  match fault with
  | Some why =>
      if ce_up env CallQuarantine then
        with_retry (mkRetry (cold_attempts (retry row)) (Some (ce_now env)) (cold_next_attempt_at (retry row)) true
                      (Some ("clip layout: " +:+ why))) row
      else row
  | None => row
  end.

Ltac split_marks := unfold marked; repeat (case_match; simpl); simplify_eq.

Lemma marked_ok d env missed fault row : clip_ok d (marked env missed fault row) = clip_ok d row.
Proof. by split_marks. Qed.

Lemma marked_fields env missed fault row :
  finish (marked env missed fault row) = finish row /\ hot (marked env missed fault row) = hot row /\
  (0 < missed -> ce_up env CallDegraded = true -> degraded (marked env missed fault row) = Some missed) /\
  (is_some fault = true -> ce_up env CallQuarantine = true -> cold_quarantined (retry (marked env missed fault row)) = true).
Proof.
  split_and!; [by split_marks..| |by split_marks].
  intros Hm Hu. unfold marked. assert (0 <? missed = true) as -> by lia. rewrite Hu. simpl. by split_marks.
Qed.

Lemma closed_ok d x row : clip_ok d row = true -> is_some (x_hot_path x) = true -> clip_ok d (closed x row) = true.
Proof.
  unfold clip_ok, clip_check, clip_references, closed. simpl. destruct (x_hot_path x) as [p|]; [|done]. intros H _. revert H.
  destruct (is_some (hot_handle (hot row))), (is_some (hot_path (hot row))); simpl; try done; by rewrite ?andb_false_r.
Qed.

(** The statements of [stamp_row], one by one, on a row the schema takes. *)
Lemma mark_eq up k f d row : clips d !! k = Some row -> clip_ok d row = true -> (forall r, clip_ok d (f r) = clip_ok d r) ->
  (ignore_err (reaches up (update_clip k any f)) d).2 = set_clips (<[k := if up : bool then f row else row]> (clips d)) d.
Proof.
  intros Hk Ho Hf. unfold ignore_err, reaches. destruct up; simpl.
  - rewrite (update_clip_row k any f d row); [done..|by rewrite Hf].
  - destruct d. unfold set_clips. simpl in *. by rewrite insert_id.
Qed.

Lemma stamp_row_eq k env missed fault x d row :
  clips d !! k = Some row -> clip_ok d row = true -> is_some (x_hot_path x) = true ->
  let row' := marked env missed fault row in
  stamp_row k env missed fault x d =
    if ce_up env CallClose then (Ok tt, set_clips (<[k := closed x row']> (clips d)) d) else (Err Sqlx, set_clips (<[k := row']> (clips d)) d).
Proof.
  intros Hk Ho Hx row'. unfold stamp_row, mbind, se_bind.
  set (holes := (0 <? missed) || is_some fault). set (row1 := if holes && ce_up env CallDegraded then with_degraded (Some missed) row else row).
  assert ((if holes then ignore_err (reaches (ce_up env CallDegraded) (mark_clip_degraded k missed)) else mret tt) d =
    (Ok tt, set_clips (<[k := row1]> (clips d)) d)) as ->.
  { subst row1. destruct holes; simpl.
    - unfold ignore_err. f_equal. rewrite <- (mark_eq _ k (with_degraded (Some missed)) d row) by done. unfold ignore_err, reaches.
      destruct (ce_up env CallDegraded); [|done]. unfold mark_clip_degraded, mbind, se_bind. by destruct (update_clip _ _ _ _) as [[]].
    - destruct d. unfold set_clips. simpl in *. by rewrite insert_id. }
  set (d1 := set_clips (<[k := row1]> (clips d)) d).
  assert (clip_ok d row1 = true) as Ho1 by (subst row1; by destruct (holes && _)).
  assert (match fault with
          | Some why => ignore_err (reaches (ce_up env CallQuarantine) (quarantine_clip k (ce_now env) ("clip layout: " +:+ why)))
          | None => mret tt
          end d1 = (Ok tt, set_clips (<[k := row']> (clips d)) d)) as ->.
  { assert (clips d1 !! k = Some row1) as Hk1 by (simpl; by rewrite lookup_insert_eq).
    subst row'. unfold marked. fold holes. fold row1. destruct fault as [why|]; [|done]. unfold ignore_err. f_equal.
    set (f := fun r => with_retry (mkRetry (cold_attempts (retry r)) (Some (ce_now env)) (cold_next_attempt_at (retry r)) true (Some ("clip layout: " +:+ why))) r).
    change (with_retry _ row1) with (f row1).
    transitivity (set_clips (<[k := if ce_up env CallQuarantine then f row1 else row1]> (clips d1)) d1); [|simpl; by rewrite insert_insert_eq].
    rewrite <- (mark_eq _ k f d1 row1) by done. unfold ignore_err, reaches. destruct (ce_up env CallQuarantine); [|done].
    unfold quarantine_clip. by rewrite found_state. }
  unfold reaches. destruct (ce_up env CallClose); [|done].
  unfold close_clip, found, mbind, se_bind. rewrite (update_clip_row k any (closed x) _ row'); [simpl; by rewrite insert_insert_eq|simpl; by rewrite lookup_insert_eq|done|].
  rewrite clip_ok_set. apply closed_ok; [unfold row'; by rewrite marked_ok|done].
Qed.

Section closing.
Context (day : Z -> string) (clips_dir : string).

(** What the recorder is told was not recorded. *)
Definition missed_by (env : CloseEnv) (st : OpenState) : Z := st_dropped (pump_stats (ce_join env) (o_pump (stopped st))).

(** What counts as an empty clip, and as one that is too short to keep. *)
Definition no_footage (env : CloseEnv) (st : OpenState) (duration : Z) : bool :=
  (default 0 (ce_bytes env) <? MIN_PLAYABLE_CLIP_BYTES) ||
  ((duration <? MIN_CLIP_DURATION_MS) && negb (epoch_ended (cursor (o_pump (stopped st))))).

(** The row as it is stamped at the end of [keep]. *)
Definition stamped (env : CloseEnv) (st : OpenState) (ended : Z) (meta : ClipMeta) (row : ClipRow) : ClipRow :=
  closed (mkClose ended (cm_duration meta) (cm_size meta) (Some (clip_rel_path clips_dir (cm_path meta))) (ce_hash env))
    (marked env (missed_by env st) (ce_head env ≫= clip_layout_fault) row).

(** What a close does, by its answer: the row discarded, stamped, or, where the database did not
    take the last statement, as it was with the marks that were taken. *)
Lemma close_cases k ended env r st row :
  tables_ok (r_db r) -> r_open r !! k = Some st -> clips (r_db r) !! k = Some row ->
  let '(ans, r') := close day clips_dir k ended env r in
  r_open r' = delete k (r_open r) /\ r_opening r' = r_opening r /\
  match ans with
  | Ok meta => cm_clip meta = k /\ no_footage env st (cm_duration meta) = cm_discarded meta /\
      if cm_discarded meta then ce_up env CallDiscard = true /\ r_db r' = (discard_clip_metadata k (r_db r)).2 /\
        r_files r' = (if ce_unlink env then r_files r ∖ {[ o_path st ]} else r_files r)
      else ce_up env CallClose = true /\ (o_path st ∈ r_files r -> cm_path meta ∈ r_files r') /\
        r_db r' = set_clips (<[k := stamped env st ended meta row]> (clips (r_db r))) (r_db r)
  | Err e => e = RStore Sqlx /\
      if no_footage env st (clip_duration (pump_stats (ce_join env) (o_pump (stopped st))) st ended)
      then ce_up env CallDiscard = false /\ r_db r' = r_db r
      else ce_up env CallClose = false /\
        r_db r' = set_clips (<[k := marked env (missed_by env st) (ce_head env ≫= clip_layout_fault) row]> (clips (r_db r))) (r_db r)
  end.
Proof.
  intros Hd Hst Hrow. unfold close. rewrite Hst. fold (missed_by env st).
  set (st' := stopped st). change (clip_duration _ st' ended) with (clip_duration (pump_stats (ce_join env) (o_pump st')) st ended).
  set (duration := clip_duration _ st ended). set (h := fail_if (is_some _) _ _ _).
  assert (is_some (empty_clip_reason (default 0 (ce_bytes env))) || ((duration <? MIN_CLIP_DURATION_MS) && negb (epoch_ended (cursor (o_pump st')))) =
    no_footage env st duration) as -> by (unfold no_footage, empty_clip_reason; by destruct (_ <? MIN_PLAYABLE_CLIP_BYTES)).
  destruct (ok_clips _ Hd k row Hrow) as (_ & _ & Hok).
  destruct (no_footage env st duration) eqn:E.
  - unfold discard, reaches. destruct (ce_unlink env), (ce_up env CallDiscard) eqn:Eu; unfold discard_clip_metadata;
      simpl; rewrite ?Hrow; simpl; rewrite ?E; by split_and!.
  - unfold keep. cbn [r_db with_health with_files with_open r_files r_health].
    set (fault := ce_head env ≫= clip_layout_fault). set (final := final_clip_path _ _ _ _ _).
    set (r1 := if ce_rename env && _ then _ else _).
    assert (r_db r1 = r_db r /\ r_open r1 = delete k (r_open r) /\ r_opening r1 = r_opening r) as (E1 & E2 & E3)
      by (subst r1; by destruct (ce_rename env && bool_decide (o_path st' ∈ r_files r))).
    set (used := if bool_decide (final ∈ r_files r1) then final else o_path st'). rewrite E1.
    assert (o_path st ∈ r_files r -> used ∈ r_files r1) as Hused.
    { intros Hp. subst used. case_bool_decide as Hf; [done|]. subst r1. change (o_path st') with (o_path st) in *.
      destruct (ce_rename env && _); simpl in *; [|done]. exfalso. apply Hf. set_solver. }
    rewrite (stamp_row_eq k env (missed_by env st) fault (mkClose ended duration (default 0 (ce_size env)) (Some (clip_rel_path clips_dir used)) (ce_hash env))
      (r_db r) row Hrow Hok eq_refl).
    destruct (ce_up env CallClose) eqn:Eu; cbn [r_db r_open r_opening with_health with_db publish r_health gives_up cm_clip cm_duration cm_discarded r_files];
      rewrite ?E; by split_and!.
Qed.

(** C19. What becomes of the row of a clip that is closed, for every answer of the close. Discarded:
    the file was under 1 KiB, or the clip under three seconds while its stream went on; the row is
    gone, every alert and delivery stays without it, and so is the file unless it could not be
    unlinked. Kept: neither was the case; the row is stamped with the end, the length, the size, the
    hash and the path of the file that is there, marked when samples are missing and held back from
    the cloud when the file's layout is damaged (where those two marks reached the database). An
    error: the database did not take the last statement, and the row stays, without an end. *)
Theorem closed_clip_row k ended env r st row :
  tables_ok (r_db r) -> r_open r !! k = Some st -> clips (r_db r) !! k = Some row ->
  let '(ans, r') := close day clips_dir k ended env r in
  r_open r' = delete k (r_open r) /\ box (r_db r') = box (r_db r) /\
  match ans with
  | Ok meta => cm_clip meta = k /\ no_footage env st (cm_duration meta) = cm_discarded meta /\
    if cm_discarded meta then
      clips (r_db r') = delete k (clips (r_db r)) /\ links (r_db r') = unlink_clip k <$> links (r_db r) /\
      r_files r' = (if ce_unlink env then r_files r ∖ {[ o_path st ]} else r_files r)
    else exists row', clips (r_db r') = <[k := row']> (clips (r_db r)) /\ links (r_db r') = links (r_db r) /\
      finish row' = mkFinish (Some ended) (cm_duration meta) (cm_size meta)
                      (match ce_hash env with Some h => Some h | None => sha256 (finish row) end) /\
      hot_path (hot row') = Some (clip_rel_path clips_dir (cm_path meta)) /\
      (o_path st ∈ r_files r -> cm_path meta ∈ r_files r') /\
      (0 < missed_by env st -> ce_up env CallDegraded = true -> degraded row' = Some (missed_by env st)) /\
      (forall head why, ce_head env = Some head -> clip_layout_fault head = Some why -> ce_up env CallQuarantine = true ->
        pending_cold row' = false)
  | Err e => e = RStore Sqlx /\ links (r_db r') = links (r_db r) /\
      (ce_up env CallDiscard = false \/ ce_up env CallClose = false) /\
      exists row', clips (r_db r') = <[k := row']> (clips (r_db r)) /\ finish row' = finish row /\ hot row' = hot row
  end.
Proof.
  intros Hd Hst Hrow. pose proof (close_cases k ended env r st row Hd Hst Hrow) as H.
  destruct (marked_fields env (missed_by env st) (ce_head env ≫= clip_layout_fault) row) as (Hf & Hh & Hdeg & Hq).
  destruct (close day clips_dir k ended env r) as [[meta|e] r']; destruct H as (Ho & _ & H); (split; [done|]).
  - destruct H as (Hm & Hn & H). destruct (cm_discarded meta).
    + destruct H as (_ & -> & Hfiles). unfold discard_clip_metadata. rewrite Hrow. by split_and!.
    + destruct H as (_ & Hfiles & ->). split_and!; [done..|]. eexists. split_and!; [done|done| |done|done|exact Hdeg|].
      * unfold stamped, closed. simpl. f_equal. destruct (ce_hash env); [done|]. by rewrite Hf.
      * intros head why Hhead Hc Hu. unfold pending_cold, stamped, closed. simpl. rewrite Hq; [by rewrite !andb_false_r| |done].
        rewrite Hhead. simpl. by rewrite Hc.
  - destruct H as [-> H]. destruct (no_footage _ _ _); destruct H as [Hu ->]; (split_and!; [done..|by auto|]).
    + exists row. by rewrite insert_id.
    + eexists. by split_and!.
Qed.
End closing.

(** ** What the health registry says of a close *)

(** The camera's slot is past revision [v] with a failure, or is not past what allows one. *)
Definition watched (cam : Z) (l : Loc) (v : Z) (failed : Prop) (h : Registry) : Prop :=
  RecordingHealth.cameras h !! cam = Some l /\
  (fails_past l Motion v h \/ (~ failed /\ v <= slot_revision h l Motion < umax 64)).

Lemma watched_fail cam a why h P Q : kind a = Motion -> attempt_revision a < umax 64 ->
  watched cam (camera a) (attempt_revision a) P h -> watched cam (camera a) (attempt_revision a) Q (fail h a why).
Proof.
  intros Hk Hv [Hc Hf]. split; [done|]. left. destruct Hf as [Hf|[_ Hf]]; [by apply (fails_past_step _ _ _ (Fail a why))|].
  unfold fails_past. rewrite fail_slot. rewrite Hk. rewrite decide_True by done. simpl. split; [|done].
  unfold slot_revision in Hf. unfold usat_add. lia.
Qed.

Lemma watched_fail_if cam a why h b P : kind a = Motion -> attempt_revision a < umax 64 ->
  watched cam (camera a) (attempt_revision a) P h -> watched cam (camera a) (attempt_revision a) (P \/ b = true) (fail_if b a why h).
Proof.
  intros Hk Hv Hw. destruct b; [by eapply watched_fail|]. destruct Hw as [Hc [Hf|[Hn Hf]]]; split; [done|by left|done|right]. naive_solver.
Qed.

Lemma watched_succeed cam a h P : kind a = Motion -> attempt_revision a < umax 64 ->
  watched cam (camera a) (attempt_revision a) P h -> reported (succeed h a) cam Motion = None -> ~ P.
Proof.
  intros Hk Hv [Hc [Hf|[Hn _]]] Hr; [|done]. apply (fails_past_step _ _ _ (Succeed a)) in Hf as [_ [w Hw]]; [|done|by intros _ _].
  unfold reported in Hr. simpl in *. rewrite Hc in Hr. simpl in Hr. unfold entry_or_default in Hw.
  destruct (status_at (succeed h a) (camera a) !! Motion); simpl in *; [congruence|done].
Qed.

Lemma watched_silent cam l v h P : watched cam l v P h -> reported h cam Motion = None -> ~ P.
Proof.
  intros [Hc [[_ [w Hw]]|[Hn _]]] Hr; [|done]. unfold reported in Hr. rewrite Hc in Hr. simpl in Hr. unfold entry_or_default in Hw.
  destruct (status_at h l !! Motion); simpl in *; [congruence|done].
Qed.

Section health.
Context (day : Z -> string) (clips_dir : string).

(** The failures on the way to the end of a close. *)
Definition ended_badly (env : CloseEnv) : Prop := (ce_join env <> Joined \/ negb (ce_drained env) = true) \/ is_some (empty_clip_reason (default 0 (ce_bytes env))) = true.

Lemma well_ended env : ~ ended_badly env ->
  ce_join env = Joined /\ ce_drained env = true /\ MIN_PLAYABLE_CLIP_BYTES <= default 0 (ce_bytes env).
Proof.
  unfold ended_badly, empty_clip_reason. intros Hn.
  destruct (ce_join env), (ce_drained env), (Z.ltb_spec (default 0 (ce_bytes env)) MIN_PLAYABLE_CLIP_BYTES); simpl in Hn;
    split_and!; try done; exfalso; naive_solver.
Qed.

Lemma ending_watched cam env a h : kind a = Motion -> attempt_revision a < umax 64 ->
  watched cam (camera a) (attempt_revision a) False h ->
  watched cam (camera a) (attempt_revision a) (ended_badly env)
    (fail_if (is_some (empty_clip_reason (default 0 (ce_bytes env)))) a "recording contained no playable media" (ending_health env a h)).
Proof.
  intros Hk Hv Hw. unfold ended_badly. apply watched_fail_if; [done..|]. unfold ending_health. apply watched_fail_if; [done..|].
  destruct (ce_join env) eqn:E; [|by eapply watched_fail..]. destruct Hw as [Hc [Hf|[Hn Hf]]]; (split; [done|]); [by left|right; split; [tauto|done]].
Qed.

(** C20. A camera is reported healthy after a close only when the close found nothing wrong: it went
    through, the pump and the muxer ended in time, the file holds media, and, where the clip was
    kept, no sample was missed, the layout is sound, and the file could be read, hashed and has its
    size. A success that comes after a failure of the same close does not hide it. *)
Theorem healthy_only_when_verified k ended env r st :
  r_open r !! k = Some st -> kind (o_health st) = Motion -> RecordingHealth.cameras (r_health r) !! o_camera st = Some (camera (o_health st)) ->
  0 <= attempt_revision (o_health st) <= slot_revision (r_health r) (camera (o_health st)) Motion ->
  slot_revision (r_health r) (camera (o_health st)) Motion < umax 64 ->
  let '(ans, r') := close day clips_dir k ended env r in
  reported (r_health r') (o_camera st) Motion = None ->
  ce_join env = Joined /\ ce_drained env = true /\ MIN_PLAYABLE_CLIP_BYTES <= default 0 (ce_bytes env) /\
  exists meta, ans = Ok meta /\
    (cm_discarded meta = false -> missed_by env st <= 0 /\ is_Some (ce_hash env) /\ MIN_PLAYABLE_CLIP_BYTES <= cm_size meta /\
      exists head, ce_head env = Some head /\ clip_layout_fault head = None).
Proof.
  intros Hst Hk Hcam Hrev Hmax. unfold close. rewrite Hst. fold (missed_by env st).
  unfold discard, keep. change (o_health (stopped st)) with (o_health st). set (a := o_health st) in *.
  assert (attempt_revision a < umax 64) as Hv by lia.
  set (h := fail_if _ _ _ _).
  assert (watched (o_camera st) (camera a) (attempt_revision a) (ended_badly env) h) as Hw.
  { apply ending_watched; [done..|]. split; [done|]. right. split; [tauto|]. simpl. lia. }
  assert (forall why h' P, watched (o_camera st) (camera a) (attempt_revision a) P h' -> reported (fail h' a why) (o_camera st) Motion <> None) as Hbad.
  { intros why h' P Hh Hr. by apply (watched_silent _ _ _ _ True (watched_fail _ a why h' P True Hk Hv Hh)) in Hr. }
  destruct (is_some _ || _) eqn:Ee.
  - cbn [r_db with_health with_open]. set (r1 := if ce_unlink env then _ else _).
    assert (r_health r1 = h) as Eh by (subst r1; by destruct (ce_unlink env)).
    destruct (reaches _ _ (r_db r1)) as [[[]|e] d]; cbn [r_health with_health with_db gives_up complete drop_guard guard completed guard_attempt guard_reason].
    + rewrite Eh. intros Hr. destruct (well_ended env (watched_silent _ _ _ _ _ Hw Hr)) as (H1 & H2 & H3).
      split_and!; [done..|]. eexists. split; [done|]. by simpl.
    + intros Hr. exfalso. rewrite Eh in Hr. by apply (Hbad CLOSE_GUARD h _ Hw) in Hr.
  - cbn [r_db with_health with_open r_health r_files].
    set (fault := ce_head env ≫= clip_layout_fault). set (r1 := if ce_rename env && _ then _ else _).
    assert (r_health r1 = h) as Eh by (subst r1; by destruct (ce_rename env && bool_decide (o_path (stopped st) ∈ r_files r))).
    rewrite Eh. set (holes := (0 <? missed_by env st) || is_some fault). set (h1 := fail_if holes _ _ h).
    assert (watched (o_camera st) (camera a) (attempt_revision a) (ended_badly env \/ holes = true) h1) as Hw1 by (by apply watched_fail_if).
    destruct (stamp_row _ _ _ _ _ _) as [[[]|e] d]; cbn [r_health with_health with_db gives_up complete drop_guard guard completed guard_attempt guard_reason publish].
    + destruct (negb (is_some (ce_hash env)) || negb (is_some (ce_head env)) || _) eqn:Ev.
      { intros Hr. exfalso. by apply (Hbad _ h1 _ Hw1) in Hr. }
      intros Hr. assert (~ (ended_badly env \/ holes = true)) as Hn.
      { destruct (negb holes); [by eapply watched_succeed|by eapply watched_silent]. }
      assert (holes = false) as Eho by (destruct holes; [exfalso; naive_solver|done]).
      destruct (well_ended env) as (H1 & H2 & H3); [naive_solver|].
      split_and!; [done..|]. eexists. split; [done|]. intros _. cbn [cm_size].
      apply orb_false_iff in Eho as [Hm Hf]. apply orb_false_iff in Ev as [Ev Hs]. apply orb_false_iff in Ev as [Eha Ehe].
      split_and!; [lia|by destruct (ce_hash env)|lia|]. destruct (ce_head env) as [head|] eqn:E; [|done]. exists head. split; [done|].
      unfold fault in Hf. simpl in Hf. by destruct (clip_layout_fault head).
    + intros Hr. exfalso. by apply (Hbad CLOSE_GUARD h1 _ Hw1) in Hr.
Qed.
End health.

(** ** Clips that do not open *)

Lemma begun_attempt h cam k : let '(h', a) := begin h cam k in
  RecordingHealth.cameras h' !! cam = Some (camera a) /\ kind a = k /\ attempt_revision a = slot_revision h' (camera a) k.
Proof.
  unfold begin. destruct (camera_entry h cam) as [h1 l] eqn:E. simpl. split_and!; [|done|].
  - unfold camera_entry in E. destruct (RecordingHealth.cameras h !! cam) eqn:Ec; injection E as <- <-; simpl; [done|by rewrite lookup_insert_eq].
  - unfold slot_revision. by rewrite slot_set, decide_True.
Qed.

Lemma failure_is_reported h a why cam :
  RecordingHealth.cameras h !! cam = Some (camera a) -> reported (fail h a why) cam (kind a) = Some why.
Proof.
  intros Hc. unfold reported. simpl. rewrite Hc. simpl. unfold fail. by rewrite status_at_set, decide_True, lookup_insert_eq by done.
Qed.

Section opening.
Context (day : Z -> string) (clips_dir : string).

Lemma open_clip_err n d e d' : open_clip n d = (Err e, d') -> d' = d.
Proof. unfold open_clip. case_match; [done|]. by intros [= _ <-]. Qed.

(** A clip that does not open leaves nothing behind: no row, no entry, no file, whichever step
    failed; and the camera is reported. *)
Theorem failed_open_leaves_nothing task args env r e r' :
  open_start day clips_dir task args env r = (Err e, r') ->
  r_db r' = r_db r /\ r_open r' = r_open r /\ r_opening r' = r_opening r /\ r_files r' ⊆ r_files r /\
  reported (r_health r') (oc_camera args) Motion = Some OPEN_GUARD.
Proof.
  unfold open_start. pose proof (begun_attempt (r_health r) (oc_camera args) Motion) as Hb.
  destruct (begin (r_health r) (oc_camera args) Motion) as [h a]. destruct Hb as (Hc & Hk & _).
  assert (reported (fail h a OPEN_GUARD) (oc_camera args) Motion = Some OPEN_GUARD) as Hr by (rewrite <- Hk; by apply failure_is_reported).
  cbn [r_panic with_health r_files].
  destruct (r_panic r); [intros [= <- <-]; by split_and!|]. destruct (oe_ingester env) as [[codec snapshot]|]; [|intros [= <- <-]; by split_and!].
  destruct (effective_clips_dir clips_dir (oe_label env) (oe_mount env)) as [dir handle].
  destruct (oe_mkdir env); [|intros [= <- <-]; by split_and!]. destruct (oe_pipeline env); [|intros [= <- <-]; by split_and!].
  cbn [negb r_files with_files with_health].
  set (path := inflight_clip_path day dir _ _).
  assert (({[path]} ∪ r_files r) ∖ {[path]} ⊆ r_files r) as Hf by set_solver.
  destruct (oe_playing env); [|intros [= <- <-]; by split_and!]. destruct (prepend _ _ _ _ _) as [[ok lw] m].
  destruct (oe_joined env); [|intros [= <- <-]; by split_and!]. destruct ok; [done|]. intros [= <- <-]. by split_and!.
Qed.

Lemma failed_insert_leaves_nothing task db_up r e r' g :
  r_opening r !! task = Some g -> open_finish clips_dir task db_up r = (Some (Err e), r') ->
  r_db r' = r_db r /\ r_open r' = r_open r /\ r_opening r' = delete task (r_opening r) /\ r_files r' = r_files r ∖ {[o_path (g_state g)]} /\
  r_health r' = fail (r_health r) (o_health (g_state g)) OPEN_GUARD.
Proof.
  intros Hg. unfold open_finish. rewrite Hg. cbn [r_db with_opening].
  destruct (if db_up then _ else _) as [[k|e'] d]; [done|]. intros [= <- <-]. by split_and!.
Qed.
End opening.

(** ** The clips that are open *)

(** A pump before its gate opens: the pre-roll is in, nothing else was touched. *)
Definition opening_ok (g : Opening) : Prop :=
  let st := g_state g in
  pushed_ok (o_codec st) (clip_epoch (cursor (o_pump st))) (o_preroll_last st) (o_media st) /\ pending (cursor (o_pump st)) = None /\
  ((exists l, phase (o_pump st) = Gated l) \/ exists s, phase (o_pump st) = Finished s).

Definition open_ok (st : OpenState) : Prop := pump_ok (o_codec st) (o_pump st, o_media st).

Record recorder_ok (r : Recorder) : Prop := {
  rk_tables : tables_ok (r_db r);
  rk_open : map_Forall (fun k st => k < next_clip (r_db r) /\ open_ok st) (r_open r);
  rk_opening : map_Forall (fun _ g => opening_ok g) (r_opening r);
}.

(** The snapshots of a ring are what an opening takes ([Preroll.snapshot_spliceable]). *)
Definition starts_well (o : RecorderOp) : Prop :=
  match o with
  | OpenStart _ _ env => forall codec snapshot, oe_ingester env = Some (codec, snapshot) -> exists e, spliceable e snapshot
  | _ => True
  end.

Lemma opening_starts (codec : CodecKind) accepts e snapshot ok lw m :
  spliceable e snapshot -> prepend accepts (clip_base snapshot) (snapshot_units codec snapshot) None media_new = (ok, lw, m) -> ok = true ->
  pushed_ok codec (clip_epoch (cursor (start_pump codec snapshot))) lw m /\ pending (cursor (start_pump codec snapshot)) = None.
Proof.
  intros [He Hk] E ->. split; [|done].
  pose proof (prepend_ok accepts codec e (clip_base snapshot) (snapshot_units codec snapshot) None media_new (pushed_new _ _)
    (coalesce_all_ok codec e snapshot None ltac:(done) He)) as H. rewrite E in H. destruct H as [Hm Hu]. specialize (Hu eq_refl).
  destruct snapshot as [|s rest]; simpl; [|by apply Forall_cons in He as [<- _]].
  destruct Hm as [H1 H2 H3 H4 H5]. apply fmap_nil_inv in Hu. split; by rewrite ?Hu in *.
Qed.

Section machine.
Context (day : Z -> string) (clips_dir : string).

#[local] Instance the_recorder : Machine RecorderOp Recorder RecorderOut := recorder_machine day clips_dir.

(** The step lemmas read the state's parts; what an operation does not touch stays by reflexivity. *)
Lemma open_start_ok task args env r :
  recorder_ok r -> starts_well (OpenStart task args env) -> recorder_ok (open_start day clips_dir task args env r).2.
Proof.
  intros [Hd Ho Hg] Hs. unfold open_start. destruct (begin _ _ _) as [h a]. cbn [r_panic with_health].
  destruct (r_panic r); [by split|]. destruct (oe_ingester env) as [[codec snapshot]|] eqn:Ei; [|by split].
  destruct (effective_clips_dir clips_dir (oe_label env) (oe_mount env)) as [dir handle].
  destruct (oe_mkdir env); [|by split]. destruct (oe_pipeline env); [|by split]. cbn [negb].
  destruct (oe_playing env); [|by split]. destruct (prepend _ _ _ _ _) as [[ok lw] m] eqn:Ep.
  destruct (oe_joined env); [|by split]. destruct ok; [|by split]. destruct (Hs codec snapshot Ei) as [e He].
  destruct (opening_starts codec _ e snapshot true lw m He Ep eq_refl) as [Hm Hp].
  split; [done..|]. simpl. apply map_Forall_insert_2; [|done]. split_and!; [done|done|left; by eexists].
Qed.

Lemma opening_opens (g : Opening) : opening_ok g ->
  let st := g_state g in
  open_ok (set_pump (pump_step (o_accepts st) (o_codec st) (OpenGate (g_tail g) (o_preroll_last st)) (o_pump st, o_media st)) st).
Proof.
  intros (Hm & Hp & [[l Hl]|[s Hs]]); unfold open_ok; cbn [set_pump o_codec o_pump o_media]; rewrite <- surjective_pairing.
  - by eapply gate_ok.
  - unfold pump_step. rewrite Hs. unfold pump_ok. simpl. rewrite Hs. eauto.
Qed.

Lemma open_finish_ok task db_up r : recorder_ok r -> recorder_ok (open_finish clips_dir task db_up r).2.
Proof.
  intros [Hd Ho Hg]. unfold open_finish. destruct (r_opening r !! task) as [g|] eqn:Eg; [|by split].
  pose proof (map_Forall_lookup_1 _ _ _ _ Hg Eg) as Hgo. cbn [r_db with_opening].
  destruct db_up; [|split; [done..|]; by apply map_Forall_delete].
  pose proof (open_clip_ok (new_clip clips_dir g) (r_db r) Hd) as Hd'. unfold open_clip in *.
  destruct (clip_ok (r_db r) _); [|split; [done..|]; by apply map_Forall_delete].
  split; [done| |by apply map_Forall_delete]. simpl. apply map_Forall_insert_2.
  - split; [lia|by apply opening_opens].
  - intros k st Hk. destruct (Ho k st Hk). split; [lia|done].
Qed.

Lemma opening_step_ok o g : not_gate o -> opening_ok g ->
  let st := g_state g in
  opening_ok (mkOpening (g_args g) (set_pump (pump_step (o_accepts st) (o_codec st) o (o_pump st, o_media st)) st) (g_tail g)).
Proof.
  destruct g as [? [? ? ? ? ? ? ? ? [ph c n] ? ?] ?]. unfold opening_ok. simpl.
  intros Hn (Hm & Hp & [[l ->]|[s ->]]); [|by eauto].
  destruct o; try done; simpl; repeat case_bool_decide; simpl; eauto.
Qed.

Lemma open_step_ok o st : open_ok st ->
  open_ok (set_pump (pump_step (o_accepts st) (o_codec st) o (o_pump st, o_media st)) st).
Proof. intros H. unfold open_ok. cbn [set_pump o_codec o_pump o_media]. rewrite <- surjective_pairing. by apply pump_step_ok. Qed.

(** The statements of a close are writes to the clip tables. *)
Definition written (o : ClipOp) (d d' : Db) : Prop := d' = d \/ d' = clip_op o d.

Lemma written_ok o d d' : tables_ok d -> written o d d' -> tables_ok d' /\ next_clip d <= next_clip d'.
Proof. intros Hd [->| ->]; [split; [done|lia]|]. split; [by apply clip_op_ok|apply next_clip_grows]. Qed.

Lemma reaches_ok (up : bool) {A} o (stmt : DbM A) d : tables_ok d -> written o d (stmt d).2 ->
  tables_ok (reaches up stmt d).2 /\ next_clip d <= next_clip (reaches up stmt d).2.
Proof. intros Hd Hw. unfold reaches. destruct up; [by eapply written_ok|by split]. Qed.

Lemma stamp_row_db k env missed fault x d :
  tables_ok d -> tables_ok (stamp_row k env missed fault x d).2 /\ next_clip d <= next_clip (stamp_row k env missed fault x d).2.
Proof.
  intros Hd. unfold stamp_row, mbind, se_bind.
  set (m1 := if (0 <? missed) || is_some fault then _ else _).
  assert ((m1 d).1 = Ok tt /\ tables_ok (m1 d).2 /\ next_clip d <= next_clip (m1 d).2) as (Ea & Hd1 & Hn1).
  { subst m1. destruct (_ || _); [|by split_and!]. split; [done|]. apply (reaches_ok _ (MarkDegraded k missed)); [done|by right]. }
  destruct (m1 d) as [a1 d1]. simpl in *. rewrite Ea.
  set (m2 := match fault with Some _ => _ | None => _ end).
  assert ((m2 d1).1 = Ok tt /\ tables_ok (m2 d1).2 /\ next_clip d1 <= next_clip (m2 d1).2) as (Ea2 & Hd2 & Hn2).
  { subst m2. destruct fault as [why|]; [|by split_and!]. split; [done|].
    apply (reaches_ok _ (Quarantine k (ce_now env) ("clip layout: " +:+ why))); [done|by right]. }
  destruct (m2 d1) as [a2 d2]. simpl in *. rewrite Ea2.
  destruct (reaches_ok (ce_up env CallClose) (CloseClip k x) (close_clip k x) d2 Hd2) as [Hd3 Hn3]; [by right|]. split; [done|lia].
Qed.

Lemma close_ok k ended env r : recorder_ok r -> recorder_ok (close day clips_dir k ended env r).2.
Proof.
  intros [Hd Ho Hg]. unfold close. destruct (r_open r !! k) as [st|] eqn:Est; [|by split].
  assert (forall d h p f, tables_ok d -> next_clip (r_db r) <= next_clip d ->
    recorder_ok (mkRecorder d h (r_panic r) f (r_opening r) (delete k (r_open r)) p)) as Hdone.
  { intros d h p f H1 H2. split; [done| |done]. simpl. apply map_Forall_delete. intros k' st' Hk'. destruct (Ho k' st' Hk'). split; [lia|done]. }
  destruct (_ || _).
  - unfold discard. cbn [with_health with_open r_db r_files]. set (r1 := if ce_unlink env then _ else _).
    assert (r1 = with_files (r_files r1) (with_open (delete k (r_open r)) (with_health (r_health r1) r))) as -> by (subst r1; by destruct (ce_unlink env)).
    cbn [r_db with_files with_open with_health].
    destruct (reaches_ok (ce_up env CallDiscard) (DiscardClip k) (discard_clip_metadata k) (r_db r) Hd) as [H1 H2]; [by right|].
    destruct (reaches _ _ _) as [[[]|e] d]; by apply Hdone.
  - unfold keep. cbn [with_health with_open r_db r_files]. set (r1 := if ce_rename env && _ then _ else _).
    assert (r1 = with_files (r_files r1) (with_open (delete k (r_open r)) (with_health (r_health r1) r))) as ->
      by (subst r1; by destruct (ce_rename env && bool_decide (o_path (stopped st) ∈ r_files r))).
    cbn [r_db r_files r_health with_files with_open with_health].
    match goal with |- context [stamp_row ?k ?e ?m ?f ?x ?d] => destruct (stamp_row_db k e m f x d Hd) as [H1 H2] end.
    destruct (stamp_row _ _ _ _ _ _) as [[[]|e] d]; by apply Hdone.
Qed.

Lemma recorder_step_ok o r : starts_well o -> recorder_ok r -> recorder_ok (recorder_step day clips_dir o r).1.
Proof.
  intros Hs Hr. destruct o; simpl.
  - destruct (r_opening r !! task); [done|]. pose proof (open_start_ok task args env r Hr Hs) as H.
    by destruct (open_start day clips_dir task args env r) as [[] r'].
  - pose proof (open_finish_ok task db_up r Hr) as H. by destruct (open_finish clips_dir task db_up r) as [[] r'].
  - destruct Hr as [Hd Ho Hg]. unfold opening_event. destruct (r_opening r !! task) as [g|] eqn:Eg; [|by destruct o; split].
    pose proof (fun o Hn => opening_step_ok o g Hn (Hg task g Eg)) as Hgo.
    destruct o; try (by split); cbn [fst]; (split; [done..|]; cbn [r_opening with_opening]; apply map_Forall_insert_2; [by apply Hgo|done]).
  - destruct Hr as [Hd Ho Hg]. unfold pump_event. destruct (r_open r !! k) as [st|] eqn:Est; [|by split].
    destruct (Ho k st Est). split; [done| |done]. cbn [fst r_open with_open]. apply map_Forall_insert_2; [|done]. split; [done|by apply open_step_ok].
  - pose proof (close_ok k ended env r Hr) as H. by destruct (close day clips_dir k ended env r).
  - by destruct Hr.
  - by destruct Hr.
  - destruct Hr as [Hd Ho Hg]. pose proof (next_clip_grows o (r_db r)). split; [by apply clip_op_ok| |done].
    intros k st Hk. destruct (Ho k st Hk). simpl. split; [lia|done].
Qed.

(** An operation that is about clip [k] while it is open. *)
Definition about (k : Z) (o : RecorderOp) : Prop :=
  match o with PumpEvent k' _ | Close k' _ _ => k' = k | _ => False end.

Lemma close_open k ended env r : r_open (close day clips_dir k ended env r).2 = delete k (r_open r).
Proof.
  unfold close. destruct (r_open r !! k) as [st|] eqn:E; [|simpl; by rewrite delete_id].
  destruct (_ || _).
  - unfold discard. destruct (ce_unlink env); by destruct (reaches _ _ _) as [[]].
  - unfold keep. set (r1 := if ce_rename env && _ then _ else _).
    assert (r_open r1 = delete k (r_open r)) as H by (subst r1; by case_match). by destruct (stamp_row _ _ _ _ _ _) as [[]].
Qed.

Lemma step_apart k o r st : recorder_ok r -> ~ about k o -> r_open r !! k = Some st ->
  r_open (recorder_step day clips_dir o r).1 !! k = Some st.
Proof.
  intros Hr Hn Hk. destruct o; simpl in *; try done.
  - destruct (r_opening r !! task); [done|]. unfold open_start. destruct (begin _ _ _) as [h a]. cbn [r_panic with_health]. destruct (r_panic r); [done|].
    destruct (oe_ingester env) as [[codec snapshot]|]; [|done]. destruct (effective_clips_dir _ _ _).
    destruct (oe_mkdir env); [|done]. destruct (oe_pipeline env); [|done]. cbn [negb]. destruct (oe_playing env); [|done].
    destruct (prepend _ _ _ _ _) as [[ok lw] m]. destruct (oe_joined env); [|done]. by destruct ok.
  - unfold open_finish. destruct (r_opening r !! task) as [g|]; [|done]. destruct db_up; [|done]. unfold open_clip. cbn [r_db with_opening].
    destruct (clip_ok (r_db r) _); [|done]. simpl. rewrite lookup_insert_ne; [done|]. intros <-. destruct (rk_open r Hr _ st Hk). simpl in *. lia.
  - unfold opening_event. destruct o; try done; by destruct (r_opening r !! task).
  - unfold pump_event. destruct (r_open r !! k0); [|done]. simpl. by rewrite lookup_insert_ne.
  - pose proof (close_open k0 ended env r) as E. destruct (close day clips_dir k0 ended env r). simpl in *. rewrite E. by rewrite lookup_delete_ne.
Qed.

(** C21. While clips open, run and close and the store is written, in any interleaving: an open clip is
    touched by its own pump and its own close only (no other clip takes its key), and what the
    muxer of every open clip was handed can be muxed: slices, of one epoch, with stamps that do
    not go back. *)
Theorem open_clips_are_apart ops r : recorder_ok r -> Forall starts_well ops ->
  let r' := (mrun ops r).1 in
  (forall k st, r_open r !! k = Some st -> Forall (fun o => ~ about k o) ops -> r_open r' !! k = Some st) /\
  forall k st, r_open r' !! k = Some st ->
    Forall (fun x => contains_slice_nal (data x.1) (o_codec st) = true) (m_pushed (o_media st)) /\
    (exists e, Forall (fun x => sample_epoch x.1 = e) (m_pushed (o_media st))) /\
    StronglySorted Z.le ((fun x => w_pts x.2) <$> m_pushed (o_media st)).
Proof.
  intros Hr Ho. split.
  - intros k st Hk Ha. revert r Hr Hk. induction ops as [|o ops IH]; intros r Hr Hk; [done|].
    apply Forall_cons in Ho as [Ho Hos]. apply Forall_cons in Ha as [Ha Has]. rewrite mrun_cons. cbn [fst].
    apply IH; [done..|by apply recorder_step_ok|by apply step_apart].
  - assert (recorder_ok (mrun ops r).1) as Hr'.
    { apply (mrun_invariant starts_well recorder_ok); [|done..]. intros o s. apply recorder_step_ok. }
    intros k st Hk. destruct (rk_open _ Hr' k st Hk) as [_ Hp]. destruct (pump_pushed _ _ Hp) as (e & lw & [H1 H2 H3 _ _]).
    split_and!; [done| |done]. simpl in *. destruct e as [e|].
    + exists e. eapply Forall_impl; [done|]. by intros x [=].
    + exists 0. eapply Forall_impl; [done|]. by intros x [=].
Qed.

(** ** The drain at shutdown *)

(** A clip whose row says it ended, or is gone. *)
Definition settled_row (d : Db) (k : Z) : Prop :=
  forall row, clips d !! k = Some row -> is_Some (ended_at (finish row)).

(** The statements that end a clip's row get through. *)
Definition ends_up (env : CloseEnv) : Prop := ce_up env CallDiscard = true /\ ce_up env CallClose = true.

Lemma settled_insert d k row k' : (k' = k -> is_Some (ended_at (finish row))) -> (k' <> k -> settled_row d k') ->
  settled_row (set_clips (<[k := row]> (clips d)) d) k'.
Proof. intros H1 H2 r0 Hr. simpl in Hr. apply lookup_insert_Some in Hr as [[<- <-]|[Hne Hr]]; [by apply H1|by eapply H2]. Qed.

(** A row that is not there stays away. *)
Lemma stamp_row_absent k env missed fault x d : clips d !! k = None -> (stamp_row k env missed fault x d).2 = d.
Proof.
  intros Hk. assert (forall p f, update_clip k p f d = (Ok 0, d)) as Hu by (intros p f; unfold update_clip; by rewrite Hk).
  unfold stamp_row, reaches, mark_clip_degraded, quarantine_clip, close_clip, found, ignore_err, mbind, se_bind.
  destruct (_ || _), (ce_up env CallDegraded), fault, (ce_up env CallQuarantine), (ce_up env CallClose); simpl;
    rewrite ?Hu; simpl; rewrite ?Hu; simpl; rewrite ?Hu; done.
Qed.

Lemma close_absent k ended env r : clips (r_db r) !! k = None ->
  clips (r_db (close day clips_dir k ended env r).2) = clips (r_db r).
Proof.
  intros Hk. unfold close. destruct (r_open r !! k) as [st|]; [|done]. destruct (_ || _).
  - unfold discard, reaches, discard_clip_metadata. destruct (ce_unlink env), (ce_up env CallDiscard); simpl; by rewrite ?Hk.
  - unfold keep. cbn [r_db with_health with_files with_open r_files r_health]. set (r1 := if ce_rename env && _ then _ else _).
    assert (r_db r1 = r_db r) as -> by (subst r1; by case_match).
    match goal with |- context [stamp_row ?k ?e ?m ?f ?x ?d] => pose proof (stamp_row_absent k e m f x d Hk) as H end.
    destruct (stamp_row _ _ _ _ _ _) as [[[]|e] d]; simpl in *; by rewrite H.
Qed.

Lemma close_settles k ended env r : tables_ok (r_db r) ->
  let r' := (close day clips_dir k ended env r).2 in
  (forall k', settled_row (r_db r) k' -> settled_row (r_db r') k') /\
    (is_Some (r_open r !! k) -> ends_up env -> settled_row (r_db r') k).
Proof.
  intros Hd r'. subst r'. destruct (r_open r !! k) as [st|] eqn:Est.
  2: { unfold close. rewrite Est. split; [done|]. by intros [? ?]. }
  destruct (clips (r_db r) !! k) as [row|] eqn:Hrow.
  2: { unfold settled_row. rewrite close_absent by done. split; [done|]. intros _ _ row. by rewrite Hrow. }
  pose proof (close_cases day clips_dir k ended env r st row Hd Est Hrow) as H.
  destruct (marked_fields env (missed_by env st) (ce_head env ≫= clip_layout_fault) row) as (Hf & _).
  destruct (close day clips_dir k ended env r) as [[meta|e] r']; destruct H as (_ & _ & H); cbn [snd].
  - destruct H as (_ & _ & H). destruct (cm_discarded meta).
    + destruct H as (_ & -> & _). unfold discard_clip_metadata. rewrite Hrow. unfold settled_row. cbn [snd clips].
      split; [|intros _ _ row' Hr; by rewrite lookup_delete_eq in Hr]. intros k' Hs row' Hr. apply lookup_delete_Some in Hr as [_ Hr]. by apply Hs.
    + destruct H as (_ & _ & ->). split; [|intros _ _; by apply settled_insert; [intros _; by eexists|]]. intros k' Hs.
      apply settled_insert; [intros _; by eexists|done].
  - destruct H as [-> H]. destruct (no_footage _ _ _); destruct H as [Hu ->]; (split; [|intros _ [Hu1 Hu2]; congruence]); [done|].
    intros k' Hs. apply settled_insert; [intros ->; rewrite Hf; by apply (Hs row)|done].
Qed.

(** C22. A shutdown that reaches every open clip leaves none open; and it leaves no row of theirs
    without an end where the database takes the statement that ends it (the stamp, or the deletion
    of the row): however the pump, the muxer, the disk and every other call to the store answer, and
    whatever becomes of the other clips. A clip whose statement fails is no longer open either, and
    its row is left without an end ([a_lost_stamp_leaves_the_row_open]). *)
Theorem shutdown_leaves_no_open_row ended env walk r :
  recorder_ok r -> (forall k, is_Some (r_open r !! k) -> k ∈ walk) ->
  let r' := shutdown day clips_dir ended env walk r in
  r_open r' = ∅ /\ forall k, is_Some (r_open r !! k) -> ends_up (env k) -> settled_row (r_db r') k.
Proof.
  assert (forall walk r, recorder_ok r ->
    let r' := shutdown day clips_dir ended env walk r in
    (forall k, is_Some (r_open r' !! k) -> is_Some (r_open r !! k) /\ k ∉ walk) /\
    (forall k, settled_row (r_db r) k -> settled_row (r_db r') k) /\
    forall k, is_Some (r_open r !! k) -> k ∈ walk -> ends_up (env k) -> settled_row (r_db r') k) as Hall.
  { clear walk r. intros walk. induction walk as [|k walk IH]; intros r Hr; [simpl; split_and!; [set_solver|done|set_solver]|].
    cbn [shutdown foldl]. destruct (close_settles k ended (env k) r (rk_tables _ Hr)) as (Hkeep & Hset).
    pose proof (close_open k ended (env k) r) as Ho. pose proof (close_ok k ended (env k) r Hr) as Hr1.
    set (r1 := (close day clips_dir k ended (env k) r).2) in *. destruct (IH r1 Hr1) as (H1 & H2 & H3). split_and!.
    - intros k' Hk'. destruct (H1 k' Hk') as [Hin Hnot]. rewrite Ho, lookup_delete_is_Some in Hin. set_solver.
    - naive_solver.
    - intros k' Hk' Hin Hu. destruct (decide (k' = k)) as [->|Hne]; [by apply H2, Hset|].
      apply H3; [rewrite Ho, lookup_delete_is_Some; split; [by intros ?|done]|set_solver|done]. }
  intros Hr Hw. destruct (Hall walk r Hr) as (H1 & _ & H3). split; [|by auto].
  apply map_empty. intros k. apply eq_None_not_Some. intros Hk. destruct (H1 k Hk) as [Hin Hnot]. by apply Hnot, Hw.
Qed.
End machine.

(** ** Examples *)

Definition demo_day (t : Z) : string := "2024-05-01".
Definition demo_args : OpenClip := mkOpenClip 1 (millis 5000) 1280 720.
Definition demo_open_env : OpenEnv := mkOpenEnv (Some (H264, demo_snapshot)) None None true true true true all_taken.
Definition demo_recorder : Recorder := mkRecorder (migrated {[1]}) (mkRegistry ∅ ∅ 1) false ∅ ∅ ∅ [].

(** A clip that is opened while a sample waits behind its gate. *)
Definition opens : list RecorderOp := [OpenStart 0 demo_args demo_open_env; OpeningEvent 0 (Recv (au 1080 false P_AU)); OpenFinish 0 true].
Definition demo_run (ops : list RecorderOp) : Recorder := (@mrun _ _ _ (recorder_machine demo_day "clips") ops demo_recorder).1.

Definition SOUND_HEAD : list Z :=
  [0; 0; 0; 8; 0x66; 0x74; 0x79; 0x70; 0; 0; 0; 8; 0x6d; 0x6f; 0x6f; 0x76; 0; 0; 0; 8; 0x6d; 0x6f; 0x6f; 0x66].
Definition demo_close_env : CloseEnv := mkCloseEnv Joined true (Some 4096) true (Some SOUND_HEAD) true (Some 4096) (Some "ab") 0 (fun _ => true).

Lemma demo_recorder_ok : recorder_ok demo_recorder.
Proof. split; [apply migrated_ok|done|done]. Qed.

Lemma demo_starts_well : Forall starts_well opens.
Proof.
  repeat constructor. intros codec snapshot [= <- <-]. exists 1. split; [by repeat constructor|by intros k [= <-]].
Qed.

Lemma demo_open_ok : recorder_ok (demo_run opens).
Proof.
  apply (mrun_invariant starts_well recorder_ok); [|apply demo_starts_well|apply demo_recorder_ok].
  intros o s. apply recorder_step_ok.
Qed.

(** What the muxer of the clip was handed, in milliseconds. *)
Example the_clip_is_open :
  (fun st => (fun x => w_pts x.2 / millis 1) <$> m_pushed (o_media st)) <$> r_open (demo_run opens) !! 1 = Some [0; 40].
Proof. vm_compute. reflexivity. Qed.

Example its_file : elements (r_files (demo_run opens)) = ["clips/1/2024-05-01/5000.partial.mp4"].
Proof. vm_compute. reflexivity. Qed.

(** Four seconds later. *)
Definition long_run : Recorder := demo_run (opens ++ [PumpEvent 1 (Recv (au 5080 false P_AU))]).

Lemma long_run_ok : recorder_ok long_run.
Proof.
  apply (mrun_invariant starts_well recorder_ok); [| |apply demo_recorder_ok].
  - intros o s. apply recorder_step_ok.
  - apply Forall_app. split; [apply demo_starts_well|by repeat constructor].
Qed.

Example the_clip_is_kept :
  (close demo_day "clips" 1 (millis 9100) demo_close_env long_run).1 =
  Ok (mkMeta 1 1 "clips/1/2024-05-01/5000_4113.mp4" 4113 4096 "h264" "mp4" false).
Proof. vm_compute. reflexivity. Qed.

Lemma long_clip : exists st row, r_open long_run !! 1 = Some st /\ clips (r_db long_run) !! 1 = Some row /\ delete 1 (r_open long_run) = ∅.
Proof. eexists _, _. split_and!; vm_compute; reflexivity. Qed.

Lemma closed_clip_row_witness :
  exists r' meta row', close demo_day "clips" 1 (millis 9100) demo_close_env long_run = (Ok meta, r') /\ r_open r' = ∅ /\
    clips (r_db r') !! 1 = Some row' /\ finish row' = mkFinish (Some (millis 9100)) 4113 4096 (Some "ab"%string).
Proof.
  destruct long_clip as (st & row & Hst & Hrow & Hnone).
  pose proof (closed_clip_row demo_day "clips" 1 (millis 9100) demo_close_env long_run st row (rk_tables _ long_run_ok) Hst Hrow) as H.
  pose proof the_clip_is_kept as Ek.
  destruct (close demo_day "clips" 1 (millis 9100) demo_close_env long_run) as [ans r']. simpl in Ek. rewrite Ek in *.
  destruct H as (Ho & _ & _ & _ & H). cbn [cm_discarded] in H. destruct H as (row' & Hc & _ & Hf & _). exists r'. eexists _, row'. split; [done|].
  split; [by rewrite Ho|]. split; [rewrite Hc; apply lookup_insert_eq|exact Hf].
Defined.

(** The same close with a database that does not answer: the clip is no longer open, and its row has
    no end. *)
Definition cut_off_env : CloseEnv := mkCloseEnv Joined true (Some 4096) true (Some SOUND_HEAD) true (Some 4096) (Some "ab") 0 (fun _ => false).

Example a_lost_stamp_leaves_the_row_open :
  let '(ans, r') := close demo_day "clips" 1 (millis 9100) cut_off_env long_run in
  ans = Err (RStore Sqlx) /\ r_open r' !! 1 = None /\ (ended_at ∘ finish) <$> clips (r_db r') !! 1 = Some None /\
  reported (r_health r') 1 Motion = Some CLOSE_GUARD.
Proof. vm_compute. by split_and!. Qed.

(** A layout that is not the muxer's: the clip is kept, and its camera is not called healthy. *)
Definition torn_env : CloseEnv := mkCloseEnv Joined true (Some 4096) true (Some [0; 0; 0; 8; 1; 2; 3; 4]) true (Some 4096) (Some "ab") 0 (fun _ => true).

Lemma healthy_only_when_verified_witness :
  let r1 := (close demo_day "clips" 1 (millis 9100) demo_close_env long_run).2 in
  let r2 := (close demo_day "clips" 1 (millis 9100) torn_env long_run).2 in
  reported (r_health r1) 1 Motion = None /\ clip_layout_fault SOUND_HEAD = None /\ reported (r_health r2) 1 Motion <> None.
Proof.
  assert (exists st, r_open long_run !! 1 = Some st /\ kind (o_health st) = Motion /\
    RecordingHealth.cameras (r_health long_run) !! o_camera st = Some (camera (o_health st)) /\
    0 <= attempt_revision (o_health st) <= slot_revision (r_health long_run) (camera (o_health st)) Motion /\
    slot_revision (r_health long_run) (camera (o_health st)) Motion < umax 64 /\ o_camera st = 1) as (st & H1 & H2 & H3 & H4 & H5 & H6).
  { eexists. split; [vm_compute; reflexivity|]. vm_compute. by split_and!. }
  pose proof (healthy_only_when_verified demo_day "clips" 1 (millis 9100) demo_close_env long_run st H1 H2 H3 H4 H5) as Hgood.
  pose proof (healthy_only_when_verified demo_day "clips" 1 (millis 9100) torn_env long_run st H1 H2 H3 H4 H5) as Hbad.
  rewrite H6 in Hgood, Hbad.
  assert ((close demo_day "clips" 1 (millis 9100) torn_env long_run).1 = Ok (mkMeta 1 1 "clips/1/2024-05-01/5000_4113.mp4" 4113 4096 "h264" "mp4" false)) as Et
    by (vm_compute; reflexivity).
  assert (reported (r_health (close demo_day "clips" 1 (millis 9100) demo_close_env long_run).2) 1 Motion = None) as Hnone by (vm_compute; reflexivity).
  pose proof the_clip_is_kept as Ek.
  destruct (close demo_day "clips" 1 (millis 9100) demo_close_env long_run) as [a1 r1], (close demo_day "clips" 1 (millis 9100) torn_env long_run) as [a2 r2].
  simpl in *. split; [done|]. split.
  - destruct (Hgood Hnone) as (_ & _ & _ & meta & Ha & H). rewrite Ek in Ha. injection Ha as <-. destruct (H eq_refl) as (_ & _ & _ & head & [= <-] & Hl). exact Hl.
  - intros Hn. destruct (Hbad Hn) as (_ & _ & _ & meta & Ha & H). rewrite Et in Ha. injection Ha as <-.
    destruct (H eq_refl) as (_ & _ & _ & head & [= <-] & Hl). vm_compute in Hl. discriminate.
Defined.

(** The camera has no ingester. *)
Lemma failed_open_leaves_nothing_witness :
  let env := mkOpenEnv None None None true true true true all_taken in
  exists r', open_start demo_day "clips" 1 demo_args env (demo_run opens) = (Err Refused, r') /\
    r_db r' = r_db (demo_run opens) /\ reported (r_health r') 1 Motion = Some "recording could not be opened"%string.
Proof.
  intros env.
  assert ((open_start demo_day "clips" 1 demo_args env (demo_run opens)).1 = Err Refused) as Ha by (vm_compute; reflexivity).
  destruct (open_start demo_day "clips" 1 demo_args env (demo_run opens)) as [ans r'] eqn:E. simpl in Ha. subst ans. exists r'.
  destruct (failed_open_leaves_nothing demo_day "clips" 1 demo_args env (demo_run opens) Refused r' E) as (Hd & _ & _ & _ & Hr).
  split; [done|]. split; [exact Hd|exact Hr].
Defined.

Lemma open_clips_are_apart_witness :
  exists st, r_open (demo_run opens) !! 1 = Some st /\
    r_open (@mrun _ _ _ (recorder_machine demo_day "clips") [OpenStart 1 demo_args demo_open_env; OpenFinish 1 true; Close 2 (millis 9000) torn_env] (demo_run opens)).1
      !! 1 = Some st.
Proof.
  assert (exists st, r_open (demo_run opens) !! 1 = Some st) as [st Hst] by (vm_compute; by eexists).
  exists st. split; [done|].
  apply (open_clips_are_apart demo_day "clips" [OpenStart 1 demo_args demo_open_env; OpenFinish 1 true; Close 2 (millis 9000) torn_env] (demo_run opens) demo_open_ok);
    [|done|].
  - repeat constructor. intros codec snapshot [= <- <-]. exists 1. split; [by repeat constructor|by intros k [= <-]].
  - repeat apply Forall_cons_2; [by intros ?..|apply Forall_nil_2].
Defined.

Lemma shutdown_leaves_no_open_row_witness :
  r_open (shutdown demo_day "clips" (millis 9100) (fun _ => torn_env) [1] long_run) = ∅ /\
  settled_row (r_db (shutdown demo_day "clips" (millis 9100) (fun _ => torn_env) [1] long_run)) 1.
Proof.
  assert (elements (dom (r_open long_run)) = [1]) as Hdom by (vm_compute; reflexivity).
  destruct (shutdown_leaves_no_open_row demo_day "clips" (millis 9100) (fun _ => torn_env) [1] long_run long_run_ok) as [H1 H2].
  - intros k Hk. apply elem_of_dom, elem_of_elements in Hk. by rewrite Hdom in Hk.
  - split; [exact H1|]. assert (is_Some (r_open long_run !! 1)) as Hopen by (vm_compute; by eexists).
    apply (H2 1 Hopen). by split.
Defined.
