(* ===== verification/AlertBuilds.v ===== *)
(** The alert clips of the GStreamer recorder ([nexus-pipeline/src/gst_clip_recorder.rs], with the
    paths of [alert_clip.rs]): arming a clip for an alert, the builder that collects and encodes it,
    the build slots, the entry through which a burst of alerts shares a clip, the boxes.

    Arming is two steps around the insertion of the row ([arm_start], [arm_finish]); a builder takes
    its loop one turn at a time ([iterate]), has its window encoded ([encode_start]) and settles
    ([build_done]). Clocks, the ingester, the encoder, the disk and the hash are arguments. The boxes of
    a camera are shared: the map holds a location, and a builder keeps the location it was given.
    Times are nanoseconds, deadlines milliseconds as in the code. Logging is left out. *)
From stdpp Require Import pretty.
From S2P Require Import Prelude Text Types Preroll BurnBoxes RecordingHealth ClipStore AlertClips.
From S2P Require LivePump Recorder.

Definition MAX_CONCURRENT_ALERT_CLIP_BUILDS : nat := 4.

Record AlertClipsConfig := mkAlertCfg {
  ac_enabled : bool;
  pre_secs : Z;
  post_secs : Z;
  build_timeout_secs : Z;
}.

(** ** A builder *)

Inductive BuildPhase := Spawned | Collecting (hard_cap : Z) | Collected | Encoding.

Record Build := mkBuild {
  b_camera : Z;
  b_codec : CodecKind;
  b_health : RecordingAttempt;
  b_window_start : Z;
  b_pre : list NalSample;
  b_post : list NalSample;
  b_epoch : option Z;
  b_deadline : Z;
  b_timeline : option nat;
  b_phase : BuildPhase;
}.

Definition in_phase (p : BuildPhase) (b : Build) : Build :=
  mkBuild (b_camera b) (b_codec b) (b_health b) (b_window_start b) (b_pre b) (b_post b) (b_epoch b) (b_deadline b) (b_timeline b) p.
Definition of_epoch (e : option Z) (b : Build) : Build :=
  mkBuild (b_camera b) (b_codec b) (b_health b) (b_window_start b) (b_pre b) (b_post b) e (b_deadline b) (b_timeline b) (b_phase b).
Definition take_sample (s : NalSample) (b : Build) : Build :=
  mkBuild (b_camera b) (b_codec b) (b_health b) (b_window_start b) (b_pre b) (b_post b ++ [s]) (b_epoch b) (b_deadline b) (b_timeline b) (b_phase b).
Definition with_deadline (t : Z) (b : Build) : Build :=
  mkBuild (b_camera b) (b_codec b) (b_health b) (b_window_start b) (b_pre b) (b_post b) (b_epoch b) t (b_timeline b) (b_phase b).

(** What [recv] under the timeout answers. *)
Inductive LiveEvent := GotSample (s : NalSample) | LaggedBy (n : Z) | LiveClosed | Waited.

(** In the pre-roll already. *)
Definition in_preroll (pre : list NalSample) (s : NalSample) : bool :=
  match pts s, LivePump.tail_pts pre with Some sp, Some tp => sp <=? tp | _, _ => false end.

(** The cap on the collection, when the builder starts. *)
Definition hard_cap_ms (cfg : AlertClipsConfig) (now : Z) : Z := now + Z.max (build_timeout_secs cfg) 1 * 1000.

(** One turn of the collecting loop. *)
Definition iterate (now : Z) (ev : LiveEvent) (b : Build) : Build :=
  match b_phase b with
  | Collecting cap =>
      if Z.min (b_deadline b) cap <=? now then in_phase Collected b
      else
        match ev with
        | GotSample s =>
            if negb (is_some (b_epoch b)) && negb (is_keyframe s) then b
            else
              let e := default (sample_epoch s) (b_epoch b) in
              let b := of_epoch (Some e) b in
              if negb (sample_epoch s =? e) then in_phase Collected b
              else if in_preroll (b_pre b) s then b
              else take_sample s b
        | LaggedBy _ | Waited => b
        | LiveClosed => in_phase Collected b
        end
  | _ => b
  end.

(** ** State *)

(** An alert clip whose row is being inserted; it holds a build slot. *)
Record Arming := mkArming {
  g_camera : Z;
  g_codec : CodecKind;
  g_health : RecordingAttempt;
  g_window_start : Z;
  g_pre : list NalSample;
  g_deadline : Z;
}.

(** What the encoder was given. *)
Record EncodeCall := mkCall {
  e_clip : Z;
  e_window : list NalSample;
  e_codec : CodecKind;
  e_boxes : list BoxFrame;
  e_window_start : Z;
  e_path : string;
}.

Record AlertState := mkState {
  x_db : Db;
  x_health : Registry;
  x_panic : bool;
  x_gate : option bool;
  x_files : gset string;
  x_slots : Z;
  x_shed : Z;
  x_inflight : gmap Z Z;
  x_boxes : gmap Z nat;
  x_timelines : list BoxTimeline;
  x_arming : gmap nat Arming;
  x_builds : gmap Z Build;
  x_encodes : list EncodeCall;
  x_kicks : Z;
}.

Definition with_db (v : Db) (x : AlertState) : AlertState :=
  mkState v (x_health x) (x_panic x) (x_gate x) (x_files x) (x_slots x) (x_shed x) (x_inflight x) (x_boxes x) (x_timelines x) (x_arming x) (x_builds x) (x_encodes x) (x_kicks x).
Definition with_health (v : Registry) (x : AlertState) : AlertState :=
  mkState (x_db x) v (x_panic x) (x_gate x) (x_files x) (x_slots x) (x_shed x) (x_inflight x) (x_boxes x) (x_timelines x) (x_arming x) (x_builds x) (x_encodes x) (x_kicks x).
Definition with_switches (p : bool) (g : option bool) (x : AlertState) : AlertState :=
  mkState (x_db x) (x_health x) p g (x_files x) (x_slots x) (x_shed x) (x_inflight x) (x_boxes x) (x_timelines x) (x_arming x) (x_builds x) (x_encodes x) (x_kicks x).
Definition with_files (v : gset string) (x : AlertState) : AlertState :=
  mkState (x_db x) (x_health x) (x_panic x) (x_gate x) v (x_slots x) (x_shed x) (x_inflight x) (x_boxes x) (x_timelines x) (x_arming x) (x_builds x) (x_encodes x) (x_kicks x).
Definition with_slots (v shed : Z) (x : AlertState) : AlertState :=
  mkState (x_db x) (x_health x) (x_panic x) (x_gate x) (x_files x) v shed (x_inflight x) (x_boxes x) (x_timelines x) (x_arming x) (x_builds x) (x_encodes x) (x_kicks x).
Definition with_inflight (v : gmap Z Z) (x : AlertState) : AlertState :=
  mkState (x_db x) (x_health x) (x_panic x) (x_gate x) (x_files x) (x_slots x) (x_shed x) v (x_boxes x) (x_timelines x) (x_arming x) (x_builds x) (x_encodes x) (x_kicks x).
Definition with_boxes (v : gmap Z nat) (l : list BoxTimeline) (x : AlertState) : AlertState :=
  mkState (x_db x) (x_health x) (x_panic x) (x_gate x) (x_files x) (x_slots x) (x_shed x) (x_inflight x) v l (x_arming x) (x_builds x) (x_encodes x) (x_kicks x).
Definition with_arming (v : gmap nat Arming) (x : AlertState) : AlertState :=
  mkState (x_db x) (x_health x) (x_panic x) (x_gate x) (x_files x) (x_slots x) (x_shed x) (x_inflight x) (x_boxes x) (x_timelines x) v (x_builds x) (x_encodes x) (x_kicks x).
Definition with_builds (v : gmap Z Build) (x : AlertState) : AlertState :=
  mkState (x_db x) (x_health x) (x_panic x) (x_gate x) (x_files x) (x_slots x) (x_shed x) (x_inflight x) (x_boxes x) (x_timelines x) (x_arming x) v (x_encodes x) (x_kicks x).
Definition with_encodes (v : list EncodeCall) (x : AlertState) : AlertState :=
  mkState (x_db x) (x_health x) (x_panic x) (x_gate x) (x_files x) (x_slots x) (x_shed x) (x_inflight x) (x_boxes x) (x_timelines x) (x_arming x) (x_builds x) v (x_kicks x).
Definition kick (x : AlertState) : AlertState :=
  mkState (x_db x) (x_health x) (x_panic x) (x_gate x) (x_files x) (x_slots x) (x_shed x) (x_inflight x) (x_boxes x) (x_timelines x) (x_arming x) (x_builds x) (x_encodes x) (x_kicks x + 1).

(** One permit given back. *)
Definition release (x : AlertState) : AlertState := with_slots (x_slots x + 1) (x_shed x) x.

Definition alerts_new (d : Db) (h : Registry) : AlertState :=
  mkState d h false None ∅ (Z.of_nat MAX_CONCURRENT_ALERT_CLIP_BUILDS) 0 ∅ ∅ [] ∅ ∅ [] 0.

(** What arming meets: the clock (in milliseconds), and the camera's ingester with its snapshot. *)
Record ArmEnv := mkArmEnv { ae_now : Z; ae_ingester : option (CodecKind * list NalSample) }.

Inductive EncodeResult := Encoded (duration_ms size_bytes : Z) | EncodeFailed (unlinked : bool) | EncodePanicked.

(** What a builder meets at its end: the encoder's result (when it failed, whether the partial file
    could be removed), whether the file can be renamed, its hash,
    the clock, and whether the database answers. *)
Record DoneEnv := mkDoneEnv { de_result : EncodeResult; de_rename : bool; de_hash : option string; de_now : Z; de_db : bool }.

Section alerts.
Variable day : Z -> string.
Variable clips_dir : string.
Variable cfg : AlertClipsConfig.

Definition alert_clip_rel_path (cam started : Z) : string :=
  Recorder.join (Recorder.join (Recorder.join "alert" (pretty cam)) (day started)) (pretty (Recorder.unix_ms started) +:+ ".mp4").

(** [with_extension], of a path that ends in [.mp4]. *)
Definition alert_clip_inflight_path (rel : string) : string :=
  let p := Recorder.join clips_dir rel in default p (strip_suffix ".mp4" p) +:+ ".partial.mp4".

Definition alert_clips_active (x : AlertState) : bool := ac_enabled cfg && match x_gate x with Some g => g | None => true end.

Definition push_alert_boxes (cam ts : Z) (boxes : list BurnBox) (sup_w sup_h : Z) (x : AlertState) : AlertState :=
  if negb (alert_clips_active x) then x
  else
    let retain := secs ((pre_secs cfg + post_secs cfg + 2) mod 2 ^ 32) in
    let '(l, x) :=
      match x_boxes x !! cam with
      | Some l => (l, x)
      | None =>
          let l := length (x_timelines x) in
          (l, with_boxes (<[cam := l]> (x_boxes x)) (x_timelines x ++ [timeline_new retain]) x)
      end in
    with_boxes (x_boxes x) (alter (timeline_push (mkBoxFrame ts boxes sup_w sup_h)) l (x_timelines x)) x.

(** ** Arming *)

Definition gives_up (g : RecordingFailureGuard) (x : AlertState) : AlertState := with_health (drop_guard (x_health x) g) x.

Definition ARM_GUARD : string := "alert recording could not be started".

(** The build in flight whose collection is still open, with its deadline moved out. *)
Definition coalesce (cam now deadline : Z) (x : AlertState) : option (Z * AlertState) :=
  match x_inflight x !! cam with
  | Some k =>
      match x_builds x !! k with
      | Some b =>
          if now <? b_deadline b
          then Some (k, with_builds (<[k := with_deadline (Z.max (b_deadline b) deadline) b]> (x_builds x)) x)
          else None
      | None => None
      end
  | None => None
  end.

(** The span of the pre-roll, by its time stamps. *)
Definition pre_span (pre : list NalSample) : Z :=
  match head pre ≫= pts, last pre ≫= pts with
  | Some a, Some b => if a <=? b then b - a else secs (pre_secs cfg)
  | _, _ => secs (pre_secs cfg)
  end.

Definition window_start_of (pre : list NalSample) (alert_ts : Z) : Z :=
  alert_ts - default (secs (pre_secs cfg)) (from_std (pre_span pre)).

(** Everything before the row; [None]: the row is to be inserted. *)
Definition arm_start (task : nat) (cam alert_ts : Z) (env : ArmEnv) (x : AlertState) : option (option Z) * AlertState :=
  if negb (alert_clips_active x) then (Some None, x)
  else
    let '(h, a) := begin (x_health x) cam Alert in
    let failure := guard a ARM_GUARD in
    let x := with_health h x in
    if x_panic x then (Some None, gives_up failure x)
    else
      let deadline := Recorder.unix_ms alert_ts + post_secs cfg * 1000 in
      match coalesce cam (ae_now env) deadline x with
      | Some (k, x) => (Some (Some k), with_health (complete (x_health x) failure) x)
      | None =>
          if x_slots x =? 0 then
            let h := fail (x_health x) a "alert recording refused because all build slots are busy" in
            (Some None, with_health (complete h failure) (with_slots (x_slots x) (x_shed x + 1) x))
          else
            match ae_ingester env with
            | None => (Some None, gives_up failure x)
            | Some (codec, snapshot) =>
                let pre := trim_preroll snapshot (secs (pre_secs cfg)) in
                let arming := mkArming cam codec a (window_start_of pre alert_ts) pre deadline in
                (None, with_arming (<[task := arming]> (x_arming x)) (with_slots (x_slots x - 1) (x_shed x) x))
            end
      end.

Definition new_alert (g : Arming) : NewAlertClip :=
  mkNewAlert (g_camera g) (g_window_start g) (alert_clip_rel_path (g_camera g) (g_window_start g)).

(** The row, the entry, the builder. [db_up]: the statement reaches the database. *)
Definition arm_finish (task : nat) (db_up : bool) (x : AlertState) : option (option Z) * AlertState :=
  match x_arming x !! task with
  | None => (None, x)
  | Some g =>
      let failure := guard (g_health g) ARM_GUARD in
      let x := with_arming (delete task (x_arming x)) x in
      match (if db_up then insert_alert_clip (new_alert g) (x_db x) else (Err Sqlx, x_db x)) with
      | (Err _, _) => (Some None, gives_up failure (release x))
      | (Ok k, d) =>
          let b := mkBuild (g_camera g) (g_codec g) (g_health g) (g_window_start g) (g_pre g) [] (sample_epoch <$> head (g_pre g)) (g_deadline g)
                     (x_boxes x !! g_camera g) Spawned in
          let x := with_inflight (<[g_camera g := k]> (x_inflight x)) (with_db d x) in
          let x := with_builds (<[k := b]> (x_builds x)) x in
          (Some (Some k), with_health (complete (x_health x) failure) x)
      end
  end.

(** ** Building *)

Definition on_build (k : Z) (f : Build -> Build) (x : AlertState) : AlertState :=
  match x_builds x !! k with Some b => with_builds (<[k := f b]> (x_builds x)) x | None => x end.

Definition build_start (k now : Z) (x : AlertState) : AlertState :=
  on_build k (fun b => match b_phase b with Spawned => in_phase (Collecting (hard_cap_ms cfg now)) b | _ => b end) x.

Definition window (b : Build) : list NalSample := b_pre b ++ b_post b.

(** The window goes to the encoder with the boxes as they are now. *)
Definition encode_start (k : Z) (x : AlertState) : AlertState :=
  match x_builds x !! k with
  | Some b =>
      match b_phase b with
      | Collected =>
          let boxes := match b_timeline b ≫= fun l => x_timelines x !! l with Some t => timeline_snapshot t | None => [] end in
          let path := alert_clip_inflight_path (alert_clip_rel_path (b_camera b) (b_window_start b)) in
          let call := mkCall k (window b) (b_codec b) boxes (b_window_start b) path in
          with_encodes (x_encodes x ++ [call]) (with_builds (<[k := in_phase Encoding b]> (x_builds x)) x)
      | _ => x
      end
  | None => x
  end.

Definition BUILD_GUARD : string := "alert recording could not be completed".

Definition mark_failed (k : Z) (db_up : bool) (x : AlertState) : AlertState :=
  if db_up then with_db (mark_alert_clip_failed k (x_db x)).2 x else x.

(** The clip's file and its row; [true]: the clip is ready and was hashed. *)
Definition settle (k : Z) (b : Build) (env : DoneEnv) (x : AlertState) : bool * AlertState :=
  let rel := alert_clip_rel_path (b_camera b) (b_window_start b) in
  let final := Recorder.join clips_dir rel in
  let partial := alert_clip_inflight_path rel in
  match de_result env with
  | Encoded duration size =>
      let x := with_files ({[ partial ]} ∪ x_files x) x in
      if negb (de_rename env) then (false, mark_failed k (de_db env) x)
      else
        let x := with_files ({[ final ]} ∪ x_files x ∖ {[ partial ]}) x in
        match (if de_db env then mark_alert_clip_ready (de_now env) k duration size (de_hash env) (x_db x) else (Err Sqlx, x_db x)) with
        | (Err _, _) => (false, x)
        | (Ok _, d) =>
            let x := with_db d x in
            if is_some (de_hash env) then (true, kick (with_health (succeed (x_health x) (b_health b)) x)) else (false, x)
        end
  | EncodeFailed unlinked => (false, mark_failed k (de_db env) (if unlinked then with_files (x_files x ∖ {[ partial ]}) x else x))
  | EncodePanicked => (false, mark_failed k (de_db env) x)
  end.

(** The entry goes only when it is this clip's. *)
Definition forget (cam k : Z) (m : gmap Z Z) : gmap Z Z := if bool_decide (m !! cam = Some k) then delete cam m else m.

Definition build_done (k : Z) (env : DoneEnv) (x : AlertState) : AlertState :=
  match x_builds x !! k with
  | Some b =>
      match b_phase b with
      | Encoding =>
          let failure := guard (b_health b) BUILD_GUARD in
          let '(ready, x) := settle k b env x in
          let x := with_inflight (forget (b_camera b) k (x_inflight x)) x in
          let x := release (with_builds (delete k (x_builds x)) x) in
          if ready then with_health (complete (x_health x) failure) x else gives_up failure x
      | _ => x
      end
  | None => x
  end.

(** What [remove_camera_ingester] does here. *)
Definition camera_removed (cam : Z) (x : AlertState) : AlertState :=
  with_boxes (delete cam (x_boxes x)) (x_timelines x)
    (with_inflight (delete cam (x_inflight x)) (with_health (remove (x_health x) cam) x)).

(** ** The machine *)

(** What others write to the alert clips meanwhile. *)
Inductive AlertWrite :=
| Evict (k : Z)
| MarkAlertCold (k : Z) (m : ColdMark)
| AlertColdFailure (k now : Z) (error : string)
| AlertStamp (k : Z) (url aid : string)
| AlertSent (k next_at : Z)
| ClipWrite (o : ClipOp).

Definition alert_write (o : AlertWrite) (d : Db) : Db :=
  match o with
  | Evict k => (mark_alert_clip_evicted k d).2
  | MarkAlertCold k m => (mark_alert_clip_cold_replicated k m d).2
  | AlertColdFailure k now error => (record_alert_clip_cold_failure k now error d).2
  | AlertStamp k url aid => (stamp_alert_clip_announce k url aid d).2
  | AlertSent k next_at => (record_alert_clip_announce_sent k next_at d).2
  | ClipWrite o => clip_op o d
  end.

Inductive AlertOp :=
| ArmStart (task : nat) (cam alert_ts : Z) (env : ArmEnv)
| ArmFinish (task : nat) (db_up : bool)
| BuildStart (k now : Z)
| Turn (k now : Z) (ev : LiveEvent)
| EncodeStart (k : Z)
| BuildDone (k : Z) (env : DoneEnv)
| PushBoxes (cam ts : Z) (boxes : list BurnBox) (sup_w sup_h : Z)
| SetSwitches (panic : bool) (gate : option bool)
| CameraRemoved (cam : Z)
| Write (o : AlertWrite).

Definition alert_step (o : AlertOp) (x : AlertState) : AlertState * option (option Z) :=
  match o with
  | ArmStart task cam ts env =>
      match x_arming x !! task with
      | Some _ => (x, None)
      | None => let '(a, x) := arm_start task cam ts env x in (x, a)
      end
  | ArmFinish task db_up => let '(a, x) := arm_finish task db_up x in (x, a)
  | BuildStart k now => (build_start k now x, None)
  | Turn k now ev => (on_build k (iterate now ev) x, None)
  | EncodeStart k => (encode_start k x, None)
  | BuildDone k env => (build_done k env x, None)
  | PushBoxes cam ts boxes w h => (push_alert_boxes cam ts boxes w h x, None)
  | SetSwitches p g => (with_switches p g x, None)
  | CameraRemoved cam => (camera_removed cam x, None)
  | Write o => (with_db (alert_write o (x_db x)) x, None)
  end.

#[export] Instance alert_machine : Machine AlertOp AlertState (option (option Z)) := alert_step.
End alerts.

(** ** The rows of the clips in the making *)

(** A write of somebody else leaves a row that is being built alone. *)
Definition kept (r r' : AlertClipRow) : Prop :=
  a_camera r' = a_camera r /\ a_path r' = a_path r /\ (a_state r = "building"%string -> a_state r' = "building"%string).

Record rows_kept (d d' : Db) : Prop := {
  kept_next : next_alert d' = next_alert d;
  kept_rows : forall k, option_Forall2 kept (alerts d !! k) (alerts d' !! k);
}.

Lemma kept_refl r : kept r r.
Proof. done. Qed.

Lemma rows_kept_alerts d d' : next_alert d' = next_alert d -> alerts d' = alerts d -> rows_kept d d'.
Proof. intros H1 H2. split; [done|]. intros k. rewrite H2. destruct (alerts d !! k); constructor. apply kept_refl. Qed.

Lemma update_alert_kept k p f d : (forall r, p r = true -> kept r (f r)) -> rows_kept d (update_alert k p f d).2.
Proof.
  intros Hf. unfold update_alert. destruct (alerts d !! k) as [r|] eqn:E; [|by apply rows_kept_alerts].
  destruct (p r) eqn:Ep; [|by apply rows_kept_alerts]. split; [done|]. intros k'. simpl. destruct (decide (k = k')) as [<-|Hne].
  - rewrite lookup_insert_eq, E. constructor. by apply Hf.
  - rewrite lookup_insert_ne by done. destruct (alerts d !! k'); constructor. apply kept_refl.
Qed.

Lemma then_state (stmt : DbM Z) d : ((stmt ;; mret tt) d).2 = (stmt d).2.
Proof. unfold mbind, se_bind. by destruct (stmt d) as [[] ?]. Qed.

(** Statements on the clips leave the alert clips alone; an acknowledgement changes only how they
    are announced. *)
Lemma update_clip_alerts k p f d : rows_kept d (update_clip k p f d).2.
Proof.
  unfold update_clip. destruct (clips d !! k) as [r|]; [|by apply rows_kept_alerts].
  destruct (p r); [|by apply rows_kept_alerts]. destruct (clip_ok d (f r)); by apply rows_kept_alerts.
Qed.

#[local] Hint Resolve update_clip_alerts : core.

Lemma clip_op_kept o d : rows_kept d (clip_op o d).
Proof.
  destruct o; simpl;
    try (unfold close_clip, mark_cold_replicated, record_clip_announce_sent, record_cold_upload_failure, quarantine_clip;
         rewrite ?found_state; apply update_clip_alerts; fail).
  - unfold open_clip. case_match; by apply rows_kept_alerts.
  - unfold mark_clip_degraded, mbind, se_bind. pose proof (update_clip_alerts k any (with_degraded (Some dropped)) d).
    by destruct (update_clip _ _ _ d) as [[] ?].
  - unfold cascade_delete_clip_metadata. case_match; by apply rows_kept_alerts.
  - unfold insert_motion_event. case_match; by apply rows_kept_alerts.
  - unfold link_event_to_clip. repeat case_match; by apply rows_kept_alerts.
  - unfold bump_clip_priority, mbind, se_bind. pose proof (update_clip_alerts k (fun r => priority r <? new) (with_priority new) d).
    by destruct (update_clip _ _ _ d) as [[] ?].
  - unfold bump_latest_pending_clip_for_camera, bump_clip_priority, mbind, se_bind, gets. simpl. destruct (head _) as [r|]; [|by apply rows_kept_alerts].
    pose proof (update_clip_alerts (id r) (fun r => priority r <? new) (with_priority new) d) as H. by destruct (update_clip _ _ _ d) as [[] ?].
  - unfold stamp_clip_announce, mbind, se_bind, gets. rewrite found_state. auto.
  - unfold record_clip_announce_ack. simpl. split; [done|]. intros k. simpl. rewrite lookup_fmap. destruct (alerts d !! k) as [r|]; constructor. by case_match.
  - unfold write_cold_replica. repeat case_match; by apply rows_kept_alerts.
  - unfold upsert_storage_backend. case_match; by apply rows_kept_alerts.
  - unfold delete_storage_backend. repeat case_match; by apply rows_kept_alerts.
  - by apply rows_kept_alerts.
  - by apply rows_kept_alerts.
  - unfold discard_clip_metadata. case_match; by apply rows_kept_alerts.
Qed.

Lemma alert_write_kept o d : rows_kept d (alert_write o d).
Proof.
  destruct o; simpl; [..|apply clip_op_kept];
    unfold mark_alert_clip_evicted, mark_alert_clip_cold_replicated, record_alert_clip_cold_failure, stamp_alert_clip_announce,
      record_alert_clip_announce_sent; rewrite ?then_state, ?found_state.
  1: { apply update_alert_kept. intros r Hr. split_and!; [done..|]. unfold in_state in Hr. unfold str_eqb in Hr. apply bool_decide_eq_true in Hr. by rewrite Hr. }
  1: { case_match; [by apply rows_kept_alerts|]. rewrite found_state. apply update_alert_kept. by intros []. }
  all: try (apply update_alert_kept; by intros []).
  unfold mbind, se_bind, gets. rewrite found_state. apply update_alert_kept. by intros [].
Qed.

(** ** Windows *)

(** A pre-roll: of one epoch, from a keyframe. *)
Definition pre_ok (pre : list NalSample) : Prop :=
  Forall (fun s => sample_epoch <$> head pre = Some (sample_epoch s)) pre /\ (forall k, head pre = Some k -> is_keyframe k = true).

Lemma trimmed_ok l pre : pre_ok (trim_preroll l pre).
Proof.
  destruct (preroll_is_a_tail l pre) as (Hs & Hk & He). split; [|by destruct (trim_preroll l pre); [|intros ? [= <-]]].
  destruct l as [|s l]; [by vm_compute; constructor|]. specialize (He s eq_refl).
  destruct (trim_preroll (s :: l) pre) as [|k rest]; [constructor|]. apply Forall_cons in He as [Hek He].
  apply Forall_cons_2; [done|]. eapply Forall_impl; [exact He|]. intros x Hx. simpl. congruence.
Qed.

(** What a builder holds: samples of one epoch, from a keyframe, the live ones past the pre-roll. *)
Record window_ok (b : Build) : Prop := {
  wo_epoch : Forall (fun s => b_epoch b = Some (sample_epoch s)) (window b);
  wo_key : forall k, head (window b) = Some k -> is_keyframe k = true;
  wo_new : Forall (fun s => in_preroll (b_pre b) s = false) (b_post b);
  wo_some : is_Some (b_epoch b) -> window b <> [];
}.

Lemma window_phase p b : window_ok b -> window_ok (in_phase p b).
Proof. by intros []. Qed.

Lemma window_starts g k tl : pre_ok (g_pre g) ->
  window_ok (mkBuild (g_camera g) (g_codec g) k (g_window_start g) (g_pre g) [] (sample_epoch <$> head (g_pre g)) (g_deadline g) tl Spawned).
Proof.
  intros [He Hk]. split; unfold window; simpl; rewrite ?app_nil_r; [done..|]. by destruct (g_pre g) as [|s rest]; [intros [? ?]|].
Qed.

Lemma iterate_ok now ev b : window_ok b -> window_ok (iterate now ev b).
Proof.
  intros Hb. unfold iterate. destruct (b_phase b); try done. destruct (_ <=? now); [by apply window_phase|].
  destruct ev as [s| | |]; try done; [|by apply window_phase].
  pose proof Hb as [He Hk Hn Hs]. destruct (b_epoch b) as [e|] eqn:Eb; simpl.
  - destruct (Z.eqb_spec (sample_epoch s) e) as [<-|Hne]; simpl; [|by split].
    destruct (in_preroll (b_pre b) s) eqn:Ep; [by split|]. split; unfold window in *; simpl.
    + rewrite app_assoc. apply Forall_app. split; [done|by repeat constructor].
    + intros k. rewrite app_assoc. destruct (b_pre b ++ b_post b) as [|k' w] eqn:E; [by destruct (Hs ltac:(by eexists))|]. simpl. apply Hk.
    + apply Forall_app. split; [done|by repeat constructor].
    + intros _. rewrite app_assoc. by destruct (b_pre b ++ b_post b).
  - assert (window b = []) as Hw by (destruct (window b); [done|by apply Forall_cons in He as [? _]]).
    unfold window in Hw. apply app_nil in Hw as [Hpre Hpost].
    destruct (is_keyframe s) eqn:Ek; simpl; [|done]. rewrite Z.eqb_refl. simpl.
    assert (in_preroll (b_pre b) s = false) as Ep by (rewrite Hpre; unfold in_preroll, LivePump.tail_pts; simpl; by destruct (pts s)).
    rewrite Ep. split; unfold window; simpl; rewrite Hpre, Hpost; simpl.
    + by repeat constructor.
    + by intros ? [= <-].
    + rewrite Hpre in Ep. by repeat constructor.
    + done.
Qed.

Definition call_ok (c : EncodeCall) : Prop :=
  (exists e, Forall (fun s => sample_epoch s = e) (e_window c)) /\ (forall k, head (e_window c) = Some k -> is_keyframe k = true).

Lemma window_call b : window_ok b -> forall k c boxes ws path, call_ok (mkCall k (window b) c boxes ws path).
Proof.
  intros [He Hk _ _] ? ? ? ? ?. split; simpl; [|done]. destruct (b_epoch b) as [e|].
  - exists e. eapply Forall_impl; [exact He|]. by intros x [=].
  - exists 0. eapply Forall_impl; [exact He|]. by intros x.
Qed.

(** ** The invariant *)

Section invariant.
Context (day : Z -> string) (clips_dir : string) (cfg : AlertClipsConfig).

#[local] Instance the_alerts : Machine AlertOp AlertState (option (option Z)) := alert_machine day clips_dir cfg.

(** The row of a clip in the making. *)
Definition building (d : Db) (k : Z) (b : Build) : Prop :=
  exists r, alerts d !! k = Some r /\ a_state r = "building"%string /\ a_camera r = b_camera b /\
    a_path r = alert_clip_rel_path day (b_camera b) (b_window_start b).

Record state_ok (x : AlertState) : Prop := {
  so_slots : x_slots x + Z.of_nat (size (x_arming x)) + Z.of_nat (size (x_builds x)) = Z.of_nat MAX_CONCURRENT_ALERT_CLIP_BUILDS /\ 0 <= x_slots x;
  so_inflight : map_Forall (fun cam k => exists b, x_builds x !! k = Some b /\ b_camera b = cam) (x_inflight x);
  so_builds : map_Forall (fun k b => window_ok b /\ building (x_db x) k b) (x_builds x);
  so_rows : map_Forall (fun k _ => k < next_alert (x_db x)) (alerts (x_db x));
  so_arming : map_Forall (fun _ g => pre_ok (g_pre g)) (x_arming x);
  so_encodes : Forall call_ok (x_encodes x);
}.

Lemma building_kept d d' k b : rows_kept d d' -> building d k b -> building d' k b.
Proof.
  intros [_ Hr] (r & Hk & Hs & Hc & Hp). specialize (Hr k). rewrite Hk in Hr. inversion Hr as [? r' (H1 & H2 & H3) E1 E2|]; subst.
  exists r'. split_and!; [done|by apply H3|congruence|congruence].
Qed.

Lemma rows_bound d d' : rows_kept d d' -> map_Forall (fun k _ => k < next_alert d) (alerts d) -> map_Forall (fun k _ => k < next_alert d') (alerts d').
Proof.
  intros [Hn Hr] Hb k r' Hk. rewrite Hn. specialize (Hr k). rewrite Hk in Hr. inversion Hr as [r ? _ E1 E2|]. by eapply Hb.
Qed.

(** A build changes in place: its camera and its row are what they were. *)
Lemma on_build_ok k f x : (forall b, window_ok b -> window_ok (f b) /\ b_camera (f b) = b_camera b /\ b_window_start (f b) = b_window_start b) ->
  state_ok x -> state_ok (on_build k f x).
Proof.
  intros Hf [H1 H2 H3 H4 H5 H6]. unfold on_build. destruct (x_builds x !! k) as [b|] eqn:Eb; [|by split].
  destruct (H3 k b Eb) as [Hw (r & Hr)]. destruct (Hf b Hw) as (Hw' & Hc & Hs). split; simpl; [| | |done..].
  - by rewrite map_size_insert_Some by (by eexists).
  - intros cam k' Hi. destruct (H2 cam k' Hi) as (b' & Hb' & Hcam). destruct (decide (k = k')) as [<-|Hne].
    + rewrite Eb in Hb'. injection Hb' as <-. exists (f b). rewrite lookup_insert_eq. by rewrite Hc.
    + exists b'. by rewrite lookup_insert_ne.
  - apply map_Forall_insert_2; [|done]. split; [done|]. exists r. by rewrite Hc, Hs.
Qed.

Lemma with_db_ok d x : rows_kept (x_db x) d -> state_ok x -> state_ok (with_db d x).
Proof.
  intros Hk [H1 H2 H3 H4 H5 H6]. split; simpl; [done|done| |by eapply rows_bound|done|done].
  intros k b Hb. destruct (H3 k b Hb). split; [done|by eapply building_kept].
Qed.

(** What else the machine keeps. *)
Lemma other_parts_ok x y :
  x_db y = x_db x -> x_slots y = x_slots x -> x_inflight y = x_inflight x -> x_arming y = x_arming x -> x_builds y = x_builds x -> x_encodes y = x_encodes x ->
  state_ok x -> state_ok y.
Proof. intros E1 E2 E3 E4 E5 E6 [H1 H2 H3 H4 H5 H6]. split; rewrite ?E1, ?E2, ?E3, ?E4, ?E5, ?E6; done. Qed.

Lemma coalesce_ok cam now deadline x k y : coalesce cam now deadline x = Some (k, y) -> state_ok x ->
  state_ok y /\ exists b, x_builds y !! k = Some b /\ b_camera b = cam /\ deadline <= b_deadline b.
Proof.
  unfold coalesce. intros Hc Hx. destruct (x_inflight x !! cam) as [k'|] eqn:Ei; [|done].
  destruct (so_inflight x Hx cam k' Ei) as (b & Hb & Hcam). rewrite Hb in Hc. destruct (now <? b_deadline b); [|done]. injection Hc as <- <-. split.
  - pose proof (on_build_ok k' (with_deadline (Z.max (b_deadline b) deadline)) x) as H. unfold on_build in H. rewrite Hb in H. apply H; [|done].
    by intros b' [].
  - eexists. split; [by apply lookup_insert_eq|]. simpl. split; [done|lia].
Qed.

Lemma arm_start_ok task cam ts env x : x_arming x !! task = None -> state_ok x ->
  let '(a, y) := arm_start cfg task cam ts env x in
  state_ok y /\ forall k, a = Some (Some k) -> exists b, x_builds y !! k = Some b /\ b_camera b = cam.
Proof.
  intros Ht Hx. unfold arm_start. destruct (negb _); [by split|]. destruct (begin _ _ _) as [h a].
  assert (state_ok (with_health h x)) as Hh by (by apply (other_parts_ok x)). cbn [x_panic with_health].
  destruct (x_panic x); [split; [by apply (other_parts_ok x)|done]|].
  destruct (coalesce _ _ _ _) as [[k y]|] eqn:Ec.
  { destruct (coalesce_ok _ _ _ _ _ _ Ec Hh) as (Hy & b & Hb & Hcam & _). split; [by apply (other_parts_ok y)|].
    intros k' [= <-]. by exists b. }
  cbn [x_slots with_health]. destruct (Z.eqb_spec (x_slots x) 0); [split; [by apply (other_parts_ok x)|done]|].
  destruct (ae_ingester env) as [[codec snapshot]|]; [|split; [by apply (other_parts_ok x)|done]].
  split; [|done]. destruct Hx as [[H1 H1'] H2 H3 H4 H5 H6]. split; simpl; try done.
  - rewrite map_size_insert_None by done. split; lia.
  - apply map_Forall_insert_2; [apply trimmed_ok|done].
Qed.

Lemma arm_finish_ok task db_up x : state_ok x ->
  let '(a, y) := arm_finish day task db_up x in
  state_ok y /\ forall k, a = Some (Some k) -> exists b, x_builds y !! k = Some b /\ b_camera b = (default 0 (g_camera <$> x_arming x !! task)).
Proof.
  intros Hx. unfold arm_finish. destruct (x_arming x !! task) as [g|] eqn:Eg; [|done].
  pose proof Hx as [[H1 H1'] H2 H3 H4 H5 H6].
  pose proof (map_size_delete_Some task (x_arming x) ltac:(by exists g)) as Hsize.
  assert (size (x_arming x) <> 0)%nat as Hpos by (intros E; apply map_size_empty_inv in E; by rewrite E in Eg).
  assert (forall h, state_ok (with_health h (release (with_arming (delete task (x_arming x)) x)))) as Hno.
  { intros h. split; simpl; [split; lia|done..|by apply map_Forall_delete|done]. }
  destruct db_up; [|split; [apply Hno|done]]. unfold insert_alert_clip. cbn [x_db with_arming]. destruct (bool_decide _); [|split; [apply Hno|done]].
  assert (x_builds x !! next_alert (x_db x) = None) as Hnew.
  { apply eq_None_not_Some. intros [b Hb]. destruct (H3 _ b Hb) as [_ (r & Hr & _)]. pose proof (H4 _ _ Hr). simpl in *. lia. }
  assert (alerts (x_db x) !! next_alert (x_db x) = None) as Hfresh.
  { apply eq_None_not_Some. intros [r Hr]. pose proof (H4 _ _ Hr). simpl in *. lia. }
  split.
  - split; simpl; [| | | |by apply map_Forall_delete|done].
    + rewrite map_size_insert_None by done. split; lia.
    + apply map_Forall_insert_2; [eexists; by rewrite lookup_insert_eq|]. intros cam k Hi. destruct (H2 cam k Hi) as (b & Hb & Hcam).
      exists b. rewrite lookup_insert_ne; [done|]. intros <-. by rewrite Hnew in Hb.
    + apply map_Forall_insert_2.
      * split; [apply window_starts; by eapply H5|]. eexists. simpl. split; [by apply lookup_insert_eq|done].
      * intros k b Hb. destruct (H3 k b Hb) as [Hw (r & Hr & Hrest)]. split; [done|]. exists r. simpl. split; [|done].
        rewrite lookup_insert_ne; [done|]. intros <-. by rewrite Hfresh in Hr.
    + apply map_Forall_insert_2; [lia|]. intros k r Hr. pose proof (H4 k r Hr). simpl in *. lia.
  - intros k [= <-]. eexists. simpl. by rewrite lookup_insert_eq.
Qed.

Lemma push_boxes_ok cam ts boxes w h x : state_ok x -> state_ok (push_alert_boxes cfg cam ts boxes w h x).
Proof. intros Hx. unfold push_alert_boxes. destruct (negb _); [done|]. destruct (x_boxes x !! cam); by apply (other_parts_ok x). Qed.

Lemma encode_start_ok k x : state_ok x -> state_ok (encode_start day clips_dir k x).
Proof.
  intros Hx. unfold encode_start. destruct (x_builds x !! k) as [b|] eqn:Eb; [|done]. destruct (b_phase b); try done.
  pose proof (on_build_ok k (in_phase Encoding) x) as H. unfold on_build in H. rewrite Eb in H.
  destruct H as [H1 H2 H3 H4 H5 H6]; [by intros b' []|done|]. split; simpl; [done..|]. apply Forall_app. split; [done|].
  constructor; [|constructor]. apply window_call. by apply (so_builds x Hx k b).
Qed.

Lemma camera_removed_ok cam x : state_ok x -> state_ok (camera_removed cam x).
Proof. intros [H1 H2 H3 H4 H5 H6]. split; simpl; [done|by apply map_Forall_delete|done..]. Qed.

(** The row that a builder leaves. *)
Definition settled (env : DoneEnv) (r : AlertClipRow) (r' : AlertClipRow) : Prop :=
  if de_db env then
    match de_result env with
    | Encoded duration size => if de_rename env then r' = made_ready (de_now env) duration size (de_hash env) r else r' = alert_with_state "failed" r
    | _ => r' = alert_with_state "failed" r
    end
  else r' = r.

Lemma settle_facts k b env x r : alerts (x_db x) !! k = Some r -> a_state r = "building"%string ->
  let '(ready, y) := settle day clips_dir k b env x in
  (exists r', settled env r r' /\ x_db y = set_alerts (<[k := r']> (alerts (x_db x))) (next_alert (x_db x)) (x_db x)) /\
  x_slots y = x_slots x /\ x_inflight y = x_inflight x /\ x_arming y = x_arming x /\ x_builds y = x_builds x /\ x_encodes y = x_encodes x /\
  x_health y = (if ready then succeed (x_health x) (b_health b) else x_health x) /\
  (ready = true -> de_db env = true /\ (exists duration size, de_result env = Encoded duration size) /\ de_rename env = true /\ is_Some (de_hash env) /\
    Recorder.join clips_dir (alert_clip_rel_path day (b_camera b) (b_window_start b)) ∈ x_files y).
Proof.
  intros Hr Hs. assert (in_state "building" r = true) as Hin by (unfold in_state, str_eqb; by rewrite Hs, bool_decide_true).
  assert (x_db x = set_alerts (<[k := r]> (alerts (x_db x))) (next_alert (x_db x)) (x_db x)) as Hsame by (destruct (x_db x); unfold set_alerts; simpl in *; by rewrite insert_id).
  assert (forall db_up y, x_db y = x_db x -> x_db (mark_failed k db_up y) = set_alerts (<[k := if db_up then alert_with_state "failed" r else r]> (alerts (x_db x))) (next_alert (x_db x)) (x_db x)) as Hfail.
  { intros [] y E; simpl; [|by rewrite E]. rewrite E. unfold mark_alert_clip_failed. rewrite then_state. unfold update_alert. by rewrite Hr, Hin. }
  unfold settle. destruct (de_result env) as [duration size|unlinked|] eqn:Ee.
  - destruct (de_rename env) eqn:En; cbn [negb].
    + destruct (de_db env) eqn:Ed.
      * unfold mark_alert_clip_ready, found, update_alert, mbind, se_bind. cbn [x_db with_files]. rewrite Hr, Hin. cbn -[made_ready].
        destruct (is_some (de_hash env)) eqn:Eh; (split; [eexists; unfold settled; rewrite Ed, Ee, En; by split|]); split_and!; try done.
        intros _. split_and!; [done|by eexists _, _|done|by destruct (de_hash env)|set_solver].
      * split; [|done]. exists r. unfold settled. by rewrite Ed.
    + split; [|by destruct (de_db env)]. eexists. split; [|by apply Hfail]. unfold settled. rewrite Ee, En. by destruct (de_db env).
  - split; [|by destruct unlinked, (de_db env)]. eexists. split; [|apply Hfail; by destruct unlinked]. unfold settled. rewrite Ee. by destruct (de_db env).
  - split; [|by destruct (de_db env)]. eexists. split; [|by apply Hfail]. unfold settled. rewrite Ee. by destruct (de_db env).
Qed.

Lemma build_done_facts k b env x : state_ok x -> x_builds x !! k = Some b -> b_phase b = Encoding ->
  let y := build_done day clips_dir k env x in
  (exists r r', alerts (x_db x) !! k = Some r /\ settled env r r' /\
     x_db y = set_alerts (<[k := r']> (alerts (x_db x))) (next_alert (x_db x)) (x_db x)) /\
  x_slots y = x_slots x + 1 /\ x_inflight y = forget (b_camera b) k (x_inflight x) /\ x_arming y = x_arming x /\
  x_builds y = delete k (x_builds x) /\ x_encodes y = x_encodes x /\
  (x_health y = fail (x_health x) (b_health b) BUILD_GUARD \/
   x_health y = succeed (x_health x) (b_health b) /\ de_db env = true /\ (exists duration size, de_result env = Encoded duration size) /\ de_rename env = true /\
     is_Some (de_hash env) /\ Recorder.join clips_dir (alert_clip_rel_path day (b_camera b) (b_window_start b)) ∈ x_files y).
Proof.
  intros Hx Hb Hph. destruct (so_builds x Hx k b Hb) as [_ (r & Hr & Hs & _)].
  unfold build_done. rewrite Hb, Hph. pose proof (settle_facts k b env x r Hr Hs) as H.
  destruct (settle day clips_dir k b env x) as [ready y]. destruct H as ((r' & Hset & Hdb) & H1 & H2 & H3 & H4 & H5 & H6 & H7).
  destruct ready; cbn -[set_alerts]; rewrite ?H1, ?H2, ?H3, ?H4, ?H5, ?H6, ?Hdb; (split; [by exists r, r'|]); split_and!; try done; [right|by left].
  split; [done|by apply H7].
Qed.

Lemma build_done_ok k env x : state_ok x -> state_ok (build_done day clips_dir k env x).
Proof.
  intros Hx. destruct (x_builds x !! k) as [b|] eqn:Eb; [|unfold build_done; by rewrite Eb].
  destruct (b_phase b) eqn:Ep; try (unfold build_done; by rewrite Eb, Ep).
  destruct (build_done_facts k b env x Hx Eb Ep) as ((r & r' & Hr & _ & Hdb) & E1 & E2 & E3 & E4 & E5 & _).
  pose proof Hx as [[H1 H1'] H2 H3 H4 H5 H6].
  pose proof (map_size_delete_Some k (x_builds x) ltac:(by exists b)) as Hsize.
  assert (size (x_builds x) <> 0)%nat as Hpos by (intros E; apply map_size_empty_inv in E; by rewrite E in Eb).
  split; rewrite ?E1, ?E2, ?E3, ?E4, ?E5, ?Hdb; [split; lia| | | |done..].
  - intros cam k' Hi. unfold forget in Hi. assert (x_inflight x !! cam = Some k' /\ k' <> k) as [Hi' Hne].
    { case_bool_decide as Hk.
      - apply lookup_delete_Some in Hi as [Hne Hi]. split; [done|]. intros ->. destruct (H2 _ _ Hi) as (b1 & Hb1 & Hc1). congruence.
      - split; [done|]. intros ->. destruct (H2 _ _ Hi) as (b1 & Hb1 & Hc1). congruence. }
    destruct (H2 cam k' Hi') as (b' & Hb' & Hcam). exists b'. by rewrite lookup_delete_ne.
  - intros k' b' [Hne Hb']%lookup_delete_Some. destruct (H3 k' b' Hb') as [Hw (r0 & Hr0 & Hrest)]. split; [done|]. exists r0. simpl.
    by rewrite lookup_insert_ne.
  - simpl. apply map_Forall_insert_2; [by eapply H4|done].
Qed.

Lemma alert_step_ok o x : state_ok x -> state_ok (alert_step day clips_dir cfg o x).1.
Proof.
  intros Hx. destruct o; simpl.
  - destruct (x_arming x !! task) eqn:E; [done|]. pose proof (arm_start_ok task cam alert_ts env x E Hx) as H.
    destruct (arm_start cfg task cam alert_ts env x). apply H.
  - pose proof (arm_finish_ok task db_up x Hx) as H. destruct (arm_finish day task db_up x). apply H.
  - apply on_build_ok; [|done]. intros b Hb. destruct (b_phase b); (split; [by try apply window_phase|done]).
  - apply on_build_ok; [|done]. intros b Hb. split; [by apply iterate_ok|]. unfold iterate. destruct (b_phase b); try done.
    destruct (_ <=? now); [done|]. destruct ev; try done. repeat case_match; done.
  - by apply encode_start_ok.
  - by apply build_done_ok.
  - by apply push_boxes_ok.
  - by apply (other_parts_ok x).
  - by apply camera_removed_ok.
  - apply with_db_ok; [apply alert_write_kept|done].
Qed.

Lemma alert_run_ok ops x : state_ok x -> state_ok (mrun ops x).1.
Proof. intros Hx. apply (mrun_invariant (fun _ => True) state_ok ops x); [intros o s _; apply alert_step_ok|by apply Forall_true|done]. Qed.

Lemma alerts_new_ok d h : map_Forall (fun k _ => k < next_alert d) (alerts d) -> state_ok (alerts_new d h).
Proof. intros Hd. split; simpl; [done|done|done|done|done|constructor]. Qed.

(** ** What the alert clips promise *)

(** C24. However alerts come, builders run and end, cameras go and the database fails: at most four
    alert clips are in the making, and no build slot is lost; each is armed or built for one slot,
    and what is left is free. *)
Theorem builds_are_bounded ops x : state_ok x ->
  let y := (mrun ops x).1 in
  (size (x_arming y) + size (x_builds y) <= MAX_CONCURRENT_ALERT_CLIP_BUILDS)%nat /\
  x_slots y = Z.of_nat (MAX_CONCURRENT_ALERT_CLIP_BUILDS - (size (x_arming y) + size (x_builds y))).
Proof. intros Hx y. destruct (so_slots y (alert_run_ok ops x Hx)) as [H1 H2]. lia. Qed.

(** The window an alert clip is encoded from can be spliced: it is of one epoch of the stream and
    starts on a keyframe, whatever the ring held and the camera sent. *)
Lemma encoded_windows_are_spliced ops x : state_ok x -> Forall call_ok (x_encodes (mrun ops x).1).
Proof. intros Hx. apply so_encodes, alert_run_ok, Hx. Qed.

(** The camera an answer is for. *)
Definition armed_for (o : AlertOp) (x : AlertState) : option Z :=
  match o with ArmStart _ cam _ _ => Some cam | ArmFinish task _ => g_camera <$> x_arming x !! task | _ => None end.

(** The clip an alert is given is in the making: it has a builder of the alert's camera, which
    holds one window of the stream so far, and its row is there, of that camera and [building];
    whether the clip is the alert's own or shared by a burst. *)
Lemma armed_clip_is_being_built ops o x k : state_ok x ->
  let '(z, out) := alert_step day clips_dir cfg o (mrun ops x).1 in
  out = Some (Some k) ->
  exists b, x_builds z !! k = Some b /\ armed_for o (mrun ops x).1 = Some (b_camera b) /\ window_ok b /\ building (x_db z) k b.
Proof.
  intros Hx. pose proof (alert_run_ok ops x Hx) as Hy. set (y := (mrun ops x).1) in *. pose proof (alert_step_ok o y Hy) as Hz.
  destruct o; simpl in *; try done.
  - destruct (x_arming y !! task) eqn:E; [done|]. pose proof (arm_start_ok task cam alert_ts env y E Hy) as H.
    destruct (arm_start cfg task cam alert_ts env y) as [a z]. destruct H as [_ H]. intros ->. destruct (H k eq_refl) as (b & Hb & <-).
    exists b. split; [done|]. split; [done|]. by apply (so_builds z Hz).
  - pose proof (arm_finish_ok task db_up y Hy) as H. destruct (arm_finish day task db_up y) as [a z] eqn:E. destruct H as [_ H]. intros ->.
    destruct (H k eq_refl) as (b & Hb & Hc). exists b. split; [done|]. split; [|by apply (so_builds z Hz)].
    unfold arm_finish in E. destruct (x_arming y !! task) as [g|]; [|done]. simpl in *. by rewrite Hc.
Qed.

(** C25. When a builder ends, its slot is free, no alert can join it any more, and its row is settled as
    long as the database answers: ready with the length and hash of its file, or failed. The camera is
    called healthy then only if the clip is ready, hashed and in its place. *)
Theorem finished_build_settles k b env x : state_ok x -> x_builds x !! k = Some b -> b_phase b = Encoding ->
  let y := build_done day clips_dir k env x in
  x_slots y = x_slots x + 1 /\ x_builds y = delete k (x_builds x) /\ x_inflight y !! b_camera b <> Some k /\
  (de_db env = true -> exists r', alerts (x_db y) !! k = Some r' /\ (a_state r' = "failed"%string \/
     exists duration size, de_result env = Encoded duration size /\ a_state r' = "ready"%string /\ a_duration r' = duration /\ a_size r' = size /\ a_sha256 r' = de_hash env)) /\
  (RecordingHealth.cameras (x_health x) !! b_camera b = Some (camera (b_health b)) ->
   reported (x_health y) (b_camera b) (kind (b_health b)) = None ->
   is_Some (de_hash env) /\ Recorder.join clips_dir (alert_clip_rel_path day (b_camera b) (b_window_start b)) ∈ x_files y /\
   exists r', alerts (x_db y) !! k = Some r' /\ a_state r' = "ready"%string /\ a_sha256 r' = de_hash env).
Proof.
  intros Hx Hb Hph. destruct (build_done_facts k b env x Hx Hb Hph) as ((r & r' & Hr & Hset & Hdb) & E1 & E2 & _ & E4 & _ & Hh).
  assert (alerts (x_db (build_done day clips_dir k env x)) !! k = Some r') as Hr' by (rewrite Hdb; simpl; by rewrite lookup_insert_eq).
  cbv zeta. split; [done|]. split; [done|]. split.
  { rewrite E2. unfold forget. case_bool_decide as H; [|done]. by rewrite lookup_delete_eq. }
  unfold settled in Hset. split.
  - intros Hd. exists r'. split; [done|]. rewrite Hd in Hset. destruct (de_result env) as [duration size| |]; [|left; by subst..].
    destruct (de_rename env); subst r'; [right|by left]. by eexists _, _.
  - intros Hc Hn. destruct Hh as [E|(_ & Hd & (duration & size & Ee) & En & Hsha & Hfile)].
    + rewrite E in Hn. by rewrite (Recorder.failure_is_reported _ _ _ _ Hc) in Hn.
    + rewrite Hd, Ee, En in Hset. subst r'. split; [done|]. split; [done|]. by eexists.
Qed.

(** An alert that is given no clip is not lost in silence: unless alert clips are switched off, its
    camera is reported, whatever refused it. *)
Theorem refused_alert_is_reported task cam ts env x :
  alert_clips_active cfg x = true ->
  let '(a, y) := arm_start cfg task cam ts env x in
  a = Some None -> is_Some (reported (x_health y) cam Alert).
Proof.
  intros Ha. unfold arm_start. rewrite Ha. cbn [negb]. pose proof (Recorder.begun_attempt (x_health x) cam Alert) as Hb.
  destruct (begin (x_health x) cam Alert) as [h a]. destruct Hb as (Hc & Hk & _).
  assert (forall why, is_Some (reported (fail h a why) cam Alert)) as Hr.
  { intros why. rewrite <- Hk. rewrite (Recorder.failure_is_reported h a why cam Hc). by eexists. }
  cbn [x_panic with_health]. destruct (x_panic x); [intros _; apply Hr|].
  destruct (coalesce _ _ _ _) as [[k y]|]; [done|]. cbn [x_slots with_health].
  destruct (x_slots x =? 0); [intros _; apply Hr|]. destruct (ae_ingester env) as [[codec snapshot]|]; [done|]. intros _. apply Hr.
Qed.

Lemma failed_insert_is_reported task db_up x g y : x_arming x !! task = Some g -> arm_finish day task db_up x = (Some None, y) ->
  RecordingHealth.cameras (x_health x) !! g_camera g = Some (camera (g_health g)) ->
  reported (x_health y) (g_camera g) (kind (g_health g)) = Some ARM_GUARD /\ x_slots y = x_slots x + 1.
Proof.
  intros Hg. unfold arm_finish. rewrite Hg. cbn [x_db with_arming].
  destruct (if db_up then _ else _) as [[k|e] d]; [done|]. intros [= <-] Hc. split; [|done]. simpl.
  by apply Recorder.failure_is_reported.
Qed.
End invariant.

(** ** Examples *)

Definition demo_cfg : AlertClipsConfig := mkAlertCfg true 3 5 30.
Definition demo_alerts : AlertState := alerts_new (migrated {[1; 2; 3; 4; 5]}) empty_registry.
Definition demo_step (o : AlertOp) (x : AlertState) : AlertState := (alert_step Recorder.demo_day "clips" demo_cfg o x).1.
Definition demo_run (ops : list AlertOp) : AlertState := foldl (fun x o => demo_step o x) demo_alerts ops.

(** An alert five seconds in, on a camera whose ring holds [LivePump.demo_snapshot]. *)
Definition demo_arm (task : nat) (cam now : Z) : AlertOp := ArmStart task cam (millis 5000) (mkArmEnv now (Some (H264, LivePump.demo_snapshot))).
Definition arms (cam : Z) : list AlertOp := let task := Z.to_nat cam in [demo_arm task cam 5000; ArmFinish task true].

(** The machine's run is that fold. *)
Lemma demo_run_eq ops x :
  foldl (fun x o => demo_step o x) x ops = (@mrun _ _ _ (alert_machine Recorder.demo_day "clips" demo_cfg) ops x).1.
Proof.
  revert x. induction ops as [|o ops IH]; intros x; [done|]. rewrite mrun_cons. cbn [foldl fst]. by rewrite IH.
Qed.

Lemma demo_state_ok : state_ok Recorder.demo_day demo_alerts.
Proof. by apply alerts_new_ok. Qed.

Lemma demo_run_ok ops : state_ok Recorder.demo_day (demo_run ops).
Proof. unfold demo_run. rewrite demo_run_eq. apply alert_run_ok, demo_state_ok. Qed.

(** Four cameras take the slots; the fifth alert is refused and its camera reported. *)
Definition four : list AlertOp := arms 1 ++ arms 2 ++ arms 3 ++ arms 4.

Example the_fifth_is_refused :
  (alert_step Recorder.demo_day "clips" demo_cfg (demo_arm 5 5 5000) (demo_run four)).2 = Some None /\ x_shed (demo_step (demo_arm 5 5 5000) (demo_run four)) = 1.
Proof. vm_compute. split; reflexivity. Qed.

Lemma builds_are_bounded_witness :
  x_slots (demo_run (four ++ arms 5)) = 0 /\ (size (x_builds (demo_run (four ++ arms 5))) <= 4)%nat.
Proof.
  pose proof (builds_are_bounded Recorder.demo_day "clips" demo_cfg (four ++ arms 5) demo_alerts demo_state_ok) as [H1 H2].
  rewrite <- demo_run_eq in H1, H2. split; [by vm_compute|]. unfold demo_run. unfold MAX_CONCURRENT_ALERT_CLIP_BUILDS in H1. lia.
Defined.

Lemma armed_clip_is_being_built_witness :
  exists b, x_builds (demo_step (ArmFinish 5 true) (demo_run [demo_arm 5 5 5000])) !! 1 = Some b /\ b_camera b = 5 /\ window_ok b.
Proof.
  pose proof (armed_clip_is_being_built Recorder.demo_day "clips" demo_cfg [demo_arm 5 5 5000] (ArmFinish 5 true) demo_alerts 1 demo_state_ok) as H.
  rewrite <- demo_run_eq in H. change (foldl _ demo_alerts _) with (demo_run [demo_arm 5 5 5000]) in H. unfold demo_step.
  assert ((alert_step Recorder.demo_day "clips" demo_cfg (ArmFinish 5 true) (demo_run [demo_arm 5 5 5000])).2 = Some (Some 1)) as Ha by (vm_compute; reflexivity).
  assert (armed_for (ArmFinish 5 true) (demo_run [demo_arm 5 5 5000]) = Some 5) as Hf by (vm_compute; reflexivity).
  destruct (alert_step _ _ _ _ _) as [z out]. simpl in Ha. destruct (H Ha) as (b & Hb & Hc & Hw & _). rewrite Hf in Hc. injection Hc as Hc.
  exists b. split; [exact Hb|]. split; [by symmetry|exact Hw].
Defined.

(** A build up to its encoding: one sample is collected, then the deadline passes. *)
Definition encoding (cam : Z) : list AlertOp :=
  arms cam ++ [BuildStart 1 5010; Turn 1 5050 (GotSample (LivePump.au 1080 false LivePump.P_AU)); Turn 1 10000 Waited; EncodeStart 1].

Example what_is_encoded :
  (fun c => ((fun s => default 0 (pts s) / millis 1) <$> e_window c, e_path c)) <$> x_encodes (demo_run (encoding 1)) =
  [([1000; 1000; 1040; 1080], "clips/alert/1/2024-05-01/4960.partial.mp4"%string)].
Proof. vm_compute. reflexivity. Qed.

Definition demo_done : DoneEnv := mkDoneEnv (Encoded 4000 9000) true (Some "cd") (millis 12000) true.

Lemma finished_build_settles_witness :
  let y := build_done Recorder.demo_day "clips" 1 demo_done (demo_run (encoding 1)) in
  x_builds y = ∅ /\ reported (x_health y) 1 Alert = None /\ exists r', alerts (x_db y) !! 1 = Some r' /\ a_state r' = "ready"%string.
Proof.
  assert (exists b, x_builds (demo_run (encoding 1)) !! 1 = Some b /\ b_phase b = Encoding /\ b_camera b = 1 /\ kind (b_health b) = Alert /\
    RecordingHealth.cameras (x_health (demo_run (encoding 1))) !! b_camera b = Some (camera (b_health b))) as (b & Hb & Hp & Hc & Hk & Hh)
    by (eexists; split; [vm_compute; reflexivity|by vm_compute]).
  destruct (finished_build_settles Recorder.demo_day "clips" 1 b demo_done (demo_run (encoding 1)) (demo_run_ok _) Hb Hp) as (_ & H2 & _ & _ & H5).
  assert (delete 1 (x_builds (demo_run (encoding 1))) = ∅) as He by (vm_compute; reflexivity).
  assert (reported (x_health (build_done Recorder.demo_day "clips" 1 demo_done (demo_run (encoding 1)))) 1 Alert = None) as Hn by (vm_compute; reflexivity).
  cbv zeta. split; [rewrite H2; exact He|]. split; [exact Hn|]. rewrite Hc, Hk in H5. destruct H5 as (_ & _ & r' & Hr & Hs & _); [by rewrite <- Hc at 1|exact Hn|].
  exists r'. split; [exact Hr|exact Hs].
Defined.

Lemma refused_alert_is_reported_witness :
  is_Some (reported (x_health (arm_start demo_cfg 5 5 (millis 5000) (mkArmEnv 5000 None) demo_alerts).2) 5 Alert).
Proof.
  pose proof (refused_alert_is_reported demo_cfg 5 5 (millis 5000) (mkArmEnv 5000 None) demo_alerts eq_refl) as H.
  assert ((arm_start demo_cfg 5 5 (millis 5000) (mkArmEnv 5000 None) demo_alerts).1 = Some None) as Ha by (vm_compute; reflexivity).
  destruct (arm_start _ _ _ _ _ _) as [a y]. by apply H.
Defined.

(** A stream that begins anew ends a collection before its deadline; an alert that comes then is
    given the clip, whose window is already encoded without it. *)
Definition cut_short : list AlertOp :=
  arms 1 ++ [BuildStart 1 5010; Turn 1 5050 (GotSample (stamp 2 (LivePump.au 1080 true LivePump.IDR_AU))); EncodeStart 1].

Example late_alert_shares_a_closed_window :
  let later := ArmStart 7 1 (millis 8000) (mkArmEnv 8000 (Some (H264, LivePump.demo_snapshot))) in
  (alert_step Recorder.demo_day "clips" demo_cfg later (demo_run cut_short)).2 = Some (Some 1) /\
  (fun c => e_clip c) <$> x_encodes (demo_run (cut_short ++ [later])) = [1].
Proof. vm_compute. split; reflexivity. Qed.

(** When the database does not take the last word of a build, the clip's file is in place and its row
    is [building] for ever: it is known to the sweep of orphans and never evictable. *)
Example unsettled_row_stays :
  let y := build_done Recorder.demo_day "clips" 1 (mkDoneEnv (Encoded 4000 9000) true (Some "cd") 0 false) (demo_run (encoding 1)) in
  known_alert_clip_paths (x_db y) = [(1, "alert/1/2024-05-01/4960.mp4"%string, "building"%string)] /\ elements (x_files y) = ["clips/alert/1/2024-05-01/4960.mp4"%string] /\
  alert_clips_evictable 10 (millis 99999999) (x_db y) = [].
Proof. vm_compute. split_and!; reflexivity. Qed.
