(* ===== verification/ColdReadCache.v ===== *)
(** The cold-read cache ([nexus-engine/src/cold_read_cache.rs]): a clip whose hot file was evicted is
    brought back from its cold copy when it is played.

    A job takes its turns one at a time, with everything else in between: the permit, the row, the
    download, the partial file, the rename, the pointer ([job_step]). What a backend answers is an
    argument, so that it may be anything; SHA-256 in hex is a parameter. Each file operation may
    fail. [Other] is a write of somebody else to the disk. Logging is left out. *)
From S2P Require Import Prelude Text Types ClipStore ColdStore Watermark ColdReplicator.
From Stdlib Require Import Ascii.
Open Scope Z_scope.

Definition CACHE_MAX_INFLIGHT : nat := 4.
Definition PARTIAL_SUFFIX : string := ".cache.partial".

Inductive CacheError :=
| CNotFound
| NoBackend (h : string)
| CBackend (h : string) (e : BackendError)
| WritePartial (p : string)
| CRename (p : string)
| Sha256Mismatch (expected actual : string)
| CStore (e : DbError).

Inductive CacheOutcome := Rehydrated (bytes : Z) | AlreadyHot | WatermarkAborted | Skipped (reason : string).

Abbreviation JobResult := (result CacheOutcome CacheError).

(** What a job reads from its row. *)
Record Target := mkTarget { t_handle : string; t_path : string; t_sha : string; t_size : Z }.

(** Where a job is. A download notices a wake-up that comes while it runs ([woken]). *)
Inductive JobPhase :=
| Queued
| Permitted
| Located (t : Target)
| Downloading (t : Target) (woken : bool)
| Verified (t : Target) (bytes : string)
| Written (t : Target)
| Renamed (t : Target).

Definition has_permit (p : JobPhase) : bool := match p with Queued => false | _ => true end.

Record Cache := mkCache {
  k_signal : WatermarkSignal;
  k_db : Db;
  k_files : gmap string string;
  k_permits : Z;
  k_jobs : gmap Z JobPhase;
}.

Definition with_signal (x : WatermarkSignal) (c : Cache) : Cache := mkCache x (k_db c) (k_files c) (k_permits c) (k_jobs c).
Definition with_db (x : Db) (c : Cache) : Cache := mkCache (k_signal c) x (k_files c) (k_permits c) (k_jobs c).
Definition with_files (x : gmap string string) (c : Cache) : Cache := mkCache (k_signal c) (k_db c) x (k_permits c) (k_jobs c).
Definition with_permits (x : Z) (c : Cache) : Cache := mkCache (k_signal c) (k_db c) (k_files c) x (k_jobs c).
Definition with_jobs (x : gmap Z JobPhase) (c : Cache) : Cache := mkCache (k_signal c) (k_db c) (k_files c) (k_permits c) x.

Definition cache_new (d : Db) (files : gmap string string) : Cache :=
  mkCache signal_new d files (Z.of_nat CACHE_MAX_INFLIGHT) ∅.

(** The file name of a path replaced. *)
Definition partial_of (final : string) : string :=
  match drop_blank (rev (split "/" final)) with
  | fname :: above => Text.join "/" (rev ((fname +:+ PARTIAL_SUFFIX) :: above))
  | [] => "clip.mp4" +:+ PARTIAL_SUFFIX
  end.

Definition climbs (path : string) : bool := bool_decide (".."%string ∈ split "/"%char path).

Section cache.
Variable sha256_hex : string -> string.
Variable clips_dir : string.
(** The handles the registry knows. *)
Variable registered : string -> bool.

Definition final_of (t : Target) : string := path_join clips_dir (t_path t).

(** ** Asking for a job *)

(** [Some]: a job of the clip is in flight. *)
Definition spawn (k : Z) (c : Cache) : bool * Cache :=
  if negb (is_ok (k_signal c)) then (false, c)
  else if is_some (k_jobs c !! k) then (true, c)
  else (true, with_jobs (<[k := Queued]> (k_jobs c)) c).

(** ** The turns of a job *)

(** A job goes on in a phase, or ends; a job that ends leaves the map and gives its permit back. *)
Definition goes (k : Z) (p : JobPhase) (c : Cache) : option JobResult * Cache := (None, with_jobs (<[k := p]> (k_jobs c)) c).

Definition ends (k : Z) (a : JobResult) (c : Cache) : option JobResult * Cache :=
  (Some a, with_permits (k_permits c + 1) (with_jobs (delete k (k_jobs c)) c)).

(** The permit; the watermark is looked at again. *)
Definition permit (k : Z) (c : Cache) : option JobResult * Cache :=
  if k_permits c <=? 0 then (None, c)
  else
    let c := with_permits (k_permits c - 1) c in
    if negb (is_ok (k_signal c)) then ends k (Ok WatermarkAborted) c else goes k Permitted c.

(** What the row says: where to fetch from, or why not. *)
Definition locate (row : option ClipRow) : result Target JobResult :=
  match row with
  | None => Err (Err CNotFound)
  | Some clip =>
      if is_some (hot_path (hot clip)) then Err (Ok AlreadyHot)
      else
        match cold_handle (cold clip), cold_path (cold clip), sha256 (finish clip) with
        | None, _, _ => Err (Ok (Skipped "no cold pointer"))
        | _, None, _ => Err (Ok (Skipped "no cold path"))
        | _, _, None => Err (Ok (Skipped "no sha256"))
        | Some h, Some p, Some sha =>
            if size_bytes (finish clip) <=? 0 then Err (Ok (Skipped "zero size"))
            else if negb (registered h) then Err (Err (NoBackend h))
            else if climbs p then Err (Ok (Skipped "cold_path contains '..'"))
            else Ok (mkTarget h p sha (size_bytes (finish clip)))
        end
  end.

Definition read_row (k : Z) (db_up : bool) (c : Cache) : option JobResult * Cache :=
  if negb db_up then ends k (Err (CStore Sqlx)) c
  else match locate (get_clip k (k_db c)) with
       | Ok t => goes k (Located t) c
       | Err a => ends k a c
       end.

Definition start_download (k : Z) (t : Target) (mkdir : bool) (c : Cache) : option JobResult * Cache :=
  if mkdir then goes k (Downloading t false) c else ends k (Err (WritePartial (final_of t))) c.

(** The download ends; the wake-up is looked at first. *)
Definition downloaded (k : Z) (t : Target) (woken : bool) (answer : result string BackendError) (c : Cache) : option JobResult * Cache :=
  if woken then ends k (Ok WatermarkAborted) c
  else match answer with
       | Err e => ends k (Err (CBackend (t_handle t) e)) c
       | Ok bytes =>
           let actual := sha256_hex bytes in
           if str_eqb actual (t_sha t) then goes k (Verified t bytes) c else ends k (Err (Sha256Mismatch (t_sha t) actual)) c
       end.

(** The partial file; [Some n]: a call fails, with [n] bytes written if any. *)
Definition write_partial (k : Z) (t : Target) (bytes : string) (fault : option (option nat)) (c : Cache) : option JobResult * Cache :=
  let p := partial_of (final_of t) in
  match fault with
  | None => goes k (Written t) (with_files (<[p := bytes]> (k_files c)) c)
  | Some None => ends k (Err (WritePartial p)) c
  | Some (Some n) => ends k (Err (WritePartial p)) (with_files (<[p := first_bytes n bytes]> (k_files c)) c)
  end.

Definition rename (k : Z) (t : Target) (ok : bool) (c : Cache) : option JobResult * Cache :=
  let p := partial_of (final_of t) in
  match ok, k_files c !! p with
  | true, Some bytes => goes k (Renamed t) (with_files (<[final_of t := bytes]> (delete p (k_files c))) c)
  | _, _ => ends k (Err (CRename (final_of t))) c
  end.

(** The pointer, when it is still empty. *)
Definition repopulate (k : Z) (t : Target) (db_up : bool) (c : Cache) : option JobResult * Cache :=
  match (if db_up then repopulate_hot_pointer k "local" (t_path t) (k_db c) else (Err Sqlx, k_db c)) with
  | (Ok _, d) => ends k (Ok (Rehydrated (t_size t))) (with_db d c)
  | (Err e, d) => ends k (Err (CStore e)) (with_db d c)
  end.

(** What a turn meets. *)
Record TurnEnv := mkTurn { te_ok : bool; te_answer : result string BackendError; te_fault : option (option nat) }.

Definition job_step (k : Z) (env : TurnEnv) (c : Cache) : option JobResult * Cache :=
  match k_jobs c !! k with
  | None => (None, c)
  | Some Queued => permit k c
  | Some Permitted => read_row k (te_ok env) c
  | Some (Located t) => start_download k t (te_ok env) c
  | Some (Downloading t woken) => downloaded k t woken (te_answer env) c
  | Some (Verified t bytes) => write_partial k t bytes (te_fault env) c
  | Some (Written t) => rename k t (te_ok env) c
  | Some (Renamed t) => repopulate k t (te_ok env) c
  end.

(** The watermark's write: the jobs that wait for a wake-up hear it. *)
Definition set_level (l : WatermarkLevel) (c : Cache) : Cache :=
  let s := signal_set l (k_signal c) in
  let heard p := match p with Downloading t _ => Downloading t true | _ => p end in
  with_signal s (if wakes s =? wakes (k_signal c) then c else with_jobs (heard <$> k_jobs c) c).

Inductive CacheOp :=
| Spawn (k : Z)
| JobTurn (k : Z) (env : TurnEnv)
| SetLevel (l : WatermarkLevel)
| StoreWrite (o : ClipOp)
| Other (p : string) (bytes : option string).

Inductive CacheOut := Asked (inflight : bool) | JobEnded (a : JobResult) | Quiet.

Definition cache_step (o : CacheOp) (c : Cache) : Cache * CacheOut :=
  match o with
  | Spawn k => let '(b, c) := spawn k c in (c, Asked b)
  | JobTurn k env => match job_step k env c with (Some a, c) => (c, JobEnded a) | (None, c) => (c, Quiet) end
  | SetLevel l => (set_level l c, Quiet)
  | StoreWrite o => (with_db (clip_op o (k_db c)) c, Quiet)
  | Other p b => (with_files (match b with Some x => <[p := x]> (k_files c) | None => delete p (k_files c) end) c, Quiet)
  end.

#[export] Instance cache_machine : Machine CacheOp Cache CacheOut := cache_step.
End cache.

(** ** The paths of a job *)

Lemma last_of_app {A} (a b : list A) d : b <> [] -> List.last (a ++ b) d = List.last b d.
Proof. intros Hb. destruct b as [|x b _] using rev_ind; [done|]. by rewrite app_assoc, !List.last_last. Qed.

Lemma file_name_under d p : file_name (d +:+ "/" +:+ p) = file_name p.
Proof.
  unfold file_name, split. rewrite !chars_app. change (chars "/") with [slash]. simpl. change ("/"%char) with slash.
  rewrite split_chars_app, map_app, last_of_app; [done|]. pose proof (split_chars_nonempty slash (chars p)). by destruct (split_chars slash (chars p)).
Qed.

Lemma file_name_joined dir p : file_name (path_join dir p) = file_name p.
Proof. unfold path_join. destruct (starts_with p "/"); [done|apply file_name_under]. Qed.

Lemma file_name_last l s : slash ∉ chars s -> file_name (Text.join "/" (l ++ [s])) = s.
Proof.
  intros Hs. induction l as [|c l IH]; [by apply file_name_plain|].
  assert (Text.join "/" ((c :: l) ++ [s]) = c +:+ "/" +:+ Text.join "/" (l ++ [s])) as -> by (simpl; by destruct (l ++ [s]) eqn:E; [destruct l|]).
  by rewrite file_name_under.
Qed.

Lemma clip_file_plain k : slash ∉ chars (clip_file k).
Proof.
  unfold clip_file. rewrite chars_app, not_elem_of_app. split; [apply pretty_no_slash|]. by apply (bool_decide_unpack _).
Qed.

Lemma clip_file_long k s : clip_file k = s -> (4 <= length (chars s))%nat.
Proof. intros <-. unfold clip_file. rewrite chars_app, length_app. simpl. lia. Qed.

(** The path of clip [k]'s copy. *)
Definition named (k : Z) (p : string) : Prop := file_name p = clip_file k.

Lemma partial_name k f : named k f -> file_name (partial_of f) = clip_file k +:+ PARTIAL_SUFFIX.
Proof.
  unfold named, partial_of, file_name at 1. intros Hn. destruct (split "/" f) as [|x l] using rev_ind; [symmetry in Hn; apply clip_file_long in Hn; simpl in Hn; lia|]. clear IHl.
  rewrite List.last_last in Hn. subst x. rewrite rev_app_distr. cbn [rev app].
  assert (str_eqb (clip_file k) "" || str_eqb (clip_file k) "." = false) as Hb.
  { unfold str_eqb. apply orb_false_iff. rewrite !bool_decide_eq_false.
    split; intros E%clip_file_long; simpl in E; lia. }
  assert (drop_blank (clip_file k :: rev l) = clip_file k :: rev l) as ->.
  { simpl. rewrite Hb. destruct (clip_file k) as [|a s] eqn:E; [done|]. repeat case_match; done. }
  cbn [rev]. rewrite rev_involutive. apply file_name_last. rewrite chars_app, not_elem_of_app. split; [apply clip_file_plain|].
  by apply (bool_decide_unpack _).
Qed.

Lemma partial_apart k k' f f' : named k f -> named k' f' -> k <> k' -> partial_of f <> partial_of f'.
Proof.
  intros Hf Hf' Hne E. apply (partial_name k) in Hf. apply (partial_name k') in Hf'. rewrite E, Hf' in Hf.
  apply (f_equal chars) in Hf. rewrite !chars_app in Hf. apply app_inv_tail, chars_inj, clip_file_inj in Hf. congruence.
Qed.

Lemma partial_not_named k k' f f' : named k f -> named k' f' -> partial_of f <> f'.
Proof.
  intros Hf Hf' E. apply (partial_name k) in Hf. rewrite E, Hf' in Hf. apply (f_equal (fun s => List.last (chars s) "a"%char)) in Hf.
  rewrite chars_app, (last_of_app _ (chars PARTIAL_SUFFIX)) in Hf by done. unfold clip_file in Hf. rewrite chars_app, last_of_app in Hf by done. done.
Qed.

Lemma named_apart k k' f f' : named k f -> named k' f' -> k <> k' -> f <> f'.
Proof. intros Hf Hf' Hne ->. apply Hne, clip_file_inj. unfold named in *. congruence. Qed.

(** ** The permits *)

Definition permits_out (m : gmap Z JobPhase) : Z := Z.of_nat (size (filter (fun '(_, p) => has_permit p = true) m)).

Definition b2z (b : bool) : Z := if b then 1 else 0.

Lemma permits_delete k m : permits_out (delete k m) = permits_out m - b2z (match m !! k with Some p => has_permit p | None => false end).
Proof.
  unfold permits_out. rewrite map_filter_delete. destruct (m !! k) as [p|] eqn:E; simpl.
  - destruct (has_permit p) eqn:Hp; simpl.
    + rewrite map_size_delete_Some by (exists p; by apply map_lookup_filter_Some).
      assert (size (filter (fun '(_, p) => has_permit p = true) m) <> 0)%nat; [|lia].
      intros Hs%map_size_empty_inv. assert (filter (fun '(_, p) => has_permit p = true) m !! k = Some p) as Hl by (by apply map_lookup_filter_Some).
      by rewrite Hs in Hl.
    + rewrite delete_id; [lia|]. apply map_lookup_filter_None. right. intros p' Hp'. congruence.
  - rewrite delete_id; [lia|]. apply map_lookup_filter_None. by left.
Qed.

Lemma permits_insert k p m : permits_out (<[k := p]> m) = permits_out (delete k m) + b2z (has_permit p).
Proof.
  rewrite <- insert_delete_eq. unfold permits_out. rewrite map_filter_insert. case_decide as Hp; simpl in Hp.
  - rewrite map_size_insert_None; [rewrite Hp; simpl; lia|]. apply map_lookup_filter_None. left. apply lookup_delete_eq.
  - rewrite delete_delete_eq. destruct (has_permit p); [done|]. simpl. lia.
Qed.

Lemma permits_heard (f : JobPhase -> JobPhase) m : (forall p, has_permit (f p) = has_permit p) -> permits_out (f <$> m) = permits_out m.
Proof.
  intros Hf. unfold permits_out. f_equal. rewrite map_filter_fmap, map_size_fmap. f_equal. apply map_filter_ext. intros k p _. by rewrite Hf.
Qed.

(** ** The invariant *)

Section invariant.
Context (sha256_hex : string -> string) (clips_dir : string) (registered : string -> bool).

#[local] Instance the_cache : Machine CacheOp Cache CacheOut := cache_machine sha256_hex clips_dir registered.

(** The paths of the cold copies are those of the replicator ([ColdReplicator.cold_path_clip]): named after
    the clip, and relative. *)
Definition cold_file (k : Z) (p : string) : Prop := named k p /\ starts_with p "/" = false.
Definition cold_named (d : Db) : Prop := map_Forall (fun k r => forall p, cold_path (cold r) = Some p -> cold_file k p) (clips d).

(** A target is what the clip's row says: as long as the row is there, its hash is the target's. *)
Record aimed (d : Db) (k : Z) (t : Target) : Prop := {
  aim_path : cold_file k (t_path t);
  aim_level : climbs (t_path t) = false;
  aim_old : k < next_clip d;
  aim_sha : forall r, clips d !! k = Some r -> sha256 (finish r) = Some (t_sha t);
}.

Definition target_of (p : JobPhase) : option Target :=
  match p with
  | Queued | Permitted => None
  | Located t | Downloading t _ | Verified t _ | Written t | Renamed t => Some t
  end.

(** What a job has so far. *)
Definition job_ok (d : Db) (files : gmap string string) (k : Z) (p : JobPhase) : Prop :=
  match p with
  | Queued | Permitted => True
  | Located t | Downloading t _ => aimed d k t
  | Verified t bytes => aimed d k t /\ sha256_hex bytes = t_sha t
  | Written t => aimed d k t /\ exists bytes, files !! partial_of (final_of clips_dir t) = Some bytes /\ sha256_hex bytes = t_sha t
  | Renamed t => aimed d k t /\ exists bytes, files !! final_of clips_dir t = Some bytes /\ sha256_hex bytes = t_sha t
  end.

Record cache_ok (c : Cache) : Prop := {
  co_permits : k_permits c + permits_out (k_jobs c) = Z.of_nat CACHE_MAX_INFLIGHT /\ 0 <= k_permits c;
  co_jobs : map_Forall (job_ok (k_db c) (k_files c)) (k_jobs c);
  co_db : cold_named (k_db c);
  co_tables : tables_ok (k_db c);
}.

(** The files a job of clip [k] works on. *)
Definition of_clip (k : Z) (p : string) : Prop := exists f, named k f /\ (p = f \/ p = partial_of f).

Lemma final_named k t : named k (t_path t) -> named k (final_of clips_dir t).
Proof. unfold named, final_of. by rewrite file_name_joined. Qed.

Lemma of_clip_apart k k' p : of_clip k p -> of_clip k' p -> k = k'.
Proof.
  intros (f & Hf & Hp) (f' & Hf' & Hp'). destruct (decide (k = k')) as [|Hne]; [done|exfalso].
  destruct Hp as [->| ->], Hp' as [E|E]; symmetry in E.
  - exact (named_apart _ _ _ _ Hf' Hf (not_eq_sym Hne) E).
  - exact (partial_not_named _ _ _ _ Hf' Hf E).
  - symmetry in E. exact (partial_not_named _ _ _ _ Hf Hf' E).
  - exact (partial_apart _ _ _ _ Hf' Hf (not_eq_sym Hne) E).
Qed.

Lemma aimed_named d k t : aimed d k t -> named k (final_of clips_dir t).
Proof. intros [[Hn _] _ _ _]. by apply final_named. Qed.

(** A job does not see what happens to the files of others. *)
Lemma job_ok_elsewhere d files files' k p : (forall q, of_clip k q -> files' !! q = files !! q) -> job_ok d files k p -> job_ok d files' k p.
Proof.
  intros Hq. destruct p as [| |t|t w|t b|t|t]; simpl; try done.
  - intros [Hn Hb]. split; [done|]. rewrite Hq; [done|]. exists (final_of clips_dir t). split; [by eapply aimed_named|by right].
  - intros [Hn Hb]. split; [done|]. rewrite Hq; [done|]. exists (final_of clips_dir t). split; [by eapply aimed_named|by left].
Qed.

Lemma jobs_elsewhere d k files files' (m : gmap Z JobPhase) : (forall q, ~ of_clip k q -> files' !! q = files !! q) ->
  map_Forall (job_ok d files) m -> map_Forall (job_ok d files') (delete k m).
Proof.
  intros Hq Hm k' p' [Hne Hp]%lookup_delete_Some. eapply job_ok_elsewhere; [|by apply Hm]. intros q Hk'. apply Hq. intros Hk.
  by apply Hne, (of_clip_apart k k' q).
Qed.

(** A job that goes on, or ends, over the files it left. *)
Lemma goes_ok k old p files c : cache_ok c -> k_jobs c !! k = Some old -> has_permit old = has_permit p ->
  (forall q, ~ of_clip k q -> files !! q = k_files c !! q) -> job_ok (k_db c) files k p -> cache_ok (goes k p (with_files files c)).2.
Proof.
  intros [[H1 H1'] H2 H3 H4] Hk Hold Hq Hp. split; simpl; [|by rewrite <- insert_delete_eq; apply map_Forall_insert_2; [|eapply jobs_elsewhere]|done..].
  rewrite permits_insert, permits_delete, Hk, Hold. split; lia.
Qed.

Lemma ends_ok k old a files c : cache_ok c -> k_jobs c !! k = Some old -> has_permit old = true ->
  (forall q, ~ of_clip k q -> files !! q = k_files c !! q) -> cache_ok (ends k a (with_files files c)).2.
Proof.
  intros [[H1 H1'] H2 H3 H4] Hk Hold Hq. split; simpl; [|by eapply jobs_elsewhere|done..].
  rewrite permits_delete, Hk, Hold. simpl. split; lia.
Qed.

Lemma with_files_same c : with_files (k_files c) c = c.
Proof. by destruct c. Qed.

Lemma locate_aimed k d t : tables_ok d -> cold_named d -> locate registered (get_clip k d) = Ok t -> aimed d k t.
Proof.
  intros Hd Hn. unfold locate, get_clip. destruct (clips d !! k) as [r|] eqn:Ek; [|done]. destruct (is_some _); [done|].
  destruct (cold_handle (cold r)), (cold_path (cold r)) as [p|] eqn:Ep, (sha256 (finish r)) as [sha|] eqn:Es; try done.
  destruct (_ <=? 0); [done|]. destruct (negb _); [done|]. destruct (climbs p) eqn:Ec; [done|]. intros [= <-].
  destruct (ok_clips _ Hd k r Ek) as (_ & Hlt & _). split; simpl; [by eapply (Hn k r)|done|done|]. intros r' Hr'. rewrite Ek in Hr'. by injection Hr' as <-.
Qed.

Lemma locate_refuses row a n : locate registered row = Err a -> a <> Ok (Rehydrated n).
Proof. unfold locate. repeat case_match; by intros [= <-]. Qed.

(** The statements leave the hash of a clip alone, but for the one that closes it; and no key comes back. *)
Definition sha_kept (k : Z) (d d' : Db) : Prop :=
  next_clip d <= next_clip d' /\ forall r', clips d' !! k = Some r' -> exists r, clips d !! k = Some r /\ sha256 (finish r') = sha256 (finish r).

Lemma aimed_kept d d' k t : sha_kept k d d' -> aimed d k t -> aimed d' k t.
Proof. intros [Hn Hs] [H1 H2 H3 H4]. split; [done..|lia|]. intros r' Hr'. destruct (Hs r' Hr') as (r & Hr & ->). by apply H4. Qed.

Lemma jobs_kept d d' files (m : gmap Z JobPhase) :
  (forall k p t, m !! k = Some p -> target_of p = Some t -> k < next_clip d -> sha_kept k d d') ->
  map_Forall (job_ok d files) m -> map_Forall (job_ok d' files) m.
Proof.
  intros Hs Hm k p Hk. specialize (Hm k p Hk). specialize (Hs k p). destruct p; simpl in *; try done;
    try (destruct Hm as [Hm Hb]; split; [|done]); (eapply aimed_kept; [eapply Hs; [done|done|apply Hm]|done]).
Qed.

Lemma sha_kept_refl k d : sha_kept k d d.
Proof. split; [lia|by eauto]. Qed.

Lemma update_sha k k' p f d : k <> k' \/ (forall r, sha256 (finish (f r)) = sha256 (finish r)) -> forall r', clips (update_clip k' p f d).2 !! k = Some r' ->
  exists r, clips d !! k = Some r /\ sha256 (finish r') = sha256 (finish r).
Proof.
  intros Hf r'. unfold update_clip. destruct (clips d !! k') as [r|] eqn:E; [|by eauto]. destruct (p r); [|by eauto]. destruct (clip_ok d (f r)); [|by eauto].
  simpl. intros [[<- <-]|[_ Hr]]%lookup_insert_Some; [|by eauto]. exists r. split; [done|]. by destruct Hf.
Qed.

Ltac by_update := intros r' Hr'; eapply update_sha; [|exact Hr']; right; by intros [].

Lemma clip_op_sha k o d : k < next_clip d -> (forall x, o <> CloseClip k x) -> sha_kept k d (clip_op o d).
Proof.
  intros Hk Hc. split; [apply next_clip_grows|]. destruct o; simpl in *;
    try (unfold mark_cold_replicated, record_clip_announce_sent, record_cold_upload_failure, quarantine_clip, clear_hot_pointer, repopulate_hot_pointer;
         rewrite ?found_state; by_update; fail).
  - unfold open_clip. case_match; [|by eauto]. simpl. intros r' [[<- _]|[_ Hr]]%lookup_insert_Some; [lia|by eauto].
  - unfold mark_clip_degraded, mbind, se_bind. intros r' Hr'. eapply (update_sha k k0 any (with_degraded (Some dropped))); [right; by intros []|].
    by destruct (update_clip _ _ _ d) as [[] ?].
  - unfold close_clip. rewrite found_state. intros r' Hr'. eapply update_sha; [|exact Hr']. left. intros ->. by eapply Hc.
  - unfold cascade_delete_clip_metadata. case_match; [|by eauto]. simpl. intros r' [_ Hr]%lookup_delete_Some. by eauto.
  - unfold insert_motion_event. by case_match; eauto.
  - unfold link_event_to_clip. repeat case_match; by eauto.
  - unfold bump_clip_priority, mbind, se_bind. intros r' Hr'. eapply (update_sha k k0 (fun r => priority r <? new) (with_priority new)); [right; by intros []|].
    by destruct (update_clip _ _ _ d) as [[] ?].
  - unfold bump_latest_pending_clip_for_camera, bump_clip_priority, mbind, se_bind, gets. simpl. destruct (head _) as [r|]; [|by eauto].
    intros r' Hr'. eapply (update_sha k (id r) (fun r => priority r <? new) (with_priority new)); [right; by intros []|].
    by destruct (update_clip _ _ _ d) as [[] ?].
  - unfold stamp_clip_announce, mbind, se_bind, gets. rewrite found_state. by_update.
  - unfold record_clip_announce_ack. simpl. intros r' Hr'. simpl in Hr'. rewrite lookup_fmap in Hr'.
    apply fmap_Some in Hr' as (r & Hr & ->). exists r. split; [done|]. by case_match; [destruct r|].
  - unfold write_cold_replica. repeat case_match; by eauto.
  - unfold upsert_storage_backend. case_match; by eauto.
  - unfold delete_storage_backend. repeat case_match; by eauto.
  - by eauto.
  - by eauto.
  - unfold discard_clip_metadata. case_match; [|by eauto]. simpl. intros r' [_ Hr]%lookup_delete_Some. by eauto.
Qed.

(** Statements leave a cold pointer alone, but for the mark of a replication. *)
Lemma update_cold k p f d : cold_named d -> (forall r, cold (f r) = cold r) -> cold_named (update_clip k p f d).2.
Proof.
  intros Hd Hf. unfold update_clip. destruct (clips d !! k) as [r|] eqn:E; [|done]. destruct (p r); [|done]. destruct (clip_ok d (f r)); [|done].
  apply map_Forall_insert_2; [|done]. intros q Hq. rewrite Hf in Hq. by eapply (Hd k r).
Qed.

Lemma cold_kept d d' : (forall k r', clips d' !! k = Some r' -> exists r, clips d !! k = Some r /\ cold r' = cold r) -> cold_named d -> cold_named d'.
Proof. intros H Hd k r' Hk p Hp. destruct (H k r' Hk) as (r & Hr & E). rewrite E in Hp. by eapply (Hd k r). Qed.

Definition names_well (o : ClipOp) : Prop := match o with MarkCold k m => forall p, cold_path (cold_of m) = Some p -> cold_file k p | _ => True end.

Lemma clip_op_named o d : names_well o -> cold_named d -> cold_named (clip_op o d).
Proof.
  intros Ho Hd. destruct o; simpl in *;
    try (unfold close_clip, record_clip_announce_sent, record_cold_upload_failure, quarantine_clip, clear_hot_pointer, repopulate_hot_pointer;
         rewrite ?found_state; apply update_cold; [done|by intros []]; fail).
  - unfold open_clip. case_match; [|done]. apply map_Forall_insert_2; [|done]. by intros p.
  - unfold mark_clip_degraded, mbind, se_bind. pose proof (update_cold k any (with_degraded (Some dropped)) d Hd ltac:(by intros [])).
    by destruct (update_clip _ _ _ d) as [[] ?].
  - unfold cascade_delete_clip_metadata. case_match; [|done]. by apply map_Forall_delete.
  - unfold insert_motion_event. by case_match.
  - unfold link_event_to_clip. by repeat case_match.
  - unfold bump_clip_priority, mbind, se_bind. pose proof (update_cold k (fun r => priority r <? new) (with_priority new) d Hd ltac:(by intros [])).
    by destruct (update_clip _ _ _ d) as [[] ?].
  - unfold bump_latest_pending_clip_for_camera, bump_clip_priority, mbind, se_bind, gets. simpl. destruct (head _) as [r|]; [|done].
    pose proof (update_cold (id r) (fun r => priority r <? new) (with_priority new) d Hd ltac:(by intros [])). by destruct (update_clip _ _ _ d) as [[] ?].
  - unfold mark_cold_replicated. rewrite found_state. unfold update_clip. destruct (clips d !! k) as [r|]; [|done]. case_match; [|done]. case_match; [|done].
    apply map_Forall_insert_2; [|done]. intros p Hp. apply Ho. by destruct r.
  - unfold stamp_clip_announce, mbind, se_bind, gets. rewrite found_state. apply update_cold; [done|by intros []].
  - unfold record_clip_announce_ack. simpl. eapply cold_kept; [|exact Hd]. intros k r' Hk. simpl in Hk. rewrite lookup_fmap in Hk.
    apply fmap_Some in Hk as (r & Hr & ->). exists r. split; [done|]. by case_match; [destruct r|].
  - unfold write_cold_replica. by repeat case_match.
  - unfold upsert_storage_backend. by case_match.
  - unfold delete_storage_backend. by repeat case_match.
  - done.
  - done.
  - unfold discard_clip_metadata. case_match; [|done]. by apply map_Forall_delete.
Qed.

Lemma repopulate_named k h p d : cold_named d -> cold_named (repopulate_hot_pointer k h p d).2.
Proof. intros Hd. exact (clip_op_named (RepopulateHot k h p) d I Hd). Qed.

(** Files written by a turn are the clip's own. *)
Lemma own_insert k q (b : string) (files : gmap string string) : of_clip k q -> forall q', ~ of_clip k q' -> <[q := b]> files !! q' = files !! q'.
Proof. intros Hq q' Hn. rewrite lookup_insert_ne; [done|]. by intros <-. Qed.

Lemma job_step_ok k env c : cache_ok c -> cache_ok (job_step sha256_hex clips_dir registered k env c).2.
Proof.
  intros Hc. unfold job_step. destruct (k_jobs c !! k) as [p|] eqn:Ek; [|done].
  pose proof (co_jobs c Hc k p Ek) as Hp.
  assert (forall a, has_permit p = true -> cache_ok (ends k a c).2) as Hend.
  { intros a Hh. pose proof (ends_ok k p a (k_files c) c Hc Ek Hh (fun _ _ => eq_refl)) as H. by rewrite with_files_same in H. }
  assert (forall p', has_permit p = has_permit p' -> job_ok (k_db c) (k_files c) k p' -> cache_ok (goes k p' c).2) as Hgo.
  { intros p' Hh Hj. pose proof (goes_ok k p p' (k_files c) c Hc Ek Hh (fun _ _ => eq_refl) Hj) as H. by rewrite with_files_same in H. }
  destruct p as [| |t|t w|t bytes|t|t]; simpl in Hp.
  - unfold permit. destruct (Z.leb_spec (k_permits c) 0); [done|]. destruct Hc as [[H1 H1'] H2 H3 H4]. cbn [k_signal with_permits].
    destruct (is_ok (k_signal c)); simpl; split; simpl; try done.
    + rewrite permits_insert, permits_delete, Ek. simpl. split; lia.
    + by apply map_Forall_insert_2.
    + rewrite permits_delete, Ek. simpl. split; lia.
    + by apply map_Forall_delete.
  - unfold read_row. destruct (te_ok env); cbn [negb]; [|by apply Hend]. destruct (locate registered (get_clip k (k_db c))) as [t|a] eqn:El; [|by apply Hend].
    apply Hgo; [done|]. simpl. apply locate_aimed; [apply Hc..|exact El].
  - unfold start_download. destruct (te_ok env); [by apply Hgo|by apply Hend].
  - unfold downloaded. destruct w; [by apply Hend|]. destruct (te_answer env) as [bytes|e]; [|by apply Hend].
    unfold str_eqb. case_bool_decide; [by apply Hgo|by apply Hend].
  - destruct Hp as [Hn Hs]. assert (of_clip k (partial_of (final_of clips_dir t))) as Hown by (exists (final_of clips_dir t); split; [by eapply aimed_named|by right]).
    unfold write_partial. destruct (te_fault env) as [[n|]|]; [| by apply Hend|].
    + apply (ends_ok k (Verified t bytes)); [done..|]. by apply own_insert.
    + apply (goes_ok k (Verified t bytes)); [done..|by apply own_insert|]. simpl. split; [done|]. exists bytes. by rewrite lookup_insert_eq.
  - destruct Hp as [Hn (bytes & Hb & Hs)]. unfold rename. rewrite Hb. destruct (te_ok env); [|by apply Hend].
    apply (goes_ok k (Written t)); [done..| |].
    + intros q Hq. rewrite lookup_insert_ne, lookup_delete_ne; [done|..]; intros <-; apply Hq; exists (final_of clips_dir t); (split; [by eapply aimed_named|]); [by right|by left].
    + simpl. split; [done|]. exists bytes. by rewrite lookup_insert_eq.
  - unfold repopulate. assert (forall d a, cold_named d -> tables_ok d -> (forall k', k' < next_clip (k_db c) -> sha_kept k' (k_db c) d) ->
      cache_ok (ends k a (with_db d c)).2) as Hdb.
    { intros d a Hd Ht Hs. pose proof (Hend a eq_refl) as [H1 H2 _ _]. split; [done| |done|done]. eapply jobs_kept; [|exact H2]. eauto. }
    destruct (te_ok env); [|by apply Hdb; [apply Hc..|intros; apply sha_kept_refl]].
    pose proof (repopulate_named k "local" (t_path t) (k_db c) (co_db c Hc)) as Hd.
    pose proof (clip_op_ok (RepopulateHot k "local" (t_path t)) (k_db c) (co_tables c Hc)) as Ht.
    assert (forall k', k' < next_clip (k_db c) -> sha_kept k' (k_db c) (clip_op (RepopulateHot k "local" (t_path t)) (k_db c))) as Hs by (intros k' Hk'; by apply clip_op_sha).
    cbn [clip_op] in Ht, Hs. destruct (repopulate_hot_pointer _ _ _ _) as [[] d]; by apply Hdb.
Qed.

(** ** Runs *)

(** What others do while jobs run: the replicator names its copies by clip, a clip is not closed again
    while it is being brought back, and nobody touches its files. *)
Definition fits (o : CacheOp) (c : Cache) : Prop :=
  match o with
  | StoreWrite o => names_well o /\ match o with CloseClip k _ => k_jobs c !! k ≫= target_of = None | _ => True end
  | Other p _ => forall k, is_Some (k_jobs c !! k) -> ~ of_clip k p
  | _ => True
  end.

Fixpoint undisturbed (ops : list CacheOp) (c : Cache) : Prop :=
  match ops with
  | [] => True
  | o :: ops => fits o c /\ undisturbed ops (cache_step sha256_hex clips_dir registered o c).1
  end.

Lemma cache_step_ok o c : fits o c -> cache_ok c -> cache_ok (cache_step sha256_hex clips_dir registered o c).1.
Proof.
  intros Hf Hc. destruct o; simpl in *.
  - unfold spawn. destruct (negb _); [done|]. destruct (k_jobs c !! k) eqn:E; [done|]. destruct Hc as [[H1 H1'] H2 H3 H4]. split; simpl; [| |done..].
    + rewrite permits_insert, permits_delete, E. simpl. split; lia.
    + by apply map_Forall_insert_2.
  - pose proof (job_step_ok k env c Hc) as H. by destruct (job_step _ _ _ _ _ _) as [[] c'].
  - unfold set_level. destruct Hc as [[H1 H1'] H2 H3 H4]. destruct (_ =? _); [by split|]. split; simpl; [| |done..].
    + rewrite permits_heard by (by intros []). done.
    + intros k p' Hk. rewrite lookup_fmap in Hk. apply fmap_Some in Hk as (p & Hp & ->). specialize (H2 k p Hp). by destruct p.
  - destruct Hc as [H1 H2 H3 H4], Hf as [Hf1 Hf2]. split; [done| |by apply clip_op_named|by apply clip_op_ok]. simpl.
    eapply jobs_kept; [|exact H2]. intros k p t Hk Ht Hlt. apply clip_op_sha; [done|]. intros x ->. rewrite Hk in Hf2. simpl in Hf2. congruence.
  - destruct Hc as [H1 H2 H3 H4]. split; [done| |done..]. simpl. intros k j Hk. eapply job_ok_elsewhere; [|by apply H2].
    intros q Hq. assert (p <> q) by (intros <-; by eapply Hf). destruct bytes; [by rewrite lookup_insert_ne|by rewrite lookup_delete_ne].
Qed.

Lemma undisturbed_ok ops c : undisturbed ops c -> cache_ok c -> cache_ok (mrun ops c).1.
Proof.
  revert c. induction ops as [|o ops IH]; intros c Hu Hc; [done|]. destruct Hu as [Hf Hu]. rewrite mrun_cons. cbn [fst].
  apply IH; [done|by apply cache_step_ok].
Qed.

Lemma cache_new_ok d files : cold_named d -> tables_ok d -> cache_ok (cache_new d files).
Proof. intros Hd Ht. split; done. Qed.

(** At most four downloads run at a time, whatever is asked for and however jobs end; and no permit is
    lost. *)
Lemma downloads_are_bounded ops c : undisturbed ops c -> cache_ok c ->
  let y := (mrun ops c).1 in
  permits_out (k_jobs y) <= Z.of_nat CACHE_MAX_INFLIGHT /\ k_permits y = Z.of_nat CACHE_MAX_INFLIGHT - permits_out (k_jobs y).
Proof. intros Hu Hc y. destruct (co_permits y (undisturbed_ok ops c Hu Hc)). lia. Qed.

(** C10. A hot pointer that the cache sets is good. When a job ends with its clip brought back, the file at
    the cold copy's path in the clips directory ([path_join] does not leave it: the path is relative and
    has no [..]) holds content whose SHA-256 is the hash on the clip's own row; if the pointer was still
    empty it now names that file, and no other row changes. Whatever the backend answered, whichever
    jobs, evictions, deletions, other writes of the store, pressure and failures came in between, as
    long as nobody else wrote the very files of a clip that is being brought back, or closed it again, and
    the cold copies are named as the replicator names them ([undisturbed]). *)
Theorem rehydrated_clip_is_verified ops c k env c' n : undisturbed ops c -> cache_ok c ->
  job_step sha256_hex clips_dir registered k env (mrun ops c).1 = (Some (Ok (Rehydrated n)), c') ->
  exists path bytes, climbs path = false /\ k_files c' !! (clips_dir +:+ "/" +:+ path) = Some bytes /\
    (forall k', k' <> k -> clips (k_db c') !! k' = clips (k_db (mrun ops c).1) !! k') /\
    match clips (k_db (mrun ops c).1) !! k with
    | Some row => sha256 (finish row) = Some (sha256_hex bytes) /\
        exists row', clips (k_db c') !! k = Some row' /\ sha256 (finish row') = Some (sha256_hex bytes) /\
          hot row' = if is_some (hot_handle (hot row)) then hot row else mkHot (Some "local"%string) (Some path)
    | None => clips (k_db c') !! k = None
    end.
Proof.
  intros Hu Hc. pose proof (undisturbed_ok ops c Hu Hc) as Hy. set (y := (mrun ops c).1) in *.
  unfold job_step. destruct (k_jobs y !! k) as [p|] eqn:Ek; [|done]. pose proof (co_jobs y Hy k p Ek) as Hp.
  destruct p as [| |t|t w|t bytes|t|t]; simpl in Hp.
  - unfold permit. by repeat case_match.
  - unfold read_row. destruct (negb _); [done|]. destruct (locate _ _) as [t|a] eqn:El; [done|].
    intros [= Ha _]. by apply (locate_refuses _ _ n) in El.
  - unfold start_download. by case_match.
  - unfold downloaded. by repeat case_match.
  - unfold write_partial. by repeat case_match.
  - unfold rename. by repeat case_match.
  - destruct Hp as [[[_ Hrel] Hlev _ Hsha] (bytes & Hb & Hs)]. unfold repopulate. destruct (te_ok env); [|done].
    destruct (repopulate_hot_pointer k "local" (t_path t) (k_db y)) as [[m|e] d] eqn:Er; [|done]. intros [= <- <-].
    exists (t_path t), bytes. split; [done|]. unfold final_of, path_join in Hb. rewrite Hrel in Hb. split; [done|]. cbn [k_db ends with_permits with_jobs with_db snd].
    rewrite Hs. unfold repopulate_hot_pointer, update_clip in Er. destruct (clips (k_db y) !! k) as [row|] eqn:Erow; [|by injection Er as <- <-].
    specialize (Hsha row eq_refl). destruct (hot_handle (hot row)) as [h|] eqn:Eh; simpl in Er.
    + injection Er as <- <-. split; [done|]. split; [done|]. by exists row.
    + destruct (clip_ok (k_db y) _); [|done]. injection Er as <- <-. split; [intros k' Hne; simpl; by rewrite lookup_insert_ne|]. split; [done|].
      eexists. split; [simpl; apply lookup_insert_eq|]. by destruct row.
Qed.

(** The files of the disk change only by the cache's own jobs, and a file at its final path only to
    content whose hash was verified. *)
Lemma hot_files_gain_verified_content k env c p : cache_ok c ->
  let c' := (job_step sha256_hex clips_dir registered k env c).2 in
  k_files c' !! p <> k_files c !! p -> named k p ->
  exists t bytes, k_jobs c !! k = Some (Written t) /\ p = final_of clips_dir t /\ k_files c' !! p = Some bytes /\ sha256_hex bytes = t_sha t.
Proof.
  intros Hc. unfold job_step. destruct (k_jobs c !! k) as [ph|] eqn:Ek; [|done]. pose proof (co_jobs c Hc k ph Ek) as Hp.
  destruct ph as [| |t|t w|t bytes|t|t]; simpl in Hp.
  - unfold permit. repeat case_match; by simpl.
  - unfold read_row. destruct (negb _); [by simpl|]. destruct (locate _ _); by simpl.
  - unfold start_download. case_match; by simpl.
  - unfold downloaded. repeat case_match; by simpl.
  - destruct Hp as [Hn _]. unfold write_partial. intros Hne Hk. exfalso.
    assert (partial_of (final_of clips_dir t) <> p) as Hd by (intros E; exact (partial_not_named k k _ _ (aimed_named _ k t Hn) Hk E)).
    destruct (te_fault env) as [[n|]|]; simpl in Hne; [by rewrite lookup_insert_ne in Hne|done|by rewrite lookup_insert_ne in Hne].
  - destruct Hp as [Hn (bytes & Hb & Hs)]. unfold rename. rewrite Hb. destruct (te_ok env); simpl; [|done]. intros Hne Hk.
    assert (partial_of (final_of clips_dir t) <> p) as Hd by (intros E; exact (partial_not_named k k _ _ (aimed_named _ k t Hn) Hk E)).
    destruct (decide (final_of clips_dir t = p)) as [<-|Hf]; [|by rewrite lookup_insert_ne, lookup_delete_ne in Hne].
    exists t, bytes. by rewrite lookup_insert_eq.
  - unfold repopulate. destruct (if te_ok env then _ else _) as [[] d]; by simpl.
Qed.

(** A download that hears of pressure brings nothing: its next turn ends it, with no file touched. *)
Lemma pressure_cancels_download l k t w env c : k_jobs c !! k = Some (Downloading t w) -> l <> LevelOk -> signal_level (k_signal c) <> l ->
  exists c', job_step sha256_hex clips_dir registered k env (set_level l c) = (Some (Ok WatermarkAborted), c') /\ k_files c' = k_files c /\ k_jobs c' !! k = None.
Proof.
  intros Hk Hl Hs. unfold set_level. assert (wakes (signal_set l (k_signal c)) =? wakes (k_signal c) = false) as ->.
  { unfold signal_set. simpl. rewrite bool_decide_true by (split; [done|]; exact Hs). lia. }
  unfold job_step. simpl. rewrite lookup_fmap, Hk. simpl. eexists. split; [done|]. split; [done|]. simpl. apply lookup_delete_eq.
Qed.
End invariant.

(** ** Examples *)

Definition demo_hash (b : string) : string := b +:+ "#".

(** A clip that was recorded, replicated and evicted. *)
Definition evicted : Db :=
  (mrun [UpsertBackend 0 "lan" "lan" "{}"; OpenClip (mkNewClip 1 0 "1/a/5_9.mp4" "local" "h264" "mp4" 1280 720);
         CloseClip 1 (mkClose 9 9000 4 None (Some "clip#")); MarkCold 1 (mkMark "lan" "1/a/1.mp4" 10); ClearHot 1] (migrated {[1]})).1.

Definition demo_turn : TurnEnv := mkTurn true (Ok "clip") None.
Definition turns (n : nat) : list CacheOp := repeat (JobTurn 1 demo_turn) n.
Definition demo_cache (ops : list CacheOp) : Cache :=
  (@mrun _ _ _ (cache_machine demo_hash "/clips" (fun h => str_eqb h "lan")) ops (cache_new evicted ∅)).1.

Example the_clip_comes_back :
  let c := demo_cache (Spawn 1 :: turns 7) in
  map_to_list (k_files c) = [("/clips/1/a/1.mp4", "clip")]%string /\ k_permits c = 4 /\
  (fun r => hot_path (hot r)) <$> clips (k_db c) !! 1 = Some (Some "1/a/1.mp4"%string).
Proof. vm_compute. split_and!; reflexivity. Qed.

(** Bytes that are not the clip's are dropped before anything is written. *)
Example corrupt_copy_is_dropped :
  let bad := JobTurn 1 (mkTurn true (Ok "torn") None) in
  let c := demo_cache (Spawn 1 :: repeat bad 7) in
  map_to_list (k_files c) = [] /\ (fun r => hot_path (hot r)) <$> clips (k_db c) !! 1 = Some None.
Proof. vm_compute. split; reflexivity. Qed.

(** Pressure that rises after the permit and before the download is not heard: the job fetches and
    writes on a disk that is at [Panic]. *)
Example early_pressure_is_missed :
  let c := demo_cache (Spawn 1 :: turns 1 ++ SetLevel Panic :: turns 6) in
  signal_level (k_signal c) = Panic /\ map_to_list (k_files c) = [("/clips/1/a/1.mp4", "clip")]%string.
Proof. vm_compute. split; reflexivity. Qed.

Lemma evicted_named : cold_named evicted.
Proof.
  intros k r Hk p Hp. assert (clips evicted = {[1 := default (fresh_clip 0 (mkNewClip 0 0 "" "" "" "" 0 0)) (clips evicted !! 1)]}) as E by (vm_compute; reflexivity).
  rewrite E in Hk. apply lookup_singleton_Some in Hk as [<- <-]. assert (p = "1/a/1.mp4"%string) as -> by (vm_compute in Hp; congruence).
  by vm_compute.
Qed.

Lemma evicted_ok : tables_ok evicted.
Proof. apply (mrun_invariant (fun _ => True) tables_ok); [|by apply Forall_true|apply migrated_ok]. intros o s _. apply clip_op_ok. Qed.

Lemma rehydrated_clip_is_verified_witness :
  exists c' path bytes row', job_step demo_hash "/clips" (fun h => str_eqb h "lan") 1 demo_turn (demo_cache (Spawn 1 :: turns 6)) = (Some (Ok (Rehydrated 4)), c') /\
    k_files c' !! ("/clips" +:+ "/" +:+ path) = Some bytes /\ clips (k_db c') !! 1 = Some row' /\ sha256 (finish row') = Some (demo_hash bytes) /\
    hot_path (hot row') = Some path.
Proof.
  assert ((job_step demo_hash "/clips" (fun h => str_eqb h "lan") 1 demo_turn (demo_cache (Spawn 1 :: turns 6))).1 = Some (Ok (Rehydrated 4))) as Ha
    by (vm_compute; reflexivity).
  assert (exists row, clips (k_db (demo_cache (Spawn 1 :: turns 6))) !! 1 = Some row /\ hot_handle (hot row) = None) as (row & Hrow & Hhot)
    by (eexists; split; [vm_compute; reflexivity|vm_compute; reflexivity]).
  destruct (job_step demo_hash "/clips" (fun h => str_eqb h "lan") 1 demo_turn (demo_cache (Spawn 1 :: turns 6))) as [a c'] eqn:E. simpl in Ha. subst a.
  destruct (rehydrated_clip_is_verified demo_hash "/clips" (fun h => str_eqb h "lan") (Spawn 1 :: turns 6) (cache_new evicted ∅) 1 demo_turn c' 4)
    as (path & bytes & _ & Hb & _ & H).
  - by repeat split.
  - apply cache_new_ok; [apply evicted_named|apply evicted_ok].
  - exact E.
  - change (mrun _ _).1 with (demo_cache (Spawn 1 :: turns 6)) in H. rewrite Hrow in H. destruct H as (_ & row' & Hr' & Hs & Hh). rewrite Hhot in Hh. simpl in Hh.
    exists c', path, bytes, row'. split; [done|]. split; [exact Hb|]. split; [exact Hr'|]. split; [exact Hs|]. by rewrite Hh.
Defined.
