(* ===== verification/ClipServe.v ===== *)
(** Playback of clips over HTTP ([nexus-engine/src/api/clips.rs]): the [Range] header, the handler
    [get_clip] for a clip on the local disk and [serve_from_cold] for one that is only in cold
    storage.

    The file system is known by its answers: [canonicalize] resolves symbolic links, [metadata] is the
    size at one moment and [content] what the open file reads at a later one, since a clip that is
    being recorded grows. A backend's stream is a function of the range. Error texts are left out. *)
From stdpp Require Import pretty.
From S2P Require Import Prelude Text Types ClipStore ColdStore ColdReplicator ColdReadCache.
From Stdlib Require Import Ascii.
Open Scope Z_scope.

Definition STUB_CLIP_BYTE_THRESHOLD : Z := 4096.

(** ** The [Range] header *)

(** The first element of [split(',')]. *)
Definition first_range (rest : string) : string := trim (List.hd "" (split "," rest)).

Definition parse_byte_range (raw : string) (file_size : Z) : option (Z * Z) :=
  if file_size =? 0 then None
  else
    rest ← strip_prefix "bytes=" (trim raw);
    '(start_str, end_str) ← split_once "-"%char (first_range rest);
    let start_str := trim start_str in
    let end_str := trim end_str in
    if str_eqb start_str "" then
      suffix ← parse_u64 end_str;
      if suffix =? 0 then None else Some (Z.max 0 (file_size - suffix), file_size - 1)
    else
      start ← parse_u64 start_str;
      if file_size <=? start then None
      else
        end_ ← (if str_eqb end_str "" then Some (file_size - 1) else parse_u64 end_str);
        let end_ := Z.min end_ (file_size - 1) in
        if end_ <? start then None else Some (start, end_).

(** ** Answers *)

Record Served := mkServed {
  sv_status : Z;
  sv_type : string;
  sv_length : Z;
  sv_range : option (Z * Z * Z);
  sv_body : string;
}.

Inductive Reply := Serves (x : Served) | Unavailable (reason : string) | Fails (status : Z).

Definition content_type (container : string) : string :=
  if str_eqb container "mp4" then "video/mp4"
  else if str_eqb container "webm" then "video/webm"
  else if str_eqb container "mkv" then "video/x-matroska"
  else "application/octet-stream".

(** The bytes from [start] to [end_inclusive]. *)
Definition window (start end_inclusive : Z) (b : string) : string :=
  of_chars (take (Z.to_nat (end_inclusive - start + 1)) (drop (Z.to_nat start) (chars b))).

(** [Path::starts_with], by components. *)
Definition components (p : string) : list string := List.filter (fun c => negb (str_eqb c "")) (split "/" p).
Definition starts_with_path (p root : string) : bool :=
  bool_decide (components root = take (length (components root)) (components p)).

Section serve.
Variable clips_dir : string.
Variable stub : bool.
(** The registry's backends: a handle that is known, and its stream of a range. *)
Variable registered : string -> bool.
Variable get_range_stream : string -> string -> Z -> Z -> result string BackendError.
(** [Err true]: not found. *)
Variable canonicalize : string -> result string bool.
Variable metadata : string -> option Z.
Variable content : string -> option string.
Variable seeks : string -> Z -> bool.

(** The reply, and whether the cache was asked to bring the clip back. *)
Definition serve_from_cold (clip : ClipRow) (range_header : option string) : Reply * bool :=
  match cold_handle (cold clip), cold_path (cold clip) with
  | None, _ | _, None => (Fails 404, false)
  | Some handle, Some path =>
      if size_bytes (finish clip) <=? 0 then (Fails 503, false)
      else if negb (registered handle) then (Fails 503, false)
      else
        let file_size := size_bytes (finish clip) in
        let range := range_header ≫= fun h => parse_byte_range h file_size in
        let kicked := negb (is_some range) in
        let '(start, end_inclusive) := default (0, file_size - 1) range in
        match get_range_stream handle path start end_inclusive with
        | Err _ => (Fails 502, kicked)
        | Ok body =>
            (Serves (mkServed (if kicked then 200 else 206) (content_type (container clip)) (end_inclusive - start + 1)
               (if kicked then None else Some (start, end_inclusive, file_size)) body), kicked)
        end
  end.

(** The local file. *)
Definition serve_hot (clip : ClipRow) (hot_rel : string) (range_header : option string) : Reply :=
  if climbs hot_rel then Fails 400
  else
    match canonicalize clips_dir with
    | Err _ => Fails 500
    | Ok root =>
        match canonicalize (path_join clips_dir hot_rel) with
        | Err true => Fails 404
        | Err false => Fails 500
        | Ok abs =>
            if negb (starts_with_path abs root) then Fails 400
            else
              match metadata abs with
              | None => Fails 500
              | Some file_size =>
                  if file_size =? 0 then Fails 503
                  else
                    let range := range_header ≫= fun h => parse_byte_range h file_size in
                    match content abs with
                    | None => Fails 500
                    | Some bytes =>
                        let type := content_type (container clip) in
                        match range with
                        | Some (start, end_) =>
                            if negb (seeks abs start) then Fails 416
                            else Serves (mkServed 206 type (end_ - start + 1) (Some (start, end_, file_size)) (window start end_ bytes))
                        | None => Serves (mkServed 200 type file_size None bytes)
                        end
                    end
              end
        end
    end.

(** [row]: what the store answers for the id. *)
Definition get_clip (row : result (option ClipRow) DbError) (range_header : option string) : Reply * bool :=
  match row with
  | Err _ => (Fails 500, false)
  | Ok None => (Fails 404, false)
  | Ok (Some clip) =>
      let n := size_bytes (finish clip) in
      if stub then (Unavailable "recorder=stub", false)
      else if is_some (ended_at (finish clip)) && (0 <? n) && (n <? STUB_CLIP_BYTE_THRESHOLD) then (Unavailable "no_samples", false)
      else
        match hot_path (hot clip) with
        | None => serve_from_cold clip range_header
        | Some p => (serve_hot clip p range_header, false)
        end
  end.
End serve.

(** ** The header *)

Lemma parse_digits_nonneg l : forall a n, 0 <= a -> parse_digits a l = Some n -> 0 <= n.
Proof.
  induction l as [|c l IH]; intros a n Ha; simpl; [by intros [= <-]|]. destruct (is_digit c) eqn:E; [|done]. apply IH.
  unfold is_digit, between in E. lia.
Qed.

Lemma parse_u64_range s n : parse_u64 s = Some n -> 0 <= n < 2 ^ 64.
Proof.
  unfold parse_u64. destruct (chars s) as [|c l]; [done|]. destruct (if bool_decide _ then _ else _) as [|c' l']; [done|].
  destruct (parse_digits 0 (c' :: l')) as [m|] eqn:E; [|done]. simpl. destruct (Z.ltb_spec m (2 ^ 64)); [|done]. intros [= <-].
  apply parse_digits_nonneg in E; lia.
Qed.

(** A range that is taken from a header lies inside the file. *)
Lemma range_inside raw file_size a b : 0 <= file_size -> parse_byte_range raw file_size = Some (a, b) -> 0 <= a <= b /\ b < file_size.
Proof.
  intros Hsize. unfold parse_byte_range. destruct (Z.eqb_spec file_size 0); [done|]. destruct (strip_prefix _ _) as [rest|]; [|done]. simpl.
  destruct (split_once _ _) as [[s e]|]; [|done]. simpl. destruct (str_eqb (trim s) "").
  - destruct (parse_u64 (trim e)) as [m|] eqn:E; [|done]. simpl. apply parse_u64_range in E. destruct (Z.eqb_spec m 0); [done|]. intros [= <- <-]. lia.
  - destruct (parse_u64 (trim s)) as [st|] eqn:E; [|done]. simpl. apply parse_u64_range in E. destruct (Z.leb_spec file_size st); [done|].
    destruct (if str_eqb (trim e) "" then _ else _) as [en|]; [|done]. simpl. destruct (Z.ltb_spec (Z.min en (file_size - 1)) st); [done|].
    intros [= <- <-]. lia.
Qed.

(** Text without blanks and commas, such as numbers and dashes. *)
Definition tight (c : ascii) : bool := negb (is_whitespace c) && negb (bool_decide (c = ","%char)).

Lemma drop_space_tight l : Forall (fun c => tight c = true) l -> drop_space l = l.
Proof. intros [|c l' Hc]; [done|]. simpl. unfold tight in Hc. by destruct (is_whitespace c). Qed.

Lemma trim_tight s : Forall (fun c => tight c = true) (chars s) -> trim s = s.
Proof.
  intros H. unfold trim, trim_chars. rewrite (drop_space_tight (chars s)) by done. rewrite drop_space_tight by by apply Forall_rev.
  rewrite rev_involutive. apply of_chars_chars.
Qed.

Lemma first_tight s : Forall (fun c => tight c = true) (chars s) -> first_range s = s.
Proof.
  intros H. unfold first_range, split. rewrite split_chars_none; [simpl; rewrite of_chars_chars; by apply trim_tight|].
  intros Hin. rewrite Forall_forall in H. by specialize (H _ Hin).
Qed.

Lemma digits_tight l : Forall (fun c => is_digit c = true) l -> Forall (fun c => tight c = true) l.
Proof.
  intros H. eapply Forall_impl; [exact H|]. intros c Hc. unfold tight. unfold is_digit, between in Hc.
  assert (is_whitespace c = false) as -> by (unfold is_whitespace, between; lia). rewrite bool_decide_false; [done|]. by intros ->.
Qed.

Lemma pretty_tight z : 0 <= z -> Forall (fun c => tight c = true) (chars (pretty z)).
Proof. intros Hz. destruct (pretty_digits z Hz) as (ds & -> & _ & Hd & _). by apply digits_tight. Qed.

Lemma pretty_not_empty z : 0 <= z -> str_eqb (pretty z) "" = false.
Proof. intros Hz. destruct (pretty_digits z Hz) as (ds & E & _ & _ & Hn). apply bool_decide_eq_false. intros Hp. rewrite Hp in E. by subst. Qed.

Lemma pretty_no_dash z : 0 <= z -> "-"%char ∉ chars (pretty z).
Proof. intros Hz Hin. destruct (pretty_digits z Hz) as (ds & E & _ & Hd & _). rewrite E in Hin. rewrite Forall_forall in Hd. by specialize (Hd _ Hin). Qed.

(** A header of two texts around a dash. *)
Lemma header_parts s e : Forall (fun c => tight c = true) (chars s) -> Forall (fun c => tight c = true) (chars e) -> "-"%char ∉ chars s ->
  strip_prefix "bytes=" (trim ("bytes=" +:+ s +:+ "-" +:+ e)) = Some (s +:+ "-" +:+ e) /\
  split_once "-"%char (first_range (s +:+ "-" +:+ e)) = Some (s, e) /\ trim s = s /\ trim e = e.
Proof.
  intros Hs He Hd.
  assert (Forall (fun c => tight c = true) (chars (s +:+ "-" +:+ e))) as Hall.
  { rewrite !chars_app. apply Forall_app. split; [done|]. apply Forall_app. split; [by repeat constructor|done]. }
  split_and!; [| |by apply trim_tight|by apply trim_tight].
  - rewrite trim_tight.
    + unfold strip_prefix. rewrite chars_app. simpl. by rewrite of_chars_chars.
    + rewrite chars_app. apply Forall_app. split; [by repeat constructor|done].
  - rewrite first_tight by done. by apply split_once_spec.
Qed.

(** The three forms of a range read back: [bytes=a-b] is cut at the end of the file, [bytes=a-] goes to
    the end, and [bytes=-n] is the last [n] bytes, or the whole file when it has fewer. *)
Lemma range_header_reads_back file_size a b n : 0 <= a < file_size -> a <= b < 2 ^ 64 -> file_size <= 2 ^ 64 -> 0 < n < 2 ^ 64 ->
  parse_byte_range ("bytes=" +:+ pretty a +:+ "-" +:+ pretty b) file_size = Some (a, Z.min b (file_size - 1)) /\
  parse_byte_range ("bytes=" +:+ pretty a +:+ "-" +:+ "") file_size = Some (a, file_size - 1) /\
  parse_byte_range ("bytes=" +:+ "" +:+ "-" +:+ pretty n) file_size = Some (Z.max 0 (file_size - n), file_size - 1).
Proof.
  intros Ha Hb Hs Hn. unfold parse_byte_range. rewrite (proj2 (Z.eqb_neq file_size 0)) by lia.
  assert (forall s, (0 <= s -> Forall (fun c => tight c = true) (chars (pretty s)))) as Ht by (intros s; apply pretty_tight).
  destruct (header_parts (pretty a) (pretty b)) as (E1 & E2 & E3 & E4); [apply Ht; lia|apply Ht; lia|apply pretty_no_dash; lia|].
  destruct (header_parts (pretty a) "") as (F1 & F2 & _ & F4); [apply Ht; lia|constructor|apply pretty_no_dash; lia|].
  destruct (header_parts "" (pretty n)) as (G1 & G2 & G3 & G4); [constructor|apply Ht; lia|by apply not_elem_of_nil|].
  rewrite E1, F1, G1. cbn [mbind option_bind]. rewrite E2, F2, G2. cbn [mbind option_bind]. rewrite E3, E4, F4, G4.
  rewrite !(pretty_not_empty a), (pretty_not_empty b), !(parse_pretty a), (parse_pretty b), (parse_pretty n) by lia. cbn [mbind option_bind str_eqb].
  rewrite (proj2 (Z.leb_gt file_size a)) by lia. simpl.
  rewrite (proj2 (Z.ltb_ge (Z.min b (file_size - 1)) a)) by lia. rewrite (proj2 (Z.eqb_neq n 0)) by lia.
  rewrite Z.min_id, (proj2 (Z.ltb_ge (file_size - 1) a)) by lia. done.
Qed.

(** ** What is served *)

Lemma length_window a b s : 0 <= a <= b -> b < blen s -> blen (window a b s) = b - a + 1.
Proof. intros Ha Hb. unfold blen, window, zlength in *. rewrite chars_of_chars, length_take, length_drop. lia. Qed.

Section served.
Context (clips_dir : string) (stub : bool) (registered : string -> bool) (get_range_stream : string -> string -> Z -> Z -> result string BackendError)
  (canonicalize : string -> result string bool) (metadata : string -> option Z) (content : string -> option string) (seeks : string -> Z -> bool).

Abbreviation clip_reply := (get_clip clips_dir stub registered get_range_stream canonicalize metadata content seeks).

(** The range a request of a clip of [n] bytes is answered with. *)
Definition asked (header : option string) (n : Z) : Z * Z := default (0, n - 1) (header ≫= fun h => parse_byte_range h n).

Lemma asked_inside header n : 0 < n -> 0 <= (asked header n).1 <= (asked header n).2 /\ (asked header n).2 < n.
Proof.
  intros Hn. unfold asked. destruct header as [h|]; simpl; [|lia]. destruct (parse_byte_range h n) as [[a b]|] eqn:E; simpl; [|lia].
  apply range_inside in E; lia.
Qed.

Lemma asked_none header n : (header ≫= fun h => parse_byte_range h n) = None -> asked header n = (0, n - 1).
Proof. unfold asked. by intros ->. Qed.

(** C11. Playback of a clip on the local disk: what is sent is a window of the clip's file, resolved to a
    path under the clips directory. It is the range the header asks for, announced as 206 with its
    place in the file, or the whole file, announced as 200; and while the file does not change the
    announced length is the length of the body. *)
Theorem playback_is_a_window clip p header x kicked : hot_path (hot clip) = Some p -> clip_reply (Ok (Some clip)) header = (Serves x, kicked) ->
  kicked = false /\ exists root abs size bytes,
    canonicalize clips_dir = Ok root /\ canonicalize (path_join clips_dir p) = Ok abs /\ starts_with_path abs root = true /\ climbs p = false /\
    metadata abs = Some size /\ content abs = Some bytes /\
    sv_length x = (asked header size).2 - (asked header size).1 + 1 /\
    (sv_range x = None /\ sv_status x = 200 /\ sv_body x = bytes /\ asked header size = (0, size - 1) \/
     sv_range x = Some ((asked header size).1, (asked header size).2, size) /\ sv_status x = 206 /\
       sv_body x = window (asked header size).1 (asked header size).2 bytes) /\
    (0 <= size -> blen bytes = size -> blen (sv_body x) = sv_length x /\ sv_body x = window (asked header size).1 (asked header size).2 bytes).
Proof.
  intros Hp. unfold get_clip. destruct stub; [done|]. destruct (_ && _); [done|]. rewrite Hp. intros [= E <-]. split; [done|].
  unfold serve_hot in E. destruct (climbs p) eqn:Ec; [done|]. destruct (canonicalize clips_dir) as [root|] eqn:Er; [|done].
  destruct (canonicalize (path_join clips_dir p)) as [abs|[]] eqn:Ea; [|done..]. destruct (starts_with_path abs root) eqn:Ew; [|done]. simpl in E.
  destruct (metadata abs) as [size|] eqn:Em; [|done]. destruct (Z.eqb_spec size 0) as [|Hne]; [done|]. destruct (content abs) as [bytes|] eqn:Eb; [|done].
  exists root, abs, size, bytes. do 6 (split; [done|]).
  destruct (header ≫= fun h => parse_byte_range h size) as [[a b]|] eqn:Eh.
  - assert (asked header size = (a, b)) as -> by (unfold asked; by rewrite Eh). cbn [fst snd].
    destruct (seeks abs a); [|done]. simpl in E. injection E as <-. simpl. split; [done|]. split; [by right|]. intros Hs Hlen.
    destruct header as [h|]; [|done]. simpl in Eh. destruct (range_inside h size a b Hs Eh). split; [|done]. apply length_window; lia.
  - rewrite (asked_none _ _ Eh). injection E as <-. simpl. split; [lia|]. split; [by left|]. intros Hs Hlen. split; [done|].
    unfold window, blen, zlength in *. simpl. rewrite drop_0, take_ge by lia. by rewrite of_chars_chars.
Qed.

(** Playback of a clip that is only in cold storage: the body is the backend's stream of the range that
    is announced, which lies inside the clip; the clip is brought back exactly when no range is
    asked for. *)
Lemma cold_playback_is_the_range clip header x kicked : hot_path (hot clip) = None -> clip_reply (Ok (Some clip)) header = (Serves x, kicked) ->
  exists handle path, cold_handle (cold clip) = Some handle /\ cold_path (cold clip) = Some path /\
    let n := size_bytes (finish clip) in let '(a, b) := asked header n in
    0 < n /\ 0 <= a <= b /\ b < n /\ get_range_stream handle path a b = Ok (sv_body x) /\ sv_length x = b - a + 1 /\
    sv_range x = (if kicked then None else Some (a, b, n)) /\ (kicked = true -> (a, b) = (0, n - 1)).
Proof.
  intros Hp. unfold get_clip. destruct stub; [done|]. destruct (_ && _); [done|]. rewrite Hp. unfold serve_from_cold.
  destruct (cold_handle (cold clip)) as [handle|]; [|done]. destruct (cold_path (cold clip)) as [path|]; [|done].
  destruct (Z.leb_spec (size_bytes (finish clip)) 0); [done|]. destruct (negb (registered handle)); [done|].
  set (n := size_bytes (finish clip)) in *. pose proof (asked_inside header n ltac:(lia)) as Hin. unfold asked in *.
  destruct (header ≫= fun h => parse_byte_range h n) as [[a b]|] eqn:Eh; simpl in *.
  - destruct (get_range_stream handle path a b) as [body|] eqn:Eg; [|done]. intros [= <- <-]. exists handle, path. split; [done|]. split; [done|]. simpl. split_and!; done || lia.
  - destruct (get_range_stream handle path 0 (n - 1)) as [body|] eqn:Eg; [|done]. intros [= <- <-]. exists handle, path. split; [done|]. split; [done|]. simpl. split_and!; done || lia.
Qed.
End served.

(** ** Examples *)

Definition demo_row : ClipRow := with_finish (mkFinish (Some 9) 9000 5000 (Some "h"%string)) (fresh_clip 1 (mkNewClip 1 0 "1/a/5_9.mp4" "local" "h264" "mp4" 1280 720)).

(** The file system resolves every path to itself. *)
Definition demo_reply (size : Z) (bytes : string) (header : option string) : Reply * bool :=
  get_clip "/clips" false (fun _ => true) (fun _ _ _ _ => Err BIo) Ok (fun _ => Some size) (fun _ => Some bytes) (fun _ _ => true) (Ok (Some demo_row)) header.

Example a_range_is_served :
  demo_reply 10 "0123456789" (Some " bytes=2-4, 7-9"%string) = (Serves (mkServed 206 "video/mp4" 3 (Some (2, 4, 10)) "234"), false).
Proof. vm_compute. reflexivity. Qed.

(** A range past the end is no range: the whole file is sent. *)
Example a_range_past_the_end : demo_reply 4 "0123" (Some "bytes=4-9"%string) = (Serves (mkServed 200 "video/mp4" 4 None "0123"), false).
Proof. vm_compute. reflexivity. Qed.

(** A clip that is still recorded has grown since its size was read: without a range the body is longer
    than the length that was announced. *)
Example a_growing_clip_overruns_its_length : demo_reply 4 "01234567" None = (Serves (mkServed 200 "video/mp4" 4 None "01234567"), false).
Proof. vm_compute. reflexivity. Qed.

Lemma range_header_reads_back_witness : parse_byte_range ("bytes=" +:+ pretty 3 +:+ "-" +:+ pretty 70) 10 = Some (3, 9).
Proof. destruct (range_header_reads_back 10 3 70 5) as [H _]; [lia|lia|lia|lia|exact H]. Defined.

Lemma playback_is_a_window_witness :
  exists x, demo_reply 10 "0123456789" (Some "bytes=2-4"%string) = (Serves x, false) /\ blen (sv_body x) = sv_length x.
Proof.
  eexists. split; [vm_compute; reflexivity|].
  destruct (playback_is_a_window "/clips" false (fun _ => true) (fun _ _ _ _ => Err BIo) Ok (fun _ => Some 10) (fun _ => Some "0123456789"%string) (fun _ _ => true)
    demo_row "1/a/5_9.mp4" (Some "bytes=2-4"%string) (mkServed 206 "video/mp4" 3 (Some (2, 4, 10)) "234") false) as (_ & root & abs & size & bytes & _ & _ & _ & _ & [= <-] & [= <-] & _ & _ & H);
    [reflexivity|vm_compute; reflexivity|]. apply H; [lia|reflexivity].
Defined.
