(* ===== verification/AdminAudit.v ===== *)
(** Audit rows of administration ([nexus-engine/src/auth/admin_audit.rs]): who is named on the row of an
    admin mutation, the write that must not disturb the mutation's answer, and the one that shares
    its transaction. *)
From stdpp Require Import pretty.
From S2P Require Import Prelude Types AuditLog RequireRole.

(** Kind, id and label of the actor. *)
Definition actor_triple (ctx : option SessionContext) : AuditActorKind * string * string :=
  match ctx with
  | Some sc =>
      (LocalUser, pretty (user_id sc),
       if is_legacy_admin sc then "system:legacy-admin:" +:+ jti sc else "user:" +:+ pretty (user_id sc))
  | None => (System, "0"%string, "system:unknown"%string)
  end.

(** What a handler tells about a mutation. *)
Record AdminAction := mkAction {
  ad_action : string;
  ad_kind : string;
  ad_id : option string;
  ad_before : option string;
  ad_after : option string;
}.

Definition admin_entry (actor : option SessionContext) (c : Client) (a : AdminAction) (o : AuditOutcome) : NewAuditEntry :=
  let '(kind, id, label) := actor_triple actor in
  mkEntry (Some kind) (Some id) label (ad_action a) (Some (ad_kind a)) (ad_id a) (ad_before a) (ad_after a) o
    (Some (c_ip c)) (c_ua c).

(** [up]: the write succeeds. A failure is logged and dropped. *)
Definition audit_admin_action (now : Z) (up : bool) (actor : option SessionContext) (c : Client) (a : AdminAction) (o : AuditOutcome)
    (log : AuditLog) : AuditLog :=
  if up then record_audit_event now (admin_entry actor c a o) log else log.

(** In the caller's transaction: a failure is the caller's. *)
Definition audit_admin_action_in_tx (now : Z) (up : bool) (actor : option SessionContext) (c : Client) (a : AdminAction)
    (log : AuditLog) : option AuditLog :=
  if up then Some (record_audit_event now (admin_entry actor c a Success) log) else None.

(** A row names its actor: two sessions of different users never share one, nor do a session and no
    session. *)
Lemma audit_names_the_actor a b : (forall sc, a = Some sc -> is_legacy_admin sc = false) -> (forall sc, b = Some sc -> is_legacy_admin sc = false) ->
  actor_triple a = actor_triple b -> (user_id <$> a) = (user_id <$> b).
Proof.
  intros Ha Hb. destruct a as [a|], b as [b|]; simpl; [|done..]. intros [= E _]. f_equal. by apply (inj pretty) in E.
Qed.

(** The log only grows, by at most one row, whose columns decode to the entry. *)
Lemma admin_audit_appends now up actor c a o log :
  let log' := audit_admin_action now up actor c a o log in
  log' = log \/ log' = log ++ [mkRow (kind_as_str (actor_triple actor).1.1) (outcome_as_str o) (admin_entry actor c a o) now].
Proof. unfold audit_admin_action, record_audit_event, admin_entry. destruct up; [right|by left]. by destruct (actor_triple actor) as [[k i] l]. Qed.
