(* ===== verification/SinkConfigs.v ===== *)
(** Sink configurations and their administration: the four kinds with their validation and the
    handling of their secrets ([nexus-config/src/sinks.rs]), the table of configured sinks
    ([nexus-store/src/sinks.rs]) and the handlers over it ([nexus-engine/src/api.rs]).

    A configuration travels to the table as JSON; the type of such texts, serde's printer and
    parser are parameters. The texts of errors are reduced to the field at fault, a handler's error to its status. *)
From stdpp Require Import pretty.
From S2P Require Import Prelude Text Order Types AuditLog Cameras RequireRole AdminAudit.

(** ** Configurations *)

Inductive SureViewRegion := Us | Eu.

Definition receiver_url (r : SureViewRegion) : string :=
  match r with Us => "https://us.sureviewops.com/receiver" | Eu => "https://eu.sureviewops.com/receiver" end.

Definition smtp_host (r : SureViewRegion) : string :=
  match r with Us => "us-smtp.sureviewops.com" | Eu => "eu-smtp.sureviewops.com" end.

Record WebhookSinkConfig := mkWebhook {
  wh_name : string;
  wh_url : Url;
  wh_headers : gmap string string;
  wh_secret : option string;
  wh_timeout_secs : Z;
}.

Record SureViewSinkConfig := mkSureView {
  sw_name : string;
  sw_region : SureViewRegion;
  sw_endpoint : option Url;
  sw_api_key : string;
  sw_system_identifier : string;
  sw_system_identifiers : gmap string string;
  sw_location : option string;
  sw_timeout_secs : Z;
}.

Record SureViewEmailSinkConfig := mkSureViewEmail {
  se_name : string;
  se_region : SureViewRegion;
  se_smtp_host : option string;
  se_smtp_port : Z;
  se_starttls : bool;
  se_from_address : string;
  se_alarm_email : string;
  se_alarm_emails : gmap string string;
  se_location : option string;
  se_attach_snapshot : bool;
  se_attach_clip : bool;
  se_username : option string;
  se_password : option string;
  se_timeout_secs : Z;
}.

Record EmailSinkConfig := mkEmail {
  em_name : string;
  em_smtp_host : string;
  em_smtp_port : Z;
  em_starttls : bool;
  em_from_address : string;
  em_from_name : option string;
  em_to : list string;
  em_cc : list string;
  em_reply_to : option string;
  em_subject_prefix : option string;
  em_attach_snapshot : bool;
  em_attach_clip : bool;
  em_username : option string;
  em_password : option string;
  em_timeout_secs : Z;
}.

Inductive SinkConfig :=
| Webhook (w : WebhookSinkConfig)
| SureView (s : SureViewSinkConfig)
| SureViewEmail (s : SureViewEmailSinkConfig)
| Email (s : EmailSinkConfig).

Definition kind (c : SinkConfig) : string :=
  match c with
  | Webhook _ => "webhook"
  | SureView _ => "sureview"
  | SureViewEmail _ => "sureview_email"
  | Email _ => "email"
  end.

Definition name (c : SinkConfig) : string :=
  match c with Webhook w => wh_name w | SureView s => sw_name s | SureViewEmail s => se_name s | Email s => em_name s end.

(** [format!("{}:{}", cfg.kind(), cfg.name())] *)
Definition sink_id_of (c : SinkConfig) : string := kind c +:+ ":" +:+ name c.

(** ** Validation *)

Definition check (ok : bool) (field : string) : result unit string := if ok then Ok tt else Err field.

Definition valid_name (n : string) : result unit string :=
  try? check (negb (str_eqb n "")) "name is empty" in check (negb (contains n ":")) "name contains ':'".

Definition is_http (u : Url) : bool := str_eqb (scheme u) "http" || str_eqb (scheme u) "https".

Definition is_address (a : string) : bool := contains a "@".

Definition validate_webhook (w : WebhookSinkConfig) : result unit string :=
  try? valid_name (wh_name w) in
  try? check (is_http (wh_url w)) "url scheme" in
  check (negb (wh_timeout_secs w =? 0)) "timeout_secs".

Definition validate_sureview (s : SureViewSinkConfig) : result unit string :=
  try? valid_name (sw_name s) in
  try? check (match sw_endpoint s with Some u => is_http u | None => true end) "endpoint scheme" in
  try? check (negb (str_eqb (sw_api_key s) "")) "api_key" in
  try? check (negb (str_eqb (sw_system_identifier s) "")) "system_identifier" in
  check (negb (sw_timeout_secs s =? 0)) "timeout_secs".

Definition resolved_smtp_host (s : SureViewEmailSinkConfig) : string :=
  match se_smtp_host s with Some h => h | None => smtp_host (se_region s) end.

Definition validate_sureview_email (s : SureViewEmailSinkConfig) : result unit string :=
  try? valid_name (se_name s) in
  try? check (is_address (se_from_address s)) "from_address" in
  try? check (is_address (se_alarm_email s)) "alarm_email" in
  try? check (forallb (fun '(_, a) => is_address a) (map_to_list (se_alarm_emails s))) "alarm_emails" in
  try? check (negb (str_eqb (resolved_smtp_host s) "")) "smtp_host" in
  try? check (negb (se_smtp_port s =? 0)) "smtp_port" in
  try? check (eqb (is_some (se_username s)) (is_some (se_password s))) "username and password" in
  check (negb (se_timeout_secs s =? 0)) "timeout_secs".

Definition validate_email (s : EmailSinkConfig) : result unit string :=
  try? valid_name (em_name s) in
  try? check (negb (str_eqb (trim (em_smtp_host s)) "")) "smtp_host" in
  try? check (negb (em_smtp_port s =? 0)) "smtp_port" in
  try? check (is_address (em_from_address s)) "from_address" in
  try? check (match em_to s with [] => false | _ => true end) "to" in
  try? check (forallb is_address (em_to s ++ em_cc s)) "recipient" in
  try? check (match em_reply_to s with Some a => is_address a | None => true end) "reply_to" in
  try? check (eqb (is_some (em_username s)) (is_some (em_password s))) "username and password" in
  check (negb (em_timeout_secs s =? 0)) "timeout_secs".

Definition validate (c : SinkConfig) : result unit string :=
  match c with
  | Webhook w => validate_webhook w
  | SureView s => validate_sureview s
  | SureViewEmail s => validate_sureview_email s
  | Email s => validate_email s
  end.

(** ** Where an alert goes *)

Definition resolved_endpoint (s : SureViewSinkConfig) : string :=
  match sw_endpoint s with Some u => url_text u | None => receiver_url (sw_region s) end.

Definition system_identifier_for (camera_id : Z) (s : SureViewSinkConfig) : string :=
  default (sw_system_identifier s) (sw_system_identifiers s !! pretty camera_id).

Definition alarm_email_for (camera_id : Z) (s : SureViewEmailSinkConfig) : string :=
  default (se_alarm_email s) (se_alarm_emails s !! pretty camera_id).

(** ** Secrets *)

Definition REDACTED_SECRET : string := "__nexus_secret_redacted__".

(** The secret of a configuration, and the configuration with another. A SureView key is always
    there. *)
Definition secret (c : SinkConfig) : option string :=
  match c with
  | Webhook w => wh_secret w
  | SureView s => Some (sw_api_key s)
  | SureViewEmail s => se_password s
  | Email s => em_password s
  end.

Definition with_secret (x : option string) (c : SinkConfig) : SinkConfig :=
  match c with
  | Webhook w => Webhook (mkWebhook (wh_name w) (wh_url w) (wh_headers w) x (wh_timeout_secs w))
  | SureView s =>
      SureView (mkSureView (sw_name s) (sw_region s) (sw_endpoint s) (default "" x) (sw_system_identifier s) (sw_system_identifiers s)
        (sw_location s) (sw_timeout_secs s))
  | SureViewEmail s =>
      SureViewEmail (mkSureViewEmail (se_name s) (se_region s) (se_smtp_host s) (se_smtp_port s) (se_starttls s) (se_from_address s)
        (se_alarm_email s) (se_alarm_emails s) (se_location s) (se_attach_snapshot s) (se_attach_clip s) (se_username s) x (se_timeout_secs s))
  | Email s =>
      Email (mkEmail (em_name s) (em_smtp_host s) (em_smtp_port s) (em_starttls s) (em_from_address s) (em_from_name s) (em_to s) (em_cc s)
        (em_reply_to s) (em_subject_prefix s) (em_attach_snapshot s) (em_attach_clip s) (em_username s) x (em_timeout_secs s))
  end.

Definition redact_secrets (c : SinkConfig) : SinkConfig :=
  match c with
  | Webhook w => if is_some (wh_secret w) then with_secret (Some REDACTED_SECRET) c else c
  | SureView _ => with_secret (Some REDACTED_SECRET) c
  | SureViewEmail s => if is_some (se_password s) then with_secret (Some REDACTED_SECRET) c else c
  | Email s => if is_some (em_password s) then with_secret (Some REDACTED_SECRET) c else c
  end.

Definition is_sentinel (x : option string) : bool := bool_decide (x = Some REDACTED_SECRET).

Definition restore_redacted_secrets_from (existing new : SinkConfig) : SinkConfig :=
  match new, existing with
  | Webhook n, Webhook o => if is_sentinel (wh_secret n) then with_secret (wh_secret o) new else new
  | SureView n, SureView o => if str_eqb (sw_api_key n) REDACTED_SECRET then with_secret (Some (sw_api_key o)) new else new
  | SureViewEmail n, SureViewEmail o => if is_sentinel (se_password n) then with_secret (se_password o) new else new
  | Email n, Email o => if is_sentinel (em_password n) then with_secret (em_password o) new else new
  | _, _ => new
  end.

Definition has_redacted_secret (c : SinkConfig) : bool :=
  match c with
  | Webhook w => is_sentinel (wh_secret w)
  | SureView s => str_eqb (sw_api_key s) REDACTED_SECRET
  | SureViewEmail s => is_sentinel (se_password s)
  | Email s => is_sentinel (em_password s)
  end.

(** ** The table *)

Section table.
Context {Json : Type}.

Record AlertSinkRow := mkSinkRow {
  row_id : string;
  row_kind : string;
  row_name : string;
  config_json : Json;
  updated_at : Z;
}.

#[local] Abbreviation SinksTable := (gmap string AlertSinkRow).

(** [ORDER BY updated_at ASC, sink_id ASC] *)
Definition oldest_updated (a b : AlertSinkRow) : comparison :=
  cthen (Z.compare (updated_at a) (updated_at b)) (String.compare (row_id a) (row_id b)).

Definition alert_sinks_list (t : SinksTable) : list AlertSinkRow := sort_by oldest_updated (snd <$> map_to_list t).

Definition alert_sink_get (id : string) (t : SinksTable) : option AlertSinkRow := t !! id.

Definition alert_sink_upsert (now : Z) (id knd nm : string) (json : Json) (t : SinksTable) : SinksTable :=
  <[id := mkSinkRow id knd nm json now]> t.

Definition alert_sink_delete (id : string) (t : SinksTable) : bool * SinksTable := (is_some (t !! id), delete id t).
End table.
Arguments AlertSinkRow : clear implicits.
Abbreviation SinksTable Json := (gmap string (AlertSinkRow Json)).

(** ** The handlers *)

Record SinkAdmin (Json : Type) := mkAdmin {
  a_sinks : SinksTable Json;
  a_audit : AuditLog;
  a_signals : Z;
}.
Arguments mkAdmin {Json}.
Arguments a_sinks {Json}.
Arguments a_audit {Json}.
Arguments a_signals {Json}.

Definition on_sinks {Json} (f : SinksTable Json -> SinksTable Json) (a : SinkAdmin Json) : SinkAdmin Json := mkAdmin (f (a_sinks a)) (a_audit a) (a_signals a).
Definition on_audit {Json} (f : AuditLog -> AuditLog) (a : SinkAdmin Json) : SinkAdmin Json := mkAdmin (a_sinks a) (f (a_audit a)) (a_signals a).
(** A message on the bus, after which the registry is built again. *)
Definition signal {Json} (a : SinkAdmin Json) : SinkAdmin Json := mkAdmin (a_sinks a) (a_audit a) (a_signals a + 1).

Inductive Source := FileSource | CloudSource.

Record AdminSinkView := mkView {
  v_sink_id : string;
  v_kind : string;
  v_name : string;
  v_source : Source;
  v_active : bool;
  v_config : SinkConfig;
}.

(** What a request meets: which calls succeed, and the writes of other requests between its read and
    its write. *)
Inductive RowOp := RowPut (now : Z) (c : SinkConfig) | RowDelete (id : string).

Record SinkEnv := mkSinkEnv {
  ev_now : Z;
  ev_read : bool;
  ev_between : list RowOp;
  ev_write : bool;
  ev_audit : bool;
}.

Section admin.
Context {Json : Type}.
Variable to_json : SinkConfig -> Json.
Variable from_json : Json -> option SinkConfig.
(** The characters of a text, for the audit log. *)
Variable json_text : Json -> string.
(** The sinks of [nexus.toml], and the ids in the live registry. *)
Variable file_sinks : list SinkConfig.
Variable active : gset string.

Definition row_op (o : RowOp) (t : SinksTable Json) : SinksTable Json :=
  match o with
  | RowPut now c => alert_sink_upsert now (sink_id_of c) (kind c) (name c) (to_json c) t
  | RowDelete id => (alert_sink_delete id t).2
  end.

Definition others (l : list RowOp) : SE (SinkAdmin Json) Z unit := modify (on_sinks (fun t => foldl (fun t o => row_op o t) t l)).

(** The list being built: the ids in order, and what each is. *)
Definition overlay (m : list string * gmap string (Source * SinkConfig)) (id : string) (x : Source * SinkConfig) :
    list string * gmap string (Source * SinkConfig) :=
  (if is_some (m.2 !! id) then m.1 else m.1 ++ [id], <[id := x]> m.2).

Fixpoint overlay_rows (m : list string * gmap string (Source * SinkConfig)) (rows : list (AlertSinkRow Json)) :
    result (list string * gmap string (Source * SinkConfig)) Z :=
  match rows with
  | [] => Ok m
  | r :: rows' =>
      match from_json (config_json r) with
      | None => Err 500
      | Some c => overlay_rows (overlay m (row_id r) (CloudSource, c)) rows'
      end
  end.

Definition view (id : string) (src : Source) (c : SinkConfig) : AdminSinkView :=
  let c := redact_secrets c in
  mkView id (kind c) (name c) src (bool_decide (id ∈ active)) c.

Definition get_admin_sinks (t : SinksTable Json) : result (list AdminSinkView) Z :=
  let files := foldl (fun m c => overlay m (sink_id_of c) (FileSource, c)) ([], ∅) file_sinks in
  match overlay_rows files (alert_sinks_list t) with
  | Err e => Err e
  | Ok m => Ok (omap (fun id => (fun x => view id x.1 x.2) <$> m.2 !! id) m.1)
  end.

Definition redacted_sink_json (c : SinkConfig) : string := json_text (to_json (redact_secrets c)).

Definition stored (id : string) (t : SinksTable Json) : option SinkConfig := alert_sink_get id t ≫= fun r => from_json (config_json r).

Definition put_admin_sink (env : SinkEnv) (actor : SessionContext) (client : Client) (path_kind path_name : string) (cfg : SinkConfig) :
    SE (SinkAdmin Json) Z AdminSinkView :=
  guard_err (str_eqb (kind cfg) path_kind && str_eqb (name cfg) path_name) 400 ;;
  let sink_id := path_kind +:+ ":" +:+ path_name in
  guard_err (ev_read env) 500 ;;
  existing ← gets (fun a => stored sink_id (a_sinks a));
  let cfg := match existing with Some old => restore_redacted_secrets_from old cfg | None => cfg end in
  guard_err (negb (has_redacted_secret cfg)) 400 ;;
  guard_err (match validate cfg with Ok _ => true | Err _ => false end) 400 ;;
  others (ev_between env) ;;
  guard_err (ev_write env) 500 ;;
  modify (on_sinks (alert_sink_upsert (ev_now env) sink_id path_kind path_name (to_json cfg))) ;;
  modify (on_audit (audit_admin_action (ev_now env) (ev_audit env) (Some actor) client
    (mkAction "sink.config.put" "admin/sinks" (Some sink_id) (redacted_sink_json <$> existing) (Some (redacted_sink_json cfg))) Success)) ;;
  modify signal ;;
  mret (view sink_id CloudSource cfg).

Definition delete_admin_sink (env : SinkEnv) (actor : SessionContext) (client : Client) (path_kind path_name : string) : SE (SinkAdmin Json) Z unit :=
  let sink_id := path_kind +:+ ":" +:+ path_name in
  guard_err (ev_read env) 500 ;;
  existing ← gets (fun a => stored sink_id (a_sinks a));
  others (ev_between env) ;;
  guard_err (ev_write env) 500 ;;
  removed ← (fun a => let '(b, t) := alert_sink_delete sink_id (a_sinks a) in (Ok b, on_sinks (fun _ => t) a));
  guard_err removed 404 ;;
  modify (on_audit (audit_admin_action (ev_now env) (ev_audit env) (Some actor) client
    (mkAction "sink.config.delete" "admin/sinks" (Some sink_id) (redacted_sink_json <$> existing) None) Success)) ;;
  modify signal.
End admin.

Inductive AdminOp :=
| GetSinks (up : bool)
| PutSink (env : SinkEnv) (actor : SessionContext) (client : Client) (path_kind path_name : string) (cfg : SinkConfig)
| DeleteSink (env : SinkEnv) (actor : SessionContext) (client : Client) (path_kind path_name : string).

Inductive AdminOut := Views (r : result (list AdminSinkView) Z) | Stored (r : result AdminSinkView Z) | Deleted (r : result unit Z).

Definition admin_step {Json} to_json from_json json_text file_sinks active (o : AdminOp) (a : SinkAdmin Json) : SinkAdmin Json * AdminOut :=
  match o with
  | GetSinks up => (a, Views (if up then get_admin_sinks from_json file_sinks active (a_sinks a) else Err 500))
  | PutSink env actor client k n c => let '(r, a) := put_admin_sink to_json from_json json_text active env actor client k n c a in (a, Stored r)
  | DeleteSink env actor client k n => let '(r, a) := delete_admin_sink to_json from_json json_text env actor client k n a in (a, Deleted r)
  end.

#[export] Instance admin_machine {Json} to_json from_json json_text file_sinks active : Machine AdminOp (SinkAdmin Json) AdminOut :=
  admin_step to_json from_json json_text file_sinks active.

(** ** Redaction and restoring *)

Lemma kind_with_secret x c : kind (with_secret x c) = kind c.
Proof. by destruct c. Qed.

Lemma name_with_secret x c : name (with_secret x c) = name c.
Proof. by destruct c. Qed.

Lemma redact_is c : redact_secrets c = c \/ redact_secrets c = with_secret (Some REDACTED_SECRET) c.
Proof. destruct c as [c|c|c|c]; simpl; [destruct (wh_secret c)| |destruct (se_password c)|destruct (em_password c)]; auto. Qed.

Lemma id_redact c : sink_id_of (redact_secrets c) = sink_id_of c.
Proof. unfold sink_id_of. destruct (redact_is c) as [-> | ->]; [done|]. by rewrite kind_with_secret, name_with_secret. Qed.

Lemma redact_idem c : redact_secrets (redact_secrets c) = redact_secrets c.
Proof. destruct c as [[? ? ? []]| |[? ? ? ? ? ? ? ? ? ? ? ? [] ?]|[? ? ? ? ? ? ? ? ? ? ? ? ? [] ?]]; done. Qed.

Lemma id_restore o c : sink_id_of (restore_redacted_secrets_from o c) = sink_id_of c.
Proof. unfold sink_id_of. destruct o, c; simpl; try done; case_match; done. Qed.

Lemma kind_restore o c : kind (restore_redacted_secrets_from o c) = kind c.
Proof. destruct o, c; simpl; try done; case_match; done. Qed.

Lemma name_restore o c : name (restore_redacted_secrets_from o c) = name c.
Proof. destruct o, c; simpl; try done; case_match; done. Qed.

(** What was redacted is restored. *)
Lemma restore_redacted c : restore_redacted_secrets_from c (redact_secrets c) = c.
Proof. destruct c as [[? ? ? []]|[]|[? ? ? ? ? ? ? ? ? ? ? ? [] ?]|[? ? ? ? ? ? ? ? ? ? ? ? ? [] ?]]; done. Qed.

(** An edit that echoes the sentinel keeps the secret and nothing else. *)
Lemma restore_edit o c : kind o = kind c -> secret c = Some REDACTED_SECRET -> restore_redacted_secrets_from o c = with_secret (secret o) c.
Proof. destruct o as [o|o|o|o], c as [c|c|c|c]; simpl; intros E1 E2; try done; try (by rewrite E2). by injection E2 as ->. Qed.

(** Configurations that differ in a secret only; the secrets are proper ones. *)
Definition proper (c : SinkConfig) : Prop := validate c = Ok tt /\ has_redacted_secret c = false.

Lemma same_but_secret o1 o2 : redact_secrets o1 = redact_secrets o2 ->
  exists x, o2 = with_secret x o1 /\ is_some x = is_some (secret o1) /\ x = secret o2.
Proof.
  intros H. exists (secret o2). split; [|split; [|done]];
    (destruct o1 as [[? ? ? []]|[]|[? ? ? ? ? ? ? ? ? ? ? ? [] ?]|[? ? ? ? ? ? ? ? ? ? ? ? ? [] ?]], o2 as [[? ? ? []]|[]|[? ? ? ? ? ? ? ? ? ? ? ? [] ?]|[? ? ? ? ? ? ? ? ? ? ? ? ? [] ?]]; try done; simpl in *; by simplify_eq).
Qed.

Lemma validate_secret x y c : is_some x = is_some y -> (kind c = "sureview"%string -> x <> Some ""%string /\ y <> Some ""%string) ->
  validate (with_secret x c) = validate (with_secret y c).
Proof.
  intros Hs Hk. destruct c as [c|c|c|c]; simpl.
  - done.
  - destruct (Hk eq_refl) as [Hx Hy]. unfold validate_sureview. simpl.
    destruct x as [x|], y as [y|]; [|done|done|done]. simpl.
    unfold str_eqb. by rewrite (bool_decide_eq_false_2 (x = ""%string)), (bool_decide_eq_false_2 (y = ""%string)) by congruence.
  - unfold validate_sureview_email. simpl. by rewrite Hs.
  - unfold validate_email. simpl. by rewrite Hs.
Qed.

Lemma proper_key c : proper c -> kind c = "sureview"%string -> secret c <> Some ""%string.
Proof.
  intros [Hv _]. destruct c as [|c| |]; try done. intros _ [= E]. simpl in Hv. unfold validate_sureview in Hv. rewrite E in Hv. cbn in Hv.
  repeat case_match; done.
Qed.

Lemma kind_redact c : kind (redact_secrets c) = kind c.
Proof. destruct (redact_is c) as [-> | ->]; [done|apply kind_with_secret]. Qed.

Lemma redact_with_secret x y c : is_some x = is_some y -> redact_secrets (with_secret x c) = redact_secrets (with_secret y c).
Proof. destruct c, x, y; done. Qed.

Lemma has_redacted_with x c : is_sentinel x = false -> (kind c = "sureview"%string -> is_some x = true) -> has_redacted_secret (with_secret x c) = false.
Proof. destruct c; simpl; [done| |done|done]. intros Hs Hk. destruct x; [|by specialize (Hk eq_refl)]. unfold is_sentinel, str_eqb in *. apply bool_decide_eq_false in Hs. apply bool_decide_eq_false. simpl. congruence. Qed.

Lemma proper_secret c : proper c -> is_sentinel (secret c) = false.
Proof.
  intros [_ H]. destruct c; simpl in *; try done. unfold is_sentinel, str_eqb in *. apply bool_decide_eq_false in H. apply bool_decide_eq_false. congruence.
Qed.

Lemma secret_sureview c : kind c = "sureview"%string -> is_some (secret c) = true.
Proof. by destruct c. Qed.

(** Restoring from configurations that differ in a secret only cannot be told apart. *)
Lemma restore_alike o1 o2 c : proper o1 -> proper o2 -> redact_secrets o1 = redact_secrets o2 ->
  let r1 := restore_redacted_secrets_from o1 c in let r2 := restore_redacted_secrets_from o2 c in
  redact_secrets r1 = redact_secrets r2 /\ has_redacted_secret r1 = has_redacted_secret r2 /\ validate r1 = validate r2.
Proof.
  intros H1 H2 Hr. pose proof (f_equal kind Hr) as Hk. rewrite !kind_redact in Hk.
  destruct (decide (kind o1 = kind c /\ secret c = Some REDACTED_SECRET)) as [[E1 Es]|Hn].
  - simpl. rewrite (restore_edit o1 c), (restore_edit o2 c) by congruence. destruct (same_but_secret o1 o2 Hr) as (x & _ & Hx & Ex). subst x.
    split; [by apply redact_with_secret|]. split.
    + rewrite !has_redacted_with; [done|by apply proper_secret| |by apply proper_secret|]; intros Ek; apply secret_sureview; congruence.
    + apply validate_secret; [done|]. intros Ek. split; apply proper_key; done || congruence.
  - assert (forall o, kind o = kind o1 -> restore_redacted_secrets_from o c = c) as Hc.
    { intros o Ho. destruct o as [o|o|o|o], c as [c|c|c|c]; simpl; try done; unfold is_sentinel, str_eqb; rewrite bool_decide_false; try done;
        intros E; apply Hn; (split; [by rewrite <- Ho|]); simpl; congruence. }
    simpl. by rewrite (Hc o1), (Hc o2) by congruence.
Qed.

(** ** Runs of the administration *)

Section runs.
Context {Json : Type} (to_json : SinkConfig -> Json) (from_json : Json -> option SinkConfig) (json_text : Json -> string).

Abbreviation after_others env a := (on_sinks (fun t => foldl (fun t o => row_op to_json o t) t (ev_between env)) a).

Definition resolve (id : string) (t : SinksTable Json) (cfg : SinkConfig) : SinkConfig :=
  match stored from_json id t with Some old => restore_redacted_secrets_from old cfg | None => cfg end.

Definition is_valid (c : SinkConfig) : bool := match validate c with Ok _ => true | Err _ => false end.

Definition put_entry (id : string) (old : option SinkConfig) (c : SinkConfig) : AdminAction :=
  mkAction "sink.config.put" "admin/sinks" (Some id) (redacted_sink_json to_json json_text <$> old) (Some (redacted_sink_json to_json json_text c)).

(** A PUT, branch by branch. *)
Lemma put_run active env actor client k n cfg a : let id := k +:+ ":" +:+ n in let c := resolve id (a_sinks a) cfg in
  put_admin_sink to_json from_json json_text active env actor client k n cfg a =
  if negb (str_eqb (kind cfg) k && str_eqb (name cfg) n) then (Err 400, a)
  else if negb (ev_read env) then (Err 500, a)
  else if has_redacted_secret c || negb (is_valid c) then (Err 400, a)
  else if negb (ev_write env) then (Err 500, after_others env a)
  else (Ok (view active id CloudSource c),
        signal (on_audit (audit_admin_action (ev_now env) (ev_audit env) (Some actor) client (put_entry id (stored from_json id (a_sinks a)) c) Success)
          (on_sinks (alert_sink_upsert (ev_now env) id k n (to_json c)) (after_others env a)))).
Proof.
  cbv zeta. unfold put_admin_sink, mbind, se_bind, guard_err, mret, se_ret, throw, gets, modify, others. unfold resolve, is_valid.
  destruct (_ && _); [|done]. destruct (ev_read env); [|done]. simpl. set (c := match stored _ _ _ with Some _ => _ | None => _ end).
  destruct (has_redacted_secret c); [done|]. simpl. destruct (validate c); [|done]. simpl. by destruct (ev_write env).
Qed.

Lemma delete_run env actor client k n a : let id := k +:+ ":" +:+ n in
  delete_admin_sink to_json from_json json_text env actor client k n a =
  if negb (ev_read env) then (Err 500, a)
  else if negb (ev_write env) then (Err 500, after_others env a)
  else let a1 := on_sinks (delete id) (after_others env a) in
       if is_some (a_sinks (after_others env a) !! id) then
         (Ok tt, signal (on_audit (audit_admin_action (ev_now env) (ev_audit env) (Some actor) client
            (mkAction "sink.config.delete" "admin/sinks" (Some id) (redacted_sink_json to_json json_text <$> stored from_json id (a_sinks a)) None) Success) a1))
       else (Err 404, a1).
Proof.
  cbv zeta. unfold delete_admin_sink, mbind, se_bind, guard_err, mret, se_ret, throw, gets, modify, others.
  destruct (ev_read env); [|done]. simpl. destruct (ev_write env); [|done]. simpl. by destruct (_ !! _).
Qed.

Context (Hjson : forall c, from_json (to_json c) = Some c).

(** A row holds a valid configuration under its id, with a secret of its own. *)
Definition row_good (id : string) (r : AlertSinkRow Json) : Prop :=
  exists c, from_json (config_json r) = Some c /\ row_id r = id /\ id = sink_id_of c /\ row_kind r = kind c /\ row_name r = name c /\ proper c.

Definition table_good (t : SinksTable Json) : Prop := map_Forall row_good t.

(** Other requests write what requests write. *)
Definition env_good (env : SinkEnv) : Prop := Forall (fun o => match o with RowPut _ c => proper c | RowDelete _ => True end) (ev_between env).

Definition op_good (o : AdminOp) : Prop :=
  match o with GetSinks _ => True | PutSink env _ _ _ _ _ | DeleteSink env _ _ _ _ => env_good env end.

Lemma upsert_good now c t : proper c -> table_good t -> table_good (alert_sink_upsert now (sink_id_of c) (kind c) (name c) (to_json c) t).
Proof. intros Hc Ht. apply map_Forall_insert_2; [|done]. exists c. simpl. by rewrite Hjson. Qed.

Lemma others_good env a : env_good env -> table_good (a_sinks a) -> table_good (a_sinks (after_others env a)).
Proof.
  intros He. simpl. generalize (a_sinks a). induction He as [|o l Ho _ IH]; intros t Ht; simpl; [done|]. apply IH.
  destruct o; simpl; [by apply upsert_good|by apply map_Forall_delete].
Qed.

Lemma resolve_id id t c : sink_id_of (resolve id t c) = sink_id_of c /\ kind (resolve id t c) = kind c /\ name (resolve id t c) = name c.
Proof. unfold resolve. destruct (stored _ _ _); [|done]. by rewrite id_restore, kind_restore, name_restore. Qed.

Lemma proper_iff c : proper c <-> has_redacted_secret c || negb (is_valid c) = false.
Proof. unfold proper, is_valid. destruct (has_redacted_secret c), (validate c) as [[]|]; naive_solver. Qed.

Lemma admin_step_good files active o a : op_good o -> table_good (a_sinks a) -> table_good (a_sinks (admin_step to_json from_json json_text files active o a).1).
Proof.
  intros Ho Ht. destruct o as [up|env actor client k n cfg|env actor client k n]; simpl in *; [done| |].
  - pose proof (put_run active env actor client k n cfg a) as E. cbv zeta in E. rewrite E. clear E.
    destruct (str_eqb (kind cfg) k && str_eqb (name cfg) n) eqn:Ek; [|done]. simpl. destruct (ev_read env); [|done]. simpl.
    destruct (has_redacted_secret _ || _) eqn:Ep; [done|]. apply proper_iff in Ep. destruct (ev_write env); simpl; [|by apply others_good].
    apply andb_true_iff in Ek as [Hk Hn]. apply bool_decide_eq_true in Hk as <-, Hn as <-.
    destruct (resolve_id (sink_id_of cfg) (a_sinks a) cfg) as (E1 & E2 & E3). fold (sink_id_of cfg) in Ep |- *.
    rewrite <- E1 at 1. rewrite <- E2 at 1. rewrite <- E3 at 1.
    apply upsert_good; [done|]. by apply others_good.
  - pose proof (delete_run env actor client k n a) as E. cbv zeta in E. rewrite E. clear E.
    destruct (ev_read env); [|done]. simpl. destruct (ev_write env); simpl; [|by apply others_good].
    destruct (is_some _); simpl; apply map_Forall_delete; by apply others_good.
Qed.

(** On every run, what is stored is valid, under its id, and is never the sentinel. *)
Lemma sentinel_is_never_stored files active ops a : Forall op_good ops -> table_good (a_sinks a) ->
  table_good (a_sinks (mrun (H := admin_machine to_json from_json json_text files active) ops a).1).
Proof. apply (mrun_invariant op_good (fun a => table_good (a_sinks a))). intros o b. apply admin_step_good. Qed.

(** ** What the list shows *)

Lemma elem_of_sinks_list t r : table_good t -> r ∈ alert_sinks_list t <-> t !! row_id r = Some r.
Proof.
  intros Ht. unfold alert_sinks_list. rewrite sort_by_permutation, list_elem_of_fmap. split.
  - intros ([i r'] & -> & H%elem_of_map_to_list). simpl. by destruct (Ht _ _ H) as (c & _ & -> & _).
  - intros H. exists (row_id r, r). by rewrite elem_of_map_to_list.
Qed.

Lemma row_ids_list t : table_good t -> row_id <$> (snd <$> map_to_list t) = fst <$> map_to_list t.
Proof.
  intros Ht. rewrite <- list_fmap_compose. apply list_fmap_ext. intros i [k r] H%list_elem_of_lookup_2%elem_of_map_to_list. simpl.
  by destruct (Ht _ _ H) as (c & _ & -> & _).
Qed.

Lemma sinks_list_nodup t : table_good t -> NoDup (row_id <$> alert_sinks_list t).
Proof. intros Ht. unfold alert_sinks_list. rewrite sort_by_permutation, row_ids_list by done. apply NoDup_fst_map_to_list. Qed.

Lemma overlay_rows_lookup rows : forall m m', overlay_rows from_json m rows = Ok m' -> NoDup (row_id <$> rows) ->
  (forall id, id ∉ row_id <$> rows -> m'.2 !! id = m.2 !! id) /\
  (forall r, r ∈ rows -> exists c, from_json (config_json r) = Some c /\ m'.2 !! row_id r = Some (CloudSource, c)).
Proof.
  induction rows as [|r rows IH]; intros m m'; simpl; [intros [= <-] _; split; [done|by intros r ?%not_elem_of_nil]|].
  destruct (from_json (config_json r)) as [c|] eqn:Ec; [|done]. intros H [Hr Hn]%NoDup_cons. destruct (IH _ _ H Hn) as [H1 H2]. split.
  - intros id [Hid Hids]%not_elem_of_cons. rewrite H1 by done. simpl. by rewrite lookup_insert_ne.
  - intros r' [-> | Hr']%elem_of_cons; [|by apply H2]. exists c. split; [done|]. rewrite H1 by done. simpl. by rewrite lookup_insert_eq.
Qed.

(** A configured row is shown as what it holds, redacted. *)
Lemma row_is_shown files active t views v c : table_good t -> get_admin_sinks from_json files active t = Ok views -> v ∈ views ->
  stored from_json (v_sink_id v) t = Some c -> v = view active (v_sink_id v) CloudSource c.
Proof.
  intros Ht. unfold get_admin_sinks. destruct (overlay_rows _ _ _) as [m|] eqn:Em; [|done]. intros [= <-] Hv Hs.
  apply list_elem_of_omap in Hv as (id & _ & Hv). destruct (m.2 !! id) as [[src c']|] eqn:El; [|done]. simpl in Hv. injection Hv as <-.
  simpl in *. unfold stored, alert_sink_get in Hs. destruct (t !! id) as [r|] eqn:Er; [|done]. simpl in Hs.
  destruct (Ht _ _ Er) as (c1 & _ & Hid & _). subst id.
  destruct (overlay_rows_lookup _ _ _ Em (sinks_list_nodup t Ht)) as [_ H]. destruct (H r) as (c2 & E1 & E2); [by apply elem_of_sinks_list|].
  congruence.
Qed.

(** ** Editing without the secret *)

Lemma restore_kept o c : kind o = kind c -> secret c = secret (redact_secrets o) -> restore_redacted_secrets_from o c = with_secret (secret o) c.
Proof.
  intros Hk Hs. destruct (secret o) as [x|] eqn:Eo.
  - rewrite <- Eo. apply restore_edit; [done|]. rewrite Hs. destruct o as [[? ? ? []]|[]|[? ? ? ? ? ? ? ? ? ? ? ? [] ?]|[? ? ? ? ? ? ? ? ? ? ? ? ? [] ?]]; done.
  - destruct (redact_is o) as [E|E]; [|by destruct o as [[? ? ? []]|[]|[? ? ? ? ? ? ? ? ? ? ? ? [] ?]|[? ? ? ? ? ? ? ? ? ? ? ? ? [] ?]]].
    rewrite E, Eo in Hs. destruct o, c as [[]|[]|[]|[]]; try done; simpl in *; by subst.
Qed.

(** A console edits a sink without its secret: what the list shows of a configured sink is its
    configuration with the secret redacted, and an edit of that which leaves the secret field as it
    was shown is stored with the secret that was stored before, whatever else it changes. Sent back
    as it was shown, the configuration is stored as it was. The other sinks are not touched. *)
Lemma console_edit_keeps_the_secret files active env actor client a views v c c' : table_good (a_sinks a) ->
  get_admin_sinks from_json files active (a_sinks a) = Ok views -> v ∈ views -> stored from_json (v_sink_id v) (a_sinks a) = Some c ->
  ev_read env = true -> ev_between env = [] -> ev_write env = true ->
  kind c' = v_kind v -> name c' = v_name v -> secret c' = secret (v_config v) -> is_valid (with_secret (secret c) c') = true ->
  with_secret (secret c) (v_config v) = c /\
  exists v' a', put_admin_sink to_json from_json json_text active env actor client (v_kind v) (v_name v) c' a = (Ok v', a') /\
    v_config v' = redact_secrets (with_secret (secret c) c') /\
    stored from_json (v_sink_id v) (a_sinks a') = Some (with_secret (secret c) c') /\
    (forall id, id <> v_sink_id v -> a_sinks a' !! id = a_sinks a !! id).
Proof.
  intros Ht Hg Hv Hs He1 He2 He3 Hk Hn Hsec Hval. pose proof (row_is_shown _ _ _ _ _ _ Ht Hg Hv Hs) as Ev.
  assert (v_sink_id v = sink_id_of c /\ proper c) as [Hid Hc].
  { unfold stored, alert_sink_get in Hs. destruct (_ !! _) as [r|] eqn:Er; [|done]. simpl in Hs.
    destruct (Ht _ _ Er) as (c1 & E1 & _ & E2 & _ & _ & Hp). replace c with c1 by congruence. done. }
  rewrite Ev in Hk, Hn, Hsec |- *. simpl in *. rewrite kind_redact in *.
  assert (name (redact_secrets c) = name c) as Hnc by (destruct (redact_is c) as [-> | ->]; [done|apply name_with_secret]). rewrite Hnc in *.
  split; [rewrite <- restore_kept by (by rewrite ?kind_redact); apply restore_redacted|].
  pose proof (put_run active env actor client (kind c) (name c) c' a) as E. cbv zeta in E. fold (sink_id_of c) in E. rewrite Hk, Hn in E.
  unfold resolve in E. rewrite <- Hid, Hs, restore_kept in E by done. unfold str_eqb in E. rewrite !bool_decide_true, He1, He3, He2 in E by done. simpl in E.
  rewrite Hval, has_redacted_with in E by (try (by apply proper_secret); intros; apply secret_sureview; congruence). simpl in E.
  eexists _, _. split; [exact E|]. simpl. split; [done|]. unfold alert_sink_upsert. rewrite Hid. split.
  - unfold stored, alert_sink_get. rewrite lookup_insert_eq. simpl. by rewrite Hjson.
  - intros id Hne. by rewrite lookup_insert_ne.
Qed.

(** ** Secrets stay on the box *)

(** What of a row is not secret. *)
Definition mask (r : AlertSinkRow Json) : string * string * string * Z * option SinkConfig :=
  (row_id r, row_kind r, row_name r, updated_at r, redact_secrets <$> from_json (config_json r)).

Definition oldest_masked (a b : string * string * string * Z * option SinkConfig) : comparison :=
  cthen (Z.compare a.1.2 b.1.2) (String.compare a.1.1.1.1 b.1.1.1.1).

#[local] Instance oldest_masked_comparator : Comparator oldest_masked.
Proof.
  apply then_comparator; [apply (on_comparator (fun a : string * string * string * Z * option SinkConfig => a.1.2) Z.compare)|
    apply (on_comparator (fun a : string * string * string * Z * option SinkConfig => a.1.1.1.1) String.compare)].
Qed.

Lemma masked_list t1 t2 : table_good t1 -> mask <$> t1 = mask <$> t2 -> mask <$> alert_sinks_list t1 = mask <$> alert_sinks_list t2.
Proof.
  intros H1 Hm. unfold alert_sinks_list. change oldest_updated with (fun a b => oldest_masked (mask a) (mask b)). rewrite !sort_by_fmap.
  assert (forall t : SinksTable Json, mask <$> (snd <$> map_to_list t) ≡ₚ snd <$> map_to_list (mask <$> t : gmap string _)) as Hp.
  { intros t. rewrite map_to_list_fmap, <- !list_fmap_compose. done. }
  apply sort_by_unique; [apply _| |by rewrite !Hp, Hm].
  intros x y. rewrite <- list_fmap_compose. intros ([i r] & -> & Hr%elem_of_map_to_list)%list_elem_of_fmap ([j q] & -> & Hq%elem_of_map_to_list)%list_elem_of_fmap.
  simpl. destruct (H1 _ _ Hr) as (_ & _ & <- & _), (H1 _ _ Hq) as (_ & _ & <- & _). unfold oldest_masked. simpl.
  destruct (Z.compare _ _); [|done..]. simpl. intros E%String.compare_eq_iff. rewrite E in Hr. congruence.
Qed.

(** The list, over masked rows and redacted files. *)
Fixpoint overlay_masked (m : list string * gmap string (Source * SinkConfig)) (rows : list (string * string * string * Z * option SinkConfig)) :
    result (list string * gmap string (Source * SinkConfig)) Z :=
  match rows with
  | [] => Ok m
  | r :: rows' => match r.2 with None => Err 500 | Some c => overlay_masked (overlay m r.1.1.1.1 (CloudSource, c)) rows' end
  end.

Definition redacted (m : list string * gmap string (Source * SinkConfig)) : list string * gmap string (Source * SinkConfig) :=
  (m.1, prod_map id redact_secrets <$> m.2).

Lemma overlay_redacted m i src c : redacted (overlay m i (src, c)) = overlay (redacted m) i (src, redact_secrets c).
Proof. unfold redacted, overlay. simpl. rewrite lookup_fmap, fmap_insert. by destruct (m.2 !! i). Qed.

Lemma overlay_rows_masked rows : forall m,
  overlay_masked (redacted m) (mask <$> rows) = match overlay_rows from_json m rows with Ok m' => Ok (redacted m') | Err e => Err e end.
Proof. induction rows as [|r rows IH]; intros m; [done|]. simpl. destruct (from_json _); [|done]. simpl. by rewrite <- overlay_redacted. Qed.

Lemma files_redacted files m : foldl (fun m c => overlay m (sink_id_of c) (FileSource, c)) (redacted m) (redact_secrets <$> files) =
  redacted (foldl (fun m c => overlay m (sink_id_of c) (FileSource, c)) m files).
Proof. revert m. induction files as [|c files IH]; intros m; [done|]. simpl. by rewrite id_redact, <- overlay_redacted. Qed.

(** The list is a function of what is not secret. *)
Lemma list_of_masks files active t : get_admin_sinks from_json files active t =
  match overlay_masked (foldl (fun m c => overlay m (sink_id_of c) (FileSource, c)) ([], ∅) (redact_secrets <$> files)) (mask <$> alert_sinks_list t) with
  | Err e => Err e
  | Ok m => Ok (omap (fun id => (fun x => view active id x.1 x.2) <$> m.2 !! id) m.1)
  end.
Proof.
  change ([], ∅) with (redacted ([], ∅)) at 1. rewrite files_redacted, overlay_rows_masked. unfold get_admin_sinks.
  destruct (overlay_rows _ _ _) as [m|]; [|done]. f_equal. simpl. apply list_omap_ext, Forall_Forall2_diag, Forall_true. intros id. rewrite lookup_fmap. destruct (m.2 !! id) as [[src c]|]; [|done]. simpl. unfold view. by rewrite redact_idem.
Qed.

(** Two boxes that differ in secrets only. *)
Record low (a1 a2 : SinkAdmin Json) : Prop := {
  low_good1 : table_good (a_sinks a1);
  low_good2 : table_good (a_sinks a2);
  low_rows : mask <$> a_sinks a1 = mask <$> a_sinks a2;
  low_audit : a_audit a1 = a_audit a2;
  low_signals : a_signals a1 = a_signals a2;
}.

Lemma stored_proper id t c : table_good t -> stored from_json id t = Some c -> proper c.
Proof.
  unfold stored, alert_sink_get. intros Ht H. destruct (t !! id) as [r|] eqn:Er; [|done]. simpl in H.
  destruct (Ht _ _ Er) as (c' & E & _ & _ & _ & _ & Hp). by replace c with c' by congruence.
Qed.

Lemma stored_alike id t1 t2 : mask <$> t1 = mask <$> t2 -> redact_secrets <$> stored from_json id t1 = redact_secrets <$> stored from_json id t2.
Proof.
  intros Hm. pose proof (f_equal (fun m => m !! id) Hm) as H. simpl in H. rewrite !lookup_fmap in H. unfold stored, alert_sink_get.
  destruct (t1 !! id), (t2 !! id); simpl in *; by simplify_eq.
Qed.

Lemma resolve_alike id t1 t2 c : table_good t1 -> table_good t2 -> mask <$> t1 = mask <$> t2 ->
  let r1 := resolve id t1 c in let r2 := resolve id t2 c in
  redact_secrets r1 = redact_secrets r2 /\ has_redacted_secret r1 = has_redacted_secret r2 /\ validate r1 = validate r2.
Proof.
  intros H1 H2 Hm. pose proof (stored_alike id t1 t2 Hm) as Hs. unfold resolve.
  destruct (stored from_json id t1) as [o1|] eqn:E1, (stored from_json id t2) as [o2|] eqn:E2; try done.
  injection Hs as Hs. exact (restore_alike o1 o2 c (stored_proper _ _ _ H1 E1) (stored_proper _ _ _ H2 E2) Hs).
Qed.

Lemma others_low env a1 a2 : env_good env -> low a1 a2 -> low (after_others env a1) (after_others env a2).
Proof.
  intros He [H1 H2 Hm Ha Hs]. split; [by apply others_good..| |done|done]. simpl. clear H1 H2 Ha Hs He.
  revert Hm. generalize (a_sinks a1) (a_sinks a2). induction (ev_between env) as [|o l IH]; intros t1 t2 Hm; [done|]. simpl. apply IH.
  destruct o; simpl; [unfold alert_sink_upsert; by rewrite !fmap_insert, Hm|by rewrite !fmap_delete, Hm].
Qed.

Lemma put_low active env actor client k n cfg a1 a2 : env_good env -> low a1 a2 ->
  let x1 := put_admin_sink to_json from_json json_text active env actor client k n cfg a1 in
  let x2 := put_admin_sink to_json from_json json_text active env actor client k n cfg a2 in x1.1 = x2.1 /\ low x1.2 x2.2.
Proof.
  intros He Hl. pose proof (others_low env a1 a2 He Hl) as Ho. cbv zeta.
  pose proof (admin_step_good [] active (PutSink env actor client k n cfg) a1 He (low_good1 _ _ Hl)) as G1.
  pose proof (admin_step_good [] active (PutSink env actor client k n cfg) a2 He (low_good2 _ _ Hl)) as G2. revert G1 G2. simpl.
  pose proof (put_run active env actor client k n cfg a1) as E1. cbv zeta in E1.
  pose proof (put_run active env actor client k n cfg a2) as E2. cbv zeta in E2. rewrite E1, E2. clear E1 E2.
  destruct Hl as [H1 H2 Hm Ha Hs]. set (id := k +:+ ":" +:+ n). destruct (resolve_alike id _ _ cfg H1 H2 Hm) as (R1 & R2 & R3). unfold is_valid. rewrite <- R2, <- R3.
  destruct (negb _); [done|]. destruct (negb _); [done|]. destruct (_ || _); [done|]. destruct (negb _); [done|]. simpl. intros G1 G2. split.
  - unfold view. by rewrite R1.
  - split; simpl; [done|done| | |by rewrite Hs].
    + unfold alert_sink_upsert. rewrite !fmap_insert. f_equal; [|exact (low_rows _ _ Ho)]. unfold mask. simpl. rewrite !Hjson. simpl. by rewrite R1.
    + unfold put_entry, redacted_sink_json. rewrite R1, Ha. pose proof (stored_alike id _ _ Hm) as Hst.
      assert (forall o : option SinkConfig, (fun c => json_text (to_json (redact_secrets c))) <$> o = (fun c => json_text (to_json c)) <$> (redact_secrets <$> o)) as Hf by (by intros []).
      by rewrite !Hf, Hst.
Qed.

Lemma delete_low env actor client k n a1 a2 : env_good env -> low a1 a2 ->
  let x1 := delete_admin_sink to_json from_json json_text env actor client k n a1 in
  let x2 := delete_admin_sink to_json from_json json_text env actor client k n a2 in x1.1 = x2.1 /\ low x1.2 x2.2.
Proof.
  intros He Hl. pose proof (others_low env a1 a2 He Hl) as Ho. cbv zeta.
  pose proof (delete_run env actor client k n a1) as E1. cbv zeta in E1.
  pose proof (delete_run env actor client k n a2) as E2. cbv zeta in E2. rewrite E1, E2. clear E1 E2.
  destruct (negb _); [done|]. destruct (negb _); [done|]. set (id := k +:+ ":" +:+ n).
  assert (is_some (a_sinks (after_others env a1) !! id) = is_some (a_sinks (after_others env a2) !! id)) as ->.
  { pose proof (f_equal (fun m => m !! id) (low_rows _ _ Ho)) as H. simpl in H. rewrite !lookup_fmap in H. simpl.
    by destruct (_ !! id), (_ !! id). }
  pose proof (stored_alike id _ _ (low_rows _ _ Hl)) as Hst.
  assert (redacted_sink_json to_json json_text <$> stored from_json id (a_sinks a1) = redacted_sink_json to_json json_text <$> stored from_json id (a_sinks a2)) as ->.
  { destruct (stored _ _ (a_sinks a1)), (stored _ _ (a_sinks a2)); simplify_eq/=; [|done]. unfold redacted_sink_json. by rewrite Hst. }
  destruct Ho as [G1 G2 Gm Ga Gs]. simpl in G1, G2, Gm, Ga, Gs.
  destruct (is_some _); simpl; (split; [done|]); split; simpl; try done; try (by apply map_Forall_delete); try (by rewrite !fmap_delete, Gm).
  - by rewrite Ga.
  - by rewrite Gs.
Qed.

Lemma get_low files1 files2 active t1 t2 : redact_secrets <$> files1 = redact_secrets <$> files2 -> table_good t1 -> mask <$> t1 = mask <$> t2 ->
  get_admin_sinks from_json files1 active t1 = get_admin_sinks from_json files2 active t2.
Proof. intros Hf Ht Hm. by rewrite !list_of_masks, Hf, (masked_list t1 t2). Qed.

(** C40. Secrets stay on the box. Take two boxes that differ only in the secrets of their stored sinks and
    of the sinks in [nexus.toml], and give them the same requests to list, store and delete sinks,
    with the same faults and the same writes of other requests in between: the answers are the
    same, and so are the audit logs. *)
Theorem secrets_stay_on_the_box files1 files2 active ops a1 a2 : redact_secrets <$> files1 = redact_secrets <$> files2 ->
  Forall op_good ops -> low a1 a2 ->
  let x1 := mrun (H := admin_machine to_json from_json json_text files1 active) ops a1 in
  let x2 := mrun (H := admin_machine to_json from_json json_text files2 active) ops a2 in
  x1.2 = x2.2 /\ a_audit x1.1 = a_audit x2.1.
Proof.
  intros Hf Hops. revert a1 a2. induction Hops as [|o ops Ho _ IH]; intros a1 a2 Hl; [split; [done|by destruct Hl]|]. cbv zeta.
  rewrite !mrun_cons. cbn [fst snd].
  assert ((admin_step to_json from_json json_text files1 active o a1).2 = (admin_step to_json from_json json_text files2 active o a2).2 /\
    low (admin_step to_json from_json json_text files1 active o a1).1 (admin_step to_json from_json json_text files2 active o a2).1) as [Eo Hl'].
  { destruct o as [up|env actor client k n c|env actor client k n]; simpl in Ho |- *.
    - split; [|done]. destruct up; [|done]. by rewrite (get_low files1 files2 active _ (a_sinks a2)) by (done || by destruct Hl).
    - destruct (put_low active env actor client k n c a1 a2 Ho Hl) as [E1 E2].
      destruct (put_admin_sink _ _ _ _ _ _ _ _ _ _ a1) as [r1 b1], (put_admin_sink _ _ _ _ _ _ _ _ _ _ a2) as [r2 b2]. simpl in *. by subst.
    - destruct (delete_low env actor client k n a1 a2 Ho Hl) as [E1 E2].
      destruct (delete_admin_sink _ _ _ _ _ _ _ _ a1) as [r1 b1], (delete_admin_sink _ _ _ _ _ _ _ _ a2) as [r2 b2]. simpl in *. by subst. }
  unfold mstep, admin_machine. rewrite Eo. destruct (IH _ _ Hl') as [E1 E2]. split; [by f_equal|done].
Qed.
End runs.

(** ** Examples *)

(** A codec that keeps the configuration as it is; the text of the log shows the secret. *)
Definition demo_hook (x : option string) (headers : gmap string string) : SinkConfig :=
  Webhook (mkWebhook "ops" (mkUrl "https" "https://example.com/hook") headers x 10).

Definition demo_text (c : SinkConfig) : string := default "" (secret c).

Definition demo_box (x : option string) : SinkAdmin SinkConfig :=
  mkAdmin {[ "webhook:ops"%string := mkSinkRow "webhook:ops" "webhook" "ops" (demo_hook x ∅) 5 ]} [] 0.

Definition demo_env : SinkEnv := mkSinkEnv 9 true [] true true.
Definition demo_actor : SessionContext := mkContext 1 Admin "j" false None.
Definition demo_client : Client := mkClient "10.0.0.1" None.

Definition demo_run (ops : list AdminOp) (a : SinkAdmin SinkConfig) : SinkAdmin SinkConfig * list AdminOut :=
  mrun (H := admin_machine id Some demo_text [] ∅) ops a.

(** The sentinel is put back, the secret stays, and the log shows neither. *)
Example the_sentinel_keeps_the_secret :
  let a := (demo_run [PutSink demo_env demo_actor demo_client "webhook" "ops" (demo_hook (Some REDACTED_SECRET) ∅)] (demo_box (Some "s3cret"%string))).1 in
  stored Some "webhook:ops" (a_sinks a) = Some (demo_hook (Some "s3cret"%string) ∅) /\
  (fun r => after_json (r_entry r)) <$> a_audit a = [Some REDACTED_SECRET].
Proof. vm_compute. by split. Qed.

(** A new sink has to bring its secret. *)
Example a_new_sink_brings_its_secret :
  (demo_run [PutSink demo_env demo_actor demo_client "webhook" "ops" (demo_hook (Some REDACTED_SECRET) ∅)] (mkAdmin ∅ [] 0)).2 = [Stored (Err 400)].
Proof. vm_compute. done. Qed.

(** Headers are not redacted, and the documentation of the field names them as the place for a bearer
    token. *)
Example headers_are_shown : redact_secrets (demo_hook None {[ "Authorization"%string := "Bearer t0ken"%string ]}) = demo_hook None {[ "Authorization"%string := "Bearer t0ken"%string ]}.
Proof. reflexivity. Qed.

Lemma demo_proper x : x <> Some REDACTED_SECRET -> proper (demo_hook x ∅).
Proof. intros H. split; [by vm_compute|]. simpl. unfold is_sentinel. by apply bool_decide_eq_false. Qed.

Lemma demo_box_good x : x <> Some REDACTED_SECRET -> table_good Some (a_sinks (demo_box x)).
Proof. intros H. apply map_Forall_singleton. exists (demo_hook x ∅). split_and!; [done..|]. by apply demo_proper. Qed.

Lemma demo_low : low Some (demo_box (Some "left"%string)) (demo_box (Some "right"%string)).
Proof. split; [by apply demo_box_good..| |done|done]. simpl. by rewrite !map_fmap_singleton. Qed.

Lemma console_edit_keeps_the_secret_witness : exists v' a',
  put_admin_sink id Some demo_text ∅ demo_env demo_actor demo_client "webhook" "ops" (demo_hook (Some REDACTED_SECRET) ∅) (demo_box (Some "left"%string)) = (Ok v', a') /\
  stored Some "webhook:ops" (a_sinks a') = Some (demo_hook (Some "left"%string) ∅).
Proof.
  destruct (console_edit_keeps_the_secret id Some demo_text (fun c => eq_refl) [] ∅ demo_env demo_actor demo_client (demo_box (Some "left"%string))
    [view ∅ "webhook:ops" CloudSource (demo_hook (Some "left"%string) ∅)] (view ∅ "webhook:ops" CloudSource (demo_hook (Some "left"%string) ∅))
    (demo_hook (Some "left"%string) ∅) (demo_hook (Some REDACTED_SECRET) ∅)) as (_ & v' & a' & H1 & _ & H3 & _);
    [by apply demo_box_good|by vm_compute|by left|done..|]. exists v', a'. by split.
Defined.

Lemma secrets_stay_on_the_box_witness :
  (demo_run [GetSinks true; PutSink demo_env demo_actor demo_client "webhook" "ops" (demo_hook (Some REDACTED_SECRET) ∅)] (demo_box (Some "left"%string))).2 =
  (demo_run [GetSinks true; PutSink demo_env demo_actor demo_client "webhook" "ops" (demo_hook (Some REDACTED_SECRET) ∅)] (demo_box (Some "right"%string))).2.
Proof.
  apply (secrets_stay_on_the_box id Some demo_text (fun c => eq_refl) [] [] ∅ [GetSinks true;
    PutSink demo_env demo_actor demo_client "webhook" "ops" (demo_hook (Some REDACTED_SECRET) ∅)]); [done| |exact demo_low].
  repeat constructor.
Defined.
