(* ===== verification/CanonicalJson.v ===== *)
(** Canonical JSON ([nexus-engine/src/fleet_hash.rs]): the text of a value with its objects sorted by key,
    whose hash is compared with the cloud's. Equal texts mean equal values, up to the order of
    fields.

    The digits of a floating-point number are serde_json's, a parameter; integers and the escapes of
    strings are written out. *)
From stdpp Require Import pretty.
From Stdlib Require Import Ascii.
From S2P Require Import Prelude Text Float Order Types Alert.

(** ** Strings *)

Definition quote : ascii := ascii_of_nat 34.

Definition hex_digit (n : Z) : ascii := nth_default "?"%char (chars "0123456789abcdef") (Z.to_nat n).

(** The escapes of [serde_json]'s compact formatter; bytes from 128 up are left alone. *)
Definition escape (c : ascii) : list ascii :=
  let n := code c in
  if n =? 34 then ["\"%char; quote]
  else if n =? 92 then ["\"; "\"]%char
  else if n =? 8 then ["\"; "b"]%char
  else if n =? 9 then ["\"; "t"]%char
  else if n =? 10 then ["\"; "n"]%char
  else if n =? 12 then ["\"; "f"]%char
  else if n =? 13 then ["\"; "r"]%char
  else if n <? 32 then ["\"; "u"; "0"; "0"; hex_digit (n / 16); hex_digit (n mod 16)]%char
  else [c].

Definition push_json_string (s : string) : list ascii := quote :: (chars s ≫= escape) ++ [quote].

(** ** Values *)

Section canonical.
(** The digits of a finite float. *)
Variable float_text : f64 -> string.

Definition by_key {A} (a b : string * A) : comparison := String.compare a.1 b.1.

(** [out.push(',')] before every item but the first. *)
Fixpoint commas (l : list (list ascii)) : list ascii :=
  match l with
  | [] => []
  | [x] => x
  | x :: l' => x ++ ","%char :: commas l'
  end.

Fixpoint write_canonical (v : JsonValue) : list ascii :=
  match v with
  | JNull => chars "null"
  | JBool b => chars (if b then "true" else "false")
  | JInt z => chars (pretty z)
  | JFloat f => chars (float_text f)
  | JString s => push_json_string s
  | JArray items => "["%char :: commas (map write_canonical items) ++ ["]"%char]
  | JObject fields =>
      let shown := sort_by by_key (map (fun '(k, x) => (k, write_canonical x)) fields) in
      "{"%char :: commas (map (fun '(k, t) => push_json_string k ++ ":"%char :: t) shown) ++ ["}"%char]
  end.

Definition canonical_json (v : JsonValue) : string := of_chars (write_canonical v).

(** Lower-case hexadecimal of the SHA-256, of the bytes of a text. *)
Variable sha256_hex : string -> string.

Definition sha256_canonical (v : JsonValue) : string := sha256_hex (canonical_json v).
End canonical.

(** ** Values up to the order of fields *)

Fixpoint norm (v : JsonValue) : JsonValue :=
  match v with
  | JArray items => JArray (map norm items)
  | JObject fields => JObject (sort_by by_key (map (fun '(k, x) => (k, norm x)) fields))
  | _ => v
  end.

(** ** Reading strings *)

Definition all_ascii : list ascii := map ascii_of_nat (seq 0 256).

Lemma elem_of_all_ascii c : c ∈ all_ascii.
Proof.
  apply list_elem_of_fmap. exists (nat_of_ascii c). split; [by rewrite ascii_nat_embedding|]. apply elem_of_seq. pose proof (nat_ascii_bounded c). lia.
Qed.

(** No escape begins another, and none begins with the closing quote. *)
Lemma escape_prefix_free : forallb (fun c => forallb (fun d => bool_decide (c = d) || negb (prefixb (escape c) (escape d))) all_ascii &&
  match escape c with x :: _ => negb (bool_decide (x = quote)) | [] => false end) all_ascii = true.
Proof. vm_compute. reflexivity. Qed.

Lemma app_prefix (a b x y : list ascii) : a ++ x = b ++ y -> prefixb a b = true \/ prefixb b a = true.
Proof.
  revert b. induction a as [|c a IH]; intros [|d b]; simpl; try (by left); [by right|]. intros [= -> H].
  destruct (IH _ H) as [E|E]; [left|right]; rewrite E; by rewrite bool_decide_true.
Qed.

Lemma escape_inj c d x y : escape c ++ x = escape d ++ y -> c = d /\ x = y.
Proof.
  intros H. assert (c = d) as ->; [|by apply app_inv_head in H].
  pose proof escape_prefix_free as Hf. rewrite forallb_forall in Hf.
  assert (forall c d, prefixb (escape c) (escape d) = true -> c = d) as Hp.
  { intros c' d' Hcd. pose proof (Hf c' (proj1 (list_elem_of_In _ _) (elem_of_all_ascii c'))) as [H1 _]%andb_true_iff. rewrite forallb_forall in H1.
    specialize (H1 d' (proj1 (list_elem_of_In _ _) (elem_of_all_ascii d'))). rewrite Hcd, orb_false_r in H1. by apply bool_decide_eq_true in H1. }
  destruct (app_prefix _ _ _ _ H) as [E|E]; [by apply Hp|symmetry; by apply Hp].
Qed.

Lemma escape_not_quote c : exists x l, escape c = x :: l /\ x <> quote.
Proof.
  pose proof escape_prefix_free as Hf. rewrite forallb_forall in Hf.
  pose proof (Hf c (proj1 (list_elem_of_In _ _) (elem_of_all_ascii c))) as [_ H]%andb_true_iff.
  destruct (escape c) as [|x l]; [done|]. exists x, l. split; [done|]. by apply negb_true_iff, bool_decide_eq_false in H.
Qed.

Lemma escaped_read s1 : forall s2 r1 r2, (s1 ≫= escape) ++ quote :: r1 = (s2 ≫= escape) ++ quote :: r2 -> s1 = s2 /\ r1 = r2.
Proof.
  induction s1 as [|c s1 IH]; intros [|d s2] r1 r2; rewrite ?bind_cons, <- ?app_assoc; simpl.
  - by intros [= ->].
  - destruct (escape_not_quote d) as (x & l & -> & Hx). by intros [= <-].
  - destruct (escape_not_quote c) as (x & l & -> & Hx). by intros [= ->].
  - intros [-> H]%escape_inj. by destruct (IH _ _ _ H) as [-> ->].
Qed.

Lemma string_read s1 s2 r1 r2 : push_json_string s1 ++ r1 = push_json_string s2 ++ r2 -> s1 = s2 /\ r1 = r2.
Proof.
  unfold push_json_string. simpl. rewrite <- !app_assoc. simpl. intros [= H]. apply escaped_read in H as [H ->]. by apply chars_inj in H.
Qed.

(** ** Reading numbers *)

(** What ends a value: the end of the text, or the next field. *)
Definition is_delimiter (c : ascii) : bool := bool_decide (c = ","%char) || bool_decide (c = "]"%char) || bool_decide (c = "}"%char).
Definition delimited (r : list ascii) : Prop := match r with [] => True | c :: _ => is_delimiter c = true end.

Definition number_char (c : ascii) : bool := is_digit c || existsb (fun d => bool_decide (c = d)) ["-"; "+"; "."; "e"; "E"]%char.

Lemma number_not_delimiter c : number_char c = true -> is_delimiter c = true -> False.
Proof.
  assert (forallb (fun c => negb (number_char c && is_delimiter c)) all_ascii = true) as Hf by by vm_compute.
  rewrite forallb_forall in Hf. specialize (Hf c (proj1 (list_elem_of_In _ _) (elem_of_all_ascii c))). intros H1 H2. by rewrite H1, H2 in Hf.
Qed.

Lemma token_read t1 : forall t2 r1 r2, Forall (fun c => number_char c = true) t1 -> Forall (fun c => number_char c = true) t2 ->
  delimited r1 -> delimited r2 -> t1 ++ r1 = t2 ++ r2 -> t1 = t2 /\ r1 = r2.
Proof.
  induction t1 as [|c t1 IH]; intros [|d t2] r1 r2 H1 H2 D1 D2; simpl.
  - done.
  - intros ->. simpl in D1. apply Forall_cons in H2 as [H2 _]. by destruct (number_not_delimiter d).
  - intros <-. simpl in D2. apply Forall_cons in H1 as [H1 _]. by destruct (number_not_delimiter c).
  - apply Forall_cons in H1 as [_ H1], H2 as [_ H2]. intros [= -> H]. by destruct (IH _ _ _ H1 H2 D1 D2 H) as [-> ->].
Qed.

(** ** Reading values *)

Section values.
Context (P : JsonValue -> Prop)
  (Pnull : P JNull) (Pbool : forall b, P (JBool b)) (Pint : forall z, P (JInt z)) (Pfloat : forall f, P (JFloat f)) (Pstring : forall s, P (JString s))
  (Parray : forall items, Forall P items -> P (JArray items))
  (Pobject : forall fields, Forall (fun kx => P kx.2) fields -> P (JObject fields)).

Fixpoint json_induction (v : JsonValue) : P v :=
  match v with
  | JNull => Pnull
  | JBool b => Pbool b
  | JInt z => Pint z
  | JFloat f => Pfloat f
  | JString s => Pstring s
  | JArray items => Parray items ((fix go l : Forall P l := match l with [] => @List.Forall_nil _ P | x :: l' => @List.Forall_cons _ P x l' (json_induction x) (go l') end) items)
  | JObject fields => Pobject fields ((fix go l : Forall (fun kx => P kx.2) l :=
      match l with [] => @List.Forall_nil _ _ | kx :: l' => @List.Forall_cons _ (fun kx => P kx.2) kx l' (json_induction kx.2) (go l') end) fields)
  end.
End values.

Section reading.
Context {A B : Type} (text : A -> list ascii) (val : A -> B).

(** A text that is recognised in front of whatever may follow it. *)
Definition readable (ok : A -> Prop) (x : A) : Prop :=
  forall y r1 r2, ok y -> delimited r1 -> delimited r2 -> text x ++ r1 = text y ++ r2 -> val x = val y /\ r1 = r2.

Definition starts (x : A) : Prop := exists c l, text x = c :: l /\ is_delimiter c = false.

Lemma commas_cons x l r : commas (map text (x :: l)) ++ r = text x ++ match l with [] => r | _ => ","%char :: commas (map text l) ++ r end.
Proof. destruct l; simpl; [done|]. by rewrite <- app_assoc. Qed.

Lemma delimited_rest close l r : is_delimiter close = true -> delimited (match l with [] => close :: r | _ => ","%char :: commas (map text l) ++ close :: r end).
Proof. by destruct l. Qed.

Lemma commas_read ok close l1 : is_delimiter close = true -> close <> ","%char -> Forall (readable ok) l1 -> Forall starts l1 ->
  forall l2 r1 r2, Forall ok l2 -> Forall starts l2 ->
  commas (map text l1) ++ close :: r1 = commas (map text l2) ++ close :: r2 -> map val l1 = map val l2 /\ r1 = r2.
Proof.
  intros Hc Hne Hr Hs. induction l1 as [|x l1 IH]; intros [|y l2] r1 r2 Hok Hs2.
  - simpl. by intros [= ->].
  - rewrite commas_cons. apply Forall_cons in Hs2 as [(c & l & E & Hd) _]. rewrite E. simpl. intros [= <- _]. congruence.
  - rewrite commas_cons. apply Forall_cons in Hs as [(c & l & E & Hd) _]. rewrite E. simpl. intros [= <- _]. congruence.
  - rewrite !commas_cons. apply Forall_cons in Hr as [Hx Hr], Hs as [_ Hs], Hok as [Hy Hok], Hs2 as [_ Hs2]. intros H.
    apply Hx in H as [Ev H]; [|done|by apply delimited_rest..]. simpl. rewrite Ev.
    destruct l1 as [|x' l1], l2 as [|y' l2].
    + by injection H as ->.
    + by injection H as -> _.
    + by injection H as <- _.
    + injection H as H. destruct (IH Hr Hs (y' :: l2) r1 r2 Hok Hs2 H) as [-> ->]. done.
Qed.
End reading.

(** ** Unique readability *)

Section exact.
Context (float_text : f64 -> string).

(** The numbers of [serde_json]: in range, finite. *)
Definition good_float (f : f64) : Prop := is_finite f = true /\ valid_binary 53 1024 f = true.

(** The digits of floats: never those of an integer, and of one float only. *)
Record FloatText : Prop := {
  ft_chars : forall f, good_float f -> Forall (fun c => number_char c = true) (chars (float_text f));
  ft_first : forall f, good_float f -> exists c l, chars (float_text f) = c :: l /\ (is_digit c || bool_decide (c = "-"%char)) = true;
  ft_mark : forall f, good_float f -> "."%char ∈ chars (float_text f) \/ "e"%char ∈ chars (float_text f);
  ft_inj : forall f g, good_float f -> good_float g -> float_text f = float_text g -> f = g;
}.

(** A value of [serde_json]: the keys of an object are distinct. *)
Fixpoint json_ok (v : JsonValue) : Prop :=
  match v with
  | JFloat f => good_float f
  | JArray items => Forall id (map json_ok items)
  | JObject fields => NoDup (map fst fields) /\ Forall id (map (fun '(_, x) => json_ok x) fields)
  | _ => True
  end.

Abbreviation write := (write_canonical float_text).

(** The first character tells the constructors apart, but for the two kinds of numbers. *)
Definition shape (v : JsonValue) : Z :=
  match v with JNull => 0 | JBool true => 1 | JBool false => 2 | JInt _ | JFloat _ => 3 | JString _ => 4 | JArray _ => 5 | JObject _ => 6 end.

Definition shape_of (c : ascii) : Z :=
  if bool_decide (c = "n"%char) then 0 else if bool_decide (c = "t"%char) then 1 else if bool_decide (c = "f"%char) then 2
  else if is_digit c || bool_decide (c = "-"%char) then 3 else if bool_decide (c = quote) then 4 else if bool_decide (c = "["%char) then 5
  else if bool_decide (c = "{"%char) then 6 else 7.

Context (Hft : FloatText).

Lemma number_shape c : is_digit c || bool_decide (c = "-"%char) = true -> shape_of c = 3 /\ is_delimiter c = false.
Proof.
  assert (forallb (fun c => negb (is_digit c || bool_decide (c = "-"%char)) || ((shape_of c =? 3) && negb (is_delimiter c))) all_ascii = true) as Hf by by vm_compute.
  rewrite forallb_forall in Hf. specialize (Hf c (proj1 (list_elem_of_In _ _) (elem_of_all_ascii c))). intros H. rewrite H in Hf. simpl in Hf.
  apply andb_true_iff in Hf as [H1%Z.eqb_eq H2%negb_true_iff]. done.
Qed.

Lemma write_shape v : json_ok v -> exists c l, write v = c :: l /\ shape_of c = shape v /\ is_delimiter c = false.
Proof.
  destruct v as [|[]|z|f|s|items|fields]; simpl; intros Hv; try (eexists _, _; split; [reflexivity|by vm_compute]).
  - destruct (pretty_int z) as (ds & E & Hd & Hn). destruct (z <? 0); simpl in E.
    + exists "-"%char, ds. split; [done|]. by apply number_shape.
    + destruct ds as [|c ds]; [done|]. exists c, ds. split; [done|]. apply Forall_cons in Hd as [Hd _]. apply number_shape. by rewrite Hd.
  - destruct (ft_first Hft f Hv) as (c & l & E & Hc). exists c, l. split; [done|]. by apply number_shape.
Qed.

Lemma starts_write v : json_ok v -> starts write v.
Proof. intros Hv. destruct (write_shape v Hv) as (c & l & E & _ & Hd). by exists c, l. Qed.

Lemma int_chars (z : Z) : Forall (fun c => number_char c = true) (chars (pretty z)) /\ "."%char ∉ chars (pretty z) /\ "e"%char ∉ chars (pretty z).
Proof.
  destruct (pretty_int z) as (ds & -> & Hd & _).
  assert (forall c, c ∈ (if z <? 0 then ["-"%char] else []) ++ ds -> number_char c = true /\ c <> "."%char /\ c <> "e"%char) as H.
  { intros c [Hc|Hc]%elem_of_app.
    - destruct (z <? 0); [|by apply not_elem_of_nil in Hc]. apply list_elem_of_singleton in Hc as ->. by vm_compute.
    - rewrite Forall_forall in Hd. specialize (Hd c Hc). unfold number_char. rewrite Hd. split; [done|]. split; intros ->; by vm_compute in Hd. }
  split; [by apply Forall_forall; intros c Hc; apply H|]. split; intros Hc; by destruct (H _ Hc) as (_ & H1 & H2).
Qed.

(** The text of a number, whichever kind. *)
Lemma number_read v w r1 r2 : json_ok v -> json_ok w -> shape v = 3 -> shape w = 3 -> delimited r1 -> delimited r2 ->
  write v ++ r1 = write w ++ r2 -> v = w /\ r1 = r2.
Proof.
  intros Hv Hw Sv Sw D1 D2 H.
  assert (forall x, json_ok x -> shape x = 3 -> Forall (fun c => number_char c = true) (write x)) as Hc.
  { intros [|[]|z|f| | |] Hx Sx; try done; simpl; [apply int_chars|by apply (ft_chars Hft)]. }
  apply token_read in H as [H ->]; [|by apply Hc..|done|done]. split; [|done].
  destruct v as [|[]|z1|f1| | |], w as [|[]|z2|f2| | |]; try done; simpl in H; apply chars_inj in H.
  - f_equal. by apply (inj pretty) in H.
  - exfalso. destruct (int_chars z1) as (_ & H1 & H2). rewrite H in H1, H2. by destruct (ft_mark Hft f2 Hw).
  - exfalso. destruct (int_chars z2) as (_ & H1 & H2). rewrite <- H in H1, H2. by destruct (ft_mark Hft f1 Hv).
  - f_equal. by apply (ft_inj Hft).
Qed.

Lemma sort_keyed {A B} (f : A -> B) (l : list (string * A)) :
  sort_by by_key (map (fun '(k, x) => (k, f x)) l) = map (fun '(k, x) => (k, f x)) (sort_by by_key l).
Proof.
  pose proof (sort_by_fmap (fun '(k, x) => (k, f x)) by_key l) as H. unfold fmap, list_fmap in H.
  change (map (fun '(k, x) => (k, f x)) (sort_by by_key l)) with ((fun '(k, x) => (k, f x)) <$> sort_by by_key l).
  change (map (fun '(k, x) => (k, f x)) l) with ((fun '(k, x) => (k, f x)) <$> l). rewrite <- sort_by_fmap. f_equal.
  apply sort_by_ext. by intros [k x] [k' x'] _ _.
Qed.

(** One field of an object. *)
Definition field_text (kx : string * JsonValue) : list ascii := push_json_string kx.1 ++ ":"%char :: write kx.2.
Definition field_norm (kx : string * JsonValue) : string * JsonValue := (kx.1, norm kx.2).

Lemma write_object fields : write (JObject fields) = "{"%char :: commas (map field_text (sort_by by_key fields)) ++ ["}"%char].
Proof. simpl. rewrite sort_keyed, map_map. do 3 f_equal. apply map_ext. by intros [k x]. Qed.

Lemma norm_object fields : norm (JObject fields) = JObject (map field_norm (sort_by by_key fields)).
Proof. simpl. rewrite sort_keyed. f_equal. apply map_ext. by intros [k x]. Qed.

Lemma field_read kx : readable write norm json_ok kx.2 -> readable field_text field_norm (fun ky => json_ok ky.2) kx.
Proof.
  intros Hx [k' y] r1 r2 Hy D1 D2. unfold field_text, field_norm. cbn [fst snd].
  rewrite <- (app_assoc (push_json_string kx.1)), <- (app_assoc (push_json_string k')). intros H. apply string_read in H as [-> H].
  simpl in H. injection H as H. by destruct (Hx y r1 r2 Hy D1 D2 H) as [-> ->].
Qed.

Lemma same_shape v w r1 r2 : json_ok v -> json_ok w -> write v ++ r1 = write w ++ r2 -> shape v = shape w.
Proof.
  intros Hv Hw. destruct (write_shape v Hv) as (c & l & -> & Hc & _), (write_shape w Hw) as (d & m & -> & Hd & _). simpl. intros [= -> _]. congruence.
Qed.

Lemma array_ok items : json_ok (JArray items) <-> Forall json_ok items.
Proof. simpl. by rewrite List.Forall_map. Qed.

Lemma object_ok fields : json_ok (JObject fields) -> NoDup (map fst fields) /\ Forall (fun kx => json_ok kx.2) fields.
Proof. simpl. intros [Hn H]. split; [done|]. rewrite List.Forall_map in H. eapply Forall_impl; [exact H|]. by intros [k x]. Qed.

Lemma value_read v : json_ok v -> readable write norm json_ok v.
Proof.
  induction v as [|b|z|f|s|items IH|fields IH] using json_induction; intros Hv w r1 r2 Hw D1 D2 H;
    pose proof (same_shape _ _ _ _ Hv Hw H) as Hs.
  - destruct w as [|[]| | | | |]; try done. split; [done|]. by apply app_inv_head in H.
  - destruct b, w as [|[]| | | | |]; try done; (split; [done|]; by apply app_inv_head in H).
  - destruct (number_read (JInt z) w r1 r2) as [<- ->]; done.
  - destruct (number_read (JFloat f) w r1 r2) as [<- ->]; done.
  - destruct w as [|[]| | |s'| |]; try done. apply string_read in H as [-> ->]. done.
  - destruct w as [|[]| | | |items'|]; try done. apply array_ok in Hv, Hw. simpl in H. injection H as H. rewrite <- !app_assoc in H. simpl in H.
    apply (commas_read write norm json_ok) in H as [H ->]; try done.
    + simpl. by rewrite H.
    + rewrite Forall_forall in IH, Hv |- *. intros x Hx. by apply IH, Hv.
    + eapply Forall_impl; [exact Hv|]. apply starts_write.
    + eapply Forall_impl; [exact Hw|]. apply starts_write.
  - destruct w as [|[]| | | | |fields']; try done. apply object_ok in Hv as [_ Hv], Hw as [_ Hw]. rewrite !write_object in H. simpl in H.
    injection H as H. rewrite <- !app_assoc in H. simpl in H.
    apply (commas_read field_text field_norm (fun kx => json_ok kx.2)) in H as [H ->]; try done.
    + by rewrite !norm_object, H.
    + rewrite sort_by_permutation. rewrite Forall_forall in IH, Hv |- *. intros x Hx. by apply field_read, IH, Hv.
    + apply Forall_true. intros [k x]. by eexists _, _.
    + by rewrite sort_by_permutation.
    + apply Forall_true. intros [k x]. by eexists _, _.
Qed.

(** ** Exactness *)

#[local] Instance by_key_comparator : Comparator (by_key (A:=JsonValue)).
Proof. apply (on_comparator (fun kx : string * JsonValue => kx.1) String.compare). Qed.

Lemma same_key (l : list (string * JsonValue)) x y : NoDup (map fst l) -> x ∈ l -> y ∈ l -> by_key x y = Eq -> x = y.
Proof.
  intros Hn Hx Hy E%String.compare_eq_iff. destruct x as [k x], y as [k' y]. simpl in E. subst k'. f_equal.
  apply (elem_of_list_to_map_1 (M:=gmap string)) in Hx, Hy; [congruence|done..].
Qed.

Lemma write_norm v : json_ok v -> write (norm v) = write v.
Proof.
  induction v as [|b|z|f|s|items IH|fields IH] using json_induction; intros Hv; try done.
  - apply array_ok in Hv. simpl. do 3 f_equal. rewrite map_map. apply map_ext_in. intros x Hx%list_elem_of_In. rewrite Forall_forall in IH, Hv. by apply IH, Hv.
  - apply object_ok in Hv as [Hn Hv]. rewrite norm_object, !write_object. do 3 f_equal.
    assert (sort_by by_key (map field_norm (sort_by by_key fields)) = map field_norm (sort_by by_key fields)) as ->.
    { transitivity (map field_norm (sort_by by_key (sort_by by_key fields))).
      - pose proof (sort_keyed norm (sort_by by_key fields)) as H. assert (forall l, map field_norm l = map (fun '(k, x) => (k, norm x)) l) as E by (intros l; apply map_ext; by intros [k x]).
        by rewrite !E.
      - f_equal. apply sort_by_unique; [apply _| |apply sort_by_permutation]. intros x y Hx Hy. rewrite sort_by_permutation in Hx, Hy. by apply (same_key fields). }
    rewrite map_map. apply map_ext_in. intros [k x] Hx%list_elem_of_In. rewrite sort_by_permutation in Hx. unfold field_text. cbn [fst snd field_norm].
    rewrite Forall_forall in IH, Hv. do 2 f_equal. by apply (IH _ Hx), (Hv _ Hx).
Qed.

(** The digest of a value is exact: two values of [serde_json] have the same canonical text when they
    are equal up to the order of the fields of their objects, at every depth, and only then. *)
Lemma canonical_text_is_exact v w : json_ok v -> json_ok w -> canonical_json float_text v = canonical_json float_text w <-> norm v = norm w.
Proof.
  intros Hv Hw. unfold canonical_json. split.
  - intros H. apply (f_equal chars) in H. rewrite !chars_of_chars in H. destruct (value_read v Hv w [] []) as [E _]; [done..| |done]. by rewrite !app_nil_r.
  - intros H. by rewrite <- (write_norm v), <- (write_norm w), H.
Qed.
End exact.

(** The order of fields does not count. *)
Lemma norm_fields l1 l2 : NoDup (map fst l1) -> l1 ≡ₚ l2 -> norm (JObject l1) = norm (JObject l2).
Proof.
  intros Hn Hp. rewrite !norm_object. do 2 f_equal. apply sort_by_unique; [apply by_key_comparator| |done]. intros x y. by apply same_key.
Qed.

(** ** Examples *)

(** Mantissa and exponent as the digits of a float. *)
Definition demo_float_text (f : f64) : string :=
  match f with
  | S754_finite s m e => (if s then "-" else EmptyString) +:+ pretty (Z.pos m) +:+ "e" +:+ pretty e
  | S754_zero s => (if s then "-0.0" else "0.0")
  | _ => EmptyString
  end.

Definition demo_value : JsonValue :=
  JObject [("timezone", JString "UTC"); ("list", JArray [JString "x"; JString "y"]); ("enabled", JBool true);
           ("nested", JObject [("b", JInt 2); ("a", JInt 1)]); ("schedule", JNull)].

(** The frozen vector of the repository's test. *)
Example the_frozen_vector : canonical_json demo_float_text demo_value =
  of_chars (flat_map (fun c => if bool_decide (c = "'"%char) then [quote] else [c])
    (chars "{'enabled':true,'list':['x','y'],'nested':{'a':1,'b':2},'schedule':null,'timezone':'UTC'}")).
Proof. vm_compute. reflexivity. Qed.

Example escapes_are_written : canonical_json demo_float_text (JString (of_chars [quote; ascii_of_nat 10; ascii_of_nat 31])) =
  of_chars (quote :: chars "\" ++ [quote] ++ chars "\n\u001f" ++ [quote]).
Proof. vm_compute. reflexivity. Qed.

Lemma demo_unsigned m (e : Z) : let t := pretty (Z.pos m) +:+ "e" +:+ pretty e in
  Forall (fun c => number_char c = true) (chars t) /\ "e"%char ∈ chars t /\ (exists c l, chars t = c :: l /\ is_digit c = true).
Proof.
  simpl. rewrite !chars_app. destruct (int_chars (Z.pos m)) as (H1 & _), (int_chars e) as (H2 & _). split; [|split].
  - apply Forall_app. split; [done|]. apply Forall_app. split; [by repeat constructor|done].
  - apply elem_of_app. right. by left.
  - destruct (pretty_int (Z.pos m)) as (ds & E & Hd & Hn). simpl in E. rewrite E. destruct ds as [|c ds]; [done|]. exists c, (ds ++ chars "e" ++ chars (pretty e)).
    split; [done|]. by apply Forall_cons in Hd as [Hd _].
Qed.

Lemma demo_unsigned_inj m (e : Z) m' (e' : Z) : pretty (Z.pos m) +:+ "e" +:+ pretty e = pretty (Z.pos m') +:+ "e" +:+ pretty e' -> m = m' /\ e = e'.
Proof.
  intros H. assert (forall n (x : Z), split_once "e"%char (pretty (Z.pos n) +:+ "e" +:+ pretty x) = Some (pretty (Z.pos n), pretty x)) as Hs.
  { intros n x. apply split_once_spec. split; [done|]. by destruct (int_chars (Z.pos n)) as (_ & _ & He). }
  pose proof (Hs m e) as E. rewrite H, Hs in E. injection E as E1 E2. apply (inj pretty) in E1, E2. by simplify_eq.
Qed.

Lemma demo_float_text_ok : FloatText demo_float_text.
Proof.
  split.
  - intros [[]|[]| |s m e] [Hf _]; try done; simpl; [by repeat constructor..|]. destruct (demo_unsigned m e) as (H & _). destruct s; [by constructor|done].
  - intros [[]|[]| |s m e] [Hf _]; try done; simpl; [by eexists _, _..|]. destruct (demo_unsigned m e) as (_ & _ & c & l & E & Hc). destruct s; [by eexists _, _|].
    exists c, l. split; [done|]. by rewrite Hc.
  - intros [[]|[]| |s m e] [Hf _]; try done; simpl; [left; set_solver..|right]. destruct (demo_unsigned m e) as (_ & H & _). destruct s; simpl; set_solver.
  - intros [s| | |s m e] [s'| | |s' m' e'] [Hf _] [Hg _]; try done; simpl.
    + by destruct s, s'.
    + intros H. exfalso. destruct (demo_unsigned m' e') as (_ & He & _). apply (f_equal chars) in H.
      assert ("e"%char ∈ chars (if s then "-0.0"%string else "0.0"%string)) as Hin by (rewrite H; destruct s'; simpl; set_solver). destruct s; set_solver.
    + intros H. exfalso. destruct (demo_unsigned m e) as (_ & He & _). apply (f_equal chars) in H.
      assert ("e"%char ∈ chars (if s' then "-0.0"%string else "0.0"%string)) as Hin by (rewrite <- H; destruct s; simpl; set_solver). destruct s'; set_solver.
    + destruct (demo_unsigned m e) as (_ & _ & c & l & E & Hc), (demo_unsigned m' e') as (_ & _ & c' & l' & E' & Hc'). simpl in E, E'.
      destruct s, s'; intros H.
      * injection H as H. by destruct (demo_unsigned_inj _ _ _ _ H) as [-> ->].
      * exfalso. apply (f_equal chars) in H. assert ("-"%char :: chars (pretty (Z.pos m) +:+ "e" +:+ pretty e) = c' :: l') as H' by (rewrite <- E'; exact H). injection H' as <- _. by vm_compute in Hc'.
      * exfalso. apply (f_equal chars) in H. assert ("-"%char :: chars (pretty (Z.pos m') +:+ "e" +:+ pretty e') = c :: l) as H' by (rewrite <- E; symmetry; exact H). injection H' as <- _. by vm_compute in Hc.
      * by destruct (demo_unsigned_inj _ _ _ _ H) as [-> ->].
Qed.

Lemma canonical_text_is_exact_witness :
  canonical_json demo_float_text (JObject [("a", JInt 1); ("b", JNull)]) = canonical_json demo_float_text (JObject [("b", JNull); ("a", JInt 1)]).
Proof.
  apply (canonical_text_is_exact demo_float_text demo_float_text_ok).
  - split; [apply (bool_decide_unpack _); by vm_compute|by repeat constructor].
  - split; [apply (bool_decide_unpack _); by vm_compute|by repeat constructor].
  - reflexivity.
Defined.
