(* ===== verification/Fleet.v ===== *)
(** Fleet settings: what the cloud pushes for a category of settings, applied to this appliance
    ([nexus-engine/src/fleet_apply.rs]), with the markers that remember what the fleet owns
    ([nexus-store/src/fleet.rs]), the table of visual prompts
    ([nexus-store/src/visual_prompts.rs], [nexus-engine/src/visual_prompts_admin.rs]) and the rows of rules
    ([nexus-store/src/lib.rs]).

    An apply is a sequence of statements of the database. Each meets a [Turn]: the writes of other
    requests that come before it, and whether it succeeds. A transaction whose writes follow each
    other is one statement. serde, CEL, HTTP, the image decoder and encoder and the hash are
    parameters; messages of errors are left out, an error is its HTTP status. *)
From S2P Require Import Prelude Text Float Types Alert AuditLog Cameras RequireRole AdminAudit SinkConfigs CanonicalJson.
From S2P Require Rules.
Abbreviation RuleConfig := Rules.RuleConfig.

(** ** Requests *)

Inductive FleetApplyMode := Replace | Merge.

Definition mode_as_str (m : FleetApplyMode) : string := match m with Replace => "replace" | Merge => "merge" end.

Record FleetScope := mkScope { scope_type : string; scope_id : string }.

Record FleetApplyReq := mkReq { effective : JsonValue; scope : option FleetScope; mode : FleetApplyMode }.

Record AppliedCategory := mkApplied { targets : nat; managed_keys : list string }.

Record FleetVisualPromptEntry := mkPromptEntry {
  pe_name : string;
  pe_sha256 : option string;
  pe_image_url : option string;
}.

Record DeliveryPayload := mkDelivery {
  dp_enabled : bool;
  dp_schedule : option DeliverySchedule;
  dp_timezone : option string;
  dp_attach_alert_clip : option bool;
}.

(** ** The store *)

Record FleetManagedMarker := mkMarker {
  mk_scope : option FleetScope;
  mk_sha256 : option string;
  mk_mode : option string;
  mk_managed_keys : option (list string);
  mk_applied_at : Z;
}.

(** Rules and cameras as this build decodes their rows; visual prompts by id, by name unique. *)
Record Fleet (Json : Type) := mkFleet {
  f_rules : gmap string (option RuleConfig);
  f_cameras : CamerasTable;
  f_prompts : gmap Z string;
  f_next_prompt : Z;
  f_attached : gset (Z * Z);
  f_images : gmap string string;
  f_delivery : DeliverySettings;
  f_sinks : SinksTable Json;
  f_transport : option HdTransport;
  f_markers : gmap string FleetManagedMarker;
  f_audit : AuditLog;
  f_signals : list string;
  f_loaded : list RuleConfig;
}.
Arguments mkFleet {Json}.
Arguments f_rules {Json}.
Arguments f_cameras {Json}.
Arguments f_prompts {Json}.
Arguments f_next_prompt {Json}.
Arguments f_attached {Json}.
Arguments f_images {Json}.
Arguments f_delivery {Json}.
Arguments f_sinks {Json}.
Arguments f_transport {Json}.
Arguments f_markers {Json}.
Arguments f_audit {Json}.
Arguments f_signals {Json}.
Arguments f_loaded {Json}.

Section setters.
Context {Json : Type}.
Implicit Types f : Fleet Json.
Definition set_rules x f := mkFleet x (f_cameras f) (f_prompts f) (f_next_prompt f) (f_attached f) (f_images f) (f_delivery f) (f_sinks f) (f_transport f) (f_markers f) (f_audit f) (f_signals f) (f_loaded f).
Definition set_cameras x f := mkFleet (f_rules f) x (f_prompts f) (f_next_prompt f) (f_attached f) (f_images f) (f_delivery f) (f_sinks f) (f_transport f) (f_markers f) (f_audit f) (f_signals f) (f_loaded f).
Definition set_prompts x n f := mkFleet (f_rules f) (f_cameras f) x n (f_attached f) (f_images f) (f_delivery f) (f_sinks f) (f_transport f) (f_markers f) (f_audit f) (f_signals f) (f_loaded f).
Definition set_attached x f := mkFleet (f_rules f) (f_cameras f) (f_prompts f) (f_next_prompt f) x (f_images f) (f_delivery f) (f_sinks f) (f_transport f) (f_markers f) (f_audit f) (f_signals f) (f_loaded f).
Definition set_images x f := mkFleet (f_rules f) (f_cameras f) (f_prompts f) (f_next_prompt f) (f_attached f) x (f_delivery f) (f_sinks f) (f_transport f) (f_markers f) (f_audit f) (f_signals f) (f_loaded f).
Definition set_delivery x f := mkFleet (f_rules f) (f_cameras f) (f_prompts f) (f_next_prompt f) (f_attached f) (f_images f) x (f_sinks f) (f_transport f) (f_markers f) (f_audit f) (f_signals f) (f_loaded f).
Definition set_sinks (x : SinksTable Json) f : Fleet Json := mkFleet (f_rules f) (f_cameras f) (f_prompts f) (f_next_prompt f) (f_attached f) (f_images f) (f_delivery f) x (f_transport f) (f_markers f) (f_audit f) (f_signals f) (f_loaded f).
Definition set_transport x f := mkFleet (f_rules f) (f_cameras f) (f_prompts f) (f_next_prompt f) (f_attached f) (f_images f) (f_delivery f) (f_sinks f) x (f_markers f) (f_audit f) (f_signals f) (f_loaded f).
Definition set_markers x f := mkFleet (f_rules f) (f_cameras f) (f_prompts f) (f_next_prompt f) (f_attached f) (f_images f) (f_delivery f) (f_sinks f) (f_transport f) x (f_audit f) (f_signals f) (f_loaded f).
Definition set_audit x f := mkFleet (f_rules f) (f_cameras f) (f_prompts f) (f_next_prompt f) (f_attached f) (f_images f) (f_delivery f) (f_sinks f) (f_transport f) (f_markers f) x (f_signals f) (f_loaded f).
Definition publish x f := mkFleet (f_rules f) (f_cameras f) (f_prompts f) (f_next_prompt f) (f_attached f) (f_images f) (f_delivery f) (f_sinks f) (f_transport f) (f_markers f) (f_audit f) (f_signals f ++ [x]) (f_loaded f).
Definition set_loaded x f := mkFleet (f_rules f) (f_cameras f) (f_prompts f) (f_next_prompt f) (f_attached f) (f_images f) (f_delivery f) (f_sinks f) (f_transport f) (f_markers f) (f_audit f) (f_signals f) x.
End setters.

(** ** Queries *)

Section queries.
Context {Json : Type}.
Implicit Types f : Fleet Json.

(** [ORDER BY id]; the read fails on a row it cannot decode. *)
Definition by_id (a b : string * option RuleConfig) : comparison := String.compare a.1 b.1.

Definition list_rules f : option (list RuleConfig) := mapM snd (Order.sort_by by_id (map_to_list (f_rules f))).

Definition upsert_rule_tx (r : RuleConfig) f : Fleet Json := set_rules (<[Rules.id r := Some r]> (f_rules f)) f.
Definition delete_rule_tx (k : string) f : Fleet Json := set_rules (delete k (f_rules f)) f.

Definition get_visual_prompt_by_name (n : string) f : option Z :=
  fst <$> List.find (fun '(_, m) => str_eqb m n) (sorted_entries (f_prompts f)).

(** [None]: the name is taken. *)
Definition create_visual_prompt (n : string) f : option Z * Fleet Json :=
  match get_visual_prompt_by_name n f with
  | Some _ => (None, f)
  | None => (Some (f_next_prompt f), set_prompts (<[f_next_prompt f := n]> (f_prompts f)) (f_next_prompt f + 1) f)
  end.

Definition is_attached_somewhere (p : Z) f : bool := existsb (fun '(_, q) => q =? p) (elements (f_attached f)).

Definition delete_visual_prompt (p : Z) f : Fleet Json :=
  if is_attached_somewhere p f then f else set_prompts (delete p (f_prompts f)) (f_next_prompt f) f.

(** [false]: the camera or the prompt does not exist. *)
Definition attach_camera_visual_prompt (c p : Z) f : bool * Fleet Json :=
  if is_some (f_cameras f !! c) && is_some (f_prompts f !! p) then (true, set_attached ({[ (c, p) ]} ∪ f_attached f) f) else (false, f).

(** [false]: it was not attached. *)
Definition detach_camera_visual_prompt (c p : Z) f : bool * Fleet Json :=
  if bool_decide ((c, p) ∈ f_attached f) then (true, set_attached (f_attached f ∖ {[ (c, p) ]}) f) else (false, f).

Definition list_camera_visual_prompt_ids (c : Z) f : list Z := snd <$> filter (fun '(d, _) => d = c) (elements (f_attached f)).

(** Deleting a camera takes its attachments with it. *)
Definition delete_camera (i : Z) f : Fleet Json :=
  set_attached (filter (fun '(c, _) => c <> i) (f_attached f)) (set_cameras (delete_camera_tx i (f_cameras f)) f).

Definition fleet_marker_get (category : string) f : option FleetManagedMarker := f_markers f !! category.
Definition fleet_marker_upsert (category : string) (m : FleetManagedMarker) f : Fleet Json := set_markers (<[category := m]> (f_markers f)) f.
End queries.

(** ** Turns *)

(** The writes of other requests. *)
Inductive LocalOp :=
| LRule (r : RuleConfig)
| LDropRule (k : string)
| LCamera (c : CameraConfig)
| LDropCamera (i : Z)
| LPrompt (n : string)
| LDropPrompt (p : Z)
| LAttach (c p : Z)
| LDetach (c p : Z)
| LSink (o : RowOp).

Record Turn := mkTurn { t_now : Z; t_others : list LocalOp; t_up : bool }.

(** The store and the turns to come; after the last, no one writes and nothing fails. *)
Record World (Json : Type) := mkWorld { w_fleet : Fleet Json; w_turns : list Turn }.
Arguments mkWorld {Json}.
Arguments w_fleet {Json}.
Arguments w_turns {Json}.

Section apply.
Context {Json : Type}.
(** serde. *)
Variable to_json : SinkConfig -> Json.
Variable from_json : Json -> option SinkConfig.
Variable json_text : JsonValue -> string.
Variable rules_of : JsonValue -> option (list RuleConfig).
Variable strings_of : JsonValue -> option (list string).
Variable entries_of : JsonValue -> option (list FleetVisualPromptEntry).
Variable model_of : JsonValue -> option ModelConfig.
Variable delivery_of : JsonValue -> option DeliveryPayload.
Variable sinks_of : JsonValue -> option (list SinkConfig).
(** [compile_cel_safely], the time zones that are known, the sinks of [nexus.toml], and the hash. *)
Variable compiles : RuleConfig -> bool.
Variable knows_timezone : string -> bool.
Variable file_sinks : list SinkConfig.
Variable float_text : f64 -> string.
Variable sha256_hex : string -> string.
(** An image's URL: status, announced length, body. Whether an encoder is configured, what it says of
    the bytes. *)
Variable http_get : string -> option (Z * option Z * option string).
Variable encoder_configured : bool.
Variable decodes : string -> bool.
Variable encodes : string -> bool.

Definition FM (A : Type) : Type := SE (World Json) Z A.

Definition local_op (o : LocalOp) (f : Fleet Json) : Fleet Json :=
  match o with
  | LRule r => upsert_rule_tx r f
  | LDropRule k => delete_rule_tx k f
  | LCamera c => set_cameras (upsert_camera_tx c (f_cameras f)) f
  | LDropCamera i => delete_camera i f
  | LPrompt n => (create_visual_prompt n f).2
  | LDropPrompt p => delete_visual_prompt p f
  | LAttach c p => (attach_camera_visual_prompt c p f).2
  | LDetach c p => (detach_camera_visual_prompt c p f).2
  | LSink o => set_sinks (row_op to_json o (f_sinks f)) f
  end.

Definition local_ops (l : list LocalOp) (f : Fleet Json) : Fleet Json := foldl (fun f o => local_op o f) f l.

(** A statement, or a transaction. *)
Definition stmt {A} (body : Z -> Fleet Json -> result A Z * Fleet Json) : FM A := fun w =>
  match w_turns w with
  | [] => let '(r, f) := body 0 (w_fleet w) in (r, mkWorld f [])
  | t :: ts =>
      let f := local_ops (t_others t) (w_fleet w) in
      if t_up t then let '(r, f) := body (t_now t) f in (r, mkWorld f ts) else (Err 500, mkWorld f ts)
  end.

Definition read {A} (q : Fleet Json -> A) : FM A := stmt (fun _ f => (Ok (q f), f)).
Definition write (u : Z -> Fleet Json -> Fleet Json) : FM unit := stmt (fun now f => (Ok tt, u now f)).
(** A read that fails on what it cannot decode. *)
Definition read_strict {A} (q : Fleet Json -> option A) : FM A := stmt (fun _ f => (match q f with Some a => Ok a | None => Err 500 end, f)).
(** In memory. *)
Definition inside (u : Fleet Json -> Fleet Json) : FM unit := modify (fun w => mkWorld (u (w_fleet w)) (w_turns w)).

(** [c.unwrap_or_default()] and [if let Ok(..)] *)
Definition caught {A} (m : FM A) : FM (result A Z) := fun w => let '(r, w) := m w in (Ok r, w).

Fixpoint map_m {A B} (g : A -> FM B) (l : list A) : FM (list B) :=
  match l with
  | [] => mret []
  | x :: l' => y ← g x; ys ← map_m g l'; mret (y :: ys)
  end.

(** ** What an apply may delete *)

Definition key_set (l : list string) : gset string := list_to_set l.

(** [None]: anything. *)
Definition retractable (m : FleetApplyMode) (prev_keys : list string) (keep : gset string) : option (gset string) :=
  match m with Replace => None | Merge => Some (key_set (List.filter (fun k => negb (bool_decide (k ∈ keep))) prev_keys)) end.

Definition should_delete (retract : option (gset string)) (keep : gset string) (key : string) : bool :=
  match retract with None => negb (bool_decide (key ∈ keep)) | Some s => bool_decide (key ∈ s) end.

(** ** The categories *)

Definition rule_is_good (r : RuleConfig) : bool := negb (str_eqb (trim (Rules.id r)) "") && compiles r.

(** The evaluator takes the rules of the store when they can be read and compile. *)
Definition reload_rules_into_evaluator : FM unit :=
  rules ← caught (read_strict list_rules);
  match rules with
  | Ok rs => if forallb compiles rs then inside (set_loaded rs) else mret tt
  | Err _ => mret tt
  end ;;
  inside (publish "config.changed").

Definition apply_rules (eff : JsonValue) (m : FleetApplyMode) (prev_keys : list string) : FM AppliedCategory :=
  rules ← get_some (rules_of eff) (throw 400);
  guard_err (forallb rule_is_good rules) 400 ;;
  let keep := key_set (Rules.id <$> rules) in
  let retract := retractable m prev_keys keep in
  existing ← read_strict list_rules;
  write (fun _ f =>
    let f := foldl (fun f r => if should_delete retract keep (Rules.id r) then delete_rule_tx (Rules.id r) f else f) f existing in
    foldl (fun f r => upsert_rule_tx r f) f rules) ;;
  reload_rules_into_evaluator ;;
  mret (mkApplied (length rules) (Rules.id <$> rules)).

Definition with_prompts (p : list string) (c : CameraConfig) : CameraConfig :=
  mkCamera (cam_id c) (cam_name c) (ingest c) p (model_override c) (behavior c).

Definition with_model (x : option ModelConfig) (c : CameraConfig) : CameraConfig :=
  mkCamera (cam_id c) (cam_name c) (ingest c) (Cameras.prompts c) x (behavior c).

Definition upsert_cameras (cams : list CameraConfig) (f : Fleet Json) : Fleet Json :=
  set_cameras (foldl (fun t c => upsert_camera_tx c t) (f_cameras f) cams) f.

Definition merged_prompts (m : FleetApplyMode) (keep : gset string) (retract : option (gset string)) (prompts own : list string) : list string :=
  match m with
  | Replace => prompts
  | Merge => List.filter (fun p => negb (bool_decide (p ∈ keep)) && negb (should_delete retract keep p)) own ++ prompts
  end.

Definition apply_text_prompts (eff : JsonValue) (m : FleetApplyMode) (prev_keys : list string) : FM AppliedCategory :=
  prompts ← get_some (strings_of eff) (throw 400);
  let keep := key_set prompts in
  let retract := retractable m prev_keys keep in
  cameras ← read_strict (fun f => list_cameras (f_cameras f));
  write (fun _ => upsert_cameras ((fun c => with_prompts (merged_prompts m keep retract prompts (Cameras.prompts c)) c) <$> cameras)) ;;
  inside (publish "config.changed") ;;
  mret (mkApplied (length cameras) prompts).

Definition apply_detector_config (eff : JsonValue) : FM AppliedCategory :=
  model ← get_some (model_of eff) (throw 400);
  guard_err (model_is_finite model) 400 ;;
  cameras ← read_strict (fun f => list_cameras (f_cameras f));
  write (fun _ => upsert_cameras (with_model (Some model) <$> cameras)) ;;
  inside (publish "config.changed") ;;
  mret (mkApplied (length cameras) []).

Definition apply_delivery_settings (eff : JsonValue) : FM AppliedCategory :=
  payload ← get_some (delivery_of eff) (throw 400);
  let tz := match trim <$> dp_timezone payload with Some t => if str_eqb t "" then "UTC"%string else t | None => "UTC"%string end in
  guard_err (knows_timezone tz) 400 ;;
  attach ← match dp_attach_alert_clip payload with
           | Some v => mret v
           | None => d ← caught (read f_delivery); mret (match d with Ok d => attach_alert_clip d | Err _ => true end)
           end;
  stmt (fun now f =>
    match dp_schedule payload ≫= Types.validate with
    | Some _ => (Err 500, f)
    | None => (Ok tt, set_delivery (mkSettings (dp_enabled payload) (dp_schedule payload) tz attach now) f)
    end) ;;
  inside (publish "delivery.settings.changed") ;;
  mret (mkApplied 1 []).

Definition obj_get (k : string) (v : JsonValue) : option JsonValue :=
  match v with JObject fields => snd <$> List.find (fun kx => str_eqb kx.1 k) fields | _ => None end.

Definition apply_live_view (eff : JsonValue) : FM AppliedCategory :=
  text ← get_some (match obj_get "hd_transport" eff with Some (JString s) => Some s | _ => None end) (throw 400);
  transport ← get_some (hd_from_str text) (throw 400);
  write (fun _ => set_transport (Some transport)) ;;
  mret (mkApplied 1 []).

(** [None]: no file sink of the id; the last of several counts. *)
Definition file_by_id (id : string) : option SinkConfig :=
  (foldl (fun m c => <[sink_id_of c := c]> m) ∅ file_sinks : gmap string SinkConfig) !! id.

Fixpoint resolve_sinks (cfgs : list SinkConfig) (keep : gset string) : FM (list (string * SinkConfig)) :=
  match cfgs with
  | [] => mret []
  | cfg :: cfgs' =>
      let id := sink_id_of cfg in
      guard_err (negb (bool_decide (id ∈ keep))) 400 ;;
      row ← read (fun f => stored from_json id (f_sinks f));
      let cfg := match row with Some old => restore_redacted_secrets_from old cfg | None => cfg end in
      let cfg := if has_redacted_secret cfg then match file_by_id id with Some old => restore_redacted_secrets_from old cfg | None => cfg end else cfg in
      guard_err (negb (has_redacted_secret cfg)) 400 ;;
      guard_err (match SinkConfigs.validate cfg with Ok _ => true | Err _ => false end) 400 ;;
      rest ← resolve_sinks cfgs' ({[ id ]} ∪ keep);
      mret ((id, cfg) :: rest)
  end.

Definition apply_alert_sinks (eff : JsonValue) (m : FleetApplyMode) (prev_keys : list string) : FM AppliedCategory :=
  sinks ← get_some (sinks_of eff) (throw 400);
  resolved ← resolve_sinks sinks ∅;
  let keep := key_set resolved.*1 in
  let retract := retractable m prev_keys keep in
  rows ← read (fun f => alert_sinks_list (f_sinks f));
  iter_m (fun row =>
    if should_delete retract keep (row_id row) then write (fun _ f => set_sinks (alert_sink_delete (row_id row) (f_sinks f)).2 f) else mret tt) rows ;;
  iter_m (fun '(id, c) => write (fun now f => set_sinks (alert_sink_upsert now id (kind c) (name c) (to_json c) (f_sinks f)) f)) resolved ;;
  inside (publish "sink.config.changed") ;;
  mret (mkApplied (length resolved) resolved.*1).

(** ** Visual prompts *)

Definition FLEET_VP_MAX_IMAGE_BYTES : Z := 10 * 1024 * 1024.

(** The original bytes are kept on disk under their hash before they are encoded. *)
Definition create_visual_prompt_from_image (n bytes : string) : FM Z :=
  guard_err encoder_configured 503 ;;
  guard_err (decodes bytes) 400 ;;
  write (fun _ f => set_images (<[sha256_hex bytes := bytes]> (f_images f)) f) ;;
  guard_err (encodes bytes) 500 ;;
  stmt (fun _ f => let '(o, f) := create_visual_prompt n f in (match o with Some i => Ok i | None => Err 409 end, f)).

Definition is_success (status : Z) : bool := (200 <=? status) && (status <? 300).

Definition fetch_and_create_visual_prompt (e : FleetVisualPromptEntry) : FM Z :=
  url ← get_some (pe_image_url e) (throw 400);
  expected_sha ← get_some (pe_sha256 e) (throw 400);
  '(status, len, body) ← get_some (http_get url) (throw 502);
  guard_err (is_success status) 502 ;;
  guard_err (match len with Some n => n <=? FLEET_VP_MAX_IMAGE_BYTES | None => true end) 400 ;;
  bytes ← get_some body (throw 502);
  guard_err (blen bytes <=? FLEET_VP_MAX_IMAGE_BYTES) 400 ;;
  guard_err (eq_ignore_ascii_case (sha256_hex bytes) expected_sha) 400 ;;
  create_visual_prompt_from_image (pe_name e) bytes.

(** The ids of the entries, and whether a name is unknown. *)
Fixpoint resolve_prompts (entries : list FleetVisualPromptEntry) : FM (list Z * bool) :=
  match entries with
  | [] => mret ([], false)
  | e :: entries' =>
      found ← read (get_visual_prompt_by_name (pe_name e));
      '(mine, missing) ←
        match found with
        | Some p => mret ([p], false)
        | None => if is_some (pe_image_url e) then (p ← fetch_and_create_visual_prompt e; mret ([p], false)) else mret ([], true)
        end;
      '(ids, unknown) ← resolve_prompts entries';
      mret (mine ++ ids, missing || unknown)
  end.

(** The ids of the names the fleet owned, but for those it lists; a failed read is a name that is gone. *)
Fixpoint retract_prompts (keep : gset Z) (prev_keys : list string) : FM (gset Z) :=
  match prev_keys with
  | [] => mret ∅
  | n :: prev_keys' =>
      found ← caught (read (get_visual_prompt_by_name n));
      s ← retract_prompts keep prev_keys';
      mret (match found with Ok (Some p) => if bool_decide (p ∈ keep) then s else {[ p ]} ∪ s | _ => s end)
  end.

(** One camera; whether anything was changed. *)
Definition reconcile_prompts (retract : option (gset Z)) (keep : gset Z) (ids : list Z) (cam : CameraConfig) : FM bool :=
  current ← read (list_camera_visual_prompt_ids (cam_id cam));
  detached ← map_m (fun p =>
    if match retract with None => negb (bool_decide (p ∈ keep)) | Some s => bool_decide (p ∈ s) end
    then stmt (fun _ f => let '(b, f) := detach_camera_visual_prompt (cam_id cam) p f in (if b then Ok true else Err 500, f))
    else mret false) current;
  attached ← map_m (fun p =>
    if negb (bool_decide (p ∈ current))
    then stmt (fun _ f => let '(b, f) := attach_camera_visual_prompt (cam_id cam) p f in (if b then Ok true else Err 500, f))
    else mret false) ids;
  mret (existsb Datatypes.id (detached ++ attached)).

Definition apply_visual_prompts (eff : JsonValue) (m : FleetApplyMode) (prev_keys : list string) : FM AppliedCategory :=
  entries ← get_some (entries_of eff) (throw 400);
  '(ids, unknown) ← resolve_prompts entries;
  guard_err (negb unknown) 400 ;;
  let keep : gset Z := list_to_set ids in
  retract ← match m with Replace => mret None | Merge => s ← retract_prompts keep prev_keys; mret (Some s) end;
  cameras ← read_strict (fun f => list_cameras (f_cameras f));
  changed ← map_m (reconcile_prompts retract keep ids) cameras;
  (if existsb Datatypes.id changed then inside (publish "config.changed") else mret tt) ;;
  mret (mkApplied (length ids) (pe_name <$> entries)).

(** ** The handler *)

Definition apply_category (category : string) (eff : JsonValue) (m : FleetApplyMode) (prev_keys : list string) : FM AppliedCategory :=
  if str_eqb category "rules" then apply_rules eff m prev_keys
  else if str_eqb category "text_prompts" then apply_text_prompts eff m prev_keys
  else if str_eqb category "visual_prompts" then apply_visual_prompts eff m prev_keys
  else if str_eqb category "detector_config" then apply_detector_config eff
  else if str_eqb category "delivery_settings" then apply_delivery_settings eff
  else if str_eqb category "alert_sinks" then apply_alert_sinks eff m prev_keys
  else if str_eqb category "live_view" then apply_live_view eff
  else throw 404.

(** What the marker says the fleet owns. *)
Definition owned (category : string) (f : Fleet Json) : list string :=
  match fleet_marker_get category f with Some k => default [] (mk_managed_keys k) | None => [] end.

Definition applied_marker (req : FleetApplyReq) (keys : list string) (now : Z) : FleetManagedMarker :=
  mkMarker (scope req) (Some (sha256_canonical float_text sha256_hex (effective req))) (Some (mode_as_str (mode req))) (Some keys) now.

Definition post_admin_fleet_apply (category : string) (actor : option SessionContext) (client : Client) (req : FleetApplyReq) : FM nat :=
  prev ← caught (read (owned category));
  let prev_keys := match prev with Ok keys => keys | Err _ => [] end in
  result ← caught (apply_category category (effective req) (mode req) prev_keys);
  let outcome := match result with Ok _ => Success | Err _ => Failure end in
  caught (write (fun now f => set_audit (audit_admin_action now true actor client
    (mkAction "fleet.apply" "fleet" (Some category) None (Some (json_text (effective req)))) outcome (f_audit f)) f)) ;;
  match result with
  | Err e => throw e
  | Ok a =>
      caught (write (fun now => fleet_marker_upsert category (applied_marker req (managed_keys a) now))) ;;
      mret (targets a)
  end.

(** A run: applies, and the requests of others in between. *)
Inductive FleetOp :=
| Apply (turns : list Turn) (category : string) (actor : option SessionContext) (client : Client) (req : FleetApplyReq)
| Local (o : LocalOp).

Definition fleet_step (o : FleetOp) (f : Fleet Json) : Fleet Json * option (result nat Z) :=
  match o with
  | Apply turns category actor client req => let '(r, w) := post_admin_fleet_apply category actor client req (mkWorld f turns) in (w_fleet w, Some r)
  | Local o => (local_op o f, None)
  end.

#[export] Instance fleet_machine : Machine FleetOp (Fleet Json) (option (result nat Z)) := fleet_step.
End apply.

(** ** Invariants of applies *)

Section keeps.
Context {Json : Type} (to_json : SinkConfig -> Json) (J : Fleet Json -> Prop) (ok_op : LocalOp -> Prop).
Context (Hlocal : forall o f, ok_op o -> J f -> J (local_op to_json o f)).

Definition good_turns (ts : list Turn) : Prop := Forall (fun t => Forall ok_op (t_others t)) ts.

(** The program keeps [J] whatever others write, and its value is as [Q] says. *)
Definition keeps {A} (m : FM (Json := Json) A) (Q : A -> Prop) : Prop :=
  forall w, J (w_fleet w) -> good_turns (w_turns w) ->
  J (w_fleet (m w).2) /\ good_turns (w_turns (m w).2) /\ (forall a, (m w).1 = Ok a -> Q a).

Lemma local_ops_keep l f : Forall ok_op l -> J f -> J (local_ops to_json l f).
Proof. intros Hl. revert f. induction Hl as [|o l Ho _ IH]; intros f Hf; [done|]. simpl. by apply IH, Hlocal. Qed.

Lemma keeps_ret {A} (a : A) (Q : A -> Prop) : Q a -> keeps (mret a) Q.
Proof. intros Ha w Hw Ht. split; [done|]. split; [done|]. by intros a' [= <-]. Qed.

Lemma keeps_throw {A} (e : Z) (Q : A -> Prop) : keeps (throw e) Q.
Proof. by intros w Hw Ht. Qed.

Lemma keeps_bind {A B} (m : FM A) (g : A -> FM B) (P : A -> Prop) (Q : B -> Prop) : keeps m P -> (forall a, P a -> keeps (g a) Q) -> keeps (m ≫= g) Q.
Proof.
  intros Hm Hg w Hw Ht. destruct (Hm w Hw Ht) as (H1 & H2 & H3). unfold mbind, se_bind. destruct (m w) as [[a|e] w']; simpl in *; [|done].
  by apply Hg; [apply H3|..].
Qed.

Lemma keeps_weaken {A} (m : FM A) (P Q : A -> Prop) : keeps m P -> (forall a, P a -> Q a) -> keeps m Q.
Proof. intros Hm H w Hw Ht. destruct (Hm w Hw Ht) as (H1 & H2 & H3). split; [done|]. split; [done|]. intros a Ha. by apply H, H3. Qed.

Lemma keeps_some {A} (o : option A) (e : Z) (Q : A -> Prop) : (forall a, o = Some a -> Q a) -> keeps (get_some o (throw e)) Q.
Proof. destruct o as [a|]; intros H; [by apply keeps_ret, H|apply keeps_throw]. Qed.

Lemma keeps_guard b (e : Z) (Q : unit -> Prop) : (b = true -> Q tt) -> keeps (guard_err b e) Q.
Proof. destruct b; intros H; [by apply keeps_ret, H|apply keeps_throw]. Qed.

Lemma keeps_stmt {A} (body : Z -> Fleet Json -> result A Z * Fleet Json) (Q : A -> Prop) :
  (forall now f, J f -> J (body now f).2 /\ (forall a, (body now f).1 = Ok a -> Q a)) -> keeps (stmt to_json body) Q.
Proof.
  intros Hb w Hw Ht. unfold stmt. destruct (w_turns w) as [|t ts].
  - destruct (Hb 0 _ Hw) as [H1 H2]. by destruct (body 0 (w_fleet w)) as [r f].
  - apply Forall_cons in Ht as [Ht Hts]. pose proof (local_ops_keep _ _ Ht Hw) as Hf. destruct (t_up t); [|done].
    destruct (Hb (t_now t) _ Hf) as [H1 H2]. by destruct (body (t_now t) _) as [r f].
Qed.

Lemma keeps_read {A} (q : Fleet Json -> A) (Q : A -> Prop) : (forall f, J f -> Q (q f)) -> keeps (read to_json q) Q.
Proof. intros H. apply keeps_stmt. intros now f Hf. split; [done|]. intros a [= <-]. by apply H. Qed.

Lemma keeps_write (u : Z -> Fleet Json -> Fleet Json) (Q : unit -> Prop) : (forall now f, J f -> J (u now f)) -> Q tt -> keeps (write to_json u) Q.
Proof. intros H HQ. apply keeps_stmt. intros now f Hf. split; [by apply H|]. by intros [] _. Qed.

Lemma keeps_read_strict {A} (q : Fleet Json -> option A) (Q : A -> Prop) : (forall f a, J f -> q f = Some a -> Q a) -> keeps (read_strict to_json q) Q.
Proof. intros H. apply keeps_stmt. intros now f Hf. split; [done|]. intros a. destruct (q f) eqn:E; [|done]. intros [= <-]. by eapply H. Qed.

Lemma keeps_inside (u : Fleet Json -> Fleet Json) (Q : unit -> Prop) : (forall f, J f -> J (u f)) -> Q tt -> keeps (inside u) Q.
Proof. intros H HQ w Hw Ht. split; [by apply H|]. split; [done|]. by intros [] _. Qed.

Lemma keeps_caught {A} (m : FM A) (Q : A -> Prop) : keeps m Q -> keeps (caught m) (fun r => forall a, r = Ok a -> Q a).
Proof. intros Hm w Hw Ht. destruct (Hm w Hw Ht) as (H1 & H2 & H3). unfold caught. destruct (m w) as [r w']. simpl in *. split; [done|]. split; [done|]. by intros ? [= <-]. Qed.

Lemma keeps_map {A B} (g : A -> FM B) l (Q : B -> Prop) : (forall x, x ∈ l -> keeps (g x) Q) -> keeps (map_m g l) (Forall Q).
Proof.
  induction l as [|x l IH]; intros H; [by apply keeps_ret|]. simpl. apply (keeps_bind _ _ Q); [apply H; by left|]. intros y Hy.
  apply (keeps_bind _ _ (Forall Q)); [apply IH; intros z Hz; apply H; by right|]. intros ys Hys. apply keeps_ret. by constructor.
Qed.

Lemma keeps_iter {A} (g : A -> FM unit) l (Q : unit -> Prop) : (forall x, x ∈ l -> keeps (g x) (fun _ => True)) -> Q tt -> keeps (iter_m g l) Q.
Proof.
  induction l as [|x l IH]; intros H HQ; [by apply keeps_ret|]. simpl. apply (keeps_bind _ _ (fun _ => True)); [apply H; by left|]. intros _ _.
  apply IH; [|done]. intros z Hz. apply H. by right.
Qed.
End keeps.

(** ** Merges spare local entries *)

Definition own_prompts (fleet : gset string) (l : list string) : list string := List.filter (fun p => negb (bool_decide (p ∈ fleet))) l.

(** The prompts of a camera's row that are not the fleet's. *)
Definition local_row (fleet : gset string) (r : option (option CameraConfig)) : option (option (list string)) :=
  option_map (option_map (fun c => own_prompts fleet (Cameras.prompts c))) r.

(** An entry of the store, and the writes of others that concern it. *)
Inductive Entry := ERule (k : string) | ESink (id : string) | EPrompts (i : Z) | EAttached (i p : Z).

Definition touches (e : Entry) (o : LocalOp) : Prop :=
  match e, o with
  | ERule k, LRule r => Rules.id r = k
  | ERule k, LDropRule k' => k' = k
  | ESink id, LSink (RowPut _ c) => sink_id_of c = id
  | ESink id, LSink (RowDelete id') => id' = id
  | EPrompts i, LCamera c => cam_id c = i
  | EPrompts i, LDropCamera j => j = i
  | EAttached i _, LDropCamera j => j = i
  | EAttached _ p, LDropPrompt q => q = p
  | EAttached i p, LAttach j q => (j, q) = (i, p)
  | EAttached i p, LDetach j q => (j, q) = (i, p)
  | _, _ => False
  end.

Lemma elem_of_key_set k l : k ∈ key_set l <-> k ∈ l.
Proof. unfold key_set. set_solver. Qed.

Section spare.
Context {Json : Type} (to_json : SinkConfig -> Json) (from_json : Json -> option SinkConfig).
(** The keys of each category that are the fleet's; the entry that is not; the store at the start. *)
Context (fleet : string -> gset string) (e : Entry) (f0 : Fleet Json).

(** The entry is local. *)
Definition entry_local (f : Fleet Json) : Prop :=
  match e with
  | ERule k => k ∉ fleet "rules"
  | ESink id => id ∉ fleet "alert_sinks"
  | EPrompts _ => True
  | EAttached _ p => exists n, f_prompts f !! p = Some n /\ n ∉ fleet "visual_prompts"
  end.

(** The entry is as it was; of a camera's prompts, the local ones, in their order. *)
Definition same_entry (f : Fleet Json) : Prop :=
  match e with
  | ERule k => f_rules f !! k = f_rules f0 !! k
  | ESink id => f_sinks f !! id = f_sinks f0 !! id
  | EPrompts i => local_row (fleet "text_prompts") (f_cameras f !! i) = local_row (fleet "text_prompts") (f_cameras f0 !! i)
  | EAttached i p => (i, p) ∈ f_attached f <-> (i, p) ∈ f_attached f0
  end.

(** The ids of prompts are new when they are given, the rows of cameras carry their ids, and the
    markers name the fleet's keys only. *)
Record fleet_ok (f : Fleet Json) : Prop := {
  ok_next : forall p n, f_prompts f !! p = Some n -> p < f_next_prompt f;
  ok_ids : ids_match (f_cameras f);
  ok_owned : forall c, key_set (owned c f) ⊆ fleet c;
}.

Record spared (f : Fleet Json) : Prop := {
  sp_ok : fleet_ok f;
  sp_local : entry_local f;
  sp_same : same_entry f;
}.

Lemma spared_upsert_rule r f : (forall k, e = ERule k -> Rules.id r <> k) -> spared f -> spared (upsert_rule_tx r f).
Proof.
  intros Hr [[H1 H2 H3] H4 H5]. split; [by split|done|]. unfold same_entry in *. destruct e as [k| | |]; simpl; try done.
  rewrite lookup_insert_ne by by apply Hr. done.
Qed.

Lemma spared_delete_rule k' f : (forall k, e = ERule k -> k' <> k) -> spared f -> spared (delete_rule_tx k' f).
Proof.
  intros Hr [[H1 H2 H3] H4 H5]. split; [by split|done|]. unfold same_entry in *. destruct e as [k| | |]; simpl; try done.
  rewrite lookup_delete_ne by by apply Hr. done.
Qed.

Lemma spared_sinks t f : (forall id, e = ESink id -> t !! id = f_sinks f !! id) -> spared f -> spared (set_sinks t f).
Proof.
  intros Hr [[H1 H2 H3] H4 H5]. split; [by split|done|]. unfold same_entry in *. destruct e as [|id| |]; simpl; try done. by rewrite Hr.
Qed.

Lemma spared_camera c f : (forall i, e = EPrompts i -> cam_id c = i ->
    local_row (fleet "text_prompts") (Some (Some c)) = local_row (fleet "text_prompts") (f_cameras f0 !! i)) ->
  spared f -> spared (set_cameras (upsert_camera_tx c (f_cameras f)) f).
Proof.
  intros Hr [[H1 H2 H3] H4 H5]. split; [split; [done|by apply upsert_ids|done]|done|]. unfold same_entry in *. destruct e as [| |i|]; simpl; try done.
  unfold upsert_camera_tx. destruct (decide (cam_id c = i)) as [<-|Hne]; [rewrite lookup_insert_eq; by apply Hr|by rewrite lookup_insert_ne].
Qed.

Lemma spared_created n f : spared f -> spared (create_visual_prompt n f).2.
Proof.
  intros [[H1 H2 H3] H4 H5]. unfold create_visual_prompt. destruct (get_visual_prompt_by_name n f); [done|]. split; simpl; [split; simpl; [|done|done]| |].
  - intros p n'. rewrite lookup_insert_Some. intros [[<- _]|[_ Hp]]; [lia|]. apply H1 in Hp. lia.
  - unfold entry_local in *. destruct e as [| | |i p]; try done. simpl. destruct H4 as (n' & Hn & Hf). exists n'. split; [|done].
    rewrite lookup_insert_ne; [done|]. apply H1 in Hn. lia.
  - unfold same_entry in *. by destruct e.
Qed.

Lemma spared_attached x f : (forall i p, e = EAttached i p -> (i, p) ∈ x <-> (i, p) ∈ f_attached f) -> spared f -> spared (set_attached x f).
Proof.
  intros Hr [[H1 H2 H3] H4 H5]. split; [by split|done|]. unfold same_entry in *. destruct e as [| | |i p]; simpl; try done. by rewrite Hr.
Qed.

Lemma spared_attach c p f : (forall i q, e = EAttached i q -> (c, p) <> (i, q)) -> spared f -> spared (attach_camera_visual_prompt c p f).2.
Proof.
  intros Hr Hf. unfold attach_camera_visual_prompt. destruct (_ && _); [|done]. apply spared_attached; [|done].
  intros i q Hi. specialize (Hr i q Hi). set_solver.
Qed.

Lemma spared_detach c p f : (forall i q, e = EAttached i q -> (c, p) <> (i, q)) -> spared f -> spared (detach_camera_visual_prompt c p f).2.
Proof.
  intros Hr Hf. unfold detach_camera_visual_prompt. destruct (bool_decide _); [|done]. apply spared_attached; [|done].
  intros i q Hi. specialize (Hr i q Hi). set_solver.
Qed.

Lemma spared_delete_camera j f : (forall i, e = EPrompts i -> j <> i) -> (forall i p, e = EAttached i p -> j <> i) -> spared f -> spared (delete_camera j f).
Proof.
  intros Hc Ha [[H1 H2 H3] H4 H5]. split; [split; [done|by apply delete_ids|done]|done|]. unfold same_entry in *. destruct e as [| |i|i p]; simpl; try done.
  - unfold delete_camera_tx. rewrite lookup_delete_ne by by apply Hc. done.
  - rewrite elem_of_filter. specialize (Ha i p eq_refl). naive_solver.
Qed.

Lemma spared_drop_prompt q f : (forall i p, e = EAttached i p -> q <> p) -> spared f -> spared (delete_visual_prompt q f).
Proof.
  intros Hr [[H1 H2 H3] H4 H5]. unfold delete_visual_prompt. destruct (is_attached_somewhere q f); [done|]. split; simpl; [split; simpl; [|done|done]| |].
  - intros p n. rewrite lookup_delete_Some. intros [_ Hp]. by eapply H1.
  - unfold entry_local in *. destruct e as [| | |i p]; try done. simpl. rewrite lookup_delete_ne by by eapply Hr. done.
  - unfold same_entry in *. by destruct e.
Qed.

Lemma spared_local o f : ~ touches e o -> spared f -> spared (local_op to_json o f).
Proof.
  intros Ho Hf. destruct o as [r|k|c|i|n|p|c p|c p|o]; simpl.
  - apply spared_upsert_rule; [|done]. intros k ->. by simpl in Ho.
  - apply spared_delete_rule; [|done]. intros k' ->. by simpl in Ho.
  - apply spared_camera; [|done]. intros i ->. by simpl in Ho.
  - apply spared_delete_camera; [..|done]; [intros j ->|intros j p ->]; by simpl in Ho.
  - by apply spared_created.
  - apply spared_drop_prompt; [|done]. intros i q ->. by simpl in Ho.
  - apply spared_attach; [|done]. intros i q ->. by simpl in Ho.
  - apply spared_detach; [|done]. intros i q ->. by simpl in Ho.
  - apply spared_sinks; [|done]. intros id ->. simpl in Ho. destruct o as [now c|id']; simpl; [unfold alert_sink_upsert; by rewrite lookup_insert_ne|by rewrite lookup_delete_ne].
Qed.

(** What the store holds beside is free. *)
Lemma spared_beside f f' : f_rules f' = f_rules f -> f_cameras f' = f_cameras f -> f_prompts f' = f_prompts f -> f_next_prompt f' = f_next_prompt f ->
  f_attached f' = f_attached f -> f_sinks f' = f_sinks f -> f_markers f' = f_markers f -> spared f -> spared f'.
Proof.
  intros E1 E2 E3 E4 E5 E6 E7 [[H1 H2 H3] H4 H5]. split; [split| |].
  - by rewrite E3, E4.
  - by rewrite E2.
  - intros c. unfold owned, fleet_marker_get. rewrite E7. apply H3.
  - unfold entry_local in *. by rewrite E3.
  - unfold same_entry in *. by rewrite E1, E2, E5, E6.
Qed.

Lemma spared_marker category m f : key_set (default [] (mk_managed_keys m)) ⊆ fleet category -> spared f -> spared (fleet_marker_upsert category m f).
Proof.
  intros Hm [[H1 H2 H3] H4 H5]. split; [split; [done|done|]|done|done]. intros c. unfold owned, fleet_marker_get. simpl.
  destruct (decide (c = category)) as [->|Hne]; [by rewrite lookup_insert_eq|]. rewrite lookup_insert_ne by done. apply H3.
Qed.

(** ** Category by category *)

Context (json_text : JsonValue -> string) (rules_of : JsonValue -> option (list RuleConfig)) (strings_of : JsonValue -> option (list string))
  (entries_of : JsonValue -> option (list FleetVisualPromptEntry)) (model_of : JsonValue -> option ModelConfig)
  (delivery_of : JsonValue -> option DeliveryPayload) (sinks_of : JsonValue -> option (list SinkConfig)) (compiles : RuleConfig -> bool)
  (knows_timezone : string -> bool) (file_sinks : list SinkConfig) (float_text : f64 -> string) (sha256_hex : string -> string)
  (http_get : string -> option (Z * option Z * option string)) (encoder_configured : bool) (decodes encodes : string -> bool).

Abbreviation safe := (keeps spared (fun o => ~ touches e o)).

Lemma foldl_keep {A B} (P : A -> Prop) (g : A -> B -> A) l a : (forall x a, x ∈ l -> P a -> P (g a x)) -> P a -> P (foldl g a l).
Proof.
  revert a. induction l as [|x l IH]; intros a H Ha; [done|]. simpl. apply IH; [|apply H; [by left|done]]. intros y b Hy. apply H. by right.
Qed.

Lemma deleted_is_owned prev keep cat k : key_set prev ⊆ fleet cat -> should_delete (retractable Merge prev keep) keep k = true -> k ∈ fleet cat.
Proof.
  intros Hp H%bool_decide_eq_true. apply elem_of_key_set in H. apply Hp, elem_of_key_set. apply list_elem_of_In, filter_In in H as [H _]. by apply list_elem_of_In.
Qed.

Lemma safe_signal t : safe (inside (publish t)) (fun _ => True).
Proof. apply keeps_inside; [|done]. intros f. by apply spared_beside. Qed.

Lemma safe_reload : safe (reload_rules_into_evaluator to_json compiles) (fun _ => True).
Proof.
  unfold reload_rules_into_evaluator. eapply keeps_bind; [apply keeps_caught, (keeps_read_strict _ _ _ spared_local _ (fun _ => True)); done|].
  intros rules _. eapply (keeps_bind _ _ _ _ (fun _ => True)); [|intros _ _; apply safe_signal].
  destruct rules as [rs|]; [|by apply keeps_ret]. destruct (forallb compiles rs); [|by apply keeps_ret].
  apply keeps_inside; [|done]. intros f. by apply spared_beside.
Qed.

Lemma safe_rules eff prev : key_set prev ⊆ fleet "rules" -> (forall rs, rules_of eff = Some rs -> key_set (Rules.id <$> rs) ⊆ fleet "rules") ->
  safe (apply_rules to_json rules_of compiles eff Merge prev) (fun a => key_set (managed_keys a) ⊆ fleet "rules").
Proof.
  intros Hp Hr. unfold apply_rules. eapply keeps_bind; [apply keeps_some; intros rs H; exact (Hr rs H)|]. intros rs Hrs.
  eapply (keeps_bind _ _ _ _ (fun _ => True)); [by apply keeps_guard|]. intros _ _. cbv zeta.
  eapply (keeps_bind _ _ _ _ (fun _ => True)); [by apply (keeps_read_strict _ _ _ spared_local)|]. intros existing _.
  eapply (keeps_bind _ _ _ _ (fun _ => True)).
  { apply (keeps_write _ _ _ spared_local); [|done]. intros _ f Hf.
    assert (forall k, e = ERule k -> k ∉ fleet "rules") as Hk by (intros k Ek; pose proof (sp_local _ Hf) as H; unfold entry_local in H; by rewrite Ek in H).
    apply foldl_keep; [|apply foldl_keep; [|done]].
    - intros r f' Hin. apply spared_upsert_rule. intros k Ek <-. apply (Hk _ Ek), Hrs, elem_of_key_set. by apply list_elem_of_fmap_2.
    - intros r f' Hin Hf'. destruct (should_delete _ _ _) eqn:Ed; [|done]. apply spared_delete_rule; [|done].
      intros k Ek <-. by apply (Hk _ Ek), (deleted_is_owned prev _ _ _ Hp Ed). }
  intros _ _. eapply (keeps_bind _ _ _ _ (fun _ => True)); [apply safe_reload|]. intros _ _. by apply keeps_ret.
Qed.

Lemma cameras_listed t cams c : ids_match t -> list_cameras t = Some cams -> c ∈ cams -> t !! cam_id c = Some (Some c).
Proof.
  intros Hm H Hc. unfold list_cameras in H. apply mapM_Some_1 in H. apply list_elem_of_lookup in Hc as (n & Hn).
  destruct (Forall2_lookup_r _ _ _ _ _ H Hn) as ([i r] & Hi & E). simpl in E. subst r.
  apply list_elem_of_lookup_2 in Hi. apply elem_of_sorted_entries in Hi. by rewrite (Hm _ _ Hi).
Qed.

(** A camera that was read, and what may be written back for it. *)
Definition read_camera (c : CameraConfig) : Prop := forall i, e = EPrompts i -> cam_id c = i ->
  local_row (fleet "text_prompts") (Some (Some c)) = local_row (fleet "text_prompts") (f_cameras f0 !! i).

Lemma safe_read_cameras : safe (read_strict to_json (fun f => list_cameras (f_cameras f))) (Forall read_camera).
Proof.
  apply (keeps_read_strict _ _ _ spared_local). intros f cams Hf Hl. apply Forall_forall. intros c Hc i Ei <-.
  pose proof (cameras_listed _ _ _ (ok_ids _ (sp_ok _ Hf)) Hl Hc) as Hrow. pose proof (sp_same _ Hf) as H. unfold same_entry in H. rewrite Ei in H. by rewrite <- H, Hrow.
Qed.

Lemma safe_write_cameras (g : CameraConfig -> CameraConfig) cams :
  (forall c, cam_id (g c) = cam_id c /\ own_prompts (fleet "text_prompts") (Cameras.prompts (g c)) = own_prompts (fleet "text_prompts") (Cameras.prompts c)) ->
  Forall read_camera cams -> safe (write to_json (fun _ => upsert_cameras (g <$> cams))) (fun _ => True).
Proof.
  intros Hg Hc. apply (keeps_write _ _ _ spared_local); [|done]. intros _ f Hf. unfold upsert_cameras.
  assert (spared (set_cameras (f_cameras f) f)) as Hf' by by apply (spared_beside f). revert Hf'. clear Hf. generalize (f_cameras f).
  induction Hc as [|c cams Hc _ IH]; intros t Ht; [done|]. simpl. apply IH.
  apply (spared_camera (g c) (set_cameras t f)); [|done]. intros i Ei. destruct (Hg c) as [-> Eg]. intros Ec. rewrite <- (Hc i Ei Ec). unfold local_row. simpl. by rewrite Eg.
Qed.

Lemma own_prompts_app s l1 l2 : own_prompts s (l1 ++ l2) = own_prompts s l1 ++ own_prompts s l2.
Proof. apply List.filter_app. Qed.

Lemma own_prompts_none s l : key_set l ⊆ s -> own_prompts s l = [].
Proof.
  intros H. unfold own_prompts. induction l as [|p l IH]; [done|]. simpl. rewrite bool_decide_true by (apply H, elem_of_key_set; by left). apply IH.
  intros q Hq. apply H, elem_of_key_set. right. by apply elem_of_key_set.
Qed.

Lemma filter_within {A} (f g : A -> bool) l : (forall x, f x = true -> g x = true) -> List.filter f (List.filter g l) = List.filter f l.
Proof.
  intros H. induction l as [|x l IH]; [done|]. simpl. destruct (g x) eqn:Eg; simpl; [by rewrite IH|]. destruct (f x) eqn:Ef; [|done]. by rewrite (H x Ef) in Eg.
Qed.

Lemma own_prompts_merged prev prompts own : key_set prev ⊆ fleet "text_prompts" -> key_set prompts ⊆ fleet "text_prompts" ->
  own_prompts (fleet "text_prompts") (merged_prompts Merge (key_set prompts) (retractable Merge prev (key_set prompts)) prompts own) =
  own_prompts (fleet "text_prompts") own.
Proof.
  intros Hp Hk. unfold merged_prompts. rewrite own_prompts_app, (own_prompts_none _ prompts), app_nil_r by done. apply filter_within. intros p Ep.
  apply negb_true_iff, bool_decide_eq_false in Ep. apply andb_true_iff. split.
  - apply negb_true_iff, bool_decide_eq_false. intros H. by apply Ep, Hk.
  - apply negb_true_iff. destruct (should_delete _ _ _) eqn:Ed; [|done]. exfalso. by apply Ep, (deleted_is_owned prev _ _ _ Hp Ed).
Qed.

Lemma safe_text_prompts eff prev : key_set prev ⊆ fleet "text_prompts" -> (forall l, strings_of eff = Some l -> key_set l ⊆ fleet "text_prompts") ->
  safe (apply_text_prompts to_json strings_of eff Merge prev) (fun a => key_set (managed_keys a) ⊆ fleet "text_prompts").
Proof.
  intros Hp Hr. unfold apply_text_prompts. eapply keeps_bind; [apply keeps_some; intros l H; exact (Hr l H)|]. intros prompts Hk. simpl in Hk. cbv zeta.
  eapply keeps_bind; [apply safe_read_cameras|]. intros cams Hc.
  eapply keeps_bind; [apply safe_write_cameras; [|exact Hc]; intros c; split; [done|]; by apply own_prompts_merged|]. intros _ _.
  eapply keeps_bind; [apply safe_signal|]. intros _ _. by apply keeps_ret.
Qed.

Lemma safe_detector_config eff : safe (apply_detector_config to_json model_of eff) (fun a => managed_keys a = []).
Proof.
  unfold apply_detector_config. apply (keeps_bind _ _ _ _ (fun _ => True)); [by apply keeps_some|]. intros model _.
  apply (keeps_bind _ _ _ _ (fun _ => True)); [by apply keeps_guard|]. intros _ _. eapply keeps_bind; [apply safe_read_cameras|]. intros cams Hc.
  eapply keeps_bind; [by apply safe_write_cameras; [|exact Hc]|]. intros _ _. eapply keeps_bind; [apply safe_signal|]. intros _ _. by apply keeps_ret.
Qed.

Lemma safe_delivery_settings eff : safe (apply_delivery_settings to_json delivery_of knows_timezone eff) (fun a => managed_keys a = []).
Proof.
  unfold apply_delivery_settings. apply (keeps_bind _ _ _ _ (fun _ => True)); [by apply keeps_some|]. intros payload _. cbv zeta.
  apply (keeps_bind _ _ _ _ (fun _ => True)); [by apply keeps_guard|]. intros _ _. apply (keeps_bind _ _ _ _ (fun _ => True)).
  { destruct (dp_attach_alert_clip payload); [by apply keeps_ret|]. eapply keeps_bind; [apply keeps_caught, (keeps_read _ _ _ spared_local _ (fun _ => True)); done|].
    intros d _. by apply keeps_ret. }
  intros attach _. apply (keeps_bind _ _ _ _ (fun _ => True)).
  { apply (keeps_stmt _ _ _ spared_local). intros now f Hf. destruct (_ ≫= _); [done|]. split; [|done]. by apply (spared_beside f). }
  intros _ _. eapply keeps_bind; [apply safe_signal|]. intros _ _. by apply keeps_ret.
Qed.

Lemma safe_live_view eff : safe (apply_live_view to_json eff) (fun a => managed_keys a = []).
Proof.
  unfold apply_live_view. apply (keeps_bind _ _ _ _ (fun _ => True)); [by apply keeps_some|]. intros text _.
  apply (keeps_bind _ _ _ _ (fun _ => True)); [by apply keeps_some|]. intros tr _. apply (keeps_bind _ _ _ _ (fun _ => True)); [|intros _ _; by apply keeps_ret].
  apply (keeps_write _ _ _ spared_local); [|done]. intros _ f. by apply spared_beside.
Qed.

Lemma safe_resolve_sinks sinks keep : key_set (sink_id_of <$> sinks) ⊆ fleet "alert_sinks" ->
  safe (resolve_sinks to_json from_json file_sinks sinks keep) (fun l => key_set l.*1 ⊆ fleet "alert_sinks").
Proof.
  revert keep. induction sinks as [|c sinks IH]; intros keep Hs; [apply keeps_ret; by intros k Hk%elem_of_key_set%not_elem_of_nil|]. simpl.
  assert (sink_id_of c ∈ fleet "alert_sinks" /\ key_set (sink_id_of <$> sinks) ⊆ fleet "alert_sinks") as [Hc Hs'].
  { split; [apply Hs, elem_of_key_set; by left|]. intros k Hk. apply Hs, elem_of_key_set. right. by apply elem_of_key_set. }
  apply (keeps_bind _ _ _ _ (fun _ => True)); [by apply keeps_guard|]. intros _ _.
  eapply keeps_bind; [by apply (keeps_read _ _ _ spared_local _ (fun _ => True))|]. intros row _.
  apply (keeps_bind _ _ _ _ (fun _ => True)); [by apply keeps_guard|]. intros _ _.
  apply (keeps_bind _ _ _ _ (fun _ => True)); [by apply keeps_guard|]. intros _ _.
  eapply keeps_bind; [by apply IH|]. intros rest Hrest. apply keeps_ret. intros k Hk%elem_of_key_set. simpl in Hk.
  apply elem_of_cons in Hk as [-> | Hk]; [done|]. by apply Hrest, elem_of_key_set.
Qed.

Lemma safe_alert_sinks eff prev : key_set prev ⊆ fleet "alert_sinks" -> (forall l, sinks_of eff = Some l -> key_set (sink_id_of <$> l) ⊆ fleet "alert_sinks") ->
  safe (apply_alert_sinks to_json from_json sinks_of file_sinks eff Merge prev) (fun a => key_set (managed_keys a) ⊆ fleet "alert_sinks").
Proof.
  intros Hp Hr. unfold apply_alert_sinks. eapply keeps_bind; [apply keeps_some; intros l H; exact (Hr l H)|]. intros sinks Hs. simpl in Hs.
  eapply keeps_bind; [by apply safe_resolve_sinks|]. intros resolved Hres. simpl in Hres. cbv zeta.
  eapply keeps_bind; [by apply (keeps_read _ _ _ spared_local _ (fun _ => True))|]. intros rows _.
  assert (forall f id, spared f -> e = ESink id -> id ∉ fleet "alert_sinks") as Hl.
  { intros f id Hf Ei. pose proof (sp_local _ Hf) as H. unfold entry_local in H. by rewrite Ei in H. }
  eapply (keeps_bind _ _ _ _ (fun _ => True)).
  { apply keeps_iter; [|done]. intros row _. destruct (should_delete _ _ _) eqn:Ed; [|by apply keeps_ret].
    apply (keeps_write _ _ _ spared_local); [|done]. intros _ f Hf. apply spared_sinks; [|done]. intros id Ei. simpl. apply lookup_delete_ne.
    intros <-. by apply (Hl f _ Hf Ei), (deleted_is_owned prev _ _ _ Hp Ed). }
  intros _ _. eapply (keeps_bind _ _ _ _ (fun _ => True)).
  { apply keeps_iter; [|done]. intros [k c] Hin. apply (keeps_write _ _ _ spared_local); [|done]. intros now f Hf. apply spared_sinks; [|done].
    intros id Ei. unfold alert_sink_upsert. apply lookup_insert_ne. intros ->. apply (Hl f _ Hf Ei), Hres, elem_of_key_set. by apply (list_elem_of_fmap_2 fst _ (id, c)). }
  intros _ _. eapply keeps_bind; [apply safe_signal|]. intros _ _. by apply keeps_ret.
Qed.

(** A prompt the fleet may attach or detach: not that of the entry. *)
Definition other_prompt (p : Z) : Prop := forall i q, e = EAttached i q -> p <> q.

Lemma found_prompt f n p : spared f -> n ∈ fleet "visual_prompts" -> get_visual_prompt_by_name n f = Some p -> other_prompt p.
Proof.
  intros Hf Hn H i q Ei ->. pose proof (sp_local _ Hf) as Hl. unfold entry_local in Hl. rewrite Ei in Hl. destruct Hl as (m & Hm & Hnot).
  unfold get_visual_prompt_by_name in H. destruct (List.find _ _) as [[p' m']|] eqn:E; [|done]. injection H as ->.
  apply find_some in E as [E1%list_elem_of_In%elem_of_sorted_entries E2%bool_decide_eq_true]. congruence.
Qed.

Lemma safe_find n : n ∈ fleet "visual_prompts" -> safe (read to_json (get_visual_prompt_by_name n)) (fun o => forall p, o = Some p -> other_prompt p).
Proof. intros Hn. apply (keeps_read _ _ _ spared_local). intros f Hf p. by apply found_prompt. Qed.

Lemma safe_create n bytes : safe (create_visual_prompt_from_image to_json sha256_hex encoder_configured decodes encodes n bytes) other_prompt.
Proof.
  unfold create_visual_prompt_from_image. apply (keeps_bind _ _ _ _ (fun _ => True)); [by apply keeps_guard|]. intros _ _.
  apply (keeps_bind _ _ _ _ (fun _ => True)); [by apply keeps_guard|]. intros _ _. apply (keeps_bind _ _ _ _ (fun _ => True)).
  { apply (keeps_write _ _ _ spared_local); [|done]. intros _ f. by apply spared_beside. }
  intros _ _. apply (keeps_bind _ _ _ _ (fun _ => True)); [by apply keeps_guard|]. intros _ _.
  apply (keeps_stmt _ _ _ spared_local). intros _ f Hf. pose proof (spared_created n f Hf) as Hf'. destruct (create_visual_prompt n f) as [o f'] eqn:Ec.
  split; [done|]. intros p Ho i q Ei. unfold create_visual_prompt in Ec. destruct (get_visual_prompt_by_name n f); injection Ec as <- <-; simpl in Ho; [done|]. injection Ho as <-.
  pose proof (sp_local _ Hf) as Hl. unfold entry_local in Hl. rewrite Ei in Hl. destruct Hl as (m & Hm & _). apply (ok_next _ (sp_ok _ Hf)) in Hm. lia.
Qed.

Lemma safe_fetch en : safe (fetch_and_create_visual_prompt to_json sha256_hex http_get encoder_configured decodes encodes en) other_prompt.
Proof.
  unfold fetch_and_create_visual_prompt. apply (keeps_bind _ _ _ _ (fun _ => True)); [by apply keeps_some|]. intros url _.
  apply (keeps_bind _ _ _ _ (fun _ => True)); [by apply keeps_some|]. intros sha _.
  apply (keeps_bind _ _ _ _ (fun _ => True)); [by apply keeps_some|]. intros [[status len] body] _.
  apply (keeps_bind _ _ _ _ (fun _ => True)); [by apply keeps_guard|]. intros _ _.
  apply (keeps_bind _ _ _ _ (fun _ => True)); [by apply keeps_guard|]. intros _ _.
  apply (keeps_bind _ _ _ _ (fun _ => True)); [by apply keeps_some|]. intros bytes _.
  apply (keeps_bind _ _ _ _ (fun _ => True)); [by apply keeps_guard|]. intros _ _.
  apply (keeps_bind _ _ _ _ (fun _ => True)); [by apply keeps_guard|]. intros _ _. apply safe_create.
Qed.

Lemma safe_resolve_prompts entries : key_set (pe_name <$> entries) ⊆ fleet "visual_prompts" ->
  safe (resolve_prompts to_json sha256_hex http_get encoder_configured decodes encodes entries) (fun r => Forall other_prompt r.1).
Proof.
  induction entries as [|en entries IH]; intros Hs; [by apply keeps_ret|]. simpl.
  assert (pe_name en ∈ fleet "visual_prompts" /\ key_set (pe_name <$> entries) ⊆ fleet "visual_prompts") as [Hn Hs'].
  { split; [apply Hs, elem_of_key_set; by left|]. intros k Hk. apply Hs, elem_of_key_set. right. by apply elem_of_key_set. }
  eapply keeps_bind; [by apply safe_find|]. intros found Hfound. apply (keeps_bind _ _ _ _ (fun r => Forall other_prompt r.1)).
  { destruct found as [p|]; [apply keeps_ret; constructor; [by apply Hfound|done]|]. destruct (is_some _); [|by apply keeps_ret].
    eapply keeps_bind; [apply safe_fetch|]. intros p Hp. apply keeps_ret. by constructor. }
  intros [mine missing] Hm. eapply keeps_bind; [by apply IH|]. intros [ids unknown] Hi. apply keeps_ret. simpl in *. by apply Forall_app.
Qed.

Lemma safe_retract_prompts keep prev : key_set prev ⊆ fleet "visual_prompts" -> safe (retract_prompts to_json keep prev) (fun s => set_Forall other_prompt s).
Proof.
  induction prev as [|n prev IH]; intros Hs; [by apply keeps_ret|]. simpl.
  eapply keeps_bind; [apply keeps_caught, safe_find; apply Hs, elem_of_key_set; by left|]. intros found Hfound.
  eapply keeps_bind; [apply IH; intros k Hk; apply Hs, elem_of_key_set; right; by apply elem_of_key_set|]. intros s Hset. apply keeps_ret.
  destruct found as [[p|]|]; try done. destruct (bool_decide _); [done|]. apply set_Forall_union; [|done]. apply set_Forall_singleton. by apply (Hfound (Some p)).
Qed.

Lemma safe_reconcile s keep ids cam : set_Forall other_prompt s -> Forall other_prompt ids -> safe (reconcile_prompts to_json (Some s) keep ids cam) (fun _ => True).
Proof.
  intros Hset Hids. unfold reconcile_prompts. eapply keeps_bind; [by apply (keeps_read _ _ _ spared_local _ (fun _ => True))|]. intros current _.
  apply (keeps_bind _ _ _ _ (Forall (fun _ => True))).
  { apply keeps_map. intros p _. destruct (bool_decide (p ∈ s)) eqn:Ep; [|by apply keeps_ret]. apply bool_decide_eq_true in Ep.
    apply (keeps_stmt _ _ _ spared_local). intros _ f Hf. pose proof (spared_detach (cam_id cam) p f) as H.
    destruct (detach_camera_visual_prompt _ _ _) as [b f']. split; [|done]. apply H; [|done]. intros i q Ei [= _ E]. by apply (Hset _ Ep i q Ei). }
  intros detached _. apply (keeps_bind _ _ _ _ (Forall (fun _ => True))).
  { apply keeps_map. intros p Hp. destruct (negb _); [|by apply keeps_ret]. rewrite Forall_forall in Hids.
    apply (keeps_stmt _ _ _ spared_local). intros _ f Hf. pose proof (spared_attach (cam_id cam) p f) as H.
    destruct (attach_camera_visual_prompt _ _ _) as [b f']. split; [|done]. apply H; [|done]. intros i q Ei [= _ E]. by apply (Hids _ Hp i q Ei). }
  intros attached _. by apply keeps_ret.
Qed.

Lemma safe_visual_prompts eff prev : key_set prev ⊆ fleet "visual_prompts" -> (forall l, entries_of eff = Some l -> key_set (pe_name <$> l) ⊆ fleet "visual_prompts") ->
  safe (apply_visual_prompts to_json entries_of sha256_hex http_get encoder_configured decodes encodes eff Merge prev) (fun a => key_set (managed_keys a) ⊆ fleet "visual_prompts").
Proof.
  intros Hp Hr. unfold apply_visual_prompts. eapply keeps_bind; [apply keeps_some; intros l H; exact (Hr l H)|]. intros entries Hs. simpl in Hs.
  eapply keeps_bind; [by apply safe_resolve_prompts|]. intros [ids unknown] Hids. simpl in Hids. apply (keeps_bind _ _ _ _ (fun _ => True)); [by apply keeps_guard|]. intros _ _.
  apply (keeps_bind _ _ _ _ (fun r => exists s, r = Some s /\ set_Forall other_prompt s)).
  { eapply keeps_bind; [by apply safe_retract_prompts|]. intros s Hset. apply keeps_ret. by exists s. }
  intros retract (s & -> & Hset). eapply keeps_bind; [apply safe_read_cameras|]. intros cams _.
  apply (keeps_bind _ _ _ _ (Forall (fun _ => True))); [apply keeps_map; intros cam _; by apply safe_reconcile|]. intros changed _.
  apply (keeps_bind _ _ _ _ (fun _ => True)); [destruct (existsb _ _); [apply safe_signal|by apply keeps_ret]|]. intros _ _. by apply keeps_ret.
Qed.

(** The keys a payload lists. *)
Definition pushed (category : string) (eff : JsonValue) : list string :=
  if str_eqb category "rules" then map Rules.id (default [] (rules_of eff))
  else if str_eqb category "text_prompts" then default [] (strings_of eff)
  else if str_eqb category "visual_prompts" then map pe_name (default [] (entries_of eff))
  else if str_eqb category "alert_sinks" then map sink_id_of (default [] (sinks_of eff))
  else [].

Abbreviation the_category := (apply_category to_json from_json rules_of strings_of entries_of model_of delivery_of sinks_of compiles knows_timezone
  file_sinks sha256_hex http_get encoder_configured decodes encodes).
Abbreviation the_handler := (post_admin_fleet_apply to_json from_json json_text rules_of strings_of entries_of model_of delivery_of sinks_of compiles knows_timezone
  file_sinks float_text sha256_hex http_get encoder_configured decodes encodes).

Lemma safe_category category eff prev : key_set prev ⊆ fleet category -> key_set (pushed category eff) ⊆ fleet category ->
  safe (the_category category eff Merge prev) (fun a => key_set (managed_keys a) ⊆ fleet category).
Proof.
  intros Hp Hs. unfold apply_category, str_eqb.
  assert (forall (m : FM (Json := Json) AppliedCategory), safe m (fun a => managed_keys a = []) -> safe m (fun a => key_set (managed_keys a) ⊆ fleet category)) as Hnil.
  { intros m Hm. eapply keeps_weaken; [exact Hm|]. intros a ->. set_solver. }
  case_bool_decide as E1; [subst; apply safe_rules; [done|]; intros l El; change (key_set (map Rules.id (default [] (rules_of eff))) ⊆ fleet "rules") in Hs; by rewrite El in Hs|].
  case_bool_decide as E2; [subst; apply safe_text_prompts; [done|]; intros l El; change (key_set (default [] (strings_of eff)) ⊆ fleet "text_prompts") in Hs; by rewrite El in Hs|].
  case_bool_decide as E3; [subst; apply safe_visual_prompts; [done|]; intros l El; change (key_set (map pe_name (default [] (entries_of eff))) ⊆ fleet "visual_prompts") in Hs; by rewrite El in Hs|].
  case_bool_decide as E4; [apply Hnil, safe_detector_config|].
  case_bool_decide as E5; [apply Hnil, safe_delivery_settings|].
  case_bool_decide as E6; [subst; apply safe_alert_sinks; [done|]; intros l El; change (key_set (map sink_id_of (default [] (sinks_of eff))) ⊆ fleet "alert_sinks") in Hs; by rewrite El in Hs|].
  case_bool_decide as E7; [apply Hnil, safe_live_view|apply keeps_throw].
Qed.

Lemma safe_handler category actor client req : mode req = Merge -> key_set (pushed category (effective req)) ⊆ fleet category ->
  safe (the_handler category actor client req) (fun _ => True).
Proof.
  intros Hm Hs. unfold post_admin_fleet_apply. rewrite Hm.
  eapply keeps_bind; [apply keeps_caught, (keeps_read _ _ _ spared_local _ (fun l => key_set l ⊆ fleet category)); intros f Hf; apply (ok_owned _ (sp_ok _ Hf))|].
  intros prev Hp. cbv zeta. eapply keeps_bind.
  { apply keeps_caught, (safe_category category (effective req)); [|done]. destruct prev as [l|]; [by apply Hp|set_solver]. }
  intros result Hres. eapply (keeps_bind _ _ _ _ (fun _ => True)).
  { eapply keeps_weaken; [apply keeps_caught, (keeps_write _ _ _ spared_local _ (fun _ => True)); [intros now f; by apply spared_beside|done]|done]. }
  intros _ _. destruct result as [a|x]; [|apply keeps_throw]. eapply (keeps_bind _ _ _ _ (fun _ => True)); [|intros _ _; by apply keeps_ret].
  eapply keeps_weaken; [apply keeps_caught, (keeps_write _ _ _ spared_local _ (fun _ => True)); [|done]|done]. intros now f. apply spared_marker. by apply Hres.
Qed.

(** What a run may contain: merges of keys of the fleet, and writes that do not concern the entry. *)
Definition fits (o : FleetOp) : Prop :=
  match o with
  | Apply turns category _ _ req => mode req = Merge /\ key_set (pushed category (effective req)) ⊆ fleet category /\ good_turns (fun o => ~ touches e o) turns
  | Local o => ~ touches e o
  end.

Lemma spared_step o f : fits o -> spared f -> spared (fleet_step to_json from_json json_text rules_of strings_of entries_of model_of delivery_of sinks_of compiles knows_timezone
  file_sinks float_text sha256_hex http_get encoder_configured decodes encodes o f).1.
Proof.
  intros Ho Hf. destruct o as [turns category actor client req|o]; simpl in *; [|by apply spared_local].
  destruct Ho as (Hm & Hs & Ht). destruct (safe_handler category actor client req Hm Hs (mkWorld f turns) Hf Ht) as (H & _).
  by destruct (the_handler _ _ _ _ _) as [r w].
Qed.

(** C39. A merge never destroys what is local. Take the keys that are the fleet's in each category: those
    the markers name at the start and those any payload of the run lists. Whatever merges are
    applied, whatever of them fails where, and whatever else is written before, between and
    during them, a rule or a sink under another key stays as it is, so does the attachment of a
    visual prompt of another name, and of the prompts of a camera the ones that are not the
    fleet's stay, in their order, as long as no other request writes that very entry. *)
Theorem merge_spares_local_entries ops : fleet_ok f0 -> entry_local f0 -> Forall fits ops ->
  same_entry (mrun (H := fleet_machine to_json from_json json_text rules_of strings_of entries_of model_of delivery_of sinks_of compiles knows_timezone
    file_sinks float_text sha256_hex http_get encoder_configured decodes encodes) ops f0).1.
Proof.
  intros Hok Hl Hops. apply sp_same. apply (mrun_invariant fits spared); [|done|].
  - intros o f. apply spared_step.
  - split; [done|done|]. unfold same_entry. by destruct e.
Qed.
End spare.

(** ** Examples *)

Definition demo_strings (v : JsonValue) : option (list string) :=
  match v with JArray items => mapM (fun x => match x with JString s => Some s | _ => None end) items | _ => None end.

Definition demo_camera (i : Z) (p : list string) : CameraConfig :=
  mkCamera i "door" (mkIngest (mkUrl "rtsp" "rtsp://door") None true 15 None) p None
    (mkBehavior false None None None None None None None None None None None None None None None None).

Definition demo_fleet (rows : list CameraConfig) : Fleet SinkConfig :=
  mkFleet ∅ (list_to_map ((fun c => (cam_id c, Some c)) <$> rows)) ∅ 1 ∅ ∅ (mkSettings true None "UTC" true 0) ∅ None ∅ [] [] [].

Definition demo_apply (turns : list Turn) (m : FleetApplyMode) (prompts : list string) : FleetOp :=
  Apply turns "text_prompts" None (mkClient "10.0.0.1" None) (mkReq (JArray (JString <$> prompts)) None m).

Definition demo_steps (ops : list FleetOp) (f : Fleet SinkConfig) : Fleet SinkConfig :=
  (mrun (H := fleet_machine id Some (fun _ => EmptyString) (fun _ => None) demo_strings (fun _ => None) (fun _ => None) (fun _ => None) (fun _ => None)
    (fun _ => true) (fun _ => true) [] (fun _ => EmptyString) id (fun _ => None) false (fun _ => false) (fun _ => false)) ops f).1.

Definition prompts_of (f : Fleet SinkConfig) : list (Z * list string) :=
  omap (fun '(i, o) => (fun c => (i, Cameras.prompts c)) <$> o) (sorted_entries (f_cameras f)).

Example a_merge_keeps_and_retracts :
  prompts_of (demo_steps [demo_apply [] Merge ["person"; "car"]%string; demo_apply [] Merge ["car"; "bus"]%string] (demo_fleet [demo_camera 1 ["my-dog"%string]])) =
  [(1, ["my-dog"; "car"; "bus"]%string)].
Proof. vm_compute. reflexivity. Qed.

(** A prompt the operator had before the fleet listed it becomes the fleet's, and goes with it. *)
Example an_adopted_prompt_is_deleted :
  prompts_of (demo_steps [demo_apply [] Merge ["person"%string]; demo_apply [] Merge []] (demo_fleet [demo_camera 1 ["person"; "my-dog"]%string])) =
  [(1, ["my-dog"%string])].
Proof. vm_compute. reflexivity. Qed.

(** When the marker cannot be read, the apply deletes nothing, and its own marker forgets what the fleet
    had pushed before: it is not retracted any more. *)
Example an_unread_marker_is_forgotten :
  prompts_of (demo_steps [demo_apply [] Merge ["person"%string]; demo_apply [mkTurn 0 [] false] Merge ["car"%string]; demo_apply [] Merge ["car"%string]]
    (demo_fleet [demo_camera 1 []])) = [(1, ["person"; "car"]%string)].
Proof. vm_compute. reflexivity. Qed.

(** The cameras are read, and written back whole: what another request does to a camera in between is
    undone, be it an edit or the removal of the camera. *)
Example a_removed_camera_comes_back :
  prompts_of (demo_steps [demo_apply [mkTurn 0 [] true; mkTurn 0 [] true; mkTurn 0 [LDropCamera 1; LCamera (demo_camera 2 ["late"%string])] true] Merge ["car"%string]]
    (demo_fleet [demo_camera 1 []; demo_camera 2 []])) = [(1, ["car"%string]); (2, ["car"%string])].
Proof. vm_compute. reflexivity. Qed.

Lemma merge_spares_local_entries_witness :
  local_row {["person"%string]} (f_cameras (demo_steps [demo_apply [] Merge ["person"%string]] (demo_fleet [demo_camera 1 ["my-dog"%string]])) !! 1) = Some (Some ["my-dog"%string]).
Proof.
  assert (local_row {["person"%string]} (f_cameras (demo_fleet [demo_camera 1 ["my-dog"%string]]) !! 1) = Some (Some ["my-dog"%string])) as E by (by vm_compute).
  rewrite <- E. apply (merge_spares_local_entries id Some (fun c => if str_eqb c "text_prompts" then {["person"%string]} else ∅) (EPrompts 1)
    (demo_fleet [demo_camera 1 ["my-dog"%string]])).
  - split.
    + intros p n. simpl. by rewrite lookup_empty.
    + intros i c. simpl. rewrite lookup_insert_Some, lookup_empty. by intros [[<- [= <-]]|[_ ?]].
    + intros c. unfold owned, fleet_marker_get. simpl. rewrite lookup_empty. set_solver.
  - done.
  - constructor; [|done]. split; [done|]. split; [|by constructor]. change (key_set ["person"%string] ⊆ {["person"%string]}). set_solver.
Defined.
