(* ===== verification/FleetHash.v ===== *)
(** Digests of the fleet's settings ([nexus-engine/src/fleet_hash.rs]): one hash per category, compared with
    the cloud's own hash of what it pushed. serde's forms of a rule, a model and a schedule, and the
    SHA-256, are parameters. *)
From S2P Require Import Prelude Text Float Order Types Alert AuditLog Cameras RequireRole AdminAudit SinkConfigs CanonicalJson Fleet.
From S2P Require Rules.

Record CategoryHashes := mkHashes {
  ch_rules : option string;
  ch_text_prompts : option string;
  ch_visual_prompts : option string;
  ch_detector_config : option string;
  ch_delivery_settings : option string;
}.

(** [MergeManaged::keys]: the fleet's keys of a category that was last merged. [up]: the markers can be
    read. *)
Definition merge_managed {Json} (up : bool) (category : string) (f : Fleet Json) : option (list string) :=
  if up then
    match fleet_marker_get category f with
    | Some m => if bool_decide (mk_mode m = Some "merge"%string) then mk_managed_keys m else None
    | None => None
    end
  else None.

Definition by_rule_id (a b : RuleConfig) : comparison := String.compare (Rules.id a) (Rules.id b).

(** [BTreeSet<String>] *)
Definition in_order (s : gset string) : list string := sort_by String.compare (elements s).

Section hashes.
Context {Json : Type}.
Variable rule_json : RuleConfig -> JsonValue.
(** Through the text, which keeps the shortest digits of the threshold. *)
Variable model_json : ModelConfig -> option JsonValue.
Variable schedule_json : DeliverySchedule -> JsonValue.
Variable float_text : f64 -> string.
Variable sha256_hex : string -> string.

Abbreviation hash := (sha256_canonical float_text sha256_hex).

(** The outer [None]: the rules cannot be read. *)
Definition hash_rules (managed : option (list string)) (f : Fleet Json) : option (option string) :=
  rules ← list_rules f;
  let rules := match managed with Some keys => List.filter (fun r => bool_decide (Rules.id r ∈ key_set keys)) rules | None => rules end in
  match rules with
  | [] => Some None
  | _ => Some (Some (hash (JArray (map rule_json (sort_by by_rule_id rules)))))
  end.

Definition hash_text_prompts (managed : option (list string)) (cameras : list CameraConfig) : option string :=
  first ← head cameras;
  shared ←
    match managed with
    | None => if forallb (fun c => bool_decide (Cameras.prompts c = Cameras.prompts first)) cameras then Some (Cameras.prompts first) else None
    | Some keys => Some (List.filter (fun p => forallb (fun c => bool_decide (p ∈ Cameras.prompts c)) cameras) keys)
    end;
  match shared with [] => None | _ => Some (hash (JArray (map JString shared))) end.

(** [shared]: what the cameras before agree on. *)
Fixpoint shared_model (shared : option string) (cameras : list CameraConfig) : option (option string) :=
  match cameras with
  | [] => Some shared
  | cam :: cameras' =>
      match model_override cam ≫= model_json with
      | None => None
      | Some v =>
          let canon := canonical_json float_text v in
          match shared with
          | None => shared_model (Some canon) cameras'
          | Some prev => if str_eqb prev canon then shared_model shared cameras' else None
          end
      end
  end.

Definition hash_detector_config (cameras : list CameraConfig) : option string :=
  match cameras with
  | [] => None
  | _ => match shared_model None cameras with Some (Some canon) => Some (sha256_hex canon) | _ => None end
  end.

Definition attached_names (managed : option (list string)) (f : Fleet Json) (cam : CameraConfig) : gset string :=
  key_set (List.filter (fun n => match managed with None => true | Some keys => bool_decide (n ∈ key_set keys) end)
    (omap (fun p => f_prompts f !! p) (list_camera_visual_prompt_ids (cam_id cam) f))).

Definition hash_visual_prompts (managed : option (list string)) (f : Fleet Json) (cameras : list CameraConfig) : option string :=
  match attached_names managed f <$> cameras with
  | [] => None
  | shared :: others =>
      if forallb (fun s => bool_decide (s = shared)) others then
        match in_order shared with [] => None | names => Some (hash (JArray (map JString names))) end
      else None
  end.

Definition hash_delivery_settings (d : DeliverySettings) : string :=
  hash (JObject [("enabled"%string, JBool (Types.enabled d));
                 ("schedule"%string, match schedule d with Some s => schedule_json s | None => JNull end);
                 ("timezone"%string, JString (timezone d))]).

(** [None]: a read failed. *)
Definition compute (markers_up : bool) (f : Fleet Json) : option CategoryHashes :=
  rules ← hash_rules (merge_managed markers_up "rules" f) f;
  cameras ← list_cameras (f_cameras f);
  Some (mkHashes rules (hash_text_prompts (merge_managed markers_up "text_prompts" f) cameras)
    (hash_visual_prompts (merge_managed markers_up "visual_prompts" f) f cameras) (hash_detector_config cameras)
    (Some (hash_delivery_settings (f_delivery f)))).
End hashes.

(** ** What the store lists *)

Section lists.
Context {Json : Type}.
Implicit Types f : Fleet Json.

(** Rows of rules carry their ids. *)
Definition rules_match f : Prop := forall k r, f_rules f !! k = Some (Some r) -> Rules.id r = k.

Lemma list_rules_spec f rs : rules_match f -> list_rules f = Some rs ->
  NoDup rs /\ (forall k o, f_rules f !! k = Some o -> exists r, o = Some r) /\ (forall r, r ∈ rs <-> f_rules f !! Rules.id r = Some (Some r)).
Proof.
  intros Hm H. unfold list_rules in H. pose proof (mapM_Some_1 _ _ _ H) as H2. clear H.
  set (l := sort_by by_id (map_to_list (f_rules f))) in *.
  assert (forall k o, (k, o) ∈ l <-> f_rules f !! k = Some o) as Hl.
  { intros k o. unfold l. rewrite sort_by_permutation. by rewrite elem_of_map_to_list. }
  assert (NoDup l.*1) as Hn by (unfold l; rewrite sort_by_permutation; apply NoDup_fst_map_to_list).
  assert (l = (fun r => (Rules.id r, Some r)) <$> rs) as El.
  { assert (forall k o, (k, o) ∈ l -> forall r, o = Some r -> Rules.id r = k) as Hid by (intros k o Hin r ->; by apply Hm, Hl).
    clear Hl Hn. induction H2 as [|[k o] r l' rs' E _ IH]; [done|]. simpl in E. subst o. simpl. rewrite (Hid k (Some r) ltac:(by left) r eq_refl).
    f_equal. apply IH. intros k' o' Hin. apply Hid. by right. }
  split; [|split].
  - rewrite El, <- list_fmap_compose in Hn. by apply NoDup_fmap_1 in Hn.
  - intros k o Ho. apply Hl in Ho. rewrite El in Ho. apply list_elem_of_fmap in Ho as (r & [= _ ->] & _). by exists r.
  - intros r. rewrite <- Hl, El, list_elem_of_fmap. split; [by exists r|]. by intros (r' & [= _ ->] & Hr).
Qed.

Lemma list_rules_total f : (forall k o, f_rules f !! k = Some o -> exists r, o = Some r) -> exists rs, list_rules f = Some rs.
Proof.
  intros H. unfold list_rules. apply mapM_is_Some_2. apply Forall_forall. intros [k o] Hin. rewrite sort_by_permutation in Hin.
  apply elem_of_map_to_list in Hin. destruct (H _ _ Hin) as [r ->]. by exists r.
Qed.

Lemma list_cameras_spec t cams : ids_match t -> list_cameras t = Some cams ->
  (forall i o, t !! i = Some o -> exists c, o = Some c) /\ (forall c, c ∈ cams <-> t !! cam_id c = Some (Some c)).
Proof.
  intros Hm H. unfold list_cameras in H. pose proof (mapM_Some_1 _ _ _ H) as H2. clear H. split.
  - intros i o Ho. apply elem_of_sorted_entries in Ho. apply list_elem_of_lookup in Ho as (n & Hn).
    destruct (Forall2_lookup_l _ _ _ _ _ H2 Hn) as (c & _ & E). simpl in E. subst. by exists c.
  - intros c. rewrite <- elem_of_sorted_entries. split.
    + intros Hc. apply list_elem_of_lookup in Hc as (n & Hn). destruct (Forall2_lookup_r _ _ _ _ _ H2 Hn) as ([i o] & Hi & E). simpl in E. subst o.
      apply list_elem_of_lookup_2 in Hi. by rewrite (Hm i c) by by apply elem_of_sorted_entries.
    + intros Hc. apply list_elem_of_lookup in Hc as (n & Hn). destruct (Forall2_lookup_l _ _ _ _ _ H2 Hn) as (c' & Hc' & E). simpl in E.
      injection E as <-. by apply list_elem_of_lookup_2 in Hc'.
Qed.

Lemma list_cameras_total t : (forall i o, t !! i = Some o -> exists c, o = Some c) -> exists cams, list_cameras t = Some cams.
Proof.
  intros H. unfold list_cameras. apply mapM_is_Some_2. apply Forall_forall. intros [k o] Hin. apply elem_of_sorted_entries in Hin.
  destruct (H _ _ Hin) as [r ->]. by exists r.
Qed.

(** Writing every camera back changes each of them. *)
Lemma upsert_all (g : CameraConfig -> CameraConfig) cams f i : (forall c, cam_id (g c) = cam_id c) -> ids_match (f_cameras f) -> list_cameras (f_cameras f) = Some cams ->
  f_cameras (upsert_cameras (g <$> cams) f) !! i = option_map (option_map g) (f_cameras f !! i).
Proof.
  intros Hg Hm Hl. destruct (list_cameras_spec _ _ Hm Hl) as [Hsome Hin]. unfold upsert_cameras. simpl.
  assert (forall l t, (forall c, c ∈ l -> f_cameras f !! cam_id c = Some (Some c)) ->
    foldl (fun t c => upsert_camera_tx c t) t (g <$> l) !! i =
    if bool_decide (i ∈ cam_id <$> l) then option_map (option_map g) (f_cameras f !! i) else t !! i) as H.
  { induction l as [|c l IH]; intros t Hl'; simpl; [done|]. rewrite IH by (intros c' Hc'; apply Hl'; by right). unfold upsert_camera_tx. rewrite Hg.
    repeat case_bool_decide; try done.
    - set_solver.
    - assert (i = cam_id c) as -> by set_solver. rewrite lookup_insert_eq. by rewrite (Hl' c) by by left.
    - rewrite lookup_insert_ne; [done|]. set_solver. }
  rewrite H by (intros c; apply Hin). case_bool_decide as E; [done|]. destruct (f_cameras f !! i) as [o|] eqn:Eo; [|done]. exfalso. apply E.
  destruct (Hsome _ _ Eo) as [c ->]. apply list_elem_of_fmap. exists c. rewrite Hin. by rewrite (Hm _ _ Eo).
Qed.

Lemma upsert_all_ids (g : CameraConfig -> CameraConfig) cams t : ids_match t -> ids_match (foldl (fun t c => upsert_camera_tx c t) t (g <$> cams)).
Proof. revert t. induction cams as [|c cams IH]; intros t H; simpl; [done|]. by apply IH, upsert_ids. Qed.

(** The cameras listed after are the cameras listed before, changed. *)
Lemma cameras_after (g : CameraConfig -> CameraConfig) cams cams' f : (forall c, cam_id (g c) = cam_id c) -> ids_match (f_cameras f) ->
  list_cameras (f_cameras f) = Some cams -> list_cameras (f_cameras (upsert_cameras (g <$> cams) f)) = Some cams' ->
  cams' ⊆ g <$> cams /\ (cams' = [] -> cams = []).
Proof.
  intros Hg Hm Hl Hl'. assert (ids_match (f_cameras (upsert_cameras (g <$> cams) f))) as Hm' by by apply upsert_all_ids.
  destruct (list_cameras_spec _ _ Hm Hl) as [Hs Hin]. destruct (list_cameras_spec _ _ Hm' Hl') as [_ Hin']. split.
  - intros c Hc%Hin'. rewrite (upsert_all g cams f _ Hg Hm Hl) in Hc. destruct (f_cameras f !! cam_id c) as [o|] eqn:Eo; [|done].
    destruct (Hs _ _ Eo) as [c0 ->]. injection Hc as <-. apply list_elem_of_fmap_2. apply Hin. by rewrite (Hm _ _ Eo).
  - intros ->. destruct cams as [|c cams]; [done|]. exfalso. apply (not_elem_of_nil (g c)). apply Hin'.
    rewrite (upsert_all g (c :: cams) f _ Hg Hm Hl), Hg. by rewrite (proj1 (Hin c)) by by left.
Qed.
End lists.

(** ** An apply that meets no one and no failure *)

Section quiet.
Context {Json : Type}.
Variable to_json : SinkConfig -> Json.
Variable from_json : Json -> option SinkConfig.
Variable json_text : JsonValue -> string.
Variable rules_of : JsonValue -> option (list RuleConfig).
Variable strings_of : JsonValue -> option (list string).
Variable entries_of : JsonValue -> option (list FleetVisualPromptEntry).
Variable model_of : JsonValue -> option ModelConfig.
Variable delivery_of : JsonValue -> option DeliveryPayload.
Variable sinks_of : JsonValue -> option (list SinkConfig).
Variable compiles : RuleConfig -> bool.
Variable knows_timezone : string -> bool.
Variable file_sinks : list SinkConfig.
Variable float_text : f64 -> string.
Variable sha256_hex : string -> string.
Variable http_get : string -> option (Z * option Z * option string).
Variable encoder_configured : bool.
Variable decodes : string -> bool.
Variable encodes : string -> bool.
Variable rule_json : RuleConfig -> JsonValue.
Variable model_json : ModelConfig -> option JsonValue.
Variable schedule_json : DeliverySchedule -> JsonValue.
Implicit Types f : Fleet Json.

Abbreviation hash := (sha256_canonical float_text sha256_hex).
Abbreviation handler := (post_admin_fleet_apply to_json from_json json_text rules_of strings_of entries_of model_of delivery_of sinks_of compiles knows_timezone
  file_sinks float_text sha256_hex http_get encoder_configured decodes encodes).
Abbreviation category := (apply_category to_json from_json rules_of strings_of entries_of model_of delivery_of sinks_of compiles knows_timezone
  file_sinks sha256_hex http_get encoder_configured decodes encodes).

(** The fields an apply's last statements leave alone. *)
Definition alike f f' : Prop := f_rules f' = f_rules f /\ f_cameras f' = f_cameras f.

Lemma quiet_handler cat actor client req f n w : (handler cat actor client req (mkWorld f [])) = (Ok n, w) -> w_turns (category cat (effective req) (mode req) (owned cat f) (mkWorld f [])).2 = [] ->
  exists a f1, category cat (effective req) (mode req) (owned cat f) (mkWorld f []) = (Ok a, mkWorld f1 []) /\
    alike f1 (w_fleet w) /\ fleet_marker_get cat (w_fleet w) = Some (applied_marker float_text sha256_hex req (managed_keys a) 0).
Proof.
  intros H Hw. unfold post_admin_fleet_apply in H. unfold mbind, se_bind, caught, read at 1, stmt at 1 in H. cbn -[apply_category] in H.
  destruct (category cat (effective req) (mode req) (owned cat f) (mkWorld f [])) as [[a|e] [f1 ts]] eqn:E; simpl in Hw; subst ts; simpl in H; [|done].
  injection H as <- <-. exists a, f1. split; [done|]. split; [done|]. apply lookup_insert_eq.
Qed.

Lemma quiet_reload f : exists f', reload_rules_into_evaluator to_json compiles (mkWorld f []) = (Ok tt, mkWorld f' []) /\ alike f f'.
Proof.
  unfold reload_rules_into_evaluator, mbind, se_bind, caught, read_strict, stmt. simpl.
  destruct (list_rules f) as [rs|]; simpl; [destruct (forallb compiles rs)|]; by eexists.
Qed.

Lemma upserts_cameras rs f : f_cameras (foldl (fun f r => upsert_rule_tx r f) f rs) = f_cameras f.
Proof. revert f. induction rs as [|r rs IH]; intros f; simpl; [done|]. by rewrite IH. Qed.

Lemma deletes_cameras (D : string -> bool) l f : f_cameras (foldl (fun f r => if D (Rules.id r) then delete_rule_tx (Rules.id r) f else f) f l) = f_cameras f.
Proof. revert f. induction l as [|r l IH]; intros f; simpl; [done|]. rewrite IH. by destruct (D _). Qed.

Lemma upserts_out rs f k : k ∉ Rules.id <$> rs -> f_rules (foldl (fun f r => upsert_rule_tx r f) f rs) !! k = f_rules f !! k.
Proof. revert f. induction rs as [|r rs IH]; intros f Hk; simpl; [done|]. rewrite IH by set_solver. apply lookup_insert_ne. set_solver. Qed.

Lemma upserts_in rs f r : NoDup (Rules.id <$> rs) -> r ∈ rs -> f_rules (foldl (fun f r => upsert_rule_tx r f) f rs) !! Rules.id r = Some (Some r).
Proof.
  revert f. induction rs as [|r0 rs IH]; intros f Hn Hin; simpl; [set_solver|]. apply NoDup_cons in Hn as [Hr Hn].
  apply elem_of_cons in Hin as [<-|Hin]; [|by apply IH]. rewrite upserts_out by done. apply lookup_insert_eq.
Qed.

Lemma deletes_lookup (D : string -> bool) l f k : f_rules (foldl (fun f r => if D (Rules.id r) then delete_rule_tx (Rules.id r) f else f) f l) !! k =
  if bool_decide (k ∈ Rules.id <$> l) && D k then None else f_rules f !! k.
Proof.
  revert f. induction l as [|r l IH]; intros f; simpl; [done|]. rewrite IH. destruct (decide (k = Rules.id r)) as [->|Hk].
  - rewrite (bool_decide_true (Rules.id r ∈ Rules.id r :: _)) by by left. destruct (D (Rules.id r)) eqn:Ed; [|by rewrite andb_false_r]. simpl.
    rewrite lookup_delete_eq. by destruct (_ && _).
  - rewrite (bool_decide_ext (k ∈ Rules.id r :: _) (k ∈ Rules.id <$> l)) by set_solver. destruct (_ && _); [done|].
    destruct (D (Rules.id r)); [|done]. by apply lookup_delete_ne.
Qed.

Lemma quiet_rules eff m prev f r w : apply_rules to_json rules_of compiles eff m prev (mkWorld f []) = (r, w) -> w_turns w = [] /\
  (forall a, r = Ok a -> exists rs existing, rules_of eff = Some rs /\ list_rules f = Some existing /\ managed_keys a = Rules.id <$> rs /\
    f_cameras (w_fleet w) = f_cameras f /\
    f_rules (w_fleet w) = f_rules (foldl (fun f r => upsert_rule_tx r f)
      (foldl (fun f r => if should_delete (retractable m prev (key_set (Rules.id <$> rs))) (key_set (Rules.id <$> rs)) (Rules.id r) then delete_rule_tx (Rules.id r) f else f) f existing) rs)).
Proof.
  unfold apply_rules. destruct (rules_of eff) as [rs|] eqn:Es; [|intros [= <- <-]; by split].
  unfold mbind, se_bind, read_strict, stmt, guard_err. simpl. destruct (forallb _ rs); simpl; [|intros [= <- <-]; by split].
  destruct (list_rules f) as [existing|] eqn:El; simpl; [|intros [= <- <-]; by split].
  match goal with |- context [reload_rules_into_evaluator _ _ (mkWorld ?f2 [])] => destruct (quiet_reload f2) as (g & -> & E1 & E2) end.
  intros [= <- <-]. split; [done|]. intros a [= <-]. exists rs, existing. simpl. rewrite E1, E2, upserts_cameras.
  split_and!; try done. apply (deletes_cameras (should_delete _ _)).
Qed.

(** An apply of rules leaves the rules pushed, and under [Merge] rules of others. *)
Lemma rules_after m prev f f' rs existing : rules_match f -> NoDup (Rules.id <$> rs) -> list_rules f = Some existing ->
  f_rules f' = f_rules (foldl (fun f r => upsert_rule_tx r f)
      (foldl (fun f r => if should_delete (retractable m prev (key_set (Rules.id <$> rs))) (key_set (Rules.id <$> rs)) (Rules.id r) then delete_rule_tx (Rules.id r) f else f) f existing) rs) ->
  rules_match f' /\ (forall r, r ∈ rs -> f_rules f' !! Rules.id r = Some (Some r)) /\
  (forall r, f_rules f' !! Rules.id r = Some (Some r) -> m = Replace \/ Rules.id r ∈ Rules.id <$> rs -> r ∈ rs).
Proof.
  intros Hm Hn Hl E. destruct (list_rules_spec f existing Hm Hl) as (_ & _ & Hin).
  set (D := should_delete (retractable m prev (key_set (Rules.id <$> rs))) (key_set (Rules.id <$> rs))) in *.
  assert (forall k, k ∉ Rules.id <$> rs -> f_rules f' !! k = if bool_decide (k ∈ Rules.id <$> existing) && D k then None else f_rules f !! k) as Hout.
  { intros k Hk. rewrite E, <- deletes_lookup. by apply upserts_out. }
  assert (forall r, r ∈ rs -> f_rules f' !! Rules.id r = Some (Some r)) as Hin' by (intros r Hr; rewrite E; by apply upserts_in).
  assert (forall k, k ∈ Rules.id <$> rs -> exists r, r ∈ rs /\ k = Rules.id r /\ f_rules f' !! k = Some (Some r)) as Hk.
  { intros k (r & -> & Hr)%list_elem_of_fmap. exists r. split_and!; [done..|]. by apply Hin'. }
  split_and!; [|done|].
  - intros k r Hr. destruct (decide (k ∈ Rules.id <$> rs)) as [(r' & _ & -> & E')%Hk|Hno]; [congruence|]. rewrite Hout in Hr by done.
    destruct (_ && _); [done|]. by apply Hm.
  - intros r Hr Hc. destruct (decide (Rules.id r ∈ Rules.id <$> rs)) as [(r' & Hr' & Ei & E')%Hk|Hno]; [congruence|].
    destruct Hc as [->|?]; [|done]. exfalso. assert (D (Rules.id r) = true) as Ed.
    { apply negb_true_iff, bool_decide_eq_false. by rewrite elem_of_key_set. }
    rewrite Hout, Ed, andb_true_r in Hr by done. case_bool_decide as Ee; [done|]. apply Ee.
    apply list_elem_of_fmap_2. by apply Hin.
Qed.

Lemma quiet_text_prompts eff m prev f r w : apply_text_prompts to_json strings_of eff m prev (mkWorld f []) = (r, w) -> w_turns w = [] /\
  (forall a, r = Ok a -> exists ps cams, strings_of eff = Some ps /\ list_cameras (f_cameras f) = Some cams /\ managed_keys a = ps /\
    f_cameras (w_fleet w) = f_cameras (upsert_cameras ((fun c => with_prompts (merged_prompts m (key_set ps) (retractable m prev (key_set ps)) ps (Cameras.prompts c)) c) <$> cams) f)).
Proof.
  unfold apply_text_prompts. destruct (strings_of eff) as [ps|] eqn:Es; [|intros [= <- <-]; by split].
  unfold mbind, se_bind, read_strict, stmt. simpl. destruct (list_cameras (f_cameras f)) as [cams|] eqn:El; simpl; [|intros [= <- <-]; by split].
  intros [= <- <-]. split; [done|]. intros a [= <-]. by exists ps, cams.
Qed.

Lemma quiet_detector_config eff f r w : apply_detector_config to_json model_of eff (mkWorld f []) = (r, w) -> w_turns w = [] /\
  (forall a, r = Ok a -> exists model cams, model_of eff = Some model /\ list_cameras (f_cameras f) = Some cams /\
    f_cameras (w_fleet w) = f_cameras (upsert_cameras (with_model (Some model) <$> cams) f)).
Proof.
  unfold apply_detector_config. destruct (model_of eff) as [model|] eqn:Es; [|intros [= <- <-]; by split].
  unfold mbind, se_bind, read_strict, stmt, guard_err. simpl. destruct (model_is_finite model); simpl; [|intros [= <- <-]; by split].
  destruct (list_cameras (f_cameras f)) as [cams|] eqn:El; simpl; [|intros [= <- <-]; by split].
  intros [= <- <-]. split; [done|]. intros a [= <-]. by exists model, cams.
Qed.

(** ** The digests of what was applied *)

Lemma managed_after cat f req ks now : fleet_marker_get cat f = Some (applied_marker float_text sha256_hex req ks now) ->
  merge_managed true cat f = match mode req with Replace => None | Merge => Some ks end.
Proof. unfold merge_managed. intros ->. simpl. by destruct (mode req). Qed.

#[local] Instance by_rule_id_comparator : Comparator by_rule_id.
Proof. split; unfold by_rule_id; intros; [apply cmp_opp|by apply cmp_eq|by eapply cmp_lt]. Qed.

Lemma filter_all_true {A} (g : A -> bool) l : (forall x, x ∈ l -> g x = true) -> List.filter g l = l.
Proof. induction l as [|x l IH]; intros H; simpl; [done|]. rewrite (H x) by by left. f_equal. apply IH. intros y Hy. apply H. by right. Qed.

Lemma rules_digest m prev f f' rs existing : rules_match f -> NoDup (Rules.id <$> rs) -> rs <> [] -> list_rules f = Some existing ->
  f_rules f' = f_rules (foldl (fun f r => upsert_rule_tx r f)
      (foldl (fun f r => if should_delete (retractable m prev (key_set (Rules.id <$> rs))) (key_set (Rules.id <$> rs)) (Rules.id r) then delete_rule_tx (Rules.id r) f else f) f existing) rs) ->
  forall o, hash_rules rule_json float_text sha256_hex (match m with Replace => None | Merge => Some (Rules.id <$> rs) end) f' = Some o ->
  o = Some (hash (JArray (map rule_json (sort_by by_rule_id rs)))).
Proof.
  intros Hm Hn Hne Hl E o. destruct (rules_after m prev f f' rs existing Hm Hn Hl E) as (Hm' & Hin & Hback). unfold hash_rules.
  destruct (list_rules f') as [rs'|] eqn:El'; simpl; [|done]. destruct (list_rules_spec _ _ Hm' El') as (Hn' & _ & Hin').
  set (kept := match match m with Replace => None | Merge => Some (Rules.id <$> rs) end with Some keys => _ | None => rs' end).
  assert (kept ≡ₚ rs) as Hp.
  { assert (forall r, r ∈ kept <-> r ∈ rs' /\ (m = Replace \/ Rules.id r ∈ Rules.id <$> rs)) as Hk.
    { intros r. unfold kept. destruct m; [naive_solver|]. rewrite list_elem_of_In, filter_In, <- list_elem_of_In, bool_decide_eq_true, elem_of_key_set. naive_solver. }
    apply NoDup_Permutation.
    - unfold kept. destruct m; [done|]. by apply NoDup_ListNoDup, List.NoDup_filter, NoDup_ListNoDup.
    - by apply NoDup_fmap_1 in Hn.
    - intros r. rewrite Hk, Hin'. split; [intros [? ?]; by apply Hback|]. intros Hr. split; [by apply Hin|]. right. by apply list_elem_of_fmap_2. }
  clearbody kept. destruct kept as [|r kept]; [by apply Permutation_nil_l in Hp|]. intros [= <-].
  rewrite <- (sort_by_unique by_rule_id (r :: kept) rs); [done| |done].
  intros x y Hx Hy Exy. rewrite Hp in Hx, Hy.
  apply String.compare_eq_iff in Exy. apply Hin in Hx, Hy. rewrite Exy in Hx. congruence.
Qed.

Lemma text_prompts_digest m prev ps cams : cams <> [] -> ps <> [] ->
  (forall c, c ∈ cams -> exists own, Cameras.prompts c = merged_prompts m (key_set ps) (retractable m prev (key_set ps)) ps own) ->
  hash_text_prompts float_text sha256_hex (match m with Replace => None | Merge => Some ps end) cams = Some (hash (JArray (map JString ps))).
Proof.
  intros Hc Hp H. destruct cams as [|c cams]; [done|]. unfold hash_text_prompts. cbn [head mbind option_bind]. destruct m.
  - assert (forall x, x ∈ c :: cams -> Cameras.prompts x = ps) as E by (intros x Hx; by destruct (H x Hx) as [own ->]).
    rewrite (E c) by by left. rewrite (proj2 (forallb_forall _ _)).
    + simpl. by destruct ps.
    + intros x Hx%list_elem_of_In. rewrite (E x Hx). by apply bool_decide_eq_true.
  - rewrite (filter_all_true (fun p => forallb (fun c => bool_decide (p ∈ Cameras.prompts c)) (c :: cams)) ps); [by destruct ps|].
    intros p Hpp. apply forallb_forall. intros x Hx%list_elem_of_In. apply bool_decide_eq_true. destruct (H x Hx) as [own ->]. apply elem_of_app. by right.
Qed.

Lemma shared_model_all model v cams : model_json model = Some v -> (forall c, c ∈ cams -> model_override c = Some model) ->
  shared_model model_json float_text (Some (canonical_json float_text v)) cams = Some (Some (canonical_json float_text v)).
Proof.
  intros Hv. induction cams as [|c cams IH]; intros H; simpl; [done|]. rewrite (H c) by by left. simpl. rewrite Hv. unfold str_eqb. rewrite bool_decide_true by done. apply IH. intros x Hx. apply H. by right.
Qed.

Lemma detector_digest model v cams : cams <> [] -> model_json model = Some v -> (forall c, c ∈ cams -> model_override c = Some model) ->
  hash_detector_config model_json float_text sha256_hex cams = Some (hash v).
Proof.
  intros Hc Hv H. destruct cams as [|c cams]; [done|]. unfold hash_detector_config. simpl. rewrite (H c) by by left. simpl. rewrite Hv.
  rewrite (shared_model_all model v cams Hv); [done|]. intros x Hx. apply H. by right.
Qed.

(** After a fleet apply that no request and no failure disturbs, the digest this appliance reports for
    the category is the hash of what the cloud pushed: the rules in the order of their ids, the prompts in
    the order pushed, the model. So there is no drift to see, whatever the mode, and whatever
    entries of its own the appliance keeps under [merge]. *)
Lemma applied_settings_show_no_drift cat actor client req f n w h :
  rules_match f -> ids_match (f_cameras f) -> list_cameras (f_cameras f) <> Some [] ->
  handler cat actor client req (mkWorld f []) = (Ok n, w) ->
  compute rule_json model_json schedule_json float_text sha256_hex true (w_fleet w) = Some h ->
  (cat = "rules"%string -> forall rs, rules_of (effective req) = Some rs -> NoDup (Rules.id <$> rs) -> rs <> [] ->
    ch_rules h = Some (hash (JArray (map rule_json (sort_by by_rule_id rs))))) /\
  (cat = "text_prompts"%string -> forall ps, strings_of (effective req) = Some ps -> ps <> [] ->
    ch_text_prompts h = Some (hash (JArray (map JString ps)))) /\
  (cat = "detector_config"%string -> forall model v, model_of (effective req) = Some model -> model_json model = Some v ->
    ch_detector_config h = Some (hash v)).
Proof.
  intros Hr Hi Hc Ha Hh. unfold compute in Hh.
  destruct (hash_rules _ _ _ _ _) as [hr|] eqn:Ehr; cbn [mbind option_bind] in Hh; [|done]. destruct (list_cameras (f_cameras (w_fleet w))) as [cams'|] eqn:El'; cbn [mbind option_bind] in Hh; [|done].
  apply (inj Some) in Hh as <-. cbn [ch_rules ch_text_prompts ch_detector_config]. split_and!; intros ->.
  - intros rs Ers Hn Hne. destruct (apply_rules to_json rules_of compiles (effective req) (mode req) (owned "rules" f) (mkWorld f [])) as [r w1] eqn:E.
    destruct (quiet_rules _ _ _ _ _ _ E) as [Hw1 HE].
    destruct (quiet_handler _ _ _ _ _ _ _ Ha) as (a & f1 & E1 & [A1 A2] & Em); [by unfold apply_category; simpl; rewrite E|].
    unfold apply_category in E1. simpl in E1. rewrite E in E1. injection E1 as -> ->. destruct (HE a eq_refl) as (rs' & existing & Ers' & El & Ek & _ & Er).
    rewrite Ers in Ers'. injection Ers' as <-. simpl in Er. rewrite <- A1 in Er. rewrite (managed_after _ _ _ _ _ Em), Ek in Ehr.
    by eapply rules_digest.
  - intros ps Eps Hne. destruct (apply_text_prompts to_json strings_of (effective req) (mode req) (owned "text_prompts" f) (mkWorld f [])) as [r w1] eqn:E.
    destruct (quiet_text_prompts _ _ _ _ _ _ E) as [Hw1 HE].
    destruct (quiet_handler _ _ _ _ _ _ _ Ha) as (a & f1 & E1 & [A1 A2] & Em); [by unfold apply_category; simpl; rewrite E|].
    unfold apply_category in E1. simpl in E1. rewrite E in E1. injection E1 as -> ->. destruct (HE a eq_refl) as (ps' & cams & Eps' & El & Ek & Er).
    rewrite Eps in Eps'. injection Eps' as <-. simpl in Er. rewrite <- A2 in Er. rewrite (managed_after _ _ _ _ _ Em), Ek.
    rewrite Er in El'. apply cameras_after in El' as [Hsub Hnil]; [|done..]. apply (text_prompts_digest _ (owned "text_prompts" f)); [by intros ->; rewrite Hnil in El|done|].
    intros c Hcc%Hsub. apply list_elem_of_fmap in Hcc as (c0 & -> & _). by exists (Cameras.prompts c0).
  - intros model v Emo Ev. destruct (apply_detector_config to_json model_of (effective req) (mkWorld f [])) as [r w1] eqn:E.
    destruct (quiet_detector_config _ _ _ _ E) as [Hw1 HE].
    destruct (quiet_handler _ _ _ _ _ _ _ Ha) as (a & f1 & E1 & [A1 A2] & Em); [by unfold apply_category; simpl; rewrite E|].
    unfold apply_category in E1. simpl in E1. rewrite E in E1. injection E1 as -> ->. destruct (HE a eq_refl) as (model' & cams & Emo' & El & Er).
    rewrite Emo in Emo'. injection Emo' as <-. simpl in Er. rewrite <- A2 in Er. rewrite Er in El'. apply cameras_after in El' as [Hsub Hnil]; [|done..].
    apply (detector_digest model); [by intros ->; rewrite Hnil in El|done|]. intros c Hcc%Hsub. by apply list_elem_of_fmap in Hcc as (c0 & -> & _).
Qed.
End quiet.

(** ** Examples *)

Definition demo_prompts_digest (f : Fleet SinkConfig) : option (option string) :=
  ch_text_prompts <$> compute (fun _ => JNull) (fun _ => None) (fun _ => JNull) (fun _ => EmptyString) id true f.

(** Prompts of the appliance's own, before and after the apply, are no drift; dropping a prompt of the
    fleet's on one camera is. *)
Example own_prompts_are_no_drift :
  let pushed := demo_steps [demo_apply [] Merge ["person"; "car"]%string] (demo_fleet [demo_camera 1 ["my-dog"%string]; demo_camera 2 []]) in
  let edited := demo_steps [Local (LCamera (demo_camera 2 ["car"; "bike"; "person"]%string))] pushed in
  let dropped := demo_steps [Local (LCamera (demo_camera 2 ["car"; "bike"]%string))] pushed in
  let digest l := Some (Some (sha256_canonical (fun _ => EmptyString) id (JArray (JString <$> l)))) in
  demo_prompts_digest pushed = digest ["person"; "car"]%string /\ demo_prompts_digest edited = digest ["person"; "car"]%string /\
  demo_prompts_digest dropped = digest ["car"%string].
Proof. vm_compute. done. Qed.

Lemma applied_settings_show_no_drift_witness :
  exists h, compute (fun _ => JNull) (fun _ => None) (fun _ => JNull) (fun _ => EmptyString) id true
    (demo_steps [demo_apply [] Merge ["person"; "car"]%string] (demo_fleet [demo_camera 1 ["my-dog"%string]])) = Some h /\
  ch_text_prompts h = Some (sha256_canonical (fun _ => EmptyString) id (JArray (JString <$> ["person"; "car"]%string))).
Proof.
  set (f := demo_fleet [demo_camera 1 ["my-dog"%string]]).
  set (req := mkReq (JArray (JString <$> ["person"; "car"]%string)) None Merge).
  set (run := post_admin_fleet_apply id Some (fun _ => EmptyString) (fun _ => None) demo_strings (fun _ => None) (fun _ => None) (fun _ => None) (fun _ => None)
    (fun _ => true) (fun _ => true) [] (fun _ => EmptyString) id (fun _ => None) false (fun _ => false) (fun _ => false)
    "text_prompts"%string None (mkClient "10.0.0.1" None) req (mkWorld f [])).
  change (demo_steps _ _) with (w_fleet run.2).
  assert (exists n, run.1 = Ok n) as [n En] by (by exists 1%nat; vm_compute).
  destruct (compute (fun _ => JNull) (fun _ => None) (fun _ => JNull) (fun _ => EmptyString) id true (w_fleet run.2)) as [h|] eqn:Eh;
    [|exfalso; revert Eh; by vm_compute].
  exists h. split; [done|].
  eapply (applied_settings_show_no_drift id Some (fun _ => EmptyString) (fun _ => None) demo_strings (fun _ => None) (fun _ => None) (fun _ => None) (fun _ => None)
    (fun _ => true) (fun _ => true) [] (fun _ => EmptyString) id (fun _ => None) false (fun _ => false) (fun _ => false)
    (fun _ => JNull) (fun _ => None) (fun _ => JNull) "text_prompts"%string None (mkClient "10.0.0.1" None) req f n run.2 h); [..|exact Eh|done| |done].
  - intros k r. unfold f. simpl. by rewrite lookup_empty.
  - intros i c. unfold f. simpl. rewrite lookup_insert_Some, lookup_empty. by intros [[<- [= <-]]|[_ ?]].
  - by vm_compute.
  - fold run. by rewrite <- En, <- surjective_pairing.
  - by vm_compute.
Defined.
